(* ===== verification/_CoqProject ===== *)
-Q . S2P
Prelude.v
Ast.v
ExprText.v
Steps.v
Calculator.v
Differ.v
SchemaMap.v
Refine.v
Focus.v
RoundTrip.v
Effects.v
Persistence.v
Applier.v
Commands.v
SqlSchema.v
SqlDiffer.v
SqlRender.v
SqlInfer.v
SqlStatements.v
Destructive.v
DataLoss.v
Ddl.v
Replay.v
ReplayRun.v
Dml.v
Converter.v
SchemaCalc.v
CalcFacts.v
Models.v
Convert.v
ConvertFacts.v
Projections.v
Filters.v
ValueOrder.v
SqlRead.v
ReadFacts.v
ReadSamples.v
Reading.v
QueryAst.v
QueryGraph.v
GraphFacts.v
GraphRules.v
Reloads.v
GraphSamples.v
DmValues.v
Directives.v
Lift.v
Validate.v
PrecheckFacts.v
LiftFacts.v
Standardise.v
StandardFacts.v
Accepted.v
Sanitize.v
Introspect.v
IntrospectFacts.v
Introspected.v
NestedRead.v
Interpreter.v
NestedFacts.v
Joining.v
Related.v
InterpretFacts.v
ExprFacts.v
QueryDocument.v
ReadBuilder.v
WriteBuilder.v
WriteQueries.v
QueryParser.v
ResponseIr.v
Executor.v
BuildFacts.v
WriteFacts.v
ParserFacts.v
ResponseFacts.v
Compaction.v
ExecSamples.v
Inflector.v
SchemaBuilder.v
SchemaFacts.v
