(* ===== verification/Prelude.v ===== *)
(** * Verification of the Prisma engines

    This library models the migration engine, the datamodel library, introspection
    and the query engine of the repository and proves what makes them correct. The migration engine
    keeps a history of migrations in the user's database. A migration is a list
    of steps on the datamodel (the schema the user writes) together with the SQL
    steps that bring the database from the previous to the next datamodel. The
    query engine converts the datamodel to its own models and turns queries on
    them into SQL.

    ** The program and the files that model it

    - The datamodel's syntax tree (libs/datamodel/core/src/ast): [Ast], its
      node types and the lookups of SchemaAst; [ExprText], the text of
      expressions as the renderer writes it and the unescaping of the parser.
    - Migration steps (migration-connector/src/steps.rs): [Steps].
    - The datamodel calculator (core/src/migration/datamodel_calculator.rs),
      which runs steps on a syntax tree: [Calculator]. Mutable borrows of the
      source are values of [RefMut] (below): what is read, and the structure
      that results from writing.
    - The datamodel differ (core/src/migration/datamodel_differ.rs and its modules), which
      computes the steps between two syntax trees: [Differ].
    - The specification of the two: [SchemaMap] reads a syntax tree as nested
      finite maps and gives each step its meaning on maps; [Refine] shows that
      the calculator implements that meaning; [Focus] and [RoundTrip] show that
      the differ's steps lead from one tree to the other. [Steps] also has the
      schemas the examples use.
    - Migration persistence (migration-connector/src/migration_persistence.rs,
      sql-migration-connector/src/sql_migration_persistence.rs): [Persistence],
      with the interface as the class MigrationPersistence, its contract as the
      class PersistenceContract, and the SQL implementation as an instance that
      is proved to satisfy the contract.
    - The migration applier and the SQL step applier (migration_applier.rs,
      sql_database_step_applier.rs): [Applier].
    - The commands of the engine (core/src/commands): [Commands], over the
      classes DatamodelLib and MigrationConnector. [Effects] is the state and
      error monad of the async functions, with the warnings and errors that the
      commands pass on.
    - SQL schemas and their comparison (libs/sql-schema-describer/src/lib.rs,
      sql_schema_differ.rs and its modules, sql_migration.rs): [SqlSchema],
      [SqlDiffer].
    - From two SQL schemas to the steps that run (expanded_alter_column.rs,
      sql_database_migration_inferrer.rs, its module sqlite.rs): [SqlInfer].
    - The SQL text (sql_renderer, sql_database_step_applier.rs): [SqlRender],
      [SqlStatements].
    - The checker of destructive changes (sql_destructive_changes_checker.rs):
      [Destructive]; [DataLoss] relates its warnings to the statements.
    - The meaning of SQL steps: [Ddl] is an abstract database with the rules of
      its DDL; [Replay] and [ReplayRun] run the differ's steps on it.
    - The datamodel's types (libs/datamodel/core/src/dml): [Dml]. Its relations
      (prisma-models/src/datamodel_converter.rs): [Converter].
    - The validation of a datamodel (libs/datamodel/core/src: error, common,
      validator; libs/datamodel/connectors): [DmValues], errors and their
      collection, arguments of directives and values of expressions;
      [Directives], the builtin directives, read and written; [Lift], from the
      syntax tree to the datamodel and back; [Validate], prechecks and checks;
      [Standardise], the completion of relations and the pipeline of phases.
      [PrecheckFacts], [LiftFacts], [StandardFacts] show what each phase
      guarantees, [Accepted] what the pipeline does, with examples.
    - The SQL schema calculator (sql_schema_calculator.rs, datamodel_helpers.rs),
      from a datamodel to an SQL schema: [SchemaCalc], [CalcFacts].
    - Introspection (sql-introspection-connector/src), from an SQL schema to a
      datamodel: [Sanitize], names of the database made identifiers;
      [Introspect], models, relations, opposite fields, commented out parts and
      the guessed version; [IntrospectFacts], [Introspected].
    - The models of the query engine (libs/prisma-models/src): [Models];
      [Convert] and [ConvertFacts], the conversion of a datamodel to them;
      [Projections], projections, records and the order of values.
    - Filters and query arguments (query-connector/src): [Filters], with the
      batches of long lists; [ValueOrder], their order and meaning.
    - Reading (sql-query-connector/src and prisma-models/src/sql_ext):
      [SqlRead], over the class Quaint of the query builder; [ReadFacts] states
      what a database answers to a statement (the class SqlDb with its laws),
      [Reading] has the theorems and [ReadSamples] a small database.
    - The query graph (query-engine/core/src/query_ast, query_graph): [QueryAst],
      the reads and writes a node holds; [QueryGraph], the graph, its rules and
      its final transformations, over the class Petgraph of the graph library
      (laws in PetgraphOk); [GraphFacts] the searches, [GraphRules] the rules,
      [Reloads] the reloading of missing fields, [GraphSamples] examples.
    - The interpreter (query-engine/core/src/interpreter): [NestedRead], reads
      with nested reads, over the classes ReadOperations and WriteOperations of
      the connector; [Interpreter], expressions, their interpretation and the
      translation of a query graph into an expression.
      [NestedFacts], [Joining], [Related] show what nested reads return, with a
      blog as an example; [InterpretFacts] and [ExprFacts] show that translated
      graphs run.
    - The path of a query (query-engine/core/src, query-engine/src):
      [QueryDocument], documents, the types of the query schema and parsed
      values; [QueryParser], the parser against the schema (classes JsonNumbers
      and DocumentParsers for what other crates parse); [ReadBuilder], filters
      and read queries; [WriteBuilder] and [WriteQueries], the graphs of writes
      with all nested writes; [ResponseIr], the response; [Executor], an
      operation from document to response, over the class
      TransactionOperations, and the handling of requests. [BuildFacts] and
      [WriteFacts] show how graphs grow and that the recursion over nested data
      ends, [Executor] also what execution keeps, [ParserFacts] what the parser
      accepts, [ResponseFacts] what a response contains, [Compaction] how
      batches are answered by one query; [ExecSamples] runs operations on a
      small database.
    - The query schema (libs/prisma-inflector, query-engine/core/src/schema_builder):
      [Inflector], the plurals in the names of operations; [SchemaBuilder], the
      types and operations that are built for the models, with the caches of the
      builders and the references between types as a store; [SchemaFacts].

    ** What the theorems show

    - Datamodel: the differ and the calculator are inverse on well-formed
      schemas that are migratable (no source is deleted, no alias changes its
      arity, no value with a directive is added to an enum), and the calculator
      implements the map specification of steps other than the deletion of
      sources, without error or panic where the specification allows the steps
      (refinement).
    - History: what is stored is read back, with dates from 1970 on in whole
      milliseconds; a theorem says which dates are lost and which panic; the
      last migration is the newest
      successful one; applying and rolling back run the statements of every
      step once and in order and record exactly what happened, on success and
      at every point of failure.
    - Commands: those that ask do not write; warnings block applying; an
      applied migration is refused; end to end, applying records the migration
      and makes it the last one, and a failure leaves the last one in place.
    - SQL: the differ's steps run on the abstract database and reach the next
      schema in what the differ compares, primary keys apart, when no index name
      is reused and no column that keys or indexes need is removed or recreated
      (refinement); comparing a schema with itself gives no steps (with
      the exact exception); inference and checking always answer; the clauses
      for a column change lead to the next column; the corrected steps suit
      SQLite; literals read back; no warning means that the original steps
      destroy no data, and the correction for changed id types breaks that
      promise. The schema calculated from a datamodel that meets more than the
      validation checks (stated in the theorem) is closed: keys and indexes name
      existing tables and columns.
    - Validation: the prechecks decide the uniqueness of names; the resolution
      of types through aliases ends and decides; what the pipeline accepts, the
      schema calculator turns into a closed SQL schema, under conditions that
      the pipeline does not check; a theorem states what it accepts too much.
    - Introspection: sanitized names are identifiers that remember the original;
      the introspected datamodel describes every table, column and foreign key,
      when every name has a letter and the referenced models are kept.
    - Query engine models: every relation field has its opposite, which leads
      back to it.
    - Reading: an unbatched query returns the requested page of the requested
      order; a batched one exactly the matching records, in the cases stated,
      and not in others; a cursor does not separate ties.
    - Query graph: the recursive searches decide reachability; the checked
      operations keep the graph's rules; after reloading, every node that a
      projection reads from provides the fields; one theorem states where the
      swapping of marked nodes leaves a parent behind.
    - Interpreter: a nested read, of the parents that were read before or are
      given, gives every parent the page of its own children when parents and
      links are told apart by their values (a theorem shows the order lost in
      many to many reads); a graph in which
      the parents of every node are related is translated completely, each node
      once, and no binding is missing when the expression is interpreted.
    - Operations: what the parser accepts has the types of the schema, and its
      recursion ends; the graph of an operation, with all nested writes, has no
      cycle, and the recursion over nested data ends; a write happens as a whole
      or not at all (over the class TransactionsOk); the response has an object
      per record with the values of the record; a batch that is compacted
      is answered like its single queries.
    - Query schema: a built schema keeps the types that the builders' caches
      hold, and every reference leads to one of them; the operations on one
      record are there exactly when their input types have fields; the recursion
      of the builders through their caches ends; one theorem shows the types of
      compound keys shared by name between models.

    ** Modelling

    Fallible code returns [outcome], with panics ([unwrap], [unimplemented!],
    failed assertions) as values, so that their absence is provable. Code
    outside the repository is a parameter: the generated parser of expressions,
    chrono, serde_json and quaint (classes Externals, Connection, ExternalsOk,
    ConnectionOk, Quaint, SqlDb), uuid and rust_decimal (ValueTypes, ValueOrd),
    itertools (Itertools), the parsing of decimals and dates and the environment
    (ValueParsers), letters outside ASCII (Unicode), the regular expressions of
    ignored tables, the count queries (CountQueries, Counts), JSON numbers and
    the parsing of JSON, dates and uuids in documents (JsonNumbers,
    DocumentParsers), transactions (TransactionOperations, TransactionsOk),
    regular expressions and letter case in plurals (Inflections, InflectionsOk).
    Each class of assumptions has an instance, used by the witnesses. The loops of the applier have no bound in the source;
    their model takes fuel and the theorems show that more fuel than there are
    steps gives the result. The recursive searches of the query graph take the
    depth of the stack as fuel; as many calls as there are nodes are enough. So
    does the resolution of type aliases, for which one call more than there are
    aliases is enough. The parser of values and the builders of nested writes
    take the depth of their input as fuel, and theorems give them the unbounded
    equations of the source. The builders of the query schema take two more than
    there are models and relation fields: each call below the first adds a key
    to a cache, and a theorem gives them the equations of the source too.

    ** Not modelled

    The pest grammar's generated parser, the layout of the renderer, the
    catalogue queries of the describers, servers, command lines and JSON-RPC,
    error texts for users, test kits, connections: they are input and output, or
    generated. *)
From stdpp Require Export prelude strings gmap fin_maps.

(** ** Notations of the development *)
Declare Scope prisma_scope.
Delimit Scope prisma_scope with prisma.
Notation "x ≟ y" := (bool_decide (x = y)) (at level 70, no associativity) : prisma_scope.
Abbreviation iter_filter := List.filter.
Abbreviation iter_find := List.find.
Abbreviation iter_any := List.existsb.
Abbreviation iter_all := List.forallb.

Open Scope prisma_scope.

Create HintDb prisma discriminated.

(** ** Outcomes of fallible Rust code

    [Ok] and [Err] are the two constructors of [Result]; [Panic] stands for a
    call of [panic!], [unwrap] on a missing value, [unimplemented!] and the
    like, which ends the computation. *)
Inductive outcome (E A : Type) : Type :=
| Ok (a : A)
| Err (e : E)
| Panic (msg : string).
Arguments Ok {E A} a.
Arguments Err {E A} e.
Arguments Panic {E A} msg.

#[export] Instance outcome_ret E : MRet (outcome E) := fun _ a => Ok a.
#[export] Instance outcome_bind E : MBind (outcome E) := fun _ _ f m =>
  match m with Ok a => f a | Err e => Err e | Panic p => Panic p end.
#[export] Instance outcome_fmap E : FMap (outcome E) := fun _ _ f m =>
  match m with Ok a => Ok (f a) | Err e => Err e | Panic p => Panic p end.

(** [Option::ok_or_else] and [Option::unwrap]. *)
Definition ok_or {E A} (e : E) (o : option A) : outcome E A :=
  match o with Some a => Ok a | None => Err e end.
Definition unwrap {E A} (msg : string) (o : option A) : outcome E A :=
  match o with Some a => Ok a | None => Panic msg end.
(** [Result::map_err]. *)
Definition map_err {E F A} (f : E -> F) (m : outcome E A) : outcome F A :=
  match m with Ok a => Ok a | Err e => Err (f e) | Panic p => Panic p end.

(** A [for] loop whose body updates a state and may leave early. *)
Fixpoint for_each {E S A} (f : S -> A -> outcome E S) (l : list A) (s : S) : outcome E S :=
  match l with
  | [] => Ok s
  | a :: l => f s a ≫= for_each f l
  end.

(** [all] and [find(..).is_some()] over predicates that may panic. *)
Fixpoint all_m {E A} (f : A -> outcome E bool) (l : list A) : outcome E bool :=
  match l with
  | [] => Ok true
  | a :: l => b ← f a; if b : bool then all_m f l else Ok false
  end.
Fixpoint any_m {E A} (f : A -> outcome E bool) (l : list A) : outcome E bool :=
  match l with
  | [] => Ok false
  | a :: l => b ← f a; if b : bool then Ok true else any_m f l
  end.
Fixpoint filter_m {E A} (f : A -> outcome E bool) (l : list A) : outcome E (list A) :=
  match l with
  | [] => Ok []
  | a :: l => b ← f a; l' ← filter_m f l; Ok (if b : bool then a :: l' else l')
  end.
Fixpoint map_m {E A B} (f : A -> outcome E B) (l : list A) : outcome E (list B) :=
  match l with
  | [] => Ok []
  | a :: l => b ← f a; l' ← map_m f l; Ok (b :: l')
  end.

(** ** Mutable borrows

    [&mut A] into a part of an [S]: the value read through the borrow and the
    [S] that results from writing through it. *)
Record RefMut (S A : Type) : Type := mk_ref { deref : A; write : A -> S }.
Arguments mk_ref {S A} _ _.
Arguments deref {S A} _.
Arguments write {S A} _ _.

(** Borrowing a part of what is borrowed. *)
Definition reborrow {S A B} (r : RefMut S A) (r' : RefMut A B) : RefMut S B :=
  mk_ref (deref r') (fun b => write r (write r' b)).

(** [iter_mut().find_map(..)]: the first element on which [sel] answers. *)
Fixpoint find_map_mut {A B} (sel : A -> option B) (inj : B -> A) (l : list A) :
    option (RefMut (list A) B) :=
  match l with
  | [] => None
  | a :: l =>
      match sel a with
      | Some b => Some (mk_ref b (fun b' => inj b' :: l))
      | None => (fun r => mk_ref (deref r) (fun b' => a :: write r b')) <$> find_map_mut sel inj l
      end
  end.

(** [iter_mut().find(..)]. *)
Definition find_mut {A} (p : A -> bool) : list A -> option (RefMut (list A) A) :=
  find_map_mut (fun a => if p a then Some a else None) id.

(** ** The databases of the SQL connector *)
Inductive SqlFamily : Type := Sqlite | Postgres | Mysql.
#[export] Instance SqlFamily_eq_dec : EqDecision SqlFamily.
Proof. solve_decision. Defined.

(** ** Tactics *)
(** Case analysis on the next boolean test of the goal or of a hypothesis. *)
Ltac case_bool :=
  match goal with
  | |- context [bool_decide ?P] => destruct (bool_decide_reflect P); simplify_eq/=
  | H : context [bool_decide ?P] |- _ => destruct (bool_decide_reflect P); simplify_eq/=
  end.
(** Invert an equation between a monadic computation and [Ok]. *)
Ltac inv_ok :=
  repeat match goal with
  | H : mbind _ ?m = Ok _ |- _ =>
      let E := fresh "E" in destruct m eqn:E; simpl in H; try discriminate H
  | H : Ok _ = Ok _ |- _ => injection H as H; subst
  | H : ok_or _ ?m = Ok _ |- _ =>
      let E := fresh "E" in destruct m eqn:E; simpl in H; try discriminate H
  | H : unwrap _ ?m = Ok _ |- _ =>
      let E := fresh "E" in destruct m eqn:E; simpl in H; try discriminate H
  end.

(** ** Lists and borrows *)
Lemma find_map_mut_spec {A B} (sel : A -> option B) (inj : B -> A) l r :
  find_map_mut sel inj l = Some r ->
  exists l1 a l2, l = l1 ++ a :: l2 /\ sel a = Some (deref r) /\
    Forall (fun x => sel x = None) l1 /\ forall b, write r b = l1 ++ inj b :: l2.
Proof.
  revert r; induction l as [|a l IH]; intros r; simpl; [done|].
  destruct (sel a) as [b|] eqn:Ha.
  - intros [= <-]; exists [], a, l; naive_solver.
  - intros (r' & Hr' & ->)%fmap_Some.
    destruct (IH _ Hr') as (l1 & a' & l2 & -> & ? & ? & Hw).
    exists (a :: l1), a', l2; simpl; split_and!; auto. intros b; by rewrite Hw.
Qed.

Lemma find_map_mut_None {A B} (sel : A -> option B) (inj : B -> A) l :
  find_map_mut sel inj l = None <-> Forall (fun x => sel x = None) l.
Proof.
  induction l as [|a l IH]; simpl; [by split|].
  destruct (sel a) as [b|] eqn:Ha.
  { split; [done|]. intros H. inversion H. congruence. }
  rewrite List.Forall_cons_iff.
  destruct (find_map_mut sel inj l); simpl; [|tauto].
  split; [done|]. intros [_ H]. apply IH in H. done.
Qed.

Lemma find_map_mut_find {A B} (sel : A -> option B) (inj : B -> A) l :
  deref <$> find_map_mut sel inj l = head (omap sel l).
Proof.
  induction l as [|a l IH]; csimpl; [done|].
  destruct (sel a); simpl; [done|].
  rewrite <-IH. by destruct (find_map_mut sel inj l).
Qed.

Lemma find_mut_find {A} (p : A -> bool) l : deref <$> find_mut p l = iter_find p l.
Proof.
  unfold find_mut; rewrite find_map_mut_find.
  induction l as [|a l IH]; simpl; [done|]. by destruct (p a).
Qed.

Lemma iter_find_app {A} (p : A -> bool) l1 l2 :
  iter_find p (l1 ++ l2) =
  match iter_find p l1 with Some x => Some x | None => iter_find p l2 end.
Proof. induction l1 as [|a l1 IH]; simpl; [done|]. by destruct (p a). Qed.

Lemma iter_find_None {A} (p : A -> bool) l :
  iter_find p l = None <-> forall x, x ∈ l -> p x = false.
Proof.
  induction l as [|a l IH]; simpl.
  - split; [intros _ x Hx; by apply elem_of_nil in Hx|done].
  - destruct (p a) eqn:Ha.
    + split; [done|]. intros H. specialize (H a (list_elem_of_here _ _)). congruence.
    + rewrite IH. split; intros H x; [intros [->|?]%elem_of_cons; auto|].
      intros Hx. apply H. by constructor.
Qed.

Lemma iter_find_Some {A} (p : A -> bool) l x :
  iter_find p l = Some x -> x ∈ l /\ p x = true.
Proof.
  induction l as [|a l IH]; simpl; [done|].
  destruct (p a) eqn:Ha.
  - intros [= <-]. split; [constructor|done].
  - intros [? ?]%IH. split; [by constructor|done].
Qed.

Lemma iter_filter_elem {A} (p : A -> bool) l x :
  x ∈ iter_filter p l <-> x ∈ l /\ p x = true.
Proof. rewrite !list_elem_of_In. apply filter_In. Qed.

Lemma iter_filter_comm {A} (p q : A -> bool) l :
  iter_filter p (iter_filter q l) = iter_filter q (iter_filter p l).
Proof.
  induction l as [|a l IH]; simpl; [done|].
  destruct (q a) eqn:Hq, (p a) eqn:Hp; simpl; rewrite ?Hq, ?Hp, IH; done.
Qed.

Lemma iter_filter_all {A} (p : A -> bool) l : (forall x, x ∈ l -> p x = true) -> iter_filter p l = l.
Proof.
  induction l as [|a l IH]; simpl; intros H; [done|].
  rewrite H by constructor. f_equal. apply IH. intros x Hx. apply H. by constructor.
Qed.

(** ** Lists read as finite maps

    Rust code that searches a [Vec] by name sees the first element with that
    name; [kmap] is the finite map such code observes. *)
Section kmap.
Context {A V : Type} (key : A -> string) (val : A -> V).

Definition kmap (l : list A) : gmap string V :=
  list_to_map ((fun x => (key x, val x)) <$> l).

Definition by_key (k : string) : A -> bool := fun x => key x ≟ k.

Lemma kmap_nil : kmap [] = ∅.
Proof. done. Qed.

Lemma kmap_cons x l : kmap (x :: l) = <[key x := val x]> (kmap l).
Proof. done. Qed.

Lemma kmap_lookup l k : kmap l !! k = val <$> iter_find (by_key k) l.
Proof.
  induction l as [|a l IH]; [done|].
  rewrite kmap_cons, lookup_insert, IH; simpl. unfold by_key at 2. by case_bool; case_decide.
Qed.

Lemma kmap_app l1 l2 : kmap (l1 ++ l2) = kmap l1 ∪ kmap l2.
Proof. unfold kmap. rewrite fmap_app. apply list_to_map_app. Qed.

Lemma kmap_None l k : kmap l !! k = None <-> k ∉ key <$> l.
Proof.
  rewrite kmap_lookup, fmap_None, iter_find_None, list_elem_of_fmap. unfold by_key.
  split; [intros H (x & -> & Hx)|intros H x Hx].
  - specialize (H _ Hx). by case_bool.
  - case_bool; [|done]. destruct H; eauto.
Qed.

Lemma kmap_snoc l x :
  key x ∉ key <$> l -> kmap (l ++ [x]) = <[key x := val x]> (kmap l).
Proof.
  intros Hx%kmap_None. rewrite kmap_app. rewrite kmap_cons.
  apply map_eq; intros k. rewrite lookup_union, !lookup_insert. case_decide; subst.
  - by rewrite Hx.
  - by destruct (kmap l !! k).
Qed.

Lemma kmap_filter_ne l k :
  kmap (iter_filter (fun x => negb (key x ≟ k)) l) = delete k (kmap l).
Proof.
  induction l as [|a l IH]; simpl; [by rewrite kmap_nil, delete_empty|].
  case_bool; rewrite ?kmap_cons, IH.
  - by rewrite delete_insert_eq.
  - by rewrite delete_insert_ne.
Qed.

Lemma kmap_replace l1 x l2 y :
  key y = key x -> key x ∉ key <$> l1 ->
  kmap (l1 ++ y :: l2) = <[key x := val y]> (kmap (l1 ++ x :: l2)).
Proof.
  intros Hk Hx. induction l1 as [|a l1 IH]; simpl.
  - rewrite !kmap_cons, Hk. by rewrite insert_insert_eq.
  - rewrite fmap_cons, not_elem_of_cons in Hx. destruct Hx as [Hne Hx].
    rewrite !kmap_cons, IH by done. by rewrite insert_insert_ne.
Qed.

Lemma by_key_Forall k l : Forall (fun x => by_key k x = false) l <-> k ∉ key <$> l.
Proof.
  rewrite Forall_forall, list_elem_of_fmap. unfold by_key.
  split; [intros H (x & -> & Hx)|intros H x Hx].
  - specialize (H _ Hx). by case_bool.
  - case_bool; [|done]. destruct H; eauto.
Qed.

Lemma find_mut_kmap l k r y :
  find_mut (by_key k) l = Some r -> key y = k ->
  kmap (write r y) = <[k := val y]> (kmap l).
Proof.
  intros (l1 & a & l2 & -> & Hsel & Hl1 & Hw)%find_map_mut_spec Hy. rewrite Hw.
  destruct (by_key k a) eqn:Ha; [|done].
  unfold by_key in Ha. apply bool_decide_eq_true in Ha.
  rewrite <-Ha. apply kmap_replace; [congruence|].
  apply by_key_Forall. rewrite Ha. eapply Forall_impl; [exact Hl1|]. intros x. cbv beta.
  by destruct (by_key k x).
Qed.

Lemma kmap_elem l k v : kmap l !! k = Some v -> exists x, x ∈ l /\ key x = k /\ val x = v.
Proof.
  rewrite kmap_lookup. intros (x & [Hx Hk]%iter_find_Some & ->)%fmap_Some.
  unfold by_key in Hk. apply bool_decide_eq_true in Hk. eauto.
Qed.

Lemma kmap_find_None l k : kmap l !! k = None -> iter_find (by_key k) l = None.
Proof. rewrite kmap_lookup. apply fmap_None. Qed.
Lemma kmap_find_Some l k v :
  kmap l !! k = Some v -> exists x, iter_find (by_key k) l = Some x.
Proof. rewrite kmap_lookup. intros (x & ? & ?)%fmap_Some. eauto. Qed.

Lemma kmap_elem_NoDup l x :
  NoDup (key <$> l) -> x ∈ l -> kmap l !! key x = Some (val x).
Proof.
  intros Hnd Hx. apply elem_of_list_to_map_1.
  - by rewrite <-list_fmap_compose.
  - apply list_elem_of_fmap. eauto.
Qed.

(** Looking a name up through a mutable borrow, among the elements that [p]
    keeps. *)
Lemma find_mut_lookup (p : A -> bool) l k v :
  (forall x, key x = k -> p x = true) ->
  kmap (iter_filter p l) !! k = Some v ->
  exists r, find_mut (by_key k) l = Some r /\ key (deref r) = k /\ val (deref r) = v /\
    deref r ∈ l /\
    forall y, key y = k ->
      kmap (iter_filter p (write r y)) = <[k := val y]> (kmap (iter_filter p l)) /\
      iter_filter (fun x => negb (p x)) (write r y) = iter_filter (fun x => negb (p x)) l /\
      (forall x, x ∈ write r y -> x = y \/ x ∈ l).
Proof.
  intros Hp Hl. destruct (find_mut (by_key k) l) as [r|] eqn:Hr.
  - exists r. pose proof (find_map_mut_spec _ _ _ _ Hr) as (l1 & a & l2 & -> & Hsel & Hl1 & Hw).
    destruct (by_key k a) eqn:Ha; [|done]. injection Hsel as Hsel.
    unfold by_key in Ha. apply bool_decide_eq_true in Ha. rewrite <-Hsel.
    assert (Hk1 : k ∉ key <$> l1).
    { apply by_key_Forall. eapply Forall_impl; [exact Hl1|]. intros x. cbv beta.
      by destruct (by_key k x). }
    assert (Hk2 : k ∉ key <$> iter_filter p l1).
    { rewrite list_elem_of_fmap. intros (x & Hx & [Hin _]%iter_filter_elem).
      apply Hk1. rewrite Hx. by apply list_elem_of_fmap_2. }
    rewrite List.filter_app in Hl. simpl in Hl. rewrite (Hp a Ha) in Hl.
    split_and!; [done|done| | |].
    + rewrite kmap_app, kmap_cons, Ha in Hl.
      apply kmap_None in Hk2. rewrite lookup_union, Hk2, lookup_insert_eq in Hl. by injection Hl.
    + apply elem_of_app. right. constructor.
    + intros y Hy. rewrite Hw. unfold id. rewrite !List.filter_app. simpl.
      rewrite (Hp a Ha), (Hp y Hy). simpl. split_and!; [|done|].
      * rewrite <-Ha. apply kmap_replace; [congruence|]. by rewrite Ha.
      * intros x. rewrite !elem_of_app, !elem_of_cons. clear. tauto.
  - apply find_map_mut_None in Hr. apply kmap_elem in Hl as (x & [Hx _]%iter_filter_elem & Hk & _).
    rewrite Forall_forall in Hr. specialize (Hr x Hx). cbv beta in Hr.
    unfold by_key in Hr. rewrite Hk, bool_decide_eq_true_2 in Hr; done.
Qed.
End kmap.

Lemma iter_filter_true {A} (l : list A) : iter_filter (fun _ => true) l = l.
Proof. induction l; simpl; congruence. Qed.

(** The same without a restriction. *)
Lemma find_mut_lookup_all {A V} (key : A -> string) (val : A -> V) l k v :
  kmap key val l !! k = Some v ->
  exists r, find_mut (by_key key k) l = Some r /\ key (deref r) = k /\ val (deref r) = v /\
    deref r ∈ l /\
    forall y, key y = k ->
      kmap key val (write r y) = <[k := val y]> (kmap key val l) /\
      (forall x, x ∈ write r y -> x = y \/ x ∈ l).
Proof.
  intros Hl. destruct (find_mut_lookup key val (fun _ => true) l k v) as (r & Ha & Hb & Hc & Hd & Hw);
    [done|by rewrite iter_filter_true|].
  exists r. split_and!; try done. intros y Hy. destruct (Hw y Hy) as (H1 & _ & H2).
  by rewrite !iter_filter_true in H1.
Qed.

Lemma alter_as_insert {V} (f : V -> V) (m : gmap string V) k x :
  m !! k = Some x -> alter f k m = <[k := f x]> m.
Proof.
  intros Hx. apply map_eq. intros j. rewrite lookup_insert. case_decide; subst.
  - by rewrite lookup_alter_eq, Hx.
  - by rewrite lookup_alter_ne.
Qed.

(** ** Searching and filtering lists *)
Lemma omap_all {A B} (f : A -> option B) (g : A -> B) (l : list A) :
  (forall x, x ∈ l -> f x = Some (g x)) -> omap f l = g <$> l.
Proof.
  induction l as [|x l IH]; intros Hf; [done|]. rewrite fmap_cons. cbn [omap list_omap].
  rewrite Hf by constructor. f_equal. apply IH. intros y Hy. apply Hf. by constructor.
Qed.
Lemma omap_none {A B} (f : A -> option B) (l : list A) : (forall x, x ∈ l -> f x = None) -> omap f l = [].
Proof.
  induction l as [|x l IH]; intros Hf; [done|]. cbn [omap list_omap]. rewrite Hf by constructor.
  apply IH. intros y Hy. apply Hf. by constructor.
Qed.
Lemma bind_all_nil {A B} (f : A -> list B) (l : list A) : (forall x, x ∈ l -> f x = []) -> (x ← l; f x) = [].
Proof.
  induction l as [|x l IH]; intros Hf; [done|]. cbn [mbind list_bind]. rewrite Hf by constructor.
  apply IH. intros y Hy. apply Hf. by constructor.
Qed.
Lemma fmap_bind {A B C} (f : A -> B) (g : B -> list C) (l : list A) : (x ← f <$> l; g x) = (x ← l; g (f x)).
Proof. induction l as [|a l IH]; [done|]. rewrite fmap_cons. cbn [mbind list_bind]. by rewrite IH. Qed.
Lemma iter_filter_none {A} (p : A -> bool) (l : list A) : (forall x, x ∈ l -> p x = false) -> iter_filter p l = [].
Proof.
  induction l as [|x l IH]; intros Hp; [done|]. simpl. rewrite Hp by constructor.
  apply IH. intros y Hy. apply Hp. by constructor.
Qed.
Lemma forallb_elem {A} (p : A -> bool) (l : list A) : forallb p l = true -> forall x, x ∈ l -> p x = true.
Proof. intros Hl x Hx. rewrite forallb_forall in Hl. apply Hl. by apply list_elem_of_In. Qed.
Lemma iter_any_true {A} (p : A -> bool) (l : list A) x : x ∈ l -> p x = true -> iter_any p l = true.
Proof. intros Hx Hp. apply existsb_exists. exists x. split; [by apply list_elem_of_In|done]. Qed.
Lemma iter_any_spec {A} (p : A -> bool) (l : list A) : iter_any p l = true <-> exists x, x ∈ l /\ p x = true.
Proof. rewrite existsb_exists. by setoid_rewrite list_elem_of_In. Qed.
Lemma iter_any_false {A} (p : A -> bool) (l : list A) : iter_any p l = false <-> forall x, x ∈ l -> p x = false.
Proof.
  rewrite <-not_true_iff_false, iter_any_spec. split.
  - intros Hn x Hx. destruct (p x) eqn:E; [|done]. destruct Hn. eauto.
  - intros Hf (x & Hx & Hp). rewrite Hf in Hp by done. done.
Qed.
Lemma find_key {A} (key : A -> string) (l : list A) x :
  NoDup (key <$> l) -> x ∈ l -> iter_find (fun y => key x ≟ key y) l = Some x.
Proof.
  intros Hnd Hx. pose proof (kmap_elem_NoDup key id _ _ Hnd Hx) as Hk.
  rewrite kmap_lookup, option_fmap_id in Hk. etransitivity; [|exact Hk].
  clear. induction l as [|a l IH]; [done|]. simpl. rewrite IH. unfold by_key.
  repeat case_bool; congruence.
Qed.

(** ** Loops *)
Lemma for_each_inv {E S A} (f : S -> A -> outcome E S) (I : S -> Prop) (l : list A) s s' :
  (forall s a s', a ∈ l -> I s -> f s a = Ok s' -> I s') -> I s -> for_each f l s = Ok s' -> I s'.
Proof.
  revert s. induction l as [|a l IH]; intros s Hf Hs; simpl; [by intros [= <-]|].
  destruct (f s a) as [s1| |] eqn:Ef; cbn; try discriminate.
  apply IH; [|eapply Hf; [constructor|exact Hs|exact Ef]]. intros s2 b s3 Hb. apply Hf. by constructor.
Qed.
Lemma for_each_ok {E S A} (f : S -> A -> outcome E S) (l : list A) s :
  (forall s a, a ∈ l -> exists s', f s a = Ok s') -> exists s', for_each f l s = Ok s'.
Proof.
  revert s. induction l as [|a l IH]; intros s Hf; simpl; [by eexists|].
  destruct (Hf s a) as [s1 ->]; [constructor|]. apply IH. intros s2 b Hb. apply Hf. by constructor.
Qed.
Lemma NoDup_fmap_inj {A B} (f : A -> B) (l : list A) x y : NoDup (f <$> l) -> x ∈ l -> y ∈ l -> f x = f y -> x = y.
Proof.
  induction l as [|z l IH]; [by intros _ ?%elem_of_nil|]. rewrite fmap_cons, NoDup_cons, !elem_of_cons.
  intros [Hz Hl] Hx Hy He. destruct Hx as [->|Hx], Hy as [->|Hy]; [done| | |by apply IH].
  - destruct Hz. rewrite He. by apply list_elem_of_fmap_2.
  - destruct Hz. rewrite <-He. by apply list_elem_of_fmap_2.
Qed.
Lemma map_m_ok {E A B} (f : A -> outcome E B) (l : list A) :
  (forall a, a ∈ l -> exists b, f a = Ok b) -> exists l', map_m f l = Ok l'.
Proof.
  induction l as [|a l IH]; intros Hf; simpl; [by eexists|].
  destruct (Hf a) as [b ->]; [constructor|]. destruct IH as [l' ->]; [|by eexists].
  intros c Hc. apply Hf. by constructor.
Qed.
Lemma map_m_fmap {E A B} (f : A -> outcome E B) (g : A -> B) (l : list A) :
  (forall x, x ∈ l -> f x = Ok (g x)) -> map_m f l = Ok (g <$> l).
Proof.
  induction l as [|x l IH]; intros Hf; [done|]. cbn. rewrite Hf by constructor. cbn.
  rewrite IH; [done|]. intros y Hy. apply Hf. by constructor.
Qed.
Lemma map_m_elem {E A B} (f : A -> outcome E B) (l : list A) (l' : list B) b :
  map_m f l = Ok l' -> b ∈ l' -> exists a, a ∈ l /\ f a = Ok b.
Proof.
  revert l'. induction l as [|a l IH]; intros l'; simpl; [intros [= <-] Hb; inversion Hb|].
  destruct (f a) as [b'| |] eqn:Ef; cbn; try discriminate.
  destruct (map_m f l) as [l1| |]; cbn; try discriminate. intros [= <-] [->|Hb]%elem_of_cons.
  - exists a. split; [constructor|done].
  - destruct (IH _ eq_refl Hb) as (a' & Ha & Hfa). exists a'. split; [by constructor|done].
Qed.
Lemma map_m_Forall2 {E A B} (f : A -> outcome E B) l l' : map_m f l = Ok l' -> Forall2 (fun x y => f x = Ok y) l l'.
Proof.
  revert l'. induction l as [|x l IH]; intros l'; cbn; [intros [= <-]; constructor|]. destruct (f x) eqn:Ef; [cbn|done..].
  destruct (map_m f l); [cbn|done..]. intros [= <-]. constructor; [done|]. by apply IH.
Qed.
Lemma Forall2_impl_elem {A B} (P Q : A -> B -> Prop) l k : Forall2 P l k -> (forall x y, x ∈ l -> P x y -> Q x y) -> Forall2 Q l k.
Proof.
  intros HF. induction HF as [|x y l k Hxy _ IH]; intros Hi; constructor; [apply Hi; [constructor|done]|].
  apply IH. intros x' y' Hx'. apply Hi. by constructor.
Qed.
Lemma filter_m_pure {E A} (p : A -> outcome E bool) (q : A -> bool) (l : list A) :
  (forall x, x ∈ l -> p x = Ok (q x)) -> filter_m p l = Ok (iter_filter q l).
Proof.
  induction l as [|x l IH]; intros Hp; [done|]. cbn. rewrite Hp by constructor. cbn.
  rewrite IH by (intros y Hy; apply Hp; by constructor). by destruct (q x).
Qed.
Lemma any_m_ok {E A} (f : A -> outcome E bool) (l : list A) :
  (forall a, a ∈ l -> exists b, f a = Ok b) -> exists b, any_m f l = Ok b.
Proof.
  induction l as [|a l IH]; intros Hf; simpl; [by eexists|].
  destruct (Hf a) as [b ->]; [constructor|]. cbn. destruct b; [by eexists|].
  apply IH. intros c Hc. apply Hf. by constructor.
Qed.
Lemma any_m_true {E A} (f : A -> outcome E bool) (l : list A) :
  any_m f l = Ok true -> exists a, a ∈ l /\ f a = Ok true.
Proof.
  induction l as [|a l IH]; simpl; [done|]. destruct (f a) as [b| |] eqn:Ef; cbn; try discriminate.
  destruct b; [|intros (x & Hx & Hfx)%IH].
  - intros _. exists a. split; [constructor|done].
  - exists x. split; [by constructor|done].
Qed.
