(* ===== verification/Ast.v ===== *)
(** * The schema AST (libs/datamodel/core/src/ast)

    The data types of the abstract syntax tree and the lookups of [SchemaAst].
    Every node keeps its span, as the code does; the [*_mut] lookups return a
    borrow ([RefMut]) of the node in the schema. *)
From S2P Require Import Prelude.

(** [usize] positions; the code only stores them here. *)
Record Span : Type := mkSpan { span_start : N; span_end : N }.
Definition Span_empty : Span := mkSpan 0 0.

Record Identifier : Type := mkIdentifier { id_name : string; id_span : Span }.
Definition Identifier_new (name : string) : Identifier := mkIdentifier name Span_empty.

Record Comment : Type := mkComment { text : string }.

Inductive Expression : Type :=
| NumericValue (v : string) (s : Span)
| BooleanValue (v : string) (s : Span)
| StringValue (v : string) (s : Span)
| Any (v : string) (s : Span)
| ConstantValue (v : string) (s : Span)
| Function (name : string) (args : list Expression) (s : Span)
| Array (vals : list Expression) (s : Span).

Record Argument : Type := mkArgument {
  arg_name : Identifier;
  arg_value : Expression;
  arg_span : Span;
}.

Record Directive : Type := mkDirective {
  dir_name : Identifier;
  dir_arguments : list Argument;
  dir_span : Span;
}.

Inductive FieldArity : Type := Required | Optional | List.

Record Field : Type := mkField {
  field_type : Identifier;
  field_name : Identifier;
  field_arity : FieldArity;
  field_default_value : option Expression;
  field_directives : list Directive;
  field_documentation : option Comment;
  field_span : Span;
  field_is_commented_out : bool;
}.

Record EnumValue : Type := mkEnumValue {
  value_name : Identifier;
  value_directives : list Directive;
  value_documentation : option Comment;
  value_span : Span;
  value_commented_out : bool;
}.

Record Enum : Type := mkEnum {
  enum_name : Identifier;
  enum_values : list EnumValue;
  enum_directives : list Directive;
  enum_documentation : option Comment;
  enum_span : Span;
}.

Record Model : Type := mkModel {
  model_name : Identifier;
  model_fields : list Field;
  model_directives : list Directive;
  model_documentation : option Comment;
  model_span : Span;
  model_commented_out : bool;
}.

Record SourceConfig : Type := mkSourceConfig {
  source_name : Identifier;
  source_properties : list Argument;
  source_documentation : option Comment;
  source_span : Span;
}.

Record GeneratorConfig : Type := mkGeneratorConfig {
  generator_name : Identifier;
  generator_properties : list Argument;
  generator_documentation : option Comment;
  generator_span : Span;
}.

Inductive Top : Type :=
| TopEnum (e : Enum)
| TopModel (m : Model)
| TopSource (s : SourceConfig)
| TopGenerator (g : GeneratorConfig)
| TopType (t : Field).

Record SchemaAst : Type := mkSchemaAst { tops : list Top }.

#[export] Instance FieldArity_eq_dec : EqDecision FieldArity.
Proof. solve_decision. Defined.

(** ** [Top] *)
Definition as_model (top : Top) : option Model :=
  match top with TopModel m => Some m | _ => None end.
Definition as_enum (top : Top) : option Enum :=
  match top with TopEnum e => Some e | _ => None end.
Definition as_type_alias (top : Top) : option Field :=
  match top with TopType t => Some t | _ => None end.
Definition as_source (top : Top) : option SourceConfig :=
  match top with TopSource s => Some s | _ => None end.
Definition as_generator (top : Top) : option GeneratorConfig :=
  match top with TopGenerator g => Some g | _ => None end.

(** [Top::name] and [Top::get_type]. *)
Definition top_name (top : Top) : string :=
  match top with
  | TopEnum x => id_name (enum_name x)
  | TopModel x => id_name (model_name x)
  | TopSource x => id_name (source_name x)
  | TopGenerator x => id_name (generator_name x)
  | TopType x => id_name (field_name x)
  end.
Definition get_type (top : Top) : string :=
  match top with
  | TopEnum _ => "enum"
  | TopModel _ => "model"
  | TopSource _ => "source"
  | TopGenerator _ => "generator"
  | TopType _ => "type"
  end.

(** The [name.name] of each named node. *)
Definition model_key (m : Model) : string := id_name (model_name m).
Definition field_key (f : Field) : string := id_name (field_name f).
Definition enum_key (e : Enum) : string := id_name (enum_name e).
Definition value_key (v : EnumValue) : string := id_name (value_name v).
Definition source_key (s : SourceConfig) : string := id_name (source_name s).
Definition dir_key (d : Directive) : string := id_name (dir_name d).
Definition arg_key (a : Argument) : string := id_name (arg_name a).

(** ** [SchemaAst] *)
Definition SchemaAst_empty : SchemaAst := mkSchemaAst [].

Definition types (s : SchemaAst) : list Field := omap as_type_alias (tops s).
Definition enums (s : SchemaAst) : list Enum := omap as_enum (tops s).
Definition models (s : SchemaAst) : list Model := omap as_model (tops s).
Definition sources (s : SchemaAst) : list SourceConfig := omap as_source (tops s).
Definition generators (s : SchemaAst) : list GeneratorConfig := omap as_generator (tops s).

Definition find_source (s : SchemaAst) (source : string) : option SourceConfig :=
  iter_find (by_key source_key source) (sources s).
Definition find_model (s : SchemaAst) (model : string) : option Model :=
  iter_find (by_key model_key model) (models s).
Definition find_type_alias (s : SchemaAst) (type_name : string) : option Field :=
  iter_find (by_key field_key type_name) (types s).
Definition find_enum (s : SchemaAst) (name : string) : option Enum :=
  iter_find (by_key enum_key name) (enums s).
Definition find_field (s : SchemaAst) (model field : string) : option Field :=
  m ← find_model s model; iter_find (by_key field_key field) (model_fields m).

(** [self.tops.iter_mut().find_map(..)] on the kind of [Top] that [sel] keeps
    and [inj] builds. *)
Definition find_top_mut {B} (sel : Top -> option B) (inj : B -> Top) (key : B -> string)
    (name : string) (s : SchemaAst) : option (RefMut SchemaAst B) :=
  (fun r => mk_ref (deref r) (fun b => mkSchemaAst (write r b))) <$>
    find_map_mut (fun top => x ← sel top; if by_key key name x then Some x else None) inj (tops s).

Definition find_source_mut (s : SchemaAst) (source : string) : option (RefMut SchemaAst SourceConfig) :=
  find_top_mut as_source TopSource source_key source s.
Definition find_model_mut (s : SchemaAst) (model : string) : option (RefMut SchemaAst Model) :=
  find_top_mut as_model TopModel model_key model s.
Definition find_type_alias_mut (s : SchemaAst) (name : string) : option (RefMut SchemaAst Field) :=
  find_top_mut as_type_alias TopType field_key name s.
Definition find_enum_mut (s : SchemaAst) (name : string) : option (RefMut SchemaAst Enum) :=
  find_top_mut as_enum TopEnum enum_key name s.

(** ** Field updates of the structs the engine mutates *)
Definition set_fields (fs : list Field) (m : Model) : Model :=
  mkModel (model_name m) fs (model_directives m) (model_documentation m) (model_span m)
    (model_commented_out m).
Definition set_model_name (n : Identifier) (m : Model) : Model :=
  mkModel n (model_fields m) (model_directives m) (model_documentation m) (model_span m)
    (model_commented_out m).
Definition set_model_directives (ds : list Directive) (m : Model) : Model :=
  mkModel (model_name m) (model_fields m) ds (model_documentation m) (model_span m)
    (model_commented_out m).
Definition set_field_name (n : Identifier) (f : Field) : Field :=
  mkField (field_type f) n (field_arity f) (field_default_value f) (field_directives f)
    (field_documentation f) (field_span f) (field_is_commented_out f).
Definition set_field_type (t : Identifier) (f : Field) : Field :=
  mkField t (field_name f) (field_arity f) (field_default_value f) (field_directives f)
    (field_documentation f) (field_span f) (field_is_commented_out f).
Definition set_field_arity (a : FieldArity) (f : Field) : Field :=
  mkField (field_type f) (field_name f) a (field_default_value f) (field_directives f)
    (field_documentation f) (field_span f) (field_is_commented_out f).
Definition set_field_directives (ds : list Directive) (f : Field) : Field :=
  mkField (field_type f) (field_name f) (field_arity f) (field_default_value f) ds
    (field_documentation f) (field_span f) (field_is_commented_out f).
Definition set_enum_name (n : Identifier) (e : Enum) : Enum :=
  mkEnum n (enum_values e) (enum_directives e) (enum_documentation e) (enum_span e).
Definition set_enum_values (vs : list EnumValue) (e : Enum) : Enum :=
  mkEnum (enum_name e) vs (enum_directives e) (enum_documentation e) (enum_span e).
Definition set_enum_directives (ds : list Directive) (e : Enum) : Enum :=
  mkEnum (enum_name e) (enum_values e) ds (enum_documentation e) (enum_span e).
Definition set_value_directives (ds : list Directive) (v : EnumValue) : EnumValue :=
  mkEnumValue (value_name v) ds (value_documentation v) (value_span v) (value_commented_out v).
Definition set_dir_arguments (args : list Argument) (d : Directive) : Directive :=
  mkDirective (dir_name d) args (dir_span d).
Definition set_arg_value (v : Expression) (a : Argument) : Argument :=
  mkArgument (arg_name a) v (arg_span a).
Definition set_source_properties (ps : list Argument) (s : SourceConfig) : SourceConfig :=
  mkSourceConfig (source_name s) ps (source_documentation s) (source_span s).

(** [find_field_mut]: the borrow of the model, then of the field in it. *)
Definition find_field_mut (s : SchemaAst) (model field : string) : option (RefMut SchemaAst Field) :=
  m ← find_model_mut s model;
  f ← find_mut (by_key field_key field) (model_fields (deref m));
  Some (reborrow m (mk_ref (deref f) (fun x => set_fields (write f x) (deref m)))).
