(* ===== verification/ExprText.v ===== *)
(** * Text of expressions (ast/renderer/mod.rs, ast/parser/mod.rs)

    [render_value] prints an expression; [render_str] escapes string literals
    and [unescape_string_literal] undoes the escaping on the parser's side.
    The theorems say on which strings the two are inverse. *)
From Stdlib Require Import Ascii.
From S2P Require Import Prelude Ast.

Definition bslash : ascii := "092"%char.
Definition dquote : ascii := "034"%char.
Definition newline : ascii := "010"%char.

(** [str::replace] of a one-character pattern. *)
Fixpoint replace_char (c : ascii) (rep : string) (s : string) : string :=
  match s with
  | EmptyString => EmptyString
  | String x s => if x ≟ c then rep +:+ replace_char c rep s else String x (replace_char c rep s)
  end.

(** [Regex::replace_all] of the literal two-character pattern [a b]: leftmost
    matches that do not overlap. *)
Fixpoint replace_pair (a b : ascii) (rep : string) (s : string) : string :=
  match s with
  | EmptyString => EmptyString
  | String x s1 =>
      match s1 with
      | EmptyString => String x EmptyString
      | String y s2 =>
          if (x ≟ a) && (y ≟ b) then rep +:+ replace_pair a b rep s2
          else String x (replace_pair a b rep s1)
      end
  end.

(** ** The renderer *)
Definition escape_str (param : string) : string :=
  replace_char newline (String bslash "n")
    (replace_char dquote (String bslash (String dquote ""))
      (replace_char bslash (String bslash (String bslash "")) param)).

Definition render_str (param : string) : string :=
  String dquote "" +:+ escape_str param +:+ String dquote "".

(** The loop of [render_func] and [render_array]: the values, separated. *)
Section render_vals.
Context {E : Type} (render_value : Expression -> outcome E string).

Fixpoint render_vals (idx : nat) (vals : list Expression) : outcome E string :=
  match vals with
  | [] => Ok ""
  | v :: vals =>
      s ← render_value v;
      r ← render_vals (S idx) vals;
      Ok ((if idx ≟ 0 then "" else ", ") +:+ s +:+ r)
  end.
End render_vals.

Fixpoint render_value {E} (val : Expression) : outcome E string :=
  match val with
  | Array vals _ => r ← render_vals render_value 0 vals; Ok ("[" +:+ r +:+ "]")
  | BooleanValue v _ => Ok v
  | ConstantValue v _ => Ok v
  | NumericValue v _ => Ok v
  | StringValue v _ => Ok (render_str v)
  | Function name args _ => r ← render_vals render_value 0 args; Ok (name +:+ "(" +:+ r +:+ ")")
  | Any _ _ => Panic "Value of 'Any' type cannot be rendered."
  end.

(** ** The parser's string literals *)
Definition unescape_string_literal (original : string) : string :=
  replace_pair bslash bslash (String bslash "")
    (replace_pair bslash "n"%char (String newline "")
      (replace_pair bslash dquote (String dquote "") original)).

(** An expression that contains no [Any] node: those the parser builds. *)
Fixpoint no_any (e : Expression) : bool :=
  match e with
  | Any _ _ => false
  | Function _ args _ => forallb no_any args
  | Array vals _ => forallb no_any vals
  | _ => true
  end.

(** The two characters backslash and [n] next to each other. *)
Fixpoint has_backslash_n (s : string) : bool :=
  match s with
  | EmptyString => false
  | String x s1 =>
      match s1 with
      | EmptyString => false
      | String y _ => ((x ≟ bslash) && (y ≟ "n"%char)) || has_backslash_n s1
      end
  end.

(** ** Rendering is total without [Any] *)
Section Expression_ind.
Context (P : Expression -> Prop).
Hypothesis Hnum : forall v s, P (NumericValue v s).
Hypothesis Hbool : forall v s, P (BooleanValue v s).
Hypothesis Hstr : forall v s, P (StringValue v s).
Hypothesis Hany : forall v s, P (Any v s).
Hypothesis Hconst : forall v s, P (ConstantValue v s).
Hypothesis Hfun : forall n args s, Forall P args -> P (Function n args s).
Hypothesis Harr : forall vals s, Forall P vals -> P (Array vals s).

Fixpoint Expression_nested_ind (e : Expression) : P e :=
  let all := fix all (l : list Expression) : Forall P l :=
    match l with
    | [] => Forall_nil_2 _
    | x :: l => Forall_cons_2 _ _ _ (Expression_nested_ind x) (all l)
    end in
  match e with
  | NumericValue v s => Hnum v s
  | BooleanValue v s => Hbool v s
  | StringValue v s => Hstr v s
  | Any v s => Hany v s
  | ConstantValue v s => Hconst v s
  | Function n args s => Hfun n args s (all args)
  | Array vals s => Harr vals s (all vals)
  end.
End Expression_ind.

(** The text of an expression, for specifications: [render_value] where it
    does not panic. *)
Definition render_text (e : Expression) : string :=
  match render_value (E := unit) e with Ok s => s | _ => "" end.

Lemma render_value_total e :
  no_any e = true -> exists s, forall E, @render_value E e = Ok s.
Proof.
  assert (Hvals : forall vals, Forall (fun e => no_any e = true ->
      exists s, forall E, @render_value E e = Ok s) vals -> forallb no_any vals = true ->
      forall idx, exists s, forall E, render_vals (@render_value E) idx vals = Ok s).
  { induction 1 as [|v vals He _ IH]; simpl; [eauto|].
    intros [H1 H2]%andb_true_iff idx.
    destruct (He H1) as [s Hs], (IH H2 (S idx)) as [r Hr].
    eexists; intros E. by rewrite Hs, Hr. }
  induction e using Expression_nested_ind; simpl; try (by eauto); intros Hn.
  - destruct (Hvals _ H Hn 0) as [r Hr]. eexists; intros E. by rewrite Hr.
  - destruct (Hvals _ H Hn 0) as [r Hr]. eexists; intros E. by rewrite Hr.
Qed.

Lemma render_value_text {E} e : no_any e = true -> @render_value E e = Ok (render_text e).
Proof.
  intros [s Hs]%render_value_total. unfold render_text. by rewrite !Hs.
Qed.

(** ** Escaping and unescaping string literals *)
(** The escaping as one pass, and the two strings between the three passes of
    [unescape_string_literal]. *)
Definition esc_char (q n : string) (c : ascii) : string :=
  if c ≟ bslash then String bslash (String bslash "")
  else if c ≟ dquote then q else if c ≟ newline then n else String c "".

Fixpoint esc (q n : string) (s : string) : string :=
  match s with
  | EmptyString => EmptyString
  | String c s => esc_char q n c +:+ esc q n s
  end.

Lemma escape_str_esc s : escape_str s = esc (String bslash (String dquote "")) (String bslash "n") s.
Proof.
  unfold escape_str. induction s as [|c s IH]; [done|]. simpl esc. rewrite <-IH. clear IH.
  unfold esc_char. simpl.
  destruct (decide (c = bslash)) as [->|H1]; [done|].
  rewrite (bool_decide_eq_false_2 (c = bslash)) by done. simpl.
  destruct (decide (c = dquote)) as [->|H2]; [done|].
  rewrite (bool_decide_eq_false_2 (c = dquote)) by done. simpl.
  destruct (decide (c = newline)) as [->|H3]; [done|].
  by rewrite (bool_decide_eq_false_2 (c = newline)) by done.
Qed.

(** Passing over a character that does not start a match. *)
Lemma replace_pair_skip a b rep x s :
  (x <> a \/ (forall s', s <> String b s')) ->
  replace_pair a b rep (String x s) = String x (replace_pair a b rep s).
Proof.
  intros H. destruct s as [|y s]; [done|]. simpl.
  destruct (bool_decide_reflect (x = a)), (bool_decide_reflect (y = b)); simpl; try done.
  subst. destruct H as [H|H]; [done|]. by destruct (H s).
Qed.

Lemma append_cons c s t : String c s +:+ t = String c (s +:+ t).
Proof. done. Qed.
Lemma append_nil t : "" +:+ t = t.
Proof. done. Qed.

(** The escaped text [E0] and what is left after each pass. *)
Abbreviation E0 := (esc (String bslash (String dquote "")) (String bslash "n")).
Abbreviation E1 := (esc (String dquote "") (String bslash "n")).
Abbreviation E2 := (esc (String dquote "") (String newline "")).

Lemma esc_bslash q n s : esc q n (String bslash s) = String bslash (String bslash (esc q n s)).
Proof. done. Qed.
Lemma esc_dquote q n s : esc q n (String dquote s) = q +:+ esc q n s.
Proof. done. Qed.
Lemma esc_newline q n s : esc q n (String newline s) = n +:+ esc q n s.
Proof. done. Qed.
Lemma esc_other q n c s :
  c <> bslash -> c <> dquote -> c <> newline -> esc q n (String c s) = String c (esc q n s).
Proof. intros. simpl. unfold esc_char. by rewrite !bool_decide_eq_false_2. Qed.

(** Case analysis on the first character of an escaped string. *)
Ltac esc_cases c :=
  destruct (decide (c = bslash)) as [->|?];
  [rewrite ?esc_bslash
  |destruct (decide (c = dquote)) as [->|?];
    [rewrite ?esc_dquote
    |destruct (decide (c = newline)) as [->|?];
      [rewrite ?esc_newline|rewrite ?esc_other by done]]];
  rewrite ?append_cons, ?append_nil.

Lemma E0_head s s' : E0 s <> String dquote s'.
Proof. destruct s as [|c s]; [done|]. esc_cases c; try done. by intros [= ->]. Qed.

Lemma E1_head s s' : E1 s = String "n"%char s' -> exists s1, s = String "n"%char s1.
Proof. destruct s as [|c s]; [done|]. esc_cases c; try done. intros [= ->]. eauto. Qed.

Lemma unescape_pass1 s : replace_pair bslash dquote (String dquote "") (E0 s) = E1 s.
Proof.
  induction s as [|c s IH]; [done|]. esc_cases c.
  - rewrite !replace_pair_skip, IH; [done|right; apply E0_head|by right].
  - by rewrite <-IH.
  - rewrite !replace_pair_skip, IH; [done|by left|by right].
  - rewrite replace_pair_skip, IH; [done|by left].
Qed.

Lemma unescape_pass2 s :
  has_backslash_n s = false -> replace_pair bslash "n"%char (String newline "") (E1 s) = E2 s.
Proof.
  induction s as [|c s IH]; [done|]. intros Hn.
  assert (Hs : has_backslash_n s = false).
  { destruct s; [done|]. simpl in Hn. by apply orb_false_iff in Hn as [_ ?]. }
  specialize (IH Hs). esc_cases c.
  - rewrite !replace_pair_skip, IH; [done| |by right].
    right. intros s' (s1 & ->)%E1_head. done.
  - rewrite replace_pair_skip, IH; [done|by left].
  - by rewrite <-IH.
  - rewrite replace_pair_skip, IH; [done|by left].
Qed.

Lemma unescape_pass3 s : replace_pair bslash bslash (String bslash "") (E2 s) = s.
Proof.
  induction s as [|c s IH]; [done|]. esc_cases c.
  - by rewrite <-IH at 2.
  - rewrite replace_pair_skip, IH; [done|by left].
  - rewrite replace_pair_skip, IH; [done|by left].
  - rewrite replace_pair_skip, IH; [done|by left].
Qed.

(** Newlines in a string. *)
Fixpoint newlines (s : string) : nat :=
  match s with
  | EmptyString => 0
  | String c s => (if c ≟ newline then 1 else 0) + newlines s
  end.

Lemma newlines_cons c s : newlines (String c s) = (if c ≟ newline then 1 else 0) + newlines s.
Proof. done. Qed.
Lemma newlines_cons_ne c s : c <> newline -> newlines (String c s) = newlines s.
Proof. intros H. simpl. by rewrite bool_decide_eq_false_2. Qed.

Lemma has_backslash_n_skip c s :
  c <> bslash -> has_backslash_n (String c s) = has_backslash_n s.
Proof. intros H. destruct s as [|y s]; [done|]. simpl. by rewrite (bool_decide_eq_false_2 (c = bslash)). Qed.

Lemma has_backslash_n_bslash s :
  (exists s1, s = String "n"%char s1) \/
  (has_backslash_n (String bslash s) = has_backslash_n s /\ forall s1, s <> String "n"%char s1).
Proof.
  destruct s as [|y s]; [by right|].
  destruct (decide (y = "n"%char)) as [->|Hy]; [by left; eauto|].
  right. simpl. rewrite (bool_decide_eq_false_2 (y = "n"%char)) by done. split; [done|].
  by intros s1 [= ->].
Qed.

(** The second pass turns a backslash that was followed by an [n] into an
    additional newline. *)
Lemma newlines_pass2 s :
  newlines s + (if has_backslash_n s then 1 else 0) <=
  newlines (replace_pair bslash "n"%char (String newline "") (E1 s)).
Proof.
  induction s as [|c s IH]; [done|]. esc_cases c.
  - rewrite replace_pair_skip by (by right). rewrite !newlines_cons_ne by done.
    destruct (has_backslash_n_bslash s) as [[s1 ->]|[Hb Hn]].
    + rewrite esc_other in IH |- * by done. rewrite replace_pair_skip in IH by (by left).
      rewrite !newlines_cons_ne in IH by done. rewrite newlines_cons_ne by done.
      change (replace_pair bslash "n" ?r (String bslash (String "n" ?t)))
        with (String newline (replace_pair bslash "n" r t)).
      change (newlines (String newline ?t)) with (S (newlines t)).
      destruct (has_backslash_n (String bslash _)), (has_backslash_n (String "n"%char s1)); lia.
    + rewrite Hb, replace_pair_skip by (right; intros s' [s1 ->]%E1_head; by eapply Hn).
      by rewrite newlines_cons_ne.
  - rewrite replace_pair_skip by (by left). rewrite !newlines_cons_ne by done.
    by rewrite has_backslash_n_skip.
  - rewrite has_backslash_n_skip by done.
    change (replace_pair bslash "n" ?r (String bslash (String "n" ?t)))
      with (String newline (replace_pair bslash "n" r t)).
    change (newlines (String newline ?t)) with (S (newlines t)). lia.
  - rewrite replace_pair_skip by (by left). rewrite !newlines_cons_ne by done.
    by rewrite has_backslash_n_skip.
Qed.

Lemma newlines_pass3 s : newlines (replace_pair bslash bslash (String bslash "") s) = newlines s.
Proof.
  remember (String.length s) as n eqn:Hn. revert s Hn.
  induction (lt_wf n) as [n _ IH]; intros s ->.
  destruct s as [|x [|y s]]; [done|done|].
  destruct (decide (x = bslash /\ y = bslash)) as [[-> ->]|Hn].
  - change (replace_pair bslash bslash ?r (String bslash (String bslash ?t)))
      with (String bslash (replace_pair bslash bslash r t)).
    rewrite !newlines_cons_ne by done. eapply IH; [|done]. simpl; lia.
  - rewrite replace_pair_skip.
    + rewrite !(newlines_cons x). f_equal. eapply IH; [|done]. simpl; lia.
    + destruct (decide (x = bslash)); [right; intros s' [= -> ->]; by destruct Hn|by left].
Qed.

(** C39: a string literal that is escaped by the renderer and read back by the
    parser is the original string exactly when the string does not contain a
    backslash directly followed by the letter [n]. *)
Theorem unescape_escape_iff s :
  unescape_string_literal (escape_str s) = s <-> has_backslash_n s = false.
Proof.
  unfold unescape_string_literal. rewrite escape_str_esc, unescape_pass1. split.
  - intros H. pose proof (newlines_pass2 s) as Hle.
    apply (f_equal newlines) in H. rewrite newlines_pass3 in H.
    destruct (has_backslash_n s); [lia|done].
  - intros H. by rewrite unescape_pass2, unescape_pass3.
Qed.
