(* ===== verification/Steps.v ===== *)
(** * Datamodel migration steps (migration-connector/src/steps.rs)

    The step types, their conversions from and to AST nodes and the matching of
    directive locations. [MigrationExpression::to_ast_expression] calls the
    parser that pest generates from the grammar; that parser is the parameter
    [parse_expr] of every definition that reaches it. *)
From S2P Require Import Prelude Ast ExprText.

Record MigrationExpression : Type := mkMigrationExpression { expr_text : string }.

(** ** Data *)
Module steps.
Inductive FieldArity : Type := Required | Optional | List.

Record Argument : Type := mkArgument { name : string; value : MigrationExpression }.
End steps.

Inductive DirectivePath : Type :=
| PathField (model field : string)
| PathModel (model : string) (arguments : option (list steps.Argument))
| PathEnum (enum : string)
| PathEnumValue (enum value : string)
| PathTypeAlias (type_alias : string).

Record DirectiveLocation : Type := mkDirectiveLocation {
  dl_path : DirectivePath;
  dl_directive : string;
}.

Record SourceLocation : Type := mkSourceLocation { sl_source : string }.

Inductive ArgumentLocation : Type :=
| LocDirective (l : DirectiveLocation)
| LocSource (l : SourceLocation).

Record CreateModel : Type := mkCreateModel { cm_model : string }.
Record UpdateModel : Type := mkUpdateModel { um_model : string; um_new_name : option string }.
Record DeleteModel : Type := mkDeleteModel { dm_model : string }.
Record CreateField : Type := mkCreateField {
  cf_model : string; cf_field : string; cf_tpe : string; cf_arity : steps.FieldArity }.
Record UpdateField : Type := mkUpdateField {
  uf_model : string; uf_field : string; uf_new_name : option string;
  uf_tpe : option string; uf_arity : option steps.FieldArity }.
Record DeleteField : Type := mkDeleteField { df_model : string; df_field : string }.
Record CreateEnum : Type := mkCreateEnum { ce_enum : string; ce_values : list string }.
Record UpdateEnum : Type := mkUpdateEnum {
  ue_enum : string; ue_new_name : option string;
  ue_created_values : list string; ue_deleted_values : list string }.
Record DeleteEnum : Type := mkDeleteEnum { de_enum : string }.
Record CreateDirective : Type := mkCreateDirective { cd_location : DirectiveLocation }.
Record DeleteDirective : Type := mkDeleteDirective { dd_location : DirectiveLocation }.
Record CreateArgument : Type := mkCreateArgument {
  ca_location : ArgumentLocation; ca_argument : string; ca_value : MigrationExpression }.
Record DeleteArgument : Type := mkDeleteArgument {
  da_location : ArgumentLocation; da_argument : string }.
Record UpdateArgument : Type := mkUpdateArgument {
  ua_location : ArgumentLocation; ua_argument : string; ua_new_value : MigrationExpression }.
Record CreateTypeAlias : Type := mkCreateTypeAlias {
  ct_type_alias : string; ct_type : string; ct_arity : steps.FieldArity }.
Record UpdateTypeAlias : Type := mkUpdateTypeAlias {
  ut_type_alias : string; ut_type : option string }.
Record DeleteTypeAlias : Type := mkDeleteTypeAlias { dt_type_alias : string }.
Record CreateSource : Type := mkCreateSource { cs_source : string }.
Record DeleteSource : Type := mkDeleteSource { ds_source : string }.

Inductive MigrationStep : Type :=
| SCreateModel (x : CreateModel)
| SUpdateModel (x : UpdateModel)
| SDeleteModel (x : DeleteModel)
| SCreateDirective (x : CreateDirective)
| SDeleteDirective (x : DeleteDirective)
| SCreateArgument (x : CreateArgument)
| SUpdateArgument (x : UpdateArgument)
| SDeleteArgument (x : DeleteArgument)
| SCreateField (x : CreateField)
| SDeleteField (x : DeleteField)
| SUpdateField (x : UpdateField)
| SCreateEnum (x : CreateEnum)
| SUpdateEnum (x : UpdateEnum)
| SDeleteEnum (x : DeleteEnum)
| SCreateTypeAlias (x : CreateTypeAlias)
| SUpdateTypeAlias (x : UpdateTypeAlias)
| SDeleteTypeAlias (x : DeleteTypeAlias)
| SCreateSource (x : CreateSource)
| SDeleteSource (x : DeleteSource).

(** The derived [PartialEq] instances. *)
#[export] Instance MigrationExpression_eq_dec : EqDecision MigrationExpression.
Proof. solve_decision. Defined.
#[export] Instance steps_FieldArity_eq_dec : EqDecision steps.FieldArity.
Proof. solve_decision. Defined.
#[export] Instance steps_Argument_eq_dec : EqDecision steps.Argument.
Proof. solve_decision. Defined.
#[export] Instance DirectivePath_eq_dec : EqDecision DirectivePath.
Proof. solve_decision. Defined.
#[export] Instance DirectiveLocation_eq_dec : EqDecision DirectiveLocation.
Proof. solve_decision. Defined.
#[export] Instance SourceLocation_eq_dec : EqDecision SourceLocation.
Proof. solve_decision. Defined.
#[export] Instance ArgumentLocation_eq_dec : EqDecision ArgumentLocation.
Proof. solve_decision. Defined.
#[export] Instance MigrationStep_eq_dec : EqDecision MigrationStep.
Proof.
  assert (EqDecision CreateModel) by solve_decision.
  assert (EqDecision UpdateModel) by solve_decision.
  assert (EqDecision DeleteModel) by solve_decision.
  assert (EqDecision CreateField) by solve_decision.
  assert (EqDecision UpdateField) by solve_decision.
  assert (EqDecision DeleteField) by solve_decision.
  assert (EqDecision CreateEnum) by solve_decision.
  assert (EqDecision UpdateEnum) by solve_decision.
  assert (EqDecision DeleteEnum) by solve_decision.
  assert (EqDecision CreateDirective) by solve_decision.
  assert (EqDecision DeleteDirective) by solve_decision.
  assert (EqDecision CreateArgument) by solve_decision.
  assert (EqDecision DeleteArgument) by solve_decision.
  assert (EqDecision UpdateArgument) by solve_decision.
  assert (EqDecision CreateTypeAlias) by solve_decision.
  assert (EqDecision UpdateTypeAlias) by solve_decision.
  assert (EqDecision DeleteTypeAlias) by solve_decision.
  assert (EqDecision CreateSource) by solve_decision.
  assert (EqDecision DeleteSource) by solve_decision.
  solve_decision.
Defined.

(** ** [is_any_option_set] *)
Definition UpdateModel_is_any_option_set (s : UpdateModel) : bool :=
  bool_decide (is_Some (um_new_name s)).
Definition UpdateField_is_any_option_set (s : UpdateField) : bool :=
  bool_decide (is_Some (uf_new_name s)) || bool_decide (is_Some (uf_tpe s))
  || bool_decide (is_Some (uf_arity s)).
Definition UpdateEnum_is_any_option_set (s : UpdateEnum) : bool :=
  bool_decide (is_Some (ue_new_name s)) || (0 <? length (ue_created_values s))%nat
  || (0 <? length (ue_deleted_values s))%nat.
Definition UpdateTypeAlias_is_any_option_set (s : UpdateTypeAlias) : bool :=
  bool_decide (is_Some (ut_type s)).

(** ** Arity conversions *)
Definition arity_from_ast (a : FieldArity) : steps.FieldArity :=
  match a with
  | Required => steps.Required
  | Optional => steps.Optional
  | List => steps.List
  end.
Definition arity_into_ast (a : steps.FieldArity) : FieldArity :=
  match a with
  | steps.Required => Required
  | steps.Optional => Optional
  | steps.List => List
  end.

(** ** Expressions *)
Definition from_ast_expression {E} (e : Expression) : outcome E MigrationExpression :=
  mkMigrationExpression <$> render_value e.

Section with_parser.
Context (parse_expr : string -> option Expression).

Definition to_ast_expression {E} (e : MigrationExpression) : outcome E Expression :=
  unwrap "called `Result::unwrap()` on an `Err` value" (parse_expr (expr_text e)).

(** [impl Into<ast::Argument> for &Argument] *)
Definition Argument_into_ast {E} (a : steps.Argument) : outcome E Argument :=
  v ← to_ast_expression (steps.value a);
  Ok (mkArgument (Identifier_new (steps.name a)) v Span_empty).
End with_parser.

(** [impl From<&ast::Argument> for Argument] *)
Definition Argument_from_ast {E} (a : Argument) : outcome E steps.Argument :=
  v ← from_ast_expression (arg_value a);
  Ok (steps.mkArgument (arg_key a) v).

(** [Argument::matches_ast_argument]; the right operand of the conjunction is
    only evaluated when the names agree. *)
Definition matches_ast_argument {E} (self : steps.Argument) (a : Argument) : outcome E bool :=
  if steps.name self ≟ arg_key a then
    v ← from_ast_expression (arg_value a); Ok (steps.value self ≟ v)
  else Ok false.

(** ** Directive paths and locations *)
Definition set_arguments (p : DirectivePath) (arguments : list steps.Argument) : DirectivePath :=
  match p with
  | PathModel model _ => PathModel model (Some arguments)
  | _ => p
  end.
Definition path_arguments (p : DirectivePath) : option (list steps.Argument) :=
  match p with
  | PathModel _ arguments => arguments
  | _ => None
  end.

Definition matches_ast_directive {E} (self : DirectiveLocation) (d : Directive) : outcome E bool :=
  if negb (dl_directive self ≟ dir_key d) then Ok false else
  match dl_path self with
  | PathModel _ (Some arguments) =>
      if negb (length (dir_arguments d) ≟ length arguments) then Ok false else
      all_m (fun directive_argument =>
        any_m (fun self_argument => matches_ast_argument self_argument directive_argument)
          arguments) (dir_arguments d)
  | _ => Ok true
  end.

(** The two arity conversions are inverse to each other, so an arity
    survives being written into a step and read back. *)
Lemma arity_conversions_inverse :
  (forall a, arity_into_ast (arity_from_ast a) = a) /\
  (forall a, arity_from_ast (arity_into_ast a) = a).
Proof. by split; intros []. Qed.

(** * Sample schemas

    Concrete schemas on which theorems are applied, and a parser for expressions
    that reads every text as one constant. *)
Definition parse_const (v : string) : option Expression := Some (ConstantValue v Span_empty).
Definition x_arg (n v : string) : Argument := mkArgument (Identifier_new n) (ConstantValue v Span_empty) Span_empty.
Definition x_dir (n : string) (args : list Argument) : Directive := mkDirective (Identifier_new n) args Span_empty.
Definition x_field (n t : string) (a : FieldArity) (ds : list Directive) : Field :=
  mkField (Identifier_new t) (Identifier_new n) a None ds None Span_empty false.
Definition x_model (n : string) (fs : list Field) (ds : list Directive) : Top :=
  TopModel (mkModel (Identifier_new n) fs ds None Span_empty false).
Definition x_value (n : string) (ds : list Directive) : EnumValue :=
  mkEnumValue (Identifier_new n) ds None Span_empty false.
Definition x_enum (n : string) (vs : list EnumValue) (ds : list Directive) : Top :=
  TopEnum (mkEnum (Identifier_new n) vs ds None Span_empty).
Definition x_source (n : string) (args : list Argument) : Top :=
  TopSource (mkSourceConfig (Identifier_new n) args None Span_empty).

Definition sample_prev : SchemaAst := mkSchemaAst
  [ x_source "db" [x_arg "provider" "postgresql"];
    TopType (x_field "Id" "String" Required [x_dir "default" [x_arg "" "cuid"]]);
    x_enum "Role" [x_value "ADMIN" []; x_value "USER" [x_dir "map" [x_arg "" "usr"]]] [];
    x_model "User" [x_field "id" "Int" Required [x_dir "id" []]; x_field "name" "String" Optional []]
      [x_dir "index" [x_arg "fields" "name"]; x_dir "map" [x_arg "name" "users"]];
    x_model "Dropped" [x_field "id" "Int" Required [x_dir "id" []]] [] ].
Definition sample_next : SchemaAst := mkSchemaAst
  [ x_model "Post" [x_field "id" "Id" Required [x_dir "id" []]] [x_dir "unique" [x_arg "fields" "id"]];
    x_model "User" [x_field "name" "String" Required [x_dir "default" [x_arg "" "anon"]];
        x_field "id" "Int" Required [x_dir "id" []]; x_field "posts" "Post" List []]
      [x_dir "unique" [x_arg "fields" "name"]; x_dir "map" [x_arg "name" "people"]];
    x_enum "Role" [x_value "USER" []; x_value "OWNER" []] [x_dir "map" [x_arg "" "roles"]];
    x_enum "Kind" [x_value "A" [x_dir "map" [x_arg "" "a"]]] [];
    TopType (x_field "Id" "Int" Required []);
    x_source "db" [x_arg "provider" "mysql"; x_arg "url" "env"] ].

(** An enum to which a value with a directive is added. *)
Definition value_before : SchemaAst := mkSchemaAst [x_enum "Role" [x_value "USER" []] []].
Definition value_after : SchemaAst := mkSchemaAst
  [x_enum "Role" [x_value "USER" []; x_value "ADMIN" [x_dir "map" [x_arg "" "adm"]]] []].

(** A list of steps that uses most kinds of steps. *)
Definition sample_steps : list MigrationStep :=
  [ SCreateModel (mkCreateModel "Post");
    SCreateField (mkCreateField "Post" "id" "Int" steps.Required);
    SCreateDirective (mkCreateDirective (mkDirectiveLocation (PathField "Post" "id") "id"));
    SCreateArgument (mkCreateArgument (LocDirective (mkDirectiveLocation (PathField "Post" "id") "id")) "x"
      (mkMigrationExpression "1"));
    SUpdateField (mkUpdateField "User" "name" None None (Some steps.Required));
    SDeleteDirective (mkDeleteDirective (mkDirectiveLocation (PathModel "User" (Some
      [steps.mkArgument "fields" (mkMigrationExpression "name")])) "index"));
    SUpdateEnum (mkUpdateEnum "Role" None ["OWNER"] ["ADMIN"]);
    SDeleteModel (mkDeleteModel "Dropped");
    SUpdateArgument (mkUpdateArgument (LocSource (mkSourceLocation "db")) "provider"
      (mkMigrationExpression "mysql")) ].
