(* ===== verification/Calculator.v ===== *)
(** * The datamodel calculator (core/src/migration/datamodel_calculator.rs)

    [apply] runs datamodel migration steps against a schema AST. An error value
    of type [CalculatorError] is one of the messages the code formats; a missing
    argument container and an unparsable expression panic, as [unwrap] does. *)
From S2P Require Import Prelude Ast ExprText Steps.

Inductive CalculatorError : Type :=
| SourceAlreadyExists (source : string)
| SourceDoesNotExist (source : string)
| EnumAlreadyExists (enum : string)
| EnumDoesNotExist (enum : string)
| FieldAlreadyExists (field model : string)
| CreateFieldOnUnknownModel (model : string)
| ModelAlreadyExists (model : string)
| ModelDoesNotExist (model : string)
| FieldDoesNotExist (field model : string)
| CreateDirectiveOnAbsentTarget (step : CreateDirective)
| DeleteDirectiveOnAbsentTarget (step : DeleteDirective)
| TypeAlreadyExists (type_alias : string)
| TypeDoesNotExist (type_alias : string).

Abbreviation CalcResult := (outcome CalculatorError).

Definition new_span : Span := Span_empty.
Definition new_ident (name : string) : Identifier := mkIdentifier name new_span.

(** [datamodel.tops.push(..)] *)
Definition push_top (top : Top) (s : SchemaAst) : SchemaAst := mkSchemaAst (tops s ++ [top]).

(** [if let Some(_) = found { return Err(e) }] *)
Definition bail_if_some {A} (found : option A) (e : CalculatorError) : CalcResult unit :=
  match found with Some _ => Err e | None => Ok tt end.

(** ** Locating directives and arguments *)
Definition find_directives_mut (s : SchemaAst) (location : DirectivePath) :
    option (RefMut SchemaAst (list Directive)) :=
  match location with
  | PathField model field =>
      f ← find_field_mut s model field;
      Some (reborrow f (mk_ref (field_directives (deref f))
        (fun ds => set_field_directives ds (deref f))))
  | PathModel model _ =>
      m ← find_model_mut s model;
      Some (reborrow m (mk_ref (model_directives (deref m))
        (fun ds => set_model_directives ds (deref m))))
  | PathEnum enum =>
      e ← find_enum_mut s enum;
      Some (reborrow e (mk_ref (enum_directives (deref e))
        (fun ds => set_enum_directives ds (deref e))))
  | PathEnumValue enum value =>
      e ← find_enum_mut s enum;
      v ← find_mut (by_key value_key value) (enum_values (deref e));
      Some (reborrow e (mk_ref (value_directives (deref v))
        (fun ds => set_enum_values (write v (set_value_directives ds (deref v))) (deref e))))
  | PathTypeAlias type_alias =>
      t ← find_type_alias_mut s type_alias;
      Some (reborrow t (mk_ref (field_directives (deref t))
        (fun ds => set_field_directives ds (deref t))))
  end.

Definition find_directive_mut (s : SchemaAst) (locator : DirectiveLocation) :
    option (RefMut SchemaAst Directive) :=
  ds ← find_directives_mut s (dl_path locator);
  d ← find_mut (by_key dir_key (dl_directive locator)) (deref ds);
  Some (reborrow ds d).

(** [ArgumentContainer]: the borrow of the arguments of a source block or of a
    directive. *)
Definition find_argument_container (s : SchemaAst) (locator : ArgumentLocation) :
    option (RefMut SchemaAst (list Argument)) :=
  match locator with
  | LocSource l =>
      sc ← find_source_mut s (sl_source l);
      Some (reborrow sc (mk_ref (source_properties (deref sc))
        (fun ps => set_source_properties ps (deref sc))))
  | LocDirective l =>
      d ← find_directive_mut s l;
      Some (reborrow d (mk_ref (dir_arguments (deref d))
        (fun args => set_dir_arguments args (deref d))))
  end.

Definition new_enum_value (name : string) : EnumValue :=
  mkEnumValue (Identifier_new name) [] None new_span false.

(** ** Datasources *)
Definition apply_create_source (s : SchemaAst) (step : CreateSource) : CalcResult SchemaAst :=
  let name := cs_source step in
  _ ← bail_if_some (find_source s name) (SourceAlreadyExists name);
  Ok (push_top (TopSource (mkSourceConfig (new_ident name) [] None new_span)) s).

(** The existence check looks for a model, as the source does. *)
Definition apply_delete_source (s : SchemaAst) (step : DeleteSource) : CalcResult SchemaAst :=
  _ ← ok_or (SourceDoesNotExist (ds_source step)) (find_model s (ds_source step));
  Ok (mkSchemaAst (iter_filter (fun top =>
    match top with
    | TopSource source => negb (source_key source ≟ ds_source step)
    | _ => true
    end) (tops s))).

(** ** Enums *)
Definition apply_create_enum (s : SchemaAst) (step : CreateEnum) : CalcResult SchemaAst :=
  let name := ce_enum step in
  _ ← bail_if_some (find_enum s name) (EnumAlreadyExists name);
  Ok (push_top (TopEnum (mkEnum (new_ident name) (new_enum_value <$> ce_values step)
    [] None new_span)) s).

Definition update_enum_name (e : Enum) (new_name : string) : Enum := set_enum_name (new_ident new_name) e.
Definition add_enum_values (e : Enum) (added_values : list string) : Enum :=
  set_enum_values (enum_values e ++ (new_enum_value <$> added_values)) e.
Definition remove_enum_values (e : Enum) (removed_values : list string) : Enum :=
  set_enum_values (iter_filter (fun value =>
    bool_decide (iter_find (fun removed => removed ≟ value_key value) removed_values = None))
    (enum_values e)) e.

(** [apply_enum_update], [apply_field_update], [apply_model_update] *)
Definition apply_update {A T} (x : A) (update : option T) (apply_fn : A -> T -> A) : A :=
  match update with Some u => apply_fn x u | None => x end.

Definition apply_update_enum (s : SchemaAst) (step : UpdateEnum) : CalcResult SchemaAst :=
  e ← ok_or (EnumDoesNotExist (ue_enum step)) (find_enum_mut s (ue_enum step));
  let e1 := apply_update (deref e) (ue_new_name step) update_enum_name in
  let e2 := add_enum_values e1 (ue_created_values step) in
  let e3 := remove_enum_values e2 (ue_deleted_values step) in
  Ok (write e e3).

Definition apply_delete_enum (s : SchemaAst) (step : DeleteEnum) : CalcResult SchemaAst :=
  _ ← ok_or (EnumDoesNotExist (de_enum step)) (find_enum s (de_enum step));
  Ok (mkSchemaAst (iter_filter (fun top =>
    match top with
    | TopEnum e => negb (enum_key e ≟ de_enum step)
    | _ => true
    end) (tops s))).

(** ** Models *)
Definition apply_create_model (s : SchemaAst) (step : CreateModel) : CalcResult SchemaAst :=
  _ ← bail_if_some (find_model s (cm_model step)) (ModelAlreadyExists (cm_model step));
  Ok (push_top (TopModel (mkModel (new_ident (cm_model step)) [] [] None new_span false)) s).

Definition update_model_name (m : Model) (new_name : string) : Model :=
  set_model_name (new_ident new_name) m.

Definition apply_update_model (s : SchemaAst) (step : UpdateModel) : CalcResult SchemaAst :=
  m ← ok_or (ModelDoesNotExist (um_model step)) (find_model_mut s (um_model step));
  Ok (write m (apply_update (deref m) (um_new_name step) update_model_name)).

Definition apply_delete_model (s : SchemaAst) (step : DeleteModel) : CalcResult SchemaAst :=
  _ ← ok_or (ModelDoesNotExist (dm_model step)) (find_model s (dm_model step));
  Ok (mkSchemaAst (iter_filter (fun top =>
    match top with
    | TopModel m => negb (model_key m ≟ dm_model step)
    | _ => true
    end) (tops s))).

(** ** Fields *)
Definition apply_create_field (s : SchemaAst) (step : CreateField) : CalcResult SchemaAst :=
  _ ← bail_if_some (find_field s (cf_model step) (cf_field step))
        (FieldAlreadyExists (cf_field step) (cf_model step));
  m ← ok_or (CreateFieldOnUnknownModel (cf_model step)) (find_model_mut s (cf_model step));
  let field := mkField (new_ident (cf_tpe step)) (new_ident (cf_field step))
    (arity_into_ast (cf_arity step)) None [] None new_span false in
  Ok (write m (set_fields (model_fields (deref m) ++ [field]) (deref m))).

Definition update_field_arity (f : Field) (new_arity : FieldArity) : Field := set_field_arity new_arity f.
Definition update_field_type (f : Field) (new_type : string) : Field := set_field_type (new_ident new_type) f.
Definition update_field_name (f : Field) (new_name : string) : Field := set_field_name (new_ident new_name) f.

Definition apply_update_field (s : SchemaAst) (step : UpdateField) : CalcResult SchemaAst :=
  _ ← ok_or (ModelDoesNotExist (uf_model step)) (find_model s (uf_model step));
  f ← ok_or (FieldDoesNotExist (uf_field step) (uf_model step))
        (find_field_mut s (uf_model step) (uf_field step));
  let f1 := apply_update (deref f) (arity_into_ast <$> uf_arity step) update_field_arity in
  let f2 := apply_update f1 (uf_tpe step) update_field_type in
  let f3 := apply_update f2 (uf_new_name step) update_field_name in
  Ok (write f f3).

Definition apply_delete_field (s : SchemaAst) (step : DeleteField) : CalcResult SchemaAst :=
  _ ← ok_or (ModelDoesNotExist (df_model step)) (find_model s (df_model step));
  _ ← ok_or (FieldDoesNotExist (df_field step) (df_model step))
        (find_field s (df_model step) (df_field step));
  m ← unwrap "called `Option::unwrap()` on a `None` value" (find_model_mut s (df_model step));
  Ok (write m (set_fields
    (iter_filter (fun f => negb (field_key f ≟ df_field step)) (model_fields (deref m))) (deref m))).

(** ** Type aliases *)
Definition apply_create_type_alias (s : SchemaAst) (step : CreateTypeAlias) : CalcResult SchemaAst :=
  _ ← bail_if_some (find_type_alias s (ct_type_alias step)) (TypeAlreadyExists (ct_type_alias step));
  let type_alias := mkField (new_ident (ct_type step)) (new_ident (ct_type_alias step))
    (arity_into_ast (ct_arity step)) None [] None new_span false in
  Ok (push_top (TopType type_alias) s).

Definition apply_update_type_alias (s : SchemaAst) (step : UpdateTypeAlias) : CalcResult SchemaAst :=
  t ← ok_or (TypeDoesNotExist (ut_type_alias step)) (find_type_alias_mut s (ut_type_alias step));
  Ok (write t (match ut_type step with
    | Some tpe => set_field_type (new_ident tpe) (deref t)
    | None => deref t
    end)).

Definition apply_delete_type_alias (s : SchemaAst) (step : DeleteTypeAlias) : CalcResult SchemaAst :=
  _ ← ok_or (TypeDoesNotExist (dt_type_alias step)) (find_type_alias s (dt_type_alias step));
  Ok (mkSchemaAst (iter_filter (fun top =>
    match top with
    | TopType t => negb (field_key t ≟ dt_type_alias step)
    | _ => true
    end) (tops s))).

(** ** Directives and arguments *)
Definition apply_delete_directive (s : SchemaAst) (step : DeleteDirective) : CalcResult SchemaAst :=
  ds ← ok_or (DeleteDirectiveOnAbsentTarget step)
         (find_directives_mut s (dl_path (dd_location step)));
  new_directives ← filter_m (fun d => negb <$> matches_ast_directive (dd_location step) d) (deref ds);
  Ok (write ds new_directives).

Definition apply_delete_directive_argument (s : SchemaAst) (step : DeleteArgument) : CalcResult SchemaAst :=
  c ← unwrap "called `Option::unwrap()` on a `None` value" (find_argument_container s (da_location step));
  Ok (write c (iter_filter (fun a => negb (arg_key a ≟ da_argument step)) (deref c))).

Section with_parser.
Context (parse_expr : string -> option Expression).

Definition apply_create_directive (s : SchemaAst) (step : CreateDirective) : CalcResult SchemaAst :=
  let location := cd_location step in
  ds ← ok_or (CreateDirectiveOnAbsentTarget step) (find_directives_mut s (dl_path location));
  arguments ← match path_arguments (dl_path location) with
              | Some args => map_m (Argument_into_ast parse_expr) args
              | None => Ok []
              end;
  Ok (write ds (deref ds ++ [mkDirective (new_ident (dl_directive location)) arguments new_span])).

Definition apply_create_directive_argument (s : SchemaAst) (step : CreateArgument) : CalcResult SchemaAst :=
  c ← unwrap "called `Option::unwrap()` on a `None` value" (find_argument_container s (ca_location step));
  v ← to_ast_expression parse_expr (ca_value step);
  Ok (write c (deref c ++ [mkArgument (new_ident (ca_argument step)) v new_span])).

Definition apply_update_directive_argument (s : SchemaAst) (step : UpdateArgument) : CalcResult SchemaAst :=
  c ← unwrap "called `Option::unwrap()` on a `None` value" (find_argument_container s (ua_location step));
  args ← map_m (fun a =>
      if arg_key a ≟ ua_argument step then
        v ← to_ast_expression parse_expr (ua_new_value step); Ok (set_arg_value v a)
      else Ok a) (deref c);
  Ok (write c args).

(** ** The dispatcher *)
Definition apply_step (s : SchemaAst) (step : MigrationStep) : CalcResult SchemaAst :=
  match step with
  | SCreateEnum x => apply_create_enum s x
  | SUpdateEnum x => apply_update_enum s x
  | SDeleteEnum x => apply_delete_enum s x
  | SCreateModel x => apply_create_model s x
  | SUpdateModel x => apply_update_model s x
  | SDeleteModel x => apply_delete_model s x
  | SCreateField x => apply_create_field s x
  | SUpdateField x => apply_update_field s x
  | SDeleteField x => apply_delete_field s x
  | SCreateTypeAlias x => apply_create_type_alias s x
  | SUpdateTypeAlias x => apply_update_type_alias s x
  | SDeleteTypeAlias x => apply_delete_type_alias s x
  | SCreateDirective x => apply_create_directive s x
  | SDeleteDirective x => apply_delete_directive s x
  | SCreateArgument x => apply_create_directive_argument s x
  | SDeleteArgument x => apply_delete_directive_argument s x
  | SUpdateArgument x => apply_update_directive_argument s x
  | SCreateSource x => apply_create_source s x
  | SDeleteSource x => apply_delete_source s x
  end.

Definition apply (schema : SchemaAst) (steps : list MigrationStep) : CalcResult SchemaAst :=
  for_each apply_step steps schema.

(** [DataModelCalculatorImpl::infer] *)
Definition calculator_infer (current : SchemaAst) (steps : list MigrationStep) : CalcResult SchemaAst :=
  apply current steps.
End with_parser.
