(* ===== verification/Differ.v ===== *)
(** * The datamodel differ (core/src/migration/datamodel_differ.rs and its modules)

    [diff previous next] lists the migration steps from one schema AST to
    another. [steps: &mut Vec<MigrationStep>] is passed along explicitly. The
    only way the differ can fail is a panic of the expression renderer. *)
From S2P Require Import Prelude Ast ExprText Steps.

Abbreviation Steps := (list MigrationStep).

(** The differ has no error value of its own. *)
Abbreviation DiffResult := (outcome Empty_set).

(** ** Matching by name

    Every differ compares elements by [name.name] and has the same three
    iterators. *)
Section by_name.
Context {A : Type} (key : A -> string).

(** Elements of [next] without a partner in [previous]. *)
Definition created (previous next : list A) : list A :=
  iter_filter (fun n => bool_decide (iter_find (fun p => key p ≟ key n) previous = None)) next.
(** Elements of [previous] without a partner in [next]. *)
Definition deleted (previous next : list A) : list A :=
  iter_filter (fun p => bool_decide (iter_find (fun n => key p ≟ key n) next = None)) previous.
(** Elements of [previous] with their first partner in [next]. *)
Definition pairs (previous next : list A) : list (A * A) :=
  omap (fun p => (fun n => (p, n)) <$> iter_find (fun n => key p ≟ key n) next) previous.
End by_name.

(** ** Directives (directives.rs) *)
Definition created_arguments (previous next : Directive) : list Argument :=
  created arg_key (dir_arguments previous) (dir_arguments next).
Definition deleted_arguments (previous next : Directive) : list Argument :=
  deleted arg_key (dir_arguments previous) (dir_arguments next).
Definition argument_pairs (previous next : Directive) : list (Argument * Argument) :=
  pairs arg_key (dir_arguments previous) (dir_arguments next).

Definition arguments_are_identical (previous next : Argument) : DiffResult bool :=
  if arg_key previous ≟ arg_key next then
    p ← from_ast_expression (arg_value previous);
    n ← from_ast_expression (arg_value next);
    Ok (p ≟ n)
  else Ok false.

Definition directives_are_identical (previous next : Directive) : DiffResult bool :=
  if negb (dir_key previous ≟ dir_key next) then Ok false else
  if negb (length (dir_arguments previous) ≟ length (dir_arguments next)) then Ok false else
  all_m (fun p => any_m (fun n => arguments_are_identical p n) (dir_arguments next))
    (dir_arguments previous).

(** ** Fields, enum values and enums (fields.rs, enum_values.rs, enums.rs) *)
Definition field_created_directives (p n : Field) : list Directive :=
  created dir_key (field_directives p) (field_directives n).
Definition field_deleted_directives (p n : Field) : list Directive :=
  deleted dir_key (field_directives p) (field_directives n).
Definition field_directive_pairs (p n : Field) : list (Directive * Directive) :=
  pairs dir_key (field_directives p) (field_directives n).

Definition value_created_directives (p n : EnumValue) : list Directive :=
  created dir_key (value_directives p) (value_directives n).
Definition value_deleted_directives (p n : EnumValue) : list Directive :=
  deleted dir_key (value_directives p) (value_directives n).
Definition value_directive_pairs (p n : EnumValue) : list (Directive * Directive) :=
  pairs dir_key (value_directives p) (value_directives n).

Definition created_values (p n : Enum) : list EnumValue :=
  created value_key (enum_values p) (enum_values n).
Definition deleted_values (p n : Enum) : list EnumValue :=
  deleted value_key (enum_values p) (enum_values n).
Definition value_pairs (p n : Enum) : list (EnumValue * EnumValue) :=
  pairs value_key (enum_values p) (enum_values n).
Definition enum_created_directives (p n : Enum) : list Directive :=
  created dir_key (enum_directives p) (enum_directives n).
Definition enum_deleted_directives (p n : Enum) : list Directive :=
  deleted dir_key (enum_directives p) (enum_directives n).
Definition enum_directive_pairs (p n : Enum) : list (Directive * Directive) :=
  pairs dir_key (enum_directives p) (enum_directives n).

(** ** Models (models.rs) *)
Definition REPEATED_MODEL_DIRECTIVES : list string := ["unique"; "index"].
Definition directive_is_repeated (d : Directive) : bool :=
  bool_decide (dir_key d ∈ REPEATED_MODEL_DIRECTIVES).
Definition directive_is_regular (d : Directive) : bool := negb (directive_is_repeated d).

Definition regular_directives (m : Model) : list Directive :=
  iter_filter directive_is_regular (model_directives m).
Definition repeated_directives (m : Model) : list Directive :=
  iter_filter directive_is_repeated (model_directives m).

Definition created_fields (p n : Model) : list Field :=
  created field_key (model_fields p) (model_fields n).
Definition deleted_fields (p n : Model) : list Field :=
  deleted field_key (model_fields p) (model_fields n).
Definition field_pairs (p n : Model) : list (Field * Field) :=
  pairs field_key (model_fields p) (model_fields n).
Definition created_regular_directives (p n : Model) : list Directive :=
  created dir_key (regular_directives p) (regular_directives n).
Definition deleted_regular_directives (p n : Model) : list Directive :=
  deleted dir_key (regular_directives p) (regular_directives n).
Definition regular_directive_pairs (p n : Model) : list (Directive * Directive) :=
  pairs dir_key (regular_directives p) (regular_directives n).
Definition created_repeated_directives (p n : Model) : DiffResult (list Directive) :=
  filter_m (fun next_directive => negb <$>
    any_m (fun previous_directive => directives_are_identical previous_directive next_directive)
      (repeated_directives p)) (repeated_directives n).
Definition deleted_repeated_directives (p n : Model) : DiffResult (list Directive) :=
  filter_m (fun previous_directive => negb <$>
    any_m (fun next_directive => directives_are_identical previous_directive next_directive)
      (repeated_directives n)) (repeated_directives p).

(** ** Datasources (source.rs) *)
Definition source_created_arguments (p n : SourceConfig) : list Argument :=
  created arg_key (source_properties p) (source_properties n).
Definition source_deleted_arguments (p n : SourceConfig) : list Argument :=
  deleted arg_key (source_properties p) (source_properties n).
Definition source_argument_pairs (p n : SourceConfig) : list (Argument * Argument) :=
  pairs arg_key (source_properties p) (source_properties n).

(** ** Top-level items (top_level.rs) *)
Definition model_pairs (p n : SchemaAst) : list (Model * Model) := pairs model_key (models p) (models n).
Definition created_models (p n : SchemaAst) : list Model := created model_key (models p) (models n).
Definition deleted_models (p n : SchemaAst) : list Model := deleted model_key (models p) (models n).
Definition updated_datasources (p n : SchemaAst) : list (SourceConfig * SourceConfig) :=
  pairs source_key (sources p) (sources n).
Definition created_datasources (p n : SchemaAst) : list SourceConfig :=
  created source_key (sources p) (sources n).
Definition deleted_datasources (p n : SchemaAst) : list SourceConfig :=
  deleted source_key (sources p) (sources n).
Definition enum_pairs (p n : SchemaAst) : list (Enum * Enum) := pairs enum_key (enums p) (enums n).
Definition created_enums (p n : SchemaAst) : list Enum := created enum_key (enums p) (enums n).
Definition deleted_enums (p n : SchemaAst) : list Enum := deleted enum_key (enums p) (enums n).
Definition created_type_aliases (p n : SchemaAst) : list Field := created field_key (types p) (types n).
Definition deleted_type_aliases (p n : SchemaAst) : list Field := deleted field_key (types p) (types n).
Definition type_alias_pairs (p n : SchemaAst) : list (Field * Field) := pairs field_key (types p) (types n).

(** ** Pushing steps (datamodel_differ.rs) *)
Definition diff_value {T} `{EqDecision T} (current updated : T) : option T :=
  if current ≟ updated then None else Some updated.

Definition push_created_argument (loc : ArgumentLocation) (steps : Steps) (a : Argument) : DiffResult Steps :=
  v ← from_ast_expression (arg_value a);
  Ok (steps ++ [SCreateArgument (mkCreateArgument loc (arg_key a) v)]).

Definition push_updated_argument (loc : ArgumentLocation) (steps : Steps) (pn : Argument * Argument) :
    DiffResult Steps :=
  let '(previous_argument, next_argument) := pn in
  previous_value ← from_ast_expression (arg_value previous_argument);
  next_value ← from_ast_expression (arg_value next_argument);
  if previous_value ≟ next_value then Ok steps
  else Ok (steps ++ [SUpdateArgument (mkUpdateArgument loc (arg_key next_argument) next_value)]).

Definition push_deleted_argument (loc : ArgumentLocation) (steps : Steps) (a : Argument) : DiffResult Steps :=
  Ok (steps ++ [SDeleteArgument (mkDeleteArgument loc (arg_key a))]).

Definition push_created_directive (path : DirectivePath) (steps : Steps) (d : Directive) : DiffResult Steps :=
  let directive_location := mkDirectiveLocation path (dir_key d) in
  let steps := steps ++ [SCreateDirective (mkCreateDirective directive_location)] in
  for_each (push_created_argument (LocDirective directive_location)) (dir_arguments d) steps.

Definition push_created_directives (path : DirectivePath) (ds : list Directive) (steps : Steps) :
    DiffResult Steps :=
  for_each (push_created_directive path) ds steps.

Definition push_created_directive_with_arguments (path : DirectivePath) (steps : Steps) (d : Directive) :
    DiffResult Steps :=
  args ← map_m Argument_from_ast (dir_arguments d);
  Ok (steps ++ [SCreateDirective (mkCreateDirective
    (mkDirectiveLocation (set_arguments path args) (dir_key d)))]).

Definition push_created_directives_with_arguments (path : DirectivePath) (ds : list Directive)
    (steps : Steps) : DiffResult Steps :=
  for_each (push_created_directive_with_arguments path) ds steps.

Definition push_deleted_directive (path : DirectivePath) (steps : Steps) (d : Directive) : DiffResult Steps :=
  Ok (steps ++ [SDeleteDirective (mkDeleteDirective (mkDirectiveLocation path (dir_key d)))]).

Definition push_deleted_directives (path : DirectivePath) (ds : list Directive) (steps : Steps) :
    DiffResult Steps :=
  for_each (push_deleted_directive path) ds steps.

Definition push_deleted_directive_with_arguments (path : DirectivePath) (steps : Steps) (d : Directive) :
    DiffResult Steps :=
  args ← map_m Argument_from_ast (dir_arguments d);
  Ok (steps ++ [SDeleteDirective (mkDeleteDirective
    (mkDirectiveLocation (set_arguments path args) (dir_key d)))]).

Definition push_updated_directive (path : DirectivePath) (steps : Steps) (pn : Directive * Directive) :
    DiffResult Steps :=
  let '(previous, next) := pn in
  let location := LocDirective (mkDirectiveLocation path (dir_key previous)) in
  steps ← for_each (push_created_argument location) (created_arguments previous next) steps;
  steps ← for_each (push_updated_argument location) (argument_pairs previous next) steps;
  for_each (push_deleted_argument location) (deleted_arguments previous next) steps.

Definition push_updated_directives (path : DirectivePath) (ds : list (Directive * Directive))
    (steps : Steps) : DiffResult Steps :=
  for_each (push_updated_directive path) ds steps.

(** *** Fields *)
Definition push_created_field (model_name : string) (steps : Steps) (f : Field) : DiffResult Steps :=
  let steps := steps ++ [SCreateField (mkCreateField model_name (field_key f)
    (id_name (field_type f)) (arity_from_ast (field_arity f)))] in
  push_created_directives (PathField model_name (field_key f)) (field_directives f) steps.

Definition push_created_fields (model_name : string) (fs : list Field) (steps : Steps) : DiffResult Steps :=
  for_each (push_created_field model_name) fs steps.

Definition push_deleted_fields (model_name : string) (fs : list Field) (steps : Steps) : DiffResult Steps :=
  Ok (steps ++ ((fun f => SDeleteField (mkDeleteField model_name (field_key f))) <$> fs)).

Definition push_updated_field (model_name : string) (steps : Steps) (pn : Field * Field) : DiffResult Steps :=
  let '(previous, next) := pn in
  let update_field_step := mkUpdateField model_name (field_key previous)
    (diff_value (field_key previous) (field_key next))
    (diff_value (id_name (field_type previous)) (id_name (field_type next)))
    (arity_from_ast <$> diff_value (field_arity previous) (field_arity next)) in
  let steps := if UpdateField_is_any_option_set update_field_step
               then steps ++ [SUpdateField update_field_step] else steps in
  let path := PathField model_name (field_key previous) in
  steps ← push_created_directives path (field_created_directives previous next) steps;
  steps ← push_updated_directives path (field_directive_pairs previous next) steps;
  push_deleted_directives path (field_deleted_directives previous next) steps.

Definition push_updated_fields (model_name : string) (fs : list (Field * Field)) (steps : Steps) :
    DiffResult Steps :=
  for_each (push_updated_field model_name) fs steps.

(** *** Models *)
Definition push_created_model (steps : Steps) (m : Model) : DiffResult Steps :=
  let path := PathModel (model_key m) None in
  let steps := steps ++ [SCreateModel (mkCreateModel (model_key m))] in
  steps ← push_created_fields (model_key m) (model_fields m) steps;
  steps ← push_created_directives path (iter_filter directive_is_regular (model_directives m)) steps;
  push_created_directives_with_arguments path (iter_filter directive_is_repeated (model_directives m)) steps.

Definition push_created_models (ms : list Model) (steps : Steps) : DiffResult Steps :=
  for_each push_created_model ms steps.

Definition push_deleted_models (ms : list Model) (steps : Steps) : DiffResult Steps :=
  Ok (steps ++ ((fun m => SDeleteModel (mkDeleteModel (model_key m))) <$> ms)).

Definition push_updated_model (steps : Steps) (pn : Model * Model) : DiffResult Steps :=
  let '(previous, next) := pn in
  let model_name := model_key previous in
  steps ← push_created_fields model_name (created_fields previous next) steps;
  steps ← push_deleted_fields model_name (deleted_fields previous next) steps;
  steps ← push_updated_fields model_name (field_pairs previous next) steps;
  let path := PathModel model_name None in
  steps ← push_created_directives path (created_regular_directives previous next) steps;
  steps ← push_updated_directives path (regular_directive_pairs previous next) steps;
  steps ← push_deleted_directives path (deleted_regular_directives previous next) steps;
  created ← created_repeated_directives previous next;
  steps ← for_each (push_created_directive_with_arguments path) created steps;
  deleted ← deleted_repeated_directives previous next;
  for_each (push_deleted_directive_with_arguments path) deleted steps.

Definition push_updated_models (ms : list (Model * Model)) (steps : Steps) : DiffResult Steps :=
  for_each push_updated_model ms steps.

Definition push_models (p n : SchemaAst) (steps : Steps) : DiffResult Steps :=
  steps ← push_created_models (created_models p n) steps;
  steps ← push_deleted_models (deleted_models p n) steps;
  push_updated_models (model_pairs p n) steps.

(** *** Datasources *)
Definition push_created_source (steps : Steps) (s : SourceConfig) : DiffResult Steps :=
  let steps := steps ++ [SCreateSource (mkCreateSource (source_key s))] in
  for_each (push_created_argument (LocSource (mkSourceLocation (source_key s)))) (source_properties s) steps.

Definition push_created_sources (ss : list SourceConfig) (steps : Steps) : DiffResult Steps :=
  for_each push_created_source ss steps.

Definition push_deleted_sources (ss : list SourceConfig) (steps : Steps) : DiffResult Steps :=
  Ok (steps ++ ((fun s => SDeleteSource (mkDeleteSource (source_key s))) <$> ss)).

Definition push_updated_source (steps : Steps) (pn : SourceConfig * SourceConfig) : DiffResult Steps :=
  let '(previous, next) := pn in
  let location := LocSource (mkSourceLocation (source_key previous)) in
  steps ← for_each (push_created_argument location) (source_created_arguments previous next) steps;
  steps ← for_each (push_deleted_argument location) (source_deleted_arguments previous next) steps;
  for_each (push_updated_argument location) (source_argument_pairs previous next) steps.

Definition push_updated_sources (ss : list (SourceConfig * SourceConfig)) (steps : Steps) : DiffResult Steps :=
  for_each push_updated_source ss steps.

Definition push_datasources (p n : SchemaAst) (steps : Steps) : DiffResult Steps :=
  steps ← push_created_sources (created_datasources p n) steps;
  steps ← push_deleted_sources (deleted_datasources p n) steps;
  push_updated_sources (updated_datasources p n) steps.

(** *** Enums *)
Definition push_created_enum (steps : Steps) (e : Enum) : DiffResult Steps :=
  let steps := steps ++ [SCreateEnum (mkCreateEnum (enum_key e) (value_key <$> enum_values e))] in
  steps ← push_created_directives (PathEnum (enum_key e)) (enum_directives e) steps;
  for_each (fun steps value =>
    push_created_directives (PathEnumValue (enum_key e) (value_key value)) (value_directives value) steps)
    (enum_values e) steps.

Definition push_created_enums (es : list Enum) (steps : Steps) : DiffResult Steps :=
  for_each push_created_enum es steps.

Definition push_deleted_enums (es : list Enum) (steps : Steps) : DiffResult Steps :=
  Ok (steps ++ ((fun e => SDeleteEnum (mkDeleteEnum (enum_key e))) <$> es)).

Definition push_updated_enum_value (enum_name : string) (steps : Steps) (pn : EnumValue * EnumValue) :
    DiffResult Steps :=
  let '(previous, next) := pn in
  let path := PathEnumValue enum_name (value_key next) in
  steps ← push_created_directives path (value_created_directives previous next) steps;
  steps ← push_updated_directives path (value_directive_pairs previous next) steps;
  push_deleted_directives path (value_deleted_directives previous next) steps.

Definition push_updated_enum (steps : Steps) (pn : Enum * Enum) : DiffResult Steps :=
  let '(previous, next) := pn in
  let deleted := value_key <$> deleted_values previous next in
  let created := value_key <$> created_values previous next in
  steps ← for_each (fun steps value =>
      push_created_directives (PathEnumValue (enum_key next) (value_key value))
        (value_directives value) steps) (created_values previous next) steps;
  steps ← for_each (push_updated_enum_value (enum_key next)) (value_pairs previous next) steps;
  let update_enum_step := mkUpdateEnum (enum_key previous)
    (diff_value (enum_key previous) (enum_key next)) created deleted in
  let steps := if UpdateEnum_is_any_option_set update_enum_step
               then steps ++ [SUpdateEnum update_enum_step] else steps in
  let path := PathEnum (enum_key previous) in
  steps ← push_created_directives path (enum_created_directives previous next) steps;
  steps ← push_updated_directives path (enum_directive_pairs previous next) steps;
  push_deleted_directives path (enum_deleted_directives previous next) steps.

Definition push_updated_enums (es : list (Enum * Enum)) (steps : Steps) : DiffResult Steps :=
  for_each push_updated_enum es steps.

Definition push_enums (p n : SchemaAst) (steps : Steps) : DiffResult Steps :=
  steps ← push_created_enums (created_enums p n) steps;
  steps ← push_deleted_enums (deleted_enums p n) steps;
  push_updated_enums (enum_pairs p n) steps.

(** *** Type aliases *)
Definition push_created_type_alias (steps : Steps) (t : Field) : DiffResult Steps :=
  let steps := steps ++ [SCreateTypeAlias (mkCreateTypeAlias (field_key t) (id_name (field_type t))
    (arity_from_ast (field_arity t)))] in
  push_created_directives (PathTypeAlias (field_key t)) (field_directives t) steps.

Definition push_created_type_aliases (ts : list Field) (steps : Steps) : DiffResult Steps :=
  for_each push_created_type_alias ts steps.

Definition push_deleted_type_aliases (ts : list Field) (steps : Steps) : DiffResult Steps :=
  Ok (steps ++ ((fun t => SDeleteTypeAlias (mkDeleteTypeAlias (field_key t))) <$> ts)).

Definition push_updated_type_alias (steps : Steps) (pn : Field * Field) : DiffResult Steps :=
  let '(previous, next) := pn in
  let path := PathTypeAlias (field_key previous) in
  let step := mkUpdateTypeAlias (field_key previous)
    (diff_value (id_name (field_type previous)) (id_name (field_type next))) in
  let steps := if UpdateTypeAlias_is_any_option_set step then steps ++ [SUpdateTypeAlias step] else steps in
  steps ← push_created_directives path (field_created_directives previous next) steps;
  steps ← push_updated_directives path (field_directive_pairs previous next) steps;
  push_deleted_directives path (field_deleted_directives previous next) steps.

Definition push_updated_type_aliases (ts : list (Field * Field)) (steps : Steps) : DiffResult Steps :=
  for_each push_updated_type_alias ts steps.

Definition push_type_aliases (p n : SchemaAst) (steps : Steps) : DiffResult Steps :=
  steps ← push_created_type_aliases (created_type_aliases p n) steps;
  steps ← push_deleted_type_aliases (deleted_type_aliases p n) steps;
  push_updated_type_aliases (type_alias_pairs p n) steps.

(** *** The differ *)
Definition diff (previous next : SchemaAst) : DiffResult Steps :=
  steps ← push_type_aliases previous next [];
  steps ← push_enums previous next steps;
  steps ← push_datasources previous next steps;
  push_models previous next steps.
