(* ===== verification/SchemaMap.v ===== *)
(** * Schemas as finite maps: the specification of migration steps

    A schema AST is read as a collection of finite maps, from names to what the
    migration engine knows about the named thing; spans, comments, the order of
    declarations and generator blocks are not part of it. [abs_step] says what
    each step of the differ's vocabulary is meant to do on that view. *)
From S2P Require Import Prelude Ast ExprText Steps Differ.

Abbreviation ArgMap := (gmap string string).
Abbreviation DirMap := (gmap string ArgMap).

Record AField : Type := mkAField { af_type : string; af_arity : FieldArity; af_dirs : DirMap }.
Record AEnum : Type := mkAEnum { ae_values : gmap string DirMap; ae_dirs : DirMap }.
Record AModel : Type := mkAModel {
  am_fields : gmap string AField;
  am_dirs : DirMap;
  (** [@@unique] and [@@index], which may occur several times. *)
  am_repeated : gset (string * ArgMap);
}.
Record ASchema : Type := mkASchema {
  as_types : gmap string AField;
  as_enums : gmap string AEnum;
  as_sources : gmap string ArgMap;
  as_models : gmap string AModel;
}.

(** ** The view of an AST *)
Definition abs_args (args : list Argument) : ArgMap :=
  kmap arg_key (fun a => render_text (arg_value a)) args.
Definition abs_dirs (ds : list Directive) : DirMap :=
  kmap dir_key (fun d => abs_args (dir_arguments d)) ds.
Definition abs_repeated_dir (d : Directive) : string * ArgMap := (dir_key d, abs_args (dir_arguments d)).
Definition abs_field (f : Field) : AField :=
  mkAField (id_name (field_type f)) (field_arity f) (abs_dirs (field_directives f)).
Definition abs_value (v : EnumValue) : DirMap := abs_dirs (value_directives v).
Definition abs_enum (e : Enum) : AEnum :=
  mkAEnum (kmap value_key abs_value (enum_values e)) (abs_dirs (enum_directives e)).
Definition abs_model (m : Model) : AModel :=
  mkAModel (kmap field_key abs_field (model_fields m)) (abs_dirs (regular_directives m))
    (list_to_set (abs_repeated_dir <$> repeated_directives m)).
Definition abs_source (s : SourceConfig) : ArgMap := abs_args (source_properties s).
Definition abs (s : SchemaAst) : ASchema :=
  mkASchema (kmap field_key abs_field (types s)) (kmap enum_key abs_enum (enums s))
    (kmap source_key abs_source (sources s)) (kmap model_key abs_model (models s)).

(** ** Updates of the view *)
Definition upd_types (f : gmap string AField -> gmap string AField) (A : ASchema) : ASchema :=
  mkASchema (f (as_types A)) (as_enums A) (as_sources A) (as_models A).
Definition upd_enums (f : gmap string AEnum -> gmap string AEnum) (A : ASchema) : ASchema :=
  mkASchema (as_types A) (f (as_enums A)) (as_sources A) (as_models A).
Definition upd_sources (f : gmap string ArgMap -> gmap string ArgMap) (A : ASchema) : ASchema :=
  mkASchema (as_types A) (as_enums A) (f (as_sources A)) (as_models A).
Definition upd_models (f : gmap string AModel -> gmap string AModel) (A : ASchema) : ASchema :=
  mkASchema (as_types A) (as_enums A) (as_sources A) (f (as_models A)).

(** The directives at a path, and their replacement. *)
Definition get_dirs (path : DirectivePath) (A : ASchema) : option DirMap :=
  match path with
  | PathField m f => M ← as_models A !! m; F ← am_fields M !! f; Some (af_dirs F)
  | PathModel m _ => M ← as_models A !! m; Some (am_dirs M)
  | PathEnum e => En ← as_enums A !! e; Some (ae_dirs En)
  | PathEnumValue e v => En ← as_enums A !! e; ae_values En !! v
  | PathTypeAlias t => T ← as_types A !! t; Some (af_dirs T)
  end.
Definition field_with_dirs (D : DirMap) (F : AField) : AField := mkAField (af_type F) (af_arity F) D.
Definition model_with_fields (Fs : gmap string AField) (M : AModel) : AModel :=
  mkAModel Fs (am_dirs M) (am_repeated M).
Definition model_with_dirs (D : DirMap) (M : AModel) : AModel :=
  mkAModel (am_fields M) D (am_repeated M).
Definition model_with_repeated (R : gset (string * ArgMap)) (M : AModel) : AModel :=
  mkAModel (am_fields M) (am_dirs M) R.
Definition enum_with_values (V : gmap string DirMap) (En : AEnum) : AEnum := mkAEnum V (ae_dirs En).
Definition enum_with_dirs (D : DirMap) (En : AEnum) : AEnum := mkAEnum (ae_values En) D.

Definition set_dirs (path : DirectivePath) (D : DirMap) (A : ASchema) : ASchema :=
  match path with
  | PathField m f =>
      upd_models (alter (fun M => model_with_fields (alter (field_with_dirs D) f (am_fields M)) M) m) A
  | PathModel m _ => upd_models (alter (model_with_dirs D) m) A
  | PathEnum e => upd_enums (alter (enum_with_dirs D) e) A
  | PathEnumValue e v =>
      upd_enums (alter (fun En => enum_with_values (alter (fun _ => D) v (ae_values En)) En) e) A
  | PathTypeAlias t => upd_types (alter (field_with_dirs D) t) A
  end.

(** Whether a directive name at a path stands for repeated directives. *)
Definition repeated_at (path : DirectivePath) (d : string) : bool :=
  match path with
  | PathModel _ _ => bool_decide (d ∈ REPEATED_MODEL_DIRECTIVES)
  | _ => false
  end.

Definition get_args (loc : ArgumentLocation) (A : ASchema) : option ArgMap :=
  match loc with
  | LocSource l => as_sources A !! sl_source l
  | LocDirective l =>
      if repeated_at (dl_path l) (dl_directive l) then None
      else D ← get_dirs (dl_path l) A; D !! dl_directive l
  end.
Definition set_args (loc : ArgumentLocation) (X : ArgMap) (A : ASchema) : ASchema :=
  match loc with
  | LocSource l => upd_sources (insert (sl_source l) X) A
  | LocDirective l =>
      match get_dirs (dl_path l) A with
      | Some D => set_dirs (dl_path l) (<[dl_directive l := X]> D) A
      | None => A
      end
  end.

(** Arguments carried by a step on repeated directives. *)
Definition step_args (args : list steps.Argument) : ArgMap :=
  kmap steps.name (fun a => expr_text (steps.value a)) args.

Section abs_step.
Context (parse_expr : string -> option Expression).

(** The text that remains after an expression text is parsed and printed. *)
Definition canonical (v : string) : option string := render_text <$> parse_expr v.
(** The expression is printed back as it was read. *)
Definition stable_text (v : string) : bool := bool_decide (canonical v = Some v).

(** ** What each step is meant to do *)
Definition abs_step (A : ASchema) (step : MigrationStep) : option ASchema :=
  match step with
  | SCreateModel x =>
      match as_models A !! cm_model x with
      | Some _ => None
      | None => Some (upd_models (insert (cm_model x) (mkAModel ∅ ∅ ∅)) A)
      end
  | SDeleteModel x =>
      _ ← as_models A !! dm_model x; Some (upd_models (delete (dm_model x)) A)
  | SUpdateModel _ => None
  | SCreateField x =>
      M ← as_models A !! cf_model x;
      match am_fields M !! cf_field x with
      | Some _ => None
      | None => Some (upd_models (insert (cf_model x) (model_with_fields
          (<[cf_field x := mkAField (cf_tpe x) (arity_into_ast (cf_arity x)) ∅]> (am_fields M)) M)) A)
      end
  | SDeleteField x =>
      M ← as_models A !! df_model x; _ ← am_fields M !! df_field x;
      Some (upd_models (insert (df_model x) (model_with_fields (delete (df_field x) (am_fields M)) M)) A)
  | SUpdateField x =>
      match uf_new_name x with
      | Some _ => None
      | None =>
          M ← as_models A !! uf_model x; F ← am_fields M !! uf_field x;
          Some (upd_models (insert (uf_model x) (model_with_fields (<[uf_field x :=
            mkAField (default (af_type F) (uf_tpe x))
              (default (af_arity F) (arity_into_ast <$> uf_arity x)) (af_dirs F)]> (am_fields M)) M)) A)
      end
  | SCreateEnum x =>
      match as_enums A !! ce_enum x with
      | Some _ => None
      | None => Some (upd_enums (insert (ce_enum x)
          (mkAEnum (list_to_map ((fun v => (v, ∅)) <$> ce_values x)) ∅)) A)
      end
  | SUpdateEnum x =>
      match ue_new_name x with
      | Some _ => None
      | None =>
          En ← as_enums A !! ue_enum x;
          Some (upd_enums (insert (ue_enum x) (enum_with_values
            (filter (fun kv => kv.1 ∉ ue_deleted_values x)
              (ae_values En ∪ list_to_map ((fun v => (v, ∅)) <$> ue_created_values x))) En)) A)
      end
  | SDeleteEnum x =>
      _ ← as_enums A !! de_enum x; Some (upd_enums (delete (de_enum x)) A)
  | SCreateTypeAlias x =>
      match as_types A !! ct_type_alias x with
      | Some _ => None
      | None => Some (upd_types (insert (ct_type_alias x)
          (mkAField (ct_type x) (arity_into_ast (ct_arity x)) ∅)) A)
      end
  | SUpdateTypeAlias x =>
      T ← as_types A !! ut_type_alias x;
      Some (upd_types (insert (ut_type_alias x)
        (mkAField (default (af_type T) (ut_type x)) (af_arity T) (af_dirs T))) A)
  | SDeleteTypeAlias x =>
      _ ← as_types A !! dt_type_alias x; Some (upd_types (delete (dt_type_alias x)) A)
  | SCreateSource x =>
      match as_sources A !! cs_source x with
      | Some _ => None
      | None => Some (upd_sources (insert (cs_source x) ∅) A)
      end
  | SDeleteSource x =>
      _ ← as_sources A !! ds_source x; Some (upd_sources (delete (ds_source x)) A)
  | SCreateDirective x =>
      let l := cd_location x in
      if repeated_at (dl_path l) (dl_directive l) then
        match dl_path l with
        | PathModel m (Some args) =>
            M ← as_models A !! m;
            guard (NoDup (steps.name <$> args));;
            guard (Forall (fun a => stable_text (expr_text (steps.value a)) = true) args);;
            Some (upd_models (insert m
              (model_with_repeated (am_repeated M ∪ {[ (dl_directive l, step_args args) ]}) M)) A)
        | _ => None
        end
      else
        D ← get_dirs (dl_path l) A;
        match path_arguments (dl_path l), D !! dl_directive l with
        | None, None => Some (set_dirs (dl_path l) (<[dl_directive l := ∅]> D) A)
        | _, _ => None
        end
  | SDeleteDirective x =>
      let l := dd_location x in
      if repeated_at (dl_path l) (dl_directive l) then
        match dl_path l with
        | PathModel m (Some args) =>
            M ← as_models A !! m;
            guard (NoDup (steps.name <$> args));;
            Some (upd_models (insert m
              (model_with_repeated (am_repeated M ∖ {[ (dl_directive l, step_args args) ]}) M)) A)
        | _ => None
        end
      else
        D ← get_dirs (dl_path l) A;
        match path_arguments (dl_path l) with
        | None => Some (set_dirs (dl_path l) (delete (dl_directive l) D) A)
        | Some _ => None
        end
  | SCreateArgument x =>
      X ← get_args (ca_location x) A;
      v ← canonical (expr_text (ca_value x));
      match X !! ca_argument x with
      | Some _ => None
      | None => Some (set_args (ca_location x) (<[ca_argument x := v]> X) A)
      end
  | SUpdateArgument x =>
      X ← get_args (ua_location x) A;
      v ← canonical (expr_text (ua_new_value x));
      _ ← X !! ua_argument x;
      Some (set_args (ua_location x) (<[ua_argument x := v]> X) A)
  | SDeleteArgument x =>
      X ← get_args (da_location x) A;
      Some (set_args (da_location x) (delete (da_argument x) X) A)
  end.

Fixpoint abs_run (A : ASchema) (ms : list MigrationStep) : option ASchema :=
  match ms with
  | [] => Some A
  | m :: ms => A' ← abs_step A m; abs_run A' ms
  end.

Lemma abs_run_app A ms1 ms2 : abs_run A (ms1 ++ ms2) = (A' ← abs_run A ms1; abs_run A' ms2).
Proof.
  revert A; induction ms1 as [|m ms1 IH]; intros A; simpl; [done|].
  destruct (abs_step A m); simpl; [apply IH|done].
Qed.
End abs_step.
