(* ===== verification/Refine.v ===== *)
(** * The datamodel calculator implements the specification of migration steps

    [abs_step] (SchemaMap) says what a step is meant to do on schemas read as
    finite maps. Here the code of datamodel_calculator.rs is shown to do it:
    whenever [abs_step] allows a step, [apply_step] returns a schema whose map
    view is the one [abs_step] prescribes. *)
From S2P Require Import Prelude Ast ExprText Steps Calculator Differ SchemaMap.

(** ** Kinds of top-level items

    What the lookups of [SchemaAst] share: a kind of [Top], the projection to
    it, the constructor, and the name. *)
Class TopKind (B : Type) : Type := {
  sel : Top -> option B;
  inj : B -> Top;
  key_of : B -> string;
  sel_inj : forall b, sel (inj b) = Some b;
  inj_sel : forall t b, sel t = Some b -> t = inj b;
}.
#[export] Instance model_kind : TopKind Model.
Proof. refine {| sel := as_model; inj := TopModel; key_of := model_key |}; [done|by intros [] ? [= ->]]. Defined.
#[export] Instance enum_kind : TopKind Enum.
Proof. refine {| sel := as_enum; inj := TopEnum; key_of := enum_key |}; [done|by intros [] ? [= ->]]. Defined.
#[export] Instance source_kind : TopKind SourceConfig.
Proof. refine {| sel := as_source; inj := TopSource; key_of := source_key |}; [done|by intros [] ? [= ->]]. Defined.
#[export] Instance type_kind : TopKind Field.
Proof. refine {| sel := as_type_alias; inj := TopType; key_of := field_key |}; [done|by intros [] ? [= ->]]. Defined.

(** All items of a kind. *)
Definition items B `{TopKind B} (s : SchemaAst) : list B := omap sel (tops s).

(** Two kinds do not overlap. *)
Class OtherKind (B C : Type) `{TopKind B, TopKind C} : Prop :=
  other_kind : forall b : B, sel (inj b) = @None C.
Ltac solve_other := by intros [].
#[export] Instance other_me : OtherKind Model Enum. Proof. solve_other. Qed.
#[export] Instance other_ms : OtherKind Model SourceConfig. Proof. solve_other. Qed.
#[export] Instance other_mt : OtherKind Model Field. Proof. solve_other. Qed.
#[export] Instance other_em : OtherKind Enum Model. Proof. solve_other. Qed.
#[export] Instance other_es : OtherKind Enum SourceConfig. Proof. solve_other. Qed.
#[export] Instance other_et : OtherKind Enum Field. Proof. solve_other. Qed.
#[export] Instance other_sm : OtherKind SourceConfig Model. Proof. solve_other. Qed.
#[export] Instance other_se : OtherKind SourceConfig Enum. Proof. solve_other. Qed.
#[export] Instance other_st : OtherKind SourceConfig Field. Proof. solve_other. Qed.
#[export] Instance other_tm : OtherKind Field Model. Proof. solve_other. Qed.
#[export] Instance other_te : OtherKind Field Enum. Proof. solve_other. Qed.
#[export] Instance other_ts : OtherKind Field SourceConfig. Proof. solve_other. Qed.

Section top_kind.
Context {B : Type} `{TopKind B}.

Lemma items_push (b : B) s : items B (push_top (inj b) s) = items B s ++ [b].
Proof. unfold items; simpl. rewrite omap_app. csimpl. by rewrite sel_inj. Qed.

Lemma items_push_other {C} `{TopKind C, !OtherKind B C} (b : B) s : items C (push_top (inj b) s) = items C s.
Proof. unfold items; simpl. rewrite omap_app. csimpl. by rewrite other_kind, app_nil_r. Qed.

(** [tops.retain(..)] that drops items of one kind by name. *)
Definition retain_other (k : string) (s : SchemaAst) : SchemaAst :=
  mkSchemaAst (iter_filter (fun top =>
    match sel top with Some b => negb (key_of b ≟ k) | None => true end) (tops s)).

Lemma items_retain k s :
  items B (retain_other k s) = iter_filter (fun b => negb (key_of b ≟ k)) (items B s).
Proof.
  unfold items; simpl. induction (tops s) as [|t l IH]; csimpl; [done|].
  destruct (sel t) as [b|] eqn:Ht; csimpl; [destruct (negb _); csimpl; by rewrite ?Ht, IH|by rewrite Ht, IH].
Qed.

Lemma items_retain_other {C} `{TopKind C, !OtherKind B C} k s : items C (retain_other k s) = items C s.
Proof.
  unfold items; simpl. induction (tops s) as [|t l IH]; csimpl; [done|].
  destruct (@sel B _ t) as [b|] eqn:Ht; csimpl; [|by rewrite IH].
  pose proof (other_kind (C := C) b) as Hn. rewrite <-(inj_sel t b Ht) in Hn.
  destruct (negb _); csimpl; by rewrite ?Hn, IH.
Qed.

Lemma find_top_mut_find k s : deref <$> find_top_mut sel inj key_of k s = iter_find (by_key key_of k) (items B s).
Proof.
  unfold find_top_mut, items. rewrite <-option_fmap_compose.
  rewrite (option_fmap_ext _ deref) by done. rewrite find_map_mut_find.
  induction (tops s) as [|t l IH]; csimpl; [done|].
  destruct (sel t) as [b|]; csimpl; [|done]. by destruct (by_key key_of k b).
Qed.

(** A lookup by name, and what writing through the borrow does to every kind of
    item. *)
Lemma find_top_mut_lookup {V} (val : B -> V) k v s :
  kmap key_of val (items B s) !! k = Some v ->
  exists r, find_top_mut sel inj key_of k s = Some r /\ key_of (deref r) = k /\ val (deref r) = v /\
    deref r ∈ items B s /\
    forall y, (key_of y = k ->
        kmap key_of val (items B (write r y)) = <[k := val y]> (kmap key_of val (items B s))) /\
      (forall x, x ∈ items B (write r y) -> x = y \/ x ∈ items B s) /\
      (forall C (HC : TopKind C) (HO : OtherKind B C), items C (write r y) = items C s).
Proof.
  intros Hv. pose proof (find_top_mut_find k s) as Hf. rewrite kmap_lookup in Hv.
  apply fmap_Some in Hv as (b & Hb & ->). rewrite Hb in Hf.
  apply fmap_Some in Hf as (r & Hr & Hd). exists r. apply iter_find_Some in Hb as Hb'.
  destruct Hb' as [Hin Hk]. unfold by_key in Hk. apply bool_decide_eq_true in Hk.
  unfold find_top_mut in Hr. apply fmap_Some in Hr as (r' & Hr & ->). simpl in Hd. subst b.
  pose proof (find_map_mut_spec _ _ _ _ Hr) as (l1 & a & l2 & Htops & Hsel & Hl1 & Hw). simpl.
  destruct (sel a) as [b|] eqn:Ha; [|done]. simpl in Hsel.
  destruct (by_key key_of k b) eqn:Hbk; [|done]. injection Hsel as Hsel. subst b.
  assert (Hk1 : k ∉ key_of <$> omap sel l1).
  { apply by_key_Forall. apply Forall_forall. rewrite Forall_forall in Hl1. intros x (t & Ht & Htx)%list_elem_of_omap.
    specialize (Hl1 t Ht). rewrite Htx in Hl1. simpl in Hl1. by destruct (by_key key_of k x). }
  split_and!; [by unfold find_top_mut; rewrite Hr|done|done|done|]. intros y. unfold items; simpl.
  rewrite Hw, Htops. split_and!.
  - intros Hy. rewrite !omap_app. csimpl. rewrite sel_inj, Ha. rewrite <-Hk. apply kmap_replace; [congruence|].
    by rewrite Hk.
  - intros x. rewrite !omap_app. csimpl. rewrite sel_inj, Ha, !elem_of_app, !elem_of_cons. clear. tauto.
  - intros C HC HO. rewrite !omap_app. csimpl. rewrite other_kind.
    pose proof (other_kind (C := C) (deref r')) as Hn. rewrite <-(inj_sel a _ Ha) in Hn. by rewrite Hn.
Qed.

Lemma find_top_lookup {V} (val : B -> V) k s :
  kmap key_of val (items B s) !! k = val <$> iter_find (by_key key_of k) (items B s).
Proof. apply kmap_lookup. Qed.
End top_kind.

(** ** Invariant of the schemas the calculator works on

    Deleting a [@@unique] or [@@index] compares argument lists; that
    comparison is the comparison of the argument maps when the arguments of
    such a directive have distinct names and can be printed. *)
Definition args_ok (args : list Argument) : Prop :=
  NoDup (arg_key <$> args) /\ Forall (fun a => no_any (arg_value a) = true) args.
Definition model_inv (m : Model) : Prop :=
  Forall (fun d => args_ok (dir_arguments d)) (repeated_directives m).
Definition inv (s : SchemaAst) : Prop := Forall model_inv (models s).

(** ** Writing through the top-level borrows *)
(** The shared shape of the four lemmas: look the item up, then read off what
    the write does to each of the four maps. *)
Ltac frame_kind H C :=
  let X := fresh "X" in
  pose proof (H C _ _) as X; exact X.
Ltac frame_map H :=
  f_equal; first
    [frame_kind H Model | frame_kind H Enum | frame_kind H SourceConfig | frame_kind H Field].
Ltac abs_find B val H2 H3 :=
  let HM := fresh "HM" in let r := fresh "r" in let Hw := fresh "Hw" in let Hw' := fresh "Hw" in
  let Hr := fresh "Hr" in let Hk := fresh "Hk" in let HV := fresh "HV" in
  let Hin := fresh "Hin" in let y := fresh "y" in let Hy := fresh "Hy" in let H1 := fresh "H1" in
  intros HM;
  match type of HM with
  | _ (abs ?s) !! ?k = Some ?v =>
      pose proof (find_top_mut_lookup (B := B) val k v s) as Hw;
      destruct (Hw HM) as (r & Hr & Hk & HV & Hin & Hw'); clear Hw; rename Hw' into Hw
  end;
  exists r; split_and!; try done; intros y Hy; destruct (Hw y) as (H1 & H2 & H3); split;
  [unfold abs, upd_models, upd_enums, upd_sources, upd_types; simpl; f_equal; first [by apply H1|frame_map H3]|].

Lemma abs_find_model s k M :
  as_models (abs s) !! k = Some M ->
  exists r, find_model_mut s k = Some r /\ model_key (deref r) = k /\ abs_model (deref r) = M /\
    deref r ∈ models s /\
    forall y, model_key y = k ->
      abs (write r y) = upd_models (insert k (abs_model y)) (abs s) /\
      (inv s -> model_inv y -> inv (write r y)).
Proof.
  abs_find Model abs_model H2 H3. unfold inv. rewrite !Forall_forall. intros Hs Hm x [->|?]%H2; auto.
Qed.

Lemma abs_find_enum s k En :
  as_enums (abs s) !! k = Some En ->
  exists r, find_enum_mut s k = Some r /\ enum_key (deref r) = k /\ abs_enum (deref r) = En /\
    forall y, enum_key y = k ->
      abs (write r y) = upd_enums (insert k (abs_enum y)) (abs s) /\ (inv s -> inv (write r y)).
Proof.
  abs_find Enum abs_enum H2 H3. unfold inv. intros Hs. change (models (write r y)) with (items Model (write r y)). 
  by rewrite (H3 Model _ _).
Qed.

Lemma abs_find_source s k X :
  as_sources (abs s) !! k = Some X ->
  exists r, find_source_mut s k = Some r /\ source_key (deref r) = k /\ abs_source (deref r) = X /\
    forall y, source_key y = k ->
      abs (write r y) = upd_sources (insert k (abs_source y)) (abs s) /\ (inv s -> inv (write r y)).
Proof.
  abs_find SourceConfig abs_source H2 H3. unfold inv. intros Hs. change (models (write r y)) with (items Model (write r y)). 
  by rewrite (H3 Model _ _).
Qed.

Lemma abs_find_type_alias s k T :
  as_types (abs s) !! k = Some T ->
  exists r, find_type_alias_mut s k = Some r /\ field_key (deref r) = k /\ abs_field (deref r) = T /\
    forall y, field_key y = k ->
      abs (write r y) = upd_types (insert k (abs_field y)) (abs s) /\ (inv s -> inv (write r y)).
Proof.
  abs_find Field abs_field H2 H3. unfold inv. intros Hs. change (models (write r y)) with (items Model (write r y)). 
  by rewrite (H3 Model _ _).
Qed.

(** ** Creating and deleting top-level items *)
Section push_retain.
Context {B : Type} `{TopKind B} {V : Type} (val : B -> V).

Lemma kmap_push b s :
  kmap key_of val (items B s) !! key_of b = None ->
  kmap key_of val (items B (push_top (inj b) s)) = <[key_of b := val b]> (kmap key_of val (items B s)).
Proof. intros Hn%kmap_None. rewrite items_push. by apply kmap_snoc. Qed.

Lemma kmap_retain k s :
  kmap key_of val (items B (retain_other (B := B) k s)) = delete k (kmap key_of val (items B s)).
Proof. rewrite items_retain. apply kmap_filter_ne. Qed.
End push_retain.

Lemma retain_ext {B} `{TopKind B} (f : Top -> bool) k s :
  (forall t, f t = match sel t with Some b => negb (key_of b ≟ k) | None => true end) ->
  mkSchemaAst (iter_filter f (tops s)) = retain_other (B := B) k s.
Proof. intros Hf. unfold retain_other. f_equal. by apply filter_ext. Qed.

(** ** Borrows of fields, directives and arguments *)
Lemma inv_elem s m : inv s -> m ∈ models s -> model_inv m.
Proof. unfold inv. rewrite Forall_forall. auto. Qed.

Lemma abs_model_fields fs m :
  abs_model (set_fields fs m) = model_with_fields (kmap field_key abs_field fs) (abs_model m).
Proof. done. Qed.

Lemma abs_find_field s m f M F :
  as_models (abs s) !! m = Some M -> am_fields M !! f = Some F ->
  exists r, find_field_mut s m f = Some r /\ field_key (deref r) = f /\ abs_field (deref r) = F /\
    forall y, field_key y = f ->
      abs (write r y) = upd_models (insert m (model_with_fields (<[f := abs_field y]> (am_fields M)) M)) (abs s) /\
      (inv s -> inv (write r y)).
Proof.
  intros (rm & Hrm & Hkm & HM & Hin & Hwm)%abs_find_model HF. subst M.
  destruct (find_mut_lookup_all field_key abs_field _ _ _ HF) as (rf & Hrf & Hkf & Hvf & _ & Hwf).
  exists (reborrow rm (mk_ref (deref rf) (fun x => set_fields (write rf x) (deref rm)))).
  unfold find_field_mut. rewrite Hrm. simpl. rewrite Hrf. split_and!; [done|done|done|].
  intros y Hy. simpl. destruct (Hwm (set_fields (write rf y) (deref rm)) Hkm) as [-> Hi]. split.
  - rewrite abs_model_fields. by destruct (Hwf y Hy) as [-> _].
  - intros Hs. apply Hi; [done|]. exact (inv_elem _ _ Hs Hin).
Qed.

#[local] Arguments set_dirs _ _ _ : simpl never.

(** The directives a path addresses by name. *)
Definition path_pred (path : DirectivePath) (d : Directive) : bool := negb (repeated_at path (dir_key d)).
Abbreviation named path ds := (iter_filter (path_pred path) ds).
Abbreviation unnamed path ds := (iter_filter (fun d => negb (path_pred path d)) ds).

Lemma named_all path ds : (forall d, repeated_at path d = false) -> named path ds = ds.
Proof.
  intros H. rewrite <-(iter_filter_true ds) at 2. apply filter_ext. intros d. unfold path_pred. by rewrite H.
Qed.

Lemma unnamed_repeated m args ds : unnamed (PathModel m args) ds = iter_filter directive_is_repeated ds.
Proof. apply filter_ext. intros d. unfold path_pred. simpl. by rewrite negb_involutive. Qed.

Lemma set_dirs_field m f M F D A :
  as_models A !! m = Some M -> am_fields M !! f = Some F ->
  set_dirs (PathField m f) D A =
  upd_models (insert m (model_with_fields (<[f := field_with_dirs D F]> (am_fields M)) M)) A.
Proof.
  intros HM HF. unfold set_dirs, upd_models. by rewrite (alter_as_insert _ _ _ _ HM), (alter_as_insert _ _ _ _ HF).
Qed.
Lemma set_dirs_model m args M D A :
  as_models A !! m = Some M ->
  set_dirs (PathModel m args) D A = upd_models (insert m (model_with_dirs D M)) A.
Proof. intros HM. unfold set_dirs, upd_models. by rewrite (alter_as_insert _ _ _ _ HM). Qed.
Lemma set_dirs_enum e En D A :
  as_enums A !! e = Some En ->
  set_dirs (PathEnum e) D A = upd_enums (insert e (enum_with_dirs D En)) A.
Proof. intros HM. unfold set_dirs, upd_enums. by rewrite (alter_as_insert _ _ _ _ HM). Qed.
Lemma set_dirs_value e v En D0 D A :
  as_enums A !! e = Some En -> ae_values En !! v = Some D0 ->
  set_dirs (PathEnumValue e v) D A =
  upd_enums (insert e (enum_with_values (<[v := D]> (ae_values En)) En)) A.
Proof.
  intros HM HV. unfold set_dirs, upd_enums. by rewrite (alter_as_insert _ _ _ _ HM), (alter_as_insert _ _ _ _ HV).
Qed.
Lemma set_dirs_type t T D A :
  as_types A !! t = Some T ->
  set_dirs (PathTypeAlias t) D A = upd_types (insert t (field_with_dirs D T)) A.
Proof. intros HM. unfold set_dirs, upd_types. by rewrite (alter_as_insert _ _ _ _ HM). Qed.

Lemma abs_find_directives s path D :
  get_dirs path (abs s) = Some D ->
  exists r, find_directives_mut s path = Some r /\ abs_dirs (named path (deref r)) = D /\
    forall ds, unnamed path ds = unnamed path (deref r) ->
      abs (write r ds) = set_dirs path (abs_dirs (named path ds)) (abs s) /\
      (inv s -> inv (write r ds)).
Proof.
  destruct path as [m f|m args|e|e v|t]; simpl get_dirs; intros HD.
  - apply bind_Some in HD as (M & HM & HD). apply bind_Some in HD as (F & HF & HD). injection HD as <-.
    destruct (abs_find_field s m f M F HM HF) as (r & Hr & Hk & HF' & Hw).
    simpl. rewrite Hr. simpl. eexists; split_and!; [done| |]; simpl; rewrite ?named_all by done; [by rewrite <-HF'|].
    intros ds _. rewrite named_all by done. rewrite (set_dirs_field m f M F) by done.
    destruct (Hw (set_field_directives ds (deref r)) Hk) as [-> Hi]. by rewrite <-HF'.
  - apply bind_Some in HD as (M & HM & HD). injection HD as <-. pose proof HM as HM0.
    apply abs_find_model in HM as (r & Hr & Hk & HM & Hin & Hw). simpl. rewrite Hr.
    eexists; split_and!; [done|by rewrite <-HM|]. simpl. intros ds Hds.
    rewrite (set_dirs_model _ _ M) by done. rewrite !unnamed_repeated in Hds.
    destruct (Hw (set_model_directives ds (deref r)) Hk) as [-> Hi]. split.
    + rewrite <-HM. unfold abs_model, model_with_dirs, repeated_directives; simpl. by rewrite Hds.
    + intros Hs. apply Hi; [done|]. pose proof (inv_elem _ _ Hs Hin) as Hm.
      unfold model_inv, repeated_directives in *. simpl. by rewrite Hds.
  - apply bind_Some in HD as (En & HM & HD). injection HD as <-. pose proof HM as HM0.
    apply abs_find_enum in HM as (r & Hr & Hk & HM & Hw). simpl. rewrite Hr. simpl.
    eexists; split_and!; [done| |]; simpl; rewrite ?named_all by done; [by rewrite <-HM|].
    intros ds _. rewrite named_all by done. rewrite (set_dirs_enum _ En) by done.
    destruct (Hw (set_enum_directives ds (deref r)) Hk) as [-> Hi]. by rewrite <-HM.
  - apply bind_Some in HD as (En & HM & HD). pose proof HM as HM0.
    apply abs_find_enum in HM as (r & Hr & Hk & HM & Hw). simpl. rewrite Hr. simpl.
    rewrite <-HM in HD. pose proof (find_mut_lookup_all value_key abs_value _ _ _ HD) as (rv & Hrv & Hkv & HV & _ & Hwv).
    rewrite Hrv. simpl. eexists; split_and!; [done| |]; simpl; rewrite ?named_all by done; [done|].
    intros ds _. rewrite named_all by done. rewrite (set_dirs_value _ _ En D) by (try done; by rewrite <-HM).
    destruct (Hw (set_enum_values (write rv (set_value_directives ds (deref rv))) (deref r)) Hk) as [-> Hi].
    split; [|done]. rewrite <-HM. unfold abs_enum, enum_with_values; simpl.
    by destruct (Hwv (set_value_directives ds (deref rv)) Hkv) as [-> _].
  - apply bind_Some in HD as (T & HM & HD). injection HD as <-. pose proof HM as HM0.
    apply abs_find_type_alias in HM as (r & Hr & Hk & HM & Hw). simpl. rewrite Hr. simpl.
    eexists; split_and!; [done| |]; simpl; rewrite ?named_all by done; [by rewrite <-HM|].
    intros ds _. rewrite named_all by done. rewrite (set_dirs_type _ T) by done.
    destruct (Hw (set_field_directives ds (deref r)) Hk) as [-> Hi]. by rewrite <-HM.
Qed.

Lemma abs_find_arguments s loc X :
  get_args loc (abs s) = Some X ->
  exists r, find_argument_container s loc = Some r /\ abs_args (deref r) = X /\
    forall args, abs (write r args) = set_args loc (abs_args args) (abs s) /\
      (inv s -> inv (write r args)).
Proof.
  destruct loc as [[path d]|[k]]; simpl.
  - destruct (repeated_at path d) eqn:Hrep; [done|]. intros (D & HD & HX)%bind_Some. rewrite HD.
    destruct (abs_find_directives _ _ _ HD) as (r & Hr & HDr & Hw). rewrite <-HDr in HX |- *.
    destruct (find_mut_lookup dir_key (fun d => abs_args (dir_arguments d)) (path_pred path) _ _ _
      ltac:(intros x Hx; unfold path_pred; by rewrite Hx, Hrep) HX) as (rd & Hrd & Hk & HV & _ & Hwd).
    unfold find_directive_mut. simpl. rewrite Hr. simpl. rewrite Hrd. simpl.
    eexists; split_and!; [done|done|]. simpl. intros args.
    destruct (Hwd (set_dir_arguments args (deref rd)) Hk) as (Hd1 & Hd2 & _).
    destruct (Hw _ Hd2) as [-> Hi]. split; [|done]. unfold abs_dirs. by rewrite Hd1.
  - intros HX. apply abs_find_source in HX as (r & Hr & Hk & HX & Hw). rewrite Hr. simpl.
    eexists; split_and!; [done|done|]. simpl. intros args. by apply (Hw (set_source_properties args (deref r))).
Qed.

(** ** Matching a repeated directive by its arguments *)
Definition arg_pair (a : Argument) : string * string := (arg_key a, render_text (arg_value a)).
Definition step_pair (a : steps.Argument) : string * string := (steps.name a, expr_text (steps.value a)).

Lemma all_m_Ok {E A} (f : A -> outcome E bool) (g : A -> bool) l :
  Forall (fun a => f a = Ok (g a)) l -> all_m f l = Ok (forallb g l).
Proof. induction 1 as [|a l Ha _ IH]; simpl; [done|]. rewrite Ha; simpl. by destruct (g a). Qed.
Lemma any_m_Ok {E A} (f : A -> outcome E bool) (g : A -> bool) l :
  Forall (fun a => f a = Ok (g a)) l -> any_m f l = Ok (existsb g l).
Proof. induction 1 as [|a l Ha _ IH]; simpl; [done|]. rewrite Ha; simpl. by destruct (g a). Qed.
Lemma filter_m_Ok {E A} (f : A -> outcome E bool) (g : A -> bool) l :
  Forall (fun a => f a = Ok (g a)) l -> filter_m f l = Ok (iter_filter g l).
Proof.
  induction 1 as [|a l Ha _ IH]; simpl; [done|]. rewrite Ha; simpl. rewrite IH; simpl. by destruct (g a).
Qed.
Lemma map_m_Ok {E A B} (f : A -> outcome E B) (g : A -> B) l :
  Forall (fun a => f a = Ok (g a)) l -> map_m f l = Ok (g <$> l).
Proof. induction 1 as [|a l Ha _ IH]; simpl; [done|]. rewrite Ha; simpl. by rewrite IH. Qed.

Lemma from_ast_expression_text {E} e :
  no_any e = true -> @from_ast_expression E e = Ok (mkMigrationExpression (render_text e)).
Proof. intros H. unfold from_ast_expression. by rewrite render_value_text. Qed.

Lemma matches_ast_argument_pair {E} sa a :
  no_any (arg_value a) = true -> @matches_ast_argument E sa a = Ok (step_pair sa ≟ arg_pair a).
Proof.
  intros Ha. unfold matches_ast_argument. rewrite from_ast_expression_text by done.
  destruct sa as [n [t]]; unfold step_pair, arg_pair; simpl.
  repeat case_bool_decide; simplify_eq; try done; congruence.
Qed.

(** Two lists of pairs with distinct keys and the same length hold the same
    pairs when one is included in the other. *)
Lemma pairs_same_map (l1 l2 : list (string * string)) :
  NoDup l1.*1 -> NoDup l2.*1 ->
  (length l1 = length l2 /\ forall x, x ∈ l1 -> x ∈ l2) <->
  (list_to_map l1 : ArgMap) = list_to_map l2.
Proof.
  intros H1 H2. split.
  - intros [Hlen Hsub]. apply list_to_map_proper; [done|].
    apply NoDup_fmap_1 in H1. apply submseteq_length_Permutation; [|lia].
    by apply NoDup_submseteq.
  - intros Heq. apply list_to_map_inj in Heq; [|done|done]. rewrite Heq. split; [done|].
    intros x. by rewrite Heq.
Qed.

Lemma abs_args_pairs args : abs_args args = list_to_map (arg_pair <$> args).
Proof. done. Qed.
Lemma step_args_pairs args : step_args args = list_to_map (step_pair <$> args).
Proof. done. Qed.

Lemma matches_ast_directive_repeated {E} m args k d :
  args_ok (dir_arguments d) -> NoDup (steps.name <$> args) ->
  @matches_ast_directive E (mkDirectiveLocation (PathModel m (Some args)) k) d =
  Ok (bool_decide (abs_repeated_dir d = (k, step_args args))).
Proof.
  intros [Hnd Hany] Hnd2. unfold matches_ast_directive, abs_repeated_dir; simpl.
  destruct (bool_decide_reflect (k = dir_key d)) as [->|Hk]; simpl;
    [|rewrite bool_decide_eq_false_2; [done|congruence]].
  assert (Hsame := pairs_same_map (arg_pair <$> dir_arguments d) (step_pair <$> args)).
  rewrite <-!list_fmap_compose in Hsame. specialize (Hsame Hnd Hnd2).
  rewrite <-abs_args_pairs, <-step_args_pairs, !length_fmap in Hsame.
  destruct (bool_decide_reflect (length (dir_arguments d) = length args)) as [Hl|Hl]; simpl.
  2: { rewrite bool_decide_eq_false_2; [done|]. intros [= Hx]. by apply Hsame in Hx as []. }
  rewrite (all_m_Ok _ (fun a => existsb (fun sa => step_pair sa ≟ arg_pair a) args)).
  2: { eapply Forall_impl; [exact Hany|]. intros a Ha. apply any_m_Ok.
       apply Forall_forall. intros sa _. by apply matches_ast_argument_pair. }
  f_equal. apply eq_true_iff_eq. rewrite bool_decide_eq_true, forallb_forall. split.
  - intros Hall. f_equal. apply Hsame. split; [done|].
    intros x (a & -> & Ha)%list_elem_of_fmap. apply list_elem_of_In, Hall, existsb_exists in Ha as (sa & Hsa & He).
    apply bool_decide_eq_true in He. rewrite <-He. apply list_elem_of_fmap_2. by apply list_elem_of_In.
  - intros [= Hx] a Ha. apply Hsame in Hx as [_ Hsub].
    apply list_elem_of_In, (list_elem_of_fmap_2 arg_pair), Hsub, list_elem_of_fmap in Ha as (sa & Hsa & Hin).
    apply existsb_exists. exists sa. split; [by apply list_elem_of_In|]. by apply bool_decide_eq_true.
Qed.

(** ** The steps *)
Section refine.
Context (parse_expr : string -> option Expression).
(** The parser of the datamodel grammar never builds an [Any] expression. *)
Hypothesis parse_no_any : forall v e, parse_expr v = Some e -> no_any e = true.

(** What it means for the code to carry out a step on a schema. *)
Definition implements (s : SchemaAst) (step : MigrationStep) : Prop :=
  forall A', abs_step parse_expr (abs s) step = Some A' ->
  exists s', apply_step parse_expr s step = Ok s' /\ abs s' = A' /\ inv s'.

(** Read off what pushing or retaining does to each map. *)
Ltac close_with t := let X := fresh "X" in pose proof t as X; first [exact X | by apply X].
Ltac each_map main other :=
  eexists; split_and!; [done| |];
  [unfold abs, upd_models, upd_enums, upd_sources, upd_types; simpl; f_equal;
   first [main tt|f_equal; first [other Model|other Enum|other SourceConfig|other Field]]|].
(** A new top-level item of a fresh name. *)
Ltac push_item B val b s :=
  each_map ltac:(fun _ => close_with (kmap_push (B := B) val b s))
    ltac:(fun C => close_with (items_push_other (B := B) (C := C) b s)).
(** Removing the items of one kind and name. *)
Ltac retain_items B val k s :=
  match goal with |- context [mkSchemaAst (iter_filter ?f (tops s))] =>
    rewrite (retain_ext (B := B) f k s) by (by intros [])
  end;
  each_map ltac:(fun _ => close_with (kmap_retain (B := B) val k s))
    ltac:(fun C => close_with (items_retain_other (B := B) (C := C) k s)).

Lemma inv_push {B} `{TopKind B, !OtherKind B Model} (b : B) s : inv s -> inv (push_top (inj b) s).
Proof. unfold inv. change models with (items Model). by rewrite items_push_other. Qed.
Lemma inv_retain {B} `{TopKind B, !OtherKind B Model} k s : inv s -> inv (retain_other (B := B) k s).
Proof. unfold inv. change models with (items Model). by rewrite items_retain_other. Qed.

Lemma inv_push_model m s : inv s -> model_inv m -> inv (push_top (TopModel m) s).
Proof.
  intros Hs Hm. assert (H : Forall model_inv (items Model s ++ [m])) by (apply Forall_app; auto).
  by rewrite <-items_push in H.
Qed.

Lemma create_model_implements s x : inv s -> implements s (SCreateModel x).
Proof.
  intros Hs A'. destruct x as [k]. simpl.
  destruct (kmap model_key abs_model (models s) !! k) eqn:Hk; [done|]. intros [= <-].
  unfold apply_create_model, find_model; simpl. rewrite (kmap_find_None _ _ _ _ Hk). simpl.
  push_item Model abs_model (mkModel (new_ident k) [] [] None new_span false) s.
  apply inv_push_model; [done|]. constructor.
Qed.

Lemma delete_model_implements s x : inv s -> implements s (SDeleteModel x).
Proof.
  intros Hs A'. destruct x as [k]. simpl. intros (M & HM & HA)%bind_Some. injection HA as <-.
  apply kmap_find_Some in HM as [b Hb].
  unfold apply_delete_model, find_model; simpl. rewrite Hb. simpl.
  retain_items Model abs_model k s.
  unfold inv in *. change models with (items Model) in *. rewrite items_retain.
  apply Forall_forall. intros m [Hm _]%iter_filter_elem. rewrite Forall_forall in Hs. auto.
Qed.

Lemma create_source_implements s x : inv s -> implements s (SCreateSource x).
Proof.
  intros Hs A'. destruct x as [k]. simpl.
  destruct (kmap source_key abs_source (sources s) !! k) eqn:Hk; [done|]. intros [= <-].
  unfold apply_create_source, find_source; simpl. rewrite (kmap_find_None _ _ _ _ Hk). simpl.
  push_item SourceConfig abs_source (mkSourceConfig (new_ident k) [] None new_span) s.
  close_with (inv_push (B := SourceConfig) (mkSourceConfig (new_ident k) [] None new_span) s).
Qed.

Lemma create_enum_implements s x : inv s -> implements s (SCreateEnum x).
Proof.
  intros Hs A'. destruct x as [k vs]. simpl.
  destruct (kmap enum_key abs_enum (enums s) !! k) eqn:Hk; [done|]. intros [= <-].
  unfold apply_create_enum, find_enum; simpl. rewrite (kmap_find_None _ _ _ _ Hk). simpl.
  set (e := mkEnum (new_ident k) (new_enum_value <$> vs) [] None new_span).
  assert (He : abs_enum e = mkAEnum (list_to_map ((fun v => (v, ∅)) <$> vs)) ∅).
  { unfold abs_enum, kmap; simpl. by rewrite <-list_fmap_compose. }
  rewrite <-He. push_item Enum abs_enum e s. close_with (inv_push (B := Enum) e s).
Qed.

Lemma create_type_alias_implements s x : inv s -> implements s (SCreateTypeAlias x).
Proof.
  intros Hs A'. destruct x as [k ty ar]. simpl.
  destruct (kmap field_key abs_field (types s) !! k) eqn:Hk; [done|]. intros [= <-].
  unfold apply_create_type_alias, find_type_alias; simpl. rewrite (kmap_find_None _ _ _ _ Hk). simpl.
  set (t := mkField (new_ident ty) (new_ident k) (arity_into_ast ar) None [] None new_span false).
  push_item Field abs_field t s. close_with (inv_push (B := Field) t s).
Qed.

Lemma delete_enum_implements s x : inv s -> implements s (SDeleteEnum x).
Proof.
  intros Hs A'. destruct x as [k]. simpl. intros (M & HM & HA)%bind_Some. injection HA as <-.
  apply kmap_find_Some in HM as [b Hb]. unfold apply_delete_enum, find_enum; simpl. rewrite Hb. simpl.
  retain_items Enum abs_enum k s. close_with (inv_retain (B := Enum) k s).
Qed.

Lemma delete_type_alias_implements s x : inv s -> implements s (SDeleteTypeAlias x).
Proof.
  intros Hs A'. destruct x as [k]. simpl. intros (M & HM & HA)%bind_Some. injection HA as <-.
  apply kmap_find_Some in HM as [b Hb]. unfold apply_delete_type_alias, find_type_alias; simpl. rewrite Hb. simpl.
  retain_items Field abs_field k s. close_with (inv_retain (B := Field) k s).
Qed.

Lemma update_type_alias_implements s x : inv s -> implements s (SUpdateTypeAlias x).
Proof.
  intros Hs A'. destruct x as [k ty]. cbn -[abs]. intros (T & HT & HA)%bind_Some. injection HA as <-.
  apply abs_find_type_alias in HT as (r & Hr & Hk & HT & Hw). subst T.
  unfold apply_update_type_alias; simpl. rewrite Hr. simpl. eexists; split; [done|].
  destruct (Hw (match ty with Some t => set_field_type (new_ident t) (deref r) | None => deref r end)) as [-> Hi];
    [by destruct ty|].
  split; [|auto]. by destruct ty.
Qed.

(** *** Fields *)
Lemma abs_find_field_None s m f M :
  as_models (abs s) !! m = Some M -> am_fields M !! f = None -> find_field s m f = None.
Proof.
  simpl. rewrite kmap_lookup. intros (b & Hb & ->)%fmap_Some Hf. unfold find_field, find_model.
  rewrite Hb. simpl. exact (kmap_find_None _ _ _ _ Hf).
Qed.
Lemma abs_find_field_Some s m f M F :
  as_models (abs s) !! m = Some M -> am_fields M !! f = Some F -> exists x, find_field s m f = Some x.
Proof.
  simpl. rewrite kmap_lookup. intros (b & Hb & ->)%fmap_Some Hf. unfold find_field, find_model.
  rewrite Hb. simpl. exact (kmap_find_Some _ _ _ _ _ Hf).
Qed.
Lemma abs_find_model_Some s m M : as_models (abs s) !! m = Some M -> exists b, find_model s m = Some b.
Proof. apply kmap_find_Some. Qed.

Lemma create_field_implements s x : inv s -> implements s (SCreateField x).
Proof.
  intros Hs A'. destruct x as [m f ty ar]. cbn -[abs]. intros (M & HM & HA)%bind_Some.
  destruct (am_fields M !! f) eqn:HF; [done|]. injection HA as <-.
  pose proof (abs_find_field_None _ _ _ _ HM HF) as Hn.
  apply abs_find_model in HM as (r & Hr & Hk & HM & Hin & Hw). subst M.
  unfold apply_create_field; simpl. rewrite Hn, Hr. simpl. eexists; split; [done|].
  edestruct Hw as [-> Hi]; [exact Hk|]. split; [|apply Hi; [done|exact (inv_elem _ _ Hs Hin)]].
  rewrite abs_model_fields, kmap_snoc; [done|]. by apply kmap_None in HF.
Qed.

Lemma delete_field_implements s x : inv s -> implements s (SDeleteField x).
Proof.
  intros Hs A'. destruct x as [m f]. cbn -[abs]. intros (M & HM & HA)%bind_Some.
  apply bind_Some in HA as (F & HF & HA). injection HA as <-.
  destruct (abs_find_field_Some _ _ _ _ _ HM HF) as [g Hg], (abs_find_model_Some _ _ _ HM) as [b Hb].
  apply abs_find_model in HM as (r & Hr & Hk & HM & Hin & Hw). subst M.
  unfold apply_delete_field; simpl. rewrite Hb, Hg, Hr. simpl. eexists; split; [done|].
  edestruct Hw as [-> Hi]; [exact Hk|]. split; [|apply Hi; [done|exact (inv_elem _ _ Hs Hin)]].
  by rewrite abs_model_fields, kmap_filter_ne.
Qed.

Lemma update_field_implements s x : inv s -> implements s (SUpdateField x).
Proof.
  intros Hs A'. destruct x as [m f [?|] ty ar]; cbn -[abs]; [done|]. intros (M & HM & HA)%bind_Some.
  apply bind_Some in HA as (F & HF & HA). injection HA as <-.
  destruct (abs_find_model_Some _ _ _ HM) as [b Hb].
  destruct (abs_find_field _ _ _ _ _ HM HF) as (r & Hr & Hk & HF' & Hw). subst F.
  unfold apply_update_field; simpl. rewrite Hb, Hr. simpl. eexists; split; [done|].
  edestruct Hw as [-> Hi]; [|split; [|by apply Hi]]; by destruct ar, ty.
Qed.

(** *** Enums *)
Lemma kmap_remove_values removed (vs : list EnumValue) :
  kmap value_key abs_value (iter_filter (fun value =>
    bool_decide (iter_find (fun r => r ≟ value_key value) removed = None)) vs) =
  filter (fun kv => kv.1 ∉ removed) (kmap value_key abs_value vs).
Proof.
  assert (Hiff : forall k, iter_find (fun r => r ≟ k) removed = None <-> k ∉ removed).
  { intros k. rewrite iter_find_None. split.
    - intros H Hk. specialize (H k Hk). by rewrite bool_decide_eq_true_2 in H.
    - intros H x Hx. apply bool_decide_eq_false. congruence. }
  induction vs as [|v vs IH]; simpl; [by rewrite kmap_nil, map_filter_empty|].
  destruct (bool_decide_reflect (iter_find (fun r => r ≟ value_key v) removed = None)) as [H|H];
    rewrite ?kmap_cons, IH; rewrite Hiff in H.
  - by rewrite map_filter_insert_True.
  - by rewrite map_filter_insert_not.
Qed.

Lemma update_enum_implements s x : inv s -> implements s (SUpdateEnum x).
Proof.
  intros Hs A'. destruct x as [k [?|] cr del]; cbn -[abs]; [done|]. intros (En & HE & HA)%bind_Some.
  injection HA as <-. apply abs_find_enum in HE as (r & Hr & Hk & HE & Hw). subst En.
  unfold apply_update_enum; simpl. rewrite Hr. simpl. eexists; split; [done|].
  edestruct Hw as [-> Hi]; [exact Hk|]. split; [|auto].
  unfold abs_enum, enum_with_values; simpl. rewrite kmap_remove_values, kmap_app.
  unfold kmap at 2. by rewrite <-list_fmap_compose.
Qed.

(** *** Directives *)
(** The map of the directives a path addresses by name, after appending one and
    after removing all of one name. *)
Lemma named_snoc path d ds :
  repeated_at path (dir_key d) = false -> abs_dirs (named path ds) !! dir_key d = None ->
  abs_dirs (named path (ds ++ [d])) = <[dir_key d := abs_args (dir_arguments d)]> (abs_dirs (named path ds)) /\
  unnamed path (ds ++ [d]) = unnamed path ds.
Proof.
  intros Hr Hn%kmap_None. assert (Hp : path_pred path d = true) by (unfold path_pred; by rewrite Hr).
  rewrite !List.filter_app. simpl. rewrite Hp. simpl.
  rewrite app_nil_r. split; [|done]. unfold abs_dirs. by rewrite kmap_snoc.
Qed.

Lemma named_remove path k ds :
  repeated_at path k = false ->
  let ds' := iter_filter (fun d => negb (k ≟ dir_key d)) ds in
  abs_dirs (named path ds') = delete k (abs_dirs (named path ds)) /\ unnamed path ds' = unnamed path ds.
Proof.
  intros Hr ds'. unfold ds'. split.
  - rewrite iter_filter_comm. unfold abs_dirs. rewrite <-kmap_filter_ne. f_equal.
    apply filter_ext. intros d. f_equal. by apply bool_decide_ext.
  - rewrite iter_filter_comm. apply iter_filter_all. intros d [_ Hd]%iter_filter_elem.
    rewrite negb_true_iff in Hd |- *. unfold path_pred in Hd. rewrite negb_false_iff in Hd.
    apply bool_decide_eq_false. intros ->. by rewrite Hd in Hr.
Qed.

Lemma abs_model_directives ds m :
  abs_model (set_model_directives ds m) = mkAModel (am_fields (abs_model m))
    (abs_dirs (iter_filter directive_is_regular ds))
    (list_to_set (abs_repeated_dir <$> iter_filter directive_is_repeated ds)).
Proof. done. Qed.

Lemma model_inv_elem m d :
  model_inv m -> d ∈ model_directives m -> directive_is_repeated d = true -> args_ok (dir_arguments d).
Proof.
  unfold model_inv. rewrite Forall_forall. intros H Hd Hr. apply H. by apply iter_filter_elem.
Qed.

Lemma Argument_into_ast_list args :
  Forall (fun a => stable_text parse_expr (expr_text (steps.value a)) = true) args ->
  exists l, (forall E, map_m (@Argument_into_ast parse_expr E) args = Ok l) /\
    arg_pair <$> l = step_pair <$> args /\ Forall (fun a => no_any (arg_value a) = true) l.
Proof.
  induction 1 as [|a args Ha _ (l & Hl & Hp & Hn)]; [by exists []|].
  unfold stable_text, canonical in Ha. apply bool_decide_eq_true, fmap_Some in Ha as (e & He & Ht).
  exists (mkArgument (Identifier_new (steps.name a)) e Span_empty :: l). split_and!.
  - intros E. cbn [map_m].
    assert (Hx : @Argument_into_ast parse_expr E a = Ok (mkArgument (Identifier_new (steps.name a)) e Span_empty)).
    { unfold Argument_into_ast, to_ast_expression. by rewrite He. }
    rewrite Hx, Hl. done.
  - rewrite !fmap_cons, Hp. f_equal. unfold arg_pair, step_pair; simpl. by rewrite <-Ht.
  - constructor; [by eapply parse_no_any|done].
Qed.

Lemma create_repeated_implements s m args k A' :
  inv s -> repeated_at (PathModel m (Some args)) k = true ->
  abs_step parse_expr (abs s) (SCreateDirective (mkCreateDirective
    (mkDirectiveLocation (PathModel m (Some args)) k))) = Some A' ->
  exists s', apply_step parse_expr s (SCreateDirective (mkCreateDirective
    (mkDirectiveLocation (PathModel m (Some args)) k))) = Ok s' /\ abs s' = A' /\ inv s'.
Proof.
  intros Hs Hrep. cbn -[abs repeated_at]. rewrite Hrep. intros (M & HM & HA)%bind_Some.
  apply bind_Some in HA as (Hnd & _ & HA). apply bind_Some in HA as (Hst & _ & HA). injection HA as <-.
  apply abs_find_model in HM as (r & Hr & Hk & HM & Hin & Hw). subst M.
  unfold apply_create_directive; simpl. rewrite Hr. simpl.
  destruct (Argument_into_ast_list args Hst) as (l & -> & Hp & Hn). simpl. eexists; split; [done|].
  edestruct Hw as [-> Hi]; [exact Hk|]. simpl in Hrep.
  assert (Hl : args_ok l).
  { split; [|done]. apply (f_equal (fmap fst)) in Hp. rewrite <-!list_fmap_compose in Hp.
    change (arg_key <$> l = steps.name <$> args) in Hp. by rewrite Hp. }
  assert (Habs : abs_args l = step_args args) by (by rewrite abs_args_pairs, step_args_pairs, Hp).
  rewrite abs_model_directives, !List.filter_app. simpl.
  set (d := mkDirective (new_ident k) l new_span).
  assert (Hd : directive_is_repeated d = true) by done.
  unfold directive_is_regular at 2. rewrite Hd; simpl. rewrite app_nil_r. split.
  - unfold upd_models, model_with_repeated. do 3 f_equal.
    rewrite fmap_app, list_to_set_app_L. simpl. rewrite (right_id_L ∅ union).
    unfold abs_repeated_dir at 2; simpl. by rewrite Habs.
  - apply Hi; [done|]. pose proof (inv_elem _ _ Hs Hin) as Hm. unfold model_inv, repeated_directives in *.
    simpl. rewrite List.filter_app. apply Forall_app; split; [done|]. simpl.
    unfold d in Hd. rewrite Hd. by repeat constructor; apply Hl.
Qed.

Lemma create_directive_implements s x : inv s -> implements s (SCreateDirective x).
Proof.
  intros Hs A'. destruct x as [[path k]]. destruct (repeated_at path k) eqn:Hrep.
  { destruct path as [| m [args|] | | |]; try discriminate Hrep; [by apply create_repeated_implements|].
    simpl in Hrep |- *. by rewrite Hrep. }
  cbn -[abs repeated_at]. rewrite Hrep. intros (D & HD & HA)%bind_Some.
  destruct (path_arguments path) eqn:Hargs; [done|]. destruct (D !! k) eqn:HDk; [done|]. injection HA as <-.
  destruct (abs_find_directives _ _ _ HD) as (r & Hr & <- & Hw).
  unfold apply_create_directive; simpl. rewrite Hr, Hargs. simpl. eexists; split; [done|].
  destruct (named_snoc path (mkDirective (new_ident k) [] new_span) (deref r)) as [Hs1 Hs2]; [done..|].
  destruct (Hw _ Hs2) as [-> Hi]. split; [|auto]. by rewrite Hs1.
Qed.

Lemma delete_repeated_implements s m args k A' :
  inv s -> repeated_at (PathModel m (Some args)) k = true ->
  abs_step parse_expr (abs s) (SDeleteDirective (mkDeleteDirective
    (mkDirectiveLocation (PathModel m (Some args)) k))) = Some A' ->
  exists s', apply_step parse_expr s (SDeleteDirective (mkDeleteDirective
    (mkDirectiveLocation (PathModel m (Some args)) k))) = Ok s' /\ abs s' = A' /\ inv s'.
Proof.
  intros Hs Hrep. cbn -[abs repeated_at]. rewrite Hrep. intros (M & HM & HA)%bind_Some.
  apply bind_Some in HA as (Hnd & _ & HA). injection HA as <-.
  apply abs_find_model in HM as (r & Hr & Hk & HM & Hin & Hw). subst M.
  pose proof (inv_elem _ _ Hs Hin) as Hm. simpl in Hrep.
  unfold apply_delete_directive; simpl. rewrite Hr. simpl.
  set (g := fun d => negb (bool_decide (directive_is_repeated d = true /\ abs_repeated_dir d = (k, step_args args)))).
  rewrite (filter_m_Ok _ g).
  2: { apply Forall_forall. intros d Hd. unfold g. destruct (directive_is_repeated d) eqn:Hdr.
    - rewrite matches_ast_directive_repeated by (try done; by eapply model_inv_elem). simpl.
      do 2 f_equal. apply bool_decide_ext. tauto.
    - rewrite (bool_decide_eq_false_2 (_ /\ _)) by (by intros []). unfold matches_ast_directive; simpl.
      destruct (bool_decide_reflect (k = dir_key d)) as [->|]; [|done].
      unfold directive_is_repeated in Hdr. by rewrite Hrep in Hdr. }
  simpl. eexists; split; [done|]. edestruct Hw as [-> Hi]; [exact Hk|].
  rewrite abs_model_directives. split.
  - unfold upd_models, model_with_repeated. do 3 f_equal.
    + rewrite iter_filter_comm, (iter_filter_all g); [done|]. intros d [_ Hd]%iter_filter_elem. unfold g.
      unfold directive_is_regular in Hd. rewrite bool_decide_eq_false_2; [done|].
      intros [Hx _]. by rewrite Hx in Hd.
    + apply set_eq. intros y. simpl. rewrite elem_of_difference, elem_of_singleton, !elem_of_list_to_set, !list_elem_of_fmap.
      unfold repeated_directives. setoid_rewrite iter_filter_elem. setoid_rewrite iter_filter_elem. unfold g.
      setoid_rewrite negb_true_iff. setoid_rewrite bool_decide_eq_false.
      clear. naive_solver.
  - apply Hi; [done|]. unfold model_inv, repeated_directives in *. simpl. rewrite iter_filter_comm.
    apply Forall_forall. intros d [Hd _]%iter_filter_elem. by rewrite Forall_forall in Hm; apply Hm.
Qed.

Lemma delete_directive_implements s x : inv s -> implements s (SDeleteDirective x).
Proof.
  intros Hs A'. destruct x as [[path k]]. destruct (repeated_at path k) eqn:Hrep.
  { destruct path as [| m [args|] | | |]; try discriminate Hrep; [by apply delete_repeated_implements|].
    simpl in Hrep |- *. by rewrite Hrep. }
  cbn -[abs repeated_at]. rewrite Hrep. intros (D & HD & HA)%bind_Some.
  destruct (path_arguments path) eqn:Hargs; [done|]. injection HA as <-.
  destruct (abs_find_directives _ _ _ HD) as (r & Hr & <- & Hw).
  unfold apply_delete_directive; simpl. rewrite Hr. simpl.
  rewrite (filter_m_Ok _ (fun d => negb (k ≟ dir_key d))).
  2: { apply Forall_forall. intros d _. unfold matches_ast_directive; simpl.
       destruct (bool_decide (k = dir_key d)); [|done]. by destruct path as [| ? [] | | |]. }
  simpl. eexists; split; [done|]. destruct (named_remove path k (deref r) Hrep) as [Hs1 Hs2].
  destruct (Hw _ Hs2) as [-> Hi]. split; [|auto]. by rewrite Hs1.
Qed.

(** *** Arguments *)
Lemma abs_args_update args k e X0 :
  abs_args args !! k = Some X0 ->
  abs_args ((fun a => if arg_key a ≟ k then set_arg_value e a else a) <$> args) =
  <[k := render_text e]> (abs_args args).
Proof.
  assert (Hlook : forall j, abs_args ((fun a => if arg_key a ≟ k then set_arg_value e a else a) <$> args) !! j =
    if decide (j = k) then (fun _ => render_text e) <$> abs_args args !! j else abs_args args !! j).
  { intros j. induction args as [|a args IH]; [by case_decide|].
    rewrite fmap_cons. unfold abs_args in *. rewrite !kmap_cons.
    destruct (bool_decide_reflect (arg_key a = k)) as [Ha|Ha]; rewrite !lookup_insert.
    - change (arg_key (set_arg_value e a)) with (arg_key a). rewrite Ha.
      destruct (decide (k = j)) as [->|]; [by rewrite decide_True|]. rewrite IH. by case_decide.
    - destruct (decide (arg_key a = j)) as [Hj|]; [|by rewrite IH]. by rewrite decide_False by congruence. }
  intros HX. apply map_eq. intros j. rewrite Hlook, lookup_insert.
  destruct (decide (j = k)) as [->|]; [by rewrite decide_True, HX|by rewrite decide_False].
Qed.

Lemma create_argument_implements s x : inv s -> implements s (SCreateArgument x).
Proof.
  intros Hs A'. destruct x as [loc k [t]]. cbn -[abs get_args]. intros (X & HX & HA)%bind_Some.
  apply bind_Some in HA as (v & Hv & HA). destruct (X !! k) eqn:HXk; [done|]. injection HA as <-.
  unfold canonical in Hv. apply fmap_Some in Hv as (e & He & ->).
  destruct (abs_find_arguments _ _ _ HX) as (r & Hr & <- & Hw).
  unfold apply_create_directive_argument, to_ast_expression; simpl. rewrite Hr. simpl. rewrite He. simpl.
  eexists; split; [done|]. edestruct Hw as [-> Hi]. split; [|auto]. f_equal.
  unfold abs_args. rewrite kmap_snoc; [done|]. by apply kmap_None in HXk.
Qed.

Lemma update_argument_implements s x : inv s -> implements s (SUpdateArgument x).
Proof.
  intros Hs A'. destruct x as [loc k [t]]. cbn -[abs get_args]. intros (X & HX & HA)%bind_Some.
  apply bind_Some in HA as (v & Hv & HA). apply bind_Some in HA as (X0 & HXk & HA). injection HA as <-.
  unfold canonical in Hv. apply fmap_Some in Hv as (e & He & ->).
  destruct (abs_find_arguments _ _ _ HX) as (r & Hr & <- & Hw).
  unfold apply_update_directive_argument, to_ast_expression; simpl. rewrite Hr. simpl. rewrite He. simpl.
  rewrite (map_m_Ok _ (fun a => if arg_key a ≟ k then set_arg_value e a else a))
    by (apply Forall_forall; intros a _; by destruct (bool_decide (arg_key a = k))).
  simpl. eexists; split; [done|]. edestruct Hw as [-> Hi]. split; [|auto]. f_equal.
  by eapply abs_args_update.
Qed.

Lemma delete_argument_implements s x : inv s -> implements s (SDeleteArgument x).
Proof.
  intros Hs A'. destruct x as [loc k]. cbn -[abs get_args]. intros (X & HX & HA)%bind_Some. injection HA as <-.
  destruct (abs_find_arguments _ _ _ HX) as (r & Hr & <- & Hw).
  unfold apply_delete_directive_argument; simpl. rewrite Hr. simpl.
  eexists; split; [done|]. edestruct Hw as [-> Hi]. split; [|auto]. f_equal. apply kmap_filter_ne.
Qed.

(** ** Every step, and sequences of steps *)
Definition is_delete_source (step : MigrationStep) : bool :=
  match step with SDeleteSource _ => true | _ => false end.

Lemma step_implements s step : inv s -> is_delete_source step = false -> implements s step.
Proof.
  intros Hs Hd. destruct step; try discriminate Hd;
    first [ by apply create_model_implements | by apply delete_model_implements
          | by apply create_field_implements | by apply delete_field_implements
          | by apply update_field_implements | by apply create_enum_implements
          | by apply update_enum_implements | by apply delete_enum_implements
          | by apply create_type_alias_implements | by apply update_type_alias_implements
          | by apply delete_type_alias_implements | by apply create_source_implements
          | by apply create_directive_implements | by apply delete_directive_implements
          | by apply create_argument_implements | by apply update_argument_implements
          | by apply delete_argument_implements | by intros A' [=] ].
Qed.

Lemma run_implements ms s A' :
  inv s -> Forall (fun m => is_delete_source m = false) ms ->
  abs_run parse_expr (abs s) ms = Some A' ->
  exists s', apply parse_expr s ms = Ok s' /\ abs s' = A' /\ inv s'.
Proof.
  intros Hs Hms. revert s Hs. induction Hms as [|m ms Hm _ IH]; intros s Hs; simpl.
  - intros [= <-]. by exists s.
  - intros (A1 & HA1 & HA)%bind_Some.
    destruct (step_implements s m Hs Hm A1 HA1) as (s1 & Hs1 & <- & Hi). unfold apply; simpl. rewrite Hs1. simpl.
    by apply IH.
Qed.
End refine.

(** ** The theorems *)
(** C2: For a schema whose repeated directives have distinct argument names and renderable values, and for a list of steps without DeleteSource: when the map specification allows the steps one after the other, the calculator runs them without an error or a panic, the result has the map view that the specification gives, and the invariant on repeated directives holds again. DeleteSource is excluded because the calculator looks for the source among the models and refuses (delete_source_checks_models). *)
Theorem apply_refines_abs_run (parse_expr : string -> option Expression) s ms A' :
  (forall v e, parse_expr v = Some e -> no_any e = true) ->
  inv s -> Forall (fun m => is_delete_source m = false) ms -> abs_run parse_expr (abs s) ms = Some A' ->
  exists s', apply parse_expr s ms = Ok s' /\ abs s' = A' /\ inv s'.
Proof. intros Hparse. by apply run_implements. Qed.

Lemma apply_refines_abs_run_witness :
  exists A' s', abs_run parse_const (abs sample_prev) sample_steps = Some A' /\
    apply parse_const sample_prev sample_steps = Ok s' /\ abs s' = A' /\ inv s'.
Proof.
  assert (Hok : match abs_run parse_const (abs sample_prev) sample_steps with
    | Some _ => true | None => false end = true) by (vm_compute; reflexivity).
  destruct (abs_run parse_const (abs sample_prev) sample_steps) as [A'|] eqn:E; [clear Hok|discriminate Hok].
  destruct (apply_refines_abs_run parse_const sample_prev sample_steps A') as (s' & H1 & H2 & H3).
  - by intros v e [= <-].
  - unfold inv, model_inv, args_ok. apply (bool_decide_eq_true_1 _). vm_compute. reflexivity.
  - apply (bool_decide_eq_true_1 _). vm_compute. reflexivity.
  - exact E.
  - exists A', s'. split_and!; [reflexivity|assumption..].
Defined.

(** deleting a datasource succeeds exactly when a model of that name exists,
    whether or not there is such a datasource. *)
Theorem delete_source_checks_models s k :
  (exists s', apply_delete_source s (mkDeleteSource k) = Ok s') <-> is_Some (find_model s k).
Proof.
  unfold apply_delete_source; simpl. destruct (find_model s k); simpl; split; try done; [by eauto|].
  by intros [s' [=]].
Qed.
