(* ===== verification/Focus.v ===== *)
(** * Parts of a schema map, and computations that append steps

    The differ appends steps to a vector. [pushes f A A'] says that [f] appends
    steps which take the schema map [A] to [A']. The parts of a schema map the
    differ works on (arguments at a location, directives at a path, the fields
    of a model, ...) are lenses; the passes of the differ over created, deleted
    and paired elements are treated once, for any lens. *)
From S2P Require Import Prelude Ast ExprText Steps Calculator Differ SchemaMap Refine.

(** ** Lenses into [ASchema] *)
Record lens (V : Type) : Type := mk_lens {
  lget : ASchema -> option V;
  lset : V -> ASchema -> ASchema;
}.
Arguments mk_lens {V} _ _.
Arguments lget {V} _ _.
Arguments lset {V} _ _ _.

Class LensLaws {V} (L : lens V) : Prop := {
  get_set : forall A v w, lget L A = Some v -> lget L (lset L w A) = Some w;
  set_set : forall A v w w', lget L A = Some v -> lset L w' (lset L w A) = lset L w' A;
  set_get : forall A v, lget L A = Some v -> lset L v A = A;
}.

Definition dirs_lens (path : DirectivePath) : lens DirMap := mk_lens (get_dirs path) (set_dirs path).
Definition args_lens (loc : ArgumentLocation) : lens ArgMap := mk_lens (get_args loc) (set_args loc).
Definition fields_lens (m : string) : lens (gmap string AField) := mk_lens
  (fun A => M ← as_models A !! m; Some (am_fields M))
  (fun Fs => upd_models (alter (model_with_fields Fs) m)).
Definition repeated_lens (m : string) : lens (gset (string * ArgMap)) := mk_lens
  (fun A => M ← as_models A !! m; Some (am_repeated M))
  (fun R => upd_models (alter (model_with_repeated R) m)).
Definition values_lens (e : string) : lens (gmap string DirMap) := mk_lens
  (fun A => En ← as_enums A !! e; Some (ae_values En))
  (fun V => upd_enums (alter (enum_with_values V) e)).
Definition models_lens : lens (gmap string AModel) := mk_lens (fun A => Some (as_models A)) (fun m => upd_models (fun _ => m)).
Definition enums_lens : lens (gmap string AEnum) := mk_lens (fun A => Some (as_enums A)) (fun m => upd_enums (fun _ => m)).
Definition sources_lens : lens (gmap string ArgMap) := mk_lens (fun A => Some (as_sources A)) (fun m => upd_sources (fun _ => m)).
Definition types_lens : lens (gmap string AField) := mk_lens (fun A => Some (as_types A)) (fun m => upd_types (fun _ => m)).

(** The laws, by computing with the maps. *)
Lemma upd_models_id A f : f (as_models A) = as_models A -> upd_models f A = A.
Proof. destruct A; unfold upd_models; simpl. by intros ->. Qed.
Lemma upd_enums_id A f : f (as_enums A) = as_enums A -> upd_enums f A = A.
Proof. destruct A; unfold upd_enums; simpl. by intros ->. Qed.
Lemma upd_sources_id A f : f (as_sources A) = as_sources A -> upd_sources f A = A.
Proof. destruct A; unfold upd_sources; simpl. by intros ->. Qed.
Lemma upd_types_id A f : f (as_types A) = as_types A -> upd_types f A = A.
Proof. destruct A; unfold upd_types; simpl. by intros ->. Qed.

#[export] Instance models_lens_laws : LensLaws models_lens.
Proof. split; [done|done|]. intros A v [= <-]. by apply upd_models_id. Qed.
#[export] Instance enums_lens_laws : LensLaws enums_lens.
Proof. split; [done|done|]. intros A v [= <-]. by apply upd_enums_id. Qed.
#[export] Instance sources_lens_laws : LensLaws sources_lens.
Proof. split; [done|done|]. intros A v [= <-]. by apply upd_sources_id. Qed.
#[export] Instance types_lens_laws : LensLaws types_lens.
Proof. split; [done|done|]. intros A v [= <-]. by apply upd_types_id. Qed.

(** A part of one entry of a map. *)
Lemma alter_get_set {V W} (pget : W -> option V) (pset : V -> W -> W) (Fs : gmap string W) f v w :
  (forall r v w, pget r = Some v -> pget (pset w r) = Some w) ->
  (r ← Fs !! f; pget r) = Some v -> (r ← alter (pset w) f Fs !! f; pget r) = Some w.
Proof. intros H (r & Hr & Hv)%bind_Some. rewrite lookup_alter_eq, Hr. simpl. eauto. Qed.
Lemma alter_set_set {V W} (pget : W -> option V) (pset : V -> W -> W) (Fs : gmap string W) f v w w' :
  (forall r v w w', pget r = Some v -> pset w' (pset w r) = pset w' r) ->
  (r ← Fs !! f; pget r) = Some v -> alter (pset w') f (alter (pset w) f Fs) = alter (pset w') f Fs.
Proof.
  intros H (r & Hr & Hv)%bind_Some.
  rewrite (alter_as_insert _ _ _ _ Hr), (alter_as_insert (pset w') Fs _ _ Hr).
  rewrite (alter_as_insert _ _ _ (pset w r)) by apply lookup_insert_eq.
  rewrite insert_insert_eq. f_equal. eauto.
Qed.
Lemma alter_set_get {V W} (pget : W -> option V) (pset : V -> W -> W) (Fs : gmap string W) f v :
  (forall r v, pget r = Some v -> pset v r = r) ->
  (r ← Fs !! f; pget r) = Some v -> alter (pset v) f Fs = Fs.
Proof.
  intros H (r & Hr & Hv)%bind_Some. rewrite (alter_as_insert _ _ _ _ Hr).
  apply insert_id. rewrite Hr. f_equal. symmetry. eauto.
Qed.

(** A part of one entry of a map: the laws follow from those of the record. *)
Section entry.
Context {R V : Type} (get : ASchema -> gmap string R)
  (upd : (gmap string R -> gmap string R) -> ASchema -> ASchema)
  (pget : R -> option V) (pset : V -> R -> R) (k : string).
Hypothesis get_upd : forall f A, get (upd f A) = f (get A).
Hypothesis upd_upd : forall f g A, upd g (upd f A) = upd (fun m => g (f m)) A.
Hypothesis upd_ext : forall f g A, f (get A) = g (get A) -> upd f A = upd g A.
Hypothesis upd_id : forall A f, f (get A) = get A -> upd f A = A.
Hypothesis p_get_set : forall r v w, pget r = Some v -> pget (pset w r) = Some w.
Hypothesis p_set_set : forall r v w w', pget r = Some v -> pset w' (pset w r) = pset w' r.
Hypothesis p_set_get : forall r v, pget r = Some v -> pset v r = r.

Lemma entry_lens_laws :
  LensLaws (mk_lens (fun A => r ← get A !! k; pget r) (fun w => upd (alter (pset w) k))).
Proof.
  split; simpl.
  - intros A v w. rewrite get_upd. by apply alter_get_set.
  - intros A v w w' Hv. rewrite upd_upd. apply upd_ext. by eapply alter_set_set.
  - intros A v Hv. apply upd_id. by eapply alter_set_get.
Qed.
End entry.

Lemma model_entry_laws {V} (pget : AModel -> option V) pset m :
  (forall r v w, pget r = Some v -> pget (pset w r) = Some w) ->
  (forall r v w w', pget r = Some v -> pset w' (pset w r) = pset w' r) ->
  (forall r v, pget r = Some v -> pset v r = r) ->
  LensLaws (mk_lens (fun A => r ← as_models A !! m; pget r) (fun w => upd_models (alter (pset w) m))).
Proof.
  intros. apply entry_lens_laws; try done; [|apply upd_models_id].
  intros f g A Heq. unfold upd_models. by rewrite Heq.
Qed.
Lemma enum_entry_laws {V} (pget : AEnum -> option V) pset m :
  (forall r v w, pget r = Some v -> pget (pset w r) = Some w) ->
  (forall r v w w', pget r = Some v -> pset w' (pset w r) = pset w' r) ->
  (forall r v, pget r = Some v -> pset v r = r) ->
  LensLaws (mk_lens (fun A => r ← as_enums A !! m; pget r) (fun w => upd_enums (alter (pset w) m))).
Proof.
  intros. apply entry_lens_laws; try done; [|apply upd_enums_id].
  intros f g A Heq. unfold upd_enums. by rewrite Heq.
Qed.
Lemma type_entry_laws {V} (pget : AField -> option V) pset m :
  (forall r v w, pget r = Some v -> pget (pset w r) = Some w) ->
  (forall r v w w', pget r = Some v -> pset w' (pset w r) = pset w' r) ->
  (forall r v, pget r = Some v -> pset v r = r) ->
  LensLaws (mk_lens (fun A => r ← as_types A !! m; pget r) (fun w => upd_types (alter (pset w) m))).
Proof.
  intros. apply entry_lens_laws; try done; [|apply upd_types_id].
  intros f g A Heq. unfold upd_types. by rewrite Heq.
Qed.

#[export] Instance fields_lens_laws m : LensLaws (fields_lens m).
Proof. apply model_entry_laws; [done|done|]. by intros [] v [= <-]. Qed.
#[export] Instance repeated_lens_laws m : LensLaws (repeated_lens m).
Proof. apply model_entry_laws; [done|done|]. by intros [] v [= <-]. Qed.
#[export] Instance values_lens_laws e : LensLaws (values_lens e).
Proof. apply enum_entry_laws; [done|done|]. by intros [] v [= <-]. Qed.

#[export] Instance dirs_lens_laws path : LensLaws (dirs_lens path).
Proof.
  destruct path as [m f|m args|e|e v|t].
  - apply (model_entry_laws (fun M => F ← am_fields M !! f; Some (af_dirs F))
      (fun D M => model_with_fields (alter (field_with_dirs D) f (am_fields M)) M)).
    + intros M v w Hv. by apply (alter_get_set (fun F => Some (af_dirs F)) field_with_dirs _ _ v).
    + intros M v w w' Hv. unfold model_with_fields; simpl. f_equal.
      by apply (alter_set_set (fun F => Some (af_dirs F)) field_with_dirs _ _ v).
    + intros [Fs Ds Rs] v Hv. unfold model_with_fields; simpl in *. f_equal.
      apply (alter_set_get (fun F => Some (af_dirs F)) field_with_dirs); [|done]. by intros [] ? [= <-].
  - apply model_entry_laws; [done|done|]. by intros [] v [= <-].
  - apply enum_entry_laws; [done|done|]. by intros [] v [= <-].
  - apply (enum_entry_laws (fun En => ae_values En !! v)
      (fun D En => enum_with_values (alter (fun _ => D) v (ae_values En)) En)).
    + intros M D w Hv. simpl. by rewrite lookup_alter_eq, Hv.
    + intros M D w w' Hv. unfold enum_with_values; simpl. f_equal.
      rewrite (alter_as_insert _ _ _ _ Hv), (alter_as_insert (fun _ => w') (ae_values M) _ _ Hv).
      rewrite (alter_as_insert _ _ _ w) by apply lookup_insert_eq. by rewrite insert_insert_eq.
    + intros [Vs Ds] D Hv. unfold enum_with_values; simpl in *. f_equal.
      rewrite (alter_as_insert _ _ _ _ Hv). by apply insert_id.
  - apply type_entry_laws; [done|done|]. by intros [] v [= <-].
Qed.

Lemma get_dirs_set path A D D' :
  get_dirs path A = Some D -> get_dirs path (set_dirs path D' A) = Some D'.
Proof. apply (get_set (L := dirs_lens path)). Qed.
Lemma set_dirs_set path A D D1 D2 :
  get_dirs path A = Some D -> set_dirs path D2 (set_dirs path D1 A) = set_dirs path D2 A.
Proof. apply (set_set (L := dirs_lens path)). Qed.
Lemma set_dirs_get path A D : get_dirs path A = Some D -> set_dirs path D A = A.
Proof. apply (set_get (L := dirs_lens path)). Qed.

#[export] Instance args_lens_laws loc : LensLaws (args_lens loc).
Proof.
  destruct loc as [[path d]|[k]]; split; simpl.
  - intros A X w. destruct (repeated_at path d); [done|]. intros (D & HD & HX)%bind_Some. rewrite HD.
    rewrite (get_dirs_set _ _ _ _ HD). simpl. apply lookup_insert_eq.
  - intros A X w w'. destruct (repeated_at path d); [done|]. intros (D & HD & HX)%bind_Some. rewrite HD.
    rewrite (get_dirs_set _ _ _ _ HD). simpl. rewrite insert_insert_eq.
    by eapply set_dirs_set.
  - intros A X. destruct (repeated_at path d); [done|]. intros (D & HD & HX)%bind_Some. rewrite HD.
    rewrite insert_id by done. by apply set_dirs_get.
  - intros A X w HX. apply lookup_insert_eq.
  - intros A X w w' HX. unfold upd_sources; simpl. by rewrite insert_insert_eq.
  - intros A X HX. apply upd_sources_id. by apply insert_id.
Qed.

Lemma set_args_get loc A X : get_args loc A = Some X -> set_args loc X A = A.
Proof. apply (set_get (L := args_lens loc)). Qed.

(** ** Created, deleted and paired elements as maps *)
Section by_name_maps.
Context {A V : Type} (key : A -> string) (val : A -> V).

Abbreviation found l k := (iter_find (by_key key k) l).

Lemma find_by_key_sym l k : iter_find (fun n => k ≟ key n) l = found l k.
Proof. induction l as [|a l IH]; simpl; [done|]. rewrite IH. unfold by_key. by rewrite (bool_decide_ext (k = key a) (key a = k)). Qed.
Lemma found_keys l k : found l k = None <-> k ∉ key <$> l.
Proof. rewrite <-(kmap_None key (fun _ => tt)), kmap_lookup. by rewrite fmap_None. Qed.
Lemma found_Some l k x : found l k = Some x -> x ∈ l /\ key x = k.
Proof. intros [Hx Hk]%iter_find_Some. split; [done|]. unfold by_key in Hk. by apply bool_decide_eq_true in Hk. Qed.
Lemma found_elem l x : NoDup (key <$> l) -> x ∈ l -> found l (key x) = Some x.
Proof.
  intros Hnd Hx. induction l as [|a l IH]; [by apply elem_of_nil in Hx|].
  simpl. unfold by_key at 1. apply NoDup_cons in Hnd as [Hn Hnd].
  apply elem_of_cons in Hx as [->|Hx]; [by rewrite bool_decide_eq_true_2|].
  rewrite bool_decide_eq_false_2; [auto|]. intros Ha. apply Hn. rewrite Ha. by apply list_elem_of_fmap_2.
Qed.

Lemma created_lookup lp ln k :
  kmap key val (created key lp ln) !! k =
  match found lp k with Some _ => None | None => kmap key val ln !! k end.
Proof.
  unfold created. induction ln as [|n ln IH]; simpl; [by destruct (found lp k)|].
  change (iter_find (fun p => key p ≟ key n) lp) with (found lp (key n)).
  destruct (bool_decide_reflect (found lp (key n) = None)) as [H|H];
    rewrite !kmap_cons, ?lookup_insert, IH; destruct (decide (key n = k)) as [<-|]; try done.
  - by rewrite H.
  - by destruct (found lp (key n)).
Qed.

Lemma deleted_keys lp ln k :
  k ∈ key <$> deleted key lp ln <-> is_Some (found lp k) /\ found ln k = None.
Proof.
  rewrite list_elem_of_fmap. unfold deleted. setoid_rewrite iter_filter_elem.
  setoid_rewrite bool_decide_eq_true. setoid_rewrite find_by_key_sym. split.
  - intros (x & -> & Hx & Hn). split; [|done]. destruct (found lp (key x)) eqn:Hf; [done|].
    apply found_keys in Hf. destruct Hf. by apply list_elem_of_fmap_2.
  - intros [[x Hx] Hn]. apply found_Some in Hx as [Hx <-]. eauto.
Qed.

Abbreviation pair_map ps := (kmap (fun pn => key pn.1) (fun pn => val pn.2) ps).

Lemma pairs_lookup lp ln k :
  pair_map (pairs key lp ln) !! k =
  match found lp k with Some _ => kmap key val ln !! k | None => None end.
Proof.
  unfold pairs. induction lp as [|p lp IH]; csimpl; [done|]. unfold by_key at 1. rewrite find_by_key_sym.
  destruct (found ln (key p)) as [n|] eqn:Hn; simpl; rewrite ?kmap_cons, ?lookup_insert, IH; simpl.
  - destruct (bool_decide_reflect (key p = k)) as [<-|]; [|by rewrite decide_False].
    rewrite decide_True by done. by rewrite kmap_lookup, Hn.
  - destruct (bool_decide_reflect (key p = k)) as [<-|]; [|done].
    rewrite kmap_lookup, Hn. by destruct (found lp (key p)).
Qed.

Lemma pairs_elem lp ln p n : (p, n) ∈ pairs key lp ln -> p ∈ lp /\ n ∈ ln /\ key p = key n.
Proof.
  unfold pairs. intros (x & Hx & Hp)%list_elem_of_omap. rewrite find_by_key_sym in Hp.
  apply fmap_Some in Hp as (y & [Hy Hk]%found_Some & [= -> ->]). done.
Qed.
Lemma created_elem lp ln n : n ∈ created key lp ln -> n ∈ ln.
Proof. by intros [? _]%iter_filter_elem. Qed.
Lemma deleted_elem lp ln n : n ∈ deleted key lp ln -> n ∈ lp.
Proof. by intros [? _]%iter_filter_elem. Qed.

Lemma filter_keys_NoDup (f : A -> bool) l : NoDup (key <$> l) -> NoDup (key <$> iter_filter f l).
Proof.
  induction l as [|a l IH]; simpl; [done|]. intros [Hn Hnd]%NoDup_cons.
  destruct (f a); [|auto]. csimpl. apply NoDup_cons. split; [|auto].
  rewrite list_elem_of_fmap. intros (x & Hx & [Hin _]%iter_filter_elem).
  apply Hn. rewrite Hx. by apply list_elem_of_fmap_2.
Qed.
Lemma pairs_keys_NoDup lp ln : NoDup (key <$> lp) -> NoDup ((fun pn => key pn.1) <$> pairs key lp ln).
Proof.
  unfold pairs. induction lp as [|p lp IH]; csimpl; [done|]. intros [Hn Hnd]%NoDup_cons.
  destruct (iter_find _ ln) as [n|]; simpl; [|auto]. csimpl. apply NoDup_cons. split; [|auto].
  rewrite list_elem_of_fmap. intros ([p' n'] & Hx & [Hin _]%pairs_elem).
  apply Hn. simpl in Hx. rewrite Hx. by apply list_elem_of_fmap_2.
Qed.

(** The two orders in which the differ applies its passes. *)
Lemma passes_cud lp ln :
  filter (fun kv => kv.1 ∉ key <$> deleted key lp ln)
    (pair_map (pairs key lp ln) ∪ (kmap key val (created key lp ln) ∪ kmap key val lp)) = kmap key val ln.
Proof.
  apply map_eq. intros k. apply option_eq. intros v.
  rewrite map_lookup_filter_Some, lookup_union, lookup_union, pairs_lookup, created_lookup. simpl.
  rewrite deleted_keys, !kmap_lookup.
  destruct (found lp k) as [p|] eqn:Hp, (found ln k) as [n|] eqn:Hn; simpl; clear Hp Hn; naive_solver.
Qed.
Lemma passes_cdu lp ln :
  pair_map (pairs key lp ln) ∪ filter (fun kv => kv.1 ∉ key <$> deleted key lp ln)
    (kmap key val (created key lp ln) ∪ kmap key val lp) = kmap key val ln.
Proof.
  apply map_eq. intros k. apply option_eq. intros v.
  rewrite lookup_union_Some_raw, map_lookup_filter_Some, lookup_union, pairs_lookup,
    created_lookup. simpl. rewrite deleted_keys, !kmap_lookup.
  destruct (found lp k) as [p|] eqn:Hp, (found ln k) as [n|] eqn:Hn; simpl; clear Hp Hn; naive_solver.
Qed.
End by_name_maps.

(** ** Computations that append steps *)
Section pushes.
Context (parse_expr : string -> option Expression).

Definition pushes (f : Steps -> DiffResult Steps) (A A' : ASchema) : Prop :=
  forall steps, exists new, f steps = Ok (steps ++ new) /\ abs_run parse_expr A new = Some A' /\
    Forall (fun m => is_delete_source m = false) new.

Lemma pushes_none A : pushes Ok A A.
Proof. intros steps. exists []. by rewrite app_nil_r. Qed.

Lemma pushes_step st A A' :
  abs_step parse_expr A st = Some A' -> is_delete_source st = false ->
  pushes (fun steps => Ok (steps ++ [st])) A A'.
Proof. intros Hst Hd steps. exists [st]. simpl. rewrite Hst. auto. Qed.

Lemma pushes_seq f g A B C :
  pushes f A B -> pushes g B C -> pushes (fun steps => steps ← f steps; g steps) A C.
Proof.
  intros Hf Hg steps. destruct (Hf steps) as (n1 & H1 & Hr1 & Hd1), (Hg (steps ++ n1)) as (n2 & H2 & Hr2 & Hd2).
  exists (n1 ++ n2). rewrite H1. simpl. rewrite H2, abs_run_app, Hr1, app_assoc. simpl.
  split_and!; [done|done|]. by apply Forall_app.
Qed.

Lemma pushes_ext f g A B : (forall steps, f steps = g steps) -> pushes g A B -> pushes f A B.
Proof. intros Hfg Hg steps. rewrite Hfg. apply Hg. Qed.

Lemma pushes_eq f A B B' : pushes f A B -> B = B' -> pushes f A B'.
Proof. by intros ? <-. Qed.

Lemma for_each_append {X} (g : X -> MigrationStep) l steps :
  @Ok Empty_set Steps (steps ++ (g <$> l)) = for_each (fun s x => Ok (s ++ [g x])) l steps.
Proof.
  revert steps. induction l as [|x l IH]; intros steps; simpl; [by rewrite app_nil_r|].
  by rewrite <-IH, <-app_assoc.
Qed.

(** *** Passes over a part of the schema that is a map *)
Section passes.
Context {A V : Type} (key : A -> string) (val : A -> V) (L : lens (gmap string V)) `{!LensLaws L}.

Lemma pass_create f cs m S :
  lget L S = Some m -> NoDup (key <$> cs) -> (forall c, c ∈ cs -> m !! key c = None) ->
  (forall c S m, c ∈ cs -> lget L S = Some m -> m !! key c = None ->
    pushes (fun s => f s c) S (lset L (<[key c := val c]> m) S)) ->
  pushes (for_each f cs) S (lset L (kmap key val cs ∪ m) S).
Proof.
  intros HS Hnd Hnew Hf. revert S m HS Hnew. induction cs as [|c cs IH]; intros S m HS Hnew.
  { rewrite kmap_nil, map_empty_union, (set_get S m HS). apply pushes_none. }
  apply NoDup_cons in Hnd as [Hc Hnd].
  eapply pushes_eq; [eapply pushes_seq; [apply (Hf c S m); [constructor|done|apply Hnew; constructor]|]|].
  - apply IH with (m := <[key c := val c]> m); [done| |by eapply get_set|].
    + intros c' S' m' Hc'. apply Hf. by constructor.
    + intros c' Hc'. rewrite lookup_insert_ne; [apply Hnew; by constructor|].
      intros Heq. apply Hc. rewrite Heq. by apply list_elem_of_fmap_2.
  - rewrite (set_set S m) by done. f_equal. rewrite kmap_cons, <-insert_union_l. symmetry.
    apply insert_union_r. by apply kmap_None.
Qed.

Lemma pass_delete f ds m S :
  lget L S = Some m -> NoDup (key <$> ds) -> (forall d, d ∈ ds -> is_Some (m !! key d)) ->
  (forall d S m, d ∈ ds -> lget L S = Some m -> is_Some (m !! key d) ->
    pushes (fun s => f s d) S (lset L (delete (key d) m) S)) ->
  pushes (for_each f ds) S (lset L (filter (fun kv => kv.1 ∉ key <$> ds) m) S).
Proof.
  intros HS Hnd Hold Hf. revert S m HS Hold. induction ds as [|d ds IH]; intros S m HS Hold.
  { rewrite map_filter_id, (set_get S m HS) by (intros; apply not_elem_of_nil). apply pushes_none. }
  apply NoDup_cons in Hnd as [Hd Hnd].
  eapply pushes_eq; [eapply pushes_seq; [apply (Hf d S m); [constructor|done|apply Hold; constructor]|]|].
  - apply IH with (m := delete (key d) m); [done| |by eapply get_set|].
    + intros d' S' m' Hd'. apply Hf. by constructor.
    + intros d' Hd'. rewrite lookup_delete_ne; [apply Hold; by constructor|].
      intros Heq. apply Hd. rewrite Heq. by apply list_elem_of_fmap_2.
  - rewrite (set_set S m) by done. f_equal. apply map_eq. intros k. apply option_eq. intros v.
    rewrite !map_lookup_filter_Some, lookup_delete_Some. csimpl. rewrite not_elem_of_cons.
    clear. naive_solver.
Qed.

(** Elements of any kind [X] that each replace the entry of their key. *)
Lemma pass_set {X} (kx : X -> string) (ox nx : X -> V) f (xs : list X) m S :
  lget L S = Some m -> NoDup (kx <$> xs) -> (forall x, x ∈ xs -> m !! kx x = Some (ox x)) ->
  (forall x S m, x ∈ xs -> lget L S = Some m -> m !! kx x = Some (ox x) ->
    pushes (fun s => f s x) S (lset L (<[kx x := nx x]> m) S)) ->
  pushes (for_each f xs) S (lset L (kmap kx nx xs ∪ m) S).
Proof.
  intros HS Hnd Hold Hf. revert S m HS Hold. induction xs as [|x xs IH]; intros S m HS Hold.
  { rewrite kmap_nil, map_empty_union, (set_get S m HS). apply pushes_none. }
  apply NoDup_cons in Hnd as [Hx Hnd].
  eapply pushes_eq; [eapply pushes_seq; [apply (Hf x S m); [constructor|done|apply Hold; constructor]|]|].
  - apply IH with (m := <[kx x := nx x]> m); [done| |by eapply get_set|].
    + intros x' S' m' Hx'. apply Hf. by constructor.
    + intros x' Hx'. rewrite lookup_insert_ne; [apply Hold; by constructor|].
      intros Heq. apply Hx. rewrite Heq. by apply list_elem_of_fmap_2.
  - rewrite (set_set S m) by done. f_equal. rewrite kmap_cons, <-insert_union_l. symmetry.
    apply insert_union_r. by apply kmap_None.
Qed.

Lemma pass_update f (ps : list (A * A)) m S :
  lget L S = Some m -> NoDup ((fun pn => key pn.1) <$> ps) ->
  (forall p n, (p, n) ∈ ps -> m !! key p = Some (val p)) ->
  (forall p n S m, (p, n) ∈ ps -> lget L S = Some m -> m !! key p = Some (val p) ->
    pushes (fun s => f s (p, n)) S (lset L (<[key p := val n]> m) S)) ->
  pushes (for_each f ps) S (lset L (kmap (fun pn => key pn.1) (fun pn => val pn.2) ps ∪ m) S).
Proof.
  intros HS Hnd Hold Hf. apply (pass_set _ (fun pn => val pn.1)); [done|done|..].
  - intros [p n]. apply Hold.
  - intros [p n] S' m'. apply Hf.
Qed.

(** *** A whole collection *)
Context (fc : Steps -> A -> DiffResult Steps) (fu : Steps -> A * A -> DiffResult Steps)
  (fd : Steps -> A -> DiffResult Steps) (lp ln : list A).
Hypothesis Hp : NoDup (key <$> lp).
Hypothesis Hn : NoDup (key <$> ln).
Hypothesis Hfc : forall c S m, c ∈ ln -> lget L S = Some m -> m !! key c = None ->
  pushes (fun s => fc s c) S (lset L (<[key c := val c]> m) S).
Hypothesis Hfu : forall p n S m, p ∈ lp -> n ∈ ln -> key p = key n -> lget L S = Some m ->
  m !! key p = Some (val p) -> pushes (fun s => fu s (p, n)) S (lset L (<[key p := val n]> m) S).
Hypothesis Hfd : forall d S m, d ∈ deleted key lp ln -> lget L S = Some m -> is_Some (m !! key d) ->
  pushes (fun s => fd s d) S (lset L (delete (key d) m) S).

Abbreviation M0 := (kmap key val lp).
Abbreviation M1 := (kmap key val (created key lp ln) ∪ M0).

Lemma collection_create S :
  lget L S = Some M0 -> pushes (for_each fc (created key lp ln)) S (lset L M1 S).
Proof.
  intros HS. apply pass_create; [done|by apply filter_keys_NoDup| |].
  - intros c Hc. apply iter_filter_elem in Hc as [_ Hc]. apply bool_decide_eq_true in Hc.
    rewrite kmap_lookup. apply fmap_None. exact Hc.
  - intros c S' m Hc. apply Hfc. by eapply created_elem.
Qed.

Lemma found_pair p n : (p, n) ∈ pairs key lp ln ->
  iter_find (by_key key (key p)) lp = Some p /\ is_Some (iter_find (by_key key (key p)) ln).
Proof.
  intros (Hpl & Hnl & Hk)%pairs_elem. split; [by apply found_elem|].
  rewrite Hk. eexists. by apply found_elem.
Qed.

Lemma collection_cud S :
  lget L S = Some M0 ->
  pushes (fun s => s ← for_each fc (created key lp ln) s; s ← for_each fu (pairs key lp ln) s;
    for_each fd (deleted key lp ln) s) S (lset L (kmap key val ln) S).
Proof.
  intros HS. rewrite <-(passes_cud key val lp ln). eapply pushes_seq; [by apply collection_create|].
  assert (H1 : lget L (lset L M1 S) = Some M1) by (by eapply get_set).
  set (M2 := kmap (fun pn => key pn.1) (fun pn => val pn.2) (pairs key lp ln) ∪ M1).
  assert (H2 : lget L (lset L M2 (lset L M1 S)) = Some M2) by (by eapply get_set).
  eapply pushes_eq; [eapply pushes_seq; [apply pass_update with (m := M1)|apply pass_delete with (m := M2)]|].
  - done.
  - by apply pairs_keys_NoDup.
  - intros p n [Hf _]%found_pair. by rewrite lookup_union, created_lookup, Hf, kmap_lookup, Hf.
  - intros p n S' m (? & ? & ?)%pairs_elem. by apply Hfu.
  - done.
  - by apply filter_keys_NoDup.
  - intros d Hd. apply (list_elem_of_fmap_2 key), (deleted_keys key) in Hd as [[p Hf] _].
    unfold M2. rewrite !lookup_union_is_Some, !kmap_lookup, Hf. eauto.
  - auto.
  - rewrite (set_set _ M1) by done. by rewrite (set_set _ M0).
Qed.

Lemma collection_cdu S :
  lget L S = Some M0 ->
  pushes (fun s => s ← for_each fc (created key lp ln) s; s ← for_each fd (deleted key lp ln) s;
    for_each fu (pairs key lp ln) s) S (lset L (kmap key val ln) S).
Proof.
  intros HS. rewrite <-(passes_cdu key val lp ln). eapply pushes_seq; [by apply collection_create|].
  assert (H1 : lget L (lset L M1 S) = Some M1) by (by eapply get_set).
  set (M2 := filter (fun kv => kv.1 ∉ key <$> deleted key lp ln) M1).
  assert (H2 : lget L (lset L M2 (lset L M1 S)) = Some M2) by (by eapply get_set).
  eapply pushes_eq; [eapply pushes_seq; [apply pass_delete with (m := M1)|apply pass_update with (m := M2)]|].
  - done.
  - by apply filter_keys_NoDup.
  - intros d Hd. apply (list_elem_of_fmap_2 key), (deleted_keys key) in Hd as [[p Hf] _].
    rewrite lookup_union_is_Some, !kmap_lookup, Hf. eauto.
  - auto.
  - done.
  - by apply pairs_keys_NoDup.
  - intros p n [Hf Hf2]%found_pair. unfold M2. apply map_lookup_filter_Some. split.
    + by rewrite lookup_union, created_lookup, Hf, kmap_lookup, Hf.
    + simpl. rewrite deleted_keys. intros [_ Hx]. rewrite Hx in Hf2. by destruct Hf2.
  - intros p n S' m (? & ? & ?)%pairs_elem. by apply Hfu.
  - rewrite (set_set _ M1) by done. by rewrite (set_set _ M0).
Qed.
End passes.
End pushes.
