(* ===== verification/RoundTrip.v ===== *)
(** * Diffing two schemas and applying the steps

    The main theorem of the datamodel side of the migration engine: the steps
    that [diff] (datamodel_differ.rs) computes between two well-formed schemas,
    run by [apply] (datamodel_calculator.rs) on the first schema, give a schema
    with the map view of the second one. *)
From S2P Require Import Prelude Ast ExprText Steps Calculator Differ SchemaMap Refine Focus.

#[local] Arguments set_dirs _ _ _ : simpl never.
#[local] Arguments get_dirs _ _ : simpl never.
#[local] Arguments set_args _ _ _ : simpl never.
#[local] Arguments get_args _ _ : simpl never.
#[local] Arguments repeated_at _ _ : simpl never.

(** ** Well-formed schemas

    Names are unique in their scope, as the datamodel validator enforces, and
    every expression is one that the parser reads back from its own text. *)
Section wf.
Context (parse_expr : string -> option Expression).

Definition args_wf (args : list Argument) : Prop :=
  args_ok args /\ Forall (fun a => stable_text parse_expr (render_text (arg_value a)) = true) args.
Definition dirs_wf (ds : list Directive) : Prop :=
  NoDup (dir_key <$> ds) /\ Forall (fun d => args_wf (dir_arguments d)) ds.
Definition field_wf (f : Field) : Prop := dirs_wf (field_directives f).
Definition value_wf (v : EnumValue) : Prop := dirs_wf (value_directives v).
Definition enum_wf (e : Enum) : Prop :=
  NoDup (value_key <$> enum_values e) /\ Forall value_wf (enum_values e) /\ dirs_wf (enum_directives e).
Definition model_wf (m : Model) : Prop :=
  NoDup (field_key <$> model_fields m) /\ Forall field_wf (model_fields m) /\
  dirs_wf (regular_directives m) /\ Forall (fun d => args_wf (dir_arguments d)) (repeated_directives m).
Definition source_wf (s : SourceConfig) : Prop := args_wf (source_properties s).
Definition schema_wf (s : SchemaAst) : Prop :=
  (NoDup (field_key <$> types s) /\ Forall field_wf (types s)) /\
  (NoDup (enum_key <$> enums s) /\ Forall enum_wf (enums s)) /\
  (NoDup (source_key <$> sources s) /\ Forall source_wf (sources s)) /\
  (NoDup (model_key <$> models s) /\ Forall model_wf (models s)).

#[export] Instance args_ok_dec args : Decision (args_ok args).
Proof. unfold args_ok. apply _. Defined.
#[export] Instance args_wf_dec args : Decision (args_wf args).
Proof. unfold args_wf. apply _. Defined.
#[export] Instance dirs_wf_dec ds : Decision (dirs_wf ds).
Proof. unfold dirs_wf. apply _. Defined.
#[export] Instance field_wf_dec f : Decision (field_wf f).
Proof. unfold field_wf. apply _. Defined.
#[export] Instance value_wf_dec v : Decision (value_wf v).
Proof. unfold value_wf. apply _. Defined.
#[export] Instance enum_wf_dec e : Decision (enum_wf e).
Proof. unfold enum_wf. apply _. Defined.
#[export] Instance model_wf_dec m : Decision (model_wf m).
Proof. unfold model_wf. apply _. Defined.
#[export] Instance source_wf_dec s : Decision (source_wf s).
Proof. unfold source_wf. apply _. Defined.
#[export] Instance schema_wf_dec s : Decision (schema_wf s).
Proof. unfold schema_wf. apply _. Defined.
End wf.

(** Membership in a list all of whose elements satisfy a predicate. *)
Lemma Forall_elem {A} (P : A -> Prop) l x : Forall P l -> x ∈ l -> P x.
Proof. rewrite Forall_forall. auto. Qed.

Section roundtrip.
Context (parse_expr : string -> option Expression).
Abbreviation pushes := (pushes parse_expr).
Abbreviation args_wf := (args_wf parse_expr).
Abbreviation dirs_wf := (dirs_wf parse_expr).

(** ** Arguments *)
Definition arg_good (a : Argument) : Prop :=
  no_any (arg_value a) = true /\ stable_text parse_expr (render_text (arg_value a)) = true.
Lemma args_wf_good args : args_wf args -> forall a, a ∈ args -> arg_good a.
Proof. intros [[_ H1] H2] a Ha. rewrite Forall_forall in H1, H2. split; auto. Qed.
Lemma stable_canonical t : stable_text parse_expr t = true -> canonical parse_expr t = Some t.
Proof. apply bool_decide_eq_true. Qed.

Lemma created_argument_pushes loc a A X :
  arg_good a -> get_args loc A = Some X -> X !! arg_key a = None ->
  pushes (fun s => push_created_argument loc s a) A (set_args loc (<[arg_key a := render_text (arg_value a)]> X) A).
Proof.
  intros [Hn Hs%stable_canonical] HX Ha. unfold push_created_argument.
  rewrite from_ast_expression_text by done. apply pushes_step; [|done]. simpl. rewrite HX. simpl.
  rewrite Hs. simpl. by rewrite Ha.
Qed.

Lemma updated_argument_pushes loc p n A X :
  arg_good p -> arg_good n -> arg_key p = arg_key n -> get_args loc A = Some X ->
  X !! arg_key p = Some (render_text (arg_value p)) ->
  pushes (fun s => push_updated_argument loc s (p, n)) A
    (set_args loc (<[arg_key p := render_text (arg_value n)]> X) A).
Proof.
  intros [Hp _] [Hn Hs%stable_canonical] Hk HX Ha. unfold push_updated_argument.
  rewrite !from_ast_expression_text by done. simpl. case_bool.
  - rewrite insert_id by congruence. rewrite set_args_get by done. apply pushes_none.
  - apply pushes_step; [|done]. simpl. rewrite HX. simpl. rewrite Hs. simpl. by rewrite <-Hk, Ha.
Qed.

Lemma deleted_argument_pushes loc a A X :
  get_args loc A = Some X ->
  pushes (fun s => push_deleted_argument loc s a) A (set_args loc (delete (arg_key a) X) A).
Proof. intros HX. apply pushes_step; [|done]. simpl. by rewrite HX. Qed.

Lemma created_arguments_pushes loc args A :
  args_wf args -> get_args loc A = Some ∅ ->
  pushes (for_each (push_created_argument loc) args) A (set_args loc (abs_args args) A).
Proof.
  intros Hwf HX. pose proof (args_wf_good _ Hwf) as Hg. destruct Hwf as [[Hnd _] _].
  eapply pushes_eq.
  - apply (pass_create parse_expr arg_key (fun a => render_text (arg_value a)) (args_lens loc) _ args ∅);
      [done|done|done|]. intros c S m Hc HS Hm. apply created_argument_pushes; auto.
  - simpl. by rewrite map_union_empty.
Qed.

Section update_args.
Context (loc : ArgumentLocation) (lp ln : list Argument).
Hypothesis Hp : args_wf lp.
Hypothesis Hn : args_wf ln.

Lemma args_pushes_cud A :
  get_args loc A = Some (abs_args lp) ->
  pushes (fun s => s ← for_each (push_created_argument loc) (created arg_key lp ln) s;
      s ← for_each (push_updated_argument loc) (pairs arg_key lp ln) s;
      for_each (push_deleted_argument loc) (deleted arg_key lp ln) s) A (set_args loc (abs_args ln) A).
Proof.
  pose proof (args_wf_good _ Hp) as Hgp. pose proof (args_wf_good _ Hn) as Hgn.
  destruct Hp as [[Hnp _] _], Hn as [[Hnn _] _].
  apply (collection_cud parse_expr arg_key (fun a => render_text (arg_value a)) (args_lens loc)); [done|done|..].
  - intros c S m Hc. apply created_argument_pushes. auto.
  - intros p n S m ? ? ? ? ?. apply updated_argument_pushes; auto.
  - intros d S m _ HS _. by apply deleted_argument_pushes.
Qed.
Lemma args_pushes_cdu A :
  get_args loc A = Some (abs_args lp) ->
  pushes (fun s => s ← for_each (push_created_argument loc) (created arg_key lp ln) s;
      s ← for_each (push_deleted_argument loc) (deleted arg_key lp ln) s;
      for_each (push_updated_argument loc) (pairs arg_key lp ln) s) A (set_args loc (abs_args ln) A).
Proof.
  pose proof (args_wf_good _ Hp) as Hgp. pose proof (args_wf_good _ Hn) as Hgn.
  destruct Hp as [[Hnp _] _], Hn as [[Hnn _] _].
  apply (collection_cdu parse_expr arg_key (fun a => render_text (arg_value a)) (args_lens loc)); [done|done|..].
  - intros c S m Hc. apply created_argument_pushes. auto.
  - intros p n S m ? ? ? ? ?. apply updated_argument_pushes; auto.
  - intros d S m _ HS _. by apply deleted_argument_pushes.
Qed.
End update_args.

(** ** Directives addressed by name *)
Section directives.
Context (path : DirectivePath).
Hypothesis Hpath : path_arguments path = None.

Lemma get_args_dir k A D :
  repeated_at path k = false -> get_dirs path A = Some D ->
  get_args (LocDirective (mkDirectiveLocation path k)) A = D !! k.
Proof. intros Hr HD. unfold get_args; simpl. by rewrite Hr, HD. Qed.
Lemma set_args_dir k A D X :
  get_dirs path A = Some D ->
  set_args (LocDirective (mkDirectiveLocation path k)) X A = set_dirs path (<[k := X]> D) A.
Proof. intros HD. unfold set_args; simpl. by rewrite HD. Qed.

Lemma created_directive_pushes d A D :
  repeated_at path (dir_key d) = false -> args_wf (dir_arguments d) ->
  get_dirs path A = Some D -> D !! dir_key d = None ->
  pushes (fun s => push_created_directive path s d) A
    (set_dirs path (<[dir_key d := abs_args (dir_arguments d)]> D) A).
Proof.
  intros Hr Hwf HD Hd. set (A1 := set_dirs path (<[dir_key d := ∅]> D) A).
  assert (HA1 : get_dirs path A1 = Some (<[dir_key d := ∅]> D)) by (by eapply get_dirs_set).
  apply (pushes_seq parse_expr (fun s => Ok (s ++ [SCreateDirective (mkCreateDirective
    (mkDirectiveLocation path (dir_key d)))])) _ _ A1).
  - apply pushes_step; [|done]. simpl. by rewrite Hr, HD; simpl; rewrite Hpath, Hd.
  - eapply pushes_eq; [apply created_arguments_pushes; [done|]|].
    + rewrite (get_args_dir _ _ _ Hr HA1). apply lookup_insert_eq.
    + rewrite (set_args_dir _ _ _ _ HA1), insert_insert_eq. by eapply set_dirs_set.
Qed.

Lemma updated_directive_pushes p n A D :
  repeated_at path (dir_key p) = false -> args_wf (dir_arguments p) -> args_wf (dir_arguments n) ->
  get_dirs path A = Some D -> D !! dir_key p = Some (abs_args (dir_arguments p)) ->
  pushes (fun s => push_updated_directive path s (p, n)) A
    (set_dirs path (<[dir_key p := abs_args (dir_arguments n)]> D) A).
Proof.
  intros Hr Hp Hn HD Hd. eapply pushes_eq.
  - apply args_pushes_cud; [done|done|]. by rewrite (get_args_dir _ _ _ Hr HD).
  - by apply set_args_dir.
Qed.

Lemma deleted_directive_pushes d A D :
  repeated_at path (dir_key d) = false -> get_dirs path A = Some D ->
  pushes (fun s => push_deleted_directive path s d) A (set_dirs path (delete (dir_key d) D) A).
Proof. intros Hr HD. apply pushes_step; [|done]. simpl. by rewrite Hr, HD; simpl; rewrite Hpath. Qed.

(** No element of the list is a directive that may be repeated at the path. *)
Definition all_named (ds : list Directive) : Prop :=
  forall d, d ∈ ds -> repeated_at path (dir_key d) = false.

Lemma created_directives_pushes ds A :
  dirs_wf ds -> all_named ds -> get_dirs path A = Some ∅ ->
  pushes (push_created_directives path ds) A (set_dirs path (abs_dirs ds) A).
Proof.
  intros [Hnd Hargs] Hr HD. rewrite Forall_forall in Hargs. eapply pushes_eq.
  - apply (pass_create parse_expr dir_key (fun d => abs_args (dir_arguments d)) (dirs_lens path) _ ds ∅);
      [done|done|done|]. intros c S m Hc HS Hm. apply created_directive_pushes; auto.
  - simpl. by rewrite map_union_empty.
Qed.

Lemma updated_directives_pushes dp dn A :
  dirs_wf dp -> dirs_wf dn -> all_named dp -> all_named dn -> get_dirs path A = Some (abs_dirs dp) ->
  pushes (fun s => s ← push_created_directives path (created dir_key dp dn) s;
      s ← push_updated_directives path (pairs dir_key dp dn) s;
      push_deleted_directives path (deleted dir_key dp dn) s) A (set_dirs path (abs_dirs dn) A).
Proof.
  intros [Hndp Hargsp] [Hndn Hargsn] Hrp Hrn HD. rewrite Forall_forall in Hargsp, Hargsn.
  apply (collection_cud parse_expr dir_key (fun d => abs_args (dir_arguments d)) (dirs_lens path));
    [done|done|..|done].
  - intros c S m Hc HS Hm. apply created_directive_pushes; auto.
  - intros p n S m Hp Hn Hk HS Hm. apply updated_directive_pushes; auto.
  - intros d S m Hd%deleted_elem HS _. apply deleted_directive_pushes; auto.
Qed.
End directives.

Lemma all_named_ne path ds : (forall k, repeated_at path k = false) -> all_named path ds.
Proof. intros H d _. apply H. Qed.
Lemma all_named_regular m args md : all_named (PathModel m args) (regular_directives md).
Proof. intros d [_ Hd]%iter_filter_elem. unfold directive_is_regular, directive_is_repeated in Hd. by apply negb_true_iff in Hd. Qed.

(** ** Fields *)
Section fields.
Context (m : string).

Abbreviation fget A := (lget (fields_lens m) A).

Lemma fget_model A Fs : fget A = Some Fs -> exists M, as_models A !! m = Some M /\ am_fields M = Fs.
Proof. simpl. intros (M & HM & [= <-])%bind_Some. eauto. Qed.
Lemma fset_model A M Fs : as_models A !! m = Some M ->
  lset (fields_lens m) Fs A = upd_models (insert m (model_with_fields Fs M)) A.
Proof. intros HM. simpl. unfold upd_models. by rewrite (alter_as_insert _ _ _ _ HM). Qed.

#[local] Arguments lset {_} _ _ _ : simpl never.
#[local] Arguments lget {_} _ _ : simpl never.

Lemma get_dirs_field A Fs f F : fget A = Some Fs -> Fs !! f = Some F ->
  get_dirs (PathField m f) A = Some (af_dirs F).
Proof. intros (M & HM & <-)%fget_model HF. unfold get_dirs. rewrite HM. simpl. by rewrite HF. Qed.
Lemma set_dirs_field_lens A Fs f F D : fget A = Some Fs -> Fs !! f = Some F ->
  set_dirs (PathField m f) D A = lset (fields_lens m) (<[f := field_with_dirs D F]> Fs) A.
Proof.
  intros (M & HM & <-)%fget_model HF. rewrite (set_dirs_field _ _ _ _ _ _ HM HF). by rewrite (fset_model _ _ _ HM).
Qed.

Lemma created_field_pushes f A Fs :
  field_wf parse_expr f -> fget A = Some Fs -> Fs !! field_key f = None ->
  pushes (fun s => push_created_field m s f) A (lset (fields_lens m) (<[field_key f := abs_field f]> Fs) A).
Proof.
  intros Hwf HA Hf. set (F0 := mkAField (id_name (field_type f)) (field_arity f) ∅).
  set (A1 := lset (fields_lens m) (<[field_key f := F0]> Fs) A).
  assert (HA1 : fget A1 = Some (<[field_key f := F0]> Fs)) by (by eapply get_set).
  apply (pushes_seq parse_expr (fun s => Ok (s ++ [SCreateField (mkCreateField m (field_key f)
    (id_name (field_type f)) (arity_from_ast (field_arity f)))])) _ _ A1).
  - apply pushes_step; [|done]. pose proof (fget_model _ _ HA) as (M & HM & <-). simpl.
    rewrite HM; simpl. rewrite Hf. unfold A1. rewrite (fset_model _ _ _ HM). unfold F0.
    by destruct (field_arity f).
  - eapply pushes_eq; [apply created_directives_pushes; [done|done|by apply all_named_ne|]|].
    + erewrite get_dirs_field; [|exact HA1|apply lookup_insert_eq]. done.
    + erewrite set_dirs_field_lens; [|exact HA1|apply lookup_insert_eq].
      unfold A1. rewrite insert_insert_eq. by eapply set_set.
Qed.

Lemma deleted_field_pushes f A Fs :
  fget A = Some Fs -> is_Some (Fs !! field_key f) ->
  pushes (fun s => Ok (s ++ [SDeleteField (mkDeleteField m (field_key f))])) A
    (lset (fields_lens m) (delete (field_key f) Fs) A).
Proof.
  intros HA [F HF]. apply pushes_step; [|done]. destruct (fget_model _ _ HA) as (M & HM & <-). simpl.
  rewrite HM; simpl. rewrite HF; simpl. by rewrite (fset_model _ _ _ HM).
Qed.

(** The UpdateField step, when one is emitted. *)
Definition update_field_step (p n : Field) : UpdateField :=
  mkUpdateField m (field_key p) (diff_value (field_key p) (field_key n))
    (diff_value (id_name (field_type p)) (id_name (field_type n)))
    (arity_from_ast <$> diff_value (field_arity p) (field_arity n)).
Lemma update_field_step_pushes p n A Fs :
  field_key p = field_key n -> fget A = Some Fs -> Fs !! field_key p = Some (abs_field p) ->
  let st := update_field_step p n in
  pushes (fun s => Ok (if UpdateField_is_any_option_set st then s ++ [SUpdateField st] else s)) A
    (lset (fields_lens m) (<[field_key p := mkAField (id_name (field_type n)) (field_arity n)
      (abs_dirs (field_directives p))]> Fs) A).
Proof.
  intros Hk HA HF st. destruct (fget_model _ _ HA) as (M & HM & HFs).
  assert (Hname : uf_new_name st = None) by (unfold st, update_field_step, diff_value; simpl; by rewrite bool_decide_eq_true_2).
  assert (Hty : default (id_name (field_type p)) (uf_tpe st) = id_name (field_type n)).
  { unfold st, update_field_step, diff_value; simpl. by case_bool_decide. }
  assert (Har : default (field_arity p) (arity_into_ast <$> uf_arity st) = field_arity n).
  { unfold st, update_field_step, diff_value; simpl. case_bool_decide as Hx; [done|]. by destruct (field_arity n). }
  assert (Hm : uf_model st = m) by done. assert (Hfk : uf_field st = field_key p) by done. clearbody st.
  destruct (UpdateField_is_any_option_set st) eqn:Hany.
  - apply pushes_step; [|done]. simpl. rewrite Hname, Hm, Hfk, HM; simpl. rewrite HFs, HF; simpl.
    rewrite Hty, Har. rewrite <-HFs. symmetry. by rewrite (fset_model _ _ _ HM).
  - unfold UpdateField_is_any_option_set in Hany. apply orb_false_iff in Hany as [[_ H2]%orb_false_iff H3].
    apply bool_decide_eq_false, eq_None_not_Some in H2, H3. rewrite H2 in Hty. rewrite H3 in Har. simpl in Hty, Har.
    rewrite <-Hty, <-Har. rewrite insert_id by done. erewrite set_get by done. apply pushes_none.
Qed.

Lemma updated_field_pushes p n A Fs :
  field_wf parse_expr p -> field_wf parse_expr n -> field_key p = field_key n ->
  fget A = Some Fs -> Fs !! field_key p = Some (abs_field p) ->
  pushes (fun s => push_updated_field m s (p, n)) A (lset (fields_lens m) (<[field_key p := abs_field n]> Fs) A).
Proof.
  intros Hp Hn Hk HA HF. eapply pushes_eq; [eapply (pushes_seq _ (fun s => Ok
      (if UpdateField_is_any_option_set (update_field_step p n) then s ++ [SUpdateField (update_field_step p n)]
       else s)) (fun s =>
         s ← push_created_directives _ (field_created_directives p n) s;
         s ← push_updated_directives _ (field_directive_pairs p n) s;
         push_deleted_directives _ (field_deleted_directives p n) s)); [by apply update_field_step_pushes|]|].
  - assert (HA1 := get_set (L := fields_lens m) A _ (<[field_key p := mkAField (id_name (field_type n)) (field_arity n)
      (abs_dirs (field_directives p))]> Fs) HA).
    apply updated_directives_pushes; [done|done|done|by apply all_named_ne..|].
    erewrite get_dirs_field; [|exact HA1|apply lookup_insert_eq]. done.
  - erewrite set_dirs_field_lens; [|by eapply get_set|apply lookup_insert_eq].
    rewrite insert_insert_eq. by eapply set_set.
Qed.
End fields.

(** ** Type aliases *)
Abbreviation tset T A := (lset types_lens T A).

Lemma get_dirs_type A k F : as_types A !! k = Some F -> get_dirs (PathTypeAlias k) A = Some (af_dirs F).
Proof. intros HF. unfold get_dirs. by rewrite HF. Qed.
Lemma set_dirs_type_lens A k F D : as_types A !! k = Some F ->
  set_dirs (PathTypeAlias k) D A = tset (<[k := field_with_dirs D F]> (as_types A)) A.
Proof. intros HF. by rewrite (set_dirs_type _ _ _ _ HF). Qed.

Lemma created_type_alias_pushes t A :
  field_wf parse_expr t -> as_types A !! field_key t = None ->
  pushes (fun s => push_created_type_alias s t) A (tset (<[field_key t := abs_field t]> (as_types A)) A).
Proof.
  intros Hwf Hf. set (F0 := mkAField (id_name (field_type t)) (field_arity t) ∅).
  set (A1 := tset (<[field_key t := F0]> (as_types A)) A).
  assert (HA1 : as_types A1 !! field_key t = Some F0) by apply lookup_insert_eq.
  apply (pushes_seq parse_expr (fun s => Ok (s ++ [SCreateTypeAlias (mkCreateTypeAlias (field_key t)
    (id_name (field_type t)) (arity_from_ast (field_arity t)))])) _ _ A1).
  - apply pushes_step; [|done]. simpl. rewrite Hf. unfold A1, F0. by destruct (field_arity t).
  - eapply pushes_eq; [apply created_directives_pushes; [done|done|by apply all_named_ne|]|].
    + by rewrite (get_dirs_type _ _ _ HA1).
    + rewrite (set_dirs_type_lens _ _ _ _ HA1). unfold A1. simpl. rewrite insert_insert_eq. done.
Qed.

Lemma deleted_type_alias_pushes t A :
  is_Some (as_types A !! field_key t) ->
  pushes (fun s => Ok (s ++ [SDeleteTypeAlias (mkDeleteTypeAlias (field_key t))])) A
    (tset (delete (field_key t) (as_types A)) A).
Proof. intros [F HF]. apply pushes_step; [|done]. simpl. by rewrite HF. Qed.

Lemma updated_type_alias_pushes p n A :
  field_wf parse_expr p -> field_wf parse_expr n -> field_arity p = field_arity n ->
  as_types A !! field_key p = Some (abs_field p) ->
  pushes (fun s => push_updated_type_alias s (p, n)) A (tset (<[field_key p := abs_field n]> (as_types A)) A).
Proof.
  intros Hp Hn Har HF. set (st := mkUpdateTypeAlias (field_key p)
    (diff_value (id_name (field_type p)) (id_name (field_type n)))).
  set (F1 := mkAField (id_name (field_type n)) (field_arity n) (abs_dirs (field_directives p))).
  set (A1 := tset (<[field_key p := F1]> (as_types A)) A).
  assert (HA1 : as_types A1 !! field_key p = Some F1) by apply lookup_insert_eq.
  apply (pushes_seq parse_expr (fun s => Ok (if UpdateTypeAlias_is_any_option_set st
    then s ++ [SUpdateTypeAlias st] else s)) (fun s =>
         s ← push_created_directives _ (field_created_directives p n) s;
         s ← push_updated_directives _ (field_directive_pairs p n) s;
         push_deleted_directives _ (field_deleted_directives p n) s) _ A1).
  - unfold st, UpdateTypeAlias_is_any_option_set, diff_value; simpl.
    destruct (bool_decide_reflect (id_name (field_type p) = id_name (field_type n))) as [Hty|Hty]; simpl.
    + replace A1 with A; [apply pushes_none|]. unfold A1, F1. rewrite <-Hty, <-Har, insert_id by done.
      symmetry. by apply (set_get (L := types_lens)).
    + apply pushes_step; [|done]. simpl. rewrite HF; simpl. unfold A1, F1. by rewrite <-Har.
  - eapply pushes_eq; [apply updated_directives_pushes; [done|done|done|by apply all_named_ne..|]|].
    + by rewrite (get_dirs_type _ _ _ HA1).
    + rewrite (set_dirs_type_lens _ _ _ _ HA1). unfold A1. simpl. by rewrite insert_insert_eq.
Qed.

(** ** Datasources *)
Lemma created_source_pushes s0 A :
  source_wf parse_expr s0 -> as_sources A !! source_key s0 = None ->
  pushes (fun s => push_created_source s s0) A
    (lset sources_lens (<[source_key s0 := abs_source s0]> (as_sources A)) A).
Proof.
  intros Hwf Hf. set (A1 := lset sources_lens (<[source_key s0 := ∅]> (as_sources A)) A).
  apply (pushes_seq parse_expr (fun s => Ok (s ++ [SCreateSource (mkCreateSource (source_key s0))])) _ _ A1).
  - apply pushes_step; [|done]. simpl. by rewrite Hf.
  - eapply pushes_eq; [apply created_arguments_pushes; [done|]|].
    + unfold get_args, A1; simpl. apply lookup_insert_eq.
    + unfold set_args, A1; simpl. unfold upd_sources; simpl. by rewrite insert_insert_eq.
Qed.

Lemma updated_source_pushes p n A :
  source_wf parse_expr p -> source_wf parse_expr n -> as_sources A !! source_key p = Some (abs_source p) ->
  pushes (fun s => push_updated_source s (p, n)) A
    (lset sources_lens (<[source_key p := abs_source n]> (as_sources A)) A).
Proof. intros Hp Hn HF. eapply pushes_eq; [by apply args_pushes_cdu|done]. Qed.

(** ** Enums *)
(** The schema with one enum replaced. *)
Definition at_enum (k : string) (En : AEnum) (A : ASchema) : ASchema := upd_enums (insert k En) A.

Section enums.
Context (k : string).

Lemma at_enum_lookup En A : as_enums (at_enum k En A) !! k = Some En.
Proof. apply lookup_insert_eq. Qed.
Lemma at_enum_at_enum En En' A : at_enum k En' (at_enum k En A) = at_enum k En' A.
Proof. unfold at_enum, upd_enums; simpl. by rewrite insert_insert_eq. Qed.
Lemma at_enum_id En A : as_enums A !! k = Some En -> at_enum k En A = A.
Proof. intros H. apply upd_enums_id. by apply insert_id. Qed.
Lemma set_dirs_at_enum D En A : set_dirs (PathEnum k) D (at_enum k En A) = at_enum k (enum_with_dirs D En) A.
Proof. rewrite (set_dirs_enum _ _ _ _ (at_enum_lookup En A)). apply at_enum_at_enum. Qed.
Lemma get_dirs_at_enum En A : get_dirs (PathEnum k) (at_enum k En A) = Some (ae_dirs En).
Proof. unfold get_dirs. by rewrite at_enum_lookup. Qed.
Lemma set_values_at_enum V En A :
  lset (values_lens k) V (at_enum k En A) = at_enum k (enum_with_values V En) A.
Proof.
  change (lset (values_lens k) V (at_enum k En A))
    with (upd_enums (alter (enum_with_values V) k) (at_enum k En A)). unfold at_enum, upd_enums; simpl.
  rewrite (alter_as_insert _ _ _ En) by apply lookup_insert_eq. by rewrite insert_insert_eq.
Qed.
Lemma get_values_at_enum En A : lget (values_lens k) (at_enum k En A) = Some (ae_values En).
Proof. change (lget (values_lens k) (at_enum k En A)) with
  (E ← as_enums (at_enum k En A) !! k; Some (ae_values E)). by rewrite at_enum_lookup. Qed.

(** Writing the directives of a value is writing an entry of the values. *)
Lemma value_lens_dirs A m v D D' :
  lget (values_lens k) A = Some m -> m !! v = Some D ->
  get_dirs (PathEnumValue k v) A = Some D /\
  set_dirs (PathEnumValue k v) D' A = lset (values_lens k) (<[v := D']> m) A.
Proof.
  change (lget (values_lens k) A) with (E ← as_enums A !! k; Some (ae_values E)).
  intros (En & HE & [= <-])%bind_Some Hv. split.
  - unfold get_dirs. by rewrite HE.
  - rewrite (set_dirs_value _ _ _ _ _ _ HE Hv).
    change (lset (values_lens k) ?V A) with (upd_enums (alter (enum_with_values V) k) A).
    unfold upd_enums. by rewrite (alter_as_insert _ _ _ _ HE).
Qed.

(** The directives of the values of a new enum. *)
Lemma created_values_pushes vs A :
  NoDup (value_key <$> vs) -> Forall (value_wf parse_expr) vs ->
  lget (values_lens k) A = Some (list_to_map ((fun v => (v, ∅)) <$> (value_key <$> vs))) ->
  pushes (for_each (fun s v => push_created_directives (PathEnumValue k (value_key v)) (value_directives v) s) vs)
    A (lset (values_lens k) (kmap value_key abs_value vs) A).
Proof.
  intros Hnd Hwf HA. rewrite Forall_forall in Hwf. eapply pushes_eq.
  - apply (pass_set parse_expr (values_lens k) value_key (fun _ => ∅) abs_value); [done|done|..].
    + intros v Hv. apply elem_of_list_to_map_1.
      * rewrite <-!list_fmap_compose. exact Hnd.
      * rewrite <-list_fmap_compose. by apply (list_elem_of_fmap_2 (fun v => (value_key v, ∅)) vs v).
    + intros v S m Hv HS Hm. destruct (value_lens_dirs S m _ _ (abs_value v) HS Hm) as [Hg <-].
      apply created_directives_pushes; [done|by apply Hwf|by apply all_named_ne|done].
  - f_equal. apply map_eq. intros x. rewrite lookup_union.
    destruct (kmap value_key abs_value vs !! x) eqn:Hx;
      [match goal with |- Some _ ∪ ?o = _ => by destruct o end|].
    match goal with |- None ∪ ?o = None => cut (o = None); [by intros ->|] end.
    apply not_elem_of_list_to_map_1. rewrite <-!list_fmap_compose.
    by apply kmap_None in Hx.
Qed.

Lemma updated_value_pushes p n A m :
  value_wf parse_expr p -> value_wf parse_expr n -> value_key p = value_key n ->
  lget (values_lens k) A = Some m -> m !! value_key p = Some (abs_value p) ->
  pushes (fun s => push_updated_enum_value k s (p, n)) A
    (lset (values_lens k) (<[value_key p := abs_value n]> m) A).
Proof.
  intros Hp Hn Hk HA Hm. rewrite Hk in Hm |- *.
  destruct (value_lens_dirs A m _ _ (abs_value n) HA Hm) as [Hg <-].
  apply updated_directives_pushes; [done|done|done|by apply all_named_ne..|done].
Qed.
End enums.

Lemma created_enum_pushes e A :
  enum_wf parse_expr e -> as_enums A !! enum_key e = None ->
  pushes (fun s => push_created_enum s e) A (at_enum (enum_key e) (abs_enum e) A).
Proof.
  intros (Hnd & Hv & Hd) Hn. set (k := enum_key e) in *. set (names := value_key <$> enum_values e).
  set (E0 := mkAEnum (list_to_map ((fun v => (v, ∅)) <$> names)) ∅).
  set (E1 := enum_with_dirs (abs_dirs (enum_directives e)) E0).
  apply (pushes_seq parse_expr (fun s => Ok (s ++ [SCreateEnum (mkCreateEnum k names)])) (fun s =>
    s ← push_created_directives (PathEnum k) (enum_directives e) s; _) _ (at_enum k E0 A)).
  { apply pushes_step; [|done]. simpl. by rewrite Hn. }
  apply (pushes_seq parse_expr (push_created_directives (PathEnum k) (enum_directives e)) _ _ (at_enum k E1 A)).
  - eapply pushes_eq; [apply created_directives_pushes; [done|done|by apply all_named_ne|]|].
    + by rewrite get_dirs_at_enum.
    + apply set_dirs_at_enum.
  - eapply pushes_eq; [apply created_values_pushes; [done|done|]|].
    + by rewrite get_values_at_enum.
    + by rewrite set_values_at_enum.
Qed.

Lemma deleted_enum_pushes e A :
  is_Some (as_enums A !! enum_key e) ->
  pushes (fun s => Ok (s ++ [SDeleteEnum (mkDeleteEnum (enum_key e))])) A
    (lset enums_lens (delete (enum_key e) (as_enums A)) A).
Proof. intros [F HF]. apply pushes_step; [|done]. simpl. by rewrite HF. Qed.

(** The values after the pass over common values and the UpdateEnum step. *)
Lemma values_after_update lp ln :
  (forall v, v ∈ created value_key lp ln -> value_directives v = []) ->
  filter (fun kv => kv.1 ∉ value_key <$> deleted value_key lp ln)
    ((kmap (fun pn => value_key pn.1) (fun pn => abs_value pn.2) (pairs value_key lp ln) ∪
        kmap value_key abs_value lp) ∪
     list_to_map ((fun v => (v, ∅)) <$> (value_key <$> created value_key lp ln))) =
  kmap value_key abs_value ln.
Proof.
  intros Hcr. rewrite <-(passes_cud value_key abs_value lp ln). f_equal.
  rewrite <-(assoc_L (∪)). f_equal.
  assert (Heq : list_to_map ((fun v => (v, ∅)) <$> (value_key <$> created value_key lp ln)) =
    kmap value_key abs_value (created value_key lp ln)).
  { unfold kmap. rewrite <-list_fmap_compose. f_equal. apply list_fmap_ext.
    intros i v Hv. simpl. unfold abs_value. rewrite Hcr; [done|]. by eapply list_elem_of_lookup_2. }
  rewrite Heq. apply map_union_comm. apply map_disjoint_spec. intros x v1 v2.
  rewrite created_lookup, kmap_lookup. by destruct (iter_find _ lp).
Qed.

Definition update_enum_step (p n : Enum) : UpdateEnum :=
  mkUpdateEnum (enum_key p) (diff_value (enum_key p) (enum_key n))
    (value_key <$> created_values p n) (value_key <$> deleted_values p n).

Lemma update_enum_step_pushes p n A V D :
  enum_key p = enum_key n ->
  pushes (fun s => Ok (if UpdateEnum_is_any_option_set (update_enum_step p n)
      then s ++ [SUpdateEnum (update_enum_step p n)] else s))
    (at_enum (enum_key p) (mkAEnum V D) A)
    (at_enum (enum_key p) (mkAEnum (filter (fun kv => kv.1 ∉ value_key <$> deleted_values p n)
      (V ∪ list_to_map ((fun v => (v, ∅)) <$> (value_key <$> created_values p n)))) D) A).
Proof.
  intros Hk. unfold UpdateEnum_is_any_option_set, update_enum_step; simpl.
  destruct (bool_decide_reflect (is_Some (diff_value (enum_key p) (enum_key n)))) as [Hd|_]; simpl.
  { unfold diff_value in Hd. rewrite bool_decide_eq_true_2 in Hd by done. by destruct Hd. }
  assert (Hstep : forall cr del, abs_step parse_expr (at_enum (enum_key p) (mkAEnum V D) A)
      (SUpdateEnum (mkUpdateEnum (enum_key p) (diff_value (enum_key p) (enum_key n)) cr del)) =
    Some (at_enum (enum_key p) (mkAEnum (filter (fun kv => kv.1 ∉ del)
      (V ∪ list_to_map ((fun v => (v, ∅)) <$> cr))) D) A)).
  { intros cr del. simpl. unfold diff_value. rewrite bool_decide_eq_true_2 by done.
    rewrite lookup_insert_eq. simpl. f_equal. apply at_enum_at_enum. }
  rewrite !length_fmap.
  destruct (created_values p n) as [|c cs], (deleted_values p n) as [|d ds]; simpl; try by apply pushes_step.
  rewrite map_union_empty, map_filter_id by (intros; apply not_elem_of_nil). apply pushes_none.
Qed.

Lemma for_each_none {X} (f : Steps -> X -> DiffResult Steps) l A :
  (forall x, x ∈ l -> pushes (fun s => f s x) A A) -> pushes (for_each f l) A A.
Proof.
  induction l as [|x l IH]; intros Hf; [apply pushes_none|].
  apply (pushes_seq _ (fun s => f s x) (for_each f l) A A A); [apply Hf; constructor|].
  apply IH. intros y Hy. apply Hf. by constructor.
Qed.

Lemma updated_enum_pushes p n A :
  enum_wf parse_expr p -> enum_wf parse_expr n -> enum_key p = enum_key n ->
  (forall v, v ∈ created_values p n -> value_directives v = []) ->
  as_enums A !! enum_key p = Some (abs_enum p) ->
  pushes (fun s => push_updated_enum s (p, n)) A (at_enum (enum_key p) (abs_enum n) A).
Proof.
  intros (Hndp & Hvp & Hdp) (Hndn & Hvn & Hdn) Hk Hcr HA. set (k := enum_key p) in *.
  rewrite Forall_forall in Hvp, Hvn.
  set (V1 := kmap (fun pn => value_key pn.1) (fun pn => abs_value pn.2) (value_pairs p n) ∪
    kmap value_key abs_value (enum_values p)).
  set (E1 := mkAEnum V1 (abs_dirs (enum_directives p))).
  set (E2 := mkAEnum (kmap value_key abs_value (enum_values n)) (abs_dirs (enum_directives p))).
  apply (pushes_ext parse_expr _ (fun s => s ← for_each (fun s v => push_created_directives
    (PathEnumValue (enum_key n) (value_key v)) (value_directives v) s) (created_values p n) s;
    s ← for_each (push_updated_enum_value (enum_key n)) (value_pairs p n) s;
    s ← Ok (if UpdateEnum_is_any_option_set (update_enum_step p n)
      then s ++ [SUpdateEnum (update_enum_step p n)] else s);
    s ← push_created_directives (PathEnum k) (enum_created_directives p n) s;
    s ← push_updated_directives (PathEnum k) (enum_directive_pairs p n) s;
    push_deleted_directives (PathEnum k) (enum_deleted_directives p n) s)); [reflexivity|].
  apply (pushes_seq parse_expr (for_each _ (created_values p n)) _ _ A).
  { apply for_each_none. intros v Hv. rewrite Hcr by done. apply pushes_none. }
  apply (pushes_seq parse_expr (for_each (push_updated_enum_value (enum_key n)) (value_pairs p n)) _ _ (at_enum k E1 A)).
  { rewrite <-Hk. fold k. rewrite <-(at_enum_id _ _ _ HA) at 1.
    eapply pushes_eq; [apply (pass_update parse_expr value_key abs_value (values_lens k))|].
    - apply get_values_at_enum.
    - by apply pairs_keys_NoDup.
    - intros x y (Hx & _ & _)%pairs_elem. by apply kmap_elem_NoDup.
    - intros x y S m (Hx & Hy & Hxy)%pairs_elem. apply updated_value_pushes; auto.
    - by rewrite set_values_at_enum. }
  apply (pushes_seq parse_expr (fun s => Ok (if UpdateEnum_is_any_option_set (update_enum_step p n)
      then s ++ [SUpdateEnum (update_enum_step p n)] else s)) _ _ (at_enum k E2 A)).
  { eapply pushes_eq; [by apply update_enum_step_pushes|]. unfold E2. do 2 f_equal. by apply values_after_update. }
  eapply pushes_eq; [apply updated_directives_pushes; [done|done|done|by apply all_named_ne..|]|].
  - by rewrite get_dirs_at_enum.
  - by rewrite set_dirs_at_enum.
Qed.

(** ** Models *)
Definition at_model (k : string) (M : AModel) (A : ASchema) : ASchema := upd_models (insert k M) A.

Section models.
Context (k : string).

Lemma at_model_lookup M A : as_models (at_model k M A) !! k = Some M.
Proof. apply lookup_insert_eq. Qed.
Lemma at_model_at_model M M' A : at_model k M' (at_model k M A) = at_model k M' A.
Proof. unfold at_model, upd_models; simpl. by rewrite insert_insert_eq. Qed.
Lemma at_model_id M A : as_models A !! k = Some M -> at_model k M A = A.
Proof. intros H. apply upd_models_id. by apply insert_id. Qed.
Lemma set_dirs_at_model D M A :
  set_dirs (PathModel k None) D (at_model k M A) = at_model k (model_with_dirs D M) A.
Proof. rewrite (set_dirs_model _ _ _ _ _ (at_model_lookup M A)). apply at_model_at_model. Qed.
Lemma get_dirs_at_model M A : get_dirs (PathModel k None) (at_model k M A) = Some (am_dirs M).
Proof. unfold get_dirs. by rewrite at_model_lookup. Qed.
Lemma set_fields_at_model Fs M A :
  lset (fields_lens k) Fs (at_model k M A) = at_model k (model_with_fields Fs M) A.
Proof. rewrite (fset_model k _ _ _ (at_model_lookup M A)). apply at_model_at_model. Qed.
Lemma get_fields_at_model M A : lget (fields_lens k) (at_model k M A) = Some (am_fields M).
Proof.
  change (lget (fields_lens k) (at_model k M A)) with
    (M' ← as_models (at_model k M A) !! k; Some (am_fields M')). by rewrite at_model_lookup.
Qed.

(** *** Repeated directives *)
Lemma Argument_from_ast_list {E} args :
  args_wf args ->
  exists l, map_m (@Argument_from_ast E) args = Ok l /\ step_pair <$> l = arg_pair <$> args.
Proof.
  intros Hwf. pose proof (args_wf_good _ Hwf) as Hg. exists ((fun a => steps.mkArgument (arg_key a)
    (mkMigrationExpression (render_text (arg_value a)))) <$> args). split.
  - apply map_m_Ok, Forall_forall. intros a Ha. unfold Argument_from_ast.
    rewrite from_ast_expression_text; [done|]. by apply Hg.
  - by rewrite <-list_fmap_compose.
Qed.

Lemma step_pair_facts args l :
  args_wf args -> step_pair <$> l = arg_pair <$> args ->
  step_args l = abs_args args /\ NoDup (steps.name <$> l) /\
  Forall (fun a => stable_text parse_expr (expr_text (steps.value a)) = true) l.
Proof.
  intros [[Hnd _] Hst] Heq. split_and!.
  - by rewrite step_args_pairs, abs_args_pairs, Heq.
  - apply (f_equal (fmap fst)) in Heq. rewrite <-!list_fmap_compose in Heq.
    change (steps.name <$> l = arg_key <$> args) in Heq. by rewrite Heq.
  - apply (f_equal (fmap snd)) in Heq. rewrite <-!list_fmap_compose in Heq.
    apply (Forall_fmap (snd ∘ step_pair) (fun t => stable_text parse_expr t = true)).
    rewrite Heq. by apply Forall_fmap.
Qed.

Lemma created_repeated_pushes d M A :
  directive_is_repeated d = true -> args_wf (dir_arguments d) ->
  pushes (fun s => push_created_directive_with_arguments (PathModel k None) s d) (at_model k M A)
    (at_model k (model_with_repeated (am_repeated M ∪ {[ abs_repeated_dir d ]}) M) A).
Proof.
  intros Hr Hwf. unfold push_created_directive_with_arguments.
  destruct (Argument_from_ast_list (E := Empty_set) _ Hwf) as (l & -> & Hl).
  destruct (step_pair_facts _ _ Hwf Hl) as (Hs & Hnd & Hst).
  apply pushes_step; [|done]. simpl. change (repeated_at _ _) with (directive_is_repeated d). rewrite Hr.
  rewrite lookup_insert_eq. simpl. rewrite option_guard_True by done. simpl.
  rewrite option_guard_True by done. simpl. f_equal. rewrite Hs. apply at_model_at_model.
Qed.
Lemma deleted_repeated_pushes d M A :
  directive_is_repeated d = true -> args_wf (dir_arguments d) ->
  pushes (fun s => push_deleted_directive_with_arguments (PathModel k None) s d) (at_model k M A)
    (at_model k (model_with_repeated (am_repeated M ∖ {[ abs_repeated_dir d ]}) M) A).
Proof.
  intros Hr Hwf. unfold push_deleted_directive_with_arguments.
  destruct (Argument_from_ast_list (E := Empty_set) _ Hwf) as (l & -> & Hl).
  destruct (step_pair_facts _ _ Hwf Hl) as (Hs & Hnd & Hst).
  apply pushes_step; [|done]. simpl. change (repeated_at _ _) with (directive_is_repeated d). rewrite Hr.
  rewrite lookup_insert_eq. simpl. rewrite option_guard_True by done. simpl. f_equal. rewrite Hs. apply at_model_at_model.
Qed.

Lemma created_repeated_all_pushes ds M A :
  Forall (fun d => directive_is_repeated d = true) ds -> Forall (fun d => args_wf (dir_arguments d)) ds ->
  pushes (for_each (push_created_directive_with_arguments (PathModel k None)) ds) (at_model k M A)
    (at_model k (model_with_repeated (am_repeated M ∪ list_to_set (abs_repeated_dir <$> ds)) M) A).
Proof.
  intros Hr Hwf. revert M. induction Hr as [|d ds Hd _ IH]; intros M; inversion Hwf; simplify_eq.
  - rewrite fmap_nil, list_to_set_nil, union_empty_r_L. replace (model_with_repeated _ M) with M by (by destruct M). apply pushes_none.
  - eapply pushes_eq; [eapply pushes_seq; [by apply created_repeated_pushes|by apply IH]|].
    f_equal. unfold model_with_repeated; simpl. f_equal.
    symmetry. apply union_assoc_L.
Qed.
Lemma deleted_repeated_all_pushes ds M A :
  Forall (fun d => directive_is_repeated d = true) ds -> Forall (fun d => args_wf (dir_arguments d)) ds ->
  pushes (for_each (push_deleted_directive_with_arguments (PathModel k None)) ds) (at_model k M A)
    (at_model k (model_with_repeated (am_repeated M ∖ list_to_set (abs_repeated_dir <$> ds)) M) A).
Proof.
  intros Hr Hwf. revert M. induction Hr as [|d ds Hd _ IH]; intros M; inversion Hwf; simplify_eq.
  - rewrite fmap_nil, list_to_set_nil, difference_empty_L. replace (model_with_repeated _ M) with M by (by destruct M). apply pushes_none.
  - eapply pushes_eq; [eapply pushes_seq; [by apply deleted_repeated_pushes|by apply IH]|].
    f_equal. unfold model_with_repeated; simpl. f_equal.
    apply difference_difference_l_L.
Qed.
End models.

(** [directives_are_identical] compares names and argument maps. *)
Lemma directives_are_identical_abs p n :
  args_wf (dir_arguments p) -> args_wf (dir_arguments n) ->
  directives_are_identical p n = Ok (bool_decide (abs_repeated_dir p = abs_repeated_dir n)).
Proof.
  intros Hp Hn. pose proof (args_wf_good _ Hp) as Hgp. pose proof (args_wf_good _ Hn) as Hgn.
  destruct Hp as [[Hndp _] _], Hn as [[Hndn _] _]. unfold directives_are_identical, abs_repeated_dir.
  destruct (bool_decide_reflect (dir_key p = dir_key n)) as [->|Hk]; simpl;
    [|rewrite bool_decide_eq_false_2; [done|congruence]].
  assert (Hsame := pairs_same_map (arg_pair <$> dir_arguments p) (arg_pair <$> dir_arguments n)).
  rewrite <-!list_fmap_compose in Hsame. specialize (Hsame Hndp Hndn).
  rewrite <-!abs_args_pairs, !length_fmap in Hsame.
  destruct (bool_decide_reflect (length (dir_arguments p) = length (dir_arguments n))) as [Hl|Hl]; simpl.
  2: { rewrite bool_decide_eq_false_2; [done|]. intros [= Hx]. by apply Hsame in Hx as []. }
  rewrite (all_m_Ok _ (fun a => existsb (fun b => arg_pair a ≟ arg_pair b) (dir_arguments n))).
  2: { apply Forall_forall. intros a Ha. apply any_m_Ok, Forall_forall. intros b Hb.
       unfold arguments_are_identical, arg_pair.
       rewrite !from_ast_expression_text by (first [by apply Hgp|by apply Hgn]). simpl.
       repeat case_bool_decide; simplify_eq; try done; congruence. }
  f_equal. apply eq_true_iff_eq. rewrite bool_decide_eq_true, forallb_forall. split.
  - intros Hall. f_equal. apply Hsame. split; [done|].
    intros x (a & -> & Ha)%list_elem_of_fmap. apply list_elem_of_In, Hall, existsb_exists in Ha as (b & Hb & He).
    apply bool_decide_eq_true in He. rewrite He. apply list_elem_of_fmap_2. by apply list_elem_of_In.
  - intros [= Hx] a Ha. apply Hsame in Hx as [_ Hsub].
    apply list_elem_of_In, (list_elem_of_fmap_2 arg_pair), Hsub, list_elem_of_fmap in Ha as (b & Hb & Hin).
    apply existsb_exists. exists b. split; [by apply list_elem_of_In|]. by apply bool_decide_eq_true.
Qed.

Section repeated.
Context (p n : Model).
Hypothesis Hp : Forall (fun d => args_wf (dir_arguments d)) (repeated_directives p).
Hypothesis Hn : Forall (fun d => args_wf (dir_arguments d)) (repeated_directives n).
Abbreviation Rp := (list_to_set (abs_repeated_dir <$> repeated_directives p) : gset (string * ArgMap)).
Abbreviation Rn := (list_to_set (abs_repeated_dir <$> repeated_directives n) : gset (string * ArgMap)).

Lemma created_repeated_ok : exists ds, created_repeated_directives p n = Ok ds /\
  (forall d, d ∈ ds <-> d ∈ repeated_directives n /\ abs_repeated_dir d ∉ Rp).
Proof.
  rewrite Forall_forall in Hp, Hn. eexists. split.
  - apply (filter_m_Ok _ (fun d => negb (existsb (fun d' => bool_decide (abs_repeated_dir d' = abs_repeated_dir d))
      (repeated_directives p)))). apply Forall_forall. intros d Hd. rewrite (any_m_Ok _ (fun d' =>
      bool_decide (abs_repeated_dir d' = abs_repeated_dir d))); [done|].
    apply Forall_forall. intros d' Hd'. apply directives_are_identical_abs; auto.
  - intros d. rewrite iter_filter_elem, negb_true_iff, elem_of_list_to_set, list_elem_of_fmap.
    apply and_iff_compat_l. rewrite <-not_true_iff_false, existsb_exists. apply not_iff_compat.
    setoid_rewrite bool_decide_eq_true. setoid_rewrite <-list_elem_of_In.
    split; intros (x & Hx1 & Hx2); by exists x.
Qed.
Lemma deleted_repeated_ok : exists ds, deleted_repeated_directives p n = Ok ds /\
  (forall d, d ∈ ds <-> d ∈ repeated_directives p /\ abs_repeated_dir d ∉ Rn).
Proof.
  rewrite Forall_forall in Hp, Hn. eexists. split.
  - apply (filter_m_Ok _ (fun d => negb (existsb (fun d' => bool_decide (abs_repeated_dir d = abs_repeated_dir d'))
      (repeated_directives n)))). apply Forall_forall. intros d Hd. rewrite (any_m_Ok _ (fun d' =>
      bool_decide (abs_repeated_dir d = abs_repeated_dir d'))); [done|].
    apply Forall_forall. intros d' Hd'. apply directives_are_identical_abs; auto.
  - intros d. rewrite iter_filter_elem, negb_true_iff, elem_of_list_to_set, list_elem_of_fmap.
    apply and_iff_compat_l. rewrite <-not_true_iff_false, existsb_exists. apply not_iff_compat.
    setoid_rewrite bool_decide_eq_true. setoid_rewrite <-list_elem_of_In.
    split; intros (x & Hx1 & Hx2); by exists x.
Qed.

(** The set of repeated directives after both passes. *)
Lemma repeated_sets cs ds :
  (forall d, d ∈ cs <-> d ∈ repeated_directives n /\ abs_repeated_dir d ∉ Rp) ->
  (forall d, d ∈ ds <-> d ∈ repeated_directives p /\ abs_repeated_dir d ∉ Rn) ->
  (Rp ∪ list_to_set (abs_repeated_dir <$> cs)) ∖ list_to_set (abs_repeated_dir <$> ds) = Rn.
Proof.
  assert (Hset : forall (l l' : list Directive) (R : gset (string * ArgMap)),
    (forall d, d ∈ l <-> d ∈ l' /\ abs_repeated_dir d ∉ R) ->
    list_to_set (abs_repeated_dir <$> l) =@{gset _} list_to_set (abs_repeated_dir <$> l') ∖ R).
  { intros l l' R Hl. apply set_eq. intros x.
    rewrite elem_of_difference, !elem_of_list_to_set, !list_elem_of_fmap. split.
    - intros (d & -> & Hd). apply Hl in Hd as [Hd HR]. eauto.
    - intros [(d & -> & Hd) HR]. exists d. split; [done|]. by apply Hl. }
  intros Hc%Hset Hd%Hset. rewrite Hc, Hd. generalize Rp Rn. clear. intros R1 R2. apply set_eq. intros x.
  rewrite elem_of_difference, elem_of_union, !elem_of_difference.
  destruct (decide (x ∈ R1)), (decide (x ∈ R2)); tauto.
Qed.
End repeated.

Lemma created_model_pushes m A :
  model_wf parse_expr m -> as_models A !! model_key m = None ->
  pushes (fun s => push_created_model s m) A (at_model (model_key m) (abs_model m) A).
Proof.
  intros (Hnd & Hf & Hd & Hr) Hn. rewrite Forall_forall in Hf. set (k := model_key m) in *.
  set (Fs := kmap field_key abs_field (model_fields m)).
  set (M1 := mkAModel Fs ∅ ∅). set (M2 := mkAModel Fs (abs_dirs (regular_directives m)) ∅).
  apply (pushes_ext parse_expr _ (fun s => s ← Ok (s ++ [SCreateModel (mkCreateModel k)]);
    s ← push_created_fields k (model_fields m) s;
    s ← push_created_directives (PathModel k None) (regular_directives m) s;
    push_created_directives_with_arguments (PathModel k None) (repeated_directives m) s)); [reflexivity|].
  eapply pushes_seq; [apply pushes_step with (A' := at_model k (mkAModel ∅ ∅ ∅) A); [|done]; simpl; by rewrite Hn|].
  apply (pushes_seq parse_expr (push_created_fields k (model_fields m)) _ _ (at_model k M1 A)).
  { eapply pushes_eq; [apply (pass_create parse_expr field_key abs_field (fields_lens k))|].
    - apply get_fields_at_model.
    - done.
    - done.
    - intros f S Fs' Hin. apply created_field_pushes. auto.
    - rewrite set_fields_at_model. simpl. by rewrite map_union_empty. }
  apply (pushes_seq parse_expr (push_created_directives (PathModel k None) (regular_directives m)) _ _ (at_model k M2 A)).
  { eapply pushes_eq; [apply created_directives_pushes; [done|done|apply all_named_regular|by rewrite get_dirs_at_model]|].
    by rewrite set_dirs_at_model. }
  eapply pushes_eq; [apply created_repeated_all_pushes; [|done]|].
  - apply Forall_forall. by intros d [_ ?]%iter_filter_elem.
  - unfold model_with_repeated; simpl. by rewrite union_empty_l_L.
Qed.

Lemma deleted_model_pushes m A :
  is_Some (as_models A !! model_key m) ->
  pushes (fun s => Ok (s ++ [SDeleteModel (mkDeleteModel (model_key m))])) A
    (lset models_lens (delete (model_key m) (as_models A)) A).
Proof. intros [F HF]. apply pushes_step; [|done]. simpl. by rewrite HF. Qed.

Lemma push_deleted_fields_each m fs s :
  push_deleted_fields m fs s = for_each (fun s f => Ok (s ++ [SDeleteField (mkDeleteField m (field_key f))])) fs s.
Proof. apply for_each_append. Qed.

Lemma updated_model_pushes p n A :
  model_wf parse_expr p -> model_wf parse_expr n -> model_key p = model_key n ->
  as_models A !! model_key p = Some (abs_model p) ->
  pushes (fun s => push_updated_model s (p, n)) A (at_model (model_key p) (abs_model n) A).
Proof.
  intros (Hndp & Hfp & Hdp & Hrp) (Hndn & Hfn & Hdn & Hrn) Hk HA. rewrite Forall_forall in Hfp, Hfn.
  set (k := model_key p) in *. rewrite <-(at_model_id _ _ _ HA) at 1.
  set (M1 := model_with_fields (kmap field_key abs_field (model_fields n)) (abs_model p)).
  set (M2 := model_with_dirs (abs_dirs (regular_directives n)) M1).
  destruct (created_repeated_ok p n Hrp Hrn) as (cs & Hcs & Hcse), (deleted_repeated_ok p n Hrp Hrn) as (ds & Hds & Hdse).
  apply (pushes_ext parse_expr _ (fun s => s ← (s ← push_created_fields k (created_fields p n) s;
      s ← for_each (fun s f => Ok (s ++ [SDeleteField (mkDeleteField k (field_key f))])) (deleted_fields p n) s;
      push_updated_fields k (field_pairs p n) s);
    s ← (s ← push_created_directives (PathModel k None) (created_regular_directives p n) s;
      s ← push_updated_directives (PathModel k None) (regular_directive_pairs p n) s;
      push_deleted_directives (PathModel k None) (deleted_regular_directives p n) s);
    s ← for_each (push_created_directive_with_arguments (PathModel k None)) cs s;
    for_each (push_deleted_directive_with_arguments (PathModel k None)) ds s)).
  { intros s. unfold push_updated_model. rewrite Hcs, Hds. fold k.
    destruct (push_created_fields _ _ s) as [s1| |]; simpl; try done.
    rewrite <-push_deleted_fields_each; simpl.
    destruct (push_updated_fields _ _ _) as [s2| |]; simpl; try done.
    destruct (push_created_directives _ _ _) as [s3| |]; simpl; try done.
    destruct (push_updated_directives _ _ _) as [s4| |]; simpl; done. }
  apply (pushes_seq parse_expr (fun s => s ← push_created_fields k (created_fields p n) s; _) _ _ (at_model k M1 A)).
  { eapply pushes_eq; [apply (collection_cdu parse_expr field_key abs_field (fields_lens k)); [done|done|..]|].
    - intros c S m Hc. apply created_field_pushes; auto.
    - intros x y S m Hx Hy. apply updated_field_pushes; auto.
    - intros d S m Hd. apply deleted_field_pushes.
    - apply get_fields_at_model.
    - by rewrite set_fields_at_model. }
  apply (pushes_seq parse_expr (fun s => s ← push_created_directives (PathModel k None) _ s; _) _ _ (at_model k M2 A)).
  { eapply pushes_eq; [apply updated_directives_pushes; [done|done|done|apply all_named_regular..|by rewrite get_dirs_at_model]|].
    by rewrite set_dirs_at_model. }
  assert (Hin : forall d, d ∈ cs \/ d ∈ ds -> directive_is_repeated d = true /\ args_wf (dir_arguments d)).
  { rewrite Forall_forall in Hrp, Hrn. intros d [[Hd _]%Hcse|[Hd _]%Hdse]; (split; [|auto]);
      by apply iter_filter_elem in Hd as [_ ?]. }
  eapply pushes_eq; [eapply pushes_seq; [apply created_repeated_all_pushes|apply deleted_repeated_all_pushes]|];
    try (apply Forall_forall; intros d Hd; by apply Hin; auto).
  f_equal. unfold model_with_repeated; simpl. unfold abs_model. f_equal. by apply repeated_sets.
Qed.
End roundtrip.

(** ** The whole schema

    What the steps cannot express, or the calculator does not carry out:
    datasources are not removed, a type alias keeps its arity, and the values
    added to an existing enum carry no directives. *)
Definition migratable (prev next : SchemaAst) : Prop :=
  length (deleted_datasources prev next) = 0 /\
  Forall (fun pn => field_arity pn.1 = field_arity pn.2) (type_alias_pairs prev next) /\
  Forall (fun pn => Forall (fun v => length (value_directives v) = 0) (created_values pn.1 pn.2))
    (enum_pairs prev next).
#[export] Instance migratable_dec prev next : Decision (migratable prev next).
Proof. unfold migratable. apply _. Defined.

Lemma pairs_intro {A} (key : A -> string) lp ln p n :
  NoDup (key <$> ln) -> p ∈ lp -> n ∈ ln -> key p = key n -> (p, n) ∈ pairs key lp ln.
Proof.
  intros Hnd Hp Hn Hk. unfold pairs. apply list_elem_of_omap. exists p. split; [done|].
  rewrite find_by_key_sym, Hk, (found_elem key) by done. done.
Qed.

Section whole.
Context (parse_expr : string -> option Expression) (prev next : SchemaAst).
Abbreviation pushes := (pushes parse_expr).
Hypothesis Hprev : schema_wf parse_expr prev.
Hypothesis Hnext : schema_wf parse_expr next.
Hypothesis Hmig : migratable prev next.

Lemma types_pushes A :
  as_types A = kmap field_key abs_field (types prev) ->
  pushes (push_type_aliases prev next) A (lset types_lens (kmap field_key abs_field (types next)) A).
Proof.
  intros HA. destruct Hprev as [[Hnp Hfp] _], Hnext as [[Hnn Hfn] _]. destruct Hmig as (_ & Har & _).
  rewrite Forall_forall in Hfp, Hfn. rewrite Forall_forall in Har. eapply pushes_ext.
  2: { apply (collection_cdu parse_expr field_key abs_field types_lens push_created_type_alias push_updated_type_alias
    (fun s t => Ok (s ++ [SDeleteTypeAlias (mkDeleteTypeAlias (field_key t))])) (types prev) (types next)); [done|done|..].
  - intros c S m Hc [= <-]. apply created_type_alias_pushes; auto.
  - intros p n S m Hp Hn Hk [= <-]. apply updated_type_alias_pushes; auto.
    apply (Har (p, n)). by apply (pairs_intro field_key).
  - intros d S m Hd [= <-]. apply deleted_type_alias_pushes.
  - simpl. by rewrite HA. }
  intros s. unfold push_type_aliases. destruct (push_created_type_aliases _ s) as [s1| |] eqn:E;
    unfold push_created_type_aliases in E; unfold created_type_aliases in E; rewrite E; simpl; try done.
  by rewrite <-for_each_append.
Qed.

Lemma enums_pushes A :
  as_enums A = kmap enum_key abs_enum (enums prev) ->
  pushes (push_enums prev next) A (lset enums_lens (kmap enum_key abs_enum (enums next)) A).
Proof.
  intros HA. destruct Hprev as (_ & [Hnp Hfp] & _), Hnext as (_ & [Hnn Hfn] & _). destruct Hmig as (_ & _ & Hcr).
  rewrite Forall_forall in Hfp, Hfn. rewrite Forall_forall in Hcr. eapply pushes_ext.
  2: { apply (collection_cdu parse_expr enum_key abs_enum enums_lens push_created_enum push_updated_enum
    (fun s t => Ok (s ++ [SDeleteEnum (mkDeleteEnum (enum_key t))])) (enums prev) (enums next)); [done|done|..].
  - intros c S m Hc [= <-]. apply created_enum_pushes; auto.
  - intros p n S m Hp Hn Hk [= <-]. apply updated_enum_pushes; auto.
    intros v Hv. specialize (Hcr (p, n)). rewrite Forall_forall in Hcr. apply nil_length_inv, Hcr; [|done].
    by apply (pairs_intro enum_key).
  - intros d S m Hd [= <-]. apply deleted_enum_pushes.
  - simpl. by rewrite HA. }
  intros s. unfold push_enums. destruct (push_created_enums _ s) as [s1| |] eqn:E;
    unfold push_created_enums in E; unfold created_enums in E; rewrite E; simpl; try done.
  by rewrite <-for_each_append.
Qed.

Lemma sources_pushes A :
  as_sources A = kmap source_key abs_source (sources prev) ->
  pushes (push_datasources prev next) A (lset sources_lens (kmap source_key abs_source (sources next)) A).
Proof.
  intros HA. destruct Hprev as (_ & _ & [Hnp Hfp] & _), Hnext as (_ & _ & [Hnn Hfn] & _).
  destruct Hmig as (Hdel%nil_length_inv & _ & _). rewrite Forall_forall in Hfp, Hfn. eapply pushes_ext.
  2: { apply (collection_cdu parse_expr source_key abs_source sources_lens push_created_source push_updated_source
    (fun s t => Ok (s ++ [SDeleteSource (mkDeleteSource (source_key t))])) (sources prev) (sources next)); [done|done|..].
  - intros c S m Hc [= <-]. apply created_source_pushes; auto.
  - intros p n S m Hp Hn Hk [= <-]. apply updated_source_pushes; auto.
  - intros d S m Hd. unfold deleted_datasources in Hdel. rewrite Hdel in Hd. by apply elem_of_nil in Hd.
  - simpl. by rewrite HA. }
  intros s. unfold push_datasources. destruct (push_created_sources _ s) as [s1| |] eqn:E;
    unfold push_created_sources in E; unfold created_datasources in E; rewrite E; simpl; try done.
  by rewrite <-for_each_append.
Qed.

Lemma models_pushes A :
  as_models A = kmap model_key abs_model (models prev) ->
  pushes (push_models prev next) A (lset models_lens (kmap model_key abs_model (models next)) A).
Proof.
  intros HA. destruct Hprev as (_ & _ & _ & [Hnp Hfp]), Hnext as (_ & _ & _ & [Hnn Hfn]).
  rewrite Forall_forall in Hfp, Hfn. eapply pushes_ext.
  2: { apply (collection_cdu parse_expr model_key abs_model models_lens push_created_model push_updated_model
    (fun s t => Ok (s ++ [SDeleteModel (mkDeleteModel (model_key t))])) (models prev) (models next)); [done|done|..].
  - intros c S m Hc [= <-]. apply created_model_pushes; auto.
  - intros p n S m Hp Hn Hk [= <-]. apply updated_model_pushes; auto.
  - intros d S m Hd [= <-]. apply deleted_model_pushes.
  - simpl. by rewrite HA. }
  intros s. unfold push_models. destruct (push_created_models _ s) as [s1| |] eqn:E;
    unfold push_created_models in E; unfold created_models in E; rewrite E; simpl; try done.
  by rewrite <-for_each_append.
Qed.

Lemma diff_pushes : exists ms, diff prev next = Ok ms /\
  abs_run parse_expr (abs prev) ms = Some (abs next) /\ Forall (fun m => is_delete_source m = false) ms.
Proof.
  assert (H : pushes (fun s => s ← push_type_aliases prev next s; s ← push_enums prev next s;
    s ← push_datasources prev next s; push_models prev next s) (abs prev) (abs next)).
  { eapply pushes_eq; [eapply pushes_seq; [by apply types_pushes|]; eapply pushes_seq; [by apply enums_pushes|];
      eapply pushes_seq; [by apply sources_pushes|by apply models_pushes]|done]. }
  destruct (H []) as (ms & Hms & Hrun & Hd). exists ms. done.
Qed.

Lemma wf_inv : inv prev.
Proof.
  destruct Hprev as (_ & _ & _ & [_ Hm]). eapply Forall_impl; [exact Hm|].
  intros m (_ & _ & _ & Hr). eapply Forall_impl; [exact Hr|]. by intros d [? _].
Qed.
End whole.

(** ** The theorems *)
(** C1: Given two schemas with names that are distinct in their scopes and expressions that read back from their texts, such that no datasource is removed, no type alias changes its arity and the values added to an existing enum carry no directives: diff returns steps, the calculator runs them on the previous schema without an error, and the result has the same type aliases, enums, datasources and models as the next schema. (What is excluded fails; see the findings on the differ.) *)
Theorem diff_apply_roundtrip (parse_expr : string -> option Expression) (prev next : SchemaAst) :
  (forall v e, parse_expr v = Some e -> no_any e = true) ->
  schema_wf parse_expr prev -> schema_wf parse_expr next -> migratable prev next ->
  exists ms s', diff prev next = Ok ms /\ apply parse_expr prev ms = Ok s' /\ abs s' = abs next.
Proof.
  intros Hparse Hp Hn Hmig. destruct (diff_pushes parse_expr prev next Hp Hn Hmig) as (ms & Hms & Hrun & Hd).
  destruct (run_implements parse_expr Hparse ms prev (abs next)) as (s' & Hs' & Habs & _);
    [by eapply wf_inv|done|done|]. by exists ms, s'.
Qed.

Lemma diff_apply_roundtrip_witness :
  exists ms s', diff sample_prev sample_next = Ok ms /\
    apply parse_const sample_prev ms = Ok s' /\ abs s' = abs sample_next.
Proof.
  apply (diff_apply_roundtrip parse_const sample_prev sample_next).
  - by intros v e [= <-].
  - apply (bool_decide_eq_true_1 _). vm_compute. reflexivity.
  - apply (bool_decide_eq_true_1 _). vm_compute. reflexivity.
  - apply (bool_decide_eq_true_1 _). vm_compute. reflexivity.
Defined.

(** When a value that carries a directive is added to an existing enum, the
    differ creates the directive before the step that creates the value, and
    the calculator rejects the steps. *)
Theorem added_value_directive_rejected :
  exists ms, diff value_before value_after = Ok ms /\
    apply parse_const value_before ms = Err (CreateDirectiveOnAbsentTarget
      (mkCreateDirective (mkDirectiveLocation (PathEnumValue "Role" "ADMIN") "map"))).
Proof. eexists. split; vm_compute; reflexivity. Qed.
