(* ===== verification/Effects.v ===== *)
(** * Computations with state and errors

    [async fn]s of the engine read and write the database and may return an
    error or panic; the writes done before an error are not undone. A
    computation takes the state and returns its outcome with the final state. *)
From S2P Require Import Prelude.

Definition eff (S E A : Type) : Type := S -> outcome E A * S.

#[export] Instance eff_ret S E : MRet (eff S E) := fun _ a s => (Ok a, s).
#[export] Instance eff_bind S E : MBind (eff S E) := fun _ _ f m s =>
  match m s with
  | (Ok a, s') => f a s'
  | (Err e, s') => (Err e, s')
  | (Panic p, s') => (Panic p, s')
  end.

(** A pure fallible computation. *)
Definition lift {S E A} (m : outcome E A) : eff S E A := fun s => (m, s).
(** [return Err(e)] and [panic!]. *)
Definition throw {S E A} (e : E) : eff S E A := fun s => (Err e, s).
Definition panic {S E A} (msg : string) : eff S E A := fun s => (Panic msg, s).
(** Reading something off the state. *)
Definition reads {S E A} (f : S -> A) : eff S E A := fun s => (Ok (f s), s).
(** [map_err] and the conversion [?] does. *)
Definition eff_map_err {S E F A} (f : E -> F) (m : eff S E A) : eff S F A := fun s =>
  let '(r, s') := m s in (map_err f r, s').
(** The result of [m] as a value, as in [match m.await { Ok(..) => .., Err(..) => .. }]. *)
Definition attempt {S E A} (m : eff S E A) : eff S E (A + E) := fun s =>
  match m s with
  | (Ok a, s') => (Ok (inl a), s')
  | (Err e, s') => (Ok (inr e), s')
  | (Panic p, s') => (Panic p, s')
  end.
(** A [for] loop. *)
Fixpoint eff_for {S E A} (f : A -> eff S E unit) (l : list A) : eff S E unit :=
  match l with
  | [] => mret ()
  | a :: l => _ ← f a; eff_for f l
  end.

(** [map] and [collect] into a [Result]. *)
Fixpoint eff_map {S E A B} (f : A -> eff S E B) (l : list A) : eff S E (list B) :=
  match l with
  | [] => mret []
  | a :: l => b ← f a; bs ← eff_map f l; mret (b :: bs)
  end.

Lemma eff_bind_Ok {S E A B} (f : A -> eff S E B) (m : eff S E A) s a s' :
  m s = (Ok a, s') -> (m ≫= f) s = f a s'.
Proof. unfold mbind, eff_bind. by intros ->. Qed.
Lemma eff_bind_Err {S E A B} (f : A -> eff S E B) (m : eff S E A) s e s' :
  m s = (Err e, s') -> (m ≫= f) s = (Err e, s').
Proof. unfold mbind, eff_bind. by intros ->. Qed.
Lemma eff_bind_keeps {S E A B} (f : A -> eff S E B) (m : eff S E A) s :
  (m s).2 = s -> (forall a, (f a s).2 = s) -> ((m ≫= f) s).2 = s.
Proof. unfold mbind, eff_bind. intros Hm Hf. destruct (m s) as [[a| |] s']; cbn in *; subst; auto. Qed.
Lemma attempt_Ok {S E A} (m : eff S E A) s a s' :
  m s = (Ok a, s') -> attempt m s = (Ok (inl a), s').
Proof. unfold attempt. by intros ->. Qed.
Lemma attempt_Err {S E A} (m : eff S E A) s e s' :
  m s = (Err e, s') -> attempt m s = (Ok (inr e), s').
Proof. unfold attempt. by intros ->. Qed.

Lemma eff_for_app {S E A} (f : A -> eff S E unit) l1 l2 s :
  eff_for f (l1 ++ l2) s = (eff_for f l1 ≫= fun _ => eff_for f l2) s.
Proof.
  revert s. induction l1 as [|a l1 IH]; intros s; [done|]. cbn [eff_for app].
  unfold mbind, eff_bind in *. destruct (f a s) as [[[]| |] s1]; [apply IH|done|done].
Qed.

(** A [for] loop that updates a local variable. *)
Fixpoint eff_fold {S E A B} (f : B -> A -> eff S E B) (l : list A) (b : B) : eff S E B :=
  match l with
  | [] => mret b
  | a :: l => b' ← f b a; eff_fold f l b'
  end.

Lemma eff_fold_keeps {S E A B} (f : B -> A -> eff S E B) (s : S) (l : list A) b :
  (forall b a, (f b a s).2 = s) -> (eff_fold f l b s).2 = s.
Proof.
  intros Hf. revert b. induction l as [|a l IH]; intros b; cbn [eff_fold]; [done|].
  unfold mbind at 1, eff_bind. specialize (Hf b a). destruct (f b a s) as [[b1| |] s1]; cbn in *; subst; [apply IH|done..].
Qed.
(** In a loop that leaves the state alone: if every round that ends in [P]
    started in [P] and established [Q], so did the whole loop. *)
Lemma eff_fold_back {S E A B} (f : B -> A -> eff S E B) (P : B -> Prop) (Q : A -> Prop) (s : S) (l : list A) b b' s' :
  (forall b a, (f b a s).2 = s) ->
  (forall b a b', f b a s = (Ok b', s) -> P b' -> P b /\ Q a) ->
  eff_fold f l b s = (Ok b', s') -> P b' -> P b /\ forall a, a ∈ l -> Q a.
Proof.
  intros Hk Hf. revert b. induction l as [|a l IH]; intros b; cbn [eff_fold].
  - intros [= <- <-] HP. split; [done|]. intros x Hx. inversion Hx.
  - unfold mbind at 1, eff_bind. pose proof (Hk b a) as Hs. destruct (f b a s) as [[b1| |] s1] eqn:Ef; try discriminate.
    cbn in Hs. subst s1. intros Hl HP. destruct (IH _ Hl HP) as [H1 H2]. destruct (Hf _ _ _ Ef H1) as [H3 H4].
    split; [done|]. intros x [->|Hx]%elem_of_cons; auto.
Qed.
(** A loop whose rounds all succeed and leave the state alone. *)
Lemma eff_fold_ok {S E A B} (f : B -> A -> eff S E B) (s : S) (l : list A) b :
  (forall b a, a ∈ l -> exists b', f b a s = (Ok b', s)) -> exists b', eff_fold f l b s = (Ok b', s).
Proof.
  revert b. induction l as [|a l IH]; intros b Hf; cbn [eff_fold]; [by eexists|].
  destruct (Hf b a) as [b1 Hb]; [constructor|]. rewrite (eff_bind_Ok _ _ _ _ _ Hb). apply IH.
  intros b2 x Hx. apply Hf. by constructor.
Qed.

(** * Diagnostics of destructive changes (destructive_changes_checker.rs) *)
Record MigrationWarning : Type := mkMigrationWarning { warning_description : string }.
Record MigrationError : Type := mkMigrationError {
  error_tpe : string; error_description : string; error_field : option string }.
Record UnexecutableMigration : Type := mkUnexecutableMigration { unexecutable_description : string }.

Record DestructiveChangeDiagnostics : Type := mkDiagnostics {
  diag_errors : list MigrationError;
  diag_warnings : list MigrationWarning;
  diag_unexecutable : list UnexecutableMigration;
}.
Definition Diagnostics_new : DestructiveChangeDiagnostics := mkDiagnostics [] [] [].
Definition add_warning (w : option MigrationWarning) (d : DestructiveChangeDiagnostics) :
    DestructiveChangeDiagnostics :=
  match w with
  | Some w => mkDiagnostics (diag_errors d) (diag_warnings d ++ [w]) (diag_unexecutable d)
  | None => d
  end.
Definition has_warnings (d : DestructiveChangeDiagnostics) : bool :=
  match diag_warnings d with [] => false | _ => true end.
Definition add_unexecutable (u : UnexecutableMigration) (d : DestructiveChangeDiagnostics) :
    DestructiveChangeDiagnostics :=
  mkDiagnostics (diag_errors d) (diag_warnings d) (diag_unexecutable d ++ [u]).
Definition warn_about_unexecutable_migrations (d : DestructiveChangeDiagnostics) : DestructiveChangeDiagnostics :=
  mkDiagnostics (diag_errors d)
    (diag_warnings d ++ ((fun u => mkMigrationWarning (unexecutable_description u)) <$> diag_unexecutable d))
    (diag_unexecutable d).
