(* ===== verification/Persistence.v ===== *)
(** * Persisted migrations (migration_persistence.rs, sql_migration_persistence.rs)

    The [Migration] record, its status codes, the [MigrationPersistence] trait
    as a class of operations, the contract its clients rely on, and the SQL
    implementation on the [_Migration] table, which meets the contract.

    Dates, JSON values and connector errors come from other crates; their types
    and the functions on them are parameters. *)
From stdpp Require Import sorting.
From S2P Require Import Prelude Steps Effects.
#[local] Open Scope Z_scope.

(** ** Status codes *)
Inductive MigrationStatus : Type :=
| Pending | MigrationInProgress | MigrationSuccess | MigrationFailure
| RollingBack | RollbackSuccess | RollbackFailure.
#[export] Instance MigrationStatus_eq_dec : EqDecision MigrationStatus.
Proof. solve_decision. Defined.

Definition code (s : MigrationStatus) : string :=
  match s with
  | Pending => "Pending"
  | MigrationInProgress => "MigrationInProgress"
  | MigrationSuccess => "MigrationSuccess"
  | MigrationFailure => "MigrationFailure"
  | RollingBack => "RollingBack"
  | RollbackSuccess => "RollbackSuccess"
  | RollbackFailure => "RollbackFailure"
  end.

Definition from_str {E} (s : string) : outcome E MigrationStatus :=
  if s ≟ "Pending" then Ok Pending
  else if s ≟ "MigrationInProgress" then Ok MigrationInProgress
  else if s ≟ "MigrationSuccess" then Ok MigrationSuccess
  else if s ≟ "MigrationFailure" then Ok MigrationFailure
  else if s ≟ "RollingBack" then Ok RollingBack
  else if s ≟ "RollbackSuccess" then Ok RollbackSuccess
  else if s ≟ "RollbackFailure" then Ok RollbackFailure
  else Panic "MigrationStatus is not known".

Definition is_success (s : MigrationStatus) : bool :=
  match s with MigrationSuccess => true | _ => false end.
Definition is_pending (s : MigrationStatus) : bool :=
  match s with Pending => true | _ => false end.

(** [str::starts_with("watch")] *)
Definition is_watch_name (name : string) : bool := String.prefix "watch" name.

(** ** What other crates provide *)
(** Dates (chrono) and the JSON texts of steps, values and error lists
    (serde_json). *)
Class Externals (DateTime Json Text : Type) : Type := {
  timestamp_millis : DateTime -> Z;
  (** [NaiveDateTime::from_timestamp]: a date from seconds and nanoseconds. *)
  from_timestamp : Z -> Z -> option DateTime;
  steps_to_json : list MigrationStep -> Text;
  steps_from_json : Text -> option (list MigrationStep);
  json_to_string : Json -> Text;
  json_from_str : Text -> option Json;
  errors_to_json : list string -> Text;
  errors_from_json : Text -> option (list string);
}.
(** Texts that were printed can be read back. A date made from seconds and
    nanoseconds has these milliseconds, whatever is below them being cut off;
    two seconds or more of nanoseconds are refused; and there is a date for
    every second from 1970 on, within the 190,000 years after it. *)
Class ExternalsOk {DateTime Json Text} (X : Externals DateTime Json Text) : Prop := {
  steps_json : forall x, steps_from_json (steps_to_json x) = Some x;
  value_json : forall x, json_from_str (json_to_string x) = Some x;
  errors_json : forall x, errors_from_json (errors_to_json x) = Some x;
  from_timestamp_millis : forall secs nsecs d, from_timestamp secs nsecs = Some d ->
    timestamp_millis d = secs * 1000 + nsecs / 1000000;
  from_timestamp_refused : forall secs nsecs, 2000000000 <= nsecs -> from_timestamp secs nsecs = None;
  from_timestamp_defined : forall secs nsecs, 0 <= secs <= 6000000000000 -> 0 <= nsecs < 1000000000 ->
    is_Some (from_timestamp secs nsecs);
}.

(** ** Dates *)
Section dates.
Context {DateTime Json Text : Type} {X : Externals DateTime Json Text}.

(** [i64 % 1000] and [/ 1000] truncate towards zero; [as u32] wraps. *)
Definition timestamp_to_datetime {E} (timestamp : Z) : outcome E DateTime :=
  let nsecs := (Z.rem timestamp 1000 * 1000000) mod 2 ^ 32 in
  let secs := Z.quot timestamp 1000 in
  unwrap "invalid or out-of-range datetime" (from_timestamp secs nsecs).

(** [Migration::timestamp_without_nanos], from [Utc::now().timestamp_millis()]. *)
Definition timestamp_without_nanos {E} (timestamp : Z) : outcome E DateTime :=
  let nsecs := (Z.rem timestamp 1000 * 1000000) mod 2 ^ 32 in
  let secs := Z.quot timestamp 1000 in
  unwrap "invalid or out-of-range datetime" (from_timestamp secs nsecs).

(** The dates the engine gives to migrations. *)
Definition engine_date (d : DateTime) : Prop := exists now, @timestamp_without_nanos unit now = Ok d.

Lemma engine_date_intro {E} now d : @timestamp_without_nanos E now = Ok d -> engine_date d.
Proof. intros H. exists now. revert H. unfold timestamp_without_nanos. destruct (from_timestamp _ _); [|done]. by intros [= ->]. Qed.

Lemma millis_parts t : 0 <= t ->
  (Z.rem t 1000 * 1000000) mod 2 ^ 32 = Z.rem t 1000 * 1000000 /\
  0 <= Z.rem t 1000 < 1000 /\ Z.quot t 1000 * 1000 + Z.rem t 1000 = t.
Proof.
  intros Ht. pose proof (Z.rem_bound_pos t 1000 Ht ltac:(lia)). pose proof (Z.quot_rem' t 1000).
  split_and!; [|lia|lia|lia]. rewrite Z.mod_small; lia.
Qed.
(** A negative remainder wraps around to more than two seconds. *)
Lemma millis_wrap t : t < 0 -> Z.rem t 1000 <> 0 -> 2000000000 <= (Z.rem t 1000 * 1000000) mod 2 ^ 32.
Proof.
  intros Hneg Hrem. pose proof (Z.rem_bound_abs t 1000 ltac:(lia)).
  pose proof (Z.rem_nonpos t 1000 ltac:(lia) ltac:(lia)).
  replace ((Z.rem t 1000 * 1000000) mod 2 ^ 32) with (Z.rem t 1000 * 1000000 + 2 ^ 32);
    [|apply (Z.mod_unique_pos _ _ (-1)); lia]. lia.
Qed.

Lemma read_date_millis {E} (HX : ExternalsOk X) t d :
  @timestamp_to_datetime E t = Ok d -> timestamp_millis d = t.
Proof.
  unfold timestamp_to_datetime. destruct (from_timestamp _ _) as [d'|] eqn:Hd; [|done]. intros [= ->].
  destruct (decide (t < 0 /\ Z.rem t 1000 <> 0)) as [[Hneg Hrem]|Hok].
  { rewrite from_timestamp_refused in Hd; [done|]. by apply millis_wrap. }
  apply from_timestamp_millis in Hd. rewrite Hd. destruct (decide (0 <= t)) as [Ht|Ht].
  - destruct (millis_parts t Ht) as (-> & ? & ?). rewrite Z.div_mul by lia. lia.
  - assert (Hz : Z.rem t 1000 = 0) by lia. rewrite Hz. simpl. pose proof (Z.quot_rem' t 1000).
    rewrite Z.mod_0_l, Z.div_0_l by lia. lia.
Qed.
Lemma engine_date_read {E} (HX : ExternalsOk X) d : engine_date d -> @timestamp_to_datetime E (timestamp_millis d) = Ok d.
Proof.
  intros [now H]. assert (Hm : timestamp_millis d = now) by (apply (read_date_millis (E := unit) HX); exact H).
  rewrite Hm. revert H. unfold timestamp_to_datetime, timestamp_without_nanos. destruct (from_timestamp _ _); [|done].
  by intros [= ->].
Qed.
End dates.

Section migrations.
Context {DateTime Json : Type}.

(** ** Migrations *)
Record Migration : Type := mkMigration {
  mig_name : string;
  mig_revision : nat;
  mig_status : MigrationStatus;
  mig_applied : nat;
  mig_rolled_back : nat;
  mig_datamodel_string : string;
  mig_datamodel_steps : list MigrationStep;
  mig_database_migration : Json;
  mig_errors : list string;
  mig_started_at : DateTime;
  mig_finished_at : option DateTime;
}.

Record MigrationUpdateParams : Type := mkMigrationUpdateParams {
  up_name : string;
  up_new_name : string;
  up_revision : nat;
  up_status : MigrationStatus;
  up_applied : nat;
  up_rolled_back : nat;
  up_errors : list string;
  up_finished_at : option DateTime;
}.

(** [Migration::new]; [empty_json] is the JSON value of the string of two braces,
    [started_at] the current time. *)
Definition Migration_new (empty_json : Json) (started_at : DateTime) (name : string) : Migration :=
  mkMigration name 0 Pending 0 0 "" [] empty_json [] started_at None.

Definition update_params (m : Migration) : MigrationUpdateParams :=
  mkMigrationUpdateParams (mig_name m) (mig_name m) (mig_revision m) (mig_status m) (mig_applied m)
    (mig_rolled_back m) (mig_errors m) (mig_finished_at m).

Definition set_status (st : MigrationStatus) (p : MigrationUpdateParams) : MigrationUpdateParams :=
  mkMigrationUpdateParams (up_name p) (up_new_name p) (up_revision p) st (up_applied p)
    (up_rolled_back p) (up_errors p) (up_finished_at p).
Definition set_errors (es : list string) (p : MigrationUpdateParams) : MigrationUpdateParams :=
  mkMigrationUpdateParams (up_name p) (up_new_name p) (up_revision p) (up_status p) (up_applied p)
    (up_rolled_back p) es (up_finished_at p).
Definition incr_applied (p : MigrationUpdateParams) : MigrationUpdateParams :=
  mkMigrationUpdateParams (up_name p) (up_new_name p) (up_revision p) (up_status p) (S (up_applied p))
    (up_rolled_back p) (up_errors p) (up_finished_at p).
Definition incr_rolled_back (p : MigrationUpdateParams) : MigrationUpdateParams :=
  mkMigrationUpdateParams (up_name p) (up_new_name p) (up_revision p) (up_status p) (up_applied p)
    (S (up_rolled_back p)) (up_errors p) (up_finished_at p).

(** [mark_as_finished], with the current time. *)
Definition mark_as_finished (now : DateTime) (p : MigrationUpdateParams) : MigrationUpdateParams :=
  mkMigrationUpdateParams (up_name p) (up_new_name p) (up_revision p) MigrationSuccess (up_applied p)
    (up_rolled_back p) (up_errors p) (Some now).

Definition is_watch_migration (m : Migration) : bool := is_watch_name (mig_name m).

(** ** The [MigrationPersistence] trait *)
Class MigrationPersistence (S E : Type) : Type := {
  p_init : eff S E unit;
  p_reset : eff S E unit;
  p_last : eff S E (option Migration);
  p_by_name : string -> eff S E (option Migration);
  p_load_all : eff S E (list Migration);
  p_create : Migration -> eff S E Migration;
  p_update : MigrationUpdateParams -> eff S E unit;
}.

(** The default methods. *)
Section defaults.
Context {S E : Type} `{!MigrationPersistence S E}.

Definition last_non_watch_applied_migration : eff S E (option Migration) :=
  all ← p_load_all;
  mret (iter_find (fun m => negb (is_watch_migration m) && (mig_status m ≟ MigrationSuccess)) (reverse all)).

Definition last_non_watch_migration : eff S E (option Migration) :=
  all ← p_load_all;
  mret (iter_find (fun m => negb (is_watch_migration m)) (reverse all)).

Definition migration_is_already_applied (migration_id : string) : eff S E bool :=
  all ← p_load_all;
  mret (iter_any (fun m => (mig_status m ≟ MigrationSuccess) && (mig_name m ≟ migration_id)) all).
End defaults.

(** ** The contract

    [view] is the history of migrations by ascending revision. *)
Definition last_success (l : list Migration) : option Migration :=
  iter_find (fun m => is_success (mig_status m)) (reverse l).
Definition last_named (n : string) (l : list Migration) : option Migration :=
  iter_find (fun m => mig_name m ≟ n) (reverse l).

Definition with_revision (r : nat) (m : Migration) : Migration :=
  mkMigration (mig_name m) r (mig_status m) (mig_applied m) (mig_rolled_back m) (mig_datamodel_string m)
    (mig_datamodel_steps m) (mig_database_migration m) (mig_errors m) (mig_started_at m) (mig_finished_at m).
Definition unfinished (m : Migration) : Migration :=
  mkMigration (mig_name m) (mig_revision m) (mig_status m) (mig_applied m) (mig_rolled_back m)
    (mig_datamodel_string m) (mig_datamodel_steps m) (mig_database_migration m) (mig_errors m)
    (mig_started_at m) None.

Definition is_target (p : MigrationUpdateParams) (m : Migration) : bool :=
  (mig_name m ≟ up_name p) && (mig_revision m ≟ up_revision p).
Definition updated (p : MigrationUpdateParams) (m : Migration) : Migration :=
  mkMigration (up_new_name p) (mig_revision m) (up_status p) (up_applied p) (up_rolled_back p)
    (mig_datamodel_string m) (mig_datamodel_steps m) (mig_database_migration m) (up_errors p)
    (mig_started_at m) (up_finished_at p).
Definition update_rows (p : MigrationUpdateParams) (l : list Migration) : list Migration :=
  (fun m => if is_target p m then updated p m else m) <$> l.

(** The dates of a migration and of an update are the engine's. *)
Section contract_laws.
Context {Text : Type} {X : Externals DateTime Json Text}.
Definition finished_ok (d : option DateTime) : Prop := from_option engine_date True d.
Definition dates_ok (m : Migration) : Prop := engine_date (mig_started_at m) /\ finished_ok (mig_finished_at m).

(** What a persistence promises on the states that satisfy [p_inv]. *)
Class PersistenceContract (S E : Type) `{!MigrationPersistence S E} : Type := {
  p_inv : S -> Prop;
  view : S -> list Migration;
  view_sorted : forall s, p_inv s -> StronglySorted Nat.lt (mig_revision <$> view s);
  view_dates : forall s, p_inv s -> Forall dates_ok (view s);
  load_all_ok : forall s, p_inv s -> p_load_all s = (Ok (view s), s);
  last_ok : forall s, p_inv s -> p_last s = (Ok (last_success (view s)), s);
  by_name_ok : forall n s, p_inv s -> p_by_name n s = (Ok (last_named n (view s)), s);
  create_ok : forall m s, p_inv s -> engine_date (mig_started_at m) -> exists r s',
    p_create m s = (Ok (with_revision r m), s') /\ p_inv s' /\
    view s' = view s ++ [unfinished (with_revision r m)];
  update_ok : forall p s, p_inv s -> finished_ok (up_finished_at p) -> exists s',
    p_update p s = (Ok tt, s') /\ p_inv s' /\ view s' = update_rows p (view s);
}.
End contract_laws.
End migrations.
Arguments Migration : clear implicits.
Arguments MigrationUpdateParams : clear implicits.
Arguments MigrationPersistence : clear implicits.

(** ** The [_Migration] table *)
(** Stable sort by a key: the meaning of [ORDER BY]. *)
Section order_by.
Context {A : Type} (le : A -> A -> bool).
Fixpoint sort_insert (x : A) (l : list A) : list A :=
  match l with
  | [] => [x]
  | y :: l => if le x y then x :: y :: l else y :: sort_insert x l
  end.
Fixpoint order_by (l : list A) : list A :=
  match l with
  | [] => []
  | x :: l => sort_insert x (order_by l)
  end.
End order_by.

Section sql.
Context {DateTime Json Text : Type} {X : Externals DateTime Json Text}.

Abbreviation Migration := (Migration DateTime Json).
Abbreviation MigrationUpdateParams := (MigrationUpdateParams DateTime).

(** Column values of the dates. *)
Inductive DateValue : Type :=
| VInteger (x : Z)
| VDateTime (x : DateTime).

(** A row, column by column; [revision] is the serial primary key. *)
Record Row : Type := mkRow {
  r_revision : Z;
  r_name : string;
  r_datamodel : string;
  r_status : string;
  r_applied : Z;
  r_rolled_back : Z;
  r_datamodel_steps : Text;
  r_database_migration : Text;
  r_errors : Text;
  r_started_at : DateValue;
  r_finished_at : option DateValue;
}.

Record Table : Type := mkTable { rows : list Row; next_revision : nat }.

Definition convert_datetime (family : SqlFamily) (d : DateTime) : DateValue :=
  match family with
  | Sqlite => VInteger (timestamp_millis d)
  | Postgres => VDateTime d
  | Mysql => VDateTime d
  end.

Definition convert_parameterized_date_value {E} (v : DateValue) : outcome E DateTime :=
  match v with
  | VInteger x => timestamp_to_datetime x
  | VDateTime x => Ok x
  end.

Definition parse_row {E} (row : Row) : outcome E Migration :=
  finished_at ← match r_finished_at row with
                | None => Ok None
                | Some x => d ← convert_parameterized_date_value x; Ok (Some d)
                end;
  datamodel_steps ← unwrap "Error parsing the migration steps" (steps_from_json (r_datamodel_steps row));
  database_migration ← unwrap "Error parsing the database migration steps"
                         (json_from_str (r_database_migration row));
  errors ← unwrap "called `Result::unwrap()` on an `Err` value" (errors_from_json (r_errors row));
  status ← from_str (r_status row);
  started_at ← convert_parameterized_date_value (r_started_at row);
  Ok (mkMigration (r_name row) (Z.to_nat (r_revision row)) status (Z.to_nat (r_applied row))
    (Z.to_nat (r_rolled_back row)) (r_datamodel row) datamodel_steps database_migration errors
    started_at finished_at).

Definition parse_rows_new {E} (result_set : list Row) : outcome E (list Migration) := map_m parse_row result_set.

(** The row that [create] inserts. *)
Definition insert_row (family : SqlFamily) (revision : nat) (m : Migration) : Row :=
  mkRow (Z.of_nat revision) (mig_name m) (mig_datamodel_string m) (code (mig_status m))
    (Z.of_nat (mig_applied m)) (Z.of_nat (mig_rolled_back m)) (steps_to_json (mig_datamodel_steps m))
    (json_to_string (mig_database_migration m)) (errors_to_json (mig_errors m))
    (convert_datetime family (mig_started_at m)) None.
(** The columns that [update] sets, on one row. *)
Definition update_row (family : SqlFamily) (p : MigrationUpdateParams) (row : Row) : Row :=
  mkRow (r_revision row) (up_new_name p) (r_datamodel row) (code (up_status p))
    (Z.of_nat (up_applied p)) (Z.of_nat (up_rolled_back p)) (r_datamodel_steps row)
    (r_database_migration row) (errors_to_json (up_errors p)) (r_started_at row)
    (convert_datetime family <$> up_finished_at p).

(** ** [SqlMigrationPersistence]

    The state of the connector holds the table, when it exists. *)
Class Connection (S E : Type) : Type := {
  family : SqlFamily;
  get_table : S -> option Table;
  set_table : Table -> S -> S;
  (** The error of a statement on a missing table. *)
  no_table : E;
}.
Class ConnectionOk {S E : Type} (C : Connection S E) : Prop :=
  get_set_table : forall t s, get_table (set_table t s) = Some t.

Section persistence.
Context {S E : Type} {C : Connection S E}.

Definition with_table {A} (k : Table -> eff S E A) : eff S E A := fun s =>
  match get_table s with Some t => k t s | None => (Err no_table, s) end.

Definition ascending (a b : Row) : bool := r_revision a <=? r_revision b.
Definition descending (a b : Row) : bool := r_revision b <=? r_revision a.

Definition sql_init : eff S E unit := fun s =>
  match get_table s with
  | Some _ => (Ok tt, s)
  | None => (Ok tt, set_table (mkTable [] 1) s)
  end.
Definition sql_reset : eff S E unit := fun s =>
  match get_table s with
  | Some t => (Ok tt, set_table (mkTable [] (next_revision t)) s)
  | None => (Ok tt, s)
  end.
Definition sql_last : eff S E (option Migration) :=
  with_table (fun t =>
    ms ← lift (parse_rows_new (order_by descending
           (iter_filter (fun row => r_status row ≟ code MigrationSuccess) (rows t))));
    mret (head ms)).
Definition sql_load_all : eff S E (list Migration) :=
  with_table (fun t => lift (parse_rows_new (order_by ascending (rows t)))).
Definition sql_by_name (name : string) : eff S E (option Migration) :=
  with_table (fun t =>
    ms ← lift (parse_rows_new (order_by descending (iter_filter (fun row => r_name row ≟ name) (rows t))));
    mret (head ms)).
(** [create] unwraps the result of the insertion. *)
Definition sql_create (m : Migration) : eff S E Migration := fun s =>
  match get_table s with
  | Some t =>
      let id := next_revision t in
      (Ok (with_revision id m), set_table (mkTable (rows t ++ [insert_row family id m]) (Datatypes.S id)) s)
  | None => (Panic "called `Result::unwrap()` on an `Err` value", s)
  end.
Definition sql_update (p : MigrationUpdateParams) : eff S E unit :=
  with_table (fun t s => (Ok tt, set_table (mkTable
    ((fun row => if (r_name row ≟ up_name p) && (r_revision row =? Z.of_nat (up_revision p))
                 then update_row family p row else row) <$> rows t) (next_revision t)) s)).

#[export] Instance SqlMigrationPersistence : MigrationPersistence DateTime Json S E := {|
  p_init := sql_init;
  p_reset := sql_reset;
  p_last := sql_last;
  p_by_name := sql_by_name;
  p_load_all := sql_load_all;
  p_create := sql_create;
  p_update := sql_update;
|}.

(** ** The table meets the contract *)
Context `{!ExternalsOk X, !ConnectionOk C}.

Definition encode_row (m : Migration) : Row :=
  mkRow (Z.of_nat (mig_revision m)) (mig_name m) (mig_datamodel_string m) (code (mig_status m))
    (Z.of_nat (mig_applied m)) (Z.of_nat (mig_rolled_back m)) (steps_to_json (mig_datamodel_steps m))
    (json_to_string (mig_database_migration m)) (errors_to_json (mig_errors m))
    (convert_datetime family (mig_started_at m)) (convert_datetime family <$> mig_finished_at m).

Lemma from_str_code' {F} st : @from_str F (code st) = Ok st.
Proof. by destruct st. Qed.
Lemma code_inj st st' : code st = code st' -> st = st'.
Proof. intros H. apply (f_equal (@from_str unit)) in H. rewrite !from_str_code' in H. by simplify_eq. Qed.

Lemma convert_date {F} fam d : engine_date d -> @convert_parameterized_date_value F (convert_datetime fam d) = Ok d.
Proof. intros Hd. destruct fam; simpl; [by apply engine_date_read|done|done]. Qed.

Lemma parse_encode {F} m : dates_ok m -> @parse_row F (encode_row m) = Ok m.
Proof.
  intros [Hd Hf]. unfold parse_row; simpl. rewrite (convert_date _ _ Hd).
  replace (match convert_datetime family <$> mig_finished_at m with
    | Some x => d ← convert_parameterized_date_value x; Ok (Some d) | None => Ok None end)
    with (@Ok F _ (mig_finished_at m)).
  2: { destruct (mig_finished_at m); simpl; [|done]. by rewrite convert_date by exact Hf. }
  simpl. rewrite steps_json. simpl. rewrite value_json. simpl. rewrite errors_json. simpl.
  rewrite from_str_code'. simpl. rewrite !Nat2Z.id. by destruct m.
Qed.
Lemma parse_rows_encode {F} ms : Forall dates_ok ms -> @parse_rows_new F (encode_row <$> ms) = Ok ms.
Proof.
  unfold parse_rows_new. induction 1 as [|m ms Hm _ IH]; [done|]. rewrite fmap_cons. cbn [map_m].
  by rewrite parse_encode, IH.
Qed.

Abbreviation increasing ms := (StronglySorted Nat.lt (mig_revision <$> ms)).

Lemma order_ascending ms : increasing ms -> order_by ascending (encode_row <$> ms) = encode_row <$> ms.
Proof.
  induction ms as [|m ms IH]; [done|]. intros Hs. apply StronglySorted_inv in Hs as [Hs Hm].
  rewrite fmap_cons. cbn [order_by]. rewrite IH by done. destruct ms as [|m' ms]; [done|].
  rewrite fmap_cons. cbn [sort_insert]. unfold ascending; simpl.
  inversion Hm. rewrite (proj2 (Z.leb_le _ _)); [done|]. lia.
Qed.
Lemma sort_insert_last m l :
  Forall (fun m' => mig_revision m < mig_revision m')%nat l ->
  sort_insert descending (encode_row m) (encode_row <$> l) = encode_row <$> (l ++ [m]).
Proof.
  induction 1 as [|m' l Hm _ IH]; [done|]. rewrite fmap_cons. cbn [sort_insert]. unfold descending at 1; simpl.
  rewrite (proj2 (Z.leb_gt _ _)) by lia. f_equal. exact IH.
Qed.
Lemma order_descending ms :
  increasing ms -> order_by descending (encode_row <$> ms) = encode_row <$> reverse ms.
Proof.
  induction ms as [|m ms IH]; [done|]. intros Hs. apply StronglySorted_inv in Hs as [Hs Hm].
  rewrite fmap_cons. cbn [order_by]. rewrite IH by done. rewrite reverse_cons. apply sort_insert_last.
  apply Forall_reverse. exact (proj1 (Forall_fmap mig_revision (Nat.lt (mig_revision m)) ms) Hm).
Qed.

Lemma increasing_filter (f : Migration -> bool) (ms : list Migration) : increasing ms -> increasing (iter_filter f ms).
Proof.
  induction ms as [|m ms IH]; [done|]. intros Hs. apply StronglySorted_inv in Hs as [Hs Hm]. simpl.
  destruct (f m); [|auto]. simpl. constructor; [auto|]. rewrite Forall_forall in Hm. apply Forall_forall.
  intros r (x & -> & [Hx _]%iter_filter_elem)%list_elem_of_fmap. apply Hm. by apply list_elem_of_fmap_2.
Qed.
Lemma filter_encode (f : Row -> bool) (g : Migration -> bool) ms :
  (forall m, f (encode_row m) = g m) ->
  iter_filter f (encode_row <$> ms) = encode_row <$> iter_filter g ms.
Proof.
  intros Hfg. induction ms as [|m ms IH]; [done|]. rewrite fmap_cons. cbn [List.filter].
  rewrite Hfg, IH. by destruct (g m).
Qed.
Lemma head_filter_reverse (g : Migration -> bool) ms :
  head (reverse (iter_filter g ms)) = iter_find g (reverse ms).
Proof.
  induction ms as [|m ms IH]; [done|]. simpl. rewrite reverse_cons, iter_find_app. rewrite <-IH. simpl.
  destruct (g m); simpl; [rewrite reverse_cons|]; by destruct (reverse (iter_filter g ms)).
Qed.

(** A query by a condition, newest first. *)
Lemma select_newest (f : Row -> bool) (g : Migration -> bool) ms :
  increasing ms -> Forall dates_ok ms -> (forall m, f (encode_row m) = g m) ->
  (x ← @parse_rows_new E (order_by descending (iter_filter f (encode_row <$> ms))); Ok (head x)) =
  Ok (iter_find g (reverse ms)).
Proof.
  intros Hs Hd Hfg. rewrite (filter_encode f g) by done. rewrite order_descending by (by apply increasing_filter).
  rewrite parse_rows_encode by (apply Forall_reverse; rewrite Forall_forall in *; intros m [Hm _]%iter_filter_elem; auto).
  simpl. by rewrite head_filter_reverse.
Qed.

Definition stored (s : S) (ms : list Migration) : Prop := exists t, get_table s = Some t /\
  rows t = encode_row <$> ms /\ increasing ms /\ Forall (fun m => mig_revision m < next_revision t)%nat ms /\ Forall dates_ok ms.
Definition sql_inv (s : S) : Prop := exists ms, stored s ms.
Definition sql_view (s : S) : list Migration :=
  match get_table s with
  | Some t => match @parse_rows_new unit (rows t) with Ok ms => ms | _ => [] end
  | None => []
  end.
Lemma stored_view s ms : stored s ms -> sql_view s = ms.
Proof. intros (t & Ht & Hr & _ & _ & Hd). unfold sql_view. by rewrite Ht, Hr, parse_rows_encode. Qed.

Lemma sql_create_stored m s ms : stored s ms -> engine_date (mig_started_at m) -> exists r s',
  sql_create m s = (Ok (with_revision r m), s') /\ stored s' (ms ++ [unfinished (with_revision r m)]).
Proof.
  intros (t & Ht & Hr & Hs & Hb & Hd) Hm. unfold sql_create. rewrite Ht. eexists _, _. split; [done|].
  eexists. split_and!; [by rewrite get_set_table|..]; simpl.
  - rewrite Hr, fmap_app. done.
  - rewrite fmap_app. clear Hr Hd. induction ms as [|x ms IH]; simpl; [repeat constructor|].
    apply StronglySorted_inv in Hs as [Hs Hx]. inversion Hb; subst. constructor; [auto|].
    apply Forall_app. split; [done|]. by repeat constructor.
  - apply Forall_app. split; [|by repeat constructor]. eapply Forall_impl; [exact Hb|]. simpl. lia.
  - apply Forall_app. split; [done|]. by repeat constructor.
Qed.

Lemma update_encode p m :
  (if (r_name (encode_row m) ≟ up_name p) && (r_revision (encode_row m) =? Z.of_nat (up_revision p))
   then update_row family p (encode_row m) else encode_row m) =
  encode_row (if is_target p m then updated p m else m).
Proof.
  unfold is_target. simpl.
  replace (Z.of_nat (mig_revision m) =? Z.of_nat (up_revision p)) with (bool_decide (mig_revision m = up_revision p)).
  - by destruct (_ && _).
  - case_bool_decide as Hx; symmetry; [apply Z.eqb_eq; lia|apply Z.eqb_neq; lia].
Qed.

Lemma sql_update_stored p s ms : stored s ms -> finished_ok (up_finished_at p) -> exists s',
  sql_update p s = (Ok tt, s') /\ stored s' (update_rows p ms).
Proof.
  intros (t & Ht & Hr & Hs & Hb & Hd) Hf. unfold sql_update, with_table. rewrite Ht. eexists. split; [done|].
  assert (Hrev : mig_revision <$> update_rows p ms = mig_revision <$> ms).
  { unfold update_rows. rewrite <-list_fmap_compose. apply list_fmap_ext. intros i m _. simpl.
    by destruct (is_target p m). }
  eexists. split_and!; [by rewrite get_set_table|..]; simpl.
  - rewrite Hr. unfold update_rows. rewrite <-!list_fmap_compose. apply list_fmap_ext.
    intros i m _. apply update_encode.
  - by rewrite Hrev.
  - apply (Forall_fmap mig_revision (fun r => r < next_revision t)%nat). rewrite Hrev. by apply Forall_fmap.
  - apply Forall_fmap. eapply Forall_impl; [exact Hd|]. intros m [Hm Hm']. simpl. by destruct (is_target p m).
Qed.

#[export] Instance sql_contract : PersistenceContract S E (MigrationPersistence0 := SqlMigrationPersistence).
Proof.
  refine {| p_inv := sql_inv; view := sql_view |}.
  - intros s [ms Hms]. rewrite (stored_view _ _ Hms). by destruct Hms as (t & _ & _ & ? & _).
  - intros s [ms Hms]. rewrite (stored_view _ _ Hms). by destruct Hms as (t & _ & _ & _ & _ & ?).
  - intros s [ms Hms]. rewrite (stored_view _ _ Hms). destruct Hms as (t & Ht & Hr & Hs & _ & Hd).
    simpl. unfold sql_load_all, with_table. rewrite Ht, Hr, order_ascending, parse_rows_encode by done. done.
  - intros s [ms Hms]. rewrite (stored_view _ _ Hms). destruct Hms as (t & Ht & Hr & Hs & _ & Hd).
    simpl. unfold sql_last, with_table. rewrite Ht. unfold lift, mbind, eff_bind, mret, eff_ret. rewrite Hr.
    pose proof (select_newest (fun row => r_status row ≟ code MigrationSuccess)
      (fun m => is_success (mig_status m)) ms Hs Hd) as Hq. unfold last_success. rewrite <-Hq; clear Hq.
    + by destruct (parse_rows_new _).
    + intros m. simpl. by destruct (mig_status m).
  - intros n s [ms Hms]. rewrite (stored_view _ _ Hms). destruct Hms as (t & Ht & Hr & Hs & _ & Hd).
    simpl. unfold sql_by_name, with_table. rewrite Ht. unfold lift, mbind, eff_bind, mret, eff_ret. rewrite Hr.
    pose proof (select_newest (fun row => r_name row ≟ n) (fun m => mig_name m ≟ n) ms Hs Hd) as Hq.
    unfold last_named. rewrite <-Hq; [by destruct (parse_rows_new _)|done].
  - intros m s [ms Hms] Hd. rewrite (stored_view _ _ Hms). destruct (sql_create_stored m s ms Hms Hd) as (r & s' & Hc & Hst).
    exists r, s'. split_and!; [done|by eexists|by apply stored_view].
  - intros p s [ms Hms] Hd. rewrite (stored_view _ _ Hms). destruct (sql_update_stored p s ms Hms Hd) as (s' & Hc & Hst).
    exists s'. split_and!; [done|by eexists|by apply stored_view].
Defined.
End persistence.
End sql.
Arguments Row : clear implicits.
Arguments Table : clear implicits.
Arguments DateValue : clear implicits.
Arguments Connection : clear implicits.

(** ** Using the contract *)
Section contract.
Context {DateTime Json Text S E : Type} {X : Externals DateTime Json Text}.
Context {MP : MigrationPersistence DateTime Json S E} {HC : PersistenceContract S E}.

(** The parameters address the migration they were taken from. *)
Definition addresses (p : MigrationUpdateParams DateTime) (m : Migration DateTime Json) : Prop :=
  up_name p = mig_name m /\ up_revision p = mig_revision m.

Lemma update_rows_at p l m r :
  StronglySorted Nat.lt (mig_revision <$> l ++ m :: r) -> addresses p m ->
  update_rows p (l ++ m :: r) = l ++ updated p m :: r.
Proof.
  intros Hs [Hn Hr]. rewrite fmap_app, fmap_cons in Hs.
  assert (Hkeep : forall x : Migration DateTime Json, mig_revision x <> mig_revision m ->
    (if is_target p x then updated p x else x) = x).
  { intros x Hx. unfold is_target. rewrite (bool_decide_eq_false_2 (mig_revision x = _)) by congruence.
    by rewrite andb_false_r. }
  unfold update_rows. rewrite fmap_app, fmap_cons. f_equal; [|f_equal].
  - rewrite <-(list_fmap_id l) at 2. apply list_fmap_ext. intros i x Hx%list_elem_of_lookup_2.
    apply Hkeep, Nat.lt_neq.
    eapply (StronglySorted_app_1_elem_of Nat.lt); [exact Hs|by apply list_elem_of_fmap_2|by constructor].
  - unfold is_target. by rewrite !bool_decide_eq_true_2.
  - rewrite <-(list_fmap_id r) at 2. apply list_fmap_ext. intros i x Hx%list_elem_of_lookup_2.
    apply Hkeep, not_eq_sym, Nat.lt_neq.
    apply StronglySorted_app_1_r, StronglySorted_inv in Hs as [_ Hs]. rewrite Forall_forall in Hs.
    apply Hs. by apply list_elem_of_fmap_2.
Qed.

(** Updating one migration of the history. *)
Lemma update_one p s l m r :
  p_inv s -> view s = l ++ m :: r -> addresses p m -> finished_ok (up_finished_at p) ->
  exists s', p_update p s = (Ok tt, s') /\ p_inv s' /\ view s' = l ++ updated p m :: r.
Proof.
  intros Hi Hv Ha Hf. destruct (update_ok p s Hi Hf) as (s' & Hu & Hi' & Hv'). exists s'. split_and!; [done|done|].
  rewrite Hv', Hv. apply update_rows_at; [|done]. rewrite <-Hv. by apply view_sorted.
Qed.

Lemma last_success_snoc (l : list (Migration DateTime Json)) m :
  last_success (l ++ [m]) = if is_success (mig_status m) then Some m else last_success l.
Proof. unfold last_success. by rewrite reverse_snoc. Qed.
Lemma last_named_snoc n (l : list (Migration DateTime Json)) m :
  last_named n (l ++ [m]) = if bool_decide (mig_name m = n) then Some m else last_named n l.
Proof. unfold last_named. by rewrite reverse_snoc. Qed.
End contract.

(** ** A state with the table, the user's database and a clock *)
Record World (DateTime Text Db : Type) : Type := mkWorld {
  w_table : option (Table DateTime Text);
  w_db : Db;
  w_clock : Z;
}.
Arguments mkWorld {DateTime Text Db} _ _ _.
Arguments w_table {DateTime Text Db} _.
Arguments w_db {DateTime Text Db} _.
Arguments w_clock {DateTime Text Db} _.

#[export] Instance world_connection {DateTime Text Db E} (fam : SqlFamily) (missing : E) :
    Connection DateTime Text (World DateTime Text Db) E := {|
  family := fam;
  get_table := w_table;
  set_table t w := mkWorld (Some t) (w_db w) (w_clock w);
  no_table := missing;
|}.
#[export] Instance world_connection_ok {DateTime Text Db E} fam (missing : E) :
  ConnectionOk (world_connection (DateTime := DateTime) (Text := Text) (Db := Db) fam missing).
Proof. done. Qed.

(** ** Concrete externals for examples: dates are milliseconds since 1970, and a
    text is what it stands for. *)
Inductive SampleText : Type :=
| TSteps (x : list MigrationStep) | TJson (x : string) | TErrors (x : list string).
#[export] Instance sample_externals : Externals N string SampleText := {|
  timestamp_millis d := Z.of_N d;
  from_timestamp secs nsecs :=
    if (0 <=? secs) && (0 <=? nsecs) && (nsecs <? 2000000000) then Some (Z.to_N (secs * 1000 + nsecs / 1000000)) else None;
  steps_to_json := TSteps;
  steps_from_json t := match t with TSteps x => Some x | _ => None end;
  json_to_string := TJson;
  json_from_str t := match t with TJson x => Some x | _ => None end;
  errors_to_json := TErrors;
  errors_from_json t := match t with TErrors x => Some x | _ => None end;
|}.
#[export] Instance sample_externals_ok : ExternalsOk sample_externals.
Proof.
  split; [done|done|done|..]; simpl.
  - intros secs nsecs d. destruct ((0 <=? secs) && (0 <=? nsecs)) eqn:Hp; [|done]. simpl.
    destruct (nsecs <? 2000000000); [|done]. intros [= <-]. apply andb_true_iff in Hp as [Hs Hn].
    apply Z.leb_le in Hs, Hn. pose proof (Z.div_pos nsecs 1000000 Hn ltac:(lia)). rewrite Z2N.id by lia. done.
  - intros secs nsecs Hn. rewrite (proj2 (Z.ltb_ge _ _)) by done. by rewrite andb_false_r.
  - intros secs nsecs Hs Hn. rewrite !(proj2 (Z.leb_le _ _)), (proj2 (Z.ltb_lt _ _)) by lia. by eexists.
Qed.

(** ** The theorems *)
(** every status is read back from the text that is stored for it, and a text
    is read as a status only if it is the text of that status. *)
Theorem status_code_roundtrip {E} st s :
  (@from_str E (code st) = Ok st) /\ (@from_str E s = Ok st <-> s = code st).
Proof.
  assert (H : @from_str E (code st) = Ok st) by (by destruct st). split; [done|]. split; [|by intros ->].
  unfold from_str. repeat (case_bool_decide; [by intros [= <-]|]). done.
Qed.

Section theorems.
Context {DateTime Json Text S E : Type} {X : Externals DateTime Json Text} {C : Connection DateTime Text S E}.

(** C9: a migration whose start is a date of the engine (milliseconds taken from
    the clock), stored by the SQL persistence in a table of such migrations, is
    found again: by its name it is returned, with the revision it was given, and
    the history is the old history followed by it. *)
Theorem sql_create_then_read (HX : ExternalsOk X) (HC : ConnectionOk C) s (m : Migration DateTime Json) :
  sql_inv (Json := Json) s -> engine_date (mig_started_at m) ->
  exists r s', sql_create m s = (Ok (with_revision r m), s') /\ sql_inv (Json := Json) s' /\
    sql_by_name (mig_name m) s' = (Ok (Some (unfinished (with_revision r m))), s') /\
    sql_load_all s' = (Ok (sql_view s ++ [unfinished (with_revision r m)]), s').
Proof.
  intros Hs Hd. pose proof (sql_contract (S := S)) as K.
  destruct (create_ok (PersistenceContract := sql_contract) m s Hs Hd) as (r & s' & Hc & Hi & Hv).
  exists r, s'. split_and!; [done|done| |].
  - pose proof (by_name_ok (PersistenceContract := sql_contract) (mig_name m) s' Hi) as Hn.
    rewrite Hv, last_named_snoc in Hn. simpl in Hn. by rewrite bool_decide_eq_true_2 in Hn.
  - pose proof (load_all_ok (PersistenceContract := sql_contract) s' Hi) as Hn. by rewrite Hv in Hn.
Qed.

(** the SQL persistence reports as last migration the newest one of the
    history whose status is MigrationSuccess. *)
Theorem sql_last_is_newest_success (HX : ExternalsOk X) (HC : ConnectionOk C) s :
  sql_inv (Json := Json) s -> sql_last s = (Ok (last_success (sql_view (Json := Json) s)), s).
Proof. apply (last_ok (PersistenceContract := sql_contract)). Qed.

(** C40: what SQLite gives back for the milliseconds that are stored for a date:
    a date the engine took from the clock is read back as it was, in every
    database; from 1970 on (for 190,000 years) every number of milliseconds is
    read as a date with these milliseconds; and a number of milliseconds before
    1970 that is not a full second panics, since the nanoseconds wrap around to a
    value chrono refuses. *)
Theorem timestamp_to_datetime_domain (HX : ExternalsOk X) :
  (forall fam d, engine_date d -> @convert_parameterized_date_value _ _ _ X E (convert_datetime fam d) = Ok d) /\
  (forall t, 0 <= t < 6000000000000000 ->
    exists d, @timestamp_to_datetime _ _ _ X E t = Ok d /\ timestamp_millis d = t) /\
  (forall t, t < 0 /\ Z.rem t 1000 <> 0 ->
    @timestamp_to_datetime _ _ _ X E t = Panic "invalid or out-of-range datetime").
Proof.
  split_and!.
  - intros fam d Hd. by apply convert_date.
  - intros t Ht. destruct (millis_parts t ltac:(lia)) as (Hm & Hr & Hq).
    destruct (from_timestamp_defined (Z.quot t 1000) (Z.rem t 1000 * 1000000)) as [d Hd]; [lia|lia|].
    assert (Hread : @timestamp_to_datetime _ _ _ X E t = Ok d) by (unfold timestamp_to_datetime; by rewrite Hm, Hd).
    exists d. split; [done|]. by eapply read_date_millis.
  - intros t [Hneg Hrem]. unfold timestamp_to_datetime. rewrite from_timestamp_refused; [done|].
    by apply millis_wrap.
Qed.
End theorems.

(** *** Instances of the theorems *)
Definition sample_migration (name : string) (st : MigrationStatus) : Migration N string :=
  mkMigration name 0 st 0 0 "model A {}" [SCreateModel (mkCreateModel "A")] "[]" [] 1580000000123%N None.
Definition sample_world (l : list (Migration N string)) : World N SampleText (list string) :=
  let rows := imap (fun i m => insert_row Sqlite (Datatypes.S i) m) l in
  mkWorld (Some (mkTable rows (Datatypes.S (length l)))) [] 1580000000456.
Abbreviation SampleConn := (world_connection (DateTime := N) (Text := SampleText) (Db := list string) Sqlite "no table").

Lemma sample_date : engine_date (X := sample_externals) 1580000000123%N.
Proof. by exists 1580000000123. Qed.
Lemma sample_inv : sql_inv (C := SampleConn) (sample_world [sample_migration "one" MigrationSuccess]).
Proof.
  exists [with_revision 1 (sample_migration "one" MigrationSuccess)]. eexists. split_and!; [done|done|..].
  - repeat constructor.
  - by repeat constructor.
  - repeat constructor. apply sample_date.
Qed.

Lemma sql_create_then_read_witness : exists r s',
  sql_create (C := SampleConn) (sample_migration "two" Pending)
    (sample_world [sample_migration "one" MigrationSuccess]) = (Ok (with_revision r (sample_migration "two" Pending)), s') /\
  sql_inv (C := SampleConn) (Json := string) s' /\
  sql_by_name (C := SampleConn) "two" s' =
    (Ok (Some (unfinished (with_revision r (sample_migration "two" Pending)))), s') /\
  sql_load_all (C := SampleConn) s' = (Ok (sql_view (C := SampleConn)
    (sample_world [sample_migration "one" MigrationSuccess]) ++
    [unfinished (with_revision r (sample_migration "two" Pending))]), s').
Proof.
  apply (sql_create_then_read (C := SampleConn) sample_externals_ok (world_connection_ok Sqlite "no table")
    (sample_world [sample_migration "one" MigrationSuccess]) (sample_migration "two" Pending)).
  - apply sample_inv.
  - exists 1580000000123. vm_compute. reflexivity.
Defined.

Lemma sql_last_is_newest_success_witness :
  sql_last (C := SampleConn) (sample_world [sample_migration "one" MigrationSuccess]) =
  (Ok (last_success (sql_view (C := SampleConn) (sample_world [sample_migration "one" MigrationSuccess]))),
   sample_world [sample_migration "one" MigrationSuccess]).
Proof.
  apply (sql_last_is_newest_success (C := SampleConn) sample_externals_ok (world_connection_ok Sqlite "no table")).
  apply sample_inv.
Defined.

Lemma timestamp_to_datetime_domain_witness :
  @timestamp_to_datetime _ _ _ sample_externals unit (-1) = Panic "invalid or out-of-range datetime" /\
  exists d, @timestamp_to_datetime _ _ _ sample_externals unit 1580000000123 = Ok d /\
    timestamp_millis (Externals := sample_externals) d = 1580000000123.
Proof.
  split.
  - apply (timestamp_to_datetime_domain (X := sample_externals) (E := unit) sample_externals_ok). split; [lia|done].
  - apply (timestamp_to_datetime_domain (X := sample_externals) (E := unit) sample_externals_ok). lia.
Defined.
