(* ===== verification/Applier.v ===== *)
(** * Applying and unapplying migrations (migration_applier.rs, sql_database_step_applier.rs)

    [MigrationApplierImpl] runs the steps of a database migration one by one and
    records the progress through a [MigrationPersistence]. The theorems are
    proved against the persistence contract, for any implementation of it.

    The [while] loops get fuel; a migration of [n] steps needs at most [n + 1]
    rounds, and the theorems hold for every amount of fuel above [n]. *)
From S2P Require Import Prelude Steps Effects Persistence.

(** ** Step appliers *)
Class DatabaseMigrationStepApplier (D S E Json : Type) : Type := {
  sa_apply_step : D -> nat -> eff S E bool;
  sa_unapply_step : D -> nat -> eff S E bool;
  sa_render_steps_pretty : D -> outcome E (list Json);
}.

Section applier.
Context {DateTime Json Text D S E : Type} {X : Externals DateTime Json Text}.
Context {MP : MigrationPersistence DateTime Json S E} {SA : DatabaseMigrationStepApplier D S E Json}.
(** [Utc::now().timestamp_millis()] and [format!("{:?}", err)]. *)
Context (utc_now_millis : S -> Z) (debug_fmt : E -> string).
Abbreviation Params := (MigrationUpdateParams DateTime).
Abbreviation Migration := (Migration DateTime Json).

Definition current_time : eff S E DateTime :=
  millis ← reads utc_now_millis; lift (timestamp_without_nanos millis).

(** [migration_updates] is borrowed mutably: its last value is returned also when
    the loop is left with an error. *)
Fixpoint go_forward (fuel : nat) (d : D) (step : nat) (u : Params) : eff S E (Params * (unit + E)) :=
  match fuel with
  | 0 => panic "out of fuel"
  | Datatypes.S fuel =>
      r ← attempt (sa_apply_step d step);
      match r with
      | inr err => mret (u, inr err)
      | inl false => mret (u, inl tt)
      | inl true =>
          let u := incr_applied u in
          r ← attempt (p_update u);
          match r with
          | inr err => mret (u, inr err)
          | inl _ => go_forward fuel d (Datatypes.S step) u
          end
      end
  end.

Fixpoint go_backward (fuel : nat) (d : D) (step : nat) (u : Params) : eff S E (Params * (unit + E)) :=
  match fuel with
  | 0 => panic "out of fuel"
  | Datatypes.S fuel =>
      r ← attempt (sa_unapply_step d step);
      match r with
      | inr err => mret (u, inr err)
      | inl false => mret (u, inl tt)
      | inl true =>
          let u := incr_rolled_back u in
          r ← attempt (p_update u);
          match r with
          | inr err => mret (u, inr err)
          | inl _ => go_backward fuel d (Datatypes.S step) u
          end
      end
  end.

Definition applier_apply (fuel : nat) (migration : Migration) (d : D) : eff S E unit :=
  if negb (mig_status migration ≟ Pending) then panic "assertion failed: `(left == right)`" else
  let u := set_status MigrationInProgress (update_params migration) in
  _ ← p_update u;
  ur ← go_forward fuel d 0 u;
  let '(u, r) := ur in
  match r with
  | inl _ =>
      now ← current_time;
      p_update (mark_as_finished now u)
  | inr err =>
      let u := set_errors [debug_fmt err] (set_status MigrationFailure u) in
      _ ← p_update u;
      throw err
  end.

Definition applier_unapply (fuel : nat) (migration : Migration) (d : D) : eff S E unit :=
  if negb (mig_status migration ≟ MigrationSuccess) then panic "assertion failed: `(left == right)`" else
  let u := set_status RollingBack (update_params migration) in
  _ ← p_update u;
  ur ← go_backward fuel d 0 u;
  let '(u, r) := ur in
  match r with
  | inl _ => p_update (set_status RollbackSuccess u)
  | inr err =>
      let u := set_errors [debug_fmt err] (set_status RollbackFailure u) in
      _ ← p_update u;
      throw err
  end.
End applier.

(** ** The SQL step applier

    [render] is [render_raw_sql] for the schemas of the migration; [query_raw]
    sends one statement to the database. *)
Section sql_step_applier.
Context {Step Db E : Type} (render : Step -> outcome E (list string)) (query_raw : string -> eff Db E unit).

Definition exec_step (step : Step) : eff Db E unit :=
  sqls ← lift (render step); eff_for query_raw sqls.

Definition apply_next_step (steps : list Step) (index : nat) : eff Db E bool :=
  if negb (bool_decide (is_Some (steps !! index))) then mret false else
  match steps !! index with
  | None => panic "index out of bounds"
  | Some step =>
      _ ← exec_step step;
      mret (bool_decide (is_Some (steps !! (index + 1)%nat)))
  end.
End sql_step_applier.

(** ** The part of the state the statements work on *)
Class DbState (S Db : Type) : Type := {
  get_db : S -> Db;
  set_db : Db -> S -> S;
}.
(** The user's database and the migration history are separate parts of the
    state. *)
Class DbFrame {DateTime Json Text S E Db} {X : Externals DateTime Json Text} {MP : MigrationPersistence DateTime Json S E}
    {HC : PersistenceContract S E} (DS : DbState S Db) : Prop := {
  get_set_db : forall d s, get_db (set_db d s) = d;
  set_db_inv : forall d s, p_inv s -> p_inv (set_db d s);
  set_db_view : forall d s, view (set_db d s) = view s;
  update_db : forall p s, get_db (p_update p s).2 = get_db s;
  create_db : forall m s, get_db (p_create m s).2 = get_db s;
}.

(** A computation on the database, in the whole state. *)
Definition on_db {S Db E A} `{!DbState S Db} (m : eff Db E A) : eff S E A := fun s =>
  let '(r, d) := m (get_db s) in (r, set_db d s).

(** A database migration as the step applier sees it: the steps each way, and
    the SQL of each. *)
Record StepPlan (Step E : Type) : Type := mkStepPlan {
  corrected_steps : list Step;
  rollback : list Step;
  render_forward : Step -> outcome E (list string);
  render_backward : Step -> outcome E (list string);
}.
Arguments corrected_steps {Step E} _.
Arguments rollback {Step E} _.
Arguments render_forward {Step E} _ _.
Arguments render_backward {Step E} _ _.

#[export] Instance SqlDatabaseStepApplier {Step S Db E Json} `{!DbState S Db}
    (query_raw : string -> eff Db E unit) (pretty : StepPlan Step E -> outcome E (list Json)) :
    DatabaseMigrationStepApplier (StepPlan Step E) S E Json := {|
  sa_apply_step d index := on_db (apply_next_step (render_forward d) query_raw (corrected_steps d) index);
  sa_unapply_step d index := on_db (apply_next_step (render_backward d) query_raw (rollback d) index);
  sa_render_steps_pretty := pretty;
|}.

(** ** The loops *)
Section loop.
Context {DateTime Json Text S Db E Step : Type} {X : Externals DateTime Json Text}.
Context {MP : MigrationPersistence DateTime Json S E} {HC : PersistenceContract S E}.
Context {DS : DbState S Db} {HF : DbFrame DS}.
Context (render : Step -> outcome E (list string)) (query_raw : string -> eff Db E unit) (steps : list Step).
Abbreviation Params := (MigrationUpdateParams DateTime).
Abbreviation Migration := (Migration DateTime Json).
(** The counter the loop increments. *)
Context (incr : Params -> Params).

Fixpoint step_loop (fuel step : nat) (u : Params) : eff S E (Params * (unit + E)) :=
  match fuel with
  | 0 => panic "out of fuel"
  | Datatypes.S fuel =>
      r ← attempt (on_db (apply_next_step render query_raw steps step));
      match r with
      | inr err => mret (u, inr err)
      | inl false => mret (u, inl tt)
      | inl true =>
          let u := incr u in
          r ← attempt (p_update u);
          match r with
          | inr err => mret (u, inr err)
          | inl _ => step_loop fuel (Datatypes.S step) u
          end
      end
  end.

(** The parameters describe this migration, and keep doing so. *)
Definition params_of (u : Params) (m : Migration) : Prop :=
  up_name u = mig_name m /\ up_new_name u = mig_name m /\ up_revision u = mig_revision m /\
  finished_ok (up_finished_at u).
Hypothesis incr_params : forall u m, params_of u m -> params_of (incr u) m.

Lemma update_params_at u u' s l m r :
  params_of u m -> params_of u' m -> p_inv s -> view s = l ++ updated u m :: r ->
  exists s', p_update u' s = (Ok tt, s') /\ p_inv s' /\ view s' = l ++ updated u' m :: r /\ get_db s' = get_db s.
Proof.
  intros (Hn & Hn' & Hr & _) (Hm & Hm' & Hmr & Hf) Hi Hv.
  destruct (update_one u' s l (updated u m) r Hi Hv) as (s' & Hu & Hi' & Hv').
  { split; simpl; congruence. }
  { done. }
  exists s'. split_and!; [done|done|done|]. pose proof (update_db (DS := DS) u' s) as Hd. by rewrite Hu in Hd.
Qed.

(** One round on a step that succeeds and is not the last. *)
Lemma loop_round fuel i u s l m r db st :
  steps !! i = Some st -> is_Some (steps !! Datatypes.S i) ->
  exec_step render query_raw st (get_db s) = (Ok tt, db) ->
  params_of u m -> p_inv s -> view s = l ++ updated u m :: r ->
  exists s', step_loop (Datatypes.S fuel) i u s = step_loop fuel (Datatypes.S i) (incr u) s' /\
    p_inv s' /\ view s' = l ++ updated (incr u) m :: r /\ get_db s' = db.
Proof.
  intros Hst Hmore Hex Hpar Hi Hv. cbn [step_loop].
  assert (Hstep : on_db (apply_next_step render query_raw steps i) s = (Ok true, set_db db s)).
  { unfold on_db, apply_next_step. rewrite Hst. simpl. rewrite (eff_bind_Ok _ _ _ _ _ Hex).
    unfold mret, eff_ret. rewrite Nat.add_1_r, bool_decide_eq_true_2 by done. done. }
  rewrite (eff_bind_Ok _ _ _ _ _ (attempt_Ok _ _ _ _ Hstep)). cbv zeta.
  destruct (update_params_at u (incr u) (set_db db s) l m r) as (s' & Hu & Hi' & Hv' & Hd);
    [done|by apply incr_params|by apply set_db_inv|by rewrite set_db_view|].
  exists s'. rewrite (eff_bind_Ok _ _ _ _ _ (attempt_Ok _ _ _ _ Hu)).
  split_and!; [done|done|done|]. by rewrite Hd, get_set_db.
Qed.

(** The first [k] steps succeed and there is a further one. *)
Lemma loop_prefix k : forall fuel i u s l m r db,
  (i + k < length steps)%nat ->
  eff_for (exec_step render query_raw) (take k (drop i steps)) (get_db s) = (Ok tt, db) ->
  params_of u m -> p_inv s -> view s = l ++ updated u m :: r ->
  exists s', step_loop (k + fuel) i u s = step_loop fuel (i + k) (Nat.iter k incr u) s' /\
    p_inv s' /\ view s' = l ++ updated (Nat.iter k incr u) m :: r /\ get_db s' = db /\
    params_of (Nat.iter k incr u) m.
Proof.
  induction k as [|k IH]; intros fuel i u s l m r db Hlen Hex Hpar Hi Hv.
  { simpl in Hex. injection Hex as <-. rewrite Nat.add_0_r. by exists s. }
  destruct (lookup_lt_is_Some_2 steps i) as [st Hst]; [lia|].
  rewrite (drop_S _ _ _ Hst) in Hex. cbn [take eff_for] in Hex.
  destruct (exec_step render query_raw st (get_db s)) as [[[]| |] db1] eqn:E1;
    unfold mbind, eff_bind in Hex; rewrite E1 in Hex; [|discriminate..].
  destruct (loop_round (k + fuel) i u s l m r db1 st) as (s1 & Hr1 & Hi1 & Hv1 & Hd1);
    [done|apply lookup_lt_is_Some_2; lia|done..|].
  rewrite <-Hd1 in Hex. destruct (IH fuel (Datatypes.S i) (incr u) s1 l m r db) as (s' & Hr & Hrest);
    [lia|done|by apply incr_params|done|done|].
  exists s'. simpl plus. rewrite Hr1, Hr, Nat.add_succ_comm.
  replace (Nat.iter k incr (incr u)) with (Nat.iter (Datatypes.S k) incr u) in * by
    (clear; induction k; simpl in *; congruence).
  done.
Qed.

(** All steps succeed. *)
Lemma loop_success fuel u s l m r db :
  (length steps < fuel)%nat ->
  eff_for (exec_step render query_raw) steps (get_db s) = (Ok tt, db) ->
  params_of u m -> p_inv s -> view s = l ++ updated u m :: r ->
  let u' := Nat.iter (pred (length steps)) incr u in
  exists s', step_loop fuel 0 u s = (Ok (u', inl tt), s') /\
    p_inv s' /\ view s' = l ++ updated u' m :: r /\ get_db s' = db /\ params_of u' m.
Proof.
  intros Hfuel Hex Hpar Hi Hv u'. destruct (length steps) as [|n] eqn:Hn.
  { apply nil_length_inv in Hn. rewrite Hn in Hex. destruct fuel as [|fuel]; [lia|].
    injection Hex as <-. exists (set_db (get_db s) s). cbn [step_loop].
    assert (Hstep : on_db (apply_next_step render query_raw steps 0) s = (Ok false, set_db (get_db s) s))
      by (unfold on_db, apply_next_step; by rewrite Hn).
    rewrite (eff_bind_Ok _ _ _ _ _ (attempt_Ok _ _ _ _ Hstep)).
    split_and!; [done|by apply set_db_inv|by rewrite set_db_view|apply get_set_db|done]. }
  destruct (lookup_lt_is_Some_2 steps n) as [st Hst]; [lia|].
  rewrite <-(take_drop_middle _ _ _ Hst), (drop_ge steps) in Hex by lia. rewrite eff_for_app in Hex.
  destruct (eff_for (exec_step render query_raw) (take n steps) (get_db s)) as [[[]| |] db1] eqn:E1; unfold mbind, eff_bind in Hex;
    rewrite E1 in Hex; [|discriminate..].
  cbn [eff_for] in Hex. unfold mbind, eff_bind in Hex.
  destruct (exec_step render query_raw st db1) as [[[]| |] db2] eqn:E2; [|discriminate..]. injection Hex as <-.
  destruct (loop_prefix n (fuel - n) 0 u s l m r db1) as (s1 & Hr & Hi1 & Hv1 & Hd1 & Hp1); [lia|done..|].
  replace (n + (fuel - n))%nat with fuel in Hr by lia. rewrite Hr. simpl plus.
  destruct (fuel - n)%nat as [|f] eqn:Hf; [lia|]. cbn [step_loop]. exists (set_db db2 s1).
  assert (Hstep : on_db (apply_next_step render query_raw steps n) s1 = (Ok false, set_db db2 s1)).
  { unfold on_db, apply_next_step. rewrite Hst. simpl. rewrite Hd1, (eff_bind_Ok _ _ _ _ _ E2).
    unfold mret, eff_ret. rewrite bool_decide_eq_false_2; [done|].
    rewrite lookup_ge_None_2 by lia. by intros []. }
  rewrite (eff_bind_Ok _ _ _ _ _ (attempt_Ok _ _ _ _ Hstep)).
  split_and!; [done|by apply set_db_inv|by rewrite set_db_view|apply get_set_db|done].
Qed.

(** Step [k] fails after the steps before it succeeded. *)
Lemma loop_failure fuel u s l m r k st db e db' :
  (length steps < fuel)%nat -> steps !! k = Some st ->
  eff_for (exec_step render query_raw) (take k steps) (get_db s) = (Ok tt, db) ->
  exec_step render query_raw st db = (Err e, db') ->
  params_of u m -> p_inv s -> view s = l ++ updated u m :: r ->
  let u' := Nat.iter k incr u in
  exists s', step_loop fuel 0 u s = (Ok (u', inr e), s') /\
    p_inv s' /\ view s' = l ++ updated u' m :: r /\ get_db s' = db' /\ params_of u' m.
Proof.
  intros Hfuel Hst Hex Hfail Hpar Hi Hv u'. pose proof (lookup_lt_Some _ _ _ Hst) as Hk.
  destruct (loop_prefix k (fuel - k) 0 u s l m r db) as (s1 & Hr & Hi1 & Hv1 & Hd1 & Hp1); [lia|done..|].
  replace (k + (fuel - k))%nat with fuel in Hr by lia. rewrite Hr. simpl plus.
  destruct (fuel - k)%nat as [|f] eqn:Hf; [lia|]. cbn [step_loop]. exists (set_db db' s1).
  assert (Hstep : on_db (apply_next_step render query_raw steps k) s1 = (Err e, set_db db' s1)).
  { unfold on_db, apply_next_step. rewrite Hst. simpl. rewrite Hd1. by rewrite (eff_bind_Err _ _ _ _ _ Hfail). }
  rewrite (eff_bind_Ok _ _ _ _ _ (attempt_Err _ _ _ _ Hstep)).
  split_and!; [done|by apply set_db_inv|by rewrite set_db_view|apply get_set_db|done].
Qed.
End loop.

(** ** What a run leaves behind *)
Section runs.
Context {DateTime Json Text S Db E Step : Type} {X : Externals DateTime Json Text}.
Context {MP : MigrationPersistence DateTime Json S E} {HC : PersistenceContract S E}.
Context {DS : DbState S Db} {HF : DbFrame DS}.
Context (query_raw : string -> eff Db E unit) (pretty : StepPlan Step E -> outcome E (list Json)).
Context (utc_now_millis : S -> Z) (debug_fmt : E -> string).
Abbreviation SqlSA := (SqlDatabaseStepApplier (S := S) query_raw pretty).
Abbreviation run_forward d := (eff_for (exec_step (render_forward d) query_raw) (corrected_steps d)).
Abbreviation run_backward d := (eff_for (exec_step (render_backward d) query_raw) (rollback d)).
Abbreviation Migration := (Migration DateTime Json).

Lemma go_forward_loop fuel d i u s :
  go_forward (SA := SqlSA) fuel d i u s = step_loop (render_forward d) query_raw (corrected_steps d) incr_applied fuel i u s.
Proof.
  revert i u s. induction fuel as [|fuel IH]; intros i u s; [done|]. cbn [go_forward step_loop]. simpl sa_apply_step.
  unfold mbind, eff_bind. destruct (attempt _ s) as [[[[|]|]| |] s1]; try done. cbv zeta.
  destruct (attempt _ s1) as [[[|]| |] s2]; [apply IH|done..].
Qed.
Lemma go_backward_loop fuel d i u s :
  go_backward (SA := SqlSA) fuel d i u s = step_loop (render_backward d) query_raw (rollback d) incr_rolled_back fuel i u s.
Proof.
  revert i u s. induction fuel as [|fuel IH]; intros i u s; [done|]. cbn [go_backward step_loop]. simpl sa_unapply_step.
  unfold mbind, eff_bind. destruct (attempt _ s) as [[[[|]|]| |] s1]; try done. cbv zeta.
  destruct (attempt _ s1) as [[[|]| |] s2]; [apply IH|done..].
Qed.

Lemma iter_applied n (u : MigrationUpdateParams DateTime) :
  Nat.iter n incr_applied u = mkMigrationUpdateParams (up_name u) (up_new_name u) (up_revision u) (up_status u)
    (n + up_applied u) (up_rolled_back u) (up_errors u) (up_finished_at u).
Proof. induction n as [|n IH]; [by destruct u|]. simpl Nat.iter. by rewrite IH. Qed.
Lemma iter_rolled_back n (u : MigrationUpdateParams DateTime) :
  Nat.iter n incr_rolled_back u = mkMigrationUpdateParams (up_name u) (up_new_name u) (up_revision u) (up_status u)
    (up_applied u) (n + up_rolled_back u) (up_errors u) (up_finished_at u).
Proof. induction n as [|n IH]; [by destruct u|]. simpl Nat.iter. by rewrite IH. Qed.

(** The migration [m] with the columns a run may change. *)
Definition after_run (m : Migration) st ap rb es fin : Migration :=
  mkMigration (mig_name m) (mig_revision m) st ap rb (mig_datamodel_string m) (mig_datamodel_steps m)
    (mig_database_migration m) es (mig_started_at m) fin.

(** The first write of a run: the new status. *)
Lemma start_run st (m : Migration) s l r :
  p_inv s -> view s = l ++ m :: r ->
  exists s', p_update (set_status st (update_params m)) s = (Ok tt, s') /\ p_inv s' /\
    view s' = l ++ updated (set_status st (update_params m)) m :: r /\ get_db s' = get_db s /\
    params_of (set_status st (update_params m)) m.
Proof.
  intros Hi Hv. assert (Hfin : finished_ok (mig_finished_at m)).
  { pose proof (view_dates s Hi) as Hd. rewrite Hv in Hd. by apply Forall_app in Hd as [_ [[_ ?] _]%Forall_cons]. }
  destruct (update_params_at (update_params m) (set_status st (update_params m)) s l m r)
    as (s' & H1 & H2 & H3 & H4); [done|done|done| |by exists s'].
  rewrite Hv. unfold updated, update_params; simpl. by destruct m.
Qed.

Lemma apply_run_success fuel (m : Migration) d s l r db :
  (forall s, exists now, @timestamp_without_nanos _ _ _ X E (utc_now_millis s) = Ok now) ->
  p_inv s -> view s = l ++ m :: r -> mig_status m = Pending -> (length (corrected_steps d) < fuel)%nat ->
  run_forward d (get_db s) = (Ok tt, db) ->
  exists s' now, applier_apply (SA := SqlSA) utc_now_millis debug_fmt fuel m d s = (Ok tt, s') /\ p_inv s' /\
    get_db s' = db /\ view s' = l ++ after_run m MigrationSuccess
      (pred (length (corrected_steps d)) + mig_applied m) (mig_rolled_back m) (mig_errors m) (Some now) :: r.
Proof.
  intros Hclock Hi Hv Hst Hfuel Hrun. unfold applier_apply. rewrite Hst, bool_decide_eq_true_2 by done. cbn [negb]. cbv zeta.
  destruct (start_run MigrationInProgress m s l r Hi Hv) as (s1 & Hu & Hi1 & Hv1 & Hd1 & Hp1).
  rewrite (eff_bind_Ok _ _ _ _ _ Hu). rewrite <-Hd1 in Hrun.
  destruct (loop_success (render_forward d) query_raw (corrected_steps d) incr_applied
    ltac:(by intros u x (? & ? & ? & ?)) fuel _ s1 l m r db Hfuel Hrun Hp1 Hi1 Hv1) as (s2 & Hl & Hi2 & Hv2 & Hd2 & Hp2).
  rewrite <-go_forward_loop in Hl. rewrite (eff_bind_Ok _ _ _ _ _ Hl). cbv beta iota.
  destruct (Hclock s2) as [now Hnow].
  assert (Hct : current_time (E := E) utc_now_millis s2 = (Ok now, s2)).
  { unfold current_time, reads, lift, mbind, eff_bind. by rewrite Hnow. }
  rewrite (eff_bind_Ok _ _ _ _ _ Hct).
  edestruct (update_params_at _ (mark_as_finished now (Nat.iter (pred (length (corrected_steps d))) incr_applied
    (set_status MigrationInProgress (update_params m)))) s2 l m r Hp2) as (s3 & Hu3 & Hi3 & Hv3 & Hd3); [|done|done|].
  { rewrite iter_applied. split_and!; [done..|]. exact (engine_date_intro _ _ Hnow). }
  exists s3, now. split_and!; [done|done|congruence|]. rewrite Hv3, iter_applied. done.
Qed.

Lemma apply_run_failure fuel (m : Migration) d s l r k st db e db' :
  p_inv s -> view s = l ++ m :: r -> mig_status m = Pending -> (length (corrected_steps d) < fuel)%nat ->
  corrected_steps d !! k = Some st ->
  eff_for (exec_step (render_forward d) query_raw) (take k (corrected_steps d)) (get_db s) = (Ok tt, db) ->
  exec_step (render_forward d) query_raw st db = (Err e, db') ->
  exists s', applier_apply (SA := SqlSA) utc_now_millis debug_fmt fuel m d s = (Err e, s') /\ p_inv s' /\
    get_db s' = db' /\ view s' = l ++ after_run m MigrationFailure
      (k + mig_applied m) (mig_rolled_back m) [debug_fmt e] (mig_finished_at m) :: r.
Proof.
  intros Hi Hv Hst Hfuel Hk Hrun Hfail. unfold applier_apply. rewrite Hst, bool_decide_eq_true_2 by done. cbn [negb]. cbv zeta.
  destruct (start_run MigrationInProgress m s l r Hi Hv) as (s1 & Hu & Hi1 & Hv1 & Hd1 & Hp1).
  rewrite (eff_bind_Ok _ _ _ _ _ Hu). rewrite <-Hd1 in Hrun.
  destruct (loop_failure (render_forward d) query_raw (corrected_steps d) incr_applied
    ltac:(by intros u x (? & ? & ? & ?)) fuel _ s1 l m r k st db e db' Hfuel Hk Hrun Hfail Hp1 Hi1 Hv1)
    as (s2 & Hl & Hi2 & Hv2 & Hd2 & Hp2).
  rewrite <-go_forward_loop in Hl. rewrite (eff_bind_Ok _ _ _ _ _ Hl). cbv beta iota.
  edestruct (update_params_at _ (set_errors [debug_fmt e] (set_status MigrationFailure (Nat.iter k incr_applied
    (set_status MigrationInProgress (update_params m))))) s2 l m r Hp2) as (s3 & Hu3 & Hi3 & Hv3 & Hd3); [|done|done|].
  { rewrite iter_applied in Hp2 |- *. exact Hp2. }
  exists s3. rewrite (eff_bind_Ok _ _ _ _ _ Hu3). split_and!; [done|done|congruence|]. rewrite Hv3, iter_applied. done.
Qed.
Lemma unapply_run_success fuel (m : Migration) d s l r db :
  p_inv s -> view s = l ++ m :: r -> mig_status m = MigrationSuccess -> (length (rollback d) < fuel)%nat ->
  run_backward d (get_db s) = (Ok tt, db) ->
  exists s', applier_unapply (SA := SqlSA) debug_fmt fuel m d s = (Ok tt, s') /\ p_inv s' /\
    get_db s' = db /\ view s' = l ++ after_run m RollbackSuccess (mig_applied m)
      (pred (length (rollback d)) + mig_rolled_back m) (mig_errors m) (mig_finished_at m) :: r.
Proof.
  intros Hi Hv Hst Hfuel Hrun. unfold applier_unapply. rewrite Hst, bool_decide_eq_true_2 by done. cbn [negb]. cbv zeta.
  destruct (start_run RollingBack m s l r Hi Hv) as (s1 & Hu & Hi1 & Hv1 & Hd1 & Hp1).
  rewrite (eff_bind_Ok _ _ _ _ _ Hu). rewrite <-Hd1 in Hrun.
  destruct (loop_success (render_backward d) query_raw (rollback d) incr_rolled_back
    ltac:(by intros u x (? & ? & ? & ?)) fuel _ s1 l m r db Hfuel Hrun Hp1 Hi1 Hv1) as (s2 & Hl & Hi2 & Hv2 & Hd2 & Hp2).
  rewrite <-go_backward_loop in Hl. rewrite (eff_bind_Ok _ _ _ _ _ Hl). cbv beta iota.
  edestruct (update_params_at _ (set_status RollbackSuccess (Nat.iter (pred (length (rollback d))) incr_rolled_back
    (set_status RollingBack (update_params m)))) s2 l m r Hp2) as (s3 & Hu3 & Hi3 & Hv3 & Hd3); [|done|done|].
  { rewrite iter_rolled_back in Hp2 |- *. exact Hp2. }
  exists s3. split_and!; [done|done|congruence|]. rewrite Hv3, iter_rolled_back. done.
Qed.

Lemma unapply_run_failure fuel (m : Migration) d s l r k st db e db' :
  p_inv s -> view s = l ++ m :: r -> mig_status m = MigrationSuccess -> (length (rollback d) < fuel)%nat ->
  rollback d !! k = Some st ->
  eff_for (exec_step (render_backward d) query_raw) (take k (rollback d)) (get_db s) = (Ok tt, db) ->
  exec_step (render_backward d) query_raw st db = (Err e, db') ->
  exists s', applier_unapply (SA := SqlSA) debug_fmt fuel m d s = (Err e, s') /\ p_inv s' /\
    get_db s' = db' /\ view s' = l ++ after_run m RollbackFailure
      (mig_applied m) (k + mig_rolled_back m) [debug_fmt e] (mig_finished_at m) :: r.
Proof.
  intros Hi Hv Hst Hfuel Hk Hrun Hfail. unfold applier_unapply. rewrite Hst, bool_decide_eq_true_2 by done. cbn [negb]. cbv zeta.
  destruct (start_run RollingBack m s l r Hi Hv) as (s1 & Hu & Hi1 & Hv1 & Hd1 & Hp1).
  rewrite (eff_bind_Ok _ _ _ _ _ Hu). rewrite <-Hd1 in Hrun.
  destruct (loop_failure (render_backward d) query_raw (rollback d) incr_rolled_back
    ltac:(by intros u x (? & ? & ? & ?)) fuel _ s1 l m r k st db e db' Hfuel Hk Hrun Hfail Hp1 Hi1 Hv1)
    as (s2 & Hl & Hi2 & Hv2 & Hd2 & Hp2).
  rewrite <-go_backward_loop in Hl. rewrite (eff_bind_Ok _ _ _ _ _ Hl). cbv beta iota.
  edestruct (update_params_at _ (set_errors [debug_fmt e] (set_status RollbackFailure (Nat.iter k incr_rolled_back
    (set_status RollingBack (update_params m))))) s2 l m r Hp2) as (s3 & Hu3 & Hi3 & Hv3 & Hd3); [|done|done|].
  { rewrite iter_rolled_back in Hp2 |- *. exact Hp2. }
  exists s3. rewrite (eff_bind_Ok _ _ _ _ _ Hu3). split_and!; [done|done|congruence|]. rewrite Hv3, iter_rolled_back. done.
Qed.
End runs.

(** ** The SQL connector's state *)
#[export] Instance world_db {DateTime Text Db} : DbState (World DateTime Text Db) Db := {|
  get_db := w_db;
  set_db d w := mkWorld (w_table w) d (w_clock w);
|}.
#[export] Instance world_frame {DateTime Json Text Db E} {X : Externals DateTime Json Text} (HX : ExternalsOk X)
    fam (missing : E) :
  DbFrame (HC := sql_contract (X := X) (Json := Json) (C := world_connection fam missing))
    (world_db (DateTime := DateTime) (Text := Text) (Db := Db)).
Proof.
  split; [done|done|done|..].
  - intros p w. simpl. unfold sql_update, with_table. simpl. by destruct (w_table w).
  - intros m w. simpl. unfold sql_create. simpl. by destruct (w_table w).
Qed.

(** ** The theorems *)
Section theorems.
Context {DateTime Json Text S Db E Step : Type} {X : Externals DateTime Json Text}.
Context {MP : MigrationPersistence DateTime Json S E} {HC : PersistenceContract S E} {DS : DbState S Db}.
Context (query_raw : string -> eff Db E unit) (pretty : StepPlan Step E -> outcome E (list Json)).
Context (utc_now_millis : S -> Z) (debug_fmt : E -> string).
Abbreviation SqlSA := (SqlDatabaseStepApplier (S := S) query_raw pretty).
Abbreviation Migration := (Migration DateTime Json).

(** C6: when the SQL of every step runs, applying a pending migration runs all
    steps once and in order, ends with Ok, and leaves in the history the
    migration with status MigrationSuccess, a finishing date, and a counter of
    applied steps that is one less than the number of steps; no other migration
    of the history changes. *)
Theorem apply_success (HF : DbFrame DS) fuel (m : Migration) (d : StepPlan Step E) s l r db :
  (forall s, exists now, @timestamp_without_nanos _ _ _ X E (utc_now_millis s) = Ok now) ->
  p_inv s -> view s = l ++ m :: r -> mig_status m = Pending -> (length (corrected_steps d) < fuel)%nat ->
  eff_for (exec_step (render_forward d) query_raw) (corrected_steps d) (get_db s) = (Ok tt, db) ->
  exists s' now, applier_apply (SA := SqlSA) utc_now_millis debug_fmt fuel m d s = (Ok tt, s') /\ p_inv s' /\
    get_db s' = db /\ view s' = l ++ after_run m MigrationSuccess
      (pred (length (corrected_steps d)) + mig_applied m) (mig_rolled_back m) (mig_errors m) (Some now) :: r.
Proof. apply apply_run_success. Qed.

(** C7: when the SQL of step number k fails after the k steps before it ran,
    applying a pending migration stops there: no later step runs, the error is
    returned, and the migration is left with status MigrationFailure, the text
    of the error, and k applied steps. *)
Theorem apply_failure (HF : DbFrame DS) fuel (m : Migration) (d : StepPlan Step E) s l r k st db e db' :
  p_inv s -> view s = l ++ m :: r -> mig_status m = Pending -> (length (corrected_steps d) < fuel)%nat ->
  corrected_steps d !! k = Some st ->
  eff_for (exec_step (render_forward d) query_raw) (take k (corrected_steps d)) (get_db s) = (Ok tt, db) ->
  exec_step (render_forward d) query_raw st db = (Err e, db') ->
  exists s', applier_apply (SA := SqlSA) utc_now_millis debug_fmt fuel m d s = (Err e, s') /\ p_inv s' /\
    get_db s' = db' /\ view s' = l ++ after_run m MigrationFailure
      (k + mig_applied m) (mig_rolled_back m) [debug_fmt e] (mig_finished_at m) :: r.
Proof. apply apply_run_failure. Qed.

(** when the SQL of every rollback step runs, unapplying a successful
    migration leaves it with status RollbackSuccess and one less than the number
    of rollback steps counted; it is then no longer a last successful migration. *)
Theorem unapply_success (HF : DbFrame DS) fuel (m : Migration) (d : StepPlan Step E) s l r db :
  p_inv s -> view s = l ++ m :: r -> mig_status m = MigrationSuccess -> (length (rollback d) < fuel)%nat ->
  eff_for (exec_step (render_backward d) query_raw) (rollback d) (get_db s) = (Ok tt, db) ->
  exists s', applier_unapply (SA := SqlSA) debug_fmt fuel m d s = (Ok tt, s') /\
    get_db s' = db /\ view s' = l ++ after_run m RollbackSuccess (mig_applied m)
      (pred (length (rollback d)) + mig_rolled_back m) (mig_errors m) (mig_finished_at m) :: r /\
    p_last s' = (Ok (last_success (l ++ r)), s').
Proof.
  intros Hi Hv Hst Hfuel Hrun.
  destruct (unapply_run_success (HF := HF) query_raw pretty debug_fmt fuel m d s l r db) as (s' & Ha & Hi' & Hd & Hv');
    [done..|]. exists s'. split_and!; [done|done|done|].
  rewrite (last_ok s' Hi'), Hv'. unfold last_success. do 2 f_equal. rewrite !reverse_app, reverse_cons.
  rewrite !iter_find_app. by destruct (iter_find _ (reverse r)).
Qed.

(** when the SQL of rollback step number k fails, unapplying stops there and
    leaves the migration with status RollbackFailure, the text of the error and
    k rolled back steps. *)
Theorem unapply_failure (HF : DbFrame DS) fuel (m : Migration) (d : StepPlan Step E) s l r k st db e db' :
  p_inv s -> view s = l ++ m :: r -> mig_status m = MigrationSuccess -> (length (rollback d) < fuel)%nat ->
  rollback d !! k = Some st ->
  eff_for (exec_step (render_backward d) query_raw) (take k (rollback d)) (get_db s) = (Ok tt, db) ->
  exec_step (render_backward d) query_raw st db = (Err e, db') ->
  exists s', applier_unapply (SA := SqlSA) debug_fmt fuel m d s = (Err e, s') /\ p_inv s' /\
    get_db s' = db' /\ view s' = l ++ after_run m RollbackFailure
      (mig_applied m) (k + mig_rolled_back m) [debug_fmt e] (mig_finished_at m) :: r.
Proof. apply unapply_run_failure. Qed.
End theorems.

(** *** Instances of the theorems *)
(** A database that records the statements it ran and rejects the text BAD. *)
Definition sample_query (sql : string) : eff (list string) string unit := fun log =>
  if sql ≟ "BAD" then (Err "syntax error", log) else (Ok tt, log ++ [sql]).
Definition sample_plan (fwd back : list string) : StepPlan string string :=
  mkStepPlan _ _ fwd back (fun st => Ok [st]) (fun st => Ok [st]).
Definition sample_pretty (d : StepPlan string string) : outcome string (list string) := Ok (corrected_steps d).
Abbreviation sample_contract := (sql_contract (X := sample_externals) (C := SampleConn)).
Definition sample_pending : Migration N string := with_revision 1 (sample_migration "one" Pending).
Definition sample_done : Migration N string := with_revision 1 (sample_migration "one" MigrationSuccess).

Definition sample_clock (w : World N SampleText (list string)) : Z := 1580000000456.

Lemma sample_pending_inv : sql_inv (C := SampleConn) (sample_world [sample_migration "one" Pending]).
Proof.
  exists [sample_pending]. eexists. split_and!; [done|done|..].
  - repeat constructor.
  - by repeat constructor.
  - repeat constructor. apply sample_date.
Qed.

Lemma apply_success_witness : exists s' now,
  applier_apply (MP := SqlMigrationPersistence (C := SampleConn))
    (SA := SqlDatabaseStepApplier sample_query sample_pretty) sample_clock id 10
    sample_pending (sample_plan ["a"; "b"; "c"] []) (sample_world [sample_migration "one" Pending]) = (Ok tt, s') /\
  p_inv (PersistenceContract := sample_contract) s' /\ get_db s' = ["a"; "b"; "c"] /\
  view (PersistenceContract := sample_contract) s' =
    [] ++ after_run sample_pending MigrationSuccess (pred 3 + 0) 0 [] (Some now) :: [].
Proof.
  apply (apply_success (HC := sample_contract) sample_query sample_pretty sample_clock id
    (world_frame sample_externals_ok Sqlite "no table")
    10 sample_pending (sample_plan ["a"; "b"; "c"] []) (sample_world [sample_migration "one" Pending]) [] [] ["a"; "b"; "c"]).
  - intros w. by eexists.
  - apply sample_pending_inv.
  - vm_compute. reflexivity.
  - reflexivity.
  - simpl. lia.
  - vm_compute. reflexivity.
Defined.

Lemma apply_failure_witness : exists s',
  applier_apply (MP := SqlMigrationPersistence (C := SampleConn))
    (SA := SqlDatabaseStepApplier sample_query sample_pretty) sample_clock id 10
    sample_pending (sample_plan ["a"; "BAD"; "c"] []) (sample_world [sample_migration "one" Pending]) =
    (Err "syntax error", s') /\
  p_inv (PersistenceContract := sample_contract) s' /\ get_db s' = ["a"] /\
  view (PersistenceContract := sample_contract) s' =
    [] ++ after_run sample_pending MigrationFailure (1 + 0) 0 ["syntax error"] None :: [].
Proof.
  apply (apply_failure (HC := sample_contract) sample_query sample_pretty sample_clock id
    (world_frame sample_externals_ok Sqlite "no table") 10 sample_pending (sample_plan ["a"; "BAD"; "c"] [])
    (sample_world [sample_migration "one" Pending]) [] [] 1 "BAD" ["a"] "syntax error" ["a"]).
  - apply sample_pending_inv.
  - vm_compute. reflexivity.
  - reflexivity.
  - simpl. lia.
  - reflexivity.
  - vm_compute. reflexivity.
  - vm_compute. reflexivity.
Defined.

Lemma unapply_success_witness : exists s',
  applier_unapply (MP := SqlMigrationPersistence (C := SampleConn))
    (SA := SqlDatabaseStepApplier sample_query sample_pretty) id 10
    sample_done (sample_plan [] ["a"; "b"]) (sample_world [sample_migration "one" MigrationSuccess]) = (Ok tt, s') /\
  get_db s' = ["a"; "b"] /\
  view (PersistenceContract := sample_contract) s' = [] ++ after_run sample_done RollbackSuccess 0 (pred 2 + 0) [] None :: [] /\
  p_last (MigrationPersistence := SqlMigrationPersistence (C := SampleConn)) s' = (Ok (last_success ([] ++ [])), s').
Proof.
  apply (unapply_success (HC := sample_contract) sample_query sample_pretty id
    (world_frame sample_externals_ok Sqlite "no table") 10 sample_done (sample_plan [] ["a"; "b"])
    (sample_world [sample_migration "one" MigrationSuccess]) [] [] ["a"; "b"]).
  - apply sample_inv.
  - vm_compute. reflexivity.
  - reflexivity.
  - simpl. lia.
  - vm_compute. reflexivity.
Defined.

Lemma unapply_failure_witness : exists s',
  applier_unapply (MP := SqlMigrationPersistence (C := SampleConn))
    (SA := SqlDatabaseStepApplier sample_query sample_pretty) id 10
    sample_done (sample_plan [] ["BAD"; "b"]) (sample_world [sample_migration "one" MigrationSuccess]) =
    (Err "syntax error", s') /\
  p_inv (PersistenceContract := sample_contract) s' /\ get_db s' = [] /\
  view (PersistenceContract := sample_contract) s' =
    [] ++ after_run sample_done RollbackFailure 0 (0 + 0) ["syntax error"] None :: [].
Proof.
  apply (unapply_failure (HC := sample_contract) sample_query sample_pretty id
    (world_frame sample_externals_ok Sqlite "no table") 10 sample_done (sample_plan [] ["BAD"; "b"])
    (sample_world [sample_migration "one" MigrationSuccess]) [] [] 0 "BAD" [] "syntax error" []).
  - apply sample_inv.
  - vm_compute. reflexivity.
  - reflexivity.
  - simpl. lia.
  - reflexivity.
  - vm_compute. reflexivity.
  - vm_compute. reflexivity.
Defined.
