(* ===== verification/Commands.v ===== *)
(** * The commands of the migration engine (core/src/commands)

    Each command's [execute], over a connector given by its operations and the
    schema library (parsing, lifting, rendering) given as parameters. *)
From S2P Require Import Prelude Ast Steps Calculator Differ Effects Persistence Applier.

(** ** Interfaces *)
(** The [datamodel] crate: texts, ASTs and lifted datamodels. *)
Class DatamodelLib (Datamodel DmlErr : Type) : Type := {
  parse_expr : string -> option Expression;
  parse_schema_ast : string -> SchemaAst + DmlErr;
  parse_datamodel : string -> Datamodel + DmlErr;
  lift_ast : SchemaAst -> Datamodel + DmlErr;
  render_schema_ast_to_string : SchemaAst -> string + DmlErr;
  render_datamodel_to_string : Datamodel -> option string;
  Datamodel_empty : Datamodel;
  (** [ErrorCollection::to_pretty_string] for a file name and its text. *)
  pretty_error : string -> string -> DmlErr -> string;
}.

(** [MigrationConnector], beside its persistence and its step applier. *)
Class MigrationConnector (D Datamodel Json S E : Type) : Type := {
  c_initialize : eff S E unit;
  c_reset : eff S E unit;
  c_check_database_version_compatibility : Datamodel -> list MigrationError;
  c_infer : Datamodel -> Datamodel -> list MigrationStep -> eff S E D;
  c_infer_from_datamodels : Datamodel -> Datamodel -> list MigrationStep -> eff S E D;
  c_check : D -> eff S E DestructiveChangeDiagnostics;
  c_check_unapply : D -> eff S E DestructiveChangeDiagnostics;
  c_serialize : D -> Json;
  c_deserialize_database_migration : Json -> option D;
}.

Inductive CommandError (DmlErr E : Type) : Type :=
| DatabaseMigrationFormatChanged
| ReceivedBadDatamodel (msg : string)
| ProducedBadDatamodel (e : DmlErr)
| InvalidPersistedDatamodel (e : DmlErr) (schema : string)
| ConnectorError (e : E)
| Generic (e : CalculatorError)
| Input (msg : string).
Arguments DatabaseMigrationFormatChanged {DmlErr E}.
Arguments ReceivedBadDatamodel {DmlErr E} _.
Arguments ProducedBadDatamodel {DmlErr E} _.
Arguments InvalidPersistedDatamodel {DmlErr E} _ _.
Arguments ConnectorError {DmlErr E} _.
Arguments Generic {DmlErr E} _.
Arguments Input {DmlErr E} _.

(** ** Inputs and outputs *)
Record ApplyMigrationInput : Type := mkApplyMigrationInput {
  ami_migration_id : string; ami_steps : list MigrationStep; ami_force : option bool }.
Record AppliedMigration : Type := mkAppliedMigration {
  am_migration_id : string; am_datamodel_steps : list MigrationStep }.
Record InferMigrationStepsInput : Type := mkInferMigrationStepsInput {
  imi_migration_id : string; imi_datamodel : string;
  imi_assume_to_be_applied : option (list MigrationStep);
  imi_assume_applied_migrations : option (list AppliedMigration) }.
Record UnapplyMigrationInput : Type := mkUnapplyMigrationInput { umi_force : option bool }.
Record UnapplyMigrationOutput : Type := mkUnapplyMigrationOutput {
  umo_rolled_back : string; umo_active : option string; umo_errors : list string;
  umo_warnings : list MigrationWarning }.
Record CalculateDatabaseStepsInput : Type := mkCalculateDatabaseStepsInput {
  cdi_steps_to_apply : list MigrationStep; cdi_assume_to_be_applied : option (list MigrationStep) }.
Record MigrationStepsResultOutput (Json : Type) : Type := mkMigrationStepsResultOutput {
  mso_datamodel : string; mso_datamodel_steps : list MigrationStep; mso_database_steps : list Json;
  mso_errors : list MigrationError; mso_warnings : list MigrationWarning; mso_general_errors : list string;
  mso_unexecutable_migrations : list UnexecutableMigration }.
Arguments mkMigrationStepsResultOutput {Json} _ _ _ _ _ _ _.
Record ListMigrationsOutput (Json : Type) : Type := mkListMigrationsOutput {
  lmo_id : string; lmo_datamodel_steps : list MigrationStep; lmo_database_steps : list Json;
  lmo_status : MigrationStatus; lmo_datamodel : string }.
Arguments mkListMigrationsOutput {Json} _ _ _ _ _.
Record MigrationProgressOutput (DateTime : Type) : Type := mkMigrationProgressOutput {
  mpo_status : MigrationStatus; mpo_steps : nat; mpo_applied : nat; mpo_rolled_back : nat;
  mpo_errors : list string; mpo_started_at : DateTime; mpo_finished_at : option DateTime }.
Arguments mkMigrationProgressOutput {DateTime} _ _ _ _ _ _ _.

(** [applicable_steps]: the assumed steps, without the steps to apply at their end. *)
Definition applicable_steps (input : CalculateDatabaseStepsInput) : list MigrationStep :=
  match cdi_assume_to_be_applied input with
  | Some all_steps =>
      let steps_to_apply := cdi_steps_to_apply input in
      if (length all_steps <=? length steps_to_apply)%nat then all_steps else
      let start_idx := (length all_steps - length steps_to_apply)%nat in
      if drop start_idx all_steps ≟ steps_to_apply then take start_idx all_steps else all_steps
  | None => []
  end.

Definition assume_to_be_applied (input : InferMigrationStepsInput) : list MigrationStep :=
  match imi_assume_to_be_applied input with
  | Some steps => steps
  | None =>
      match imi_assume_applied_migrations input with
      | Some migrations => migrations ≫= am_datamodel_steps
      | None => []
      end
  end.

Section commands.
Context {DateTime Json Text D S E Datamodel DmlErr : Type} {X : Externals DateTime Json Text}.
Context {MP : MigrationPersistence DateTime Json S E} {SA : DatabaseMigrationStepApplier D S E Json}.
Context {DL : DatamodelLib Datamodel DmlErr} {MC : MigrationConnector D Datamodel Json S E}.
Context (utc_now_millis : S -> Z) (debug_fmt : E -> string) (empty_json : Json) (generic_error : string -> E)
  (fuel : nat).
Abbreviation Migration := (Migration DateTime Json).
Abbreviation CommandResult := (eff S (CommandError DmlErr E)).

(** The conversions of [?] and [map_err]. *)
Definition conn {A} (m : eff S E A) : CommandResult A := eff_map_err ConnectorError m.
Definition calc {A} (m : outcome CalculatorError A) : CommandResult A := lift (map_err Generic m).
Definition or_err {A} (f : DmlErr -> CommandError DmlErr E) (x : A + DmlErr) : CommandResult A :=
  match x with inl a => mret a | inr e => throw (f e) end.

(** A persisted datamodel, or the default when there is no migration. *)
Definition persisted {A} (parse : string -> A + DmlErr) (empty : A) (m : option Migration) : CommandResult A :=
  match m with
  | Some m => or_err (fun e => InvalidPersistedDatamodel e (mig_datamodel_string m)) (parse (mig_datamodel_string m))
  | None => mret empty
  end.

(** ** applyMigration *)
(** The three assignments to the fields of the new migration. *)
Definition with_contents (steps : list MigrationStep) (database_migration : Json) (datamodel_string : string)
    (m : Migration) : Migration :=
  mkMigration (mig_name m) (mig_revision m) (mig_status m) (mig_applied m) (mig_rolled_back m) datamodel_string
    steps database_migration (mig_errors m) (mig_started_at m) (mig_finished_at m).

Definition handle_migration (input : ApplyMigrationInput) (current_datamodel : Datamodel)
    (next_schema_ast : SchemaAst) : CommandResult (MigrationStepsResultOutput Json) :=
  next_datamodel ← or_err ProducedBadDatamodel (lift_ast next_schema_ast);
  database_migration ← conn (c_infer current_datamodel next_datamodel (ami_steps input));
  database_steps_json_pretty ← conn (lift (sa_render_steps_pretty database_migration));
  started_at ← conn (current_time utc_now_millis);
  datamodel_string ← or_err ProducedBadDatamodel (render_schema_ast_to_string next_schema_ast);
  let migration := with_contents (ami_steps input) (c_serialize database_migration) datamodel_string
    (Migration_new empty_json started_at (ami_migration_id input)) in
  diagnostics ← conn (c_check database_migration);
  _ ← (if negb (has_warnings diagnostics) || default false (ami_force input) then
         saved_migration ← conn (p_create migration);
         conn (applier_apply utc_now_millis debug_fmt fuel saved_migration database_migration)
       else mret tt);
  datamodel ← lift (unwrap "called `Result::unwrap()` on an `Err` value" (render_datamodel_to_string next_datamodel));
  mret (mkMigrationStepsResultOutput datamodel (ami_steps input) database_steps_json_pretty
    (diag_errors diagnostics) (diag_warnings diagnostics) [] (diag_unexecutable diagnostics)).

Definition handle_transition_out_of_watch_mode (input : ApplyMigrationInput) :
    CommandResult (MigrationStepsResultOutput Json) :=
  last_migration ← conn p_last;
  current_datamodel ← persisted parse_datamodel Datamodel_empty last_migration;
  last_non_watch ← conn last_non_watch_migration;
  last_non_watch_datamodel ← persisted parse_schema_ast SchemaAst_empty last_non_watch;
  next_datamodel_ast ← calc (calculator_infer parse_expr last_non_watch_datamodel (ami_steps input));
  handle_migration input current_datamodel next_datamodel_ast.

Definition handle_normal_migration (input : ApplyMigrationInput) :
    CommandResult (MigrationStepsResultOutput Json) :=
  already ← conn (migration_is_already_applied (ami_migration_id input));
  if already : bool then
    throw (Input ("Invariant violation: the migration with id `" +:+ ami_migration_id input +:+
      "` has already been applied."))
  else
    last_migration ← conn p_last;
    current_datamodel_ast ← persisted parse_schema_ast SchemaAst_empty last_migration;
    current_datamodel ← persisted parse_datamodel Datamodel_empty last_migration;
    next_datamodel_ast ← calc (calculator_infer parse_expr current_datamodel_ast (ami_steps input));
    handle_migration input current_datamodel next_datamodel_ast.

Definition apply_migration (input : ApplyMigrationInput) : CommandResult (MigrationStepsResultOutput Json) :=
  last ← conn p_last;
  match last with
  | Some last_migration =>
      if is_watch_migration last_migration && negb (is_watch_name (ami_migration_id input))
      then handle_transition_out_of_watch_mode input
      else handle_normal_migration input
  | None => handle_normal_migration input
  end.

(** ** inferMigrationSteps *)
Fixpoint validate_migrations (ms : list AppliedMigration) : CommandResult unit :=
  match ms with
  | [] => mret tt
  | m :: ms =>
      already ← conn (migration_is_already_applied (am_migration_id m));
      if already : bool then throw (ConnectorError (generic_error ("Input is invalid. Migration " +:+ am_migration_id m +:+ " is already applied.")))
      else validate_migrations ms
  end.
Definition validate_assumed_migrations_are_not_applied (input : InferMigrationStepsInput) : CommandResult unit :=
  match imi_assume_applied_migrations input with
  | Some migrations => validate_migrations migrations
  | None => mret tt
  end.

(** The steps inferrer calls [diff]; [diff] has no error value. *)
Definition infer_datamodel_steps (previous next : SchemaAst) : CommandResult (list MigrationStep) :=
  lift (match diff previous next with Ok steps => Ok steps | Err e => match e with end | Panic p => Panic p end).

Definition infer_migration_steps (input : InferMigrationStepsInput) :
    CommandResult (MigrationStepsResultOutput Json) :=
  let assumed := assume_to_be_applied input in
  _ ← validate_assumed_migrations_are_not_applied input;
  last_migration ← conn p_last;
  current_datamodel_ast ← persisted parse_schema_ast SchemaAst_empty last_migration;
  assumed_datamodel_ast ← calc (calculator_infer parse_expr current_datamodel_ast assumed);
  assumed_datamodel ← or_err ProducedBadDatamodel (lift_ast assumed_datamodel_ast);
  next_datamodel ← or_err (fun e => ReceivedBadDatamodel (pretty_error "schema.prisma" (imi_datamodel input) e))
    (parse_datamodel (imi_datamodel input));
  let version_check_errors := c_check_database_version_compatibility next_datamodel in
  next_datamodel_ast ← or_err (fun e => Input (pretty_error "" (imi_datamodel input) e))
    (parse_schema_ast (imi_datamodel input));
  model_migration_steps ← infer_datamodel_steps assumed_datamodel_ast next_datamodel_ast;
  database_migration ← conn (c_infer assumed_datamodel next_datamodel model_migration_steps);
  diagnostics ← conn (c_check database_migration);
  returned ←
    (if negb (is_watch_name (imi_migration_id input)) &&
        match last_migration with Some m => is_watch_migration m | None => false end then
       applied ← conn last_non_watch_applied_migration;
       last_non_watch_datamodel_ast ← persisted parse_schema_ast SchemaAst_empty applied;
       last_non_watch_datamodel ← persisted parse_datamodel Datamodel_empty applied;
       datamodel_steps ← infer_datamodel_steps last_non_watch_datamodel_ast next_datamodel_ast;
       full_database_migration ←
         conn (c_infer_from_datamodels last_non_watch_datamodel next_datamodel datamodel_steps);
       mret (datamodel_steps, full_database_migration)
     else mret (model_migration_steps, database_migration));
  database_steps ← conn (lift (sa_render_steps_pretty returned.2));
  datamodel ← lift (unwrap "called `Result::unwrap()` on an `Err` value" (render_datamodel_to_string next_datamodel));
  mret (mkMigrationStepsResultOutput datamodel returned.1 database_steps version_check_errors
    (diag_warnings diagnostics) [] (diag_unexecutable diagnostics)).

(** ** unapplyMigration *)
Definition unapply_migration (input : UnapplyMigrationInput) : CommandResult UnapplyMigrationOutput :=
  last ← conn p_last;
  match last with
  | None => mret (mkUnapplyMigrationOutput "not-applicable" None
      ["There is no last migration that can be rolled back."] [])
  | Some migration_to_rollback =>
      match c_deserialize_database_migration (mig_database_migration migration_to_rollback) with
      | None => throw DatabaseMigrationFormatChanged
      | Some database_migration =>
          warnings ← conn (c_check_unapply database_migration);
          _ ← match has_warnings warnings, umi_force input with
              | false, _ | true, None | true, Some true =>
                  conn (applier_unapply debug_fmt fuel migration_to_rollback database_migration)
              | true, Some false => mret tt
              end;
          new_active_migration ← conn p_last;
          mret (mkUnapplyMigrationOutput (mig_name migration_to_rollback) (mig_name <$> new_active_migration) []
            (diag_warnings warnings))
      end
  end.

(** ** calculateDatabaseSteps and calculateDatamodel *)
Definition calculate_database_steps (input : CalculateDatabaseStepsInput) :
    CommandResult (MigrationStepsResultOutput Json) :=
  let steps_to_apply := cdi_steps_to_apply input in
  let assumed := applicable_steps input in
  assumed_datamodel_ast ← calc (calculator_infer parse_expr SchemaAst_empty assumed);
  assumed_datamodel ← or_err ProducedBadDatamodel (lift_ast assumed_datamodel_ast);
  next_datamodel_ast ← calc (calculator_infer parse_expr assumed_datamodel_ast steps_to_apply);
  next_datamodel ← or_err ProducedBadDatamodel (lift_ast next_datamodel_ast);
  database_migration ← conn (c_infer assumed_datamodel next_datamodel steps_to_apply);
  diagnostics ← conn (c_check database_migration);
  database_steps_json ← conn (lift (sa_render_steps_pretty database_migration));
  datamodel ← match render_schema_ast_to_string next_datamodel_ast with
              | inl t => mret t
              | inr _ => panic "called `Result::unwrap()` on an `Err` value"
              end;
  mret (mkMigrationStepsResultOutput datamodel steps_to_apply database_steps_json []
    (diag_warnings diagnostics) [] (diag_unexecutable diagnostics)).

Definition calculate_datamodel (steps : list MigrationStep) : CommandResult string :=
  datamodel ← calc (calculator_infer parse_expr SchemaAst_empty steps);
  match render_schema_ast_to_string datamodel with
  | inl t => mret t
  | inr _ => panic "called `Result::unwrap()` on an `Err` value"
  end.

(** ** listMigrations, migrationProgress and reset *)
Definition convert_migration_to_list_migration_steps_output (migration : Migration) :
    CommandResult (ListMigrationsOutput Json) :=
  match c_deserialize_database_migration (mig_database_migration migration) with
  | None => throw DatabaseMigrationFormatChanged
  | Some database_migration =>
      database_steps_json ← conn (lift (sa_render_steps_pretty database_migration));
      mret (mkListMigrationsOutput (mig_name migration) (mig_datamodel_steps migration) database_steps_json
        (mig_status migration) (mig_datamodel_string migration))
  end.
(** [map(..).collect::<Result<Vec<_>, _>>()] *)
Fixpoint collect_outputs (ms : list Migration) : CommandResult (list (ListMigrationsOutput Json)) :=
  match ms with
  | [] => mret []
  | m :: ms =>
      o ← convert_migration_to_list_migration_steps_output m;
      os ← collect_outputs ms;
      mret (o :: os)
  end.
Definition list_migrations : CommandResult (list (ListMigrationsOutput Json)) :=
  all ← conn p_load_all; collect_outputs all.

Definition migration_progress (migration_id : string) : CommandResult (MigrationProgressOutput DateTime) :=
  found ← conn (p_by_name migration_id);
  match found with
  | None => throw (Input ("Could not load migration from database. Migration name was: " +:+ migration_id))
  | Some migration =>
      mret (mkMigrationProgressOutput (mig_status migration) (length (mig_datamodel_steps migration))
        (mig_applied migration) (mig_rolled_back migration) (mig_errors migration)
        (mig_started_at migration) (mig_finished_at migration))
  end.

Definition engine_init : CommandResult unit := conn c_initialize.
Definition engine_reset : CommandResult unit := conn c_reset.
Definition reset : CommandResult unit := _ ← engine_reset; engine_init.
End commands.

(** ** Computations that leave the state alone *)
Section read_only.
Context {DateTime Json Text D S E Datamodel DmlErr : Type} {X : Externals DateTime Json Text}.
Context {MP : MigrationPersistence DateTime Json S E} {HC : PersistenceContract S E}.
Context {SA : DatabaseMigrationStepApplier D S E Json}.
Context {DL : DatamodelLib Datamodel DmlErr} {MC : MigrationConnector D Datamodel Json S E}.

(** From a well-formed history, the state is the same afterwards, whatever the
    outcome. *)
Definition keeps {F A} (m : eff S F A) : Prop := forall s, p_inv s -> (m s).2 = s.

Lemma keeps_bind {F A B} (m : eff S F A) (f : A -> eff S F B) :
  keeps m -> (forall a, keeps (f a)) -> keeps (m ≫= f).
Proof.
  intros Hm Hf s Hs. specialize (Hm s Hs). unfold mbind, eff_bind.
  destruct (m s) as [[a| |] s1]; simpl in Hm; subst s1; [by apply Hf|done|done].
Qed.
Lemma keeps_ret {F A} (a : A) : keeps (mret a : eff S F A).
Proof. by intros s _. Qed.
Lemma keeps_lift {F A} (m : outcome F A) : keeps (lift m).
Proof. by intros s _. Qed.
Lemma keeps_throw {F A} (e : F) : keeps (throw (A := A) e).
Proof. by intros s _. Qed.
Lemma keeps_panic {F A} p : keeps (panic (E := F) (A := A) p).
Proof. by intros s _. Qed.
Lemma keeps_conn {A} (m : eff S E A) : keeps m -> keeps (conn (DmlErr := DmlErr) m).
Proof. intros Hm s Hs. specialize (Hm s Hs). unfold conn, eff_map_err. by destruct (m s). Qed.
Lemma keeps_calc {A} (m : outcome CalculatorError A) : keeps (calc (DmlErr := DmlErr) (S := S) (E := E) m).
Proof. by intros s _. Qed.
Lemma keeps_or_err {A} f (x : A + DmlErr) : keeps (or_err (S := S) (E := E) f x).
Proof. by destruct x. Qed.
Lemma keeps_persisted {A} parse (empty : A) (m : option (Migration DateTime Json)) : keeps (persisted (DmlErr := DmlErr) (S := S) (E := E) parse empty m).
Proof. destruct m as [m|]; [apply keeps_or_err|apply keeps_ret]. Qed.
Lemma keeps_load_all : keeps p_load_all.
Proof. intros s Hs. by rewrite load_all_ok. Qed.
Lemma keeps_last : keeps p_last.
Proof. intros s Hs. by rewrite last_ok. Qed.
Lemma keeps_by_name n : keeps (p_by_name n).
Proof. intros s Hs. by rewrite by_name_ok. Qed.

(** The connector's inference and its checks only query the database. *)
Class ReadOnlyConnector : Prop := {
  infer_keeps : forall a b st, keeps (c_infer a b st);
  infer_from_datamodels_keeps : forall a b st, keeps (c_infer_from_datamodels a b st);
  check_keeps : forall d, keeps (c_check d);
}.
End read_only.
Arguments ReadOnlyConnector {DateTime Json Text D S E Datamodel X MP HC} MC.

#[export] Hint Resolve keeps_ret keeps_lift keeps_throw keeps_panic keeps_conn keeps_calc keeps_or_err
  keeps_persisted keeps_load_all keeps_last keeps_by_name infer_keeps infer_from_datamodels_keeps check_keeps : prisma.
#[export] Hint Extern 5 (keeps (_ ≫= _)) => (apply keeps_bind; [|intros]) : prisma.
(** Walk through a computation made of computations that keep the state. *)
Ltac solve_keeps :=
  repeat first
    [ progress intros
    | apply keeps_bind
    | match goal with |- keeps (match ?x with _ => _ end) => destruct x end
    | solve [eauto with prisma] ].

Section theorems.
Context {DateTime Json Text D S E Datamodel DmlErr : Type} {X : Externals DateTime Json Text}.
Context {MP : MigrationPersistence DateTime Json S E} {HC : PersistenceContract S E}.
Context {SA : DatabaseMigrationStepApplier D S E Json}.
Context {DL : DatamodelLib Datamodel DmlErr} {MC : MigrationConnector D Datamodel Json S E}.
Context (utc_now_millis : S -> Z) (debug_fmt : E -> string) (empty_json : Json) (generic_error : string -> E)
  (fuel : nat).

Lemma keeps_already id : keeps (migration_is_already_applied id).
Proof. unfold migration_is_already_applied. solve_keeps. Qed.
Lemma keeps_applied : keeps last_non_watch_applied_migration.
Proof. unfold last_non_watch_applied_migration. solve_keeps. Qed.
Lemma keeps_non_watch : keeps last_non_watch_migration.
Proof. unfold last_non_watch_migration. solve_keeps. Qed.
Lemma keeps_validate ms : keeps (validate_migrations (DmlErr := DmlErr) generic_error ms).
Proof.
  induction ms as [|m ms IH]; simpl; [apply keeps_ret|]. apply keeps_bind; [apply keeps_conn, keeps_already|].
  intros []; [apply keeps_throw|exact IH].
Qed.
Lemma keeps_collect (ms : list (Migration DateTime Json)) : keeps (collect_outputs (DmlErr := DmlErr) ms).
Proof.
  induction ms as [|m ms IH]; simpl; [apply keeps_ret|].
  unfold convert_migration_to_list_migration_steps_output. solve_keeps.
Qed.
Hint Resolve keeps_already keeps_applied keeps_non_watch keeps_validate keeps_collect : prisma.
Lemma keeps_infer_steps a b : keeps (infer_datamodel_steps (S := S) (E := E) (DmlErr := DmlErr) a b).
Proof. by intros s _. Qed.
Hint Resolve keeps_infer_steps : prisma.

Lemma query_commands_keep (RO : ReadOnlyConnector MC) i c n ds :
  keeps (infer_migration_steps (DmlErr := DmlErr) generic_error i) /\
  keeps (calculate_database_steps (DmlErr := DmlErr) c) /\
  keeps (calculate_datamodel (DmlErr := DmlErr) (S := S) (E := E) ds) /\
  keeps (list_migrations (DmlErr := DmlErr)) /\
  keeps (migration_progress (DmlErr := DmlErr) n).
Proof.
  split_and!.
  - unfold infer_migration_steps, validate_assumed_migrations_are_not_applied. solve_keeps.
  - unfold calculate_database_steps. solve_keeps.
  - unfold calculate_datamodel. solve_keeps.
  - unfold list_migrations. solve_keeps.
  - unfold migration_progress. solve_keeps.
Qed.

(** inferring steps, calculating database steps or a datamodel, listing
    migrations and asking for progress never change the database or the
    migration history, whether they succeed, fail or panic. *)
Theorem query_commands_read_only (RO : ReadOnlyConnector MC) s i c n ds :
  p_inv s ->
  (infer_migration_steps (DmlErr := DmlErr) generic_error i s).2 = s /\
  (calculate_database_steps (DmlErr := DmlErr) c s).2 = s /\
  (calculate_datamodel (DmlErr := DmlErr) (E := E) ds s).2 = s /\
  (list_migrations (DmlErr := DmlErr) s).2 = s /\
  (migration_progress (DmlErr := DmlErr) n s).2 = s.
Proof.
  intros Hs. destruct (query_commands_keep RO i c n ds) as (H1 & H2 & H3 & H4 & H5).
  split_and!; [by apply H1|by apply H2|by apply H3|by apply H4|by apply H5].
Qed.

Abbreviation handle := (handle_migration (DmlErr := DmlErr) utc_now_millis debug_fmt empty_json fuel).
Abbreviation apply_cmd := (apply_migration (DmlErr := DmlErr) utc_now_millis debug_fmt empty_json fuel).

(** The migration whose text the steps start from, and the datamodel of a
    migration (the empty one when there is none). *)
Definition steps_base (input : ApplyMigrationInput) (l : list (Migration DateTime Json)) : option (Migration DateTime Json) :=
  match last_success l with
  | Some m =>
      if is_watch_migration m && negb (is_watch_name (ami_migration_id input))
      then iter_find (fun m => negb (is_watch_migration m)) (reverse l) else Some m
  | None => None
  end.
Definition parsed_or {A} (parse : string -> A + DmlErr) (empty : A) (m : option (Migration DateTime Json)) : A + DmlErr :=
  match m with Some m => parse (mig_datamodel_string m) | None => inl empty end.
(** [plan] is the database migration this call infers: from the datamodel of the
    last successful migration to the one the steps lead to. *)
Definition plan_at_hand (input : ApplyMigrationInput) (s : S) (plan : D) : Prop := exists cur base next ndm,
  parsed_or parse_datamodel Datamodel_empty (last_success (view s)) = inl cur /\
  parsed_or parse_schema_ast SchemaAst_empty (steps_base input (view s)) = inl base /\
  calculator_infer parse_expr base (ami_steps input) = Ok next /\ lift_ast next = inl ndm /\
  c_infer cur ndm (ami_steps input) s = (Ok plan, s).

Lemma persisted_parsed {A} (parse : string -> A + DmlErr) empty m a s :
  parsed_or parse empty m = inl a -> persisted (S := S) (E := E) parse empty m s = (Ok a, s).
Proof. destruct m as [m|]; simpl; [by intros ->|]. by intros [= ->]. Qed.

(** Nothing happens to the state, and an answer lists the warnings. *)
Definition blocked (s : S) (dg : DestructiveChangeDiagnostics)
    (r : outcome (CommandError DmlErr E) (MigrationStepsResultOutput Json) * S) : Prop :=
  r.2 = s /\ forall res, r.1 = Ok res -> mso_warnings _ res = diag_warnings dg.

Lemma handle_blocked input cur next s ndm plan dg :
  ami_force input <> Some true -> lift_ast next = inl ndm -> c_infer cur ndm (ami_steps input) s = (Ok plan, s) ->
  c_check plan s = (Ok dg, s) -> has_warnings dg = true -> blocked s dg (handle input cur next s).
Proof.
  intros Hforce Hl Hinf Hcheck Hw.
  assert (Hgo : negb (has_warnings dg) || default false (ami_force input) = false)
    by (rewrite Hw; by destruct (ami_force input) as [[|]|]).
  unfold handle_migration, or_err, conn, eff_map_err, current_time, reads, lift, mbind, eff_bind, mret, eff_ret.
  rewrite Hl. simpl. rewrite Hinf. simpl.
  destruct (sa_render_steps_pretty plan); simpl; [|done..].
  destruct (timestamp_without_nanos _); simpl; [|done..].
  destruct (render_schema_ast_to_string next); simpl; [|done]. rewrite Hcheck. simpl. rewrite Hgo. simpl.
  destruct (unwrap _ _); simpl; [|done..]. split; [done|]. by intros res [= <-].
Qed.

(** C11: when the checker warns about the database migration inferred in this
    call (from the datamodel of the last successful migration to the one the
    given steps lead to) and the force flag is absent or false, applyMigration
    changes neither the database nor the history, and an answer lists the
    warnings. *)
Theorem apply_blocked_by_warnings input s plan dg :
  p_inv s -> ami_force input <> Some true -> plan_at_hand input s plan ->
  c_check plan s = (Ok dg, s) -> has_warnings dg = true ->
  (apply_cmd input s).2 = s /\ forall res, (apply_cmd input s).1 = Ok res -> mso_warnings _ res = diag_warnings dg.
Proof.
  intros Hs Hforce (cur & base & next & ndm & Hcur & Hbase & Hnext & Hl & Hinf) Hcheck Hw.
  assert (Hh : blocked s dg (handle input cur next s)) by (by eapply handle_blocked).
  assert (Hlast : conn (DmlErr := DmlErr) p_last s = (Ok (last_success (view s)), s)).
  { unfold conn, eff_map_err. by rewrite last_ok. }
  assert (Hnormal : steps_base input (view s) = last_success (view s) ->
    blocked s dg (handle_normal_migration (DmlErr := DmlErr) utc_now_millis debug_fmt empty_json fuel input s)).
  { intros Hb. rewrite Hb in Hbase.
    unfold handle_normal_migration, migration_is_already_applied, mbind, eff_bind. unfold conn at 1, eff_map_err.
    rewrite load_all_ok by done. unfold mret, eff_ret. simpl. destruct (existsb _ _); [done|].
    rewrite Hlast, (persisted_parsed _ _ _ _ _ Hbase), (persisted_parsed _ _ _ _ _ Hcur).
    unfold calc, lift. rewrite Hnext. exact Hh. }
  change (blocked s dg (apply_cmd input s)). unfold apply_migration. unfold mbind at 1, eff_bind at 1. rewrite Hlast.
  unfold steps_base in Hbase, Hnormal. destruct (last_success (view s)) as [m|] eqn:Hm; [|by apply Hnormal].
  destruct (_ && _); [|by apply Hnormal].
  unfold handle_transition_out_of_watch_mode, mbind, eff_bind. rewrite Hlast, (persisted_parsed _ _ _ _ _ Hcur).
  unfold last_non_watch_migration. unfold conn at 1, eff_map_err, mbind, eff_bind. rewrite load_all_ok by done.
  unfold mret, eff_ret. simpl. rewrite (persisted_parsed _ _ _ _ _ Hbase). unfold calc, lift. rewrite Hnext. exact Hh.
Qed.

(** a migration whose id already names a successful migration is refused,
    and nothing changes. *)
Theorem apply_refuses_applied input s :
  p_inv s -> is_watch_name (ami_migration_id input) = true \/
    (forall m, last_success (view s) = Some m -> is_watch_migration m = false) ->
  (exists m, m ∈ view s /\ mig_status m = MigrationSuccess /\ mig_name m = ami_migration_id input) ->
  apply_cmd input s = (Err (Input ("Invariant violation: the migration with id `" +:+ ami_migration_id input +:+
    "` has already been applied.")), s).
Proof.
  intros Hs Hmode (m & Hm & Hst & Hn).
  assert (Hnormal : handle_normal_migration (DmlErr := DmlErr) utc_now_millis debug_fmt empty_json fuel input s =
    (Err (Input ("Invariant violation: the migration with id `" +:+ ami_migration_id input +:+
      "` has already been applied.")), s)).
  { unfold handle_normal_migration, migration_is_already_applied, conn, eff_map_err, mbind, eff_bind.
    rewrite load_all_ok by done. unfold mret, eff_ret. simpl.
    replace (existsb _ (view s)) with true; [done|]. symmetry. apply existsb_exists. exists m.
    split; [by apply list_elem_of_In|]. by rewrite Hst, Hn, !bool_decide_eq_true_2. }
  unfold apply_migration, conn at 1, eff_map_err. unfold mbind at 1, eff_bind at 1.
  rewrite last_ok by done. simpl. destruct (last_success (view s)) as [lm|] eqn:Hlast; [|done].
  destruct Hmode as [->|Hmode]; [by rewrite andb_false_r|]. by rewrite (Hmode _ eq_refl).
Qed.

(** with a warning, applyMigration needs an explicit force flag, while
    unapplyMigration goes ahead unless the flag is explicitly false. *)
Theorem unapply_forces_by_default s m d dg :
  p_inv s -> last_success (view s) = Some m ->
  c_deserialize_database_migration (mig_database_migration m) = Some d ->
  c_check_unapply d s = (Ok dg, s) -> has_warnings dg = true ->
  (unapply_migration (DmlErr := DmlErr) debug_fmt fuel (mkUnapplyMigrationInput (Some false)) s).2 = s /\
  unapply_migration (DmlErr := DmlErr) debug_fmt fuel (mkUnapplyMigrationInput None) s =
  unapply_migration (DmlErr := DmlErr) debug_fmt fuel (mkUnapplyMigrationInput (Some true)) s /\
  (forall e s', applier_unapply debug_fmt fuel m d s = (Err e, s') ->
    unapply_migration (DmlErr := DmlErr) debug_fmt fuel (mkUnapplyMigrationInput None) s = (Err (ConnectorError e), s')).
Proof.
  intros Hs Hlast Hd Hc Hw. unfold unapply_migration, conn, eff_map_err, mbind, eff_bind.
  rewrite !last_ok by done. simpl. rewrite Hlast, Hd, Hc. simpl. rewrite Hw. split_and!.
  - unfold mret, eff_ret. by rewrite last_ok.
  - done.
  - intros e s' He. by rewrite He.
Qed.
End theorems.

(** ** Steps that were sent twice *)
(** applicable_steps removes the steps to apply from the end of the assumed
    steps when they are a proper suffix of them, and returns the assumed steps
    unchanged when they are not; assumed steps equal to the steps to apply are
    therefore kept. *)
Theorem applicable_steps_spec (before steps assumed : list MigrationStep) :
  (before <> [] -> applicable_steps (mkCalculateDatabaseStepsInput steps (Some (before ++ steps))) = before) /\
  ((forall a, a <> [] -> assumed <> a ++ steps) ->
    applicable_steps (mkCalculateDatabaseStepsInput steps (Some assumed)) = assumed) /\
  applicable_steps (mkCalculateDatabaseStepsInput steps (Some steps)) = steps /\
  applicable_steps (mkCalculateDatabaseStepsInput steps None) = [].
Proof.
  unfold applicable_steps; simpl. split_and!.
  - intros Hb. rewrite length_app. destruct before as [|b before]; [done|].
    rewrite (proj2 (Nat.leb_gt _ _)) by (simpl; lia). rewrite Nat.add_sub.
    rewrite drop_app_length, bool_decide_eq_true_2 by done. by rewrite take_app_length.
  - intros Hn. destruct (Nat.leb_spec (length assumed) (length steps)) as [Hle|Hlt]; [done|].
    case_bool_decide as Hd; [|done]. exfalso.
    apply (Hn (take (length assumed - length steps) assumed)).
    + intros H0%(f_equal length). rewrite length_take in H0. simpl in H0. lia.
    + rewrite <-(take_drop (length assumed - length steps) assumed) at 1. by rewrite Hd.
  - by rewrite Nat.leb_refl.
  - done.
Qed.

(** ** Applying a migration end to end *)
Section end_to_end.
Context {DateTime Json Text S Db E Step Datamodel DmlErr : Type} {X : Externals DateTime Json Text}.
Context {MP : MigrationPersistence DateTime Json S E} {HC : PersistenceContract S E} {DS : DbState S Db}.
Context {DL : DatamodelLib Datamodel DmlErr} {MC : MigrationConnector (StepPlan Step E) Datamodel Json S E}.
Context (query_raw : string -> eff Db E unit) (pretty : StepPlan Step E -> outcome E (list Json)).
Context (utc_now_millis : S -> Z) (debug_fmt : E -> string) (empty_json : Json) (fuel : nat).
Abbreviation SqlSA := (SqlDatabaseStepApplier (S := S) query_raw pretty).
Abbreviation handle := (handle_migration (SA := SqlSA) (DmlErr := DmlErr) utc_now_millis debug_fmt empty_json fuel).

(** The migration a successful run of the command adds to the history. *)
Definition recorded (input : ApplyMigrationInput) (text : string) (plan : StepPlan Step E) (started : DateTime)
    (r : nat) (st : MigrationStatus) (ap : nat) (es : list string) (fin : option DateTime) : Migration DateTime Json :=
  mkMigration (ami_migration_id input) r st ap 0 text (ami_steps input) (c_serialize plan) es started fin.

(** Everything before the migration is saved. *)
Lemma handle_until_create input cur next s ndm plan steps_json dg text :
  (forall s, exists now, @timestamp_without_nanos _ _ _ X E (utc_now_millis s) = Ok now) ->
  lift_ast next = inl ndm -> c_infer cur ndm (ami_steps input) s = (Ok plan, s) -> pretty plan = Ok steps_json ->
  render_schema_ast_to_string next = inl text -> c_check plan s = (Ok dg, s) ->
  negb (has_warnings dg) || default false (ami_force input) = true -> p_inv s ->
  exists started r s1, p_inv s1 /\ view s1 = view s ++ [recorded input text plan started r Pending 0 [] None] /\
    get_db s1 = (get_db (p_create (recorded input text plan started 0 Pending 0 [] None) s).2 : Db) /\
    handle input cur next s =
    (_ ← conn (applier_apply (SA := SqlSA) utc_now_millis debug_fmt fuel
       (recorded input text plan started r Pending 0 [] None) plan);
     datamodel ← lift (unwrap "called `Result::unwrap()` on an `Err` value" (render_datamodel_to_string ndm));
     mret (mkMigrationStepsResultOutput datamodel (ami_steps input) steps_json
       (diag_errors dg) (diag_warnings dg) [] (diag_unexecutable dg))) s1.
Proof.
  intros Hclock Hl Hinf Hpr Htext Hcheck Hgo Hs. destruct (Hclock s) as [started Hst].
  destruct (create_ok (recorded input text plan started 0 Pending 0 [] None) s Hs (engine_date_intro _ _ Hst)) as (r & s1 & Hcr & Hi & Hv).
  exists started, r, s1. split_and!; [done|done|by rewrite Hcr|].
  unfold handle_migration, or_err, conn, eff_map_err, current_time, reads, lift, mbind, eff_bind, mret, eff_ret.
  simpl. rewrite Hl, Hinf. simpl. rewrite Hpr. simpl. rewrite Hst. simpl. rewrite Htext, Hcheck. simpl. rewrite Hgo.
  unfold with_contents, Migration_new; simpl. unfold recorded in Hcr. by rewrite Hcr.
Qed.

(** C5: when the inferred SQL runs, applying a migration without warnings or with
    force ends with Ok, runs the SQL of all steps, appends one migration to the
    history, and that migration, which holds the text of the new schema, is from
    then on the last successful one. *)
Theorem apply_migration_records (HF : DbFrame DS) input cur next s ndm plan steps_json dg text out db :
  (forall s, exists now, @timestamp_without_nanos _ _ _ X E (utc_now_millis s) = Ok now) ->
  lift_ast next = inl ndm -> c_infer cur ndm (ami_steps input) s = (Ok plan, s) -> pretty plan = Ok steps_json ->
  render_schema_ast_to_string next = inl text -> c_check plan s = (Ok dg, s) ->
  negb (has_warnings dg) || default false (ami_force input) = true -> p_inv s ->
  render_datamodel_to_string ndm = Some out -> length (corrected_steps plan) < fuel ->
  eff_for (exec_step (render_forward plan) query_raw) (corrected_steps plan) (get_db s) = (Ok tt, db) ->
  exists s' res m, handle input cur next s = (Ok res, s') /\ get_db s' = db /\ view s' = view s ++ [m] /\
    mig_name m = ami_migration_id input /\ mig_datamodel_string m = text /\ mig_status m = MigrationSuccess /\
    p_last s' = (Ok (Some m), s').
Proof.
  intros Hclock Hl Hinf Hpr Htext Hcheck Hgo Hs Hout Hfuel Hrun.
  destruct (handle_until_create input cur next s ndm plan steps_json dg text) as
    (started & r & s1 & Hi1 & Hv1 & Hd1 & Hh); [done..|]. rewrite create_db in Hd1. rewrite <-Hd1 in Hrun.
  destruct (apply_run_success query_raw pretty utc_now_millis debug_fmt fuel _ plan s1 (view s) [] db Hclock
    Hi1 Hv1 eq_refl Hfuel Hrun) as (s2 & now & Ha & Hi2 & Hd2 & Hv2).
  rewrite Hh. unfold conn, eff_map_err, mbind, eff_bind, lift. rewrite Ha. simpl. rewrite Hout. simpl.
  eexists _, _, _. split_and!; [done|done|exact Hv2|done|done|done|].
  rewrite last_ok by done. rewrite Hv2. by rewrite last_success_snoc.
Qed.

(** C8: when the SQL of a step fails, the command returns the connector error,
    the history gets one migration with status MigrationFailure and the text of
    the error, and the last successful migration is the one from before. *)
Theorem failed_apply_keeps_last (HF : DbFrame DS) input cur next s ndm plan steps_json dg text k st db e db' :
  (forall s, exists now, @timestamp_without_nanos _ _ _ X E (utc_now_millis s) = Ok now) ->
  lift_ast next = inl ndm -> c_infer cur ndm (ami_steps input) s = (Ok plan, s) -> pretty plan = Ok steps_json ->
  render_schema_ast_to_string next = inl text -> c_check plan s = (Ok dg, s) ->
  negb (has_warnings dg) || default false (ami_force input) = true -> p_inv s ->
  length (corrected_steps plan) < fuel -> corrected_steps plan !! k = Some st ->
  eff_for (exec_step (render_forward plan) query_raw) (take k (corrected_steps plan)) (get_db s) = (Ok tt, db) ->
  exec_step (render_forward plan) query_raw st db = (Err e, db') ->
  exists s' m, handle input cur next s = (Err (ConnectorError e), s') /\ get_db s' = db' /\
    view s' = view s ++ [m] /\ mig_status m = MigrationFailure /\ mig_errors m = [debug_fmt e] /\
    mig_applied m = k /\ p_last s' = (Ok (last_success (view s)), s').
Proof.
  intros Hclock Hl Hinf Hpr Htext Hcheck Hgo Hs Hfuel Hk Hrun Hfail.
  destruct (handle_until_create input cur next s ndm plan steps_json dg text) as
    (started & r & s1 & Hi1 & Hv1 & Hd1 & Hh); [done..|]. rewrite create_db in Hd1. rewrite <-Hd1 in Hrun.
  destruct (apply_run_failure query_raw pretty utc_now_millis debug_fmt fuel _ plan s1 (view s) [] k st db e db'
    Hi1 Hv1 eq_refl Hfuel Hk Hrun Hfail) as (s2 & Ha & Hi2 & Hd2 & Hv2).
  rewrite Hh. unfold conn, eff_map_err, mbind, eff_bind, lift. rewrite Ha. simpl.
  eexists _, _. split_and!; [done|done|exact Hv2|done|done|simpl; lia|].
  rewrite last_ok by done. rewrite Hv2. by rewrite last_success_snoc.
Qed.
End end_to_end.

(** ** Leaving watch mode *)
Section watch.
Context {DateTime Json Text S E : Type} {X : Externals DateTime Json Text}.
Context {MP : MigrationPersistence DateTime Json S E} {HC : PersistenceContract S E}.

(** when the newest migration that is not a watch migration did not succeed
    and a watch migration followed, inferMigrationSteps computes the steps from
    an older migration than the one on which applyMigration runs them. *)
Theorem watch_transition_bases_differ s l (m w : Migration DateTime Json) :
  p_inv s -> view s = l ++ [m; w] -> is_watch_migration m = false -> mig_status m <> MigrationSuccess ->
  is_watch_migration w = true ->
  last_non_watch_migration s = (Ok (Some m), s) /\
  exists m', last_non_watch_applied_migration s = (Ok m', s) /\ m' <> Some m.
Proof.
  intros Hs Hv Hm Hst Hw. unfold last_non_watch_migration, last_non_watch_applied_migration, mbind, eff_bind.
  rewrite load_all_ok by done. unfold mret, eff_ret. rewrite Hv, reverse_app. simpl. rewrite Hw, Hm. simpl.
  rewrite (bool_decide_eq_false_2 (mig_status m = _)) by done. simpl. split; [done|]. eexists. split; [done|].
  intros Hf. apply iter_find_Some in Hf as [_ Hf]. rewrite (bool_decide_eq_false_2 (mig_status m = _)) in Hf by done.
  by rewrite andb_false_r in Hf.
Qed.
End watch.

(** *** Instances of the theorems *)
(** A schema library in which every text is the empty schema, and a connector
    that infers a fixed plan and warns about plans that drop something. *)
#[local] Instance sample_lib : DatamodelLib string string := {|
  parse_expr v := Some (ConstantValue v Span_empty);
  parse_schema_ast _ := inl SchemaAst_empty;
  parse_datamodel t := inl t;
  lift_ast _ := inl "lifted";
  render_schema_ast_to_string _ := inl "rendered";
  render_datamodel_to_string t := Some t;
  Datamodel_empty := "";
  pretty_error _ _ e := e;
|}.
Definition sample_connector (steps : list string) :
    MigrationConnector (StepPlan string string) string string (World N SampleText (list string)) string := {|
  c_initialize := mret tt;
  c_reset := mret tt;
  c_check_database_version_compatibility _ := [];
  c_infer _ _ _ := mret (sample_plan steps ["undo"]);
  c_infer_from_datamodels _ _ _ := mret (sample_plan steps ["undo"]);
  c_check d := mret (if decide ("DROP" ∈ corrected_steps d) then
    add_warning (Some (mkMigrationWarning "drops data")) Diagnostics_new else Diagnostics_new);
  c_check_unapply _ := mret (add_warning (Some (mkMigrationWarning "drops data")) Diagnostics_new);
  c_serialize _ := "plan";
  c_deserialize_database_migration _ := Some (sample_plan steps ["undo"]);
|}.
Definition sample_input (id : string) (force : option bool) : ApplyMigrationInput :=
  mkApplyMigrationInput id [] force.
Definition sample_state : World N SampleText (list string) := sample_world [sample_migration "one" MigrationSuccess].
Abbreviation sample_mp := (SqlMigrationPersistence (X := sample_externals) (C := SampleConn)).
Abbreviation sample_sa := (SqlDatabaseStepApplier (S := World N SampleText (list string)) sample_query sample_pretty).

Lemma sample_read_only steps : ReadOnlyConnector (HC := sample_contract) (sample_connector steps).
Proof. split; by intros. Qed.

Lemma query_commands_read_only_witness :
  (list_migrations (MP := sample_mp) (SA := sample_sa) (MC := sample_connector ["a"]) (DmlErr := string) sample_state).2 =
  sample_state.
Proof.
  apply (query_commands_read_only (MP := sample_mp) (HC := sample_contract) (SA := sample_sa) (DL := sample_lib)
    (MC := sample_connector ["a"]) id (sample_read_only ["a"]) sample_state
    (mkInferMigrationStepsInput "" "" None None) (mkCalculateDatabaseStepsInput [] None) "" []).
  apply sample_inv.
Defined.

(** A connector that looks at the datamodels: the plan drops the old one, when
    there is an old one, and only such a plan warns. *)
Definition replacing_connector :
    MigrationConnector (StepPlan string string) string string (World N SampleText (list string)) string := {|
  c_initialize := mret tt;
  c_reset := mret tt;
  c_check_database_version_compatibility _ := [];
  c_infer old new _ := mret (sample_plan (if old ≟ "" then [new] else ["DROP"; new]) ["undo"]);
  c_infer_from_datamodels old new _ := mret (sample_plan (if old ≟ "" then [new] else ["DROP"; new]) ["undo"]);
  c_check := c_check (MigrationConnector := sample_connector []);
  c_check_unapply := c_check_unapply (MigrationConnector := sample_connector []);
  c_serialize _ := "plan";
  c_deserialize_database_migration _ := None;
|}.
Lemma apply_blocked_by_warnings_witness :
  (apply_migration (MP := sample_mp) (SA := sample_sa) (DL := sample_lib) (MC := replacing_connector)
    sample_clock id "{}" 10 (sample_input "two" None) sample_state).2 = sample_state.
Proof.
  apply (apply_blocked_by_warnings (MP := sample_mp) (HC := sample_contract) (SA := sample_sa) (DL := sample_lib)
    (MC := replacing_connector) sample_clock id "{}" 10
    (sample_input "two" None) sample_state (sample_plan ["DROP"; "lifted"] ["undo"])
    (add_warning (Some (mkMigrationWarning "drops data")) Diagnostics_new)).
  - apply sample_inv.
  - done.
  - exists "model A {}", SchemaAst_empty, SchemaAst_empty, "lifted". split_and!; vm_compute; reflexivity.
  - vm_compute. reflexivity.
  - reflexivity.
Defined.

Lemma apply_refuses_applied_witness :
  apply_migration (MP := sample_mp) (SA := sample_sa) (DL := sample_lib) (MC := sample_connector ["a"])
    sample_clock id "{}" 10 (sample_input "one" None) sample_state =
  (Err (Input "Invariant violation: the migration with id `one` has already been applied."), sample_state).
Proof.
  apply (apply_refuses_applied (MP := sample_mp) (HC := sample_contract) (SA := sample_sa) (DL := sample_lib)
    (MC := sample_connector ["a"]) sample_clock id "{}" 10 (sample_input "one" None) sample_state).
  - apply sample_inv.
  - right. intros m Hm. vm_compute in Hm. by injection Hm as <-.
  - exists sample_done. split_and!; [|done|done]. apply list_elem_of_In. vm_compute. by left.
Defined.

Lemma unapply_forces_by_default_witness :
  (unapply_migration (MP := sample_mp) (SA := sample_sa) (MC := sample_connector ["a"]) (DmlErr := string) id 10
    (mkUnapplyMigrationInput (Some false)) sample_state).2 = sample_state.
Proof.
  apply (unapply_forces_by_default (MP := sample_mp) (HC := sample_contract) (SA := sample_sa) (DmlErr := string)
    (MC := sample_connector ["a"]) id 10 sample_state sample_done (sample_plan ["a"] ["undo"])
    (add_warning (Some (mkMigrationWarning "drops data")) Diagnostics_new)).
  - apply sample_inv.
  - vm_compute. reflexivity.
  - reflexivity.
  - reflexivity.
  - reflexivity.
Defined.

Lemma apply_migration_records_witness : exists s' res m,
  handle_migration (MP := sample_mp) (SA := sample_sa) (DL := sample_lib) (MC := sample_connector ["a"; "b"])
    sample_clock id "{}" 10 (sample_input "two" None) "" SchemaAst_empty sample_state = (Ok res, s') /\
  get_db s' = ["a"; "b"] /\
  view (PersistenceContract := sample_contract) s' = view (PersistenceContract := sample_contract) sample_state ++ [m] /\
  mig_name m = "two" /\ mig_datamodel_string m = "rendered" /\ mig_status m = MigrationSuccess /\
  p_last (MigrationPersistence := sample_mp) s' = (Ok (Some m), s').
Proof.
  apply (apply_migration_records (MP := sample_mp) (HC := sample_contract) (DL := sample_lib)
    (MC := sample_connector ["a"; "b"]) sample_query sample_pretty sample_clock id "{}" 10
    (world_frame sample_externals_ok Sqlite "no table") (sample_input "two" None) "" SchemaAst_empty sample_state
    "lifted" (sample_plan ["a"; "b"] ["undo"]) ["a"; "b"] Diagnostics_new "rendered" "lifted" ["a"; "b"]).
  - intros w. by eexists.
  - reflexivity.
  - reflexivity.
  - reflexivity.
  - reflexivity.
  - vm_compute. reflexivity.
  - reflexivity.
  - apply sample_inv.
  - reflexivity.
  - simpl. lia.
  - vm_compute. reflexivity.
Defined.

Lemma failed_apply_keeps_last_witness : exists s' m,
  handle_migration (MP := sample_mp) (SA := sample_sa) (DL := sample_lib) (MC := sample_connector ["a"; "BAD"])
    sample_clock id "{}" 10 (sample_input "two" None) "" SchemaAst_empty sample_state =
    (Err (ConnectorError "syntax error"), s') /\
  get_db s' = ["a"] /\
  view (PersistenceContract := sample_contract) s' = view (PersistenceContract := sample_contract) sample_state ++ [m] /\
  mig_status m = MigrationFailure /\ mig_errors m = ["syntax error"] /\ mig_applied m = 1 /\
  p_last (MigrationPersistence := sample_mp) s' =
    (Ok (last_success (view (PersistenceContract := sample_contract) sample_state)), s').
Proof.
  apply (failed_apply_keeps_last (MP := sample_mp) (HC := sample_contract) (DL := sample_lib)
    (MC := sample_connector ["a"; "BAD"]) sample_query sample_pretty sample_clock id "{}" 10
    (world_frame sample_externals_ok Sqlite "no table") (sample_input "two" None) "" SchemaAst_empty sample_state
    "lifted" (sample_plan ["a"; "BAD"] ["undo"]) ["a"; "BAD"] Diagnostics_new "rendered" 1 "BAD" ["a"] "syntax error" ["a"]).
  - intros w. by eexists.
  - reflexivity.
  - reflexivity.
  - reflexivity.
  - reflexivity.
  - vm_compute. reflexivity.
  - reflexivity.
  - apply sample_inv.
  - simpl. lia.
  - reflexivity.
  - vm_compute. reflexivity.
  - vm_compute. reflexivity.
Defined.

Definition sample_watch_state : World N SampleText (list string) :=
  sample_world [sample_migration "one" MigrationFailure; sample_migration "watch-2" MigrationSuccess].
Lemma sample_watch_inv : sql_inv (C := SampleConn) sample_watch_state.
Proof.
  exists [with_revision 1 (sample_migration "one" MigrationFailure);
    with_revision 2 (sample_migration "watch-2" MigrationSuccess)]. eexists. split_and!; [done|done|..].
  - repeat constructor.
  - by repeat constructor.
  - repeat constructor; apply sample_date.
Qed.
Lemma watch_transition_bases_differ_witness :
  last_non_watch_migration (MigrationPersistence0 := sample_mp) sample_watch_state =
    (Ok (Some (with_revision 1 (sample_migration "one" MigrationFailure))), sample_watch_state) /\
  exists m', last_non_watch_applied_migration (MigrationPersistence0 := sample_mp) sample_watch_state = (Ok m', sample_watch_state) /\
    m' <> Some (with_revision 1 (sample_migration "one" MigrationFailure)).
Proof.
  apply (watch_transition_bases_differ (HC := sample_contract) sample_watch_state []
    (with_revision 1 (sample_migration "one" MigrationFailure))
    (with_revision 2 (sample_migration "watch-2" MigrationSuccess))).
  - apply sample_watch_inv.
  - vm_compute. reflexivity.
  - reflexivity.
  - done.
  - reflexivity.
Defined.
