(* ===== verification/SqlSchema.v ===== *)
(** * SQL schemas (libs/sql-schema-describer/src/lib.rs, libs/prisma-value/src/lib.rs)

    The description of a database schema that the SQL connector compares, its
    lookups, and the values of column defaults. *)
From stdpp Require Import pretty.
From S2P Require Import Prelude.

(** ** Values

    The types of the crates uuid, chrono and rust_decimal are parameters, with
    the equality and the text the crates give them. Their equality is not
    assumed to be Leibniz equality: two decimals of different scale can be
    equal. *)
Class ValueTypes : Type := {
  Uuid : Type;
  DateTimeUtc : Type;
  Decimal : Type;
  uuid_eqb : Uuid -> Uuid -> bool;
  datetime_eqb : DateTimeUtc -> DateTimeUtc -> bool;
  decimal_eqb : Decimal -> Decimal -> bool;
  uuid_fmt : Uuid -> string;
  datetime_fmt : DateTimeUtc -> string;
  decimal_fmt : Decimal -> string;
}.
(** [PartialEq] of these types is reflexive (they implement [Eq]). *)
Class ValueTypesOk (VT : ValueTypes) : Prop := {
  uuid_refl : forall x, uuid_eqb x x = true;
  datetime_refl : forall x, datetime_eqb x x = true;
  decimal_refl : forall x, decimal_eqb x x = true;
}.

Inductive PrismaValue `{ValueTypes} : Type :=
| PV_String (s : string)
| PV_Boolean (b : bool)
| PV_Enum (s : string)
| PV_Int (z : Z)
| PV_Null
| PV_Uuid (u : Uuid)
| PV_List (l : list PrismaValue)
| PV_Json (s : string)
| PV_DateTime (d : DateTimeUtc)
| PV_Float (d : Decimal).

(** The derived [PartialEq]. *)
Fixpoint value_eqb `{ValueTypes} (a b : PrismaValue) : bool :=
  match a, b with
  | PV_String x, PV_String y => x ≟ y
  | PV_Boolean x, PV_Boolean y => x ≟ y
  | PV_Enum x, PV_Enum y => x ≟ y
  | PV_Int x, PV_Int y => x ≟ y
  | PV_Null, PV_Null => true
  | PV_Uuid x, PV_Uuid y => uuid_eqb x y
  | PV_List x, PV_List y =>
      (fix go x y := match x, y with
                     | [], [] => true
                     | v :: x, w :: y => value_eqb v w && go x y
                     | _, _ => false
                     end) x y
  | PV_Json x, PV_Json y => x ≟ y
  | PV_DateTime x, PV_DateTime y => datetime_eqb x y
  | PV_Float x, PV_Float y => decimal_eqb x y
  | _, _ => false
  end.

(** [Display]; [debug_list] is the derived [Debug] text of a list of values. *)
Definition value_fmt `{ValueTypes} (debug_list : list PrismaValue -> string) (v : PrismaValue) : string :=
  match v with
  | PV_String x => x
  | PV_Float x => decimal_fmt x
  | PV_Boolean x => if x then "true" else "false"
  | PV_DateTime x => datetime_fmt x
  | PV_Enum x => x
  | PV_Int x => pretty x
  | PV_Null => "null"
  | PV_Uuid x => uuid_fmt x
  | PV_Json x => x
  | PV_List x => debug_list x
  end.

(** ** Schemas *)
Inductive ColumnTypeFamily : Type :=
| Int | Float | Boolean | String_ | DateTime | Binary | Json | UuidFamily | Geometric
| LogSequenceNumber | TextSearch | TransactionId | EnumFamily (name : string) | Unsupported (name : string).
#[export] Instance ColumnTypeFamily_eq_dec : EqDecision ColumnTypeFamily.
Proof. solve_decision. Defined.

Inductive ColumnArity : Type := Required | Nullable | List_.
#[export] Instance ColumnArity_eq_dec : EqDecision ColumnArity.
Proof. solve_decision. Defined.
Definition arity_is_required (a : ColumnArity) : bool :=
  match a with Required => true | _ => false end.

Record ColumnType : Type := mkColumnType {
  data_type : string;
  full_data_type : string;
  character_maximum_length : option Z;
  family : ColumnTypeFamily;
  arity : ColumnArity;
}.
Definition ColumnType_pure (f : ColumnTypeFamily) (a : ColumnArity) : ColumnType :=
  mkColumnType EmptyString EmptyString None f a.

Record Sequence : Type := mkSequence { seq_name : string; initial_value : N; allocation_size : N }.

Inductive IndexType : Type := Unique | Normal.
#[export] Instance IndexType_eq_dec : EqDecision IndexType.
Proof. solve_decision. Defined.
Record Index : Type := mkIndex { i_name : string; i_columns : list string; i_tpe : IndexType }.
#[export] Instance Index_eq_dec : EqDecision Index.
Proof. solve_decision. Defined.

Record PrimaryKey : Type := mkPrimaryKey { pk_columns : list string; pk_sequence : option Sequence }.

Inductive ForeignKeyAction : Type := NoAction | Restrict | Cascade | SetNull | SetDefaultAction.
#[export] Instance ForeignKeyAction_eq_dec : EqDecision ForeignKeyAction.
Proof. solve_decision. Defined.
Record ForeignKey : Type := mkForeignKey {
  constraint_name : option string;
  fk_columns : list string;
  referenced_table : string;
  referenced_columns : list string;
  on_delete_action : ForeignKeyAction;
}.
#[export] Instance ForeignKey_eq_dec : EqDecision ForeignKey.
Proof. solve_decision. Defined.

Record Enum : Type := mkEnum { e_name : string; e_values : list string }.

Section schema.
Context `{ValueTypes}.

Inductive DefaultValue : Type :=
| VALUE (v : PrismaValue)
| NOW
| SEQUENCE (s : string)
| DBGENERATED (s : string).

Record Column : Type := mkColumn {
  c_name : string;
  c_tpe : ColumnType;
  c_default : option DefaultValue;
  c_auto_increment : bool;
}.
Definition is_required (c : Column) : bool := arity (c_tpe c) ≟ Required.

Record Table : Type := mkTable {
  t_name : string;
  t_columns : list Column;
  t_indices : list Index;
  t_primary_key : option PrimaryKey;
  t_foreign_keys : list ForeignKey;
}.

Record SqlSchema : Type := mkSqlSchema {
  tables : list Table;
  enums : list Enum;
  sequences : list Sequence;
}.
Definition SqlSchema_empty : SqlSchema := mkSqlSchema [] [] [].

Definition get_table (s : SqlSchema) (name : string) : option Table :=
  iter_find (fun x => t_name x ≟ name) (tables s).
Definition has_table (s : SqlSchema) (name : string) : bool :=
  match get_table s name with Some _ => true | None => false end.
Definition get_enum (s : SqlSchema) (name : string) : option Enum :=
  iter_find (fun x => e_name x ≟ name) (enums s).
Definition table (s : SqlSchema) (name : string) : outcome string Table :=
  match iter_find (fun t => t_name t ≟ name) (tables s) with
  | Some t => Ok t
  | None => Err ("Table " +:+ name +:+ " not found")
  end.

Definition column (t : Table) (name : string) : option Column :=
  iter_find (fun c => c_name c ≟ name) (t_columns t).
Definition column_bang {E} (t : Table) (name : string) : outcome E Column :=
  unwrap ("Column " +:+ name +:+ " not found in Table " +:+ t_name t) (column t name).
Definition contains (name : string) (l : list string) : bool := iter_any (fun x => x ≟ name) l.
Definition foreign_key_for_column (t : Table) (c : string) : option ForeignKey :=
  iter_find (fun fk => contains c (fk_columns fk)) (t_foreign_keys t).
Definition is_part_of_foreign_key (t : Table) (c : string) : bool :=
  match foreign_key_for_column t c with Some _ => true | None => false end.
Definition primary_key_columns (t : Table) : list string :=
  match t_primary_key t with Some pk => pk_columns pk | None => [] end.
End schema.

(** ** Lookups and membership *)
Lemma contains_elem x l : contains x l = true <-> x ∈ l.
Proof.
  unfold contains. rewrite existsb_exists. setoid_rewrite bool_decide_eq_true.
  setoid_rewrite <-list_elem_of_In. naive_solver.
Qed.

Section lookups.
Context `{ValueTypes}.

Lemma get_table_Some s n t : get_table s n = Some t -> t ∈ tables s /\ t_name t = n.
Proof. intros [Ht Hn]%iter_find_Some. split; [done|]. by apply bool_decide_eq_true in Hn. Qed.

Lemma get_table_elem s t : NoDup (t_name <$> tables s) -> t ∈ tables s -> get_table s (t_name t) = Some t.
Proof.
  intros Hnd Ht. pose proof (kmap_elem_NoDup t_name id _ _ Hnd Ht) as Hk.
  rewrite kmap_lookup, option_fmap_id in Hk. exact Hk.
Qed.

Lemma get_table_None s n : get_table s n = None <-> n ∉ t_name <$> tables s.
Proof. rewrite <-(kmap_None t_name id), kmap_lookup, fmap_None. done. Qed.

Lemma has_table_elem s n : has_table s n = true <-> n ∈ t_name <$> tables s.
Proof.
  unfold has_table. destruct (get_table s n) as [t|] eqn:E.
  - apply get_table_Some in E as [Ht <-]. split; [intros _|done]. by apply list_elem_of_fmap_2.
  - apply get_table_None in E. done.
Qed.

Lemma table_get s n : table s n = match get_table s n with Some t => Ok t | None => Err ("Table " +:+ n +:+ " not found") end.
Proof. reflexivity. Qed.

Lemma column_elem t c : NoDup (c_name <$> t_columns t) -> c ∈ t_columns t -> column t (c_name c) = Some c.
Proof.
  intros Hnd Ht. pose proof (kmap_elem_NoDup c_name id _ _ Hnd Ht) as Hk.
  rewrite kmap_lookup, option_fmap_id in Hk. exact Hk.
Qed.

Lemma column_Some t n c : column t n = Some c -> c ∈ t_columns t /\ c_name c = n.
Proof. intros [Ht Hn]%iter_find_Some. split; [done|]. by apply bool_decide_eq_true in Hn. Qed.
End lookups.

Lemma value_eqb_refl `{VT : ValueTypes} (Hok : ValueTypesOk VT) (v : PrismaValue) : value_eqb v v = true.
Proof.
  revert v. fix IH 1. intros [s|b|s|z| |u|l|s|d|d]; cbn [value_eqb];
    try (apply bool_decide_eq_true_2; reflexivity); try reflexivity.
  - apply uuid_refl.
  - induction l as [|v l IHl]; [reflexivity|]. rewrite IH. exact IHl.
  - apply datetime_refl.
  - apply decimal_refl.
Qed.

(** ** An instance of the value types, for examples: decimals are a mantissa and a scale *)
Definition sample_decimal_eqb (a b : Z * nat) : bool :=
  (a.1 * 10 ^ Z.of_nat b.2)%Z ≟ (b.1 * 10 ^ Z.of_nat a.2)%Z.
Definition sample_values : ValueTypes := {|
  Uuid := string;
  DateTimeUtc := Z;
  Decimal := Z * nat;
  uuid_eqb a b := a ≟ b;
  datetime_eqb a b := a ≟ b;
  decimal_eqb := sample_decimal_eqb;
  uuid_fmt u := u;
  datetime_fmt d := pretty d;
  decimal_fmt d := pretty d.1;
|}.
#[export] Instance sample_values_ok : ValueTypesOk sample_values.
Proof. split; intros x; apply bool_decide_eq_true_2; reflexivity. Qed.

Section samples.
#[local] Existing Instance sample_values.
Definition sample_column (name : string) (fam : ColumnTypeFamily) (a : ColumnArity) : Column :=
  mkColumn name (ColumnType_pure fam a) None false.
(** A table with an id column of the given type, and the given other columns. *)
Definition sample_table (name : string) (id_type : ColumnTypeFamily) (cols : list Column) (indices : list Index)
    (fks : list ForeignKey) : Table :=
  mkTable name (sample_column "id" id_type Required :: cols) indices (Some (mkPrimaryKey ["id"] None)) fks.
Definition sample_schema (ts : list Table) : SqlSchema := mkSqlSchema ts [mkEnum "Color" ["Red"; "Blue"]] [].
Definition sample_users : SqlSchema := sample_schema
  [sample_table "User" Int [sample_column "name" String_ Nullable] [mkIndex "User.name" ["name"] Unique] [];
   sample_table "Post" Int [sample_column "author" Int Required] []
     [mkForeignKey None ["author"] "User" ["id"] Cascade]].
End samples.

(** * SQL migrations (sql_migration.rs, database_info.rs)

    The steps the SQL connector runs, and what it knows of the database. *)
(** [DatabaseInfo], with what is read of quaint's connection info. *)
Record DatabaseInfo : Type := mkDatabaseInfo {
  info_family : SqlFamily;
  info_schema_name : string;
  database_version : option string;
}.
Definition str_contains (needle s : string) : bool :=
  match String.index 0 needle s with Some _ => true | None => false end.
Definition version_contains (info : DatabaseInfo) (needle : string) : bool :=
  match database_version info with Some v => str_contains needle v | None => false end.
Definition is_mysql_5_6 (info : DatabaseInfo) : bool :=
  (info_family info ≟ Mysql) && version_contains info "5.6".
Definition is_mariadb (info : DatabaseInfo) : bool :=
  (info_family info ≟ Mysql) && version_contains info "MariaDB".

Definition MIGRATION_TABLE_NAME : string := "_Migration".

Section sql_migration.
Context `{ValueTypes}.

Record CreateTable : Type := mkCreateTable { ctb_table : Table }.
Record DropTable : Type := mkDropTable { dtb_name : string }.
Record DropTables : Type := mkDropTables { dtbs_names : list string }.
Record AddColumn : Type := mkAddColumn { ac_column : Column }.
Record DropColumn : Type := mkDropColumn { dc_name : string }.
Record AlterColumn : Type := mkAlterColumn { alc_name : string; alc_column : Column }.
Record AddForeignKey : Type := mkAddForeignKey { afk_table : string; afk_foreign_key : ForeignKey }.
Record DropForeignKey : Type := mkDropForeignKey { dfk_constraint_name : string }.
Inductive TableChange : Type :=
| TC_AddColumn (x : AddColumn)
| TC_AlterColumn (x : AlterColumn)
| TC_DropColumn (x : DropColumn)
| TC_DropForeignKey (x : DropForeignKey).
Record AlterTable : Type := mkAlterTable { at_table : Table; at_changes : list TableChange }.
Record CreateIndex : Type := mkCreateIndex { ci_table : string; ci_index : Index }.
Record DropIndex : Type := mkDropIndex { di_table : string; di_name : string }.
Record AlterIndex : Type := mkAlterIndex { ai_table : string; ai_index_name : string; ai_index_new_name : string }.
Record CreateEnum : Type := mkCreateEnum { cen_name : string; cen_variants : list string }.
Record DropEnum : Type := mkDropEnum { den_name : string }.
Record AlterEnum : Type := mkAlterEnum {
  aen_name : string; created_variants : list string; dropped_variants : list string }.
Definition AlterEnum_is_empty (a : AlterEnum) : bool :=
  match created_variants a, dropped_variants a with [], [] => true | _, _ => false end.

Inductive SqlMigrationStep : Type :=
| AddForeignKeyStep (x : AddForeignKey)
| CreateTableStep (x : CreateTable)
| AlterTableStep (x : AlterTable)
| DropTableStep (x : DropTable)
| DropTablesStep (x : DropTables)
| RenameTable (name new_name : string)
| RawSql (raw : string)
| CreateIndexStep (x : CreateIndex)
| DropIndexStep (x : DropIndex)
| AlterIndexStep (x : AlterIndex)
| CreateEnumStep (x : CreateEnum)
| DropEnumStep (x : DropEnum)
| AlterEnumStep (x : AlterEnum).

Record SqlMigration : Type := mkSqlMigration {
  sm_before : SqlSchema;
  sm_after : SqlSchema;
  sm_original_steps : list SqlMigrationStep;
  sm_corrected_steps : list SqlMigrationStep;
  sm_rollback : list SqlMigrationStep;
}.
Definition SqlMigration_empty : SqlMigration := mkSqlMigration SqlSchema_empty SqlSchema_empty [] [] [].
Record PrettySqlMigrationStep : Type := mkPrettySqlMigrationStep { pretty_step : SqlMigrationStep; pretty_raw : string }.
End sql_migration.
