(* ===== verification/SqlDiffer.v ===== *)
(** * The SQL schema differ (sql_schema_differ.rs and its modules) *)
From S2P Require Import Prelude SqlSchema.

(** [DiffingOptions]; the regex crate's answer on the set of ignored names is a
    function of the name. *)
Record DiffingOptions : Type := mkDiffingOptions {
  do_is_mariadb : bool;
  ignore_tables : string -> bool;
}.
Definition from_database_info (postgres_ignored_tables : string -> bool) (info : DatabaseInfo) : DiffingOptions :=
  mkDiffingOptions (is_mariadb info)
    (match info_family info with Postgres => postgres_ignored_tables | _ => fun _ => false end).

Section differ.
Context `{ValueTypes}.

(** ** Columns (column.rs) *)
Record ColumnDiffer : Type := mkColumnDiffer {
  cd_options : DiffingOptions;
  cd_previous : Column;
  cd_next : Column;
}.
Inductive ColumnChange : Type := Renaming | Arity | Default | Type_.
#[export] Instance ColumnChange_eq_dec : EqDecision ColumnChange.
Proof. solve_decision. Defined.
Record ColumnChanges : Type := mkColumnChanges { changes : list (option ColumnChange) }.

Definition MARIADB_ALIASES : list ColumnTypeFamily := [String_; Json].

Definition column_type_changed (d : ColumnDiffer) : bool :=
  let p := family (c_tpe (cd_previous d)) in
  let n := family (c_tpe (cd_next d)) in
  if do_is_mariadb (cd_options d) && bool_decide (p ∈ MARIADB_ALIASES) && bool_decide (n ∈ MARIADB_ALIASES)
  then false
  else negb (p ≟ n).

Definition defaults_match (d : ColumnDiffer) : bool :=
  if c_auto_increment (cd_previous d) then true else
  match c_default (cd_previous d), c_default (cd_next d) with
  | Some (VALUE prev), Some (VALUE next) => value_eqb prev next
  | Some (VALUE _), Some (DBGENERATED _) => true
  | Some (VALUE _), Some (SEQUENCE _) => true
  | Some (VALUE _), Some NOW => false
  | Some (VALUE _), None => false
  | Some NOW, Some NOW => true
  | Some NOW, Some (SEQUENCE _) => true
  | Some NOW, None => false
  | Some NOW, Some (VALUE _) => false
  | Some (DBGENERATED _), Some (SEQUENCE _) => true
  | Some (DBGENERATED _), Some (VALUE _) => false
  | Some (DBGENERATED _), Some NOW => false
  | Some (DBGENERATED _), None => false
  | Some (SEQUENCE _), Some (SEQUENCE _) => true
  | Some (SEQUENCE _), None => false
  | Some (SEQUENCE _), Some (VALUE _) => false
  | Some (SEQUENCE _), Some NOW => false
  | None, None => true
  | None, Some (SEQUENCE _) => true
  | None, Some (VALUE _) => false
  | None, Some NOW => false
  | _, Some (DBGENERATED _) => true
  end.

Definition all_changes (d : ColumnDiffer) : ColumnChanges :=
  let renaming := if negb (c_name (cd_previous d) ≟ c_name (cd_next d)) then Some Renaming else None in
  let arity_ := if negb (arity (c_tpe (cd_previous d)) ≟ arity (c_tpe (cd_next d))) then Some Arity else None in
  let type_ := if column_type_changed d then Some Type_ else None in
  let default := if negb (defaults_match d) then Some Default else None in
  mkColumnChanges [renaming; type_; arity_; default].
Definition changes_iter (c : ColumnChanges) : list ColumnChange := omap id (changes c).
Definition type_changed (c : ColumnChanges) : bool := iter_any (fun c => c ≟ Some Type_) (changes c).
Definition arity_changed (c : ColumnChanges) : bool := iter_any (fun c => c ≟ Some Arity) (changes c).
Definition differs_in_something (d : ColumnDiffer) : bool := bool_decide (0 < length (changes_iter (all_changes d))).

(** ** Foreign keys and names *)
Definition foreign_keys_match (previous next : ForeignKey) : bool :=
  (referenced_table previous ≟ referenced_table next)
  && (referenced_columns previous ≟ referenced_columns next)
  && (fk_columns previous ≟ fk_columns next)
  && (on_delete_action previous ≟ on_delete_action next).
Definition foreign_key_changed (previous next : option ForeignKey) : bool :=
  match previous, next with
  | None, None => false
  | Some previous, Some next => negb (foreign_keys_match previous next)
  | _, _ => true
  end.
Definition tables_match (previous next : Table) : bool := t_name previous ≟ t_name next.
Definition enums_match (previous next : Enum) : bool := e_name previous ≟ e_name next.
Definition columns_match (a b : Column) : bool := c_name a ≟ c_name b.
Definition indexes_match (first second : Index) : bool :=
  (i_columns first ≟ i_columns second) && (i_tpe first ≟ i_tpe second).
Definition index_covers_fk (t : Table) (i : Index) : bool :=
  iter_any (fun fk => fk_columns fk ≟ i_columns i) (t_foreign_keys t).

(** ** Tables (table.rs) *)
Record TableDiffer : Type := mkTableDiffer {
  td_options : DiffingOptions;
  td_previous : Table;
  td_next : Table;
}.
Definition is_none {A} (o : option A) : bool := match o with None => true | _ => false end.

Definition column_pairs (d : TableDiffer) : list ColumnDiffer :=
  (fun '(p, n) => mkColumnDiffer (td_options d) p n) <$>
  omap (fun p => (fun n => (p, n)) <$> iter_find (columns_match p) (t_columns (td_next d)))
       (t_columns (td_previous d)).
Definition dropped_columns (d : TableDiffer) : list Column :=
  iter_filter (fun p => is_none (iter_find (columns_match p) (t_columns (td_next d)))) (t_columns (td_previous d)).
Definition added_columns (d : TableDiffer) : list Column :=
  iter_filter (fun n => is_none (iter_find (fun p => columns_match p n) (t_columns (td_previous d)))) (t_columns (td_next d)).
Definition created_foreign_keys (d : TableDiffer) : list ForeignKey :=
  iter_filter (fun n => is_none (iter_find (fun p => foreign_keys_match p n) (t_foreign_keys (td_previous d))))
    (t_foreign_keys (td_next d)).
Definition dropped_foreign_keys (d : TableDiffer) : list ForeignKey :=
  iter_filter (fun p => is_none (iter_find (fun n => foreign_keys_match p n) (t_foreign_keys (td_next d))))
    (t_foreign_keys (td_previous d)).
Definition created_indexes (d : TableDiffer) : list Index :=
  iter_filter (fun n => negb (iter_any (fun p => indexes_match p n) (t_indices (td_previous d)))) (t_indices (td_next d)).
Definition dropped_indexes (d : TableDiffer) : list Index :=
  iter_filter (fun p => negb (iter_any (fun n => indexes_match p n) (t_indices (td_next d)))) (t_indices (td_previous d)).
Definition index_pairs (d : TableDiffer) : list (Index * Index) :=
  omap (fun p => (fun n => (p, n)) <$>
                 iter_find (fun n => indexes_match p n && negb (i_name p ≟ i_name n)) (t_indices (td_next d)))
    (t_indices (td_previous d)).

(** ** Enums (enums.rs) *)
Record EnumDiffer : Type := mkEnumDiffer { ed_previous : Enum; ed_next : Enum }.
Definition values_match (previous next : string) : bool := previous ≟ next.
Definition created_values (d : EnumDiffer) : list string :=
  iter_filter (fun n => negb (iter_any (fun p => values_match p n) (e_values (ed_previous d)))) (e_values (ed_next d)).
Definition dropped_values (d : EnumDiffer) : list string :=
  iter_filter (fun p => negb (iter_any (fun n => values_match p n) (e_values (ed_next d)))) (e_values (ed_previous d)).

(** ** Schemas *)
Record SqlSchemaDiffer : Type := mkSqlSchemaDiffer {
  sd_previous : SqlSchema;
  sd_next : SqlSchema;
  sd_family : SqlFamily;
  sd_options : DiffingOptions;
}.
Record SqlSchemaDiff : Type := mkSqlSchemaDiff {
  d_add_foreign_keys : list AddForeignKey;
  d_drop_tables : list DropTable;
  d_create_tables : list CreateTable;
  d_alter_tables : list AlterTable;
  d_create_indexes : list CreateIndex;
  d_drop_indexes : list DropIndex;
  d_alter_indexes : list AlterIndex;
  d_create_enums : list CreateEnum;
  d_drop_enums : list DropEnum;
  d_alter_enums : list AlterEnum;
}.
Definition into_steps (d : SqlSchemaDiff) : list SqlMigrationStep :=
  (CreateEnumStep <$> d_create_enums d)
  ++ (AlterEnumStep <$> d_alter_enums d)
  ++ (DropIndexStep <$> d_drop_indexes d)
  ++ (CreateTableStep <$> d_create_tables d)
  ++ (AlterTableStep <$> d_alter_tables d)
  ++ (CreateIndexStep <$> d_create_indexes d)
  ++ (AddForeignKeyStep <$> d_add_foreign_keys d)
  ++ (DropTableStep <$> d_drop_tables d)
  ++ (DropEnumStep <$> d_drop_enums d)
  ++ (AlterIndexStep <$> d_alter_indexes d).

Section schemas.
Variable differ : SqlSchemaDiffer.

Definition table_is_ignored (table_name : string) : bool :=
  (table_name ≟ MIGRATION_TABLE_NAME) || ignore_tables (sd_options differ) table_name.
Definition previous_tables : list Table :=
  iter_filter (fun t => negb (table_is_ignored (t_name t))) (tables (sd_previous differ)).
Definition next_tables : list Table :=
  iter_filter (fun t => negb (table_is_ignored (t_name t))) (tables (sd_next differ)).
Definition created_tables : list Table :=
  iter_filter (fun n => negb (has_table (sd_previous differ) (t_name n))) next_tables.
Definition dropped_tables : list Table :=
  iter_filter (fun p => negb (iter_any (tables_match p) next_tables)) previous_tables.
Definition table_pairs : list TableDiffer :=
  omap (fun p => mkTableDiffer (sd_options differ) p <$> iter_find (tables_match p) (tables (sd_next differ)))
    (tables (sd_previous differ)).
Definition enum_pairs : list EnumDiffer :=
  omap (fun p => mkEnumDiffer p <$> iter_find (enums_match p) (enums (sd_next differ))) (enums (sd_previous differ)).
Definition created_enums : list Enum :=
  iter_filter (fun n => negb (iter_any (fun p => enums_match p n) (enums (sd_previous differ)))) (enums (sd_next differ)).
Definition dropped_enums : list Enum :=
  iter_filter (fun p => negb (iter_any (enums_match p) (enums (sd_next differ)))) (enums (sd_previous differ)).

Definition create_tables : list CreateTable := mkCreateTable <$> created_tables.
Definition drop_tables : list DropTable * list AlterTable :=
  ((fun t => mkDropTable (t_name t)) <$> dropped_tables,
   t ← dropped_tables;
   (fun fk_name => mkAlterTable t [TC_DropForeignKey (mkDropForeignKey fk_name)]) <$>
     omap constraint_name (t_foreign_keys t)).
Definition push_foreign_keys_from_created_tables (steps : list AddForeignKey) (ts : list Table) : list AddForeignKey :=
  steps ++ (t ← ts; mkAddForeignKey (t_name t) <$> t_foreign_keys t).
Definition push_created_foreign_keys (added : list AddForeignKey) (pairs : list TableDiffer) : list AddForeignKey :=
  added ++ (d ← pairs; mkAddForeignKey (t_name (td_next d)) <$> created_foreign_keys d).
Definition add_foreign_keys : list AddForeignKey :=
  push_created_foreign_keys (push_foreign_keys_from_created_tables [] created_tables) table_pairs.

Definition drop_columns (d : TableDiffer) : list TableChange :=
  (fun c => TC_DropColumn (mkDropColumn (c_name c))) <$> dropped_columns d.
Definition add_columns (d : TableDiffer) : list TableChange :=
  (fun c => TC_AddColumn (mkAddColumn c)) <$> added_columns d.
Definition alter_columns (d : TableDiffer) : list TableChange :=
  omap (fun cd =>
    let previous_fk := foreign_key_for_column (td_previous d) (c_name (cd_previous cd)) in
    let next_fk := foreign_key_for_column (td_next d) (c_name (cd_next cd)) in
    if differs_in_something cd || foreign_key_changed previous_fk next_fk
    then Some (TC_AlterColumn (mkAlterColumn (c_name (cd_previous cd)) (cd_next cd)))
    else None) (column_pairs d).
Definition drop_foreign_keys (d : TableDiffer) : list TableChange :=
  (fun n => TC_DropForeignKey (mkDropForeignKey n)) <$> omap constraint_name (dropped_foreign_keys d).
(** The changes of a pair of tables, in their order. *)
Definition table_changes (d : TableDiffer) : list TableChange :=
  drop_foreign_keys d ++ drop_columns d ++ add_columns d ++ alter_columns d.
Definition alter_tables : list AlterTable :=
  omap (fun p =>
    match table (sd_next differ) (t_name p) with
    | Ok n =>
        match table_changes (mkTableDiffer (sd_options differ) p n) with
        | [] => None
        | changes => Some (mkAlterTable n changes)
        end
    | _ => None
    end) (tables (sd_previous differ)).

Definition create_indexes : list CreateIndex :=
  (t ← created_tables; mkCreateIndex (t_name t) <$> t_indices t)
  ++ (d ← table_pairs; mkCreateIndex (t_name (td_next d)) <$> created_indexes d).
Definition drop_indexes : list DropIndex :=
  d ← table_pairs;
  (fun i => mkDropIndex (t_name (td_previous d)) (i_name i)) <$>
    iter_filter (fun i => negb ((sd_family differ ≟ Mysql) && index_covers_fk (td_previous d) i)) (dropped_indexes d).
Definition alter_indexes : list AlterIndex :=
  d ← table_pairs;
  (fun '(p, n) => mkAlterIndex (t_name (td_next d)) (i_name p) (i_name n)) <$> index_pairs d.

Definition create_enums : list CreateEnum := (fun e => mkCreateEnum (e_name e) (e_values e)) <$> created_enums.
Definition drop_enums : list DropEnum := (fun e => mkDropEnum (e_name e)) <$> dropped_enums.
Definition alter_enums : list AlterEnum :=
  omap (fun d =>
    let step := mkAlterEnum (e_name (ed_previous d)) (created_values d) (dropped_values d) in
    if AlterEnum_is_empty step then None else Some step) enum_pairs.

Definition diff_internal : SqlSchemaDiff :=
  mkSqlSchemaDiff add_foreign_keys drop_tables.1 create_tables (alter_tables ++ drop_tables.2)
    create_indexes drop_indexes alter_indexes create_enums drop_enums alter_enums.
End schemas.

Definition diff (previous next : SqlSchema) (f : SqlFamily) (options : DiffingOptions) : SqlSchemaDiff :=
  diff_internal (mkSqlSchemaDiffer previous next f options).
End differ.

(** ** The diff of a schema with itself *)
Section self_diff.
Context `{VT : ValueTypes} (HVT : ValueTypesOk VT).

(** The names a database keeps distinct. *)
Definition names_distinct (s : SqlSchema) : Prop :=
  NoDup (t_name <$> tables s) /\ NoDup (e_name <$> enums s) /\
  Forall (fun t => NoDup (c_name <$> t_columns t)) (tables s).
(** Indexes of the same type on the same columns have the same name. *)
Definition index_names_agree (t : Table) : Prop :=
  forall i j, i ∈ t_indices t -> j ∈ t_indices t -> indexes_match i j = true -> i_name i = i_name j.

Lemma defaults_match_refl o c : defaults_match (mkColumnDiffer o c c) = true.
Proof.
  unfold defaults_match; cbn [cd_previous cd_next]. destruct (c_auto_increment c); [done|].
  destruct (c_default c) as [[v| |s|s]|]; try reflexivity. by apply value_eqb_refl.
Qed.
Lemma column_same o c : differs_in_something (mkColumnDiffer o c c) = false.
Proof.
  unfold differs_in_something. replace (changes_iter _) with (@nil ColumnChange); [reflexivity|].
  unfold changes_iter, all_changes, column_type_changed. rewrite defaults_match_refl. cbn [cd_previous cd_next cd_options].
  rewrite (bool_decide_eq_true_2 (c_name c = _)), (bool_decide_eq_true_2 (arity _ = _)), (bool_decide_eq_true_2 (family _ = _)) by reflexivity.
  destruct (_ && _ && _); reflexivity.
Qed.
Lemma foreign_keys_match_refl fk : foreign_keys_match fk fk = true.
Proof. unfold foreign_keys_match. rewrite !bool_decide_eq_true_2 by reflexivity. reflexivity. Qed.
Lemma indexes_match_refl i : indexes_match i i = true.
Proof. unfold indexes_match. rewrite !bool_decide_eq_true_2 by reflexivity. reflexivity. Qed.
Lemma find_matching {A} (m : A -> A -> bool) (l : list A) x :
  (forall y, m y y = true) -> x ∈ l -> is_none (iter_find (m x) l) = false /\ is_none (iter_find (fun y => m y x) l) = false.
Proof.
  intros Hm Hx. split; (destruct (iter_find _ l) eqn:E; [done|]); rewrite iter_find_None in E; specialize (E x Hx); cbv beta in E; by rewrite Hm in E.
Qed.

Section one_table.
Variables (o : DiffingOptions) (t : Table).
Hypothesis (Hcols : NoDup (c_name <$> t_columns t)).
Abbreviation self := (mkTableDiffer o t t).

Lemma columns_match_refl c : columns_match c c = true.
Proof. apply bool_decide_eq_true_2. reflexivity. Qed.
Lemma self_table_changes : table_changes self = [].
Proof.
  unfold table_changes, drop_foreign_keys, drop_columns, add_columns, dropped_foreign_keys, dropped_columns, added_columns.
  cbn [td_previous td_next].
  rewrite !iter_filter_none.
  2-4: intros x Hx; apply find_matching; [first [apply columns_match_refl|apply foreign_keys_match_refl]|done].
  cbn [app omap list_omap]. rewrite fmap_nil. cbn [app]. unfold alter_columns, column_pairs; cbn [td_previous td_next].
  rewrite (omap_all _ (fun c => (c, c))).
  2: { intros c Hc. unfold columns_match. by rewrite find_key. }
  induction (t_columns t) as [|c l IH]; [done|]. rewrite !fmap_cons. cbn [omap list_omap cd_previous cd_next].
  inversion Hcols. rewrite column_same. cbn [orb].
  replace (foreign_key_changed _ _) with false; [by apply IH|].
  destruct (foreign_key_for_column t (c_name c)) as [fk|]; [|reflexivity]. simpl. by rewrite foreign_keys_match_refl.
Qed.
Lemma self_created_foreign_keys : created_foreign_keys self = [].
Proof. apply iter_filter_none. intros fk Hfk. by apply find_matching; [apply foreign_keys_match_refl|]. Qed.
Lemma self_indexes : created_indexes self = [] /\ dropped_indexes self = [].
Proof.
  split; apply iter_filter_none; intros i Hi; apply negb_false_iff;
    (eapply iter_any_true; [exact Hi|apply indexes_match_refl]).
Qed.
Lemma self_index_pairs : index_pairs self = [] <-> index_names_agree t.
Proof.
  unfold index_pairs, index_names_agree; cbn [td_previous td_next]. split.
  - intros Hp i j Hi Hj Hm. destruct (decide (i_name i = i_name j)) as [|Hne]; [done|]. exfalso.
    destruct (iter_find (fun n => indexes_match i n && negb (i_name i ≟ i_name n)) (t_indices t)) as [k|] eqn:E.
    + assert (Hin : (i, k) ∈ ([] : list (Index * Index))); [|inversion Hin].
      rewrite <-Hp. apply list_elem_of_omap. exists i. split; [done|]. by rewrite E.
    + rewrite iter_find_None in E. specialize (E j Hj). rewrite Hm, bool_decide_eq_false_2 in E by done. done.
  - intros Hag. destruct (omap _ _) as [|[i j] l] eqn:E; [done|]. exfalso.
    assert (Hin : (i, j) ∈ (i, j) :: l) by constructor. rewrite <-E in Hin.
    apply list_elem_of_omap in Hin as (k & Hk & (n & Hf & [= <- <-])%fmap_Some).
    apply iter_find_Some in Hf as [Hn [Hm Hne]%andb_true_iff].
    rewrite (bool_decide_eq_true_2 _ (Hag _ _ Hk Hn Hm)) in Hne. done.
Qed.
End one_table.

Lemma self_table_pairs s f o : names_distinct s ->
  table_pairs (mkSqlSchemaDiffer s s f o) = (fun t => mkTableDiffer o t t) <$> tables s.
Proof.
  intros (Ht & _). apply omap_all. intros t Hin. cbn [sd_next sd_options].
  unfold tables_match. by rewrite find_key.
Qed.
Lemma self_no_created s f o : created_tables (mkSqlSchemaDiffer s s f o) = [] /\ dropped_tables (mkSqlSchemaDiffer s s f o) = [].
Proof.
  split; apply iter_filter_none; intros t Hin; apply negb_false_iff.
  - apply iter_filter_elem in Hin as [Hin _]. apply has_table_elem. by apply list_elem_of_fmap_2.
  - eapply iter_any_true; [exact Hin|]. by apply bool_decide_eq_true_2.
Qed.
Lemma self_enums s f o : names_distinct s ->
  create_enums (mkSqlSchemaDiffer s s f o) = [] /\ drop_enums (mkSqlSchemaDiffer s s f o) = [] /\
  alter_enums (mkSqlSchemaDiffer s s f o) = [].
Proof.
  intros (_ & He & _). unfold create_enums, drop_enums, created_enums, dropped_enums, alter_enums, enum_pairs. cbn [sd_previous sd_next].
  rewrite !iter_filter_none.
  2-3: intros e Hin; apply negb_false_iff; (eapply iter_any_true; [exact Hin|by apply bool_decide_eq_true_2]).
  split_and!; [done..|]. rewrite (omap_all _ (fun e => mkEnumDiffer e e)).
  2: { intros e Hin. unfold enums_match. by rewrite find_key. }
  clear. induction (enums s) as [|e l IH]; [done|]. rewrite fmap_cons. cbn [omap list_omap ed_previous].
  unfold created_values, dropped_values; cbn [ed_previous ed_next].
  rewrite !iter_filter_none; [exact IH|..]; intros v Hin; apply negb_false_iff;
    (eapply iter_any_true; [exact Hin|by apply bool_decide_eq_true_2]).
Qed.
Lemma self_diff s f o : names_distinct s ->
  diff s s f o = mkSqlSchemaDiff [] [] [] [] [] [] (alter_indexes (mkSqlSchemaDiffer s s f o)) [] [] [].
Proof.
  intros Hs. pose proof Hs as (Ht & _ & Hc). rewrite Forall_forall in Hc.
  destruct (self_no_created s f o) as [Hn1 Hn2]. destruct (self_enums s f o Hs) as (He1 & He2 & He3).
  unfold diff, diff_internal, create_tables, drop_tables, add_foreign_keys, push_created_foreign_keys,
    push_foreign_keys_from_created_tables, create_indexes, drop_indexes.
  rewrite Hn1, Hn2, He1, He2, He3, (self_table_pairs _ _ _ Hs). rewrite !fmap_bind. cbn [td_next td_previous fst snd mbind list_bind app].
  f_equal.
  - apply bind_all_nil. intros t Hin. by rewrite self_created_foreign_keys.
  - rewrite app_nil_r. apply omap_none. intros t Hin. cbn [sd_previous sd_next sd_options].
    rewrite table_get, (get_table_elem _ _ Ht Hin), self_table_changes by auto. done.
  - apply bind_all_nil. intros t Hin. destruct (self_indexes o t) as [-> _]. done.
  - apply bind_all_nil. intros t Hin. destruct (self_indexes o t) as [_ ->]. done.
Qed.
End self_diff.

(** ** What the steps are *)
Section characterisation.
Context `{VT : ValueTypes}.

Lemma into_steps_elem (d : SqlSchemaDiff) st : st ∈ into_steps d <->
  match st with
  | CreateEnumStep x => x ∈ d_create_enums d
  | AlterEnumStep x => x ∈ d_alter_enums d
  | DropIndexStep x => x ∈ d_drop_indexes d
  | CreateTableStep x => x ∈ d_create_tables d
  | AlterTableStep x => x ∈ d_alter_tables d
  | CreateIndexStep x => x ∈ d_create_indexes d
  | AddForeignKeyStep x => x ∈ d_add_foreign_keys d
  | DropTableStep x => x ∈ d_drop_tables d
  | DropEnumStep x => x ∈ d_drop_enums d
  | AlterIndexStep x => x ∈ d_alter_indexes d
  | _ => False
  end.
Proof.
  unfold into_steps. rewrite !elem_of_app, !list_elem_of_fmap. split.
  - intros Hst. destruct st; repeat destruct Hst as [Hst|Hst]; destruct Hst as (y & Hy & Hin); try discriminate Hy;
      injection Hy as ->; exact Hin.
  - intros Hst. destruct st; try done; eauto 14.
Qed.

Lemma table_pairs_elem differ d : d ∈ table_pairs differ ->
  td_previous d ∈ tables (sd_previous differ) /\ td_next d ∈ tables (sd_next differ) /\
  t_name (td_previous d) = t_name (td_next d) /\ td_options d = sd_options differ.
Proof.
  intros (p & Hp & (n & [Hn Hm]%iter_find_Some & ->)%fmap_Some)%list_elem_of_omap.
  by apply bool_decide_eq_true in Hm.
Qed.

Lemma column_pairs_elem d cd : cd ∈ column_pairs d ->
  cd_previous cd ∈ t_columns (td_previous d) /\ cd_next cd ∈ t_columns (td_next d) /\
  c_name (cd_previous cd) = c_name (cd_next cd) /\ cd_options cd = td_options d.
Proof.
  intros ([p n] & -> & (p' & Hp & (n' & [Hn Hm]%iter_find_Some & [= -> ->])%fmap_Some)%list_elem_of_omap)%list_elem_of_fmap.
  by apply bool_decide_eq_true in Hm.
Qed.

Lemma alter_columns_elem d c : c ∈ alter_columns d -> exists cd, cd ∈ column_pairs d /\
  c = TC_AlterColumn (mkAlterColumn (c_name (cd_previous cd)) (cd_next cd)).
Proof.
  intros (cd & Hcd & Hc)%list_elem_of_omap. exists cd. split; [done|]. cbv zeta in Hc.
  destruct (_ || _); congruence.
Qed.

(** Every change of an [AlterTable] step is about a table of the previous schema, and an altered column is one of its columns. *)
Lemma alter_table_before prev next f o a : a ∈ d_alter_tables (diff prev next f o) ->
  exists t, t ∈ tables prev /\ t_name t = t_name (at_table a) /\
    forall x, TC_AlterColumn x ∈ at_changes a ->
      alc_column x ∈ t_columns (at_table a) /\ c_name (alc_column x) = alc_name x /\
      exists c, c ∈ t_columns t /\ c_name c = alc_name x.
Proof.
  cbn [diff diff_internal d_alter_tables]. rewrite elem_of_app.
  intros [(t & Ht & Ha)%list_elem_of_omap|Ha].
  - cbn [sd_next sd_previous sd_options] in *. rewrite table_get in Ha.
    destruct (get_table next (t_name t)) as [n|] eqn:En; [|done]. apply get_table_Some in En as [Hn Hname].
    exists t. destruct (table_changes _) as [|ch l] eqn:Ech; [done|]. injection Ha as <-. cbn [at_table at_changes].
    split_and!; [done|congruence|]. intros x Hx. rewrite <-Ech in Hx. unfold table_changes in Hx.
    rewrite !elem_of_app in Hx. destruct Hx as [Hx|[Hx|[Hx|Hx]]].
    + apply list_elem_of_fmap in Hx as (? & [=] & _).
    + apply list_elem_of_fmap in Hx as (? & [=] & _).
    + apply list_elem_of_fmap in Hx as (? & [=] & _).
    + apply alter_columns_elem in Hx as (cd & Hcd & [= ->]).
      apply column_pairs_elem in Hcd as (H1 & H2 & H3 & _). cbn [alc_name alc_column td_previous td_next] in *.
      split_and!; [done|done|]. eauto.
  - cbn [drop_tables snd] in Ha. apply list_elem_of_bind in Ha as (t & Ha & Ht).
    apply list_elem_of_fmap in Ha as (n & -> & _). exists t. cbn [at_table at_changes].
    apply iter_filter_elem in Ht as [Ht _]. apply iter_filter_elem in Ht as [Ht _]. cbn [sd_previous] in Ht.
    split_and!; [done|done|]. intros x [Hx|Hx]%elem_of_cons; [done|]. inversion Hx.
Qed.

(** Its table is the next one, or the dropped one. *)
Lemma alter_table_in_schema prev next f o a : a ∈ d_alter_tables (diff prev next f o) ->
  at_table a ∈ tables next \/ at_table a ∈ tables prev.
Proof.
  cbn [diff diff_internal d_alter_tables]. rewrite elem_of_app.
  intros [(t & Ht & Ha)%list_elem_of_omap|(t & (n & -> & _)%list_elem_of_fmap & [[Ht _]%iter_filter_elem _]%iter_filter_elem)%list_elem_of_bind];
    [|by right].
  cbn [sd_next sd_options] in Ha. rewrite table_get in Ha.
  destruct (get_table next (t_name t)) as [n|] eqn:En; [|done]. apply get_table_Some in En as [Hn _].
  destruct (table_changes _); [done|]. injection Ha as <-. by left.
Qed.
End characterisation.

(** ** Theorems *)

(** C17: For a schema with distinct table, enum and column names, comparing it with itself gives no step, on every database and with every option, exactly when no table has two indexes of the same type on the same columns under different names; for such a table the differ asks to rename an index. *)
Theorem self_diff_empty_iff `{VT : ValueTypes} (HVT : ValueTypesOk VT) (s : SqlSchema) (f : SqlFamily) (o : DiffingOptions) :
  names_distinct s ->
  (into_steps (diff s s f o) = [] <-> Forall index_names_agree (tables s)).
Proof.
  intros Hs. rewrite (self_diff HVT) by done. unfold into_steps; cbn -[fmap]. rewrite ?fmap_nil. cbn [app].
  unfold alter_indexes. rewrite (self_table_pairs _ _ _ Hs), fmap_bind. cbn [td_next td_previous].
  rewrite Forall_forall. split.
  - intros Hn t Ht. apply (self_index_pairs o). destruct (index_pairs _) as [|x l] eqn:E; [done|]. exfalso.
    apply fmap_nil_inv in Hn. assert (Hin : (let '(p, n) := x in mkAlterIndex (t_name t) (i_name p) (i_name n)) ∈ ([] : list AlterIndex)).
    { rewrite <-Hn. apply list_elem_of_bind. exists t. split; [|done]. rewrite E, fmap_cons. constructor. }
    inversion Hin.
  - intros Ha. rewrite bind_all_nil; [done|]. intros t Ht. specialize (Ha t Ht).
    apply (self_index_pairs o) in Ha. by rewrite Ha.
Qed.

Lemma self_diff_empty_iff_witness :
  names_distinct sample_users /\ Forall index_names_agree (tables sample_users) /\
  into_steps (diff sample_users sample_users Postgres (mkDiffingOptions false (fun _ => false))) = [].
Proof.
  assert (Hn : names_distinct sample_users).
  { apply (bool_decide_unpack (_ /\ _ /\ _)). vm_compute. reflexivity. }
  assert (Hi : Forall index_names_agree (tables sample_users)).
  { repeat apply Forall_cons_2; [..|apply Forall_nil_2]; intros i j Hi Hj _; cbn in Hi, Hj.
    - apply list_elem_of_singleton in Hi, Hj. by subst.
    - inversion Hi. }
  split_and!; [exact Hn|exact Hi|].
  exact (proj2 (self_diff_empty_iff sample_values_ok sample_users Postgres (mkDiffingOptions false (fun _ => false)) Hn) Hi).
Defined.
