(* ===== verification/SqlRender.v ===== *)
(** * The SQL renderers (sql_renderer/)

    The text of names, columns, types, defaults and foreign keys for each
    database. *)
From Stdlib Require Import Ascii.
From S2P Require Import Prelude SqlSchema.
#[local] Open Scope string_scope.

Definition dquote : string := String (ascii_of_nat 34) EmptyString.

(** [IteratorJoin::join]. *)
Fixpoint push_items (sep : string) (items : list string) : string :=
  match items with
  | [] => ""
  | item :: items => sep +:+ item +:+ push_items sep items
  end.
Definition join (sep : string) (items : list string) : string :=
  match items with
  | [] => ""
  | first_item :: items => first_item +:+ push_items sep items
  end.

(** ** Quoting (common.rs) *)
Inductive Quoted : Type := Double (s : string) | Single (s : string) | Backticks (s : string).
Definition quote_that_too (q : Quoted) (u : string) : Quoted :=
  match q with Double _ => Double u | Single _ => Single u | Backticks _ => Backticks u end.
Definition mysql_string (s : string) : Quoted := Single s.
Definition mysql_ident (s : string) : Quoted := Backticks s.
Definition postgres_string (s : string) : Quoted := Single s.
Definition postgres_ident (s : string) : Quoted := Double s.
Definition sqlite_ident (s : string) : Quoted := Double s.
Definition Quoted_fmt (q : Quoted) : string :=
  match q with
  | Double inner => dquote +:+ inner +:+ dquote
  | Single inner => "'" +:+ inner +:+ "'"
  | Backticks inner => "`" +:+ inner +:+ "`"
  end.
(** [QuotedWithSchema]. *)
Definition QuotedWithSchema_fmt (schema_name : string) (name : Quoted) : string :=
  Quoted_fmt (quote_that_too name schema_name) +:+ "." +:+ Quoted_fmt name.

Definition render_on_delete (a : ForeignKeyAction) : string :=
  match a with
  | NoAction => ""
  | SetNull => "ON DELETE SET NULL"
  | Cascade => "ON DELETE CASCADE"
  | SetDefaultAction => "ON DELETE SET DEFAULT"
  | Restrict => "ON DELETE RESTRICT"
  end.

(** ** String literals: every match of a one-character pattern is prefixed *)
Fixpoint prefix_chars (hit : ascii -> bool) (p : ascii) (s : string) : string :=
  match s with
  | EmptyString => EmptyString
  | String c s => if hit c then String p (String c (prefix_chars hit p s)) else String c (prefix_chars hit p s)
  end.
Definition squote : ascii := "039"%char.
Definition backslash : ascii := "092"%char.
(** sqlite_renderer.rs and mysql_renderer.rs; postgres_renderer.rs. *)
Definition escape_quotes (s : string) : string := prefix_chars (fun c => (c ≟ squote)) squote s.
Definition mysql_escape_string_literal (s : string) : string := prefix_chars (fun c => (c ≟ squote)) squote s.
Definition postgres_escape_string_literal (s : string) : string :=
  prefix_chars (fun c => (c ≟ squote) || (c ≟ backslash)) backslash s.

Section renderers.
Context `{ValueTypes} (debug_list : list PrismaValue -> string) {E : Type}.

(** [ColumnRef] (sql_schema_helpers.rs). *)
Record ColumnRef : Type := mkColumnRef { cr_schema : SqlSchema; cr_column : Column; cr_table : Table }.
Definition walk_columns (s : SqlSchema) : list ColumnRef :=
  t ← tables s; (fun c => mkColumnRef s c t) <$> t_columns t.

Definition render_nullability (c : ColumnRef) : string :=
  if is_required (cr_column c) then "NOT NULL" else "".

Definition quoted_value (v : PrismaValue) : string := "'" +:+ value_fmt debug_list v +:+ "'".
(** The cases the three renderers share; [literal] renders a string. *)
Definition render_default_with (literal : string -> string) (default : DefaultValue) (f : ColumnTypeFamily) :
    outcome E string :=
  match default, f with
  | DBGENERATED val, _ => Ok val
  | VALUE (PV_String val), String_ => Ok (literal val)
  | VALUE (PV_Enum val), EnumFamily _ => Ok (literal val)
  | NOW, DateTime => Ok "CURRENT_TIMESTAMP"
  | NOW, _ => Panic "NOW default on non-datetime column"
  | VALUE val, DateTime => Ok (quoted_value val)
  | VALUE val, _ => Ok (value_fmt debug_list val)
  | SEQUENCE _, _ => Panic "rendering of sequence defaults"
  end.
Definition sqlite_render_default : DefaultValue -> ColumnTypeFamily -> outcome E string :=
  render_default_with (fun v => "'" +:+ escape_quotes v +:+ "'").
Definition mysql_render_default : DefaultValue -> ColumnTypeFamily -> outcome E string :=
  render_default_with (fun v => "'" +:+ mysql_escape_string_literal v +:+ "'").
Definition postgres_render_default : DefaultValue -> ColumnTypeFamily -> outcome E string :=
  render_default_with (fun v => "E'" +:+ postgres_escape_string_literal v +:+ "'").

(** [column.default().map(|default| format!("DEFAULT {}", ..)).unwrap_or_else(String::new)]. *)
Definition default_str (render : DefaultValue -> ColumnTypeFamily -> outcome E string) (c : ColumnRef) : outcome E string :=
  match c_default (cr_column c) with
  | Some default => (fun d => "DEFAULT " +:+ d) <$> render default (family (c_tpe (cr_column c)))
  | None => Ok ""
  end.

(** ** Column types *)
Definition sqlite_render_column_type (t : ColumnType) : outcome E string :=
  match family t with
  | Boolean => Ok "BOOLEAN"
  | DateTime => Ok "DATE"
  | Float => Ok "REAL"
  | Int => Ok "INTEGER"
  | String_ => Ok "TEXT"
  | _ => Panic "not handled yet"
  end.
Definition postgres_render_column_type (t : ColumnType) : outcome E string :=
  let array := match arity t with List_ => "[]" | _ => "" end in
  match family t with
  | Boolean => Ok ("boolean " +:+ array)
  | DateTime => Ok ("timestamp(3) " +:+ array)
  | Float => Ok ("Decimal(65,30) " +:+ array)
  | Int => Ok ("integer " +:+ array)
  | String_ => Ok ("text " +:+ array)
  | EnumFamily name => Ok (Quoted_fmt (postgres_ident name) +:+ array)
  | Json => Ok ("jsonb " +:+ array)
  | _ => Panic "not handled yet"
  end.
Definition VARCHAR_LENGTH_PREFIX : string := "(191)".
(** An enum that is missing from the schema is an error here, which the caller unwraps. *)
Definition mysql_render_column_type (c : ColumnRef) : outcome string string :=
  match family (c_tpe (cr_column c)) with
  | Boolean => Ok "boolean"
  | DateTime => match c_default (cr_column c) with Some NOW => Ok "datetime" | _ => Ok "datetime(3)" end
  | Float => Ok "Decimal(65,30)"
  | Int => Ok "int"
  | String_ => Ok ("varchar" +:+ VARCHAR_LENGTH_PREFIX)
  | EnumFamily enum_name =>
      match get_enum (cr_schema c) enum_name with
      | Some e => Ok ("ENUM(" +:+ join ", " ((fun v => Quoted_fmt (mysql_string v)) <$> e_values e) +:+ ")")
      | None => Err ("Could not render the variants of enum `" +:+ enum_name +:+ "`")
      end
  | Json => Ok "json"
  | _ => Panic "not handled yet"
  end.
Definition unwrap_result {F A} (m : outcome F A) : outcome E A :=
  match m with Ok a => Ok a | Err _ => Panic "called `Result::unwrap()` on an `Err` value" | Panic p => Panic p end.

(** ** The renderers *)
Record SqlRenderer : Type := mkSqlRenderer {
  r_sql_family : SqlFamily;
  r_quote : string -> Quoted;
  r_render_column : ColumnRef -> outcome E string;
  r_render_references : string -> ForeignKey -> string;
  r_render_default : DefaultValue -> ColumnTypeFamily -> outcome E string;
}.

Definition sqlite_render_column (c : ColumnRef) : outcome E string :=
  let column_name := Quoted_fmt (Double (c_name (cr_column c))) in
  tpe_str ← sqlite_render_column_type (c_tpe (cr_column c));
  default ← default_str sqlite_render_default c;
  let auto_increment_str := if c_auto_increment (cr_column c) then "PRIMARY KEY AUTOINCREMENT" else "" in
  Ok (column_name +:+ " " +:+ tpe_str +:+ " " +:+ render_nullability c +:+ " " +:+ default +:+ " " +:+ auto_increment_str).
Definition sqlite_render_references (_ : string) (fk : ForeignKey) : string :=
  "REFERENCES " +:+ Quoted_fmt (Double (referenced_table fk))
  +:+ "(" +:+ join "," ((fun c => Quoted_fmt (sqlite_ident c)) <$> referenced_columns fk) +:+ ") "
  +:+ render_on_delete (on_delete_action fk) +:+ " ON UPDATE CASCADE".
Definition SqliteRenderer : SqlRenderer :=
  mkSqlRenderer Sqlite Double sqlite_render_column sqlite_render_references sqlite_render_default.

Definition postgres_render_column (c : ColumnRef) : outcome E string :=
  let column_name := Quoted_fmt (postgres_ident (c_name (cr_column c))) in
  tpe_str ← postgres_render_column_type (c_tpe (cr_column c));
  default ← default_str postgres_render_default c;
  Ok (if c_auto_increment (cr_column c) then column_name +:+ " SERIAL"
      else column_name +:+ " " +:+ tpe_str +:+ " " +:+ render_nullability c +:+ " " +:+ default).
Definition postgres_render_references (schema_name : string) (fk : ForeignKey) : string :=
  "REFERENCES " +:+ QuotedWithSchema_fmt schema_name (postgres_ident (referenced_table fk))
  +:+ "(" +:+ join "," ((fun c => Quoted_fmt (postgres_ident c)) <$> referenced_columns fk) +:+ ") "
  +:+ render_on_delete (on_delete_action fk) +:+ "  ON UPDATE CASCADE".
Definition PostgresRenderer : SqlRenderer :=
  mkSqlRenderer Postgres postgres_ident postgres_render_column postgres_render_references postgres_render_default.

Definition mysql_render_column (c : ColumnRef) : outcome E string :=
  let column_name := Quoted_fmt (Backticks (c_name (cr_column c))) in
  tpe_str ← unwrap_result (mysql_render_column_type c);
  default ← default_str mysql_render_default c;
  let auto_increment_str := if c_auto_increment (cr_column c) then "AUTO_INCREMENT" else "" in
  let common := column_name +:+ " " +:+ tpe_str +:+ " " +:+ render_nullability c +:+ " " +:+ default in
  Ok (match foreign_key_for_column (cr_table c) (c_name (cr_column c)) with
      | Some _ => common
      | None => common +:+ " " +:+ auto_increment_str
      end).
Definition mysql_render_references (schema_name : string) (fk : ForeignKey) : string :=
  " REFERENCES `" +:+ schema_name +:+ "`.`" +:+ referenced_table fk +:+ "`("
  +:+ join "," ((fun c => Quoted_fmt (Backticks c)) <$> referenced_columns fk) +:+ ") "
  +:+ render_on_delete (on_delete_action fk) +:+ " ON UPDATE CASCADE".
Definition MySqlRenderer : SqlRenderer :=
  mkSqlRenderer Mysql Backticks mysql_render_column mysql_render_references mysql_render_default.

(** [SqlRenderer::for_family]. *)
Definition for_family (f : SqlFamily) : SqlRenderer :=
  match f with Postgres => PostgresRenderer | Mysql => MySqlRenderer | Sqlite => SqliteRenderer end.

Definition quote (r : SqlRenderer) (name : string) : string := Quoted_fmt (r_quote r name).
Definition quote_with_schema (r : SqlRenderer) (schema_name name : string) : string :=
  QuotedWithSchema_fmt schema_name (r_quote r name).
End renderers.

(** ** Reading literals back

    How a database reads the text after the opening quote of a literal: the
    content and what follows the closing quote. A doubled quote stands for a
    quote; with [backslashes], a backslash makes the next quote or backslash
    part of the content. Other escapes are not needed and not read. *)
Fixpoint read_literal (backslashes : bool) (s : string) : option (string * string) :=
  match s with
  | EmptyString => None
  | String c s' =>
      if c ≟ squote then
        match s' with
        | String d s'' =>
            if d ≟ squote then (fun '(v, rest) => (String squote v, rest)) <$> read_literal backslashes s''
            else Some ("", s')
        | EmptyString => Some ("", "")
        end
      else if backslashes && (c ≟ backslash) then
        match s' with
        | String d s'' =>
            if (d ≟ squote) || (d ≟ backslash) then (fun '(v, rest) => (String d v, rest)) <$> read_literal backslashes s''
            else None
        | EmptyString => None
        end
      else (fun '(v, rest) => (String c v, rest)) <$> read_literal backslashes s'
  end.
Definition starts_with_quote (s : string) : bool :=
  match s with String c _ => c ≟ squote | EmptyString => false end.

Lemma read_end b rest : starts_with_quote rest = false -> read_literal b (String squote rest) = Some ("", rest).
Proof.
  intros Hr. cbn [read_literal]. rewrite bool_decide_eq_true_2 by reflexivity.
  destruct rest as [|d rest]; [reflexivity|]. cbn [starts_with_quote] in Hr. by rewrite Hr.
Qed.
Fixpoint has_char (c : ascii) (s : string) : bool :=
  match s with EmptyString => false | String d s => (d ≟ c) || has_char c s end.

Abbreviation push_char c r := ((fun '(v, rest) => (String c v, rest)) <$> r).
Lemma read_quotes b s : read_literal b (String squote (String squote s)) = push_char squote (read_literal b s).
Proof. reflexivity. Qed.
Lemma read_backslash d s : d = squote \/ d = backslash ->
  read_literal true (String backslash (String d s)) = push_char d (read_literal true s).
Proof. intros [->| ->]; reflexivity. Qed.
Lemma read_plain b c s : c <> squote -> (b && (c ≟ backslash)) = false ->
  read_literal b (String c s) = push_char c (read_literal b s).
Proof. intros Hq Hb. cbn [read_literal]. by rewrite bool_decide_eq_false_2, Hb. Qed.

Lemma read_doubled b v rest : starts_with_quote rest = false -> (b && has_char backslash v) = false ->
  read_literal b (prefix_chars (fun c => (c ≟ squote)) squote v +:+ String squote rest) = Some (v, rest).
Proof.
  intros Hr. induction v as [|c v IH]; intros Hb; [by apply read_end|]. cbn [has_char] in Hb.
  assert (H1 : (b && (c ≟ backslash)) = false /\ (b && has_char backslash v) = false).
  { destruct b; [|done]. by apply orb_false_iff. }
  destruct H1 as [H1 H2]. specialize (IH H2). cbn [prefix_chars].
  destruct (bool_decide_reflect (c = squote)) as [->|Hq].
  - change (read_literal b (String squote (String squote (prefix_chars (fun c => (c ≟ squote)) squote v +:+ String squote rest))) = Some (String squote v, rest)).
    by rewrite read_quotes, IH.
  - change (read_literal b (String c (prefix_chars (fun c => (c ≟ squote)) squote v +:+ String squote rest)) = Some (String c v, rest)).
    by rewrite read_plain, IH.
Qed.
Lemma read_escaped v rest : starts_with_quote rest = false ->
  read_literal true (postgres_escape_string_literal v +:+ String squote rest) = Some (v, rest).
Proof.
  intros Hr. unfold postgres_escape_string_literal. set (hit := fun c => (c ≟ squote) || (c ≟ backslash)).
  induction v as [|c v IH]; [by apply read_end|]. cbn [prefix_chars]. destruct (hit c) eqn:Eh.
  - change (read_literal true (String backslash (String c (prefix_chars hit backslash v +:+ String squote rest))) = Some (String c v, rest)).
    rewrite read_backslash, IH; [done|]. unfold hit in Eh. apply orb_true_iff in Eh as [Eh|Eh]; apply bool_decide_eq_true in Eh; auto.
  - change (read_literal true (String c (prefix_chars hit backslash v +:+ String squote rest)) = Some (String c v, rest)).
    unfold hit in Eh. apply orb_false_iff in Eh as [E1 E2]. apply bool_decide_eq_false in E1. by rewrite read_plain, IH.
Qed.

(** ** Theorems *)

(** A string default is rendered as a literal that the database reads back as the same string: always on SQLite and Postgres; on MySQL, where a backslash escapes the next character, when the string has no backslash. *)
Theorem string_default_reads_back `{ValueTypes} {E} (debug_list : list PrismaValue -> string) (v : string) :
  (exists t, sqlite_render_default (E := E) debug_list (VALUE (PV_String v)) String_ = Ok ("'" +:+ t) /\
     read_literal false t = Some (v, "")) /\
  (exists t, postgres_render_default (E := E) debug_list (VALUE (PV_String v)) String_ = Ok ("E'" +:+ t) /\
     read_literal true t = Some (v, "")) /\
  (exists t, mysql_render_default (E := E) debug_list (VALUE (PV_String v)) String_ = Ok ("'" +:+ t) /\
     (has_char backslash v = false -> read_literal true t = Some (v, ""))).
Proof.
  split_and!; (eexists; split; [reflexivity|]).
  - by apply (read_doubled false v "").
  - by apply (read_escaped v "").
  - intros Hb. by apply (read_doubled true v "").
Qed.

(** On MySQL the literal of a default that ends in a backslash has no end: the backslash is not escaped and takes the closing quote with it. *)
Theorem mysql_backslash_default_open `{ValueTypes} {E} (debug_list : list PrismaValue -> string) (v : string) :
  has_char backslash v = false ->
  exists t, mysql_render_default (E := E) debug_list (VALUE (PV_String (v +:+ String backslash ""))) String_ = Ok ("'" +:+ t) /\
    read_literal true t = None.
Proof.
  intros Hv. eexists. split; [reflexivity|]. unfold mysql_escape_string_literal.
  induction v as [|c v IH]; [reflexivity|].
  cbn [has_char] in Hv. apply orb_false_iff in Hv as [Hc Hv]. specialize (IH Hv).
  change (String c v +:+ String backslash "") with (String c (v +:+ String backslash "")). cbn [prefix_chars].
  destruct (bool_decide_reflect (c = squote)) as [->|Hq].
  - change (read_literal true (String squote (String squote (prefix_chars (fun c => (c ≟ squote)) squote (v +:+ String backslash "") +:+ "'"))) = None).
    by rewrite read_quotes, IH.
  - change (read_literal true (String c (prefix_chars (fun c => (c ≟ squote)) squote (v +:+ String backslash "") +:+ "'")) = None).
    by rewrite read_plain, IH.
Qed.

Lemma mysql_backslash_default_open_witness :
  exists t, mysql_render_default (H := sample_values) (E := string) (fun _ => "") (VALUE (PV_String ("C:" +:+ String backslash ""))) String_ = Ok ("'" +:+ t) /\
    read_literal true t = None.
Proof. apply (mysql_backslash_default_open (E := string) (H := sample_values) (fun _ => "") "C:"). vm_compute. reflexivity. Defined.
