(* ===== verification/SqlInfer.v ===== *)
(** * From SQL schemas to SQL steps (sql_migration/expanded_alter_column.rs,
      sql_database_migration_inferrer.rs, sql_database_migration_inferrer/sqlite.rs)

    The expansion of a column change into [ALTER COLUMN] clauses, the
    corrections of the steps the differ computes, and the inference of an SQL
    migration. *)
From S2P Require Import Prelude SqlSchema SqlDiffer SqlRender.
#[local] Open Scope string_scope.
#[local] Open Scope list_scope.

Section infer.
Context `{ValueTypes} (debug_list : list PrismaValue -> string) (postgres_ignored_tables : string -> bool).

(** ** Expanded column changes *)
Inductive PostgresAlterColumn : Type :=
| PgSetDefault (d : DefaultValue)
| PgDropDefault
| PgDropNotNull
| PgSetType (t : ColumnType).
Inductive MysqlAlterColumn : Type :=
| MySetDefault (d : DefaultValue)
| MyDropDefault.
Inductive SqliteAlterColumn : Type := .
Inductive ExpandedAlterColumn : Type :=
| ExpandedPostgres (l : list PostgresAlterColumn)
| ExpandedMysql (l : list MysqlAlterColumn)
| ExpandedSqlite (l : list SqliteAlterColumn).

Definition expand_sqlite_alter_column (_ : ColumnDiffer) : option (list SqliteAlterColumn) := None.

(** The loop over the changes; [acc] is what was pushed so far. *)
Fixpoint expand_mysql_loop (columns : ColumnDiffer) (l : list ColumnChange) (acc : list MysqlAlterColumn) :
    option (list MysqlAlterColumn) :=
  match l with
  | [] => Some acc
  | Default :: l =>
      match c_default (cd_next columns) with
      | Some next_default => expand_mysql_loop columns l (acc ++ [MySetDefault next_default])
      | None => expand_mysql_loop columns l (acc ++ [MyDropDefault])
      end
  | _ :: _ => None
  end.
Definition expand_mysql_alter_column (columns : ColumnDiffer) : option (list MysqlAlterColumn) :=
  expand_mysql_loop columns (changes_iter (all_changes columns)) [].

Fixpoint expand_postgres_loop {E} (columns : ColumnDiffer) (l : list ColumnChange) (acc : list PostgresAlterColumn) :
    outcome E (option (list PostgresAlterColumn)) :=
  match l with
  | [] => Ok (Some acc)
  | Default :: l =>
      match c_default (cd_next columns) with
      | Some next_default => expand_postgres_loop columns l (acc ++ [PgSetDefault next_default])
      | None => expand_postgres_loop columns l (acc ++ [PgDropDefault])
      end
  | Arity :: l =>
      match arity (c_tpe (cd_previous columns)), arity (c_tpe (cd_next columns)) with
      | Required, Nullable => expand_postgres_loop columns l (acc ++ [PgDropNotNull])
      | _, _ => Ok None
      end
  | Type_ :: l =>
      match family (c_tpe (cd_previous columns)), family (c_tpe (cd_next columns)) with
      | Int, String_ => expand_postgres_loop columns l (acc ++ [PgSetType (c_tpe (cd_next columns))])
      | _, _ => Ok None
      end
  | Renaming :: _ => Panic "column renaming"
  end.
Definition expand_postgres_alter_column {E} (columns : ColumnDiffer) : outcome E (option (list PostgresAlterColumn)) :=
  expand_postgres_loop columns (changes_iter (all_changes columns)) [].

Definition expand_alter_column {E} (previous_column next_column : Column) (f : SqlFamily) (o : DiffingOptions) :
    outcome E (option ExpandedAlterColumn) :=
  let column_differ := mkColumnDiffer o previous_column next_column in
  match f with
  | Sqlite => Ok (option_map ExpandedSqlite (expand_sqlite_alter_column column_differ))
  | Mysql => Ok (option_map ExpandedMysql (expand_mysql_alter_column column_differ))
  | Postgres => steps ← expand_postgres_alter_column column_differ; Ok (option_map ExpandedPostgres steps)
  end.

(** ** Corrections for SQLite (sqlite.rs) *)
Definition needs_fix (a : AlterTable) : bool :=
  iter_any (fun change =>
    match change with
    | TC_AddColumn x => arity (c_tpe (ac_column x)) ≟ Required
    | TC_DropColumn _ => true
    | TC_AlterColumn _ => true
    | TC_DropForeignKey _ => true
    end) (at_changes a).

Definition became_required_with_a_default (columns : ColumnDiffer) : bool :=
  arity_changed (all_changes columns)
  && arity_is_required (arity (c_tpe (cd_next columns)))
  && match c_default (cd_next columns) with Some _ => true | None => false end.
Definition cd_name (columns : ColumnDiffer) : string := c_name (cd_previous columns).
(** The columns copied as they are, and those copied with [coalesce]. *)
Definition coalesced_columns (differ : TableDiffer) : list ColumnDiffer :=
  iter_filter became_required_with_a_default (column_pairs differ).
Definition intersection_columns (differ : TableDiffer) : list string :=
  cd_name <$> iter_filter (fun columns =>
    negb (iter_any (fun excluded => cd_name excluded ≟ cd_name columns) (coalesced_columns differ))) (column_pairs differ).
Definition source_column {E} (columns : ColumnDiffer) : outcome E string :=
  default ← unwrap "default on required column with default" (c_default (cd_next columns));
  default_value ← sqlite_render_default debug_list default (family (c_tpe (cd_next columns)));
  let column_name := Quoted_fmt (sqlite_ident (cd_name columns)) in
  Ok ("coalesce(" +:+ column_name +:+ ", " +:+ default_value +:+ ") AS " +:+ column_name).
Definition copy_current_table_into_new_table {E} (steps : list SqlMigrationStep) (differ : TableDiffer)
    (schema_name : string) : outcome E (list SqlMigrationStep) :=
  let ident s := Quoted_fmt (sqlite_ident s) in
  let destination_columns := intersection_columns differ ++ (cd_name <$> coalesced_columns differ) in
  coalesced ← map_m source_column (coalesced_columns differ);
  let source_columns := (ident <$> intersection_columns differ) ++ coalesced in
  Ok (steps ++ [RawSql (
    "INSERT INTO " +:+ ident schema_name +:+ "." +:+ ident (t_name (td_next differ)) +:+ " ("
    +:+ join ", " (ident <$> destination_columns) +:+ ") SELECT "
    +:+ join ", " source_columns
    +:+ " FROM " +:+ ident schema_name +:+ "." +:+ ident (t_name (td_previous differ)))]).

Definition with_name (name : string) (t : Table) : Table :=
  mkTable name (t_columns t) (t_indices t) (t_primary_key t) (t_foreign_keys t).
Definition fix_table {E} (current next : Table) (schema_name : string) (info : DatabaseInfo) :
    outcome E (list SqlMigrationStep) :=
  let name_of_temporary_table := "new_" +:+ t_name next in
  let temporary_table := with_name name_of_temporary_table next in
  let diffing_options := from_database_info postgres_ignored_tables info in
  result ← copy_current_table_into_new_table [CreateTableStep (mkCreateTable temporary_table)]
             (mkTableDiffer diffing_options current temporary_table) schema_name;
  Ok (result
      ++ [DropTableStep (mkDropTable (t_name current)); RenameTable name_of_temporary_table (t_name next)]
      ++ ((fun index => CreateIndexStep (mkCreateIndex (t_name next) index)) <$> t_indices next)).
Definition sqlite_fix_table (current_schema next_schema : SqlSchema) (table_name schema_name : string) (info : DatabaseInfo) :
    outcome string (list SqlMigrationStep) :=
  current_table ← table current_schema table_name;
  next_table ← table next_schema table_name;
  fix_table current_table next_table schema_name info.

(** One round of the loop of [fix], on [result] and [fixed_tables]. *)
Definition fix_step (current_schema next_schema : SqlSchema) (schema_name : string) (info : DatabaseInfo)
    (acc : list SqlMigrationStep * list string) (step : SqlMigrationStep) :
    outcome string (list SqlMigrationStep * list string) :=
  let '(result, fixed_tables) := acc in
  let fix_this name :=
    steps ← sqlite_fix_table current_schema next_schema name schema_name info;
    Ok (result ++ steps, fixed_tables ++ [name]) in
  match step with
  | AlterTableStep a =>
      if needs_fix a && has_table current_schema (t_name (at_table a))
      then fix_this (t_name (at_table a))
      else Ok (result ++ [step], fixed_tables)
  | AddForeignKeyStep x =>
      if contains (afk_table x) fixed_tables then Ok (result, fixed_tables) else Ok (result ++ [step], fixed_tables)
  | CreateIndexStep x =>
      if contains (ci_table x) fixed_tables then Ok (result, fixed_tables) else Ok (result ++ [step], fixed_tables)
  | AlterIndexStep x => fix_this (ai_table x)
  | _ => Ok (result ++ [step], fixed_tables)
  end.
Definition sqlite_fix (d : SqlSchemaDiff) (current_schema next_schema : SqlSchema) (schema_name : string) (info : DatabaseInfo) :
    outcome string (list SqlMigrationStep) :=
  '(result, _) ← for_each (fix_step current_schema next_schema schema_name info) (into_steps d)
                   ([RawSql "PRAGMA foreign_keys=OFF;"], []);
  if length result ≟ 1%nat then Ok [] else
  Ok (result ++ [RawSql ("PRAGMA " +:+ Quoted_fmt (sqlite_ident schema_name) +:+ ".foreign_key_check;");
                 RawSql "PRAGMA foreign_keys=ON;"]).

(** ** Corrections for the other databases *)
Definition changes_id_column {E} (current_table : Table) (c : TableChange) : outcome E bool :=
  match c with
  | TC_AlterColumn x =>
      current_column ← column_bang current_table (alc_name x);
      let has_type_changed := negb (family (c_tpe current_column) ≟ family (c_tpe (alc_column x))) in
      let is_part_of_pk := contains (alc_name x) (primary_key_columns current_table) in
      Ok (is_part_of_pk && has_type_changed)
  | _ => Ok false
  end.
Definition is_id_type_change {E} (from : SqlSchema) (step : SqlMigrationStep) : outcome E bool :=
  match step with
  | AlterTableStep a =>
      match table from (t_name (at_table a)) with
      | Ok current_table => any_m (changes_id_column current_table) (at_changes a)
      | _ => Ok false
      end
  | _ => Ok false
  end.
Definition tables_to_drop (from : SqlSchema) : list string :=
  t_name <$> iter_filter (fun t => negb (t_name t ≟ MIGRATION_TABLE_NAME)) (tables from).
Definition fix_id_column_type_change {E} (from to : SqlSchema) (steps : list SqlMigrationStep) (f : SqlFamily)
    (info : DatabaseInfo) : outcome E (list SqlMigrationStep) :=
  has_id_type_change ← any_m (is_id_type_change from) steps;
  if has_id_type_change : bool then
    let radical_steps := (fun name => DropTableStep (mkDropTable name)) <$> tables_to_drop from in
    let diff_from_empty := diff SqlSchema_empty to f (from_database_info postgres_ignored_tables info) in
    Ok (radical_steps ++ into_steps diff_from_empty)
  else Ok steps.

Definition infer_database_migration_steps_and_fix (from to : SqlSchema) (schema_name : string) (f : SqlFamily)
    (info : DatabaseInfo) : outcome string (list SqlMigrationStep * list SqlMigrationStep) :=
  let d := diff from to f (from_database_info postgres_ignored_tables info) in
  corrected_steps ←
    (if f ≟ Sqlite then sqlite_fix d from to schema_name info
     else fix_id_column_type_change from to (into_steps d) f info);
  Ok (into_steps (diff from to f (from_database_info postgres_ignored_tables info)), corrected_steps).

Definition infer (current_schema expected_schema : SqlSchema) (schema_name : string) (f : SqlFamily) (info : DatabaseInfo) :
    outcome string SqlMigration :=
  '(original_steps, corrected_steps) ←
     infer_database_migration_steps_and_fix current_schema expected_schema schema_name f info;
  '(_, rollback) ←
     infer_database_migration_steps_and_fix expected_schema current_schema schema_name f info;
  Ok (mkSqlMigration current_schema expected_schema original_steps corrected_steps rollback).
End infer.

(** ** The meaning of the clauses *)
Section clauses.
Context `{VT : ValueTypes}.

Definition set_default (d : option DefaultValue) (c : Column) : Column :=
  mkColumn (c_name c) (c_tpe c) d (c_auto_increment c).
Definition set_type (t : ColumnType) (c : Column) : Column :=
  mkColumn (c_name c) t (c_default c) (c_auto_increment c).
Definition set_arity (a : ColumnArity) (t : ColumnType) : ColumnType :=
  mkColumnType (data_type t) (full_data_type t) (character_maximum_length t) (family t) a.
(** What an [ALTER COLUMN] clause does to a column. [SET DATA TYPE] changes the
    type and leaves the nullability alone. *)
Definition postgres_clause (c : Column) (a : PostgresAlterColumn) : Column :=
  match a with
  | PgSetDefault d => set_default (Some d) c
  | PgDropDefault => set_default None c
  | PgDropNotNull => set_type (set_arity Nullable (c_tpe c)) c
  | PgSetType t => set_type (set_arity (arity (c_tpe c)) t) c
  end.
Definition mysql_clause (c : Column) (a : MysqlAlterColumn) : Column :=
  match a with
  | MySetDefault d => set_default (Some d) c
  | MyDropDefault => set_default None c
  end.

Lemma differs_false d : differs_in_something d = false <-> changes_iter (all_changes d) = [].
Proof.
  unfold differs_in_something. rewrite bool_decide_eq_false. destruct (changes_iter _); simpl; [|by split; intros; try lia].
  split; intros; [done|lia].
Qed.
(** The four tests behind [differs_in_something]. *)
Lemma differs_false_iff d : differs_in_something d = false <->
  c_name (cd_previous d) = c_name (cd_next d) /\ column_type_changed d = false /\
  arity (c_tpe (cd_previous d)) = arity (c_tpe (cd_next d)) /\ defaults_match d = true.
Proof.
  rewrite differs_false. unfold changes_iter, all_changes; cbn [changes].
  repeat case_bool; destruct (column_type_changed d), (defaults_match d); cbn;
    (split; [intros; simplify_eq; auto|intros (? & ? & ? & ?); simplify_eq; congruence]).
Qed.
Lemma changes_of d : changes_iter (all_changes d) =
  (if negb (c_name (cd_previous d) ≟ c_name (cd_next d)) then [Renaming] else [])
  ++ (if column_type_changed d then [Type_] else [])
  ++ (if negb (arity (c_tpe (cd_previous d)) ≟ arity (c_tpe (cd_next d))) then [Arity] else [])
  ++ (if negb (defaults_match d) then [Default] else []).
Proof.
  unfold changes_iter, all_changes; cbn [changes].
  repeat case_bool; destruct (column_type_changed d), (defaults_match d); reflexivity.
Qed.
Lemma defaults_match_next (HVT : ValueTypesOk VT) o c n :
  c_default c = c_default n -> defaults_match (mkColumnDiffer o c n) = true.
Proof.
  intros Hd. unfold defaults_match; cbn [cd_previous cd_next]. destruct (c_auto_increment c); [done|].
  rewrite Hd. destruct (c_default n) as [[v| |s|s]|]; try reflexivity. by apply value_eqb_refl.
Qed.
Lemma column_type_changed_same o p n : family (c_tpe p) = family (c_tpe n) -> column_type_changed (mkColumnDiffer o p n) = false.
Proof.
  intros Hf. unfold column_type_changed; cbn [cd_previous cd_next cd_options].
  destruct (_ && _ && _); [done|]. by rewrite bool_decide_eq_true_2.
Qed.

Section expansions.
Variables (o : DiffingOptions) (p n : Column).
Hypothesis (HVT : ValueTypesOk VT) (Hname : c_name p = c_name n).
Abbreviation cols := (mkColumnDiffer o p n).

(** The clauses for each kind of change, when there are clauses for it. *)
Definition type_clauses : option (list PostgresAlterColumn) :=
  if column_type_changed cols then
    match family (c_tpe p), family (c_tpe n) with
    | Int, String_ => Some [PgSetType (c_tpe n)]
    | _, _ => None
    end
  else Some [].
Definition arity_clauses : option (list PostgresAlterColumn) :=
  if negb (arity (c_tpe p) ≟ arity (c_tpe n)) then
    match arity (c_tpe p), arity (c_tpe n) with
    | Required, Nullable => Some [PgDropNotNull]
    | _, _ => None
    end
  else Some [].
Definition default_clauses : list PostgresAlterColumn :=
  if negb (defaults_match cols) then
    match c_default n with Some d => [PgSetDefault d] | None => [PgDropDefault] end
  else [].

Lemma expand_postgres_clauses {E} :
  expand_postgres_alter_column (E := E) cols =
  Ok (match type_clauses, arity_clauses with
      | Some a, Some b => Some (a ++ b ++ default_clauses)
      | _, _ => None
      end).
Proof.
  unfold expand_postgres_alter_column. rewrite changes_of. cbn [cd_previous cd_next].
  rewrite (bool_decide_eq_true_2 (c_name p = c_name n)) by done. cbn [negb app].
  unfold type_clauses, arity_clauses, default_clauses.
  destruct (column_type_changed cols), (arity (c_tpe p) ≟ arity (c_tpe n)), (defaults_match cols);
    cbn [negb app expand_postgres_loop cd_previous cd_next];
    destruct (family (c_tpe p)), (family (c_tpe n)); try reflexivity;
    destruct (arity (c_tpe p)), (arity (c_tpe n)); try reflexivity;
    cbn; destruct (c_default n); reflexivity.
Qed.

Lemma column_type_changed_ext c : family (c_tpe c) = family (c_tpe p) ->
  column_type_changed (mkColumnDiffer o c n) = column_type_changed cols.
Proof. intros Hf. unfold column_type_changed; cbn [cd_previous cd_next cd_options]. by rewrite Hf. Qed.
Lemma defaults_match_ext c : c_default c = c_default p -> c_auto_increment c = c_auto_increment p ->
  defaults_match (mkColumnDiffer o c n) = defaults_match cols.
Proof. intros Hd Ha. unfold defaults_match; cbn [cd_previous cd_next]. by rewrite Hd, Ha. Qed.

Lemma default_clauses_spec c : c_default c = c_default p -> c_auto_increment c = c_auto_increment p ->
  let c' := foldl postgres_clause c default_clauses in
  c_name c' = c_name c /\ c_tpe c' = c_tpe c /\ defaults_match (mkColumnDiffer o c' n) = true.
Proof.
  intros Hd Ha. unfold default_clauses. destruct (defaults_match cols) eqn:Em; cbn [negb].
  - split_and!; [done..|]. cbn [foldl]. by rewrite defaults_match_ext.
  - destruct (c_default n) as [d|] eqn:En; cbn; (split_and!; [done..|]); apply defaults_match_next; by rewrite ?En.
Qed.
Lemma arity_clauses_spec c l : arity_clauses = Some l -> arity (c_tpe c) = arity (c_tpe p) ->
  let c' := foldl postgres_clause c l in
  c_name c' = c_name c /\ family (c_tpe c') = family (c_tpe c) /\ arity (c_tpe c') = arity (c_tpe n) /\
  c_default c' = c_default c /\ c_auto_increment c' = c_auto_increment c.
Proof.
  unfold arity_clauses. intros Hl Ha. case_bool.
  - by rewrite Ha.
  - destruct (arity (c_tpe p)), (arity (c_tpe n)) eqn:En; try discriminate Hl. injection Hl as <-. done.
Qed.
Lemma type_clauses_spec l : type_clauses = Some l ->
  let c' := foldl postgres_clause p l in
  c_name c' = c_name p /\ column_type_changed (mkColumnDiffer o c' n) = false /\ arity (c_tpe c') = arity (c_tpe p) /\
  c_default c' = c_default p /\ c_auto_increment c' = c_auto_increment p.
Proof.
  unfold type_clauses. intros Hl. destruct (column_type_changed cols) eqn:Et.
  - destruct (family (c_tpe p)), (family (c_tpe n)) eqn:Ef; try discriminate Hl. injection Hl as <-.
    split_and!; try done. by apply column_type_changed_same.
  - injection Hl as <-. done.
Qed.
Lemma expanded_postgres {E} l : expand_postgres_alter_column (E := E) cols = Ok (Some l) ->
  differs_in_something (mkColumnDiffer o (foldl postgres_clause p l) n) = false.
Proof.
  rewrite expand_postgres_clauses. intros [= Hl].
  destruct type_clauses as [a|] eqn:Ea; [|done]. destruct arity_clauses as [b|] eqn:Eb; [|done]. injection Hl as <-.
  rewrite !foldl_app.
  destruct (type_clauses_spec _ Ea) as (A1 & A2 & A3 & A4 & A5). set (c1 := foldl postgres_clause p a) in *.
  destruct (arity_clauses_spec c1 _ Eb A3) as (B1 & B2 & B3 & B4 & B5). set (c2 := foldl postgres_clause c1 b) in *.
  destruct (default_clauses_spec c2) as (D1 & D2 & D3); [congruence..|]. set (c3 := foldl postgres_clause c2 default_clauses) in *.
  apply differs_false_iff. cbn [cd_previous cd_next]. split_and!; [congruence| |congruence|exact D3].
  unfold column_type_changed in *; cbn [cd_previous cd_next cd_options] in *. rewrite D2, B2. exact A2.
Qed.
End expansions.
End clauses.

(** ** Success of the inference *)
Section totality.
Context `{VT : ValueTypes} (debug_list : list PrismaValue -> string) (postgres_ignored_tables : string -> bool).
Abbreviation options := (from_database_info postgres_ignored_tables).

(** Foreign keys of an SQLite schema have no names; a default that SQLite can render. *)
Definition sqlite_schema (s : SqlSchema) : Prop :=
  Forall (fun t => Forall (fun fk => constraint_name fk = None) (t_foreign_keys t)) (tables s) /\
  Forall (fun t => Forall (fun c =>
    match c_default c with
    | Some (SEQUENCE _) => False
    | Some NOW => family (c_tpe c) = DateTime
    | _ => True
    end) (t_columns t)) (tables s).

Lemma sqlite_default_ok {E} d fam :
  match d with SEQUENCE _ => False | NOW => fam = DateTime | _ => True end ->
  exists s, sqlite_render_default (E := E) debug_list d fam = Ok s.
Proof.
  intros Hd. unfold sqlite_render_default, render_default_with.
  destruct d as [[]| | |]; try done; try rewrite Hd; destruct fam; by eexists.
Qed.

Lemma fix_table_ok {E} cur nxt s schema_name info : sqlite_schema s -> nxt ∈ tables s ->
  exists l, fix_table (E := E) debug_list postgres_ignored_tables cur nxt schema_name info = Ok l.
Proof.
  intros [_ Hd] Ht. rewrite Forall_forall in Hd. specialize (Hd _ Ht). rewrite Forall_forall in Hd.
  unfold fix_table, copy_current_table_into_new_table.
  edestruct (map_m_ok (source_column (E := E) debug_list)) as [l Hl]; [|rewrite Hl; cbn; by eexists].
  intros cd [Hcd [_ Hsome]%andb_true_iff]%iter_filter_elem.
  apply column_pairs_elem in Hcd as (_ & Hn & _). cbn [td_next with_name t_columns] in Hn. specialize (Hd _ Hn).
  unfold source_column. destruct (c_default (cd_next cd)) as [d|]; [|done]. cbn [unwrap mbind outcome_bind].
  edestruct (sqlite_default_ok (E := E) d (family (c_tpe (cd_next cd)))) as [v ->]; [by destruct d|]. by eexists.
Qed.

Lemma sqlite_fix_table_ok cur nxt name schema_name info : sqlite_schema nxt ->
  name ∈ t_name <$> tables cur -> name ∈ t_name <$> tables nxt ->
  exists l, sqlite_fix_table debug_list postgres_ignored_tables cur nxt name schema_name info = Ok l.
Proof.
  intros Hs Hc Hn. unfold sqlite_fix_table. rewrite !table_get.
  destruct (get_table cur name) as [ct|] eqn:Ec; [|by apply get_table_None in Ec].
  destruct (get_table nxt name) as [nt|] eqn:En; [|by apply get_table_None in En].
  cbn. apply get_table_Some in En as [Hin _]. by eapply fix_table_ok.
Qed.

(** The tables of an [AlterTable] step of SQLite are in both schemas. *)
Lemma sqlite_alter_table cur nxt f o a : sqlite_schema cur -> a ∈ d_alter_tables (diff cur nxt f o) ->
  t_name (at_table a) ∈ t_name <$> tables cur /\ t_name (at_table a) ∈ t_name <$> tables nxt.
Proof.
  intros [Hfk _] Ha. rewrite Forall_forall in Hfk. cbn [diff diff_internal d_alter_tables] in Ha.
  apply elem_of_app in Ha as [(t & Ht & Ha)%list_elem_of_omap|Ha].
  - cbn [sd_next sd_previous sd_options] in *. rewrite table_get in Ha.
    destruct (get_table nxt (t_name t)) as [n|] eqn:En; [|done]. apply get_table_Some in En as [Hn Hname].
    destruct (table_changes _); [done|]. injection Ha as <-. cbn [at_table]. split.
    + rewrite Hname. by apply list_elem_of_fmap_2.
    + by apply list_elem_of_fmap_2.
  - cbn [drop_tables snd] in Ha. apply list_elem_of_bind in Ha as (t & (n & _ & Hn)%list_elem_of_fmap & Ht).
    apply iter_filter_elem in Ht as [[Ht _]%iter_filter_elem _]. cbn [sd_previous] in Ht.
    apply list_elem_of_omap in Hn as (fk & Hin & Hsome). specialize (Hfk _ Ht). rewrite Forall_forall in Hfk.
    rewrite Hfk in Hsome by done. done.
Qed.
Lemma alter_index_tables prev next f o x : x ∈ d_alter_indexes (diff prev next f o) ->
  ai_table x ∈ t_name <$> tables prev /\ ai_table x ∈ t_name <$> tables next.
Proof.
  cbn [diff diff_internal d_alter_indexes]. unfold alter_indexes. intros (d & Hx & Hd)%list_elem_of_bind.
  apply list_elem_of_fmap in Hx as ([p n] & -> & _). apply table_pairs_elem in Hd as (Hp & Hn & Heq & _).
  cbn [ai_table sd_previous sd_next] in *. split; [rewrite <-Heq|]; by apply list_elem_of_fmap_2.
Qed.

Lemma sqlite_fix_ok cur nxt schema_name info : sqlite_schema cur -> sqlite_schema nxt ->
  exists l, sqlite_fix debug_list postgres_ignored_tables (diff cur nxt Sqlite (options info)) cur nxt schema_name info = Ok l.
Proof.
  intros Hc Hn. unfold sqlite_fix.
  edestruct (for_each_ok (fix_step debug_list postgres_ignored_tables cur nxt schema_name info))
    as [[result fixed] Hr]; [|rewrite Hr; cbn; case_match; by eexists].
  intros [result fixed] step Hstep. rewrite into_steps_elem in Hstep.
  destruct step; cbn [fix_step]; try by eexists.
  - destruct (contains _ _); by eexists.
  - destruct (_ && _); [|by eexists]. destruct (sqlite_alter_table _ _ _ _ _ Hc Hstep) as [H1 H2].
    destruct (sqlite_fix_table_ok _ _ _ schema_name info Hn H1 H2) as [l ->]. by eexists.
  - destruct (contains _ _); by eexists.
  - destruct (alter_index_tables _ _ _ _ _ Hstep) as [H1 H2].
    destruct (sqlite_fix_table_ok _ _ _ schema_name info Hn H1 H2) as [l ->]. by eexists.
Qed.

Lemma fix_id_ok {E} from to f info : NoDup (t_name <$> tables from) ->
  exists l, fix_id_column_type_change (E := E) postgres_ignored_tables from to
    (into_steps (diff from to f (options info))) f info = Ok l.
Proof.
  intros Hnd. unfold fix_id_column_type_change.
  edestruct (any_m_ok (E := E) (is_id_type_change from)) as [b Hb]; [|rewrite Hb; cbn; destruct b; by eexists].
  intros step Hstep. rewrite into_steps_elem in Hstep. destruct step as [| |a| | | | | | | | | |]; try by eexists.
  cbn [is_id_type_change]. rewrite table_get. destruct (get_table from (t_name (at_table a))) as [t|] eqn:Et; [|by eexists].
  apply any_m_ok. intros [|x| |] Hx; try by eexists.
  apply alter_table_before in Hstep as (t' & Ht' & Hname & Hcol). rewrite <-Hname, (get_table_elem _ _ Hnd Ht') in Et.
  injection Et as <-. destruct (Hcol _ Hx) as (_ & _ & c & Hc & Hcn).
  cbn [changes_id_column]. unfold column_bang, column. destruct (iter_find _ _) as [c'|] eqn:Ef; [by eexists|].
  rewrite iter_find_None in Ef. specialize (Ef _ Hc). by rewrite bool_decide_eq_true_2 in Ef.
Qed.
End totality.

(** ** The shape of the corrected steps *)
Section shape.
Context `{VT : ValueTypes} (debug_list : list PrismaValue -> string) (postgres_ignored_tables : string -> bool).

(** A step SQLite has a statement for: indexes cannot be renamed, and a table
    of the database only gains columns that may be null. *)
Definition sqlite_executable (cur : SqlSchema) (step : SqlMigrationStep) : Prop :=
  match step with
  | AlterIndexStep _ => False
  | AlterTableStep a => has_table cur (t_name (at_table a)) = false \/
      forall ch, ch ∈ at_changes a -> exists c, ch = TC_AddColumn (mkAddColumn c) /\ arity (c_tpe c) <> Required
  | _ => True
  end.
Lemma needs_fix_false a : needs_fix a = false ->
  forall ch, ch ∈ at_changes a -> exists c, ch = TC_AddColumn (mkAddColumn c) /\ arity (c_tpe c) <> Required.
Proof.
  unfold needs_fix. rewrite iter_any_false. intros Hf ch Hch. specialize (Hf ch Hch).
  destruct ch as [[c]|x|x|x]; try discriminate Hf. apply bool_decide_eq_false in Hf. eauto.
Qed.

Lemma sqlite_fix_table_executable cur nxt name schema_name info l :
  sqlite_fix_table debug_list postgres_ignored_tables cur nxt name schema_name info = Ok l -> Forall (sqlite_executable cur) l.
Proof.
  unfold sqlite_fix_table, fix_table, copy_current_table_into_new_table. intros Hl. inv_ok.
  repeat (apply Forall_app_2 || (apply Forall_cons_2; [exact I|]) || apply Forall_nil_2).
  apply Forall_fmap, Forall_forall. intros i _. exact I.
Qed.
Lemma fix_step_executable cur nxt schema_name info acc step acc' :
  Forall (sqlite_executable cur) acc.1 ->
  fix_step debug_list postgres_ignored_tables cur nxt schema_name info acc step = Ok acc' ->
  Forall (sqlite_executable cur) acc'.1.
Proof.
  destruct acc as [result fixed]. cbn [fst]. intros Hr Hs.
  assert (Hpush : forall st, sqlite_executable cur st -> Forall (sqlite_executable cur) (result ++ [st])).
  { intros st Hst. apply Forall_app. split; [done|]. by constructor. }
  assert (Hfix : forall name acc', (steps ← sqlite_fix_table debug_list postgres_ignored_tables cur nxt name schema_name info;
      Ok (result ++ steps, fixed ++ [name])) = Ok acc' -> Forall (sqlite_executable cur) acc'.1).
  { intros name acc1 Ha. inv_ok. cbn [fst]. apply Forall_app. split; [done|]. by eapply sqlite_fix_table_executable. }
  destruct step; cbn [fix_step] in Hs; try (injection Hs as <-; cbn [fst]; by apply Hpush).
  - destruct (contains _ _); injection Hs as <-; cbn [fst]; [done|by apply Hpush].
  - destruct (needs_fix x) eqn:En, (has_table cur _) eqn:Eh; cbn [andb] in Hs; [by eapply Hfix|..];
      injection Hs as <-; cbn [fst]; apply Hpush; cbn [sqlite_executable]; (by left) || (right; by apply needs_fix_false).
  - destruct (contains _ _); injection Hs as <-; cbn [fst]; [done|by apply Hpush].
  - by eapply Hfix.
Qed.
End shape.

(** ** Samples *)
Section samples.
#[local] Existing Instance sample_values.
Definition no_debug (l : list PrismaValue) : string := "[]".
Definition no_ignored (name : string) : bool := false.
Definition sample_info (f : SqlFamily) : DatabaseInfo := mkDatabaseInfo f "public" None.
(** [sample_users] without [Post], with the index of [User] renamed and its name column required. *)
Definition sample_users' : SqlSchema := sample_schema
  [sample_table "User" Int [sample_column "name" String_ Required] [mkIndex "User.name_unique" ["name"] Unique] []].
(** The id of [User] becomes a string. *)
Definition sample_users_id : SqlSchema := sample_schema
  [sample_table "User" String_ [sample_column "name" String_ Nullable] [mkIndex "User.name" ["name"] Unique] [];
   sample_table "Post" Int [sample_column "author" Int Required] []
     [mkForeignKey None ["author"] "User" ["id"] Cascade]].
End samples.

(** ** Theorems *)

(** C10: The inference of an SQL migration always succeeds, on schemas with distinct names (and on SQLite with unnamed foreign keys and renderable defaults); the lookups it unwraps never fail. *)
Theorem infer_total `{VT : ValueTypes} debug_list postgres_ignored_tables (cur expected : SqlSchema) schema_name f info :
  names_distinct cur -> names_distinct expected ->
  (f = Sqlite -> sqlite_schema cur /\ sqlite_schema expected) ->
  exists m, infer debug_list postgres_ignored_tables cur expected schema_name f info = Ok m /\
    sm_before m = cur /\ sm_after m = expected /\
    sm_original_steps m = into_steps (diff cur expected f (from_database_info postgres_ignored_tables info)).
Proof.
  intros (Hc & _) (He & _) Hs.
  assert (Hone : forall a b, NoDup (t_name <$> tables a) -> (f = Sqlite -> sqlite_schema a /\ sqlite_schema b) ->
    exists l, infer_database_migration_steps_and_fix debug_list postgres_ignored_tables a b schema_name f info =
      Ok (into_steps (diff a b f (from_database_info postgres_ignored_tables info)), l)).
  { intros a b Ha Hab. unfold infer_database_migration_steps_and_fix. case_bool.
    - destruct (Hab eq_refl) as [H1 H2].
      destruct (sqlite_fix_ok debug_list postgres_ignored_tables a b schema_name info H1 H2) as [l ->]. by eexists.
    - destruct (fix_id_ok (E := string) postgres_ignored_tables a b f info Ha) as [l ->]. by eexists. }
  unfold infer. destruct (Hone cur expected Hc Hs) as [l1 ->]. cbn.
  destruct (Hone expected cur He) as [l2 ->]; [intros Hf; by destruct (Hs Hf)|]. cbn. by eexists.
Qed.

Lemma infer_total_witness : exists m,
  infer no_debug no_ignored sample_users sample_users' "public" Sqlite (sample_info Sqlite) = Ok m /\
    sm_before m = sample_users /\ sm_after m = sample_users' /\
    sm_original_steps m = into_steps (diff sample_users sample_users' Sqlite (from_database_info no_ignored (sample_info Sqlite))).
Proof.
  apply infer_total.
  - apply (bool_decide_unpack (_ /\ _ /\ _)). vm_compute. reflexivity.
  - apply (bool_decide_unpack (_ /\ _ /\ _)). vm_compute. reflexivity.
  - intros _. split; (split; [apply (bool_decide_unpack (Forall _ _)); vm_compute; reflexivity|]);
      repeat (apply Forall_cons_2 || apply Forall_nil_2 || exact I).
Defined.

(** C18: The steps corrected for SQLite never rename an index and never alter a table of the database beyond adding nullable columns, and they are empty or run between switching foreign keys off and on. *)
Theorem sqlite_fix_executable `{VT : ValueTypes} debug_list postgres_ignored_tables d cur nxt schema_name info l :
  sqlite_fix debug_list postgres_ignored_tables d cur nxt schema_name info = Ok l ->
  Forall (sqlite_executable cur) l /\
  (l = [] \/ exists mid, l = RawSql "PRAGMA foreign_keys=OFF;" :: mid ++ [RawSql "PRAGMA foreign_keys=ON;"]).
Proof.
  unfold sqlite_fix. intros Hl. inv_ok. destruct a as [result fixed].
  assert (Hexec : Forall (sqlite_executable cur) result).
  { eapply (for_each_inv _ (fun acc => Forall (sqlite_executable cur) acc.1)) in E; [exact E| |repeat constructor].
    intros acc st acc' _. apply fix_step_executable. }
  assert (Hhead : exists r, result = RawSql "PRAGMA foreign_keys=OFF;" :: r).
  { eapply (for_each_inv _ (fun acc => exists r, acc.1 = RawSql "PRAGMA foreign_keys=OFF;" :: r)) in E; [exact E| |by eexists].
    intros [res fx] st acc' _ (r & Hr) Hf. cbn [fst] in Hr. subst res.
    destruct st; cbn [fix_step] in Hf; repeat case_match; inv_ok; simplify_eq; by eexists. }
  case_bool; inv_ok; [by auto|]. split; [apply Forall_app; split; [done|by repeat constructor]|].
  right. destruct Hhead as [r ->]. eexists (r ++ [_]). cbn. by rewrite <-app_assoc.
Qed.

Lemma sqlite_fix_executable_witness : exists l,
  sqlite_fix no_debug no_ignored (diff sample_users sample_users' Sqlite (from_database_info no_ignored (sample_info Sqlite)))
    sample_users sample_users' "public" (sample_info Sqlite) = Ok l /\ Forall (sqlite_executable sample_users) l.
Proof.
  assert (Hs : forall s, s = sample_users \/ s = sample_users' -> sqlite_schema s).
  { intros s [->| ->]; (split; [apply (bool_decide_unpack (Forall _ _)); vm_compute; reflexivity|]);
      repeat (apply Forall_cons_2 || apply Forall_nil_2 || exact I). }
  destruct (sqlite_fix_ok no_debug no_ignored sample_users sample_users' "public" (sample_info Sqlite)) as [l Hl]; [apply Hs; auto..|].
  exists l. split; [exact Hl|].
  exact (proj1 (sqlite_fix_executable no_debug no_ignored _ sample_users sample_users' "public" (sample_info Sqlite) l Hl)).
Defined.

(** The expansion of a column change for Postgres never panics on columns of the same name; the clauses it gives turn the previous column into one the differ does not tell from the next, and it gives none exactly for a type change other than integer to text or an arity change other than dropping NOT NULL. *)
Theorem expand_postgres_reaches_next `{VT : ValueTypes} (HVT : ValueTypesOk VT) {E} o (p n : Column) :
  c_name p = c_name n ->
  exists r, expand_postgres_alter_column (E := E) (mkColumnDiffer o p n) = Ok r /\
    match r with
    | Some l => differs_in_something (mkColumnDiffer o (foldl postgres_clause p l) n) = false
    | None =>
        (column_type_changed (mkColumnDiffer o p n) = true /\ ~ (family (c_tpe p) = Int /\ family (c_tpe n) = String_)) \/
        (arity (c_tpe p) <> arity (c_tpe n) /\ ~ (arity (c_tpe p) = Required /\ arity (c_tpe n) = Nullable))
    end.
Proof.
  intros Hname. rewrite (expand_postgres_clauses _ _ _ Hname). eexists. split; [reflexivity|].
  destruct (type_clauses o p n) as [a|] eqn:Ea; [destruct (arity_clauses p n) as [b|] eqn:Eb|].
  - apply (expanded_postgres o p n HVT Hname (E := E)). by rewrite (expand_postgres_clauses _ _ _ Hname), Ea, Eb.
  - right. unfold arity_clauses in Eb. case_bool. split; [done|]. intros [H1 H2]. by rewrite H1, H2 in Eb.
  - left. unfold type_clauses in Ea. destruct (column_type_changed _); [|done]. split; [done|].
    intros [H1 H2]. by rewrite H1, H2 in Ea.
Qed.

Lemma expand_postgres_reaches_next_witness : exists l,
  let o := from_database_info no_ignored (sample_info Postgres) in
  let p := @sample_column "a" Int Required in
  let n := @sample_column "a" String_ Nullable in
  expand_postgres_alter_column (E := string) (mkColumnDiffer o p n) = Ok (Some l) /\ length l = 2%nat /\
  differs_in_something (mkColumnDiffer o (foldl postgres_clause p l) n) = false.
Proof.
  destruct (expand_postgres_reaches_next sample_values_ok (E := string) (from_database_info no_ignored (sample_info Postgres))
    (@sample_column "a" Int Required) (@sample_column "a" String_ Nullable) eq_refl) as ([l|] & Hr & Hm).
  - exists l. cbv zeta. split; [exact Hr|]. split; [|exact Hm].
    change (@Ok string (option (list (@PostgresAlterColumn sample_values))) (Some [PgSetType (ColumnType_pure String_ Nullable); PgDropNotNull]) = Ok (Some l)) in Hr.
    injection Hr as <-. reflexivity.
  - destruct Hm as [[_ Hm]|[_ Hm]]; destruct Hm; split; reflexivity.
Defined.

(** When no foreign key of the expected schema has a name, the rollback of a migration never drops a foreign key, as the schema calculator names none. *)
Theorem rollback_keeps_foreign_keys `{VT : ValueTypes} (cur expected : SqlSchema) f o a x :
  Forall (fun t => Forall (fun fk => constraint_name fk = None) (t_foreign_keys t)) (tables expected) ->
  AlterTableStep a ∈ into_steps (diff expected cur f o) -> TC_DropForeignKey x ∉ at_changes a.
Proof.
  intros Hfk Ha Hx. rewrite Forall_forall in Hfk. rewrite into_steps_elem in Ha. cbn [diff diff_internal d_alter_tables] in Ha.
  assert (Hnone : forall t fk, t ∈ tables expected -> fk ∈ t_foreign_keys t -> constraint_name fk = None).
  { intros t fk Ht Hin. specialize (Hfk t Ht). rewrite Forall_forall in Hfk. auto. }
  apply elem_of_app in Ha as [(t & Ht & Ha)%list_elem_of_omap|Ha].
  - cbn [sd_next sd_previous sd_options] in *. rewrite table_get in Ha. destruct (get_table cur (t_name t)) as [n|]; [|done].
    destruct (table_changes _) as [|c l] eqn:Ec; [done|]. injection Ha as <-. cbn [at_changes] in Hx. rewrite <-Ec in Hx.
    unfold table_changes in Hx. rewrite !elem_of_app in Hx. destruct Hx as [Hx|[Hx|[Hx|Hx]]].
    + apply list_elem_of_fmap in Hx as (nm & _ & (fk & [Hin _]%iter_filter_elem & Hsome)%list_elem_of_omap).
      rewrite (Hnone t fk Ht Hin) in Hsome. done.
    + apply list_elem_of_fmap in Hx as (? & [=] & _).
    + apply list_elem_of_fmap in Hx as (? & [=] & _).
    + apply alter_columns_elem in Hx as (cd & _ & [=]).
  - cbn [drop_tables snd] in Ha. apply list_elem_of_bind in Ha as (t & (nm & _ & (fk & Hin & Hsome)%list_elem_of_omap)%list_elem_of_fmap & Ht).
    apply iter_filter_elem in Ht as [[Ht _]%iter_filter_elem _]. rewrite (Hnone t fk Ht Hin) in Hsome. done.
Qed.

Lemma rollback_keeps_foreign_keys_witness :
  let a := mkAlterTable (@sample_table "User" Int [sample_column "name" String_ Required] [mkIndex "User.name_unique" ["name"] Unique] [])
             [TC_AlterColumn (mkAlterColumn "name" (@sample_column "name" String_ Required))] in
  AlterTableStep a ∈ into_steps (diff sample_users sample_users' Postgres (from_database_info no_ignored (sample_info Postgres))) /\
  TC_DropForeignKey (mkDropForeignKey "Post_author_fkey") ∉ at_changes a.
Proof.
  assert (Ha : AlterTableStep (mkAlterTable (@sample_table "User" Int [sample_column "name" String_ Required]
      [mkIndex "User.name_unique" ["name"] Unique] []) [TC_AlterColumn (mkAlterColumn "name" (@sample_column "name" String_ Required))])
    ∈ into_steps (diff sample_users sample_users' Postgres (from_database_info no_ignored (sample_info Postgres)))).
  { vm_compute. left. }
  split; [exact Ha|].
  refine (rollback_keeps_foreign_keys sample_users' sample_users Postgres (from_database_info no_ignored (sample_info Postgres)) _ _ _ Ha).
  apply (bool_decide_unpack (Forall _ _)). vm_compute. reflexivity.
Defined.
