(* ===== verification/SqlStatements.v ===== *)
(** * The statements of an SQL step (sql_database_step_applier.rs) *)
From Stdlib Require Import Ascii.
From S2P Require Import Prelude SqlSchema SqlDiffer SqlRender SqlInfer.
#[local] Open Scope string_scope.
#[local] Open Scope list_scope.

(** The errors of [render_raw_sql]; the source builds their messages from the same arguments. *)
Inductive RenderError : Type :=
| EnumNotInTargetSchema (name : string)
| NoColumnToAlter (name : string)
| NoEnum (name : string)
| NoTableInCurrentSchema (name : string)
| NoIndexInCurrentSchema (index table : string).

Definition newline : string := String "010"%char EmptyString.
(** The indentation inside the multi-line statement of [postgres_alter_enum]. *)
Definition indent : string := "                        ".

Section statements.
Context `{ValueTypes} (debug_list : list PrismaValue -> string) (postgres_ignored_tables : string -> bool).
Abbreviation SqlRenderer := (SqlRenderer (E := RenderError)).
Abbreviation result := (outcome RenderError).

Definition render_create_index (r : SqlRenderer) (info : DatabaseInfo) (table_name : string) (index : Index) : string :=
  let index_type := match i_tpe index with Unique => "UNIQUE" | Normal => "" end in
  let index_name := match info_family info with
                    | Sqlite => quote_with_schema r (info_schema_name info) (i_name index)
                    | _ => quote r (i_name index)
                    end in
  let table_reference := match info_family info with
                         | Sqlite => quote r table_name
                         | _ => quote_with_schema r (info_schema_name info) table_name
                         end in
  "CREATE " +:+ index_type +:+ " INDEX " +:+ index_name +:+ " ON " +:+ table_reference
  +:+ "(" +:+ join "," (quote r <$> i_columns index) +:+ ")".

Definition mysql_drop_index (r : SqlRenderer) (schema_name table_name index_name : string) : string :=
  "DROP INDEX " +:+ quote r index_name +:+ " ON " +:+ quote_with_schema r schema_name table_name.

Definition create_table_suffix (f : SqlFamily) : string :=
  match f with
  | Sqlite => ")"
  | Postgres => ")"
  | Mysql => newline +:+ ") DEFAULT CHARACTER SET utf8mb4 COLLATE utf8mb4_unicode_ci"
  end.

Definition postgres_alter_line (r : SqlRenderer) (prefix : string) (next_column : Column) (step : PostgresAlterColumn) :
    result string :=
  match step with
  | PgDropDefault => Ok (prefix +:+ " DROP DEFAULT")
  | PgSetDefault new_default =>
      d ← r_render_default r new_default (family (c_tpe next_column)); Ok (prefix +:+ " SET DEFAULT " +:+ d)
  | PgDropNotNull => Ok (prefix +:+ " DROP NOT NULL")
  | PgSetType ty => t ← postgres_render_column_type ty; Ok (prefix +:+ " SET DATA TYPE " +:+ t)
  end.
Definition mysql_alter_line (r : SqlRenderer) (prefix : string) (next_column : Column) (step : MysqlAlterColumn) :
    result string :=
  match step with
  | MyDropDefault => Ok (prefix +:+ " DROP DEFAULT")
  | MySetDefault new_default =>
      d ← r_render_default r new_default (family (c_tpe next_column)); Ok (prefix +:+ " SET DEFAULT " +:+ d)
  end.
Definition safe_alter_column (r : SqlRenderer) (previous_column next_column : Column) (o : DiffingOptions) :
    result (option (list string)) :=
  expanded ← expand_alter_column previous_column next_column (r_sql_family r) o;
  let alter_column_prefix := "ALTER COLUMN " +:+ quote r (c_name previous_column) in
  match expanded with
  | None => Ok None
  | Some (ExpandedPostgres steps) => Some <$> map_m (postgres_alter_line r alter_column_prefix next_column) steps
  | Some (ExpandedMysql steps) => Some <$> map_m (mysql_alter_line r alter_column_prefix next_column) steps
  | Some (ExpandedSqlite _) => Ok (Some [])
  end.

Definition render_create_enum (r : SqlRenderer) (x : CreateEnum) : list string :=
  match r_sql_family r with
  | Postgres => ["CREATE TYPE " +:+ Quoted_fmt (postgres_ident (cen_name x)) +:+ " AS ENUM ("
                 +:+ join ", " ((fun v => Quoted_fmt (postgres_string v)) <$> cen_variants x) +:+ ");"]
  | _ => []
  end.
Definition render_drop_enum (r : SqlRenderer) (x : DropEnum) : list string :=
  match r_sql_family r with
  | Postgres => ["DROP TYPE " +:+ Quoted_fmt (postgres_ident (den_name x))]
  | _ => []
  end.

Definition has_enum_type (name : string) (c : ColumnRef) : bool := family (c_tpe (cr_column c)) ≟ EnumFamily name.
Definition alter_enum_column (schema_name tmp_name new_enum_default : string) (c : ColumnRef) : string :=
  let column_name := Quoted_fmt (postgres_ident (c_name (cr_column c))) in
  let tmp := Quoted_fmt (postgres_ident tmp_name) in
  "ALTER TABLE " +:+ Quoted_fmt (postgres_ident schema_name) +:+ "." +:+ Quoted_fmt (postgres_ident (t_name (cr_table c)))
  +:+ " ALTER COLUMN " +:+ column_name +:+ " DROP DEFAULT," +:+ newline
  +:+ indent +:+ "ALTER COLUMN " +:+ column_name +:+ " TYPE " +:+ tmp
  +:+ " USING (" +:+ column_name +:+ "::text::" +:+ tmp +:+ ")," +:+ newline
  +:+ indent +:+ "ALTER COLUMN " +:+ column_name +:+ " SET DEFAULT " +:+ Quoted_fmt (postgres_string new_enum_default).
Definition postgres_alter_enum (x : AlterEnum) (next_schema : SqlSchema) (schema_name : string) : result (list string) :=
  match dropped_variants x with
  | [] =>
      Ok ((fun created_value => "ALTER TYPE " +:+ Quoted_fmt (postgres_ident (aen_name x)) +:+ " ADD VALUE "
                                +:+ Quoted_fmt (postgres_string created_value)) <$> created_variants x)
  | _ =>
      new_enum ← ok_or (EnumNotInTargetSchema (aen_name x)) (get_enum next_schema (aen_name x));
      let tmp_name := e_name new_enum +:+ "_new" in
      let tmp_old_name := aen_name x +:+ "_old" in
      altered ← map_m (fun c => d ← unwrap "called `Option::unwrap()` on a `None` value" (head (e_values new_enum));
                                Ok (alter_enum_column schema_name tmp_name d c))
                  (iter_filter (has_enum_type (aen_name x)) (walk_columns next_schema));
      Ok (["CREATE TYPE " +:+ Quoted_fmt (postgres_ident tmp_name) +:+ " AS ENUM ("
           +:+ join ", " ((fun v => Quoted_fmt (postgres_string v)) <$> e_values new_enum) +:+ ")"]
          ++ altered
          ++ ["ALTER TYPE " +:+ Quoted_fmt (postgres_ident (aen_name x)) +:+ " RENAME TO " +:+ Quoted_fmt (postgres_ident tmp_old_name);
              "ALTER TYPE " +:+ Quoted_fmt (postgres_ident tmp_name) +:+ " RENAME TO " +:+ Quoted_fmt (postgres_ident (e_name new_enum));
              "DROP TYPE " +:+ Quoted_fmt (postgres_ident tmp_old_name)])
  end.
Definition mysql_alter_enum (x : AlterEnum) (next_schema : SqlSchema) (schema_name : string) : result (list string) :=
  c ← ok_or (NoColumnToAlter (aen_name x)) (iter_find (has_enum_type (aen_name x)) (walk_columns next_schema));
  e ← ok_or (NoEnum (aen_name x)) (get_enum next_schema (aen_name x));
  Ok ["ALTER TABLE " +:+ Quoted_fmt (mysql_ident schema_name) +:+ "." +:+ Quoted_fmt (mysql_ident (t_name (cr_table c)))
      +:+ " CHANGE " +:+ c_name (cr_column c) +:+ " " +:+ c_name (cr_column c)
      +:+ " ENUM(" +:+ join ", " ((fun v => Quoted_fmt (mysql_string v)) <$> e_values e) +:+ ")"].

(** ** [render_raw_sql], a definition per kind of step *)
Section steps.
Variables (r : SqlRenderer) (info : DatabaseInfo) (current_schema next_schema : SqlSchema).
Abbreviation schema_name := (info_schema_name info).

Definition render_inline_foreign_key (fk : ForeignKey) : string :=
  "FOREIGN KEY (" +:+ join "," ((fun c => dquote +:+ c +:+ dquote) <$> fk_columns fk) +:+ ") "
  +:+ r_render_references r schema_name fk.
Definition render_create_table (t : Table) : result (list string) :=
  columns ← map_m (fun c => r_render_column r (mkColumnRef next_schema c t)) (t_columns t);
  let create_table := "CREATE TABLE " +:+ quote_with_schema r schema_name (t_name t) +:+ " (" +:+ newline +:+ join "," columns in
  let primary_key_is_already_set := str_contains "PRIMARY KEY" create_table in
  let primary_key :=
    match primary_key_columns t with
    | [] => ""
    | primary_columns =>
        if primary_key_is_already_set then ""
        else "," +:+ newline +:+ "    PRIMARY KEY (" +:+ join "," (quote r <$> primary_columns) +:+ ")"
    end in
  let foreign_keys :=
    match t_foreign_keys t with
    | [] => ""
    | fks => if r_sql_family r ≟ Sqlite then "," +:+ join ("," +:+ newline) (render_inline_foreign_key <$> fks) else ""
    end in
  Ok [create_table +:+ primary_key +:+ foreign_keys +:+ create_table_suffix (r_sql_family r)].

Definition render_drop_table (name : string) : list string :=
  match r_sql_family r with
  | Mysql | Postgres => ["DROP TABLE " +:+ quote_with_schema r schema_name name +:+ ";"]
  | Sqlite => ["PRAGMA foreign_keys=off"; "DROP TABLE " +:+ quote_with_schema r schema_name name +:+ ";"; "PRAGMA foreign_keys=on"]
  end.

Definition render_add_foreign_key (x : AddForeignKey) : list string :=
  match r_sql_family r with
  | Sqlite => []
  | _ =>
      let fk := afk_foreign_key x in
      ["ALTER TABLE " +:+ quote_with_schema r schema_name (afk_table x) +:+ " ADD "
       +:+ match constraint_name fk with Some n => "CONSTRAINT " +:+ quote r n +:+ " " | None => "" end
       +:+ "FOREIGN KEY (" +:+ join ", " (quote r <$> fk_columns fk) +:+ ")"
       +:+ r_render_references r schema_name fk]
  end.

(** The lines one change of an [AlterTable] step pushes. *)
Definition render_add_column (t : Table) (c : Column) : result string :=
  col_sql ← r_render_column r (mkColumnRef next_schema c t); Ok ("ADD COLUMN " +:+ col_sql).
Definition render_drop_column (name : string) : string := "DROP COLUMN " +:+ quote r name.
Definition render_change (t : Table) (change : TableChange) : result (list string) :=
  match change with
  | TC_AddColumn x => line ← render_add_column t (ac_column x); Ok [line]
  | TC_DropColumn x => Ok [render_drop_column (dc_name x)]
  | TC_AlterColumn x =>
      current_table ← unwrap "called `Option::unwrap()` on a `None` value" (get_table current_schema (t_name t));
      current_column ← unwrap "called `Option::unwrap()` on a `None` value" (column current_table (alc_name x));
      safe ← safe_alter_column r current_column (alc_column x) (from_database_info postgres_ignored_tables info);
      match safe with
      | Some safe_sql => Ok safe_sql
      | None => line ← render_add_column t (alc_column x); Ok [render_drop_column (alc_name x); line]
      end
  | TC_DropForeignKey x =>
      match r_sql_family r with
      | Mysql => Ok ["DROP FOREIGN KEY " +:+ quote r (dfk_constraint_name x)]
      | Postgres => Ok ["DROP CONSTRAINT IF EXiSTS " +:+ quote r (dfk_constraint_name x)]
      | Sqlite => Ok []
      end
  end.
Definition render_alter_table (x : AlterTable) : result (list string) :=
  lines ← map_m (render_change (at_table x)) (at_changes x);
  match concat lines with
  | [] => Ok []
  | lines => Ok ["ALTER TABLE " +:+ quote_with_schema r schema_name (t_name (at_table x)) +:+ " "
                 +:+ join ("," +:+ newline) lines +:+ ";"]
  end.

Definition render_alter_index (x : AlterIndex) : result (list string) :=
  match r_sql_family r with
  | Mysql =>
      if is_mariadb info || is_mysql_5_6 info then
        current_table ← map_err (fun _ => NoTableInCurrentSchema (ai_table x)) (table current_schema (ai_table x));
        old_index ← ok_or (NoIndexInCurrentSchema (ai_index_name x) (ai_table x))
                      (iter_find (fun i => i_name i ≟ ai_index_name x) (t_indices current_table));
        let new_index := mkIndex (ai_index_new_name x) (i_columns old_index) (i_tpe old_index) in
        Ok [render_create_index r info (ai_table x) new_index; mysql_drop_index r schema_name (ai_table x) (ai_index_name x)]
      else
        Ok ["ALTER TABLE " +:+ quote_with_schema r schema_name (ai_table x) +:+ " RENAME INDEX " +:+ quote r (ai_index_name x)
            +:+ " TO " +:+ quote r (ai_index_new_name x)]
  | Postgres =>
      Ok ["ALTER INDEX " +:+ quote_with_schema r schema_name (ai_index_name x) +:+ " RENAME TO " +:+ quote r (ai_index_new_name x)]
  | Sqlite => Panic "Index renaming on SQLite."
  end.

Definition render_raw_sql (step : SqlMigrationStep) : result (list string) :=
  match step with
  | CreateEnumStep x => Ok (render_create_enum r x)
  | DropEnumStep x => Ok (render_drop_enum r x)
  | AlterEnumStep x =>
      match r_sql_family r with
      | Postgres => postgres_alter_enum x next_schema schema_name
      | Mysql => mysql_alter_enum x next_schema schema_name
      | Sqlite => Ok []
      end
  | CreateTableStep x => render_create_table (ctb_table x)
  | DropTableStep x => Ok (render_drop_table (dtb_name x))
  | DropTablesStep x =>
      Ok ["DROP TABLE " +:+ join "," (quote_with_schema r schema_name <$> dtbs_names x) +:+ ";"]
  | RenameTable name new_name =>
      let new_name := match r_sql_family r with
                      | Sqlite => quote r new_name
                      | _ => quote_with_schema r schema_name new_name
                      end in
      Ok ["ALTER TABLE " +:+ quote_with_schema r schema_name name +:+ " RENAME TO " +:+ new_name +:+ ";"]
  | AddForeignKeyStep x => Ok (render_add_foreign_key x)
  | AlterTableStep x => render_alter_table x
  | CreateIndexStep x => Ok [render_create_index r info (ci_table x) (ci_index x)]
  | DropIndexStep x =>
      match r_sql_family r with
      | Mysql => Ok ["DROP INDEX " +:+ quote r (di_name x) +:+ " ON " +:+ quote_with_schema r schema_name (di_table x)]
      | Postgres | Sqlite => Ok ["DROP INDEX " +:+ quote_with_schema r schema_name (di_name x)]
      end
  | AlterIndexStep x => render_alter_index x
  | RawSql raw => Ok [raw]
  end.

(** [render_steps_pretty]: steps without statements are left out. *)
Fixpoint render_steps_pretty (steps : list SqlMigrationStep) : result (list PrettySqlMigrationStep) :=
  match steps with
  | [] => Ok []
  | step :: steps =>
      sqls ← render_raw_sql step;
      let sql := join (";" +:+ newline) sqls in
      rest ← render_steps_pretty steps;
      Ok (if sql ≟ "" then rest else mkPrettySqlMigrationStep step sql :: rest)
  end.
End steps.
End statements.
