(* ===== verification/Destructive.v ===== *)
(** * The checker of destructive changes (sql_destructive_changes_checker.rs)

    Before a migration runs, its steps are checked against the data in the
    database. *)
From S2P Require Import Prelude Effects SqlSchema SqlDiffer SqlRender SqlInfer.
From stdpp Require Import pretty.
#[local] Open Scope string_scope.
#[local] Open Scope list_scope.
#[local] Open Scope Z_scope.

(** The errors made by the checker itself; [QueryError] is an error of the database. *)
Inductive CheckError (E : Type) : Type :=
| QueryError (e : E)
| UnexpectedResultSetShape
| NoRowReturned (table : string)
| NoCountReturned (table : string).
Arguments QueryError {E} _.
Arguments UnexpectedResultSetShape {E}.
Arguments NoRowReturned {E} _.
Arguments NoCountReturned {E} _.

(** The two queries; the answer is the first cell of the first row, if there is
    a row and if the cell is an integer. *)
Class CountQueries `{ValueTypes} (S E : Type) : Type := {
  query_count_rows : string -> eff S E (option (option Z));
  query_count_values : string -> string -> eff S E (option (option Z));
}.

(** sql_unexecutable_migration.rs *)
Inductive SqlUnexecutableMigration : Type :=
| AddedRequiredFieldToTable (table column : string) (rows_count : option Z)
| MadeOptionalFieldRequired (table column : string).
Definition option_debug (o : option Z) : string :=
  match o with Some z => "Some(" +:+ pretty z +:+ ")" | None => "None" end.
Definition unexecutable_fmt (u : SqlUnexecutableMigration) : string :=
  match u with
  | AddedRequiredFieldToTable table column rows_count =>
      "Added the required column `" +:+ column +:+ "` to the `" +:+ table
      +:+ "` table without a default value. There are " +:+ option_debug rows_count
      +:+ " rows in this table, it is not possible."
  | MadeOptionalFieldRequired table column =>
      "Made the column `" +:+ column +:+ "` on table `" +:+ table +:+ "` required, but there are existing NULL values."
  end.

(** [as u64]. *)
Definition as_u64 (z : Z) : Z := z mod 2 ^ 64.
Definition is_some {A} (o : option A) : bool := match o with Some _ => true | None => false end.

Section checker.
Context `{ValueTypes} {S E : Type} `{!CountQueries S E}.
Variables (f : SqlFamily) (o : DiffingOptions).
Abbreviation diags := DestructiveChangeDiagnostics.
Abbreviation result := (eff S (CheckError E)).

Definition count_rows_in_table (table_name : string) : result Z :=
  result_set ← eff_map_err QueryError (query_count_rows table_name);
  row ← lift (ok_or (NoRowReturned table_name) result_set);
  lift (ok_or (NoCountReturned table_name) row).
Definition count_values_in_column (column_name : string) (t : Table) : result Z :=
  result_set ← eff_map_err QueryError (query_count_values column_name (t_name t));
  lift (ok_or UnexpectedResultSetShape (result_set ≫= id)).

Definition check_table_drop (table_name : string) (d : diags) : result diags :=
  rows_count ← count_rows_in_table table_name;
  mret (if 0 <? rows_count then
          add_warning (Some (mkMigrationWarning (
            "You are about to drop the table `" +:+ table_name +:+ "`, which is not empty (" +:+ pretty rows_count +:+ " rows)."))) d
        else d).

Definition check_column_drop (x : DropColumn) (t : Table) (d : diags) : result diags :=
  values_count ← count_values_in_column (dc_name x) t;
  mret (if 0 <? values_count then
          add_warning (Some (mkMigrationWarning (
            "You are about to drop the column `" +:+ dc_name x +:+ "` on the `" +:+ t_name t
            +:+ "` table, which still contains " +:+ pretty values_count +:+ " non-null values."))) d
        else d).

Definition check_add_column (x : AddColumn) (t : Table) (d : diags) : result diags :=
  let column_is_required_without_default :=
    arity_is_required (arity (c_tpe (ac_column x))) && negb (is_some (c_default (ac_column x))) in
  if negb column_is_required_without_default then mret d else
  rows_count ← count_rows_in_table (t_name t);
  mret (if rows_count =? 0 then d else
        add_unexecutable (mkUnexecutableMigration
          (unexecutable_fmt (AddedRequiredFieldToTable (t_name t) (c_name (ac_column x)) (Some (as_u64 rows_count))))) d).

Definition alter_column_is_safe (differ : ColumnDiffer) : outcome (CheckError E) bool :=
  match f with
  | Sqlite =>
      arity_change_is_safe ←
        match arity (c_tpe (cd_previous differ)), arity (c_tpe (cd_next differ)) with
        | Nullable, Required => Ok false
        | Required, Nullable => Ok true
        | Required, Required | Nullable, Nullable => Ok true
        | List_, _ | _, List_ => Panic "internal error: entered unreachable code"
        end;
      Ok (negb (type_changed (all_changes differ)) && arity_change_is_safe)
  | Postgres =>
      expanded ← expand_postgres_alter_column differ;
      match expanded with
      | Some steps => Ok (iter_all (fun step => match step with PgSetType _ => false | _ => true end) steps)
      | None => Ok false
      end
  | Mysql =>
      match expand_mysql_alter_column differ with
      | Some _ => Ok true
      | None => Ok false
      end
  end.

Definition check_for_column_arity_change (table_name : string) (differ : ColumnDiffer) (d : diags) : result diags :=
  rows_count ← count_rows_in_table table_name;
  mret (if negb (arity_changed (all_changes differ))
           || negb (arity_is_required (arity (c_tpe (cd_next differ))))
           || (rows_count =? 0)
           || is_some (c_default (cd_next differ))
        then d
        else add_unexecutable (mkUnexecutableMigration
               (unexecutable_fmt (MadeOptionalFieldRequired table_name (c_name (cd_previous differ))))) d).

Definition check_alter_column (x : AlterColumn) (previous_table : Table) (d : diags) : result diags :=
  previous_column ← lift (unwrap "unsupported column renaming" (column previous_table (alc_name x)));
  let differ := mkColumnDiffer o previous_column (alc_column x) in
  safe ← lift (alter_column_is_safe differ);
  if safe : bool then mret d else
  d ← check_for_column_arity_change (t_name previous_table) differ d;
  values_count ← count_values_in_column (alc_name x) previous_table;
  mret (if 0 <? values_count then
          add_warning (Some (mkMigrationWarning (
            "You are about to alter the column `" +:+ alc_name x +:+ "` on the `" +:+ t_name previous_table
            +:+ "` table, which still contains " +:+ pretty values_count
            +:+ " non-null values. The data in that column will be lost."))) d
        else if is_part_of_foreign_key previous_table (c_name (alc_column x))
                && negb (is_some (c_default (alc_column x))) && is_some (c_default previous_column) then
          add_warning (Some (mkMigrationWarning (
            "The migration is about to remove a default value on the foreign key field `"
            +:+ t_name previous_table +:+ "." +:+ alc_name x +:+ "`."))) d
        else d).

Definition check_change (before_table : Table) (d : diags) (change : TableChange) : result diags :=
  match change with
  | TC_DropColumn x => check_column_drop x before_table d
  | TC_AlterColumn x => check_alter_column x before_table d
  | TC_AddColumn x => check_add_column x before_table d
  | TC_DropForeignKey _ => mret d
  end.
Definition check_step (before : SqlSchema) (d : diags) (step : SqlMigrationStep) : result diags :=
  match step with
  | AlterTableStep a =>
      match get_table before (t_name (at_table a)) with
      | Some before_table => eff_fold (check_change before_table) (at_changes a) d
      | None => mret d
      end
  | DropTableStep x => check_table_drop (dtb_name x) d
  | DropTablesStep x => eff_fold (fun d name => check_table_drop name d) (dtbs_names x) d
  | _ => mret d
  end.
Definition check_impl (steps : list SqlMigrationStep) (before : SqlSchema) : result diags :=
  d ← eff_fold (check_step before) steps Diagnostics_new;
  mret (warn_about_unexecutable_migrations d).

Definition check (m : SqlMigration) : result diags := check_impl (sm_original_steps m) (sm_before m).
Definition check_unapply (m : SqlMigration) : result diags := check_impl (sm_rollback m) (sm_after m).
End checker.

(** ** Databases that answer the queries *)
Class Counts `{ValueTypes} {S E : Type} (CQ : CountQueries S E) : Type := {
  rows : S -> string -> Z;
  values : S -> string -> string -> Z;
  rows_answer : forall n s, query_count_rows n s = (Ok (Some (Some (rows s n))), s);
  values_answer : forall c n s, query_count_values c n s = (Ok (Some (Some (values s c n))), s);
}.

Section answered.
Context `{VT : ValueTypes} {S E : Type} {CQ : CountQueries S E} {C : Counts CQ}.
Variables (f : SqlFamily) (o : DiffingOptions).

Lemma count_rows_answer n s : count_rows_in_table n s = (Ok (rows s n), s).
Proof. unfold count_rows_in_table, mbind, eff_bind, eff_map_err. by rewrite rows_answer. Qed.
Lemma count_values_answer c t s : count_values_in_column c t s = (Ok (values s c (t_name t)), s).
Proof. unfold count_values_in_column, mbind, eff_bind, eff_map_err. by rewrite values_answer. Qed.

Lemma count_rows_keeps n s : (count_rows_in_table n s).2 = s.
Proof. by rewrite count_rows_answer. Qed.
Lemma count_values_keeps c t s : (count_values_in_column c t s).2 = s.
Proof. by rewrite count_values_answer. Qed.
Ltac keeps_state :=
  repeat first [apply count_rows_keeps | apply count_values_keeps | reflexivity
               | apply eff_bind_keeps; [|intros ?] | progress case_match].

Lemma check_table_drop_keeps n d s : (check_table_drop n d s).2 = s.
Proof. unfold check_table_drop. keeps_state. Qed.
Lemma check_change_keeps t d ch s : (check_change f o t d ch s).2 = s.
Proof.
  destruct ch as [x|x|x|x]; cbn [check_change];
    unfold check_add_column, check_alter_column, check_for_column_arity_change, check_column_drop; keeps_state.
Qed.
Lemma check_step_keeps before d st s : (check_step f o before d st s).2 = s.
Proof.
  destruct st as [| |a|x|x| | | | | | | |]; cbn [check_step]; try done.
  - destruct (get_table _ _); [|done]. apply eff_fold_keeps. intros d' ch. apply check_change_keeps.
  - apply check_table_drop_keeps.
  - apply eff_fold_keeps. intros d' n. apply check_table_drop_keeps.
Qed.

Lemma check_impl_keeps steps before s : (check_impl f o steps before s).2 = s.
Proof.
  unfold check_impl. apply eff_bind_keeps; [|done]. apply eff_fold_keeps. intros d st. apply check_step_keeps.
Qed.

(** ** Diagnostics without warnings *)
Definition clean (d : DestructiveChangeDiagnostics) : Prop := diag_warnings d = [] /\ diag_unexecutable d = [].
Lemma add_warning_not_clean w d : ~ clean (add_warning (Some w) d).
Proof. intros [Hw _]. cbn in Hw. by destruct (diag_warnings d). Qed.
Lemma add_unexecutable_not_clean u d : ~ clean (add_unexecutable u d).
Proof. intros [_ Hw]. cbn in Hw. by destruct (diag_unexecutable d). Qed.
Lemma no_warnings_clean d : has_warnings (warn_about_unexecutable_migrations d) = false -> clean d.
Proof.
  unfold has_warnings, clean; cbn. destruct (diag_warnings d); [|done]. by destruct (diag_unexecutable d).
Qed.

(** What is known of a change, or of a step, that was checked without a warning. *)
Definition change_checked (s : S) (t : Table) (ch : TableChange) : Prop :=
  match ch with
  | TC_DropColumn x => values s (dc_name x) (t_name t) <= 0
  | TC_AlterColumn x => exists c, column t (alc_name x) = Some c /\
      (alter_column_is_safe (E := E) f (mkColumnDiffer o c (alc_column x)) = Ok true \/ values s (alc_name x) (t_name t) <= 0)
  | TC_AddColumn x => arity (c_tpe (ac_column x)) = Required -> c_default (ac_column x) = None -> rows s (t_name t) = 0
  | TC_DropForeignKey _ => True
  end.
Definition step_checked (s : S) (before : SqlSchema) (st : SqlMigrationStep) : Prop :=
  match st with
  | AlterTableStep a => forall t, get_table before (t_name (at_table a)) = Some t ->
      forall ch, ch ∈ at_changes a -> change_checked s t ch
  | DropTableStep x => rows s (dtb_name x) <= 0
  | DropTablesStep x => forall n, n ∈ dtbs_names x -> rows s n <= 0
  | _ => True
  end.

Lemma check_table_drop_clean n d d' s :
  check_table_drop n d s = (Ok d', s) -> clean d' -> clean d /\ rows s n <= 0.
Proof.
  unfold check_table_drop. rewrite (eff_bind_Ok _ _ _ _ _ (count_rows_answer _ _)). intros [= <-].
  destruct (Z.ltb_spec 0 (rows s n)); [by intros ?%add_warning_not_clean|done].
Qed.
Lemma check_change_clean t d ch d' s :
  check_change f o t d ch s = (Ok d', s) -> clean d' -> clean d /\ change_checked s t ch.
Proof.
  destruct ch as [x|x|x|x]; cbn [check_change change_checked].
  - unfold check_add_column. destruct (negb _) eqn:En.
    + intros [= <-] Hc. split; [done|]. intros Ha Hd. by rewrite Ha, Hd in En.
    + rewrite (eff_bind_Ok _ _ _ _ _ (count_rows_answer _ _)). intros [= <-].
      destruct (Z.eqb_spec (rows s (t_name t)) 0); [done|by intros ?%add_unexecutable_not_clean].
  - unfold check_alter_column. unfold mbind at 1, eff_bind, lift. destruct (column t (alc_name x)) as [c|]; cbn [unwrap]; [|done].
    unfold mbind at 1, eff_bind. destruct (alter_column_is_safe _ _) as [[]| |] eqn:Es; try done.
    { intros [= <-] Hc. eauto 6. }
    unfold check_for_column_arity_change.
    rewrite (eff_bind_Ok _ _ _ _ _ (eff_bind_Ok _ _ _ _ _ (count_rows_answer _ _))).
    rewrite (eff_bind_Ok _ _ _ _ _ (count_values_answer _ _ _)). intros [= <-].
    destruct (Z.ltb_spec 0 (values s (alc_name x) (t_name t))); [by intros ?%add_warning_not_clean|].
    destruct (is_part_of_foreign_key _ _ && _ && _); [by intros ?%add_warning_not_clean|].
    destruct (_ || _ || _ || _); [|by intros ?%add_unexecutable_not_clean]. eauto 6.
  - unfold check_column_drop. rewrite (eff_bind_Ok _ _ _ _ _ (count_values_answer _ _ _)). intros [= <-].
    destruct (Z.ltb_spec 0 (values s (dc_name x) (t_name t))); [by intros ?%add_warning_not_clean|done].
  - intros [= <-]. done.
Qed.
Lemma check_step_clean before d st d' s :
  check_step f o before d st s = (Ok d', s) -> clean d' -> clean d /\ step_checked s before st.
Proof.
  destruct st as [| |a|x|x| | | | | | | |]; cbn [check_step step_checked]; try (intros [= <-]; done).
  - destruct (get_table before (t_name (at_table a))) as [t|]; [|by intros [= <-]]. intros Hf Hc.
    destruct (eff_fold_back _ clean (change_checked s t) _ _ _ _ _ (fun d ch => check_change_keeps t d ch s)
      (fun d ch d' => check_change_clean t d ch d' s) Hf Hc) as [H1 H2].
    split; [done|]. intros t' [= <-]. exact H2.
  - apply check_table_drop_clean.
  - intros Hf Hc. refine (eff_fold_back _ clean (fun n => rows s n <= 0) _ _ _ _ _ _ _ Hf Hc).
    + intros d0 n. apply check_table_drop_keeps.
    + intros d0 n d1. apply check_table_drop_clean.
Qed.
(** Every step of a check that ends without warnings was checked. *)
Lemma check_impl_clean steps before d s s' :
  check_impl f o steps before s = (Ok d, s') -> has_warnings d = false ->
  forall st, st ∈ steps -> step_checked s before st.
Proof.
  unfold check_impl. unfold mbind, eff_bind.
  destruct (eff_fold _ _ _ s) as [[d0| |] s0] eqn:Ef; try discriminate. intros [= <- <-] Hw%no_warnings_clean.
  exact (proj2 (eff_fold_back _ clean (step_checked s before) _ _ _ _ _ (fun d st => check_step_keeps before d st s)
    (fun d st d' => check_step_clean before d st d' s) Ef Hw)).
Qed.
End answered.
