(* ===== verification/DataLoss.v ===== *)
(** * Warnings and the statements they are about

    The checker of destructive changes and the renderer of SQL statements
    decide separately whether a column is altered or dropped and added again.
    The theorems here relate the two: what a migration that was checked without
    a warning can destroy. *)
From S2P Require Import Prelude Effects SqlSchema SqlDiffer SqlRender SqlInfer SqlStatements Destructive.
#[local] Open Scope string_scope.
#[local] Open Scope list_scope.
#[local] Open Scope Z_scope.

(** ** Names are read off their quotes *)
Lemma append_char_inj (c : Ascii.ascii) (a b : string) : a +:+ String c "" = b +:+ String c "" -> a = b.
Proof.
  revert b. induction a as [|x a IH]; intros [|y b]; cbn; intros Hab; simplify_eq.
  - reflexivity.
  - by destruct b.
  - by destruct a.
  - f_equal. by apply IH.
Qed.
Lemma append_inj_l (p a b : string) : p +:+ a = p +:+ b -> a = b.
Proof. induction p as [|c p IH]; cbn; [done|]. intros [= Hp]. by apply IH. Qed.

Section data_loss.
Context `{VT : ValueTypes} (debug_list : list PrismaValue -> string) (postgres_ignored_tables : string -> bool).
Abbreviation renderer f := (for_family (E := RenderError) debug_list f).

Lemma quote_inj f a b : quote (renderer f) a = quote (renderer f) b -> a = b.
Proof. destruct f; unfold quote; cbn [for_family r_quote Quoted_fmt]; intros Hq%append_inj_l; by apply append_char_inj in Hq. Qed.
Lemma drop_column_inj f a b : render_drop_column (renderer f) a = render_drop_column (renderer f) b -> a = b.
Proof. intros H%append_inj_l. by apply quote_inj in H. Qed.

(** A clause that alters a column is not one that drops it. *)
Lemma alter_line_not_drop f n o c c' lines :
  safe_alter_column (renderer f) c c' o = Ok (Some lines) -> render_drop_column (renderer f) n ∉ lines.
Proof.
  unfold safe_alter_column, render_drop_column. intros Hs Hin. inv_ok.
  destruct a as [[steps|steps|steps]|]; [| |by injection Hs as <-; inversion Hin|done].
  - destruct (map_m _ _) as [l| |] eqn:Em; try discriminate Hs. injection Hs as <-.
    destruct (map_m_elem _ _ _ _ Em Hin) as (st & _ & Hst). destruct st; cbn in Hst; inv_ok; simplify_eq.
  - destruct (map_m _ _) as [l| |] eqn:Em; try discriminate Hs. injection Hs as <-.
    destruct (map_m_elem _ _ _ _ Em Hin) as (st & _ & Hst). destruct st; cbn in Hst; inv_ok; simplify_eq.
Qed.

(** Where the renderer drops and adds a column again, the checker does not call the change safe. *)
Lemma expand_postgres_None {E F} d : expand_postgres_alter_column (E := E) d = Ok None -> expand_postgres_alter_column (E := F) d = Ok None.
Proof.
  unfold expand_postgres_alter_column. generalize (@nil PostgresAlterColumn) as acc.
  induction (changes_iter (all_changes d)) as [|x l IH]; intros acc; cbn [expand_postgres_loop]; [done|].
  destruct x; [done|..]; repeat case_match; try done; apply IH.
Qed.
Lemma recreated_not_safe {E} f o c c' : f <> Sqlite ->
  safe_alter_column (renderer f) c c' o = Ok None -> alter_column_is_safe (E := E) f (mkColumnDiffer o c c') <> Ok true.
Proof.
  intros Hf Hs Ha. unfold safe_alter_column in Hs.
  assert (Hn : expand_alter_column (E := RenderError) c c' f o = Ok None).
  { replace (r_sql_family (renderer f)) with f in Hs by (by destruct f). inv_ok.
    destruct a as [[l|l|l]|]; [by destruct (map_m _ l)..|done|done]. }
  clear Hs. unfold expand_alter_column in Hn. destruct f; [done|..]; cbn [alter_column_is_safe] in Ha.
  - destruct (expand_postgres_alter_column (E := RenderError) _) as [[l|]| |] eqn:Ep; try discriminate Hn.
    rewrite (expand_postgres_None _ Ep) in Ha. discriminate Ha.
  - destruct (expand_mysql_alter_column _); discriminate.
Qed.

Section checked.
Context {S E : Type} {CQ : CountQueries S E} {C : Counts CQ}.

Lemma checked_change_keeps_data info s before next t tb ch lines n :
  info_family info <> Sqlite -> get_table before (t_name tb) = Some t ->
  change_checked (CQ := CQ) (info_family info) (from_database_info postgres_ignored_tables info) s t ch ->
  render_change postgres_ignored_tables (renderer (info_family info)) info before next tb ch = Ok lines ->
  render_drop_column (renderer (info_family info)) n ∈ lines -> values s n (t_name tb) <= 0.
Proof.
  intros Hf Ht Hc Hr Hin. pose proof (get_table_Some _ _ _ Ht) as [_ Hname].
  destruct ch as [x|x|x|x]; cbn [render_change change_checked] in *.
  - inv_ok. apply list_elem_of_singleton in Hin. unfold render_add_column in E0. inv_ok. discriminate Hin.
  - rewrite Ht in Hr. destruct Hc as (c & Hcol & Hc). cbn [unwrap mbind outcome_bind] in Hr. rewrite Hcol in Hr. cbn [unwrap mbind outcome_bind] in Hr.
    destruct (safe_alter_column _ _ _ _) as [[l|]| |] eqn:Es; try discriminate Hr.
    + injection Hr as <-. by destruct (alter_line_not_drop _ _ _ _ _ _ Es Hin).
    + destruct Hc as [Hsafe|Hv]; [by destruct (recreated_not_safe _ _ _ _ Hf Es Hsafe)|].
      cbn in Hr. inv_ok. apply elem_of_cons in Hin as [Hin|Hin].
      * apply drop_column_inj in Hin as ->. by rewrite <-Hname.
      * apply list_elem_of_singleton in Hin. unfold render_add_column in E0. inv_ok. discriminate Hin.
  - injection Hr as <-. apply list_elem_of_singleton in Hin. apply drop_column_inj in Hin as ->. by rewrite <-Hname.
  - destruct (info_family info); [done|..]; cbn in Hr; injection Hr as <-; apply list_elem_of_singleton in Hin; discriminate Hin.
Qed.
End checked.
End data_loss.

(** ** The check always answers *)
Section total.
Context `{VT : ValueTypes} {S E : Type} {CQ : CountQueries S E} {C : Counts CQ}.

(** SQLite has no list columns. *)
Definition no_lists (s : SqlSchema) : Prop :=
  Forall (fun t => Forall (fun c => arity (c_tpe c) <> List_) (t_columns t)) (tables s).

Lemma alter_column_is_safe_ok f o (p n : Column) : c_name p = c_name n ->
  (f = Sqlite -> arity (c_tpe p) <> List_ /\ arity (c_tpe n) <> List_) ->
  exists b, alter_column_is_safe (E := E) f (mkColumnDiffer o p n) = Ok b.
Proof.
  intros Hname Hl. destruct f; cbn [alter_column_is_safe cd_previous cd_next].
  - destruct (Hl eq_refl). destruct (arity (c_tpe p)), (arity (c_tpe n)); try done; by eexists.
  - rewrite (expand_postgres_clauses _ _ _ Hname). cbn. repeat case_match; by eexists.
  - case_match; by eexists.
Qed.

Lemma check_change_ok f o t d ch s :
  (forall x, ch = TC_AlterColumn x -> exists c, column t (alc_name x) = Some c /\ c_name c = c_name (alc_column x) /\
     (f = Sqlite -> arity (c_tpe c) <> List_ /\ arity (c_tpe (alc_column x)) <> List_)) ->
  exists d', check_change (CountQueries0 := CQ) f o t d ch s = (Ok d', s).
Proof.
  intros Ha. destruct ch as [x|x|x|x]; cbn [check_change].
  - unfold check_add_column. case_match; [by eexists|].
    rewrite (eff_bind_Ok _ _ _ _ _ (count_rows_answer _ _)). by eexists.
  - destruct (Ha x eq_refl) as (c & Hc & Hname & Hl). unfold check_alter_column.
    rewrite Hc. rewrite (eff_bind_Ok _ _ s c s) by done.
    destruct (alter_column_is_safe_ok f o c (alc_column x) Hname Hl) as [b Hb].
    rewrite (eff_bind_Ok _ _ s b s) by (unfold lift; by rewrite Hb). destruct b; [by eexists|].
    unfold check_for_column_arity_change. rewrite (eff_bind_Ok _ _ _ _ _ (eff_bind_Ok _ _ _ _ _ (count_rows_answer _ _))).
    rewrite (eff_bind_Ok _ _ _ _ _ (count_values_answer _ _ _)). by eexists.
  - unfold check_column_drop. rewrite (eff_bind_Ok _ _ _ _ _ (count_values_answer _ _ _)). by eexists.
  - by eexists.
Qed.

Lemma check_diff_ok f o o' prev next s :
  names_distinct prev -> (f = Sqlite -> no_lists prev /\ no_lists next) ->
  exists d, check_impl (CountQueries0 := CQ) f o (into_steps (diff prev next f o')) prev s = (Ok d, s).
Proof.
  intros (Hnd & _ & Hcols) Hl. unfold check_impl. rewrite Forall_forall in Hcols.
  edestruct (eff_fold_ok (check_step (CountQueries0 := CQ) f o prev)) as [d Hd]; [|rewrite (eff_bind_Ok _ _ _ _ _ Hd); by eexists].
  intros d st Hst. apply into_steps_elem in Hst. destruct st as [| |a|x|x| | | | | | | |]; try done; try by eexists.
  - cbn [check_step]. destruct (get_table prev (t_name (at_table a))) as [t|] eqn:Et; [|by eexists].
    apply eff_fold_ok. intros d' ch Hch. apply check_change_ok. intros x ->.
    destruct (alter_table_before _ _ _ _ _ Hst) as (t' & Ht' & Hname & Hx).
    rewrite <-Hname, (get_table_elem _ _ Hnd Ht') in Et. injection Et as <-.
    destruct (Hx x Hch) as (Hn & Hnn & c & Hc & Hcn). exists c. split_and!.
    + rewrite <-Hcn. apply column_elem; auto.
    + congruence.
    + intros Hf. destruct (Hl Hf) as [Hp Hnx]. unfold no_lists in *.
      assert (Hno : forall u c', u ∈ tables prev \/ u ∈ tables next -> c' ∈ t_columns u -> arity (c_tpe c') <> List_).
      { intros u c' Hu. rewrite Forall_forall in Hp, Hnx. destruct Hu as [Hu|Hu]; [specialize (Hp u Hu)|specialize (Hnx u Hu)].
        - rewrite Forall_forall in Hp. apply Hp.
        - rewrite Forall_forall in Hnx. apply Hnx. }
      destruct (alter_table_in_schema _ _ _ _ _ Hst) as [Hin|Hin]; split; eauto.
  - cbn [check_step]. unfold check_table_drop. rewrite (eff_bind_Ok _ _ _ _ _ (count_rows_answer _ _)). by eexists.
Qed.
End total.

(** ** Samples: a database that knows how many rows its tables have, all columns filled *)
#[local] Instance sample_queries : CountQueries (H := sample_values) (string -> Z) string := {|
  query_count_rows n := fun s => (Ok (Some (Some (s n))), s);
  query_count_values c n := fun s => (Ok (Some (Some (s n))), s);
|}.
#[local] Instance sample_counts : Counts (H := sample_values) sample_queries.
Proof.
  refine (Build_Counts sample_values (string -> Z) string sample_queries (fun s n => s n) (fun s _ n => s n) _ _);
    intros; reflexivity.
Defined.
Definition only_posts (n : string) : Z := if n ≟ "Post" then 5 else 0.
Abbreviation sample_options f := (from_database_info no_ignored (sample_info f)).
(** The migration from [sample_users] to [sample_users'], which drops [Post] and recreates a column of [User]. *)
Definition sample_migration : SqlMigration :=
  mkSqlMigration sample_users sample_users' (into_steps (diff sample_users sample_users' Postgres (sample_options Postgres))) [] [].

Definition drops `{ValueTypes} (name : string) (st : SqlMigrationStep) : bool :=
  match st with DropTableStep x => name ≟ dtb_name x | _ => false end.

(** ** Theorems *)

(** C4: On Postgres and MySQL, when the check of a migration ends without a warning, none of its original steps destroys data: a table it drops is empty, and a column for which a DROP COLUMN clause is rendered (because it is dropped, or because its change has no clauses of its own) has no value. *)
Theorem unwarned_steps_keep_data `{VT : ValueTypes} {S E} {CQ : CountQueries S E} (C : Counts CQ)
    debug_list postgres_ignored_tables (m : SqlMigration) info s d s' :
  info_family info <> Sqlite ->
  check (CountQueries0 := CQ) (info_family info) (from_database_info postgres_ignored_tables info) m s = (Ok d, s') ->
  has_warnings d = false ->
  (forall n, DropTableStep (mkDropTable n) ∈ sm_original_steps m -> rows s n <= 0) /\
  (forall a ch lines n, AlterTableStep a ∈ sm_original_steps m -> has_table (sm_before m) (t_name (at_table a)) = true ->
     ch ∈ at_changes a ->
     render_change postgres_ignored_tables (for_family debug_list (info_family info)) info
       (sm_before m) (sm_after m) (at_table a) ch = Ok lines ->
     render_drop_column (for_family (E := RenderError) debug_list (info_family info)) n ∈ lines ->
     values s n (t_name (at_table a)) <= 0).
Proof.
  intros Hf Hc Hw. pose proof (check_impl_clean _ _ _ _ _ _ _ Hc Hw) as Hok. split.
  - intros n Hn. exact (Hok _ Hn).
  - intros a ch lines n Ha Ht Hch. unfold has_table in Ht.
    destruct (get_table (sm_before m) (t_name (at_table a))) as [t|] eqn:Et; [|done].
    eapply checked_change_keeps_data; [exact Hf|exact Et|]. exact (Hok _ Ha t Et ch Hch).
Qed.


Lemma unwarned_steps_keep_data_witness :
  DropTableStep (mkDropTable "Post") ∈ sm_original_steps sample_migration /\
  rows (Counts := sample_counts) (fun _ => 0) "Post" <= 0.
Proof.
  assert (Hin : DropTableStep (mkDropTable "Post") ∈ sm_original_steps sample_migration).
  { vm_compute. repeat (apply list_elem_of_here || apply list_elem_of_further). }
  split; [exact Hin|].
  refine (proj1 (unwarned_steps_keep_data sample_counts no_debug no_ignored sample_migration (sample_info Postgres)
    (fun _ => 0) (mkDiagnostics [] [] []) (fun _ => 0) _ _ _) "Post" Hin).
  - discriminate.
  - vm_compute. reflexivity.
  - reflexivity.
Defined.

(** The check of the steps the differ computed always answers when the database does: every column it looks up exists and no unreachable case is reached (on SQLite, for schemas without list columns). *)
Theorem check_always_answers `{VT : ValueTypes} {S E} {CQ : CountQueries S E} (C : Counts CQ) (m : SqlMigration) f o s :
  names_distinct (sm_before m) ->
  (f = Sqlite -> no_lists (sm_before m) /\ no_lists (sm_after m)) ->
  sm_original_steps m = into_steps (diff (sm_before m) (sm_after m) f o) ->
  exists d, check (CountQueries0 := CQ) f o m s = (Ok d, s).
Proof. intros Hn Hl Hs. unfold check. rewrite Hs. by apply check_diff_ok. Qed.

Lemma check_always_answers_witness : exists d,
  check (CountQueries0 := sample_queries) Postgres (sample_options Postgres) sample_migration only_posts = (Ok d, only_posts).
Proof.
  apply (check_always_answers sample_counts).
  - apply (bool_decide_unpack (_ /\ _ /\ _)). vm_compute. reflexivity.
  - discriminate.
  - reflexivity.
Defined.

(** When the type of an id column changes, the inferred migration drops every table, also those with rows, and the check, which looks at the original steps, gives no warning: here the table Post with five rows is dropped because the id of the empty table User changes its type. *)
Theorem id_type_change_drops_unwarned :
  exists m d,
    infer no_debug no_ignored sample_users sample_users_id "public" Mysql (sample_info Mysql) = Ok m /\
    check (CountQueries0 := sample_queries) Mysql (sample_options Mysql) m only_posts = (Ok d, only_posts) /\
    has_warnings d = false /\
    DropTableStep (mkDropTable "Post") ∈ sm_corrected_steps m /\
    rows (Counts := sample_counts) only_posts "Post" = 5.
Proof.
  assert (Hb : match infer no_debug no_ignored sample_users sample_users_id "public" Mysql (sample_info Mysql) with
    | Ok m => match (check (CountQueries0 := sample_queries) Mysql (sample_options Mysql) m only_posts).1 with
              | Ok d => negb (has_warnings d) && iter_any (drops "Post") (sm_corrected_steps m)
              | _ => false
              end
    | _ => false
    end = true) by (vm_compute; reflexivity).
  destruct (infer no_debug no_ignored sample_users sample_users_id "public" Mysql (sample_info Mysql)) as [m| |]; [|done..].
  pose proof (check_impl_keeps (CQ := sample_queries) Mysql (sample_options Mysql) (sm_original_steps m) (sm_before m) only_posts) as Hk.
  unfold check in *. destruct (check_impl Mysql _ _ _ only_posts) as [[d| |] s'] eqn:Ec; [|done..]. cbn [fst snd] in *. subst s'.
  apply andb_true_iff in Hb as [Hw (st & Hin & Hst)%iter_any_spec]. exists m, d. split; [reflexivity|]. split; [exact Ec|]. split; [|split; [|reflexivity]].
  - by destruct (has_warnings d).
  - destruct st; try discriminate Hst. destruct x. cbn in Hst. apply bool_decide_eq_true in Hst. by subst.
Qed.
