(* ===== verification/Ddl.v ===== *)
(** * What the SQL steps do to a database

    A specification of the statements of a step on PostgreSQL: the schema of a
    database as finite maps, and a relation that says when a step can run and
    what it leaves. A step cannot run when an object it needs is missing, when
    a name it creates is taken, or when an object it drops is still used. *)
From S2P Require Import Prelude SqlSchema SqlDiffer SqlRender SqlInfer.

Section ddl.
Context `{VT : ValueTypes}.

Record DbTable : Type := mkDbTable {
  db_columns : gmap string Column;
  db_indexes : gmap string (list string * IndexType);
  db_fks : list ForeignKey;
}.
Record Database : Type := mkDatabase {
  db_tables : gmap string DbTable;
  db_enums : gmap string (gset string);
}.

(** The database a schema describes. *)
Definition columns_of (l : list Column) : gmap string Column := kmap c_name id l.
Definition indexes_of (l : list Index) : gmap string (list string * IndexType) :=
  kmap i_name (fun i => (i_columns i, i_tpe i)) l.
Definition table_of (t : Table) : DbTable :=
  mkDbTable (columns_of (t_columns t)) (indexes_of (t_indices t)) (t_foreign_keys t).
Definition variants_of (e : Enum) : gset string := list_to_set (e_values e).
Definition database_of (s : SqlSchema) : Database :=
  mkDatabase (kmap t_name table_of (tables s)) (kmap e_name variants_of (enums s)).

Definition put_table (n : string) (tb : DbTable) (db : Database) : Database :=
  mkDatabase (<[n := tb]> (db_tables db)) (db_enums db).

(** ** Conditions *)
(** The type of a column exists. *)
Definition type_known (db : Database) (c : Column) : Prop :=
  forall n, family (c_tpe c) = EnumFamily n -> is_Some (db_enums db !! n).
(** No index and no foreign key uses the column [n] of the table [tn]. *)
Definition column_free (db : Database) (tn n : string) : Prop :=
  forall m tb, db_tables db !! m = Some tb ->
    (m = tn -> (forall k cols tpe, db_indexes tb !! k = Some (cols, tpe) -> n ∉ cols) /\
               (forall fk, fk ∈ db_fks tb -> n ∉ fk_columns fk)) /\
    (forall fk, fk ∈ db_fks tb -> referenced_table fk = tn -> n ∉ referenced_columns fk).
(** The names of indexes are distinct in the whole database. *)
Definition index_free (db : Database) (k : string) : Prop :=
  forall m tb, db_tables db !! m = Some tb -> db_indexes tb !! k = None.
Definition has_columns (db : Database) (tn : string) (cols : list string) : Prop :=
  exists tb, db_tables db !! tn = Some tb /\ forall c, c ∈ cols -> is_Some (db_columns tb !! c).

(** ** Steps *)
Section steps.
(** The schema before the migration and the options, by which the clauses of a column change are chosen. *)
Variables (before : SqlSchema) (o : DiffingOptions).

Definition clauses_for (tn : string) (x : AlterColumn) : outcome string (option (list PostgresAlterColumn)) :=
  t ← unwrap "table" (get_table before tn);
  c ← unwrap "column" (column t (alc_name x));
  expand_postgres_alter_column (mkColumnDiffer o c (alc_column x)).

Inductive change_runs (tn : string) : Database -> TableChange -> Database -> Prop :=
| run_drop_foreign_key db tb n :
    db_tables db !! tn = Some tb -> Some n ∈ constraint_name <$> db_fks tb ->
    change_runs tn db (TC_DropForeignKey (mkDropForeignKey n))
      (put_table tn (mkDbTable (db_columns tb) (db_indexes tb)
        (iter_filter (fun fk => negb (constraint_name fk ≟ Some n)) (db_fks tb))) db)
| run_drop_column db tb n :
    db_tables db !! tn = Some tb -> is_Some (db_columns tb !! n) -> column_free db tn n ->
    change_runs tn db (TC_DropColumn (mkDropColumn n))
      (put_table tn (mkDbTable (delete n (db_columns tb)) (db_indexes tb) (db_fks tb)) db)
| run_add_column db tb c :
    db_tables db !! tn = Some tb -> db_columns tb !! c_name c = None -> type_known db c ->
    change_runs tn db (TC_AddColumn (mkAddColumn c))
      (put_table tn (mkDbTable (<[c_name c := c]> (db_columns tb)) (db_indexes tb) (db_fks tb)) db)
| run_alter_column db tb x c l :
    db_tables db !! tn = Some tb -> db_columns tb !! alc_name x = Some c -> clauses_for tn x = Ok (Some l) ->
    change_runs tn db (TC_AlterColumn x)
      (put_table tn (mkDbTable (<[alc_name x := foldl postgres_clause c l]> (db_columns tb)) (db_indexes tb) (db_fks tb)) db)
| run_recreate_column db tb x :
    db_tables db !! tn = Some tb -> is_Some (db_columns tb !! alc_name x) -> clauses_for tn x = Ok None ->
    c_name (alc_column x) = alc_name x -> column_free db tn (alc_name x) -> type_known db (alc_column x) ->
    change_runs tn db (TC_AlterColumn x)
      (put_table tn (mkDbTable (<[alc_name x := alc_column x]> (db_columns tb)) (db_indexes tb) (db_fks tb)) db).

(** A list of statements. *)
Inductive run_list {A} (R : Database -> A -> Database -> Prop) : Database -> list A -> Database -> Prop :=
| run_nil db : run_list R db [] db
| run_cons db x db' l db'' : R db x db' -> run_list R db' l db'' -> run_list R db (x :: l) db''.

Inductive step_runs : Database -> SqlMigrationStep -> Database -> Prop :=
| run_create_enum db n vs :
    db_enums db !! n = None ->
    step_runs db (CreateEnumStep (mkCreateEnum n vs)) (mkDatabase (db_tables db) (<[n := list_to_set vs]> (db_enums db)))
| run_alter_enum db n created dropped vs :
    db_enums db !! n = Some vs ->
    step_runs db (AlterEnumStep (mkAlterEnum n created dropped))
      (mkDatabase (db_tables db) (<[n := (vs ∖ list_to_set dropped) ∪ list_to_set created]> (db_enums db)))
| run_drop_enum db n :
    is_Some (db_enums db !! n) ->
    (forall m tb k c, db_tables db !! m = Some tb -> db_columns tb !! k = Some c -> family (c_tpe c) <> EnumFamily n) ->
    step_runs db (DropEnumStep (mkDropEnum n)) (mkDatabase (db_tables db) (delete n (db_enums db)))
| run_create_table db t :
    db_tables db !! t_name t = None -> (forall c, c ∈ t_columns t -> type_known db c) ->
    step_runs db (CreateTableStep (mkCreateTable t)) (put_table (t_name t) (mkDbTable (columns_of (t_columns t)) ∅ []) db)
| run_alter_table db a db' :
    run_list (change_runs (t_name (at_table a))) db (at_changes a) db' ->
    step_runs db (AlterTableStep a) db'
| run_drop_table db n :
    is_Some (db_tables db !! n) ->
    (forall m tb fk, m <> n -> db_tables db !! m = Some tb -> fk ∈ db_fks tb -> referenced_table fk <> n) ->
    step_runs db (DropTableStep (mkDropTable n)) (mkDatabase (delete n (db_tables db)) (db_enums db))
| run_create_index db tb tn i :
    db_tables db !! tn = Some tb -> has_columns db tn (i_columns i) -> index_free db (i_name i) ->
    step_runs db (CreateIndexStep (mkCreateIndex tn i))
      (put_table tn (mkDbTable (db_columns tb) (<[i_name i := (i_columns i, i_tpe i)]> (db_indexes tb)) (db_fks tb)) db)
| run_drop_index db tb tn k :
    db_tables db !! tn = Some tb -> is_Some (db_indexes tb !! k) ->
    step_runs db (DropIndexStep (mkDropIndex tn k))
      (put_table tn (mkDbTable (db_columns tb) (delete k (db_indexes tb)) (db_fks tb)) db)
| run_alter_index db tb tn k k' info :
    db_tables db !! tn = Some tb -> db_indexes tb !! k = Some info -> index_free db k' ->
    step_runs db (AlterIndexStep (mkAlterIndex tn k k'))
      (put_table tn (mkDbTable (db_columns tb) (<[k' := info]> (delete k (db_indexes tb))) (db_fks tb)) db)
| run_add_foreign_key db tb tn fk :
    db_tables db !! tn = Some tb -> has_columns db tn (fk_columns fk) ->
    has_columns db (referenced_table fk) (referenced_columns fk) ->
    step_runs db (AddForeignKeyStep (mkAddForeignKey tn fk))
      (put_table tn (mkDbTable (db_columns tb) (db_indexes tb) (db_fks tb ++ [fk])) db).
End steps.

(** ** Running lists *)
Lemma run_app {A} (R : Database -> A -> Database -> Prop) db l db' l' db'' :
  run_list R db l db' -> run_list R db' l' db'' -> run_list R db (l ++ l') db''.
Proof. induction 1; intros Hr; [done|]. econstructor; eauto. Qed.
Lemma run_one {A} (R : Database -> A -> Database -> Prop) db x db' : R db x db' -> run_list R db [x] db'.
Proof. intros Hr. econstructor; [exact Hr|constructor]. Qed.
Lemma run_nil_inv {A} (R : Database -> A -> Database -> Prop) db db' : run_list R db [] db' -> db = db'.
Proof. by inversion 1. Qed.
(** A pass over [l] whose states are known: [D] gives the state after the elements done so far. *)
Lemma run_units {A B} (R : Database -> B -> Database -> Prop) (f : A -> list B) (D : list A -> Database) (l : list A) :
  (forall done x rest, l = done ++ x :: rest -> run_list R (D done) (f x) (D (done ++ [x]))) ->
  run_list R (D []) (l ≫= f) (D l).
Proof.
  intros Hu. assert (Hgen : forall rest done, l = done ++ rest -> run_list R (D done) (rest ≫= f) (D l)).
  { induction rest as [|x rest IH]; intros done Hl.
    - rewrite Hl, app_nil_r. constructor.
    - cbn [mbind list_bind]. eapply run_app; [by apply (Hu done x rest)|]. apply IH. by rewrite <-app_assoc. }
  by apply (Hgen l []).
Qed.
End ddl.

(** ** Maps after a pass *)
Section puts.
Context {A V : Type} (key : A -> string) (new : A -> V).

Definition puts (l : list A) (m : gmap string V) : gmap string V := foldl (fun m x => <[key x := new x]> m) m l.

Lemma puts_snoc l x m : puts (l ++ [x]) m = <[key x := new x]> (puts l m).
Proof. unfold puts. by rewrite foldl_app. Qed.
Lemma puts_ne l m k : k ∉ key <$> l -> puts l m !! k = m !! k.
Proof.
  revert m. induction l as [|x l IH]; intros m Hk; [done|]. rewrite fmap_cons, not_elem_of_cons in Hk.
  change (puts l (<[key x := new x]> m) !! k = m !! k). rewrite IH by tauto. apply lookup_insert_ne. naive_solver.
Qed.
Lemma puts_in l m x : NoDup (key <$> l) -> x ∈ l -> puts l m !! key x = Some (new x).
Proof.
  revert m. induction l as [|y l IH]; intros m Hnd Hx; [inversion Hx|].
  rewrite fmap_cons, NoDup_cons in Hnd. destruct Hnd as [Hy Hnd].
  change (puts l (<[key y := new y]> m) !! key x = Some (new x)).
  apply elem_of_cons in Hx as [->|Hx]; [|by apply IH]. rewrite puts_ne by done. apply lookup_insert_eq.
Qed.
Lemma puts_cases l m k v : NoDup (key <$> l) -> puts l m !! k = Some v ->
  (exists x, x ∈ l /\ key x = k /\ v = new x) \/ (k ∉ key <$> l /\ m !! k = Some v).
Proof.
  intros Hnd Hk. destruct (decide (k ∈ key <$> l)) as [Hin|Hin].
  - apply list_elem_of_fmap in Hin as (x & -> & Hx). rewrite (puts_in _ _ _ Hnd Hx) in Hk. left. exists x. naive_solver.
  - right. by rewrite puts_ne in Hk.
Qed.
End puts.

Section dels.
Context {A V : Type} (key : A -> string).

Definition dels (l : list A) (m : gmap string V) : gmap string V := foldl (fun m x => delete (key x) m) m l.
Lemma dels_snoc l x m : dels (l ++ [x]) m = delete (key x) (dels l m).
Proof. unfold dels. by rewrite foldl_app. Qed.
Lemma dels_ne l m k : k ∉ key <$> l -> dels l m !! k = m !! k.
Proof.
  revert m. induction l as [|x l IH]; intros m Hk; [done|]. rewrite fmap_cons, not_elem_of_cons in Hk.
  change (dels l (delete (key x) m) !! k = m !! k). rewrite IH by tauto. apply lookup_delete_ne. naive_solver.
Qed.
Lemma dels_in l m k : k ∈ key <$> l -> dels l m !! k = None.
Proof.
  revert m. induction l as [|x l IH]; intros m Hk; [inversion Hk|]. change (dels l (delete (key x) m) !! k = None).
  destruct (decide (k ∈ key <$> l)) as [Hin|Hin]; [by apply IH|]. rewrite dels_ne by done.
  rewrite fmap_cons, elem_of_cons in Hk. destruct Hk as [->|]; [|done]. apply lookup_delete_eq.
Qed.
End dels.
