(* ===== verification/Replay.v ===== *)
(** * The SQL differ's steps reach the next schema

    On PostgreSQL the steps computed by the differ run one after the other on a
    database with the previous schema, and leave one with the next schema. *)
From S2P Require Import Prelude SqlSchema SqlDiffer SqlRender SqlInfer Ddl.

Section replay.
Context `{VT : ValueTypes}.

(** ** Schemas a database can have *)
Definition all_indexes (s : SqlSchema) : list (string * Index) :=
  t ← tables s; (fun i => (t_name t, i)) <$> t_indices t.
Definition column_names (t : Table) : list string := c_name <$> t_columns t.
Definition fk_in_schema (s : SqlSchema) (t : Table) (fk : ForeignKey) : Prop :=
  (forall c, c ∈ fk_columns fk -> c ∈ column_names t) /\
  exists u, u ∈ tables s /\ t_name u = referenced_table fk /\ forall c, c ∈ referenced_columns fk -> c ∈ column_names u.
Definition table_wf (s : SqlSchema) (t : Table) : Prop :=
  (forall i c, i ∈ t_indices t -> c ∈ i_columns i -> c ∈ column_names t) /\
  (forall fk, fk ∈ t_foreign_keys t -> fk_in_schema s t fk) /\
  (forall c n, c ∈ t_columns t -> family (c_tpe c) = EnumFamily n -> n ∈ e_name <$> enums s) /\
  index_names_agree t.
Definition sql_schema_wf (s : SqlSchema) : Prop :=
  names_distinct s /\ NoDup ((fun '(_, i) => i_name i) <$> all_indexes s) /\ forall t, t ∈ tables s -> table_wf s t.

(** ** Schemas between which the steps can run *)
Abbreviation the_differ prev next o := (mkSqlSchemaDiffer prev next Postgres o).
Definition recreated (o : DiffingOptions) (d : TableDiffer) (n : string) : Prop :=
  exists p q, column (td_previous d) n = Some p /\ column (td_next d) n = Some q /\
    expand_postgres_alter_column (E := string) (mkColumnDiffer o p q) = Ok None.
Record replayable (prev next : SqlSchema) (o : DiffingOptions) : Prop := {
  rp_prev : sql_schema_wf prev;
  rp_next : sql_schema_wf next;
  rp_postgres : do_is_mariadb o = false;
  (** the next schema has no ignored table, and the ignored ones of the previous have nothing the others depend on *)
  rp_next_kept : forall u, u ∈ tables next -> table_is_ignored (the_differ prev next o) (t_name u) = false;
  rp_ignored : forall t, t ∈ tables prev -> table_is_ignored (the_differ prev next o) (t_name t) = true ->
    t_foreign_keys t = [] /\ forall c n, c ∈ t_columns t -> family (c_tpe c) <> EnumFamily n;
  (** the foreign keys of the database have names, distinct in a table *)
  rp_fk_names : forall t, t ∈ tables prev ->
    (forall fk, fk ∈ t_foreign_keys t -> is_Some (constraint_name fk)) /\ NoDup (constraint_name <$> t_foreign_keys t);
  (** an index keeps its name only when it stays the same index *)
  rp_index_names : forall t u i j, t ∈ tables prev -> u ∈ tables next -> i ∈ t_indices t -> j ∈ t_indices u ->
    i_name i = i_name j -> t_name t = t_name u /\ indexes_match i j = true;
  (** a column that goes, or has to be recreated, is not referenced *)
  rp_removed : forall d n t fk, d ∈ table_pairs (the_differ prev next o) ->
    column (td_next d) n = None \/ recreated o d n ->
    t ∈ tables prev -> fk ∈ t_foreign_keys t -> referenced_table fk = t_name (td_previous d) -> n ∉ referenced_columns fk;
  (** a column that has to be recreated is in no index and no foreign key that stays *)
  rp_recreated : forall d n, d ∈ table_pairs (the_differ prev next o) -> recreated o d n ->
    (forall i j, i ∈ t_indices (td_previous d) -> j ∈ t_indices (td_next d) -> indexes_match i j = true -> n ∉ i_columns i) /\
    (forall fk fk', fk ∈ t_foreign_keys (td_previous d) -> fk' ∈ t_foreign_keys (td_next d) ->
       foreign_keys_match fk fk' = true -> n ∉ fk_columns fk);
}.

(** ** Agreement of a database with a schema *)
Definition column_agrees (o : DiffingOptions) (c' c : Column) : Prop :=
  c' = c \/ differs_in_something (mkColumnDiffer o c' c) = false.
Definition table_agrees (o : DiffingOptions) (tb : DbTable) (u : Table) : Prop :=
  (forall n, option_Forall2 (column_agrees o) (db_columns tb !! n) (column u n)) /\
  db_indexes tb = indexes_of (t_indices u) /\
  (forall fk, fk ∈ db_fks tb -> exists fk', fk' ∈ t_foreign_keys u /\ foreign_keys_match fk fk' = true) /\
  (forall fk', fk' ∈ t_foreign_keys u -> exists fk, fk ∈ db_fks tb /\ foreign_keys_match fk fk' = true).

(** ** Lists *)
Lemma omap_keys {A B} (ka : A -> string) (kb : B -> string) (f : A -> option B) (l : list A) :
  (forall x y, f x = Some y -> kb y = ka x) -> NoDup (ka <$> l) -> NoDup (kb <$> omap f l).
Proof.
  intros Hk. induction l as [|x l IH]; intros Hnd; [constructor|]. rewrite fmap_cons, NoDup_cons in Hnd. destruct Hnd as [Hx Hnd].
  cbn [omap list_omap]. destruct (f x) as [y|] eqn:Ef; [|by apply IH]. rewrite fmap_cons, NoDup_cons. split; [|by apply IH].
  rewrite (Hk _ _ Ef). intros (z & Hz & (w & Hw & Hfw)%list_elem_of_omap)%list_elem_of_fmap.
  apply Hx. rewrite Hz, (Hk _ _ Hfw). by apply list_elem_of_fmap_2.
Qed.
Lemma filter_keys {A} (k : A -> string) (p : A -> bool) (l : list A) : NoDup (k <$> l) -> NoDup (k <$> iter_filter p l).
Proof.
  induction l as [|x l IH]; intros Hnd; [constructor|]. rewrite fmap_cons, NoDup_cons in Hnd. destruct Hnd as [Hx Hnd].
  simpl. destruct (p x); [|by apply IH]. rewrite fmap_cons, NoDup_cons. split; [|by apply IH].
  intros (y & Hy & [Hin _]%iter_filter_elem)%list_elem_of_fmap. apply Hx. rewrite Hy. by apply list_elem_of_fmap_2.
Qed.
Lemma key_unique {A} (k : A -> string) (l : list A) x y : NoDup (k <$> l) -> x ∈ l -> y ∈ l -> k x = k y -> x = y.
Proof.
  intros Hnd Hx Hy He. pose proof (find_key k l x Hnd Hx) as H1. pose proof (find_key k l y Hnd Hy) as H2.
  rewrite He, H2 in H1. congruence.
Qed.
(** In a pass over distinct keys, the next one is not among those done. *)
Lemma pass_fresh {A} (k : A -> string) (l done : list A) x rest :
  NoDup (k <$> l) -> l = done ++ x :: rest -> k x ∉ (k <$> done) /\ x ∈ l /\ (forall y, y ∈ done -> y ∈ l).
Proof.
  intros Hnd ->. rewrite fmap_app, fmap_cons, NoDup_app in Hnd. destruct Hnd as (_ & Hd & _). split_and!.
  - intros Hin. apply (Hd _ Hin). constructor.
  - apply elem_of_app. right. constructor.
  - intros y Hy. apply elem_of_app. by left.
Qed.
Lemma iter_find_ext {A} (p q : A -> bool) (l : list A) : (forall x, p x = q x) -> iter_find p l = iter_find q l.
Proof. intros Hpq. induction l as [|x l IH]; [done|]. simpl. by rewrite Hpq, IH. Qed.
Lemma fmap_as_bind {A B} (f : A -> B) (l : list A) : (f <$> l) = (x ← l; [f x]).
Proof. induction l as [|x l IH]; [done|]. rewrite fmap_cons. cbn [mbind list_bind]. by rewrite IH. Qed.
Lemma fmap_of_bind {A B C} (f : B -> C) (g : A -> list B) (l : list A) : (f <$> (x ← l; g x)) = (x ← l; (f <$> g x)).
Proof. induction l as [|x l IH]; [done|]. cbn [mbind list_bind]. by rewrite fmap_app, IH. Qed.
Lemma omap_as_bind {A B} (f : A -> option B) (l : list A) : omap f l = (x ← l; option_list (f x)).
Proof. induction l as [|x l IH]; [done|]. cbn [omap list_omap mbind list_bind]. destruct (f x); cbn; by rewrite IH. Qed.
Lemma omap_bind {A B C} (f : A -> option B) (g : B -> list C) (l : list A) :
  (y ← omap f l; g y) = (x ← l; match f x with Some y => g y | None => [] end).
Proof. induction l as [|x l IH]; [done|]. cbn [omap list_omap mbind list_bind]. destruct (f x); cbn [mbind list_bind app]; by rewrite IH. Qed.
Lemma bind_ext {A B} (f g : A -> list B) (l : list A) : (forall x, x ∈ l -> f x = g x) -> (x ← l; f x) = (x ← l; g x).
Proof.
  induction l as [|x l IH]; intros Hf; [done|]. cbn [mbind list_bind]. rewrite Hf by constructor. f_equal.
  apply IH. intros y Hy. apply Hf. by constructor.
Qed.

(** ** One table of both schemas *)
Definition fks_after (names : list string) (fks : list ForeignKey) : list ForeignKey :=
  iter_filter (fun fk => negb (iter_any (fun n => constraint_name fk ≟ Some n) names)) fks.
Definition idx_kept (d : TableDiffer) : gmap string (list string * IndexType) :=
  dels i_name (dropped_indexes d) (indexes_of (t_indices (td_previous d))).
Definition fks_kept (d : TableDiffer) : list ForeignKey :=
  fks_after (omap constraint_name (dropped_foreign_keys d)) (t_foreign_keys (td_previous d)).
(** A column of both tables after the changes. *)
Definition altered (d : TableDiffer) (cd : ColumnDiffer) : bool :=
  differs_in_something cd ||
  foreign_key_changed (foreign_key_for_column (td_previous d) (c_name (cd_previous cd)))
    (foreign_key_for_column (td_next d) (c_name (cd_next cd))).
Definition column_after (d : TableDiffer) (cd : ColumnDiffer) : Column :=
  if altered d cd then
    match expand_postgres_alter_column (E := string) cd with
    | Ok (Some l) => foldl postgres_clause (cd_previous cd) l
    | _ => cd_next cd
    end
  else cd_previous cd.
Definition cd_key (cd : ColumnDiffer) : string := c_name (cd_previous cd).
Definition cols_dropped (d : TableDiffer) : gmap string Column :=
  dels c_name (dropped_columns d) (columns_of (t_columns (td_previous d))).
Definition cols_added (d : TableDiffer) : gmap string Column := puts c_name id (added_columns d) (cols_dropped d).
Definition cols_after (d : TableDiffer) : gmap string Column := puts cd_key (column_after d) (column_pairs d) (cols_added d).

Lemma column_None u n : column u n = None <-> n ∉ column_names u.
Proof. unfold column, column_names. rewrite <-(kmap_None c_name id), kmap_lookup, fmap_None. done. Qed.
Lemma columns_of_lookup u n : columns_of (t_columns u) !! n = column u n.
Proof. unfold columns_of, column. rewrite kmap_lookup. unfold by_key. by rewrite option_fmap_id. Qed.
Lemma indexes_match_columns i j : indexes_match i j = true -> i_columns i = i_columns j /\ i_tpe i = i_tpe j.
Proof. intros [H1 H2]%andb_true_iff. by apply bool_decide_eq_true in H1, H2. Qed.
Lemma foreign_keys_match_fields f g : foreign_keys_match f g = true ->
  fk_columns f = fk_columns g /\ referenced_table f = referenced_table g /\ referenced_columns f = referenced_columns g.
Proof.
  unfold foreign_keys_match. rewrite !andb_true_iff. intros [[[H1 H2] H3] H4].
  by apply bool_decide_eq_true in H1, H2, H3, H4.
Qed.

Lemma idx_kept_lookup d k v : idx_kept d !! k = Some v -> exists i j, i ∈ t_indices (td_previous d) /\
  j ∈ t_indices (td_next d) /\ indexes_match i j = true /\ i_name i = k /\ v = (i_columns i, i_tpe i).
Proof.
  unfold idx_kept. intros Hk. destruct (decide (k ∈ i_name <$> dropped_indexes d)) as [Hin|Hin]; [by rewrite dels_in in Hk|].
  rewrite dels_ne in Hk by done. apply kmap_elem in Hk as (i & Hi & Hn & <-).
  destruct (iter_any (fun n => indexes_match i n) (t_indices (td_next d))) eqn:Ea.
  - apply iter_any_spec in Ea as (j & Hj & Hm). naive_solver.
  - destruct Hin. rewrite <-Hn. apply list_elem_of_fmap_2. unfold dropped_indexes. apply iter_filter_elem. by rewrite Ea.
Qed.
Lemma fks_after_elem names fks fk :
  fk ∈ fks_after names fks <-> fk ∈ fks /\ forall n, n ∈ names -> constraint_name fk <> Some n.
Proof.
  unfold fks_after. rewrite iter_filter_elem, negb_true_iff, iter_any_false. setoid_rewrite bool_decide_eq_false. done.
Qed.
Lemma fks_after_nil fks : fks_after [] fks = fks.
Proof. apply iter_filter_all. done. Qed.
Lemma fks_after_snoc names n fks :
  fks_after (names ++ [n]) fks = iter_filter (fun fk => negb (constraint_name fk ≟ Some n)) (fks_after names fks).
Proof.
  unfold fks_after. induction fks as [|fk fks IH]; [done|]. simpl. rewrite existsb_app. simpl. rewrite orb_false_r, negb_orb, IH.
  destruct (iter_any _ names); simpl; [done|]. by destruct (constraint_name fk ≟ Some n).
Qed.

Section pair.
Context (prev next : SqlSchema) (o : DiffingOptions) (HR : replayable prev next o).
Context (d : TableDiffer) (Hd : d ∈ table_pairs (the_differ prev next o)).
Abbreviation t := (td_previous d).
Abbreviation u := (td_next d).
Abbreviation tn := (t_name (td_previous d)).

Lemma pair_facts : t ∈ tables prev /\ u ∈ tables next /\ t_name t = t_name u /\ td_options d = o.
Proof. by apply table_pairs_elem in Hd. Qed.
Lemma prev_columns_distinct : NoDup (column_names t).
Proof.
  destruct (rp_prev _ _ _ HR) as ((_ & _ & Hc) & _). rewrite Forall_forall in Hc. apply Hc, pair_facts.
Qed.
Lemma next_columns_distinct : NoDup (column_names u).
Proof.
  destruct (rp_next _ _ _ HR) as ((_ & _ & Hc) & _). rewrite Forall_forall in Hc. apply Hc, pair_facts.
Qed.
Lemma next_wf : table_wf next u.
Proof. apply (rp_next _ _ _ HR), pair_facts. Qed.

Lemma fks_kept_elem fk : fk ∈ fks_kept d <->
  fk ∈ t_foreign_keys t /\ exists fk', fk' ∈ t_foreign_keys u /\ foreign_keys_match fk fk' = true.
Proof.
  destruct (rp_fk_names _ _ _ HR t) as [Hs Hnd]; [apply pair_facts|]. unfold fks_kept. rewrite fks_after_elem. split.
  - intros [Hin Hn]. split; [done|]. destruct (Hs _ Hin) as [n En].
    destruct (iter_find (fun n => foreign_keys_match fk n) (t_foreign_keys u)) as [fk'|] eqn:Ef.
    + apply iter_find_Some in Ef as [? ?]. eauto.
    + destruct (Hn n); [|done]. apply list_elem_of_omap. exists fk. split; [|done].
      unfold dropped_foreign_keys. apply iter_filter_elem. by rewrite Ef.
  - intros [Hin (fk' & Hin' & Hm)]. split; [done|]. intros n (g & [Hg Hnone]%iter_filter_elem & Hgn)%list_elem_of_omap Hfn.
    assert (g = fk) as ->.
    { clear Hnone Hm. rewrite <-Hfn in Hgn. revert Hg Hin Hgn Hnd. generalize (t_foreign_keys t). intros l Hg Hf He Hnd'.
      apply list_elem_of_lookup in Hg as [i Hi]. apply list_elem_of_lookup in Hf as [j Hj].
      assert (i = j) as ->; [|congruence].
      eapply NoDup_lookup; [exact Hnd'| |]; rewrite list_lookup_fmap; [rewrite Hi|rewrite Hj]; cbn; [reflexivity|by rewrite He]. }
    destruct (iter_find _ _) eqn:Ef; [done|]. rewrite iter_find_None in Ef. specialize (Ef _ Hin'). cbv beta in Ef. congruence.
Qed.
Lemma idx_kept_columns k cols tpe c : idx_kept d !! k = Some (cols, tpe) -> c ∈ cols -> c ∈ column_names u.
Proof.
  intros (i & j & Hi & Hj & [Hm _]%indexes_match_columns & _ & [= -> _])%idx_kept_lookup Hc.
  destruct next_wf as (Hw & _). apply (Hw j); [done|]. by rewrite <-Hm.
Qed.
Lemma fks_kept_columns fk c : fk ∈ fks_kept d -> c ∈ fk_columns fk -> c ∈ column_names u.
Proof.
  intros (_ & fk' & Hin & (Hm & _)%foreign_keys_match_fields)%fks_kept_elem Hc.
  destruct next_wf as (_ & Hw & _). apply (Hw fk'); [done|]. by rewrite <-Hm.
Qed.

(** *** The changes of the table *)
Section changes.
Context (db : Database).
Hypothesis (Htb : db_tables db !! tn = Some (mkDbTable (columns_of (t_columns t)) (idx_kept d) (t_foreign_keys t))).
Hypothesis (Hfks : forall m tb fk, db_tables db !! m = Some tb -> fk ∈ db_fks tb ->
  exists t', t' ∈ tables prev /\ fk ∈ t_foreign_keys t').
Hypothesis (Henums : forall n, n ∈ e_name <$> enums next -> is_Some (db_enums db !! n)).

(** The database with other columns and foreign keys in the table. *)
Definition with_contents (cols : gmap string Column) (fks : list ForeignKey) : Database :=
  put_table tn (mkDbTable cols (idx_kept d) fks) db.
Lemma with_contents_lookup cols fks : db_tables (with_contents cols fks) !! tn = Some (mkDbTable cols (idx_kept d) fks).
Proof. apply lookup_insert_eq. Qed.
Lemma with_contents_put cols fks tb : put_table tn tb (with_contents cols fks) = put_table tn tb db.
Proof. unfold put_table, with_contents, put_table; cbn. by rewrite insert_insert_eq. Qed.
Lemma with_contents_start : with_contents (columns_of (t_columns t)) (t_foreign_keys t) = db.
Proof. unfold with_contents, put_table. rewrite insert_id by done. by destruct db. Qed.

Lemma with_contents_free cols n : column u n = None \/ recreated o d n -> column_free (with_contents cols (fks_kept d)) tn n.
Proof.
  intros Hn m tb Hm. unfold with_contents, put_table in Hm; cbn [db_tables] in Hm.
  assert (Hcol : column u n = None -> n ∉ column_names u) by (by rewrite column_None).
  destruct (decide (m = tn)) as [->|Hne].
  - rewrite lookup_insert_eq in Hm. injection Hm as <-. cbn [db_indexes db_fks]. split; [intros _; split|].
    + intros k cols' tpe Hk Hc. pose proof (idx_kept_columns _ _ _ _ Hk Hc) as Hu.
      destruct Hn as [Hn|Hn]; [by apply Hcol in Hn|].
      apply idx_kept_lookup in Hk as (i & j & Hi & Hj & Hmt & _ & [= -> _]).
      by apply (proj1 (rp_recreated _ _ _ HR d n Hd Hn) i j Hi Hj Hmt).
    + intros fk Hk Hc. pose proof (fks_kept_columns _ _ Hk Hc) as Hu.
      destruct Hn as [Hn|Hn]; [by apply Hcol in Hn|]. apply fks_kept_elem in Hk as (Hin & fk' & Hin' & Hmt).
      by apply (proj2 (rp_recreated _ _ _ HR d n Hd Hn) fk fk' Hin Hin' Hmt).
    + intros fk [Hk _]%fks_kept_elem Href. eapply (rp_removed _ _ _ HR d n); eauto. apply pair_facts.
  - rewrite lookup_insert_ne in Hm by done. split; [done|]. intros fk Hfk Href.
    destruct (Hfks _ _ _ Hm Hfk) as (t' & Ht' & Hin). by eapply (rp_removed _ _ _ HR d n).
Qed.
Lemma with_contents_type cols fks c : c ∈ t_columns u -> type_known (with_contents cols fks) c.
Proof. intros Hc n Hf. cbn. apply Henums. destruct next_wf as (_ & _ & Hw & _). by eapply Hw. Qed.

(** The rules, on these databases. *)
Lemma drop_fk_rule cols fks n : Some n ∈ constraint_name <$> fks ->
  change_runs prev o tn (with_contents cols fks) (TC_DropForeignKey (mkDropForeignKey n))
    (with_contents cols (iter_filter (fun fk => negb (constraint_name fk ≟ Some n)) fks)).
Proof.
  intros Hn. pose proof (run_drop_foreign_key prev o tn (with_contents cols fks) _ n (with_contents_lookup _ _) Hn) as Hr.
  by rewrite with_contents_put in Hr.
Qed.
Lemma drop_column_rule cols fks n : is_Some (cols !! n) -> column_free (with_contents cols fks) tn n ->
  change_runs prev o tn (with_contents cols fks) (TC_DropColumn (mkDropColumn n)) (with_contents (delete n cols) fks).
Proof.
  intros Hn Hf. pose proof (run_drop_column prev o tn (with_contents cols fks) _ n (with_contents_lookup _ _) Hn Hf) as Hr.
  by rewrite with_contents_put in Hr.
Qed.
Lemma add_column_rule cols fks c : cols !! c_name c = None -> type_known (with_contents cols fks) c ->
  change_runs prev o tn (with_contents cols fks) (TC_AddColumn (mkAddColumn c)) (with_contents (<[c_name c := c]> cols) fks).
Proof.
  intros Hn Hf. pose proof (run_add_column prev o tn (with_contents cols fks) _ c (with_contents_lookup _ _) Hn Hf) as Hr.
  by rewrite with_contents_put in Hr.
Qed.
Lemma alter_column_rule cols fks x c l : cols !! alc_name x = Some c -> clauses_for prev o tn x = Ok (Some l) ->
  change_runs prev o tn (with_contents cols fks) (TC_AlterColumn x)
    (with_contents (<[alc_name x := foldl postgres_clause c l]> cols) fks).
Proof.
  intros Hn Hf. pose proof (run_alter_column prev o tn (with_contents cols fks) _ x c l (with_contents_lookup _ _) Hn Hf) as Hr.
  by rewrite with_contents_put in Hr.
Qed.
Lemma recreate_column_rule cols fks x : is_Some (cols !! alc_name x) -> clauses_for prev o tn x = Ok None ->
  c_name (alc_column x) = alc_name x -> column_free (with_contents cols fks) tn (alc_name x) ->
  type_known (with_contents cols fks) (alc_column x) ->
  change_runs prev o tn (with_contents cols fks) (TC_AlterColumn x) (with_contents (<[alc_name x := alc_column x]> cols) fks).
Proof.
  intros Hn Hf Hc Hu Ht.
  pose proof (run_recreate_column prev o tn (with_contents cols fks) _ x (with_contents_lookup _ _) Hn Hf Hc Hu Ht) as Hr.
  by rewrite with_contents_put in Hr.
Qed.

Lemma drop_foreign_keys_run : run_list (change_runs prev o tn) db (drop_foreign_keys d)
  (with_contents (columns_of (t_columns t)) (fks_kept d)).
Proof.
  unfold drop_foreign_keys. rewrite fmap_as_bind. set (names := omap constraint_name (dropped_foreign_keys d)).
  pose (D done := with_contents (columns_of (t_columns t)) (fks_after done (t_foreign_keys t))).
  assert (Hnd : NoDup (id <$> names)).
  { destruct (rp_fk_names _ _ _ HR t) as [_ Hnd]; [apply pair_facts|]. rewrite list_fmap_id. unfold names, dropped_foreign_keys.
    revert Hnd. clear. induction (t_foreign_keys t) as [|fk l IH]; [constructor|]. rewrite fmap_cons, NoDup_cons. intros [Hfk Hl].
    simpl. destruct (is_none _); [|by apply IH]. cbn [omap list_omap]. destruct (constraint_name fk) as [n|] eqn:En; [|by apply IH].
    constructor; [|by apply IH]. intros (g & [Hg _]%iter_filter_elem & Hgn)%list_elem_of_omap. apply Hfk.
    rewrite <-Hgn. by apply list_elem_of_fmap_2. }
  replace db with (D []) at 1 by (unfold D; rewrite fks_after_nil; apply with_contents_start).
  refine (run_units _ _ D names _). intros done n rest Hl. destruct (pass_fresh id _ _ _ _ Hnd Hl) as (Hn & Hin & _).
  rewrite list_fmap_id in Hn. unfold id in Hn. apply run_one.
  unfold D at 2. rewrite fks_after_snoc. apply drop_fk_rule.
  unfold names in Hin. apply list_elem_of_omap in Hin as (fk & [Hfk _]%iter_filter_elem & Hfn).
  rewrite <-Hfn. apply list_elem_of_fmap_2, fks_after_elem. split; [done|]. intros n' Hn' He. congruence.
Qed.

Lemma drop_columns_run : run_list (change_runs prev o tn) (with_contents (columns_of (t_columns t)) (fks_kept d)) (drop_columns d)
  (with_contents (cols_dropped d) (fks_kept d)).
Proof.
  unfold drop_columns, cols_dropped. rewrite fmap_as_bind.
  pose (D done := with_contents (dels c_name done (columns_of (t_columns t))) (fks_kept d)).
  assert (Hnd : NoDup (c_name <$> dropped_columns d)) by (apply filter_keys, prev_columns_distinct).
  refine (run_units _ _ D (dropped_columns d) _). intros done c rest Hl.
  destruct (pass_fresh c_name _ _ _ _ Hnd Hl) as (Hn & Hin & _). apply run_one.
  unfold D at 2. rewrite dels_snoc. apply iter_filter_elem in Hin as [Hin Hno]. apply drop_column_rule.
  - rewrite dels_ne by done. rewrite columns_of_lookup, column_elem by (done || apply prev_columns_distinct). by eexists.
  - apply with_contents_free. left. apply column_None. intros (c' & Hc' & Hin')%list_elem_of_fmap.
    destruct (iter_find _ _) eqn:Ef; [done|]. rewrite iter_find_None in Ef. specialize (Ef _ Hin').
    unfold columns_match in Ef. by rewrite bool_decide_eq_true_2 in Ef.
Qed.

Lemma cols_dropped_lookup n : cols_dropped d !! n = match column u n with Some _ => column t n | None => None end.
Proof.
  unfold cols_dropped. destruct (decide (n ∈ c_name <$> dropped_columns d)) as [Hin|Hin].
  - rewrite dels_in by done. apply list_elem_of_fmap in Hin as (c & -> & [Hc Hno]%iter_filter_elem).
    destruct (column u (c_name c)) as [q|] eqn:Eq; [|done]. apply column_Some in Eq as [Hq Hqn].
    destruct (iter_find _ _) eqn:Ef; [done|]. rewrite iter_find_None in Ef. specialize (Ef _ Hq).
    unfold columns_match in Ef. by rewrite bool_decide_eq_true_2 in Ef.
  - rewrite dels_ne by done. rewrite columns_of_lookup. destruct (column u n) as [q|] eqn:Eq; [done|].
    destruct (column t n) as [p|] eqn:Ep; [|done]. destruct Hin. apply column_Some in Ep as [Hp <-].
    apply list_elem_of_fmap_2, iter_filter_elem. split; [done|].
    destruct (iter_find _ _) as [q|] eqn:Ef; [|done]. apply iter_find_Some in Ef as [Hq Hm]. apply bool_decide_eq_true in Hm.
    apply column_None in Eq. destruct Eq. rewrite Hm. by apply list_elem_of_fmap_2.
Qed.

Lemma add_columns_run : run_list (change_runs prev o tn) (with_contents (cols_dropped d) (fks_kept d)) (add_columns d)
  (with_contents (cols_added d) (fks_kept d)).
Proof.
  unfold add_columns, cols_added. rewrite fmap_as_bind.
  pose (D done := with_contents (puts c_name id done (cols_dropped d)) (fks_kept d)).
  assert (Hnd : NoDup (c_name <$> added_columns d)) by (apply filter_keys, next_columns_distinct).
  refine (run_units _ _ D (added_columns d) _). intros done c rest Hl.
  destruct (pass_fresh c_name _ _ _ _ Hnd Hl) as (Hn & Hin & _). apply run_one.
  unfold D at 2. rewrite puts_snoc. unfold id at 1. apply iter_filter_elem in Hin as [Hin Hno].
  apply add_column_rule; [|by apply with_contents_type].
  rewrite puts_ne by done. rewrite cols_dropped_lookup. destruct (column u (c_name c)); [|done].
  apply column_None. intros (p & Hp & Hin')%list_elem_of_fmap.
  destruct (iter_find _ _) eqn:Ef; [done|]. rewrite iter_find_None in Ef. specialize (Ef _ Hin').
  unfold columns_match in Ef. by rewrite bool_decide_eq_true_2 in Ef.
Qed.

Lemma column_pairs_keys : NoDup (cd_key <$> column_pairs d).
Proof.
  unfold column_pairs. rewrite <-list_fmap_compose.
  erewrite list_fmap_ext; [apply (omap_keys c_name (fun '(p, _) => c_name p)); [|apply prev_columns_distinct]|].
  - intros x [p n] (q & _ & [= -> ->])%fmap_Some. done.
  - intros i [p n] _. done.
Qed.
Lemma column_pairs_in p q : column t (c_name p) = Some p -> column u (c_name p) = Some q ->
  mkColumnDiffer o p q ∈ column_pairs d.
Proof.
  intros Hp Hq. destruct pair_facts as (_ & _ & _ & Ho). unfold column_pairs. apply list_elem_of_fmap. exists (p, q).
  split; [by rewrite Ho|]. apply list_elem_of_omap. exists p. split; [by apply column_Some in Hp as [? _]|].
  unfold columns_match. unfold column in Hq. rewrite (iter_find_ext _ (fun c => c_name c ≟ c_name p)); [by rewrite Hq|].
  intros x. repeat case_bool; congruence.
Qed.
Lemma column_pairs_facts cd : cd ∈ column_pairs d -> cd_options cd = o /\
  column t (cd_key cd) = Some (cd_previous cd) /\ column u (cd_key cd) = Some (cd_next cd) /\
  c_name (cd_next cd) = cd_key cd /\ cd_next cd ∈ t_columns u.
Proof.
  intros (H1 & H2 & H3 & H4)%column_pairs_elem. destruct pair_facts as (_ & _ & _ & Ho). unfold cd_key. split_and!.
  - congruence.
  - apply column_elem; [apply prev_columns_distinct|done].
  - rewrite H3. apply column_elem; [apply next_columns_distinct|done].
  - done.
  - done.
Qed.

Lemma cols_added_lookup n : cols_added d !! n =
  match column u n with
  | None => None
  | Some q => match column t n with Some p => Some p | None => Some q end
  end.
Proof.
  unfold cols_added. assert (Hnd : NoDup (c_name <$> added_columns d)) by (apply filter_keys, next_columns_distinct).
  destruct (decide (n ∈ c_name <$> added_columns d)) as [Hin|Hin].
  - apply list_elem_of_fmap in Hin as (q & -> & Hq). rewrite puts_in by done. apply iter_filter_elem in Hq as [Hq Hno].
    rewrite (column_elem _ _ next_columns_distinct Hq). destruct (column t (c_name q)) as [p|] eqn:Ep; [|done].
    apply column_Some in Ep as [Hp Hpn]. destruct (iter_find _ _) eqn:Ef; [done|]. rewrite iter_find_None in Ef. specialize (Ef _ Hp).
    unfold columns_match in Ef. by rewrite bool_decide_eq_true_2 in Ef.
  - rewrite puts_ne, cols_dropped_lookup by done. destruct (column u n) as [q|] eqn:Eq; [|done].
    destruct (column t n) as [p|] eqn:Ep; [done|]. destruct Hin. apply column_Some in Eq as [Hq <-].
    apply list_elem_of_fmap_2, iter_filter_elem. split; [done|].
    destruct (iter_find _ _) as [p|] eqn:Ef; [|done]. apply iter_find_Some in Ef as [Hp Hm]. apply bool_decide_eq_true in Hm.
    apply column_None in Ep. destruct Ep. rewrite <-Hm. by apply list_elem_of_fmap_2.
Qed.
Lemma cols_after_lookup n : cols_after d !! n =
  match column u n with
  | None => None
  | Some q => match column t n with Some p => Some (column_after d (mkColumnDiffer o p q)) | None => Some q end
  end.
Proof.
  unfold cols_after. destruct (decide (n ∈ cd_key <$> column_pairs d)) as [Hin|Hin].
  - apply list_elem_of_fmap in Hin as (cd & -> & Hcd). rewrite puts_in by (done || apply column_pairs_keys).
    destruct (column_pairs_facts _ Hcd) as (Ho & -> & -> & _). destruct cd; cbn in *. by subst.
  - rewrite puts_ne, cols_added_lookup by done. destruct (column u n) as [q|] eqn:Eq; [|done].
    destruct (column t n) as [p|] eqn:Ep; [|done]. destruct Hin. pose proof (column_Some _ _ _ Ep) as [_ Hn]. subst n.
    apply (list_elem_of_fmap_2 cd_key _ (mkColumnDiffer o p q)). by apply column_pairs_in.
Qed.

Lemma alter_columns_run : run_list (change_runs prev o tn) (with_contents (cols_added d) (fks_kept d)) (alter_columns d)
  (with_contents (cols_after d) (fks_kept d)).
Proof.
  unfold alter_columns, cols_after. rewrite omap_as_bind.
  pose (D done := with_contents (puts cd_key (column_after d) done (cols_added d)) (fks_kept d)).
  refine (run_units _ _ D (column_pairs d) _). intros done cd rest Hl.
  destruct (pass_fresh cd_key _ _ _ _ column_pairs_keys Hl) as (Hn & Hin & _).
  destruct (column_pairs_facts _ Hin) as (Ho & Hp & Hq & Hqn & Hqin).
  assert (Hcur : puts cd_key (column_after d) done (cols_added d) !! cd_key cd = Some (cd_previous cd)).
  { by rewrite puts_ne, cols_added_lookup, Hq, Hp. }
  assert (Hclauses : clauses_for prev o tn (mkAlterColumn (cd_key cd) (cd_next cd)) = expand_postgres_alter_column cd).
  { unfold clauses_for. cbn [alc_name alc_column]. rewrite get_table_elem by (apply (rp_prev _ _ _ HR) || apply pair_facts).
    cbn. rewrite Hp. cbn. destruct cd; cbn in *. by subst. }
  unfold D at 2. rewrite puts_snoc. change (c_name (cd_previous cd)) with (cd_key cd). unfold column_after at 1. cbv zeta.
  fold (altered d cd). change (differs_in_something cd || _) with (altered d cd).
  destruct (altered d cd); cbn [option_list].
  - apply run_one. destruct (expand_postgres_alter_column cd) as [[l|]| |] eqn:Ee.
    + by apply (alter_column_rule _ _ (mkAlterColumn (cd_key cd) (cd_next cd))).
    + apply (recreate_column_rule _ _ (mkAlterColumn (cd_key cd) (cd_next cd))); cbn [alc_name alc_column].
      * rewrite Hcur. by eexists.
      * done.
      * done.
      * apply with_contents_free. right. exists (cd_previous cd), (cd_next cd). destruct cd; cbn in *. subst. done.
      * by apply with_contents_type.
    + destruct cd as [o' p q]. rewrite (expand_postgres_clauses o' p q (eq_sym Hqn)) in Ee. discriminate Ee.
    + destruct cd as [o' p q]. rewrite (expand_postgres_clauses o' p q (eq_sym Hqn)) in Ee. discriminate Ee.
  - rewrite insert_id by done. constructor.
Qed.

Lemma table_changes_run : run_list (change_runs prev o tn) db (table_changes d) (with_contents (cols_after d) (fks_kept d)).
Proof.
  unfold table_changes. eapply run_app; [apply drop_foreign_keys_run|]. eapply run_app; [apply drop_columns_run|].
  eapply run_app; [apply add_columns_run|apply alter_columns_run].
Qed.
End changes.

Lemma cols_after_agree (HVT : ValueTypesOk VT) n : option_Forall2 (column_agrees o) (cols_after d !! n) (column u n).
Proof.
  rewrite cols_after_lookup. destruct (column u n) as [q|] eqn:Eq; [|constructor].
  destruct (column t n) as [p|] eqn:Ep; constructor; [|by left].
  assert (Hname : c_name p = c_name q) by (apply column_Some in Ep as [_ ->]; by apply column_Some in Eq as [_ ->]).
  unfold column_after. destruct (altered d _) eqn:Ea.
  - destruct (expand_postgres_alter_column _) as [[l|]| |] eqn:Ee; [|by left..].
    right. by apply (expanded_postgres o p q HVT Hname (E := string)).
  - right. unfold altered in Ea. by apply orb_false_iff in Ea as [Ea _].
Qed.
End pair.

(** ** Indexes *)
Definition index_info (i : Index) : list string * IndexType := (i_columns i, i_tpe i).
Lemma indexes_match_iff i j : indexes_match i j = true <-> index_info i = index_info j.
Proof.
  unfold indexes_match, index_info. rewrite andb_true_iff, !bool_decide_eq_true. split; [intros [-> ->]|intros [= -> ->]]; done.
Qed.
Lemma bind_keys {A B} (k : B -> string) (g : A -> list B) (l : list A) x :
  NoDup (k <$> (y ← l; g y)) -> x ∈ l -> NoDup (k <$> g x).
Proof.
  induction l as [|y l IH]; intros Hnd Hx; [inversion Hx|]. cbn [mbind list_bind] in Hnd.
  rewrite fmap_app, NoDup_app in Hnd. destruct Hnd as (H1 & _ & H2). apply elem_of_cons in Hx as [->|Hx]; [done|by apply IH].
Qed.
Lemma keys_via {A} (k1 k2 : A -> string) (l : list A) :
  NoDup (k1 <$> l) -> (forall x y, x ∈ l -> y ∈ l -> k2 x = k2 y -> k1 x = k1 y) -> NoDup (k2 <$> l).
Proof.
  induction l as [|x l IH]; intros Hnd Hk; [constructor|]. rewrite fmap_cons, NoDup_cons in *. destruct Hnd as [Hx Hnd]. split.
  - intros (y & Hy & Hin)%list_elem_of_fmap. apply Hx. rewrite (Hk x y) by (done || by constructor). by apply list_elem_of_fmap_2.
  - apply IH; [done|]. intros y z Hy Hz. apply Hk; by constructor.
Qed.

Section index_names.
Context (s : SqlSchema) (Hs : sql_schema_wf s).
Lemma all_indexes_in t i : t ∈ tables s -> i ∈ t_indices t -> (t_name t, i) ∈ all_indexes s.
Proof. intros Ht Hi. apply list_elem_of_bind. exists t. split; [|done]. by apply list_elem_of_fmap_2. Qed.
Lemma index_unique t t' i j : t ∈ tables s -> t' ∈ tables s -> i ∈ t_indices t -> j ∈ t_indices t' -> i_name i = i_name j ->
  t_name t = t_name t' /\ i = j.
Proof.
  intros Ht Ht' Hi Hj He. destruct Hs as (_ & Hnd & _).
  pose proof (key_unique _ _ _ _ Hnd (all_indexes_in t i Ht Hi) (all_indexes_in t' j Ht' Hj) He) as [= -> ->]. done.
Qed.
Lemma index_keys t : t ∈ tables s -> NoDup (i_name <$> t_indices t).
Proof.
  intros Ht. destruct Hs as (_ & Hnd & _). pose proof (bind_keys _ _ _ _ Hnd Ht) as Hk. cbv beta in Hk.
  by rewrite <-list_fmap_compose in Hk.
Qed.
Lemma index_same t i j : t ∈ tables s -> i ∈ t_indices t -> j ∈ t_indices t -> index_info i = index_info j -> i = j.
Proof.
  intros Ht Hi Hj Hm%indexes_match_iff. destruct Hs as (_ & _ & Hw). destruct (Hw t Ht) as (_ & _ & _ & Hag).
  apply (index_unique t t); auto.
Qed.
Lemma indexes_of_in t i : t ∈ tables s -> i ∈ t_indices t -> indexes_of (t_indices t) !! i_name i = Some (index_info i).
Proof. intros Ht Hi. by apply (kmap_elem_NoDup i_name (fun i => (i_columns i, i_tpe i)) _ _ (index_keys t Ht)). Qed.
Lemma indexes_of_Some t k v : indexes_of (t_indices t) !! k = Some v -> exists i, i ∈ t_indices t /\ i_name i = k /\ index_info i = v.
Proof. apply kmap_elem. Qed.
End index_names.

Section pair_indexes.
Context (prev next : SqlSchema) (o : DiffingOptions) (HR : replayable prev next o).
Context (d : TableDiffer) (Hd : d ∈ table_pairs (the_differ prev next o)).
Abbreviation t := (td_previous d).
Abbreviation u := (td_next d).

Definition idx_created : gmap string (list string * IndexType) := puts i_name index_info (created_indexes d) (idx_kept d).
Definition old_key (x : Index * Index) : string := i_name x.1.
Definition new_key (x : Index * Index) : string := i_name x.2.
Definition old_info (x : Index * Index) : list string * IndexType := index_info x.1.
Definition idx_renamed (l : list (Index * Index)) : gmap string (list string * IndexType) :=
  puts new_key old_info l (dels old_key l idx_created).

Lemma prev_table_in : t ∈ tables prev.
Proof. by apply table_pairs_elem in Hd as (? & _). Qed.
Lemma next_table_in : u ∈ tables next.
Proof. by apply table_pairs_elem in Hd as (_ & ? & _). Qed.

Lemma created_indexes_elem j : j ∈ created_indexes d <-> j ∈ t_indices u /\ forall i, i ∈ t_indices t -> index_info i <> index_info j.
Proof.
  unfold created_indexes. rewrite iter_filter_elem, negb_true_iff, iter_any_false. setoid_rewrite <-not_true_iff_false.
  setoid_rewrite indexes_match_iff. done.
Qed.
Lemma index_pairs_elem p n : (p, n) ∈ index_pairs d ->
  p ∈ t_indices t /\ n ∈ t_indices u /\ index_info p = index_info n /\ i_name p <> i_name n.
Proof.
  intros (p' & Hp & (n' & [Hn [Hm Hne]%andb_true_iff]%iter_find_Some & [= -> ->])%fmap_Some)%list_elem_of_omap.
  apply indexes_match_iff in Hm. apply negb_true_iff, bool_decide_eq_false in Hne. done.
Qed.
Lemma pairs_in p n : p ∈ t_indices t -> n ∈ t_indices u -> index_info p = index_info n -> i_name p <> i_name n -> (p, n) ∈ index_pairs d.
Proof.
  intros Hp Hn Hm Hne. apply list_elem_of_omap. exists p. split; [done|].
  destruct (iter_find _ _) as [n'|] eqn:Ef.
  - apply iter_find_Some in Ef as [Hn' [Hm' _]%andb_true_iff]. apply indexes_match_iff in Hm'.
    by rewrite (index_same _ (rp_next _ _ _ HR) u n n' next_table_in Hn Hn') by congruence.
  - rewrite iter_find_None in Ef. specialize (Ef _ Hn). rewrite (proj2 (indexes_match_iff _ _) Hm), bool_decide_eq_false_2 in Ef by done. done.
Qed.
(** An index of the previous table with the name of one of the next is that index. *)
Lemma same_name i j : i ∈ t_indices t -> j ∈ t_indices u -> i_name i = i_name j -> index_info i = index_info j.
Proof. intros Hi Hj He. apply indexes_match_iff. exact (proj2 (rp_index_names _ _ _ HR t u i j prev_table_in next_table_in Hi Hj He)). Qed.

Lemma old_keys : NoDup (old_key <$> index_pairs d).
Proof.
  apply (omap_keys i_name); [|apply (index_keys prev (rp_prev _ _ _ HR)), prev_table_in]. intros p [p' n] (n' & _ & [= -> ->])%fmap_Some. done.
Qed.
Lemma new_keys : NoDup (new_key <$> index_pairs d).
Proof.
  apply (keys_via old_key); [apply old_keys|]. intros [p n] [p' n'] Hx%index_pairs_elem Hy%index_pairs_elem He. unfold new_key, old_key in *; cbn in *.
  destruct Hx as (Hp & Hn & Hm & _), Hy as (Hp' & Hn' & Hm' & _).
  destruct (index_unique next (rp_next _ _ _ HR) u u n n' next_table_in next_table_in Hn Hn' He) as [_ ->].
  by rewrite (index_same prev (rp_prev _ _ _ HR) t p p' prev_table_in Hp Hp') by congruence.
Qed.
Lemma created_index_keys : NoDup (i_name <$> created_indexes d).
Proof. apply filter_keys, (index_keys next (rp_next _ _ _ HR)), next_table_in. Qed.
Lemma kept_free j : j ∈ created_indexes d -> idx_kept d !! i_name j = None.
Proof.
  intros [Hj Hno]%created_indexes_elem. destruct (idx_kept d !! i_name j) as [v|] eqn:Ek; [|done]. exfalso.
  apply idx_kept_lookup in Ek as (i & _ & Hi & _ & _ & He & _). by apply (Hno i Hi), same_name.
Qed.
Lemma kept_in i j : i ∈ t_indices t -> j ∈ t_indices u -> index_info i = index_info j -> idx_kept d !! i_name i = Some (index_info i).
Proof.
  intros Hi Hj Hm. unfold idx_kept. rewrite dels_ne; [by apply (indexes_of_in prev (rp_prev _ _ _ HR) t i prev_table_in Hi)|].
  intros (i' & He & [Hi' Hno]%iter_filter_elem)%list_elem_of_fmap.
  destruct (index_unique prev (rp_prev _ _ _ HR) t t i i' prev_table_in prev_table_in Hi Hi' He) as [_ <-].
  apply negb_true_iff in Hno. rewrite iter_any_false in Hno. specialize (Hno j Hj). by rewrite (proj2 (indexes_match_iff _ _) Hm) in Hno.
Qed.

Lemma created_not_prev i j : i ∈ t_indices t -> j ∈ created_indexes d -> i_name i <> i_name j.
Proof. intros Hi [Hj Hno]%created_indexes_elem He. by apply (Hno i Hi), same_name. Qed.
Lemma old_not_new x y : x ∈ index_pairs d -> y ∈ index_pairs d -> old_key x <> new_key y.
Proof.
  destruct x as [p n], y as [p' n']. intros Hx%index_pairs_elem Hy%index_pairs_elem He. unfold old_key, new_key in He; cbn in He.
  destruct Hx as (Hp & _), Hy as (Hp' & Hn' & Hm' & Hne').
  pose proof (same_name p n' Hp Hn' He) as Hm.
  assert (p = p') as -> by (apply (index_same prev (rp_prev _ _ _ HR) t); [apply prev_table_in|done|done|congruence]). congruence.
Qed.
Lemma created_old x : x ∈ index_pairs d -> idx_created !! old_key x = Some (old_info x).
Proof.
  destruct x as [p n]. intros (Hp & Hn & Hm & _)%index_pairs_elem. unfold idx_created, old_key, old_info; cbn.
  rewrite puts_ne; [by eapply kept_in|]. intros (j & He & Hj)%list_elem_of_fmap. by apply (created_not_prev p j).
Qed.
Lemma created_new x : x ∈ index_pairs d -> idx_created !! new_key x = None.
Proof.
  destruct x as [p n]. intros (Hp & Hn & Hm & Hne)%index_pairs_elem. unfold idx_created, new_key; cbn. rewrite puts_ne.
  - destruct (idx_kept d !! i_name n) as [v|] eqn:Ek; [|done]. exfalso. apply idx_kept_lookup in Ek as (i & _ & Hi & _ & _ & He & _).
    pose proof (same_name i n Hi Hn He) as Hin.
    assert (i = p) as -> by (apply (index_same prev (rp_prev _ _ _ HR) t); [apply prev_table_in|done|done|congruence]). done.
  - intros (j & He & [Hj Hno]%created_indexes_elem)%list_elem_of_fmap.
    destruct (index_unique next (rp_next _ _ _ HR) u u n j next_table_in next_table_in Hn Hj He) as [_ ->]. by apply (Hno p).
Qed.
Lemma idx_renamed_all : idx_renamed (index_pairs d) = indexes_of (t_indices u).
Proof.
  apply map_eq. intros k. unfold idx_renamed. destruct (decide (k ∈ new_key <$> index_pairs d)) as [Hk|Hk].
  { apply list_elem_of_fmap in Hk as ([p n] & -> & Hx). rewrite puts_in by (done || apply new_keys). apply index_pairs_elem in Hx as (_ & Hn & Hm & _).
    unfold new_key, old_info; cbn. rewrite (indexes_of_in next (rp_next _ _ _ HR) u n next_table_in Hn). by rewrite Hm. }
  rewrite puts_ne by done. destruct (decide (k ∈ old_key <$> index_pairs d)) as [Ho|Ho].
  { rewrite dels_in by done. symmetry. apply list_elem_of_fmap in Ho as ([p n] & -> & Hx). apply index_pairs_elem in Hx as (Hp & Hn & Hm & Hne).
    unfold old_key; cbn. destruct (indexes_of _ !! _) as [v|] eqn:Ek; [|done]. apply indexes_of_Some in Ek as (j & Hj & He & _).
    pose proof (same_name p j Hp Hj (eq_sym He)) as Hpj.
    rewrite (index_same next (rp_next _ _ _ HR) u j n next_table_in Hj Hn) in He by congruence. congruence. }
  rewrite dels_ne by done. unfold idx_created. destruct (decide (k ∈ i_name <$> created_indexes d)) as [Hc|Hc].
  { apply list_elem_of_fmap in Hc as (j & -> & Hj). rewrite puts_in by (done || apply created_index_keys).
    apply created_indexes_elem in Hj as [Hj _]. by rewrite (indexes_of_in next (rp_next _ _ _ HR) u j next_table_in Hj). }
  rewrite puts_ne by done. destruct (idx_kept d !! k) as [v|] eqn:Ek.
  - apply idx_kept_lookup in Ek as (i & j & Hi & Hj & Hm%indexes_match_iff & <- & ->).
    destruct (decide (i_name i = i_name j)) as [He|He].
    + rewrite He, (indexes_of_in next (rp_next _ _ _ HR) u j next_table_in Hj). by rewrite <-Hm.
    + destruct Ho. apply (list_elem_of_fmap_2 old_key _ (i, j)). by apply pairs_in.
  - symmetry. destruct (indexes_of _ !! k) as [v|] eqn:Ei; [|done]. apply indexes_of_Some in Ei as (j & Hj & <- & _).
    destruct (iter_any (fun p => indexes_match p j) (t_indices t)) eqn:Ea.
    + apply iter_any_spec in Ea as (i & Hi & Hm%indexes_match_iff). destruct (decide (i_name i = i_name j)) as [He|He].
      * by rewrite <-He, (kept_in i j) in Ek.
      * destruct Hk. apply (list_elem_of_fmap_2 new_key _ (i, j)). by apply pairs_in.
    + destruct Hc. apply list_elem_of_fmap_2. unfold created_indexes. apply iter_filter_elem. by rewrite Ea.
Qed.
Lemma idx_renamed_snoc done x : x ∈ index_pairs d -> (forall y, y ∈ done -> y ∈ index_pairs d) ->
  idx_renamed (done ++ [x]) = <[new_key x := old_info x]> (delete (old_key x) (idx_renamed done)).
Proof.
  intros Hx Hdone. unfold idx_renamed. rewrite puts_snoc, dels_snoc. f_equal. generalize (dels old_key done idx_created) as m.
  induction done as [|y done IH] using rev_ind; intros m; [done|]. rewrite !puts_snoc.
  rewrite delete_insert_ne, IH; [done| |].
  - intros z Hz. apply Hdone, elem_of_app. by left.
  - apply (old_not_new x y); [done|]. apply Hdone, elem_of_app. right. constructor.
Qed.
Lemma idx_renamed_old done x : x ∈ index_pairs d -> (forall y, y ∈ done -> y ∈ index_pairs d) -> old_key x ∉ old_key <$> done ->
  idx_renamed done !! old_key x = Some (old_info x).
Proof.
  intros Hx Hdone Hn. unfold idx_renamed. rewrite puts_ne, dels_ne by
    (done || intros (y & He & Hy)%list_elem_of_fmap; by apply (old_not_new x y); auto). by apply created_old.
Qed.
Lemma idx_renamed_new done x : x ∈ index_pairs d -> (forall y, y ∈ done -> y ∈ index_pairs d) -> new_key x ∉ new_key <$> done ->
  idx_renamed done !! new_key x = None.
Proof.
  intros Hx Hdone Hn. unfold idx_renamed. rewrite puts_ne by done.
  rewrite dels_ne by (intros (y & He & Hy)%list_elem_of_fmap; by apply (old_not_new y x); auto). by apply created_new.
Qed.
End pair_indexes.
End replay.
