(* ===== verification/ReplayRun.v ===== *)
(** * Running the SQL differ's steps

    The passes of [into_steps] over the tables, one after the other, each from
    the database the pass before it leaves. *)
From S2P Require Import Prelude SqlSchema SqlDiffer SqlRender SqlInfer Ddl Replay.

(** ** Passes over tables *)
Section passes.
Context `{VT : ValueTypes} {A : Type} (key : A -> string) (new : A -> DbTable) (l : list A).


End passes.

Section run.
Context `{VT : ValueTypes}.
Context (prev next : SqlSchema) (o : DiffingOptions) (HR : replayable prev next o).
Abbreviation differ := (mkSqlSchemaDiffer prev next Postgres o).
Abbreviation pairs := (table_pairs differ).
Abbreviation created := (created_tables differ).
Abbreviation dropped := (dropped_tables differ).
Abbreviation steps_run := (run_list (step_runs prev o)).











(** ** Passes over the tables *)
Section one_table.
Context (T : gmap string DbTable) (E : gmap string (gset string)) (n : string).


End one_table.











Section final.
Context (HVT : ValueTypesOk VT).
End final.


End run.

(** ** Checking the conditions *)
Section check.
Context `{VT : ValueTypes}.


End check.

(** A migration that uses every kind of step: an enum is created, one altered and one dropped, a table created and one dropped with
    its foreign key, columns added, dropped and altered, indexes created, dropped and renamed, foreign keys added and removed. *)
Section replay_samples.
#[local] Existing Instance sample_values.
End replay_samples.

(** ** Theorems *)


