(* ===== verification/Dml.v ===== *)
(** * The datamodel after validation (libs/datamodel/core/src/dml, libs/datamodel/connectors)

    Models, fields, relations, enums and default values, with their lookups. *)
From S2P Require Import Prelude SqlSchema.
From stdpp Require Import pretty.

(** ** Scalar types (scalars.rs) *)
Inductive ScalarType : Type := ScalarInt | ScalarFloat | ScalarBoolean | ScalarString | ScalarDateTime | ScalarJson.
#[export] Instance ScalarType_eq_dec : EqDecision ScalarType.
Proof. solve_decision. Defined.
Definition ScalarType_from_str (s : string) : outcome string ScalarType :=
  if s ≟ "Int" then Ok ScalarInt
  else if s ≟ "Float" then Ok ScalarFloat
  else if s ≟ "Boolean" then Ok ScalarBoolean
  else if s ≟ "String" then Ok ScalarString
  else if s ≟ "DateTime" then Ok ScalarDateTime
  else if s ≟ "Json" then Ok ScalarJson
  else Err ("type " +:+ s +:+ " is not a known scalar type.").
Definition ScalarType_to_string (t : ScalarType) : string :=
  match t with
  | ScalarInt => "Int"
  | ScalarFloat => "Float"
  | ScalarBoolean => "Boolean"
  | ScalarString => "String"
  | ScalarDateTime => "DateTime"
  | ScalarJson => "Json"
  end.

(** A type of the connector, [datamodel_connector::ScalarFieldType]. *)
Record ScalarFieldType : Type := mkScalarFieldType {
  sft_name : string;
  prisma_type : ScalarType;
  datasource_type : string;
}.
#[export] Instance ScalarFieldType_eq_dec : EqDecision ScalarFieldType.
Proof. solve_decision. Defined.

(** ** Field arity and relations (field.rs, relation_info.rs) *)
Inductive FieldArity : Type := RequiredField | OptionalField | ListField.
#[export] Instance FieldArity_eq_dec : EqDecision FieldArity.
Proof. solve_decision. Defined.
Definition is_singular (a : FieldArity) : bool := (a ≟ RequiredField) || (a ≟ OptionalField).
Definition verbal_display (a : FieldArity) : string :=
  match a with RequiredField => "required" | OptionalField => "optional" | ListField => "list" end.
Definition arity_is_optional (a : FieldArity) : bool := a ≟ OptionalField.
Definition arity_is_list (a : FieldArity) : bool := a ≟ ListField.

Inductive OnDeleteStrategy : Type := OnDeleteCascade | OnDeleteNone.
#[export] Instance OnDeleteStrategy_eq_dec : EqDecision OnDeleteStrategy.
Proof. solve_decision. Defined.
Definition OnDeleteStrategy_parse (s : string) : option OnDeleteStrategy :=
  if s ≟ "CASCADE" then Some OnDeleteCascade else if s ≟ "NONE" then Some OnDeleteNone else None.
Definition OnDeleteStrategy_to_string (s : OnDeleteStrategy) : string :=
  match s with OnDeleteCascade => "CASCADE" | OnDeleteNone => "NONE" end.

Record RelationInfo : Type := mkRelationInfo {
  ri_to : string;
  ri_fields : list string;
  ri_to_fields : list string;
  ri_name : string;
  ri_on_delete : OnDeleteStrategy;
}.
#[export] Instance RelationInfo_eq_dec : EqDecision RelationInfo.
Proof. solve_decision. Defined.
Definition RelationInfo_new (to : string) : RelationInfo := mkRelationInfo to [] [] EmptyString OnDeleteNone.

Section dml.
Context `{VT : ValueTypes}.

(** ** Default values (default_value.rs) *)
Inductive ValueGeneratorFn : Type := GenUUID | GenCUID | GenNow | GenAutoincrement | GenDbGenerated.
#[export] Instance ValueGeneratorFn_eq_dec : EqDecision ValueGeneratorFn.
Proof. solve_decision. Defined.
Record ValueGenerator : Type := mkValueGenerator {
  vg_name : string;
  vg_args : list PrismaValue;
  generator : ValueGeneratorFn;
}.
Inductive DefaultValue : Type :=
| Single (v : PrismaValue)
| DefaultExpression (g : ValueGenerator).

Definition ValueGeneratorFn_new (name : string) : outcome string ValueGeneratorFn :=
  if name ≟ "cuid" then Ok GenCUID
  else if name ≟ "uuid" then Ok GenUUID
  else if name ≟ "now" then Ok GenNow
  else if name ≟ "autoincrement" then Ok GenAutoincrement
  else if name ≟ "dbgenerated" then Ok GenDbGenerated
  else Err ("The function " +:+ name +:+ " is not a known function.").
Definition ValueGenerator_new (name : string) (args : list PrismaValue) : outcome string ValueGenerator :=
  generator ← ValueGeneratorFn_new name;
  Ok (mkValueGenerator name args generator).
(** [invoke] and [get]; a fresh uuid and cuid and the present time come from the crates uuid, cuid and chrono. *)
Definition invoke (new_uuid : Uuid) (new_cuid : string) (now : DateTimeUtc) (g : ValueGeneratorFn) : option PrismaValue :=
  match g with
  | GenUUID => Some (PV_Uuid new_uuid)
  | GenCUID => Some (PV_String new_cuid)
  | GenNow => Some (PV_DateTime now)
  | GenAutoincrement => None
  | GenDbGenerated => None
  end.
Definition DefaultValue_get (new_uuid : Uuid) (new_cuid : string) (now : DateTimeUtc) (d : DefaultValue) : option PrismaValue :=
  match d with
  | Single v => Some v
  | DefaultExpression g => invoke new_uuid new_cuid now (generator g)
  end.
(** [PartialEq]: a generator is compared by its name and arguments. *)
Definition ValueGenerator_eqb (a b : ValueGenerator) : bool :=
  (vg_name a ≟ vg_name b) && value_eqb (PV_List (vg_args a)) (PV_List (vg_args b)).
Definition DefaultValue_eqb (a b : DefaultValue) : bool :=
  match a, b with
  | Single v, Single w => value_eqb v w
  | DefaultExpression g, DefaultExpression h => ValueGenerator_eqb g h
  | _, _ => false
  end.
Definition option_eqb {A} (eqb : A -> A -> bool) (a b : option A) : bool :=
  match a, b with Some x, Some y => eqb x y | None, None => true | _, _ => false end.
Fixpoint list_eqb {A} (eqb : A -> A -> bool) (a b : list A) : bool :=
  match a, b with
  | [], [] => true
  | x :: a, y :: b => eqb x y && list_eqb eqb a b
  | _, _ => false
  end.

(** ** Fields (field.rs) *)
Inductive FieldType : Type :=
| EnumType (name : string)
| RelationType (info : RelationInfo)
| ConnectorSpecific (t : ScalarFieldType)
| UnsupportedType (name : string)
| Base (t : ScalarType) (alias : option string).
#[export] Instance FieldType_eq_dec : EqDecision FieldType.
Proof. solve_decision. Defined.
Definition is_relation (t : FieldType) : bool := match t with RelationType _ => true | _ => false end.
Definition is_compatible_with (a b : FieldType) : bool :=
  match a, b with
  | Base s _, Base t _ => s ≟ t
  | a, b => a ≟ b
  end.
Definition scalar_type (t : FieldType) : option ScalarType :=
  match t with
  | ConnectorSpecific sft => Some (prisma_type sft)
  | Base st _ => Some st
  | _ => None
  end.

Record Field : Type := mkField {
  f_name : string;
  f_type : FieldType;
  f_arity : FieldArity;
  f_database_name : option string;
  f_default_value : option DefaultValue;
  f_is_unique : bool;
  f_is_id : bool;
  f_documentation : option string;
  f_is_generated : bool;
  f_is_updated_at : bool;
  f_is_commented_out : bool;
}.
Definition Field_new (name : string) (t : FieldType) : Field :=
  mkField name t RequiredField None None false false None false false false.
Definition Field_new_generated (name : string) (t : FieldType) : Field :=
  mkField name t OptionalField None None false false None true false false.
Definition points_to_model (f : Field) (name : string) : bool :=
  match f_type f with RelationType info => ri_to info ≟ name | _ => false end.
Definition field_db_name (f : Field) : string := default (f_name f) (f_database_name f).
Definition Field_eqb (a b : Field) : bool :=
  (f_name a ≟ f_name b) && (f_type a ≟ f_type b) && (f_arity a ≟ f_arity b)
  && (f_database_name a ≟ f_database_name b) && option_eqb DefaultValue_eqb (f_default_value a) (f_default_value b)
  && (f_is_unique a ≟ f_is_unique b) && (f_is_id a ≟ f_is_id b) && (f_documentation a ≟ f_documentation b)
  && (f_is_generated a ≟ f_is_generated b) && (f_is_updated_at a ≟ f_is_updated_at b)
  && (f_is_commented_out a ≟ f_is_commented_out b).

(** ** Models (model.rs) *)
Inductive IndexType : Type := UniqueIndex | NormalIndex.
#[export] Instance IndexType_eq_dec : EqDecision IndexType.
Proof. solve_decision. Defined.
Record IndexDefinition : Type := mkIndexDefinition {
  ix_name : option string;
  ix_fields : list string;
  ix_tpe : IndexType;
}.
#[export] Instance IndexDefinition_eq_dec : EqDecision IndexDefinition.
Proof. solve_decision. Defined.
Definition index_is_unique (i : IndexDefinition) : bool := match ix_tpe i with UniqueIndex => true | _ => false end.

Record Model : Type := mkModel {
  m_name : string;
  m_fields : list Field;
  m_documentation : option string;
  m_database_name : option string;
  m_is_embedded : bool;
  m_indices : list IndexDefinition;
  m_id_fields : list string;
  m_is_generated : bool;
  m_is_commented_out : bool;
}.
Definition Model_new (name : string) (database_name : option string) : Model :=
  mkModel name [] None database_name false [] [] false false.
Definition Model_eqb (a b : Model) : bool :=
  (m_name a ≟ m_name b) && list_eqb Field_eqb (m_fields a) (m_fields b) && (m_documentation a ≟ m_documentation b)
  && (m_database_name a ≟ m_database_name b) && (m_is_embedded a ≟ m_is_embedded b) && (m_indices a ≟ m_indices b)
  && (m_id_fields a ≟ m_id_fields b) && (m_is_generated a ≟ m_is_generated b)
  && (m_is_commented_out a ≟ m_is_commented_out b).

Definition set_model_fields (fs : list Field) (m : Model) : Model :=
  mkModel (m_name m) fs (m_documentation m) (m_database_name m) (m_is_embedded m) (m_indices m) (m_id_fields m)
    (m_is_generated m) (m_is_commented_out m).
Definition add_field (f : Field) (m : Model) : Model := set_model_fields (m_fields m ++ [f]) m.
Definition remove_field (name : string) (m : Model) : Model :=
  set_model_fields (iter_filter (fun f => negb (f_name f ≟ name)) (m_fields m)) m.
Definition find_field (m : Model) (name : string) : option Field :=
  iter_find (fun f => f_name f ≟ name) (m_fields m).
Definition has_field (m : Model) (name : string) : bool := match find_field m name with Some _ => true | None => false end.
Definition singular_id_fields (m : Model) : list Field := iter_filter f_is_id (m_fields m).
Definition id_field_names (m : Model) : list string :=
  match head (singular_id_fields m) with
  | Some f => [f_name f]
  | None => m_id_fields m
  end.
Definition has_single_id_field (m : Model) : bool := length (singular_id_fields m) ≟ 1.
(** [unique_criterias]; a missing field is an [unwrap] on [None]. *)
Definition unique_criterias {E} (allow_optional : bool) (m : Model) : outcome E (list (list Field)) :=
  let first := match head (singular_id_fields m) with Some x => [[x]] | None => [] end in
  id_fields ← map_m (fun f => unwrap "find_field" (find_field m f)) (m_id_fields m);
  let second := match id_fields with [] => [] | _ => [id_fields] end in
  let third := (fun f => [f]) <$> iter_filter (fun f => f_is_unique f && ((f_arity f ≟ RequiredField) || allow_optional)) (m_fields m) in
  fourth ← map_m (fun i => map_m (fun f => unwrap "find_field" (find_field m f)) (ix_fields i))
             (iter_filter (fun i => ix_tpe i ≟ UniqueIndex) (m_indices m));
  Ok (first ++ second ++ third ++ fourth).
Definition strict_unique_criterias {E} : Model -> outcome E (list (list Field)) := unique_criterias false.
Definition loose_unique_criterias {E} : Model -> outcome E (list (list Field)) := unique_criterias true.
Definition first_unique_criterion {E} (m : Model) : outcome E (list Field) :=
  criterias ← strict_unique_criterias m;
  match head criterias with
  | Some fields => Ok fields
  | None => Panic ("Could not find the first unique criteria on model " +:+ m_name m)
  end.
(** [Model::related_field]. *)
Definition is_related_field (m : Model) (to relation_name exclude_field : string) (f : Field) : bool :=
  match f_type f with
  | RelationType info =>
      (ri_to info ≟ to) && (ri_name info ≟ relation_name) && (negb (m_name m ≟ to) || negb (f_name f ≟ exclude_field))
  | _ => false
  end.
Definition model_related_field (m : Model) (to relation_name exclude_field : string) : option Field :=
  iter_find (is_related_field m to relation_name exclude_field) (m_fields m).
Definition is_relation_model (m : Model) : bool :=
  length (iter_filter (fun f => is_relation (f_type f) && (f_arity f ≟ RequiredField)) (m_fields m)) ≟ 2.
Definition is_pure_relation_model (m : Model) : bool := is_relation_model m && (length (m_fields m) ≟ 2).
Definition add_index (i : IndexDefinition) (m : Model) : Model :=
  mkModel (m_name m) (m_fields m) (m_documentation m) (m_database_name m) (m_is_embedded m) (m_indices m ++ [i]) (m_id_fields m)
    (m_is_generated m) (m_is_commented_out m).
Definition has_index (m : Model) (i : IndexDefinition) : bool := iter_any (fun own => own ≟ i) (m_indices m).
Definition model_db_name (m : Model) : string := default (m_name m) (m_database_name m).

(** ** Enums (enum.rs) *)
Record EnumValue : Type := mkEnumValue {
  ev_name : string;
  ev_database_name : option string;
  ev_documentation : option string;
  ev_commented_out : bool;
}.
Record Enum : Type := mkEnum {
  en_name : string;
  en_values : list EnumValue;
  en_documentation : option string;
  en_database_name : option string;
}.
Definition EnumValue_new (name : string) (database_name : option string) : EnumValue := mkEnumValue name database_name None false.
Definition Enum_new (name : string) (values : list EnumValue) : Enum := mkEnum name values None None.
Definition add_value (v : EnumValue) (e : Enum) : Enum :=
  mkEnum (en_name e) (en_values e ++ [v]) (en_documentation e) (en_database_name e).
Definition value_db_name (v : EnumValue) : string := default (ev_name v) (ev_database_name v).
Definition enum_db_name (e : Enum) : string := default (en_name e) (en_database_name e).
Definition database_values (e : Enum) : list string := value_db_name <$> en_values e.
Definition find_value {E} (e : Enum) (value : string) : outcome E EnumValue :=
  unwrap "find_value" (iter_find (fun ev => ev_name ev ≟ value) (en_values e)).

(** ** Datamodels (datamodel.rs) *)
Record Datamodel : Type := mkDatamodel {
  dm_enums : list Enum;
  dm_models : list Model;
}.
Definition Datamodel_new : Datamodel := mkDatamodel [] [].
Definition find_model (d : Datamodel) (name : string) : option Model :=
  iter_find (fun m => m_name m ≟ name) (dm_models d).
Definition find_enum (d : Datamodel) (name : string) : option Enum :=
  iter_find (fun e => en_name e ≟ name) (dm_enums d).
Definition has_model (d : Datamodel) (name : string) : bool := match find_model d name with Some _ => true | None => false end.
Definition has_enum (d : Datamodel) (name : string) : bool := match find_enum d name with Some _ => true | None => false end.
Definition add_model (m : Model) (d : Datamodel) : Datamodel := mkDatamodel (dm_enums d) (dm_models d ++ [m]).
Definition add_enum (e : Enum) (d : Datamodel) : Datamodel := mkDatamodel (dm_enums d ++ [e]) (dm_models d).
Definition remove_model (name : string) (d : Datamodel) : Datamodel :=
  mkDatamodel (dm_enums d) (iter_filter (fun m => negb (m_name m ≟ name)) (dm_models d)).
Definition remove_enum (name : string) (d : Datamodel) : Datamodel :=
  mkDatamodel (iter_filter (fun e => negb (en_name e ≟ name)) (dm_enums d)) (dm_models d).
Definition dm_find_field (d : Datamodel) (r : string * string) : option Field :=
  m ← find_model d r.1; find_field m r.2.
Definition dm_related_field (d : Datamodel) (from to name exclude_field : string) : option Field :=
  m ← find_model d to;
  iter_find (fun f => match f_type f with
                      | RelationType info => (ri_to info ≟ from) && (ri_name info ≟ name) && negb (f_name f ≟ exclude_field)
                      | _ => false
                      end) (m_fields m).
End dml.

(** ** Equality *)
Lemma option_eqb_refl {A} (eqb : A -> A -> bool) a : (forall x, eqb x x = true) -> option_eqb eqb a a = true.
Proof. intros Hr. destruct a; [apply Hr|done]. Qed.
Lemma list_eqb_refl {A} (eqb : A -> A -> bool) a : (forall x, eqb x x = true) -> list_eqb eqb a a = true.
Proof. intros Hr. induction a as [|x a IH]; [done|]. cbn. by rewrite Hr, IH. Qed.
Section equality.
Context `{VT : ValueTypes} (HVT : ValueTypesOk VT).
Lemma DefaultValue_eqb_refl d : DefaultValue_eqb d d = true.
Proof.
  destruct d as [v|g]; cbn; [by apply value_eqb_refl|]. unfold ValueGenerator_eqb. rewrite bool_decide_eq_true_2 by done.
  by apply value_eqb_refl.
Qed.
Lemma Field_eqb_refl f : Field_eqb f f = true.
Proof.
  unfold Field_eqb. rewrite !bool_decide_eq_true_2 by done. rewrite option_eqb_refl; [done|]. apply DefaultValue_eqb_refl.
Qed.
Lemma Model_eqb_refl m : Model_eqb m m = true.
Proof. unfold Model_eqb. rewrite !bool_decide_eq_true_2 by done. rewrite list_eqb_refl; [done|]. apply Field_eqb_refl. Qed.
End equality.

Lemma find_model_Some `{VT : ValueTypes} d n m : find_model d n = Some m -> m ∈ dm_models d /\ m_name m = n.
Proof. intros [Hm Hn]%iter_find_Some. split; [done|]. by apply bool_decide_eq_true in Hn. Qed.
Lemma find_field_Some `{VT : ValueTypes} m n f : find_field m n = Some f -> f ∈ m_fields m /\ f_name f = n.
Proof. intros [Hm Hn]%iter_find_Some. split; [done|]. by apply bool_decide_eq_true in Hn. Qed.
Lemma find_enum_Some `{VT : ValueTypes} d n e : find_enum d n = Some e -> e ∈ dm_enums d /\ en_name e = n.
Proof. intros [Hm Hn]%iter_find_Some. split; [done|]. by apply bool_decide_eq_true in Hn. Qed.
