(* ===== verification/Converter.v ===== *)
(** * Relations of a datamodel (libs/prisma-models/src/datamodel_converter.rs)

    The relations are collected from the relation fields of the models, with
    the two sides in the order of their names, and with where the relation is
    stored. *)
From S2P Require Import Prelude SqlSchema Dml.

(** ** Iterator adaptors of the crate itertools

    [unique_by] keeps the elements whose key has not occurred before, [unique]
    the elements that differ from the ones kept before. *)
Class Itertools : Type := {
  unique_by : forall {A : Type}, (A -> string) -> list A -> list A;
  unique_eq : forall {A : Type}, (A -> A -> bool) -> list A -> list A;
}.
Class ItertoolsOk (IT : Itertools) : Prop := {
  unique_by_nil : forall A (key : A -> string), unique_by key [] = [];
  unique_by_snoc : forall A (key : A -> string) l x,
    unique_by key (l ++ [x]) = if decide (key x ∈ key <$> l) then unique_by key l else unique_by key l ++ [x];
  unique_eq_nil : forall A (eqb : A -> A -> bool), unique_eq eqb [] = [];
  unique_eq_snoc : forall A (eqb : A -> A -> bool) l x,
    unique_eq eqb (l ++ [x]) = if iter_any (eqb x) (unique_eq eqb l) then unique_eq eqb l else unique_eq eqb l ++ [x];
}.
(** An instance, for examples. *)
Fixpoint sample_unique_by {A} (key : A -> string) (seen : list string) (l : list A) : list A :=
  match l with
  | [] => []
  | x :: l => if decide (key x ∈ seen) then sample_unique_by key seen l else x :: sample_unique_by key (key x :: seen) l
  end.
Definition sample_unique_eq {A} (eqb : A -> A -> bool) (l : list A) : list A :=
  foldl (fun acc x => if iter_any (eqb x) acc then acc else acc ++ [x]) [] l.
Definition sample_itertools : Itertools :=
  {| unique_by A key l := sample_unique_by key [] l; unique_eq A eqb l := sample_unique_eq eqb l |}.
Lemma sample_unique_by_snoc {A} (key : A -> string) seen l x :
  sample_unique_by key seen (l ++ [x]) =
  sample_unique_by key seen l ++ (if decide (key x ∈ key <$> l) then [] else if decide (key x ∈ seen) then [] else [x]).
Proof.
  revert seen. induction l as [|y l IH]; intros seen; cbn [app sample_unique_by].
  - rewrite (decide_False (P := key x ∈ key <$> [])) by apply not_elem_of_nil. by destruct (decide (key x ∈ seen)).
  - rewrite fmap_cons. destruct (decide (key y ∈ seen)) as [Hy|Hy]; rewrite IH; cbn [app]; f_equal; [|f_equal].
    + destruct (decide (key x ∈ key <$> l)) as [Hx|Hx]; [by rewrite decide_True by (by constructor)|].
      destruct (decide (key x ∈ seen)) as [Hs|Hs]; [by destruct (decide _)|].
      rewrite decide_False; [done|]. rewrite elem_of_cons. intros [He|]; [|done]. by rewrite He in Hs.
    + destruct (decide (key x ∈ key <$> l)) as [Hx|Hx]; [by rewrite decide_True by (by constructor)|].
      destruct (decide (key x = key y)) as [He|He].
      * rewrite (decide_True (P := key x ∈ key y :: seen)) by (rewrite He; constructor).
        by rewrite decide_True by (rewrite He; constructor).
      * rewrite (decide_False (P := key x ∈ key y :: (key <$> l))) by (rewrite elem_of_cons; naive_solver).
        destruct (decide (key x ∈ seen)) as [Hs|Hs]; [by rewrite decide_True by (by constructor)|].
        rewrite decide_False by (rewrite elem_of_cons; naive_solver). done.
Qed.
#[export] Instance sample_itertools_ok : ItertoolsOk sample_itertools.
Proof.
  split; [done| |done|].
  - intros A key l x. cbn. rewrite sample_unique_by_snoc.
    destruct (decide _); [by rewrite app_nil_r|]. by rewrite decide_False by apply not_elem_of_nil.
  - intros A eqb l x. cbn. unfold sample_unique_eq. by rewrite foldl_app.
Qed.
Section unique_by.
Context `{IT : Itertools} {HIT : ItertoolsOk IT} {A : Type} (key : A -> string).
Lemma unique_by_elem l x : x ∈ unique_by key l -> x ∈ l.
Proof.
  induction l as [|y l IH] using rev_ind; [by rewrite unique_by_nil|]. rewrite unique_by_snoc, elem_of_app.
  destruct (decide _); [naive_solver|]. rewrite elem_of_app. naive_solver.
Qed.
Lemma unique_by_key l x : x ∈ l -> exists y, y ∈ unique_by key l /\ key y = key x.
Proof.
  revert x. induction l as [|z l IH] using rev_ind; intros x; [by intros ?%elem_of_nil|].
  rewrite unique_by_snoc, elem_of_app, list_elem_of_singleton. intros [Hx| ->].
  - destruct (IH x Hx) as (y & Hy & He). exists y. destruct (decide _); [done|]. rewrite elem_of_app. auto.
  - destruct (decide _) as [Hd|Hd].
    + apply list_elem_of_fmap in Hd as (w & -> & Hw). by apply IH.
    + exists z. rewrite elem_of_app, list_elem_of_singleton. auto.
Qed.
Lemma unique_by_NoDup l : NoDup (key <$> unique_by key l).
Proof.
  induction l as [|x l IH] using rev_ind; [rewrite unique_by_nil; constructor|]. rewrite unique_by_snoc.
  destruct (decide _) as [Hd|Hd]; [done|]. rewrite fmap_app, NoDup_app. split_and!; [done| |apply NoDup_singleton].
  intros k (y & -> & Hy)%list_elem_of_fmap Hk. apply list_elem_of_singleton in Hk. apply Hd. rewrite <-Hk.
  apply list_elem_of_fmap_2. by apply unique_by_elem.
Qed.
End unique_by.

(** ** [TempRelationHolder] *)
Section converter.
Context `{VT : ValueTypes} `{IT : Itertools}.

Inductive TempManifestationHolder : Type :=
| TempInline (in_table_of_model : string) (field : Field) (referenced_fields : list string)
| TempTable.
Record TempRelationHolder : Type := mkTempRelationHolder {
  tr_name : string;
  model_a : Model;
  model_b : Model;
  field_a : Field;
  field_b : Field;
  tr_manifestation : TempManifestationHolder;
}.
Definition field_is_list (f : Field) : bool := f_arity f ≟ ListField.
Definition field_is_required (f : Field) : bool := f_arity f ≟ RequiredField.
Definition relation_name (r : TempRelationHolder) : string :=
  if tr_name r ≟ EmptyString then m_name (model_a r) +:+ "To" +:+ m_name (model_b r) else tr_name r.
Definition table_name (r : TempRelationHolder) : string := "_" +:+ relation_name r.
Definition model_a_column : string := "A".
Definition model_b_column : string := "B".
Definition tr_is_one_to_one (r : TempRelationHolder) : bool := negb (field_is_list (field_a r)) && negb (field_is_list (field_b r)).
Definition tr_is_many_to_many (r : TempRelationHolder) : bool := field_is_list (field_a r) && field_is_list (field_b r).
Definition is_for_model_and_field (r : TempRelationHolder) (m : Model) (f : Field) : bool :=
  (Model_eqb (model_a r) m && Field_eqb (field_a r) f) || (Model_eqb (model_b r) m && Field_eqb (field_b r) f).

(** ** [DatamodelConverter::calculate_relations] *)
Definition is_opposite_field (model related_model : Model) (field : Field) (name : string) (f : Field) : bool :=
  match f_type f with
  | RelationType rel_info =>
      if m_name model ≟ m_name related_model
      then (ri_to rel_info ≟ m_name model) && (ri_name rel_info ≟ name) && negb (f_name f ≟ f_name field)
      else (ri_to rel_info ≟ m_name model) && (ri_name rel_info ≟ name)
  | _ => false
  end.
Definition manifestation_of {E} (model related_model : Model) (field related_field : Field)
    (to_fields related_to_fields : list string) (a b : Model) (fa fb : Field) (referenced_a referenced_b : list string) :
    outcome E TempManifestationHolder :=
  let inline_on_model_a := TempInline (m_name a) fa referenced_a in
  let inline_on_model_b := TempInline (m_name b) fb referenced_b in
  let inline_on_this_model := TempInline (m_name model) field to_fields in
  let inline_on_related_model := TempInline (m_name related_model) related_field related_to_fields in
  match field_is_list fa, field_is_list fb with
  | true, true => Ok TempTable
  | false, true => Ok inline_on_model_a
  | true, false => Ok inline_on_model_b
  | false, false =>
      match head to_fields, head related_to_fields with
      | Some _, None => Ok inline_on_this_model
      | None, Some _ => Ok inline_on_related_model
      | None, None => Ok (if String.ltb (m_name a) (m_name b) then inline_on_model_a else inline_on_model_b)
      | Some _, Some _ =>
          Panic ("It's not allowed that both sides of a relation specify the inline policy. The field was " +:+ f_name field
                 +:+ " on model " +:+ m_name model +:+ ". The related field was " +:+ f_name related_field
                 +:+ " on model " +:+ m_name related_model +:+ ".")
      end
  end.
(** The relation of one field, if it is a relation field. *)
Definition relation_of_field {E} (datamodel : Datamodel) (model : Model) (field : Field) : outcome E (option TempRelationHolder) :=
  match f_type field with
  | RelationType relation_info =>
      related_model ← unwrap ("Related model " +:+ ri_to relation_info +:+ " not found") (find_model datamodel (ri_to relation_info));
      related_field ← unwrap ("Related model for model " +:+ m_name model +:+ " and field " +:+ f_name field +:+ " not found")
        (iter_find (is_opposite_field model related_model field (ri_name relation_info)) (m_fields related_model));
      related_info ← match f_type related_field with
                     | RelationType info => Ok info
                     | _ => Panic "this was not a relation field"
                     end;
      let to_fields := ri_to_fields relation_info in
      let related_to_fields := ri_to_fields related_info in
      let '(a, b, fa, fb, referenced_a, referenced_b) :=
        if String.ltb (m_name model) (m_name related_model) then
          (model, related_model, field, related_field, to_fields, related_to_fields)
        else if String.ltb (m_name related_model) (m_name model) then
          (related_model, model, related_field, field, related_to_fields, to_fields)
        else
          let '(fa, fb) := if String.ltb (f_name field) (f_name related_field) then (field, related_field) else (related_field, field) in
          (model, related_model, fa, fb, to_fields, related_to_fields) in
      manifestation ← manifestation_of model related_model field related_field to_fields related_to_fields a b fa fb referenced_a referenced_b;
      Ok (Some (mkTempRelationHolder (ri_name relation_info) a b fa fb manifestation))
  | _ => Ok None
  end.
Definition model_fields_of (datamodel : Datamodel) : list (Model * Field) :=
  m ← dm_models datamodel; (fun f => (m, f)) <$> m_fields m.
Definition calculate_relations {E} (datamodel : Datamodel) : outcome E (list TempRelationHolder) :=
  result ← map_m (fun '(m, f) => relation_of_field datamodel m f) (model_fields_of datamodel);
  Ok (unique_by relation_name (omap id result)).
End converter.
