(* ===== verification/SchemaCalc.v ===== *)
(** * The SQL schema of a datamodel (sql_schema_calculator.rs, datamodel_helpers.rs)

    Tables, columns, indexes, foreign keys and enums are computed from the
    models; many-to-many relations get a table of their own. *)
From S2P Require Import Prelude SqlSchema Dml Converter.
From stdpp Require Import sorting.

Section calculator.
Context `{VT : ValueTypes} `{IT : Itertools}.
(** The text of a list value, which [Display] writes with the derived [Debug]. *)
Context (debug_list : list PrismaValue -> string).

(** ** References into the datamodel (datamodel_helpers.rs) *)
Record ModelRef : Type := mkModelRef { mr_datamodel : Datamodel; mr_model : Model }.
Record FieldRef : Type := mkFieldRef { fr_datamodel : Datamodel; fr_model : Model; fr_field : Field }.
Inductive TypeRef : Type :=
| TypeRefEnum (e : Enum)
| TypeRefBase (t : ScalarType)
| TypeRefOther.
Record RelationFieldRef : Type := mkRelationFieldRef { rfr_field : FieldRef; rfr_info : RelationInfo }.
Record IndexRef : Type := mkIndexRef { ir_index : IndexDefinition; ir_model : ModelRef }.

Definition walk_models (d : Datamodel) : list ModelRef := mkModelRef d <$> dm_models d.
Definition walk_fields (d : Datamodel) : list FieldRef := m ← dm_models d; mkFieldRef d m <$> m_fields m.
Definition mr_db_name (m : ModelRef) : string := model_db_name (mr_model m).
Definition mr_fields (m : ModelRef) : list FieldRef := mkFieldRef (mr_datamodel m) (mr_model m) <$> m_fields (mr_model m).
Definition mr_find_field (m : ModelRef) (name : string) : option FieldRef :=
  mkFieldRef (mr_datamodel m) (mr_model m) <$> iter_find (fun f => f_name f ≟ name) (m_fields (mr_model m)).
Definition mr_id_fields (m : ModelRef) : list FieldRef :=
  mkFieldRef (mr_datamodel m) (mr_model m) <$>
  (iter_filter f_is_id (m_fields (mr_model m))
   ++ omap (fun n => iter_find (fun f => f_name f ≟ n) (m_fields (mr_model m))) (m_id_fields (mr_model m))).
Definition mr_unique_indexes (m : ModelRef) : list IndexRef :=
  (fun i => mkIndexRef i m) <$> iter_filter index_is_unique (m_indices (mr_model m)).

Definition fr_db_name (f : FieldRef) : string := field_db_name (fr_field f).
Definition fr_arity (f : FieldRef) : FieldArity := f_arity (fr_field f).
Definition fr_model_ref (f : FieldRef) : ModelRef := mkModelRef (fr_datamodel f) (fr_model f).
Definition fr_field_type {E} (f : FieldRef) : outcome E TypeRef :=
  match f_type (fr_field f) with
  | EnumType name => e ← unwrap "find_enum" (find_enum (fr_datamodel f) name); Ok (TypeRefEnum e)
  | Base t _ => Ok (TypeRefBase t)
  | _ => Ok TypeRefOther
  end.
Definition as_relation_field (f : FieldRef) : option RelationFieldRef :=
  match f_type (fr_field f) with RelationType info => Some (mkRelationFieldRef f info) | _ => None end.
Definition as_enum_type (t : TypeRef) : option Enum := match t with TypeRefEnum e => Some e | _ => None end.

Definition is_virtual (r : RelationFieldRef) : bool := match ri_fields (rfr_info r) with [] => true | _ => false end.
Definition referenced_model {E} (r : RelationFieldRef) : outcome E Model :=
  unwrap ("Invariant violation: could not find model " +:+ ri_to (rfr_info r) +:+ " referenced in relation info.")
    (find_model (fr_datamodel (rfr_field r)) (ri_to (rfr_info r))).
Definition referenced_model_ref {E} (r : RelationFieldRef) : outcome E ModelRef :=
  m ← referenced_model r; Ok (mkModelRef (fr_datamodel (rfr_field r)) m).
(** [opposite_side]: the first relation field of the referenced model that fits; the referenced model of a
    candidate is looked up only when the relation names agree. *)
Fixpoint find_opposite {E} (r : RelationFieldRef) (l : list RelationFieldRef) : outcome E (option RelationFieldRef) :=
  match l with
  | [] => Ok None
  | x :: l =>
      if ri_name (rfr_info x) ≟ ri_name (rfr_info r) then
        m ← referenced_model x;
        if (m_name m ≟ m_name (fr_model (rfr_field r)))
           && negb (ri_to_fields (rfr_info x) ≟ ri_to_fields (rfr_info r))
           && negb (ri_fields (rfr_info x) ≟ ri_fields (rfr_info r))
        then Ok (Some x) else find_opposite r l
      else find_opposite r l
  end.
Definition opposite_side {E} (r : RelationFieldRef) : outcome E (option RelationFieldRef) :=
  m ← referenced_model_ref r; find_opposite r (omap as_relation_field (mr_fields m)).
Definition is_one_to_one {E} (r : RelationFieldRef) : outcome E bool :=
  if is_singular (fr_arity (rfr_field r)) then
    o ← opposite_side r;
    Ok (match o with Some rel => is_singular (fr_arity (rfr_field rel)) | None => false end)
  else Ok false.
Definition referencing_columns {E} (r : RelationFieldRef) : outcome E (list string) :=
  map_m (fun n => f ← unwrap ("Unable to resolve field " +:+ n) (mr_find_field (fr_model_ref (rfr_field r)) n); Ok (fr_db_name f))
    (ri_fields (rfr_info r)).
Definition rel_referenced_columns {E} (r : RelationFieldRef) : outcome E (list string) :=
  map_m (fun n => m ← referenced_model r; f ← unwrap ("Unable to resolve field " +:+ n) (find_field m n); Ok (field_db_name f))
    (ri_to_fields (rfr_info r)).
Definition referenced_table_name {E} (r : RelationFieldRef) : outcome E string :=
  m ← referenced_model r; Ok (model_db_name m).
Definition index_fields {E} (i : IndexRef) : outcome E (list FieldRef) :=
  map_m (fun n => unwrap "index on unknown model field" (iter_find (fun f => f_name (fr_field f) ≟ n) (mr_fields (ir_model i))))
    (ix_fields (ir_index i)).

(** ** Columns (sql_schema_calculator.rs) *)
Definition column_arity (a : FieldArity) : ColumnArity :=
  match a with RequiredField => Required | ListField => List_ | OptionalField => Nullable end.
Definition column_type_for_scalar_type (t : ScalarType) (a : ColumnArity) : ColumnType :=
  ColumnType_pure (match t with
    | ScalarInt => Int
    | ScalarFloat => Float
    | ScalarBoolean => Boolean
    | ScalarString => String_
    | ScalarDateTime => DateTime
    | ScalarJson => Json
    end) a.
Definition scalar_type_for_field {E} (f : FieldRef) : outcome E ScalarType :=
  t ← fr_field_type f;
  match t with
  | TypeRefBase scalar => Ok scalar
  | TypeRefEnum _ => Ok ScalarString
  | TypeRefOther => Panic ("This field type is not suported here. Field type is Other on field " +:+ f_name (fr_field f))
  end.
Definition column_type {E} (f : FieldRef) : outcome E ColumnType :=
  t ← scalar_type_for_field f; Ok (column_type_for_scalar_type t (column_arity (fr_arity f))).
Definition enum_column_type {E} (f : FieldRef) (family : SqlFamily) (db_name : string) : outcome E ColumnType :=
  match family with
  | Postgres => Ok (ColumnType_pure (EnumFamily db_name) (column_arity (fr_arity f)))
  | Mysql => Ok (ColumnType_pure (EnumFamily (mr_db_name (fr_model_ref f) +:+ "_" +:+ fr_db_name f)) (column_arity (fr_arity f)))
  | Sqlite => column_type f
  end.
Definition migration_value_new {E} (f : FieldRef) : outcome E (option SqlSchema.DefaultValue) :=
  if f_is_id (fr_field f) then Ok None else
  match f_default_value (fr_field f) with
  | None => Ok None
  | Some (Single s) =>
      t ← fr_field_type f;
      match t with
      | TypeRefEnum e =>
          v ← unwrap "could not find enum value" (iter_find (fun val => ev_name val ≟ value_fmt debug_list s) (en_values e));
          Ok (Some (VALUE (PV_Enum (value_db_name v))))
      | _ => Ok (Some (VALUE s))
      end
  | Some (DefaultExpression g) =>
      if (vg_name g ≟ "now") && match vg_args g with [] => true | _ => false end then Ok (Some NOW) else Ok None
  end.

(** ** Tables *)
Definition is_autoincrement (f : FieldRef) : bool :=
  match f_default_value (fr_field f) with
  | Some (DefaultExpression g) => generator g ≟ GenAutoincrement
  | _ => false
  end.
Definition field_column {E} (family : SqlFamily) (f : FieldRef) : outcome E (option Column) :=
  t ← fr_field_type f;
  match t with
  | TypeRefBase _ =>
      tpe ← column_type f; d ← migration_value_new f;
      Ok (Some (mkColumn (fr_db_name f) tpe d (is_autoincrement f)))
  | TypeRefEnum e =>
      tpe ← enum_column_type f family (enum_db_name e); d ← migration_value_new f;
      Ok (Some (mkColumn (fr_db_name f) tpe d false))
  | TypeRefOther => Ok None
  end.
Definition single_field_index (m : ModelRef) (f : FieldRef) : option Index :=
  if f_is_unique (fr_field f)
  then Some (mkIndex (mr_db_name m +:+ "." +:+ fr_db_name f) [fr_db_name f] Unique)
  else None.
Definition join (sep : string) (l : list string) : string := String.concat sep l.
Definition multiple_field_index {E} (m : ModelRef) (i : IndexDefinition) : outcome E Index :=
  referenced_fields ← map_m (fun n => unwrap "Unknown field in index directive." (mr_find_field m n)) (ix_fields i);
  Ok (mkIndex (default (mr_db_name m +:+ "." +:+ join "_" (fr_db_name <$> referenced_fields)) (ix_name i))
        (fr_db_name <$> referenced_fields) (if ix_tpe i ≟ UniqueIndex then Unique else Normal)).
Definition calculate_model_table {E} (family : SqlFamily) (m : ModelRef) : outcome E Table :=
  columns ← map_m (field_column family) (mr_fields m);
  let primary_key := mkPrimaryKey (fr_db_name <$> mr_id_fields m) None in
  multiple ← map_m (multiple_field_index m) (m_indices (mr_model m));
  Ok (mkTable (mr_db_name m) (omap id columns) (omap (single_field_index m) (mr_fields m) ++ multiple) (Some primary_key) []).

Definition add_one_to_one_relation_unique_index (t : Table) (column_names : list string) : Table :=
  if iter_any (fun i => (i_columns i ≟ column_names) && (i_tpe i ≟ Unique)) (t_indices t) then t
  else mkTable (t_name t) (t_columns t)
         (t_indices t ++ [mkIndex (t_name t +:+ "_" +:+ join "_" column_names) column_names Unique])
         (t_primary_key t) (t_foreign_keys t).
Definition add_inline_relation {E} (t : Table) (r : RelationFieldRef) : outcome E Table :=
  fk_columns ← referencing_columns r;
  one ← is_one_to_one r;
  let t := if one : bool then add_one_to_one_relation_unique_index t fk_columns else t in
  referenced ← referenced_table_name r;
  columns ← rel_referenced_columns r;
  let fk := mkForeignKey None fk_columns referenced columns
              (match column_arity (fr_arity (rfr_field r)) with Required => Cascade | _ => SetNull end) in
  Ok (mkTable (t_name t) (t_columns t) (t_indices t) (t_primary_key t) (t_foreign_keys t ++ [fk])).
Definition add_inline_relations_to_model_tables {E} (m : ModelRef) (t : Table) : outcome E Table :=
  for_each add_inline_relation (iter_filter (fun r => negb (is_virtual r)) (omap as_relation_field (mr_fields m))) t.

(** ** Relation tables *)
Definition relation_table_columns {E} (m : ModelRef) (reference_field_name : string) : outcome E (list Column) :=
  match m_id_fields (mr_model m) with
  | [] =>
      let unique_field := iter_find (fun f => f_is_unique (fr_field f)) (mr_fields m) in
      let id_field := iter_find (fun f => f_is_id (fr_field f)) (mr_fields m) in
      f ← unwrap ("No unique criteria found in model " +:+ m_name (mr_model m))
            (match id_field with Some f => Some f | None => unique_field end);
      tpe ← column_type f;
      Ok [mkColumn reference_field_name tpe None false]
  | _ =>
      map_m (fun f => tpe ← column_type f;
                      Ok (mkColumn (reference_field_name +:+ "_" +:+ fr_db_name f) tpe None false)) (mr_id_fields m)
  end.
Definition calc_first_unique_criterion (m : ModelRef) : outcome string (list FieldRef) :=
  match mr_id_fields m with
  | _ :: _ => Ok (mr_id_fields m)
  | [] =>
      match iter_find (fun f => f_is_unique (fr_field f) && match fr_arity f with RequiredField => true | _ => false end) (mr_fields m) with
      | Some f => Ok [f]
      | None =>
          match head (mr_unique_indexes m) with
          | Some i => index_fields i
          | None => Err ("Could not find the first unique criteria on model " +:+ m_name (mr_model m))
          end
      end
  end.
Definition relation_table (d : Datamodel) (r : TempRelationHolder) : outcome string Table :=
  let ma := mkModelRef d (model_a r) in
  let mb := mkModelRef d (model_b r) in
  a_columns ← relation_table_columns ma model_a_column;
  b_columns ← relation_table_columns mb model_b_column;
  referenced_a ← calc_first_unique_criterion ma;
  referenced_b ← calc_first_unique_criterion mb;
  let fks := [mkForeignKey None (c_name <$> a_columns) (mr_db_name ma) (fr_db_name <$> referenced_a) Cascade;
              mkForeignKey None (c_name <$> b_columns) (mr_db_name mb) (fr_db_name <$> referenced_b) Cascade] in
  let columns := a_columns ++ b_columns in
  let indexes := [mkIndex (table_name r +:+ "_AB_unique") (c_name <$> columns) Unique;
                  mkIndex (table_name r +:+ "_B_index") (c_name <$> b_columns) Normal] in
  Ok (mkTable (table_name r) columns indexes None fks).
Definition is_table (r : TempRelationHolder) : bool := match tr_manifestation r with TempTable => true | _ => false end.
Definition calculate_relation_tables (d : Datamodel) : outcome string (list Table) :=
  relations ← calculate_relations d;
  map_m (relation_table d) (iter_filter is_table relations).

(** ** The schema *)
Definition enum_field {E} (f : FieldRef) : outcome E (option (FieldRef * Enum)) :=
  t ← fr_field_type f; Ok ((fun e => (f, e)) <$> as_enum_type t).
Definition mysql_enum (x : FieldRef * Enum) : SqlSchema.Enum :=
  SqlSchema.mkEnum (mr_db_name (fr_model_ref x.1) +:+ "_" +:+ fr_db_name x.1) (database_values x.2).
Definition calculate_enums {E} (d : Datamodel) (family : SqlFamily) : outcome E (list SqlSchema.Enum) :=
  match family with
  | Postgres => Ok ((fun e => SqlSchema.mkEnum (enum_db_name e) (database_values e)) <$> dm_enums d)
  | Mysql =>
      enum_fields ← map_m (E := E) enum_field (walk_fields d);
      Ok (mysql_enum <$> (omap id enum_fields : list (FieldRef * Enum)))
  | Sqlite => Ok []
  end.
(** [sort_unstable_by] on the name; the names of a table's columns differ. *)
Definition name_le (a b : Column) : Prop := String.leb (c_name a) (c_name b) = true.
#[export] Instance name_le_dec : RelDecision name_le.
Proof. intros a b. unfold name_le. apply _. Defined.
Definition sort_columns (t : Table) : Table :=
  mkTable (t_name t) (merge_sort name_le (t_columns t)) (t_indices t) (t_primary_key t) (t_foreign_keys t).
Definition model_table (family : SqlFamily) (m : ModelRef) : outcome string Table :=
  t ← calculate_model_table family m; add_inline_relations_to_model_tables m t.
Definition calculate (d : Datamodel) (info : DatabaseInfo) : outcome string SqlSchema :=
  model_tables ← map_m (model_table (info_family info)) (walk_models d);
  relation_tables ← calculate_relation_tables d;
  enums ← calculate_enums d (info_family info);
  Ok (mkSqlSchema (sort_columns <$> model_tables ++ relation_tables) enums []).
End calculator.
