(* ===== verification/CalcFacts.v ===== *)
(** * The calculated schema refers only to what it has

    For a validated datamodel the calculator always returns a schema, in which
    indexes and foreign keys use existing columns, foreign keys refer to
    existing tables, and the enums of columns exist. *)
From S2P Require Import Prelude SqlSchema SqlDiffer SqlRender SqlInfer Ddl Replay Dml Converter SchemaCalc.
From stdpp Require Import sorting.

(** ** Loops that succeed *)
Lemma map_m_total {E A B} (f : A -> outcome E B) (P : A -> B -> Prop) (l : list A) :
  (forall x, x ∈ l -> exists y, f x = Ok y /\ P x y) -> exists ys, map_m f l = Ok ys /\ Forall2 P l ys.
Proof.
  induction l as [|x l IH]; intros Hf; [by exists []|].
  destruct (Hf x) as (y & Hy & HP); [constructor|]. destruct IH as (ys & Hys & HF); [intros z Hz; apply Hf; by constructor|].
  exists (y :: ys). cbn. rewrite Hy. cbn. rewrite Hys. cbn. split; [done|by constructor].
Qed.
Lemma for_each_total {E S A} (f : S -> A -> outcome E S) (I : S -> Prop) (l : list A) s :
  I s -> (forall s x, x ∈ l -> I s -> exists s', f s x = Ok s' /\ I s') -> exists s', for_each f l s = Ok s' /\ I s'.
Proof.
  revert s. induction l as [|x l IH]; intros s Hs Hf; [by exists s|].
  destruct (Hf s x) as (s' & Hs' & HI); [constructor|done|]. cbn. rewrite Hs'. cbn. apply IH; [done|].
  intros s1 z Hz. apply Hf. by constructor.
Qed.
Lemma Forall2_elem_r {A B} (P : A -> B -> Prop) l k y : Forall2 P l k -> y ∈ k -> exists x, x ∈ l /\ P x y.
Proof. intros HF Hy. apply list_elem_of_lookup in Hy as [i Hi]. destruct (Forall2_lookup_r _ _ _ _ _ HF Hi) as (x & Hx & HP). exists x. split; [|done]. by eapply list_elem_of_lookup_2. Qed.
Lemma Forall2_elem_l {A B} (P : A -> B -> Prop) l k x : Forall2 P l k -> x ∈ l -> exists y, y ∈ k /\ P x y.
Proof. intros HF Hx. apply list_elem_of_lookup in Hx as [i Hi]. destruct (Forall2_lookup_l _ _ _ _ _ HF Hi) as (y & Hy & HP). exists y. split; [|done]. by eapply list_elem_of_lookup_2. Qed.

Section facts.
Context `{VT : ValueTypes} `{IT : Itertools} {HIT : ItertoolsOk IT} (debug_list : list PrismaValue -> string).

(** ** Datamodels the calculator is made for

    Most of it is what the validation checks; that the default value of an enum
    field is a value of the enum is not, and without it the calculator panics
    ([pipeline_accepts_unusable]). *)
Definition has_column (f : Field) : bool := match f_type f with Base _ _ | EnumType _ => true | _ => false end.
Definition model_columns (m : Model) : list string := field_db_name <$> iter_filter has_column (m_fields m).
Definition column_field (m : Model) (n : string) : Prop := exists f, find_field m n = Some f /\ has_column f = true.
Definition enum_field_wf (d : Datamodel) (f : Field) : Prop := forall n, f_type f = EnumType n ->
  exists e, find_enum d n = Some e /\
    forall s, f_default_value f = Some (Single s) -> exists v, v ∈ en_values e /\ ev_name v = value_fmt debug_list s.
Definition relation_field_wf (d : Datamodel) (m : Model) (f : Field) : Prop := forall info, f_type f = RelationType info ->
  exists rm rf rinfo, find_model d (ri_to info) = Some rm /\
    iter_find (is_opposite_field m rm f (ri_name info)) (m_fields rm) = Some rf /\ f_type rf = RelationType rinfo /\
    (f_arity f = ListField \/ f_arity rf = ListField \/ ri_to_fields info = [] \/ ri_to_fields rinfo = []) /\
    (forall n, n ∈ ri_fields info -> column_field m n) /\ (forall n, n ∈ ri_to_fields info -> column_field rm n) /\
    (f_arity f = ListField -> f_arity rf = ListField -> has_single_id_field m = true /\ has_single_id_field rm = true).
Record model_wf (d : Datamodel) (m : Model) : Prop := {
  wf_unique : forall f, f ∈ m_fields m -> f_is_unique f = true -> has_column f = true;
  wf_id : forall f, f ∈ m_fields m -> f_is_id f = true -> has_column f = true;
  wf_id_fields : forall n, n ∈ m_id_fields m -> column_field m n;
  wf_indices : forall i n, i ∈ m_indices m -> n ∈ ix_fields i -> column_field m n;
  wf_enums : forall f, f ∈ m_fields m -> enum_field_wf d f;
  wf_relations : forall f, f ∈ m_fields m -> relation_field_wf d m f;
}.
Definition datamodel_wf (d : Datamodel) : Prop := forall m, m ∈ dm_models d -> model_wf d m.

(** ** Closed schemas *)
Definition table_closed (s : SqlSchema) (t : Table) : Prop :=
  (forall i c, i ∈ t_indices t -> c ∈ i_columns i -> c ∈ column_names t) /\
  (forall fk, fk ∈ t_foreign_keys t -> fk_in_schema s t fk) /\
  (forall c n, c ∈ t_columns t -> family (c_tpe c) = EnumFamily n -> n ∈ e_name <$> enums s).

Lemma column_field_in m n f : find_field m n = Some f -> has_column f = true -> field_db_name f ∈ model_columns m.
Proof. intros [Hf _]%find_field_Some Hc. apply list_elem_of_fmap_2, iter_filter_elem. done. Qed.

Section model.
Context (d : Datamodel) (Hd : datamodel_wf d) (fam : SqlFamily).
Context (enums : list SqlSchema.Enum) (Henums : calculate_enums (E := string) d fam = Ok enums).

Lemma fr_field_type_ok {E} m f : m ∈ dm_models d -> f ∈ m_fields m ->
  exists t, fr_field_type (E := E) (mkFieldRef d m f) = Ok t /\
    match t with
    | TypeRefEnum e => exists n, f_type f = EnumType n /\ find_enum d n = Some e
    | TypeRefBase st => exists a, f_type f = Base st a
    | TypeRefOther => has_column f = false
    end.
Proof.
  intros Hm Hf. unfold fr_field_type, has_column; cbn [fr_field fr_datamodel].
  destruct (f_type f) as [n|info|t|n|t a] eqn:Et; [|by exists TypeRefOther..|exists (TypeRefBase t); eauto].
  destruct (wf_enums _ _ (Hd m Hm) f Hf n Et) as (e & He & _). rewrite He. exists (TypeRefEnum e). eauto.
Qed.
Lemma enum_known m f n e : m ∈ dm_models d -> f ∈ m_fields m -> f_type f = EnumType n -> find_enum d n = Some e ->
  forall tpe k, enum_column_type (E := string) (mkFieldRef d m f) fam (enum_db_name e) = Ok tpe -> family tpe = EnumFamily k ->
  k ∈ e_name <$> enums.
Proof.
  intros Hm Hf Ht He tpe k Htpe Hk. unfold enum_column_type in Htpe. destruct fam.
  - unfold column_type, scalar_type_for_field, fr_field_type in Htpe. cbn [fr_field fr_datamodel] in Htpe.
    rewrite Ht, He in Htpe. cbn in Htpe. injection Htpe as <-. done.
  - injection Htpe as <-. cbn in Hk. injection Hk as <-. cbn in Henums. injection Henums as <-.
    apply list_elem_of_fmap. eexists (SqlSchema.mkEnum (enum_db_name e) (database_values e)). split; [done|].
    apply (list_elem_of_fmap_2 (fun e => SqlSchema.mkEnum (enum_db_name e) (database_values e))).
    by apply find_enum_Some in He as [? _].
  - injection Htpe as <-. cbn in Hk. injection Hk as <-. unfold calculate_enums in Henums. inv_ok.
    assert (Hin : mkFieldRef d m f ∈ walk_fields d).
    { unfold walk_fields. apply list_elem_of_bind. exists m. split; [|done]. by apply list_elem_of_fmap_2. }
    assert (HF : exists ys, map_m (E := string) enum_field (walk_fields d) = Ok ys /\
      Forall2 (fun x y => enum_field (E := string) x = Ok y) (walk_fields d) ys).
    { apply map_m_total. intros x (m' & (f' & -> & Hf')%list_elem_of_fmap & Hm')%list_elem_of_bind.
      unfold enum_field. destruct (fr_field_type_ok (E := string) m' f' Hm' Hf') as (t & -> & _). cbn. eauto. }
    destruct HF as (ys & Hys & HF). rewrite Hys in E. injection E as <-.
    destruct (Forall2_elem_l _ _ _ _ HF Hin) as (y & Hy & Hfy). unfold enum_field, fr_field_type in Hfy.
    cbn [fr_field fr_datamodel] in Hfy. rewrite Ht, He in Hfy. cbn in Hfy. injection Hfy as <-.
    apply list_elem_of_fmap. exists (mysql_enum (mkFieldRef d m f, e)). split; [done|]. apply list_elem_of_fmap_2.
    apply list_elem_of_omap. eexists. split; [exact Hy|]. done.
Qed.

Lemma default_ok m f : m ∈ dm_models d -> f ∈ m_fields m ->
  exists v, migration_value_new (E := string) debug_list (mkFieldRef d m f) = Ok v.
Proof.
  intros Hm Hf. unfold migration_value_new; cbn [fr_field]. destruct (f_is_id f); [eauto|].
  destruct (f_default_value f) as [[s|g]|] eqn:Ed; [|destruct (_ && _); eauto|eauto].
  destruct (fr_field_type_ok (E := string) m f Hm Hf) as (t & Ht & Hspec). rewrite Ht. cbn.
  destruct t as [e|st|]; [|eauto..]. destruct Hspec as (n & Hn & He).
  destruct (wf_enums _ _ (Hd m Hm) f Hf n Hn) as (e' & He' & Hv). rewrite He in He'. injection He' as <-.
  destruct (Hv s Ed) as (v & Hin & Hname).
  destruct (iter_find _ _) as [w|] eqn:Ef; [cbn; eauto|]. rewrite iter_find_None in Ef. specialize (Ef v Hin). cbv beta in Ef.
  by rewrite bool_decide_eq_true_2 in Ef.
Qed.
Lemma column_type_ok m f : m ∈ dm_models d -> f ∈ m_fields m -> has_column f = true ->
  exists tpe, column_type (E := string) (mkFieldRef d m f) = Ok tpe /\ forall n, family tpe <> EnumFamily n.
Proof.
  intros Hm Hf Hc. unfold column_type, scalar_type_for_field.
  destruct (fr_field_type_ok (E := string) m f Hm Hf) as (t & -> & Hspec). cbn.
  destruct t as [e|st|]; cbn; [..|congruence]; eexists; (split; [reflexivity|]); [done|]. by destruct st.
Qed.
Definition column_ok (f : Field) (oc : option Column) : Prop :=
  if has_column f then exists c, oc = Some c /\ c_name c = field_db_name f /\
    forall n, family (c_tpe c) = EnumFamily n -> n ∈ e_name <$> enums
  else oc = None.
Lemma field_column_ok m f : m ∈ dm_models d -> f ∈ m_fields m ->
  exists oc, field_column (E := string) debug_list fam (mkFieldRef d m f) = Ok oc /\ column_ok f oc.
Proof.
  intros Hm Hf. unfold field_column, column_ok.
  destruct (fr_field_type_ok (E := string) m f Hm Hf) as (t & -> & Hspec). cbn.
  destruct (default_ok m f Hm Hf) as (v & Hv). destruct t as [e|st|].
  - destruct Hspec as (n & Hn & He). assert (Hc : has_column f = true) by (unfold has_column; by rewrite Hn). rewrite Hc.
    assert (Htpe : exists tpe, enum_column_type (E := string) (mkFieldRef d m f) fam (enum_db_name e) = Ok tpe).
    { unfold enum_column_type. destruct fam; eauto. destruct (column_type_ok m f Hm Hf Hc) as (tpe & ? & _). eauto. }
    destruct Htpe as (tpe & Htpe). rewrite Htpe. cbn. rewrite Hv. cbn. eexists. split; [done|]. eexists. split_and!; [done|done|].
    intros k. cbn. by apply (enum_known m f n e Hm Hf Hn He).
  - destruct Hspec as (a & Ha). assert (Hc : has_column f = true) by (unfold has_column; by rewrite Ha). rewrite Hc.
    destruct (column_type_ok m f Hm Hf Hc) as (tpe & -> & Hno). cbn. rewrite Hv. cbn. eexists. split; [done|].
    eexists. split_and!; [done|done|]. intros n Hn. by apply Hno in Hn.
  - rewrite Hspec. eauto.
Qed.
Lemma columns_names fs ocs : Forall2 column_ok fs ocs -> c_name <$> omap id ocs = field_db_name <$> iter_filter has_column fs.
Proof.
  induction 1 as [|f oc fs ocs Hc HF IH]; [done|]. cbn [omap list_omap]. unfold column_ok in Hc. simpl. destruct (has_column f).
  - destruct Hc as (c & -> & Hn & _). cbn. by rewrite Hn, <-IH.
  - subst oc. cbn. done.
Qed.
Lemma columns_enums fs ocs c n : Forall2 column_ok fs ocs -> c ∈ omap id ocs -> family (c_tpe c) = EnumFamily n -> n ∈ e_name <$> enums.
Proof.
  intros HF (oc & Hoc & He)%list_elem_of_omap Hn. unfold id in He. subst oc. destruct (Forall2_elem_r _ _ _ _ HF Hoc) as (f & _ & Hc).
  unfold column_ok in Hc. destruct (has_column f); [|done]. destruct Hc as (c' & [= <-] & _ & Hk). by apply Hk.
Qed.

(** ** Tables of models *)
Definition references (fk : ForeignKey) : Prop := exists rm, rm ∈ dm_models d /\ referenced_table fk = model_db_name rm /\
  forall c, c ∈ referenced_columns fk -> c ∈ model_columns rm.
(** A table whose columns have the names [cols]. *)
Record table_ok (cols : list string) (t : Table) : Prop := {
  ok_columns : column_names t = cols;
  ok_enums : forall c n, c ∈ t_columns t -> family (c_tpe c) = EnumFamily n -> n ∈ e_name <$> enums;
  ok_indices : forall i c, i ∈ t_indices t -> c ∈ i_columns i -> c ∈ cols;
  ok_fks : forall fk, fk ∈ t_foreign_keys t -> (forall c, c ∈ fk_columns fk -> c ∈ cols) /\ references fk;
}.
Definition model_table_ok (m : Model) (t : Table) : Prop := t_name t = model_db_name m /\ table_ok (model_columns m) t.

Lemma mr_find_field_ok m n f : find_field m n = Some f -> mr_find_field (mkModelRef d m) n = Some (mkFieldRef d m f).
Proof. unfold find_field, mr_find_field. cbn. by intros ->. Qed.
Lemma multiple_index_ok m i : m ∈ dm_models d -> i ∈ m_indices m ->
  exists ix, multiple_field_index (E := string) (mkModelRef d m) i = Ok ix /\ forall c, c ∈ i_columns ix -> c ∈ model_columns m.
Proof.
  intros Hm Hi. unfold multiple_field_index.
  destruct (map_m_total (E := string) (fun n => unwrap "Unknown field in index directive." (mr_find_field (mkModelRef d m) n))
    (fun _ fr => fr_db_name fr ∈ model_columns m) (ix_fields i)) as (frs & -> & HF).
  { intros n Hn. destruct (wf_indices _ _ (Hd m Hm) i n Hi Hn) as (f & Hf & Hc). rewrite (mr_find_field_ok _ _ _ Hf). cbn.
    eexists. split; [done|]. by apply (column_field_in m n). }
  cbn. eexists. split; [done|]. cbn. intros c (fr & -> & Hfr)%list_elem_of_fmap.
  by destruct (Forall2_elem_r _ _ _ _ HF Hfr) as (n & _ & Hc).
Qed.
Lemma calculate_model_table_ok m : m ∈ dm_models d ->
  exists t, calculate_model_table (E := string) debug_list fam (mkModelRef d m) = Ok t /\ model_table_ok m t.
Proof.
  intros Hm. unfold calculate_model_table, mr_fields; cbn [mr_datamodel mr_model].
  destruct (map_m_total (E := string) (field_column debug_list fam) (fun fr oc => column_ok (fr_field fr) oc) (mkFieldRef d m <$> m_fields m)) as (ocs & -> & HF).
  { intros fr (f & -> & Hf)%list_elem_of_fmap. by apply field_column_ok. }
  cbn. destruct (map_m_total (E := string) (multiple_field_index (mkModelRef d m)) (fun _ ix => forall c, c ∈ i_columns ix -> c ∈ model_columns m)
    (m_indices m)) as (ixs & -> & HI); [intros i Hi; by apply multiple_index_ok|].
  cbn. eexists. split; [done|]. rewrite Forall2_fmap_l in HF. split; [done|]. split; cbn [column_names t_columns t_indices t_foreign_keys].
  - exact (columns_names (m_fields m) ocs HF).
  - intros c n Hc Hn. by apply (columns_enums (m_fields m) ocs c n).
  - intros i c [(fr & Hfr & Hs)%list_elem_of_omap|Hi]%elem_of_app Hc.
    + apply list_elem_of_fmap in Hfr as (f & -> & Hf). unfold single_field_index in Hs. cbn [fr_field] in Hs.
      destruct (f_is_unique f) eqn:Eu; [|done]. injection Hs as <-. cbn in Hc. apply list_elem_of_singleton in Hc as ->.
      change (field_db_name f ∈ model_columns m). apply list_elem_of_fmap_2, iter_filter_elem. split; [done|]. by apply (wf_unique _ _ (Hd m Hm)).
    + destruct (Forall2_elem_r _ _ _ _ HI Hi) as (x & _ & Hx). by apply Hx.
  - intros fk Hfk. by apply elem_of_nil in Hfk.
Qed.

Lemma referenced_model_ok {E} m f info : m ∈ dm_models d -> f ∈ m_fields m -> f_type f = RelationType info ->
  exists rm, rm ∈ dm_models d /\ find_model d (ri_to info) = Some rm /\
    referenced_model (E := E) (mkRelationFieldRef (mkFieldRef d m f) info) = Ok rm.
Proof.
  intros Hm Hf Ht. destruct (wf_relations _ _ (Hd m Hm) f Hf info Ht) as (rm & _ & _ & Hrm & _).
  exists rm. split_and!; [by apply find_model_Some in Hrm as [? _]|done|]. unfold referenced_model; cbn. by rewrite Hrm.
Qed.
Lemma find_opposite_ok r l : (forall x, x ∈ l -> exists m, referenced_model (E := string) x = Ok m) ->
  exists o, find_opposite (E := string) r l = Ok o.
Proof.
  induction l as [|x l IH]; intros Hl; cbn; [eauto|]. destruct IH as (o & Ho); [intros y Hy; apply Hl; by constructor|].
  destruct (_ ≟ _); [|eauto]. destruct (Hl x) as (m & ->); [constructor|]. cbn. destruct (_ && _ && _); eauto.
Qed.
Lemma is_one_to_one_ok m f info : m ∈ dm_models d -> f ∈ m_fields m -> f_type f = RelationType info ->
  exists b, is_one_to_one (E := string) (mkRelationFieldRef (mkFieldRef d m f) info) = Ok b.
Proof.
  intros Hm Hf Ht. unfold is_one_to_one. destruct (is_singular _); [|eauto]. unfold opposite_side, referenced_model_ref.
  destruct (referenced_model_ok (E := string) m f info Hm Hf Ht) as (rm & Hrm & _ & ->). cbn.
  edestruct find_opposite_ok as (o & Ho); [|rewrite Ho; cbn; eauto].
  intros x (fr & (f' & -> & Hf')%list_elem_of_fmap & Hx)%list_elem_of_omap. cbn [mr_model mr_datamodel] in *.
  unfold as_relation_field in Hx. cbn [fr_field] in Hx. destruct (f_type f') as [| info'| | |] eqn:Et; try done. injection Hx as <-.
  destruct (referenced_model_ok (E := string) rm f' info' Hrm Hf' Et) as (rm' & _ & _ & ?). eauto.
Qed.
Lemma resolve_columns_ok m ns (g : string -> outcome string string) :
  (forall n, n ∈ ns -> column_field m n) -> (forall n f, find_field m n = Some f -> g n = Ok (field_db_name f)) ->
  exists cs, map_m g ns = Ok cs /\ forall c, c ∈ cs -> c ∈ model_columns m.
Proof.
  intros Hns Hg. destruct (map_m_total g (fun _ c => c ∈ model_columns m) ns) as (cs & Hcs & HF).
  { intros n Hn. destruct (Hns n Hn) as (f & Hf & Hc). rewrite (Hg n f Hf). eexists. split; [done|]. by apply (column_field_in m n). }
  exists cs. split; [done|]. intros c Hc. by destruct (Forall2_elem_r _ _ _ _ HF Hc) as (x & _ & ?).
Qed.
Lemma add_inline_relation_ok m f info t : m ∈ dm_models d -> f ∈ m_fields m -> f_type f = RelationType info -> model_table_ok m t ->
  exists t', add_inline_relation (E := string) t (mkRelationFieldRef (mkFieldRef d m f) info) = Ok t' /\ model_table_ok m t'.
Proof.
  intros Hm Hf Ht [Hname Hok]. unfold add_inline_relation.
  destruct (wf_relations _ _ (Hd m Hm) f Hf info Ht) as (rm & rf & rinfo & Hrm & _ & _ & _ & Hfs & Htfs & _).
  destruct (referenced_model_ok (E := string) m f info Hm Hf Ht) as (rm' & Hin & Hrm' & Href). rewrite Hrm in Hrm'. injection Hrm' as <-.
  unfold referencing_columns; cbn [rfr_info rfr_field].
  destruct (resolve_columns_ok m (ri_fields info)
    (fun n => f0 ← unwrap ("Unable to resolve field " +:+ n) (mr_find_field (fr_model_ref (mkFieldRef d m f)) n); Ok (fr_db_name f0)) Hfs) as (fcs & -> & Hfcs).
  { intros n g Hg. cbn [fr_model_ref fr_datamodel fr_model]. unfold fr_model_ref; cbn. by rewrite (mr_find_field_ok _ _ _ Hg). }
  cbn. destruct (is_one_to_one_ok m f info Hm Hf Ht) as (one & ->). cbn. unfold referenced_table_name. rewrite Href. cbn.
  unfold rel_referenced_columns; cbn [rfr_info].
  destruct (resolve_columns_ok rm (ri_to_fields info)
    (fun n => m0 ← referenced_model (mkRelationFieldRef (mkFieldRef d m f) info);
              f0 ← unwrap ("Unable to resolve field " +:+ n) (find_field m0 n); Ok (field_db_name f0)) Htfs) as (rcs & -> & Hrcs).
  { intros n g Hg. rewrite Href. cbn. by rewrite Hg. }
  cbn. eexists. split; [done|]. destruct Hok as [H1 H2 H3 H4].
  assert (Hfk : forall fk, fk ∈ t_foreign_keys t ++ [mkForeignKey None fcs (model_db_name rm) rcs
      (match column_arity (f_arity f) with Required => Cascade | _ => SetNull end)] ->
      (forall c, c ∈ fk_columns fk -> c ∈ model_columns m) /\ references fk).
  { intros fk [Hfk|Hfk]%elem_of_app; [by apply H4|]. apply list_elem_of_singleton in Hfk as ->. cbn. split; [done|].
    exists rm. split_and!; [done..|]. exact Hrcs. }
  destruct one; [|by split; [|split]]. unfold add_one_to_one_relation_unique_index.
  destruct (iter_any _ _); [by split; [|split]|]. split; [done|]. split; cbn [column_names t_columns t_indices t_foreign_keys]; [done|done| |done].
  intros i c [Hi|Hi]%elem_of_app; [by apply H3|]. apply list_elem_of_singleton in Hi as ->. cbn. apply Hfcs.
Qed.
Lemma model_table_total m : m ∈ dm_models d ->
  exists t, model_table debug_list fam (mkModelRef d m) = Ok t /\ model_table_ok m t.
Proof.
  intros Hm. unfold model_table. destruct (calculate_model_table_ok m Hm) as (t & -> & Hok). cbn.
  unfold add_inline_relations_to_model_tables. apply for_each_total; [done|]. intros t' r [Hr _]%iter_filter_elem Hok'.
  apply list_elem_of_omap in Hr as (fr & (f & -> & Hf)%list_elem_of_fmap & Hr). unfold as_relation_field in Hr. cbn [fr_field mr_datamodel mr_model] in *.
  destruct (f_type f) as [|info| | |] eqn:Et; try done. injection Hr as <-. by apply add_inline_relation_ok.
Qed.

(** ** Tables of relations *)
Definition keyed (m : Model) : Prop := m ∈ dm_models d /\ has_single_id_field m = true.
Lemma keyed_id m : keyed m -> exists f, f ∈ m_fields m /\ f_is_id f = true.
Proof.
  intros [_ Hid]. unfold has_single_id_field, singular_id_fields in Hid.
  destruct (iter_filter f_is_id (m_fields m)) as [|f fs] eqn:E; [done|]. exists f. apply iter_filter_elem. rewrite E. constructor.
Qed.
Definition holder_ok (r : TempRelationHolder) : Prop := is_table r = true -> keyed (model_a r) /\ keyed (model_b r).
Lemma manifestation_total {E} m rm f rf ti tr a b fa fb ra rb :
  f_arity fa = ListField \/ f_arity fb = ListField \/ ti = [] \/ tr = [] ->
  exists o, manifestation_of (E := E) m rm f rf ti tr a b fa fb ra rb = Ok o /\
    (match o with TempTable => true | _ => false end = true -> f_arity fa = ListField /\ f_arity fb = ListField).
Proof.
  intros Hempty. unfold manifestation_of. destruct (field_is_list fa) eqn:Ea, (field_is_list fb) eqn:Eb.
  - eexists. split; [done|]. intros _. split; by eapply bool_decide_eq_true.
  - by eexists.
  - by eexists.
  - unfold field_is_list in *. rewrite !bool_decide_eq_false in *.
    destruct Hempty as [?|[?|[-> | ->]]]; [done..| |]; cbn; destruct (head _); try (by eexists); by destruct (String.ltb _ _); eexists.
Qed.
Lemma relation_of_field_ok m f : m ∈ dm_models d -> f ∈ m_fields m ->
  exists o, relation_of_field (E := string) d m f = Ok o /\ forall r, o = Some r -> holder_ok r.
Proof.
  intros Hm Hf. unfold relation_of_field. destruct (f_type f) as [|info| | |] eqn:Et; [by exists None| |by exists None..].
  destruct (wf_relations _ _ (Hd m Hm) f Hf info Et) as (rm & rf & rinfo & Hrm & Hrf & Hrt & Hempty & _ & _ & Hid). rewrite Hrm. cbn.
  rewrite Hrf. cbn. rewrite Hrt. cbn. pose proof (find_model_Some _ _ _ Hrm) as [Hin _].
  destruct (String.ltb _ _); [|destruct (String.ltb _ _); [|destruct (String.ltb _ _)]];
    edestruct (manifestation_total (E := string)) as (o & -> & Ho); [tauto| |tauto| |tauto| |tauto|];
    cbn; eexists; (split; [done|]); intros r [= <-] Ht; cbn in *; destruct (Ho Ht); destruct Hid; by repeat split.
Qed.
Lemma calculate_relations_ok : exists rs, calculate_relations (E := string) d = Ok rs /\ forall r, r ∈ rs -> holder_ok r.
Proof.
  unfold calculate_relations.
  destruct (map_m_total (E := string) (fun '(m, f) => relation_of_field d m f)
    (fun _ o => forall r, o = Some r -> holder_ok r) (model_fields_of d)) as (os & -> & HF).
  { intros [m f] (m' & (f' & [= -> ->] & Hf)%list_elem_of_fmap & Hm)%list_elem_of_bind. by apply relation_of_field_ok. }
  cbn. eexists. split; [done|]. intros r Hr%unique_by_elem. apply list_elem_of_omap in Hr as (o & Ho & Hr). unfold id in Hr.
  destruct (Forall2_elem_r _ _ _ _ HF Ho) as (x & _ & Hx). by apply Hx.
Qed.
Lemma id_fields_ok m fr : m ∈ dm_models d -> fr ∈ mr_id_fields (mkModelRef d m) ->
  exists f, fr = mkFieldRef d m f /\ f ∈ m_fields m /\ has_column f = true.
Proof.
  intros Hm (f & -> & [[Hf Hi]%iter_filter_elem|(n & Hn & Hf)%list_elem_of_omap]%elem_of_app)%list_elem_of_fmap; cbn [mr_model] in *.
  - exists f. split_and!; [done..|]. by apply (wf_id _ _ (Hd m Hm)).
  - destruct (wf_id_fields _ _ (Hd m Hm) n Hn) as (g & Hg & Hc). unfold find_field in Hg. rewrite Hf in Hg. injection Hg as <-.
    exists f. split_and!; [done| |done]. by apply iter_find_Some in Hf as [? _].
Qed.
Lemma id_fields_nonempty m : keyed m -> mr_id_fields (mkModelRef d m) <> [].
Proof.
  intros Hk Hnil. apply fmap_nil_inv, app_eq_nil in Hnil as [H1 H2]. cbn [mr_model] in *. destruct (keyed_id m Hk) as (f & Hf & Hi).
  assert (Hin : f ∈ iter_filter f_is_id (m_fields m)) by (by apply iter_filter_elem). rewrite H1 in Hin. by apply elem_of_nil in Hin.
Qed.
Lemma relation_table_columns_ok m name : keyed m ->
  exists cs, relation_table_columns (E := string) (mkModelRef d m) name = Ok cs /\ forall c n, c ∈ cs -> family (c_tpe c) <> EnumFamily n.
Proof.
  intros Hk. pose proof Hk as [Hm _]. unfold relation_table_columns; cbn [mr_model]. destruct (m_id_fields m) as [|i rest] eqn:Ei.
  - destruct (keyed_id m Hk) as (f & Hf & Hi).
    destruct (iter_find (fun fr => f_is_id (fr_field fr)) (mr_fields (mkModelRef d m))) as [fr|] eqn:Ef.
    + apply iter_find_Some in Ef as [(g & -> & Hg)%list_elem_of_fmap Hgi]. cbn in *.
      destruct (column_type_ok m g Hm Hg) as (tpe & -> & Hno); [by apply (wf_id _ _ (Hd m Hm))|]. cbn. eexists. split; [done|].
      intros c n Hc%list_elem_of_singleton. subst c. apply Hno.
    + rewrite iter_find_None in Ef. specialize (Ef (mkFieldRef d m f)). cbn in Ef.
      rewrite Ef in Hi; [done|]. by apply (list_elem_of_fmap_2 (mkFieldRef d m)).
  - edestruct (map_m_total (E := string) (fun f => tpe ← column_type f; Ok (mkColumn (name +:+ "_" +:+ fr_db_name f) tpe None false))
      (fun _ c => forall n, family (c_tpe c) <> EnumFamily n) (mr_id_fields (mkModelRef d m))) as (cs & Hcs & HF).
    { intros fr Hfr. destruct (id_fields_ok m fr Hm Hfr) as (f & -> & Hf & Hc).
      destruct (column_type_ok m f Hm Hf Hc) as (tpe & -> & Hno). cbn. eexists. split; [done|]. apply Hno. }
    exists cs. split; [exact Hcs|]. intros c n Hc. destruct (Forall2_elem_r _ _ _ _ HF Hc) as (x & _ & Hx). apply Hx.
Qed.
Lemma first_criterion_ok m : keyed m ->
  exists frs, calc_first_unique_criterion (mkModelRef d m) = Ok frs /\ forall fr, fr ∈ frs -> fr_db_name fr ∈ model_columns m.
Proof.
  intros Hk. pose proof Hk as [Hm _]. pose proof (id_fields_nonempty m Hk) as Hne. exists (mr_id_fields (mkModelRef d m)). split.
  - unfold calc_first_unique_criterion. by destruct (mr_id_fields (mkModelRef d m)).
  - intros fr Hfr. destruct (id_fields_ok m fr Hm Hfr) as (f & -> & Hf & Hc). apply (list_elem_of_fmap_2 field_db_name).
    by apply iter_filter_elem.
Qed.
Definition relation_table_ok (t : Table) : Prop := table_ok (column_names t) t.
Lemma relation_table_total r : keyed (model_a r) -> keyed (model_b r) ->
  exists t, relation_table d r = Ok t /\ t_name t = table_name r /\ relation_table_ok t.
Proof.
  intros Ha Hb. unfold relation_table.
  destruct (relation_table_columns_ok (model_a r) model_a_column Ha) as (ca & -> & Hca). cbn.
  destruct (relation_table_columns_ok (model_b r) model_b_column Hb) as (cb & -> & Hcb). cbn.
  destruct (first_criterion_ok (model_a r) Ha) as (fa & -> & Hfa). cbn. destruct (first_criterion_ok (model_b r) Hb) as (fb & -> & Hfb). cbn.
  eexists. split; [done|]. split; [done|].
  assert (Href : forall m frs cs, m ∈ dm_models d -> (forall fr, fr ∈ frs -> fr_db_name fr ∈ model_columns m) ->
    references (mkForeignKey None cs (mr_db_name (mkModelRef d m)) (fr_db_name <$> frs) Cascade)).
  { intros m frs cs Hm Hfrs. exists m. split_and!; [done..|]. intros c (fr & -> & Hfr)%list_elem_of_fmap. by apply Hfrs. }
  split; cbn [t_columns t_indices t_foreign_keys].
  - done.
  - intros c n [Hc|Hc]%elem_of_app Hn; [by apply Hca in Hn|by apply Hcb in Hn].
  - unfold column_names; cbn [t_columns]. intros i c Hi Hc. rewrite !elem_of_cons in Hi. destruct Hi as [->|[->|Hi]]; [done| |by apply elem_of_nil in Hi].
    cbn in Hc. rewrite fmap_app, elem_of_app. by right.
  - unfold column_names; cbn [t_columns]. rewrite fmap_app.
    intros fk Hi. rewrite !elem_of_cons in Hi. destruct Hi as [->|[->|Hi]]; [..|by apply elem_of_nil in Hi]; (split; [|apply Href; [by destruct Ha|done]||(apply Href; [by destruct Hb|done])]); cbn; intros c Hc; apply elem_of_app; auto.
Qed.
Lemma relation_tables_total : exists ts, calculate_relation_tables d = Ok ts /\ forall t, t ∈ ts -> relation_table_ok t.
Proof.
  unfold calculate_relation_tables. destruct calculate_relations_ok as (rs & -> & Hrs). cbn.
  destruct (map_m_total (relation_table d) (fun _ t => relation_table_ok t) (iter_filter is_table rs)) as (ts & Hts & HF).
  { intros r [Hr Ht]%iter_filter_elem. destruct (Hrs r Hr Ht) as [Ha Hb]. destruct (relation_table_total r Ha Hb) as (t & ? & _ & ?). eauto. }
  exists ts. split; [done|]. intros t Ht. by destruct (Forall2_elem_r _ _ _ _ HF Ht) as (x & _ & ?).
Qed.
End model.

Lemma calculate_enums_total d fam : datamodel_wf d -> exists es, calculate_enums (E := string) d fam = Ok es.
Proof.
  intros Hd. unfold calculate_enums. destruct fam; [eauto..|].
  destruct (map_m_total (E := string) enum_field (fun _ _ => True) (walk_fields d)) as (ys & -> & _); [|cbn; eauto].
  intros x (m' & (f' & -> & Hf')%list_elem_of_fmap & Hm')%list_elem_of_bind.
  unfold enum_field. destruct (fr_field_type_ok d Hd (E := string) m' f' Hm' Hf') as (t & -> & _). cbn. eauto.
Qed.

(** ** The schema *)
Lemma sort_columns_perm t : t_columns (sort_columns t) ≡ₚ t_columns t.
Proof. apply merge_sort_Permutation. Qed.
Lemma sort_columns_names t c : c ∈ column_names (sort_columns t) <-> c ∈ column_names t.
Proof. unfold column_names. by rewrite (sort_columns_perm t). Qed.
Lemma table_ok_closed d es cols t ts : table_ok d es cols t ->
  (forall m, m ∈ dm_models d -> exists u, u ∈ ts /\ model_table_ok d es m u) ->
  table_closed (mkSqlSchema (sort_columns <$> ts) es []) (sort_columns t).
Proof.
  intros [H1 H2 H3 H4] Hts. split_and!.
  - intros i c Hi Hc. apply sort_columns_names. rewrite H1. by apply (H3 i).
  - intros fk Hfk. destruct (H4 fk Hfk) as [Hcols (rm & Hrm & Hname & Href)]. split.
    + intros c Hc. apply sort_columns_names. rewrite H1. by apply Hcols.
    + destruct (Hts rm Hrm) as (u & Hu & Hun & [Hok _ _ _]). exists (sort_columns u). split_and!.
      * by apply list_elem_of_fmap_2.
      * cbn. congruence.
      * intros c Hc. apply sort_columns_names. rewrite Hok. by apply Href.
  - intros c n Hc Hn. cbn. apply (H2 c n); [|done]. by rewrite <-(sort_columns_perm t).
Qed.
(** ** A check of [datamodel_wf] *)
Definition column_field_b (m : Model) (n : string) : bool := match find_field m n with Some f => has_column f | None => false end.
Definition enum_field_b (d : Datamodel) (f : Field) : bool :=
  match f_type f with
  | EnumType n =>
      match find_enum d n, f_default_value f with
      | Some e, Some (Single s) => existsb (fun v => ev_name v ≟ value_fmt debug_list s) (en_values e)
      | Some _, _ => true
      | None, _ => false
      end
  | _ => true
  end.
Definition relation_field_b (d : Datamodel) (m : Model) (f : Field) : bool :=
  match f_type f with
  | RelationType info =>
      match find_model d (ri_to info) with
      | Some rm =>
          match iter_find (is_opposite_field m rm f (ri_name info)) (m_fields rm) with
          | Some rf =>
              match f_type rf with
              | RelationType rinfo =>
                  ((f_arity f ≟ ListField) || (f_arity rf ≟ ListField) || (ri_to_fields info ≟ []) || (ri_to_fields rinfo ≟ []))
                  && forallb (column_field_b m) (ri_fields info) && forallb (column_field_b rm) (ri_to_fields info)
                  && implb ((f_arity f ≟ ListField) && (f_arity rf ≟ ListField)) (has_single_id_field m && has_single_id_field rm)
              | _ => false
              end
          | None => false
          end
      | None => false
      end
  | _ => true
  end.
Definition model_wf_b (d : Datamodel) (m : Model) : bool :=
  forallb (fun f => implb (f_is_unique f || f_is_id f) (has_column f) && enum_field_b d f && relation_field_b d m f) (m_fields m)
  && forallb (column_field_b m) (m_id_fields m) && forallb (fun i => forallb (column_field_b m) (ix_fields i)) (m_indices m).
Lemma column_field_b_spec m n : column_field_b m n = true -> column_field m n.
Proof. unfold column_field_b, column_field. destruct (find_field m n) as [f|]; [eauto|done]. Qed.
Lemma enum_field_b_spec d f : enum_field_b d f = true -> enum_field_wf d f.
Proof.
  intros H n Hn. unfold enum_field_b in H. rewrite Hn in H. destruct (find_enum d n) as [e|]; [|done]. exists e. split; [done|].
  intros s Hs. rewrite Hs in H. apply iter_any_spec in H as (v & Hv & He%bool_decide_eq_true). eauto.
Qed.
Lemma relation_field_b_spec d m f : relation_field_b d m f = true -> relation_field_wf d m f.
Proof.
  intros H info Hi. unfold relation_field_b in H. rewrite Hi in H. destruct (find_model d (ri_to info)) as [rm|]; [|done].
  destruct (iter_find _ (m_fields rm)) as [rf|] eqn:Erf; [|done]. destruct (f_type rf) as [|rinfo| | |] eqn:Et; try done.
  apply andb_true_iff in H as [[[H1 H2]%andb_true_iff H3]%andb_true_iff H4]. exists rm, rf, rinfo. split_and!; [done..| | | |].
  - rewrite !orb_true_iff, !bool_decide_eq_true in H1. tauto.
  - intros n Hn. apply column_field_b_spec. by apply (forallb_elem _ _ H2).
  - intros n Hn. apply column_field_b_spec. by apply (forallb_elem _ _ H3).
  - intros Ha Hb. rewrite Ha, Hb in H4. by apply andb_true_iff in H4.
Qed.
Lemma model_wf_b_spec d m : model_wf_b d m = true -> model_wf d m.
Proof.
  intros [[Hf Hid]%andb_true_iff Hix]%andb_true_iff.
  assert (H : forall f, f ∈ m_fields m -> implb (f_is_unique f || f_is_id f) (has_column f) = true /\ enum_field_wf d f /\ relation_field_wf d m f).
  { intros f Hin. apply (forallb_elem _ _ Hf) in Hin as [[? ?]%andb_true_iff ?]%andb_true_iff.
    split_and!; [done|by apply enum_field_b_spec|by apply relation_field_b_spec]. }
  split; try (intros f Hin; destruct (H f Hin) as (Hc & He & Hr)); [| | | |exact He|exact Hr].
  - intros Hu. by rewrite Hu in Hc.
  - intros Hu. by rewrite Hu, orb_true_r in Hc.
  - intros n Hn. apply column_field_b_spec. by apply (forallb_elem _ _ Hid).
  - intros i n Hi Hn. apply column_field_b_spec. apply (forallb_elem _ _ Hix) in Hi. by apply (forallb_elem _ _ Hi).
Qed.
Lemma datamodel_wf_b_spec d : forallb (model_wf_b d) (dm_models d) = true -> datamodel_wf d.
Proof. intros H m Hm. apply model_wf_b_spec. by apply (forallb_elem _ _ H). Qed.
End facts.

(** A datamodel with an inline relation, a many-to-many relation, an enum and mapped names. *)
Section calc_samples.
#[local] Existing Instance sample_values.
Definition id_field : Field := mkField "id" (Base ScalarInt None) RequiredField None None false true None false false false.
Definition relation_field (name to : string) (arity : FieldArity) (fields to_fields : list string) (rel : string) : Field :=
  mkField name (RelationType (mkRelationInfo to fields to_fields rel OnDeleteNone)) arity None None false false None false false false.
Definition calc_user : Model := mkModel "User"
  [id_field; mkField "email" (Base ScalarString None) OptionalField (Some "e_mail") None true false None false false false;
   mkField "role" (EnumType "Role") RequiredField None (Some (Single (PV_Enum "Admin"))) false false None false false false;
   relation_field "posts" "Post" ListField [] [] "PostToUser"] None (Some "users") false [mkIndexDefinition None ["email"; "role"] NormalIndex] [] false false.
Definition calc_post : Model := mkModel "Post"
  [id_field; mkField "authorId" (Base ScalarInt None) RequiredField None None false false None false false false;
   relation_field "author" "User" RequiredField ["authorId"] ["id"] "PostToUser";
   relation_field "tags" "Tag" ListField [] [] "PostToTag"] None None false [] [] false false.
Definition calc_tag : Model := mkModel "Tag"
  [mkField "word" (Base ScalarString None) RequiredField None None false true None false false false;
   relation_field "posts" "Post" ListField [] [] "PostToTag"] None None false [] [] false false.
Definition calc_setting : Model := mkModel "Setting"
  [mkField "scope" (Base ScalarString None) RequiredField None None false false None false false false;
   mkField "key" (Base ScalarString None) RequiredField None None false false None false false false] None None false
  [mkIndexDefinition None ["scope"; "key"] UniqueIndex] [] false false.
Definition calc_datamodel : Datamodel :=
  mkDatamodel [mkEnum "Role" [EnumValue_new "Admin" (Some "ADMIN"); EnumValue_new "Guest" None] None (Some "roles")] [calc_user; calc_post; calc_tag; calc_setting].
Definition no_debug : list PrismaValue -> string := fun _ => EmptyString.
Lemma calc_datamodel_ok : datamodel_wf no_debug calc_datamodel.
Proof. apply datamodel_wf_b_spec. vm_compute. reflexivity. Qed.
Definition calc_info : DatabaseInfo := mkDatabaseInfo Postgres "public" None.
End calc_samples.

(** The calculated schema is closed. *)
Lemma calculate_closed `{VT : ValueTypes} `{IT : Itertools} (HIT : ItertoolsOk IT)
    (debug_list : list PrismaValue -> string) (d : Datamodel) (info : DatabaseInfo) :
  datamodel_wf debug_list d -> exists s, calculate debug_list d info = Ok s /\
  (forall t, t ∈ tables s -> table_closed s t) /\
  (forall m, m ∈ dm_models d -> exists t, t ∈ tables s /\ t_name t = model_db_name m /\ column_names t ≡ₚ model_columns m).
Proof.
  intros Hd. unfold calculate. destruct (calculate_enums_total debug_list d (info_family info) Hd) as (es & Hes).
  destruct (map_m_total (model_table debug_list (info_family info)) (fun mr t => model_table_ok d es (mr_model mr) t) (walk_models d)) as (mts & -> & HF).
  { intros mr (m & -> & Hm)%list_elem_of_fmap. by apply (model_table_total debug_list d Hd (info_family info) es Hes). }
  cbn. destruct (relation_tables_total debug_list d Hd es) as (rts & -> & Hrts). cbn. rewrite Hes. cbn. eexists. split; [done|].
  assert (Hmodel : forall m, m ∈ dm_models d -> exists u, u ∈ mts ++ rts /\ model_table_ok d es m u).
  { intros m Hm. destruct (Forall2_elem_l _ _ _ (mkModelRef d m) HF) as (u & Hu & Hok); [by apply list_elem_of_fmap_2|].
    exists u. split; [|done]. apply elem_of_app. by left. }
  split.
  - cbn [tables]. intros t' (t & -> & Ht)%list_elem_of_fmap. apply elem_of_app in Ht as [Ht|Ht].
    + destruct (Forall2_elem_r _ _ _ _ HF Ht) as (mr & _ & _ & Hok). by eapply table_ok_closed.
    + eapply table_ok_closed; [by apply Hrts|done].
  - intros m Hm. destruct (Hmodel m Hm) as (u & Hu & Hn & [Hok _ _ _]). exists (sort_columns u). split_and!.
    + cbn. by apply list_elem_of_fmap_2.
    + done.
    + unfold column_names in *. by rewrite (sort_columns_perm u), Hok.
Qed.

(** ** Theorems *)

(** C12: For a datamodel in which ids, unique fields, indexes and relations use existing scalar or enum fields, relation fields have an opposite field and enum fields a known enum with a known default value: the calculator returns a schema on every database, without an error or a panic. Every model has a table under its database name whose columns are exactly its scalar and enum fields; indexes and foreign keys use existing columns, foreign keys refer to existing tables and columns, and enum columns use existing enums. (The pipeline does not check the default values of enums, see pipeline_accepts_unusable.) *)
Theorem calculated_schema_closed `{VT : ValueTypes} `{IT : Itertools} (HIT : ItertoolsOk IT)
    (debug_list : list PrismaValue -> string) (d : Datamodel) (info : DatabaseInfo) :
  datamodel_wf debug_list d -> exists s, calculate debug_list d info = Ok s /\
  (forall t, t ∈ tables s -> table_closed s t) /\
  (forall m, m ∈ dm_models d -> exists t, t ∈ tables s /\ t_name t = model_db_name m /\ column_names t ≡ₚ model_columns m).
Proof. exact (calculate_closed HIT debug_list d info). Qed.


Lemma calculated_schema_closed_witness : exists s,
  calculate (VT := sample_values) (IT := sample_itertools) no_debug calc_datamodel calc_info = Ok s /\
  (forall t, t ∈ tables s -> table_closed s t) /\ (t_name <$> tables s) = ["users"; "Post"; "Tag"; "Setting"; "_PostToTag"].
Proof.
  destruct (calculated_schema_closed (VT := sample_values) sample_itertools_ok no_debug calc_datamodel calc_info calc_datamodel_ok) as (s & Hs & Ht & _).
  assert (Hn : match calculate (VT := sample_values) (IT := sample_itertools) no_debug calc_datamodel calc_info with
               | Ok s => t_name <$> tables s
               | _ => []
               end = ["users"; "Post"; "Tag"; "Setting"; "_PostToTag"]) by (vm_compute; reflexivity).
  rewrite Hs in Hn. exists s. split_and!; assumption.
Defined.
