(* ===== verification/Models.v ===== *)
(** * The data model of the query engine (libs/prisma-models/src)

    Models, fields, relations, projections and records. The source links them by
    weak references; here a field carries the name of its model and the
    references are lookups in the [InternalDataModel]. The [OnceCell]s that cache
    such lookups are recomputed. *)
From S2P Require Import Prelude SqlSchema Dml Converter.

(** ** Errors (error.rs) *)
Inductive DomainError : Type :=
| ModelNotFound (name : string)
| FieldNotFound (name model : string)
| RelationNotFound (name : string)
| ScalarFieldNotFound (name model : string)
| RelationFieldNotFound (name model : string)
| FieldForRelationNotFound (relation model : string)
| ModelForRelationNotFound (model_id relation : string)
| DomainConversionFailure (from to : string).
Notation DomainResult A := (outcome DomainError A).
(** [unwrap] on a [Result]. *)
Definition unwrap_result {E F A} (m : outcome E A) : outcome F A :=
  match m with Ok a => Ok a | Err _ => Panic "called `Result::unwrap()` on an `Err` value" | Panic msg => Panic msg end.
(** [Iterator::find] with a condition that may panic. *)
Fixpoint find_m {E A} (p : A -> outcome E bool) (l : list A) : outcome E (option A) :=
  match l with
  | [] => Ok None
  | x :: l => b ← p x; if b : bool then Ok (Some x) else find_m p l
  end.

(** ** Fields (field.rs, field/scalar.rs, field/relation.rs) *)
Inductive TypeIdentifier : Type :=
| TI_String | TI_Float | TI_Boolean | TI_Enum (name : string) | TI_Json | TI_DateTime | TI_UUID | TI_Int.
#[export] Instance TypeIdentifier_eq_dec : EqDecision TypeIdentifier.
Proof. solve_decision. Defined.
Definition TypeIdentifier_from (st : ScalarType) : TypeIdentifier :=
  match st with
  | ScalarString => TI_String
  | ScalarInt => TI_Int
  | ScalarFloat => TI_Float
  | ScalarBoolean => TI_Boolean
  | ScalarDateTime => TI_DateTime
  | ScalarJson => TI_Json
  end.
Inductive ScalarListStrategy : Type := StrategyEmbedded | StrategyRelation.
#[export] Instance ScalarListStrategy_eq_dec : EqDecision ScalarListStrategy.
Proof. solve_decision. Defined.
Inductive FieldBehaviour : Type := CreatedAt | UpdatedAt | ScalarListBehaviour (strategy : ScalarListStrategy).
#[export] Instance FieldBehaviour_eq_dec : EqDecision FieldBehaviour.
Proof. solve_decision. Defined.
Record InternalEnumValue : Type := mkInternalEnumValue { iev_name : string; iev_database_name : option string }.
#[export] Instance InternalEnumValue_eq_dec : EqDecision InternalEnumValue.
Proof. solve_decision. Defined.
Record InternalEnum : Type := mkInternalEnum { ie_name : string; ie_values : list InternalEnumValue }.
#[export] Instance InternalEnum_eq_dec : EqDecision InternalEnum.
Proof. solve_decision. Defined.
Definition iev_final_db_name (v : InternalEnumValue) : string := default (iev_name v) (iev_database_name v).
Inductive RelationSide : Type := SideA | SideB.
#[export] Instance RelationSide_eq_dec : EqDecision RelationSide.
Proof. solve_decision. Defined.
Definition opposite (s : RelationSide) : RelationSide := match s with SideA => SideB | SideB => SideA end.

Record RelationFieldTemplate : Type := mkRelationFieldTemplate {
  rft_name : string;
  rft_is_id : bool;
  rft_is_required : bool;
  rft_is_list : bool;
  rft_is_unique : bool;
  rft_is_auto_generated_int_id : bool;
  rft_relation_name : string;
  rft_relation_side : RelationSide;
  rft_relation_info : RelationInfo;
}.
Record RelationField : Type := mkRelationField {
  rf_name : string;
  rf_is_id : bool;
  rf_is_required : bool;
  rf_is_list : bool;
  rf_is_auto_generated_int_id : bool;
  rf_relation_name : string;
  rf_relation_side : RelationSide;
  rf_relation_info : RelationInfo;
  rf_model : string;
  rf_is_unique : bool;
}.
Definition RelationFieldTemplate_build (t : RelationFieldTemplate) (model : string) : RelationField :=
  mkRelationField (rft_name t) (rft_is_id t) (rft_is_required t) (rft_is_list t) (rft_is_auto_generated_int_id t)
    (rft_relation_name t) (rft_relation_side t) (rft_relation_info t) model (rft_is_unique t).
Definition RelationField_eqb (a b : RelationField) : bool :=
  (rf_name a ≟ rf_name b) && (rf_is_required a ≟ rf_is_required b) && (rf_is_list a ≟ rf_is_list b)
  && (rf_is_auto_generated_int_id a ≟ rf_is_auto_generated_int_id b) && (rf_relation_name a ≟ rf_relation_name b)
  && (rf_relation_side a ≟ rf_relation_side b) && (rf_is_unique a ≟ rf_is_unique b) && (rf_model a ≟ rf_model b).
Definition rf_is_optional (rf : RelationField) : bool := negb (rf_is_required rf).

(** ** Relations (relation.rs) *)
Inductive OnDelete : Type := OnDelete_SetNull | OnDelete_Cascade.
Definition is_cascade (o : OnDelete) : bool := match o with OnDelete_Cascade => true | OnDelete_SetNull => false end.
Record RelationTable : Type := mkRelationTable { rt_table : string; rt_model_a_column : string; rt_model_b_column : string }.
Inductive RelationLinkManifestation : Type :=
| InlineManifestation (in_table_of_model_name : string)
| RelationTableManifestation (t : RelationTable).
(** [RelationTemplate] and [Relation] have the same data. *)
Record Relation : Type := mkRelation {
  r_name : string;
  r_model_a_on_delete : OnDelete;
  r_model_b_on_delete : OnDelete;
  r_manifestation : RelationLinkManifestation;
  r_model_a_name : string;
  r_model_b_name : string;
}.
Definition is_inline_relation (r : Relation) : bool :=
  match r_manifestation r with InlineManifestation _ => true | _ => false end.
Definition is_relation_table (r : Relation) : bool := negb (is_inline_relation r).
Definition is_self_relation (r : Relation) : bool := r_model_a_name r ≟ r_model_b_name r.
Definition inline_manifestation (r : Relation) : option string :=
  match r_manifestation r with InlineManifestation m => Some m | _ => None end.

Section models.
Context `{VT : ValueTypes} `{IT : Itertools}.

Definition map_input_value (e : InternalEnum) (val : string) : option PrismaValue :=
  v ← iter_find (fun ev => iev_name ev ≟ val) (ie_values e); Some (PV_Enum (iev_final_db_name v)).
Definition map_output_value (e : InternalEnum) (val : string) : option PrismaValue :=
  v ← iter_find (fun ev => iev_final_db_name ev ≟ val) (ie_values e); Some (PV_Enum (iev_name v)).
Definition external_values (e : InternalEnum) : list string := iev_name <$> ie_values e.

Record ScalarFieldTemplate : Type := mkScalarFieldTemplate {
  sft_field_name : string;
  sft_type_identifier : TypeIdentifier;
  sft_is_required : bool;
  sft_is_list : bool;
  sft_is_unique : bool;
  sft_is_id : bool;
  sft_is_auto_generated_int_id : bool;
  sft_behaviour : option FieldBehaviour;
  sft_internal_enum : option InternalEnum;
  sft_arity : FieldArity;
  sft_db_name : option string;
  sft_default_value : option DefaultValue;
}.
Record ScalarField : Type := mkScalarField {
  sf_name : string;
  sf_type_identifier : TypeIdentifier;
  sf_is_required : bool;
  sf_is_list : bool;
  sf_id : bool;
  sf_is_auto_generated_int_id : bool;
  sf_internal_enum : option InternalEnum;
  sf_behaviour : option FieldBehaviour;
  sf_arity : FieldArity;
  sf_database_name : option string;
  sf_default_value : option DefaultValue;
  sf_model : string;
  sf_is_unique : bool;
  sf_read_only : option bool;
}.
Definition ScalarFieldTemplate_build (t : ScalarFieldTemplate) (model : string) : ScalarField :=
  mkScalarField (sft_field_name t) (sft_type_identifier t) (sft_is_required t) (sft_is_list t) (sft_is_id t)
    (sft_is_auto_generated_int_id t) (sft_internal_enum t) (sft_behaviour t) (sft_arity t) (sft_db_name t)
    (sft_default_value t) model (sft_is_unique t) None.
Definition ScalarField_eqb (a b : ScalarField) : bool :=
  (sf_name a ≟ sf_name b) && (sf_type_identifier a ≟ sf_type_identifier b) && (sf_is_required a ≟ sf_is_required b)
  && (sf_is_list a ≟ sf_is_list b) && (sf_id a ≟ sf_id b)
  && (sf_is_auto_generated_int_id a ≟ sf_is_auto_generated_int_id b) && (sf_internal_enum a ≟ sf_internal_enum b)
  && (sf_behaviour a ≟ sf_behaviour b) && option_eqb DefaultValue_eqb (sf_default_value a) (sf_default_value b)
  && (sf_is_unique a ≟ sf_is_unique b) && (sf_model a ≟ sf_model b) && (sf_arity a ≟ sf_arity b)
  && (sf_database_name a ≟ sf_database_name b).
Definition sf_db_name (sf : ScalarField) : string := default (sf_name sf) (sf_database_name sf).
Definition type_identifier_with_arity (sf : ScalarField) : TypeIdentifier * FieldArity := (sf_type_identifier sf, sf_arity sf).
Definition is_read_only (sf : ScalarField) : bool := default false (sf_read_only sf).
Definition set_read_only (sf : ScalarField) : ScalarField :=
  mkScalarField (sf_name sf) (sf_type_identifier sf) (sf_is_required sf) (sf_is_list sf) (sf_id sf)
    (sf_is_auto_generated_int_id sf) (sf_internal_enum sf) (sf_behaviour sf) (sf_arity sf) (sf_database_name sf)
    (sf_default_value sf) (sf_model sf) (sf_is_unique sf)
    (match sf_read_only sf with Some b => Some b | None => Some true end).

Inductive ModelField : Type :=
| FieldRelation (rf : RelationField)
| FieldScalar (sf : ScalarField).
Inductive FieldTemplate : Type :=
| TemplateRelation (t : RelationFieldTemplate)
| TemplateScalar (t : ScalarFieldTemplate).
Definition FieldTemplate_build (t : FieldTemplate) (model : string) : ModelField :=
  match t with
  | TemplateScalar st => FieldScalar (ScalarFieldTemplate_build st model)
  | TemplateRelation rt => FieldRelation (RelationFieldTemplate_build rt model)
  end.
Definition ModelField_eqb (a b : ModelField) : bool :=
  match a, b with
  | FieldRelation x, FieldRelation y => RelationField_eqb x y
  | FieldScalar x, FieldScalar y => ScalarField_eqb x y
  | _, _ => false
  end.
Definition mf_name (f : ModelField) : string := match f with FieldScalar sf => sf_name sf | FieldRelation rf => rf_name rf end.
Definition is_scalar (f : ModelField) : bool := match f with FieldScalar _ => true | FieldRelation _ => false end.
Definition mf_is_list (f : ModelField) : bool := match f with FieldScalar sf => sf_is_list sf | FieldRelation rf => rf_is_list rf end.
Definition mf_is_required (f : ModelField) : bool :=
  match f with FieldScalar sf => sf_is_required sf | FieldRelation rf => rf_is_required rf end.
Definition as_scalar (f : ModelField) : option ScalarField := match f with FieldScalar sf => Some sf | _ => None end.
Definition as_relation (f : ModelField) : option RelationField := match f with FieldRelation rf => Some rf | _ => None end.

(** ** Models and their fields (model.rs, fields.rs, index.rs) *)
Record Fields : Type := mkFields { all : list ModelField; fs_id_field_names : list string }.
Record IndexTemplate : Type := mkIndexTemplate { it_name : option string; it_fields : list string; it_typ : IndexType }.
Record QueryModel : Type := mkQueryModel {
  qm_name : string;
  qm_is_embedded : bool;
  qm_manifestation : option string;
  qm_fields : Fields;
  (* an index refers to its fields by their names *)
  qm_indexes : list IndexTemplate;
}.
Record ModelTemplate : Type := mkModelTemplate {
  mt_name : string;
  mt_is_embedded : bool;
  mt_fields : list FieldTemplate;
  mt_manifestation : option string;
  mt_id_field_names : list string;
  mt_indexes : list IndexTemplate;
}.
Record InternalDataModelTemplate : Type := mkInternalDataModelTemplate {
  tpl_models : list ModelTemplate;
  tpl_relations : list Relation;
  tpl_enums : list InternalEnum;
  tpl_version : option string;
}.
Record InternalDataModel : Type := mkInternalDataModel {
  idm_enums : list InternalEnum;
  idm_version : option string;
  idm_db_name : string;
  idm_models : list QueryModel;
  idm_relations : list Relation;
}.
Definition scalar (fs : Fields) : list ScalarField := omap as_scalar (all fs).
Definition relation_fields_of (fs : Fields) : list RelationField := omap as_relation (all fs).
Definition find_from_scalar (m : QueryModel) (name : string) : DomainResult ScalarField :=
  ok_or (ScalarFieldNotFound name (qm_name m)) (iter_find (fun f => sf_name f ≟ name) (scalar (qm_fields m))).
Definition find_from_all (m : QueryModel) (name : string) : DomainResult ModelField :=
  ok_or (FieldNotFound name (qm_name m)) (iter_find (fun f => mf_name f ≟ name) (all (qm_fields m))).
Definition find_from_relation_fields (m : QueryModel) (name : string) : DomainResult RelationField :=
  ok_or (RelationFieldNotFound name (qm_name m)) (iter_find (fun f => rf_name f ≟ name) (relation_fields_of (qm_fields m))).
Definition scalar_writable (fs : Fields) : list ScalarField := iter_filter (fun sf => negb (is_read_only sf)) (scalar fs).
Definition scalar_list (fs : Fields) : list ScalarField := iter_filter sf_is_list (scalar fs).
Definition qm_db_name (m : QueryModel) : string := default (qm_name m) (qm_manifestation m).
Definition unique_indexes (m : QueryModel) : list IndexTemplate := iter_filter (fun i => it_typ i ≟ UniqueIndex) (qm_indexes m).
Definition map_scalar_db_field_name (m : QueryModel) (name : string) : option ScalarField :=
  iter_find (fun f => sf_db_name f ≟ name) (scalar (qm_fields m)).
(** The weak references of an index, upgraded. *)
Definition mi_fields {E} (m : QueryModel) (i : IndexTemplate) : outcome E (list ScalarField) :=
  map_m (fun n => unwrap ("Unable to resolve field '" +:+ n +:+ "'") (iter_find (fun sf => sf_name sf ≟ n) (scalar (qm_fields m)))) (it_fields i).

(** ** Lookups in the data model (internal_data_model.rs, relation.rs, field/relation.rs) *)
Section lookups.
Context (idm : InternalDataModel).
Definition idm_find_model (name : string) : DomainResult QueryModel :=
  ok_or (ModelNotFound name) (iter_find (fun m => qm_name m ≟ name) (idm_models idm)).
Definition idm_find_relation (name : string) : DomainResult Relation :=
  ok_or (RelationNotFound name) (iter_find (fun r => r_name r ≟ name) (idm_relations idm)).
Definition is_legacy : bool := match idm_version idm with None => true | Some _ => false end.
Definition sf_is_id (sf : ScalarField) : bool :=
  if is_legacy then (sf_name sf ≟ "id") || (sf_name sf ≟ "_id") else sf_id sf.
Definition is_created_at (sf : ScalarField) : bool :=
  if is_legacy then sf_name sf ≟ "createdAt" else match sf_behaviour sf with Some CreatedAt => true | _ => false end.
Definition is_updated_at (sf : ScalarField) : bool :=
  if is_legacy then sf_name sf ≟ "updatedAt" else match sf_behaviour sf with Some UpdatedAt => true | _ => false end.
Definition unique (sf : ScalarField) : bool := sf_is_unique sf || sf_is_id sf.
Definition mf_is_unique (f : ModelField) : bool :=
  match f with FieldScalar sf => unique sf | FieldRelation rf => rf_is_id rf || rf_is_unique rf end.
(** [upgrade] of the reference to the model. *)
Definition upgrade_model {E} (name : string) : outcome E QueryModel :=
  unwrap "Model does not exist anymore. Parent model got deleted without deleting the child."
    (iter_find (fun m => qm_name m ≟ name) (idm_models idm)).
Definition rf_relation {E} (rf : RelationField) : outcome E Relation := unwrap_result (idm_find_relation (rf_relation_name rf)).
Definition find_from_relation (m : QueryModel) (name : string) (side : RelationSide) : DomainResult RelationField :=
  f ← find_m (fun f => r ← rf_relation f; Ok ((r_name r ≟ name) && (rf_relation_side f ≟ side))) (relation_fields_of (qm_fields m));
  ok_or (FieldForRelationNotFound name (qm_name m)) f.
Definition model_a_of {E} (r : Relation) : outcome E QueryModel := unwrap_result (idm_find_model (r_model_a_name r)).
Definition model_b_of {E} (r : Relation) : outcome E QueryModel := unwrap_result (idm_find_model (r_model_b_name r)).
Definition field_a_of {E} (r : Relation) : outcome E RelationField :=
  m ← model_a_of r; unwrap_result (find_from_relation m (r_name r) SideA).
Definition field_b_of {E} (r : Relation) : outcome E RelationField :=
  m ← model_b_of r; unwrap_result (find_from_relation m (r_name r) SideB).
Definition is_many_to_many {E} (r : Relation) : outcome E bool :=
  a ← field_a_of r; if rf_is_list a then b ← field_b_of r; Ok (rf_is_list b) else Ok false.
Definition rel_is_one_to_one {E} (r : Relation) : outcome E bool :=
  a ← field_a_of r; if negb (rf_is_list a) then b ← field_b_of r; Ok (negb (rf_is_list b)) else Ok false.
Definition is_one_to_many {E} (r : Relation) : outcome E bool :=
  m2m ← is_many_to_many r; if negb m2m then o ← rel_is_one_to_one r; Ok (negb o) else Ok false.
Definition contains_the_model {E} (r : Relation) (model : QueryModel) : outcome E bool :=
  a ← model_a_of r; if qm_name a ≟ qm_name model then Ok true else b ← model_b_of r; Ok (qm_name b ≟ qm_name model).
Definition get_field_on_model (r : Relation) (model_id : string) : DomainResult RelationField :=
  a ← model_a_of r;
  if model_id ≟ qm_name a then field_a_of r else
  b ← model_b_of r;
  if model_id ≟ qm_name b then field_b_of r else Err (ModelForRelationNotFound model_id (r_name r)).
Definition relation_is_inlined_in_parent {E} (rf : RelationField) : outcome E bool :=
  relation ← rf_relation rf;
  match r_manifestation relation with
  | InlineManifestation m =>
      if is_self_relation relation then Ok (negb (ri_to_fields (rf_relation_info rf) ≟ []))
      else model ← upgrade_model (rf_model rf); Ok (m ≟ qm_name model)
  | _ => Ok false
  end.
Definition relation_is_inlined_in_child {E} (rf : RelationField) : outcome E bool :=
  relation ← rf_relation rf;
  if is_inline_relation relation then p ← relation_is_inlined_in_parent rf; Ok (negb p) else Ok false.
Definition related_model {E} (rf : RelationField) : outcome E QueryModel :=
  r ← rf_relation rf; match rf_relation_side rf with SideA => model_b_of r | SideB => model_a_of r end.
Definition related_field {E} (rf : RelationField) : outcome E RelationField :=
  r ← rf_relation rf; match rf_relation_side rf with SideA => field_b_of r | SideB => field_a_of r end.
Definition is_relation_with_name_and_side {E} (rf : RelationField) (name : string) (side : RelationSide) : outcome E bool :=
  r ← rf_relation rf; Ok ((r_name r ≟ name) && (rf_relation_side rf ≟ side)).
Definition rf_scalar_fields {E} (rf : RelationField) : outcome E (list ScalarField) :=
  model ← upgrade_model (rf_model rf);
  map_m (fun f => unwrap ("Expected '" +:+ f +:+ "' to be a scalar field on model '" +:+ qm_name model +:+ "', found none.")
           (iter_find (fun sf => sf_name sf ≟ f) (scalar (qm_fields model)))) (ri_fields (rf_relation_info rf)).
Definition mf_scalar_fields {E} (f : ModelField) : outcome E (list ScalarField) :=
  match f with FieldScalar sf => Ok [sf] | FieldRelation rf => rf_scalar_fields rf end.
Definition idm_relation_fields : list RelationField := m ← idm_models idm; relation_fields_of (qm_fields m).
Definition fields_requiring_model {E} (model : QueryModel) : outcome E (list RelationField) :=
  fs ← filter_m (fun rf => m ← related_model rf; Ok (qm_name m ≟ qm_name model)) idm_relation_fields;
  Ok (iter_filter (fun f => rf_is_required f && negb (rf_is_list f)) fs).

(** ** Identifiers (fields.rs, model.rs) *)
Definition find_singular_id (fs : Fields) : option ScalarField := iter_find sf_is_id (scalar fs).
Definition find_multipart_id {E} (fs : Fields) : outcome E (option (list ScalarField)) :=
  match fs_id_field_names fs with
  | [] => Ok None
  | names =>
      fields ← map_m (fun f => unwrap ("Expected ID field " +:+ f +:+ " to be present on the model")
                                 (iter_find (fun sf => sf_name sf ≟ f) (scalar fs))) names;
      Ok (Some fields)
  end.
Definition fields_id {E} (fs : Fields) : outcome E (option (list ScalarField)) :=
  match find_singular_id fs with Some x => Ok (Some [x]) | None => find_multipart_id fs end.
Definition fields_created_at (fs : Fields) : option ScalarField := iter_find is_created_at (scalar fs).
Definition fields_updated_at (fs : Fields) : option ScalarField := iter_find is_updated_at (scalar fs).
Definition cascading_relation {E} (fs : Fields) : outcome E (list RelationField) :=
  filter_m (fun rf => r ← rf_relation rf;
    Ok (match rf_relation_side rf with SideA => is_cascade (r_model_a_on_delete r) | SideB => is_cascade (r_model_b_on_delete r) end))
    (relation_fields_of fs).
(** A projection is a list of fields of one model ([ModelProjection]). *)
Definition first_required_index {E} (m : QueryModel) : outcome E (option (list ScalarField)) :=
  i ← find_m (fun i => fs ← mi_fields m i; Ok (iter_all sf_is_required fs)) (unique_indexes m);
  match i with Some i => fs ← mi_fields m i; Ok (Some fs) | None => Ok None end.
Definition primary_identifier {E} (m : QueryModel) : outcome E (list ModelField) :=
  id ← fields_id (qm_fields m);
  fields ← match id with
           | Some fs => Ok (Some fs)
           | None =>
               match iter_find (fun sf => sf_is_unique sf && sf_is_required sf) (scalar (qm_fields m)) with
               | Some x => Ok (Some [x])
               | None => first_required_index m
               end
           end;
  fields ← unwrap ("Unable to resolve a primary identifier for model " +:+ qm_name m +:+ ".") fields;
  Ok (FieldScalar <$> (fields : list ScalarField)).
Definition linking_fields {E} (rf : RelationField) : outcome E (list ModelField) :=
  relation ← rf_relation rf;
  m2m ← is_many_to_many relation;
  if m2m : bool then model ← upgrade_model (rf_model rf); primary_identifier model
  else match ri_to_fields (rf_relation_info rf) with
       | [] =>
           related ← related_field rf;
           model ← upgrade_model (rf_model rf);
           map_m (fun n => unwrap ("Invalid data model: To field " +:+ n +:+ " can't be resolved on model " +:+ qm_name model)
                             (iter_find (fun f => mf_name f ≟ n) (all (qm_fields model)))) (ri_to_fields (rf_relation_info related))
       | _ => Ok [FieldRelation rf]
       end.
End lookups.

(** ** Building the data model (the templates' [build] and [finalize]) *)
Definition map_fields {E} (names : list string) (fields : list ScalarField) : outcome E (list string) :=
  map_m (fun n => f ← unwrap ("Unable to resolve field '" +:+ n +:+ "'") (iter_find (fun sf => sf_name sf ≟ n) fields); Ok (sf_name f)) names.
Definition IndexTemplate_build {E} (i : IndexTemplate) (fields : list ScalarField) : outcome E IndexTemplate :=
  names ← map_fields (it_fields i) fields; Ok (mkIndexTemplate (it_name i) names (it_typ i)).
Definition ModelTemplate_build {E} (t : ModelTemplate) : outcome E QueryModel :=
  let fields := mkFields ((fun ft => FieldTemplate_build ft (mt_name t)) <$> mt_fields t) (mt_id_field_names t) in
  indexes ← map_m (fun i => IndexTemplate_build i (scalar fields)) (mt_indexes t);
  Ok (mkQueryModel (mt_name t) (mt_is_embedded t) (mt_manifestation t) fields indexes).
(** The first scalar field of that name is marked; there must be one. *)
Fixpoint mark_field {E} (name : string) (l : list ModelField) : outcome E (list ModelField) :=
  match l with
  | [] => Panic "Expected inlined relation field reference to be an existing scalar field."
  | FieldScalar sf :: l =>
      if sf_name sf ≟ name then Ok (FieldScalar (set_read_only sf) :: l) else l ← mark_field name l; Ok (FieldScalar sf :: l)
  | f :: l => l ← mark_field name l; Ok (f :: l)
  end.
Definition mark_read_only {E} (idm : InternalDataModel) (fs : Fields) : outcome E Fields :=
  inlined_rfs ← filter_m (relation_is_inlined_in_parent idm) (relation_fields_of fs);
  marked ← for_each (fun l name => mark_field name l) (mjoin ((fun rf => ri_fields (rf_relation_info rf)) <$> inlined_rfs)) (all fs);
  Ok (mkFields marked (fs_id_field_names fs)).
Definition model_finalize {E} (idm : InternalDataModel) (m : QueryModel) : outcome E QueryModel :=
  fs ← mark_read_only idm (qm_fields m);
  Ok (mkQueryModel (qm_name m) (qm_is_embedded m) (qm_manifestation m) fs (qm_indexes m)).
Definition InternalDataModelTemplate_build {E} (t : InternalDataModelTemplate) (db_name : string) : outcome E InternalDataModel :=
  models ← map_m ModelTemplate_build (tpl_models t);
  let idm := mkInternalDataModel (tpl_enums t) (tpl_version t) db_name models (tpl_relations t) in
  models ← map_m (model_finalize idm) models;
  Ok (mkInternalDataModel (tpl_enums t) (tpl_version t) db_name models (tpl_relations t)).
End models.
