(* ===== verification/Convert.v ===== *)
(** * From a datamodel to the query engine's data model (datamodel_converter.rs)

    [DatamodelConverter::convert] and the properties of what it builds. *)
From S2P Require Import Prelude SqlSchema Dml Converter Models.

Section convert.
Context `{VT : ValueTypes} `{IT : Itertools}.

(** ** [DatamodelFieldExtensions] *)
Definition type_identifier {E} (f : Field) : outcome E TypeIdentifier :=
  match f_type f with
  | EnumType x => Ok (TI_Enum x)
  | RelationType _ => Ok TI_String
  | Base scalar _ => Ok (TypeIdentifier_from scalar)
  | UnsupportedType _ => Panic "These should always be commented out"
  | ConnectorSpecific _ => Panic "Connector Specific types are not supported here yet"
  end.
Definition field_is_unique (f : Field) (m : Model) : bool :=
  let is_declared_as_unique_through_multi_field_unique :=
    match iter_find (fun i => ix_fields i ≟ [f_name f]) (m_indices m) with Some _ => true | None => false end in
  f_is_unique f || is_declared_as_unique_through_multi_field_unique.
Definition field_is_id (f : Field) (m : Model) : bool := f_is_id f || (m_id_fields m ≟ [f_name f]).
Definition field_is_auto_generated_int_id {E} (f : Field) : outcome E bool :=
  let is_autogenerated_id := match f_default_value f with Some (DefaultExpression _) => f_is_id f | _ => false end in
  t ← type_identifier f;
  Ok (is_autogenerated_id && (t ≟ TI_Int)).
Definition field_behaviour (f : Field) : option FieldBehaviour := if f_is_updated_at f then Some UpdatedAt else None.
Definition internal_enum_value (v : EnumValue) : InternalEnumValue := mkInternalEnumValue (ev_name v) (ev_database_name v).
Definition internal_enum (f : Field) (d : Datamodel) : option InternalEnum :=
  match f_type f with
  | EnumType name =>
      (fun e => mkInternalEnum (en_name e) (internal_enum_value <$> en_values e)) <$> iter_find (fun e => en_name e ≟ name) (dm_enums d)
  | _ => None
  end.

(** ** [TempRelationHolder] *)
Definition relation_side {E} (r : TempRelationHolder) (f : Field) : outcome E RelationSide :=
  if Field_eqb f (field_a r) then Ok SideA
  else if Field_eqb f (field_b r) then Ok SideB
  else Panic "this field is not part of hte relations".
Definition manifestation (r : TempRelationHolder) : RelationLinkManifestation :=
  match tr_manifestation r with
  | TempTable => RelationTableManifestation (mkRelationTable (table_name r) model_a_column model_b_column)
  | TempInline in_table_of_model _ _ => InlineManifestation in_table_of_model
  end.

(** ** [DatamodelConverter] *)
Definition convert_enum_values (e : Enum) : list InternalEnumValue :=
  (fun v => mkInternalEnumValue (ev_name v) (ev_database_name v)) <$> en_values e.
Definition convert_enums (d : Datamodel) : list InternalEnum :=
  (fun e => mkInternalEnum (en_name e) (convert_enum_values e)) <$> dm_enums d.
Definition convert_field {E} (d : Datamodel) (relations : list TempRelationHolder) (model : Model) (field : Field) : outcome E FieldTemplate :=
  match f_type field with
  | RelationType ri =>
      relation ← unwrap ("Did not find a relation for model " +:+ m_name model +:+ " and field " +:+ f_name field)
                   (iter_find (fun r => is_for_model_and_field r model field) relations);
      auto ← field_is_auto_generated_int_id field;
      side ← relation_side relation field;
      Ok (TemplateRelation (mkRelationFieldTemplate (f_name field) (f_is_id field) (field_is_required field) (field_is_list field)
            (field_is_unique field model) auto (relation_name relation) side ri))
  | _ =>
      tpe ← type_identifier field;
      auto ← field_is_auto_generated_int_id field;
      Ok (TemplateScalar (mkScalarFieldTemplate (f_name field) tpe (field_is_required field) (field_is_list field)
            (field_is_unique field model) (field_is_id field model) auto (field_behaviour field) (internal_enum field d)
            (f_arity field) (f_database_name field) (f_default_value field)))
  end.
Definition convert_indexes (m : Model) : list IndexTemplate :=
  (fun i => mkIndexTemplate (ix_name i) (ix_fields i) (ix_tpe i)) <$> iter_filter (fun i => Nat.ltb 1 (length (ix_fields i))) (m_indices m).
Definition convert_model {E} (d : Datamodel) (relations : list TempRelationHolder) (m : Model) : outcome E ModelTemplate :=
  fields ← map_m (convert_field d relations m) (m_fields m);
  Ok (mkModelTemplate (m_name m) (m_is_embedded m) fields (m_database_name m) (m_id_fields m) (convert_indexes m)).
Definition convert_relations (relations : list TempRelationHolder) : list Relation :=
  (fun r => mkRelation (relation_name r) OnDelete_SetNull OnDelete_SetNull (manifestation r) (m_name (model_a r)) (m_name (model_b r)))
    <$> relations.
Definition convert {E} (d : Datamodel) : outcome E InternalDataModelTemplate :=
  relations ← calculate_relations d;
  models ← map_m (convert_model d relations) (dm_models d);
  Ok (mkInternalDataModelTemplate models (convert_relations relations) (convert_enums d) (Some "v2")).
End convert.
