(* ===== verification/ConvertFacts.v ===== *)
(** * The converted data model pairs the sides of every relation

    For a validated datamodel in which a relation name is used by two fields
    only, [convert] and [build] succeed, and the related field of the related
    field of a relation field is that field. *)
From S2P Require Import Prelude SqlSchema SqlDiffer SqlRender SqlInfer Ddl Replay Dml Converter SchemaCalc CalcFacts Models Convert.

Lemma iter_find_unique {A} (p : A -> bool) (l : list A) x :
  x ∈ l -> p x = true -> (forall y, y ∈ l -> p y = true -> y = x) -> iter_find p l = Some x.
Proof.
  intros Hx Hp Hu. destruct (iter_find p l) as [y|] eqn:E.
  - apply iter_find_Some in E as [Hy Hpy]. by rewrite (Hu y Hy Hpy).
  - rewrite iter_find_None in E. by rewrite (E x Hx) in Hp.
Qed.
Lemma find_m_unique {E A} (p : A -> outcome E bool) (q : A -> bool) (l : list A) x :
  (forall y, y ∈ l -> p y = Ok (q y)) -> iter_find q l = Some x -> find_m p l = Ok (Some x).
Proof.
  induction l as [|y l IH]; intros Hp Hq; [done|]. cbn [find_m]. rewrite Hp by constructor. cbn in *.
  destruct (q y); [by injection Hq as ->|]. apply IH; [|done]. intros z Hz. apply Hp. by constructor.
Qed.

Section pairing.
Context `{VT : ValueTypes} (HVT : ValueTypesOk VT) `{IT : Itertools} {HIT : ItertoolsOk IT} (debug_list : list PrismaValue -> string).
Context (d : Datamodel).

(** ** Datamodels that can be converted *)
Definition rel_field (m : Model) (f : Field) (info : RelationInfo) : Prop :=
  m ∈ dm_models d /\ f ∈ m_fields m /\ f_type f = RelationType info.
Definition plain_type (t : FieldType) : bool := match t with UnsupportedType _ | ConnectorSpecific _ => false | _ => true end.
(** A relation name is used by two fields only. *)
Definition names_two_fields : Prop := forall m1 f1 i1 m2 f2 i2 m3 f3 i3,
  rel_field m1 f1 i1 -> rel_field m2 f2 i2 -> rel_field m3 f3 i3 -> ri_name i1 = ri_name i2 -> ri_name i2 = ri_name i3 ->
  (m1, f1) = (m2, f2) \/ (m2, f2) = (m3, f3) \/ (m1, f1) = (m3, f3).
Record convertible : Prop := {
  cv_wf : datamodel_wf debug_list d;
  cv_models : NoDup (m_name <$> dm_models d);
  cv_fields : forall m, m ∈ dm_models d -> NoDup (f_name <$> m_fields m);
  cv_types : forall m f, m ∈ dm_models d -> f ∈ m_fields m -> plain_type (f_type f) = true;
  cv_named : forall m f i, rel_field m f i -> ri_name i <> EmptyString;
  cv_two : names_two_fields;
}.
Context (Hcv : convertible).

(** ** The other side of a relation field *)
Record opp (m : Model) (f : Field) (i : RelationInfo) (rm : Model) (rf : Field) (ri : RelationInfo) : Prop := {
  opp_field : rel_field rm rf ri;
  opp_model : find_model d (ri_to i) = Some rm;
  opp_find : iter_find (is_opposite_field m rm f (ri_name i)) (m_fields rm) = Some rf;
  opp_to : ri_to i = m_name rm;
  opp_back : ri_to ri = m_name m;
  opp_name : ri_name ri = ri_name i;
  opp_ne : (rm, rf) <> (m, f);
  opp_inline : f_arity f = ListField \/ f_arity rf = ListField \/ ri_to_fields i = [] \/ ri_to_fields ri = [];
}.
Lemma opp_exists m f i : rel_field m f i -> exists rm rf ri, opp m f i rm rf ri.
Proof.
  intros (Hm & Hf & Ht). destruct (wf_relations _ _ _ (cv_wf Hcv m Hm) f Hf i Ht) as (rm & rf & ri & Hrm & Hrf & Hrt & Hin & _).
  pose proof (find_model_Some _ _ _ Hrm) as [Hrmin Hname]. pose proof (iter_find_Some _ _ _ Hrf) as [Hrfin Hopp].
  unfold is_opposite_field in Hopp. rewrite Hrt in Hopp. exists rm, rf, ri.
  assert (Hsame : ri_to ri = m_name m /\ ri_name ri = ri_name i /\ (rm, rf) <> (m, f)).
  { destruct (m_name m ≟ m_name rm) eqn:E.
    - apply andb_true_iff in Hopp as [[H1%bool_decide_eq_true H2%bool_decide_eq_true]%andb_true_iff H3%negb_true_iff].
      split_and!; [done..|]. intros [= -> ->]. by rewrite bool_decide_eq_true_2 in H3.
    - apply andb_true_iff in Hopp as [H1%bool_decide_eq_true H2%bool_decide_eq_true].
      split_and!; [done..|]. intros [= -> ->]. by rewrite bool_decide_eq_true_2 in E. }
  destruct Hsame as (H1 & H2 & H3). split; done.
Qed.
(** Every field of that relation name is one of the two sides. *)
Lemma opp_cases m f i rm rf ri m' f' i' : rel_field m f i -> opp m f i rm rf ri -> rel_field m' f' i' -> ri_name i' = ri_name i ->
  (m', f') = (m, f) \/ (m', f') = (rm, rf).
Proof.
  intros Hf Ho Hf' Hn. destruct (cv_two Hcv m f i rm rf ri m' f' i' Hf (opp_field _ _ _ _ _ _ Ho) Hf') as [H|[H|H]].
  - by rewrite (opp_name _ _ _ _ _ _ Ho).
  - by rewrite (opp_name _ _ _ _ _ _ Ho).
  - by destruct (opp_ne _ _ _ _ _ _ Ho).
  - by right.
  - by left.
Qed.
Lemma rel_field_info m f i i' : rel_field m f i -> rel_field m f i' -> i = i'.
Proof. intros (_ & _ & H1) (_ & _ & H2). congruence. Qed.
Lemma opp_sym m f i rm rf ri : rel_field m f i -> opp m f i rm rf ri -> opp rm rf ri m f i.
Proof.
  intros Hf Ho. destruct (opp_exists rm rf ri (opp_field _ _ _ _ _ _ Ho)) as (m' & f' & i' & Ho').
  destruct (opp_cases m f i rm rf ri m' f' i' Hf Ho (opp_field _ _ _ _ _ _ Ho')) as [H|H].
  - rewrite (opp_name _ _ _ _ _ _ Ho'). apply (opp_name _ _ _ _ _ _ Ho).
  - injection H as -> ->. by rewrite (rel_field_info m f i i' Hf (opp_field _ _ _ _ _ _ Ho')).
  - by destruct (opp_ne _ _ _ _ _ _ Ho').
Qed.

(** ** The relations *)
Record sides (r : TempRelationHolder) (m : Model) (f : Field) (i : RelationInfo) (rm : Model) (rf : Field) (ri : RelationInfo) : Prop := {
  sd_name : relation_name r = ri_name i;
  sd_pair : (model_a r, field_a r, model_b r, field_b r) = (m, f, rm, rf) \/
            (model_a r, field_a r, model_b r, field_b r) = (rm, rf, m, f);
}.
Lemma ltb_total a b : String.ltb a b = false -> String.ltb b a = false -> a = b.
Proof.
  unfold String.ltb. rewrite (String.compare_antisym b a). destruct (String.compare a b) eqn:E; cbn; try done.
  intros _ _. by apply String.compare_eq_iff.
Qed.
Lemma opp_same_model m f i rm rf ri : rel_field m f i -> opp m f i rm rf ri -> m_name m = m_name rm -> rm = m.
Proof.
  intros (Hm & _ & _) Ho Hn. pose proof (opp_field _ _ _ _ _ _ Ho) as (Hrm & _ & _).
  by apply (NoDup_fmap_inj m_name (dm_models d)); [apply Hcv|..].
Qed.
Lemma relation_of_field_sides {E} m f i : rel_field m f i -> exists r rm rf ri,
  relation_of_field (E := E) d m f = Ok (Some r) /\ opp m f i rm rf ri /\ sides r m f i rm rf ri.
Proof.
  intros Hf. destruct (opp_exists m f i Hf) as (rm & rf & ri & Ho). pose proof Hf as (_ & _ & Ht).
  pose proof (opp_field _ _ _ _ _ _ Ho) as (_ & _ & Hrt). unfold relation_of_field. rewrite Ht, (opp_model _ _ _ _ _ _ Ho). cbn.
  rewrite (opp_find _ _ _ _ _ _ Ho). cbn. rewrite Hrt. cbn.
  assert (Hname : forall a b fa fb man, relation_name (mkTempRelationHolder (ri_name i) a b fa fb man) = ri_name i).
  { intros. unfold relation_name; cbn. by rewrite bool_decide_eq_false_2 by (by apply (cv_named Hcv m f)). }
  destruct (String.ltb (m_name m) (m_name rm)) eqn:E1; [|destruct (String.ltb (m_name rm) (m_name m)) eqn:E2; [|destruct (String.ltb (f_name f) (f_name rf))]];
    (edestruct (manifestation_total (E := E)) as (o & -> & _); [pose proof (opp_inline _ _ _ _ _ _ Ho); tauto|]); cbn;
    eexists; exists rm, rf, ri; (split; [done|]); (split; [done|]); (split; [apply Hname|]); cbn; auto.
  rewrite (opp_same_model m f i rm rf ri Hf Ho) by (by apply ltb_total). auto.
Qed.
Lemma relation_of_plain_field {E} m f : m ∈ dm_models d -> f ∈ m_fields m -> (forall i, f_type f <> RelationType i) -> relation_of_field (E := E) d m f = Ok None.
Proof. intros _ _ Ht. unfold relation_of_field. by destruct (f_type f) as [|i| | |]; [|destruct (Ht i)|..]. Qed.
Lemma calculate_relations_sides {E} : exists rs, calculate_relations (E := E) d = Ok rs /\ NoDup (relation_name <$> rs) /\
  (forall r, r ∈ rs -> exists m f i rm rf ri, rel_field m f i /\ opp m f i rm rf ri /\ sides r m f i rm rf ri) /\
  (forall m f i, rel_field m f i -> exists r, r ∈ rs /\ relation_name r = ri_name i).
Proof.
  unfold calculate_relations.
  destruct (map_m_total (E := E) (fun '(m, f) => relation_of_field d m f)
    (fun '(m, f) o => relation_of_field (E := E) d m f = Ok o) (model_fields_of d)) as (os & -> & HF).
  { intros [m f] (m' & (f' & [= -> ->] & Hf)%list_elem_of_fmap & Hm)%list_elem_of_bind.
    destruct (f_type f') as [|i| | |] eqn:Ht; try (exists None; split; [|]; apply relation_of_plain_field; done || (intros; congruence)).
    destruct (relation_of_field_sides (E := E) m' f' i) as (r & _ & _ & _ & Hr & _); [done|]. eauto. }
  cbn. eexists. split; [done|]. split; [apply unique_by_NoDup|]. split.
  - intros r Hr%unique_by_elem. apply list_elem_of_omap in Hr as (o & Ho & Hr). unfold id in Hr. subst o.
    destruct (Forall2_elem_r _ _ _ _ HF Ho) as ([m f] & Hin & Hx).
    apply list_elem_of_bind in Hin as (m' & (f' & [= -> ->] & Hf)%list_elem_of_fmap & Hm).
    destruct (f_type f') as [|i| | |] eqn:Ht; try (rewrite relation_of_plain_field in Hx; done || (intros; congruence)).
    destruct (relation_of_field_sides (E := E) m' f' i) as (r' & rm & rf & ri & Hr' & Hopp & Hs); [done|].
    rewrite Hr' in Hx. injection Hx as ->. exists m', f', i, rm, rf, ri. done.
  - intros m f i Hf. destruct (relation_of_field_sides (E := E) m f i Hf) as (r & rm & rf & ri & Hr & Ho & Hs).
    pose proof Hf as (Hm & Hfin & _).
    destruct (Forall2_elem_l _ _ _ (m, f) HF) as (o & Hino & Hx).
    { apply list_elem_of_bind. exists m. split; [|done]. by apply list_elem_of_fmap_2. }
    rewrite Hr in Hx. injection Hx as <-.
    destruct (unique_by_key relation_name (omap id os) r) as (r' & Hr' & Hn).
    { apply list_elem_of_omap. by exists (Some r). }
    exists r'. split; [done|]. rewrite Hn. apply Hs.
Qed.

(** ** The fields of the template *)
Lemma Field_eqb_spec a b : Field_eqb a b = true -> f_name a = f_name b /\ f_type a = f_type b.
Proof. unfold Field_eqb. rewrite !andb_true_iff, !bool_decide_eq_true. tauto. Qed.
Section relations.
Context (rs : list TempRelationHolder) (Hnd : NoDup (relation_name <$> rs)).
Context (Hsides : forall r, r ∈ rs -> exists m f i rm rf ri, rel_field m f i /\ opp m f i rm rf ri /\ sides r m f i rm rf ri).
Context (Hall : forall m f i, rel_field m f i -> exists r, r ∈ rs /\ relation_name r = ri_name i).

Lemma relation_for m f i : rel_field m f i -> exists r rm rf ri, r ∈ rs /\ opp m f i rm rf ri /\ sides r m f i rm rf ri.
Proof.
  intros Hf. destruct (Hall m f i Hf) as (r & Hr & Hn). destruct (Hsides r Hr) as (m0 & f0 & i0 & rm0 & rf0 & ri0 & Hf0 & Ho0 & Hs0).
  assert (Hni : ri_name i = ri_name i0) by (rewrite <-Hn; apply Hs0). exists r.
  destruct (opp_cases _ _ _ _ _ _ m f i Hf0 Ho0 Hf Hni) as [[= -> ->]|[= -> ->]].
  - rewrite (rel_field_info _ _ _ _ Hf Hf0). by exists rm0, rf0, ri0.
  - pose proof (opp_field _ _ _ _ _ _ Ho0) as Hrf. rewrite (rel_field_info _ _ _ _ Hf Hrf). exists m0, f0, i0.
    split_and!; [done|by apply opp_sym|]. split; [rewrite (opp_name _ _ _ _ _ _ Ho0); apply Hs0|].
    destruct (sd_pair _ _ _ _ _ _ _ Hs0); auto.
Qed.
Lemma relation_unique r r' : r ∈ rs -> r' ∈ rs -> relation_name r = relation_name r' -> r = r'.
Proof. by apply NoDup_fmap_inj. Qed.
Lemma side_info r m f i rm rf ri f' : opp m f i rm rf ri -> rel_field m f i -> sides r m f i rm rf ri ->
  f_type f' = f_type (field_a r) \/ f_type f' = f_type (field_b r) -> forall i', f_type f' = RelationType i' -> ri_name i' = ri_name i.
Proof.
  intros Ho (_ & _ & Ht) Hs Hf' i' Hi'. pose proof (opp_field _ _ _ _ _ _ Ho) as (_ & _ & Hrt). pose proof (opp_name _ _ _ _ _ _ Ho).
  destruct (sd_pair _ _ _ _ _ _ _ Hs) as [[= Ha Hb Hc Hd]|[= Ha Hb Hc Hd]]; rewrite Hb, Hd, Ht, Hrt, Hi' in Hf';
    destruct Hf' as [[= ->]|[= ->]]; congruence.
Qed.
Lemma find_for r m f i rm rf ri : rel_field m f i -> r ∈ rs -> opp m f i rm rf ri -> sides r m f i rm rf ri ->
  iter_find (fun r => is_for_model_and_field r m f) rs = Some r.
Proof.
  intros Hf Hr Ho Hs. apply iter_find_unique; [done|..].
  - unfold is_for_model_and_field. destruct (sd_pair _ _ _ _ _ _ _ Hs) as [[= -> -> -> ->]|[= -> -> -> ->]];
      rewrite (Model_eqb_refl HVT m), (Field_eqb_refl HVT f); cbn; [done|apply orb_true_r].
  - intros y Hy Hfor. apply relation_unique; [done..|]. rewrite (sd_name _ _ _ _ _ _ _ Hs).
    destruct (Hsides y Hy) as (m0 & f0 & i0 & rm0 & rf0 & ri0 & Hf0 & Ho0 & Hs0). rewrite (sd_name _ _ _ _ _ _ _ Hs0). symmetry.
    apply (side_info y m0 f0 i0 rm0 rf0 ri0 f Ho0 Hf0 Hs0); [|apply Hf].
    unfold is_for_model_and_field in Hfor. apply orb_true_iff in Hfor as [[_ [_ H]%Field_eqb_spec]%andb_true_iff|[_ [_ H]%Field_eqb_spec]%andb_true_iff]; auto.
Qed.
Definition side_of (m : Model) (f : Field) : RelationSide :=
  match iter_find (fun r => is_for_model_and_field r m f) rs with
  | Some r => if Field_eqb f (field_a r) then SideA else SideB
  | None => SideA
  end.
Lemma opp_field_ne m f i rm rf ri : rel_field m f i -> opp m f i rm rf ri -> Field_eqb f rf = false.
Proof.
  intros Hf Ho. destruct (Field_eqb f rf) eqn:E; [|done]. apply Field_eqb_spec in E as [En Et]. pose proof Hf as (Hm & Hfin & Ht).
  pose proof (opp_field _ _ _ _ _ _ Ho) as (_ & Hrf & Hrt). assert (Hi : i = ri) by congruence. subst ri.
  assert (Hrm : rm = m). { apply (opp_same_model m f i rm rf i Hf Ho). rewrite <-(opp_back _ _ _ _ _ _ Ho). apply (opp_to _ _ _ _ _ _ Ho). }
  subst rm. destruct (opp_ne _ _ _ _ _ _ Ho). f_equal. by apply (NoDup_fmap_inj f_name (m_fields m)); [apply Hcv|..].
Qed.
(** The side of a field says which side of its relation it is. *)
Lemma side_of_spec r m f i rm rf ri : rel_field m f i -> r ∈ rs -> opp m f i rm rf ri -> sides r m f i rm rf ri ->
  match side_of m f with
  | SideA => (model_a r, field_a r, model_b r, field_b r) = (m, f, rm, rf)
  | SideB => (model_a r, field_a r, model_b r, field_b r) = (rm, rf, m, f)
  end.
Proof.
  intros Hf Hr Ho Hs. unfold side_of. rewrite (find_for r m f i rm rf ri) by done.
  destruct (sd_pair _ _ _ _ _ _ _ Hs) as [[= -> -> -> ->]|[= -> -> -> ->]].
  - by rewrite (Field_eqb_refl HVT).
  - by rewrite (opp_field_ne m f i rm rf ri).
Qed.
Lemma side_opposite m f i rm rf ri : rel_field m f i -> opp m f i rm rf ri -> side_of rm rf = opposite (side_of m f).
Proof.
  intros Hf Ho. destruct (relation_for m f i Hf) as (r & rm' & rf' & ri' & Hr & Ho' & Hs).
  assert (He : (rm', rf') = (rm, rf)).
  { destruct (opp_cases m f i rm rf ri rm' rf' ri' Hf Ho (opp_field _ _ _ _ _ _ Ho')) as [H|H]; [apply Ho'| |done].
    by destruct (opp_ne _ _ _ _ _ _ Ho'). }
  injection He as -> ->. rewrite (rel_field_info _ _ _ _ (opp_field _ _ _ _ _ _ Ho') (opp_field _ _ _ _ _ _ Ho)) in *.
  pose proof (side_of_spec r m f i rm rf ri Hf Hr Ho Hs) as H1.
  assert (Hs' : sides r rm rf ri m f i). { split; [rewrite (opp_name _ _ _ _ _ _ Ho); apply Hs|]. destruct (sd_pair _ _ _ _ _ _ _ Hs); auto. }
  pose proof (side_of_spec r rm rf ri m f i (opp_field _ _ _ _ _ _ Ho) Hr (opp_sym _ _ _ _ _ _ Hf Ho) Hs') as H2.
  pose proof (opp_ne _ _ _ _ _ _ Ho).
  destruct (side_of m f), (side_of rm rf); try done; rewrite H1 in H2; injection H2 as <- <-; done.
Qed.
Definition built_template (m : Model) (f : Field) (i : RelationInfo) : RelationFieldTemplate :=
  mkRelationFieldTemplate (f_name f) (f_is_id f) (field_is_required f) (field_is_list f) (field_is_unique f m) false (ri_name i) (side_of m f) i.
Definition template_ok (m : Model) (f : Field) (t : FieldTemplate) : Prop :=
  match f_type f with
  | RelationType i => t = TemplateRelation (built_template m f i)
  | _ => exists st, t = TemplateScalar st /\ sft_field_name st = f_name f
  end.
Lemma convert_field_ok {E} m f : m ∈ dm_models d -> f ∈ m_fields m ->
  exists t, convert_field (E := E) d rs m f = Ok t /\ template_ok m f t.
Proof.
  intros Hm Hf. pose proof (cv_types Hcv m f Hm Hf) as Hp. unfold convert_field, template_ok, field_is_auto_generated_int_id, type_identifier.
  destruct (f_type f) as [n|i|t|n|t a] eqn:Et; try done; cbn; try (eexists; split; [reflexivity|]; eexists; split; reflexivity).
  destruct (relation_for m f i) as (r & rm & rf & ri & Hr & Ho & Hs); [done|].
  pose proof (find_for r m f i rm rf ri) as Hfind. rewrite Hfind by done. cbn. unfold relation_side, built_template, side_of.
  rewrite Hfind by done. rewrite andb_false_r, <-(sd_name _ _ _ _ _ _ _ Hs).
  destruct (Field_eqb f (field_a r)) eqn:Ea; [by eexists|].
  destruct (sd_pair _ _ _ _ _ _ _ Hs) as [[= _ Hfa _ Hfb]|[= _ Hfa _ Hfb]].
  - by rewrite Hfa, (Field_eqb_refl HVT) in Ea.
  - rewrite Hfb, (Field_eqb_refl HVT). by eexists.
Qed.

(** ** The built models *)
Definition built_rf (m : Model) (f : Field) (i : RelationInfo) : RelationField := RelationFieldTemplate_build (built_template m f i) (m_name m).
Definition rel_of (m : Model) (f : Field) : option RelationField :=
  match f_type f with RelationType i => Some (built_rf m f i) | _ => None end.
Definition names_scalars (m : Model) (fs : Fields) : Prop := forall n, column_field m n -> exists sf, sf ∈ scalar fs /\ sf_name sf = n.
Record model_ok (m : Model) (qm : QueryModel) : Prop := {
  mk_name : qm_name qm = m_name m;
  mk_relations : relation_fields_of (qm_fields qm) = omap (rel_of m) (m_fields m);
  mk_scalars : names_scalars m (qm_fields qm);
}.
Lemma rel_of_elem m rf : m ∈ dm_models d -> rf ∈ omap (rel_of m) (m_fields m) -> exists f i, rel_field m f i /\ rf = built_rf m f i.
Proof.
  intros Hm (f & Hf & Hr)%list_elem_of_omap. unfold rel_of in Hr. destruct (f_type f) as [|i| | |] eqn:Et; try done.
  injection Hr as <-. by exists f, i.
Qed.
Lemma built_fields m ts ids : Forall2 (template_ok m) (m_fields m) ts ->
  let fs := mkFields ((fun ft => FieldTemplate_build ft (m_name m)) <$> ts) ids in
  relation_fields_of fs = omap (rel_of m) (m_fields m) /\ names_scalars m fs.
Proof.
  intros HF fs. split.
  - unfold fs, relation_fields_of; cbn [all]. clear fs. induction HF as [|f t fields ts Ht HF IH]; [done|]. cbn.
    unfold template_ok, rel_of in *. destruct (f_type f) as [|i| | |]; cbn in *; try (destruct Ht as (st & -> & _); by cbn).
    rewrite Ht. cbn. by rewrite IH.
  - intros n (f & Hf & Hc). apply find_field_Some in Hf as [Hin <-]. destruct (Forall2_elem_l _ _ _ f HF Hin) as (t & Htin & Ht).
    unfold template_ok in Ht. unfold has_column in Hc.
    assert (Hst : exists st, t = TemplateScalar st /\ sft_field_name st = f_name f) by (by destruct (f_type f)).
    destruct Hst as (st & -> & Hn). exists (ScalarFieldTemplate_build st (m_name m)). split; [|done].
    apply list_elem_of_omap. exists (FieldScalar (ScalarFieldTemplate_build st (m_name m))). split; [|done].
    by apply (list_elem_of_fmap_2 (fun ft => FieldTemplate_build ft (m_name m))) in Htin.
Qed.
Lemma find_scalar_total m fs n : names_scalars m fs -> column_field m n ->
  exists sf, iter_find (fun sf => sf_name sf ≟ n) (scalar fs) = Some sf.
Proof.
  intros Hs Hn. destruct (Hs n Hn) as (sf & Hsf & He). destruct (iter_find _ _) eqn:E; [eauto|].
  rewrite iter_find_None in E. specialize (E sf Hsf). cbn in E. by rewrite bool_decide_eq_true_2 in E.
Qed.
Lemma model_build_ok {E} m : m ∈ dm_models d ->
  exists t qm, convert_model (E := E) d rs m = Ok t /\ ModelTemplate_build (E := E) t = Ok qm /\ model_ok m qm.
Proof.
  intros Hm. unfold convert_model.
  destruct (map_m_total (E := E) (convert_field d rs m) (template_ok m) (m_fields m)) as (ts & -> & HF); [by intros; apply convert_field_ok|].
  cbn. destruct (built_fields m ts (m_id_fields m) HF) as [Hrel Hsc]. unfold ModelTemplate_build; cbn [mt_name mt_fields mt_id_field_names mt_indexes].
  destruct (map_m_ok (E := E) (fun i => IndexTemplate_build i
    (scalar (mkFields ((fun ft => FieldTemplate_build ft (m_name m)) <$> ts) (m_id_fields m)))) (convert_indexes m)) as (is' & His).
  { intros x (ix & -> & [Hix _]%iter_filter_elem)%list_elem_of_fmap. unfold IndexTemplate_build, map_fields; cbn [it_fields].
    match goal with |- context [map_m ?g ?l] => destruct (map_m_ok g l) as (ns & ->); [|cbn; eauto] end. intros n Hn. cbv beta.
    destruct (find_scalar_total m _ n Hsc) as (sf & ->); [|cbn; eauto]. by apply (wf_indices _ _ _ (cv_wf Hcv m Hm) ix). }
  eexists _, _. split; [done|]. unfold ModelTemplate_build; cbn [mt_name mt_fields mt_id_field_names mt_indexes]. rewrite His. cbn. split; [done|]. done.
Qed.

(** ** Lookups in the built model *)
Section lookups.
Context (idm : InternalDataModel) (Hmodels : Forall2 model_ok (dm_models d) (idm_models idm)).
Context (Hrelations : idm_relations idm = convert_relations rs).
Definition relation_of_holder (r : TempRelationHolder) : Relation :=
  mkRelation (relation_name r) OnDelete_SetNull OnDelete_SetNull (manifestation r) (m_name (model_a r)) (m_name (model_b r)).
Lemma qm_names : qm_name <$> idm_models idm = m_name <$> dm_models d.
Proof. apply list_eq_Forall2. apply Forall2_fmap, Forall2_flip. eapply Forall2_impl; [exact Hmodels|]. intros m qm Hok. apply Hok. Qed.
Lemma find_qm m : m ∈ dm_models d -> exists qm, qm ∈ idm_models idm /\ iter_find (fun q => qm_name q ≟ m_name m) (idm_models idm) = Some qm /\ model_ok m qm.
Proof.
  intros Hm. destruct (Forall2_elem_l _ _ _ m Hmodels Hm) as (qm & Hq & Hok). exists qm. split_and!; [done| |done].
  apply iter_find_unique; [done|by rewrite bool_decide_eq_true_2 by apply Hok|]. intros y Hy Hn%bool_decide_eq_true.
  apply (NoDup_fmap_inj qm_name (idm_models idm)); [rewrite qm_names; apply Hcv|done..|]. rewrite Hn. symmetry. apply Hok.
Qed.
Lemma find_relation_of r : r ∈ rs -> iter_find (fun x => r_name x ≟ relation_name r) (idm_relations idm) = Some (relation_of_holder r).
Proof.
  intros Hr. rewrite Hrelations. apply iter_find_unique.
  - by apply (list_elem_of_fmap_2 relation_of_holder).
  - by rewrite bool_decide_eq_true_2.
  - intros y (r' & -> & Hr')%list_elem_of_fmap Hn%bool_decide_eq_true. unfold relation_of_holder. by rewrite (relation_unique r' r Hr' Hr Hn).
Qed.
Lemma rf_relation_ok {E} m f i r : r ∈ rs -> relation_name r = ri_name i -> rf_relation (E := E) idm (built_rf m f i) = Ok (relation_of_holder r).
Proof.
  intros Hr Hn. unfold rf_relation, idm_find_relation. cbn [built_rf RelationFieldTemplate_build rf_relation_name built_template rft_relation_name].
  rewrite <-Hn, (find_relation_of r Hr). done.
Qed.
Lemma rf_relation_total {E} rf m : m ∈ dm_models d -> rf ∈ omap (rel_of m) (m_fields m) ->
  exists r, r ∈ rs /\ rf_relation (E := E) idm rf = Ok (relation_of_holder r) /\ r_name (relation_of_holder r) = rf_relation_name rf.
Proof.
  intros Hm (f & i & Hf & ->)%rel_of_elem; [|done]. destruct (Hall m f i Hf) as (r & Hr & Hn).
  exists r. split_and!; [done|by apply rf_relation_ok|done].
Qed.
Lemma find_side_ok m f i qm : rel_field m f i -> model_ok m qm ->
  find_from_relation idm qm (ri_name i) (side_of m f) = Ok (built_rf m f i).
Proof.
  intros Hf Hok. pose proof Hf as (Hm & Hin & Ht). unfold find_from_relation. rewrite (mk_relations _ _ Hok).
  rewrite (find_m_unique _ (fun y => (rf_relation_name y ≟ ri_name i) && (rf_relation_side y ≟ side_of m f)) _ (built_rf m f i)); [done|..].
  - intros y Hy. destruct (rf_relation_total (E := DomainError) y m Hm Hy) as (r & _ & -> & Hn). cbn [mbind outcome_bind]. by rewrite Hn.
  - apply iter_find_unique.
    + apply list_elem_of_omap. exists f. split; [done|]. unfold rel_of. by rewrite Ht.
    + by rewrite !bool_decide_eq_true_2.
    + intros y (f' & i' & Hf' & ->)%rel_of_elem [Hn%bool_decide_eq_true Hs%bool_decide_eq_true]%andb_true_iff; [|done].
      cbn in Hn, Hs. destruct (opp_exists m f i Hf) as (rm & rf & ri & Ho).
      destruct (opp_cases m f i rm rf ri m f' i' Hf Ho Hf' Hn) as [[= ->]|[= -> ->]].
      * by rewrite (rel_field_info _ _ _ _ Hf' Hf).
      * rewrite (side_opposite _ _ _ _ _ _ Hf Ho) in Hs. by destruct (side_of rm f).
Qed.
Lemma related_ok {E} m f i : rel_field m f i -> exists rm rf ri qm, opp m f i rm rf ri /\
  related_field (E := E) idm (built_rf m f i) = Ok (built_rf rm rf ri) /\ related_model (E := E) idm (built_rf m f i) = Ok qm /\ model_ok rm qm.
Proof.
  intros Hf. destruct (relation_for m f i Hf) as (r & rm & rf & ri & Hr & Ho & Hs).
  pose proof (opp_field _ _ _ _ _ _ Ho) as Hrf. destruct (find_qm rm) as (qm & _ & Hqm & Hok); [apply Hrf|].
  exists rm, rf, ri, qm. split; [done|]. pose proof (side_of_spec r m f i rm rf ri Hf Hr Ho Hs) as Hside.
  pose proof (side_opposite m f i rm rf ri Hf Ho) as Hop.
  pose proof (find_side_ok rm rf ri qm Hrf Hok) as Hfind. rewrite (opp_name _ _ _ _ _ _ Ho), Hop, <-(sd_name _ _ _ _ _ _ _ Hs) in Hfind.
  assert (Hmod : idm_find_model idm (m_name rm) = Ok qm) by (unfold idm_find_model; by rewrite Hqm).
  unfold related_field, related_model. rewrite (rf_relation_ok m f i r) by (done || apply Hs). cbn [mbind outcome_bind].
  change (rf_relation_side (built_rf m f i)) with (side_of m f). unfold field_b_of, field_a_of, model_b_of, model_a_of, relation_of_holder; cbn [r_name r_model_a_name r_model_b_name].
  destruct (side_of m f); injection Hside as Ha Hb Hc Hd; rewrite ?Ha, ?Hc, Hmod; cbn; cbn [opposite] in Hfind; rewrite Hfind; done.
Qed.
End lookups.

(** ** [finalize] *)
Lemma mark_field_ok {E} n l : (exists sf, sf ∈ omap as_scalar l /\ sf_name sf = n) ->
  exists l', mark_field (E := E) n l = Ok l' /\ omap as_relation l' = omap as_relation l /\ sf_name <$> omap as_scalar l' = sf_name <$> omap as_scalar l.
Proof.
  intros (sf & Hsf & Hn). induction l as [|[rf|sf'] l IH]; [by apply elem_of_nil in Hsf|..]; cbn [mark_field omap list_omap as_scalar as_relation] in *.
  - destruct (IH Hsf) as (l' & -> & H1 & H2). cbn. eexists. split; [done|]. cbn. by rewrite H1.
  - destruct (sf_name sf' ≟ n) eqn:En; [eexists; split; [done|]; by cbn|].
    apply elem_of_cons in Hsf as [<-|Hsf]; [by rewrite bool_decide_eq_true_2 in En|].
    destruct (IH Hsf) as (l' & -> & H1 & H2). cbn. eexists. split; [done|]. cbn. by rewrite H2.
Qed.
Lemma names_scalars_ext m fs fs' : sf_name <$> scalar fs' = sf_name <$> scalar fs -> names_scalars m fs -> names_scalars m fs'.
Proof.
  intros He Hs n Hn. destruct (Hs n Hn) as (sf & Hsf & <-). apply (list_elem_of_fmap_2 sf_name) in Hsf. rewrite <-He in Hsf.
  apply list_elem_of_fmap in Hsf as (sf' & ? & ?). by exists sf'.
Qed.
Lemma finalize_ok {E} idm m qm : Forall2 model_ok (dm_models d) (idm_models idm) -> idm_relations idm = convert_relations rs ->
  m ∈ dm_models d -> model_ok m qm -> exists qm', model_finalize (E := E) idm qm = Ok qm' /\ model_ok m qm'.
Proof.
  intros HM HR Hm [Hn Hrel Hsc]. unfold model_finalize, mark_read_only.
  assert (Hinl : forall rf, rf ∈ relation_fields_of (qm_fields qm) -> exists b, relation_is_inlined_in_parent (E := E) idm rf = Ok b).
  { rewrite Hrel. intros rf Hrf. destruct (rf_relation_total idm HR (E := E) rf m Hm Hrf) as (r & _ & Hr & _).
    unfold relation_is_inlined_in_parent. rewrite Hr. cbn. destruct (manifestation r); [|eauto]. destruct (is_self_relation _); [eauto|].
    apply rel_of_elem in Hrf as (f & i & Hf & ->); [|done]. destruct (find_qm idm HM m Hm) as (q & _ & Hq & _).
    unfold upgrade_model. cbn [built_rf RelationFieldTemplate_build rf_model]. rewrite Hq. cbn. eauto. }
  set (q := fun rf => match relation_is_inlined_in_parent (E := E) idm rf with Ok b => b | _ => false end).
  rewrite (filter_m_pure _ q).
  2: { intros rf Hrf. destruct (Hinl rf Hrf) as (b & Hb). unfold q. by rewrite Hb. }
  cbn. edestruct (for_each_total (E := E) (fun l name => mark_field name l)
    (fun l => relation_fields_of (mkFields l []) = omap (rel_of m) (m_fields m) /\ names_scalars m (mkFields l []))) as (l' & -> & Hl1 & Hl2).
  - split; [exact Hrel|exact Hsc].
  - intros l n Hin [H1 H2]. apply list_elem_of_join in Hin as (ns & Hn' & (rf & -> & [Hrf _]%iter_filter_elem)%list_elem_of_fmap).
    rewrite Hrel in Hrf. apply rel_of_elem in Hrf as (f & i & Hf & ->); [|done]. cbn in Hn'.
    pose proof Hf as (_ & Hfin & Ht). destruct (wf_relations _ _ _ (cv_wf Hcv m Hm) f Hfin i Ht) as (_ & _ & _ & _ & _ & _ & _ & Hcols & _).
    destruct (mark_field_ok (E := E) n l) as (l' & Hl' & Hr' & Hs'); [by apply H2, Hcols|]. exists l'. split; [done|]. split.
    + unfold relation_fields_of in *; cbn [all] in *. by rewrite Hr'.
    + by apply (names_scalars_ext m (mkFields l [])).
  - cbn. eexists. split; [done|]. by split.
Qed.
Lemma build_ok {E} db : exists t idm, map_m (convert_model (E := E) d rs) (dm_models d) = Ok t /\
  InternalDataModelTemplate_build (E := E) (mkInternalDataModelTemplate t (convert_relations rs) (convert_enums d) (Some "v2")) db = Ok idm /\
  Forall2 model_ok (dm_models d) (idm_models idm) /\ idm_relations idm = convert_relations rs.
Proof.
  destruct (map_m_total (E := E) (convert_model d rs) (fun m t => exists qm, ModelTemplate_build (E := E) t = Ok qm /\ model_ok m qm) (dm_models d)) as (ts & -> & HF).
  { intros m Hm. destruct (model_build_ok (E := E) m Hm) as (t & qm & -> & ? & ?). eauto. }
  exists ts. unfold InternalDataModelTemplate_build; cbn [tpl_models tpl_relations tpl_enums tpl_version].
  assert (Hq : exists qms, map_m (E := E) ModelTemplate_build ts = Ok qms /\ Forall2 model_ok (dm_models d) qms).
  { induction HF as [|m t l k (qm & Hqm & Hok) _ IH]; [by exists []|]. destruct IH as (qms & Hqms & HF').
    exists (qm :: qms). cbn. rewrite Hqm. cbn. rewrite Hqms. split; [done|by constructor]. }
  destruct Hq as (qms & -> & HQ). cbn. set (idm := mkInternalDataModel _ _ _ _ _).
  assert (Hf : exists qms', map_m (E := E) (model_finalize idm) qms = Ok qms' /\ Forall2 model_ok (dm_models d) qms').
  { assert (Hstep : forall m qm, m ∈ dm_models d -> model_ok m qm -> exists qm', model_finalize (E := E) idm qm = Ok qm' /\ model_ok m qm') by (intros; by apply finalize_ok).
    clearbody idm. clear HF. revert Hstep. induction HQ as [|m qm l k Hok _ IH]; intros Hstep; [by exists []|].
    destruct (Hstep m qm) as (qm' & Hqm' & Hok'); [constructor|done|]. destruct IH as (qms' & Hqms' & HF'); [intros m' q' Hm'; apply Hstep; by constructor|].
    exists (qm' :: qms'). cbn. rewrite Hqm'. cbn. rewrite Hqms'. split; [done|by constructor]. }
  destruct Hf as (qms' & -> & HF'). cbn. eexists. split_and!; [done|done|exact HF'|done].
Qed.
End relations.
End pairing.

(** ** A check of [convertible] *)
Section convertible_check.
Context `{VT : ValueTypes} (debug_list : list PrismaValue -> string) (d : Datamodel).
Definition relation_uses : list (Model * Field * RelationInfo) :=
  m ← dm_models d; omap (fun f => match f_type f with RelationType i => Some (m, f, i) | _ => None end) (m_fields m).
Definition name_at (k : nat) : option string := (fun x => ri_name x.2) <$> relation_uses !! k.
Definition names_two_fields_b : bool :=
  let ks := seq 0 (length relation_uses) in
  forallb (fun a => forallb (fun b => forallb (fun c =>
    negb (name_at a ≟ name_at b) || negb (name_at b ≟ name_at c) || (a ≟ b) || (b ≟ c) || (a ≟ c)) ks) ks) ks.
Definition convertible_b : bool :=
  forallb (model_wf_b debug_list d) (dm_models d) && bool_decide (NoDup (m_name <$> dm_models d))
  && forallb (fun m => bool_decide (NoDup (f_name <$> m_fields m)) && forallb (fun f => plain_type (f_type f)) (m_fields m)) (dm_models d)
  && forallb (fun x : Model * Field * RelationInfo => negb (ri_name x.2 ≟ EmptyString)) relation_uses && names_two_fields_b.
Lemma rel_field_used m f i : rel_field d m f i -> (m, f, i) ∈ relation_uses.
Proof.
  intros (Hm & Hf & Ht). apply list_elem_of_bind. exists m. split; [|done]. apply list_elem_of_omap. exists f. by rewrite Ht.
Qed.
Lemma names_two_fields_b_spec : names_two_fields_b = true -> names_two_fields d.
Proof.
  intros H m1 f1 i1 m2 f2 i2 m3 f3 i3 H1%rel_field_used H2%rel_field_used H3%rel_field_used N12 N23.
  apply list_elem_of_lookup in H1 as [a Ha], H2 as [b Hb], H3 as [c Hc].
  assert (Hin : forall k x, relation_uses !! k = Some x -> k ∈ seq 0 (length relation_uses)).
  { intros k x Hk%lookup_lt_Some. apply elem_of_seq. lia. }
  pose proof (forallb_elem _ _ (forallb_elem _ _ (forallb_elem _ _ H a (Hin _ _ Ha)) b (Hin _ _ Hb)) c (Hin _ _ Hc)) as Ht.
  unfold name_at in Ht. rewrite Ha, Hb, Hc in Ht. cbn in Ht. rewrite !orb_true_iff, !negb_true_iff, !bool_decide_eq_false, !bool_decide_eq_true in Ht.
  destruct Ht as [[[[Ht|Ht]|Ht]|Ht]|Ht]; [by rewrite N12 in Ht|by rewrite N23 in Ht|subst..]; [left|right; left|right; right]; congruence.
Qed.
Lemma convertible_b_spec : convertible_b = true -> convertible debug_list d.
Proof.
  unfold convertible_b. rewrite !andb_true_iff. intros [[[[H1 H2] H3] H4] H5]. split.
  - by apply datamodel_wf_b_spec.
  - by apply bool_decide_eq_true in H2.
  - intros m Hm. apply (forallb_elem _ _ H3), andb_true_iff in Hm as [Hm _]. by apply bool_decide_eq_true in Hm.
  - intros m f Hm Hf. apply (forallb_elem _ _ H3), andb_true_iff in Hm as [_ Hm]. by apply (forallb_elem _ _ Hm).
  - intros m f i Hf%rel_field_used. apply (forallb_elem _ _ H4) in Hf. cbn in Hf. by apply negb_true_iff, bool_decide_eq_false in Hf.
  - by apply names_two_fields_b_spec.
Qed.
End convertible_check.

(** Two many-to-many relations of the same name between different models. *)
Section reuse_samples.
#[local] Existing Instance sample_values.
Definition list_side (model to : string) : Model :=
  mkModel model [id_field; relation_field "others" to ListField [] [] "links"] None None false [] [] false false.
Definition reused_name : Datamodel := mkDatamodel [] [list_side "A" "B"; list_side "B" "A"; list_side "C" "D"; list_side "D" "C"].
(** A model identified by a compound unique index, with an index on one other field. *)
Definition text_field (name : string) : Field := mkField name (Base ScalarString None) RequiredField None None false false None false false false.
Definition indexed_model : Model := mkModel "Entry" [text_field "kind"; text_field "scope"; text_field "key"] None None false
  [mkIndexDefinition None ["kind"] NormalIndex; mkIndexDefinition None ["scope"; "key"] UniqueIndex] [] false false.
End reuse_samples.

(** ** Theorems *)

(** C19: For a validated datamodel in which a relation name is used by two fields only, the conversion to the query engine's data model succeeds and keeps the models. Every relation field of it has a related field: the one of the other side, in the model it names, whose related field is the first one again. *)
Theorem converted_relations_paired `{VT : ValueTypes} (HVT : ValueTypesOk VT) `{IT : Itertools} (HIT : ItertoolsOk IT)
    (debug_list : list PrismaValue -> string) (d : Datamodel) (db_name : string) :
  convertible debug_list d -> exists t idm,
  convert (E := DomainError) d = Ok t /\ InternalDataModelTemplate_build (E := DomainError) t db_name = Ok idm /\
  qm_name <$> idm_models idm = m_name <$> dm_models d /\
  forall m rf, m ∈ idm_models idm -> rf ∈ relation_fields_of (qm_fields m) -> exists rf' m',
    related_field (E := DomainError) idm rf = Ok rf' /\ related_field (E := DomainError) idm rf' = Ok rf /\
    rf_relation_side rf' = opposite (rf_relation_side rf) /\
    related_model (E := DomainError) idm rf = Ok m' /\ qm_name m' = ri_to (rf_relation_info rf) /\ rf' ∈ relation_fields_of (qm_fields m').
Proof.
  intros Hcv. destruct (calculate_relations_sides debug_list d Hcv (E := DomainError)) as (rs & Hrs & Hnd & Hsides & Hall).
  destruct (build_ok HVT debug_list d Hcv rs Hnd Hsides Hall (E := DomainError) db_name) as (ts & idm & Hts & Hidm & HM & HR).
  unfold convert. rewrite Hrs. cbn. rewrite Hts. cbn. do 2 eexists. split; [done|]. split; [exact Hidm|].
  split; [exact (qm_names d rs idm HM)|]. intros qm rf Hqm Hrf.
  destruct (Forall2_elem_r _ _ _ _ HM Hqm) as (m & Hm & Hok). rewrite (mk_relations _ _ _ Hok) in Hrf.
  destruct (rel_of_elem d rs m rf Hm Hrf) as (f & i & Hf & ->).
  destruct (related_ok HVT debug_list d Hcv rs Hnd Hsides Hall idm HM HR (E := DomainError) m f i Hf) as (rm & f' & ri & qm' & Ho & Hrf' & Hqm' & Hok').
  exists (built_rf rs rm f' ri), qm'. split; [done|].
  destruct (related_ok HVT debug_list d Hcv rs Hnd Hsides Hall idm HM HR (E := DomainError) rm f' ri (opp_field _ _ _ _ _ _ _ Ho)) as (m2 & f2 & i2 & qm2 & Ho2 & Hrf2 & _ & _).
  destruct (opp_cases debug_list d Hcv m f i rm f' ri m2 f2 i2 Hf Ho (opp_field _ _ _ _ _ _ _ Ho2)) as [[= -> ->]|[= -> ->]].
  { rewrite (opp_name _ _ _ _ _ _ _ Ho2). apply (opp_name _ _ _ _ _ _ _ Ho). }
  2: { by destruct (opp_ne _ _ _ _ _ _ _ Ho2). }
  rewrite (rel_field_info d _ _ _ _ (opp_field _ _ _ _ _ _ _ Ho2) Hf) in Hrf2. split; [done|].
  split; [by apply (side_opposite HVT debug_list d Hcv rs Hnd Hsides Hall m f i rm f' ri)|]. split; [done|]. split.
  - rewrite (mk_name _ _ _ Hok'). symmetry. apply (opp_to _ _ _ _ _ _ _ Ho).
  - rewrite (mk_relations _ _ _ Hok'). apply list_elem_of_omap. pose proof (opp_field _ _ _ _ _ _ _ Ho) as (_ & Hin & Ht).
    exists f'. split; [done|]. unfold rel_of. by rewrite Ht.
Qed.

Lemma converted_relations_paired_witness : exists t idm,
  convert (VT := sample_values) (IT := sample_itertools) (E := DomainError) calc_datamodel = Ok t /\
  InternalDataModelTemplate_build (E := DomainError) t "db" = Ok idm /\ qm_name <$> idm_models idm = ["User"; "Post"; "Tag"; "Setting"].
Proof.
  destruct (converted_relations_paired (VT := sample_values) sample_values_ok sample_itertools_ok no_debug calc_datamodel "db") as (t & idm & Ht & Hi & Hn & _).
  - apply convertible_b_spec. vm_compute. reflexivity.
  - exists t, idm. split; [exact Ht|]. split; [exact Hi|]. exact Hn.
Defined.

(** A relation name may be used again between two other models; every check of a model's relations passes. The conversion then keeps the first relation of that name only: converting the fields of the other models panics, and the schema calculator gives one relation table for two many-to-many relations. *)
Theorem reused_relation_name_lost :
  forallb (model_wf_b (VT := sample_values) no_debug reused_name) (dm_models reused_name) = true /\
  convert (VT := sample_values) (IT := sample_itertools) (E := DomainError) reused_name = Panic "Did not find a relation for model C and field others" /\
  (fun s => t_name <$> tables s) <$> calculate (VT := sample_values) (IT := sample_itertools) no_debug reused_name calc_info
    = Ok ["A"; "B"; "C"; "D"; "_links"].
Proof. split; [vm_compute; reflexivity|]. split; vm_compute; reflexivity. Qed.

(** A field with an index of its own, [@@index([kind])], counts as unique in the query engine. A model whose criterion is the compound unique index on scope and key, which the datamodel reports, is then identified by that field, whose values may repeat. *)
Theorem indexed_field_taken_for_unique :
  (t ← convert (VT := sample_values) (IT := sample_itertools) (E := DomainError) (mkDatamodel [] [indexed_model]);
   idm ← InternalDataModelTemplate_build t "db";
   m ← idm_find_model idm "Entry";
   ids ← primary_identifier idm m;
   Ok (List.map mf_name ids)) = Ok ["kind"] /\
  (c ← first_unique_criterion (E := DomainError) (VT := sample_values) indexed_model; Ok (List.map f_name c)) = Ok ["scope"; "key"].
Proof. split; vm_compute; reflexivity. Qed.
