(* ===== verification/Projections.v ===== *)
(** * Projections and records (libs/prisma-models/src/projections, record.rs, prisma_value_ext.rs)

    A [ModelProjection] is a list of fields, a [RecordProjection] gives values to
    scalar fields, a [Record] is a row of values under names of columns. *)
From S2P Require Import Prelude SqlSchema Dml Converter Models.
From stdpp Require Import gmap strings pretty sorting.
From Stdlib Require Import Ascii.

(** ** Ordering of values

    The crates of uuids, dates and decimals order their values; [Ord] and [Eq]
    agree. *)
Class ValueOrd (VT : ValueTypes) : Type := {
  uuid_cmp : Uuid -> Uuid -> comparison;
  datetime_cmp : DateTimeUtc -> DateTimeUtc -> comparison;
  decimal_cmp : Decimal -> Decimal -> comparison;
  stringify_date : DateTimeUtc -> string;
  (* [to_i64] of the truncated decimal *)
  decimal_trunc_i64 : Decimal -> option Z;
  (* the derived [Debug] texts of error messages *)
  debug_value : PrismaValue -> string;
  debug_type : TypeIdentifier -> string;
}.
Definition cmp_ok {A} (cmp : A -> A -> comparison) : Prop :=
  (forall x, cmp x x = Eq) /\ (forall x y, cmp x y = CompOpp (cmp y x)) /\
  (forall c x y z, cmp x y = c -> cmp y z = c -> cmp x z = c) /\ (forall x y z, cmp x y = Eq -> cmp y z = cmp x z).
Class ValueOrdOk (VT : ValueTypes) (VO : ValueOrd VT) : Prop := {
  uuid_cmp_ok : cmp_ok uuid_cmp;
  datetime_cmp_ok : cmp_ok datetime_cmp;
  decimal_cmp_ok : cmp_ok decimal_cmp;
}.

Section projections.
Context `{VT : ValueTypes} {VO : ValueOrd VT} `{IT : Itertools}.

(** The derived [Ord] of [PrismaValue]: variants in their order, then the contents. *)
Definition variant (v : PrismaValue) : nat :=
  match v with
  | PV_String _ => 0 | PV_Boolean _ => 1 | PV_Enum _ => 2 | PV_Int _ => 3 | PV_Null => 4
  | PV_Uuid _ => 5 | PV_List _ => 6 | PV_Json _ => 7 | PV_DateTime _ => 8 | PV_Float _ => 9
  end.
Definition bool_cmp (a b : bool) : comparison :=
  match a, b with false, true => Lt | true, false => Gt | _, _ => Eq end.
Fixpoint value_cmp (a b : PrismaValue) : comparison :=
  match a, b with
  | PV_String x, PV_String y => String.compare x y
  | PV_Boolean x, PV_Boolean y => bool_cmp x y
  | PV_Enum x, PV_Enum y => String.compare x y
  | PV_Int x, PV_Int y => (x ?= y)%Z
  | PV_Null, PV_Null => Eq
  | PV_Uuid x, PV_Uuid y => uuid_cmp x y
  | PV_List x, PV_List y =>
      (fix go x y := match x, y with
                     | [], [] => Eq
                     | [], _ => Lt
                     | _, [] => Gt
                     | v :: x, w :: y => match value_cmp v w with Eq => go x y | c => c end
                     end) x y
  | PV_Json x, PV_Json y => String.compare x y
  | PV_DateTime x, PV_DateTime y => datetime_cmp x y
  | PV_Float x, PV_Float y => decimal_cmp x y
  | a, b => (variant a ?= variant b)%nat
  end.
Definition is_null (v : PrismaValue) : bool := match v with PV_Null => true | _ => false end.

(** ** [coerce] (prisma_value_ext.rs) *)
Definition digit_of (c : Ascii.ascii) : option Z :=
  let n := Z.of_nat (Ascii.nat_of_ascii c) in
  if ((48 <=? n) && (n <=? 57))%Z then Some (n - 48)%Z else None.
(** The loop of [i64::from_str]: a digit more, checked for overflow. *)
Fixpoint parse_digits (sign : Z) (acc : Z) (s : string) : option Z :=
  match s with
  | EmptyString => Some acc
  | String c s =>
      d ← digit_of c;
      let acc := (acc * 10 + sign * d)%Z in
      if ((- 2 ^ 63 <=? acc) && (acc <? 2 ^ 63))%Z then parse_digits sign acc s else None
  end.
Definition parse_i64 (s : string) : option Z :=
  match s with
  | EmptyString => None
  | String "-"%char EmptyString => None
  | String "+"%char EmptyString => None
  | String "-"%char s => parse_digits (-1) 0 s
  | String "+"%char s => parse_digits 1 0 s
  | s => parse_digits 1 0 s
  end.
Definition bool_to_string (b : bool) : string := if b then "true" else "false".
Definition conversion_failure {A} (v : PrismaValue) (t : TypeIdentifier) : DomainResult A :=
  Err (DomainConversionFailure (debug_value v) (debug_type t)).
Fixpoint coerce (v : PrismaValue) (to_type : TypeIdentifier) : DomainResult PrismaValue :=
  match v, to_type with
  | PV_Null, _ => Ok v
  | PV_String _, TI_String => Ok v
  | PV_Int _, TI_Int => Ok v
  | PV_Float _, TI_Float => Ok v
  | PV_Boolean _, TI_Boolean => Ok v
  | PV_DateTime _, TI_DateTime => Ok v
  | PV_Enum _, TI_Enum _ => Ok v
  | PV_Uuid _, TI_UUID => Ok v
  | PV_Int i, TI_String => Ok (PV_String (pretty i))
  | PV_Float f, TI_String => Ok (PV_String (decimal_fmt f))
  | PV_Boolean b, TI_String => Ok (PV_String (bool_to_string b))
  | PV_DateTime dt, TI_String => Ok (PV_String (stringify_date dt))
  | PV_Enum e, TI_String => Ok (PV_String e)
  | PV_Uuid u, TI_String => Ok (PV_String (uuid_fmt u))
  | PV_String s, TI_Int =>
      match parse_i64 s with
      | Some i => Ok (PV_Int i)
      | None => conversion_failure v to_type
      end
  | PV_Float f, TI_Int => i ← unwrap "to_i64" (decimal_trunc_i64 f); Ok (PV_Int i)
  | PV_List l, typ =>
      l ← (fix go l := match l with
                       | [] => Ok []
                       | x :: l => x ← coerce x typ; l ← go l; Ok (x :: l)
                       end) l;
      Ok (PV_List l)
  | v, typ => conversion_failure v typ
  end.

(** ** [RecordProjection] *)
Definition RecordProjection : Type := list (ScalarField * PrismaValue).
Definition rp_fields (r : RecordProjection) : list ScalarField := fst <$> r.
Definition rp_values (r : RecordProjection) : list PrismaValue := snd <$> r.
Definition misses_autogen_value (r : RecordProjection) : bool := iter_any (fun p => is_null p.2) r.
Fixpoint add_autogen_value (value : PrismaValue) (r : RecordProjection) : RecordProjection * bool :=
  match r with
  | [] => ([], false)
  | (f, v) :: r =>
      if is_null v then ((f, value) :: r, true) else let '(r, b) := add_autogen_value value r in ((f, v) :: r, b)
  end.
Definition rp_try_into_value (r : RecordProjection) : DomainResult PrismaValue :=
  match head r with Some p => Ok p.2 | None => Err (DomainConversionFailure "RecordProjection" "PrismaValue") end.

(** ** [ModelProjection] *)
Definition ModelProjection : Type := list ModelField.
Section model_projection.
Context (idm : InternalDataModel).
Definition mp_names (p : ModelProjection) : list string := mf_name <$> p.
Definition mp_scalar_fields {E} (p : ModelProjection) : outcome E (list ScalarField) :=
  fs ← map_m (mf_scalar_fields idm) p; Ok (unique_by sf_name (mjoin (fs : list (list ScalarField)))).
Definition mp_db_names {E} (p : ModelProjection) : outcome E (list string) :=
  fs ← mp_scalar_fields p; Ok (sf_db_name <$> (fs : list ScalarField)).
Definition scalar_length {E} (p : ModelProjection) : outcome E nat :=
  fs ← mp_scalar_fields p; Ok (length (fs : list ScalarField)).
Definition mp_find (p : ModelProjection) (name : string) : option ModelField := iter_find (fun f => mf_name f ≟ name) p.
Fixpoint map_db_name {E} (p : ModelProjection) (name : string) : outcome E (option ScalarField) :=
  match p with
  | [] => Ok None
  | FieldScalar sf :: p => if sf_db_name sf ≟ name then Ok (Some sf) else map_db_name p name
  | FieldRelation rf :: p =>
      fs ← rf_scalar_fields idm rf;
      match iter_find (fun f => sf_db_name f ≟ name) (fs : list ScalarField) with
      | Some f => Ok (Some f)
      | None => map_db_name p name
      end
  end.
Definition type_identifiers_with_arities {E} (p : ModelProjection) : outcome E (list (TypeIdentifier * FieldArity)) :=
  fs ← mp_scalar_fields p; Ok (type_identifier_with_arity <$> (fs : list ScalarField)).
Definition mp_matches {E} (p : ModelProjection) (id : RecordProjection) : outcome E bool :=
  fs ← mp_scalar_fields p; Ok (list_eqb ScalarField_eqb fs (rp_fields id)).
Definition assimilate_pair (x : (ScalarField * PrismaValue) * ScalarField) : DomainResult (ScalarField * PrismaValue) :=
  let '((og_field, value), other_field) := x in
  if sf_type_identifier og_field ≟ sf_type_identifier other_field then Ok (other_field, value)
  else value ← coerce value (sf_type_identifier other_field); Ok (other_field, value).
Definition assimilate (p : ModelProjection) (id : RecordProjection) : DomainResult RecordProjection :=
  n ← scalar_length p;
  if n ≟ length id then fields ← mp_scalar_fields p; map_m assimilate_pair (zip id (fields : list ScalarField))
  else Err (DomainConversionFailure "record identifier" "assimilated record identifier").
Definition empty_record_projection {E} (p : ModelProjection) : outcome E RecordProjection :=
  fs ← mp_scalar_fields p; Ok ((fun f => (f, PV_Null)) <$> (fs : list ScalarField)).
Definition merge (p other : ModelProjection) : ModelProjection := unique_eq ModelField_eqb (p ++ other).
Definition union (ps : list ModelProjection) : ModelProjection := foldl merge [] ps.
Definition from_unchecked {E} (p : ModelProjection) (values : list PrismaValue) : outcome E RecordProjection :=
  fs ← mp_scalar_fields p; Ok (zip (fs : list ScalarField) values).
Definition mp_contains (p : ModelProjection) (f : ModelField) : bool :=
  match iter_find (fun g => mf_name g ≟ mf_name f) p with Some _ => true | None => false end.
Definition contains_all_db_names {E} (p : ModelProjection) (names : list string) : outcome E bool :=
  selected_db_names ← mp_db_names p;
  Ok (if Nat.ltb (length (selected_db_names : list string)) (length names) then false
      else iter_all (fun to_select => iter_any (fun n => n ≟ to_select) selected_db_names) names).
Definition split_into {E} (r : RecordProjection) (ps : list ModelProjection) : outcome E (list RecordProjection) :=
  let mapped : gmap string (ScalarField * PrismaValue) := foldl (fun m p => <[sf_name p.1 := p]> m) ∅ r in
  map_m (fun p => fs ← mp_scalar_fields p;
    map_m (fun sf => unwrap "Error splitting RecordProjection: ModelProjection doesn't match." (mapped !! sf_name sf)) fs) ps.
End model_projection.

(** ** Records (record.rs) *)
Record DbRecord : Type := mkDbRecord { rec_values : list PrismaValue; parent_id : option RecordProjection }.
Record SingleRecord : Type := mkSingleRecord { sr_record : DbRecord; sr_field_names : list string }.
Record ManyRecords : Type := mkManyRecords { records : list DbRecord; mr_field_names : list string }.
Inductive SortOrder : Type := Ascending | Descending.
#[export] Instance SortOrder_eq_dec : EqDecision SortOrder.
Proof. solve_decision. Defined.
Record OrderBy : Type := mkOrderBy { ob_field : ScalarField; sort_order : SortOrder }.
Definition Record_new (values : list PrismaValue) : DbRecord := mkDbRecord values None.
Definition SingleRecord_into_many (r : SingleRecord) : ManyRecords := mkManyRecords [sr_record r] (sr_field_names r).
Definition ManyRecords_new (field_names : list string) : ManyRecords := mkManyRecords [] field_names.
Fixpoint position {A} (p : A -> bool) (l : list A) : option nat :=
  match l with [] => None | x :: l => if p x then Some 0 else Datatypes.S <$> position p l end.
Definition get_field_value (r : DbRecord) (field_names : list string) (field : string) : DomainResult PrismaValue :=
  index ← ok_or (FieldNotFound field "Field not found in record") (position (fun n => n ≟ field) field_names);
  unwrap "index out of bounds" (rec_values r !! (index : nat)).
Definition record_projection (idm : InternalDataModel) (r : DbRecord) (field_names : list string) (p : ModelProjection) : DomainResult RecordProjection :=
  fs ← map_m (mf_scalar_fields idm) p;
  map_m (fun f => v ← get_field_value r field_names (sf_db_name f); Ok (f, v)) (mjoin (fs : list (list ScalarField))).
Definition identifying_values (idm : InternalDataModel) (r : DbRecord) (field_names : list string) (p : ModelProjection) : DomainResult (list PrismaValue) :=
  fs ← map_m (mf_scalar_fields idm) p;
  map_m (fun f => get_field_value r field_names (sf_name f)) (mjoin (fs : list (list ScalarField))).
Definition set_parent_id (p : RecordProjection) (r : DbRecord) : DbRecord := mkDbRecord (rec_values r) (Some p).
Definition push_record (r : DbRecord) (m : ManyRecords) : ManyRecords := mkManyRecords (records m ++ [r]) (mr_field_names m).
Definition reverse_records (m : ManyRecords) : ManyRecords := mkManyRecords (reverse (records m)) (mr_field_names m).
(** [sort_by] is a stable sort. *)
Fixpoint insert_sorted {A} (le : A -> A -> bool) (x : A) (l : list A) : list A :=
  match l with
  | [] => [x]
  | y :: l => if le x y then x :: y :: l else y :: insert_sorted le x l
  end.
Definition sort_by {A} (le : A -> A -> bool) (l : list A) : list A := foldr (insert_sorted le) [] l.
Definition cmp_le (c : comparison) : bool := match c with Gt => false | _ => true end.
(** The index of a name, the last one when it occurs twice. *)
Definition last_position (name : string) (names : list string) : option nat :=
  foldl (fun (m : option nat) (p : nat * string) => if p.2 ≟ name then Some p.1 else m) None (imap pair names).
(** The comparison runs, and panics on a missing name or value, when there are two records or more. *)
Definition order_by {E} (ob : OrderBy) (m : ManyRecords) : outcome E ManyRecords :=
  match records m with
  | [] | [_] => Ok m
  | rs =>
      index ← unwrap "no entry found for key" (last_position (sf_db_name (ob_field ob)) (mr_field_names m));
      keyed ← map_m (fun r => v ← unwrap "index out of bounds" (rec_values r !! (index : nat)); Ok (v, r)) rs;
      let le (a b : PrismaValue * DbRecord) :=
        match sort_order ob with
        | Ascending => cmp_le (value_cmp a.1 b.1)
        | Descending => cmp_le (value_cmp b.1 a.1)
        end in
      Ok (mkManyRecords (snd <$> sort_by le keyed) (mr_field_names m))
  end.
Definition projections (idm : InternalDataModel) (m : ManyRecords) (p : ModelProjection) : DomainResult (list RecordProjection) :=
  map_m (fun r => record_projection idm r (mr_field_names m) p) (records m).
Definition as_pairs (m : ManyRecords) : list (list (string * PrismaValue)) :=
  (fun r => zip_with (fun v n => (n, v)) (rec_values r) (mr_field_names m)) <$> records m.
End projections.
