(* ===== verification/Filters.v ===== *)
(** * Filters and query arguments (query-engine/connectors/query-connector/src)

    The filters of a query, their split into batches when a condition lists too
    many values, and the arguments of a query for many records. *)
From S2P Require Import Prelude SqlSchema Dml Converter Models Projections.

Section filters.
Context `{VT : ValueTypes} {VO : ValueOrd VT} `{IT : Itertools}.
(** [BATCH_SIZE], from the environment or 5000. *)
Context (batch_size : nat).

(** ** Conditions (filter/scalar.rs, filter/list.rs, filter/relation.rs) *)
Inductive ScalarProjection : Type :=
| ProjSingle (f : ScalarField)
| ProjCompound (fs : list ScalarField).
Inductive ScalarCondition : Type :=
| CondEquals (v : PrismaValue)
| CondNotEquals (v : PrismaValue)
| CondContains (v : PrismaValue)
| CondNotContains (v : PrismaValue)
| CondStartsWith (v : PrismaValue)
| CondNotStartsWith (v : PrismaValue)
| CondEndsWith (v : PrismaValue)
| CondNotEndsWith (v : PrismaValue)
| CondLessThan (v : PrismaValue)
| CondLessThanOrEquals (v : PrismaValue)
| CondGreaterThan (v : PrismaValue)
| CondGreaterThanOrEquals (v : PrismaValue)
| CondIn (vs : list PrismaValue)
| CondNotIn (vs : list PrismaValue).
Record ScalarFilter : Type := mkScalarFilter { flt_projection : ScalarProjection; flt_condition : ScalarCondition }.
Inductive ScalarListCondition : Type :=
| ListContains (v : PrismaValue)
| ListContainsEvery (vs : list PrismaValue)
| ListContainsSome (vs : list PrismaValue)
| ListContainsNone.
Record ScalarListFilter : Type := mkScalarListFilter { slf_field : ScalarField; slf_condition : ScalarListCondition }.
Inductive RelationCondition : Type := EveryRelatedRecord | AtLeastOneRelatedRecord | NoRelatedRecord | ToOneRelatedRecord.
Definition invert_of_subselect (c : RelationCondition) : bool := match c with EveryRelatedRecord => true | _ => false end.
Inductive Filter : Type :=
| FAnd (l : list Filter)
| FOr (l : list Filter)
| FNot (l : list Filter)
| FScalar (f : ScalarFilter)
| FScalarList (f : ScalarListFilter)
| FOneRelationIsNull (field : RelationField)
| FRelation (field : RelationField) (nested_filter : Filter) (condition : RelationCondition)
| FNodeSubscription
| FBoolFilter (b : bool)
| FEmpty.

(** ** Comparisons ([ScalarCompare], [RelationCompare], [ScalarListCompare]) *)
Definition sf_compare (f : ScalarField) (c : ScalarCondition) : Filter := FScalar (mkScalarFilter (ProjSingle f) c).
Definition is_in (f : ScalarField) (vs : list PrismaValue) : Filter := sf_compare f (CondIn vs).
Definition not_in (f : ScalarField) (vs : list PrismaValue) : Filter := sf_compare f (CondNotIn vs).
Definition equals (f : ScalarField) (v : PrismaValue) : Filter := sf_compare f (CondEquals v).
Definition not_equals (f : ScalarField) (v : PrismaValue) : Filter := sf_compare f (CondNotEquals v).
Definition contains (f : ScalarField) (v : PrismaValue) : Filter := sf_compare f (CondContains v).
Definition not_contains (f : ScalarField) (v : PrismaValue) : Filter := sf_compare f (CondNotContains v).
Definition starts_with (f : ScalarField) (v : PrismaValue) : Filter := sf_compare f (CondStartsWith v).
Definition not_starts_with (f : ScalarField) (v : PrismaValue) : Filter := sf_compare f (CondNotStartsWith v).
Definition ends_with (f : ScalarField) (v : PrismaValue) : Filter := sf_compare f (CondEndsWith v).
Definition not_ends_with (f : ScalarField) (v : PrismaValue) : Filter := sf_compare f (CondNotEndsWith v).
Definition less_than (f : ScalarField) (v : PrismaValue) : Filter := sf_compare f (CondLessThan v).
Definition less_than_or_equals (f : ScalarField) (v : PrismaValue) : Filter := sf_compare f (CondLessThanOrEquals v).
Definition greater_than (f : ScalarField) (v : PrismaValue) : Filter := sf_compare f (CondGreaterThan v).
Definition greater_than_or_equals (f : ScalarField) (v : PrismaValue) : Filter := sf_compare f (CondGreaterThanOrEquals v).
(** The same on a projection, over all of its scalar fields. *)
Definition mp_compare {E} (idm : InternalDataModel) (p : ModelProjection) (c : ScalarCondition) : outcome E Filter :=
  fs ← mp_scalar_fields idm p; Ok (FScalar (mkScalarFilter (ProjCompound fs) c)).
Definition mp_is_in {E} (idm : InternalDataModel) (p : ModelProjection) (vs : list PrismaValue) : outcome E Filter :=
  mp_compare idm p (CondIn vs).
Definition mp_equals {E} (idm : InternalDataModel) (p : ModelProjection) (v : PrismaValue) : outcome E Filter :=
  mp_compare idm p (CondEquals v).
Definition every_related (rf : RelationField) (f : Filter) : Filter := FRelation rf f EveryRelatedRecord.
Definition at_least_one_related (rf : RelationField) (f : Filter) : Filter := FRelation rf f AtLeastOneRelatedRecord.
Definition to_one_related (rf : RelationField) (f : Filter) : Filter := FRelation rf f ToOneRelatedRecord.
Definition no_related (rf : RelationField) (f : Filter) : Filter := FRelation rf f NoRelatedRecord.
Definition one_relation_is_null (rf : RelationField) : Filter := FOneRelationIsNull rf.
Definition contains_element (f : ScalarField) (v : PrismaValue) : Filter := FScalarList (mkScalarListFilter f (ListContains v)).
Definition contains_none (f : ScalarField) : Filter := FScalarList (mkScalarListFilter f ListContainsNone).
(** filter/id_filter.rs *)
Definition rp_filter (r : RecordProjection) : Filter := FAnd ((fun p => equals p.1 p.2) <$> r).
Definition rps_filter (rs : list RecordProjection) : Filter := FOr (foldl (fun acc id => acc ++ [rp_filter id]) [] rs).
Definition filter_size (f : Filter) : nat :=
  match f with FAnd v | FOr v | FNot v => length v | FEmpty => 0 | _ => 1 end.

(** ** Batches *)
Definition sf_len (f : ScalarFilter) : nat :=
  match flt_condition f with CondIn l | CondNotIn l => length l | _ => 1 end.
Definition sf_can_batch (f : ScalarFilter) : bool := Nat.ltb batch_size (sf_len f).
(** A [BTreeSet] as the sorted list of its elements; an equal element is not inserted again. *)
Fixpoint btree_insert (x : PrismaValue) (l : list PrismaValue) : list PrismaValue :=
  match l with
  | [] => [x]
  | y :: l' =>
      match value_cmp x y with
      | Lt => x :: y :: l'
      | Eq => y :: l'
      | Gt => y :: btree_insert x l'
      end
  end.
Definition btree_set (l : list PrismaValue) : list PrismaValue := foldl (fun s x => btree_insert x s) [] l.
(** The loop over the set: [finished] and then [current] are the batches so far. *)
Fixpoint fill_batches (idx : nat) (finished : list (list PrismaValue)) (current : list PrismaValue) (l : list PrismaValue) :
    list (list PrismaValue) :=
  match l with
  | [] => finished ++ [current]
  | item :: l =>
      if negb (Nat.eqb idx 0) && Nat.eqb (idx mod batch_size) 0
      then fill_batches (Datatypes.S idx) (finished ++ [current]) [item] l
      else fill_batches (Datatypes.S idx) finished (current ++ [item]) l
  end.
Definition batch_values {E} (l : list PrismaValue) : outcome E (list (list PrismaValue)) :=
  if Nat.eqb batch_size 0 then Panic "attempt to calculate the remainder with a divisor of zero"
  else Ok (fill_batches 0 [] [] (btree_set l)).
Definition sf_batched {E} (f : ScalarFilter) : outcome E (list ScalarFilter) :=
  match flt_condition f with
  | CondIn l => bs ← batch_values l; Ok ((fun b => mkScalarFilter (flt_projection f) (CondIn b)) <$> (bs : list (list PrismaValue)))
  | CondNotIn l => bs ← batch_values l; Ok ((fun b => mkScalarFilter (flt_projection f) (CondNotIn b)) <$> (bs : list (list PrismaValue)))
  | _ => Ok [f]
  end.
Fixpoint filter_can_batch (f : Filter) : bool :=
  match f with
  | FScalar sf => sf_can_batch sf
  | FAnd l => existsb filter_can_batch l
  | FOr l => existsb filter_can_batch l
  | _ => false
  end.
Definition split_step (s : option ScalarFilter * list Filter) (f : Filter) : option ScalarFilter * list Filter :=
  let '(longest, other) := s in
  match f, longest with
  | FScalar sf, Some prev => if Nat.ltb (sf_len prev) (sf_len sf) then (Some sf, other ++ [FScalar prev]) else (longest, other ++ [f])
  | FScalar sf, None => if sf_can_batch sf then (Some sf, other) else (longest, other ++ [f])
  | _, _ => (longest, other ++ [f])
  end.
(** The filters are popped from the end. *)
Definition split_longest (filters : list Filter) : option ScalarFilter * list Filter := foldl split_step (None, []) (reverse filters).
Definition batch {E} (filters : list Filter) (f : list Filter -> Filter) : outcome E (list Filter) :=
  let '(longest, other) := split_longest filters in
  match longest with
  | Some filter => batched ← sf_batched filter; Ok ((fun b => f (other ++ [FScalar b])) <$> (batched : list ScalarFilter))
  | None => Ok [f other]
  end.
Definition filter_batched {E} (self : Filter) : outcome E (list Filter) :=
  match self with
  | FScalar sf => bs ← sf_batched sf; Ok (FScalar <$> (bs : list ScalarFilter))
  | FAnd filters => batch filters FAnd
  | FOr filters => batch filters FOr
  | _ => Ok [self]
  end.

(** ** Query arguments (query_arguments.rs) *)
Record QueryArguments : Type := mkQueryArguments {
  qa_cursor : option RecordProjection;
  qa_take : option Z;
  qa_skip : option Z;
  qa_filter : option Filter;
  qa_order_by : option OrderBy;
}.
Record OrderDirections : Type := mkOrderDirections {
  needs_implicit_id_ordering : bool;
  needs_to_be_reverse_order : bool;
  primary_order_by : option OrderBy;
}.
Definition QueryArguments_from (f : Filter) : QueryArguments := mkQueryArguments None None None (Some f) None.
Definition needs_reversed_order (a : QueryArguments) : bool := match qa_take a with Some t => (t <? 0)%Z | None => false end.
Definition is_some {A} (o : option A) : bool := match o with Some _ => true | None => false end.
Definition needs_implicit_ordering (a : QueryArguments) : bool :=
  is_some (qa_skip a) || is_some (qa_cursor a) || is_some (qa_take a) || is_some (qa_order_by a).
Definition ordering_directions (a : QueryArguments) : OrderDirections :=
  mkOrderDirections (needs_implicit_ordering a) (needs_reversed_order a) (qa_order_by a).
(** i64 arithmetic wraps around in a release build. *)
Definition wrap64 (z : Z) : Z := ((z + 2 ^ 63) mod 2 ^ 64 - 2 ^ 63)%Z.
Definition take_abs (a : QueryArguments) : option Z := (fun t => if (t <? 0)%Z then wrap64 (t * -1) else t) <$> qa_take a.
Definition qa_can_batch (a : QueryArguments) : bool := match qa_filter a with Some f => filter_can_batch f | None => false end.
Definition set_filter (f : Filter) (a : QueryArguments) : QueryArguments :=
  mkQueryArguments (qa_cursor a) (qa_take a) (qa_skip a) (Some f) (qa_order_by a).
Definition qa_batched {E} (a : QueryArguments) : outcome E (list QueryArguments) :=
  match qa_filter a with
  | Some filter => fs ← filter_batched filter; Ok ((fun f => set_filter f a) <$> (fs : list Filter))
  | None => Ok [a]
  end.
End filters.
