(* ===== verification/ValueOrder.v ===== *)
(** * The order of values is total

    The derived [Ord] of [PrismaValue] is an order when those of the uuids, dates
    and decimals are; sets of values keep one of each, in order. *)
From stdpp Require Import sorting.
From S2P Require Import Prelude SqlSchema Dml Converter Models Projections Filters.

Lemma string_cmp_ok : cmp_ok String.compare.
Proof.
  assert (Hlt : forall x y z, String.compare x y = Lt -> String.compare y z = Lt -> String.compare x z = Lt).
  { induction x as [|a x IH]; intros [|b y] [|c z]; try done. cbn. intros Hxy Hyz.
    destruct (Ascii.compare a b) eqn:Eab; try done; destruct (Ascii.compare b c) eqn:Ebc; try done.
    - apply Ascii.compare_eq_iff in Eab as ->. rewrite Ebc. by eapply IH.
    - apply Ascii.compare_eq_iff in Eab as ->. by rewrite Ebc.
    - apply Ascii.compare_eq_iff in Ebc as ->. by rewrite Eab.
    - unfold Ascii.compare in *. rewrite N.compare_lt_iff in *.
      assert (Hac : (Ascii.N_of_ascii a < Ascii.N_of_ascii c)%N) by lia. apply N.compare_lt_iff in Hac. by rewrite Hac. }
  assert (Heq : forall x y, String.compare x y = Eq -> x = y) by (intros; by apply String.compare_eq_iff).
  assert (Hrefl : forall x, String.compare x x = Eq).
  { induction x as [|a x IH]; [done|]. cbn. unfold Ascii.compare. by rewrite N.compare_refl. }
  split_and!; [done|by intros; apply String.compare_antisym| |by intros x y z <-%Heq].
  intros [] x y z Hxy Hyz; [by apply Heq in Hxy as ->; apply Heq in Hyz as ->|by eapply Hlt|].
  rewrite (String.compare_antisym x z), (String.compare_antisym x y) in *. rewrite (String.compare_antisym y z) in Hyz.
  destruct (String.compare y x) eqn:E1; try done. destruct (String.compare z y) eqn:E2; try done. by rewrite (Hlt z y x).
Qed.
Lemma Z_cmp_ok : cmp_ok Z.compare.
Proof.
  split_and!.
  - apply Z.compare_refl.
  - intros x y. apply Z.compare_antisym.
  - intros [] x y z; rewrite ?Z.compare_eq_iff, ?Z.compare_lt_iff, ?Z.compare_gt_iff; lia.
  - by intros x y z ->%Z.compare_eq_iff.
Qed.
Lemma bool_cmp_ok : cmp_ok bool_cmp.
Proof. split_and!; [by intros []|by intros [] []|by intros [] [] [] []|by intros [] [] []]. Qed.

(** ** Lexicographic order *)
Section lex.
Context {A : Type} (cmp : A -> A -> comparison).
Fixpoint lex (x y : list A) : comparison :=
  match x, y with
  | [], [] => Eq
  | [], _ => Lt
  | _, [] => Gt
  | v :: x, w :: y => match cmp v w with Eq => lex x y | c => c end
  end.
Lemma lex_antisym x : Forall (fun v => forall w, cmp v w = CompOpp (cmp w v)) x -> forall y, lex x y = CompOpp (lex y x).
Proof.
  induction 1 as [|v x Hv _ IH]; intros [|w y]; try done. cbn. rewrite Hv. destruct (cmp w v); [apply IH|done..].
Qed.
Lemma lex_eq x : Forall (fun v => forall w u, cmp v w = Eq -> cmp w u = cmp v u) x -> forall y z, lex x y = Eq -> lex y z = lex x z.
Proof.
  induction 1 as [|v x Hv _ IH]; intros [|w y] z; try done. cbn [lex]. destruct (cmp v w) eqn:E; try done. intros Hl.
  destruct z as [|u z]; [done|]. cbn [lex]. rewrite (Hv w u E). destruct (cmp v u); [by apply IH|done..].
Qed.
Lemma lex_lt x : (forall v w u, cmp v w = Eq -> cmp w u = cmp v u) -> (forall v w, cmp v w = CompOpp (cmp w v)) ->
  Forall (fun v => forall w u, cmp v w = Lt -> cmp w u = Lt -> cmp v u = Lt) x -> forall y z, lex x y = Lt -> lex y z = Lt -> lex x z = Lt.
Proof.
  intros Heq Hanti. induction 1 as [|v x Hv _ IH]; intros [|w y] [|u z]; try done. cbn [lex].
  destruct (cmp v w) eqn:E1; try done.
  - rewrite (Heq v w u E1). destruct (cmp v u); [apply IH|done..].
  - intros _. destruct (cmp w u) eqn:E2; try done; intros _; [|by rewrite (Hv w u)].
    rewrite (Hanti v u), (Hanti v w) in *. rewrite <-(Heq w u v E2) in E1. by destruct (cmp u v).
Qed.
End lex.

(** ** Values *)
Section value_order.
Context `{VT : ValueTypes} {VO : ValueOrd VT} (HVO : ValueOrdOk VT VO).
Lemma value_nested_ind (P : PrismaValue -> Prop) :
  (forall v, (match v with PV_List l => Forall P l | _ => True end) -> P v) -> forall v, P v.
Proof.
  intros HP. fix IH 1. intros v. apply HP. destruct v; try exact I. induction l as [|x l IHl]; constructor; [apply IH|exact IHl].
Qed.
Lemma value_cmp_list x y : value_cmp (PV_List x) (PV_List y) = lex value_cmp x y.
Proof. reflexivity. Qed.
Lemma value_cmp_antisym v : forall w, value_cmp v w = CompOpp (value_cmp w v).
Proof.
  pose proof string_cmp_ok as (_ & Hs & _). pose proof Z_cmp_ok as (_ & Hz & _). pose proof bool_cmp_ok as (_ & Hb & _).
  destruct HVO as [(_ & Hu & _) (_ & Hd & _) (_ & Hf & _)].
  induction v as [v IH] using value_nested_ind; intros w; destruct v, w; try first [reflexivity|apply Hs|apply Hz|apply Hb|apply Hu|apply Hd|apply Hf].
  rewrite !value_cmp_list. by apply lex_antisym.
Qed.
Lemma value_cmp_eq v : forall w u, value_cmp v w = Eq -> value_cmp w u = value_cmp v u.
Proof.
  pose proof string_cmp_ok as (_ & _ & _ & Hs). pose proof Z_cmp_ok as (_ & _ & _ & Hz). pose proof bool_cmp_ok as (_ & _ & _ & Hb).
  destruct HVO as [(_ & _ & _ & Hu) (_ & _ & _ & Hd) (_ & _ & _ & Hf)].
  induction v as [v IH] using value_nested_ind; intros w u Hvw; destruct v, w; try discriminate Hvw; destruct u;
    try first [reflexivity|by apply Hs|by apply Hz|by apply Hb|by apply Hu|by apply Hd|by apply Hf].
  rewrite !value_cmp_list in *. by apply lex_eq.
Qed.
Lemma value_cmp_refl v : value_cmp v v = Eq.
Proof. pose proof (value_cmp_antisym v v) as H. by destruct (value_cmp v v). Qed.
Lemma value_cmp_lt v : forall w u, value_cmp v w = Lt -> value_cmp w u = Lt -> value_cmp v u = Lt.
Proof.
  pose proof string_cmp_ok as (_ & _ & Hs & _). pose proof Z_cmp_ok as (_ & _ & Hz & _). pose proof bool_cmp_ok as (_ & _ & Hb & _).
  destruct HVO as [(_ & _ & Hu & _) (_ & _ & Hd & _) (_ & _ & Hf & _)].
  induction v as [v IH] using value_nested_ind; intros w u Hvw Hwu; destruct v, w; try discriminate Hvw; destruct u; try discriminate Hwu;
    try first [reflexivity|by eapply Hs|by eapply Hz|by eapply Hb|by eapply Hu|by eapply Hd|by eapply Hf].
  rewrite !value_cmp_list in *. eapply lex_lt; [apply value_cmp_eq|apply value_cmp_antisym|exact IH|exact Hvw|exact Hwu].
Qed.

(** ** [BTreeSet] *)
Definition increasing (l : list PrismaValue) : Prop := StronglySorted (fun x y => value_cmp x y = Lt) l.
Lemma btree_insert_elem x l y : y ∈ btree_insert x l -> y = x \/ y ∈ l.
Proof.
  induction l as [|z l IH]; cbn; [by intros ->%list_elem_of_singleton; left|].
  destruct (value_cmp x z); rewrite !elem_of_cons; naive_solver.
Qed.
Lemma btree_insert_keeps x l : (forall y, y ∈ l -> y ∈ btree_insert x l) /\ exists y, y ∈ btree_insert x l /\ value_cmp x y = Eq.
Proof.
  induction l as [|z l [IH1 (y & IH2 & IH3)]]; cbn; [split; [by intros ? ?%elem_of_nil|]; exists x; split; [constructor|apply value_cmp_refl]|].
  destruct (value_cmp x z) eqn:E; split.
  - done.
  - exists z. split; [constructor|done].
  - intros y' Hy. by constructor.
  - exists x. split; [constructor|apply value_cmp_refl].
  - intros y' [->|Hy]%elem_of_cons; constructor; by apply IH1.
  - exists y. split; [by constructor|done].
Qed.
Lemma btree_insert_increasing x l : increasing l -> increasing (btree_insert x l).
Proof.
  induction 1 as [|z l Hs IH Hz]; [by repeat constructor|]. cbn. destruct (value_cmp x z) eqn:E.
  - by constructor.
  - constructor; [by constructor|]. constructor; [done|]. eapply Forall_impl; [exact Hz|]. intros y Hy. cbn in Hy. by eapply value_cmp_lt.
  - constructor; [done|]. apply Forall_forall. intros y [->|Hy]%btree_insert_elem.
    + rewrite value_cmp_antisym, E. done.
    + rewrite Forall_forall in Hz. by apply Hz.
Qed.
Lemma btree_fold s l : increasing s ->
  increasing (foldl (fun s x => btree_insert x s) s l) /\
  (forall y, y ∈ foldl (fun s x => btree_insert x s) s l -> y ∈ s \/ y ∈ l) /\
  (forall x, x ∈ s -> x ∈ foldl (fun s x => btree_insert x s) s l) /\
  (forall x, x ∈ l -> exists y, y ∈ foldl (fun s x => btree_insert x s) s l /\ value_cmp x y = Eq).
Proof.
  revert s. induction l as [|x l IH]; intros s Hs; cbn; [split_and!; [done|auto..|by intros ? ?%elem_of_nil]|].
  destruct (IH (btree_insert x s)) as (H1 & H2 & H3 & H4); [by apply btree_insert_increasing|].
  destruct (btree_insert_keeps x s) as [Hk (y & Hy & He)]. split_and!; [done|..].
  - intros z Hz. rewrite elem_of_cons. apply H2 in Hz as [Hz|]; [|auto]. apply btree_insert_elem in Hz as [->|]; auto.
  - intros z Hz. by apply H3, Hk.
  - intros z [->|Hz]%elem_of_cons; [|by apply H4]. exists y. split; [by apply H3|done].
Qed.
Lemma btree_set_spec l : increasing (btree_set l) /\ (forall y, y ∈ btree_set l -> y ∈ l) /\
  (forall x, x ∈ l -> exists y, y ∈ btree_set l /\ value_cmp x y = Eq).
Proof.
  destruct (btree_fold [] l) as (H1 & H2 & _ & H3); [constructor|]. split_and!; [done| |done].
  intros y Hy. apply H2 in Hy as [Hy|]; [by apply elem_of_nil in Hy|done].
Qed.
End value_order.

(** * Batched queries return what the query returns

    When the batched condition is an [In] that every result must satisfy, the
    results of the batches are together those of the query, each record once. *)
(** ** What filters mean

    A database says which of its rows match a filter: all filters of an [And],
    one of an [Or], and a row matches an [In] when its columns equal one of the
    values. Values that the engine takes for equal behave the same, and a row
    equals one value only (a binary collation). *)
Class Matching `{VT : ValueTypes} (Row : Type) : Type := {
  holds : Filter -> Row -> bool;
  eq_holds : ScalarProjection -> PrismaValue -> Row -> bool;
  ne_holds : ScalarProjection -> PrismaValue -> Row -> bool;
}.
Class MatchingOk `{VT : ValueTypes} {VO : ValueOrd VT} {Row : Type} (M : Matching Row) : Prop := {
  holds_and : forall l r, holds (FAnd l) r = forallb (fun f => holds f r) l;
  holds_or : forall l r, holds (FOr l) r = existsb (fun f => holds f r) l;
  holds_in : forall p vs r, holds (FScalar (mkScalarFilter p (CondIn vs))) r = existsb (fun v => eq_holds p v r) vs;
  holds_not_in : forall p vs r, holds (FScalar (mkScalarFilter p (CondNotIn vs))) r = forallb (fun v => ne_holds p v r) vs;
  eq_respects : forall p v w r, value_cmp v w = Eq -> eq_holds p v r = eq_holds p w r;
  eq_unique : forall p v w r, eq_holds p v r = true -> eq_holds p w r = true -> value_cmp v w = Eq;
}.

(** ** Counting *)
Definition count {A} (q : A -> bool) (l : list A) : nat := length (iter_filter q l).
Lemma count_cons {A} (q : A -> bool) x l : count q (x :: l) = (if q x then 1 else 0) + count q l.
Proof. unfold count. cbn. by destruct (q x). Qed.
Lemma count_app {A} (q : A -> bool) l k : count q (l ++ k) = count q l + count q k.
Proof. induction l as [|x l IH]; [done|]. cbn [app]. rewrite !count_cons, IH. lia. Qed.
Lemma count_existsb {A} (q : A -> bool) l : count q l <= 1 -> count q l = if existsb q l then 1 else 0.
Proof. induction l as [|x l IH]; [done|]. rewrite count_cons. cbn. destruct (q x); cbn; lia. Qed.
Lemma count_batches {A} (q : A -> bool) (bs : list (list A)) : count q (mjoin bs) <= 1 ->
  count (existsb q) bs = if existsb q (mjoin bs) then 1 else 0.
Proof.
  induction bs as [|b bs IH]; [done|]. change (mjoin (b :: bs)) with (b ++ mjoin bs). rewrite count_app, count_cons. intros Hle.
  rewrite IH by lia. rewrite existsb_app. destruct (existsb q b) eqn:Eb, (existsb q (mjoin bs)) eqn:Ebs; cbn; try done.
  rewrite !count_existsb in Hle by lia. rewrite Eb, Ebs in Hle. lia.
Qed.
(** The results of queries that each row matches as often as it should. *)
Lemma results_permutation {A Row} (gs : list A) (m : A -> Row -> bool) (f : Row -> bool) (rows : list Row) :
  (forall r, r ∈ rows -> count (fun g => m g r) gs = if f r then 1 else 0) ->
  mjoin ((fun g => iter_filter (m g) rows) <$> gs) ≡ₚ iter_filter f rows.
Proof.
  induction rows as [|r rows IH]; intros Hc.
  - cbn. clear. induction gs as [|g gs IH]; [done|]. exact IH.
  - assert (Hr : mjoin ((fun g => iter_filter (m g) (r :: rows)) <$> gs) ≡ₚ
      replicate (count (fun g => m g r) gs) r ++ mjoin ((fun g => iter_filter (m g) rows) <$> gs)).
    { clear. induction gs as [|g gs IH]; [done|]. rewrite !fmap_cons, count_cons. cbn [mjoin list_join iter_filter List.filter].
      destruct (m g r); cbn; rewrite IH; [|by rewrite !app_assoc, (Permutation_app_comm _ (iter_filter _ _))].
      constructor. by rewrite !app_assoc, (Permutation_app_comm _ (iter_filter _ _)). }
    rewrite Hr, (Hc r), IH by (constructor || (intros; apply Hc; by constructor)). cbn. by destruct (f r).
Qed.

Section batches.
Context `{VT : ValueTypes} {VO : ValueOrd VT} (HVO : ValueOrdOk VT VO) {Row : Type} {M : Matching Row} (HM : MatchingOk M).
Context (batch_size : nat) (Hsize : batch_size <> 0).

Lemma fill_batches_join idx finished current l : mjoin (fill_batches batch_size idx finished current l) = mjoin finished ++ current ++ l.
Proof.
  revert idx finished current. induction l as [|x l IH]; intros idx finished current; cbn [fill_batches].
  - rewrite join_app. cbn. by rewrite !app_nil_r.
  - destruct (_ && _); rewrite IH; [rewrite join_app; cbn; by rewrite app_nil_r, <-!app_assoc|by rewrite <-!app_assoc].
Qed.
Lemma increasing_count p r l : increasing l -> count (fun v => eq_holds p v r) l <= 1.
Proof.
  induction 1 as [|x l Hs IH Hx]; [by cbn; lia|]. rewrite count_cons. destruct (eq_holds p x r) eqn:E; [|lia].
  enough (count (fun v => eq_holds p v r) l = 0) by lia. unfold count. rewrite iter_filter_none; [done|].
  intros y Hy. destruct (eq_holds p y r) eqn:Ey; [|done]. rewrite Forall_forall in Hx.
  pose proof (Hx y Hy) as Hlt. by rewrite (eq_unique p x y r E Ey) in Hlt.
Qed.
Lemma existsb_btree p r l : existsb (fun v => eq_holds p v r) (btree_set l) = existsb (fun v => eq_holds p v r) l.
Proof.
  destruct (btree_set_spec HVO l) as (_ & H1 & H2). apply eq_bool_prop_intro. rewrite !Is_true_true, !iter_any_spec. split.
  - intros (y & Hy & He). exists y. split; [by apply H1|done].
  - intros (x & Hx & He). destruct (H2 x Hx) as (y & Hy & Hc). exists y. split; [done|]. by rewrite <-(eq_respects p x y r Hc).
Qed.
Lemma batch_values_ok {E} l : exists bs, batch_values (E := E) batch_size l = Ok bs /\ mjoin bs = btree_set l.
Proof.
  unfold batch_values. destruct (Nat.eqb_spec batch_size 0); [done|]. eexists. split; [done|]. by rewrite fill_batches_join.
Qed.

(** ** Filters that can be split *)
Definition not_not_in (f : ScalarFilter) : bool := match flt_condition f with CondNotIn _ => false | _ => true end.
Definition splittable (f : Filter) : bool :=
  match f with
  | FScalar sf => not_not_in sf
  | FAnd l => forallb (fun g => match g with FScalar sf => negb (sf_can_batch batch_size sf) || not_not_in sf | _ => true end) l
  | FOr l => forallb (fun g => match g with FScalar sf => negb (sf_can_batch batch_size sf) | _ => true end) l
  | _ => true
  end.
Definition sf_holds (f : ScalarFilter) (r : Row) : bool := holds (FScalar f) r.
Lemma sf_batched_ok {E} f : not_not_in f = true ->
  exists fs, sf_batched (E := E) batch_size f = Ok fs /\ forall r, count (fun g => sf_holds g r) fs = if sf_holds f r then 1 else 0.
Proof.
  intros Hn. destruct f as [p c]. unfold sf_batched; cbn [flt_condition flt_projection].
  destruct c as [v|v|v|v|v|v|v|v|v|v|v|v|l|l]; try discriminate Hn; try (eexists; split; [reflexivity|]; intros r; unfold count; cbn; by destruct (sf_holds _ r)).
  destruct (batch_values_ok (E := E) l) as (bs & -> & Hbs). cbn. eexists. split; [done|]. intros r. unfold sf_holds.
  rewrite holds_in, <-existsb_btree, <-Hbs. rewrite <-count_batches by (rewrite Hbs; apply increasing_count, btree_set_spec; done).
  unfold count. rewrite <-(length_map (fun b => mkScalarFilter p (CondIn b))). f_equal. clear Hbs.
  induction bs as [|b bs IH]; [done|]. cbn. rewrite holds_in. destruct (existsb _ b); cbn; by rewrite IH.
Qed.
Definition opt_list {A} (o : option A) : list A := match o with Some x => [x] | None => [] end.
Definition long (o : option ScalarFilter) : Prop := forall sf, o = Some sf -> sf_can_batch batch_size sf = true.
Lemma split_step_ok lo other f lo' other' : split_step batch_size (lo, other) f = (lo', other') -> long lo ->
  long lo' /\ other' ++ (FScalar <$> opt_list lo') ≡ₚ (other ++ (FScalar <$> opt_list lo)) ++ [f].
Proof.
  unfold split_step. intros Hs Hlo.
  destruct f; try (injection Hs as <- <-; split; [done|]; rewrite <-!app_assoc; apply Permutation_app_head, Permutation_app_comm).
  destruct lo as [prev|].
  - destruct (Nat.ltb (sf_len prev) (sf_len f)) eqn:E; injection Hs as <- <-.
    + split; [|cbn; by rewrite <-!app_assoc]. intros sf [= <-]. specialize (Hlo prev eq_refl). unfold sf_can_batch in *.
      apply Nat.ltb_lt in Hlo, E. apply Nat.ltb_lt. lia.
    + split; [done|]. rewrite <-!app_assoc. apply Permutation_app_head, Permutation_app_comm.
  - destruct (sf_can_batch batch_size f) eqn:E; injection Hs as <- <-.
    + split; [by intros sf [= <-]|]. cbn. by rewrite app_nil_r.
    + split; [done|]. cbn. by rewrite !app_nil_r.
Qed.
Lemma split_longest_ok l lo other : split_longest batch_size l = (lo, other) -> long lo /\ other ++ (FScalar <$> opt_list lo) ≡ₚ l.
Proof.
  unfold split_longest.
  assert (Hgen : forall k s lo other, long s.1 -> foldl (split_step batch_size) s k = (lo, other) ->
    long lo /\ other ++ (FScalar <$> opt_list lo) ≡ₚ (s.2 ++ (FScalar <$> opt_list s.1)) ++ k).
  { clear lo other. induction k as [|f k IH]; intros [lo0 other0] lo other Hlong Hf; cbn [foldl fst snd] in *.
    - injection Hf as <- <-. split; [done|]. by rewrite app_nil_r.
    - destruct (split_step batch_size (lo0, other0) f) as [lo1 other1] eqn:Es in Hf. destruct (split_step_ok _ _ _ _ _ Es Hlong) as [H1 H2].
      destruct (IH (lo1, other1) lo other H1 Hf) as [H3 H4]. split; [done|]. rewrite H4. cbn. by rewrite H2, <-app_assoc. }
  intros Hf. apply (Hgen (reverse l) (None, [])) in Hf as [H1 H2]; [|done]. split; [done|]. rewrite H2. cbn. apply reverse_Permutation.
Qed.
Lemma forallb_perm {A} (p : A -> bool) l k : l ≡ₚ k -> forallb p l = forallb p k.
Proof. induction 1; cbn; [done|congruence|by rewrite !andb_assoc, (andb_comm (p y))|congruence]. Qed.
Lemma existsb_perm {A} (p : A -> bool) l k : l ≡ₚ k -> existsb p l = existsb p k.
Proof. induction 1; cbn; [done|congruence|by rewrite !orb_assoc, (orb_comm (p y))|congruence]. Qed.
Lemma count_and l (fs : list ScalarFilter) r :
  count (fun g => holds g r) ((fun b => FAnd (l ++ [FScalar b])) <$> fs) =
  if forallb (fun f => holds f r) l then count (fun g => sf_holds g r) fs else 0.
Proof.
  induction fs as [|f fs IH]; [by destruct (forallb _ l)|]. rewrite fmap_cons, !count_cons, IH, holds_and, forallb_app. cbn.
  unfold sf_holds. destruct (forallb _ l); [by rewrite andb_true_r|done].
Qed.
Lemma filter_batched_ok {E} f : splittable f = true ->
  exists fs, filter_batched (E := E) batch_size f = Ok fs /\ forall r, count (fun g => holds g r) fs = if holds f r then 1 else 0.
Proof.
  assert (Hone : forall g, (forall r, holds g r = holds f r) -> forall r, count (fun g => holds g r) [g] = if holds f r then 1 else 0).
  { intros g Hg r. unfold count. cbn. rewrite Hg. by destruct (holds f r). }
  intros Hs. unfold filter_batched. destruct f as [l|l|l|sf|sf|rf|rf g c| |b|]; try (eexists; split; [done|]; by apply Hone).
  - unfold batch. destruct (split_longest batch_size l) as [lo other] eqn:El. destruct (split_longest_ok l lo other El) as [Hlong Hperm].
    destruct lo as [sf|]; cbn in Hperm.
    + assert (Hin : FScalar sf ∈ l) by (rewrite <-Hperm, elem_of_app; right; constructor).
      pose proof (forallb_elem _ _ Hs (FScalar sf) Hin) as Hn. cbv beta iota in Hn. rewrite (Hlong sf eq_refl) in Hn. cbn in Hn.
      destruct (sf_batched_ok (E := E) sf Hn) as (fs & -> & Hfs). cbn. eexists. split; [done|]. intros r.
      rewrite count_and, holds_and, <-(forallb_perm _ _ _ Hperm), forallb_app. cbn. rewrite Hfs. unfold sf_holds.
      destruct (forallb _ other); [by rewrite andb_true_r|done].
    + eexists. split; [done|]. apply Hone. intros r. rewrite !holds_and. apply forallb_perm. by rewrite <-Hperm, app_nil_r.
  - unfold batch. destruct (split_longest batch_size l) as [lo other] eqn:El. destruct (split_longest_ok l lo other El) as [Hlong Hperm].
    destruct lo as [sf|]; cbn in Hperm.
    + assert (Hin : FScalar sf ∈ l) by (rewrite <-Hperm, elem_of_app; right; constructor).
      pose proof (forallb_elem _ _ Hs (FScalar sf) Hin) as Hn. cbv beta iota in Hn. by rewrite (Hlong sf eq_refl) in Hn.
    + eexists. split; [done|]. apply Hone. intros r. rewrite !holds_or. apply existsb_perm. by rewrite <-Hperm, app_nil_r.
  - destruct (sf_batched_ok (E := E) sf Hs) as (fs & -> & Hfs). cbn. eexists. split; [done|]. intros r. specialize (Hfs r). unfold sf_holds at 2 in Hfs. rewrite <-Hfs.
    unfold count. clear. induction fs as [|g fs IH]; [done|]. cbn. unfold sf_holds at 1. destruct (holds (FScalar g) r); cbn; by rewrite IH.
Qed.
End batches.
