(* ===== verification/SqlRead.v ===== *)
(** * Reading records (query-engine/connectors/sql-query-connector/src)

    Filters, cursors and orderings become a select statement; many records are
    read by one query, or by one query per batch. *)
From stdpp Require Import pretty.
From S2P Require Import Prelude SqlSchema Dml Converter Models Projections Filters.

(** ** The query builder of the crate quaint

    Statements are built by these functions; what a database answers is stated
    where it is needed. *)
Inductive QOrder : Type := Asc | Desc.
Inductive QCompare : Type := QEquals | QNotEquals | QLessThan | QLessThanOrEquals | QGreaterThan | QGreaterThanOrEquals.
Inductive QLike : Type := QLikeAny | QNotLikeAny | QBeginsWith | QNotBeginsWith | QEndsInto | QNotEndsInto.
Class Quaint `{VT : ValueTypes} : Type := {
  QTable : Type;
  QColumn : Type;
  QExpr : Type;
  QCond : Type;
  QSelect : Type;
  table_from : string * string -> QTable;
  table_alias : QTable -> string -> QTable;
  table_same_type : QTable -> QTable -> bool;
  column_from : (string * string) * string -> QColumn;
  column_named : string -> QColumn;
  column_table : QColumn -> string -> QColumn;
  column_eqb : QColumn -> QColumn -> bool;
  expr_column : QColumn -> QExpr;
  expr_row : list QColumn -> QExpr;
  expr_value : PrismaValue -> QExpr;
  expr_values : list PrismaValue -> QExpr;
  expr_select : QSelect -> QExpr;
  no_condition : QCond;
  negative_condition : QCond;
  cond_and : list QCond -> QCond;
  cond_or : list QCond -> QCond;
  cond_not : QCond -> QCond;
  cond_compare : QCompare -> QExpr -> QExpr -> QCond;
  cond_like : QLike -> QExpr -> string -> QCond;
  cond_is_null : QExpr -> QCond;
  cond_is_not_null : QExpr -> QCond;
  cond_in : QExpr -> list PrismaValue -> QCond;
  cond_in_rows : QExpr -> list (list PrismaValue) -> QCond;
  cond_not_in : QExpr -> list PrismaValue -> QCond;
  cond_not_in_rows : QExpr -> list (list PrismaValue) -> QCond;
  cond_in_select : QExpr -> QSelect -> QCond;
  cond_not_in_select : QExpr -> QSelect -> QCond;
  is_no_condition : QCond -> bool;
  select_from : QTable -> QSelect;
  so_that : QCond -> QSelect -> QSelect;
  select_and_where : QCond -> QSelect -> QSelect;
  select_inner_join : QTable -> QCond -> QSelect -> QSelect;
  select_offset : Z -> QSelect -> QSelect;
  select_limit : Z -> QSelect -> QSelect;
  select_order_by : QColumn * QOrder -> QSelect -> QSelect;
  select_column : QColumn -> QSelect -> QSelect;
  select_count : QSelect -> QSelect;
}.

Section read.
Context `{VT : ValueTypes} {VO : ValueOrd VT} `{IT : Itertools} {Q : Quaint}.
Context (debug_list : list PrismaValue -> string) (idm : InternalDataModel) (batch_size : nat).

(** ** Columns and tables (prisma-models/src/sql_ext) *)
Definition model_as_table (m : QueryModel) : QTable := table_from (idm_db_name idm, qm_db_name m).
Definition as_column {E} (sf : ScalarField) : outcome E QColumn :=
  m ← upgrade_model idm (sf_model sf); Ok (column_from ((idm_db_name idm, qm_db_name m), sf_db_name sf)).
Definition rf_as_columns {E} (rf : RelationField) : outcome E (list QColumn) :=
  model ← upgrade_model idm (rf_model rf);
  relation ← rf_relation idm rf;
  m2m ← is_many_to_many idm relation;
  table_name ← (if m2m : bool then
                  match r_manifestation relation with
                  | RelationTableManifestation rt => Ok (rt_table rt)
                  | _ => Panic "internal error: entered unreachable code"
                  end
                else Ok (qm_db_name model));
  fs ← rf_scalar_fields idm rf;
  Ok ((fun f => column_from ((idm_db_name idm, table_name), sf_db_name f)) <$> (fs : list ScalarField)).
Definition mf_as_columns {E} (f : ModelField) : outcome E (list QColumn) :=
  match f with FieldScalar sf => c ← as_column sf; Ok [c] | FieldRelation rf => rf_as_columns rf end.
Definition mp_as_columns {E} (p : ModelProjection) : outcome E (list QColumn) :=
  cs ← map_m mf_as_columns p; Ok (mjoin (cs : list (list QColumn))).
Definition relation_as_table {E} (r : Relation) : outcome E QTable :=
  match r_manifestation r with
  | RelationTableManifestation m => _ ← model_a_of (E := E) idm r; Ok (table_from (idm_db_name idm, rt_table m))
  | InlineManifestation name => m ← unwrap_result (idm_find_model idm name); Ok (model_as_table m)
  end.
Definition identifier_columns {E} (m : QueryModel) : outcome E (list QColumn) :=
  id ← primary_identifier idm m; mp_as_columns id.
Definition field_columns {E} (rf : RelationField) : outcome E (list QColumn) :=
  fs ← rf_scalar_fields idm rf; map_m as_column (fs : list ScalarField).
Definition model_a_columns {E} (r : Relation) : outcome E (list QColumn) :=
  match r_manifestation r with
  | RelationTableManifestation m => Ok [column_named (rt_model_a_column m)]
  | InlineManifestation name =>
      model_a ← model_a_of idm r;
      if is_self_relation r then f ← field_b_of idm r; field_columns f
      else if name ≟ qm_name model_a then identifier_columns model_a
      else f ← field_b_of idm r; field_columns f
  end.
Definition model_b_columns {E} (r : Relation) : outcome E (list QColumn) :=
  match r_manifestation r with
  | RelationTableManifestation m => Ok [column_named (rt_model_b_column m)]
  | InlineManifestation name =>
      model_b ← model_b_of idm r;
      if is_self_relation r then identifier_columns model_b
      else if name ≟ qm_name model_b then identifier_columns model_b
      else f ← field_a_of idm r; field_columns f
  end.
Definition columns_for_relation_side {E} (r : Relation) (side : RelationSide) : outcome E (list QColumn) :=
  match side with SideA => model_a_columns r | SideB => model_b_columns r end.
(** [opposite_columns(false)] and [relation_columns(false)]. *)
Definition opposite_columns {E} (rf : RelationField) : outcome E (list QColumn) :=
  r ← rf_relation idm rf; columns_for_relation_side r (opposite (rf_relation_side rf)).
Definition relation_columns {E} (rf : RelationField) : outcome E (list QColumn) :=
  r ← rf_relation idm rf; columns_for_relation_side r (rf_relation_side rf).
Definition m2m_column_names (rf : RelationField) : list string :=
  let to_fields := ri_to_fields (rf_relation_info rf) in
  let prefix := if rf_relation_side rf ≟ SideA then "B" else "A" in
  if Nat.ltb 1 (length to_fields) then (fun f => prefix +:+ "_" +:+ f) <$> to_fields else [prefix].

(** ** Filters (filter_conversion.rs) *)
Inductive AliasMode : Type := AliasTable | AliasJoin.
Record Alias : Type := mkAlias { counter : nat; alias_mode : AliasMode }.
Definition Alias_default : Alias := mkAlias 0 AliasTable.
Definition alias_inc (a : Alias) (m : AliasMode) : Alias := mkAlias (Datatypes.S (counter a)) m.
Definition alias_flip (a : Alias) (m : AliasMode) : Alias := mkAlias (counter a) m.
Definition alias_to_string (a : Alias) (mode_override : option AliasMode) : string :=
  match default (alias_mode a) mode_override with
  | AliasTable => "t" +:+ pretty (counter a)
  | AliasJoin => "j" +:+ pretty (counter a)
  end.
Definition in_alias (alias : option Alias) (c : QColumn) : QColumn :=
  match alias with Some a => column_table c (alias_to_string a None) | None => c end.
Definition into_list (v : PrismaValue) : option (list PrismaValue) := match v with PV_List l => Some l | _ => None end.
(** Values of an [In] over several columns are lists; the first value decides. *)
Definition selection {E} (one : list PrismaValue -> QCond) (rows : list (list PrismaValue) -> QCond) (values : list PrismaValue) : outcome E QCond :=
  match values with
  | PV_List _ :: _ => ls ← map_m (fun pv => unwrap "into_list" (into_list pv)) values; Ok (rows ls)
  | _ => Ok (one values)
  end.
Definition scalar_compare {E} (e : QExpr) (c : ScalarCondition) : outcome E QCond :=
  match c with
  | CondEquals PV_Null => Ok (cond_is_null e)
  | CondNotEquals PV_Null => Ok (cond_is_not_null e)
  | CondEquals v => Ok (cond_compare QEquals e (expr_value v))
  | CondNotEquals v => Ok (cond_compare QNotEquals e (expr_value v))
  | CondContains v => Ok (cond_like QLikeAny e (value_fmt debug_list v))
  | CondNotContains v => Ok (cond_like QNotLikeAny e (value_fmt debug_list v))
  | CondStartsWith v => Ok (cond_like QBeginsWith e (value_fmt debug_list v))
  | CondNotStartsWith v => Ok (cond_like QNotBeginsWith e (value_fmt debug_list v))
  | CondEndsWith v => Ok (cond_like QEndsInto e (value_fmt debug_list v))
  | CondNotEndsWith v => Ok (cond_like QNotEndsInto e (value_fmt debug_list v))
  | CondLessThan v => Ok (cond_compare QLessThan e (expr_value v))
  | CondLessThanOrEquals v => Ok (cond_compare QLessThanOrEquals e (expr_value v))
  | CondGreaterThan v => Ok (cond_compare QGreaterThan e (expr_value v))
  | CondGreaterThanOrEquals v => Ok (cond_compare QGreaterThanOrEquals e (expr_value v))
  | CondIn vs => selection (cond_in e) (cond_in_rows e) vs
  | CondNotIn vs => selection (cond_not_in e) (cond_not_in_rows e) vs
  end.
Definition scalar_cond {E} (f : ScalarFilter) (alias : option Alias) : outcome E QCond :=
  match flt_projection f with
  | ProjSingle field => c ← as_column field; scalar_compare (expr_column (in_alias alias c)) (flt_condition f)
  | ProjCompound fields => cs ← map_m as_column fields; scalar_compare (expr_row (in_alias alias <$> (cs : list QColumn))) (flt_condition f)
  end.
Definition null_cond {E} (rf : RelationField) (alias : option Alias) : outcome E QCond :=
  inlined ← relation_is_inlined_in_parent idm rf;
  if inlined : bool then
    cs ← rf_as_columns rf;
    Ok (foldl (fun acc c => let n := cond_is_null (expr_column (in_alias alias c)) in
                            if is_no_condition acc then n else cond_and [acc; n]) no_condition (cs : list QColumn))
  else
    relation ← rf_relation idm rf;
    cs ← columns_for_relation_side relation (rf_relation_side rf);
    table ← relation_as_table relation;
    let table := match alias with Some a => table_alias table (alias_to_string a None) | None => table end in
    let select := foldl (fun acc c => let c := in_alias alias c in select_and_where (cond_is_not_null (expr_column c)) (select_column c acc))
                    (select_from table) (cs : list QColumn) in
    model ← upgrade_model idm (rf_model rf);
    ids ← identifier_columns model;
    Ok (cond_not_in_select (expr_row (in_alias alias <$> (ids : list QColumn))) select).
(** The subselect of a relation filter; [nested] is the condition of the nested filter under an alias. *)
Definition relation_select {E} (rf : RelationField) (condition : RelationCondition) (nested : Alias -> outcome E QCond) (alias : option Alias) :
    outcome E QSelect :=
  let alias := default Alias_default alias in
  let t := alias_to_string alias None in
  let j := alias_to_string alias (Some AliasJoin) in
  let invert c := if invert_of_subselect condition then cond_not c else c in
  relation ← rf_relation idm rf;
  these ← relation_columns rf;
  let these := (fun c => column_table c t) <$> (these : list QColumn) in
  other ← opposite_columns rf;
  let other := (fun c => column_table c t) <$> (other : list QColumn) in
  related ← related_model idm rf;
  ids ← identifier_columns related;
  let ids := (fun c => column_table c j) <$> (ids : list QColumn) in
  let related_table := model_as_table related in
  table ← relation_as_table relation;
  let aliased := table_alias table (alias_to_string alias (Some AliasTable)) in
  let needless := (length other ≟ length ids) && table_same_type aliased related_table
                  && iter_all (fun p => column_eqb p.1 p.2) (zip ids other) in
  if needless then
    c ← nested alias;
    Ok (foldl (fun acc c => select_column c acc) (so_that (invert c) (select_from (table_alias table t))) these)
  else
    c ← nested (alias_flip alias AliasJoin);
    let join := cond_compare QEquals (expr_row ids) (expr_row other) in
    Ok (foldl (fun acc c => select_column c acc)
          (so_that (invert c) (select_inner_join (table_alias related_table j) join (select_from aliased))) these).
Definition relation_cond {E} (rf : RelationField) (condition : RelationCondition) (nested : Alias -> outcome E QCond) (alias : option Alias) :
    outcome E QCond :=
  model ← upgrade_model idm (rf_model rf);
  ids ← identifier_columns model;
  sub_select ← relation_select rf condition nested ((fun a => alias_inc a AliasTable) <$> alias);
  let row := expr_row (in_alias alias <$> (ids : list QColumn)) in
  Ok (match condition with
      | AtLeastOneRelatedRecord => cond_in_select row sub_select
      | EveryRelatedRecord => cond_not_in_select row sub_select
      | NoRelatedRecord => cond_not_in_select row sub_select
      | ToOneRelatedRecord => cond_in_select row sub_select
      end).
Fixpoint aliased_cond {E} (f : Filter) (alias : option Alias) {struct f} : outcome E QCond :=
  match f with
  | FAnd [] => Ok no_condition
  | FAnd [f] => aliased_cond f alias
  | FAnd filters => cs ← map_m (fun f => aliased_cond f alias) filters; Ok (cond_and cs)
  | FOr [] => Ok negative_condition
  | FOr [f] => aliased_cond f alias
  | FOr filters => cs ← map_m (fun f => aliased_cond f alias) filters; Ok (cond_or cs)
  | FNot [] => Ok no_condition
  | FNot [f] => c ← aliased_cond f alias; Ok (cond_not c)
  | FNot filters => cs ← map_m (fun f => c ← aliased_cond f alias; Ok (cond_not c)) filters; Ok (cond_and cs)
  | FScalar filter => scalar_cond filter alias
  | FOneRelationIsNull rf => null_cond rf alias
  | FRelation rf nested condition => relation_cond rf condition (fun a => aliased_cond nested (Some a)) alias
  | FBoolFilter b => Ok (if b then no_condition else negative_condition)
  | FEmpty => Ok no_condition
  | FScalarList _ | FNodeSubscription => Panic "not yet implemented"
  end.

(** ** Orderings (ordering.rs) *)
Definition flip_order (o : QOrder) : QOrder := match o with Asc => Desc | Desc => Asc end.
Definition by_fields {E} (first_column : option QColumn) (identifier : list QColumn) (d : OrderDirections) : outcome E (list (QColumn * QOrder)) :=
  match primary_order_by d with
  | Some ob =>
      first ← unwrap "first_column" first_column;
      Ok (if negb (iter_any (column_eqb first) identifier) && needs_implicit_id_ordering d && negb (unique idm (ob_field ob)) then
            match sort_order ob, needs_to_be_reverse_order d with
            | Ascending, true => (first, Desc) :: ((fun c => (c, Desc)) <$> identifier)
            | Descending, true => (first, Asc) :: ((fun c => (c, Desc)) <$> identifier)
            | Ascending, false => (first, Asc) :: ((fun c => (c, Asc)) <$> identifier)
            | Descending, false => (first, Desc) :: ((fun c => (c, Asc)) <$> identifier)
            end
          else
            match sort_order ob, needs_to_be_reverse_order d with
            | Ascending, true => [(first, Desc)]
            | Descending, true => [(first, Asc)]
            | Ascending, false => [(first, Asc)]
            | Descending, false => [(first, Desc)]
            end)
  | None =>
      Ok (if needs_implicit_id_ordering d && needs_to_be_reverse_order d then (fun c => (c, Desc)) <$> identifier
          else if needs_implicit_id_ordering d && negb (needs_to_be_reverse_order d) then (fun c => (c, Asc)) <$> identifier
          else [])
  end.
Definition ordering_for_model {E} (m : QueryModel) (d : OrderDirections) : outcome E (list (QColumn * QOrder)) :=
  first ← (match primary_order_by d with Some ob => c ← as_column (ob_field ob); Ok (Some c) | None => Ok None end);
  ids ← identifier_columns m;
  by_fields first ids d.

(** ** Cursors (cursor_condition.rs) *)
Definition cursor_build {E} (a : QueryArguments) (m : QueryModel) : outcome E QCond :=
  match qa_cursor a with
  | None => Ok no_condition
  | Some cursor =>
      fields_order ← (match qa_order_by a with
                      | Some x => Ok ([ob_field x], sort_order x)
                      | None => id ← primary_identifier idm m; fs ← mp_scalar_fields idm id; Ok (fs, Ascending)
                      end);
      columns ← map_m as_column (fields_order.1 : list ScalarField);
      let order_row := expr_row columns in
      cursor_columns ← map_m as_column (rp_fields cursor);
      let cursor_row := expr_row cursor_columns in
      let values := expr_values (rp_values cursor) in
      let select_query := so_that (cond_compare QEquals cursor_row values)
                            (foldl (fun acc c => select_column c acc) (select_from (model_as_table m)) (columns : list QColumn)) in
      let sub := expr_select select_query in
      let after tie rest := cond_or [cond_and [cond_compare QEquals order_row sub; cond_compare tie cursor_row values]; cond_compare rest order_row sub] in
      Ok (match needs_reversed_order a, fields_order.2 with
          | true, Ascending => after QLessThanOrEquals QLessThanOrEquals
          | true, Descending => after QLessThanOrEquals QGreaterThanOrEquals
          | false, Ascending => after QGreaterThanOrEquals QGreaterThanOrEquals
          | false, Descending => after QGreaterThanOrEquals QLessThanOrEquals
          end)
  end.

(** ** Statements (query_builder/read.rs); [as usize] on a negative number wraps around *)
Definition as_usize (z : Z) : Z := (z mod 2 ^ 64)%Z.
Definition filter_cond {E} (a : QueryArguments) : outcome E QCond :=
  match qa_filter a with Some f => aliased_cond f None | None => Ok no_condition end.
Definition join_conditions (filter cursor : QCond) : QCond :=
  if is_no_condition filter then cursor else if is_no_condition cursor then filter else cond_and [filter; cursor].
Definition into_select {E} (a : QueryArguments) (m : QueryModel) : outcome E QSelect :=
  cursor ← cursor_build a m;
  ordering ← ordering_for_model m (ordering_directions a);
  filter ← filter_cond a;
  let select_ast := select_offset (as_usize (default 0%Z (qa_skip a))) (so_that (join_conditions filter cursor) (select_from (model_as_table m))) in
  let select_ast := foldl (fun acc o => select_order_by o acc) select_ast (ordering : list (QColumn * QOrder)) in
  Ok (match take_abs a with Some limit => select_limit (as_usize limit) select_ast | None => select_ast end).
Definition get_records {E} (m : QueryModel) (columns : list QColumn) (a : QueryArguments) : outcome E QSelect :=
  s ← into_select a m; Ok (foldl (fun acc c => select_column c acc) s columns).
Definition count_by_model_query {E} (m : QueryModel) (a : QueryArguments) : outcome E QSelect :=
  columns ← identifier_columns m; q ← get_records m columns a; Ok (select_count q).

(** ** Read operations (database/operations/read.rs)

    [conn_filter] is [QueryExt::filter]: it sends a query and converts the rows
    it gets by the types of the columns. The queries of batches run
    concurrently; [complete] is the order in which their results come in. *)
Section operations.
Context {E : Type} (record_does_not_exist record_not_found_for_where : E -> bool) (does_not_exist : E).
Context (conn_filter : QSelect -> list (TypeIdentifier * FieldArity) -> outcome E (list (list PrismaValue))).
Context (complete : list (outcome E (list (list PrismaValue))) -> list (outcome E (list (list PrismaValue)))).
Definition without_order (a : QueryArguments) : QueryArguments := mkQueryArguments (qa_cursor a) (qa_take a) (qa_skip a) (qa_filter a) None.
Definition push_rows (rows : list (list PrismaValue)) (m : ManyRecords) : ManyRecords := foldl (fun m r => push_record (Record_new r) m) m rows.
Definition get_many_records (m : QueryModel) (a : QueryArguments) (selected_fields : ModelProjection) : outcome E ManyRecords :=
  let reversed := needs_reversed_order a in
  field_names ← mp_db_names idm selected_fields;
  idents ← type_identifiers_with_arities idm selected_fields;
  let records := ManyRecords_new field_names in
  records ←
    (if qa_can_batch batch_size a then
       let order := qa_order_by a in
       batches ← qa_batched batch_size (without_order a);
       queries ← map_m (fun args => columns ← mp_as_columns selected_fields; get_records m columns args) (batches : list QueryArguments);
       let results := complete ((fun q => conn_filter q idents) <$> (queries : list QSelect)) in
       records ← for_each (fun records result => rows ← result; Ok (push_rows rows records)) results records;
       match order with Some ob => order_by ob records | None => Ok records end
     else
       columns ← mp_as_columns selected_fields;
       query ← get_records m columns a;
       rows ← conn_filter query idents;
       Ok (push_rows rows records));
  Ok (if reversed then reverse_records records else records).
(** [QueryExt::find] takes the first row of the query limited to one. *)
Definition conn_find (q : QSelect) (idents : list (TypeIdentifier * FieldArity)) : outcome E (list PrismaValue) :=
  rows ← conn_filter (select_limit 1%Z q) idents; ok_or does_not_exist (head (rows : list (list PrismaValue))).
Definition get_single_record (m : QueryModel) (f : Filter) (selected_fields : ModelProjection) : outcome E (option SingleRecord) :=
  columns ← mp_as_columns selected_fields;
  query ← get_records m columns (QueryArguments_from f);
  field_names ← mp_db_names idm selected_fields;
  idents ← type_identifiers_with_arities idm selected_fields;
  match conn_find query idents with
  | Ok row => Ok (Some (mkSingleRecord (Record_new row) field_names))
  | Err e => if record_not_found_for_where e then Ok None else if record_does_not_exist e then Ok None else Err e
  | Panic msg => Panic msg
  end.
(** [query_builder::conditions]: the columns are one of the rows of values. *)
Definition conditions (columns : list QColumn) (records : list RecordProjection) : QCond := cond_in_rows (expr_row columns) (rp_values <$> records).
Definition m2m_pair (from_sfs to_sfs : list ScalarField) (row : list PrismaValue) : outcome E (RecordProjection * RecordProjection) :=
  if Nat.ltb (length row) (length from_sfs) then Panic "`at` split index (is larger than len)" else
  let child_values := drop (length from_sfs) row in
  let parent_values := take (length from_sfs) row in
  Ok (zip from_sfs parent_values, zip to_sfs child_values).
Definition get_related_m2m_record_ids (from_field : RelationField) (from_record_ids : list RecordProjection) :
    outcome E (list (RecordProjection * RecordProjection)) :=
  model ← upgrade_model idm (rf_model from_field);
  from_id ← primary_identifier idm model;
  from_idents ← type_identifiers_with_arities idm from_id;
  related ← related_model idm from_field;
  to_id ← primary_identifier idm related;
  to_idents ← type_identifiers_with_arities idm to_id;
  relation ← rf_relation idm from_field;
  table ← relation_as_table relation;
  related_f ← related_field idm from_field;
  let from_columns := column_named <$> m2m_column_names related_f in
  let to_columns := column_named <$> m2m_column_names from_field in
  let select := so_that (conditions from_columns from_record_ids)
                  (foldl (fun acc c => select_column c acc) (select_from table) (from_columns ++ to_columns)) in
  from_sfs ← mp_scalar_fields idm from_id;
  to_sfs ← mp_scalar_fields idm to_id;
  rows ← conn_filter select ((from_idents : list (TypeIdentifier * FieldArity)) ++ to_idents);
  map_m (m2m_pair from_sfs to_sfs) (rows : list (list PrismaValue)).
End operations.
End read.
