(* ===== verification/ReadFacts.v ===== *)
(** * Reading records returns the page that was asked for

    What a database answers to the statements of the query builder, and what
    [get_many_records] then returns. *)
From stdpp Require Import sorting.
From S2P Require Import Prelude SqlSchema Dml Converter Models Projections Filters ValueOrder SqlRead.

(** ** Three-valued logic *)
Definition is_true (o : option bool) : bool := match o with Some true => true | _ => false end.
Definition is_false (o : option bool) : bool := match o with Some false => true | _ => false end.
Definition k_not (o : option bool) : option bool := negb <$> o.
Definition k_and (l : list (option bool)) : option bool :=
  if existsb is_false l then Some false else if forallb is_true l then Some true else None.
Definition k_or (l : list (option bool)) : option bool :=
  if existsb is_true l then Some true else if forallb is_false l then Some false else None.
Lemma k_and_true l : is_true (k_and l) = forallb is_true l.
Proof.
  unfold k_and. destruct (existsb is_false l) eqn:E; [|by destruct (forallb is_true l)]. symmetry. cbn.
  apply iter_any_spec in E as (x & Hx & Hf). apply not_true_iff_false. intros Ht. apply (forallb_elem _ _ Ht) in Hx.
  by destruct x as [[]|].
Qed.
Lemma k_or_true l : is_true (k_or l) = existsb is_true l.
Proof. unfold k_or. destruct (existsb is_true l); [done|]. by destruct (forallb is_false l). Qed.
Lemma k_one o : k_and [o] = o /\ k_or [o] = o.
Proof. by destruct o as [[]|]. Qed.

(** ** Databases

    The rows of a table, the values of their columns, the value of a condition
    on a row, and the order of values. *)
Class SqlDb `{VT : ValueTypes} {Q : Quaint} (Row : Type) : Type := {
  db_rows : QTable -> list Row;
  cell : Row -> QColumn -> PrismaValue;
  cond_value : QCond -> Row -> option bool;
  db_cmp : PrismaValue -> PrismaValue -> comparison;
}.
Section database.
Context `{VT : ValueTypes} {Q : Quaint} {Row : Type} {D : SqlDb Row}.
Definition directed (o : QOrder) (c : comparison) : comparison := match o with Asc => c | Desc => CompOpp c end.
Fixpoint order_cmp (ords : list (QColumn * QOrder)) (a b : Row) : comparison :=
  match ords with
  | [] => Eq
  | (c, o) :: ords => match directed o (db_cmp (cell a c) (cell b c)) with Eq => order_cmp ords a b | x => x end
  end.
Definition order_le (ords : list (QColumn * QOrder)) (a b : Row) : Prop := order_cmp ords a b <> Gt.
Definition page (off : Z) (lim : option Z) (l : list Row) : list Row :=
  let l := drop (Z.to_nat off) l in match lim with Some n => take (Z.to_nat n) l | None => l end.
(** A select statement with its parts in the order the connector adds them. *)
Definition statement (t : QTable) (c : QCond) (off : Z) (ords : list (QColumn * QOrder)) (lim : option Z) (cols : list QColumn) : QSelect :=
  let s := foldl (fun acc o => select_order_by o acc) (select_offset off (so_that c (select_from t))) ords in
  let s := match lim with Some n => select_limit n s | None => s end in
  foldl (fun acc c => select_column c acc) s cols.
(** The rows a select may answer: those that satisfy the condition, ordered, from the offset up to the limit. *)
Definition answers (t : QTable) (c : QCond) (off : Z) (ords : list (QColumn * QOrder)) (lim : option Z) (cols : list QColumn) (rows : list (list PrismaValue)) : Prop :=
  exists s, s ≡ₚ iter_filter (fun r => is_true (cond_value c r)) (db_rows t) /\ StronglySorted (order_le ords) s /\
    rows = (fun r => cell r <$> cols) <$> page off lim s.
End database.
(** A value of a condition, one or several columns wide. *)
Definition value_expr `{VT : ValueTypes} {Q : Quaint} (v : PrismaValue) : QExpr := match v with PV_List l => expr_values l | _ => expr_value v end.
Class SqlDbOk `{VT : ValueTypes} {VO : ValueOrd VT} {Q : Quaint} {Row : Type} (D : SqlDb Row) : Prop := {
  db_cmp_ok : cmp_ok db_cmp;
  value_none : forall r, cond_value no_condition r = Some true;
  value_negative : forall r, cond_value negative_condition r = Some false;
  value_is_none : forall c r, is_no_condition c = true -> cond_value c r = Some true;
  no_condition_is : is_no_condition no_condition = true;
  value_and : forall l r, cond_value (cond_and l) r = k_and ((fun c => cond_value c r) <$> l);
  value_or : forall l r, cond_value (cond_or l) r = k_or ((fun c => cond_value c r) <$> l);
  value_not : forall c r, cond_value (cond_not c) r = k_not (cond_value c r);
  (* a row that equals is not less and not greater *)
  value_equal : forall e x r, is_true (cond_value (cond_compare QEquals e x) r) = true ->
    is_true (cond_value (cond_compare QLessThanOrEquals e x) r) = true /\ is_true (cond_value (cond_compare QGreaterThanOrEquals e x) r) = true;
  (* IN and NOT IN *)
  value_in : forall e vs r, is_true (cond_value (cond_in e vs) r) = existsb (fun v => is_true (cond_value (cond_compare QEquals e (value_expr v)) r)) vs;
  value_in_rows : forall e ls r, is_true (cond_value (cond_in_rows e ls) r) =
    existsb (fun l => is_true (cond_value (cond_compare QEquals e (expr_values l)) r)) ls;
  value_not_in : forall e vs r, is_true (cond_value (cond_not_in e vs) r) =
    forallb (fun v => is_true (cond_value (cond_compare QNotEquals e (value_expr v)) r)) vs;
  value_not_in_rows : forall e ls r, is_true (cond_value (cond_not_in_rows e ls) r) =
    forallb (fun l => is_true (cond_value (cond_compare QNotEquals e (expr_values l)) r)) ls;
  (* equality of values is that of the engine *)
  value_same : forall o e v w r, value_cmp v w = Eq -> cond_value (cond_compare o e (value_expr v)) r = cond_value (cond_compare o e (value_expr w)) r;
  value_one : forall e v w r, is_true (cond_value (cond_compare QEquals e (value_expr v)) r) = true ->
    is_true (cond_value (cond_compare QEquals e (value_expr w)) r) = true -> value_cmp v w = Eq;
}.

(** ** Comparison with a record

    A comparison of columns with a subselect that finds one record is the
    comparison of the values of the columns, from left to right, when none of
    them is null. *)
Definition compare_holds (o : QCompare) (c : comparison) : bool :=
  match o, c with
  | QEquals, Eq | QNotEquals, (Lt | Gt) | QLessThan, Lt | QLessThanOrEquals, (Lt | Eq) | QGreaterThan, Gt | QGreaterThanOrEquals, (Gt | Eq) => true
  | _, _ => false
  end.
Definition ascending `{VT : ValueTypes} {Q : Quaint} (cs : list QColumn) : list (QColumn * QOrder) := (fun c => (c, Asc)) <$> cs.
Class SqlRecordOk `{VT : ValueTypes} {Q : Quaint} {Row : Type} (D : SqlDb Row) : Prop := {
  value_record : forall o t cs w r record,
    iter_filter (fun r => is_true (cond_value w r)) (db_rows t) = [record] ->
    Forall (fun c => is_null (cell r c) = false /\ is_null (cell record c) = false) cs ->
    is_true (cond_value (cond_compare o (expr_row cs) (expr_select (so_that w (foldl (fun acc c => select_column c acc) (select_from t) cs)))) r) =
    compare_holds o (order_cmp (ascending cs) r record);
}.

Section meaning.
Context `{VT : ValueTypes} {VO : ValueOrd VT} `{IT : Itertools} {Q : Quaint} {Row : Type} {D : SqlDb Row} (HD : SqlDbOk D).
Context (E : Type) (debug_list : list PrismaValue -> string) (idm : InternalDataModel).

(** ** The value of a filter on a row *)
Definition proj_expr (p : ScalarProjection) : outcome E QExpr :=
  match p with
  | ProjSingle f => c ← as_column idm f; Ok (expr_column c)
  | ProjCompound fs => cs ← map_m (as_column idm) fs; Ok (expr_row cs)
  end.
Definition proj_compare (o : QCompare) (p : ScalarProjection) (v : PrismaValue) (r : Row) : bool :=
  match proj_expr p with Ok e => is_true (cond_value (cond_compare o e (value_expr v)) r) | _ => false end.
Definition leaf_value (f : Filter) (r : Row) : option bool :=
  match aliased_cond (E := E) debug_list idm f None, f with
  | Ok c, _ => cond_value c r
  | _, FScalar (mkScalarFilter p (CondIn vs)) => if existsb (fun v => proj_compare QEquals p v r) vs then Some true else None
  | _, FScalar (mkScalarFilter p (CondNotIn vs)) => if forallb (fun v => proj_compare QNotEquals p v r) vs then Some true else None
  | _, _ => None
  end.
Fixpoint filter_value (f : Filter) (r : Row) : option bool :=
  match f with
  | FAnd l => k_and ((fun g => filter_value g r) <$> l)
  | FOr l => k_or ((fun g => filter_value g r) <$> l)
  | FNot l => k_and ((fun g => k_not (filter_value g r)) <$> l)
  | f => leaf_value f r
  end.
Instance db_matching : Matching Row := {|
  holds f r := is_true (filter_value f r);
  eq_holds p v r := proj_compare QEquals p v r;
  ne_holds p v r := proj_compare QNotEquals p v r;
|}.
Lemma scalar_cond_expr f : scalar_cond (E := E) debug_list idm f None = e ← proj_expr (flt_projection f); scalar_compare debug_list e (flt_condition f).
Proof.
  unfold scalar_cond, proj_expr. destruct (flt_projection f) as [g|fs]; cbn [in_alias].
  - by destruct (as_column idm g).
  - destruct (map_m (as_column idm) fs) as [cs| |]; cbn; try done. by rewrite list_fmap_id.
Qed.
Lemma into_lists vs ls : map_m (E := E) (fun pv => unwrap "into_list" (into_list pv)) vs = Ok ls -> vs = PV_List <$> ls.
Proof.
  revert ls. induction vs as [|v vs IH]; intros ls; cbn; [by intros [= <-]|]. destruct v; cbn; try done.
  destruct (map_m _ vs) as [ls'| |]; cbn; try done. intros [= <-]. cbn. by rewrite (IH ls').
Qed.
Lemma existsb_fmap {A B} (f : A -> B) (p : B -> bool) l : existsb p (f <$> l) = existsb (fun x => p (f x)) l.
Proof. induction l as [|x l IH]; [done|]. cbn. by rewrite <-IH. Qed.
Lemma forallb_fmap {A B} (f : A -> B) (p : B -> bool) l : forallb p (f <$> l) = forallb (fun x => p (f x)) l.
Proof. induction l as [|x l IH]; [done|]. cbn. by rewrite <-IH. Qed.
Lemma selection_cases one rows vs : (exists ls, selection (E := E) one rows vs = Ok (rows ls) /\ vs = PV_List <$> ls) \/
  selection (E := E) one rows vs = Ok (one vs) \/ forall c, selection (E := E) one rows vs <> Ok c.
Proof.
  unfold selection. destruct vs as [|[] vs]; auto. cbn [map_m into_list unwrap mbind outcome_bind].
  destruct (map_m _ vs) as [ls| |] eqn:Els; cbn; [|by right; right..]. left. exists (l :: ls). split; [done|]. by rewrite (into_lists _ _ Els).
Qed.
Lemma leaf_in p vs r : is_true (leaf_value (FScalar (mkScalarFilter p (CondIn vs))) r) = existsb (fun v => proj_compare QEquals p v r) vs.
Proof.
  unfold leaf_value. cbn [aliased_cond]. rewrite scalar_cond_expr. cbn [flt_projection flt_condition scalar_compare]. unfold proj_compare.
  destruct (proj_expr p) as [e| |]; cbn [mbind outcome_bind]; try by destruct (existsb _ vs).
  destruct (selection_cases (cond_in e) (cond_in_rows e) vs) as [(ls & -> & ->)|[-> |Hno]].
  - by rewrite (value_in_rows e ls r), existsb_fmap.
  - by rewrite (value_in e vs r).
  - destruct (selection _ _ vs) as [c| |]; [by destruct (Hno c)|by destruct (existsb _ vs)..].
Qed.
Lemma leaf_not_in p vs r : is_true (leaf_value (FScalar (mkScalarFilter p (CondNotIn vs))) r) = forallb (fun v => proj_compare QNotEquals p v r) vs.
Proof.
  unfold leaf_value. cbn [aliased_cond]. rewrite scalar_cond_expr. cbn [flt_projection flt_condition scalar_compare]. unfold proj_compare.
  destruct (proj_expr p) as [e| |]; cbn [mbind outcome_bind]; try by destruct (forallb _ vs).
  destruct (selection_cases (cond_not_in e) (cond_not_in_rows e) vs) as [(ls & -> & ->)|[-> |Hno]].
  - by rewrite (value_not_in_rows e ls r), forallb_fmap.
  - by rewrite (value_not_in e vs r).
  - destruct (selection _ _ vs) as [c| |]; [by destruct (Hno c)|by destruct (forallb _ vs)..].
Qed.
Lemma db_matching_ok : MatchingOk db_matching.
Proof.
  split; cbn [holds eq_holds ne_holds db_matching].
  - intros l r. cbn [filter_value]. by rewrite k_and_true, forallb_fmap.
  - intros l r. cbn [filter_value]. by rewrite k_or_true, existsb_fmap.
  - intros p vs r. apply leaf_in.
  - intros p vs r. apply leaf_not_in.
  - intros p v w r Hvw. unfold proj_compare. destruct (proj_expr p); [|done..]. by rewrite (value_same QEquals _ v w r Hvw).
  - intros p v w r. unfold proj_compare. destruct (proj_expr p); [|done..]. apply value_one.
Qed.
(** The condition built for a filter has the value of the filter. *)
Lemma filter_nested_ind (P : Filter -> Prop) :
  (forall l, Forall P l -> P (FAnd l)) -> (forall l, Forall P l -> P (FOr l)) -> (forall l, Forall P l -> P (FNot l)) ->
  (forall f, match f with FAnd _ | FOr _ | FNot _ => False | _ => True end -> P f) -> forall f, P f.
Proof.
  intros Ha Ho Hn Hl. fix IH 1. intros [l|l|l|f|f|f|f g c| |b|]; [apply Ha|apply Ho|apply Hn|apply Hl; exact I..];
    (induction l as [|x l IHl]; constructor; [apply IH|exact IHl]).
Qed.
Lemma map_m_values (g : Filter -> outcome E QCond) (h : option bool -> option bool) l cs r :
  Forall (fun f => forall c, g f = Ok c -> cond_value c r = h (filter_value f r)) l -> map_m g l = Ok cs ->
  (fun c => cond_value c r) <$> cs = (fun f => h (filter_value f r)) <$> l.
Proof.
  intros HF. revert cs. induction HF as [|f l Hf _ IH]; intros cs; cbn; [by intros [= <-]|].
  destruct (g f) as [c| |] eqn:Ef; cbn; try done. destruct (map_m g l) as [cs'| |]; cbn; try done. intros [= <-]. cbn.
  by rewrite (Hf c eq_refl), (IH cs').
Qed.
Lemma aliased_cond_value f c r : aliased_cond (E := E) debug_list idm f None = Ok c -> cond_value c r = filter_value f r.
Proof.
  revert c. induction f as [l IH|l IH|l IH|f Hleaf] using filter_nested_ind; intros c.
  - cbn [aliased_cond filter_value]. destruct l as [|f [|g l]].
    + intros [= <-]. apply value_none.
    + intros Hc. inversion IH as [|? ? Hf _]. rewrite (Hf c Hc). cbn. by rewrite (proj1 (k_one _)).
    + destruct (map_m _ (f :: g :: l)) as [cs| |] eqn:Ecs; [|done..]. cbn [mbind outcome_bind]. intros [= <-]. rewrite value_and. f_equal.
      by apply (map_m_values _ id (f :: g :: l) cs r IH).
  - cbn [aliased_cond filter_value]. destruct l as [|f [|g l]].
    + intros [= <-]. apply value_negative.
    + intros Hc. inversion IH as [|? ? Hf _]. rewrite (Hf c Hc). cbn. by rewrite (proj2 (k_one _)).
    + destruct (map_m _ (f :: g :: l)) as [cs| |] eqn:Ecs; [|done..]. cbn [mbind outcome_bind]. intros [= <-]. rewrite value_or. f_equal.
      by apply (map_m_values _ id (f :: g :: l) cs r IH).
  - assert (IH' : Forall (fun f => forall c, (c ← aliased_cond (E := E) debug_list idm f None; Ok (cond_not c)) = Ok c ->
      cond_value c r = k_not (filter_value f r)) l).
    { eapply Forall_impl; [exact IH|]. intros f Hf c'. destruct (aliased_cond _ _ f None) as [c0| |] eqn:E0; cbn; try done. intros [= <-].
      rewrite value_not. by rewrite (Hf c0 E0). }
    cbn [aliased_cond filter_value]. destruct l as [|f [|g l]].
    + intros [= <-]. apply value_none.
    + intros Hc. inversion IH' as [|? ? Hf _]. rewrite (Hf c Hc). cbn. by rewrite (proj1 (k_one _)).
    + destruct (map_m _ (f :: g :: l)) as [cs| |] eqn:Ecs; [|done..]. cbn [mbind outcome_bind]. intros [= <-]. rewrite value_and. f_equal.
      by apply (map_m_values _ k_not (f :: g :: l) cs r IH').
  - intros Hc. destruct f; try done; cbn [filter_value]; unfold leaf_value; by rewrite Hc.
Qed.
End meaning.

(** ** Orderings *)
Section ordering.
Context `{VT : ValueTypes} {VO : ValueOrd VT} `{IT : Itertools} {Q : Quaint} {Row : Type} {D : SqlDb Row} (HD : SqlDbOk D).
Context (idm : InternalDataModel).
Definition flip_orders (ords : list (QColumn * QOrder)) : list (QColumn * QOrder) := (fun p => (p.1, flip_order p.2)) <$> ords.
Lemma order_cmp_flip ords a b : order_cmp (flip_orders ords) a b = order_cmp ords b a.
Proof.
  destruct (db_cmp_ok) as (_ & Hanti & _). induction ords as [|[c o] ords IH]; [done|].
  change (flip_orders ((c, o) :: ords)) with ((c, flip_order o) :: flip_orders ords). cbn [order_cmp]. rewrite IH.
  rewrite (Hanti (cell a c)). destruct o; cbn; [by rewrite CompOpp_involutive|done].
Qed.
Lemma sorted_reverse {A} (R : A -> A -> Prop) l : StronglySorted R l -> StronglySorted (fun x y => R y x) (reverse l).
Proof.
  induction 1 as [|x l Hs IH Hx]; [constructor|]. rewrite reverse_cons.
  assert (Hx' : Forall (fun y => R x y) (reverse l)) by (by rewrite reverse_Permutation). clear Hs Hx.
  induction IH as [|y k Hs IHk Hy]; cbn; [by repeat constructor|]. inversion Hx' as [|? ? H1 H2]. constructor; [by apply IHk|].
  apply Forall_app. split; [done|by repeat constructor].
Qed.
Definition forward (d : OrderDirections) : OrderDirections := mkOrderDirections (needs_implicit_id_ordering d) false (primary_order_by d).
Lemma by_fields_reverse {E} first ids d ords : needs_implicit_id_ordering d = true -> by_fields (E := E) idm first ids (forward d) = Ok ords ->
  by_fields (E := E) idm first ids d = Ok (if needs_to_be_reverse_order d then flip_orders ords else ords).
Proof.
  unfold by_fields, forward, flip_orders; cbn [primary_order_by needs_implicit_id_ordering needs_to_be_reverse_order]. intros ->.
  destruct (primary_order_by d) as [ob|].
  - destruct first as [c|]; cbn; [|done]. destruct (negb _ && true && negb _), (sort_order ob), (needs_to_be_reverse_order d); intros [= <-]; cbn; try done;
      do 2 f_equal; by rewrite <-list_fmap_compose.
  - destruct (needs_to_be_reverse_order d); cbn; intros [= <-]; [|done]. by rewrite <-list_fmap_compose.
Qed.
Lemma ordering_reverse {E} m d ords : needs_implicit_id_ordering d = true -> ordering_for_model (E := E) idm m (forward d) = Ok ords ->
  ordering_for_model (E := E) idm m d = Ok (if needs_to_be_reverse_order d then flip_orders ords else ords).
Proof.
  intros Hi. unfold ordering_for_model. cbn [forward primary_order_by].
  destruct (match primary_order_by d with Some _ => _ | None => _ end) as [first| |]; cbn; try done.
  destruct (identifier_columns idm m) as [ids| |]; cbn; try done. by apply by_fields_reverse.
Qed.
(** Rows that no two of which tie have one order. *)
Lemma sorted_page ords (rows s s' : list Row) : (forall a b, a ∈ rows -> b ∈ rows -> order_cmp ords a b = Eq -> a = b) ->
  (forall x, x ∈ s -> x ∈ rows) -> s ≡ₚ s' -> StronglySorted (order_le ords) s -> StronglySorted (order_le ords) s' -> s = s'.
Proof.
  intros Htie Hin Hp Hs Hs'. apply (StronglySorted_unique_strong (order_le ords)); [|done..].
  intros a b Ha Hb Hab Hba. unfold order_le in *. apply Htie; [by apply Hin|apply Hin; by rewrite Hp|].
  assert (Hanti : order_cmp ords b a = CompOpp (order_cmp ords a b)).
  { destruct (db_cmp_ok) as (_ & Hanti & _). clear -Hanti. induction ords as [|[c o] ords IH]; [done|]. cbn. rewrite IH, (Hanti (cell b c)).
    destruct o; cbn; by destruct (db_cmp (cell a c) (cell b c)). }
  destruct (order_cmp ords a b); [done| |done]. by rewrite Hanti in Hba.
Qed.
End ordering.

(** ** The page that is asked for *)
Definition window {A} (tk : option Z) (skip : Z) (l : list A) : list A :=
  match tk with
  | Some t => if (t <? 0)%Z then reverse (take (Z.to_nat (- t)) (drop (Z.to_nat skip) (reverse l))) else take (Z.to_nat t) (drop (Z.to_nat skip) l)
  | None => drop (Z.to_nat skip) l
  end.
Section reads.
Context `{VT : ValueTypes} {VO : ValueOrd VT} `{IT : Itertools} {Q : Quaint} {Row : Type} {D : SqlDb Row} (HD : SqlDbOk D).
Context (debug_list : list PrismaValue -> string) (idm : InternalDataModel) (batch_size : nat).
Context {E : Type} (conn_filter : QSelect -> list (TypeIdentifier * FieldArity) -> outcome E (list (list PrismaValue))).
Context (complete : list (outcome E (list (list PrismaValue))) -> list (outcome E (list (list PrismaValue)))).
(** The connection answers what the database answers. *)
Definition conn_answers : Prop := forall t c off ords lim cols idents rows,
  conn_filter (statement t c off ords lim cols) idents = Ok rows -> answers (D := D) t c off ords lim cols rows.
Lemma push_rows_values rows m : rec_values <$> records (push_rows rows m) = (rec_values <$> records m) ++ rows.
Proof.
  unfold push_rows. revert m. induction rows as [|r rows IH]; intros m; cbn; [by rewrite app_nil_r|].
  rewrite IH. cbn. by rewrite fmap_app, <-app_assoc.
Qed.
Lemma as_usize_small z : (0 <= z < 2 ^ 64)%Z -> as_usize z = z.
Proof. intros. unfold as_usize. by apply Z.mod_small. Qed.
Lemma take_abs_small t : (- 2 ^ 63 < t < 2 ^ 63)%Z -> as_usize (if (t <? 0)%Z then wrap64 (t * -1) else t) = Z.abs t.
Proof.
  intros Ht. destruct (Z.ltb_spec t 0).
  - unfold wrap64. rewrite Z.mod_small by lia. rewrite as_usize_small by lia. lia.
  - rewrite as_usize_small by lia. lia.
Qed.
Definition take_ok (a : QueryArguments) : Prop := forall t, qa_take a = Some t -> (- 2 ^ 63 < t < 2 ^ 63)%Z.
Definition skip_ok (a : QueryArguments) : Prop := (0 <= default 0%Z (qa_skip a) < 2 ^ 63)%Z.
Lemma get_records_statement m a cols cur f ords : take_ok a -> skip_ok a -> cursor_build (E := E) idm a m = Ok cur ->
  filter_cond (E := E) debug_list idm a = Ok f -> ordering_for_model (E := E) idm m (ordering_directions a) = Ok ords ->
  get_records (E := E) debug_list idm m cols a = Ok (statement (model_as_table idm m) (join_conditions f cur) (default 0%Z (qa_skip a)) ords (Z.abs <$> qa_take a) cols).
Proof.
  intros Ht Hs Hcur Hf Hord. unfold get_records, into_select, statement. rewrite Hcur. cbn [mbind outcome_bind]. rewrite Hord. cbn [mbind outcome_bind]. rewrite Hf. cbn [mbind outcome_bind].
  unfold take_abs. rewrite as_usize_small by (unfold skip_ok in Hs; lia). destruct (qa_take a) as [t|] eqn:Et; cbn; [|done].
  by rewrite take_abs_small by (by apply Ht).
Qed.
Lemma join_conditions_value f cur r : is_true (cond_value (join_conditions f cur) r) = is_true (cond_value f r) && is_true (cond_value cur r).
Proof.
  unfold join_conditions. destruct (is_no_condition f) eqn:E1; [by rewrite (value_is_none f r E1)|].
  destruct (is_no_condition cur) eqn:E2; [rewrite (value_is_none cur r E2); by rewrite andb_true_r|].
  rewrite value_and, k_and_true. cbn. by rewrite andb_true_r.
Qed.
Definition matches (a : QueryArguments) (r : Row) : bool :=
  match qa_filter a with Some g => is_true (filter_value E debug_list idm g r) | None => true end.
Lemma filter_cond_value a f r : filter_cond (E := E) debug_list idm a = Ok f -> is_true (cond_value f r) = matches a r.
Proof.
  unfold filter_cond, matches. destruct (qa_filter a) as [g|].
  - intros Hf. by rewrite (aliased_cond_value HD E debug_list idm g f r Hf).
  - intros [= <-]. by rewrite value_none.
Qed.
(** The rows the query is about, in the requested order. *)
Definition in_order (ords : list (QColumn * QOrder)) (m : QueryModel) (a : QueryArguments) (cur : QCond) (s : list Row) : Prop :=
  s ≡ₚ iter_filter (fun r => matches a r && is_true (cond_value cur r)) (db_rows (model_as_table idm m)) /\ StronglySorted (order_le ords) s.
(** The order that is asked for: the given field in the given direction, if there
    is one, then the identifier. *)
Definition direction (o : SortOrder) : QOrder := match o with Ascending => Asc | Descending => Desc end.
Definition asked_field (a : QueryArguments) : outcome E (option (QColumn * QOrder)) :=
  match qa_order_by a with
  | Some ob => c ← as_column idm (ob_field ob); Ok (Some (c, direction (sort_order ob)))
  | None => Ok None
  end.
Definition asked_order (ob : option (QColumn * QOrder)) (ids : list QColumn) : list (QColumn * QOrder) :=
  match ob with Some o => o :: ascending ids | None => ascending ids end.
(** The field of the cursor's order: the given one or the identifier. *)
Definition key_columns (m : QueryModel) : outcome E (list QColumn) :=
  id ← primary_identifier idm m; fs ← mp_scalar_fields idm id; map_m (as_column idm) fs.
Definition cursor_order (ob : option (QColumn * QOrder)) (keys : list QColumn) : list (QColumn * QOrder) :=
  match ob with Some o => [o] | None => ascending keys end.
(** The cursor's record, if there is a cursor: the one record with its values;
    the columns it is compared by are not null. *)
Definition cursor_record (a : QueryArguments) (m : QueryModel) (ords : list (QColumn * QOrder)) (record : option Row) : Prop :=
  match qa_cursor a with
  | None => record = None
  | Some cursor => exists cs r, map_m (as_column (E := E) idm) (rp_fields cursor) = Ok cs /\ record = Some r /\
      iter_filter (fun r => is_true (cond_value (cond_compare QEquals (expr_row cs) (expr_values (rp_values cursor))) r)) (db_rows (model_as_table idm m)) = [r] /\
      forall r, r ∈ db_rows (model_as_table idm m) -> Forall (fun o => is_null (cell r o.1) = false) ords
  end.
(** The records from the cursor's on, or up to it. *)
Definition from_cursor (ords : list (QColumn * QOrder)) (up_to : bool) (record : option Row) (r : Row) : bool :=
  match record with
  | None => true
  | Some record => match order_cmp ords r record with Eq => true | Lt => up_to | Gt => negb up_to end
  end.
(** A field that the connector takes for sufficient (it is unique or part of
    the identifier) orders the rows completely; the identifier always does. *)
Definition tie_free (ords : list (QColumn * QOrder)) (m : QueryModel) : Prop := forall a b : Row,
  a ∈ db_rows (model_as_table idm m) -> b ∈ db_rows (model_as_table idm m) -> order_cmp ords a b = Eq -> a = b.
Definition decides_order (m : QueryModel) (a : QueryArguments) (ob : option (QColumn * QOrder)) (ids : list QColumn) : Prop :=
  tie_free (ascending ids) m /\
  forall o c, qa_order_by a = Some o -> ob = Some c -> iter_any (column_eqb c.1) ids || unique idm (ob_field o) = true -> tie_free [c] m.

Lemma asked_order_code m a ob ids : needs_implicit_ordering a = true -> identifier_columns (E := E) idm m = Ok ids -> asked_field a = Ok ob ->
  decides_order m a ob ids -> exists ords, ordering_for_model (E := E) idm m (forward (ordering_directions a)) = Ok ords /\
  tie_free ords m /\ forall x y, order_le (asked_order ob ids) x y -> order_le ords x y.
Proof.
  intros Hi Hids Hob [Htie Hfirst]. unfold ordering_for_model, asked_field in *. cbn [forward ordering_directions primary_order_by].
  unfold by_fields. cbn [forward ordering_directions primary_order_by needs_implicit_id_ordering needs_to_be_reverse_order]. rewrite Hi, Hids.
  destruct (qa_order_by a) as [o|]; cbn.
  2: { injection Hob as <-. exists (ascending ids). by split_and!. }
  destruct (as_column idm (ob_field o)) as [c| |]; cbn in *; [|done..]. injection Hob as <-.
  destruct (iter_any (column_eqb c) ids || unique idm (ob_field o)) eqn:Eu.
  - exists [(c, direction (sort_order o))]. split_and!.
    + apply orb_true_iff in Eu as [-> | ->]; cbn; rewrite ?andb_false_r; by destruct (sort_order o).
    + by apply (Hfirst o (c, direction (sort_order o))).
    + intros x y. unfold order_le; cbn. by destruct (directed _ _).
  - apply orb_false_iff in Eu as [-> ->]. cbn. exists ((c, direction (sort_order o)) :: ascending ids). split_and!; [|..|done].
    + by destruct (sort_order o).
    + intros x y Hx Hy. cbn. destruct (directed _ _); [|done..]. by apply Htie.
Qed.

Lemma cursor_tie_value e x f y tie rest r : rest = QLessThanOrEquals \/ rest = QGreaterThanOrEquals ->
  is_true (cond_value (cond_or [cond_and [cond_compare QEquals e x; cond_compare tie f y]; cond_compare rest e x]) r) =
  is_true (cond_value (cond_compare rest e x) r).
Proof.
  intros Hrest. rewrite value_or, k_or_true. cbn. rewrite value_and, k_and_true. cbn. rewrite orb_false_r, andb_true_r.
  destruct (is_true (cond_value (cond_compare QEquals e x) r)) eqn:Eeq; [|done].
  destruct (value_equal _ _ _ Eeq) as [H1 H2]. destruct Hrest as [-> | ->]; rewrite ?H1, ?H2; apply orb_true_r.
Qed.
Lemma cursor_value (HR : SqlRecordOk D) m a ob keys record : asked_field a = Ok ob -> key_columns m = Ok keys ->
  cursor_record a m (cursor_order ob keys) record -> exists cur, cursor_build (E := E) idm a m = Ok cur /\
  forall r, r ∈ db_rows (model_as_table idm m) -> is_true (cond_value cur r) = from_cursor (cursor_order ob keys) (needs_reversed_order a) record r.
Proof.
  intros Hob Hkeys. unfold cursor_record, cursor_build, asked_field, key_columns in *. destruct (qa_cursor a) as [cursor|].
  2: { intros ->. exists no_condition. split; [done|]. intros r _. by rewrite value_none. }
  intros (cs & rc & Hcs & -> & Hone & Hnull). destruct (qa_order_by a) as [o|]; cbn [mbind outcome_bind].
  - cbn [fst snd map_m]. destruct (as_column idm (ob_field o)) as [c| |]; cbn [mbind outcome_bind] in *; [|done..]. injection Hob as <-. rewrite Hcs. cbn [mbind outcome_bind].
    eexists. split; [done|]. intros r Hr. cbn [cursor_order from_cursor].
    assert (Hc : forall r, r ∈ db_rows (model_as_table idm m) -> is_null (cell r c) = false) by (intros r' Hr'; by apply Hnull in Hr' as [? _]%Forall_cons).
    assert (Hrc : rc ∈ db_rows (model_as_table idm m)).
    { assert (Hin : rc ∈ [rc]) by (by constructor). rewrite <-Hone in Hin. by apply iter_filter_elem in Hin as [? _]. }
    pose proof (fun rest => value_record rest _ [c] _ r rc Hone) as Hv.
    destruct (needs_reversed_order a), (sort_order o); cbn [direction]; rewrite cursor_tie_value by auto;
      rewrite Hv by (repeat constructor; auto); cbn; by destruct (db_cmp _ _).
  - injection Hob as <-. destruct (primary_identifier idm m) as [id| |]; cbn [mbind outcome_bind] in *; [|done..].
    destruct (mp_scalar_fields idm id) as [fs| |]; cbn [mbind outcome_bind fst snd] in *; [|done..]. rewrite Hkeys. cbn [mbind outcome_bind]. rewrite Hcs. cbn [mbind outcome_bind].
    eexists. split; [done|]. intros r Hr. cbn [cursor_order from_cursor] in *.
    assert (Hc : forall r, r ∈ db_rows (model_as_table idm m) -> Forall (fun c => is_null (cell r c) = false) keys) by (intros r' Hr'%Hnull; by apply Forall_fmap in Hr').
    assert (Hrc : rc ∈ db_rows (model_as_table idm m)).
    { assert (Hin : rc ∈ [rc]) by (by constructor). rewrite <-Hone in Hin. by apply iter_filter_elem in Hin as [? _]. }
    pose proof (fun rest => value_record rest _ keys _ r rc Hone) as Hv.
    destruct (needs_reversed_order a); rewrite cursor_tie_value by auto; (rewrite Hv by (apply Forall_and; auto)); by destruct (order_cmp _ r rc).
Qed.
Lemma iter_filter_ext_in {A} (p q : A -> bool) l : (forall x, x ∈ l -> p x = q x) -> iter_filter p l = iter_filter q l.
Proof.
  intros Hpq. induction l as [|x l IH]; [done|]. cbn. rewrite IH by (intros y Hy; apply Hpq; by constructor).
  by rewrite (Hpq x) by constructor.
Qed.
Lemma iter_filter_ext {A} (p q : A -> bool) l : (forall x, p x = q x) -> iter_filter p l = iter_filter q l.
Proof. intros Hpq. induction l as [|x l IH]; [done|]. cbn. by rewrite Hpq, IH. Qed.
Lemma answered_rows m a cols cur ords idents rows : conn_answers -> take_ok a -> skip_ok a -> needs_implicit_ordering a = true ->
  cursor_build (E := E) idm a m = Ok cur ->
  ordering_for_model (E := E) idm m (forward (ordering_directions a)) = Ok ords ->
  (q ← get_records (E := E) debug_list idm m cols a; conn_filter q idents) = Ok rows -> exists s0,
  rows = (fun r => cell r <$> cols) <$> page (default 0%Z (qa_skip a)) (Z.abs <$> qa_take a) s0 /\
  in_order ords m a cur (if needs_reversed_order a then reverse s0 else s0).
Proof.
  intros Hconn Ht Hs Hi Hcur Hord. apply (ordering_reverse idm m (ordering_directions a) ords Hi) in Hord.
  destruct (filter_cond (E := E) debug_list idm a) as [f| |] eqn:Hf.
  2-3: unfold get_records, into_select; rewrite Hcur; cbn [mbind outcome_bind]; rewrite Hord; cbn [mbind outcome_bind]; by rewrite Hf.
  rewrite (get_records_statement m a cols cur f (if needs_reversed_order a then flip_orders ords else ords)) by done.
  cbn [mbind outcome_bind]. intros Hrows%Hconn. destruct Hrows as (s0 & Hp & Hsort & ->). exists s0. split; [done|].
  assert (Hp' : s0 ≡ₚ iter_filter (fun r => matches a r && is_true (cond_value cur r)) (db_rows (model_as_table idm m))).
  { rewrite Hp. erewrite iter_filter_ext; [reflexivity|]. intros r. by rewrite join_conditions_value, (filter_cond_value a f r Hf). }
  destruct (needs_reversed_order a); [|by split]. split; [by rewrite reverse_Permutation|].
  apply sorted_reverse in Hsort. clear -Hsort HD. induction Hsort as [|x l _ IH Hx]; constructor; [done|].
  eapply Forall_impl; [exact Hx|]. intros y Hy. unfold order_le in *. by rewrite order_cmp_flip in Hy.
Qed.
Lemma sorted_weaken {A} (R R' : A -> A -> Prop) l : (forall x y, R x y -> R' x y) -> StronglySorted R l -> StronglySorted R' l.
Proof. intros HR. induction 1 as [|x l _ IH Hx]; constructor; [done|]. eapply Forall_impl; [exact Hx|]. intros y. apply HR. Qed.
Lemma window_page tk skip (s : list Row) : (match tk with Some t => (t <? 0)%Z | None => false end) = false ->
  page skip (Z.abs <$> tk) s = window tk skip s.
Proof. destruct tk as [t|]; cbn; [|done]. intros Ht. rewrite Ht. apply Z.ltb_ge in Ht. by rewrite Z.abs_eq. Qed.
End reads.

(** ** Sorting the records *)
Section sorting.
Context {A : Type} (le : A -> A -> bool).
Lemma insert_sorted_perm x l : insert_sorted le x l ≡ₚ x :: l.
Proof. induction l as [|y l IH]; [done|]. cbn. destruct (le x y); [done|]. etransitivity; [apply perm_skip, IH|apply perm_swap]. Qed.
Lemma sort_by_perm l : sort_by le l ≡ₚ l.
Proof. induction l as [|x l IH]; [done|]. cbn. rewrite insert_sorted_perm. by constructor. Qed.
Lemma sort_by_sorted l : (forall x y, le x y = false -> le y x = true) -> (forall x y z, le x y = true -> le y z = true -> le x z = true) ->
  StronglySorted (fun x y => le x y = true) (sort_by le l).
Proof.
  intros Htotal Htrans. induction l as [|x l IH]; [constructor|].
  change (sort_by le (x :: l)) with (insert_sorted le x (sort_by le l)). induction IH as [|y k Hs IHk Hy]; cbn; [by repeat constructor|].
  destruct (le x y) eqn:E.
  - constructor; [by constructor|]. constructor; [done|]. eapply Forall_impl; [exact Hy|]. intros z Hz. by eapply Htrans.
  - constructor; [done|]. rewrite insert_sorted_perm. constructor; [by apply Htotal|done].
Qed.
End sorting.
Section order_by.
Context `{VT : ValueTypes} {VO : ValueOrd VT} (HVO : ValueOrdOk VT VO).
Definition directed_le (o : SortOrder) (v w : PrismaValue) : bool :=
  match o with Ascending => cmp_le (value_cmp v w) | Descending => cmp_le (value_cmp w v) end.
Lemma value_le_total v w : cmp_le (value_cmp v w) = false -> cmp_le (value_cmp w v) = true.
Proof. rewrite (value_cmp_antisym HVO w v). by destruct (value_cmp v w). Qed.
Lemma value_le_trans v w u : cmp_le (value_cmp v w) = true -> cmp_le (value_cmp w u) = true -> cmp_le (value_cmp v u) = true.
Proof.
  destruct (value_cmp v w) eqn:E1; try done; intros _.
  - by rewrite (value_cmp_eq HVO v w u E1).
  - destruct (value_cmp w u) eqn:E2; try done; intros _; [|by rewrite (value_cmp_lt HVO v w u)].
    rewrite (value_cmp_antisym HVO v u), (value_cmp_eq HVO w u v E2), <-(value_cmp_antisym HVO v w), E1. done.
Qed.
(** The records are sorted by the value of the column. *)
Definition sorted_by (ob : OrderBy) (m : ManyRecords) : Prop :=
  StronglySorted (fun a b => forall i v w, last_position (sf_db_name (ob_field ob)) (mr_field_names m) = Some i ->
    rec_values a !! i = Some v -> rec_values b !! i = Some w -> directed_le (sort_order ob) v w = true) (records m).
Lemma order_by_spec {E} ob m m' : order_by (E := E) ob m = Ok m' -> records m' ≡ₚ records m /\ sorted_by ob m'.
Proof.
  unfold order_by. destruct (records m) as [|r0 [|r1 rs]] eqn:Er.
  - intros [= <-]. unfold sorted_by. rewrite Er. split; [done|constructor].
  - intros [= <-]. unfold sorted_by. rewrite Er. split; [done|by repeat constructor].
  - set (l := r0 :: r1 :: rs). destruct (last_position _ _) as [i|] eqn:Ei; cbn [unwrap mbind outcome_bind]; [|done].
    destruct (map_m _ l) as [keyed| |] eqn:Ek; cbn [mbind outcome_bind]; [|done..]. intros [= <-].
    assert (Hk : keyed.*2 = l /\ Forall (fun p => rec_values p.2 !! i = Some p.1) keyed).
    { clearbody l. clear Er. revert keyed Ek. induction l as [|r l IH]; intros keyed; cbn; [by intros [= <-]|].
      destruct (rec_values r !! i) as [v|] eqn:Ev; cbn; [|done]. destruct (map_m _ l) as [k| |]; cbn; [|done..]. intros [= <-].
      destruct (IH k eq_refl) as [H1 H2]. cbn. by rewrite H1; split; [|constructor]. }
    destruct Hk as [Hl HF]. set (le := fun a b : PrismaValue * DbRecord => match sort_order ob with Ascending => _ | Descending => _ end).
    assert (Hle : forall a b, le a b = directed_le (sort_order ob) a.1 b.1) by done. clearbody le. unfold sorted_by. cbn [records mr_field_names]. split.
    + rewrite <-Hl. by rewrite (sort_by_perm le keyed).
    + assert (Hs : StronglySorted (fun x y => le x y = true) (sort_by le keyed)).
      { apply sort_by_sorted.
        - intros x y. rewrite !Hle. unfold directed_le. destruct (sort_order ob); apply value_le_total.
        - intros x y z. rewrite !Hle. unfold directed_le. destruct (sort_order ob); [apply value_le_trans|]. intros H1 H2. by eapply value_le_trans. }
      assert (HF' : Forall (fun p => rec_values p.2 !! i = Some p.1) (sort_by le keyed)) by (by rewrite (sort_by_perm le keyed)).
      clear -Hs HF' Hle Ei. induction Hs as [|x k Hs IH Hx]; [constructor|]. inversion HF' as [|? ? H1 H2]. cbn. constructor; [by apply IH|].
      rewrite Forall_fmap. rewrite Forall_forall in Hx, H2 |- *. intros y Hy j v w Hj Hv Hw. cbn in *. rewrite Ei in Hj. injection Hj as <-.
      rewrite H1 in Hv. injection Hv as <-. rewrite (H2 y Hy) in Hw. injection Hw as <-. rewrite <-Hle. by apply Hx.
Qed.
End order_by.

(** ** Batched reads *)
Section batched.
Context `{VT : ValueTypes} {VO : ValueOrd VT} (HVO : ValueOrdOk VT VO) `{IT : Itertools} {Q : Quaint} {Row : Type} {D : SqlDb Row} (HD : SqlDbOk D).
Context (debug_list : list PrismaValue -> string) (idm : InternalDataModel).
Context {E : Type} (conn_filter : QSelect -> list (TypeIdentifier * FieldArity) -> outcome E (list (list PrismaValue))).
Context (Hconn : conn_answers (D := D) conn_filter).
(** All that the query asks for is a filter. *)
Definition only_filter (a : QueryArguments) : Prop := qa_cursor a = None /\ qa_take a = None /\ qa_skip a = None.
Lemma unpaged_rows m a cols q idents rows : only_filter a -> qa_order_by a = None -> get_records (E := E) debug_list idm m cols a = Ok q ->
  conn_filter q idents = Ok rows -> rows ≡ₚ (fun r => cell r <$> cols) <$> iter_filter (matches debug_list idm (E := E) a) (db_rows (model_as_table idm m)).
Proof.
  intros (Hc & Ht & Hs) Ho Hq Hrows.
  assert (Hcur : cursor_build (E := E) idm a m = Ok no_condition) by (unfold cursor_build; by rewrite Hc).
  destruct (ordering_for_model (E := E) idm m (ordering_directions a)) as [ords| |] eqn:Eord.
  2-3: unfold get_records, into_select in Hq; rewrite Hcur in Hq; cbn [mbind outcome_bind] in Hq; rewrite Eord in Hq; done.
  destruct (filter_cond (E := E) debug_list idm a) as [f| |] eqn:Ef.
  2-3: unfold get_records, into_select in Hq; rewrite Hcur in Hq; cbn [mbind outcome_bind] in Hq; rewrite Eord in Hq; cbn [mbind outcome_bind] in Hq; rewrite Ef in Hq; done.
  rewrite (get_records_statement debug_list idm m a cols no_condition f ords) in Hq; try done;
    [|unfold take_ok; rewrite Ht; done|unfold skip_ok; rewrite Hs; cbn; lia].
  injection Hq as <-. apply Hconn in Hrows as (s & Hp & _ & ->). rewrite Ht, Hs. cbn. unfold page; cbn. rewrite drop_0, Hp.
  erewrite iter_filter_ext; [reflexivity|]. intros r. rewrite join_conditions_value by done.
  rewrite (filter_cond_value HD debug_list idm a f r Ef), value_none. by rewrite andb_true_r.
Qed.
Lemma collect_rows results r0 r : for_each (fun records result => rows ← result; Ok (push_rows rows records)) results r0 = Ok r ->
  exists rowss : list (list (list PrismaValue)), results = (Ok (E := E) <$> rowss) /\ rec_values <$> records r = (rec_values <$> records r0) ++ mjoin rowss.
Proof.
  revert r0. induction results as [|x results IH]; intros r0; cbn; [intros [= <-]; exists []; by rewrite app_nil_r|].
  destruct x as [rows| |]; cbn; try done. intros (rowss & -> & Hr)%IH. exists (rows :: rowss). split; [done|].
  rewrite Hr, push_rows_values. cbn. by rewrite app_assoc.
Qed.
Lemma batch_rows m a cols idents fs qs rowss : only_filter a -> qa_order_by a = None ->
  map_m (fun args => get_records (E := E) debug_list idm m cols args) ((fun f => set_filter f a) <$> fs) = Ok qs ->
  (fun q => conn_filter q idents) <$> qs = Ok <$> rowss ->
  mjoin rowss ≡ₚ mjoin ((fun g => (fun r => cell r <$> cols) <$> iter_filter (fun r => is_true (filter_value E debug_list idm g r)) (db_rows (model_as_table idm m))) <$> fs).
Proof.
  intros Hof Hob. revert qs rowss. induction fs as [|f fs IH]; intros qs rowss.
  - cbn. intros [= <-]. by destruct rowss.
  - rewrite fmap_cons. cbn [map_m]. destruct (get_records debug_list idm m cols (set_filter f a)) as [q| |] eqn:Eq; cbn [mbind outcome_bind]; try done.
    destruct (map_m _ (_ <$> fs)) as [qs'| |] eqn:Eqs; cbn [mbind outcome_bind]; try done. intros [= <-] Hres.
    destruct rowss as [|rows rowss]; [done|]. rewrite !fmap_cons in Hres. injection Hres as Hrow Hrest.
    cbn [mjoin list_join]. apply Permutation_app; [|by apply IH with qs'].
    by rewrite (unpaged_rows m (set_filter f a) cols q idents rows).
Qed.
End batched.
