(* ===== verification/ReadSamples.v ===== *)
(** * A small database, for examples of reading

    An in-memory table with an evaluator of the statements, and the interfaces
    of the query builder and the database that it satisfies. *)
From stdpp Require Import sorting.
From S2P Require Import Prelude SqlSchema Dml Converter Models Convert Projections Filters ValueOrder SqlRead ReadFacts.

#[local] Existing Instance sample_values.
Definition sample_decimal_cmp (a b : Z * nat) : comparison := (a.1 * 10 ^ Z.of_nat b.2 ?= b.1 * 10 ^ Z.of_nat a.2)%Z.
#[export] Instance sample_order : ValueOrd sample_values := {|
  uuid_cmp := String.compare;
  datetime_cmp := Z.compare;
  decimal_cmp := sample_decimal_cmp;
  stringify_date d := "date";
  decimal_trunc_i64 d := Some (Z.quot d.1 (10 ^ Z.of_nat d.2))%Z;
  debug_value _ := EmptyString;
  debug_type _ := EmptyString;
|}.
Lemma sample_decimal_ok : cmp_ok sample_decimal_cmp.
Proof.
  assert (Hpos : forall n, (0 < 10 ^ Z.of_nat n)%Z) by (intros; apply Z.pow_pos_nonneg; lia).
  unfold sample_decimal_cmp. split_and!.
  - intros x. apply Z.compare_refl.
  - intros x y. apply Z.compare_antisym.
  - intros c x y z. pose proof (Hpos x.2). pose proof (Hpos y.2). pose proof (Hpos z.2).
    destruct c; rewrite ?Z.compare_eq_iff, ?Z.compare_lt_iff, ?Z.compare_gt_iff; nia.
  - intros x y z. pose proof (Hpos x.2). pose proof (Hpos y.2). pose proof (Hpos z.2). intros Hxy%Z.compare_eq_iff.
    destruct (Z.compare_spec (x.1 * 10 ^ Z.of_nat z.2) (z.1 * 10 ^ Z.of_nat x.2)); rewrite ?Z.compare_eq_iff, ?Z.compare_lt_iff, ?Z.compare_gt_iff; nia.
Qed.
Lemma sample_order_ok : ValueOrdOk sample_values sample_order.
Proof. split; [apply string_cmp_ok|apply Z_cmp_ok|apply sample_decimal_ok]. Qed.

(** ** Statements as data *)
Definition SampleRow : Type := list (string * PrismaValue).
Definition sample_cell (r : SampleRow) (c : string) : PrismaValue := default PV_Null (snd <$> iter_find (fun p => p.1 ≟ c) r).
Definition SampleCond : Type := option (SampleRow -> option bool).
Definition sample_value (c : SampleCond) (r : SampleRow) : option bool := match c with Some p => p r | None => Some true end.
Record SampleSelect : Type := mkSampleSelect {
  ss_table : string * string;
  ss_cond : SampleCond;
  ss_offset : Z;
  ss_orders : list (string * QOrder);
  ss_limit : option Z;
  ss_columns : list string;
}.
Definition sample_is (o : QCompare) (a b : PrismaValue) : bool := compare_holds o (value_cmp a b).
Section sample_db.
Context (rows : string * string -> list SampleRow).
(** A subselect stands for the first row that it finds. *)
Definition sample_record (s : SampleSelect) : PrismaValue :=
  match iter_filter (fun r => is_true (sample_value (ss_cond s) r)) (rows (ss_table s)) with
  | r :: _ => PV_List (sample_cell r <$> ss_columns s)
  | [] => PV_Null
  end.
#[local] Instance sample_quaint : Quaint := {|
  QTable := string * string;
  QColumn := string;
  QExpr := SampleRow -> PrismaValue;
  QCond := SampleCond;
  QSelect := SampleSelect;
  table_from t := t;
  table_alias t _ := t;
  table_same_type a b := a ≟ b;
  column_from c := c.2;
  column_named c := c;
  column_table c _ := c;
  column_eqb a b := a ≟ b;
  expr_column c r := sample_cell r c;
  expr_row cs r := PV_List (sample_cell r <$> cs);
  expr_value v _ := v;
  expr_values l _ := PV_List l;
  expr_select s _ := sample_record s;
  no_condition := None;
  negative_condition := Some (fun _ => Some false);
  cond_and l := Some (fun r => k_and ((fun c => sample_value c r) <$> l));
  cond_or l := Some (fun r => k_or ((fun c => sample_value c r) <$> l));
  cond_not c := Some (fun r => k_not (sample_value c r));
  cond_compare o e x := Some (fun r => Some (sample_is o (e r) (x r)));
  cond_like _ _ _ := Some (fun _ => None);
  cond_is_null e := Some (fun r => Some (is_null (e r)));
  cond_is_not_null e := Some (fun r => Some (negb (is_null (e r))));
  cond_in e vs := Some (fun r => Some (existsb (sample_is QEquals (e r)) vs));
  cond_in_rows e ls := Some (fun r => Some (existsb (fun l => sample_is QEquals (e r) (PV_List l)) ls));
  cond_not_in e vs := Some (fun r => Some (forallb (sample_is QNotEquals (e r)) vs));
  cond_not_in_rows e ls := Some (fun r => Some (forallb (fun l => sample_is QNotEquals (e r) (PV_List l)) ls));
  cond_in_select _ _ := Some (fun _ => None);
  cond_not_in_select _ _ := Some (fun _ => None);
  is_no_condition c := match c with None => true | Some _ => false end;
  select_from t := mkSampleSelect t None 0 [] None [];
  so_that c s := mkSampleSelect (ss_table s) c (ss_offset s) (ss_orders s) (ss_limit s) (ss_columns s);
  select_and_where c s := mkSampleSelect (ss_table s) (Some (fun r => k_and [sample_value (ss_cond s) r; sample_value c r])) (ss_offset s) (ss_orders s) (ss_limit s) (ss_columns s);
  select_inner_join _ _ s := s;
  select_offset n s := mkSampleSelect (ss_table s) (ss_cond s) n (ss_orders s) (ss_limit s) (ss_columns s);
  select_limit n s := mkSampleSelect (ss_table s) (ss_cond s) (ss_offset s) (ss_orders s) (Some n) (ss_columns s);
  select_order_by o s := mkSampleSelect (ss_table s) (ss_cond s) (ss_offset s) (ss_orders s ++ [o]) (ss_limit s) (ss_columns s);
  select_column c s := mkSampleSelect (ss_table s) (ss_cond s) (ss_offset s) (ss_orders s) (ss_limit s) (ss_columns s ++ [c]);
  select_count s := s;
|}.
#[local] Arguments is_true : simpl never.
Lemma is_true_Some b : is_true (Some b) = b.
Proof. by destruct b. Qed.
#[local] Instance sample_db : SqlDb SampleRow := {|
  db_rows := rows;
  cell := sample_cell;
  cond_value := sample_value;
  db_cmp := value_cmp;
|}.
Lemma sample_value_expr v r : value_expr v r = v.
Proof. by destruct v. Qed.
Lemma sample_db_ok : SqlDbOk sample_db.
Proof.
  pose proof sample_order_ok as HO. split; cbn.
  - split_and!.
    + apply (value_cmp_refl HO).
    + intros x y. apply (value_cmp_antisym HO).
    + intros [] x y z Hxy Hyz.
      * by rewrite <-(value_cmp_eq HO x y z Hxy).
      * by apply (value_cmp_lt HO x y z).
      * rewrite (value_cmp_antisym HO x z). rewrite (value_cmp_antisym HO x y) in Hxy. rewrite (value_cmp_antisym HO y z) in Hyz.
        rewrite (value_cmp_lt HO z y x); [done|..]; [by destruct (value_cmp z y)|by destruct (value_cmp y x)].
    + apply (value_cmp_eq HO).
  - done.
  - done.
  - by intros [p|] r.
  - done.
  - done.
  - done.
  - done.
  - intros e x r. unfold sample_is. by destruct (value_cmp (e r) (x r)).
  - intros e vs r. rewrite is_true_Some. induction vs as [|v vs IH]; [done|]. cbn. by rewrite IH, is_true_Some, sample_value_expr.
  - intros e ls r. rewrite is_true_Some. induction ls as [|l ls IH]; [done|]. cbn. by rewrite IH, is_true_Some.
  - intros e vs r. rewrite is_true_Some. induction vs as [|v vs IH]; [done|]. cbn. by rewrite IH, is_true_Some, sample_value_expr.
  - intros e ls r. rewrite is_true_Some. induction ls as [|l ls IH]; [done|]. cbn. by rewrite IH, is_true_Some.
  - intros o e v w r Hvw. rewrite !sample_value_expr. unfold sample_is.
    rewrite (value_cmp_antisym HO (e r) v), (value_cmp_antisym HO (e r) w). by rewrite (value_cmp_eq HO v w (e r) Hvw).
  - intros e v w r. rewrite !is_true_Some, !sample_value_expr. unfold sample_is. destruct (value_cmp (e r) v) eqn:E1; try done.
    destruct (value_cmp (e r) w) eqn:E2; try done. intros _ _. by rewrite (value_cmp_eq HO (e r) v w E1).
Qed.
Lemma select_columns_data s cs : foldl (fun acc o => select_column o acc) s cs =
  mkSampleSelect (ss_table s) (ss_cond s) (ss_offset s) (ss_orders s) (ss_limit s) (ss_columns s ++ cs).
Proof. revert s. induction cs as [|x cs IH]; intros s; cbn; [rewrite app_nil_r; by destruct s|]. rewrite IH. cbn. by rewrite <-app_assoc. Qed.
Lemma sample_record_ok : SqlRecordOk sample_db.
Proof.
  split. intros o t cs w r record Hone _. rewrite select_columns_data.
  assert (He : value_cmp (PV_List (sample_cell r <$> cs)) (sample_record (mkSampleSelect t w 0 [] None cs)) = order_cmp (ascending cs) r record).
  { unfold sample_record; cbn [ss_cond ss_table ss_columns]. cbn in Hone. rewrite Hone, value_cmp_list. clear. induction cs as [|c cs IH]; [done|]. cbn. by rewrite IH. }
  rewrite <-He. apply is_true_Some.
Qed.
(** Orders compare transitively. *)
Lemma order_le_trans ords (a b c : SampleRow) : order_le ords a b -> order_le ords b c -> order_le ords a c.
Proof.
  pose proof sample_order_ok as HO. unfold order_le. induction ords as [|[k o] ords IH]; [done|]. cbn.
  set (x := sample_cell a k). set (y := sample_cell b k). set (z := sample_cell c k).
  assert (Hdir : forall u v w, directed o (value_cmp u v) = Eq -> directed o (value_cmp v w) = directed o (value_cmp u w)).
  { intros u v w Huv. f_equal. apply (value_cmp_eq HO). by destruct o, (value_cmp u v). }
  assert (Hlt : forall u v w, directed o (value_cmp u v) = Lt -> directed o (value_cmp v w) = Lt -> directed o (value_cmp u w) = Lt).
  { intros u v w. destruct o; cbn; [apply (value_cmp_lt HO)|]. rewrite <-!(value_cmp_antisym HO). intros H1 H2. by apply (value_cmp_lt HO w v u). }
  assert (Heq : forall u v w, directed o (value_cmp v w) = Eq -> directed o (value_cmp u v) = directed o (value_cmp u w)).
  { intros u v w Hvw. f_equal. rewrite (value_cmp_antisym HO u v), (value_cmp_antisym HO u w). f_equal. symmetry. apply (value_cmp_eq HO). by destruct o, (value_cmp v w). }
  destruct (directed o (value_cmp x y)) eqn:E1; [|clear IH|done].
  - rewrite (Hdir x y z E1). destruct (directed o (value_cmp x z)); [apply IH|done..].
  - intros _. destruct (directed o (value_cmp y z)) eqn:E2; [|by rewrite (Hlt x y z)|done]. by rewrite <-(Heq x y z E2), E1.
Qed.
Definition order_leb (ords : list (string * QOrder)) (a b : SampleRow) : bool := cmp_le (order_cmp ords a b).
(** The answer of the database. *)
Definition sample_run (s : SampleSelect) : list (list PrismaValue) :=
  (fun r => sample_cell r <$> ss_columns s) <$>
  page (ss_offset s) (ss_limit s) (sort_by (order_leb (ss_orders s)) (iter_filter (fun r => is_true (sample_value (ss_cond s) r)) (rows (ss_table s)))).
Definition sample_conn (s : SampleSelect) (idents : list (TypeIdentifier * FieldArity)) : outcome string (list (list PrismaValue)) := Ok (sample_run s).
Lemma order_cmp_antisym ords (a b : SampleRow) : order_cmp ords a b = CompOpp (order_cmp ords b a).
Proof.
  induction ords as [|[k o] ords IH]; [done|]. cbn. rewrite IH, (value_cmp_antisym sample_order_ok (sample_cell a k)).
  destruct o; cbn; by destruct (value_cmp (sample_cell b k) (sample_cell a k)).
Qed.
Lemma statement_data t c off ords lim cols : statement t c off ords lim cols = mkSampleSelect t c off ords lim cols.
Proof.
  unfold statement. cbn.
  assert (Ho : forall s os, foldl (fun acc o => select_order_by o acc) s os =
    mkSampleSelect (ss_table s) (ss_cond s) (ss_offset s) (ss_orders s ++ os) (ss_limit s) (ss_columns s)).
  { intros s os. revert s. induction os as [|x os IH]; intros s; cbn; [rewrite app_nil_r; by destruct s|]. rewrite IH. cbn. by rewrite <-app_assoc. }
  pose proof select_columns_data as Hc.
  cbn in Ho, Hc. rewrite Ho. cbn. destruct lim; cbn; by rewrite Hc.
Qed.
Lemma sample_sorted ords l : StronglySorted (order_le ords) (sort_by (order_leb ords) l).
Proof.
  assert (Hle : forall a b, order_leb ords a b = true <-> order_le ords a b) by (intros; unfold order_leb, order_le; by destruct (order_cmp ords a b)).
  assert (Hss : StronglySorted (fun x y => order_leb ords x y = true) (sort_by (order_leb ords) l)).
  { apply sort_by_sorted.
    - intros x y. unfold order_leb. rewrite (order_cmp_antisym ords y x). by destruct (order_cmp ords x y).
    - intros x y z. rewrite !Hle. apply order_le_trans. }
  induction Hss as [|x k _ IH Hx]; constructor; [done|]. eapply Forall_impl; [exact Hx|]. intros y Hy. by apply Hle.
Qed.
Lemma sample_conn_answers : conn_answers (D := sample_db) sample_conn.
Proof.
  intros t c off ords lim cols idents out Hout. injection Hout as <-. rewrite statement_data. unfold answers, sample_run; cbn.
  exists (sort_by (order_leb ords) (iter_filter (fun r => is_true (sample_value c r)) (rows t))). split_and!; [apply sort_by_perm|apply sample_sorted|done].
Qed.
(** A check that no two rows tie. *)
Definition tie_check (ords : list (string * QOrder)) (l : list SampleRow) : bool :=
  let ks := seq 0 (length l) in
  forallb (fun i => forallb (fun j => match l !! i, l !! j with
                                      | Some a, Some b => (i ≟ j) || match order_cmp ords a b with Eq => false | _ => true end
                                      | _, _ => true
                                      end) ks) ks.
Lemma tie_check_spec ords l a b : tie_check ords l = true -> a ∈ l -> b ∈ l -> order_cmp ords a b = Eq -> a = b.
Proof.
  intros Hc [i Hi]%list_elem_of_lookup [j Hj]%list_elem_of_lookup He.
  assert (Hin : forall k x, l !! k = Some x -> k ∈ seq 0 (length l)) by (intros k x Hk%lookup_lt_Some; apply elem_of_seq; lia).
  pose proof (forallb_elem _ _ (forallb_elem _ _ Hc i (Hin _ _ Hi)) j (Hin _ _ Hj)) as H. cbv beta in H. rewrite Hi, Hj, He, orb_false_r in H.
  apply bool_decide_eq_true in H as ->. congruence.
Qed.
End sample_db.

(** ** A table of users *)
Definition user_model : Model := mkModel "User"
  [mkField "id" (Base ScalarInt None) RequiredField None None false true None false false false;
   mkField "name" (Base ScalarString None) RequiredField None None false false None false false false] None None false [] [] false false.
Definition edge_model : Model := mkModel "Edge"
  [mkField "from" (Base ScalarInt None) RequiredField None None false false None false false false;
   mkField "to" (Base ScalarInt None) RequiredField None None false false None false false false] None None false [] ["from"; "to"] false false.
Definition empty_idm : InternalDataModel := mkInternalDataModel [] None EmptyString [] [].
Definition user_idm : InternalDataModel := Eval vm_compute in
  match t ← Convert.convert (IT := sample_itertools) (E := DomainError) (mkDatamodel [] [user_model; edge_model]); InternalDataModelTemplate_build t "db" with
  | Ok idm => idm
  | _ => empty_idm
  end.
Definition user_qm : QueryModel := Eval vm_compute in default (mkQueryModel EmptyString false None (mkFields [] []) []) (head (idm_models user_idm)).
Definition no_field : ScalarField := mkScalarField EmptyString TI_Int true false false false None None RequiredField None None EmptyString false None.
Definition user_id : ScalarField := Eval vm_compute in default no_field (iter_find (fun sf => sf_name sf ≟ "id") (scalar (qm_fields user_qm))).
Definition user_name : ScalarField := Eval vm_compute in default no_field (iter_find (fun sf => sf_name sf ≟ "name") (scalar (qm_fields user_qm))).
Definition edge_qm : QueryModel := Eval vm_compute in default user_qm (head (tail (idm_models user_idm))).
Definition edge_from : ScalarField := Eval vm_compute in default no_field (iter_find (fun sf => sf_name sf ≟ "from") (scalar (qm_fields edge_qm))).
Definition user_row (id : Z) (name : string) : SampleRow := [("id", PV_Int id); ("name", PV_String name)].
Definition user_rows (t : string * string) : list SampleRow :=
  [user_row 3 "Ann"; user_row 1 "Bob"; user_row 4 "Ann"; user_row 2 "Cas"; user_row 5 "Bob"].
Definition user_ids : ModelProjection := [FieldScalar user_id].
(** The ids of the records a query returns, with batches of two values. *)
Definition sample_debug : list PrismaValue -> string := fun _ => EmptyString.
Definition read_users (a : QueryArguments) : outcome string ManyRecords :=
  get_many_records (IT := sample_itertools) (Q := sample_quaint user_rows) sample_debug user_idm 2 (sample_conn user_rows) (fun l => l) user_qm a user_ids.
Definition read_values (a : QueryArguments) : outcome string (list (list PrismaValue)) := recs ← read_users a; Ok (rec_values <$> records recs).
Lemma read_values_ok a vs : read_values a = Ok vs -> exists recs, read_users a = Ok recs /\ rec_values <$> records recs = vs.
Proof. unfold read_values. destruct (read_users a) as [recs| |]; cbn; try done. intros [= <-]. by exists recs. Qed.
Definition ids_of (ids : list Z) : list (list PrismaValue) := (fun i => [PV_Int i]) <$> ids.
Definition ids_in (ids : list Z) : Filter := is_in user_id (PV_Int <$> ids).
Definition query (f : option Filter) (tk skip : option Z) (o : option SortOrder) : QueryArguments :=
  mkQueryArguments None tk skip f (mkOrderBy user_id <$> o).
(** After (or before) the user 1, by name. *)
Definition after_first (o : SortOrder) (tk : option Z) : QueryArguments :=
  mkQueryArguments (Some [(user_id, PV_Int 1)]) tk None None (Some (mkOrderBy user_name o)).
