(* ===== verification/Reading.v ===== *)
(** * Theorems on reading many records

    The page a query asks for, batched queries, and where batches and cursors
    give other records than asked for. *)
From stdpp Require Import sorting.
From S2P Require Import Prelude SqlSchema Dml Converter Models Projections Filters ValueOrder SqlRead ReadFacts ReadSamples.

(** ** Theorems *)

(** C20: A query for many records with a page or an order, that is not batched, returns the page that was asked for. The records are those that match the filter and, with a cursor, those from the cursor's record on (with a negative [take] up to it) in the order of the ordered field, or of the identifier; records that tie with the cursor's are among them. Their order is that of the requested field in the requested direction, then that of the identifier, ascending. Of them, the given number is skipped and [take] are returned; with a negative [take], both counted from the end, still in the requested order. Conditions: the values of the identifier determine the record; so does the ordered field when it is unique or part of the identifier (the connector then orders by it alone); and there is one record with the cursor's values, and no null in the columns it is compared by. *)
Theorem reads_requested_page `{VT : ValueTypes} {VO : ValueOrd VT} `{IT : Itertools} {Q : Quaint} {Row : Type} {D : SqlDb Row} (HD : SqlDbOk D) (HR : SqlRecordOk D)
    (debug_list : list PrismaValue -> string) (idm : InternalDataModel) (batch_size : nat) {E : Type}
    (conn_filter : QSelect -> list (TypeIdentifier * FieldArity) -> outcome E (list (list PrismaValue)))
    (complete : list (outcome E (list (list PrismaValue))) -> list (outcome E (list (list PrismaValue))))
    (m : QueryModel) (a : QueryArguments) (selected : ModelProjection) (cols ids keys : list QColumn) (ob : option (QColumn * QOrder))
    (record : option Row) (s : list Row) (recs : ManyRecords) :
  conn_answers (D := D) conn_filter -> take_ok a -> skip_ok a -> needs_implicit_ordering a = true -> qa_can_batch batch_size a = false ->
  mp_as_columns (E := E) idm selected = Ok cols -> identifier_columns (E := E) idm m = Ok ids -> key_columns (E := E) idm m = Ok keys ->
  asked_field (E := E) idm a = Ok ob -> decides_order (Row := Row) idm m a ob ids -> cursor_record (E := E) idm a m (cursor_order ob keys) record ->
  s ≡ₚ iter_filter (fun r => matches (E := E) debug_list idm a r && from_cursor (cursor_order ob keys) (needs_reversed_order a) record r) (db_rows (model_as_table idm m)) ->
  StronglySorted (order_le (asked_order ob ids)) s ->
  get_many_records debug_list idm batch_size conn_filter complete m a selected = Ok recs ->
  rec_values <$> records recs = (fun r => cell r <$> cols) <$> window (qa_take a) (default 0%Z (qa_skip a)) s.
Proof.
  intros Hconn Ht Hs Hi Hb Hcols Hids Hkeys Hob Hdec Hrec Hp Hsort.
  destruct (asked_order_code idm m a ob ids Hi Hids Hob Hdec) as (ords & Hord & Htie & Hle).
  destruct (cursor_value HD idm HR m a ob keys record Hob Hkeys Hrec) as (cur & Hcur & Hcv).
  unfold get_many_records. rewrite Hb.
  destruct (mp_db_names idm selected) as [names| |]; cbn [mbind outcome_bind]; try done.
  destruct (type_identifiers_with_arities idm selected) as [idents| |]; cbn [mbind outcome_bind]; try done.
  rewrite Hcols. cbn [mbind outcome_bind].
  destruct (get_records debug_list idm m cols a) as [q| |] eqn:Eq; cbn [mbind outcome_bind]; try done.
  destruct (conn_filter q idents) as [rows| |] eqn:Er; cbn [mbind outcome_bind]; try done. intros [= <-].
  destruct (answered_rows HD debug_list idm conn_filter m a cols cur ords idents rows) as (s0 & -> & Hp0 & Hs0); [done..|by rewrite Eq|].
  assert (Hsame : (if needs_reversed_order a then reverse s0 else s0) = s).
  { apply (sorted_page HD ords (db_rows (model_as_table idm m))); [exact Htie|..].
    - intros x Hx. rewrite Hp0 in Hx. by apply iter_filter_elem in Hx as [? _].
    - rewrite Hp0, Hp. erewrite iter_filter_ext_in; [reflexivity|]. intros r Hr. cbn. by rewrite (Hcv r Hr).
    - done.
    - by apply (sorted_weaken _ _ _ Hle). }
  destruct (needs_reversed_order a) eqn:Erev; cbn [reverse_records records].
  - rewrite fmap_reverse, push_rows_values. cbn [ManyRecords_new records fmap list_fmap app]. rewrite <-fmap_reverse. f_equal. subst s.
    unfold needs_reversed_order in Erev. unfold window, page. destruct (qa_take a) as [t|]; [|done]. rewrite Erev, reverse_involutive. cbn.
    apply Z.ltb_lt in Erev. by rewrite Z.abs_neq by lia.
  - rewrite push_rows_values. cbn [ManyRecords_new records fmap list_fmap app]. subst s. f_equal. by apply window_page.
Qed.

(** Of the users by descending name, the last two up to the user 1 (called Bob), skipping none. *)
Lemma reads_requested_page_witness : exists recs, read_users (after_first Descending (Some (-2)%Z)) = Ok recs /\
  rec_values <$> records recs = ids_of [1; 5]%Z.
Proof.
  destruct (read_values_ok (after_first Descending (Some (-2)%Z)) (ids_of [1; 5]%Z)) as (recs & E & _); [vm_compute; reflexivity|].
  exists recs. split; [exact E|].
  rewrite (reads_requested_page (IT := sample_itertools) (sample_db_ok user_rows) (sample_record_ok user_rows) sample_debug user_idm 2 (sample_conn user_rows) (fun l => l) user_qm
    (after_first Descending (Some (-2)%Z)) user_ids ["id"] ["id"] ["id"] (Some ("name", Desc)) (Some (user_row 1 "Bob"))
    [user_row 2 "Cas"; user_row 1 "Bob"; user_row 5 "Bob"] recs).
  - vm_compute. reflexivity.
  - apply sample_conn_answers.
  - intros t [= <-]. lia.
  - unfold skip_ok. cbn. lia.
  - reflexivity.
  - reflexivity.
  - vm_compute. reflexivity.
  - vm_compute. reflexivity.
  - vm_compute. reflexivity.
  - vm_compute. reflexivity.
  - split.
    + intros a b. apply (tie_check_spec user_rows). vm_compute. reflexivity.
    + intros o c [= <-] [= <-] Hu. exfalso. vm_compute in Hu. discriminate Hu.
  - exists ["id"], (user_row 1 "Bob"). split_and!; [vm_compute; reflexivity|reflexivity|vm_compute; reflexivity|].
    intros r Hr. revert Hr. unfold user_rows; cbn. rewrite !elem_of_cons, elem_of_nil. intros Hr. constructor; [|constructor].
    destruct_or!; subst; done.
  - vm_compute. apply perm_swap.
  - repeat constructor; vm_compute; discriminate.
  - exact E.
Defined.

(** C21: A query that can be batched, has no cursor, skip or take, and whose filter is splittable (the long list of values is an In that every result has to satisfy, alone or among the parts of an And), runs as several queries; when none of them fails, the records they return are exactly those that match the filter, each once, in whatever order the queries finish, and sorted by the requested order when there is one. (Without these conditions batching changes the result, see batched_read_differs.) *)
Theorem batched_read_complete `{VT : ValueTypes} {VO : ValueOrd VT} (HVO : ValueOrdOk VT VO) `{IT : Itertools} {Q : Quaint} {Row : Type} {D : SqlDb Row}
    (HD : SqlDbOk D) (debug_list : list PrismaValue -> string) (idm : InternalDataModel) (batch_size : nat) {E : Type}
    (conn_filter : QSelect -> list (TypeIdentifier * FieldArity) -> outcome E (list (list PrismaValue)))
    (complete : list (outcome E (list (list PrismaValue))) -> list (outcome E (list (list PrismaValue))))
    (m : QueryModel) (a : QueryArguments) (selected : ModelProjection) (cols : list QColumn) (f : Filter) (recs : ManyRecords) :
  conn_answers (D := D) conn_filter -> (forall l, complete l ≡ₚ l) -> batch_size <> 0 -> qa_can_batch batch_size a = true ->
  only_filter a -> qa_filter a = Some f -> splittable batch_size f = true -> mp_as_columns (E := E) idm selected = Ok cols ->
  get_many_records debug_list idm batch_size conn_filter complete m a selected = Ok recs ->
  (rec_values <$> records recs ≡ₚ
   (fun r => cell r <$> cols) <$> iter_filter (fun r => is_true (filter_value E debug_list idm f r)) (db_rows (model_as_table idm m))) /\
  (forall ob, qa_order_by a = Some ob -> sorted_by ob recs).
Proof.
  intros Hconn Hcomp Hsize Hb Hof Hf Hsplit Hcols. unfold get_many_records. rewrite Hb.
  assert (Hrev : needs_reversed_order a = false) by (unfold needs_reversed_order; by destruct Hof as (_ & -> & _)). rewrite Hrev.
  destruct (mp_db_names idm selected) as [names| |]; cbn [mbind outcome_bind]; try done.
  destruct (type_identifiers_with_arities idm selected) as [idents| |]; cbn [mbind outcome_bind]; try done.
  unfold qa_batched. cbn [without_order qa_filter]. rewrite Hf.
  destruct (filter_batched_ok HVO (db_matching_ok HD E debug_list idm) batch_size Hsize (E := E) f Hsplit) as (fs & -> & Hcount). cbn [mbind outcome_bind].
  rewrite Hcols. cbn [mbind outcome_bind]. destruct (map_m _ _) as [qs| |] eqn:Eqs; cbn [mbind outcome_bind]; try done.
  destruct (for_each _ _ _) as [r| |] eqn:Er; cbn [mbind outcome_bind]; try done.
  apply collect_rows in Er as (rowss & Hres & Hvals). cbn [ManyRecords_new records fmap list_fmap app] in Hvals.
  pose proof (Hcomp ((fun q => conn_filter q idents) <$> qs)) as Hperm. rewrite Hres in Hperm. symmetry in Hperm.
  apply Permutation_map_inv in Hperm as (rowss' & Hres' & Hperm).
  assert (Hset : (fun g => set_filter g (without_order a)) <$> fs = (fun g => set_filter g (without_order a)) <$> fs) by done.
  assert (Hrows : rec_values <$> records r ≡ₚ (fun r => cell r <$> cols) <$> iter_filter (fun r => is_true (filter_value E debug_list idm f r)) (db_rows (model_as_table idm m))).
  { rewrite Hvals, Hperm. rewrite (batch_rows HD debug_list idm conn_filter Hconn m (without_order a) cols idents fs qs rowss'); try done.
    rewrite <-(results_permutation fs (fun g r => is_true (filter_value E debug_list idm g r)) (fun r => is_true (filter_value E debug_list idm f r)) (db_rows (model_as_table idm m))) by (intros row _; apply Hcount).
    clear. induction fs as [|g fs IH]; [done|]. rewrite !fmap_cons. cbn [mjoin list_join]. by rewrite fmap_app, IH. }
  destruct (qa_order_by a) as [ob|]; cbn [mbind outcome_bind].
  - destruct (order_by ob r) as [r'| |] eqn:Eo; cbn [mbind outcome_bind]; try done. intros [= <-].
    destruct (order_by_spec HVO ob r r' Eo) as [H1 H2]. split; [by rewrite H1|]. by intros ob' [= <-].
  - intros [= <-]. done.
Qed.

Lemma batched_read_complete_witness : exists recs, read_users (query (Some (ids_in [1; 4; 9; 3; 4]%Z)) None None (Some Descending)) = Ok recs /\
  rec_values <$> records recs ≡ₚ ids_of [3; 1; 4]%Z /\ sorted_by (mkOrderBy user_id Descending) recs.
Proof.
  destruct (read_values_ok (query (Some (ids_in [1; 4; 9; 3; 4]%Z)) None None (Some Descending)) (ids_of [4; 3; 1]%Z)) as (recs & E & _); [vm_compute; reflexivity|].
  exists recs. split; [exact E|].
  destruct (batched_read_complete (IT := sample_itertools) sample_order_ok (sample_db_ok user_rows) sample_debug user_idm 2 (sample_conn user_rows) (fun l => l) user_qm
    (query (Some (ids_in [1; 4; 9; 3; 4]%Z)) None None (Some Descending)) user_ids ["id"] (ids_in [1; 4; 9; 3; 4]%Z) recs) as [Hp Hs].
  - apply sample_conn_answers.
  - intros l. reflexivity.
  - discriminate.
  - reflexivity.
  - repeat split.
  - reflexivity.
  - reflexivity.
  - vm_compute. reflexivity.
  - exact E.
  - split; [|apply Hs; reflexivity]. rewrite Hp. vm_compute. reflexivity.
Defined.

(** A batched query does not return what was asked for in these cases, with batches of two values. A [NotIn] returns every record, most of them several times, since each batch excludes its own values only. An [Or] returns the records of its other branch once per batch. [take] applies to each batch, so taking one record returns two. A negative [take] reverses the records after they were sorted, so they come in the opposite order. *)
Theorem batched_read_differs :
  read_values (query (Some (not_in user_id (PV_Int <$> [1; 2; 3]%Z))) None None None) = Ok (ids_of [3; 4; 5; 1; 4; 2; 5]%Z) /\
  read_values (query (Some (FOr [ids_in [1; 2; 3]%Z; equals user_name (PV_String "Ann")])) None None None) = Ok (ids_of [3; 1; 4; 2; 3; 4]%Z) /\
  read_values (query (Some (ids_in [1; 2; 3; 4]%Z)) (Some 1%Z) None None) = Ok (ids_of [1; 3]%Z) /\
  read_values (query (Some (ids_in [1; 2; 3; 4]%Z)) (Some (-4)%Z) None (Some Ascending)) = Ok (ids_of [4; 3; 2; 1]%Z).
Proof. split; [|split; [|split]]; vm_compute; reflexivity. Qed.

(** A cursor does not separate records that have the same value in the ordered column. The condition built for a cursor together with an order is true for a row exactly when the ordered column is at or after that of the cursor's record: the comparison with the cursor itself, meant for ties, changes nothing, so records with the same value that come before the cursor are returned as well. *)
Theorem cursor_keeps_ties `{VT : ValueTypes} {VO : ValueOrd VT} `{IT : Itertools} {Q : Quaint} {Row : Type} {D : SqlDb Row} (HD : SqlDbOk D)
    (idm : InternalDataModel) {E : Type} (m : QueryModel) (a : QueryArguments) (ob : OrderBy) (cursor : RecordProjection) (c : QCond) :
  qa_order_by a = Some ob -> qa_cursor a = Some cursor -> cursor_build (E := E) idm a m = Ok c ->
  exists column record, as_column (E := E) idm (ob_field ob) = Ok column /\
  forall r : Row, is_true (cond_value c r) =
    is_true (cond_value (cond_compare (if Bool.eqb (needs_reversed_order a) (bool_decide (sort_order ob = Ascending)) then QLessThanOrEquals else QGreaterThanOrEquals)
                           (expr_row [column]) record) r).
Proof.
  intros Hob Hcur. unfold cursor_build. rewrite Hob, Hcur. cbn [mbind outcome_bind fst snd map_m].
  destruct (as_column idm (ob_field ob)) as [col| |]; cbn [mbind outcome_bind]; try done.
  destruct (map_m (as_column idm) (rp_fields cursor)) as [cs| |]; cbn [mbind outcome_bind]; try done. intros [= <-].
  eexists col, _. split; [done|]. intros r.
  destruct (needs_reversed_order a), (sort_order ob); cbn; apply (cursor_tie_value HD); auto.
Qed.
Lemma cursor_keeps_ties_witness : exists c record, cursor_build (IT := sample_itertools) (Q := sample_quaint user_rows) (E := string) user_idm (after_first Ascending None) user_qm = Ok c /\
  forall r : SampleRow, is_true (sample_value c r) = is_true (sample_value (cond_compare (Quaint := sample_quaint user_rows) QGreaterThanOrEquals (expr_row (Quaint := sample_quaint user_rows) ["name"]) record) r).
Proof.
  assert (Hok : match cursor_build (IT := sample_itertools) (Q := sample_quaint user_rows) (E := string) user_idm (after_first Ascending None) user_qm with
                | Ok _ => true | _ => false end = true) by (vm_compute; reflexivity).
  destruct (cursor_build (IT := sample_itertools) (Q := sample_quaint user_rows) (E := string) user_idm (after_first Ascending None) user_qm) as [c| |] eqn:E;
    [clear Hok|discriminate Hok..].
  destruct (cursor_keeps_ties (IT := sample_itertools) (sample_db_ok user_rows) (E := string) user_idm user_qm (after_first Ascending None) (mkOrderBy user_name Ascending)
    [(user_id, PV_Int 1)] c) as (column & record & Hcol & Hr).
  - reflexivity.
  - reflexivity.
  - exact E.
  - vm_compute in Hcol. injection Hcol as <-. exists c, record. split; [reflexivity|]. exact Hr.
Defined.
