(* ===== verification/QueryAst.v ===== *)
(** * Queries of the query engine (query-engine/core/src/query_ast, query-connector/src/write_args.rs)

    Read and write queries as the query graph holds them, with their filters,
    the projections they return, and the arguments of writes. *)
From S2P Require Import Prelude SqlSchema Dml Converter Models Projections Filters.

Section query_ast.
Context `{VT : ValueTypes} {VO : ValueOrd VT} `{IT : Itertools}.

(** ** [WriteArgs] (write_args.rs): values by the names of columns *)
Definition WriteArgs : Type := gmap string PrismaValue.
Definition WriteArgs_from (pairs : list (string * PrismaValue)) : WriteArgs := foldl (fun m p => <[p.1 := p.2]> m) ∅ pairs.
Definition args_insert (key : string) (arg : PrismaValue) (a : WriteArgs) : WriteArgs := <[key := arg]> a.
Definition has_arg_for (a : WriteArgs) (field : string) : bool := match a !! field with Some _ => true | None => false end.
Definition args_field_value (a : WriteArgs) (field : string) : option PrismaValue := a !! field.
Definition take_field_value (field : string) (a : WriteArgs) : option PrismaValue * WriteArgs := (a !! field, delete field a).
Definition add_datetimes (idm : InternalDataModel) (now : PrismaValue) (m : QueryModel) (a : WriteArgs) : WriteArgs :=
  let created_at_field := fields_created_at idm (qm_fields m) in
  let updated_at_field := fields_updated_at idm (qm_fields m) in
  let stamp (o : option ScalarField) (a : WriteArgs) :=
    match o with
    | Some f => match a !! sf_name f with None => args_insert (sf_db_name f) now a | Some _ => a end
    | None => a
    end in
  stamp updated_at_field (stamp created_at_field a).
Definition update_datetimes (idm : InternalDataModel) (now : PrismaValue) (m : QueryModel) (a : WriteArgs) : WriteArgs :=
  if Nat.eqb (size a) 0 then a
  else match fields_updated_at idm (qm_fields m) with
       | Some f => match a !! sf_db_name f with None => args_insert (sf_db_name f) now a | Some _ => a end
       | None => a
       end.
Definition as_record_projection {E} (idm : InternalDataModel) (p : ModelProjection) (a : WriteArgs) : outcome E (option RecordProjection) :=
  fs ← mp_scalar_fields idm p;
  Ok (Some ((fun f => (f, default PV_Null (a !! sf_db_name f))) <$> (fs : list ScalarField))).

(** ** [RecordFilter] (query-connector/src/interface/mod.rs) *)
Record RecordFilter : Type := mkRecordFilter { rfl_filter : Filter; rfl_selectors : option (list RecordProjection) }.
Definition RecordFilter_empty : RecordFilter := mkRecordFilter FEmpty None.
Definition RecordFilter_from_filter (f : Filter) : RecordFilter := mkRecordFilter f None.
Definition RecordFilter_from_selectors (s : list RecordProjection) : RecordFilter := mkRecordFilter FEmpty (Some s).
Definition RecordFilter_from_selector (s : RecordProjection) : RecordFilter := mkRecordFilter FEmpty (Some [s]).
Definition with_rf_filter (f : Filter) (r : RecordFilter) : RecordFilter := mkRecordFilter f (rfl_selectors r).

(** ** Read queries (query_ast/read.rs) *)
Inductive AggregationQuery : Type := AggregationCount (name : string) (args : QueryArguments).
Record RecordQuery (N : Type) : Type := mkRecordQuery {
  rq_name : string;
  rq_alias : option string;
  rq_model : QueryModel;
  rq_filter : option Filter;
  rq_selected_fields : ModelProjection;
  rq_nested : list N;
  rq_selection_order : list string;
}.
Record ManyRecordsQuery (N : Type) : Type := mkManyRecordsQuery {
  mrq_name : string;
  mrq_alias : option string;
  mrq_model : QueryModel;
  mrq_args : QueryArguments;
  mrq_selected_fields : ModelProjection;
  mrq_nested : list N;
  mrq_selection_order : list string;
}.
Record RelatedRecordsQuery (N : Type) : Type := mkRelatedRecordsQuery {
  rrq_name : string;
  rrq_alias : option string;
  rrq_parent_field : RelationField;
  rrq_args : QueryArguments;
  rrq_selected_fields : ModelProjection;
  rrq_nested : list N;
  rrq_selection_order : list string;
  rrq_parent_projections : option (list RecordProjection);
}.
Record AggregateRecordsQuery : Type := mkAggregateRecordsQuery {
  arq_name : string;
  arq_alias : option string;
  arq_model : QueryModel;
  arq_selection_order : list string;
  arq_queries : list AggregationQuery;
}.
Inductive ReadQuery : Type :=
| RQRecord (q : RecordQuery ReadQuery)
| RQManyRecords (q : ManyRecordsQuery ReadQuery)
| RQRelatedRecords (q : RelatedRecordsQuery ReadQuery)
| RQAggregateRecords (q : AggregateRecordsQuery).
Arguments mkRecordQuery {N}.
Arguments mkManyRecordsQuery {N}.
Arguments mkRelatedRecordsQuery {N}.
Arguments rq_name {N}.
Arguments rq_alias {N}.
Arguments rq_model {N}.
Arguments rq_filter {N}.
Arguments rq_selected_fields {N}.
Arguments rq_nested {N}.
Arguments rq_selection_order {N}.
Arguments mrq_name {N}.
Arguments mrq_alias {N}.
Arguments mrq_model {N}.
Arguments mrq_args {N}.
Arguments mrq_selected_fields {N}.
Arguments mrq_nested {N}.
Arguments mrq_selection_order {N}.
Arguments rrq_name {N}.
Arguments rrq_alias {N}.
Arguments rrq_parent_field {N}.
Arguments rrq_args {N}.
Arguments rrq_selected_fields {N}.
Arguments rrq_nested {N}.
Arguments rrq_selection_order {N}.
Arguments rrq_parent_projections {N}.
Definition read_name (q : ReadQuery) : string :=
  match q with
  | RQRecord x => rq_name x
  | RQManyRecords x => mrq_name x
  | RQRelatedRecords x => rrq_name x
  | RQAggregateRecords x => arq_name x
  end.
Definition read_returns {E} (idm : InternalDataModel) (q : ReadQuery) (p : ModelProjection) : outcome E bool :=
  db_names ← mp_db_names idm p;
  match q with
  | RQRecord x => contains_all_db_names idm (rq_selected_fields x) db_names
  | RQManyRecords x => contains_all_db_names idm (mrq_selected_fields x) db_names
  | RQRelatedRecords x => contains_all_db_names idm (rrq_selected_fields x) db_names
  | RQAggregateRecords _ => Ok false
  end.
Definition read_model {E} (idm : InternalDataModel) (q : ReadQuery) : outcome E QueryModel :=
  match q with
  | RQRecord x => Ok (rq_model x)
  | RQManyRecords x => Ok (mrq_model x)
  | RQRelatedRecords x => f ← related_field idm (rrq_parent_field x); upgrade_model idm (rf_model f)
  | RQAggregateRecords x => Ok (arq_model x)
  end.
Definition unimplemented : string := "not yet implemented".
Definition read_get_filter {E} (q : ReadQuery) : outcome E (option Filter) :=
  match q with
  | RQRecord x => Ok (rq_filter x)
  | RQManyRecords x => Ok (qa_filter (mrq_args x))
  | _ => Panic unimplemented
  end.
Definition record_set_filter {N} (f : Filter) (x : RecordQuery N) : RecordQuery N :=
  mkRecordQuery (rq_name x) (rq_alias x) (rq_model x) (Some f) (rq_selected_fields x) (rq_nested x) (rq_selection_order x).
Definition many_set_filter {N} (f : Filter) (x : ManyRecordsQuery N) : ManyRecordsQuery N :=
  mkManyRecordsQuery (mrq_name x) (mrq_alias x) (mrq_model x) (set_filter f (mrq_args x)) (mrq_selected_fields x) (mrq_nested x) (mrq_selection_order x).
Definition read_set_filter {E} (f : Filter) (q : ReadQuery) : outcome E ReadQuery :=
  match q with
  | RQRecord x => Ok (RQRecord (record_set_filter f x))
  | RQManyRecords x => Ok (RQManyRecords (many_set_filter f x))
  | _ => Panic unimplemented
  end.

(** ** Write queries (query_ast/write.rs) *)
Inductive RawQueryType : Type := RawExecute | RawQuery.
Inductive WriteQuery : Type :=
| WQCreateRecord (model : QueryModel) (args : WriteArgs)
| WQUpdateRecord (model : QueryModel) (record_filter : RecordFilter) (args : WriteArgs)
| WQDeleteRecord (model : QueryModel) (record_filter : option RecordFilter)
| WQUpdateManyRecords (model : QueryModel) (record_filter : RecordFilter) (args : WriteArgs)
| WQDeleteManyRecords (model : QueryModel) (record_filter : RecordFilter)
| WQConnectRecords (parent_id : option RecordProjection) (child_ids : list RecordProjection) (relation_field : RelationField)
| WQDisconnectRecords (parent_id : option RecordProjection) (child_ids : list RecordProjection) (relation_field : RelationField)
| WQRaw (query : string) (parameters : list PrismaValue) (raw_type : RawQueryType).
Definition inject_field_arg (key : string) (value : PrismaValue) (q : WriteQuery) : WriteQuery :=
  match q with
  | WQCreateRecord m a => WQCreateRecord m (args_insert key value a)
  | WQUpdateRecord m f a => WQUpdateRecord m f (args_insert key value a)
  | WQUpdateManyRecords m f a => WQUpdateManyRecords m f (args_insert key value a)
  | _ => q
  end.
Definition inject_values_into_args (keys : list string) (values : list PrismaValue) (q : WriteQuery) : WriteQuery :=
  foldl (fun q p => inject_field_arg p.1 p.2 q) q (zip keys values).
Definition inject_projection_into_args (p : RecordProjection) (q : WriteQuery) : WriteQuery :=
  inject_values_into_args (sf_db_name <$> rp_fields p) (rp_values p) q.
Definition write_model {E} (idm : InternalDataModel) (q : WriteQuery) : outcome E QueryModel :=
  match q with
  | WQCreateRecord m _ | WQUpdateRecord m _ _ | WQDeleteRecord m _ | WQUpdateManyRecords m _ _ | WQDeleteManyRecords m _ => Ok m
  | WQConnectRecords _ _ rf | WQDisconnectRecords _ _ rf => upgrade_model idm (rf_model rf)
  | WQRaw _ _ _ => Panic unimplemented
  end.
Definition write_returns {E} (idm : InternalDataModel) (q : WriteQuery) (p : ModelProjection) : outcome E bool :=
  m ← write_model idm q;
  id ← primary_identifier idm m;
  let returns_id := list_eqb ModelField_eqb id p in
  match q with
  | WQCreateRecord _ _ | WQUpdateRecord _ _ _ | WQDeleteRecord _ _ | WQUpdateManyRecords _ _ _ => Ok returns_id
  | WQDeleteManyRecords _ _ | WQConnectRecords _ _ _ | WQDisconnectRecords _ _ _ => Ok false
  | WQRaw _ _ _ => Panic unimplemented
  end.
Definition write_get_filter {E} (q : WriteQuery) : outcome E (option Filter) :=
  match q with
  | WQUpdateRecord _ f _ | WQUpdateManyRecords _ f _ | WQDeleteManyRecords _ f => Ok (Some (rfl_filter f))
  | WQDeleteRecord _ f => Ok (rfl_filter <$> f)
  | _ => Panic unimplemented
  end.
Definition write_set_filter {E} (f : Filter) (q : WriteQuery) : outcome E WriteQuery :=
  match q with
  | WQUpdateRecord m r a => Ok (WQUpdateRecord m (with_rf_filter f r) a)
  | WQUpdateManyRecords m r a => Ok (WQUpdateManyRecords m (with_rf_filter f r) a)
  | WQDeleteManyRecords m r => Ok (WQDeleteManyRecords m (with_rf_filter f r))
  | WQDeleteRecord m (Some r) => Ok (WQDeleteRecord m (Some (with_rf_filter f r)))
  | WQDeleteRecord m None => Ok (WQDeleteRecord m (Some (RecordFilter_from_filter f)))
  | _ => Panic unimplemented
  end.

(** ** [Query] (query_ast/mod.rs) *)
Inductive Query : Type := QRead (q : ReadQuery) | QWrite (q : WriteQuery).
Definition returns {E} (idm : InternalDataModel) (q : Query) (p : ModelProjection) : outcome E bool :=
  match q with QRead rq => read_returns idm rq p | QWrite wq => write_returns idm wq p end.
Definition query_model {E} (idm : InternalDataModel) (q : Query) : outcome E QueryModel :=
  match q with QRead rq => read_model idm rq | QWrite wq => write_model idm wq end.
Definition get_filter {E} (q : Query) : outcome E (option Filter) :=
  match q with QRead rq => read_get_filter rq | QWrite wq => write_get_filter wq end.
Definition query_set_filter {E} (f : Filter) (q : Query) : outcome E Query :=
  match q with
  | QRead rq => rq ← read_set_filter f rq; Ok (QRead rq)
  | QWrite wq => wq ← write_set_filter f wq; Ok (QWrite wq)
  end.
(** [FilteredQuery::add_filter]: a list of filters grows in place, whatever its connective. *)
Definition default_filter_behaviour (fs : list Filter) : Filter := FOr fs.
Definition added_filter (existing : option Filter) (f : Filter) : Filter :=
  match existing with
  | Some (FAnd v) => FAnd (v ++ [f])
  | Some (FOr v) => FOr (v ++ [f])
  | Some (FNot v) => FNot (v ++ [f])
  | Some FEmpty => f
  | Some other => default_filter_behaviour [other; f]
  | None => f
  end.
Definition add_filter {E} (f : Filter) (q : Query) : outcome E Query :=
  existing ← get_filter q; query_set_filter (added_filter existing f) q.
End query_ast.
Arguments mkRecordQuery {_ N}.
Arguments mkManyRecordsQuery {_ N}.
Arguments mkRelatedRecordsQuery {_ N}.
Arguments rq_name {_ N}.
Arguments rq_alias {_ N}.
Arguments rq_model {_ N}.
Arguments rq_filter {_ N}.
Arguments rq_selected_fields {_ N}.
Arguments rq_nested {_ N}.
Arguments rq_selection_order {_ N}.
Arguments mrq_name {_ N}.
Arguments mrq_alias {_ N}.
Arguments mrq_model {_ N}.
Arguments mrq_args {_ N}.
Arguments mrq_selected_fields {_ N}.
Arguments mrq_nested {_ N}.
Arguments mrq_selection_order {_ N}.
Arguments rrq_name {_ N}.
Arguments rrq_alias {_ N}.
Arguments rrq_parent_field {_ N}.
Arguments rrq_args {_ N}.
Arguments rrq_selected_fields {_ N}.
Arguments rrq_nested {_ N}.
Arguments rrq_selection_order {_ N}.
Arguments rrq_parent_projections {_ N}.
