(* ===== verification/QueryGraph.v ===== *)
(** * The query graph (query-engine/core/src/query_graph)

    A graph of queries, flow control and computations. Edges say how a child
    depends on the result of its parent. The graph itself is that of the crate
    petgraph: the class [Petgraph], with its documented behaviour as the laws
    [PetgraphOk]. *)
From S2P Require Import Prelude Effects SqlSchema Dml Converter Models Projections Filters QueryAst.
From stdpp Require Import pretty.

(** ** petgraph

    Nodes and edges have consecutive indices. Removing an edge gives its index
    to the last edge. *)
Inductive Direction : Type := Incoming | Outgoing.
Class Petgraph : Type := {
  PGraph : Type -> Type -> Type;
  pg_new : forall {N E}, PGraph N E;
  raw_nodes : forall {N E}, PGraph N E -> list N;
  raw_edges : forall {N E}, PGraph N E -> list ((nat * nat) * E);
  node_indices : forall {N E}, PGraph N E -> list nat;
  add_node : forall {N E}, N -> PGraph N E -> PGraph N E * nat;
  (* [None] when the call panics: one of the nodes does not exist *)
  add_edge : forall {N E}, nat -> nat -> E -> PGraph N E -> option (PGraph N E * nat);
  node_weight : forall {N E}, PGraph N E -> nat -> option N;
  edge_weight : forall {N E}, PGraph N E -> nat -> option E;
  (* writing through [node_weight_mut] and [edge_weight_mut] *)
  set_node_weight : forall {N E}, nat -> N -> PGraph N E -> PGraph N E;
  set_edge_weight : forall {N E}, nat -> E -> PGraph N E -> PGraph N E;
  edge_endpoints : forall {N E}, PGraph N E -> nat -> option (nat * nat);
  edges_directed : forall {N E}, PGraph N E -> nat -> Direction -> list nat;
  find_edge : forall {N E}, PGraph N E -> nat -> nat -> option nat;
  pg_remove_edge : forall {N E}, nat -> PGraph N E -> option (E * PGraph N E);
}.
(** [Vec::swap_remove]. *)
Definition swap_remove {A} (i : nat) (l : list A) : list A :=
  match last l with Some x => take (length l - 1) (<[i := x]> l) | None => [] end.
Definition endpoint (d : Direction) (e : nat * nat) : nat := match d with Incoming => e.2 | Outgoing => e.1 end.
Class PetgraphOk (P : Petgraph) : Prop := {
  new_nodes : forall N E, raw_nodes (@pg_new _ N E) = [];
  new_edges : forall N E, raw_edges (@pg_new _ N E) = [];
  node_indices_ok : forall N E (g : PGraph N E), node_indices g = seq 0 (length (raw_nodes g));
  add_node_ok : forall N E (w : N) (g : PGraph N E),
    (add_node w g).2 = length (raw_nodes g) /\ raw_nodes (add_node w g).1 = raw_nodes g ++ [w] /\ raw_edges (add_node w g).1 = raw_edges g;
  add_edge_ok : forall N E a b (w : E) (g : PGraph N E), a < length (raw_nodes g) -> b < length (raw_nodes g) ->
    exists g', add_edge a b w g = Some (g', length (raw_edges g)) /\ raw_nodes g' = raw_nodes g /\ raw_edges g' = raw_edges g ++ [((a, b), w)];
  add_edge_panics : forall N E a b (w : E) (g : PGraph N E), ~ (a < length (raw_nodes g) /\ b < length (raw_nodes g)) -> add_edge a b w g = None;
  node_weight_ok : forall N E (g : PGraph N E) i, node_weight g i = raw_nodes g !! i;
  edge_weight_ok : forall N E (g : PGraph N E) i, edge_weight g i = snd <$> raw_edges g !! i;
  set_node_weight_ok : forall N E i w (g : PGraph N E),
    raw_nodes (set_node_weight i w g) = <[i := w]> (raw_nodes g) /\ raw_edges (set_node_weight i w g) = raw_edges g;
  set_edge_weight_ok : forall N E i w (g : PGraph N E),
    raw_nodes (set_edge_weight i w g) = raw_nodes g /\ raw_edges (set_edge_weight i w g) = alter (fun e => (e.1, w)) i (raw_edges g);
  edge_endpoints_ok : forall N E (g : PGraph N E) i, edge_endpoints g i = fst <$> raw_edges g !! i;
  edges_directed_nodup : forall N E (g : PGraph N E) n d, NoDup (edges_directed g n d);
  edges_directed_ok : forall N E (g : PGraph N E) n d i,
    i ∈ edges_directed g n d <-> exists e, raw_edges g !! i = Some e /\ endpoint d e.1 = n;
  find_edge_some : forall N E (g : PGraph N E) a b i, find_edge g a b = Some i -> exists w, raw_edges g !! i = Some ((a, b), w);
  find_edge_none : forall N E (g : PGraph N E) a b i w, find_edge g a b = None -> raw_edges g !! i <> Some ((a, b), w);
  pg_remove_edge_ok : forall N E i (g : PGraph N E),
    match raw_edges g !! i with
    | Some e => exists g', pg_remove_edge i g = Some (e.2, g') /\ raw_nodes g' = raw_nodes g /\ raw_edges g' = swap_remove i (raw_edges g)
    | None => pg_remove_edge i g = None
    end;
}.

(** ** Types of other parts: errors of the graph builder and JSON values *)
Class GraphTypes : Type := { QueryGraphBuilderError : Type; JsonValue : Type }.

(** [NodeRef] and [EdgeRef] wrap an index. *)
Abbreviation NodeRef := nat.
Abbreviation EdgeRef := nat.
(** [Guard] (guard.rs): the content of a node or an edge may be taken out. *)
Abbreviation Guard := option.

Section query_graph.
Context `{VT : ValueTypes} {VO : ValueOrd VT} `{IT : Itertools} {GT : GraphTypes} {PG : Petgraph}.

(** ** Results of queries (result_ast/mod.rs, interpreter/interpreter.rs) *)
Inductive AggregationQueryResult : Type := AggregationCountResult (name : string) (count : nat).
Record RecordAggregation : Type := mkRecordAggregation { ra_fields : list string; ra_results : list AggregationQueryResult }.
Record RecordSelection (R : Type) : Type := mkRecordSelection {
  rs_name : string;
  rs_fields : list string;
  rs_scalars : ManyRecords;
  rs_nested : list R;
  rs_query_arguments : QueryArguments;
  rs_model_id : ModelProjection;
}.
Inductive QueryResult : Type :=
| ResultId (id : option RecordProjection)
| ResultCount (n : nat)
| ResultRecordSelection (s : RecordSelection QueryResult)
| ResultJson (j : JsonValue)
| ResultRecordAggregation (a : RecordAggregation)
| ResultUnit.
Record DiffResult : Type := mkDiffResult { dr_left : list RecordProjection; dr_right : list RecordProjection }.
Inductive ExpressionResult : Type :=
| ExprQuery (r : QueryResult)
| ExprDiff (d : DiffResult)
| ExprEmpty.

(** ** Nodes and edges *)
Inductive Flow : Type := FlowIf (cond : unit -> bool).
Definition default_if : Flow := FlowIf (fun _ => true).
Record DiffNode : Type := mkDiffNode { dn_left : list RecordProjection; dn_right : list RecordProjection }.
Inductive Node : Type :=
| NodeQuery (q : Query)
| NodeFlow (f : Flow)
| NodeComputation (d : DiffNode)
| NodeEmpty.
Definition empty_diff : Node := NodeComputation (mkDiffNode [] []).
Inductive QueryGraphDependency : Type :=
| ExecutionOrder
| ParentResult (f : Node -> ExpressionResult -> outcome QueryGraphBuilderError Node)
| ParentProjection (p : ModelProjection) (f : Node -> list RecordProjection -> outcome QueryGraphBuilderError Node)
| Then
| Else.
Inductive QueryGraphError : Type :=
| InvarianceViolation (msg : string)
| InvalidNodeTransformation (from to : string).


Definition node_id (n : NodeRef) : string := pretty n.

Definition guard_unset {E T} (g : Guard T) : outcome E (T * Guard T) :=
  c ← unwrap "Logic error: Attempted to unset empty graph guard." g; Ok (c, None).

Record QueryGraph : Type := mkQueryGraph {
  graph : PGraph (Guard Node) (Guard QueryGraphDependency);
  result_nodes : list nat;
  marked_node_pairs : list (NodeRef * NodeRef);
  finalized : bool;
  flag_needs_transaction : bool;
  visited : list nat;
}.
Definition QueryGraph_new : QueryGraph := mkQueryGraph pg_new [] [] false false [].
Definition with_graph (g : PGraph (Guard Node) (Guard QueryGraphDependency)) (q : QueryGraph) : QueryGraph :=
  mkQueryGraph g (result_nodes q) (marked_node_pairs q) (finalized q) (flag_needs_transaction q) (visited q).
Definition with_marked (m : list (NodeRef * NodeRef)) (q : QueryGraph) : QueryGraph :=
  mkQueryGraph (graph q) (result_nodes q) m (finalized q) (flag_needs_transaction q) (visited q).
Definition add_result_node (n : NodeRef) (q : QueryGraph) : QueryGraph :=
  mkQueryGraph (graph q) (result_nodes q ++ [n]) (marked_node_pairs q) (finalized q) (flag_needs_transaction q) (visited q).
Definition mark_visited (n : NodeRef) (q : QueryGraph) : QueryGraph :=
  if iter_any (fun v => v ≟ n) (visited q) then q
  else mkQueryGraph (graph q) (result_nodes q) (marked_node_pairs q) (finalized q) (flag_needs_transaction q) (visited q ++ [n]).
Definition flag_transactional (q : QueryGraph) : QueryGraph :=
  mkQueryGraph (graph q) (result_nodes q) (marked_node_pairs q) (finalized q) true (visited q).
Definition set_finalized (q : QueryGraph) : QueryGraph :=
  mkQueryGraph (graph q) (result_nodes q) (marked_node_pairs q) true (flag_needs_transaction q) (visited q).
Definition mark_nodes (parent_node child_node : NodeRef) (q : QueryGraph) : QueryGraph :=
  with_marked (marked_node_pairs q ++ [(parent_node, child_node)]) q.
Definition is_result_node (q : QueryGraph) (n : NodeRef) : bool :=
  match iter_find (fun rn => rn ≟ n) (result_nodes q) with Some _ => true | None => false end.

(** ** Reading the graph *)
Definition unwrap_none : string := "called `Option::unwrap()` on a `None` value".
Definition node_content {E} (q : QueryGraph) (n : NodeRef) : outcome E (option Node) := unwrap unwrap_none (node_weight (graph q) n).
Definition edge_content {E} (q : QueryGraph) (e : EdgeRef) : outcome E (option QueryGraphDependency) := unwrap unwrap_none (edge_weight (graph q) e).
Definition edge_source {E} (q : QueryGraph) (e : EdgeRef) : outcome E NodeRef := ends ← unwrap unwrap_none (edge_endpoints (graph q) e); Ok (ends : nat * nat).1.
Definition edge_target {E} (q : QueryGraph) (e : EdgeRef) : outcome E NodeRef := ends ← unwrap unwrap_none (edge_endpoints (graph q) e); Ok (ends : nat * nat).2.
Definition collect_edges (q : QueryGraph) (n : NodeRef) (d : Direction) : list EdgeRef := sort_by Nat.leb (edges_directed (graph q) n d).
Definition outgoing_edges (q : QueryGraph) (n : NodeRef) : list EdgeRef := collect_edges q n Outgoing.
Definition incoming_edges (q : QueryGraph) (n : NodeRef) : list EdgeRef := collect_edges q n Incoming.
Definition root_nodes (q : QueryGraph) : list NodeRef :=
  iter_filter (fun ix => match edges_directed (graph q) ix Incoming with [] => true | _ :: _ => false end) (node_indices (graph q)).
Definition child_pairs {E} (q : QueryGraph) (n : NodeRef) : outcome E (list (EdgeRef * NodeRef)) :=
  map_m (fun edge => target ← edge_target q edge; Ok (edge, target)) (outgoing_edges q n).
Definition zip_source_nodes {E} (q : QueryGraph) (edges : list EdgeRef) : outcome E (list (EdgeRef * NodeRef)) :=
  map_m (fun edge => target ← edge_source q edge; Ok (edge, target)) edges.
(** Recursion along the edges: without end on a cycle, until the stack overflows. *)
Definition stack_overflow : string := "stack overflow".
Fixpoint is_ancestor {E} (fuel : nat) (q : QueryGraph) (ancestor successor_node : NodeRef) : outcome E bool :=
  match fuel with
  | O => Panic stack_overflow
  | Datatypes.S fuel =>
      pairs ← child_pairs q ancestor;
      any_m (fun p : EdgeRef * NodeRef => if p.2 ≟ successor_node then Ok true else is_ancestor fuel q p.2 successor_node) pairs
  end.
Fixpoint subgraph_contains_result {E} (fuel : nat) (q : QueryGraph) (n : NodeRef) : outcome E bool :=
  match fuel with
  | O => Panic stack_overflow
  | Datatypes.S fuel =>
      if is_result_node q n then Ok true
      else any_m (fun edge => child_node ← edge_target q edge; subgraph_contains_result fuel q child_node) (outgoing_edges q n)
  end.
Definition is_direct_child {E} (fuel : nat) (q : QueryGraph) (parent child : NodeRef) : outcome E bool :=
  ancestry_rule ← all_m (fun edge => other_parent ← edge_source q edge;
                           if other_parent ≟ parent then Ok true else is_ancestor fuel q other_parent parent) (incoming_edges q child);
  visitation_rule ← all_m (fun edge => other_parent ← edge_source q edge;
                             if other_parent ≟ parent then Ok true else Ok (iter_any (fun v => v ≟ other_parent) (visited q))) (incoming_edges q child);
  Ok (ancestry_rule || visitation_rule).
Definition direct_child_pairs {E} (fuel : nat) (q : QueryGraph) (n : NodeRef) : outcome E (list (EdgeRef * NodeRef)) :=
  pairs ← child_pairs q n;
  filter_m (fun p : EdgeRef * NodeRef => is_direct_child fuel q n p.2) pairs.

(** ** Building the graph *)
Definition GraphM : Type -> Type := eff QueryGraph QueryGraphError.
Definition update (f : QueryGraph -> QueryGraph) : GraphM unit := fun q => (Ok tt, f q).
Definition read_graph {A} (f : QueryGraph -> outcome QueryGraphError A) : GraphM A := fun q => (f q, q).
Definition create_node (n : Node) : GraphM NodeRef := fun q =>
  let '(g, ix) := add_node (Some n) (graph q) in (Ok ix, with_graph g q).
(** Invariance rules (invariance_rules.rs). *)
Context (debug_names : list string -> string) (idm : InternalDataModel).
Definition mf_model (f : ModelField) : string := match f with FieldScalar sf => sf_model sf | FieldRelation rf => rf_model rf end.
Definition mp_model {E} (p : ModelProjection) : outcome E QueryModel := f ← unwrap "index out of bounds" (head p); upgrade_model idm (mf_model f).
Definition display_dependency (d : QueryGraphDependency) : outcome QueryGraphError string :=
  match d with
  | ExecutionOrder => Ok "ExecutionOrder"
  | ParentResult _ => Ok "ParentResult"
  | ParentProjection p _ => m ← mp_model p; Ok ("ParentProjection (" +:+ qm_name m +:+ " | " +:+ debug_names (mp_names p) +:+ ")")
  | Then => Ok "Then"
  | Else => Ok "Else"
  end.
Definition if_flow_edge_rules (q : QueryGraph) (edge : EdgeRef) : outcome QueryGraphError unit :=
  source_node ← edge_source q edge;
  content ← node_content q source_node;
  source_node_content ← unwrap unwrap_none content;
  match source_node_content with
  | NodeFlow (FlowIf _) =>
      dep ← edge_content q edge;
      dep ← unwrap unwrap_none dep;
      _ ← match dep with
          | Then | Else => Ok tt
          | x => text ← display_dependency x;
                 Err (InvarianceViolation ("Invalid edge '" +:+ text +:+ "' for If node " +:+ node_id source_node +:+ "."))
          end;
      pairs ← child_pairs q source_node;
      if Nat.ltb 2 (length (pairs : list (EdgeRef * NodeRef)))
      then Err (InvarianceViolation "'If' node has invalid amound of children (min 1, max 2).") else Ok tt
  | _ => Ok tt
  end.
Definition disallow_self_edges (q : QueryGraph) (edge : EdgeRef) : outcome QueryGraphError unit :=
  source ← edge_source q edge;
  target ← edge_target q edge;
  if node_id source ≟ node_id target
  then Err (InvarianceViolation ("Edge " +:+ pretty edge +:+ " is an edge pointing to the same node it originated from (node "
              +:+ node_id source +:+ "). This is disallowed."))
  else Ok tt.
Definition after_edge_creation (q : QueryGraph) (edge : EdgeRef) : outcome QueryGraphError unit :=
  _ ← if_flow_edge_rules q edge; disallow_self_edges q edge.
Definition create_edge (from to : NodeRef) (content : QueryGraphDependency) : GraphM EdgeRef := fun q =>
  match add_edge from to (Some content) (graph q) with
  | None => (Panic "Graph::add_edge: node indices out of bounds", q)
  | Some (g, edge) => let q := with_graph g q in ((_ ← after_edge_creation q edge; Ok edge), q)
  end.
Definition pluck_edge (edge : EdgeRef) : GraphM QueryGraphDependency := fun q =>
  match (guard ← unwrap unwrap_none (edge_weight (graph q) edge); guard_unset guard) with
  | Ok (content, guard) => (Ok content, with_graph (set_edge_weight edge guard (graph q)) q)
  | Err e => (Err e, q)
  | Panic p => (Panic p, q)
  end.
Definition pluck_node (n : NodeRef) : GraphM Node := fun q =>
  match (guard ← unwrap unwrap_none (node_weight (graph q) n); guard_unset guard) with
  | Ok (content, guard) => (Ok content, with_graph (set_node_weight n guard (graph q)) q)
  | Err e => (Err e, q)
  | Panic p => (Panic p, q)
  end.
Definition remove_edge (edge : EdgeRef) : GraphM (option QueryGraphDependency) := fun q =>
  match pg_remove_edge edge (graph q) with
  | Some (content, g) => (Ok content, with_graph g q)
  | None => (Panic unwrap_none, q)
  end.

(** ** Swapping marked nodes *)
Definition take_marked : GraphM (list (NodeRef * NodeRef)) := fun q => (Ok (marked_node_pairs q), with_marked [] q).
Definition connect_parent_of_parent (child_node : NodeRef) (parent_edge : EdgeRef) : GraphM unit :=
  parent_of_parent_node ← read_graph (fun q => edge_source q parent_edge);
  content ← read_graph (fun q => content ← node_content q parent_of_parent_node; unwrap "Expected marked nodes to be non-empty." content);
  match content with
  | NodeFlow _ =>
      content ← remove_edge parent_edge;
      content ← lift (unwrap "Expected edges between marked nodes to be non-empty." content);
      _ ← create_edge parent_of_parent_node child_node content;
      mret tt
  | _ =>
      _ ← create_edge parent_of_parent_node child_node ExecutionOrder;
      mret tt
  end.
Definition swap_pair (pair : NodeRef * NodeRef) : GraphM unit :=
  let '(parent_node, child_node) := pair in
  parent_edges ← reads (fun q => incoming_edges q parent_node);
  _ ← eff_for (connect_parent_of_parent child_node) parent_edges;
  existing_edge ← reads (fun q => find_edge (graph q) parent_node child_node);
  match existing_edge with
  | Some edge =>
      content ← remove_edge edge;
      content ← lift (unwrap unwrap_none content);
      _ ← create_edge child_node parent_node content;
      mret tt
  | None => mret tt
  end.
Definition swap_marked : GraphM unit :=
  marked ← take_marked;
  eff_for swap_pair (reverse marked).

(** ** Reloading nodes whose results miss fields *)
Definition QueryArguments_default : QueryArguments := mkQueryArguments None None None None None.
Definition reload_query (model : QueryModel) (identifiers : list ModelProjection) : Query :=
  QRead (RQManyRecords (mkManyRecordsQuery "reload" None model QueryArguments_default (Projections.union identifiers) [] [])).
Definition reload_filter (reload_node : Node) (parent_projections : list RecordProjection) : outcome QueryGraphBuilderError Node :=
  Ok (match reload_node with
      | NodeQuery (QRead (RQManyRecords mr)) => NodeQuery (QRead (RQManyRecords (many_set_filter (rps_filter parent_projections) mr)))
      | other => other
      end).
Definition unsatisfied_edge (q : QueryGraph) (query : Query) (edge : EdgeRef) : outcome QueryGraphError (option (EdgeRef * ModelProjection)) :=
  content ← edge_content q edge;
  content ← unwrap unwrap_none content;
  match content with
  | ParentProjection p _ => b ← returns idm query p; Ok (if b : bool then None else Some (edge, p))
  | _ => Ok None
  end.
Fixpoint filter_map_m {E A B} (f : A -> outcome E (option B)) (l : list A) : outcome E (list B) :=
  match l with
  | [] => Ok []
  | a :: l => b ← f a; l' ← filter_map_m f l; Ok (match b with Some b => b :: l' | None => l' end)
  end.
Definition Reload : Type := (NodeRef * QueryModel) * list (EdgeRef * ModelProjection).
Definition reload_of (q : QueryGraph) (node : NodeRef) : outcome QueryGraphError (option Reload) :=
  content ← node_content q node;
  content ← unwrap unwrap_none content;
  match content with
  | NodeQuery query =>
      unsatisfied_edges ← filter_map_m (unsatisfied_edge q query) (outgoing_edges q node);
      match unsatisfied_edges with
      | [] => Ok None
      | _ => m ← query_model idm query; Ok (Some ((node, m), unsatisfied_edges))
      end
  | _ => Ok None
  end.
Definition reattach (reload_node : NodeRef) (edge : EdgeRef) : GraphM unit :=
  target ← read_graph (fun q => edge_target q edge);
  content ← remove_edge edge;
  content ← lift (unwrap unwrap_none content);
  _ ← create_edge reload_node target content;
  mret tt.
Definition insert_reload (r : Reload) : GraphM unit :=
  let '((node, model), edges) := r in
  primary_model_id ← lift (primary_identifier idm model);
  reload_node ← create_node (NodeQuery (reload_query model (edges.*2 ++ [primary_model_id])));
  _ ← create_edge node reload_node (ParentProjection primary_model_id reload_filter);
  eff_for (reattach reload_node) edges.*1.
Definition insert_reloads : GraphM unit :=
  reloads ← read_graph (fun q => filter_map_m (reload_of q) (node_indices (graph q)));
  eff_for insert_reload reloads.

(** ** [finalize]; the check of the finished graph has no rules yet. *)
Definition after_graph_completion (q : QueryGraph) : outcome QueryGraphError unit := Ok tt.
Definition finalize : GraphM unit :=
  done ← reads finalized;
  _ ← (if done : bool then mret tt
       else _ ← swap_marked; _ ← insert_reloads; update set_finalized);
  read_graph after_graph_completion.
End query_graph.
Arguments mkRecordSelection {_ R}.
Arguments rs_name {_ R}.
Arguments rs_fields {_ R}.
Arguments rs_scalars {_ R}.
Arguments rs_nested {_ R}.
Arguments rs_query_arguments {_ R}.
Arguments rs_model_id {_ R}.
