(* ===== verification/GraphFacts.v ===== *)
(** * The query graph: edges, reachability and the rules of its construction *)
From stdpp Require Import sorting.
From S2P Require Import Prelude Effects SqlSchema Dml Converter Models Projections Filters ReadFacts QueryAst QueryGraph.
From stdpp Require Import pretty.

(** ** A graph as two lists, for examples *)
Definition sample_add_edge {N E} (a b : nat) (w : E) (g : list N * list ((nat * nat) * E)) : option ((list N * list ((nat * nat) * E)) * nat) :=
  if Nat.ltb a (length g.1) && Nat.ltb b (length g.1) then Some ((g.1, g.2 ++ [((a, b), w)]), length g.2) else None.
Definition sample_edges {E} (p : nat * nat -> bool) (l : list ((nat * nat) * E)) : list nat :=
  iter_filter (fun i => match l !! i with Some e => p e.1 | None => false end) (seq 0 (length l)).
#[export] Instance sample_petgraph : Petgraph := {|
  PGraph N E := (list N * list ((nat * nat) * E))%type;
  pg_new N E := ([], []);
  raw_nodes N E g := g.1;
  raw_edges N E g := g.2;
  node_indices N E g := seq 0 (length g.1);
  add_node N E w g := ((g.1 ++ [w], g.2), length g.1);
  add_edge N E := sample_add_edge;
  node_weight N E g i := g.1 !! i;
  edge_weight N E g i := snd <$> g.2 !! i;
  set_node_weight N E i w g := (<[i := w]> g.1, g.2);
  set_edge_weight N E i w g := (g.1, alter (fun e => (e.1, w)) i g.2);
  edge_endpoints N E g i := fst <$> g.2 !! i;
  edges_directed N E g n d := sample_edges (fun e => endpoint d e ≟ n) g.2;
  find_edge N E g a b := head (sample_edges (fun e => e ≟ (a, b)) g.2);
  pg_remove_edge N E i g := match g.2 !! i with Some e => Some (e.2, (g.1, swap_remove i g.2)) | None => None end;
|}.
Lemma sample_edges_elem {E} p (l : list ((nat * nat) * E)) i : i ∈ sample_edges p l <-> exists e, l !! i = Some e /\ p e.1 = true.
Proof.
  unfold sample_edges. rewrite list_elem_of_In, filter_In, <-list_elem_of_In, elem_of_seq. split.
  - intros [_ H]. destruct (l !! i) as [e|] eqn:El; [by exists e|done].
  - intros (e & He & Hp). rewrite He. split; [|done]. apply lookup_lt_Some in He. lia.
Qed.
Lemma sample_petgraph_ok : PetgraphOk sample_petgraph.
Proof.
  split; cbn; try done.
  - intros N E a b w g Ha Hb. unfold sample_add_edge. apply Nat.ltb_lt in Ha as ->. apply Nat.ltb_lt in Hb as ->. cbn. by eexists.
  - intros N E a b w g Hn. unfold sample_add_edge. destruct (Nat.ltb_spec a (length g.1)), (Nat.ltb_spec b (length g.1)); cbn; tauto.
  - intros N E g n d. apply NoDup_ListNoDup, List.NoDup_filter, NoDup_ListNoDup, NoDup_seq.
  - intros N E g n d i. rewrite sample_edges_elem. by setoid_rewrite bool_decide_eq_true.
  - intros N E g a b i Hh. apply head_Some_elem_of, sample_edges_elem in Hh as ([e w] & He & Hab%bool_decide_eq_true). cbn in Hab. subst. by exists w.
  - intros N E g a b i w Hh He. destruct (sample_edges _ _) eqn:Es; [|done].
    assert (Hi : i ∈ sample_edges (fun e => e ≟ (a, b)) g.2) by (apply sample_edges_elem; eexists; split; [exact He|by apply bool_decide_eq_true]).
    rewrite Es in Hi. inversion Hi.
  - intros N E i g. destruct (g.2 !! i) as [e|]; [by eexists|done].
Qed.

Section facts.
Context `{VT : ValueTypes} {VO : ValueOrd VT} `{IT : Itertools} {GT : GraphTypes} {PG : Petgraph} (HPG : PetgraphOk PG).
Implicit Types (q : QueryGraph) (n : NodeRef) (e : EdgeRef).

(** ** The two views of a graph *)
Definition nodes (q : QueryGraph) : list (Guard Node) := raw_nodes (graph q).
Definition edges (q : QueryGraph) : list ((nat * nat) * Guard QueryGraphDependency) := raw_edges (graph q).
Definition edge_rel (q : QueryGraph) (a b : nat) : Prop := exists w, ((a, b), w) ∈ edges q.

Lemma collect_edges_elem q n d e : e ∈ collect_edges q n d <-> exists x, edges q !! e = Some x /\ endpoint d x.1 = n.
Proof. unfold collect_edges, edges. rewrite (sort_by_perm Nat.leb). apply (edges_directed_ok (PetgraphOk := HPG)). Qed.
Lemma edge_source_ok {E} q e x : edges q !! e = Some x -> edge_source (E := E) q e = Ok x.1.1.
Proof. unfold edges, edge_source. rewrite (edge_endpoints_ok (PetgraphOk := HPG)). by intros ->. Qed.
Lemma edge_target_ok {E} q e x : edges q !! e = Some x -> edge_target (E := E) q e = Ok x.1.2.
Proof. unfold edges, edge_target. rewrite (edge_endpoints_ok (PetgraphOk := HPG)). by intros ->. Qed.
Lemma edge_content_ok {E} q e x : edges q !! e = Some x -> edge_content (E := E) q e = Ok x.2.
Proof. unfold edges, edge_content. rewrite (edge_weight_ok (PetgraphOk := HPG)). by intros ->. Qed.
Lemma node_content_ok {E} q n c : nodes q !! n = Some c -> node_content (E := E) q n = Ok c.
Proof. unfold nodes, node_content. rewrite (node_weight_ok (PetgraphOk := HPG)). by intros ->. Qed.

(** The target of an edge, for edges that exist. *)
Definition target_of (q : QueryGraph) (e : EdgeRef) : nat := match edges q !! e with Some x => x.1.2 | None => 0 end.
Definition source_of (q : QueryGraph) (e : EdgeRef) : nat := match edges q !! e with Some x => x.1.1 | None => 0 end.
Lemma child_pairs_ok {E} q n : child_pairs (E := E) q n = Ok ((fun e => (e, target_of q e)) <$> outgoing_edges q n).
Proof.
  unfold child_pairs. apply map_m_fmap. intros e He. apply collect_edges_elem in He as (x & Hx & _).
  rewrite (edge_target_ok _ _ _ Hx). cbn. unfold target_of. by rewrite Hx.
Qed.
Lemma child_pairs_elem q n e c : (e, c) ∈ ((fun e => (e, target_of q e)) <$> outgoing_edges q n) <-> exists w, edges q !! e = Some ((n, c), w).
Proof.
  rewrite list_elem_of_fmap. split.
  - intros (e' & [= <- ->] & ([[a b] w] & Hx & Ha)%collect_edges_elem). cbn in Ha. subst a. unfold target_of. rewrite Hx. by exists w.
  - intros (w & Hw). exists e. split; [unfold target_of; by rewrite Hw|]. apply collect_edges_elem. by exists ((n, c), w).
Qed.

Lemma any_m_spec {E A} (f : A -> outcome E bool) (P : A -> Prop) l :
  (forall a, a ∈ l -> exists b, f a = Ok b /\ (b = true <-> P a)) ->
  exists b, any_m f l = Ok b /\ (b = true <-> exists a, a ∈ l /\ P a).
Proof.
  induction l as [|a l IH]; intros H; cbn [any_m].
  - exists false. split; [done|]. split; [done|]. intros (x & Hx & _). inversion Hx.
  - destruct (H a) as (b & -> & Hb); [constructor|]. cbn [mbind outcome_bind]. destruct b.
    + exists true. split; [done|]. split; [|done]. intros _. exists a. split; [constructor|by apply Hb].
    + destruct IH as (b & -> & Hl); [intros; apply H; by constructor|]. exists b. split; [done|]. rewrite Hl. split.
      * intros (x & Hx & HP). exists x. split; [by constructor|done].
      * intros (x & [-> |Hx]%elem_of_cons & HP); [apply Hb in HP; done|by exists x].
Qed.
Lemma all_m_spec {E A} (f : A -> outcome E bool) (P : A -> Prop) l :
  (forall a, a ∈ l -> exists b, f a = Ok b /\ (b = true <-> P a)) ->
  exists b, all_m f l = Ok b /\ (b = true <-> forall a, a ∈ l -> P a).
Proof.
  induction l as [|a l IH]; intros H; cbn [all_m].
  - exists true. split; [done|]. split; [|done]. intros _ x Hx. inversion Hx.
  - destruct (H a) as (b & -> & Hb); [constructor|]. cbn [mbind outcome_bind]. destruct b.
    + destruct IH as (b & -> & Hl); [intros; apply H; by constructor|]. exists b. split; [done|]. rewrite Hl. split.
      * intros Hall x [-> |Hx]%elem_of_cons; [by apply Hb|by apply Hall].
      * intros Hall x Hx. apply Hall. by constructor.
    + exists false. split; [done|]. split; [done|]. intros Hall. apply Hb, Hall. constructor.
Qed.
Ltac search P r H :=
  match goal with
  | |- context [any_m ?f ?l] =>
      let Hs := fresh in assert (Hs : forall a, a ∈ l -> exists b, f a = Ok b /\ (b = true <-> P a)); [|destruct (any_m_spec f P l Hs) as (r & -> & H); clear Hs]
  | |- context [all_m ?f ?l ≫= _] =>
      let Hs := fresh in assert (Hs : forall a, a ∈ l -> exists b, f a = Ok b /\ (b = true <-> P a)); [|destruct (all_m_spec f P l Hs) as (r & -> & H); clear Hs]
  end.
Lemma edge_rel_lookup q a b : edge_rel q a b <-> exists e w, edges q !! e = Some ((a, b), w).
Proof. unfold edge_rel. split; [intros (w & [e He]%list_elem_of_lookup); eauto|intros (e & w & He%list_elem_of_lookup_2); eauto]. Qed.

(** ** Reachability

    The recursive searches end on graphs without cycles: every node on the
    current path is different, so the number of nodes bounds the recursion. *)
Definition in_range (q : QueryGraph) : Prop := forall a b, edge_rel q a b -> a < length (nodes q) /\ b < length (nodes q).
Definition acyclic (q : QueryGraph) : Prop := forall n, ~ tc (edge_rel q) n n.
Definition on_path (q : QueryGraph) (seen : list nat) (a : nat) : Prop :=
  NoDup seen /\ forall s, s ∈ seen -> s < length (nodes q) /\ tc (edge_rel q) s a.
Lemma on_path_length q seen a : on_path q seen a -> length seen <= length (nodes q).
Proof.
  intros [Hnd Hs]. rewrite <-(length_seq (length (nodes q)) 0). apply submseteq_length, NoDup_submseteq; [done|].
  intros x Hx. apply elem_of_seq. destruct (Hs x Hx). lia.
Qed.
Lemma on_path_cons q seen a c : in_range q -> acyclic q -> on_path q seen a -> edge_rel q a c -> on_path q (a :: seen) c.
Proof.
  intros Hr Hac [Hnd Hs] Hc. split.
  - constructor; [|done]. intros Ha. by apply (Hac a), (Hs a).
  - intros s [-> |Hin]%elem_of_cons; [split; [by apply (Hr a c)|by apply tc_once]|]. destruct (Hs s Hin). split; [done|]. by apply tc_r with a.
Qed.
Lemma tc_step {A} (R : relation A) a b : tc R a b <-> exists c, R a c /\ (c = b \/ tc R c b).
Proof. split; [intros H; inversion H; subst; eauto|intros (c & Hc & [-> |Hb]); eauto using tc_once, tc_l]. Qed.
Lemma is_ancestor_path {E} fuel q seen a b : in_range q -> acyclic q -> on_path q seen a -> length (nodes q) < fuel + length seen ->
  exists r, is_ancestor (E := E) fuel q a b = Ok r /\ (r = true <-> tc (edge_rel q) a b).
Proof.
  intros Hr Hac. revert seen a. induction fuel as [|fuel IH]; intros seen a Hp Hf.
  { pose proof (on_path_length q seen a Hp). cbn in Hf. lia. }
  cbn [is_ancestor]. rewrite child_pairs_ok. cbn [mbind outcome_bind].
  search (fun p : nat * nat => p.2 = b \/ tc (edge_rel q) p.2 b) r Hrr.
  - intros [e c] He. apply child_pairs_elem in He as (w & He). cbn.
    assert (Hac' : edge_rel q a c) by (apply edge_rel_lookup; eauto).
    case_bool_decide as Hcb; [exists true; split; [done|tauto]|].
    destruct (IH (a :: seen) c) as (r & -> & Hrr); [by apply on_path_cons|cbn in *; lia|]. exists r. split; [done|]. rewrite Hrr. tauto.
  - exists r. split; [done|]. rewrite Hrr, tc_step. split.
    + intros ([e c] & (w & He)%child_pairs_elem & Hc). exists c. split; [apply edge_rel_lookup; eauto|done].
    + intros (c & (e & w & He)%edge_rel_lookup & Hc). exists (e, c). split; [apply child_pairs_elem; eauto|done].
Qed.
Lemma is_ancestor_spec {E} fuel q a b : in_range q -> acyclic q -> length (nodes q) < fuel ->
  exists r, is_ancestor (E := E) fuel q a b = Ok r /\ (r = true <-> tc (edge_rel q) a b).
Proof. intros Hr Hac Hf. apply (is_ancestor_path fuel q []); [done..| |cbn; lia]. split; [constructor|]. intros s Hs. inversion Hs. Qed.
Lemma is_result_node_spec q n : is_result_node q n = true <-> n ∈ result_nodes q.
Proof.
  unfold is_result_node. destruct (iter_find _ _) as [m|] eqn:Ef.
  - apply find_some in Ef as [Hin Hm%bool_decide_eq_true]. subst. split; [|done]. intros _. by apply list_elem_of_In.
  - split; [done|]. intros Hn%list_elem_of_In. pose proof (find_none _ _ Ef n Hn) as H. cbn in H. by rewrite bool_decide_eq_false in H.
Qed.
Lemma contains_result_path {E} fuel q seen a : in_range q -> acyclic q -> on_path q seen a -> length (nodes q) < fuel + length seen ->
  exists r, subgraph_contains_result (E := E) fuel q a = Ok r /\ (r = true <-> exists n, rtc (edge_rel q) a n /\ n ∈ result_nodes q).
Proof.
  intros Hr Hac. revert seen a. induction fuel as [|fuel IH]; intros seen a Hp Hf.
  { pose proof (on_path_length q seen a Hp). cbn in Hf. lia. }
  cbn [subgraph_contains_result]. destruct (is_result_node q a) eqn:Ea.
  { exists true. split; [done|]. split; [|done]. intros _. exists a. split; [constructor|by apply is_result_node_spec]. }
  assert (Ha : a ∉ result_nodes q) by (rewrite <-is_result_node_spec, Ea; done).
  search (fun e => exists n, rtc (edge_rel q) (target_of q e) n /\ n ∈ result_nodes q) r Hrr.
  - intros e He. apply collect_edges_elem in He as ([[a' c] w] & He & Ha'). cbn in Ha'. subst a'.
    rewrite (edge_target_ok _ _ _ He). cbn [mbind outcome_bind fst snd].
    destruct (IH (a :: seen) c) as (r & -> & Hrr); [apply on_path_cons; [done..|apply edge_rel_lookup; eauto]|cbn in *; lia|].
    exists r. split; [done|]. unfold target_of. by rewrite He.
  - exists r. split; [done|]. rewrite Hrr. split.
    + intros (e & ([[a' c] w] & He & Ha')%collect_edges_elem & n & Hn & Hin). cbn in Ha'. subst a'. unfold target_of in Hn. rewrite He in Hn.
      exists n. split; [|done]. eapply rtc_l; [apply edge_rel_lookup; eauto|exact Hn].
    + intros (n & Hn & Hin). inversion Hn as [|? c ? (e & w & He)%edge_rel_lookup Hcn]; subst; [done|].
      exists e. split; [apply collect_edges_elem; by exists ((a, c), w)|]. exists n. unfold target_of. by rewrite He.
Qed.

Lemma searches_spec {E} fuel q a b : in_range q -> acyclic q -> length (nodes q) < fuel ->
  (exists r, is_ancestor (E := E) fuel q a b = Ok r /\ (r = true <-> tc (edge_rel q) a b)) /\
  (exists r, subgraph_contains_result (E := E) fuel q a = Ok r /\ (r = true <-> exists n, rtc (edge_rel q) a n /\ n ∈ result_nodes q)) /\
  (exists r, is_direct_child (E := E) fuel q a b = Ok r /\
     (r = true <-> (forall p, edge_rel q p b -> p <> a -> tc (edge_rel q) p a) \/ (forall p, edge_rel q p b -> p <> a -> p ∈ visited q))).
Proof.
  intros Hr Hac Hf. split; [by apply is_ancestor_spec|]. split.
  { apply (contains_result_path fuel q []); [done..| |cbn; lia]. split; [constructor|]. intros s Hs. inversion Hs. }
  unfold is_direct_child.
  assert (Hin : forall e, e ∈ incoming_edges q b -> exists p w, edges q !! e = Some ((p, b), w)).
  { intros e ([[p b'] w] & He & Hb)%collect_edges_elem. cbn in Hb. subst b'. eauto. }
  assert (Hall : forall P : nat -> Prop, (forall e, e ∈ incoming_edges q b -> source_of q e <> a -> P (source_of q e)) <-> (forall p, edge_rel q p b -> p <> a -> P p)).
  { intros P. split.
    - intros H p (e & w & He)%edge_rel_lookup Hp. specialize (H e). unfold source_of in H. rewrite He in H. apply H; [|done].
      apply collect_edges_elem. by exists ((p, b), w).
    - intros H e He. destruct (Hin e He) as (p & w & Hp). unfold source_of. rewrite Hp. cbn. apply H, edge_rel_lookup. eauto. }
  search (fun e => source_of q e <> a -> tc (edge_rel q) (source_of q e) a) r1 H1.
  { intros e He. destruct (Hin e He) as (p & w & Hp). rewrite (edge_source_ok _ _ _ Hp). cbn [mbind outcome_bind fst]. unfold source_of. rewrite Hp. cbn [fst].
    case_bool_decide; [exists true; split; [done|tauto]|]. destruct (is_ancestor_spec (E := E) fuel q p a) as (r & -> & Hrr); [done..|]. exists r. split; [done|]. tauto. }
  cbn [mbind outcome_bind].
  search (fun e => source_of q e <> a -> source_of q e ∈ visited q) r2 H2.
  { intros e He. destruct (Hin e He) as (p & w & Hp). rewrite (edge_source_ok _ _ _ Hp). cbn [mbind outcome_bind fst]. unfold source_of. rewrite Hp. cbn [fst].
    case_bool_decide; [exists true; split; [done|tauto]|]. eexists. split; [done|]. rewrite existsb_exists. setoid_rewrite <-list_elem_of_In.
    setoid_rewrite bool_decide_eq_true. split; [intros (x & Hx & ->) _; done|]. intros Hv. exists p. split; [by apply Hv|done]. }
  cbn [mbind outcome_bind]. exists (r1 || r2). split; [done|]. rewrite orb_true_iff, H1, H2.
  rewrite (Hall (fun p => tc (edge_rel q) p a)), (Hall (fun p => p ∈ visited q)). done.
Qed.
(** C24: On a graph without cycles the recursive searches end, within as many calls as there are nodes, and give what they are meant to: [is_ancestor] tells whether a non-empty path leads from one node to the other, [subgraph_contains_result] whether a result node can be reached, and [is_direct_child] whether every other parent of the child is an ancestor of the parent, or every other parent was visited. *)
Theorem searches_decide_reachability {E} fuel q a b : in_range q -> acyclic q -> length (nodes q) < fuel ->
  (exists r, is_ancestor (E := E) fuel q a b = Ok r /\ (r = true <-> tc (edge_rel q) a b)) /\
  (exists r, subgraph_contains_result (E := E) fuel q a = Ok r /\ (r = true <-> exists n, rtc (edge_rel q) a n /\ n ∈ result_nodes q)) /\
  (exists r, is_direct_child (E := E) fuel q a b = Ok r /\
     (r = true <-> (forall p, edge_rel q p b -> p <> a -> tc (edge_rel q) p a) \/ (forall p, edge_rel q p b -> p <> a -> p ∈ visited q))).
Proof. apply searches_spec. Qed.
End facts.
