(* ===== verification/GraphRules.v ===== *)
(** * The query graph: what every operation of its construction preserves *)
From stdpp Require Import sorting.
From S2P Require Import Prelude Effects SqlSchema Dml Converter Models Projections Filters ReadFacts QueryAst QueryGraph GraphFacts.
From stdpp Require Import pretty.

(** ** Removal of an edge from the list of edges *)
Lemma insert_Permutation_delete {A} (l : list A) i x y : l !! i = Some x -> <[i := y]> l ≡ₚ y :: delete i l.
Proof.
  revert i. induction l as [|z l IH]; intros [|i] Hi; try done. change (z :: <[i:=y]> l ≡ₚ y :: z :: delete i l). rewrite IH by done. constructor.
Qed.
Lemma swap_remove_last {A} (l : list A) y i : i = length l -> swap_remove i (l ++ [y]) = l.
Proof.
  intros ->. unfold swap_remove. rewrite last_snoc, length_app. cbn. replace (length l + 1 - 1) with (length l) by lia.
  rewrite insert_app_r_alt by lia. by rewrite take_app_length.
Qed.
Lemma swap_remove_inner {A} (l : list A) y i : i < length l -> swap_remove i (l ++ [y]) = <[i := y]> l.
Proof.
  intros Hi. unfold swap_remove. rewrite last_snoc, length_app. cbn. replace (length l + 1 - 1) with (length l) by lia.
  rewrite insert_app_l by lia. rewrite take_app_length'; [done|]. by rewrite length_insert.
Qed.
Lemma swap_remove_Permutation {A} (l : list A) i x : l !! i = Some x -> l ≡ₚ x :: swap_remove i l.
Proof.
  destruct l as [|y l _] using rev_ind; [done|]. intros Hi. destruct (decide (i < length l)) as [Hl|Hl].
  - rewrite lookup_app_l in Hi by done. rewrite swap_remove_inner by done. rewrite (insert_Permutation_delete l i x y) by done.
    rewrite Permutation_app_comm. cbn. rewrite perm_swap. constructor. by apply delete_Permutation.
  - pose proof (lookup_lt_Some _ _ _ Hi) as H. rewrite length_app in H. cbn in H. assert (i = length l) as -> by lia.
    rewrite lookup_app_r, Nat.sub_diag in Hi by lia. injection Hi as <-. rewrite swap_remove_last by done. rewrite Permutation_app_comm. done.
Qed.
Lemma elem_of_swap_remove {A} (l : list A) i x z : l !! i = Some x -> z ∈ swap_remove i l -> z ∈ l.
Proof. intros Hx Hz. rewrite (swap_remove_Permutation l i x) by done. by constructor. Qed.
Lemma iter_filter_perm {A} (P : A -> bool) (l k : list A) : l ≡ₚ k -> iter_filter P l ≡ₚ iter_filter P k.
Proof.
  induction 1; cbn; [done|by case_match; [constructor|]|by repeat case_match; first [constructor|done]|by etrans].
Qed.
Lemma filter_indices {A} (P : A -> bool) (l : list A) (k : list nat) :
  NoDup k -> (forall i, i ∈ k <-> exists x, l !! i = Some x /\ P x = true) -> length k = length (iter_filter P l).
Proof.
  revert k. induction l as [|y l IH] using rev_ind; intros k Hnd Hk.
  - destruct k as [|i k]; [done|]. exfalso. destruct (proj1 (Hk i)) as (x & Hx & _); [constructor|done].
  - rewrite List.filter_app, length_app. cbn. set (n := length l) in *.
    assert (Hlt : forall i x, l !! i = Some x -> i < n) by (intros i x Hx; by apply lookup_lt_Some in Hx).
    assert (Hn : (l ++ [y]) !! n = Some y) by (unfold n; by rewrite lookup_app_r, Nat.sub_diag by lia).
    assert (Hold : forall i x, i <> n -> (l ++ [y]) !! i = Some x <-> l !! i = Some x).
    { intros i x Hi. split; [|intros Hx; by apply lookup_app_l_Some]. intros Hx. pose proof (lookup_lt_Some _ _ _ Hx) as H. rewrite length_app in H. cbn in H.
      rewrite lookup_app_l in Hx by (unfold n in *; lia). done. }
    destruct (P y) eqn:Py.
    + assert (Hin : n ∈ k) by (apply Hk; eauto). apply elem_of_Permutation in Hin as [k' Hp]. rewrite Hp. cbn. rewrite (IH k'); [lia|..].
      * rewrite Hp in Hnd. by inversion Hnd.
      * rewrite Hp in Hnd. apply NoDup_cons in Hnd as [Hnin Hnd]. intros i. split.
        -- intros Hi. assert (i <> n) by congruence. destruct (proj1 (Hk i)) as (x & Hx & Px); [rewrite Hp; by constructor|]. exists x. split; [by apply Hold|done].
        -- intros (x & Hx & Px). pose proof (Hlt i x Hx). assert (Hi : i ∈ k) by (apply Hk; exists x; split; [apply Hold; [lia|done]|done]).
           rewrite Hp in Hi. apply elem_of_cons in Hi as [-> |]; [lia|done].
    + cbn. rewrite Nat.add_0_r. apply IH; [done|]. intros i. rewrite Hk. split.
      * intros (x & Hx & Px). assert (i <> n) by congruence. exists x. split; [by apply Hold|done].
      * intros (x & Hx & Px). pose proof (Hlt i x Hx). exists x. split; [apply Hold; [lia|done]|done].
Qed.

Section rules.
Context `{VT : ValueTypes} {VO : ValueOrd VT} `{IT : Itertools} {GT : GraphTypes} {PG : Petgraph} (HPG : PetgraphOk PG).
Context (debug_names : list string -> string) (idm : InternalDataModel).
Implicit Types (q : QueryGraph) (n : NodeRef).

(** ** The rules *)
Definition leaves (n : nat) (x : (nat * nat) * Guard QueryGraphDependency) : bool := x.1.1 ≟ n.
Definition branch (w : Guard QueryGraphDependency) : Prop := w = Some Then \/ w = Some Else \/ w = None.
Record rules_ok (q : QueryGraph) : Prop := {
  ro_range : in_range q;
  ro_no_self : forall a, ~ edge_rel q a a;
  ro_branches : forall n c b w, nodes q !! n = Some (Some (NodeFlow (FlowIf c))) -> ((n, b), w) ∈ edges q -> branch w;
  ro_two : forall n c, nodes q !! n = Some (Some (NodeFlow (FlowIf c))) -> length (iter_filter (leaves n) (edges q)) <= 2;
}.
Lemma outgoing_length q n : length (outgoing_edges q n) = length (iter_filter (leaves n) (edges q)).
Proof.
  apply filter_indices.
  - unfold outgoing_edges, collect_edges. rewrite (sort_by_perm Nat.leb). apply (edges_directed_nodup (PetgraphOk := HPG)).
  - intros i. unfold outgoing_edges. rewrite (collect_edges_elem HPG). unfold leaves. by setoid_rewrite bool_decide_eq_true.
Qed.
(** Only the nodes and the edges matter. *)
Lemma rules_ok_view q q' : nodes q' = nodes q -> edges q' = edges q -> rules_ok q -> rules_ok q'.
Proof.
  intros Hn He [H1 H2 H3 H4]. unfold in_range, edge_rel in *. split; unfold in_range, edge_rel; rewrite ?Hn, ?He; auto.
Qed.
Lemma rules_new : rules_ok QueryGraph_new.
Proof.
  assert (He : edges QueryGraph_new = []) by apply (new_edges (PetgraphOk := HPG)).
  split; unfold in_range, edge_rel; try setoid_rewrite He.
  - intros a b [w Hw]. inversion Hw.
  - intros a [w Hw]. inversion Hw.
  - intros n c b w _ Hw. inversion Hw.
  - intros. cbn. lia.
Qed.

(** ** Computations that keep a property of the graph when they succeed *)
Definition keeps {A} (I : QueryGraph -> Prop) (m : GraphM A) : Prop := forall q r q', I q -> m q = (Ok r, q') -> I q'.
Lemma keeps_graph_bind {A B} I (m : GraphM A) (f : A -> GraphM B) : keeps I m -> (forall a, keeps I (f a)) -> keeps I (m ≫= f).
Proof.
  intros Hm Hf q r q' HI. unfold mbind, eff_bind. destruct (m q) as [[a| |] q1] eqn:E; try done. intros H. by apply (Hf a q1 r q'), H; apply (Hm q a q1).
Qed.
Lemma keeps_pure {A} I (m : GraphM A) : (forall q, (m q).2 = q) -> keeps I m.
Proof. intros H q r q' HI Hm. specialize (H q). rewrite Hm in H. cbn in H. by subst. Qed.
Lemma keeps_for {A} I (f : A -> GraphM unit) l : (forall a, keeps I (f a)) -> keeps I (eff_for f l).
Proof. intros Hf. induction l as [|a l IH]; [by apply keeps_pure|]. cbn [eff_for]. apply keeps_graph_bind; auto. Qed.

(** ** The operations *)
Lemma keeps_create_node (node : Node) : keeps rules_ok (create_node node).
Proof.
  intros q r q' [H1 H2 H3 H4]. unfold create_node. pose proof (add_node_ok (PetgraphOk := HPG) _ _ (Some node) (graph q)) as (Hr & Hn & He).
  destruct (add_node (Some node) (graph q)) as [g ix]. cbn in *. intros [= <- <-].
  assert (Hnew : forall k c, nodes (with_graph g q) !! k = Some c -> nodes q !! k = Some c \/ k = length (nodes q)).
  { unfold nodes; cbn. rewrite Hn. intros k c [Hk|[Hl Hk]]%lookup_app_Some; [by left|]. right.
    apply lookup_lt_Some in Hk. cbn in Hk. lia. }
  assert (Hno : forall b w, ((length (nodes q), b), w) ∉ edges q) by (intros b w Hw; destruct (H1 (length (nodes q)) b); [by exists w|lia]).
  split; unfold in_range, edge_rel, edges; cbn; rewrite ?He; fold (edges q); auto.
  - intros a b Hab. destruct (H1 a b Hab). unfold nodes; cbn. rewrite Hn, length_app. cbn. fold (nodes q). lia.
  - intros k c b w Hk Hw. destruct (Hnew _ _ Hk) as [Hk'| ->]; [by eapply H3|]. by destruct (Hno b w).
  - intros k c Hk. destruct (Hnew _ _ Hk) as [Hk'| ->]; [by eapply H4|].
    destruct (iter_filter (leaves (length (nodes q))) (edges q)) as [|[[a b] w] l] eqn:Ef; [cbn; lia|].
    assert (Hin : ((a, b), w) ∈ iter_filter (leaves (length (nodes q))) (edges q)) by (rewrite Ef; constructor).
    apply list_elem_of_In, filter_In in Hin as [Hin Ha%bool_decide_eq_true]. cbn in Ha. subst a. apply list_elem_of_In in Hin. by destruct (Hno b w).
Qed.
(** A created edge passed the checks. *)
Lemma create_edge_Ok a b c q r q' : create_edge debug_names idm a b c q = (Ok r, q') ->
  nodes q' = nodes q /\ edges q' = edges q ++ [((a, b), Some c)] /\ a < length (nodes q) /\ b < length (nodes q) /\ a <> b /\
  (forall f, nodes q !! a = Some (Some (NodeFlow (FlowIf f))) -> (c = Then \/ c = Else) /\ length (iter_filter (leaves a) (edges q')) <= 2).
Proof.
  unfold create_edge. intros H. destruct (decide (a < length (nodes q) /\ b < length (nodes q))) as [[Ha Hb]|Hn].
  2: { unfold nodes in Hn. by rewrite (add_edge_panics (PetgraphOk := HPG)) in H. }
  destruct (add_edge_ok (PetgraphOk := HPG) _ _ a b (Some c) (graph q) Ha Hb) as (g & Hg & Hgn & Hge). rewrite Hg in H.
  injection H as Hck <-. set (q' := with_graph g q) in *.
  assert (Hin : edges q' !! length (edges q) = Some ((a, b), Some c)).
  { unfold edges, q'; cbn. rewrite Hge. rewrite lookup_app_r, Nat.sub_diag by lia. done. }
  split; [done|]. split; [done|]. split; [done|]. split; [done|]. unfold after_edge_creation in Hck.
  destruct (if_flow_edge_rules debug_names idm q' _) as [[]| |] eqn:Ef in Hck; try done. cbn [mbind outcome_bind] in Hck.
  destruct (disallow_self_edges q' _) as [[]| |] eqn:Es in Hck; try done.
  unfold disallow_self_edges in Es. rewrite (edge_source_ok HPG _ _ _ Hin), (edge_target_ok HPG _ _ _ Hin) in Es. cbn [mbind outcome_bind fst snd] in Es.
  split; [intros ->; by rewrite bool_decide_eq_true_2 in Es|]. intros f Hf. unfold if_flow_edge_rules in Ef.
  rewrite (edge_source_ok HPG _ _ _ Hin) in Ef. cbn [mbind outcome_bind fst snd] in Ef.
  assert (Hf' : nodes q' !! a = Some (Some (NodeFlow (FlowIf f)))) by (unfold nodes, q'; cbn; by rewrite Hgn).
  rewrite (node_content_ok HPG _ _ _ Hf') in Ef. cbn [mbind outcome_bind unwrap] in Ef. rewrite (edge_content_ok HPG _ _ _ Hin) in Ef.
  cbn [mbind outcome_bind unwrap fst snd] in Ef. rewrite (child_pairs_ok HPG) in Ef.
  assert (Hlen : Nat.ltb 2 (length ((fun e => (e, target_of q' e)) <$> outgoing_edges q' a)) = false -> length (iter_filter (leaves a) (edges q')) <= 2).
  { rewrite length_fmap, outgoing_length. intros Hl%Nat.ltb_ge. done. }
  destruct c; cbn [mbind outcome_bind] in Ef; try (destruct (Nat.ltb 2 _) eqn:El in Ef; [done|]; auto).
  - done.
  - done.
  - destruct (display_dependency _ _ _); done.
Qed.
Lemma keeps_create_edge a b c : keeps rules_ok (create_edge debug_names idm a b c).
Proof.
  intros q r q' [H1 H2 H3 H4] H. destruct (create_edge_Ok _ _ _ _ _ _ H) as (Hn & He & Ha & Hb & Hab & Hif).
  assert (Hnew : forall x, x ∈ edges q' -> x ∈ edges q \/ x = ((a, b), Some c)) by (intros x; rewrite He, elem_of_app, list_elem_of_singleton; done).
  split; unfold in_range, edge_rel.
  - rewrite Hn. intros a' b' (w & [Hw|[= -> -> ->]]%Hnew); [apply H1; by exists w|done].
  - intros a' (w & [Hw|[= -> -> ->]]%Hnew); [by apply (H2 a'); exists w|done].
  - intros n f b' w Hf [Hw|[= -> -> ->]]%Hnew; rewrite Hn in Hf; [by eapply H3|]. destruct (Hif f Hf) as [[-> | ->] _]; unfold branch; auto.
  - intros n f Hf. rewrite Hn in Hf. destruct (decide (n = a)) as [-> |Hna]; [by apply (Hif f)|].
    rewrite He, List.filter_app, length_app. cbn. unfold leaves at 2; cbn. rewrite bool_decide_eq_false_2 by done. cbn. rewrite Nat.add_0_r. by apply (H4 n f).
Qed.
Lemma keeps_remove_edge e : keeps rules_ok (remove_edge e).
Proof.
  intros q r q' [H1 H2 H3 H4]. unfold remove_edge. pose proof (pg_remove_edge_ok (PetgraphOk := HPG) _ _ e (graph q)) as Hr.
  destruct (raw_edges (graph q) !! e) as [x|] eqn:Ex; [|by rewrite Hr]. destruct Hr as (g & -> & Hn & He). intros [= <- <-].
  assert (Hsub : forall y, y ∈ edges (with_graph g q) -> y ∈ edges q) by (unfold edges; cbn; rewrite He; intros y; by apply (elem_of_swap_remove _ _ x)).
  split; unfold in_range, edge_rel.
  - unfold nodes; cbn. rewrite Hn. intros a b (w & Hw%Hsub). apply H1. by exists w.
  - intros a (w & Hw%Hsub). apply (H2 a). by exists w.
  - unfold nodes; cbn. rewrite Hn. intros n c b w Hc Hw%Hsub. by eapply H3.
  - unfold nodes; cbn. rewrite Hn. intros n c Hc. specialize (H4 n c Hc). unfold edges; cbn. rewrite He.
    pose proof (swap_remove_Permutation _ _ _ Ex) as Hp. unfold edges in H4. rewrite (Permutation_length (iter_filter_perm (leaves n) _ _ Hp)) in H4. cbn in H4.
    destruct (leaves n x); cbn in H4; lia.
Qed.
Lemma keeps_pluck_edge e : keeps rules_ok (pluck_edge e).
Proof.
  intros q r q' [H1 H2 H3 H4]. unfold pluck_edge. rewrite (edge_weight_ok (PetgraphOk := HPG)).
  destruct (raw_edges (graph q) !! e) as [[[a b] [d|]]|] eqn:Ex; cbn; try done. intros [= <- <-].
  pose proof (set_edge_weight_ok (PetgraphOk := HPG) _ _ e None (graph q)) as [Hn He].
  assert (Hel : forall a' b' w, ((a', b'), w) ∈ edges (with_graph (set_edge_weight e None (graph q)) q) ->
    ((a', b'), w) ∈ edges q \/ (w = None /\ exists w', ((a', b'), w') ∈ edges q)).
  { intros a' b' w [k Hk]%list_elem_of_lookup. unfold edges in *. cbn in *. rewrite He in Hk. destruct (decide (k = e)) as [-> |Hke].
    - rewrite list_lookup_alter_eq, Ex in Hk. injection Hk as <- <- <-. right. split; [done|]. eexists. by apply list_elem_of_lookup_2 in Ex.
    - rewrite list_lookup_alter_ne in Hk by done. left. by apply list_elem_of_lookup_2 in Hk. }
  split; unfold in_range, edge_rel, nodes; cbn; rewrite ?Hn; fold (nodes q).
  - intros a' b' (w & [Hw|(_ & w' & Hw)]%Hel); apply H1; eexists; eauto.
  - intros a' (w & [Hw|(_ & w' & Hw)]%Hel); apply (H2 a'); eexists; eauto.
  - intros n c b' w Hc [Hw|(-> & _)]%Hel; [by eapply H3|]. right. by right.
  - intros n c Hc. specialize (H4 n c Hc). unfold edges in *. cbn. rewrite He. etrans; [|exact H4]. apply Nat.eq_le_incl. clear.
    generalize (raw_edges (graph q)). induction e as [|e IH]; intros [|x l]; try done.
    { cbn. change (leaves n (x.1, None)) with (leaves n x). by destruct (leaves n x). }
    change (alter (fun x0 : nat * nat * Guard QueryGraphDependency => (x0.1, None)) (Datatypes.S e) (x :: l)) with (x :: alter (fun x0 : nat * nat * Guard QueryGraphDependency => (x0.1, None)) e l).
    cbn. destruct (leaves n x); cbn; by rewrite IH.
Qed.
Lemma keeps_pluck_node n : keeps rules_ok (pluck_node n).
Proof.
  intros q r q' [H1 H2 H3 H4]. unfold pluck_node. rewrite (node_weight_ok (PetgraphOk := HPG)).
  destruct (raw_nodes (graph q) !! n) as [[c|]|] eqn:Ex; cbn; try done. intros [= <- <-].
  pose proof (set_node_weight_ok (PetgraphOk := HPG) _ _ n None (graph q)) as [Hn He].
  assert (Hc : forall k x, nodes (with_graph (set_node_weight n None (graph q)) q) !! k = Some (Some x) -> nodes q !! k = Some (Some x)).
  { intros k x. unfold nodes; cbn. rewrite Hn. destruct (decide (k = n)) as [-> |]; [|by rewrite list_lookup_insert_ne].
    rewrite list_lookup_insert_eq by (by apply lookup_lt_Some in Ex). done. }
  split; unfold in_range, edge_rel, edges; cbn; rewrite ?He; fold (edges q); auto.
  - intros a b Hab. unfold nodes; cbn. rewrite Hn, length_insert. by apply H1.
  - intros k f b w Hk%Hc Hw. by eapply H3.
  - intros k f Hk%Hc. by eapply H4.
Qed.
Hint Resolve keeps_create_node keeps_create_edge keeps_remove_edge keeps_pluck_edge keeps_pluck_node : prisma.
Ltac keep_step :=
  match goal with
  | |- keeps _ (mbind _ _) => apply keeps_graph_bind; [|intros]
  | |- keeps _ (eff_for _ _) => apply keeps_for; intros
  | |- keeps _ (match ?x with _ => _ end) => destruct x
  | |- _ => first [solve [auto with prisma] | by apply keeps_pure; intros; cbn; repeat case_match]
  end.
Lemma keeps_swap_marked : keeps rules_ok (swap_marked debug_names idm).
Proof.
  unfold swap_marked. apply keeps_graph_bind.
  - intros q r q' HI [= <- <-]. by apply (rules_ok_view q).
  - intros l. apply keeps_for. intros [parent child]. unfold swap_pair, connect_parent_of_parent. repeat keep_step.
Qed.
Lemma keeps_insert_reloads : keeps rules_ok (insert_reloads debug_names idm).
Proof.
  unfold insert_reloads. apply keeps_graph_bind; [keep_step|]. intros l. apply keeps_for. intros [[node model] es].
  unfold insert_reload, reattach. repeat keep_step.
Qed.
Lemma keeps_finalize : keeps rules_ok (finalize debug_names idm).
Proof.
  unfold finalize. apply keeps_graph_bind; [keep_step|]. intros b. apply keeps_graph_bind; [|intros; keep_step]. destruct b; [keep_step|].
  apply keeps_graph_bind; [apply keeps_swap_marked|]. intros _. apply keeps_graph_bind; [apply keeps_insert_reloads|]. intros _ q r q' HI [= <- <-].
  by apply (rules_ok_view q).
Qed.

(** ** Construction of a graph *)
Inductive build_step (q : QueryGraph) : QueryGraph -> Prop :=
| step_create_node node r q' : create_node node q = (Ok r, q') -> build_step q q'
| step_create_edge a b c r q' : create_edge debug_names idm a b c q = (Ok r, q') -> build_step q q'
| step_remove_edge e r q' : remove_edge e q = (Ok r, q') -> build_step q q'
| step_pluck_edge e r q' : pluck_edge e q = (Ok r, q') -> build_step q q'
| step_pluck_node n r q' : pluck_node n q = (Ok r, q') -> build_step q q'
| step_finalize q' : finalize debug_names idm q = (Ok tt, q') -> build_step q q'
| step_add_result_node n : build_step q (add_result_node n q)
| step_mark_visited n : build_step q (mark_visited n q)
| step_mark_nodes a b : build_step q (mark_nodes a b q)
| step_flag_transactional : build_step q (flag_transactional q).

(** C23: Whatever operations build a query graph, as long as they return no error, the graph obeys the rules that are checked when an edge is created: no edge leads from a node to itself, an [If] node has at most two edges and they are [Then] and [Else] (or were taken out), and every edge joins existing nodes. Finalizing the graph, which swaps marked nodes and inserts reloads, keeps the rules as well. *)
Theorem graph_rules_hold q : rtc build_step QueryGraph_new q -> rules_ok q.
Proof.
  assert (Hsteps : forall p p', rtc build_step p p' -> rules_ok p -> rules_ok p').
  { induction 1 as [|x y z Hxy _ IH]; [done|]. intros Hx. apply IH. inversion Hxy; subst.
    - by eapply keeps_create_node.
    - by eapply keeps_create_edge.
    - by eapply keeps_remove_edge.
    - by eapply keeps_pluck_edge.
    - by eapply keeps_pluck_node.
    - by eapply keeps_finalize.
    - by apply (rules_ok_view x).
    - unfold mark_visited. case_match; [done|]. by apply (rules_ok_view x).
    - by apply (rules_ok_view x).
    - by apply (rules_ok_view x). }
  intros H. by apply (Hsteps _ _ H), rules_new.
Qed.
End rules.
