(* ===== verification/Reloads.v ===== *)
(** * The query graph: reloads give every dependent query the fields it asks for *)
From stdpp Require Import sorting pretty.
From S2P Require Import Prelude Effects SqlSchema Dml Converter Models Projections Filters ReadFacts QueryAst QueryGraph GraphFacts GraphRules.

(** ** [filter_map] *)
Lemma filter_map_m_Ok {E A B} (f : A -> outcome E (option B)) l k : filter_map_m f l = Ok k ->
  (forall b, b ∈ k -> exists a, a ∈ l /\ f a = Ok (Some b)) /\
  (forall a, a ∈ l -> f a = Ok None \/ exists b, f a = Ok (Some b) /\ b ∈ k).
Proof.
  revert k. induction l as [|a l IH]; intros k; cbn [filter_map_m].
  { intros [= <-]. split; intros x Hx; inversion Hx. }
  destruct (f a) as [o| |] eqn:Ef; try done. cbn [mbind outcome_bind]. destruct (filter_map_m f l) as [k'| |]; try done. cbn [mbind outcome_bind].
  intros [= <-]. destruct (IH k' eq_refl) as [H1 H2]. split.
  - intros b Hb. destruct o as [b'|]; [apply elem_of_cons in Hb as [-> |Hb]|].
    + exists a. split; [constructor|done].
    + destruct (H1 b Hb) as (x & Hx & Hfx). exists x. split; [by constructor|done].
    + destruct (H1 b Hb) as (x & Hx & Hfx). exists x. split; [by constructor|done].
  - intros x [-> |Hx]%elem_of_cons.
    + destruct o as [b|]; [|by left]. right. exists b. split; [done|constructor].
    + destruct (H2 x Hx) as [|(b & Hb & Hin)]; [by left|]. right. exists b. split; [done|]. destruct o; [by constructor|done].
Qed.
Lemma filter_map_m_total {E A B} (f : A -> outcome E (option B)) l : (forall a, a ∈ l -> exists o, f a = Ok o) -> exists k, filter_map_m f l = Ok k.
Proof.
  induction l as [|a l IH]; intros H; cbn [filter_map_m]; [by eexists|]. destruct (H a) as [o ->]; [constructor|]. cbn [mbind outcome_bind].
  destruct IH as [k ->]; [intros; apply H; by constructor|]. by eexists.
Qed.
Lemma filter_map_m_NoDup {E A B} (f : A -> outcome E (option B)) (key : B -> A) l k :
  (forall a b, f a = Ok (Some b) -> key b = a) -> filter_map_m f l = Ok k -> NoDup l -> NoDup (key <$> k).
Proof.
  intros Hkey. revert k. induction l as [|a l IH]; intros k; cbn [filter_map_m]; [intros [= <-] _; constructor|].
  destruct (f a) as [o| |] eqn:Ef; try done. cbn [mbind outcome_bind]. destruct (filter_map_m f l) as [k'| |] eqn:Ek; try done. cbn [mbind outcome_bind].
  intros [= <-] [Ha Hl]%NoDup_cons. specialize (IH k' eq_refl Hl). destruct o as [b|]; [|done]. rewrite fmap_cons. constructor; [|done].
  rewrite (Hkey _ _ Ef). intros (b' & -> & Hb')%list_elem_of_fmap. apply Ha. destruct (filter_map_m_Ok f l k' Ek) as [H1 _].
  destruct (H1 b' Hb') as (x & Hx & Hfx). by rewrite (Hkey _ _ Hfx).
Qed.

Section reload_query.
Context `{VT : ValueTypes} {VO : ValueOrd VT} `{IT : Itertools} (HIT : ItertoolsOk IT) (idm : InternalDataModel).

(** ** Projections of one model *)
Record model_ready (m : QueryModel) : Prop := {
  mr_names : NoDup (mf_name <$> all (qm_fields m));
  mr_found : forall E rf, FieldRelation rf ∈ all (qm_fields m) -> upgrade_model (E := E) idm (rf_model rf) = Ok m;
}.
Record projection_of (m : QueryModel) (p : ModelProjection) : Prop := {
  po_fields : forall f, f ∈ p -> f ∈ all (qm_fields m);
  po_resolves : forall f, f ∈ p -> exists fs, forall E, mf_scalar_fields (E := E) idm f = Ok fs;
}.
Lemma scalar_elem m sf : sf ∈ scalar (qm_fields m) <-> FieldScalar sf ∈ all (qm_fields m).
Proof.
  unfold scalar. rewrite list_elem_of_omap. split; [|intros H; by eexists]. intros ([rf|x] & Hx & E); [done|]. by injection E as ->.
Qed.
Lemma scalar_names m a b : model_ready m -> a ∈ scalar (qm_fields m) -> b ∈ scalar (qm_fields m) -> sf_name a = sf_name b -> a = b.
Proof.
  intros Hm Ha%scalar_elem Hb%scalar_elem Hn. assert (H : FieldScalar a = FieldScalar b) by (by apply (NoDup_fmap_inj mf_name (all (qm_fields m))); [apply Hm|..]).
  by injection H.
Qed.
Lemma field_scalars m f E fs : model_ready m -> f ∈ all (qm_fields m) -> mf_scalar_fields (E := E) idm f = Ok fs -> forall s, s ∈ fs -> s ∈ scalar (qm_fields m).
Proof.
  intros Hm Hf H s Hs. destruct f as [rf|sf]; cbn in H.
  - unfold rf_scalar_fields in H. rewrite (mr_found m Hm) in H by done. cbn [mbind outcome_bind] in H.
    destruct (map_m_elem _ _ _ _ H Hs) as (n & _ & Hn). destruct (iter_find _ _) as [x|] eqn:Ef in Hn; [|done]. injection Hn as ->.
    apply find_some in Ef as [Hin _]. by apply list_elem_of_In.
  - injection H as <-. apply list_elem_of_singleton in Hs as ->. by apply scalar_elem.
Qed.
(** The scalar fields of a projection, one per name. *)
Definition scalars_in (p : ModelProjection) (s : ScalarField) : Prop := exists f fs, f ∈ p /\ (forall E, mf_scalar_fields (E := E) idm f = Ok fs) /\ s ∈ fs.
Lemma mp_scalar_fields_spec m p : model_ready m -> projection_of m p ->
  exists fs, (forall E, mp_scalar_fields (E := E) idm p = Ok fs) /\ NoDup (sf_name <$> fs) /\ forall s, s ∈ fs <-> scalars_in p s.
Proof.
  intros Hm Hp. assert (Hall : exists l, (forall E, map_m (mf_scalar_fields (E := E) idm) p = Ok l) /\ forall s, s ∈ mjoin l <-> scalars_in p s).
  { destruct Hp as [_ Hr]. induction p as [|f p IH].
    - exists []. split; [done|]. intros s. split; [intros H; inversion H|intros (f & ? & H & _); inversion H].
    - destruct (Hr f) as [fs Hfs]; [constructor|]. destruct IH as (l & Hl & Hs); [intros; apply Hr; by constructor|]. exists (fs :: l). split.
      + intros E. cbn. rewrite Hfs. cbn. by rewrite Hl.
      + intros s. change (mjoin (fs :: l)) with (fs ++ mjoin l). rewrite elem_of_app, Hs. split.
        * intros [H|(g & gs & Hg & H)]; [exists f, fs; split; [constructor|done]|exists g, gs; split; [by constructor|done]].
        * intros (g & gs & [-> |Hg]%elem_of_cons & Hgs & H); [|right; by exists g, gs]. left. pose proof (Hgs unit) as H1. rewrite (Hfs unit) in H1. by injection H1 as <-. }
  destruct Hall as (l & Hl & Hs). exists (unique_by sf_name (mjoin l)). split; [|split].
  - intros E. unfold mp_scalar_fields. by rewrite Hl.
  - apply (unique_by_NoDup (HIT := HIT)).
  - assert (Hin : forall s, s ∈ mjoin l -> s ∈ scalar (qm_fields m)).
    { intros s (f & fs & Hf & Hfs & H)%Hs. apply (field_scalars m f unit fs); auto. by apply (po_fields m p). }
    intros s. rewrite <-Hs. split; [apply (unique_by_elem (HIT := HIT))|]. intros H. destruct (unique_by_key (HIT := HIT) sf_name (mjoin l) s H) as (y & Hy & Hn).
    assert (y = s) as <-; [|done]. apply (scalar_names m); auto. apply Hin. by apply (unique_by_elem (HIT := HIT)) in Hy.
Qed.

(** ** The union of projections *)
Lemma ModelField_eqb_name f g : ModelField_eqb f g = true -> mf_name f = mf_name g.
Proof.
  destruct f as [a|a], g as [b|b]; cbn; try done; unfold RelationField_eqb, ScalarField_eqb; rewrite !andb_true_iff; intros H; decompose [and] H; eapply bool_decide_eq_true_1; eassumption.
Qed.
Lemma unique_fields_elem m l f : model_ready m -> (forall g, g ∈ l -> g ∈ all (qm_fields m)) -> f ∈ unique_eq ModelField_eqb l <-> f ∈ l.
Proof.
  intros Hm. revert f. induction l as [|x l IH] using rev_ind; intros f Hl; [by rewrite (unique_eq_nil (ItertoolsOk := HIT))|].
  rewrite (unique_eq_snoc (ItertoolsOk := HIT)). assert (Hl' : forall g, g ∈ l -> g ∈ all (qm_fields m)) by (intros; apply Hl, elem_of_app; by left).
  destruct (iter_any _ _) eqn:Ea; rewrite !elem_of_app, IH by done; [|done]. split; [by left|]. intros [H| ->%list_elem_of_singleton]; [done|].
  apply existsb_exists in Ea as (y & Hy%list_elem_of_In & He%ModelField_eqb_name). apply IH in Hy; [|done].
  assert (x = y) as ->; [|done]. apply (NoDup_fmap_inj mf_name (all (qm_fields m))); [apply Hm| |by apply Hl'|done]. apply Hl, elem_of_app. right. by constructor.
Qed.
Lemma union_elem m ids f : model_ready m -> (forall p, p ∈ ids -> projection_of m p) -> f ∈ Projections.union ids <-> exists p, p ∈ ids /\ f ∈ p.
Proof.
  intros Hm. revert f. induction ids as [|p ids IH] using rev_ind; intros f Hids.
  - cbn. split; [intros H; inversion H|intros (p & H & _); inversion H].
  - unfold Projections.union. rewrite foldl_app. cbn. fold (Projections.union ids). unfold merge.
    assert (Hids' : forall p, p ∈ ids -> projection_of m p) by (intros; apply Hids, elem_of_app; by left).
    assert (Hp : projection_of m p) by (apply Hids, elem_of_app; right; by constructor).
    rewrite (unique_fields_elem m); [|done|].
    + rewrite elem_of_app, IH by done. split.
      * intros [(p' & Hp' & Hf)|Hf]; [exists p'|exists p]; rewrite elem_of_app, list_elem_of_singleton; auto.
      * intros (p' & [Hp'| ->%list_elem_of_singleton]%elem_of_app & Hf); eauto.
    + intros g. rewrite elem_of_app. intros [Hg|Hg]; [|by apply (po_fields m p)].
      apply IH in Hg as (p' & Hp' & Hg); [|done]. apply (po_fields m p'); auto.
Qed.
Lemma union_projection m ids : model_ready m -> (forall p, p ∈ ids -> projection_of m p) -> projection_of m (Projections.union ids).
Proof. intros Hm Hids. split; intros f (p & Hp & Hf)%(union_elem m); try done; by apply (Hids p Hp). Qed.

(** A reload selects every field asked for. *)
Lemma reload_returns {E} m ids p : model_ready m -> (forall p, p ∈ ids -> projection_of m p) -> p ∈ ids ->
  returns (E := E) idm (reload_query m ids) p = Ok true.
Proof.
  intros Hm Hids Hp. destruct (mp_scalar_fields_spec m p) as (fs & Hfs & Hnd & Hs); [done|by apply Hids|].
  destruct (mp_scalar_fields_spec m (Projections.union ids)) as (us & Hus & Hund & Hu); [done|by apply union_projection|].
  assert (Hsub : forall s, s ∈ fs -> s ∈ us).
  { intros s (f & l & Hf & Hl)%Hs. apply Hu. exists f, l. split; [|done]. apply (union_elem m); [done..|]. by exists p. }
  unfold returns, reload_query, read_returns, mp_db_names. rewrite Hfs. cbn [mbind outcome_bind mrq_selected_fields].
  unfold contains_all_db_names, mp_db_names. rewrite Hus. cbn [mbind outcome_bind]. rewrite !length_fmap.
  assert (Hlen : length fs <= length us).
  { rewrite <-(length_fmap sf_name fs), <-(length_fmap sf_name us). apply submseteq_length, NoDup_submseteq; [done|].
    intros n (s & -> & H)%list_elem_of_fmap. by apply list_elem_of_fmap_2, Hsub. }
  apply Nat.ltb_ge in Hlen as ->. f_equal. apply forallb_forall. intros n (s & -> & H)%list_elem_of_In%list_elem_of_fmap.
  apply existsb_exists. exists (sf_db_name s). split; [|by apply bool_decide_eq_true]. by apply list_elem_of_In, list_elem_of_fmap_2, Hsub.
Qed.
(** Identifiers are scalar fields of their model. *)
Lemma find_scalars {E} m (text : string -> string) names fs :
  map_m (fun n => unwrap (E := E) (text n) (iter_find (fun sf => sf_name sf ≟ n) (scalar (qm_fields m)))) names = Ok fs -> forall s, s ∈ fs -> s ∈ scalar (qm_fields m).
Proof.
  intros H s Hs. destruct (map_m_elem _ _ _ _ H Hs) as (n & _ & Hn). destruct (iter_find _ _) as [x|] eqn:Ef in Hn; [|done]. injection Hn as ->.
  apply find_some in Ef as [Hin _]. by apply list_elem_of_In.
Qed.
Lemma one_scalar m P x : iter_find P (scalar (qm_fields m)) = Some x -> forall s, s ∈ [x] -> s ∈ scalar (qm_fields m).
Proof. intros [Hx _]%find_some s ->%list_elem_of_singleton. by apply list_elem_of_In. Qed.
Lemma fields_id_scalars {E} m fs : fields_id (E := E) idm (qm_fields m) = Ok (Some fs) -> forall s, s ∈ fs -> s ∈ scalar (qm_fields m).
Proof.
  unfold fields_id, find_singular_id, find_multipart_id. destruct (iter_find _ _) as [x|] eqn:E1; [intros [= <-]; by eapply one_scalar|].
  destruct (fs_id_field_names _) as [|n ns]; [done|]. destruct (map_m _ _) as [l| |] eqn:E2; try done. intros [= <-]. eapply find_scalars. exact E2.
Qed.
Lemma primary_identifier_projection {E} m id : primary_identifier (E := E) idm m = Ok id -> projection_of m id.
Proof.
  intros H. assert (Hid : exists fs, id = FieldScalar <$> fs /\ forall s, s ∈ fs -> s ∈ scalar (qm_fields m)).
  { unfold primary_identifier in H. destruct (fields_id idm (qm_fields m)) as [[fs|]| |] eqn:E1; try done.
    { injection H as <-. exists fs. split; [done|]. by eapply fields_id_scalars. }
    cbn [mbind outcome_bind] in H. destruct (iter_find _ _) as [x|] eqn:E2 in H; [injection H as <-; exists [x]; split; [done|by eapply one_scalar]|].
    unfold first_required_index in H. destruct (find_m _ _) as [[i|]| |] in H; try done. cbn [mbind outcome_bind] in H. unfold mi_fields in H.
    destruct (map_m _ _) as [fs| |] eqn:E3 in H; try done. injection H as <-. exists fs. split; [done|].
    eapply (find_scalars (E := E) m (fun n => "Unable to resolve field '" +:+ n +:+ "'")). exact E3. }
  destruct Hid as (fs & -> & Hs). split; intros f (s & -> & H1)%list_elem_of_fmap; [by apply scalar_elem, Hs|by exists [s]].
Qed.
End reload_query.

Section reloads.
Context `{VT : ValueTypes} {VO : ValueOrd VT} `{IT : Itertools} (HIT : ItertoolsOk IT) {GT : GraphTypes} {PG : Petgraph} (HPG : PetgraphOk PG).
Context (debug_names : list string -> string) (idm : InternalDataModel).
Implicit Types (q : QueryGraph) (n e r : nat).

(** ** Single operations that succeed *)
Lemma create_edge_succeeds a b c q query : a < length (nodes q) -> b < length (nodes q) -> a <> b -> nodes q !! a = Some (Some (NodeQuery query)) ->
  exists e q', create_edge debug_names idm a b c q = (Ok e, q') /\ nodes q' = nodes q /\ edges q' = edges q ++ [((a, b), Some c)].
Proof.
  intros Ha Hb Hab Hq. unfold create_edge. destruct (add_edge_ok (PetgraphOk := HPG) _ _ a b (Some c) (graph q) Ha Hb) as (g & -> & Hn & He).
  set (q' := with_graph g q). exists (length (raw_edges (graph q))), q'.
  assert (Hin : edges q' !! length (raw_edges (graph q)) = Some ((a, b), Some c)).
  { unfold edges, q'; cbn. rewrite He, lookup_app_r, Nat.sub_diag by lia. done. }
  assert (Hq' : nodes q' !! a = Some (Some (NodeQuery query))) by (unfold nodes, q'; cbn; by rewrite Hn).
  split; [|done]. f_equal. unfold after_edge_creation, if_flow_edge_rules, disallow_self_edges.
  rewrite (edge_source_ok HPG _ _ _ Hin), (edge_target_ok HPG _ _ _ Hin). cbn [mbind outcome_bind fst snd].
  rewrite (node_content_ok HPG _ _ _ Hq'). cbn [mbind outcome_bind unwrap].
  rewrite bool_decide_eq_false_2; [done|]. unfold node_id. by intros ?%(inj pretty).
Qed.
Lemma remove_edge_succeeds e q x : edges q !! e = Some x -> exists q', remove_edge e q = (Ok x.2, q') /\ nodes q' = nodes q /\ edges q' = swap_remove e (edges q).
Proof.
  intros Hx. unfold remove_edge. pose proof (pg_remove_edge_ok (PetgraphOk := HPG) _ _ e (graph q)) as H. unfold edges in *. rewrite Hx in H.
  destruct H as (g & -> & Hn & He). by exists (with_graph g q).
Qed.
Lemma create_node_succeeds node q : exists q', create_node node q = (Ok (length (nodes q)), q') /\ nodes q' = nodes q ++ [Some node] /\ edges q' = edges q.
Proof.
  unfold create_node. pose proof (add_node_ok (PetgraphOk := HPG) _ _ (Some node) (graph q)) as (Hr & Hn & He). destruct (add_node _ _) as [g ix]. cbn in *. subst.
  by exists (with_graph g q).
Qed.

(** ** The graph while reloads are inserted

    [q0] is the graph before; the edges with an index in [R] were moved. *)
Context (q0 : QueryGraph) (Hrange : in_range q0).
Let N := length (nodes q0).
Let M := length (edges q0).
Definition to_reload (n r : nat) (x : (nat * nat) * Guard QueryGraphDependency) : Prop :=
  exists query m id, nodes q0 !! n = Some (Some (NodeQuery query)) /\ query_model (E := QueryGraphError) idm query = Ok m /\
    primary_identifier (E := QueryGraphError) idm m = Ok id /\ x = ((n, r), Some (ParentProjection id reload_filter)) /\ N <= r.
Definition from_reload (q : QueryGraph) (x : (nat * nat) * Guard QueryGraphDependency) : Prop :=
  exists r b p f m ids, x = ((r, b), Some (ParentProjection p f)) /\ N <= r /\ nodes q !! r = Some (Some (NodeQuery (reload_query m ids))) /\
    p ∈ ids /\ model_ready idm m /\ forall p', p' ∈ ids -> projection_of idm m p'.
Definition new_edge (q : QueryGraph) x : Prop := (exists n r, to_reload n r x) \/ from_reload q x.
Definition rerouted (q : QueryGraph) (n b : nat) (c : Guard QueryGraphDependency) : Prop :=
  exists r x, to_reload n r x /\ x ∈ edges q /\ ((r, b), c) ∈ edges q.
Record inv (R : list nat) (q : QueryGraph) : Prop := {
  iv_nodes : nodes q0 `prefix_of` nodes q;
  iv_len : M <= length (edges q);
  iv_old : forall i, i < M -> i ∉ R -> edges q !! i = edges q0 !! i;
  iv_new : forall i x, edges q !! i = Some x -> (i < M /\ i ∉ R) \/ new_edge q x;
}.
Definition moved (R : list nat) (q : QueryGraph) : Prop := forall e n b c, e ∈ R -> edges q0 !! e = Some ((n, b), c) -> rerouted q n b c.
Lemma inv_start : inv [] q0.
Proof. split; try done. intros i x Hi. left. split; [by apply lookup_lt_Some in Hi|apply not_elem_of_nil]. Qed.
Lemma prefix_lookup {A} (l k : list A) i x : l `prefix_of` k -> l !! i = Some x -> k !! i = Some x.
Proof. intros [j ->] H. by apply lookup_app_l_Some. Qed.
Lemma new_edge_mono q q' x : nodes q `prefix_of` nodes q' -> new_edge q x -> new_edge q' x.
Proof.
  intros Hn [H|(r & b & p & f & m & ids & H1 & H2 & H3 & H4)]; [by left|]. right. exists r, b, p, f, m, ids. split; [done|]. split; [done|]. split; [by eapply prefix_lookup|done].
Qed.
Lemma inv_nodes R q q' : inv R q -> nodes q `prefix_of` nodes q' -> edges q' = edges q -> inv R q'.
Proof.
  intros [H1 H2 H3 H4] Hn He. split; rewrite ?He; auto; [by trans (nodes q)|]. intros i x Hx. destruct (H4 i x Hx); [by left|]. right. by apply (new_edge_mono q).
Qed.
Lemma inv_add R q q' x : inv R q -> nodes q' = nodes q -> edges q' = edges q ++ [x] -> new_edge q' x -> inv R q'.
Proof.
  intros [H1 H2 H3 H4] Hn He Hx. split; rewrite ?Hn; auto.
  - rewrite He, length_app. cbn. lia.
  - intros i Hi HR. rewrite <-(H3 i Hi HR), He. apply lookup_app_l. lia.
  - intros i y. rewrite He. intros [Hy|[_ Hy]]%lookup_app_Some; [destruct (H4 i y Hy); [by left|right; apply (new_edge_mono q); [by rewrite Hn|done]]|].
    right. apply list_elem_of_lookup_2, list_elem_of_singleton in Hy. by subst.
Qed.
Lemma rerouted_add q q' n b c l : edges q' = edges q ++ l -> rerouted q n b c -> rerouted q' n b c.
Proof. intros He (r & x & H1 & H2 & H3). exists r, x. rewrite He, !elem_of_app. auto. Qed.
Lemma inv_remove R q q' e : inv R q -> M < length (edges q) -> e < M -> e ∉ R -> nodes q' = nodes q -> edges q' = swap_remove e (edges q) -> inv (e :: R) q'.
Proof.
  intros [H1 H2 H3 H4] Hlen He HR Hn Hed. destruct (edges q) as [|y l _] eqn:El using rev_ind; [cbn in *; lia|]. rewrite length_app in Hlen. cbn in Hlen.
  rewrite swap_remove_inner in Hed by lia. split.
  - by rewrite Hn.
  - rewrite Hed, length_insert. lia.
  - intros i Hi [Hie HiR]%not_elem_of_cons. rewrite Hed, list_lookup_insert_ne by done. rewrite <-(H3 i Hi HiR). symmetry. apply lookup_app_l. lia.
  - intros i x Hx. rewrite Hed in Hx. destruct (decide (i = e)) as [-> |Hie].
    + rewrite list_lookup_insert_eq in Hx by lia. injection Hx as <-. destruct (H4 (length l) y) as [[Hl _]|Hy]; [by rewrite lookup_app_r, Nat.sub_diag by lia|lia|].
      right. apply (new_edge_mono q); [by rewrite Hn|done].
    + rewrite list_lookup_insert_ne in Hx by done. destruct (H4 i x) as [[Hi HiR]|Hy]; [by apply lookup_app_l_Some|left|right].
      * split; [done|]. by apply not_elem_of_cons.
      * apply (new_edge_mono q); [by rewrite Hn|done].
Qed.
Lemma rerouted_remove q q' e x0 n b c : edges q0 !! e = Some x0 -> edges q !! e = Some x0 -> edges q' = swap_remove e (edges q) -> rerouted q n b c -> rerouted q' n b c.
Proof.
  intros H0 Hx Hed (r & x & Hr & H2 & H3). assert (Hold : forall y, y ∈ edges q -> y <> x0 -> y ∈ edges q').
  { intros y Hy Hne. rewrite (swap_remove_Permutation _ _ _ Hx) in Hy. apply elem_of_cons in Hy as [?|?]; [done|by rewrite Hed]. }
  assert (Hlt : x0.1.1 < N /\ x0.1.2 < N) by (apply Hrange, edge_rel_lookup; destruct x0 as [[? ?] ?]; cbn; eauto).
  pose proof Hr as (query & m & id & _ & _ & _ & -> & HN). exists r, ((n, r), Some (ParentProjection id reload_filter)). split; [done|].
  split; apply Hold; try done; intros <-; cbn in Hlt; lia.
Qed.

(** ** Moving the edges of one node *)
Record at_reload (n r : nat) (m : QueryModel) (ids : list ModelProjection) (q : QueryGraph) : Prop := {
  ar_new : N <= r;
  ar_node : nodes q !! r = Some (Some (NodeQuery (reload_query m ids)));
  ar_len : M < length (edges q);
  ar_edge : exists x, to_reload n r x /\ x ∈ edges q;
}.
Definition asks (n : nat) (ids : list ModelProjection) (e : nat) : Prop := exists b p f, edges q0 !! e = Some ((n, b), Some (ParentProjection p f)) /\ p ∈ ids.
Lemma reattach_step R q n r e m ids : model_ready idm m -> (forall p, p ∈ ids -> projection_of idm m p) ->
  inv R q -> moved R q -> at_reload n r m ids q -> e ∉ R -> asks n ids e ->
  exists q', reattach debug_names idm r e q = (Ok tt, q') /\ inv (e :: R) q' /\ moved (e :: R) q' /\ at_reload n r m ids q'.
Proof.
  intros Hm Hids Hinv Hmv [HN Hr Hlen (x & Hx & Hxin)] HR (b & p & f & He & Hp).
  assert (HeM : e < M) by (by apply lookup_lt_Some in He). assert (Heq : edges q !! e = Some ((n, b), Some (ParentProjection p f))) by (by rewrite (iv_old R q Hinv)).
  destruct (Hrange n b) as [Hn Hb]; [apply edge_rel_lookup; eauto|].
  assert (HNle : N <= length (nodes q)) by (apply prefix_length, Hinv).
  destruct (remove_edge_succeeds e q _ Heq) as (q1 & Hq1 & Hn1 & He1).
  destruct (create_edge_succeeds r b (ParentProjection p f) q1 (reload_query m ids)) as (e' & q2 & Hq2 & Hn2 & He2).
  { rewrite Hn1. by apply lookup_lt_Some in Hr. }
  { rewrite Hn1. unfold N in *. lia. }
  { unfold N in *. lia. }
  { by rewrite Hn1. }
  exists q2. split.
  { unfold reattach, read_graph. unfold mbind at 1, eff_bind. rewrite (edge_target_ok HPG _ _ _ Heq). cbn [fst snd].
    rewrite (eff_bind_Ok _ _ _ _ _ Hq1). cbn [fst snd]. unfold lift, unwrap. unfold mbind at 1, eff_bind. by rewrite (eff_bind_Ok _ _ _ _ _ Hq2). }
  assert (Hinv1 : inv (e :: R) q1) by (by apply (inv_remove R q)).
  assert (Hmv1 : moved R q1) by (intros e1 n1 b1 c1 H1 H2; eapply rerouted_remove; [exact He|exact Heq|exact He1|by eapply Hmv]).
  assert (Hx1 : x ∈ edges q1).
  { rewrite (swap_remove_Permutation _ _ _ Heq) in Hxin. rewrite He1. apply elem_of_cons in Hxin as [-> |]; [|done].
    destruct Hx as (? & ? & ? & _ & _ & _ & [= Hbr] & _). unfold N in *. lia. }
  split; [|split; [|split]].
  - apply (inv_add _ q1 q2 _ Hinv1 Hn2 He2). right. exists r, b, p, f, m, ids. split; [done|]. split; [done|]. split; [by rewrite Hn2, Hn1|done].
  - intros e1 n1 b1 c1 [-> |H1]%elem_of_cons H2; [|by eapply rerouted_add, Hmv1].
    rewrite He in H2. injection H2 as <- <- <-. exists r, x. rewrite He2, !elem_of_app. split; [done|]. split; [by left|]. right. by apply list_elem_of_singleton.
  - done.
  - by rewrite Hn2, Hn1.
  - rewrite He2, length_app. cbn. pose proof (iv_len _ _ Hinv1). lia.
  - exists x. rewrite He2, elem_of_app. auto.
Qed.
Lemma reattach_all R q n r m ids es : model_ready idm m -> (forall p, p ∈ ids -> projection_of idm m p) ->
  inv R q -> moved R q -> at_reload n r m ids q -> NoDup es -> (forall e, e ∈ es -> (e ∉ R) /\ asks n ids e) ->
  exists R' q', eff_for (reattach debug_names idm r) es q = (Ok tt, q') /\ inv R' q' /\ moved R' q' /\ R' ≡ₚ es ++ R.
Proof.
  intros Hm Hids. revert R q. induction es as [|e es IH]; intros R q Hinv Hmv Hat Hnd Hes; [by exists R, q|].
  apply NoDup_cons in Hnd as [He Hnd]. destruct (Hes e) as [HR Ha]; [constructor|].
  destruct (reattach_step R q n r e m ids) as (q1 & Hq1 & Hinv1 & Hmv1 & Hat1); [done..|].
  destruct (IH (e :: R) q1) as (R' & q' & Hq' & Hinv' & Hmv' & Hp); [done..| |].
  { intros e' He'. destruct (Hes e') as [HR' Ha']; [by constructor|]. split; [|done]. apply not_elem_of_cons. split; [congruence|done]. }
  exists R', q'. cbn [eff_for]. rewrite (eff_bind_Ok _ _ _ _ _ Hq1). split; [done|]. split; [done|]. split; [done|]. rewrite Hp. symmetry. apply Permutation_middle.
Qed.

(** ** One reload *)
Record reload_ok (r : Reload) : Prop := {
  rl_query : exists query, nodes q0 !! r.1.1 = Some (Some (NodeQuery query)) /\ query_model (E := QueryGraphError) idm query = Ok r.1.2;
  rl_id : exists id, primary_identifier (E := QueryGraphError) idm r.1.2 = Ok id;
  rl_model : model_ready idm r.1.2;
  rl_nodup : NoDup (r.2).*1;
  rl_edges : forall e p, (e, p) ∈ r.2 -> projection_of idm r.1.2 p /\ exists b f, edges q0 !! e = Some ((r.1.1, b), Some (ParentProjection p f));
}.
Lemma insert_reload_step R q rl : reload_ok rl -> inv R q -> moved R q -> (forall e, e ∈ (rl.2).*1 -> e ∉ R) ->
  exists R' q', insert_reload debug_names idm rl q = (Ok tt, q') /\ inv R' q' /\ moved R' q' /\ R' ≡ₚ (rl.2).*1 ++ R.
Proof.
  intros [(query & Hnode & Hmodel) [id Hid] Hm Hnd Hes] Hinv Hmv HR. destruct rl as [[n m] es]. cbn [fst snd] in *.
  set (ids := es.*2 ++ [id]).
  destruct (create_node_succeeds (NodeQuery (reload_query m ids)) q) as (q1 & Hq1 & Hn1 & He1).
  assert (Hpre : nodes q0 `prefix_of` nodes q) by apply Hinv. assert (HNle : N <= length (nodes q)) by (by apply prefix_length).
  assert (HnN : n < N) by (by apply lookup_lt_Some in Hnode).
  assert (Hnode1 : nodes q1 !! n = Some (Some (NodeQuery query))) by (rewrite Hn1; apply lookup_app_l_Some; by eapply prefix_lookup).
  destruct (create_edge_succeeds n (length (nodes q)) (ParentProjection id reload_filter) q1 query) as (e' & q2 & Hq2 & Hn2 & He2).
  { rewrite Hn1, length_app. unfold N in *. cbn. lia. }
  { rewrite Hn1, length_app. cbn. lia. }
  { unfold N in *. lia. }
  { done. }
  assert (Hto : to_reload n (length (nodes q)) ((n, length (nodes q)), Some (ParentProjection id reload_filter))) by (exists query, m, id; done).
  assert (Hinv1 : inv R q1) by (apply (inv_nodes R q q1 Hinv); [rewrite Hn1; by eexists|done]).
  assert (Hinv2 : inv R q2) by (apply (inv_add R q1 q2 _ Hinv1 Hn2 He2); left; eauto).
  assert (Hids : forall p, p ∈ ids -> projection_of idm m p).
  { unfold ids. intros p [((e & p') & -> & Hp)%list_elem_of_fmap| ->%list_elem_of_singleton]%elem_of_app; [by apply (Hes e)|]. by eapply primary_identifier_projection. }
  destruct (reattach_all R q2 n (length (nodes q)) m ids es.*1) as (R' & q' & Hq' & H); try done.
  - intros e1 n1 b1 c1 H1 H2. eapply rerouted_add; [exact He2|]. destruct (Hmv _ _ _ _ H1 H2) as (r & x & Hx). exists r, x. by rewrite He1.
  - split; [done| | |].
    + rewrite Hn2, Hn1, lookup_app_r, Nat.sub_diag by lia. done.
    + rewrite He2, length_app. cbn. pose proof (iv_len _ _ Hinv1). lia.
    + eexists. split; [exact Hto|]. rewrite He2, elem_of_app. right. by apply list_elem_of_singleton.
  - intros e He. split; [by apply HR|]. apply list_elem_of_fmap in He as ((e1 & p) & -> & Hp). destruct (Hes e1 p Hp) as (_ & b & f & Hb). exists b, p, f. split; [done|].
    unfold ids. apply elem_of_app. left. apply list_elem_of_fmap. by exists (e1, p).
  - exists R', q'. split; [|done]. unfold insert_reload. unfold lift at 1. unfold mbind at 1, eff_bind. rewrite Hid.
    rewrite (eff_bind_Ok _ _ _ _ _ Hq1), (eff_bind_Ok _ _ _ _ _ Hq2). done.
Qed.
Lemma insert_all rls R q : Forall reload_ok rls -> NoDup ((fun rl : Reload => rl.1.1) <$> rls) -> inv R q -> moved R q ->
  (forall e rl, e ∈ R -> rl ∈ rls -> source_of q0 e <> rl.1.1) ->
  exists R' q', eff_for (insert_reload debug_names idm) rls q = (Ok tt, q') /\ inv R' q' /\ moved R' q' /\
    forall e, e ∈ R' <-> e ∈ R \/ exists rl, rl ∈ rls /\ e ∈ (rl.2).*1.
Proof.
  intros HF. revert R q. induction HF as [|rl rls Hrl HF IH]; intros R q Hnd Hinv Hmv Hd.
  { exists R, q. split; [done|]. split; [done|]. split; [done|]. intros e. split; [by left|]. intros [|(rl & Hrl & _)]; [done|inversion Hrl]. }
  rewrite fmap_cons in Hnd. apply NoDup_cons in Hnd as [Hn Hnd].
  assert (Hsrc : forall e, e ∈ (rl.2).*1 -> source_of q0 e = rl.1.1).
  { intros e ((e' & p) & -> & Hp)%list_elem_of_fmap. destruct (rl_edges _ Hrl e' p Hp) as (_ & b & f & He). unfold source_of. cbn. by rewrite He. }
  destruct (insert_reload_step R q rl) as (R1 & q1 & Hq1 & Hinv1 & Hmv1 & Hp); [done..| |].
  { intros e He HeR. apply (Hd e rl HeR); [constructor|by apply Hsrc]. }
  destruct (IH R1 q1) as (R' & q' & Hq' & Hinv' & Hmv' & HR'); [done..| |].
  { intros e rl' He Hrl'. rewrite Hp in He. apply elem_of_app in He as [He|He]; [|apply Hd; [done|by constructor]].
    rewrite Hsrc by done. intros Heq. apply Hn. rewrite Heq. by apply (list_elem_of_fmap_2 (fun rl : Reload => rl.1.1)). }
  exists R', q'. cbn [eff_for]. rewrite (eff_bind_Ok _ _ _ _ _ Hq1). split; [done|]. split; [done|]. split; [done|].
  intros e. rewrite HR', Hp, elem_of_app. split.
  - intros [[H|H]|(rl' & H1 & H2)]; [right; exists rl; split; [constructor|done]|by left|right; exists rl'; split; [by constructor|done]].
  - intros [H|(rl' & [-> |H1]%elem_of_cons & H2)]; [by left; right|by left; left|right; by exists rl'].
Qed.
End reloads.

Section satisfied.
Context `{VT : ValueTypes} {VO : ValueOrd VT} `{IT : Itertools} (HIT : ItertoolsOk IT) {GT : GraphTypes} {PG : Petgraph} (HPG : PetgraphOk PG).
Context (debug_names : list string -> string) (idm : InternalDataModel).

(** A graph as the builder leaves it: nothing taken out yet, and the queries and projections are those of models of the data model. *)
Record graph_ready (q : QueryGraph) : Prop := {
  gr_range : in_range q;
  gr_nodes : forall n c, nodes q !! n = Some c -> is_Some c;
  gr_edges : forall x, x ∈ edges q -> is_Some x.2;
  gr_queries : forall n query b p f, nodes q !! n = Some (Some (NodeQuery query)) -> ((n, b), Some (ParentProjection p f)) ∈ edges q ->
    exists m id v, query_model (E := QueryGraphError) idm query = Ok m /\ primary_identifier (E := QueryGraphError) idm m = Ok id /\
      returns (E := QueryGraphError) idm query p = Ok v /\ model_ready idm m /\ projection_of idm m p;
}.
Lemma unsatisfied_edge_ok q query n e : graph_ready q -> nodes q !! n = Some (Some (NodeQuery query)) -> e ∈ outgoing_edges q n ->
  unsatisfied_edge idm q query e = Ok None /\ (forall b p f, edges q !! e = Some ((n, b), Some (ParentProjection p f)) -> returns (E := QueryGraphError) idm query p = Ok true) \/
  exists b p f, edges q !! e = Some ((n, b), Some (ParentProjection p f)) /\ unsatisfied_edge idm q query e = Ok (Some (e, p)).
Proof.
  intros Hq Hn ([[n' b] w] & He & Hn')%(collect_edges_elem HPG). cbn in Hn'. subst n'. unfold unsatisfied_edge. rewrite (edge_content_ok HPG _ _ _ He). cbn [mbind outcome_bind snd].
  assert (Hin : ((n, b), w) ∈ edges q) by (by apply list_elem_of_lookup_2 in He). destruct (gr_edges q Hq _ Hin) as [d Hd]. cbn in Hd. subst w. cbn [unwrap mbind outcome_bind].
  destruct d as [|g|p g| |]; try (left; split; [done|]; intros b' p' f' He'; by rewrite He in He').
  destruct (gr_queries q Hq _ _ _ _ _ Hn Hin) as (m & id & v & _ & _ & Hv & _). rewrite Hv. cbn [mbind outcome_bind]. destruct v; [left|right].
  - split; [done|]. intros b' p' f' He'. rewrite He in He'. by injection He' as <- <- <-.
  - by exists b, p, g.
Qed.
Lemma reload_of_ok q n : graph_ready q -> n < length (nodes q) ->
  (reload_of idm q n = Ok None /\ forall query b p f e, nodes q !! n = Some (Some (NodeQuery query)) ->
     edges q !! e = Some ((n, b), Some (ParentProjection p f)) -> returns (E := QueryGraphError) idm query p = Ok true) \/
  exists m es, reload_of idm q n = Ok (Some ((n, m), es)) /\ reload_ok idm q ((n, m), es) /\
    forall query b p f e, nodes q !! n = Some (Some (NodeQuery query)) ->
     edges q !! e = Some ((n, b), Some (ParentProjection p f)) -> returns (E := QueryGraphError) idm query p = Ok true \/ e ∈ es.*1.
Proof.
  intros Hq [c Hn]%lookup_lt_is_Some_2. destruct (gr_nodes q Hq _ _ Hn) as [d ->]. unfold reload_of. rewrite (node_content_ok HPG _ _ _ Hn). cbn [mbind outcome_bind unwrap].
  destruct d as [query|fl|d|]; try (left; split; [done|]; intros query b p f e Hn'; by rewrite Hn in Hn').
  destruct (filter_map_m_total (unsatisfied_edge idm q query) (outgoing_edges q n)) as [es Hes].
  { intros e He. destruct (unsatisfied_edge_ok q query n e Hq Hn He) as [[-> _]|(b & p & f & _ & ->)]; by eexists. }
  rewrite Hes. cbn [mbind outcome_bind]. destruct (filter_map_m_Ok _ _ _ Hes) as [Hin Hall].
  assert (Hsat : forall query' b p f e, nodes q !! n = Some (Some (NodeQuery query')) -> edges q !! e = Some ((n, b), Some (ParentProjection p f)) ->
    returns (E := QueryGraphError) idm query' p = Ok true \/ e ∈ es.*1).
  { intros query' b p f e Hn' He. rewrite Hn in Hn'. injection Hn' as <-.
    assert (Hout : e ∈ outgoing_edges q n) by (apply (collect_edges_elem HPG); by eexists).
    destruct (unsatisfied_edge_ok q query n e Hq Hn Hout) as [[_ H]|(b' & p' & f' & He' & Hu)]; [left; by eapply H|right].
    destruct (Hall e Hout) as [Hno|(x & Hx & Hxin)]; rewrite Hu in *; [done|]. injection Hx as <-. apply list_elem_of_fmap. by exists (e, p'). }
  assert (Hof : forall e p, (e, p) ∈ es -> exists b f, edges q !! e = Some ((n, b), Some (ParentProjection p f))).
  { intros e p Hep. destruct (Hin _ Hep) as (e' & He' & Hu). destruct (unsatisfied_edge_ok q query n e' Hq Hn He') as [[H _]|(b' & p' & f' & He1 & Hu')]; rewrite Hu in *; [done|].
    injection Hu' as -> ->. by exists b', f'. }
  destruct es as [|[e0 p0] es]; [left|right].
  { split; [done|]. intros query' b p f e Hn' He. destruct (Hsat _ _ _ _ _ Hn' He) as [|H]; [done|inversion H]. }
  destruct (Hof e0 p0) as (b0 & f0 & He0); [constructor|].
  destruct (gr_queries q Hq n query b0 p0 f0 Hn) as (m & id & v & Hm & Hid & _ & Hready & _); [by apply list_elem_of_lookup_2 in He0|].
  exists m, ((e0, p0) :: es). rewrite Hm. split; [done|]. split; [|done]. split; cbn [fst snd]; try (by eauto).
  - apply (filter_map_m_NoDup (unsatisfied_edge idm q query) fst (outgoing_edges q n)); [|done|].
    + intros e [e' p']. unfold unsatisfied_edge. destruct (edge_content q e) as [w| |]; try done. cbn [mbind outcome_bind].
      destruct w as [d|]; [|done]. cbn [mbind outcome_bind unwrap]. destruct d; try done. destruct (returns idm query p) as [[]| |]; try done. by intros [= -> ->].
    + unfold outgoing_edges, collect_edges. rewrite (sort_by_perm Nat.leb). apply (edges_directed_nodup (PetgraphOk := HPG)).
  - intros e p Hep. destruct (Hof e p Hep) as (b & f & He). split; [|eauto].
    destruct (gr_queries q Hq n query b p f Hn) as (m' & id' & v' & Hm' & _ & _ & _ & Hp); [by apply list_elem_of_lookup_2 in He|]. rewrite Hm in Hm'. by injection Hm' as <-.
Qed.

(** C22: Inserting reloads always succeeds and leaves every dependency on fields of the parent satisfied: a query node returns the projection that each of its edges asks for, or the edge leads to a reload and asks for the primary identifier. No dependency is lost: an edge is still there, or it starts at a reload node, to which an edge leads from its former parent. *)
Theorem reloads_satisfy_projections q : graph_ready q -> exists q', insert_reloads debug_names idm q = (Ok tt, q') /\
  nodes q `prefix_of` nodes q' /\
  (forall n query b p f, nodes q' !! n = Some (Some (NodeQuery query)) -> ((n, b), Some (ParentProjection p f)) ∈ edges q' ->
     returns (E := QueryGraphError) idm query p = Ok true \/
     length (nodes q) <= b /\ exists m, query_model (E := QueryGraphError) idm query = Ok m /\ primary_identifier (E := QueryGraphError) idm m = Ok p) /\
  (forall n b c, ((n, b), c) ∈ edges q -> ((n, b), c) ∈ edges q' \/
     exists r id, length (nodes q) <= r /\ ((n, r), Some (ParentProjection id reload_filter)) ∈ edges q' /\ ((r, b), c) ∈ edges q').
Proof.
  intros Hq. unfold insert_reloads, read_graph. unfold mbind at 1, eff_bind. rewrite (node_indices_ok (PetgraphOk := HPG)). fold (nodes q).
  assert (Hlt : forall n, n ∈ seq 0 (length (nodes q)) -> n < length (nodes q)) by (intros n; rewrite elem_of_seq; lia).
  destruct (filter_map_m_total (reload_of idm q) (seq 0 (length (nodes q)))) as [rls Hrls].
  { intros n Hn%Hlt. destruct (reload_of_ok q n Hq Hn) as [[-> _]|(m & es & -> & _)]; by eexists. }
  destruct (filter_map_m_Ok _ _ _ Hrls) as [Hin Hall].
  assert (Hok : forall rl, rl ∈ rls -> reload_ok idm q rl).
  { intros rl Hrl. destruct (Hin rl Hrl) as (n & Hn%Hlt & Hr). destruct (reload_of_ok q n Hq Hn) as [[H _]|(m & es & H & Hok & _)]; rewrite Hr in H; [done|]. by injection H as ->. }
  destruct (insert_all HPG debug_names idm q (gr_range q Hq) rls [] q) as (R & q' & Hq' & Hinv & Hmv & HR).
  - by apply Forall_forall.
  - apply (filter_map_m_NoDup (reload_of idm q) (fun rl : Reload => rl.1.1) (seq 0 (length (nodes q)))); [|done|apply NoDup_seq].
    intros n [[n' m'] es']. unfold reload_of. destruct (node_content q n) as [[c|]| |]; try done. cbn [mbind outcome_bind unwrap]. destruct c as [query| | |]; try done.
    destruct (filter_map_m (unsatisfied_edge idm q query) (outgoing_edges q n)) as [[|e l]| |]; try done. cbn [mbind outcome_bind]. destruct (query_model idm query); try done. cbn; congruence.
  - apply inv_start.
  - intros e n b c He. inversion He.
  - intros e rl He. inversion He.
  - exists q'. rewrite Hrls. split; [done|]. split; [apply Hinv|]. split.
    + intros n query b p f Hn [i Hi]%list_elem_of_lookup. destruct (iv_new _ _ _ _ Hinv i _ Hi) as [[HiM HiR]|Hnew].
      * left. rewrite (iv_old _ _ _ _ Hinv) in Hi by done. destruct (gr_range q Hq n b) as [HnN _]; [apply edge_rel_lookup; eauto|].
        destruct (nodes q !! n) as [c|] eqn:En; [|apply lookup_ge_None in En; lia]. rewrite (prefix_lookup _ _ _ _ (iv_nodes _ _ _ _ Hinv) En) in Hn. injection Hn as ->.
        destruct (reload_of_ok q n Hq HnN) as [[_ H]|(m & es & Hr & _ & H)]; [by eapply H|]. destruct (H _ _ _ _ _ En Hi) as [|He]; [done|]. destruct HiR. apply HR. right.
        destruct (Hall n) as [Hno|(rl & Hrl & Hrlin)]; [apply elem_of_seq; lia|by rewrite Hr in Hno|]. rewrite Hr in Hrl. injection Hrl as <-. by eexists.
      * destruct Hnew as [(n' & r & query' & m & id & Hn' & Hm & Hid & [= <- <- <- _] & Hr)|(r & b' & p' & f' & m & ids & [= <- <- <- <-] & Hr & Hnode & Hp & Hmr & Hids)].
        -- right. split; [done|]. pose proof (prefix_lookup _ _ _ _ (iv_nodes _ _ _ _ Hinv) Hn') as H. rewrite Hn in H. injection H as ->. eauto.
        -- left. rewrite Hn in Hnode. injection Hnode as ->. by apply (reload_returns HIT).
    + intros n b c [e He]%list_elem_of_lookup. destruct (decide (e ∈ R)) as [HeR|HeR].
      * right. destruct (Hmv e n b c HeR He) as (r & x & (query & m & id & _ & _ & _ & -> & Hr) & H1 & H2). by exists r, id.
      * left. apply (list_elem_of_lookup_2 _ e). rewrite (iv_old _ _ _ _ Hinv); [done| |done]. by apply lookup_lt_Some in He.
Qed.
End satisfied.
