(* ===== verification/GraphSamples.v ===== *)
(** * The query graph: examples

    A graph that creates a user and then reads by the user's name, one with an
    [If] node, and what swapping marked nodes does to the edges of a flow node. *)
From stdpp Require Import sorting pretty.
From S2P Require Import Prelude Effects SqlSchema Dml Converter Models Convert Projections Filters SqlRead ReadFacts ReadSamples QueryAst QueryGraph GraphFacts GraphRules Reloads.

#[local] Existing Instance sample_values.
#[local] Existing Instance sample_itertools.
#[export] Instance sample_graph_types : GraphTypes := {| QueryGraphBuilderError := string; JsonValue := string |}.
Definition show_names : list string -> string := fun _ => EmptyString.
Definition names_projection : ModelProjection := [FieldScalar user_name].
Definition read_by_name : Query := QRead (RQManyRecords (mkManyRecordsQuery "users" None user_qm QueryArguments_default names_projection [] [])).
Definition create_user : Query := QWrite (WQCreateRecord user_qm ∅).
Definition keep_node (n : Node) (ps : list RecordProjection) : outcome QueryGraphBuilderError Node := Ok n.
(** The nodes and the edges built by a computation on an empty graph. *)
Definition built {A} (m : GraphM A) : QueryGraph := (m QueryGraph_new).2.
Definition edge := create_edge show_names user_idm.

(** ** Reloading *)
Definition create_then_read : GraphM unit :=
  parent ← create_node (NodeQuery create_user);
  child ← create_node (NodeQuery read_by_name);
  _ ← edge parent child (ParentProjection names_projection keep_node);
  mret tt.
Definition create_graph : QueryGraph := Eval vm_compute in built create_then_read.
Lemma create_graph_ready : graph_ready user_idm create_graph.
Proof.
  assert (Hm : model_ready user_idm user_qm).
  { split; [apply (bool_decide_unpack _); vm_compute; exact I|]. intros E rf Hrf. exfalso. change (all (qm_fields user_qm)) with [FieldScalar user_id; FieldScalar user_name] in Hrf.
    apply elem_of_cons in Hrf as [?|[?|?%elem_of_nil]%elem_of_cons]; done. }
  split.
  - intros a b (w & Hw). change (edges create_graph) with [((0, 1), Some (ParentProjection names_projection keep_node))] in Hw. apply list_elem_of_singleton in Hw.
    injection Hw as -> -> ->. cbn. lia.
  - intros [|[|n]] c Hc; [| |done]; injection Hc as <-; by eexists.
  - intros x Hx. change (edges create_graph) with [((0, 1), Some (ParentProjection names_projection keep_node))] in Hx. apply list_elem_of_singleton in Hx as ->. by eexists.
  - intros n query b p f Hn Hx. change (edges create_graph) with [((0, 1), Some (ParentProjection names_projection keep_node))] in Hx. apply list_elem_of_singleton in Hx.
    injection Hx as -> -> -> ->. injection Hn as <-. exists user_qm, [FieldScalar user_id], false. split; [done|]. split; [vm_compute; reflexivity|].
    split; [vm_compute; reflexivity|]. split; [exact Hm|]. split; intros g ->%list_elem_of_singleton; [|by eexists]. right. left.
Qed.
Lemma reloads_satisfy_projections_witness : exists q', insert_reloads show_names user_idm create_graph = (Ok tt, q') /\
  exists r id, 2 <= r /\ ((0, r), Some (ParentProjection id reload_filter)) ∈ edges q' /\ ((r, 1), Some (ParentProjection names_projection keep_node)) ∈ edges q'.
Proof.
  destruct (reloads_satisfy_projections sample_itertools_ok sample_petgraph_ok show_names user_idm create_graph create_graph_ready) as (q' & Hq' & Hpre & Hsat & Hkept).
  exists q'. split; [exact Hq'|]. destruct (Hkept 0 1 (Some (ParentProjection names_projection keep_node))) as [Hold|(r & id & Hr & H1 & H2)].
  - left.
  - exfalso. assert (Hn : nodes q' !! 0 = Some (Some (NodeQuery create_user))) by (apply (prefix_lookup (nodes create_graph)); [exact Hpre|reflexivity]).
    destruct (Hsat 0 create_user 1 names_projection keep_node Hn Hold) as [H|[H _]]; [vm_compute in H; discriminate H|cbn in H; lia].
  - exists r, id. split; [exact Hr|]. split; [exact H1|exact H2].
Defined.

(** ** Rules and reachability *)
Definition upsert : GraphM unit :=
  read ← create_node (NodeQuery read_by_name);
  if_node ← create_node (NodeFlow default_if);
  create ← create_node (NodeQuery create_user);
  result ← create_node (NodeQuery read_by_name);
  _ ← edge read if_node ExecutionOrder;
  _ ← edge if_node create Else;
  _ ← edge create result ExecutionOrder;
  update (add_result_node result).
Definition upsert_graph : QueryGraph := Eval vm_compute in built upsert.
Definition upsert_edges : list ((nat * nat) * Guard QueryGraphDependency) := [((0, 1), Some ExecutionOrder); ((1, 2), Some Else); ((2, 3), Some ExecutionOrder)].
Lemma upsert_edge a b : edge_rel upsert_graph a b -> b = Datatypes.S a /\ b < 4.
Proof.
  intros (w & Hw). change (edges upsert_graph) with upsert_edges in Hw. unfold upsert_edges in Hw.
  apply elem_of_cons in Hw as [[= -> -> _]|[[= -> -> _]|[[= -> -> _]|?%elem_of_nil]%elem_of_cons]%elem_of_cons]; try done; lia.
Qed.
Lemma searches_decide_reachability_witness : exists r, is_ancestor (E := string) 5 upsert_graph 0 3 = Ok r /\ (r = true <-> tc (edge_rel upsert_graph) 0 3).
Proof.
  apply (searches_decide_reachability (E := string) sample_petgraph_ok 5 upsert_graph 0 3).
  - intros a b [-> Hb]%upsert_edge. cbn. lia.
  - assert (Hup : forall a b, tc (edge_rel upsert_graph) a b -> a < b) by (induction 1 as [a b [-> _]%upsert_edge|a b c [-> _]%upsert_edge _ IH]; lia).
    intros n Hn%Hup. lia.
  - cbn. lia.
Defined.
Definition one_edge : QueryGraph := Eval vm_compute in built (n ← create_node (NodeFlow default_if); m ← create_node (NodeQuery create_user); edge n m Then).
Definition two_nodes : QueryGraph := Eval vm_compute in built (n ← create_node (NodeFlow default_if); create_node (NodeQuery create_user)).
Definition one_node : QueryGraph := Eval vm_compute in built (create_node (NodeFlow default_if)).
Lemma graph_rules_hold_witness : rules_ok one_edge.
Proof.
  apply (graph_rules_hold sample_petgraph_ok show_names user_idm).
  apply (rtc_l _ _ one_node). { apply (step_create_node _ _ _ (NodeFlow default_if) 0). reflexivity. }
  apply (rtc_l _ _ two_nodes). { apply (step_create_node _ _ _ (NodeQuery create_user) 1). reflexivity. }
  apply rtc_once. apply (step_create_edge _ _ _ 0 1 Then 0). vm_compute. reflexivity.
Defined.

(** ** Swapping

    Node 1 is marked to be swapped with its child 3; its parents are the flow
    node 0 and the query node 2, whose edges were created in this order. *)
Definition marked_graph (flow_first : bool) : GraphM unit :=
  flow ← create_node (NodeFlow default_if);
  parent ← create_node (NodeQuery create_user);
  other ← create_node (NodeQuery create_user);
  child ← create_node (NodeQuery read_by_name);
  _ ← edge parent child ExecutionOrder;
  _ ← (if flow_first : bool then _ ← edge flow parent Then; edge other parent ExecutionOrder
       else _ ← edge other parent ExecutionOrder; edge flow parent Then);
  update (mark_nodes parent child).
Definition swapped (flow_first : bool) : QueryGraph := built (_ ← marked_graph flow_first; swap_marked show_names user_idm).

(** Swapping marked nodes should give the child an edge from every parent of its former parent. Whether it does depends on the order in which the edges were created: the edges of the parents are looked up before the loop that removes the edge of a flow node, and a removal gives the index of the removed edge to the last edge. When the edge of the flow node is followed by that of another parent, the last one, the other parent gets no edge to the child. *)
Theorem swap_misses_parent :
  fst <$> edges (swapped true) = [(0, 3); (2, 1); (3, 1)] /\ fst <$> edges (swapped false) = [(0, 3); (2, 1); (2, 3); (3, 1)].
Proof. split; vm_compute; reflexivity. Qed.
