(* ===== verification/DmValues.v ===== *)
(** * Errors of the datamodel library (libs/datamodel/core/src/error)

    The error type with the text of its [Display], the span of an error, and
    collections of errors, which most validations accumulate. *)
From Stdlib Require Import Ascii.
From stdpp Require Import pretty.
From S2P Require Import Prelude Ast ExprText SqlSchema Dml Projections.

Inductive DatamodelError : Type :=
| ArgumentNotFound (argument_name : string) (span : Span)
| ArgumentCountMissmatch (function_name : string) (required_count given_count : N) (span : Span)
| DirectiveArgumentNotFound (argument_name directive_name : string) (span : Span)
| SourceArgumentNotFound (argument_name source_name : string) (span : Span)
| GeneratorArgumentNotFound (argument_name generator_name : string) (span : Span)
| DirectiveValidationError (message directive_name : string) (span : Span)
| DuplicateDirectiveError (directive_name : string) (span : Span)
| ReservedScalarTypeError (type_name : string) (span : Span)
| DuplicateTopError (name top_type existing_top_type : string) (span : Span)
| DuplicateConfigKeyError (conf_block_name key_name : string) (span : Span)
| DuplicateDefaultArgumentError (arg_name : string) (span : Span)
| DuplicateArgumentError (arg_name : string) (span : Span)
| UnusedArgumentError (arg_name : string) (span : Span)
| DuplicateFieldError (model_name field_name : string) (span : Span)
| ScalarListFieldsAreNotSupported (model_name field_name : string) (span : Span)
| DuplicateEnumValueError (enum_name value_name : string) (span : Span)
| DirectiveNotKnownError (directive_name : string) (span : Span)
| FunctionNotKnownError (function_name : string) (span : Span)
| SourceNotKnownError (source_name : string) (span : Span)
| LiteralParseError (literal_type raw_value : string) (span : Span)
| TypeNotFoundError (type_name : string) (span : Span)
| ScalarTypeNotFoundError (type_name : string) (span : Span)
| ParserError (expected : list string) (expected_str : string) (span : Span)
| LegacyParserError (message : string) (span : Span)
| FunctionalEvaluationError (message : string) (span : Span)
| EnvironmentFunctionalEvaluationError (var_name : string) (span : Span)
| TypeMismatchError (expected_type received_type raw : string) (span : Span)
| ValueParserError (expected_type parser_error raw : string) (span : Span)
| ModelValidationError (message model_name : string) (span : Span)
| FieldValidationError (message model field : string) (span : Span)
| SourceValidationError (message source : string) (span : Span)
| EnumValidationError (message enum_name : string) (span : Span)
| ValidationError (message : string) (span : Span).

Definition error_span (e : DatamodelError) : Span :=
  match e with
  | ArgumentNotFound _ s | ArgumentCountMissmatch _ _ _ s | DirectiveArgumentNotFound _ _ s
  | SourceArgumentNotFound _ _ s | GeneratorArgumentNotFound _ _ s | DirectiveValidationError _ _ s
  | DuplicateDirectiveError _ s | ReservedScalarTypeError _ s | DuplicateTopError _ _ _ s
  | DuplicateConfigKeyError _ _ s | DuplicateDefaultArgumentError _ s | DuplicateArgumentError _ s
  | UnusedArgumentError _ s | DuplicateFieldError _ _ s | ScalarListFieldsAreNotSupported _ _ s
  | DuplicateEnumValueError _ _ s | DirectiveNotKnownError _ s | FunctionNotKnownError _ s
  | SourceNotKnownError _ s | LiteralParseError _ _ s | TypeNotFoundError _ s | ScalarTypeNotFoundError _ s
  | ParserError _ _ s | LegacyParserError _ s | FunctionalEvaluationError _ s
  | EnvironmentFunctionalEvaluationError _ s | TypeMismatchError _ _ _ s | ValueParserError _ _ _ s
  | ModelValidationError _ _ s | FieldValidationError _ _ _ s | SourceValidationError _ _ s
  | EnumValidationError _ _ s | ValidationError _ s => s
  end.

(** A text between double quotes or backticks. *)
Definition quoted (s : string) : string := String "034"%char s +:+ String "034"%char EmptyString.
Definition ticked (s : string) : string := "`" +:+ s +:+ "`".

(** [Display] and [description]. *)
Definition description (e : DatamodelError) : string :=
  match e with
  | ArgumentNotFound a _ => "Argument " +:+ quoted a +:+ " is missing."
  | ArgumentCountMissmatch f r g _ =>
      "Function " +:+ quoted f +:+ " takes " +:+ pretty r +:+ " arguments, but received " +:+ pretty g +:+ "."
  | DirectiveArgumentNotFound a d _ => "Argument " +:+ quoted a +:+ " is missing in attribute " +:+ quoted ("@" +:+ d) +:+ "."
  | SourceArgumentNotFound a s _ => "Argument " +:+ quoted a +:+ " is missing in data source block " +:+ quoted s +:+ "."
  | GeneratorArgumentNotFound a g _ => "Argument " +:+ quoted a +:+ " is missing in generator block " +:+ quoted g +:+ "."
  | DirectiveValidationError m d _ => "Error parsing attribute " +:+ quoted ("@" +:+ d) +:+ ": " +:+ m
  | DuplicateDirectiveError d _ => "Attribute " +:+ quoted ("@" +:+ d) +:+ " is defined twice."
  | ReservedScalarTypeError t _ => quoted t +:+ " is a reserved scalar type name and can not be used."
  | DuplicateTopError n t ex _ =>
      "The " +:+ t +:+ " " +:+ quoted n +:+ " cannot be defined because a " +:+ ex +:+ " with that name already exists."
  | DuplicateConfigKeyError c k _ => "Key " +:+ quoted k +:+ " is already defined in " +:+ c +:+ "."
  | DuplicateDefaultArgumentError a _ => "Argument " +:+ quoted a +:+ " is already specified as unnamed argument."
  | DuplicateArgumentError a _ => "Argument " +:+ quoted a +:+ " is already specified."
  | UnusedArgumentError _ _ => "No such argument."
  | DuplicateFieldError m f _ => "Field " +:+ quoted f +:+ " is already defined on model " +:+ quoted m +:+ "."
  | ScalarListFieldsAreNotSupported m f _ =>
      "Field " +:+ quoted f +:+ " in model " +:+ quoted m
      +:+ " can't be a list. The current connector does not support lists of primitive types."
  | DuplicateEnumValueError e v _ => "Value " +:+ quoted v +:+ " is already defined on enum " +:+ quoted e +:+ "."
  | DirectiveNotKnownError d _ => "Attribute not known: " +:+ quoted ("@" +:+ d) +:+ "."
  | FunctionNotKnownError f _ => "Function not known: " +:+ quoted f +:+ "."
  | SourceNotKnownError s _ => "Datasource provider not known: " +:+ quoted s +:+ "."
  | LiteralParseError t r _ => quoted r +:+ " is not a valid value for " +:+ t +:+ "."
  | TypeNotFoundError t _ =>
      "Type " +:+ quoted t +:+ " is neither a built-in type, nor refers to another model, custom type, or enum."
  | ScalarTypeNotFoundError t _ => "Type " +:+ quoted t +:+ " is not a built-in type."
  | ParserError _ ex _ => "Unexpected token. Expected one of: " +:+ ex
  | LegacyParserError m _ => m
  | FunctionalEvaluationError m _ => m
  | EnvironmentFunctionalEvaluationError v _ => "Environment variable not found: " +:+ v +:+ "."
  | TypeMismatchError ex r raw _ => "Expected a " +:+ ex +:+ " value, but received " +:+ r +:+ " value " +:+ quoted raw +:+ "."
  | ValueParserError ex p raw _ =>
      "Expected a " +:+ ex +:+ " value, but failed while parsing " +:+ quoted raw +:+ ": " +:+ p +:+ "."
  | ModelValidationError m n _ => "Error validating model " +:+ quoted n +:+ ": " +:+ m
  | FieldValidationError m n f _ => "Error validating field " +:+ ticked f +:+ " in model " +:+ ticked n +:+ ": " +:+ m
  | SourceValidationError m s _ => "Error validating datasource " +:+ ticked s +:+ ": " +:+ m
  | EnumValidationError m e _ => "Error validating enum " +:+ ticked e +:+ ": " +:+ m
  | ValidationError m _ => "Error validating: " +:+ m
  end.

(** ** [ErrorCollection] (collection.rs) *)
Abbreviation ErrorCollection := (list DatamodelError).
Definition has_errors (errors : ErrorCollection) : bool := Nat.ltb 0 (length errors).
(** [push_opt(r.err())] and [if let Err(err) = r { errors.push(err) }]. *)
Definition push_err {F} (errors : ErrorCollection) (r : outcome DatamodelError unit) : outcome F ErrorCollection :=
  match r with
  | Ok _ => Ok errors
  | Err e => Ok (errors ++ [e])
  | Panic p => Panic p
  end.
(** [if let Err(mut err) = r { errors.append(&mut err) }]. *)
Definition append_err {F} (errors : ErrorCollection) (r : outcome ErrorCollection unit) : outcome F ErrorCollection :=
  match r with
  | Ok _ => Ok errors
  | Err es => Ok (errors ++ es)
  | Panic p => Panic p
  end.
(** [ErrorCollection::ok]. *)
Definition errors_ok (errors : ErrorCollection) : outcome ErrorCollection unit :=
  if has_errors errors then Err errors else Ok tt.
(** [match r { Ok(x) => .., Err(mut err) => errors.append(&mut err) }] in a loop that keeps what succeeds. *)
Definition keep_or_append {F A} (r : outcome ErrorCollection A) (keep : list A) (errors : ErrorCollection) :
    outcome F (list A * ErrorCollection) :=
  match r with
  | Ok x => Ok (keep ++ [x], errors)
  | Err es => Ok (keep, errors ++ es)
  | Panic p => Panic p
  end.

(** [Vec::join]. *)
Fixpoint str_join (sep : string) (l : list string) : string :=
  match l with
  | [] => ""
  | [x] => x
  | x :: l => x +:+ sep +:+ str_join sep l
  end.
(** [new_parser_error] joins the expected tokens. *)
Definition new_parser_error (expected : list string) (span : Span) : DatamodelError :=
  ParserError expected (str_join ", " expected) span.

(** ** Facts *)
Lemma errors_ok_Ok errors u : errors_ok errors = Ok u <-> errors = [].
Proof. destruct errors, u; by split. Qed.
Lemma push_err_Ok {F} errors r es : push_err (F := F) errors r = Ok es ->
  (r = Ok tt /\ es = errors) \/ exists e, r = Err e /\ es = errors ++ [e].
Proof. destruct r as [[]|e|p]; cbn; intros [= <-]; eauto. Qed.
Lemma append_err_Ok {F} errors r es : append_err (F := F) errors r = Ok es ->
  (r = Ok tt /\ es = errors) \/ exists e, r = Err e /\ es = errors ++ e.
Proof. destruct r as [[]|e|p]; cbn; intros [= <-]; eauto. Qed.
(** No error in the end means that the check passed and there was none before. *)
Lemma push_err_nil {F} errors r : push_err (F := F) errors r = Ok [] -> errors = [] /\ r = Ok tt.
Proof. intros [[-> <-]|(e & _ & He)]%push_err_Ok; [done|]. by destruct errors. Qed.

(** * Arguments and values of directives (libs/datamodel/core/src/common, dml/functions.rs, ast)

    [Arguments] hands out the arguments of a directive and remembers which were
    used; [ValueValidator] reads an expression as a value of a type; names are
    checked and built from other names. *)
(** ** Expressions (ast/expression.rs, ast/argument.rs) *)
Definition expr_span (e : Expression) : Span :=
  match e with
  | NumericValue _ s | BooleanValue _ s | StringValue _ s | Any _ s | ConstantValue _ s | Function _ _ s | Array _ s => s
  end.
Definition expr_to_string (e : Expression) : string :=
  match e with
  | StringValue x _ | NumericValue x _ | BooleanValue x _ | ConstantValue x _ | Function x _ _ | Any x _ => x
  | Array _ _ => "(array)"
  end.
Definition describe_value_type (e : Expression) : string :=
  match e with
  | NumericValue _ _ => "numeric"
  | BooleanValue _ _ => "boolean"
  | StringValue _ _ => "string"
  | ConstantValue _ _ => "literal"
  | Function _ _ _ => "functional"
  | Array _ _ => "array"
  | Any _ _ => "any"
  end.
Definition is_env_expression (e : Expression) : bool :=
  match e with Function name _ _ => name ≟ "env" | _ => false end.
Definition Argument_new (name : string) (value : Expression) : Argument := mkArgument (Identifier_new name) value Span_empty.
Definition Argument_new_string (name value : string) : Argument := Argument_new name (StringValue value Span_empty).
Definition Argument_new_constant (name value : string) : Argument := Argument_new name (ConstantValue value Span_empty).
Definition Argument_new_array (name : string) (value : list Expression) : Argument := Argument_new name (Array value Span_empty).
Definition Argument_new_function (name fn_name : string) (value : list Expression) : Argument :=
  Argument_new name (Function fn_name value Span_empty).
Definition Argument_new_unnamed (value : Expression) : Argument := Argument_new "" value.
Definition is_unnamed (a : Argument) : bool := arg_key a ≟ "".
Definition Directive_new (name : string) (arguments : list Argument) : Directive :=
  mkDirective (Identifier_new name) arguments Span_empty.

(** ** Names (common/names.rs, ast/identifier.rs)

    Strings are sequences of bytes. The first character of a string may have
    several; what the Unicode tables of the standard library say about such a
    character is the class [Unicode]. *)
Class Unicode : Type := {
  wide_is_numeric : string -> bool;
  wide_to_lowercase : string -> string;
  wide_to_uppercase : string -> string;
}.
(** The number of bytes of a character, from its first byte. *)
Definition char_width (c : ascii) : nat :=
  let n := nat_of_ascii c in if n <? 128 then 1 else if n <? 224 then 2 else if n <? 240 then 3 else 4.
Definition in_range (lo hi : ascii) (c : ascii) : bool :=
  (nat_of_ascii lo <=? nat_of_ascii c) && (nat_of_ascii c <=? nat_of_ascii hi).
Definition ascii_upper (c : ascii) : ascii :=
  if in_range "a" "z" c then ascii_of_nat (nat_of_ascii c - 32) else c.
Definition ascii_lower (c : ascii) : ascii :=
  if in_range "A" "Z" c then ascii_of_nat (nat_of_ascii c + 32) else c.

Section names.
Context `{U : Unicode}.
(** [chars().next()] mapped by [f], the rest kept. *)
Definition map_first (narrow : ascii -> ascii) (wide : string -> string) (s : string) : string :=
  match s with
  | EmptyString => EmptyString
  | String c r =>
      if char_width c ≟ 1 then String (narrow c) r
      else wide (String.substring 0 (char_width c) s) +:+ String.substring (char_width c) (String.length s - char_width c) s
  end.
Definition camel_case : string -> string := map_first ascii_lower wide_to_lowercase.
Definition pascal_case : string -> string := map_first ascii_upper wide_to_uppercase.
(** [DefaultNames::relation_name]. *)
Definition relation_name (from to : string) : string :=
  if String.ltb from to then from +:+ "To" +:+ to else to +:+ "To" +:+ from.

Definition starts_numeric (s : string) : bool :=
  match s with
  | EmptyString => false
  | String c _ => if char_width c ≟ 1 then in_range "0" "9" c else wide_is_numeric (String.substring 0 (char_width c) s)
  end.
Fixpoint contains_char (x : ascii) (s : string) : bool :=
  match s with EmptyString => false | String c s => (c ≟ x) || contains_char x s end.
(** [Identifier::validate]. *)
Definition Identifier_validate (i : Identifier) (schema_item : string) : outcome DatamodelError unit :=
  if id_name i ≟ "" then
    Err (ValidationError ("The name of a " +:+ schema_item +:+ " must not be empty.") (id_span i))
  else if starts_numeric (id_name i) then
    Err (ValidationError ("The name of a " +:+ schema_item +:+ " must not start with a number.") (id_span i))
  else if contains_char "-" (id_name i) then
    Err (ValidationError ("The character `-` is not allowed in " +:+ schema_item +:+ " names.") (id_span i))
  else Ok tt.
(** [WithDirectives::validate_directives]. *)
Definition validate_directives (ds : list Directive) : outcome ErrorCollection ErrorCollection :=
  for_each (fun errors d => push_err errors (Identifier_validate (dir_name d) "Directive")) ds [].
End names.

(** ** Arguments (common/arguments.rs) *)
Record Args : Type := mkArgs {
  arguments : list Argument;
  used_arguments : gset string;
  args_span : Span;
}.
Definition Arguments_new (args : list Argument) (span : Span) : Args := mkArgs args ∅ span.

Definition check_for_duplicate_named_arguments (a : Args) : outcome ErrorCollection unit :=
  r ← for_each (fun '(arg_names, errors) arg =>
        let errors := if bool_decide (arg_key arg ∈ (arg_names : gset string))
                      then errors ++ [DuplicateArgumentError (arg_key arg) (arg_span arg)] else errors in
        Ok (if is_unnamed arg then arg_names else {[arg_key arg]} ∪ arg_names, errors))
      (arguments a) (∅, [] : ErrorCollection);
  errors_ok r.2.
Definition check_for_multiple_unnamed_arguments (directive_name : string) (a : Args) : outcome ErrorCollection unit :=
  unnamed_values ← map_m (fun arg => render_value (arg_value arg)) (iter_filter is_unnamed (arguments a));
  if 1 <? length unnamed_values then
    Err [DirectiveValidationError
           ("You provided multiple unnamed arguments. This is not possible. Did you forget the brackets? Did you mean `["
            +:+ str_join ", " unnamed_values +:+ "]`?") directive_name (args_span a)]
  else Ok tt.
Definition check_for_unused_arguments (a : Args) : outcome ErrorCollection unit :=
  errors_ok ((fun arg => UnusedArgumentError (arg_key arg) (arg_span arg)) <$>
    iter_filter (fun arg => negb (bool_decide (arg_key arg ∈ used_arguments a))) (arguments a)).

Definition arg_internal (name : string) (a : Args) : option Argument * Args :=
  match iter_find (fun arg => arg_key arg ≟ name) (arguments a) with
  | Some arg => (Some arg, mkArgs (arguments a) ({[arg_key arg]} ∪ used_arguments a) (args_span a))
  | None => (None, a)
  end.
(** [arg], [optional_arg] and [default_arg]; a [ValueValidator] wraps the expression. *)
Definition get_arg (name : string) (a : Args) : outcome DatamodelError Expression * Args :=
  let '(r, a') := arg_internal name a in
  (match r with Some arg => Ok (arg_value arg) | None => Err (ArgumentNotFound name (args_span a)) end, a').
Definition optional_arg (name : string) (a : Args) : option Expression * Args :=
  let '(r, a') := arg_internal name a in (arg_value <$> r, a').
Definition default_arg (name : string) (a : Args) : outcome DatamodelError Expression * Args :=
  let '(r1, a1) := arg_internal name a in
  let '(r2, a2) := arg_internal "" a1 in
  (match r1, r2 with
   | Some arg, None => Ok (arg_value arg)
   | None, Some arg => Ok (arg_value arg)
   | Some arg, Some _ => Err (DuplicateDefaultArgumentError name (arg_span arg))
   | None, None => Err (ArgumentNotFound name (args_span a))
   end, a2).

(** ** Values (common/value_validator.rs)

    The parsers of the crates rust_decimal and chrono, with the text of their
    errors, and the environment of the process. *)
Class ValueParsers `{VT : ValueTypes} : Type := {
  parse_decimal : string -> outcome string Decimal;
  parse_datetime : string -> outcome string DateTimeUtc;
  datetime_to_rfc3339 : DateTimeUtc -> string;
  env_var : string -> option string;
}.
(** [str::parse::<i64>] with the text of [ParseIntError]. *)
Fixpoint from_str_digits (sign acc : Z) (s : string) : outcome string Z :=
  match s with
  | EmptyString => Ok acc
  | String c s =>
      match digit_of c with
      | None => Err "invalid digit found in string"
      | Some d =>
          let acc := (acc * 10 + sign * d)%Z in
          if (acc <? - 2 ^ 63)%Z then Err "number too small to fit in target type"
          else if (2 ^ 63 <=? acc)%Z then Err "number too large to fit in target type"
          else from_str_digits sign acc s
      end
  end.
Definition from_str_unsigned (sign : Z) (s : string) : outcome string Z :=
  if s ≟ "" then Err "cannot parse integer from empty string" else from_str_digits sign 0 s.
Definition from_str_i64 (s : string) : outcome string Z :=
  match s with
  | String "-"%char s => from_str_unsigned (-1) s
  | String "+"%char s => from_str_unsigned 1 s
  | s => from_str_unsigned 1 s
  end.
(** [str::parse::<bool>]. *)
Definition from_str_bool (s : string) : outcome string bool :=
  if s ≟ "true" then Ok true else if s ≟ "false" then Ok false else Err "provided string was not `true` or `false`".

Section values.
Context `{VT : ValueTypes} `{VP : !ValueParsers}.

Definition construct_type_mismatch_error (e : Expression) (expected_type : string) : DatamodelError :=
  TypeMismatchError expected_type (describe_value_type e) (expr_to_string e) (expr_span e).
Definition wrap_error_from_result {A} (e : Expression) (result : outcome string A) (expected_type : string) :
    outcome DatamodelError A :=
  map_err (fun err => ValueParserError expected_type err (expr_to_string e) (expr_span e)) result.

(** [EnvFunction] (dml/functions.rs), over the reading of its argument. *)
Record EnvFunction : Type := mkEnvFunction { var_name : string; env_span : Span }.
Definition EnvFunction_from_ast (as_str : Expression -> outcome DatamodelError string) (expr : Expression) :
    outcome DatamodelError EnvFunction :=
  match expr with
  | Function name args s =>
      if name ≟ "env" then
        match args with
        | [var_wrapped] => var ← as_str var_wrapped; Ok (mkEnvFunction var s)
        | _ => Err (FunctionalEvaluationError "Exactly one string parameter must be passed to the env function." s)
        end
      else Err (FunctionalEvaluationError "Expected this to be an env function." s)
  | _ => Err (FunctionalEvaluationError "This is not a function expression but expected it to be one." (expr_span expr))
  end.
Definition is_var_defined (f : EnvFunction) : bool := match env_var (var_name f) with Some _ => true | None => false end.
Definition env_evaluate (f : EnvFunction) : outcome DatamodelError Expression :=
  match env_var (var_name f) with
  | Some var => Ok (StringValue var (env_span f))
  | None => Err (EnvironmentFunctionalEvaluationError (var_name f) (env_span f))
  end.

(** [as_str_from_env] and [as_str]; the value of a variable is a string literal, read as itself. *)
Definition as_str_literal (e : Expression) : outcome DatamodelError (option string * string) :=
  match e with
  | StringValue value _ => Ok (None, value)
  | _ => Err (construct_type_mismatch_error e "String")
  end.
Fixpoint as_str_from_env (e : Expression) : outcome DatamodelError (option string * string) :=
  match e with
  | Function name _ _ =>
      if name ≟ "env" then
        f ← EnvFunction_from_ast (fun a => snd <$> as_str_from_env a) e;
        x ← env_evaluate f;
        value ← as_str_literal x;
        Ok (Some (var_name f), value.2)
      else Err (construct_type_mismatch_error e "String")
  | _ => as_str_literal e
  end.
Definition as_str (e : Expression) : outcome DatamodelError string := snd <$> as_str_from_env e.
Definition as_env_function (e : Expression) : outcome DatamodelError EnvFunction := EnvFunction_from_ast as_str e.

Definition as_int (e : Expression) : outcome DatamodelError Z :=
  match e with
  | NumericValue value _ | Any value _ => wrap_error_from_result e (from_str_i64 value) "numeric"
  | _ => Err (construct_type_mismatch_error e "numeric")
  end.
Definition as_float (e : Expression) : outcome DatamodelError Decimal :=
  match e with
  | NumericValue value _ | Any value _ => wrap_error_from_result e (parse_decimal value) "numeric"
  | _ => Err (construct_type_mismatch_error e "numeric")
  end.
Definition as_bool (e : Expression) : outcome DatamodelError bool :=
  match e with
  | BooleanValue value _ | Any value _ | StringValue value _ => wrap_error_from_result e (from_str_bool value) "boolean"
  | _ => Err (construct_type_mismatch_error e "boolean")
  end.
Definition as_bool_from_env (e : Expression) : outcome DatamodelError (option string * option bool) :=
  match e with
  | Function name _ _ =>
      if name ≟ "env" then
        f ← as_env_function e;
        let var := if is_var_defined f then Some (var_name f) else None in
        match (x ← env_evaluate f; as_bool x) with
        | Ok b => Ok (var, Some b)
        | Err _ => Ok (var, None)
        | Panic p => Panic p
        end
      else Err (construct_type_mismatch_error e "String")
  | BooleanValue value _ => b ← wrap_error_from_result e (from_str_bool value) "boolean"; Ok (None, Some b)
  | _ => Err (construct_type_mismatch_error e "String")
  end.
Definition as_date_time (e : Expression) : outcome DatamodelError DateTimeUtc :=
  match e with
  | StringValue value _ | Any value _ => wrap_error_from_result e (parse_datetime value) "datetime"
  | _ => Err (construct_type_mismatch_error e "dateTime")
  end.
Definition as_constant_literal (e : Expression) : outcome DatamodelError string :=
  match e with
  | ConstantValue value _ | BooleanValue value _ | Any value _ => Ok value
  | _ => Err (construct_type_mismatch_error e "constant literal")
  end.
Definition as_array (e : Expression) : list Expression := match e with Array values _ => values | _ => [e] end.
Definition as_type (t : ScalarType) (e : Expression) : outcome DatamodelError PrismaValue :=
  match t with
  | ScalarInt => PV_Int <$> as_int e
  | ScalarFloat => PV_Float <$> as_float e
  | ScalarBoolean => PV_Boolean <$> as_bool e
  | ScalarDateTime => PV_DateTime <$> as_date_time e
  | ScalarString => PV_String <$> as_str e
  | ScalarJson => PV_String <$> as_str e
  end.
Definition get_value_generator (e : Expression) (name : string) : outcome DatamodelError ValueGenerator :=
  map_err (fun msg => FunctionalEvaluationError msg (expr_span e)) (ValueGenerator_new name []).
Definition as_default_value (t : ScalarType) (e : Expression) : outcome DatamodelError DefaultValue :=
  match e with
  | Function name _ _ => DefaultExpression <$> get_value_generator e name
  | _ => Single <$> as_type t e
  end.
Definition as_value_generator (e : Expression) : outcome DatamodelError ValueGenerator :=
  match e with
  | Function name _ _ => get_value_generator e name
  | _ => Err (construct_type_mismatch_error e "function")
  end.
Definition to_str_vec (l : list Expression) : outcome DatamodelError (list string) := map_m as_str l.
Definition to_literal_vec (l : list Expression) : outcome DatamodelError (list string) := map_m as_constant_literal l.
(** [parse_literal] for [OnDeleteStrategy] (directive/core/utils.rs). *)
Definition parse_on_delete (e : Expression) : outcome DatamodelError OnDeleteStrategy :=
  s ← as_constant_literal e;
  ok_or (LiteralParseError "onDelete strategy" s (expr_span e)) (OnDeleteStrategy_parse s).
End values.
