(* ===== verification/Directives.v ===== *)
(** * Directives (libs/datamodel/core/src/validator/directive)

    A directive validator reads the arguments of a directive and applies it to
    an object (a field, a model, an enum or a value), and writes the directive
    that describes an object. A list validator runs the validators of the
    directives of an object in a fixed order and collects the errors. *)
From stdpp Require Import sorting pretty.
From S2P Require Import Prelude Ast ExprText Effects SqlSchema Dml DmValues.

(** ** The trait [DirectiveValidator]

    [validate_and_apply] mutates the arguments (which were used) and the object,
    also when it returns an error. A reference to a field is compared by its
    address ([find_model_by_field_ref]): [serialize] gets the model whose fields
    hold the referenced one. *)
Section validator.
Context `{VT : ValueTypes}.
Record DirectiveValidator (T : Type) : Type := mkDirectiveValidator {
  directive_name : string;
  is_duplicate_definition_allowed : bool;
  validate_and_apply : eff (Args * T) DatamodelError unit;
  serialize : option Model -> T -> Datamodel -> outcome DatamodelError (list Directive);
}.
End validator.
#[global] Arguments directive_name {VT T} _.
#[global] Arguments is_duplicate_definition_allowed {VT T} _.
#[global] Arguments validate_and_apply {VT T} _.
#[global] Arguments serialize {VT T} _.

Section effects.
Context {T : Type}.
Definition with_args {A} (f : Args -> outcome DatamodelError A * Args) : eff (Args * T) DatamodelError A :=
  fun s => let '(r, a) := f s.1 in (r, (a, s.2)).
Definition the_span : eff (Args * T) DatamodelError Span := reads (fun s => args_span s.1).
Definition the_object : eff (Args * T) DatamodelError T := reads snd.
Definition update_object (f : T -> T) : eff (Args * T) DatamodelError unit := fun s => (Ok tt, (s.1, f s.2)).
(** [new_directive_validation_error] with the span of the arguments. *)
Definition directive_error {A} (msg name : string) : eff (Args * T) DatamodelError A :=
  span ← the_span; throw (DirectiveValidationError msg name span).
(** [if let Ok(x) = r]: the value if there is one, the error forgotten. *)
Definition if_ok {A} (r : Args -> outcome DatamodelError A * Args) : eff (Args * T) DatamodelError (option A) :=
  fun s => match r s.1 with
           | (Ok x, a) => (Ok (Some x), (a, s.2))
           | (Err _, a) => (Ok None, (a, s.2))
           | (Panic p, a) => (Panic p, (a, s.2))
           end.
End effects.
(** [wrap_in_directive_validation_error]. *)
Definition wrap_in_directive_validation_error (name : string) (err : DatamodelError) : DatamodelError :=
  DirectiveValidationError (description err) name (error_span err).
(** [unwrap] of a [Result]. *)
Definition unwrap_ok {E F A} (r : outcome E A) : outcome F A :=
  match r with
  | Ok x => Ok x
  | Err _ => Panic "called `Result::unwrap()` on an `Err` value"
  | Panic p => Panic p
  end.

(** ** Updates of fields, models and enums *)
Section updates.
Context `{VT : ValueTypes}.
Definition set_f_type (t : FieldType) (f : Field) : Field :=
  mkField (f_name f) t (f_arity f) (f_database_name f) (f_default_value f) (f_is_unique f) (f_is_id f) (f_documentation f)
    (f_is_generated f) (f_is_updated_at f) (f_is_commented_out f).
Definition set_f_name (n : string) (f : Field) : Field :=
  mkField n (f_type f) (f_arity f) (f_database_name f) (f_default_value f) (f_is_unique f) (f_is_id f) (f_documentation f)
    (f_is_generated f) (f_is_updated_at f) (f_is_commented_out f).
Definition set_f_arity (a : FieldArity) (f : Field) : Field :=
  mkField (f_name f) (f_type f) a (f_database_name f) (f_default_value f) (f_is_unique f) (f_is_id f) (f_documentation f)
    (f_is_generated f) (f_is_updated_at f) (f_is_commented_out f).
Definition set_f_database_name (n : option string) (f : Field) : Field :=
  mkField (f_name f) (f_type f) (f_arity f) n (f_default_value f) (f_is_unique f) (f_is_id f) (f_documentation f)
    (f_is_generated f) (f_is_updated_at f) (f_is_commented_out f).
Definition set_f_default (d : option DefaultValue) (f : Field) : Field :=
  mkField (f_name f) (f_type f) (f_arity f) (f_database_name f) d (f_is_unique f) (f_is_id f) (f_documentation f)
    (f_is_generated f) (f_is_updated_at f) (f_is_commented_out f).
Definition set_f_is_unique (b : bool) (f : Field) : Field :=
  mkField (f_name f) (f_type f) (f_arity f) (f_database_name f) (f_default_value f) b (f_is_id f) (f_documentation f)
    (f_is_generated f) (f_is_updated_at f) (f_is_commented_out f).
Definition set_f_is_id (b : bool) (f : Field) : Field :=
  mkField (f_name f) (f_type f) (f_arity f) (f_database_name f) (f_default_value f) (f_is_unique f) b (f_documentation f)
    (f_is_generated f) (f_is_updated_at f) (f_is_commented_out f).
Definition set_f_documentation (d : option string) (f : Field) : Field :=
  mkField (f_name f) (f_type f) (f_arity f) (f_database_name f) (f_default_value f) (f_is_unique f) (f_is_id f) d
    (f_is_generated f) (f_is_updated_at f) (f_is_commented_out f).
Definition set_f_is_updated_at (b : bool) (f : Field) : Field :=
  mkField (f_name f) (f_type f) (f_arity f) (f_database_name f) (f_default_value f) (f_is_unique f) (f_is_id f) (f_documentation f)
    (f_is_generated f) b (f_is_commented_out f).
Definition set_m_database_name (n : option string) (m : Model) : Model :=
  mkModel (m_name m) (m_fields m) (m_documentation m) n (m_is_embedded m) (m_indices m) (m_id_fields m)
    (m_is_generated m) (m_is_commented_out m).
Definition set_m_documentation (d : option string) (m : Model) : Model :=
  mkModel (m_name m) (m_fields m) d (m_database_name m) (m_is_embedded m) (m_indices m) (m_id_fields m)
    (m_is_generated m) (m_is_commented_out m).
Definition set_m_is_embedded (b : bool) (m : Model) : Model :=
  mkModel (m_name m) (m_fields m) (m_documentation m) (m_database_name m) b (m_indices m) (m_id_fields m)
    (m_is_generated m) (m_is_commented_out m).
Definition set_m_id_fields (l : list string) (m : Model) : Model :=
  mkModel (m_name m) (m_fields m) (m_documentation m) (m_database_name m) (m_is_embedded m) (m_indices m) l
    (m_is_generated m) (m_is_commented_out m).
Definition set_en_database_name (n : option string) (e : Enum) : Enum := mkEnum (en_name e) (en_values e) (en_documentation e) n.
Definition set_en_documentation (d : option string) (e : Enum) : Enum := mkEnum (en_name e) (en_values e) d (en_database_name e).
Definition set_ev_database_name (n : option string) (v : EnumValue) : EnumValue :=
  mkEnumValue (ev_name v) n (ev_documentation v) (ev_commented_out v).
Definition set_ev_documentation (d : option string) (v : EnumValue) : EnumValue :=
  mkEnumValue (ev_name v) (ev_database_name v) d (ev_commented_out v).
Definition set_ri_name (n : string) (i : RelationInfo) : RelationInfo :=
  mkRelationInfo (ri_to i) (ri_fields i) (ri_to_fields i) n (ri_on_delete i).
Definition set_ri_fields (l : list string) (i : RelationInfo) : RelationInfo :=
  mkRelationInfo (ri_to i) l (ri_to_fields i) (ri_name i) (ri_on_delete i).
Definition set_ri_to_fields (l : list string) (i : RelationInfo) : RelationInfo :=
  mkRelationInfo (ri_to i) (ri_fields i) l (ri_name i) (ri_on_delete i).
(** A write to the relation info of a field through [&mut field.field_type]. *)
Definition update_relation_info (g : RelationInfo -> RelationInfo) (f : Field) : Field :=
  match f_type f with
  | RelationType info => set_f_type (RelationType (g info)) f
  | _ => f
  end.
End updates.

Section builtin.
Context `{VT : ValueTypes} `{VP : !ValueParsers}.

(** ** Values as expressions (validator/lower.rs) *)
Fixpoint lower_prisma_value (pv : PrismaValue) : Expression :=
  match pv with
  | PV_Boolean true => BooleanValue "true" Span_empty
  | PV_Boolean false => BooleanValue "false" Span_empty
  | PV_String value => StringValue value Span_empty
  | PV_Enum value => ConstantValue value Span_empty
  | PV_DateTime value => StringValue (datetime_to_rfc3339 value) Span_empty
  | PV_Float value => NumericValue (decimal_fmt value) Span_empty
  | PV_Int value => NumericValue (pretty value) Span_empty
  | PV_Null => ConstantValue "null" Span_empty
  | PV_Uuid val => StringValue (uuid_fmt val) Span_empty
  | PV_Json val => StringValue val Span_empty
  | PV_List vec => Array (lower_prisma_value <$> vec) Span_empty
  end.
Definition lower_default_value (dv : DefaultValue) : Expression :=
  match dv with
  | Single v => lower_prisma_value v
  | DefaultExpression e => Function (vg_name e) (lower_prisma_value <$> vg_args e) Span_empty
  end.

(** ** @default (default.rs) *)
Definition default_apply : eff (Args * Field) DatamodelError unit :=
  field ← the_object;
  if f_arity field ≟ ListField then directive_error "Cannot set a default value on list field." "default"
  else match f_type field with
  | Base scalar_type _ =>
      e ← with_args (default_arg "value");
      dv ← lift (map_err (wrap_in_directive_validation_error "default") (as_default_value scalar_type e));
      update_object (set_f_default (Some dv))
  | EnumType _ =>
      e ← with_args (default_arg "value");
      match as_constant_literal e with
      | Ok value => update_object (set_f_default (Some (Single (PV_Enum value))))
      | Err err =>
          generator ← lift (as_value_generator e);
          dbgenerated ← lift (unwrap_ok (ValueGenerator_new "dbgenerated" []));
          if ValueGenerator_eqb generator dbgenerated
          then update_object (set_f_default (Some (DefaultExpression generator)))
          else throw (wrap_in_directive_validation_error "default" err)
      | Panic p => panic p
      end
  | _ => directive_error "Cannot set a default value on a relation field." "default"
  end.
Definition default_serialize (field : Field) : list Directive :=
  match f_default_value field with
  | Some default_value => [Directive_new "default" [Argument_new "" (lower_default_value default_value)]]
  | None => []
  end.
Definition DefaultDirectiveValidator : DirectiveValidator Field :=
  mkDirectiveValidator _ "default" false default_apply (fun _ field _ => Ok (default_serialize field)).

(** ** @embedded (embedded.rs) *)
Definition EmbeddedDirectiveValidator : DirectiveValidator Model :=
  mkDirectiveValidator _ "embedded" false (update_object (set_m_is_embedded true))
    (fun _ model _ => Ok (if m_is_embedded model then [Directive_new "embedded" []] else [])).

(** ** @id and @@id (id.rs) *)
Definition id_apply : eff (Args * Field) DatamodelError unit :=
  obj ← the_object;
  if negb (f_arity obj ≟ RequiredField) then directive_error "Fields that are marked as id must be required." "id"
  else match f_type obj with
  | RelationType _ =>
      directive_error ("The field " +:+ ticked (f_name obj) +:+ " is a relation field and cannot be marked with `@id`. Only scalar fields can be declared as id.") "id"
  | _ => update_object (set_f_is_id true)
  end.
Definition IdDirectiveValidator : DirectiveValidator Field :=
  mkDirectiveValidator _ "id" false id_apply (fun _ field _ => Ok (if f_is_id field then [Directive_new "id" []] else [])).

(** The names of an argument [fields] of a model directive; a name that is not a literal is an [unwrap] on an error. *)
Definition literal_names (e : Expression) : outcome DatamodelError (list string) :=
  map_m (fun f => unwrap_ok (as_constant_literal f)) (as_array e).
Definition undefined_fields (obj : Model) (names : list string) : list string :=
  iter_filter (fun n => negb (has_field obj n)) names.
Definition referenced_relation_fields (obj : Model) (names : list string) : list string :=
  iter_filter (fun n => match find_field obj n with Some field => is_relation (f_type field) | None => false end) names.
Definition model_id_apply : eff (Args * Model) DatamodelError unit :=
  e ← with_args (default_arg "fields");
  fields ← lift (literal_names e);
  _ ← update_object (set_m_id_fields fields);
  obj ← the_object;
  span ← the_span;
  let undefined := undefined_fields obj fields in
  let relations := referenced_relation_fields obj fields in
  if negb (undefined ≟ []) then
    throw (ModelValidationError ("The multi field id declaration refers to the unknown fields " +:+ str_join ", " undefined +:+ ".") (m_name obj) span)
  else if negb (relations ≟ []) then
    throw (ModelValidationError ("The id definition refers to the relation fields " +:+ str_join ", " relations +:+ ". Id definitions must reference only scalar fields.") (m_name obj) span)
  else mret tt.
Definition constants (l : list string) : list Expression := (fun f => ConstantValue f Span_empty) <$> l.
Definition ModelLevelIdDirectiveValidator : DirectiveValidator Model :=
  mkDirectiveValidator _ "id" false model_id_apply
    (fun _ model _ => Ok (match m_id_fields model with
                          | [] => []
                          | names => [Directive_new "id" [Argument_new_array "" (constants names)]]
                          end)).

(** ** @map and @@map (map.rs) *)
Definition internal_validate_and_apply {T} (set_database_name : option string -> T -> T) : eff (Args * T) DatamodelError unit :=
  e ← with_args (default_arg "name");
  db_name ← lift (map_err (fun err => DirectiveValidationError (description err) "map" (error_span err)) (as_str e));
  update_object (set_database_name (Some db_name)).
Definition internal_serialize (database_name : option string) : list Directive :=
  match database_name with
  | Some db_name => [Directive_new "map" [Argument_new_unnamed (StringValue db_name Span_empty)]]
  | None => []
  end.
Definition MapDirectiveValidator_model : DirectiveValidator Model :=
  mkDirectiveValidator _ "map" false (internal_validate_and_apply set_m_database_name)
    (fun _ obj _ => Ok (internal_serialize (m_database_name obj))).
Definition map_field_apply : eff (Args * Field) DatamodelError unit :=
  obj ← the_object;
  if is_relation (f_type obj) then directive_error "The directive `@map` can not be used on relation fields." "map"
  else internal_validate_and_apply set_f_database_name.
Definition MapDirectiveValidatorForField : DirectiveValidator Field :=
  mkDirectiveValidator _ "map" false map_field_apply (fun _ obj _ => Ok (internal_serialize (f_database_name obj))).
Definition MapDirectiveValidator_enum : DirectiveValidator Enum :=
  mkDirectiveValidator _ "map" false (internal_validate_and_apply set_en_database_name)
    (fun _ obj _ => Ok (internal_serialize (en_database_name obj))).
Definition MapDirectiveValidator_value : DirectiveValidator EnumValue :=
  mkDirectiveValidator _ "map" false (internal_validate_and_apply set_ev_database_name)
    (fun _ obj _ => Ok (internal_serialize (ev_database_name obj))).

(** ** @relation (relation.rs) *)
Definition relation_apply : eff (Args * Field) DatamodelError unit :=
  field ← the_object;
  match f_type field with
  | RelationType _ =>
      name_arg ← if_ok (default_arg "name");
      _ ← match name_arg with
          | Some e =>
              name ← lift (as_str e);
              if name ≟ "" then throw (DirectiveValidationError "A relation cannot have an empty name." "relation" (expr_span e))
              else update_object (update_relation_info (set_ri_name name))
          | None => mret tt
          end;
      related_fields ← if_ok (get_arg "references");
      _ ← match related_fields with
          | Some e => names ← lift (to_literal_vec (as_array e)); update_object (update_relation_info (set_ri_to_fields names))
          | None => mret tt
          end;
      base_fields ← if_ok (get_arg "fields");
      match base_fields with
      | Some e => names ← lift (to_literal_vec (as_array e)); update_object (update_relation_info (set_ri_fields names))
      | None => mret tt
      end
  | _ => directive_error "Invalid field type, not a relation." "relation"
  end.
(** The arguments written for a relation field of a model. *)
Definition relation_arguments (parent_model related_model : Model) (info : RelationInfo) : list Argument :=
  (if negb (ri_name info ≟ "") && (negb (ri_name info ≟ relation_name (ri_to info) (m_name parent_model))
                                  || (m_name parent_model ≟ m_name related_model))
   then [Argument_new_string "" (ri_name info)] else []) ++
  (match ri_fields info with [] => [] | l => [Argument_new_array "fields" (constants l)] end) ++
  (match ri_to_fields info with [] => [] | l => [Argument_new_array "references" (constants l)] end) ++
  (if ri_on_delete info ≟ OnDeleteNone then []
   else [Argument_new_constant "onDelete" (OnDeleteStrategy_to_string (ri_on_delete info))]).
Definition relation_serialize (location : option Model) (field : Field) (datamodel : Datamodel) : outcome DatamodelError (list Directive) :=
  match f_type field with
  | RelationType info =>
      parent_model ← unwrap "find_model_by_field_ref" location;
      related_model ← unwrap ("Related model not found: " +:+ ri_to info +:+ ".") (find_model datamodel (ri_to info));
      Ok (match relation_arguments parent_model related_model info with
          | [] => []
          | args => [Directive_new "relation" args]
          end)
  | _ => Ok []
  end.
Definition RelationDirectiveValidator : DirectiveValidator Field :=
  mkDirectiveValidator _ "relation" false relation_apply relation_serialize.

(** ** @unique, @@unique and @@index (unique_and_index.rs) *)
Definition unique_apply : eff (Args * Field) DatamodelError unit :=
  obj ← the_object;
  if f_is_id obj then directive_error "Fields that are marked as id should not have an additional @unique." "unique"
  else match f_type obj with
  | RelationType _ =>
      directive_error ("The field " +:+ ticked (f_name obj) +:+ " is a relation field and cannot be marked with `unique`. Only scalar fields can be made unique.") "unique"
  | _ => update_object (set_f_is_unique true)
  end.
Definition FieldLevelUniqueDirectiveValidator : DirectiveValidator Field :=
  mkDirectiveValidator _ "unique" false unique_apply
    (fun _ field _ => Ok (if f_is_unique field then [Directive_new "unique" []] else [])).

Definition validate_index (index_type : IndexType) : eff (Args * Model) DatamodelError IndexDefinition :=
  name_arg ← with_args (fun a => let '(r, a) := optional_arg "name" a in (Ok r, a));
  name ← match name_arg with
         | Some e => n ← lift (as_str e); mret (Some n)
         | None => mret None
         end;
  e ← with_args (default_arg "fields");
  fields ← lift (literal_names e);
  obj ← the_object;
  span ← the_span;
  let undefined := undefined_fields obj fields in
  let relations := referenced_relation_fields obj fields in
  let unique := if index_type ≟ UniqueIndex then "unique " else "" in
  if negb (undefined ≟ []) then
    throw (ModelValidationError ("The " +:+ unique +:+ "index definition refers to the unknown fields " +:+ str_join ", " undefined +:+ ".") (m_name obj) span)
  else if negb (relations ≟ []) then
    throw (ModelValidationError ("The " +:+ unique +:+ "index definition refers to the relation fields " +:+ str_join ", " relations +:+ ". Index definitions must reference only scalar fields.") (m_name obj) span)
  else mret (mkIndexDefinition name fields index_type).
Definition index_apply (index_type : IndexType) : eff (Args * Model) DatamodelError unit :=
  index_def ← validate_index index_type;
  update_object (add_index index_def).
Definition index_arguments (index_def : IndexDefinition) : list Argument :=
  Argument_new_array "" (constants (ix_fields index_def)) ::
  match ix_name index_def with Some name => [Argument_new_string "name" name] | None => [] end.
Definition serialize_index_definitions (directive : string) (model : Model) (index_type : IndexType) : list Directive :=
  (fun index_def => Directive_new directive (index_arguments index_def)) <$>
    iter_filter (fun index => ix_tpe index ≟ index_type) (m_indices model).
Definition ModelLevelUniqueDirectiveValidator : DirectiveValidator Model :=
  mkDirectiveValidator _ "unique" true (index_apply UniqueIndex)
    (fun _ model _ => Ok (serialize_index_definitions "unique" model UniqueIndex)).
Definition ModelLevelIndexDirectiveValidator : DirectiveValidator Model :=
  mkDirectiveValidator _ "index" true (index_apply NormalIndex)
    (fun _ model _ => Ok (serialize_index_definitions "index" model NormalIndex)).

(** ** @updatedAt (updated_at.rs) *)
Definition updated_at_apply : eff (Args * Field) DatamodelError unit :=
  obj ← the_object;
  match f_type obj with
  | Base ScalarDateTime _ =>
      if f_arity obj ≟ ListField then directive_error "Fields that are marked with @updatedAt can not be lists." "updatedAt"
      else update_object (set_f_is_updated_at true)
  | _ => directive_error "Fields that are marked with @updatedAt must be of type DateTime." "updatedAt"
  end.
Definition UpdatedAtDirectiveValidator : DirectiveValidator Field :=
  mkDirectiveValidator _ "updatedAt" false updated_at_apply
    (fun _ field _ => Ok (if f_is_updated_at field then [Directive_new "updatedAt" []] else [])).

(** ** Scoped directives (directive_scope.rs) *)
Definition DirectiveScope_new {T} (inner : DirectiveValidator T) (scope : string) : DirectiveValidator T :=
  mkDirectiveValidator _ (scope +:+ "." +:+ directive_name inner) false (validate_and_apply inner) (serialize inner).

(** ** [DirectiveListValidator] (directive_list_validator.rs)

    The [BTreeMap] of the known directives is the list of its values in the
    order of their names. *)
Definition DirectiveListValidator (T : Type) : Type := list (DirectiveValidator T).
Definition known_directive {T} (known : DirectiveListValidator T) (name : string) : option (DirectiveValidator T) :=
  iter_find (fun v => directive_name v ≟ name) known.
Fixpoint insert_validator {T} (v : DirectiveValidator T) (known : DirectiveListValidator T) : DirectiveListValidator T :=
  match known with
  | [] => [v]
  | w :: known' => if String.ltb (directive_name v) (directive_name w) then v :: known else w :: insert_validator v known'
  end.
Definition add_validator {E T} (v : DirectiveValidator T) (known : DirectiveListValidator T) : outcome E (DirectiveListValidator T) :=
  match known_directive known (directive_name v) with
  | Some _ => Panic ("Duplicate directive definition: " +:+ quoted (directive_name v))
  | None => Ok (insert_validator v known)
  end.
Definition add_all {E T} (vs : list (DirectiveValidator T)) (known : DirectiveListValidator T) : outcome E (DirectiveListValidator T) :=
  for_each (fun known v => add_validator v known) vs known.
Definition add_all_scoped {E T} (vs : list (DirectiveValidator T)) (scope : string) (known : DirectiveListValidator T) :
    outcome E (DirectiveListValidator T) :=
  for_each (fun known v => add_validator (DirectiveScope_new v scope) known) vs known.
Definition new_builtin_field_directives {E} : outcome E (DirectiveListValidator Field) :=
  for_each (fun known v => add_validator v known)
    [MapDirectiveValidatorForField; IdDirectiveValidator; FieldLevelUniqueDirectiveValidator; DefaultDirectiveValidator;
     RelationDirectiveValidator; UpdatedAtDirectiveValidator] [].
Definition new_builtin_model_directives {E} : outcome E (DirectiveListValidator Model) :=
  for_each (fun known v => add_validator v known)
    [MapDirectiveValidator_model; EmbeddedDirectiveValidator; ModelLevelUniqueDirectiveValidator;
     ModelLevelIndexDirectiveValidator; ModelLevelIdDirectiveValidator] [].
Definition new_builtin_enum_directives {E} : outcome E (DirectiveListValidator Enum) := add_validator MapDirectiveValidator_enum [].
Definition new_builtin_enum_value_directives {E} : outcome E (DirectiveListValidator EnumValue) :=
  add_validator MapDirectiveValidator_value [].

(** The order in which the directives of an object are applied. *)
Definition directive_cmp (a b : Directive) : comparison :=
  match dir_key a, dir_key b with
  | "default", "id" => Lt
  | "id", "default" => Gt
  | "relation", "map" => Lt
  | "map", "relation" => Gt
  | x, y => String.compare x y
  end%string.
(** [sort_by]: up to 20 elements the standard library sorts by insertion, from the end. *)
Fixpoint insert_directive (d : Directive) (l : list Directive) : list Directive :=
  match l with
  | [] => [d]
  | e :: l' => match directive_cmp e d with Lt => e :: insert_directive d l' | _ => d :: l end
  end.
Definition sort_directives (l : list Directive) : list Directive := foldr insert_directive [] l.

Section list_validator.
Context {T : Type} (known : DirectiveListValidator T).
(** One directive: the errors so far and the object. *)
Definition apply_directive (directives : list Directive) (s : ErrorCollection * T) (directive : Directive) :
    outcome ErrorCollection (ErrorCollection * T) :=
  let '(errors, t) := s in
  match known_directive known (dir_key directive) with
  | Some validator =>
      let args := Arguments_new (dir_arguments directive) (dir_span directive) in
      let count := length (iter_filter (fun d => dir_key d ≟ dir_key directive) directives) in
      let errors := if (1 <? count) && negb (is_duplicate_definition_allowed validator)
                    then errors ++ [DuplicateDirectiveError (dir_key directive) (id_span (dir_name directive))] else errors in
      errors ← append_err errors (check_for_duplicate_named_arguments args);
      errors ← append_err errors (check_for_multiple_unnamed_arguments (dir_key directive) args);
      match validate_and_apply validator (args, t) with
      | (Err (ArgumentNotFound argument_name span), (_, t)) =>
          Ok (errors ++ [DirectiveArgumentNotFound argument_name (dir_key directive) span], t)
      | (Err err, (_, t)) => Ok (errors ++ [err], t)
      | (Ok _, (args, t)) => errors ← append_err errors (check_for_unused_arguments args); Ok (errors, t)
      | (Panic p, _) => Panic p
      end
  | None =>
      Ok (if dir_key directive ≟ "" then errors
          else errors ++ [DirectiveNotKnownError (dir_key directive) (id_span (dir_name directive))], t)
  end.
(** [DirectiveListValidator::validate_and_apply]: the object, or the errors of all directives. *)
Definition validate_and_apply_all (directives : list Directive) (t : T) : outcome ErrorCollection T :=
  s ← for_each (apply_directive directives) (sort_directives directives) ([], t);
  _ ← errors_ok s.1;
  Ok s.2.
(** [DirectiveListValidator::serialize]. *)
Definition serialize_directive (location : option Model) (t : T) (datamodel : Datamodel)
    (s : list Directive * ErrorCollection) (directive : DirectiveValidator T) : outcome ErrorCollection (list Directive * ErrorCollection) :=
  match serialize directive location t datamodel with
  | Ok directives => Ok (s.1 ++ directives, s.2)
  | Err err => Ok (s.1, s.2 ++ [err])
  | Panic p => Panic p
  end.
Definition serialize_all (location : option Model) (t : T) (datamodel : Datamodel) : outcome ErrorCollection (list Directive) :=
  s ← for_each (serialize_directive location t datamodel) known ([], []);
  _ ← errors_ok s.2;
  Ok s.1.
End list_validator.
End builtin.
