(* ===== verification/Lift.v ===== *)
(** * Lifting and lowering (validator/lift.rs, validator/lower.rs, datamodel-connector)

    [lift] turns a syntax tree into a datamodel: it resolves the types of
    fields, through type aliases, and applies the directives. [lower] writes a
    datamodel back as a syntax tree. *)
From stdpp Require Import pretty.
From S2P Require Import Prelude Ast ExprText Effects SqlSchema Dml DmValues Directives.

(** ** Connectors (declarative_connector.rs, example_connector.rs) *)
Record TypeAlias : Type := mkTypeAlias { alias_name : string; aliased_to : string }.
Record FieldTypeConstructor : Type := mkFieldTypeConstructor {
  ftc_name : string;
  ftc_datasource_type : string;
  number_of_args : nat;
  ftc_prisma_type : ScalarType;
}.
Definition without_args (name datasource_type : string) (prisma_type : ScalarType) : FieldTypeConstructor :=
  mkFieldTypeConstructor name datasource_type 0 prisma_type.
Record DeclarativeConnector : Type := mkDeclarativeConnector {
  type_aliases : list TypeAlias;
  field_type_constructors : list FieldTypeConstructor;
  supports_scalar_lists : bool;
  supports_relations_over_non_unique_criteria : bool;
  supports_enums : bool;
  supports_json : bool;
}.
Definition constructor_datasource_type {E} (c : FieldTypeConstructor) (args : list Z) : outcome E string :=
  if negb (number_of_args c ≟ length args) then
    Panic ("Did not provide the required number of arguments. " +:+ pretty (number_of_args c) +:+ " were required, but were "
           +:+ pretty (length args) +:+ " provided.")
  else Ok (match args with
           | [] => ftc_datasource_type c
           | _ => ftc_datasource_type c +:+ "(" +:+ str_join "," (pretty <$> args) +:+ ")"
           end).
(** [calculate_type]; aliases may form a cycle, the calls made are bounded by the fuel. *)
Fixpoint calculate_type {E} (fuel : nat) (c : DeclarativeConnector) (name : string) (args : list Z) :
    outcome E (option ScalarFieldType) :=
  match fuel with
  | 0 => Panic "stack overflow"
  | S fuel =>
      match iter_find (fun alias => alias_name alias ≟ name) (type_aliases c) with
      | Some alias => calculate_type fuel c (aliased_to alias) args
      | None =>
          match iter_find (fun rt => ftc_name rt ≟ name) (field_type_constructors c) with
          | Some constructor =>
              datasource_type ← constructor_datasource_type constructor args;
              Ok (Some (mkScalarFieldType name (ftc_prisma_type constructor) datasource_type))
          | None => Ok None
          end
      end
  end.
Definition sqlite_connector : DeclarativeConnector := mkDeclarativeConnector [] [] false false false false.
Definition mysql_connector : DeclarativeConnector := mkDeclarativeConnector [] [] false true true true.
Definition postgres_connector : DeclarativeConnector :=
  mkDeclarativeConnector
    [mkTypeAlias "String" "Text"; mkTypeAlias "Int" "Integer"; mkTypeAlias "Float" "Real"; mkTypeAlias "DateTime" "Timestamp";
     mkTypeAlias "Int8" "BigInt"; mkTypeAlias "Serial8" "BigSerial"; mkTypeAlias "Float8" "DoublePrecision";
     mkTypeAlias "Int" "Integer"; mkTypeAlias "Int4" "Integer"; mkTypeAlias "Decimal" "Numeric"; mkTypeAlias "Float4" "Real";
     mkTypeAlias "Int2" "SmallInt"; mkTypeAlias "Serial2" "SmallSerial"; mkTypeAlias "Serial4" "Serial";
     mkTypeAlias "Char" "Character"; mkTypeAlias "VarChar" "CharacterVarying";
     mkTypeAlias "TimestampTZ" "TimestampWithTimeZone"; mkTypeAlias "Bool" "Boolean"; mkTypeAlias "VarBit" "BitVarying"]
    [without_args "BigInt" "bigint" ScalarInt; without_args "BigSerial" "bigserial" ScalarInt;
     without_args "DoublePrecision" "double precision" ScalarFloat; without_args "Integer" "integer" ScalarInt;
     without_args "Real" "real" ScalarFloat; without_args "SmallInt" "smallint" ScalarInt;
     without_args "SmallSerial" "smallserial" ScalarInt; without_args "Serial" "serial" ScalarInt;
     without_args "Money" "money" ScalarFloat; without_args "Text" "text" ScalarString; without_args "Char" "char" ScalarString;
     without_args "Name" "name" ScalarString; without_args "Boolean" "boolean" ScalarBoolean;
     without_args "Boolean" "boolean" ScalarBoolean; without_args "PGLSN" "pg_lsn" ScalarInt]
    true false true true.

Section lift.
Context `{VT : ValueTypes} `{VP : !ValueParsers}.

(** ** Types of fields (lift.rs)

    The constant [USE_CONNECTORS_FOR_CUSTOM_TYPES] is [false]: its branches are
    not taken. The two functions call each other; the fuel bounds the calls. *)
Definition lift_field_arity (a : Ast.FieldArity) : FieldArity :=
  match a with Ast.Required => RequiredField | Ast.Optional => OptionalField | Ast.List => ListField end.
Definition resolve_custom_type
    (lift_field_type : Ast.Field -> option string -> list string -> outcome DatamodelError (FieldType * list Directive))
    (ast_schema : SchemaAst) (ast_field : Ast.Field) (checked_types : list string) :
    outcome DatamodelError (FieldType * list Directive) :=
  let type_name := id_name (field_type ast_field) in
  let type_span := id_span (field_type ast_field) in
  if iter_any (fun x => x ≟ type_name) checked_types then
    Err (ValidationError ("Recursive type definitions are not allowed. Recursive path was: " +:+ str_join " -> " checked_types
                          +:+ " -> " +:+ type_name +:+ ".") type_span)
  else match find_type_alias ast_schema type_name with
  | Some custom_type =>
      r ← lift_field_type custom_type (Some type_name) (checked_types ++ [field_key custom_type]);
      let '(tpe, attrs) := r in
      match tpe with
      | RelationType _ =>
          Err (ValidationError "Only scalar types can be used for defining custom types." (id_span (field_type custom_type)))
      | _ => Ok (tpe, attrs ++ field_directives custom_type)
      end
  | None => Err (TypeNotFoundError type_name type_span)
  end.
Fixpoint lift_field_type (fuel : nat) (ast_schema : SchemaAst) (ast_field : Ast.Field) (custom_type_name : option string)
    (checked_types : list string) : outcome DatamodelError (FieldType * list Directive) :=
  match fuel with
  | 0 => Panic "stack overflow"
  | S fuel =>
      let type_name := id_name (field_type ast_field) in
      match ScalarType_from_str type_name with
      | Ok scalar_type => Ok (Base scalar_type custom_type_name, [])
      | _ =>
          match Ast.find_model ast_schema type_name, Ast.find_enum ast_schema type_name with
          | Some _, _ => Ok (RelationType (RelationInfo_new type_name), [])
          | None, Some _ => Ok (EnumType type_name, [])
          | None, None => resolve_custom_type (lift_field_type fuel ast_schema) ast_schema ast_field checked_types
          end
      end
  end.
(** Every call but the first is for an alias that was not met before. *)
Definition type_fuel (ast_schema : SchemaAst) : nat := S (length (types ast_schema)).

(** ** Fields, models and enums *)
Definition comment_text (c : option Comment) : option string := text <$> c.
(** The default value of the syntax node and then the directives, with the errors of both. *)
Definition lift_default (ast_field : Ast.Field) (tpe : FieldType) (field : Field) : outcome ErrorCollection (Field * ErrorCollection) :=
  match field_default_value ast_field with
  | Some value =>
      match tpe with
      | Base base_type _ =>
          match as_default_value base_type value with
          | Ok dv => Ok (set_f_default (Some dv) field, [])
          | Err err => Ok (field, [err])
          | Panic p => Panic p
          end
      | _ => Ok (field, [ValidationError "Found default value for a non-scalar type." (expr_span value)])
      end
  | None => Ok (field, [])
  end.
(** [if let Err(mut err) = validate_and_apply(..) { errors.append(&mut err) }], then the object or the errors. *)
Definition finish_object {T} (errors : ErrorCollection) (r : outcome ErrorCollection T) : outcome ErrorCollection T :=
  match r with
  | Ok t => _ ← errors_ok errors; Ok t
  | Err es => Err (errors ++ es)
  | Panic p => Panic p
  end.
Definition lift_field (ast_schema : SchemaAst) (ast_field : Ast.Field) : outcome ErrorCollection Field :=
  r ← map_err (fun e => [e]) (lift_field_type (type_fuel ast_schema) ast_schema ast_field None []);
  let '(tpe, extra_attributes) := r in
  let field := Field_new (field_key ast_field) tpe in
  let field := set_f_documentation (comment_text (field_documentation ast_field)) field in
  let field := set_f_arity (lift_field_arity (field_arity ast_field)) field in
  s ← lift_default ast_field tpe field;
  known ← new_builtin_field_directives;
  finish_object s.2 (validate_and_apply_all known (extra_attributes ++ field_directives ast_field) s.1).

(** A loop that lifts the parts and collects the errors. *)
Definition lift_parts {A B} (f : A -> outcome ErrorCollection B) (l : list A) : outcome ErrorCollection (list B * ErrorCollection) :=
  for_each (fun s x => keep_or_append (f x) s.1 s.2) l ([], []).

Definition lift_model (ast_schema : SchemaAst) (ast_model : Ast.Model) : outcome ErrorCollection Model :=
  let model := Model_new (model_key ast_model) None in
  let model := set_m_documentation (comment_text (model_documentation ast_model)) model in
  s ← lift_parts (lift_field ast_schema) (model_fields ast_model);
  let model := set_model_fields s.1 model in
  known ← new_builtin_model_directives;
  finish_object s.2 (validate_and_apply_all known (model_directives ast_model) model).

Definition lift_enum_value (ast_enum_value : Ast.EnumValue) : outcome ErrorCollection EnumValue :=
  let enum_value := EnumValue_new (value_key ast_enum_value) None in
  let enum_value := set_ev_documentation (comment_text (value_documentation ast_enum_value)) enum_value in
  known ← new_builtin_enum_value_directives;
  validate_and_apply_all known (value_directives ast_enum_value) enum_value.

(** The source is the connector of the first datasource, if there is one. *)
Definition lift_enum (source : option DeclarativeConnector) (ast_enum : Ast.Enum) : outcome ErrorCollection Enum :=
  let supports := match source with Some connector => supports_enums connector | None => true end in
  if negb supports then
    Err [ValidationError ("You defined the enum " +:+ ticked (enum_key ast_enum) +:+ ". But the current connector does not support enums.")
           (enum_span ast_enum)]
  else
    s ← lift_parts lift_enum_value (enum_values ast_enum);
    let en := Enum_new (enum_key ast_enum) s.1 in
    let en := set_en_documentation (comment_text (enum_documentation ast_enum)) en in
    known ← new_builtin_enum_directives;
    finish_object s.2 (validate_and_apply_all known (enum_directives ast_enum) en).

Definition lift_top (source : option DeclarativeConnector) (ast_schema : SchemaAst) (s : Datamodel * ErrorCollection) (ast_obj : Top) :
    outcome ErrorCollection (Datamodel * ErrorCollection) :=
  match ast_obj with
  | TopEnum en =>
      match lift_enum source en with
      | Ok en => Ok (add_enum en s.1, s.2)
      | Err err => Ok (s.1, s.2 ++ err)
      | Panic p => Panic p
      end
  | TopModel ty =>
      match lift_model ast_schema ty with
      | Ok md => Ok (add_model md s.1, s.2)
      | Err err => Ok (s.1, s.2 ++ err)
      | Panic p => Panic p
      end
  | TopSource _ | TopGenerator _ | TopType _ => Ok s
  end.
Definition lift_schema (source : option DeclarativeConnector) (ast_schema : SchemaAst) : outcome ErrorCollection Datamodel :=
  s ← for_each (lift_top source ast_schema) (tops ast_schema) (Datamodel_new, []);
  _ ← errors_ok s.2;
  Ok s.1.

(** ** Lowering (lower.rs) *)
Definition lower_field_arity (a : FieldArity) : Ast.FieldArity :=
  match a with RequiredField => Ast.Required | OptionalField => Ast.Optional | ListField => Ast.List end.
Definition lower_type {E} (t : FieldType) : outcome E Identifier :=
  match t with
  | Base tpe custom_type_name => Ok (Identifier_new (default (ScalarType_to_string tpe) custom_type_name))
  | EnumType tpe => Ok (Identifier_new tpe)
  | UnsupportedType tpe => Ok (Identifier_new tpe)
  | RelationType rel => Ok (Identifier_new (ri_to rel))
  | ConnectorSpecific _ => Panic "Connector specific types are not supported atm."
  end.
Definition text_comment (d : option string) : option Comment := mkComment <$> d.
(** [location] is the model of the datamodel that holds the field. *)
Definition lower_field (location : option Model) (field : Field) (datamodel : Datamodel) : outcome ErrorCollection Ast.Field :=
  known ← new_builtin_field_directives;
  directives ← serialize_all known location field datamodel;
  tpe ← lower_type (f_type field);
  Ok (Ast.mkField tpe (Identifier_new (f_name field)) (lower_field_arity (f_arity field))
        (lower_default_value <$> f_default_value field) directives (text_comment (f_documentation field)) Span_empty
        (f_is_commented_out field)).
Definition lower_model (model : Model) (datamodel : Datamodel) : outcome ErrorCollection Ast.Model :=
  s ← lift_parts (fun field => lower_field (Some model) field datamodel) (m_fields model);
  _ ← errors_ok s.2;
  known ← new_builtin_model_directives;
  directives ← serialize_all known None model datamodel;
  Ok (Ast.mkModel (Identifier_new (m_name model)) s.1 directives (text_comment (m_documentation model)) Span_empty
        (m_is_commented_out model)).
Definition lower_enum_value (datamodel : Datamodel) (v : EnumValue) : outcome ErrorCollection Ast.EnumValue :=
  known ← new_builtin_enum_value_directives;
  directives ← unwrap_ok (serialize_all known None v datamodel);
  Ok (Ast.mkEnumValue (Identifier_new (ev_name v)) directives (text_comment (ev_documentation v)) Span_empty (ev_commented_out v)).
Definition lower_enum (enm : Enum) (datamodel : Datamodel) : outcome ErrorCollection Ast.Enum :=
  values ← map_m (lower_enum_value datamodel) (en_values enm);
  known ← new_builtin_enum_directives;
  directives ← serialize_all known None enm datamodel;
  Ok (Ast.mkEnum (Identifier_new (en_name enm)) values directives (text_comment (en_documentation enm)) Span_empty).
(** The errors of [lower] are collected but not returned. *)
Definition lower (datamodel : Datamodel) : outcome ErrorCollection SchemaAst :=
  ms ← lift_parts (fun model => lower_model model datamodel) (iter_filter (fun model => negb (m_is_generated model)) (dm_models datamodel));
  es ← lift_parts (fun enm => lower_enum enm datamodel) (dm_enums datamodel);
  Ok (mkSchemaAst ((TopModel <$> ms.1) ++ (TopEnum <$> es.1))).
End lift.
