(* ===== verification/Validate.v ===== *)
(** * Prechecks and validation (validator/precheck.rs, validator/validate.rs)

    Checks on the syntax tree before lifting, and on the lifted datamodel. All
    collect errors; lookups that must not fail are [Panic] if they do. *)
From stdpp Require Import sorting.
From S2P Require Import Prelude Ast Effects SqlSchema Dml DmValues Directives Lift.

(** ** Prechecks (precheck.rs) *)
(** [DuplicateChecker]: the objects seen, by name, and the errors. *)
Definition check_if_duplicate_exists {A} (name : A -> string) (error_fn : A -> A -> DatamodelError)
    (c : list A * ErrorCollection) (named : A) : list A * ErrorCollection :=
  match iter_find (fun x => name x ≟ name named) c.1 with
  | Some existing => (c.1, c.2 ++ [error_fn named existing])
  | None => (c.1 ++ [named], c.2)
  end.
Definition check_duplicates {A} (name : A -> string) (error_fn : A -> A -> DatamodelError) (l : list A) : ErrorCollection :=
  (foldl (check_if_duplicate_exists name error_fn) ([], []) l).2.

Definition top_identifier (top : Top) : Identifier :=
  match top with
  | TopEnum x => enum_name x
  | TopModel x => model_name x
  | TopSource x => source_name x
  | TopGenerator x => generator_name x
  | TopType x => field_name x
  end.
Definition assert_is_not_a_reserved_scalar_type (i : Identifier) : ErrorCollection :=
  match ScalarType_from_str (id_name i) with
  | Ok _ => [ReservedScalarTypeError (id_name i) (id_span i)]
  | _ => []
  end.
Definition precheck_enum (e : Ast.Enum) : ErrorCollection :=
  check_duplicates value_key (fun v _ => DuplicateEnumValueError (enum_key e) (value_key v) (value_span v)) (enum_values e).
Definition precheck_model (m : Ast.Model) : ErrorCollection :=
  check_duplicates field_key (fun f _ => DuplicateFieldError (model_key m) (field_key f) (id_span (field_name f))) (model_fields m).
Definition precheck_generator_config (c : GeneratorConfig) : ErrorCollection :=
  check_duplicates arg_key (fun a _ => DuplicateConfigKeyError ("generator configuration " +:+ quoted (id_name (generator_name c)))
                                         (arg_key a) (id_span (arg_name a))) (generator_properties c).
Definition precheck_source_config (c : SourceConfig) : ErrorCollection :=
  check_duplicates arg_key (fun a _ => DuplicateConfigKeyError ("datasource configuration " +:+ quoted (source_key c))
                                         (arg_key a) (id_span (arg_name a))) (source_properties c).
Definition duplicate_top (top existing : Top) : DatamodelError :=
  DuplicateTopError (top_name top) (get_type top) (get_type existing) (id_span (top_identifier top)).
(** The errors found while visiting a top, besides the duplicates. *)
Definition precheck_top (top : Top) : ErrorCollection :=
  assert_is_not_a_reserved_scalar_type (top_identifier top) ++
  match top with
  | TopEnum e => precheck_enum e
  | TopModel m => precheck_model m
  | TopType _ => []
  | TopSource s => precheck_source_config s
  | TopGenerator g => precheck_generator_config g
  end.
Definition is_top_level_type (top : Top) : bool :=
  match top with TopEnum _ | TopModel _ | TopType _ => true | _ => false end.
Definition is_source (top : Top) : bool := match top with TopSource _ => true | _ => false end.
Definition is_generator (top : Top) : bool := match top with TopGenerator _ => true | _ => false end.
(** The three checkers see disjoint kinds of tops, each in order. *)
Definition precheck (datamodel : SchemaAst) : outcome ErrorCollection unit :=
  let errors := tops datamodel ≫= precheck_top in
  let duplicates (kind : Top -> bool) := check_duplicates top_name duplicate_top (iter_filter kind (tops datamodel)) in
  errors_ok (errors ++ duplicates is_top_level_type ++ duplicates is_source ++ duplicates is_generator).

(** ** Validation (validate.rs) *)
Definition STATE_ERROR : string := "Failed lookup of model, field or optional property during internal processing. This means that the internal representation was mutated incorrectly.".
Definition RELATION_DIRECTIVE_NAME : string := "@relation".
(** [RESERVED_MODEL_NAMES] (invalid_model_names.rs). *)
Definition RESERVED_MODEL_NAMES : list string :=
  ["Query"; "Mutation"; "Subscription"; "dmmf"; "PromiseType"; "PromiseReturnType"; "Enumerable";
    "MergeTruthyValues"; "CleanupNever"; "Subset"; "AtLeastOne"; "atMostOne"; "OnlyOne"; "StringFilter"; "IDFilter";
    "FloatFilter"; "IntFilter"; "BooleanFilter"; "DateTimeFilter"; "NullableStringFilter"; "NullableIDFilter";
    "NullableFloatFilter"; "NullableIntFilter"; "NullableBooleanFilter"; "NullableDateTimeFilter";
    "PrismaClientFetcher"; "PrismaClient"; "Engine"; "BatchPayload"; "Datasources"; "ErrorFormat"; "Hooks";
    "LogLevel"; "LogDefinition"; "GetLogType"; "GetEvents"; "QueryEvent"; "LogEvent"; "ModelDelegate";
    "QueryDelegate"; "missingArg"; "ArgError"; "InvalidFieldError"; "InvalidFieldNameError"; "InvalidFieldTypeError";
    "EmptySelectError"; "NoTrueSelectError"; "IncludeAndSelectError"; "EmptyIncludeError"; "InvalidArgError";
    "InvalidArgNameError"; "MissingArgError"; "InvalidArgTypeError"; "AtLeastOneError"; "AtMostOneError";
    "PrismaClientRequestError"; "PrismaClientOptions"; "PrismaClientKnownRequestError";
    "PrismaClientUnknownRequestError"; "PrismaClientInitializationError"; "PrismaClientRustPanicError";
    "PrismaVersion"; "await"; "async"; "break"; "case"; "catch"; "class"; "const"; "continue"; "debugger"; "default";
    "delete"; "do"; "else"; "enum"; "export"; "extends"; "false"; "finally"; "for"; "function"; "if"; "implements";
    "import"; "in"; "instanceof"; "interface"; "let"; "new"; "null"; "package"; "private"; "protected"; "public";
    "return"; "super"; "switch"; "this"; "throw"; "true"; "try"; "typeof"; "var"; "void"; "while"; "with"; "yield"].
Definition str_le (a b : string) : Prop := String.leb a b = true.
#[export] Instance str_le_dec : RelDecision str_le.
Proof. intros a b. unfold str_le. apply _. Defined.
Definition sort_names (l : list string) : list string := merge_sort str_le l.
Definition is_nil {A} (l : list A) : bool := match l with [] => true | _ => false end.
Definition is_some {A} (o : option A) : bool := match o with Some _ => true | None => false end.
Definition arity_is_required (a : FieldArity) : bool := a ≟ RequiredField.

Section validate.
Context `{VT : ValueTypes} `{U : Unicode} (source : option DeclarativeConnector).

(** The name and the directives of one node. *)
Definition validate_named (errors : ErrorCollection) (i : Identifier) (item : string) (ds : list Directive) :
    outcome ErrorCollection ErrorCollection :=
  errors ← push_err errors (Identifier_validate i item);
  es ← validate_directives ds;
  Ok (errors ++ es).
Definition validate_names (ast_schema : SchemaAst) : outcome ErrorCollection unit :=
  errors ← for_each (fun errors model =>
      errors ← validate_named errors (model_name model) "Model" (model_directives model);
      for_each (fun errors field => validate_named errors (field_name field) "Field" (field_directives field))
        (model_fields model) errors)
    (Ast.models ast_schema) [];
  errors ← for_each (fun errors enum_decl =>
      errors ← validate_named errors (enum_name enum_decl) "Enum" (enum_directives enum_decl);
      for_each (fun errors v => validate_named errors (value_name v) "Enum Value" (value_directives v))
        (enum_values enum_decl) errors)
    (Ast.enums ast_schema) errors;
  errors_ok errors.

Definition find_ast_field (ast_model : Ast.Model) (name : string) : option Ast.Field :=
  iter_find (fun f => field_key f ≟ name) (model_fields ast_model).

Definition validate_field_arities (ast_model : Ast.Model) (model : Model) : outcome ErrorCollection unit :=
  let scalar_lists_are_supported := match source with Some c => supports_scalar_lists c | None => false end in
  errors ← for_each (fun errors field =>
      if (f_arity field ≟ ListField) && negb scalar_lists_are_supported && negb (is_relation (f_type field)) then
        ast_field ← unwrap "find" (find_ast_field ast_model (f_name field));
        Ok (errors ++ [ScalarListFieldsAreNotSupported (m_name model) (f_name field) (field_span ast_field)])
      else Ok errors)
    (m_fields model) [];
  errors_ok errors.

Definition validate_field_types (ast_model : Ast.Model) (model : Model) : outcome ErrorCollection unit :=
  let supports_json_type := match source with Some c => supports_json c | None => false end in
  errors ← for_each (fun errors field =>
      ast_field ← unwrap "find" (find_ast_field ast_model (f_name field));
      if (scalar_type (f_type field) ≟ Some ScalarJson) && negb supports_json_type then
        Ok (errors ++ [FieldValidationError ("Field " +:+ ticked (f_name field) +:+ " in model " +:+ ticked (m_name model)
              +:+ " can't be of type Json. The current connector does not support the Json type.")
              (m_name model) (f_name field) (field_span ast_field)])
      else Ok errors)
    (m_fields model) [];
  errors_ok errors.

Definition validate_model_has_id (ast_model : Ast.Model) (model : Model) : outcome DatamodelError unit :=
  let error msg := Err (ModelValidationError msg (m_name model) (model_span ast_model)) in
  let has_single_field_id := is_some (head (singular_id_fields model)) in
  let has_multi_field_id := negb (is_nil (m_id_fields model)) in
  let has_single_field_unique := is_some (iter_find f_is_unique (m_fields model)) in
  let has_multi_field_unique := is_some (iter_find (fun i => ix_tpe i ≟ UniqueIndex) (m_indices model)) in
  if 1 <? length (singular_id_fields model) then
    error "At most one field must be marked as the id field with the `@id` directive."
  else if has_single_field_id && has_multi_field_id then
    error "Each model must have at most one id criteria. You can't have `@id` and `@@id` at the same time."
  else if has_single_field_id || has_multi_field_id || has_single_field_unique || has_multi_field_unique then Ok tt
  else error "Each model must have at least one unique criteria. Either mark a single field with `@id`, `@unique` or add a multi field criterion with `@@id([])` or `@@unique([])` to the model.".

Definition validate_model_name (ast_model : Ast.Model) (model : Model) : outcome DatamodelError unit :=
  if iter_any (fun n => n ≟ m_name model) RESERVED_MODEL_NAMES then
    Err (ModelValidationError ("The model name " +:+ ticked (m_name model) +:+ " is invalid. It is a reserved name. Please change it.")
           (m_name model) (model_span ast_model))
  else Ok tt.

(** [ast_schema.find_field(..).expect(STATE_ERROR).span]. *)
Definition ast_field_span {E} (ast_schema : SchemaAst) (model : Model) (field : Field) : outcome E Span :=
  f ← unwrap STATE_ERROR (Ast.find_field ast_schema (m_name model) (f_name field)); Ok (field_span f).

Definition validate_embedded_types_have_no_back_relation (ast_schema : SchemaAst) (datamodel : Datamodel) (model : Model) :
    outcome DatamodelError unit :=
  if m_is_embedded model then
    for_each (fun _ field =>
        match f_type field with
        | RelationType rel =>
            if f_is_generated field then Ok tt else
            related ← unwrap "find_model" (find_model datamodel (ri_to rel));
            related_field ← unwrap "related_field" (model_related_field related (m_name model) (ri_name rel) (f_name field));
            if is_nil (ri_to_fields rel) && negb (f_is_generated related_field) then
              span ← ast_field_span ast_schema model field;
              Err (ModelValidationError "Embedded models cannot have back relation fields." (m_name model) span)
            else Ok tt
        | _ => Ok tt
        end) (m_fields model) tt
  else Ok tt.

(** The checks on the argument [fields] of one relation field. *)
Definition base_field_errors (model : Model) (field : Field) (rel_info : RelationInfo) (span : Span) : ErrorCollection :=
  let unknown_fields := undefined_fields model (ri_fields rel_info) in
  let relation_fields := referenced_relation_fields model (ri_fields rel_info) in
  let at_least_one_underlying_field_is_required :=
    iter_any (fun f => arity_is_required (f_arity f)) (omap (find_field model) (ri_fields rel_info)) in
  let all_underlying_fields_are_optional :=
    iter_all (fun n => match find_field model n with Some f => arity_is_optional (f_arity f) | None => false end) (ri_fields rel_info)
    && negb (is_nil (ri_fields rel_info)) in
  let uses := "The relation field " +:+ ticked (f_name field) +:+ " uses the scalar fields " +:+ str_join ", " (ri_fields rel_info) in
  (if is_nil unknown_fields then [] else
     [ValidationError ("The argument fields must refer only to existing fields. The following fields do not exist in this model: "
                       +:+ str_join ", " unknown_fields) span]) ++
  (if is_nil relation_fields then [] else
     [ValidationError ("The argument fields must refer only to scalar fields. But it is referencing the following relation fields: "
                       +:+ str_join ", " relation_fields) span]) ++
  (if at_least_one_underlying_field_is_required && negb (arity_is_required (f_arity field)) then
     [ValidationError (uses +:+ ". At least one of those fields is required. Hence the relation field must be required as well.") span]
   else []) ++
  (if all_underlying_fields_are_optional && arity_is_required (f_arity field) then
     [ValidationError (uses +:+ ". All those fields are optional. Hence the relation field must be optional as well.") span]
   else []).
Definition validate_base_fields_for_relation (ast_model : Ast.Model) (model : Model) : outcome ErrorCollection unit :=
  errors ← for_each (fun errors field =>
      ast_field ← unwrap "find" (find_ast_field ast_model (f_name field));
      match f_type field with
      | RelationType rel_info => Ok (errors ++ base_field_errors model field rel_info (field_span ast_field))
      | _ => Ok errors
      end) (m_fields model) [];
  errors_ok errors.

(** The checks on the argument [references] of one relation field, with the errors so far. *)
Definition wrong_type_error (model related_model : Model) (span : Span) (names : string * string) : option DatamodelError :=
  base_field ← find_field model names.1;
  referenced_field ← find_field related_model names.2;
  if is_compatible_with (f_type base_field) (f_type referenced_field) then None
  else Some (DirectiveValidationError
    ("The type of the field " +:+ ticked (f_name base_field) +:+ " in the model " +:+ ticked (m_name model)
     +:+ " is not matching the type of the referenced field " +:+ ticked (f_name referenced_field) +:+ " in model "
     +:+ ticked (m_name related_model) +:+ ".") RELATION_DIRECTIVE_NAME span).
Definition references_unique_criteria {E} (related_model : Model) (to_fields : list string) : outcome E bool :=
  criterias ← loose_unique_criterias related_model;
  Ok (iter_any (fun criteria => sort_names (f_name <$> criteria) ≟ sort_names to_fields) criterias).
Definition references_singular_id_field {E} (related_model : Model) (to_fields : list string) : outcome E bool :=
  match to_fields with
  | [field_name] => f ← unwrap "find_field" (find_field related_model field_name); Ok (f_is_id f)
  | _ => Ok false
  end.
Definition is_many_to_many (model related_model : Model) (field : Field) (rel_info : RelationInfo) : bool :=
  match model_related_field related_model (m_name model) (ri_name rel_info) (f_name field) with
  | Some related_field => arity_is_list (f_arity field) && arity_is_list (f_arity related_field)
  | None => false
  end.
Definition criteria_errors (model related_model : Model) (field : Field) (rel_info : RelationInfo) (span : Span) :
    outcome ErrorCollection ErrorCollection :=
  unique_criteria ← references_unique_criteria related_model (ri_to_fields rel_info);
  singular_id ← references_singular_id_field related_model (ri_to_fields rel_info);
  let must_reference_unique_criteria :=
    match source with Some c => negb (supports_relations_over_non_unique_criteria c) | None => true end in
  Ok ((if negb unique_criteria && must_reference_unique_criteria then
         [ValidationError ("The argument `references` must refer to a unique criteria in the related model "
            +:+ ticked (m_name related_model) +:+ ". But it is referencing the following fields that are not a unique criteria: "
            +:+ str_join ", " (ri_to_fields rel_info)) span] else []) ++
      (if is_many_to_many model related_model field rel_info && negb singular_id then
         [ValidationError ("Many to many relations must always reference the id field of the related model. Change the argument `references` to use the id field of the related model "
            +:+ ticked (m_name related_model) +:+ ". But it is referencing the following fields that are not the id: "
            +:+ str_join ", " (ri_to_fields rel_info)) span] else [])).
Definition referenced_field_errors (datamodel : Datamodel) (model : Model) (field : Field) (rel_info : RelationInfo) (span : Span)
    (errors : ErrorCollection) : outcome ErrorCollection ErrorCollection :=
  related_model ← unwrap STATE_ERROR (find_model datamodel (ri_to rel_info));
  let unknown_fields := undefined_fields related_model (ri_to_fields rel_info) in
  let relation_fields := referenced_relation_fields related_model (ri_to_fields rel_info) in
  let fields_with_wrong_type :=
    omap (wrong_type_error model related_model span) (zip (ri_fields rel_info) (ri_to_fields rel_info)) in
  let errors := errors ++
    (if is_nil unknown_fields then [] else
       [ValidationError ("The argument `references` must refer only to existing fields in the related model "
          +:+ ticked (m_name related_model) +:+ ". The following fields do not exist in the related model: "
          +:+ str_join ", " unknown_fields) span]) ++
    (if is_nil relation_fields then [] else
       [ValidationError ("The argument `references` must refer only to scalar fields in the related model "
          +:+ ticked (m_name related_model) +:+ ". But it is referencing the following relation fields: "
          +:+ str_join ", " relation_fields) span]) in
  errors ← (if negb (is_nil (ri_to_fields rel_info)) && negb (has_errors errors)
            then es ← criteria_errors model related_model field rel_info span; Ok (errors ++ es)
            else Ok errors);
  let errors := errors ++
    (if negb (is_nil (ri_fields rel_info)) && negb (is_nil (ri_to_fields rel_info))
        && negb (length (ri_fields rel_info) ≟ length (ri_to_fields rel_info)) then
       [DirectiveValidationError "You must specify the same number of fields in `fields` and `references`." RELATION_DIRECTIVE_NAME span]
     else []) in
  Ok (if has_errors errors then errors else errors ++ fields_with_wrong_type).
Definition validate_referenced_fields_for_relation (datamodel : Datamodel) (ast_model : Ast.Model) (model : Model) :
    outcome ErrorCollection unit :=
  errors ← for_each (fun errors field =>
      ast_field ← unwrap "find" (find_ast_field ast_model (f_name field));
      match f_type field with
      | RelationType rel_info => referenced_field_errors datamodel model field rel_info (field_span ast_field) errors
      | _ => Ok errors
      end) (m_fields model) [];
  errors_ok errors.

(** ** Ambiguous relations *)
Definition both_in (a b : Field) (model : Model) : string :=
  "The fields " +:+ ticked (f_name a) +:+ " and " +:+ ticked (f_name b) +:+ " in model " +:+ ticked (m_name model).
Definition three_in (a b c : Field) (model : Model) : string :=
  "The fields " +:+ ticked (f_name a) +:+ ", " +:+ ticked (f_name b) +:+ " and " +:+ ticked (f_name c) +:+ " in model " +:+ ticked (m_name model).
Definition ambiguity_error (ast_schema : SchemaAst) (model : Model) (field_a : Field) (msg : string) : outcome DatamodelError unit :=
  span ← ast_field_span ast_schema model field_a;
  Err (ModelValidationError msg (m_name model) span).
(** A third field of a self relation. *)
Definition self_ambiguity (ast_schema : SchemaAst) (model : Model) (a b : Field) (rel_a rel_b : RelationInfo) (c : Field) :
    outcome DatamodelError unit :=
  if negb (Field_eqb a c) && negb (Field_eqb b c) then
    match f_type c with
    | RelationType rel_c =>
        if (ri_to rel_c ≟ m_name model) && (ri_name rel_a ≟ ri_name rel_b) && (ri_name rel_a ≟ ri_name rel_c) then
          if ri_name rel_a ≟ "" then
            ambiguity_error ast_schema model a ("Unnamed self relation detected. " +:+ three_in a b c model
              +:+ " have no relation name. Please provide a relation name for one of them by adding `@relation(<name>).")
          else
            ambiguity_error ast_schema model a ("Wrongly named self relation detected. " +:+ three_in a b c model
              +:+ " have the same relation name. At most two relation fields can belong to the same relation and therefore have the same name. Please assign a different relation name to one of them.")
        else Ok tt
    | _ => Ok tt
    end
  else Ok tt.
Definition pair_ambiguity (ast_schema : SchemaAst) (model : Model) (a b : Field) : outcome DatamodelError unit :=
  if Field_eqb a b then Ok tt else
  match f_type a, f_type b with
  | RelationType rel_a, RelationType rel_b =>
      if negb (ri_to rel_a ≟ m_name model) && negb (ri_to rel_b ≟ m_name model) then
        if (ri_to rel_a ≟ ri_to rel_b) && (ri_name rel_a ≟ ri_name rel_b) then
          if ri_name rel_a ≟ "" then
            ambiguity_error ast_schema model a ("Ambiguous relation detected. " +:+ both_in a b model +:+ " both refer to "
              +:+ ticked (ri_to rel_a) +:+ ". Please provide different relation names for them by adding `@relation(<name>).")
          else
            ambiguity_error ast_schema model a ("Wrongly named relation detected. " +:+ both_in a b model
              +:+ " both use the same relation name. Please provide different relation names for them through `@relation(<name>).")
        else Ok tt
      else if (ri_to rel_a ≟ m_name model) && (ri_to rel_b ≟ m_name model) then
        _ ← for_each (fun _ c => self_ambiguity ast_schema model a b rel_a rel_b c) (m_fields model) tt;
        if (ri_name rel_a ≟ "") && (ri_name rel_b ≟ "") then
          ambiguity_error ast_schema model a ("Ambiguous self relation detected. " +:+ both_in a b model +:+ " both refer to "
            +:+ ticked (ri_to rel_a) +:+ ". If they are part of the same relation add the same relation name for them with `@relation(<name>)`.")
        else Ok tt
      else Ok tt
  | _, _ => Ok tt
  end.
Definition validate_relations_not_ambiguous (ast_schema : SchemaAst) (model : Model) : outcome DatamodelError unit :=
  for_each (fun _ a => for_each (fun _ b => pair_ambiguity ast_schema model a b) (m_fields model) tt) (m_fields model) tt.

(** ** [validate] *)
Definition validate_model (ast_schema : SchemaAst) (schema : Datamodel) (all_errors : ErrorCollection) (model : Model) :
    outcome ErrorCollection ErrorCollection :=
  ast_model ← unwrap STATE_ERROR (Ast.find_model ast_schema (m_name model));
  errors ← push_err [] (validate_model_has_id ast_model model);
  errors ← push_err errors (validate_model_name ast_model model);
  errors ← push_err errors (validate_relations_not_ambiguous ast_schema model);
  errors ← push_err errors (validate_embedded_types_have_no_back_relation ast_schema schema model);
  errors ← append_err errors (validate_field_arities ast_model model);
  errors ← append_err errors (validate_field_types ast_model model);
  errors ← append_err errors (validate_base_fields_for_relation ast_model model);
  errors ← append_err errors (validate_referenced_fields_for_relation schema ast_model model);
  Ok (all_errors ++ errors).
Definition validate (ast_schema : SchemaAst) (schema : Datamodel) : outcome ErrorCollection unit :=
  all_errors ← append_err [] (validate_names ast_schema);
  all_errors ← for_each (validate_model ast_schema schema) (dm_models schema) all_errors;
  errors_ok all_errors.

(** ** [post_standardisation_validate] *)
Definition on_model (field : Field) (model : Model) : string := ticked (f_name field) +:+ " on Model " +:+ ticked (m_name model).
Definition relation_directive_error (span : Span) (msg : string) : DatamodelError :=
  DirectiveValidationError msg RELATION_DIRECTIVE_NAME span.
Definition one_to_many_errors (model : Model) (field : Field) (rel_info : RelationInfo) (span : Span) : ErrorCollection :=
  (if is_nil (ri_fields rel_info) then
     [relation_directive_error span ("The relation field " +:+ on_model field model +:+ " must specify the `fields` argument in the "
        +:+ RELATION_DIRECTIVE_NAME +:+ " directive.")] else []) ++
  (if is_nil (ri_to_fields rel_info) then
     [relation_directive_error span ("The relation field " +:+ on_model field model +:+ " must specify the `references` argument in the "
        +:+ RELATION_DIRECTIVE_NAME +:+ " directive.")] else []).
Definition many_to_one_errors (model related_model : Model) (field related_field : Field) (rel_info : RelationInfo) (span : Span) :
    ErrorCollection :=
  if negb (is_nil (ri_fields rel_info)) || negb (is_nil (ri_to_fields rel_info)) then
    [relation_directive_error span ("The relation field " +:+ on_model field model
       +:+ " must not specify the `fields` or `references` argument in the " +:+ RELATION_DIRECTIVE_NAME
       +:+ " directive. You must only specify it on the opposite field " +:+ ticked (f_name related_field) +:+ " on model "
       +:+ ticked (m_name related_model) +:+ ".")] else [].
Definition one_to_one_errors (model related_model : Model) (field related_field : Field) (rel_info related_info : RelationInfo)
    (span : Span) (errors : ErrorCollection) : ErrorCollection :=
  let fields := "The relation fields " +:+ on_model field model +:+ " and " +:+ on_model related_field related_model in
  let missing arg := relation_directive_error span (fields +:+ " do not provide the " +:+ ticked arg +:+ " argument in the "
    +:+ RELATION_DIRECTIVE_NAME +:+ " directive. You have to provide it on one of the two fields.") in
  let twice arg := relation_directive_error span (fields +:+ " both provide the " +:+ ticked arg +:+ " argument in the "
    +:+ RELATION_DIRECTIVE_NAME +:+ " directive. You have to provide it only on one of the two fields.") in
  let errors := errors ++
    (if is_nil (ri_fields rel_info) && is_nil (ri_fields related_info) then [missing "fields"] else []) ++
    (if is_nil (ri_to_fields rel_info) && is_nil (ri_to_fields related_info) then [missing "references"] else []) ++
    (if negb (is_nil (ri_to_fields rel_info)) && negb (is_nil (ri_to_fields related_info)) then [twice "references"] else []) ++
    (if negb (is_nil (ri_fields rel_info)) && negb (is_nil (ri_fields related_info)) then [twice "fields"] else []) in
  let split here there := relation_directive_error span ("The relation field " +:+ on_model field model +:+ " provides the "
    +:+ ticked here +:+ " argument in the " +:+ RELATION_DIRECTIVE_NAME +:+ " directive. And the related field "
    +:+ on_model related_field related_model +:+ " provides the " +:+ ticked there
    +:+ " argument. You must provide both arguments on the same side.") in
  if has_errors errors then errors else
  errors ++
    (if negb (is_nil (ri_fields rel_info)) && negb (is_nil (ri_to_fields related_info)) then [split "fields" "references"] else []) ++
    (if negb (is_nil (ri_to_fields rel_info)) && negb (is_nil (ri_fields related_info)) then [split "references" "fields"] else []).
(** One relation field, with the errors of the fields before it. *)
Definition relation_argument_errors (datamodel : Datamodel) (model : Model) (field : Field) (rel_info : RelationInfo) (span : Span)
    (errors : ErrorCollection) : outcome ErrorCollection ErrorCollection :=
  related_model ← unwrap STATE_ERROR (find_model datamodel (ri_to rel_info));
  related_field ← unwrap "related_field" (model_related_field related_model (m_name model) (ri_name rel_info) (f_name field));
  related_info ← match f_type related_field with RelationType x => Ok x | _ => Panic "unreachable" end;
  let here := f_arity field in
  let there := f_arity related_field in
  let errors := errors ++
    (if is_singular here && arity_is_list there then one_to_many_errors model field rel_info span else []) ++
    (if arity_is_list here && is_singular there then many_to_one_errors model related_model field related_field rel_info span else []) ++
    (if (m_name model ≟ m_name related_model) && arity_is_required here && arity_is_required there then
       [FieldValidationError ("The relation fields " +:+ ticked (f_name field) +:+ " and " +:+ on_model related_field model
          +:+ " are both required. This is not allowed for a self relation because it would not be possible to create a record.")
          (m_name model) (f_name field) span] else []) in
  let errors :=
    if is_singular here && is_singular there
    then one_to_one_errors model related_model field related_field rel_info related_info span errors else errors in
  Ok (errors ++
    (if arity_is_list here && arity_is_list there && negb (has_single_id_field related_model) then
       [FieldValidationError ("The relation field " +:+ on_model field model +:+ " references " +:+ ticked (m_name related_model)
          +:+ " which does not have an `@id` field. Models without `@id` can not be part of a many to many relation. Use an explicit intermediate Model to represent this relationship.")
          (m_name model) (f_name field) span] else [])).
Definition validate_relation_arguments_bla (datamodel : Datamodel) (ast_model : Ast.Model) (model : Model) :
    outcome ErrorCollection ErrorCollection :=
  for_each (fun errors field =>
      let span := default Span_empty (field_span <$> find_ast_field ast_model (f_name field)) in
      match f_type field with
      | RelationType rel_info => relation_argument_errors datamodel model field rel_info span errors
      | _ => Ok errors
      end) (m_fields model) [].
Definition post_standardisation_validate (ast_schema : SchemaAst) (schema : Datamodel) : outcome ErrorCollection unit :=
  all_errors ← for_each (fun all_errors model =>
      ast_model ← unwrap STATE_ERROR (Ast.find_model ast_schema (m_name model));
      new_errors ← validate_relation_arguments_bla schema ast_model model;
      Ok (all_errors ++ new_errors)) (dm_models schema) [];
  errors_ok all_errors.
End validate.
