(* ===== verification/PrecheckFacts.v ===== *)
(** * What the prechecks and the resolution of types guarantee

    The prechecks pass exactly when names are distinct where they must be and
    none is reserved; the resolution of type aliases always answers. *)
From S2P Require Import Prelude Ast Effects SqlSchema Dml DmValues Directives Lift Validate.

(** ** Duplicates *)
Lemma check_duplicates_spec {A} (name : A -> string) error_fn (l seen : list A) (es : ErrorCollection) :
  NoDup (name <$> seen) ->
  ((foldl (check_if_duplicate_exists name error_fn) (seen, es) l).2 = []) <-> es = [] /\ NoDup (name <$> (seen ++ l)).
Proof.
  revert seen es. induction l as [|x l IH]; intros seen es Hs; cbn.
  { rewrite app_nil_r. naive_solver. }
  unfold check_if_duplicate_exists at 2; cbn. destruct (iter_find _ seen) as [y|] eqn:Ef.
  - rewrite IH by done. split; [intros [He _]; by destruct es|]. intros [_ Hnd].
    apply iter_find_Some in Ef as [Hy Heq]. apply bool_decide_eq_true in Heq. rewrite fmap_app, fmap_cons in Hnd.
    apply NoDup_app in Hnd as (_ & Hd & _). destruct (Hd (name x)); [|by constructor]. rewrite <-Heq. by apply list_elem_of_fmap_2.
  - rewrite iter_find_None in Ef. rewrite IH.
    { by rewrite <-(assoc_L app). }
    rewrite fmap_app. apply NoDup_app. split_and!; [done| |by apply NoDup_singleton].
    intros n (y & -> & Hy)%list_elem_of_fmap Hn. apply list_elem_of_singleton in Hn. specialize (Ef y Hy). by rewrite Hn, bool_decide_eq_true_2 in Ef.
Qed.
Lemma check_duplicates_nil {A} (name : A -> string) error_fn l : check_duplicates name error_fn l = [] <-> NoDup (name <$> l).
Proof. unfold check_duplicates. rewrite check_duplicates_spec by constructor. naive_solver. Qed.

(** ** The prechecks *)
(** The parts of a top whose names must differ. *)
Definition part_names (top : Top) : list string :=
  match top with
  | TopEnum e => value_key <$> enum_values e
  | TopModel m => field_key <$> model_fields m
  | TopType _ => []
  | TopSource s => arg_key <$> source_properties s
  | TopGenerator g => arg_key <$> generator_properties g
  end.
Definition reserved_name (n : string) : Prop := exists t, n = ScalarType_to_string t.
Lemma reserved_from_str n : reserved_name n <-> exists t, ScalarType_from_str n = Ok t.
Proof.
  split.
  - intros [t ->]. exists t. by destruct t.
  - intros [t Ht]. exists t. unfold ScalarType_from_str in Ht.
    repeat match type of Ht with (if ?b then _ else _) = _ => destruct b eqn:E; [apply bool_decide_eq_true in E; by injection Ht as <-|clear E] end.
    discriminate Ht.
Qed.
Lemma assert_not_reserved i : assert_is_not_a_reserved_scalar_type i = [] <-> ~ reserved_name (id_name i).
Proof.
  unfold assert_is_not_a_reserved_scalar_type. rewrite reserved_from_str. destruct (ScalarType_from_str _) as [t|e|p]; naive_solver.
Qed.
Lemma top_name_identifier top : top_name top = id_name (top_identifier top).
Proof. by destruct top. Qed.
Lemma app_nil_iff {A} (a b : list A) : a ++ b = [] <-> a = [] /\ b = [].
Proof. destruct a, b; naive_solver. Qed.
Lemma precheck_top_nil top : precheck_top top = [] <-> ~ reserved_name (top_name top) /\ NoDup (part_names top).
Proof.
  unfold precheck_top. rewrite top_name_identifier, <-assert_not_reserved, app_nil_iff. apply and_iff_compat_l.
  destruct top; cbn [part_names]; unfold precheck_enum, precheck_model, precheck_source_config, precheck_generator_config;
    rewrite ?check_duplicates_nil; [done..|]. split; [constructor|done].
Qed.
Lemma bind_nil_iff {A B} (f : A -> list B) l : l ≫= f = [] <-> forall x, x ∈ l -> f x = [].
Proof.
  induction l as [|x l IH]; [split; [intros _ y Hy; by apply elem_of_nil in Hy|done]|]. rewrite bind_cons, app_nil_iff, IH.
  split; [intros [Hx Hl] y [->|Hy]%elem_of_cons; auto|]. intros Hf. split; [|intros y Hy]; apply Hf; by constructor.
Qed.
Lemma precheck_Ok ast : precheck ast = Ok tt <->
  (forall top, top ∈ tops ast -> ~ reserved_name (top_name top) /\ NoDup (part_names top)) /\
  NoDup (top_name <$> iter_filter is_top_level_type (tops ast)) /\ NoDup (top_name <$> iter_filter is_source (tops ast)) /\
  NoDup (top_name <$> iter_filter is_generator (tops ast)).
Proof.
  unfold precheck. rewrite errors_ok_Ok, !app_nil_iff, !check_duplicates_nil, bind_nil_iff. apply and_iff_compat_r.
  split; intros Ht top Htop; apply precheck_top_nil, Ht, Htop.
Qed.

(** ** Type aliases *)
Section aliases.
Context `{VT : ValueTypes}.
Lemma find_alias_elem ast n t : find_type_alias ast n = Some t -> t ∈ types ast /\ field_key t = n.
Proof. intros [Ht Hk]%iter_find_Some. split; [done|]. by apply bool_decide_eq_true in Hk. Qed.
(** The names of the aliases that were not met yet. *)
Definition unmet (ast : SchemaAst) (checked : list string) : list string :=
  filter (fun n => n ∉ checked) (remove_dups (field_key <$> types ast)).
Lemma unmet_step ast checked n : n ∈ field_key <$> types ast -> n ∉ checked ->
  length (unmet ast (checked ++ [n])) < length (unmet ast checked).
Proof.
  intros Hn Hc. unfold unmet. rewrite <-elem_of_remove_dups in Hn. apply list_elem_of_split in Hn as (l1 & l2 & Hl). rewrite Hl.
  assert (Hle : forall l, length (filter (fun x => x ∉ checked ++ [n]) l) <= length (filter (fun x => x ∉ checked) l)).
  { induction l as [|x l IH]; [done|]. rewrite !filter_cons. repeat case_decide; cbn; set_solver by lia. }
  rewrite !filter_app, !filter_cons, !length_app.
  rewrite decide_False by set_solver. rewrite (decide_True (P := n ∉ checked)) by done. cbn.
  pose proof (Hle l1). pose proof (Hle l2). lia.
Qed.
Lemma unmet_le ast : length (unmet ast []) <= length (types ast).
Proof.
  unfold unmet. etransitivity; [apply length_filter|]. rewrite <-(length_fmap field_key (types ast)).
  induction (field_key <$> types ast) as [|x l IH]; cbn; [done|]. case_decide; cbn; lia.
Qed.
(** With more fuel than there are aliases left, the answer does not depend on the fuel. *)
Definition answers {A} (f : nat -> outcome DatamodelError A) (n : nat) (r : outcome DatamodelError A) : Prop :=
  (forall fuel, n <= fuel -> f fuel = r) /\ forall p, r <> Panic p.
Lemma lift_field_type_answers ast checked f custom : exists r,
  answers (fun fuel => lift_field_type fuel ast f custom checked) (S (length (unmet ast checked))) r.
Proof.
  remember (length (unmet ast checked)) as k eqn:Hk. revert checked Hk f custom.
  induction (lt_wf k) as [k _ IH]. intros checked -> f custom. unfold answers.
  destruct (ScalarType_from_str (id_name (field_type f))) as [t|e|p] eqn:Es.
  { eexists. split; [intros [|fuel]; [lia|]; intros _; cbn; rewrite Es; reflexivity|done]. }
  2: { exfalso. unfold ScalarType_from_str in Es. repeat case_match; done. }
  destruct (Ast.find_model ast (id_name (field_type f))) as [m|] eqn:Em.
  { eexists. split; [intros [|fuel]; [lia|]; intros _; cbn; rewrite Es, Em; reflexivity|done]. }
  destruct (Ast.find_enum ast (id_name (field_type f))) as [en|] eqn:Ee.
  { eexists. split; [intros [|fuel]; [lia|]; intros _; cbn; rewrite Es, Em, Ee; reflexivity|done]. }
  assert (Hstep : exists r, (forall fuel, length (unmet ast checked) <= fuel ->
            resolve_custom_type (lift_field_type fuel ast) ast f checked = r) /\ forall p, r <> Panic p).
  { unfold resolve_custom_type. destruct (iter_any _ checked) eqn:Ec; [by eexists|].
    destruct (find_type_alias ast _) as [t|] eqn:Et; [|by eexists].
    pose proof (find_alias_elem _ _ _ Et) as [Ht Hkey].
    assert (Hnc : field_key t ∉ checked).
    { intros Hin. apply not_true_iff_false in Ec. apply Ec, existsb_exists. exists (field_key t).
      split; [by apply list_elem_of_In|]. by apply bool_decide_eq_true_2. }
    pose proof (unmet_step ast checked (field_key t) (list_elem_of_fmap_2 _ _ _ Ht) Hnc) as Hlt.
    destruct (IH _ Hlt _ eq_refl t (Some (id_name (field_type f)))) as (r & Hr & Hp).
    eexists. split.
    - intros fuel Hfuel. rewrite (Hr fuel) by lia. reflexivity.
    - intros p. destruct r as [[[] ?]| |]; cbn; try done. }
  destruct Hstep as (r & Hr & Hp). exists r. split; [|done]. intros [|fuel] Hfuel; [lia|]. cbn. rewrite Es, Em, Ee. apply Hr. lia.
Qed.
(** The meaning of a type name: [k] aliases lead to a scalar type, an enum or, when [k = 0], to a model. The directives are those of
    the aliases, the innermost first, and the type remembers the last alias but one as its custom name. *)
Definition is_plain (ast : SchemaAst) (n : string) : Prop :=
  (exists s, ScalarType_from_str n = Ok s) \/ is_Some (Ast.find_model ast n) \/ is_Some (Ast.find_enum ast n).
Inductive resolves (ast : SchemaAst) : nat -> string -> option string -> FieldType -> list Directive -> Prop :=
  | resolves_scalar n c s : ScalarType_from_str n = Ok s -> resolves ast 0 n c (Base s c) []
  | resolves_model n c m : (forall s, ScalarType_from_str n <> Ok s) -> Ast.find_model ast n = Some m ->
      resolves ast 0 n c (RelationType (RelationInfo_new n)) []
  | resolves_enum n c e : (forall s, ScalarType_from_str n <> Ok s) -> Ast.find_model ast n = None -> Ast.find_enum ast n = Some e ->
      resolves ast 0 n c (EnumType n) []
  | resolves_alias k n c t ty ds : ~ is_plain ast n -> find_type_alias ast n = Some t ->
      resolves ast k (id_name (field_type t)) (Some n) ty ds -> is_relation ty = false ->
      resolves ast (S k) n c ty (ds ++ field_directives t).
Lemma resolves_depth ast k n c ty ds k' c' ty' ds' : resolves ast k n c ty ds -> resolves ast k' n c' ty' ds' -> k = k'.
Proof.
  intros H. revert k' c' ty' ds'.
  induction H as [n c s Hs|n c m Hs Hm|n c e Hs Hm He|k n c t ty ds Hp Ht _ IH Hr]; intros k' c' ty' ds' H'; destruct H'; try done;
    try (by destruct Hp; unfold is_plain; eauto 6); try (by match goal with Hp : ~ is_plain _ _ |- _ => destruct Hp; unfold is_plain; eauto 6 end).
  simplify_eq. f_equal. by eapply IH.
Qed.
Lemma plain_type fuel ast f c checked : is_plain ast (id_name (field_type f)) ->
  exists ty, lift_field_type (S fuel) ast f c checked = Ok (ty, []) /\ resolves ast 0 (id_name (field_type f)) c ty [].
Proof.
  intros Hp. cbn. destruct (ScalarType_from_str _) as [s|e|p] eqn:Es; [eexists; split; [done|by constructor]| |].
  2: { exfalso. unfold ScalarType_from_str in Es. repeat case_match; done. }
  destruct (Ast.find_model _ _) as [m|] eqn:Em; [eexists; split; [done|]; eapply resolves_model; [by rewrite Es|done]|].
  destruct (Ast.find_enum _ _) as [en|] eqn:Ee; [eexists; split; [done|]; eapply resolves_enum; [by rewrite Es|done..]|].
  exfalso. destruct Hp as [[s Hs]|[[? Hs]|[? Hs]]]; congruence.
Qed.
Lemma custom_type fuel ast f c checked : ~ is_plain ast (id_name (field_type f)) ->
  lift_field_type (S fuel) ast f c checked = resolve_custom_type (lift_field_type fuel ast) ast f checked.
Proof.
  intros Hp. unfold is_plain in Hp. cbn. destruct (ScalarType_from_str _) as [s|e|p] eqn:Es; [destruct Hp; eauto|..];
    (destruct (Ast.find_model _ _) as [m|] eqn:Em; [destruct Hp; eauto|]); (destruct (Ast.find_enum _ _) as [en|] eqn:Ee; [destruct Hp; eauto|]); done.
Qed.
#[local] Instance is_plain_dec ast n : Decision (is_plain ast n).
Proof.
  unfold is_plain. destruct (ScalarType_from_str n) as [s|e|p]; [left; eauto|..];
    (destruct (Ast.find_model ast n); [left; eauto|]; destruct (Ast.find_enum ast n); [left; eauto|]; right; by intros [[? ?]|[[? ?]|[? ?]]]).
Defined.
Lemma lift_type_sound ast fuel f c checked ty ds : lift_field_type fuel ast f c checked = Ok (ty, ds) ->
  exists k, resolves ast k (id_name (field_type f)) c ty ds.
Proof.
  revert f c checked ty ds. induction fuel as [|fuel IH]; intros f c checked ty ds; [done|].
  destruct (decide (is_plain ast (id_name (field_type f)))) as [Hp|Hp].
  - destruct (plain_type fuel ast f c checked Hp) as (ty' & -> & Hr). intros [= <- <-]. eauto.
  - rewrite custom_type by done. unfold resolve_custom_type. destruct (iter_any _ _); [done|].
    destruct (find_type_alias ast _) as [t|] eqn:Et; [|done].
    destruct (lift_field_type fuel ast t _ _) as [[ty' ds']| |] eqn:El; [cbn|done..]. apply IH in El as [k Hk].
    destruct ty'; intros [= <- <-]; exists (S k); by eapply resolves_alias.
Qed.
Lemma lift_type_complete ast k n c ty ds : resolves ast k n c ty ds -> forall fuel f checked, id_name (field_type f) = n ->
  (forall x, x ∈ checked -> exists k' c' ty' ds', resolves ast k' x c' ty' ds' /\ k < k') -> k < fuel ->
  lift_field_type fuel ast f c checked = Ok (ty, ds).
Proof.
  induction 1 as [n c s Hs|n c m Hs Hm|n c e Hs Hm He|k n c t ty ds Hp Ht Hr IH Hrel]; intros [|fuel] f checked Hn Hc Hk; try lia.
  1-3: cbn; rewrite Hn; try destruct (ScalarType_from_str n) as [s'|e'|p'] eqn:Es; try (by destruct (Hs s')); by simplify_eq/=; rewrite ?Hm, ?He.
  rewrite custom_type by (by rewrite Hn). unfold resolve_custom_type. rewrite Hn, Ht. destruct (iter_any _ _) eqn:Ea.
  - exfalso. apply existsb_exists in Ea as (x & Hx%list_elem_of_In & ->%bool_decide_eq_true).
    destruct (Hc _ Hx) as (k' & c' & ty' & ds' & H' & Hlt). assert (S k = k'); [|lia].
    eapply resolves_depth; [|exact H']. by eapply (resolves_alias ast k n c).
  - apply find_alias_elem in Ht as Hkey. destruct Hkey as [_ Hkey].
    rewrite (IH fuel t (checked ++ [field_key t]) eq_refl); [by destruct ty| |lia].
    intros x [Hx|Hx%list_elem_of_singleton]%elem_of_app.
    + destruct (Hc x Hx) as (k' & c' & ty' & ds' & H' & Hlt). exists k', c', ty', ds'. split; [done|lia].
    + exists (S k), c, ty, (ds ++ field_directives t). split; [|lia]. rewrite Hx, Hkey. by econstructor.
Qed.
Lemma lift_type_fuel ast f c extra : lift_field_type (type_fuel ast + extra) ast f c [] = lift_field_type (type_fuel ast) ast f c [] /\
  forall p, lift_field_type (type_fuel ast) ast f c [] <> Panic p.
Proof.
  destruct (lift_field_type_answers ast [] f c) as (r & Hr & Hp). pose proof (unmet_le ast). unfold type_fuel.
  rewrite !Hr by lia. done.
Qed.
End aliases.

(** ** Theorems *)

(** C15: The resolution of a field's type ends: with as many nested calls as there are type aliases, and one more, it gives the result that it gives with any larger number, never a panic. It succeeds exactly when the type name leads through type aliases to a scalar type, an enum or directly to a model, and then gives that type with the directives of the aliases; circular and unknown aliases are errors. *)
Theorem alias_resolution_decides `{VT : ValueTypes} (ast : SchemaAst) (f : Ast.Field) (extra : nat) :
  lift_field_type (type_fuel ast + extra) ast f None [] = lift_field_type (type_fuel ast) ast f None [] /\
  (forall p, lift_field_type (type_fuel ast) ast f None [] <> Panic p) /\
  forall ty ds, lift_field_type (type_fuel ast) ast f None [] = Ok (ty, ds) <-> exists k, resolves ast k (id_name (field_type f)) None ty ds.
Proof.
  pose proof (lift_type_fuel ast f None) as Hf. split_and!; [apply Hf..|apply (Hf 0)|]. intros ty ds. split; [apply lift_type_sound|].
  intros [k Hk]. rewrite <-(proj1 (Hf (S k))). eapply lift_type_complete; [done..| |lia]. by intros x Hx%elem_of_nil.
Qed.

(** C16: The prechecks pass exactly when no name of a top level item is the name of a scalar type, the names of models, enums and type aliases are distinct, so are those of datasources and of generators, and the fields, values and properties within one item have distinct names. *)
Theorem precheck_accepts_distinct (ast : SchemaAst) : precheck ast = Ok tt <->
  (forall top, top ∈ tops ast -> ~ reserved_name (top_name top) /\ NoDup (part_names top)) /\
  NoDup (top_name <$> iter_filter is_top_level_type (tops ast)) /\ NoDup (top_name <$> iter_filter is_source (tops ast)) /\
  NoDup (top_name <$> iter_filter is_generator (tops ast)).
Proof. apply precheck_Ok. Qed.
