(* ===== verification/LiftFacts.v ===== *)
(** * What lifting guarantees

    The lifted models follow the syntax tree in order and with the same names;
    the types of fields refer to what exists, ids and unique fields are scalar,
    and the fields of ids and indexes are scalar fields of the model. *)
From S2P Require Import Prelude Ast Effects SqlSchema Dml CalcFacts DmValues Directives Lift Validate PrecheckFacts.

(** ** Computations with state *)
Lemma eff_bind_inv {S E A B} (m : eff S E A) (f : A -> eff S E B) s b s' :
  (m ≫= f) s = (Ok b, s') -> exists a s1, m s = (Ok a, s1) /\ f a s1 = (Ok b, s').
Proof. unfold mbind, eff_bind. destruct (m s) as [[a|e|p] s1]; [eauto|done|done]. Qed.
(** ** Lists of directives *)
Lemma append_err_nil {F} errors r : append_err (F := F) errors r = Ok [] -> errors = [].
Proof. intros [[_ <-]|(es & _ & He)]%append_err_Ok; [done|]. symmetry in He. by apply app_nil_iff in He as [-> _]. Qed.
Section lists.
Context `{VT : ValueTypes} {T : Type}.
(** A directive that leaves no error was applied, or has no name. *)
Lemma apply_directive_nil (known : DirectiveListValidator T) ds s d t' : apply_directive known ds s d = Ok ([], t') ->
  s.1 = [] /\ (s.2 = t' \/ exists v args args', v ∈ known /\ validate_and_apply v (args, s.2) = (Ok tt, (args', t'))).
Proof.
  destruct s as [es t]. unfold apply_directive. destruct (known_directive known (dir_key d)) as [v|] eqn:Ev.
  2: { intros [= He <-]. split; [|by left]. case_bool; [done|]. by destruct es. }
  apply iter_find_Some in Ev as [Hv _]. set (es1 := if _ && _ then _ else _).
  assert (Hmono : es1 = [] -> es = []) by (unfold es1; destruct (_ && _); [by destruct es|done]). clearbody es1.
  destruct (append_err es1 _) as [es2| |] eqn:E1; [cbn [mbind outcome_bind]|done..].
  destruct (append_err es2 _) as [es3| |] eqn:E2; [cbn [mbind outcome_bind]|done..].
  destruct (validate_and_apply v _) as [[[]|e|p] [args' t1]] eqn:Ea.
  - destruct (append_err es3 _) as [es4| |] eqn:E3; [cbn [mbind outcome_bind]|done..]. intros [= -> <-].
    apply append_err_nil in E3 as ->. apply append_err_nil in E2 as ->. apply append_err_nil in E1 as ->. eauto 10.
  - destruct e; intros [= He _]; by destruct es3.
  - done.
Qed.
(** Errors are never an empty collection. *)
Lemma errors_ok_not_nil es : errors_ok es <> Err [].
Proof. by destruct es. Qed.
Lemma apply_directive_not_Err (known : DirectiveListValidator T) ds s d e : apply_directive known ds s d <> Err e.
Proof.
  assert (Happ : forall es r e, append_err (F := ErrorCollection) es r <> Err e) by (by intros ? [] ?).
  destruct s as [es t]. unfold apply_directive. destruct (known_directive _ _) as [v|]; [|done].
  destruct (append_err _ _) eqn:E1; cbn; [|by apply Happ in E1|done]. destruct (append_err a _) eqn:E2; cbn; [|by apply Happ in E2|done].
  destruct (validate_and_apply v _) as [[|e'|] [? ?]]; [|by destruct e'|done].
  destruct (append_err a0 _) eqn:E3; cbn; [done|by apply Happ in E3|done].
Qed.
Lemma apply_all_not_nil (known : DirectiveListValidator T) ds t : validate_and_apply_all known ds t <> Err [].
Proof.
  unfold validate_and_apply_all. destruct (for_each _ _ _) as [[es t1]|e|p] eqn:Ef; cbn; [|exfalso|done].
  - destruct (errors_ok es) eqn:Ee; cbn; [done| |done]. intros [= ->]. by apply errors_ok_not_nil in Ee.
  - revert Ef. generalize ([] : ErrorCollection, t) as s. induction (sort_directives ds) as [|d l IH]; intros s; cbn; [done|].
    destruct (apply_directive _ _ _ _) eqn:Ed; cbn; [apply IH|by apply apply_directive_not_Err in Ed|done].
Qed.
(** What the validators keep when they succeed holds of the object when there is no error. *)
Lemma apply_all_keeps (known : DirectiveListValidator T) (good : T -> Prop) ds t t' :
  (forall v args t1 args' t2, v ∈ known -> validate_and_apply v (args, t1) = (Ok tt, (args', t2)) -> good t1 -> good t2) ->
  validate_and_apply_all known ds t = Ok t' -> good t -> good t'.
Proof.
  intros Hv Ha Ht. unfold validate_and_apply_all in Ha. destruct (for_each _ _ _) as [[es t1]| |] eqn:Ef; [cbn in Ha|done..].
  destruct (errors_ok es) as [[]| |] eqn:Ee; [cbn in Ha|done..]. injection Ha as <-. apply errors_ok_Ok in Ee as ->.
  refine (for_each_inv _ (fun s => s.1 = [] -> good s.2) _ _ ([], t1) _ _ Ef eq_refl); [|done]. intros s d [es' t2] _ IH Hd Hes. cbn in *. subst es'.
  apply apply_directive_nil in Hd as [Hs [<-|(v & args & args' & Hin & Hva)]]; [by apply IH|]. eapply Hv; eauto.
Qed.
End lists.

(** ** The known directives *)
Section known.
Context `{VT : ValueTypes} `{VP : !ValueParsers}.
Lemma field_directives_known {E} : new_builtin_field_directives (E := E) =
  Ok [DefaultDirectiveValidator; IdDirectiveValidator; MapDirectiveValidatorForField; RelationDirectiveValidator;
      FieldLevelUniqueDirectiveValidator; UpdatedAtDirectiveValidator].
Proof. reflexivity. Qed.
Lemma model_directives_known {E} : new_builtin_model_directives (E := E) =
  Ok [EmbeddedDirectiveValidator; ModelLevelIdDirectiveValidator; ModelLevelIndexDirectiveValidator; MapDirectiveValidator_model;
      ModelLevelUniqueDirectiveValidator].
Proof. reflexivity. Qed.

(** ** Fields *)
Definition type_known (ast : SchemaAst) (t : FieldType) : Prop :=
  match t with
  | Base _ _ => True
  | EnumType n => is_Some (Ast.find_enum ast n)
  | RelationType i => is_Some (Ast.find_model ast (ri_to i))
  | _ => False
  end.
Record field_lifted (ast : SchemaAst) (name : string) (f : Field) : Prop := {
  fl_name : f_name f = name;
  fl_type : type_known ast (f_type f);
  fl_generated : f_is_generated f = false;
  fl_id : f_is_id f = true -> is_relation (f_type f) = false;
  fl_unique : f_is_unique f = true -> is_relation (f_type f) = false;
  fl_default : forall n v, f_type f = EnumType n -> f_default_value f = Some (Single v) -> exists s, v = PV_Enum s;
}.
(** Hoare triples over the object, for successful runs. *)
Definition triple {T A} (P : T -> Prop) (m : eff (Args * T) DatamodelError A) (Q : A -> T -> Prop) : Prop :=
  forall s a s', m s = (Ok a, s') -> P s.2 -> Q a s'.2.
Lemma triple_bind {T A B} P Q (R : B -> T -> Prop) (m : eff (Args * T) DatamodelError A) f :
  triple P m Q -> (forall a, triple (Q a) (f a) R) -> triple P (m ≫= f) R.
Proof. intros Hm Hf s b s' (a & s1 & H1 & H2)%eff_bind_inv HP. eapply Hf; [exact H2|]. by eapply Hm. Qed.
Lemma triple_object {T} (P : T -> Prop) : triple P the_object (fun a t => P t /\ a = t).
Proof. intros s a s' [= <- <-] HP. done. Qed.
Lemma triple_span {T} (P : T -> Prop) : triple P the_span (fun _ => P).
Proof. by intros s a s' [= _ <-]. Qed.
Lemma triple_args {T A} (P : T -> Prop) (g : Args -> outcome DatamodelError A * Args) : triple P (with_args g) (fun _ => P).
Proof. intros s a s'. unfold with_args. destruct (g s.1). by intros [= _ <-]. Qed.
Lemma triple_if_ok {T A} (P : T -> Prop) (g : Args -> outcome DatamodelError A * Args) : triple P (if_ok g) (fun _ => P).
Proof. intros s a s'. unfold if_ok. destruct (g s.1) as [[] ?]; by intros [= _ <-]. Qed.
Lemma triple_lift {T A} (P : T -> Prop) (r : outcome DatamodelError A) : triple P (lift r) (fun a t => P t /\ r = Ok a).
Proof. by intros s a s' [= -> <-]. Qed.
Lemma triple_ret {T A} (P : T -> Prop) (x : A) : triple P (mret x) (fun a t => P t /\ a = x).
Proof. by intros s a s' [= <- <-]. Qed.
Lemma triple_throw {T A} (P : T -> Prop) e (Q : A -> T -> Prop) : triple P (throw e) Q.
Proof. done. Qed.
Lemma triple_panic {T A} (P : T -> Prop) e (Q : A -> T -> Prop) : triple P (panic e) Q.
Proof. done. Qed.
Lemma triple_error {T A} (P : T -> Prop) m n (Q : A -> T -> Prop) : triple P (directive_error m n) Q.
Proof. done. Qed.
Lemma triple_update {T} (P Q : T -> Prop) g : (forall t, P t -> Q (g t)) -> triple P (update_object g) (fun _ => Q).
Proof. intros Hg s a s' [= _ <-] HP. by apply Hg. Qed.
Lemma triple_weaken {T A} (P P' : T -> Prop) (Q Q' : A -> T -> Prop) m :
  triple P m Q -> (forall t, P' t -> P t) -> (forall a t, Q a t -> Q' a t) -> triple P' m Q'.
Proof. intros Hm HP HQ s a s' Hr H'. eapply HQ, Hm; eauto. Qed.
Create HintDb triple discriminated.
#[local] Hint Resolve triple_object triple_span triple_args triple_if_ok triple_lift triple_ret triple_throw triple_panic triple_error : triple.
(** One step of a validator: bind, then the state that the first part leaves. *)
Ltac keep := eapply triple_bind; [solve [eauto with triple]|intros ?; cbv beta].

Lemma lifted_relation_info ast name g f : (forall i, ri_to (g i) = ri_to i) ->
  field_lifted ast name f -> field_lifted ast name (update_relation_info g f).
Proof.
  intros Hg [H1 H2 H3 H4 H5 H6]. unfold update_relation_info. destruct (f_type f) as [|i| | |] eqn:Et; try (by split; rewrite ?Et).
  split; cbn; auto. by rewrite Hg. intros; discriminate.
Qed.
Lemma default_keeps ast name : triple (field_lifted ast name) default_apply (fun _ => field_lifted ast name).
Proof.
  unfold default_apply. keep. destruct (f_arity a ≟ _); [apply triple_error|]. destruct (f_type a) as [n|i|t|n|t al] eqn:Et; try apply triple_error.
  - keep. destruct (as_constant_literal a0) as [v|e|p] eqn:El; [| |apply triple_panic].
    + apply triple_update. intros f [[H1 H2 H3 H4 H5 H6] ->]. split; cbn; auto. intros n' v' _ [= <-]. eauto.
    + keep. keep. destruct (ValueGenerator_eqb _ _); [|apply triple_throw]. apply triple_update.
      intros f [[[[H1 H2 H3 H4 H5 H6] ->] _] _]. by split; cbn; auto.
  - keep. keep. apply triple_update. intros f [[[H1 H2 H3 H4 H5 H6] ->] _]. split; cbn; auto. intros n' v' Hn'. congruence.
Qed.
Lemma id_keeps ast name : triple (field_lifted ast name) id_apply (fun _ => field_lifted ast name).
Proof.
  unfold id_apply. keep. destruct (negb _); [apply triple_error|]. destruct (f_type a) eqn:Et; try apply triple_error.
  all: apply triple_update; intros f [[H1 H2 H3 H4 H5 H6] ->]; split; cbn; auto; by rewrite Et.
Qed.
Lemma unique_keeps ast name : triple (field_lifted ast name) unique_apply (fun _ => field_lifted ast name).
Proof.
  unfold unique_apply. keep. destruct (f_is_id a); [apply triple_error|]. destruct (f_type a) eqn:Et; try apply triple_error.
  all: apply triple_update; intros f [[H1 H2 H3 H4 H5 H6] ->]; split; cbn; auto; by rewrite Et.
Qed.
Lemma updated_at_keeps ast name : triple (field_lifted ast name) updated_at_apply (fun _ => field_lifted ast name).
Proof.
  unfold updated_at_apply. keep. destruct (f_type a) as [| | | |[] ?]; try apply triple_error. destruct (f_arity a ≟ _); [apply triple_error|].
  apply triple_update; intros f [[H1 H2 H3 H4 H5 H6] ->]; by split; cbn; auto.
Qed.
Lemma map_triple {T} (P : T -> Prop) set : (forall n t, P t -> P (set n t)) -> triple P (internal_validate_and_apply set) (fun _ => P).
Proof. intros Hs. unfold internal_validate_and_apply. keep. keep. apply triple_update. intros t [Ht _]. by apply Hs. Qed.
Lemma map_field_keeps ast name : triple (field_lifted ast name) map_field_apply (fun _ => field_lifted ast name).
Proof.
  unfold map_field_apply. keep. destruct (is_relation _); [apply triple_error|]. eapply triple_weaken; [apply (map_triple (field_lifted ast name))| |done].
  - intros n f [H1 H2 H3 H4 H5 H6]. by split; cbn; auto.
  - by intros f [Hf _].
Qed.
Lemma relation_keeps ast name : triple (field_lifted ast name) relation_apply (fun _ => field_lifted ast name).
Proof.
  unfold relation_apply. keep. destruct (f_type a); try apply triple_error.
  eapply triple_weaken with (P := field_lifted ast name) (Q := fun _ => field_lifted ast name); [|by intros f [Hf _]|done].
  keep. eapply triple_bind with (Q := fun _ => field_lifted ast name).
  { destruct a0 as [e|]; [|eapply triple_weaken; [apply triple_ret| |]; naive_solver]. keep. destruct (a0 ≟ ""); [apply triple_throw|].
    apply triple_update. intros f [Hf _]. by apply lifted_relation_info. }
  intros _. keep. eapply triple_bind with (Q := fun _ => field_lifted ast name).
  { destruct a1 as [e|]; [|eapply triple_weaken; [apply triple_ret| |]; naive_solver]. keep.
    apply triple_update. intros f [Hf _]. by apply lifted_relation_info. }
  intros _. keep. destruct a2 as [e|]; [|eapply triple_weaken; [apply triple_ret| |]; naive_solver]. keep.
  apply triple_update. intros f [Hf _]. by apply lifted_relation_info.
Qed.
Lemma lift_field_type_known fuel ast f custom checked t ds :
  lift_field_type fuel ast f custom checked = Ok (t, ds) -> type_known ast t.
Proof.
  revert f custom checked t ds. induction fuel as [|fuel IH]; intros f custom checked t ds; cbn; [done|].
  destruct (ScalarType_from_str _); [by intros [= <- _]|..].
  all: destruct (Ast.find_model _ _) eqn:Em; [intros [= <- _]; cbn; by rewrite Em|].
  all: destruct (Ast.find_enum _ _) eqn:Ee; [intros [= <- _]; cbn; by rewrite Ee|].
  all: unfold resolve_custom_type; destruct (iter_any _ _); [done|]; destruct (find_type_alias _ _) as [al|]; [|done].
  all: destruct (lift_field_type _ _ _ _ _) as [[t' ds']| |] eqn:El; [cbn|done..]; apply IH in El.
  all: destruct t'; try done; by intros [= <- _].
Qed.
Lemma lift_default_lifted ast af t f r : lift_default af t f = Ok r -> f_type f = t -> field_lifted ast (field_key af) f ->
  field_lifted ast (field_key af) r.1.
Proof.
  unfold lift_default. intros Hr Ht [H1 H2 H3 H4 H5 H6]. destruct (field_default_value af); [|by injection Hr as <-].
  destruct t; try (by injection Hr as <-; split). destruct (as_default_value _ _); try (by injection Hr as <-; split); [|done].
  injection Hr as <-. split; cbn; auto. intros n v Hn. congruence.
Qed.
Lemma finish_object_Ok {T} es (r : outcome ErrorCollection T) t : finish_object es r = Ok t -> es = [] /\ r = Ok t.
Proof.
  destruct r as [t'| |]; cbn; [|done..]. destruct (errors_ok es) as [[]| |] eqn:Ee; cbn; [|done..]. intros [= <-].
  by apply errors_ok_Ok in Ee as ->.
Qed.
Lemma lift_field_lifted ast af f : lift_field ast af = Ok f -> field_lifted ast (field_key af) f.
Proof.
  unfold lift_field. destruct (lift_field_type _ _ _ _ _) as [[t ds]| |] eqn:Et; [cbn [map_err mbind outcome_bind]|done..].
  destruct (lift_default _ _ _) as [[f1 es]| |] eqn:Ed; [cbn [map_err mbind outcome_bind]|done..]. rewrite field_directives_known.
  cbn [mbind outcome_bind]. intros [_ Ha]%finish_object_Ok. revert Ha. apply lift_field_type_known in Et.
  intros Ha. eapply apply_all_keeps; [|exact Ha|].
  - intros v args t1 args' t2 Hv Hr Hg. rewrite !elem_of_cons, elem_of_nil in Hv.
    destruct Hv as [->|[->|[->|[->|[->|[->|[]]]]]]].
    + exact (default_keeps ast _ _ _ _ Hr Hg).
    + exact (id_keeps ast _ _ _ _ Hr Hg).
    + exact (map_field_keeps ast _ _ _ _ Hr Hg).
    + exact (relation_keeps ast _ _ _ _ Hr Hg).
    + exact (unique_keeps ast _ _ _ _ Hr Hg).
    + exact (updated_at_keeps ast _ _ _ _ Hr Hg).
  - apply (lift_default_lifted ast af t _ _ Ed); [done|]. by split.
Qed.

Lemma finish_object_not_nil {T} es (r : outcome ErrorCollection T) : r <> Err [] -> finish_object es r <> Err [].
Proof.
  intros Hr. destruct r as [t|e|p]; cbn; [destruct es; done| |done]. intros [= He]. apply app_nil_iff in He as [_ ->]. done.
Qed.
Lemma lift_field_not_nil ast af : lift_field ast af <> Err [].
Proof.
  unfold lift_field. destruct (lift_field_type _ _ _ _ _) as [[t ds]| |]; [cbn [map_err mbind outcome_bind]|done..].
  assert (Hd : forall f e, lift_default af t f <> Err e).
  { intros f e. unfold lift_default. destruct (field_default_value af); [|done]. destruct t; try done. by destruct (as_default_value _ _). }
  destruct (lift_default _ _ _) as [[f1 es]|e|p] eqn:Ed; [cbn [mbind outcome_bind]|by apply Hd in Ed|done].
  rewrite field_directives_known. cbn [mbind outcome_bind]. apply finish_object_not_nil, apply_all_not_nil.
Qed.
Lemma lift_enum_value_not_nil av : lift_enum_value av <> Err [].
Proof. unfold lift_enum_value. cbn [new_builtin_enum_value_directives add_validator known_directive iter_find List.find mbind outcome_bind]. apply apply_all_not_nil. Qed.

(** ** Parts *)
Lemma lift_parts_Forall2 {A B} (f : A -> outcome ErrorCollection B) l bs : (forall x, f x <> Err []) ->
  lift_parts f l = Ok (bs, []) -> Forall2 (fun x y => f x = Ok y) l bs.
Proof.
  intros Hne. unfold lift_parts.
  enough (Hgen : forall keep es, for_each (E := ErrorCollection) (fun s x => keep_or_append (f x) s.1 s.2) l (keep, es) = Ok (bs, []) ->
    es = [] /\ exists bs', bs = keep ++ bs' /\ Forall2 (fun x y => f x = Ok y) l bs').
  { intros (_ & bs' & -> & HF)%Hgen. done. }
  induction l as [|x l IH]; intros keep es; cbn; [intros [= <- ->]; split; [done|]; exists []; by rewrite app_nil_r|].
  unfold keep_or_append at 1. destruct (f x) as [y|e|p] eqn:Ef; cbn; [|intros (He & _)%IH|done].
  - intros (-> & bs' & -> & HF)%IH. split; [done|]. exists (y :: bs'). rewrite <-(assoc_L app). split; [done|]. by constructor.
  - apply app_nil_iff in He as [-> ->]. by apply Hne in Ef.
Qed.

(** ** Models *)
Definition scalar_field (m : Model) (n : string) : Prop := exists f, find_field m n = Some f /\ is_relation (f_type f) = false.
Lemma filter_nil {A} (p : A -> bool) l : iter_filter p l = [] -> forall x, x ∈ l -> p x = false.
Proof. intros Hl x Hx. destruct (p x) eqn:Hp; [|done]. assert (Hin : x ∈ iter_filter p l) by (by apply iter_filter_elem). rewrite Hl in Hin. by apply elem_of_nil in Hin. Qed.
Lemma scalar_fields_checked m l : undefined_fields m l = [] -> referenced_relation_fields m l = [] -> forall n, n ∈ l -> scalar_field m n.
Proof.
  intros Hu Hr n Hn. pose proof (filter_nil _ _ Hu n Hn) as H1. pose proof (filter_nil _ _ Hr n Hn) as H2. cbv beta in H1, H2.
  unfold has_field in H1. unfold scalar_field. destruct (find_field m n) as [f|]; [eauto|done].
Qed.
Record model_lifted (name : string) (fields : list Field) (m : Model) : Prop := {
  ml_name : m_name m = name;
  ml_fields : m_fields m = fields;
  ml_ids : forall n, n ∈ m_id_fields m -> scalar_field m n;
  ml_indices : forall i n, i ∈ m_indices m -> n ∈ ix_fields i -> scalar_field m n;
}.
Lemma scalar_field_same m m' n : m_fields m = m_fields m' -> scalar_field m n -> scalar_field m' n.
Proof. intros Hf (f & H1 & H2). exists f. split; [|done]. unfold find_field in *. by rewrite <-Hf. Qed.
Lemma model_id_keeps name fields : triple (model_lifted name fields) model_id_apply (fun _ => model_lifted name fields).
Proof.
  unfold model_id_apply. keep. keep.
  eapply triple_bind with (Q := fun _ m => m_name m = name /\ m_fields m = fields /\ m_id_fields m = a0 /\
    (forall i n, i ∈ m_indices m -> n ∈ ix_fields i -> scalar_field m n)).
  { apply triple_update. intros m [[H1 H2 H3 H4] _]. split_and!; [done..|]. intros i n Hi Hn. by eapply (scalar_field_same m), H4. }
  intros _. keep. keep. case_bool; [|apply triple_throw]. case_bool; [|apply triple_throw].
  eapply triple_weaken; [apply triple_ret|intros t Ht; exact Ht|]. intros u m [[(H1 & H2 & H3 & H4) <-] _]. split; [done..| |done].
  rewrite H3. intros n Hn. by eapply scalar_fields_checked.
Qed.
Lemma index_keeps t name fields : triple (model_lifted name fields) (index_apply t) (fun _ => model_lifted name fields).
Proof.
  unfold index_apply. eapply triple_bind with (Q := fun i m => model_lifted name fields m /\ forall n, n ∈ ix_fields i -> scalar_field m n).
  - unfold validate_index. keep. eapply triple_bind with (Q := fun _ => model_lifted name fields).
    { destruct a; [keep|]; (eapply triple_weaken; [apply triple_ret|intros m Hm; exact Hm|]); naive_solver. }
    intros nm. keep. keep. keep. keep. case_bool; [|apply triple_throw]. case_bool; [|apply triple_throw].
    eapply triple_weaken; [apply triple_ret|intros m Hm; exact Hm|]. intros i m [[[Hm _] <-] ->]. split; [done|]. cbn. intros n Hn. by eapply scalar_fields_checked.
  - intros i. apply triple_update. intros m [[H1 H2 H3 H4] Hi]. split; [done..| |].
    + intros n Hn. by apply (scalar_field_same m), H3.
    + cbn. intros j n [Hj| ->%list_elem_of_singleton]%elem_of_app Hn; apply (scalar_field_same m); eauto.
Qed.
Lemma lift_model_lifted ast am m : lift_model ast am = Ok m -> exists fs,
  Forall2 (fun af f => lift_field ast af = Ok f) (model_fields am) fs /\ model_lifted (model_key am) fs m.
Proof.
  unfold lift_model. destruct (lift_parts _ _) as [[fs es]| |] eqn:Ef; [cbn [mbind outcome_bind]|done..].
  rewrite model_directives_known. cbn [mbind outcome_bind]. intros [Hes Ha]%finish_object_Ok. cbn in Hes. subst es.
  exists fs. split; [by apply lift_parts_Forall2; [apply lift_field_not_nil|]|]. eapply apply_all_keeps; [|exact Ha|].
  - intros v args t1 args' t2 Hv Hr Hg. rewrite !elem_of_cons, elem_of_nil in Hv.
    assert (Hsame : forall m', m_name m' = m_name t1 -> m_fields m' = m_fields t1 -> m_id_fields m' = m_id_fields t1 ->
      m_indices m' = m_indices t1 -> model_lifted (model_key am) fs m').
    { destruct Hg as [H1 H2 H3 H4]. intros m' E1 E2 E3 E4. split; [congruence..| |].
      - rewrite E3. intros n Hn. by eapply (scalar_field_same t1), H3.
      - rewrite E4. intros i n Hi Hn. by eapply (scalar_field_same t1), H4. }
    destruct Hv as [->|[->|[->|[->|[->|[]]]]]].
    + injection Hr as _ <-. by apply Hsame.
    + exact (model_id_keeps _ _ _ _ _ Hr Hg).
    + exact (index_keeps _ _ _ _ _ _ Hr Hg).
    + refine (map_triple (model_lifted (model_key am) fs) _ _ _ _ _ Hr Hg). intros n m' [H1 H2 H3 H4]. split; [done..| |].
      * intros k Hk. by eapply (scalar_field_same m'), H3.
      * intros i k Hi Hk. by eapply (scalar_field_same m'), H4.
    + exact (index_keeps _ _ _ _ _ _ Hr Hg).
  - split; [done|done|by intros n Hn%elem_of_nil|by intros i n Hi%elem_of_nil].
Qed.

(** ** Schemas *)
Lemma lift_parts_not_Err {A B} (f : A -> outcome ErrorCollection B) l e : lift_parts f l <> Err e.
Proof.
  unfold lift_parts. generalize ([] : list B, [] : ErrorCollection) as s. induction l as [|x l IH]; intros s; cbn; [done|].
  unfold keep_or_append at 1. destruct (f x); cbn; [apply IH..|done].
Qed.
Lemma lift_model_not_nil ast am : lift_model ast am <> Err [].
Proof.
  unfold lift_model. destruct (lift_parts _ _) eqn:Ef; [cbn [mbind outcome_bind]|by apply lift_parts_not_Err in Ef|done].
  rewrite model_directives_known. apply finish_object_not_nil, apply_all_not_nil.
Qed.
Lemma lift_enum_not_nil source ae : lift_enum source ae <> Err [].
Proof.
  unfold lift_enum. destruct (negb _); [done|]. destruct (lift_parts _ _) eqn:Ef; [cbn [mbind outcome_bind]|by apply lift_parts_not_Err in Ef|done].
  cbn [new_builtin_enum_directives add_validator known_directive iter_find List.find mbind outcome_bind].
  apply finish_object_not_nil, apply_all_not_nil.
Qed.
Lemma lift_enum_name source ae e : lift_enum source ae = Ok e -> en_name e = enum_key ae.
Proof.
  unfold lift_enum. destruct (negb _); [done|]. destruct (lift_parts _ _) as [[vs es]| |]; [cbn [mbind outcome_bind]|done..].
  cbn [new_builtin_enum_directives add_validator known_directive iter_find List.find mbind outcome_bind].
  intros [_ Ha]%finish_object_Ok. refine (apply_all_keeps _ (fun e => en_name e = enum_key ae) _ _ _ _ Ha _); [|done].
  intros v args t1 args' t2 Hv%list_elem_of_singleton Hr Hg. subst v.
  refine (map_triple (fun e => en_name e = enum_key ae) _ _ _ _ _ Hr Hg). by intros n t.
Qed.
Lemma lift_schema_Forall2 source ast d : lift_schema source ast = Ok d ->
  Forall2 (fun am m => lift_model ast am = Ok m) (Ast.models ast) (dm_models d) /\
  Forall2 (fun ae e => lift_enum source ae = Ok e) (Ast.enums ast) (dm_enums d).
Proof.
  unfold lift_schema, Ast.models, Ast.enums. destruct (for_each _ _ _) as [[d' es]| |] eqn:Ef; [cbn|done..].
  destruct (errors_ok es) as [[]| |] eqn:Ee; [cbn|done..]. intros [= <-]. apply errors_ok_Ok in Ee as ->.
  enough (Hgen : forall d0 es0, for_each (lift_top source ast) (tops ast) (d0, es0) = Ok (d', []) -> es0 = [] /\ exists ms ens,
    dm_models d' = dm_models d0 ++ ms /\ dm_enums d' = dm_enums d0 ++ ens /\
    Forall2 (fun am m => lift_model ast am = Ok m) (omap as_model (tops ast)) ms /\
    Forall2 (fun ae e => lift_enum source ae = Ok e) (omap as_enum (tops ast)) ens).
  { destruct (Hgen _ _ Ef) as (_ & ms & ens & -> & -> & ? & ?). done. }
  clear Ef. induction (tops ast) as [|top l IH]; intros d0 es0.
  { cbn. intros [= -> ->]. split; [done|]. exists [], []. by rewrite !app_nil_r. }
  cbn [for_each]. destruct top as [en|md|x|x|x]; cbn [lift_top omap list_omap as_model as_enum]; try apply IH.
  - destruct (lift_enum source en) as [e|err|p] eqn:El; cbn [mbind outcome_bind]; [|intros (He & _)%IH; cbn in He|done].
    + intros (He & ms & ens & -> & -> & HF & HG)%IH. split; [exact He|]. exists ms, (e :: ens). cbn. rewrite <-(assoc_L app).
      split_and!; [done..|]. by constructor.
    + apply app_nil_iff in He as [_ ->]. by apply lift_enum_not_nil in El.
  - destruct (lift_model ast md) as [m|err|p] eqn:El; cbn [mbind outcome_bind]; [|intros (He & _)%IH; cbn in He|done].
    + intros (He & ms & ens & -> & -> & HF & HG)%IH. split; [exact He|]. exists (m :: ms), ens. cbn. rewrite <-(assoc_L app).
      split_and!; [done..| |done]. by constructor.
    + apply app_nil_iff in He as [_ ->]. by apply lift_model_not_nil in El.
Qed.
(** Lookups by name find the lifted object where they find the syntax node. *)
Lemma Forall2_find {A B} (P : A -> B -> Prop) (ka : A -> string) (kb : B -> string) l k n : Forall2 P l k ->
  (forall x y, P x y -> kb y = ka x) -> is_Some (iter_find (fun x => ka x ≟ n) l) -> is_Some (iter_find (fun y => kb y ≟ n) k).
Proof.
  intros HF Hk. induction HF as [|x y l k Hxy HF IH]; cbn; [by intros [? [=]]|]. rewrite (Hk _ _ Hxy). destruct (ka x ≟ n); [by eauto|exact IH].
Qed.
Lemma Forall2_keys {A B C} (P : A -> B -> Prop) (ka : A -> C) (kb : B -> C) l k : Forall2 P l k ->
  (forall x y, P x y -> kb y = ka x) -> kb <$> k = ka <$> l.
Proof. intros HF Hk. induction HF as [|x y l k Hxy _ IH]; [done|]. rewrite !fmap_cons, IH. f_equal. by apply Hk. Qed.
Lemma lift_model_name ast am m : lift_model ast am = Ok m -> m_name m = model_key am.
Proof. intros (fs & _ & [H _ _ _])%lift_model_lifted. exact H. Qed.
End known.
