(* ===== verification/Standardise.v ===== *)
(** * Standardising and the validation pipeline (validator/standardise.rs, validation_pipeline.rs)

    The standardiser names unnamed relations, adds missing back relation fields
    and fills in the referenced fields; the pipeline runs all phases from the
    syntax tree to the datamodel. *)
From S2P Require Import Prelude Ast Effects SqlSchema Dml DmValues Directives Lift Validate.

(** The messages of validator/common.rs. *)
Definition COMMON_STATE_ERROR : string := "Failed lookup of model or field during internal processing. This means that the internal representation was mutated incorrectly.".
Definition ERROR_GEN_STATE_ERROR : string := "Failed lookup of model or field during generating an error message. This often means that a generated field or model was the cause of an error.".

Section standardise.
Context `{VT : ValueTypes} `{VP : !ValueParsers} `{U : Unicode}.

Definition field_validation_error {E} (message : string) (model : Model) (field : Field) (ast : SchemaAst) : outcome E DatamodelError :=
  f ← unwrap ERROR_GEN_STATE_ERROR (Ast.find_field ast (m_name model) (f_name field));
  Ok (ModelValidationError message (m_name model) (field_span f)).

(** Mutation through [find_model_mut(..).expect(STATE_ERROR)] and [find_field_mut(..).expect(STATE_ERROR)]. *)
Definition update_model {E} (name : string) (g : Model -> outcome E Model) (d : Datamodel) : outcome E Datamodel :=
  r ← unwrap COMMON_STATE_ERROR (find_mut (fun m => m_name m ≟ name) (dm_models d));
  m ← g (deref r);
  Ok (mkDatamodel (dm_enums d) (write r m)).
Definition update_field {E} (name : string) (g : Field -> outcome E Field) (m : Model) : outcome E Model :=
  r ← unwrap COMMON_STATE_ERROR (find_mut (fun f => f_name f ≟ name) (m_fields m));
  f ← g (deref r);
  Ok (set_model_fields (write r f) m).

(** ** Names of relations *)
Definition unnamed_relation (model : Model) (field : Field) : option (string * string * RelationInfo) :=
  match f_type field with
  | RelationType rel => if ri_name rel ≟ "" then Some (m_name model, f_name field, rel) else None
  | _ => None
  end.
Definition find_unnamed_relations (datamodel : Datamodel) : list (string * string * RelationInfo) :=
  model ← dm_models datamodel; omap (unnamed_relation model) (m_fields model).
Definition name_relation {E} (datamodel : Datamodel) (r : string * string * RelationInfo) : outcome E Datamodel :=
  let '(model_name, field_name, rel_info) := r in
  update_model model_name (update_field field_name (fun field =>
    match f_type field with
    | RelationType rel => Ok (set_f_type (RelationType (set_ri_name (relation_name model_name (ri_to rel_info)) rel)) field)
    | _ => Panic "Tried to name a non-existing relation."
    end)) datamodel.
Definition name_unnamed_relations {E} (datamodel : Datamodel) : outcome E Datamodel :=
  for_each name_relation (find_unnamed_relations datamodel) datamodel.

(** ** Missing back relations *)
Definition unique_criteria {E} (model : Model) : outcome E (list Field) :=
  criterias ← loose_unique_criterias model;
  unwrap "loose_unique_criterias" (head criterias).
Definition underlying_field (model_name : string) (f : Field) : Field :=
  set_f_arity OptionalField (Field_new (camel_case model_name +:+ pascal_case (f_name f)) (f_type f)).
Definition underlying_fields_for_unique_criteria (criteria : list Field) (model_name : string) : list Field :=
  underlying_field model_name <$> criteria.

Record AddMissingBackRelationField : Type := mkAddMissingBackRelationField {
  ab_model : string;
  ab_field : Field;
  ab_related_model : string;
  ab_related_field : string;
  ab_underlying_fields : list Field;
}.
(** The new name of an underlying field that would clash with a field of another type. *)
Definition rename_underlying (related_model : Model) (rel : RelationInfo) (f : Field) : Field :=
  match find_field related_model (f_name f) with
  | Some existing_field =>
      if is_compatible_with (f_type existing_field) (f_type f) then f else set_f_name (f_name f +:+ "_" +:+ ri_name rel) f
  | None => f
  end.
Definition underlying_to_add (model related_model : Model) (field : Field) (schema_ast : SchemaAst)
    (s : list Field * ErrorCollection) (f : Field) : outcome ErrorCollection (list Field * ErrorCollection) :=
  match find_field related_model (f_name f) with
  | None => Ok (s.1 ++ [f], s.2)
  | Some other =>
      if is_compatible_with (f_type other) (f_type f) then Ok s
      else
        ast_model ← unwrap ERROR_GEN_STATE_ERROR (Ast.find_model schema_ast (m_name related_model));
        Ok (s.1, s.2 ++ [ModelValidationError
          ("Automatic underlying field generation tried to add the field " +:+ ticked (f_name f) +:+ " in model "
           +:+ ticked (m_name related_model) +:+ " for the back relation field of " +:+ ticked (f_name field) +:+ " in "
           +:+ ticked (m_name model) +:+ ". A field with that name exists already and has an incompatible type for the relation. Please add the back relation manually.")
          (m_name related_model) (model_span ast_model)])
  end.
Definition missing_back_relation (model related_model : Model) (schema_ast : SchemaAst) (field : Field) (rel : RelationInfo) :
    outcome ErrorCollection (AddMissingBackRelationField * ErrorCollection) :=
  if is_singular (f_arity field) then
    let relation_info := mkRelationInfo (m_name model) [] [] (ri_name rel) OnDeleteNone in
    let back_relation_field := set_f_arity ListField (Field_new_generated (m_name model) (RelationType relation_info)) in
    Ok (mkAddMissingBackRelationField (ri_to rel) back_relation_field (m_name model) (f_name field) [], [])
  else
    criteria ← unique_criteria model;
    let underlying_fields :=
      rename_underlying related_model rel <$> underlying_fields_for_unique_criteria criteria (m_name model) in
    s ← for_each (underlying_to_add model related_model field schema_ast) underlying_fields ([], []);
    let relation_info :=
      mkRelationInfo (m_name model) (f_name <$> underlying_fields) (f_name <$> criteria) (ri_name rel) OnDeleteNone in
    let back_relation_field := set_f_arity OptionalField (Field_new_generated (m_name model) (RelationType relation_info)) in
    Ok (mkAddMissingBackRelationField (ri_to rel) back_relation_field (m_name model) (f_name field) s.1, s.2).
Definition find_missing_back_relation_fields (model : Model) (schema : Datamodel) (schema_ast : SchemaAst) :
    outcome ErrorCollection (list AddMissingBackRelationField) :=
  s ← for_each (fun s field =>
      match f_type field with
      | RelationType rel =>
          related_model ← unwrap COMMON_STATE_ERROR (find_model schema (ri_to rel));
          match model_related_field related_model (m_name model) (ri_name rel) (f_name field) with
          | Some _ => Ok s
          | None => r ← missing_back_relation model related_model schema_ast field rel; Ok (s.1 ++ [r.1], s.2 ++ r.2)
          end
      | _ => Ok s
      end) (m_fields model) ([], []);
  _ ← errors_ok s.2;
  Ok s.1.
Definition add_underlying (model : Model) (underlying_field : Field) : Model :=
  if has_field model (f_name underlying_field) then model else add_field underlying_field model.
Definition add_back_relation (ast_schema : SchemaAst) (s : Datamodel * ErrorCollection) (missing : AddMissingBackRelationField) :
    outcome ErrorCollection (Datamodel * ErrorCollection) :=
  let '(schema, errors) := s in
  model ← unwrap COMMON_STATE_ERROR (find_model schema (ab_model missing));
  if has_field model (f_name (ab_field missing)) then
    source_model ← unwrap COMMON_STATE_ERROR (find_model schema (ab_related_model missing));
    source_field ← unwrap COMMON_STATE_ERROR (find_field source_model (ab_related_field missing));
    e ← field_validation_error "Automatic related field generation would cause a naming conflict. Please add an explicit opposite relation field."
          source_model source_field ast_schema;
    Ok (schema, errors ++ [e])
  else
    schema ← update_model (ab_model missing) (fun model_mut =>
      Ok (foldl add_underlying (add_field (ab_field missing) model_mut) (ab_underlying_fields missing))) schema;
    Ok (schema, errors).
Definition add_missing_back_relations (ast_schema : SchemaAst) (schema : Datamodel) : outcome ErrorCollection Datamodel :=
  missing_back_relation_fields ← map_m (fun model => find_missing_back_relation_fields model schema ast_schema) (dm_models schema);
  s ← for_each (add_back_relation ast_schema) (mjoin missing_back_relation_fields) (schema, []);
  _ ← errors_ok s.2;
  Ok s.1.

(** ** Referenced fields *)
Definition embed_here (model related_model : Model) (field related_field : Field) : bool :=
  match f_arity field, f_arity related_field with
  | ListField, ListField => true
  | _, ListField => true
  | ListField, _ => false
  | _, _ =>
      if String.ltb (m_name model) (m_name related_model) then true
      else if String.ltb (m_name related_model) (m_name model) then false
      else String.ltb (f_name field) (f_name related_field)
  end.
(** One field of the model, by its index; [criteria] is that of the model before the loop. *)
Definition set_to_fields {E} (schema_copy : Datamodel) (criteria : list Field) (model : Model) (field_index : nat) : outcome E Model :=
  field ← unwrap "index out of bounds" (m_fields model !! field_index);
  match f_type field with
  | RelationType rel =>
      related_model ← unwrap COMMON_STATE_ERROR (find_model schema_copy (ri_to rel));
      related_field ← unwrap "related_field" (model_related_field related_model (m_name model) (ri_name rel) (f_name field));
      related_field_rel ← match f_type related_field with RelationType rel => Ok rel | _ => Panic COMMON_STATE_ERROR end;
      let is_m2m := arity_is_list (f_arity field) && arity_is_list (f_arity related_field) in
      let underlying_fields := underlying_fields_for_unique_criteria criteria (m_name model) in
      if embed_here model related_model field related_field then
        rel' ← (if is_nil (ri_to_fields rel) && is_nil (ri_to_fields related_field_rel)
                then c ← first_unique_criterion related_model; Ok (set_ri_to_fields (f_name <$> c) rel)
                else Ok rel);
        let write rel := set_model_fields (<[field_index := set_f_type (RelationType rel) field]> (m_fields model)) model in
        if negb is_m2m && (is_nil (ri_fields rel') && is_nil (ri_fields related_field_rel)) && f_is_generated field
        then Ok (foldl (fun m f => add_field f m) (write (set_ri_fields (f_name <$> underlying_fields) rel')) underlying_fields)
        else Ok (write rel')
      else Ok model
  | _ => Ok model
  end.
Definition set_model_to_fields {E} (schema_copy : Datamodel) (model : Model) : outcome E Model :=
  criteria ← unique_criteria model;
  for_each (set_to_fields schema_copy criteria) (seq 0 (length (m_fields model))) model.
Definition set_relation_to_field_to_id_if_missing {E} (schema : Datamodel) : outcome E Datamodel :=
  ms ← map_m (set_model_to_fields schema) (dm_models schema);
  Ok (mkDatamodel (dm_enums schema) ms).

Definition standardise (ast_schema : SchemaAst) (schema : Datamodel) : outcome ErrorCollection Datamodel :=
  schema ← name_unnamed_relations schema;
  schema ← add_missing_back_relations ast_schema schema;
  set_relation_to_field_to_id_if_missing schema.

(** ** The pipeline (validation_pipeline.rs) *)
Definition validation_pipeline (source : option DeclarativeConnector) (ast_schema : SchemaAst) : outcome ErrorCollection Datamodel :=
  all_errors ← append_err [] (precheck ast_schema);
  match lift_schema source ast_schema with
  | Err err => Err (all_errors ++ err)
  | Panic p => Panic p
  | Ok schema =>
      all_errors ← append_err all_errors (validate source ast_schema schema);
      _ ← errors_ok all_errors;
      schema ← standardise ast_schema schema;
      _ ← post_standardisation_validate ast_schema schema;
      Ok schema
  end.
End standardise.
