(* ===== verification/StandardFacts.v ===== *)
(** * What standardising keeps

    Every phase of the standardiser keeps the columns that ids, indexes and
    relations use, and every field it adds refers to existing ones. *)
From Stdlib Require Import Ascii.
From S2P Require Import Prelude Ast Effects SqlSchema Dml Converter SchemaCalc CalcFacts DmValues Directives Lift Validate PrecheckFacts LiftFacts Standardise.

Section facts.
Context `{VT : ValueTypes} `{VP : !ValueParsers} `{U : Unicode}.

(** ** Good fields and models *)
Definition field_good (d : Datamodel) (m : Model) (f : Field) : Prop :=
  match f_type f with
  | Base _ _ => True
  | EnumType n => is_Some (find_enum d n) /\ forall v, f_default_value f = Some (Single v) -> exists s, v = PV_Enum s
  | RelationType i => f_is_id f = false /\ f_is_unique f = false /\ (forall n, n ∈ ri_fields i -> column_field m n) /\
      exists rm, find_model d (ri_to i) = Some rm /\ forall n, n ∈ ri_to_fields i -> column_field rm n
  | _ => False
  end.
(** Generated relation fields hold many records or name their scalar fields. *)
Definition generated_good (f : Field) : Prop := f_is_generated f = true ->
  exists i, f_type f = RelationType i /\ (f_arity f = ListField \/ ri_fields i <> []).
Record model_good (d : Datamodel) (m : Model) : Prop := {
  mg_fields : forall f, f ∈ m_fields m -> field_good d m f;
  mg_ids : forall n, n ∈ m_id_fields m -> column_field m n;
  mg_indices : forall i n, i ∈ m_indices m -> n ∈ ix_fields i -> column_field m n;
}.
Record datamodel_good (d : Datamodel) : Prop := {
  dg_models : forall m, m ∈ dm_models d -> model_good d m;
  dg_names : NoDup (m_name <$> dm_models d);
  dg_fields : forall m, m ∈ dm_models d -> NoDup (f_name <$> m_fields m);
  dg_generated : forall m f, m ∈ dm_models d -> f ∈ m_fields m -> generated_good f;
}.
Lemma good_column d m f : field_good d m f -> is_relation (f_type f) = false -> has_column f = true.
Proof. unfold field_good, has_column. by destruct (f_type f). Qed.

(** ** Extensions: nothing that is used disappears *)
Record model_ext (m m' : Model) : Prop := {
  me_name : m_name m' = m_name m;
  me_columns : forall n, column_field m n -> column_field m' n;
  me_ids : m_id_fields m' = m_id_fields m;
  me_indices : m_indices m' = m_indices m;
}.
Definition datamodel_ext (d d' : Datamodel) : Prop := Forall2 model_ext (dm_models d) (dm_models d') /\ dm_enums d' = dm_enums d.
#[export] Instance model_ext_preorder : PreOrder model_ext.
Proof.
  split; [by split|]. intros m1 m2 m3 [] []. split; [congruence| |congruence..]. auto.
Qed.
#[export] Instance datamodel_ext_preorder : PreOrder datamodel_ext.
Proof.
  split; [intros d; split; [reflexivity|done]|]. intros d1 d2 d3 [H1 E1] [H2 E2]. split; [by etransitivity|congruence].
Qed.
Lemma Forall2_find_model (R : Model -> Model -> Prop) l k n m : Forall2 R l k -> (forall x y, R x y -> m_name y = m_name x) ->
  iter_find (fun m => m_name m ≟ n) l = Some m -> exists m', iter_find (fun m => m_name m ≟ n) k = Some m' /\ R m m'.
Proof.
  intros HF Hn. induction HF as [|x y l k Hxy _ IH]; [done|]. cbn. rewrite (Hn _ _ Hxy). destruct (m_name x ≟ n); [|exact IH].
  intros [= <-]. eauto.
Qed.
Lemma find_model_ext d d' n m : datamodel_ext d d' -> find_model d n = Some m -> exists m', find_model d' n = Some m' /\ model_ext m m'.
Proof. intros [HF _]. apply Forall2_find_model; [done|]. by intros x y []. Qed.
Lemma datamodel_ext_names d d' : datamodel_ext d d' -> m_name <$> dm_models d' = m_name <$> dm_models d.
Proof. intros [HF _]. eapply Forall2_keys; [exact HF|]. by intros x y []. Qed.
Lemma field_good_ext d d' m m' f : datamodel_ext d d' -> model_ext m m' -> field_good d m f -> field_good d' m' f.
Proof.
  intros Hd Hm. unfold field_good. destruct (f_type f) as [n|i| | |]; [|intros (Hi & Hu & Hf & rm & Hrm & Ht)|done..].
  - destruct Hd as [_ He]. unfold find_enum. by rewrite He.
  - split_and!; [done..| |].
    + intros n Hn. by apply (me_columns _ _ Hm), Hf.
    + destruct (find_model_ext _ _ _ _ Hd Hrm) as (rm' & -> & Hext). exists rm'. split; [done|]. intros n Hn. by apply (me_columns _ _ Hext), Ht.
Qed.
Lemma find_model_elem d m : NoDup (m_name <$> dm_models d) -> m ∈ dm_models d -> find_model d (m_name m) = Some m.
Proof.
  intros Hnd Hm. unfold find_model. destruct (iter_find _ _) as [m'|] eqn:Ef.
  - apply iter_find_Some in Ef as [Hm' Hn]. apply bool_decide_eq_true in Hn. f_equal. by eapply (NoDup_fmap_inj m_name).
  - rewrite iter_find_None in Ef. specialize (Ef m Hm). cbv beta in Ef. by rewrite bool_decide_eq_true_2 in Ef.
Qed.
Lemma find_field_elem m f : NoDup (f_name <$> m_fields m) -> f ∈ m_fields m -> find_field m (f_name f) = Some f.
Proof.
  intros Hnd Hm. unfold find_field. destruct (iter_find _ _) as [f'|] eqn:Ef.
  - apply iter_find_Some in Ef as [Hm' Hn]. apply bool_decide_eq_true in Hn. f_equal. by eapply (NoDup_fmap_inj f_name).
  - rewrite iter_find_None in Ef. specialize (Ef f Hm). cbv beta in Ef. by rewrite bool_decide_eq_true_2 in Ef.
Qed.

(** Replacing one model by an extension of it whose fields are good. *)
Lemma replace_model d d' l1 m m' l2 : datamodel_good d -> dm_models d = l1 ++ m :: l2 -> dm_models d' = l1 ++ m' :: l2 ->
  dm_enums d' = dm_enums d -> model_ext m m' -> (forall f, f ∈ m_fields m' -> field_good d' m' f /\ generated_good f) ->
  NoDup (f_name <$> m_fields m') -> datamodel_good d' /\ datamodel_ext d d'.
Proof.
  intros [Hm Hn Hf Hg] Hd Hd' He Hext Hnew Hnd.
  assert (Hde : datamodel_ext d d').
  { split; [|done]. rewrite Hd, Hd'. apply Forall2_app; [reflexivity|]. by constructor. }
  split; [|done]. assert (Hin : m ∈ dm_models d) by (rewrite Hd; set_solver).
  assert (Hcase : forall x, x ∈ dm_models d' -> x = m' \/ x ∈ dm_models d) by (intros x; rewrite Hd, Hd'; set_solver).
  split.
  - intros x [->|Hx]%Hcase.
    + destruct (Hm m Hin) as [H1 H2 H3]. split; [intros f Hff; by apply Hnew|..].
      * rewrite (me_ids _ _ Hext). intros n Hx. by apply (me_columns _ _ Hext), H2.
      * rewrite (me_indices _ _ Hext). intros i n Hi Hx. apply (me_columns _ _ Hext). by eapply H3.
    + destruct (Hm x Hx) as [H1 H2 H3]. split; [|done..]. intros f Hff. eapply field_good_ext; [exact Hde|reflexivity|]. by apply H1.
  - by rewrite (datamodel_ext_names _ _ Hde).
  - intros x [->|Hx]%Hcase; [done|by apply Hf].
  - intros x f [->|Hx]%Hcase Hff; [by apply Hnew|by apply (Hg x)].
Qed.

(** ** Writes to one model or field *)
Lemma find_mut_Some {A} (p : A -> bool) l r : find_mut p l = Some r -> exists l1 a l2, l = l1 ++ a :: l2 /\ deref r = a /\ p a = true /\
  iter_find p l = Some a /\ forall b, write r b = l1 ++ b :: l2.
Proof.
  intros Hr. pose proof (find_mut_find p l) as Hfind. rewrite Hr in Hfind. cbn in Hfind.
  apply find_map_mut_spec in Hr as (l1 & a & l2 & -> & Hsel & _ & Hw). exists l1, a, l2.
  destruct (p a) eqn:Ea; [|done]. injection Hsel as Hd. by rewrite <-Hfind, <-Hd.
Qed.
Lemma update_model_Ok {E} name g d d' : update_model (E := E) name g d = Ok d' -> exists l1 m l2 m',
  dm_models d = l1 ++ m :: l2 /\ find_model d name = Some m /\ m_name m = name /\ g m = Ok m' /\
  dm_models d' = l1 ++ m' :: l2 /\ dm_enums d' = dm_enums d.
Proof.
  unfold update_model. destruct (find_mut _ _) as [r|] eqn:Er; [cbn|done].
  apply find_mut_Some in Er as (l1 & m & l2 & Hd & -> & Hn & Hf & Hw). destruct (g m) as [m'| |] eqn:Eg; [cbn|done..].
  intros [= <-]. apply bool_decide_eq_true in Hn. exists l1, m, l2, m'. cbn. by rewrite Hw.
Qed.
Lemma update_field_Ok {E} name g m m' : update_field (E := E) name g m = Ok m' -> exists l1 f l2 f',
  m_fields m = l1 ++ f :: l2 /\ f_name f = name /\ g f = Ok f' /\ m' = set_model_fields (l1 ++ f' :: l2) m.
Proof.
  unfold update_field. destruct (find_mut _ _) as [r|] eqn:Er; [cbn|done].
  apply find_mut_Some in Er as (l1 & f & l2 & Hd & -> & Hn & Hf & Hw). destruct (g f) as [f'| |] eqn:Eg; [cbn|done..].
  intros [= <-]. apply bool_decide_eq_true in Hn. exists l1, f, l2, f'. by rewrite Hw.
Qed.
Lemma fields_ext m m' : m_name m' = m_name m -> m_id_fields m' = m_id_fields m -> m_indices m' = m_indices m ->
  (forall n f, find_field m n = Some f -> has_column f = true -> exists f', find_field m' n = Some f' /\ has_column f' = true) -> model_ext m m'.
Proof. intros H1 H2 H3 H4. split; [done| |done..]. intros n (f & Hf & Hc). by eapply H4. Qed.
Lemma add_fields_ext m m' l : m_name m' = m_name m -> m_id_fields m' = m_id_fields m -> m_indices m' = m_indices m ->
  m_fields m' = m_fields m ++ l -> model_ext m m'.
Proof.
  intros H1 H2 H3 H4. apply fields_ext; [done..|]. intros n f Hf Hc. exists f. split; [|done]. unfold find_field in *.
  by rewrite H4, iter_find_app, Hf.
Qed.
Lemma replace_field_ext m l1 f f' l2 : m_fields m = l1 ++ f :: l2 -> f_name f' = f_name f -> has_column f' = has_column f ->
  model_ext m (set_model_fields (l1 ++ f' :: l2) m).
Proof.
  intros Hm Hn Hc. apply fields_ext; [done..|]. intros n g. unfold find_field. cbn. rewrite Hm, !iter_find_app.
  destruct (iter_find _ l1); [eauto|]. cbn. rewrite Hn. destruct (f_name f ≟ n); [|eauto]. intros [= <-] Hg. exists f'. by rewrite Hc.
Qed.
Lemma replace_field_names l1 f f' l2 : f_name f' = f_name f -> f_name <$> (l1 ++ f' :: l2) = f_name <$> (l1 ++ f :: l2).
Proof. intros Hn. by rewrite !fmap_app, !fmap_cons, Hn. Qed.

(** ** Naming relations *)
Lemma name_relation_good {E} d r d' : name_relation (E := E) d r = Ok d' -> datamodel_good d -> datamodel_good d' /\ datamodel_ext d d'.
Proof.
  destruct r as [[mn fn] ri]. unfold name_relation. intros Hu Hd.
  apply update_model_Ok in Hu as (l1 & m & l2 & m' & Hdm & Hfm & Hmn & Hg & Hd' & He).
  apply update_field_Ok in Hg as (k1 & f & k2 & f' & Hf & Hfn & Hf' & ->).
  destruct (f_type f) as [|i| | |] eqn:Et; try done. injection Hf' as <-. match type of Hd' with context [set_f_type ?t f] => set (f' := set_f_type t f) in Hd' end.
  assert (Hin : m ∈ dm_models d) by (rewrite Hdm; set_solver). assert (Hff : f ∈ m_fields m) by (rewrite Hf; set_solver).
  assert (Hext : model_ext m (set_model_fields (k1 ++ f' :: k2) m)).
  { apply (replace_field_ext m k1 f); [done..|]. unfold has_column. cbn. by rewrite Et. }
  assert (Hde : datamodel_ext d d') by (split; [rewrite Hdm, Hd'; apply Forall2_app; [reflexivity|by constructor]|done]).
  eapply replace_model; [exact Hd|exact Hdm|exact Hd'|exact He|exact Hext| |].
  - cbn. intros g Hgin. assert (Hcase : g = f' \/ g ∈ m_fields m) by (rewrite Hf; set_solver). destruct Hcase as [->|Hgm].
    + pose proof (mg_fields _ _ (dg_models _ Hd m Hin) f Hff) as Hgood. pose proof (dg_generated _ Hd m f Hin Hff) as Hgen.
      apply (field_good_ext _ _ _ _ _ Hde Hext) in Hgood. unfold field_good, generated_good in *. rewrite Et in *. cbn.
      split; [exact Hgood|]. intros (i' & [= <-] & Hor)%Hgen. eauto.
    + split; [|by apply (dg_generated _ Hd m)]. by apply (field_good_ext _ _ _ _ _ Hde Hext), (mg_fields _ _ (dg_models _ Hd m Hin)).
  - cbn. rewrite (replace_field_names k1 f) by done. rewrite <-Hf. by apply (dg_fields _ Hd).
Qed.
Lemma name_unnamed_good {E} d d' : name_unnamed_relations (E := E) d = Ok d' -> datamodel_good d -> datamodel_good d' /\ datamodel_ext d d'.
Proof.
  intros Hn Hd. refine (for_each_inv _ (fun x => datamodel_good x /\ datamodel_ext d x) _ _ _ _ _ Hn); [|by split].
  intros x r x' _ [Hx Hex] Hr. destruct (name_relation_good _ _ _ Hr Hx) as [? ?]. split; [done|by etransitivity].
Qed.

(** ** Unique criteria *)
Lemma good_id_column d m f : model_good d m -> f ∈ m_fields m -> f_is_id f = true \/ f_is_unique f = true -> has_column f = true.
Proof.
  intros Hm Hf Hid. pose proof (mg_fields _ _ Hm f Hf) as Hg. eapply good_column; [exact Hg|]. unfold field_good in Hg.
  destruct (f_type f); try done. destruct Hg as (H1 & H2 & _). destruct Hid; congruence.
Qed.
(** The fields looked up for an id or an index. *)
Lemma lookup_columns {E} m (names : list string) fs : (forall n, n ∈ names -> column_field m n) ->
  map_m (E := E) (fun n => unwrap "find_field" (find_field m n)) names = Ok fs ->
  forall f, f ∈ fs -> f ∈ m_fields m /\ has_column f = true.
Proof.
  intros Hc Hm f Hf. destruct (map_m_elem _ _ _ _ Hm Hf) as (n & Hn & Hu). destruct (Hc n Hn) as (g & Hg & Hcol).
  rewrite Hg in Hu. injection Hu as ->. by apply find_field_Some in Hg as [Hg _].
Qed.
Lemma map_m_length {E A B} (f : A -> outcome E B) l l' : map_m f l = Ok l' -> length l' = length l.
Proof.
  revert l'. induction l as [|x l IH]; intros l'; cbn; [by intros [= <-]|]. destruct (f x); [cbn|done..].
  destruct (map_m f l); [cbn|done..]. intros [= <-]. cbn. f_equal. by apply IH.
Qed.
Definition indexes_named (m : Model) : Prop := forall i, i ∈ m_indices m -> ix_fields i <> [].
Lemma unique_criterias_spec {E} allow d m cs : model_good d m -> unique_criterias (E := E) allow m = Ok cs ->
  forall c, c ∈ cs -> (forall f, f ∈ c -> f ∈ m_fields m /\ has_column f = true) /\ (indexes_named m -> c <> []).
Proof.
  intros Hm Hu c Hc. unfold unique_criterias in Hu.
  destruct (map_m _ (m_id_fields m)) as [ids| |] eqn:Eids; [cbn [mbind outcome_bind] in Hu|done..].
  destruct (map_m _ (iter_filter _ (m_indices m))) as [ixs| |] eqn:Eix; [cbn [mbind outcome_bind] in Hu|done..].
  injection Hu as <-. rewrite !elem_of_app in Hc. destruct Hc as [Hc|[Hc|[Hc|Hc]]].
  - destruct (head _) as [x|] eqn:Eh; [|by apply elem_of_nil in Hc]. apply list_elem_of_singleton in Hc as ->. split; [|done].
    intros f ->%list_elem_of_singleton. apply head_Some_elem_of, iter_filter_elem in Eh as [Hx Hid]. split; [done|]. eapply good_id_column; eauto.
  - destruct ids as [|x ids]; [by apply elem_of_nil in Hc|]. apply list_elem_of_singleton in Hc as ->. split; [|done].
    eapply lookup_columns; [|exact Eids]. apply (mg_ids _ _ Hm).
  - apply list_elem_of_fmap in Hc as (x & -> & [Hx [Hun _]%andb_true_iff]%iter_filter_elem). split; [|done].
    intros f ->%list_elem_of_singleton. split; [done|]. eapply good_id_column; eauto.
  - destruct (map_m_elem _ _ _ _ Eix Hc) as (i & [Hi _]%iter_filter_elem & Hl). split.
    + eapply lookup_columns; [|exact Hl]. intros n. by apply (mg_indices _ _ Hm).
    + intros Hne ->. apply map_m_length in Hl. apply (Hne i Hi). by destruct (ix_fields i).
Qed.
Lemma criterion_columns d m (c : list Field) : datamodel_good d -> m ∈ dm_models d -> (forall f, f ∈ c -> f ∈ m_fields m /\ has_column f = true) ->
  forall n, n ∈ f_name <$> c -> column_field m n.
Proof.
  intros Hd Hm Hc n (f & -> & Hf)%list_elem_of_fmap. destruct (Hc f Hf) as [Hin Hcol]. exists f. split; [|done].
  apply find_field_elem; [|done]. by apply (dg_fields _ Hd).
Qed.

(** ** Names of generated fields *)
Definition capital (s : string) : bool := match s with String c _ => in_range "A" "Z" c | EmptyString => false end.
Lemma in_range_lower c : in_range "A" "Z" c = true -> char_width c = 1 /\ in_range "A" "Z" (ascii_lower c) = false.
Proof. destruct c as [[] [] [] [] [] [] [] []]; vm_compute; done. Qed.
Lemma underlying_not_capital m f : capital (m_name m) = true ->
  capital (f_name (underlying_field (m_name m) f)) = false /\ forall s, capital (f_name (underlying_field (m_name m) f) +:+ s) = false.
Proof.
  unfold capital. cbn. unfold camel_case, map_first. destruct (m_name m) as [|c r]; [done|].
  intros [Hw Hl]%in_range_lower. rewrite Hw. cbn. split; [|intros s]; exact Hl.
Qed.

(** ** Missing back relations *)
Record underlying_good (d : Datamodel) (u : Field) : Prop := {
  ug_column : has_column u = true;
  ug_good : forall m, field_good d m u;
  ug_generated : f_is_generated u = false;
  ug_name : capital (f_name u) = false;
}.
Record back_good (d : Datamodel) (x : AddMissingBackRelationField) (model rm : Model) (i : RelationInfo) : Prop := {
  bg_model : model ∈ dm_models d;
  bg_related : find_model d (ab_model x) = Some rm;
  bg_type : f_type (ab_field x) = RelationType i;
  bg_name : f_name (ab_field x) = m_name model;
  bg_plain : f_is_id (ab_field x) = false /\ f_is_unique (ab_field x) = false;
  bg_to : ri_to i = m_name model;
  bg_some : f_arity (ab_field x) = ListField \/ ri_fields i <> [];
  bg_to_fields : forall n, n ∈ ri_to_fields i -> column_field model n;
  bg_fields : forall n, n ∈ ri_fields i ->
    column_field rm n \/ exists u, u ∈ ab_underlying_fields x /\ f_name u = n /\ find_field rm n = None;
  bg_underlying : forall u, u ∈ ab_underlying_fields x -> underlying_good d u;
}.
Lemma compatible_column a b : is_compatible_with (f_type a) (f_type b) = true -> has_column b = true -> has_column a = true.
Proof.
  unfold has_column, is_compatible_with. destruct (f_type a) as [| | | |], (f_type b); try done; intros Hb%bool_decide_eq_true; done.
Qed.
Lemma underlying_to_add_spec m rm f ast us kept es added : for_each (underlying_to_add m rm f ast) us (kept, es) = Ok (added, []) ->
  es = [] /\ (forall u, u ∈ kept -> u ∈ added) /\ (forall u, u ∈ added -> u ∈ kept \/ u ∈ us) /\
  forall u, u ∈ us -> (find_field rm (f_name u) = None /\ u ∈ added) \/
    exists other, find_field rm (f_name u) = Some other /\ is_compatible_with (f_type other) (f_type u) = true.
Proof.
  revert kept es. induction us as [|u us IH]; intros kept es; cbn [for_each].
  { intros [= -> ->]. split_and!; [done|done|by left|by intros u Hu%elem_of_nil]. }
  set (st := underlying_to_add m rm f ast (kept, es) u). unfold underlying_to_add in st. subst st.
  destruct (find_field rm (f_name u)) as [other|] eqn:Ef.
  - destruct (is_compatible_with (f_type other) (f_type u)) eqn:Ec; [cbn [mbind outcome_bind]|].
    + intros (-> & H1 & H2 & H3)%IH. split_and!; [done|done|intros v Hv; destruct (H2 v Hv); set_solver|].
      intros v [->|Hv]%elem_of_cons; [|by apply H3]. right. eauto.
    + destruct (Ast.find_model _ _); [cbn|done]. intros (He & _)%IH. by apply app_nil_iff in He as [_ He].
  - cbn. intros (-> & H1 & H2 & H3)%IH. split_and!; [done|intros v Hv; apply H1; set_solver|intros v Hv; destruct (H2 v Hv); set_solver|].
    intros v [->|Hv]%elem_of_cons; [|by apply H3]. left. split; [done|]. apply H1. set_solver.
Qed.
Lemma underlying_field_good d m f rm rel : datamodel_good d -> m ∈ dm_models d -> capital (m_name m) = true ->
  f ∈ m_fields m -> has_column f = true -> underlying_good d (rename_underlying rm rel (underlying_field (m_name m) f)).
Proof.
  intros Hd Hm Hcap Hf Hc. pose proof (mg_fields _ _ (dg_models _ Hd m Hm) f Hf) as Hg.
  assert (Hu : forall n, underlying_good d (set_f_name n (underlying_field (m_name m) f)) <-> capital n = false).
  { intros n. split; [by intros []|]. intros Hn. split; [done| |done|done]. intros m'. unfold field_good, has_column in *. cbn.
    destruct (f_type f); try done. by destruct Hg. }
  assert (Hself : underlying_good d (underlying_field (m_name m) f)).
  { apply (Hu (f_name (underlying_field (m_name m) f))). by apply underlying_not_capital. }
  unfold rename_underlying. destruct (find_field _ _); [|done]. destruct (is_compatible_with _ _); [done|]. apply Hu. by apply underlying_not_capital.
Qed.
Lemma missing_back_relation_good d model rm ast field rel x : datamodel_good d -> model ∈ dm_models d ->
  find_model d (ri_to rel) = Some rm -> capital (m_name model) = true -> indexes_named model ->
  missing_back_relation model rm ast field rel = Ok (x, []) -> exists i, back_good d x model rm i.
Proof.
  intros Hd Hm Hrm Hcap Hix. unfold missing_back_relation. destruct (is_singular (f_arity field)).
  - intros [= <-]. eexists. split; cbn; try done; eauto; by intros n Hn%elem_of_nil.
  - unfold unique_criteria. destruct (loose_unique_criterias model) as [cs| |] eqn:Ecs; [cbn [mbind outcome_bind]|done..].
    destruct (head cs) as [c|] eqn:Eh; [cbn [unwrap mbind outcome_bind]|done]. apply head_Some_elem_of in Eh.
    destruct (unique_criterias_spec _ d model _ (dg_models _ Hd model Hm) Ecs c Eh) as [Hc Hne].
    set (us := rename_underlying rm rel <$> _).
    destruct (for_each _ us _) as [[added es]| |] eqn:Ef; [cbn [mbind outcome_bind fst snd]|done..]. intros [= <- ->].
    apply underlying_to_add_spec in Ef as (_ & _ & H2 & H3).
    assert (Hus : forall u, u ∈ us -> underlying_good d u).
    { intros u Hu. unfold us in Hu. apply list_elem_of_fmap in Hu as (u' & -> & (f & -> & Hf)%list_elem_of_fmap).
      destruct (Hc f Hf). by apply (underlying_field_good d model). }
    eexists. split; cbn; try done.
    + right. intros Hnil. apply (Hne Hix). unfold us, underlying_fields_for_unique_criteria in Hnil. by destruct c.
    + by eapply criterion_columns.
    + intros n (u & -> & Hu)%list_elem_of_fmap. destruct (H3 u Hu) as [[Hnone Hadd]|(o & Ho & Hcomp)].
      * right. eauto.
      * left. exists o. split; [done|]. eapply compatible_column; [exact Hcomp|]. apply (ug_column _ _ (Hus u Hu)).
    + intros u Hu. destruct (H2 u Hu) as [?%elem_of_nil|?]; [done|by apply Hus].
Qed.
Definition back_wanted (d : Datamodel) (x : AddMissingBackRelationField) : Prop := exists model rm i, back_good d x model rm i.
Lemma find_missing_good d model ast l : datamodel_good d -> model ∈ dm_models d -> capital (m_name model) = true -> indexes_named model ->
  find_missing_back_relation_fields model d ast = Ok l -> Forall (back_wanted d) l.
Proof.
  intros Hd Hm Hcap Hix. unfold find_missing_back_relation_fields.
  destruct (for_each _ _ _) as [[l' es]| |] eqn:Ef; [cbn [mbind outcome_bind fst snd]|done..].
  destruct (errors_ok es) as [[]| |] eqn:Ee; [cbn|done..]. intros [= <-]. apply errors_ok_Ok in Ee as ->.
  refine (for_each_inv _ (fun s => s.2 = [] -> Forall (back_wanted d) s.1) _ _ _ _ _ Ef eq_refl); [|constructor].
  intros s f s' _ IH Hs Hnil. destruct (f_type f) as [|rel| | |]; try (injection Hs as <-; by apply IH).
  destruct (find_model d (ri_to rel)) as [rm|] eqn:Erm; [cbn [unwrap mbind outcome_bind] in Hs|done].
  destruct (model_related_field _ _ _ _); [injection Hs as <-; by apply IH|].
  destruct (missing_back_relation _ _ _ _ _) as [[x es]| |] eqn:Ex; [cbn in Hs|done..]. injection Hs as <-. cbn in *.
  apply app_nil_iff in Hnil as [Hnil ->]. apply Forall_app. split; [by apply IH|]. constructor; [|constructor].
  destruct (missing_back_relation_good d model rm ast f rel x Hd Hm Erm Hcap Hix Ex) as [i Hi]. by exists model, rm, i.
Qed.
Lemma all_missing_good d ast ls : datamodel_good d -> (forall m, m ∈ dm_models d -> capital (m_name m) = true /\ indexes_named m) ->
  map_m (fun m => find_missing_back_relation_fields m d ast) (dm_models d) = Ok ls -> Forall (back_wanted d) (mjoin ls).
Proof.
  intros Hd Hall Hm. apply Forall_forall. intros x (l & Hx & Hl)%list_elem_of_join. destruct (map_m_elem _ _ _ _ Hm Hl) as (m & Hin & Hf).
  destruct (Hall m Hin) as [Hc Hi]. pose proof (find_missing_good d m ast l Hd Hin Hc Hi Hf) as HF. rewrite Forall_forall in HF. by apply HF.
Qed.

(** ** Adding them *)
Record model_grown (m m' : Model) : Prop := {
  gr_ext : model_ext m m';
  gr_new : forall f, f ∈ m_fields m' -> has_column f = true \/ capital (f_name f) = true \/ has_field m (f_name f) = true;
}.
Lemma model_grown_refl l : Forall2 model_grown l l.
Proof.
  induction l as [|m l IH]; constructor; [|done]. split; [reflexivity|]. intros f Hf. right; right. unfold has_field.
  destruct (find_field m (f_name f)) eqn:Ef; [done|]. unfold find_field in Ef. rewrite iter_find_None in Ef. specialize (Ef f Hf). cbv beta in Ef.
  by rewrite bool_decide_eq_true_2 in Ef.
Qed.
Definition named_columns (m : Model) (n : string) : Prop := forall f, f ∈ m_fields m -> f_name f = n -> has_column f = true.
Lemma has_field_elem m n : has_field m n = true <-> exists f, f ∈ m_fields m /\ f_name f = n.
Proof.
  unfold has_field. destruct (find_field m n) as [f|] eqn:Ef.
  - apply find_field_Some in Ef. split; [eauto|done].
  - split; [done|]. intros (f & Hf & Hn). unfold find_field in Ef. rewrite iter_find_None in Ef. specialize (Ef f Hf). cbv beta in Ef.
    by rewrite bool_decide_eq_true_2 in Ef.
Qed.
Lemma named_column_field m n : named_columns m n -> has_field m n = true -> column_field m n.
Proof.
  intros Hn. unfold has_field, column_field. destruct (find_field m n) as [f|] eqn:Ef; [|done]. intros _. exists f. split; [done|].
  apply find_field_Some in Ef as [Hf Hfn]. by apply Hn.
Qed.
Record fields_added (m m' : Model) (us : list Field) : Prop := {
  fa_fields : exists l, m_fields m' = m_fields m ++ l /\ forall f, f ∈ l -> f ∈ us;
  fa_same : m_name m' = m_name m /\ m_id_fields m' = m_id_fields m /\ m_indices m' = m_indices m;
  fa_nodup : NoDup (f_name <$> m_fields m) -> NoDup (f_name <$> m_fields m');
  fa_has : forall u, u ∈ us -> has_field m' (f_name u) = true;
}.
Lemma add_field_added m f : has_field m (f_name f) = false -> fields_added m (add_field f m) [f].
Proof.
  intros Hf. split; [exists [f]; done|done| |].
  - intros Hnd. cbn. rewrite fmap_app. apply NoDup_app. split_and!; [done| |by apply NoDup_singleton].
    intros n (g & -> & Hg)%list_elem_of_fmap Hn%list_elem_of_singleton. apply not_true_iff_false in Hf. apply Hf, has_field_elem. eauto.
  - intros u ->%list_elem_of_singleton. apply has_field_elem. exists f. cbn. set_solver.
Qed.
Lemma fields_added_trans m1 m2 m3 us vs : fields_added m1 m2 us -> fields_added m2 m3 vs -> fields_added m1 m3 (us ++ vs).
Proof.
  intros [(l1 & F1 & I1) (N1 & D1 & X1) U1 H1] [(l2 & F2 & I2) (N2 & D2 & X2) U2 H2]. split; [|split_and!; congruence|auto|].
  - exists (l1 ++ l2). rewrite F2, F1, (assoc_L app). split; [done|]. set_solver.
  - intros u [Hu|Hu]%elem_of_app; [|by apply H2]. apply H1, has_field_elem in Hu as (f & Hf & Hn). apply has_field_elem. exists f.
    rewrite F2. set_solver.
Qed.
Lemma add_underlying_added us m : fields_added m (foldl add_underlying m us) us.
Proof.
  revert m. induction us as [|u us IH]; intros m; cbn [foldl].
  { split; [exists []; by rewrite app_nil_r|done|done|by intros u Hu%elem_of_nil]. }
  apply (fields_added_trans _ (add_underlying m u) _ [u]); [|apply IH]. unfold add_underlying.
  destruct (has_field m (f_name u)) eqn:Eh; [|by apply add_field_added]. split; [exists []; split; [by rewrite app_nil_r|set_solver]|done|done|].
  by intros v ->%list_elem_of_singleton.
Qed.
Lemma fields_added_ext m m' us : fields_added m m' us -> model_ext m m'.
Proof. intros [(l & Hl & _) (? & ? & ?) _ _]. by eapply add_fields_ext. Qed.
(** Fields that are added under new names, or all of them columns, are columns in the end. *)
Lemma fields_added_columns m m' us n : fields_added m m' us -> named_columns m n ->
  (forall u, u ∈ us -> f_name u = n -> has_column u = true) -> n ∈ f_name <$> us -> column_field m' n.
Proof.
  intros [(l & Hl & Hin) _ _ Hhas] Hm Hu (u & -> & Hus)%list_elem_of_fmap. apply named_column_field; [|by apply Hhas].
  intros f Hf Hn. rewrite Hl in Hf. apply elem_of_app in Hf as [Hf|Hf]; [by apply Hm|]. apply Hu; [by apply Hin|done].
Qed.
Section add_back.
Context (d0 d d' : Datamodel) (x : AddMissingBackRelationField) (model rm cm m' : Model) (i : RelationInfo) (l1 l2 : list Model).
Context (Hd0 : datamodel_good d0) (Hd : datamodel_good d) (Hgr : Forall2 model_grown (dm_models d0) (dm_models d)) (Hen : dm_enums d = dm_enums d0).
Context (Hx : back_good d0 x model rm i) (Hcap : capital (m_name model) = true).
Context (Hdm : dm_models d = l1 ++ cm :: l2) (Hcm : find_model d (ab_model x) = Some cm).
Context (Hadd : fields_added cm m' (ab_field x :: ab_underlying_fields x)).
Context (Hd' : dm_models d' = l1 ++ m' :: l2) (He : dm_enums d' = dm_enums d).

Lemma back_grown : model_grown rm cm.
Proof.
  destruct (Forall2_find_model model_grown _ _ _ _ Hgr (fun x y H => me_name _ _ (gr_ext _ _ H)) (bg_related _ _ _ _ _ Hx)) as (cm' & Hcm' & Hg).
  unfold find_model in Hcm. rewrite Hcm in Hcm'. by injection Hcm' as <-.
Qed.
Lemma back_ext : datamodel_ext d d'.
Proof. split; [|done]. rewrite Hdm, Hd'. apply Forall2_app; [reflexivity|]. constructor; [by eapply fields_added_ext|reflexivity]. Qed.
Lemma back_ext0 : datamodel_ext d0 d'.
Proof. etransitivity; [|apply back_ext]. split; [|done]. eapply Forall2_impl; [exact Hgr|by intros ? ? []]. Qed.
Lemma back_field_column n : n ∈ ri_fields i -> column_field m' n.
Proof.
  intros Hn. pose proof (fields_added_ext _ _ _ Hadd) as Hext. destruct (bg_fields _ _ _ _ _ Hx n Hn) as [Hc|(u & Hu & <- & Hnone)].
  - apply (me_columns _ _ Hext), (me_columns _ _ (gr_ext _ _ back_grown)), Hc.
  - pose proof (ug_name _ _ (bg_underlying _ _ _ _ _ Hx u Hu)) as Hlow. apply (fields_added_columns _ _ _ _ Hadd).
    + intros f Hf Hfn. destruct (gr_new _ _ back_grown f Hf) as [?|[Hcf|Hhas]]; [done| |].
      * rewrite Hfn in Hcf. congruence.
      * rewrite Hfn in Hhas. unfold has_field in Hhas. by rewrite Hnone in Hhas.
    + intros v [->|Hv]%elem_of_cons Hvn; [|by apply (ug_column _ _ (bg_underlying _ _ _ _ _ Hx v Hv))].
      rewrite (bg_name _ _ _ _ _ Hx) in Hvn. congruence.
    + apply list_elem_of_fmap_2. by constructor.
Qed.
Lemma back_field_good : field_good d' m' (ab_field x).
Proof.
  unfold field_good. rewrite (bg_type _ _ _ _ _ Hx). destruct (bg_plain _ _ _ _ _ Hx). split_and!; [done..|apply back_field_column|].
  pose proof (find_model_elem _ _ (dg_names _ Hd0) (bg_model _ _ _ _ _ Hx)) as Hfm. rewrite (bg_to _ _ _ _ _ Hx).
  destruct (find_model_ext _ _ _ _ back_ext0 Hfm) as (model' & -> & Hext). exists model'. split; [done|].
  intros n Hn. by apply (me_columns _ _ Hext), (bg_to_fields _ _ _ _ _ Hx).
Qed.
Lemma back_relation_good : datamodel_good d' /\ Forall2 model_grown (dm_models d0) (dm_models d').
Proof.
  assert (Hcin : cm ∈ dm_models d) by (by apply find_model_Some in Hcm as [? _]).
  pose proof (fields_added_ext _ _ _ Hadd) as Hext. destruct Hadd as [(l & Hl & Hin) _ Hnd _]. split.
  - eapply replace_model; [exact Hd|exact Hdm|exact Hd'|exact He|exact Hext| |apply Hnd; by apply (dg_fields _ Hd)].
    rewrite Hl. intros f [Hf|[->|Hu]%Hin%elem_of_cons]%elem_of_app.
    + split; [|by apply (dg_generated _ Hd cm)]. by apply (field_good_ext _ _ _ _ _ back_ext Hext), (mg_fields _ _ (dg_models _ Hd cm Hcin)).
    + split; [apply back_field_good|]. intros _. exists i. split; [apply (bg_type _ _ _ _ _ Hx)|apply (bg_some _ _ _ _ _ Hx)].
    + pose proof (bg_underlying _ _ _ _ _ Hx f Hu) as Hug. split.
      * eapply field_good_ext; [apply back_ext0|reflexivity|apply (ug_good _ _ Hug)].
      * intros Hg. by rewrite (ug_generated _ _ Hug) in Hg.
  - rewrite Hd'. rewrite Hdm in Hgr. apply Forall2_app_inv_r in Hgr as (k1 & k2 & F1 & F2 & Hk).
    inversion F2 as [|m0 ? k3 ? Hm0 F3]; subst. rewrite Hk. apply Forall2_app; [done|]. constructor; [|done]. destruct Hm0 as [E0 N0].
    split; [by etransitivity|]. rewrite Hl. intros f [Hf|[->|Hu]%Hin%elem_of_cons]%elem_of_app; [by apply N0| |].
    + right; left. by rewrite (bg_name _ _ _ _ _ Hx).
    + left. apply (ug_column _ _ (bg_underlying _ _ _ _ _ Hx f Hu)).
Qed.
End add_back.

(** What the phases after naming need of the models: names in upper case, indexes with fields. *)
Definition models_named (d : Datamodel) : Prop := forall m, m ∈ dm_models d -> capital (m_name m) = true /\ indexes_named m.
Lemma add_missing_good ast d d' : add_missing_back_relations ast d = Ok d' -> datamodel_good d -> models_named d ->
  datamodel_good d' /\ datamodel_ext d d'.
Proof.
  unfold add_missing_back_relations. destruct (map_m _ _) as [ls| |] eqn:El; [cbn [mbind outcome_bind]|done..].
  destruct (for_each _ _ _) as [[d1 es]| |] eqn:Ef; [cbn [mbind outcome_bind fst snd]|done..].
  destruct (errors_ok es) as [[]| |] eqn:Ee; [cbn|done..]. intros [= <-] Hd Hnm.
  pose proof (all_missing_good d ast ls Hd Hnm El) as Hall. rewrite Forall_forall in Hall.
  assert (HI : datamodel_good d1 /\ Forall2 model_grown (dm_models d) (dm_models d1) /\ dm_enums d1 = dm_enums d).
  { refine (for_each_inv _ (fun s => datamodel_good s.1 /\ Forall2 model_grown (dm_models d) (dm_models s.1) /\ dm_enums s.1 = dm_enums d)
      _ _ (d1, es) _ _ Ef).
    - clear Ef Ee. intros [c errs] x [c' errs'] Hx (Hc & Hgr & Hen) Hstep. cbn in Hc, Hgr, Hen. cbn [fst].
      unfold add_back_relation in Hstep. destruct (find_model c (ab_model x)) as [cm|] eqn:Ecm; [cbn [unwrap mbind outcome_bind] in Hstep|done].
      destruct (has_field cm (f_name (ab_field x))) eqn:Eh.
      + destruct (find_model c (ab_related_model x)) as [sm|]; [cbn [unwrap mbind outcome_bind] in Hstep|done].
        destruct (find_field sm _) as [sf|]; [cbn [unwrap mbind outcome_bind] in Hstep|done].
        destruct (field_validation_error _ _ _ _); [cbn in Hstep|done..]. by injection Hstep as <- _.
      + destruct (update_model _ _ _) as [c2| |] eqn:Eu; [cbn in Hstep|done..]. injection Hstep as <- _.
        apply update_model_Ok in Eu as (l1 & m & l2 & m' & Hdm & Hfm & _ & Hg & Hd' & He). injection Hg as <-.
        rewrite Hfm in Ecm. injection Ecm as ->. destruct (Hall x Hx) as (model & rm & i & Hbg).
        assert (Hadd : fields_added cm (foldl add_underlying (add_field (ab_field x) cm) (ab_underlying_fields x)) (ab_field x :: ab_underlying_fields x)).
        { apply (fields_added_trans _ (add_field (ab_field x) cm) _ [ab_field x]); [by apply add_field_added|apply add_underlying_added]. }
        destruct (back_relation_good d c c2 x model rm cm _ i l1 l2 Hd Hc Hgr Hen Hbg (proj1 (Hnm _ (bg_model _ _ _ _ _ Hbg))) Hdm Hfm Hadd Hd' He) as [HA HB].
        split_and!; [exact HA|exact HB|by rewrite He].
    - cbn. split_and!; [done| |done]. apply model_grown_refl. }
  destruct HI as (HA & HB & HC). split; [done|]. split; [|done]. eapply Forall2_impl; [exact HB|by intros ? ? []].
Qed.

(** ** Referenced fields *)
(** A model while its fields are visited: as many fields, all of them good. *)
Record model_visited (d : Datamodel) (m m' : Model) : Prop := {
  mv_ext : model_ext m m';
  mv_names : f_name <$> m_fields m' = f_name <$> m_fields m;
  mv_good : forall f, f ∈ m_fields m' -> field_good d m' f /\ generated_good f;
}.
Lemma first_criterion_columns {E} d m c : datamodel_good d -> m ∈ dm_models d -> first_unique_criterion (E := E) m = Ok c ->
  forall n, n ∈ f_name <$> c -> column_field m n.
Proof.
  intros Hd Hm. unfold first_unique_criterion, strict_unique_criterias.
  destruct (unique_criterias false m) as [cs| |] eqn:Ecs; [cbn [mbind outcome_bind]|done..]. destruct (head cs) as [c'|] eqn:Eh; [|done].
  intros [= <-]. apply head_Some_elem_of in Eh. eapply criterion_columns; [done..|].
  by apply (unique_criterias_spec _ d m _ (dg_models _ Hd m Hm) Ecs c').
Qed.
(** Writing the relation info of a field, with good scalar fields. *)
Lemma write_info_visited d m m' k f rel rel' : model_visited d m m' -> m_fields m' !! k = Some f -> f_type f = RelationType rel ->
  ri_to rel' = ri_to rel -> ri_fields rel' = ri_fields rel ->
  (forall rm, find_model d (ri_to rel) = Some rm -> forall n, n ∈ ri_to_fields rel' -> column_field rm n) ->
  model_visited d m (set_model_fields (<[k := set_f_type (RelationType rel') f]> (m_fields m')) m').
Proof.
  intros [Hext Hnames Hgood] Hk Ht Hto Hfs Hcols. pose proof (take_drop_middle _ _ _ Hk) as Hsplit.
  assert (Hins : <[k := set_f_type (RelationType rel') f]> (m_fields m') = take k (m_fields m') ++ set_f_type (RelationType rel') f :: drop (S k) (m_fields m')).
  { apply insert_take_drop. by apply lookup_lt_Some in Hk. }
  assert (Hext' : model_ext m' (set_model_fields (<[k := set_f_type (RelationType rel') f]> (m_fields m')) m')).
  { rewrite Hins. apply (replace_field_ext m' _ f); [done..|]. unfold has_column. cbn. by rewrite Ht. }
  split; [by etransitivity|cbn; rewrite Hins, (replace_field_names _ f) by done; by rewrite Hsplit|]. cbn [m_fields set_model_fields]. intros g Hg.
  assert (Hcase : g = set_f_type (RelationType rel') f \/ g ∈ m_fields m') by (rewrite Hins in Hg; rewrite <-Hsplit; set_solver).
  destruct Hcase as [->|Hgm].
  - destruct (Hgood f) as [Hgf Hgen]; [by eapply list_elem_of_lookup_2|].
    apply (field_good_ext d d _ _ _ (reflexivity d) Hext') in Hgf. unfold field_good, generated_good in *. cbn. rewrite Ht in *.
    destruct Hgf as (H1 & H2 & H3 & rm & Hrm & H4). rewrite Hto, Hfs. split; [split_and!; [done..|]; eauto|].
    intros (i & [= <-] & Hor)%Hgen. exists rel'. by rewrite Hfs.
  - destruct (Hgood g Hgm) as [Hgf Hgen]. split; [|done]. by apply (field_good_ext d d _ _ _ (reflexivity d) Hext').
Qed.
Lemma set_to_fields_visited {E} d criteria m m' k m2 : datamodel_good d -> model_visited d m m' ->
  set_to_fields (E := E) d criteria m' k = Ok m2 -> model_visited d m m2.
Proof.
  intros Hd Hv. unfold set_to_fields. destruct (m_fields m' !! k) as [f|] eqn:Ek; [cbn [unwrap mbind outcome_bind]|done].
  destruct (f_type f) as [|rel| | |] eqn:Et; try (by intros [= <-]).
  destruct (find_model d (ri_to rel)) as [rm|] eqn:Erm; [cbn [unwrap mbind outcome_bind]|done].
  destruct (model_related_field _ _ _ _) as [rf|]; [cbn [unwrap mbind outcome_bind]|done].
  destruct (f_type rf) as [|rrel| | |]; try done. cbn [mbind outcome_bind].
  destruct (embed_here m' rm f rf) eqn:Eemb; [|by intros [= <-]].
  destruct (mv_good _ _ _ Hv f) as [Hgf Hgen]; [by eapply list_elem_of_lookup_2|].
  match goal with |- mbind _ ?r = _ -> _ => destruct r as [rel'| |] eqn:Er; [cbn [mbind outcome_bind]|done..] end.
  assert (Hrel' : ri_to rel' = ri_to rel /\ ri_fields rel' = ri_fields rel /\
    forall rm, find_model d (ri_to rel) = Some rm -> forall n, n ∈ ri_to_fields rel' -> column_field rm n).
  { unfold field_good in Hgf. rewrite Et in Hgf. destruct Hgf as (_ & _ & _ & rm' & Hrm' & Hcols).
    destruct (_ && _); [|injection Er as <-; split_and!; [done..|]; intros rm2 Hrm2; rewrite Hrm' in Hrm2; injection Hrm2 as <-; exact Hcols].
    destruct (first_unique_criterion rm) as [c| |] eqn:Ec; [cbn in Er|done..]. injection Er as <-. split_and!; [done..|].
    rewrite Erm. intros rm2 [= <-]. cbn. eapply first_criterion_columns; [exact Hd|by apply find_model_Some in Erm as [? _]|exact Ec]. }
  destruct Hrel' as (Hto & Hfs & Hcols).
  destruct (_ && f_is_generated f) eqn:Edead.
  - exfalso. apply andb_true_iff in Edead as [[Hm2m [Hnil _]%andb_true_iff]%andb_true_iff Hg].
    destruct (Hgen Hg) as (i & Hi & Hor). rewrite Et in Hi. injection Hi as <-. rewrite Hfs in Hnil. destruct Hor as [Hl|Hne]; [|by destruct (ri_fields rel)].
    rewrite Hl in Hm2m. unfold embed_here in Eemb. rewrite Hl in Eemb. destruct (f_arity rf); [done..|]. done.
  - intros [= <-]. by eapply write_info_visited.
Qed.
Lemma set_relation_to_field_good {E} d d' : set_relation_to_field_to_id_if_missing (E := E) d = Ok d' -> datamodel_good d ->
  datamodel_good d' /\ datamodel_ext d d'.
Proof.
  unfold set_relation_to_field_to_id_if_missing. destruct (map_m _ _) as [ms| |] eqn:Em; [cbn|done..]. intros [= <-] Hd.
  assert (HF : Forall2 (model_visited d) (dm_models d) ms).
  { apply map_m_Forall2 in Em. eapply Forall2_impl_elem; [exact Em|]. intros m m' Hm Hs. unfold set_model_to_fields in Hs.
    destruct (unique_criteria m) as [criteria| |]; [cbn [mbind outcome_bind] in Hs|done..].
    refine (for_each_inv _ (model_visited d m) _ _ _ _ _ Hs); [intros s k s' _ Hv; by apply set_to_fields_visited|].
    split; [reflexivity|done|]. intros f Hf. split; [by apply (mg_fields _ _ (dg_models _ Hd m Hm))|by apply (dg_generated _ Hd m)]. }
  assert (Hde : datamodel_ext d (mkDatamodel (dm_enums d) ms)) by (split; [eapply Forall2_impl; [exact HF|by intros ? ? []]|done]).
  split; [|done]. split; cbn [dm_models].
  - intros m' Hm'. destruct (Forall2_elem_r _ _ _ _ HF Hm') as (m & Hm & [Hext _ Hgood]). destruct (dg_models _ Hd m Hm) as [_ H2 H3]. split.
    + intros f Hf. eapply field_good_ext; [exact Hde|reflexivity|]. by apply Hgood.
    + rewrite (me_ids _ _ Hext). intros n Hn. by apply (me_columns _ _ Hext), H2.
    + rewrite (me_indices _ _ Hext). intros j n Hj Hn. apply (me_columns _ _ Hext). by eapply H3.
  - pose proof (datamodel_ext_names _ _ Hde) as Hnm. cbn in Hnm. rewrite Hnm. apply (dg_names _ Hd).
  - intros m' Hm'. destruct (Forall2_elem_r _ _ _ _ HF Hm') as (m & Hm & [_ -> _]). by apply (dg_fields _ Hd).
  - intros m' f Hm' Hf. destruct (Forall2_elem_r _ _ _ _ HF Hm') as (m & Hm & [_ _ Hgood]). by apply Hgood.
Qed.
(** Names and indexes do not change, whatever the fields are. *)
Definition skeleton (d : Datamodel) : list (string * list IndexDefinition) := (fun m => (m_name m, m_indices m)) <$> dm_models d.
Lemma skeleton_update {E} name g d d' : (forall m m', g m = Ok m' -> m_name m' = m_name m /\ m_indices m' = m_indices m) ->
  update_model (E := E) name g d = Ok d' -> skeleton d' = skeleton d.
Proof.
  intros Hg (l1 & m & l2 & m' & Hd & _ & _ & Hm & Hd' & _)%update_model_Ok. unfold skeleton. rewrite Hd, Hd', !fmap_app, !fmap_cons.
  by destruct (Hg _ _ Hm) as [-> ->].
Qed.
Lemma skeleton_named {E} d d' : name_unnamed_relations (E := E) d = Ok d' -> skeleton d' = skeleton d.
Proof.
  intros Hn. refine (for_each_inv _ (fun x => skeleton x = skeleton d) _ _ _ _ _ Hn); [|done]. intros x [[mn fn] ri] x' _ Hx Hr.
  rewrite <-Hx. eapply skeleton_update; [|exact Hr]. by intros m m' (l1 & f & l2 & f' & _ & _ & _ & ->)%update_field_Ok.
Qed.
Lemma skeleton_added ast d d' : add_missing_back_relations ast d = Ok d' -> skeleton d' = skeleton d.
Proof.
  unfold add_missing_back_relations. destruct (map_m _ _) as [ls| |]; [cbn [mbind outcome_bind]|done..].
  destruct (for_each _ _ _) as [[d1 es]| |] eqn:Ef; [cbn [mbind outcome_bind fst snd]|done..]. destruct (errors_ok es); [cbn|done..]. intros [= <-].
  refine (for_each_inv _ (fun s => skeleton s.1 = skeleton d) _ _ (d1, es) _ _ Ef); [|done]. clear Ef.
  intros [c errs] x [c' errs'] _ Hc Hstep. cbn [fst] in *. rewrite <-Hc. unfold add_back_relation in Hstep.
  destruct (find_model c (ab_model x)) as [cm|]; [cbn [unwrap mbind outcome_bind] in Hstep|done]. destruct (has_field _ _).
  - destruct (find_model _ _); [cbn [unwrap mbind outcome_bind] in Hstep|done]. destruct (find_field _ _); [cbn [unwrap mbind outcome_bind] in Hstep|done].
    destruct (field_validation_error _ _ _ _); [cbn in Hstep|done..]. by injection Hstep as <- _.
  - destruct (update_model _ _ _) as [c2| |] eqn:Eu; [cbn in Hstep|done..]. injection Hstep as <- _. eapply skeleton_update; [|exact Eu].
    intros m m' [= <-]. destruct (add_underlying_added (ab_underlying_fields x) (add_field (ab_field x) m)) as [_ (-> & _ & ->) _ _]. done.
Qed.
Lemma models_named_skeleton d d' : skeleton d' = skeleton d -> models_named d' -> models_named d.
Proof.
  intros Hs Hn m Hm. assert (Hin : (m_name m, m_indices m) ∈ skeleton d') by (rewrite Hs; by apply (list_elem_of_fmap_2 (fun m => (m_name m, m_indices m)))).
  apply list_elem_of_fmap in Hin as (m' & [= H1 H2] & Hm'). unfold indexes_named. rewrite H1, H2. by apply Hn.
Qed.
Lemma add_fields_skeleton us m : m_name (foldl (fun m f => add_field f m) m us) = m_name m /\
  m_indices (foldl (fun m f => add_field f m) m us) = m_indices m.
Proof. revert m. induction us as [|u us IH]; intros m; [done|]. apply (IH (add_field u m)). Qed.
Lemma skeleton_set {E} d d' : set_relation_to_field_to_id_if_missing (E := E) d = Ok d' -> skeleton d' = skeleton d.
Proof.
  unfold set_relation_to_field_to_id_if_missing. destruct (map_m _ _) as [ms| |] eqn:Em; [cbn|done..]. intros [= <-]. unfold skeleton. cbn.
  apply map_m_Forall2 in Em. eapply Forall2_keys; [exact Em|]. cbv beta. intros m m' Hs. unfold set_model_to_fields in Hs.
  destruct (unique_criteria m) as [criteria| |]; [cbn [mbind outcome_bind] in Hs|done..].
  refine (for_each_inv _ (fun x => (m_name x, m_indices x) = (m_name m, m_indices m)) _ _ _ _ _ Hs); [|done].
  intros x k x' _ Hx Hk. unfold set_to_fields in Hk. destruct (m_fields x !! k) as [f|]; [cbn [unwrap mbind outcome_bind] in Hk|done].
  destruct (f_type f) as [|rel| | |]; try (by injection Hk as <-).
  destruct (find_model d _) as [rm|]; [cbn [unwrap mbind outcome_bind] in Hk|done].
  destruct (model_related_field _ _ _ _) as [rf|]; [cbn [unwrap mbind outcome_bind] in Hk|done].
  destruct (f_type rf) as [|rrel| | |]; try done. cbn [mbind outcome_bind] in Hk. destruct (embed_here _ _ _ _); [|by injection Hk as <-].
  match type of Hk with mbind _ ?r = _ => destruct r as [rel'| |]; [cbn [mbind outcome_bind] in Hk|done..] end.
  destruct (_ && f_is_generated f); injection Hk as <-; [|done]. rewrite <-Hx.
  by rewrite !(proj1 (add_fields_skeleton _ _)), !(proj2 (add_fields_skeleton _ _)).
Qed.
Lemma standardise_good ast d d' : standardise ast d = Ok d' -> datamodel_good d -> models_named d' -> datamodel_good d' /\ datamodel_ext d d'.
Proof.
  unfold standardise. destruct (name_unnamed_relations d) as [d1| |] eqn:E1; [cbn [mbind outcome_bind]|done..].
  destruct (add_missing_back_relations ast d1) as [d2| |] eqn:E2; [cbn [mbind outcome_bind]|done..]. intros E3 Hd Hn.
  destruct (name_unnamed_good _ _ E1 Hd) as [H1 X1].
  assert (Hn1 : models_named d1).
  { eapply models_named_skeleton; [|exact Hn]. by rewrite (skeleton_set _ _ E3), (skeleton_added _ _ _ E2). }
  destruct (add_missing_good _ _ _ E2 H1 Hn1) as [H2 X2]. destruct (set_relation_to_field_good _ _ E3 H2) as [H3 X3].
  split; [done|]. etransitivity; [exact X1|]. by etransitivity.
Qed.
End facts.
