(* ===== verification/Accepted.v ===== *)
(** * Datamodels that the validation pipeline accepts

    From the phases: the lifted and validated datamodel is good, standardising
    keeps it good, and the last validation gives every relation field its
    opposite. So an accepted datamodel is one the other engines can work with. *)
From S2P Require Import Prelude Ast Steps Effects SqlSchema Replay Dml Converter SchemaCalc CalcFacts DmValues Directives Lift Validate PrecheckFacts LiftFacts Standardise StandardFacts.

(** ** Loops that collect errors *)
Lemma for_each_clean {A} (f : ErrorCollection -> A -> outcome ErrorCollection ErrorCollection) l es :
  (forall es x, x ∈ l -> f es x = Ok [] -> es = []) -> for_each f l es = Ok [] -> es = [] /\ forall x, x ∈ l -> f [] x = Ok [].
Proof.
  revert es. induction l as [|x l IH]; intros es Hf; cbn; [intros [= ->]; split; [done|by intros x Hx%elem_of_nil]|].
  destruct (f es x) as [es1| |] eqn:Ef; [cbn|done..]. intros [-> Hl]%IH; [|intros es' y Hy; apply Hf; by constructor].
  assert (es = []) as -> by (apply (Hf es x); [constructor|done]). split; [done|]. intros y [->|Hy]%elem_of_cons; [done|by apply Hl].
Qed.
Lemma for_each_Err {E S A} (f : S -> A -> outcome E S) l s e : for_each f l s = Err e -> exists s' x, x ∈ l /\ f s' x = Err e.
Proof.
  revert s. induction l as [|x l IH]; intros s; cbn; [done|]. destruct (f s x) eqn:Ef; cbn; [|intros [= ->]|done].
  - intros (s' & y & Hy & Hfy)%IH. exists s', y. split; [by constructor|done].
  - exists s, x. split; [constructor|done].
Qed.
(** A check that collects errors in a loop and ends with [errors_ok]. *)
Lemma checked_loop {A} (f : ErrorCollection -> A -> outcome ErrorCollection ErrorCollection) l es r :
  (forall es x e, f es x <> Err e) -> (forall es x, x ∈ l -> f es x = Ok [] -> es = []) ->
  append_err (F := ErrorCollection) es (errors ← for_each f l []; errors_ok errors) = Ok r -> r = [] ->
  es = [] /\ forall x, x ∈ l -> f [] x = Ok [].
Proof.
  intros Hne Hf Ha ->. pose proof (append_err_nil _ _ Ha) as ->. split; [done|].
  destruct (for_each f l []) as [errs|e|p] eqn:El; [|by apply for_each_Err in El as (? & ? & _ & ?%Hne)|done].
  cbn in Ha. destruct errs as [|e errs]; [by apply for_each_clean in El as [_ ?]|done].
Qed.

Section accepted.
Context `{VT : ValueTypes} `{VP : !ValueParsers} `{U : Unicode}.

(** ** Validation *)
Lemma base_fields_checked model field info span : base_field_errors model field info span = [] ->
  forall n, n ∈ ri_fields info -> scalar_field model n.
Proof.
  unfold base_field_errors. rewrite !app_nil_iff. intros (H1 & H2 & _). apply scalar_fields_checked.
  - by destruct (undefined_fields _ _).
  - by destruct (referenced_relation_fields _ _).
Qed.
Lemma referenced_fields_checked source d model field info span es : referenced_field_errors source d model field info span es = Ok [] ->
  es = [] /\ exists rm, find_model d (ri_to info) = Some rm /\ forall n, n ∈ ri_to_fields info -> scalar_field rm n.
Proof.
  unfold referenced_field_errors. destruct (find_model d (ri_to info)) as [rm|]; [cbn [unwrap mbind outcome_bind]|done].
  set (e1 := es ++ _ ++ _).
  match goal with |- mbind _ ?r = _ -> _ => destruct r as [e2| |] eqn:E2; [cbn [mbind outcome_bind]|done..] end.
  intros [= H]. assert (He1 : e1 = []).
  { destruct e1 as [|e0 e1'] eqn:Ee1; [done|]. exfalso. rewrite andb_false_r in E2. injection E2 as <-. destruct (has_errors _) in H; done. }
  unfold e1 in He1. rewrite !app_nil_iff in He1. destruct He1 as (-> & H1 & H2). split; [done|]. exists rm. split; [done|].
  apply scalar_fields_checked.
  - by destruct (undefined_fields _ _).
  - by destruct (referenced_relation_fields _ _).
Qed.
(** These checks end with errors as a value or with a panic. *)
Definition no_err {E A} (r : outcome E A) : Prop := forall e, r <> Err e.
Lemma no_err_bind {E A B} (r : outcome E A) (f : A -> outcome E B) : no_err r -> (forall a, no_err (f a)) -> no_err (r ≫= f).
Proof. intros Hr Hf e. destruct r as [a|e'|p]; cbn; [apply Hf|by destruct (Hr e')|done]. Qed.
Lemma no_err_unwrap {E A} msg (o : option A) : no_err (E := E) (unwrap msg o).
Proof. by destruct o. Qed.
Lemma no_err_Ok {E A} (a : A) : no_err (E := E) (Ok a).
Proof. done. Qed.
Lemma no_err_map_m {E A B} (f : A -> outcome E B) l : (forall x, no_err (f x)) -> no_err (map_m f l).
Proof.
  intros Hf. induction l as [|x l IH]; [done|]. cbn. apply no_err_bind; [apply Hf|intros y]. apply no_err_bind; [apply IH|done].
Qed.
Lemma no_err_criterias {E} allow m : no_err (unique_criterias (E := E) allow m).
Proof.
  unfold unique_criterias. apply no_err_bind; [apply no_err_map_m; intros; apply no_err_unwrap|intros ids].
  apply no_err_bind; [|done]. apply no_err_map_m. intros i. apply no_err_map_m. intros; apply no_err_unwrap.
Qed.
Lemma no_err_referenced source d m f info span es : no_err (referenced_field_errors source d m f info span es).
Proof.
  unfold referenced_field_errors. apply no_err_bind; [apply no_err_unwrap|intros rm]. apply no_err_bind; [|done].
  destruct (_ && _); [|done]. apply no_err_bind; [|done]. unfold criteria_errors. apply no_err_bind; [|intros uc; apply no_err_bind; [|done]].
  - unfold references_unique_criteria. apply no_err_bind; [apply no_err_criterias|done].
  - unfold references_singular_id_field. destruct (ri_to_fields info) as [|n [|]]; try done. apply no_err_bind; [apply no_err_unwrap|done].
Qed.
Record field_validated (d : Datamodel) (m : Model) (f : Field) : Prop := {
  fv_fields : forall info n, f_type f = RelationType info -> n ∈ ri_fields info -> scalar_field m n;
  fv_references : forall info, f_type f = RelationType info -> exists rm, find_model d (ri_to info) = Some rm /\
    forall n, n ∈ ri_to_fields info -> scalar_field rm n;
}.
Lemma validated_model source ast d es m : validate_model source ast d es m = Ok [] ->
  es = [] /\ forall f, f ∈ m_fields m -> field_validated d m f.
Proof.
  unfold validate_model. destruct (Ast.find_model ast (m_name m)) as [am|]; [cbn [unwrap mbind outcome_bind]|done].
  do 4 (destruct (push_err _ _) as [?| |]; [cbn [mbind outcome_bind]|done..]).
  do 2 (destruct (append_err _ _) as [?| |]; [cbn [mbind outcome_bind]|done..]).
  destruct (append_err _ (validate_base_fields_for_relation _ _)) as [e1| |] eqn:E1; [cbn [mbind outcome_bind]|done..].
  destruct (append_err _ (validate_referenced_fields_for_relation _ _ _ _)) as [e2| |] eqn:E2; [cbn [mbind outcome_bind]|done..].
  intros [= He]. apply app_nil_iff in He as [-> ->]. split; [done|]. apply checked_loop in E2 as [-> H2]; [|..|done].
  2: { intros es' x. apply no_err_bind; [apply no_err_unwrap|intros af]. destruct (f_type x); try done. apply no_err_referenced. }
  2: { intros es' x _. destruct (find_ast_field _ _); [cbn [unwrap mbind outcome_bind]|done]. destruct (f_type x); try (by intros [= ->]).
       by intros [-> _]%referenced_fields_checked. }
  apply checked_loop in E1 as [_ H1]; [|..|done].
  2: { intros es' x. apply no_err_bind; [apply no_err_unwrap|intros af]. by destruct (f_type x). }
  2: { intros es' x _. destruct (find_ast_field _ _); [cbn [unwrap mbind outcome_bind]|done]. destruct (f_type x); try (by intros [= ->]).
       intros [= Hx]. by apply app_nil_iff in Hx as [-> _]. }
  intros f Hf. specialize (H1 f Hf). specialize (H2 f Hf). destruct (find_ast_field _ _) as [af|]; [cbn [unwrap mbind outcome_bind] in H1, H2|done].
  split; intros info; [intros n Ht|intros Ht]; rewrite Ht in H1, H2.
  - injection H1 as H1. by eapply base_fields_checked.
  - by apply referenced_fields_checked in H2 as [_ H2].
Qed.
Lemma validated source ast d : validate source ast d = Ok tt -> forall m f, m ∈ dm_models d -> f ∈ m_fields m -> field_validated d m f.
Proof.
  unfold validate. intros Hv m f Hm Hf. destruct (append_err _ _) as [es0| |]; [cbn [mbind outcome_bind] in Hv|done..].
  destruct (for_each _ _ _) as [es| |] eqn:El; [cbn [mbind outcome_bind] in Hv|done..]. apply errors_ok_Ok in Hv as ->.
  apply for_each_clean in El as [_ Hall]; [|by intros es x _ [-> _]%validated_model]. specialize (Hall m Hm).
  apply validated_model in Hall as [_ Hall]. by apply Hall.
Qed.

(** ** The lifted datamodel *)
Lemma model_tops ast am : am ∈ Ast.models ast -> TopModel am ∈ tops ast.
Proof. unfold Ast.models. intros (top & Htop & Ham)%list_elem_of_omap. destruct top; try done. by injection Ham as ->. Qed.
Lemma model_keys_nodup l : NoDup (top_name <$> iter_filter is_top_level_type l) -> NoDup (model_key <$> omap as_model l).
Proof.
  intros Hnd. eapply sublist_NoDup; [exact Hnd|]. clear Hnd. induction l as [|top l IH]; [constructor|]. destruct top; cbn; try (by constructor); exact IH.
Qed.
Lemma lifted_scalar_column ast m n : (forall f, f ∈ m_fields m -> exists name, field_lifted ast name f) -> scalar_field m n -> column_field m n.
Proof.
  intros Hl (f & Hf & Hr). exists f. split; [done|]. apply find_field_Some in Hf as [Hin _]. destruct (Hl f Hin) as [name Hlf].
  pose proof (fl_type _ _ _ Hlf) as Ht. unfold has_column. destruct (f_type f); done.
Qed.
Lemma lifted_good source ast d : precheck ast = Ok tt -> lift_schema source ast = Ok d -> validate source ast d = Ok tt -> datamodel_good d.
Proof.
  intros [Htops [Hnd _]]%precheck_Ok Hlift Hval. apply lift_schema_Forall2 in Hlift as [HM HE].
  assert (Hmodel : forall m, m ∈ dm_models d -> exists am fs, am ∈ Ast.models ast /\
    Forall2 (fun af f => lift_field ast af = Ok f) (model_fields am) fs /\ model_lifted (model_key am) fs m).
  { intros m Hm. destruct (Forall2_elem_r _ _ _ _ HM Hm) as (am & Ham & (fs & H1 & H2)%lift_model_lifted). eauto. }
  assert (Hfield : forall m f, m ∈ dm_models d -> f ∈ m_fields m -> exists name, field_lifted ast name f).
  { intros m f Hm Hf. destruct (Hmodel m Hm) as (am & fs & _ & HF & Hml). rewrite (ml_fields _ _ _ Hml) in Hf.
    destruct (Forall2_elem_r _ _ _ _ HF Hf) as (af & _ & Hlf%lift_field_lifted). eauto. }
  assert (Hcol : forall m n, m ∈ dm_models d -> scalar_field m n -> column_field m n).
  { intros m n Hm. apply (lifted_scalar_column ast). intros f. by apply Hfield. }
  split.
  - intros m Hm. destruct (Hmodel m Hm) as (am & fs & _ & _ & [_ _ Hids Hidx]). split; [|intros n Hn; by apply Hcol, Hids|intros i n Hi Hn; eapply Hcol, Hidx; eauto].
    intros f Hf. destruct (Hfield m f Hm Hf) as [name [_ Ht _ Hid Hun Hdef]]. destruct (validated _ _ _ Hval m f Hm Hf) as [Hvf Hvr]. unfold field_good.
    destruct (f_type f) as [n|info| | |] eqn:Et; try done.
    + split; [|intros v; by apply (Hdef n)]. eapply (Forall2_find _ enum_key en_name); [exact HE|intros ae e; apply lift_enum_name|exact Ht].
    + split_and!; [by destruct (f_is_id f); [discriminate Hid|]|by destruct (f_is_unique f); [discriminate Hun|]| |].
      * intros n Hn. eapply Hcol, Hvf; eauto.
      * destruct (Hvr info eq_refl) as (rm & Hrm & Hto). exists rm. split; [done|]. intros n Hn. apply Hcol, Hto, Hn. by apply find_model_Some in Hrm as [? _].
  - rewrite (Forall2_keys _ model_key m_name _ _ HM); [by apply model_keys_nodup|]. intros am m. apply lift_model_name.
  - intros m Hm. destruct (Hmodel m Hm) as (am & fs & Ham & HF & [_ -> _ _]).
    rewrite (Forall2_keys _ field_key f_name _ _ HF); [|intros af f Hlf%lift_field_lifted; apply Hlf]. apply (Htops (TopModel am)). by apply model_tops.
  - intros m f Hm Hf Hg. destruct (Hfield m f Hm Hf) as [name Hlf]. by rewrite (fl_generated _ _ _ Hlf) in Hg.
Qed.

(** ** The last validation *)
Record relation_checked (d : Datamodel) (m : Model) (f : Field) (info : RelationInfo) (rm : Model) (rf : Field) (rinfo : RelationInfo) : Prop := {
  rc_model : find_model d (ri_to info) = Some rm;
  rc_field : model_related_field rm (m_name m) (ri_name info) (f_name f) = Some rf;
  rc_info : f_type rf = RelationType rinfo;
  rc_one : f_arity f = ListField \/ f_arity rf = ListField \/ ri_to_fields info = [] \/ ri_to_fields rinfo = [];
  rc_many : f_arity f = ListField -> f_arity rf = ListField -> has_single_id_field rm = true;
}.
Lemma one_to_one_checked m rm f rf info rinfo span es : one_to_one_errors m rm f rf info rinfo span es = [] ->
  es = [] /\ (ri_to_fields info = [] \/ ri_to_fields rinfo = []).
Proof.
  unfold one_to_one_errors. cbv zeta. set (e1 := es ++ _). intros H. assert (He1 : e1 = []).
  { destruct (has_errors e1) eqn:Eh; [done|]. by apply app_nil_iff in H as [? _]. }
  unfold e1 in He1. rewrite !app_nil_iff in He1. destruct He1 as (-> & _ & _ & H3 & _). split; [done|].
  destruct (ri_to_fields info), (ri_to_fields rinfo); cbn in H3; try done; tauto.
Qed.
Lemma relation_argument_checked d m f info span es : relation_argument_errors d m f info span es = Ok [] ->
  es = [] /\ exists rm rf rinfo, relation_checked d m f info rm rf rinfo.
Proof.
  unfold relation_argument_errors. destruct (find_model d (ri_to info)) as [rm|] eqn:Erm; [cbn [unwrap mbind outcome_bind]|done].
  destruct (model_related_field _ _ _ _) as [rf|] eqn:Erf; [cbn [unwrap mbind outcome_bind]|done].
  destruct (f_type rf) as [|rinfo| | |] eqn:Et; try done. cbn [mbind outcome_bind]. cbv zeta. set (e1 := es ++ _ ++ _ ++ _). intros [= H].
  apply app_nil_iff in H as [H1 H2].
  assert (He : e1 = [] /\ (is_singular (f_arity f) && is_singular (f_arity rf) = true -> ri_to_fields info = [] \/ ri_to_fields rinfo = [])).
  { destruct (is_singular (f_arity f) && is_singular (f_arity rf)); [apply one_to_one_checked in H1 as [? ?]; done|done]. }
  destruct He as [He1 Hone]. unfold e1 in He1. apply app_nil_iff in He1 as [-> _]. split; [done|]. exists rm, rf, rinfo. split; try done.
  - destruct (f_arity f), (f_arity rf); try tauto; right; right; by apply Hone.
  - intros Hf Hrf. rewrite Hf, Hrf in H2. cbn in H2. by destruct (has_single_id_field rm).
Qed.
Lemma post_checked ast d m f info : post_standardisation_validate ast d = Ok tt -> m ∈ dm_models d -> f ∈ m_fields m ->
  f_type f = RelationType info -> exists rm rf rinfo, relation_checked d m f info rm rf rinfo.
Proof.
  unfold post_standardisation_validate. destruct (for_each _ _ _) as [es| |] eqn:El; [cbn [mbind outcome_bind]|done..].
  intros ->%errors_ok_Ok Hm Hf Ht. apply for_each_clean in El as [_ Hall].
  2: { intros es x _. destruct (Ast.find_model _ _); [cbn [unwrap mbind outcome_bind]|done].
       destruct (validate_relation_arguments_bla _ _ _); [cbn|done..]. intros [= He]. by apply app_nil_iff in He as [-> _]. }
  specialize (Hall m Hm). cbv beta in Hall. destruct (Ast.find_model _ _) as [am|]; [cbn [unwrap mbind outcome_bind] in Hall|done].
  destruct (validate_relation_arguments_bla _ _ _) as [es| |] eqn:Eb; [cbn in Hall|done..]. injection Hall as ->.
  unfold validate_relation_arguments_bla in Eb. apply for_each_clean in Eb as [_ Hall].
  - specialize (Hall f Hf). cbv beta zeta in Hall. rewrite Ht in Hall. by apply relation_argument_checked in Hall as [_ ?].
  - intros es x _. cbv zeta. destruct (f_type x); try (by intros [= ->]). by intros [-> _]%relation_argument_checked.
Qed.
Lemma related_opposite m rm f name : model_related_field rm (m_name m) name (f_name f) = iter_find (is_opposite_field m rm f name) (m_fields rm).
Proof.
  unfold model_related_field. induction (m_fields rm) as [|x l IH]; [done|]. cbn [iter_find List.find].
  assert (Heq : is_related_field rm (m_name m) name (f_name f) x = is_opposite_field m rm f name x).
  { unfold is_related_field, is_opposite_field. destruct (f_type x); try done.
    rewrite (bool_decide_ext (m_name rm = m_name m) (m_name m = m_name rm)) by done. destruct (m_name m ≟ m_name rm); cbn; by rewrite ?andb_true_r. }
  by rewrite Heq, IH.
Qed.

(** ** Conditions on the accepted datamodel *)
(** Model names start with an upper case letter, and no index is empty. *)
Definition models_named_b (d : Datamodel) : bool :=
  forallb (fun m => capital (m_name m) && forallb (fun i => negb (is_nil (ix_fields i))) (m_indices m)) (dm_models d).
(** A default of an enum field is one of the enum's values. *)
Definition enum_defaults_b (d : Datamodel) : bool :=
  forallb (fun m => forallb (fun f =>
    match f_type f, f_default_value f with
    | EnumType n, Some (Single (PV_Enum v)) =>
        match find_enum d n with Some e => existsb (fun x => ev_name x ≟ v) (en_values e) | None => false end
    | _, _ => true
    end) (m_fields m)) (dm_models d).
(** The field opposite to a relation field, and the condition that it leads back. *)
Definition opposite_field (d : Datamodel) (m : Model) (f : Field) : option (Model * Field) :=
  match f_type f with
  | RelationType info =>
      rm ← find_model d (ri_to info);
      rf ← model_related_field rm (m_name m) (ri_name info) (f_name f);
      Some (rm, rf)
  | _ => None
  end.
Definition opposites_lead_back_b (d : Datamodel) : bool :=
  forallb (fun m => forallb (fun f =>
    match opposite_field d m f with
    | Some (rm, rf) =>
        match opposite_field d rm rf with
        | Some (m', f') => (m_name m' ≟ m_name m) && (f_name f' ≟ f_name f)
        | None => false
        end
    | None => true
    end) (m_fields m)) (dm_models d).
Lemma models_named_b_spec d : models_named_b d = true -> models_named d.
Proof.
  intros H m Hm. apply (forallb_elem _ _ H) in Hm as [H1 H2]%andb_true_iff. split; [done|]. intros i Hi.
  apply (forallb_elem _ _ H2) in Hi. by destruct (ix_fields i).
Qed.
Lemma opposites_lead_back d m f info rm rf rinfo : opposites_lead_back_b d = true -> datamodel_good d -> m ∈ dm_models d -> f ∈ m_fields m ->
  f_type f = RelationType info -> find_model d (ri_to info) = Some rm ->
  model_related_field rm (m_name m) (ri_name info) (f_name f) = Some rf -> f_type rf = RelationType rinfo ->
  find_model d (ri_to rinfo) = Some m /\ model_related_field m (m_name rm) (ri_name rinfo) (f_name rf) = Some f.
Proof.
  intros Hb Hd Hm Hf Ht Hrm Hrf Hrt. pose proof (forallb_elem _ _ Hb m Hm) as Hb1. pose proof (forallb_elem _ _ Hb1 f Hf) as Hb2. cbv beta in Hb2.
  unfold opposite_field in Hb2. rewrite Ht in Hb2. cbn [mbind option_bind] in Hb2. rewrite Hrm in Hb2. cbn [mbind option_bind] in Hb2.
  rewrite Hrf in Hb2. cbn [mbind option_bind] in Hb2. rewrite Hrt in Hb2.
  destruct (find_model d (ri_to rinfo)) as [m'|] eqn:Em'; [cbn [mbind option_bind] in Hb2|done].
  destruct (model_related_field m' _ _ _) as [f'|] eqn:Ef'; [cbn [mbind option_bind] in Hb2|done].
  apply andb_true_iff in Hb2 as [Hn1%bool_decide_eq_true Hn2%bool_decide_eq_true]. apply find_model_Some in Em' as [Hin' _].
  assert (m' = m) as -> by (by eapply (NoDup_fmap_inj m_name); [apply (dg_names _ Hd)|..]). split; [done|]. rewrite Ef'. f_equal.
  apply iter_find_Some in Ef' as [Hin _]. eapply (NoDup_fmap_inj f_name); [by apply (dg_fields _ Hd m)|done..].
Qed.
Lemma enum_defaults_spec debug_list d m f : enum_defaults_b d = true -> datamodel_good d -> m ∈ dm_models d -> f ∈ m_fields m -> enum_field_wf debug_list d f.
Proof.
  intros Hb Hd Hm Hf n Ht. pose proof (mg_fields _ _ (dg_models _ Hd m Hm) f Hf) as Hg. unfold field_good in Hg. rewrite Ht in Hg.
  destruct Hg as [[e He] Hdef]. exists e. split; [done|]. intros v Hv. destruct (Hdef v Hv) as [s ->].
  pose proof (forallb_elem _ _ Hb m Hm) as Hb1. pose proof (forallb_elem _ _ Hb1 f Hf) as Hb2. cbv beta in Hb2. rewrite Ht, Hv, He in Hb2.
  apply existsb_exists in Hb2 as (x & Hx%list_elem_of_In & Hn%bool_decide_eq_true). by exists x.
Qed.
Lemma validate_not_nil source ast d : validate source ast d <> Err [].
Proof.
  assert (Hp : forall es r, no_err (E := ErrorCollection) (push_err es r)) by (by intros es []).
  assert (Ha : forall es r, no_err (E := ErrorCollection) (append_err es r)) by (by intros es []).
  unfold validate. destruct (append_err _ _) as [es| |] eqn:E1; [cbn [mbind outcome_bind]|by apply Ha in E1|done].
  destruct (for_each _ _ _) as [es'|e|p] eqn:E2; [apply errors_ok_not_nil| |done]. exfalso. apply for_each_Err in E2 as (s & m & _ & Hm).
  revert Hm. unfold validate_model. repeat (apply no_err_bind; [first [apply no_err_unwrap|apply Hp|apply Ha]|intros ?]). done.
Qed.
Lemma pipeline_phases source ast d : validation_pipeline source ast = Ok d -> exists d0, precheck ast = Ok tt /\ lift_schema source ast = Ok d0 /\
  validate source ast d0 = Ok tt /\ standardise ast d0 = Ok d /\ post_standardisation_validate ast d = Ok tt.
Proof.
  unfold validation_pipeline. destruct (append_err [] (precheck ast)) as [es| |] eqn:Ep; [cbn [mbind outcome_bind]|done..].
  destruct (lift_schema source ast) as [d0| |] eqn:El; [|done..].
  destruct (append_err es (validate source ast d0)) as [es'| |] eqn:Ev; [cbn [mbind outcome_bind]|done..].
  destruct (errors_ok es') as [[]| |] eqn:Ee; [cbn [mbind outcome_bind]|done..]. apply errors_ok_Ok in Ee as ->.
  destruct (standardise ast d0) as [d1| |] eqn:Es; [cbn [mbind outcome_bind]|done..].
  destruct (post_standardisation_validate ast d1) as [[]| |] eqn:Epost; [cbn|done..]. intros [= <-]. exists d0.
  pose proof (append_err_nil _ _ Ev) as ->. split_and!; [|done| |done|done].
  - destruct (precheck ast) as [[]|e|] eqn:Epre; [done| |done]. cbn in Ep. injection Ep as ->. by apply errors_ok_not_nil in Epre.
  - destruct (validate source ast d0) as [[]|e|] eqn:Eval; [done| |done]. cbn in Ev. injection Ev as ->. by apply validate_not_nil in Eval.
Qed.
Lemma accepted_relation d m f : datamodel_good d -> opposites_lead_back_b d = true ->
  (forall m f info, m ∈ dm_models d -> f ∈ m_fields m -> f_type f = RelationType info -> exists rm rf rinfo, relation_checked d m f info rm rf rinfo) ->
  m ∈ dm_models d -> f ∈ m_fields m -> relation_field_wf d m f.
Proof.
  intros Hd Hback Hpost Hm Hf info Ht. destruct (Hpost m f info Hm Hf Ht) as (rm & rf & rinfo & [Hrm Hrf Hrt Hone Hmany]).
  exists rm, rf, rinfo. pose proof (mg_fields _ _ (dg_models _ Hd m Hm) f Hf) as Hg. unfold field_good in Hg. rewrite Ht in Hg.
  destruct Hg as (_ & _ & Hfs & rm' & Hrm' & Hto). rewrite Hrm in Hrm'. injection Hrm' as <-.
  split_and!; [done|by rewrite <-related_opposite|done|done|done|done|]. intros Hl Hrl. split; [|by apply Hmany].
  destruct (opposites_lead_back d m f info rm rf rinfo Hback Hd Hm Hf Ht Hrm Hrf Hrt) as [Hm' Hf'].
  assert (Hrin : rm ∈ dm_models d /\ rf ∈ m_fields rm).
  { split; [by apply find_model_Some in Hrm as [? _]|]. by apply iter_find_Some in Hrf as [? _]. }
  destruct (Hpost rm rf rinfo (proj1 Hrin) (proj2 Hrin) Hrt) as (m2 & f2 & i2 & [Hm2 Hf2 _ _ Hmany2]).
  rewrite Hm' in Hm2. injection Hm2 as <-. rewrite Hf' in Hf2. injection Hf2 as <-. by apply Hmany2.
Qed.
End accepted.

Lemma accepted_wf `{VT : ValueTypes} `{VP : !ValueParsers} `{U : Unicode} (debug_list : list PrismaValue -> string)
    (source : option DeclarativeConnector) (ast : SchemaAst) (d : Datamodel) :
  validation_pipeline source ast = Ok d -> models_named_b d = true -> enum_defaults_b d = true -> opposites_lead_back_b d = true ->
  datamodel_wf debug_list d /\ m_name <$> dm_models d = model_key <$> Ast.models ast.
Proof.
  intros (d0 & Hpre & Hlift & Hval & Hstd & Hpost)%pipeline_phases Hn%models_named_b_spec He Ho.
  destruct (standardise_good _ _ _ Hstd (lifted_good _ _ _ Hpre Hlift Hval) Hn) as [Hd [Hext _]]. split.
  - intros m Hm. destruct (dg_models _ Hd m Hm) as [Hf Hid Hix]. split; [| |exact Hid|exact Hix| |].
    + intros f Hff Hu. eapply good_id_column; [by apply (dg_models _ Hd)|done|by right].
    + intros f Hff Hu. eapply good_id_column; [by apply (dg_models _ Hd)|done|by left].
    + intros f Hff. by eapply enum_defaults_spec.
    + intros f Hff. eapply accepted_relation; try done. intros. by eapply post_checked.
  - apply lift_schema_Forall2 in Hlift as [HM _].
    rewrite (Forall2_keys _ m_name m_name _ _ Hext) by (intros m m' []; done). apply (Forall2_keys _ model_key m_name _ _ HM). apply lift_model_name.
Qed.

(** ** Theorems *)

(** C13: What the validation pipeline accepts, the schema calculator can turn into an SQL schema. When a schema is accepted, the datamodel has exactly the models of the schema, and on every database the calculation returns a schema without a panic or an error, in which every model has a table with its columns, and the columns, tables and enums that indexes, foreign keys and columns refer to exist. This holds when model names start with an upper case letter, no index is empty, enum defaults are values of their enum and opposite relation fields lead back to each other, which the pipeline does not check. *)
Theorem accepted_schema_calculates `{VT : ValueTypes} `{IT : Itertools} (HIT : ItertoolsOk IT) `{VP : !ValueParsers} `{U : Unicode}
    (debug_list : list PrismaValue -> string) (source : option DeclarativeConnector) (ast : SchemaAst) (d : Datamodel) (info : DatabaseInfo) :
  validation_pipeline source ast = Ok d -> models_named_b d = true -> enum_defaults_b d = true -> opposites_lead_back_b d = true ->
  m_name <$> dm_models d = model_key <$> Ast.models ast /\
  exists s, calculate debug_list d info = Ok s /\ (forall t, t ∈ tables s -> table_closed s t) /\
    forall m, m ∈ dm_models d -> exists t, t ∈ tables s /\ t_name t = model_db_name m /\ column_names t ≡ₚ model_columns m.
Proof.
  intros Hp Hn He Ho. destruct (accepted_wf debug_list source ast d Hp Hn He Ho) as [Hwf Hnames].
  split; [done|]. exact (calculate_closed HIT debug_list d info Hwf).
Qed.

(** * Schemas run through the validation pipeline

    A schema that is accepted and calculated, schemas on which the pipeline
    panics, and schemas it accepts although a later stage cannot use them. The
    texts of dates and decimals are not parsed, and letters outside ASCII have no
    case here; the samples use neither. *)
#[local] Existing Instance sample_values.
Definition sample_parsers : ValueParsers (VT := sample_values) := {|
  parse_decimal _ := Err "invalid decimal";
  parse_datetime _ := Err "input is not enough for unique date and time";
  datetime_to_rfc3339 _ := "";
  env_var _ := None;
|}.
Definition sample_unicode : Unicode := {| wide_is_numeric _ := false; wide_to_lowercase s := s; wide_to_uppercase s := s |}.
#[local] Existing Instance sample_parsers.
#[local] Existing Instance sample_unicode.
#[local] Existing Instance sample_itertools.

(** ** Sample schemas *)
Definition x_names (n : string) (l : list string) : Argument :=
  mkArgument (Identifier_new n) (Array ((fun x => ConstantValue x Span_empty) <$> l) Span_empty) Span_empty.
Definition x_string (n v : string) : Argument := mkArgument (Identifier_new n) (StringValue v Span_empty) Span_empty.
Definition x_id : Ast.Field := x_field "id" "Int" Ast.Required [x_dir "id" []].
Definition x_relation (fields references : list string) : Directive :=
  x_dir "relation" [x_names "fields" fields; x_names "references" references].
(** A blog: the field [User.posts] is missing and is generated, the enum and the alias are used. *)
Definition blog_ast : SchemaAst := mkSchemaAst
  [ TopType (x_field "Key" "Int" Ast.Required [x_dir "id" []]);
    x_enum "Role" [x_value "ADMIN" []; x_value "READER" []] [];
    x_model "User" [x_field "id" "Key" Ast.Required []; x_field "email" "String" Ast.Required [x_dir "unique" []];
        x_field "role" "Role" Ast.Required [x_dir "default" [x_arg "" "READER"]]] [x_dir "map" [x_string "" "users"]];
    x_model "Post" [x_id; x_field "authorId" "Int" Ast.Required []; x_field "author" "User" Ast.Required [x_relation ["authorId"] ["id"]];
        x_field "tags" "Tag" Ast.List []] [x_dir "index" [x_names "" ["authorId"]]];
    x_model "Tag" [x_id; x_field "posts" "Post" Ast.List []] [] ].
(** Two models of one name with different fields. *)
Definition two_users_ast : SchemaAst := mkSchemaAst
  [x_model "User" [x_id] []; x_model "User" [x_id; x_field "name" "String" Ast.Required []] []].
(** A model whose only unique field is optional, and a relation to it. *)
Definition optional_unique_ast : SchemaAst := mkSchemaAst
  [ x_model "A" [x_field "email" "String" Ast.Optional [x_dir "unique" []]; x_field "bs" "B" Ast.List []] [];
    x_model "B" [x_id; x_field "a" "A" Ast.Required []] [] ].
(** The directive [@@id([1])]. *)
Definition number_id_ast : SchemaAst := mkSchemaAst
  [x_model "A" [x_field "n" "Int" Ast.Required []]
     [x_dir "id" [mkArgument (Identifier_new "") (Array [NumericValue "1" Span_empty] Span_empty) Span_empty]]].
(** An embedded model with a relation field without an opposite field. *)
Definition embedded_ast : SchemaAst := mkSchemaAst
  [x_model "A" [x_id; x_field "b" "B" Ast.Optional []] [x_dir "embedded" []]; x_model "B" [x_id] []].
(** The default of an enum field that is no value of the enum. *)
Definition blue_ast : SchemaAst := mkSchemaAst
  [ x_enum "Color" [x_value "RED" []] [];
    x_model "Car" [x_id; x_field "color" "Color" Ast.Required [x_dir "default" [x_arg "" "BLUE"]]] [] ].
(** Two relations between the same models: one has the name that the other one gets. *)
Definition same_name_ast : SchemaAst := mkSchemaAst
  [ x_model "User" [x_id; x_field "posts" "Post" Ast.List [x_dir "relation" [x_string "" "PostToUser"]]; x_field "drafts" "Post" Ast.List []] [];
    x_model "Post" [x_id; x_field "aId" "Int" Ast.Required []; x_field "bId" "Int" Ast.Required [];
        x_field "a" "User" Ast.Required [x_dir "relation" [x_string "" "PostToUser"; x_names "fields" ["aId"]; x_names "references" ["id"]]];
        x_field "b" "User" Ast.Required [x_relation ["bId"] ["id"]]] [] ].
(** A relation named twice, differently. *)
Definition named_twice_ast : SchemaAst := mkSchemaAst
  [ x_model "User" [x_id; x_field "posts" "Post" Ast.List [x_dir "relation" [x_string "" "A"; x_string "name" "B"]]] [];
    x_model "Post" [x_id; x_field "aId" "Int" Ast.Required []; x_field "a" "User" Ast.Required [x_relation ["aId"] ["id"]]] [] ].
Definition panics {E A} (r : outcome E A) : bool := match r with Panic _ => true | _ => false end.
(** The names of the relations of the datamodel's fields, with their models. *)
Definition relation_names (r : outcome ErrorCollection Datamodel) : list (string * string * string) :=
  match r with
  | Ok d => m ← dm_models d; f ← m_fields m; match f_type f with RelationType i => [(m_name m, f_name f, ri_name i)] | _ => [] end
  | _ => []
  end.

Definition blog : Datamodel := match validation_pipeline None blog_ast with Ok d => d | _ => mkDatamodel [] [] end.
Lemma blog_accepted : validation_pipeline None blog_ast = Ok blog.
Proof. vm_compute. reflexivity. Qed.

(** ** Theorems *)
Lemma accepted_schema_calculates_witness : exists s, calculate no_debug blog calc_info = Ok s /\
  (forall t, t ∈ tables s -> table_closed s t) /\ (t_name <$> tables s) = ["users"; "Post"; "Tag"; "_PostToTag"].
Proof.
  destruct (accepted_schema_calculates (VT := sample_values) sample_itertools_ok no_debug None blog_ast blog calc_info blog_accepted
    ltac:(vm_compute; reflexivity) ltac:(vm_compute; reflexivity) ltac:(vm_compute; reflexivity)) as (_ & s & Hs & Hc & _).
  assert (Hn : match calculate no_debug blog calc_info with Ok s => t_name <$> tables s | _ => [] end = ["users"; "Post"; "Tag"; "_PostToTag"])
    by (vm_compute; reflexivity).
  rewrite Hs in Hn. exists s. split_and!; assumption.
Defined.

(** The pipeline panics on some schemas that it should refuse with an error: two models of the same name with different fields, a relation to a model whose only unique field is optional, an id over something that is not a list of names, and an embedded model with a relation field that has no opposite. *)
Theorem pipeline_panics_on_invalid :
  panics (validation_pipeline None two_users_ast) = true /\ panics (validation_pipeline None optional_unique_ast) = true /\
  panics (validation_pipeline None number_id_ast) = true /\ panics (validation_pipeline None embedded_ast) = true.
Proof. vm_compute. done. Qed.

(** The pipeline accepts schemas that later stages cannot use. An enum default that is no value of the enum is accepted and makes the schema calculation panic. Two relations that end up with the same name are accepted. A relation named twice loses both names and gets the default one. *)
Theorem pipeline_accepts_unusable :
  panics (d ← validation_pipeline None blue_ast; match calculate no_debug d calc_info with Panic p => Panic p | _ => Ok d end) = true /\
  panics (validation_pipeline None blue_ast) = false /\
  relation_names (validation_pipeline None same_name_ast) =
    [("User", "posts", "PostToUser"); ("User", "drafts", "PostToUser"); ("Post", "a", "PostToUser"); ("Post", "b", "PostToUser")] /\
  relation_names (validation_pipeline None named_twice_ast) = [("User", "posts", "PostToUser"); ("Post", "a", "PostToUser")].
Proof. vm_compute. done. Qed.
