(* ===== verification/Sanitize.v ===== *)
(** * Names in an introspected datamodel (sanitize_datamodel_names.rs)

    Names of a database that are no identifiers of the datamodel language are
    changed, and the original is remembered as the database name. *)
From Stdlib Require Import Ascii.
From S2P Require Import Prelude SqlSchema Dml DmValues Directives.

(** ** The two regular expressions *)
Definition is_letter (c : ascii) : bool := in_range "a" "z" c || in_range "A" "Z" c.
Definition is_name_char (c : ascii) : bool := is_letter c || in_range "0" "9" c || (c ≟ "_"%char).
(** The second and later bytes of a character in UTF-8. *)
Definition is_continuation (c : ascii) : bool := let n := nat_of_ascii c in (128 <=? n) && (n <? 192).
(** [RE_START.is_match] and [RE_START.replace_all(name, "")]: letters are ASCII, so bytes decide. *)
Definition start_matches (s : string) : bool := match s with EmptyString => false | String c _ => negb (is_letter c) end.
Fixpoint clean_start (s : string) : string :=
  match s with
  | EmptyString => EmptyString
  | String c rest => if is_letter c then s else clean_start rest
  end.
(** [RE.is_match] and [RE.replace_all(name, "_")]: a character of several bytes is replaced once. *)
Fixpoint has_other_char (s : string) : bool :=
  match s with EmptyString => false | String c s => negb (is_name_char c) || has_other_char s end.
Fixpoint replace_other_chars (s : string) : string :=
  match s with
  | EmptyString => EmptyString
  | String c s =>
      if is_name_char c then String c (replace_other_chars s)
      else if is_continuation c then replace_other_chars s
      else String "_" (replace_other_chars s)
  end.
Definition sanitize_name (name : string) : string * option string :=
  if start_matches name || has_other_char name then (replace_other_chars (clean_start name), Some name) else (name, None).

(** ** Sanitizing a datamodel *)
Definition EMPTY_ENUM_PLACEHOLDER : string := "EMPTY_ENUM_VALUE".
Section sanitize.
Context `{VT : ValueTypes}.
Definition dbgenerated : ValueGenerator := mkValueGenerator "dbgenerated" [] GenDbGenerated.
(** What is known of renamed enums: old name, new name and database name. *)
Definition Renames : Type := gmap string (string * option string).

Definition sanitize_info (info : RelationInfo) : RelationInfo :=
  mkRelationInfo (sanitize_name (ri_to info)).1 ((fun f => (sanitize_name f).1) <$> ri_fields info)
    ((fun f => (sanitize_name f).1) <$> ri_to_fields info) (sanitize_name (ri_name info)).1 (ri_on_delete info).
(** The new name and the database name of the enum of a field. *)
Definition sanitize_enum_name (model_name : string) (model_db_name : option string) (field_name enum_name : string) : string * option string :=
  if enum_name ≟ model_name +:+ "_" +:+ field_name then
    match model_db_name, (sanitize_name field_name).2 with
    | None, None => (enum_name, None)
    | _, _ => ((sanitize_name model_name).1 +:+ "_" +:+ (sanitize_name field_name).1, Some enum_name)
    end
  else sanitize_name enum_name.
Definition sanitize_enum_default (d : option DefaultValue) : option DefaultValue :=
  match d with
  | Some (Single (PV_Enum value)) =>
      if value ≟ "" then Some (Single (PV_Enum EMPTY_ENUM_PLACEHOLDER))
      else if (sanitize_name value).1 ≟ "" then Some (DefaultExpression dbgenerated)
      else Some (Single (PV_Enum (sanitize_name value).1))
  | d => d
  end.
Definition set_missing_db_name (n : option string) (f : Field) : Field :=
  match f_database_name f with None => set_f_database_name n f | Some _ => f end.
Definition sanitize_field (model_name : string) (model_db_name : option string) (renames : Renames) (field : Field) : Field * Renames :=
  let '(sanitized_field_name, field_db_name) := sanitize_name (f_name field) in
  let '(field, renames) :=
    match f_type field with
    | RelationType info => (set_f_type (RelationType (sanitize_info info)) field, renames)
    | EnumType enum_name =>
        let '(sanitized_enum_name, enum_db_name) := sanitize_enum_name model_name model_db_name (f_name field) enum_name in
        let renames := match enum_db_name with
                       | Some old_name => <[old_name := (sanitized_enum_name, Some old_name)]> renames
                       | None => renames
                       end in
        let field := set_f_default (sanitize_enum_default (f_default_value field)) (set_f_type (EnumType sanitized_enum_name) field) in
        (set_missing_db_name field_db_name field, renames)
    | _ => (set_missing_db_name field_db_name field, renames)
    end in
  (set_f_name sanitized_field_name field, renames).
(** The first element equal to [old] is replaced. *)
Fixpoint replace_first (old new : string) (l : list string) : list string :=
  match l with
  | [] => []
  | x :: l => if x ≟ old then new :: l else x :: replace_first old new l
  end.
Fixpoint sanitize_fields (model_name : string) (model_db_name : option string) (s : list string * Renames) (l : list Field) :
    list Field * (list string * Renames) :=
  match l with
  | [] => ([], s)
  | f :: l =>
      let '(f', renames) := sanitize_field model_name model_db_name s.2 f in
      let '(l', s') := sanitize_fields model_name model_db_name (replace_first (f_name f) (f_name f') s.1, renames) l in
      (f' :: l', s')
  end.
Definition sanitize_index (i : IndexDefinition) : IndexDefinition :=
  mkIndexDefinition (ix_name i) ((fun f => (sanitize_name f).1) <$> ix_fields i) (ix_tpe i).
Definition sanitize_model (renames : Renames) (m : Model) : Model * Renames :=
  let '(sanitized_model_name, model_db_name) := sanitize_name (m_name m) in
  let '(fields, (id_fields, renames)) := sanitize_fields (m_name m) model_db_name (m_id_fields m, renames) (m_fields m) in
  (mkModel sanitized_model_name fields (m_documentation m) model_db_name (m_is_embedded m) (sanitize_index <$> m_indices m) id_fields
     (m_is_generated m) (m_is_commented_out m), renames).
Fixpoint sanitize_models (renames : Renames) (l : list Model) : list Model * Renames :=
  match l with
  | [] => ([], renames)
  | m :: l => let '(m', renames) := sanitize_model renames m in let '(l', renames) := sanitize_models renames l in (m' :: l', renames)
  end.
Definition sanitize_enum_value (v : EnumValue) : EnumValue :=
  if ev_name v ≟ "" then mkEnumValue EMPTY_ENUM_PLACEHOLDER (Some "") (ev_documentation v) (ev_commented_out v)
  else mkEnumValue (sanitize_name (ev_name v)).1 (sanitize_name (ev_name v)).2 (ev_documentation v) (ev_commented_out v).
Definition sanitize_enum (renames : Renames) (e : Enum) : Enum :=
  let '(n, db) := match renames !! en_name e with Some r => r | None => sanitize_name (en_name e) end in
  mkEnum n (sanitize_enum_value <$> en_values e) (en_documentation e) db.
Definition sanitize_datamodel_names (d : Datamodel) : Datamodel :=
  let '(models, renames) := sanitize_models ∅ (dm_models d) in
  mkDatamodel (sanitize_enum renames <$> dm_enums d) models.
End sanitize.

(** ** Facts *)
Definition is_identifier (s : string) : bool :=
  match s with EmptyString => true | String c _ => is_letter c end && negb (has_other_char s).
Lemma letter_name_char c : is_letter c = true -> is_name_char c = true.
Proof. unfold is_name_char. by intros ->. Qed.
Lemma replace_no_other s : has_other_char (replace_other_chars s) = false.
Proof.
  induction s as [|c s IH]; [done|]. cbn. destruct (is_name_char c) eqn:Ec; [cbn; by rewrite Ec|]. destruct (is_continuation c); [done|exact IH].
Qed.
Lemma clean_start_first s : match clean_start s with EmptyString => True | String c _ => is_letter c = true end.
Proof. induction s as [|c s IH]; [done|]. cbn. by destruct (is_letter c) eqn:Ec. Qed.
Lemma sanitized_identifier s : is_identifier (sanitize_name s).1 = true.
Proof.
  unfold sanitize_name. destruct (start_matches s || has_other_char s) eqn:Em; cbn [fst].
  - unfold is_identifier. rewrite replace_no_other. pose proof (clean_start_first s) as Hc. destruct (clean_start s) as [|c r]; [done|].
    cbn [replace_other_chars]. rewrite (letter_name_char c Hc). by rewrite Hc.
  - apply orb_false_iff in Em as [Hs Ho]. unfold is_identifier. rewrite Ho. destruct s; [done|]. cbn in Hs. by rewrite (negb_false_iff _) in Hs; rewrite Hs.
Qed.
Lemma sanitize_identifier s : is_identifier s = true <-> sanitize_name s = (s, None).
Proof.
  unfold is_identifier, sanitize_name. split.
  - intros [Hc Ho%negb_true_iff]%andb_true_iff. rewrite Ho, orb_false_r. by destruct s as [|c s]; [|cbn; rewrite Hc].
  - destruct (start_matches s || has_other_char s) eqn:Em; [by intros [= ]|]. intros _. apply orb_false_iff in Em as [Hs ->].
    destruct s; [done|]. cbn in Hs |- *. by apply negb_false_iff in Hs as ->.
Qed.
Lemma sanitize_db_name s : default (sanitize_name s).1 (sanitize_name s).2 = s.
Proof. unfold sanitize_name. by destruct (_ || _). Qed.
Lemma replace_first_length old new l : length (replace_first old new l) = length l.
Proof. induction l as [|x l IH]; [done|]. cbn. destruct (x ≟ old); cbn; [done|by rewrite IH]. Qed.

(** ** Theorems *)

(** Sanitizing a name gives an identifier of the datamodel language, a letter followed by letters, digits and underscores, or the empty name. Identifiers and only they stay as they are, without a database name; in every case the database name, or the name itself when there is none, is the original name, and sanitizing again changes nothing. *)
Theorem sanitized_names (s : string) :
  is_identifier (sanitize_name s).1 = true /\ (is_identifier s = true <-> sanitize_name s = (s, None)) /\
  default (sanitize_name s).1 (sanitize_name s).2 = s /\ sanitize_name (sanitize_name s).1 = ((sanitize_name s).1, None).
Proof.
  split_and!; [apply sanitized_identifier|apply sanitize_identifier|apply sanitize_db_name|].
  apply sanitize_identifier, sanitized_identifier.
Qed.
