(* ===== verification/Introspect.v ===== *)
(** * Introspection of SQL schemas (sql-introspection-connector, introspection-connector)

    From the description of a database to a datamodel: calculate_datamodel.rs,
    misc_helpers.rs, commenting_out_guardrails.rs, version_checker.rs,
    prisma_1_defaults.rs. *)
From Stdlib Require Import Ascii.
From S2P Require Import Prelude SqlSchema Dml DmValues Directives Sanitize.

(** ** Lower case

    [to_lowercase] is compared with ASCII texts only, none of which has a letter
    (k) that a letter outside ASCII is lowered to: ASCII letters decide. *)
Fixpoint ascii_lowercase (s : string) : string :=
  match s with EmptyString => EmptyString | String c s => String (ascii_lower c) (ascii_lowercase s) end.
Definition lower_is (s t : string) : bool := ascii_lowercase s ≟ t.
(** [v[i]]. *)
Definition index_at {E A} (l : list A) (i : nat) : outcome E A := unwrap "index out of bounds" (l !! i).

(** ** Results (introspection-connector/src/lib.rs) *)
Inductive Version : Type := NonPrisma | Prisma1 | Prisma11 | Prisma2.
#[export] Instance Version_eq_dec : EqDecision Version.
Proof. solve_decision. Defined.
(** [affected] is a JSON array of objects; their fields are kept. *)
Record Warning : Type := mkWarning { w_code : Z; w_message : string; affected : list (list (string * string)) }.

Section introspect.
Context `{VT : ValueTypes}.
Record IntrospectionResult : Type := mkIntrospectionResult {
  ir_datamodel : Datamodel;
  ir_warnings : list Warning;
  ir_version : Version;
}.

(** ** Lookups of SQL schemas *)
Definition table_bang {E} (s : SqlSchema) (name : string) : outcome E Table := unwrap "table_bang" (get_table s name).
Definition is_column_unique (t : Table) (column_name : string) : bool :=
  iter_any (fun index => (i_tpe index ≟ Unique) && (length (i_columns index) ≟ 1) && contains column_name (i_columns index)) (t_indices t).
Definition is_single_primary_key (pk : PrimaryKey) (column : string) : bool :=
  (length (pk_columns pk) ≟ 1) && contains column (pk_columns pk).
Definition family_to_string (f : ColumnTypeFamily) : string :=
  match f with
  | Int => "int" | Float => "float" | Boolean => "boolean" | String_ => "string" | DateTime => "dateTime" | Binary => "binary"
  | Json => "json" | UuidFamily => "uuid" | Geometric => "geometric" | LogSequenceNumber => "logSequenceNumber"
  | TextSearch => "textSearch" | TransactionId => "transactionId" | EnumFamily x => "Enum(" +:+ x +:+ ")" | SqlSchema.Unsupported x => x
  end.
(** [PartialEq] of foreign keys: the name and the action do not count. *)
Definition ForeignKey_eqb (a b : ForeignKey) : bool :=
  (fk_columns a ≟ fk_columns b) && (referenced_table a ≟ referenced_table b) && (referenced_columns a ≟ referenced_columns b).
(** [Dedup::clear_duplicates]. *)
Fixpoint clear_duplicates (seen l : list ForeignKey) : list ForeignKey :=
  match l with
  | [] => []
  | fk :: l => if iter_any (fun x => ForeignKey_eqb x fk) seen then clear_duplicates seen l else fk :: clear_duplicates (seen ++ [fk]) l
  end.

(** ** Checks (misc_helpers.rs) *)
Definition has_column_named (t : Table) (n : string) : bool := iter_any (fun c => c_name c ≟ n) (t_columns t).
Definition is_migration_table (t : Table) : bool :=
  (t_name t ≟ "_Migration") &&
  forallb (has_column_named t) ["revision"; "name"; "datamodel"; "status"; "applied"; "rolled_back"; "datamodel_steps";
    "database_migration"; "errors"; "started_at"; "finished_at"].
Definition is_relay_table {E} (t : Table) : outcome E bool :=
  if t_name t ≟ "_RelayId" then
    c0 ← index_at (t_columns t) 0;
    if c_name c0 ≟ "id" then c1 ← index_at (t_columns t) 1; Ok (lower_is (c_name c1) "stablemodelidentifier") else Ok false
  else Ok false.
Definition is_prisma_1_or_11_list_table (t : Table) : bool :=
  match t_columns t with
  | [c0; c1; c2] => lower_is (c_name c0) "nodeid" && (c_name c1 ≟ "position") && (c_name c2 ≟ "value")
  | _ => false
  end.
Definition is_a (c : string) : bool := lower_is c "a".
Definition is_b (c : string) : bool := lower_is c "b".
Definition starts_with_underscore (s : string) : bool := match s with String "_" _ => true | _ => false end.
Definition common_prisma_m_to_n_relation_conditions {E} (t : Table) : outcome E bool :=
  if starts_with_underscore (t_name t)
     && iter_any (fun i => match i_columns i with [a; b] => is_a a && is_b b && (i_tpe i ≟ Unique) | _ => false end) (t_indices t)
     && iter_any (fun i => match i_columns i with [b] => is_b b && (i_tpe i ≟ Normal) | _ => false end) (t_indices t) then
    match t_foreign_keys t with
    | [fk0; fk1] =>
        if String.leb (referenced_table fk0) (referenced_table fk1) then
          c0 ← index_at (fk_columns fk0) 0; if is_a c0 then c1 ← index_at (fk_columns fk1) 0; Ok (is_b c1) else Ok false
        else c0 ← index_at (fk_columns fk0) 0; if is_b c0 then c1 ← index_at (fk_columns fk1) 0; Ok (is_a c1) else Ok false
    | _ => Ok false
    end
  else Ok false.
Definition is_prisma_1_point_1_or_2_join_table {E} (t : Table) : outcome E bool :=
  if (length (t_columns t) ≟ 2) && Nat.leb 2 (length (t_indices t)) then common_prisma_m_to_n_relation_conditions t else Ok false.
Definition is_prisma_1_point_0_join_table {E} (t : Table) : outcome E bool :=
  if (length (t_columns t) ≟ 3) && Nat.leb 2 (length (t_indices t)) && has_column_named t "id"
  then common_prisma_m_to_n_relation_conditions t else Ok false.

(** ** The version checker (version_checker.rs) *)
Record VersionChecker : Type := mkVersionChecker {
  vc_family : SqlFamily;
  vc_has_migration_table : bool;
  vc_has_relay_table : bool;
  vc_has_prisma_1_join_table : bool;
  vc_has_prisma_1_1_or_2_join_table : bool;
  vc_uses_on_delete : bool;
  vc_always_has_created_at_updated_at : bool;
  vc_always_has_p1_compatible_id : bool;
  vc_uses_non_prisma_types : bool;
  vc_has_inline_relations : bool;
}.
Definition VersionChecker_new {E} (f : SqlFamily) (s : SqlSchema) : outcome E VersionChecker :=
  relay ← any_m is_relay_table (tables s);
  join_1_0 ← any_m is_prisma_1_point_0_join_table (tables s);
  join_1_1 ← any_m is_prisma_1_point_1_or_2_join_table (tables s);
  Ok (mkVersionChecker f (iter_any is_migration_table (tables s)) relay join_1_0 join_1_1 false true true false false).
Definition set_uses_on_delete (v : VersionChecker) : VersionChecker :=
  mkVersionChecker (vc_family v) (vc_has_migration_table v) (vc_has_relay_table v) (vc_has_prisma_1_join_table v)
    (vc_has_prisma_1_1_or_2_join_table v) true (vc_always_has_created_at_updated_at v) (vc_always_has_p1_compatible_id v)
    (vc_uses_non_prisma_types v) (vc_has_inline_relations v).
Definition clear_created_at_updated_at (v : VersionChecker) : VersionChecker :=
  mkVersionChecker (vc_family v) (vc_has_migration_table v) (vc_has_relay_table v) (vc_has_prisma_1_join_table v)
    (vc_has_prisma_1_1_or_2_join_table v) (vc_uses_on_delete v) false (vc_always_has_p1_compatible_id v)
    (vc_uses_non_prisma_types v) (vc_has_inline_relations v).
Definition clear_p1_compatible_id (v : VersionChecker) : VersionChecker :=
  mkVersionChecker (vc_family v) (vc_has_migration_table v) (vc_has_relay_table v) (vc_has_prisma_1_join_table v)
    (vc_has_prisma_1_1_or_2_join_table v) (vc_uses_on_delete v) (vc_always_has_created_at_updated_at v) false
    (vc_uses_non_prisma_types v) (vc_has_inline_relations v).
Definition set_uses_non_prisma_types (v : VersionChecker) : VersionChecker :=
  mkVersionChecker (vc_family v) (vc_has_migration_table v) (vc_has_relay_table v) (vc_has_prisma_1_join_table v)
    (vc_has_prisma_1_1_or_2_join_table v) (vc_uses_on_delete v) (vc_always_has_created_at_updated_at v)
    (vc_always_has_p1_compatible_id v) true (vc_has_inline_relations v).
Definition set_has_inline_relations (v : VersionChecker) : VersionChecker :=
  mkVersionChecker (vc_family v) (vc_has_migration_table v) (vc_has_relay_table v) (vc_has_prisma_1_join_table v)
    (vc_has_prisma_1_1_or_2_join_table v) (vc_uses_on_delete v) (vc_always_has_created_at_updated_at v)
    (vc_always_has_p1_compatible_id v) (vc_uses_non_prisma_types v) true.
Definition SQLITE_TYPES : list (string * string) :=
  [("BOOLEAN", "BOOLEAN"); ("DATE", "DATE"); ("REAL", "REAL"); ("INTEGER", "INTEGER"); ("TEXT", "TEXT")].
Definition POSTGRES_TYPES : list (string * string) :=
  [("boolean", "bool"); ("timestamp without time zone", "timestamp"); ("numeric", "numeric"); ("integer", "int4"); ("text", "text");
   ("character varying", "varchar")].
Definition MYSQL_TYPES : list (string * string) :=
  [("tinyint", "tinyint(1)"); ("datetime", "datetime(3)"); ("decimal", "decimal(65,30)"); ("int", "int"); ("int", "int(11)");
   ("varchar", "varchar(191)"); ("char", "char(25)"); ("char", "char(36)"); ("varchar", "varchar(25)"); ("varchar", "varchar(36)");
   ("text", "text"); ("mediumtext", "mediumtext"); ("int", "int(4)")].
Definition prisma_types (f : SqlFamily) : list (string * string) :=
  match f with Postgres => POSTGRES_TYPES | Mysql => MYSQL_TYPES | Sqlite => SQLITE_TYPES end.
Definition uses_non_prisma_type (v : VersionChecker) (tpe : ColumnType) : VersionChecker :=
  if bool_decide ((data_type tpe, full_data_type tpe) ∈ prisma_types (vc_family v)) then v else set_uses_non_prisma_types v.
Definition check_inline_relations (v : VersionChecker) (t : Table) : VersionChecker :=
  if is_prisma_1_or_11_list_table t then v else set_has_inline_relations v.
Definition check_on_delete (v : VersionChecker) (fk : ForeignKey) (t : Table) : VersionChecker :=
  if (on_delete_action fk ≟ NoAction) || (on_delete_action fk ≟ SetNull) then v
  else if negb (is_prisma_1_or_11_list_table t) && negb (on_delete_action fk ≟ Cascade) then set_uses_on_delete v else v.
(** [Model::has_created_at_and_updated_at]. *)
Definition has_datetime_field (m : Model) (name lower : string) : bool :=
  match (match find_field m name with Some f => Some f | None => find_field m lower end) with
  | Some f => f_type f ≟ Base ScalarDateTime None
  | None => false
  end.
Definition has_created_at_and_updated_at (m : Model) : bool :=
  has_datetime_field m "createdAt" "createdat" && has_datetime_field m "updatedAt" "updatedat".
Definition check_created_at_updated_at {E} (v : VersionChecker) (t : Table) (m : Model) : outcome E VersionChecker :=
  if is_prisma_1_or_11_list_table t then Ok v else
  relay ← is_relay_table t;
  Ok (if negb relay && negb (has_created_at_and_updated_at m) then clear_created_at_updated_at v else v).
Definition p1_compatible_type (f : SqlFamily) (tpe : ColumnType) : bool :=
  let dt := data_type tpe in
  let fdt := full_data_type tpe in
  match f, character_maximum_length tpe with
  | Mysql, Some 25%Z => (dt ≟ "char") && (fdt ≟ "char(25)")
  | Mysql, Some 36%Z => (dt ≟ "char") && (fdt ≟ "char(36)")
  | Mysql, None => (dt ≟ "int") && ((fdt ≟ "int(11)") || (fdt ≟ "int"))
  | Postgres, Some 25%Z | Postgres, Some 36%Z => (dt ≟ "character varying") && (fdt ≟ "varchar")
  | Postgres, None => (dt ≟ "integer") && (fdt ≟ "int4")
  | _, _ => false
  end.
Definition check_p1_compatible_primary_key_column {E} (v : VersionChecker) (t : Table) : outcome E VersionChecker :=
  if is_prisma_1_or_11_list_table t then Ok v else
  relay ← is_relay_table t;
  if relay : bool then Ok v else
  match t_primary_key t with
  | Some (mkPrimaryKey [c] _) => col ← column_bang t c; Ok (if p1_compatible_type (vc_family v) (c_tpe col) then v else clear_p1_compatible_id v)
  | _ => Ok v
  end.
Definition version (v : VersionChecker) (warnings : list Warning) : Version :=
  let clean := negb (vc_uses_on_delete v) && negb (vc_uses_non_prisma_types v) && bool_decide (length warnings = 0) in
  let prisma_2 := vc_has_migration_table v && negb (vc_has_relay_table v) && clean in
  let prisma_1 := negb (vc_has_migration_table v) && vc_has_relay_table v && clean && vc_always_has_created_at_updated_at v
                  && vc_always_has_p1_compatible_id v && negb (vc_has_prisma_1_1_or_2_join_table v) && negb (vc_has_inline_relations v) in
  let prisma_11 := negb (vc_has_migration_table v) && negb (vc_has_relay_table v) && clean && vc_always_has_p1_compatible_id v
                   && negb (vc_has_prisma_1_join_table v) in
  match vc_family v with
  | Sqlite => if prisma_2 then Prisma2 else NonPrisma
  | Mysql | Postgres => if prisma_2 then Prisma2 else if prisma_1 then Prisma1 else if prisma_11 then Prisma11 else NonPrisma
  end.

(** ** Fields (misc_helpers.rs) *)
Definition new_field (name : string) (a : FieldArity) (t : FieldType) : Field := mkField name t a None None false false None false false false.
Definition calculate_many_to_many_field {E} (fk : ForeignKey) (relation_name : string) (is_self_relation : bool) : outcome E Field :=
  let info := mkRelationInfo (referenced_table fk) [] (referenced_columns fk) relation_name OnDeleteNone in
  name ← if is_self_relation then c ← index_at (fk_columns fk) 0; Ok (referenced_table fk +:+ "_" +:+ c) else Ok (referenced_table fk);
  Ok (new_field name ListField (RelationType info)).
Definition calculate_index (i : Index) : IndexDefinition :=
  mkIndexDefinition (Some (i_name i)) (i_columns i) (match i_tpe i with Unique => UniqueIndex | Normal => NormalIndex end).
Definition calculate_scalar_field_type (c : Column) : FieldType :=
  match family (c_tpe c) with
  | Boolean => Base ScalarBoolean None
  | DateTime => Base ScalarDateTime None
  | Float => Base ScalarFloat None
  | Int => Base ScalarInt None
  | String_ => Base ScalarString None
  | EnumFamily name => EnumType name
  | UuidFamily => Base ScalarString None
  | Json => Base ScalarJson None
  | x => UnsupportedType (family_to_string x)
  end.
Definition column_is_id (c : Column) (t : Table) : bool :=
  match t_primary_key t with Some pk => is_single_primary_key pk (c_name c) | None => false end.
Definition is_sequence (c : Column) (t : Table) : bool :=
  match t_primary_key t with
  | Some pk => is_single_primary_key pk (c_name c) && match pk_sequence pk with Some _ => true | None => false end
  | None => false
  end.
Definition autoincrement : ValueGenerator := mkValueGenerator "autoincrement" [] GenAutoincrement.
Definition now_generator : ValueGenerator := mkValueGenerator "now" [] GenNow.
Definition cuid_generator : ValueGenerator := mkValueGenerator "cuid" [] GenCUID.
Definition uuid_generator : ValueGenerator := mkValueGenerator "uuid" [] GenUUID.
Definition calculate_default (t : Table) (c : Column) (a : FieldArity) : option DefaultValue :=
  let is_int := family (c_tpe c) ≟ Int in
  if a ≟ ListField then None
  else if is_int && c_auto_increment c then Some (DefaultExpression autoincrement)
  else if is_int && is_sequence c t then Some (DefaultExpression autoincrement)
  else match c_default c with
       | Some (SEQUENCE _) => Some (DefaultExpression autoincrement)
       | Some NOW => if family (c_tpe c) ≟ DateTime then Some (DefaultExpression now_generator) else None
       | Some (DBGENERATED _) => Some (DefaultExpression dbgenerated)
       | Some (VALUE val) => Some (Single val)
       | None => None
       end.
Definition calculate_scalar_field (t : Table) (c : Column) : Field :=
  let field_type := calculate_scalar_field_type c in
  let is_commented_out := match field_type with UnsupportedType _ => true | _ => false end in
  let documentation := if is_commented_out then Some "This type is currently not supported." else None in
  let a := if c_auto_increment c && (field_type ≟ Base ScalarInt None) then RequiredField
           else match arity (c_tpe c) with Required => RequiredField | Nullable => OptionalField | List_ => ListField end in
  let is_id := column_is_id c t in
  mkField (c_name c) field_type a None (calculate_default t c a) (is_column_unique t (c_name c) && negb is_id) is_id documentation
    false false is_commented_out.
Definition calculate_relation_name {E} (s : SqlSchema) (fk : ForeignKey) (t : Table) : outcome E string :=
  let referenced_model := referenced_table fk in
  let model_with_fk := t_name t in
  let fk_column_name := str_join "_" (fk_columns fk) in
  let fk_to_same_model := iter_filter (fun fk => referenced_table fk ≟ referenced_model) (t_foreign_keys t) in
  other ← table_bang s referenced_model;
  let fk_from_other_model_to_this := iter_filter (fun fk => referenced_table fk ≟ model_with_fk) (t_foreign_keys other) in
  Ok (if Nat.ltb (length fk_to_same_model) 2 && (length fk_from_other_model_to_this ≟ 0) then
        if String.ltb model_with_fk referenced_model then model_with_fk +:+ "To" +:+ referenced_model
        else referenced_model +:+ "To" +:+ model_with_fk
      else if String.ltb model_with_fk referenced_model then model_with_fk +:+ "_" +:+ fk_column_name +:+ "To" +:+ referenced_model
      else referenced_model +:+ "To" +:+ model_with_fk +:+ "_" +:+ fk_column_name).
Definition calculate_relation_field {E} (s : SqlSchema) (t : Table) (fk : ForeignKey) : outcome E Field :=
  name ← calculate_relation_name s fk t;
  columns ← map_m (fun c => unwrap "column" (column t c)) (fk_columns fk);
  let a := if iter_any is_required columns then RequiredField else OptionalField in
  Ok (new_field (referenced_table fk) a (RelationType (mkRelationInfo (referenced_table fk) (fk_columns fk) (referenced_columns fk) name OnDeleteNone))).
Definition columns_match (a_cols b_cols : list string) : bool :=
  (length a_cols ≟ length b_cols) && forallb (fun a => iter_any (fun b => a ≟ b) b_cols) a_cols.
Definition calculate_backrelation_field {E} (s : SqlSchema) (model other_model : Model) (relation_field : Field) (info : RelationInfo) :
    outcome E Field :=
  t ← table_bang s (m_name model);
  let other_is_unique :=
    match ri_fields info with
    | [column_name] => is_column_unique t column_name
    | _ => iter_any (fun i => columns_match (i_columns i) (ri_fields info) && (i_tpe i ≟ Unique)) (t_indices t)
    end in
  let a := match f_arity relation_field with
           | ListField => OptionalField
           | _ => if other_is_unique then OptionalField else ListField
           end in
  let name := if (m_name model ≟ m_name other_model) && (f_name relation_field ≟ m_name model) then "other_" +:+ m_name model
              else m_name model in
  Ok (new_field name a (RelationType (mkRelationInfo (m_name model) [] [] (ri_name info) OnDeleteNone))).

(** The model with a name is changed; [find_model_mut(..).unwrap()]. *)
Definition with_model {E} (name : string) (g : Model -> outcome E Model) (d : Datamodel) : outcome E Datamodel :=
  r ← unwrap "find_model_mut" (find_mut (fun m => m_name m ≟ name) (dm_models d));
  m ← g (deref r);
  Ok (mkDatamodel (dm_enums d) (write r m)).
Definition is_relation_named (name : string) (f : Field) : bool := is_relation (f_type f) && (f_name f ≟ name).
Definition with_relation_field {E} (name : string) (g : Field -> Field) (m : Model) : outcome E Model :=
  r ← unwrap "find_relation_field_mut" (find_mut (is_relation_named name) (m_fields m));
  Ok (set_model_fields (write r (g (deref r))) m).
(** [deduplicate_field_names]. *)
Definition is_duplicated (m : Model) (f : Field) : bool := Nat.ltb 1 (length (iter_filter (fun g => f_name f ≟ f_name g) (m_fields m))).
Definition duplicated_in (m : Model) : list (string * string * string) :=
  f ← m_fields m;
  match f_type f with
  | RelationType info => if is_duplicated m f then [(m_name m, f_name f, ri_name info)] else []
  | _ => []
  end.
Definition duplicated_relation_fields (d : Datamodel) : list (string * string * string) := dm_models d ≫= duplicated_in.
Definition deduplicate_field_names {E} (d : Datamodel) : outcome E Datamodel :=
  for_each (fun d '(model, field, relation_name) =>
    with_model model (with_relation_field field (fun f => set_f_name (f_name f +:+ "_" +:+ relation_name) f)) d)
    (duplicated_relation_fields d) d.

(** ** Commenting out (commenting_out_guardrails.rs) *)
Definition comment_out_field (f : Field) : Field :=
  mkField (f_name f) (f_type f) (f_arity f) (f_database_name f) (f_default_value f) (f_is_unique f) (f_is_id f) (f_documentation f)
    (f_is_generated f) (f_is_updated_at f) true.
Definition comment_out_model (m : Model) : Model :=
  mkModel (m_name m) (m_fields m)
    (Some "The underlying table does not contain a unique identifier and can therefore currently not be handled.")
    (m_database_name m) (m_is_embedded m) (m_indices m) (m_id_fields m) (m_is_generated m) true.
Definition with_ids_and_indices (ids : list string) (is_ : list IndexDefinition) (m : Model) : Model :=
  mkModel (m_name m) (m_fields m) (m_documentation m) (m_database_name m) (m_is_embedded m) is_ ids (m_is_generated m) (m_is_commented_out m).
Definition points_back (model relation_name : string) (f : Field) : bool :=
  match f_type f with RelationType info => (ri_to info ≟ model) && (relation_name ≟ ri_name info) | _ => false end.
(** Whether a field is a side of a one to one relation. *)
Definition is_one_to_one_field {E} (d : Datamodel) (m : Model) (f : Field) : outcome E bool :=
  if f_arity f ≟ ListField then Ok false else
  match f_type f with
  | RelationType info =>
      other_model ← unwrap "find_model" (find_model d (ri_to info));
      other_field ← unwrap "other_field" (iter_find (points_back (m_name m) (ri_name info)) (m_fields other_model));
      Ok (negb (f_arity other_field ≟ ListField))
  | _ => Ok false
  end.
Definition models_with_one_to_one_relation {E} (d : Datamodel) : outcome E (list string) :=
  ms ← filter_m (fun m => any_m (is_one_to_one_field d m) (m_fields m)) (dm_models d);
  Ok (m_name <$> (ms : list Model)).
Definition INVALID_NAME : string :=
  "This field was commented out because of an invalid name. Please provide a valid one that matches [a-zA-Z][a-zA-Z0-9_]*".
(** A field with an empty name is named as in the database and commented out. *)
Definition fix_empty_name {E} (f : Field) : outcome E Field :=
  if f_name f ≟ "" then
    n ← unwrap "database_name" (f_database_name f);
    Ok (comment_out_field (set_f_name n (set_f_documentation (Some INVALID_NAME) f)))
  else Ok f.
Definition fix_empty_value (v : EnumValue) : EnumValue :=
  match ev_database_name v with
  | Some name => if ev_name v ≟ "" then mkEnumValue name (Some name) (ev_documentation v) true else v
  | None => v
  end.
Definition empty_value (v : EnumValue) : bool := (ev_name v ≟ "") && match ev_database_name v with Some _ => true | None => false end.
Definition comment_out_unsupported (f : Field) : Field := match f_type f with UnsupportedType _ => comment_out_field f | _ => f end.
Definition unsupported_fields (d : Datamodel) : list (string * string * string) :=
  m ← dm_models d; f ← m_fields m; match f_type f with UnsupportedType tpe => [(m_name m, f_name f, tpe)] | _ => [] end.
Definition drop_unsupported (field : string) (m : Model) : Model :=
  with_ids_and_indices (if contains field (m_id_fields m) then [] else m_id_fields m)
    (iter_filter (fun i => negb (contains field (ix_fields i))) (m_indices m)) m.
Definition has_no_identifier (one_to_one : list string) (m : Model) : bool :=
  match m_id_fields m with [] => true | _ => false end
  && negb (iter_any (fun f => (f_is_id f || f_is_unique f) && negb (f_is_commented_out f)) (m_fields m))
  && negb (iter_any index_is_unique (m_indices m)) && negb (contains (m_name m) one_to_one).
Definition remove_fields_to (name : string) (m : Model) : Model :=
  set_model_fields (iter_filter (fun f => negb (points_to_model f name)) (m_fields m)) m.
Definition warning_if (code : Z) (message : string) (l : list (list (string * string))) : list Warning :=
  match l with [] => [] | _ => [mkWarning code message l] end.
Definition commenting_out_guardrails {E} (d : Datamodel) : outcome E (Datamodel * list Warning) :=
  one_to_one ← models_with_one_to_one_relation d;
  models ← map_m (fun m => fs ← map_m fix_empty_name (m_fields m); Ok (set_model_fields fs m)) (dm_models d);
  let fields_with_empty_names :=
    p ← zip (dm_models d) models;
    q ← zip (m_fields p.1) (m_fields p.2);
    if f_name q.1 ≟ "" then [[("model", m_name p.1); ("field", f_name q.2)]] else [] in
  let enum_values_with_empty_names :=
    e ← dm_enums d; v ← iter_filter empty_value (en_values e); [[("enm", en_name e); ("value", default "" (ev_database_name v))]] in
  let enums := (fun e => mkEnum (en_name e) (fix_empty_value <$> en_values e) (en_documentation e) (en_database_name e)) <$> dm_enums d in
  let d := mkDatamodel enums ((fun m => set_model_fields (comment_out_unsupported <$> m_fields m) m) <$> models) in
  let unsupported_types := unsupported_fields d in
  d ← for_each (fun d mf => with_model mf.1.1 (fun m => Ok (drop_unsupported mf.1.2 m)) d) unsupported_types d;
  let models_without_identifiers := m_name <$> iter_filter (has_no_identifier one_to_one) (dm_models d) in
  let models := (fun m => if has_no_identifier one_to_one m then comment_out_model m else m) <$> dm_models d in
  let models := foldl (fun ms n => remove_fields_to n <$> ms) models models_without_identifiers in
  Ok (mkDatamodel (dm_enums d) models,
      warning_if 1 "These models do not have a unique identifier or id and are therefore commented out."
        ((fun n => [("model", n)]) <$> models_without_identifiers) ++
      warning_if 2 "These fields were commented out because of invalid names. Please provide valid ones that match [a-zA-Z][a-zA-Z0-9_]*."
        fields_with_empty_names ++
      warning_if 3 "These fields were commented out because we currently do not support their types."
        ((fun mf => [("model", mf.1.1); ("field", mf.1.2); ("tpe", mf.2)]) <$> unsupported_types) ++
      warning_if 4 "These enum values were commented out because of invalid names. Please provide valid ones that match [a-zA-Z][a-zA-Z0-9_]*."
        enum_values_with_empty_names).

(** ** Defaults of Prisma 1 (prisma_1_defaults.rs) *)
(** [Some true] for a cuid, [Some false] for a uuid. *)
Definition p1_id_default (f : SqlFamily) (tpe : ColumnType) : option bool :=
  let dt := data_type tpe in
  let fdt := full_data_type tpe in
  match f, character_maximum_length tpe with
  | Postgres, Some 25%Z => if (dt ≟ "character varying") && (fdt ≟ "varchar") then Some true else None
  | Postgres, Some 36%Z => if (dt ≟ "character varying") && (fdt ≟ "varchar") then Some false else None
  | Mysql, Some 25%Z => if (dt ≟ "char") && (fdt ≟ "char(25)") then Some true else None
  | Mysql, Some 36%Z => if (dt ≟ "char") && (fdt ≟ "char(36)") then Some false else None
  | _, _ => None
  end.
Definition p1_model_default {E} (f : SqlFamily) (s : SqlSchema) (m : Model) : outcome E (option (string * string * bool)) :=
  id_field ← unwrap "id_field" (iter_find f_is_id (m_fields m));
  t ← table_bang s (default (m_name m) (m_database_name m));
  c ← unwrap "column" (column t (default (f_name id_field) (f_database_name id_field)));
  Ok ((fun cuid => (m_name m, f_name id_field, cuid)) <$> p1_id_default f (c_tpe c)).
Definition with_field {E} (name : string) (g : Field -> Field) (m : Model) : outcome E Model :=
  r ← unwrap "find_field_mut" (find_mut (fun f => f_name f ≟ name) (m_fields m));
  Ok (set_model_fields (write r (g (deref r))) m).
Definition add_prisma_1_id_defaults {E} (f : SqlFamily) (v : Version) (d : Datamodel) (s : SqlSchema) (warnings : list Warning) :
    outcome E (Datamodel * list Warning) :=
  needs_to_be_changed ← match v with
    | Prisma1 | Prisma11 => os ← map_m (p1_model_default f s) (iter_filter has_single_id_field (dm_models d)); Ok (omap id (os : list _))
    | _ => Ok []
    end;
  d ← for_each (fun d '(model, field, cuid) =>
        with_model model (with_field field (set_f_default (Some (DefaultExpression (if cuid : bool then cuid_generator else uuid_generator))))) d)
        needs_to_be_changed d;
  let affected_by cuid := (fun c => [("model", c.1.1); ("field", c.1.2)]) <$> iter_filter (fun c => c.2 ≟ cuid) needs_to_be_changed in
  Ok (d, warnings ++
    warning_if 5 "These id fields had a `@default(cuid())` added because we believe the schema was created by Prisma 1." (affected_by true) ++
    warning_if 6 "These id fields had a `@default(uuid())` added because we believe the schema was created by Prisma 1." (affected_by false)).

(** ** The calculation (calculate_datamodel.rs) *)
Definition is_join_table {E} (t : Table) : outcome E bool :=
  a ← is_prisma_1_point_1_or_2_join_table t; if a : bool then Ok true else is_prisma_1_point_0_join_table t.
Definition is_model_table {E} (t : Table) : outcome E bool :=
  if is_migration_table t then Ok false else
  a ← is_prisma_1_point_1_or_2_join_table t;
  if a : bool then Ok false else
  b ← is_prisma_1_point_0_join_table t;
  if b : bool then Ok false else
  c ← is_relay_table t;
  Ok (negb c).
Definition has_unsupported_column {E} (m : Model) (fk : ForeignKey) : outcome E bool :=
  any_m (fun c => f ← unwrap "find_field" (find_field m c); Ok (match f_type f with UnsupportedType _ => true | _ => false end)) (fk_columns fk).
Definition calculate_model {E} (s : SqlSchema) (vd : VersionChecker * Datamodel) (t : Table) : outcome E (VersionChecker * Datamodel) :=
  let v := foldl (fun v c => uses_non_prisma_type v (c_tpe c)) vd.1 (t_columns t) in
  let model := set_model_fields (calculate_scalar_field t <$> t_columns t) (Model_new (t_name t) None) in
  fks ← filter_m (fun fk => u ← has_unsupported_column model fk; Ok (negb u)) (clear_duplicates [] (t_foreign_keys t));
  relations ← map_m (calculate_relation_field s t) fks;
  let v := foldl (fun v fk => check_on_delete (check_inline_relations v t) fk t) v fks in
  let model := set_model_fields (m_fields model ++ relations) model in
  let indices := calculate_index <$> iter_filter (fun i => negb ((length (i_columns i) ≟ 1) && (i_tpe i ≟ Unique))) (t_indices t) in
  let model := with_ids_and_indices (if Nat.ltb 1 (length (primary_key_columns t)) then primary_key_columns t else []) indices model in
  v ← check_created_at_updated_at v t model;
  v ← check_p1_compatible_primary_key_column v t;
  Ok (v, add_model model vd.2).
Definition calculate_enum (e : SqlSchema.Enum) : Enum := Enum_new (e_name e) ((fun v => EnumValue_new v None) <$> e_values e).
Definition missing_backrelation {E} (s : SqlSchema) (d : Datamodel) (m : Model) (f : Field) : outcome E (list (string * Field)) :=
  match f_type f with
  | RelationType info =>
      match dm_related_field d (m_name m) (ri_to info) (ri_name info) (f_name f) with
      | Some _ => Ok []
      | None =>
          other_model ← unwrap "find_model" (find_model d (ri_to info));
          field ← calculate_backrelation_field s m other_model f info;
          Ok [(m_name other_model, field)]
      end
  | _ => Ok []
  end.
Definition backrelations {E} (s : SqlSchema) (d : Datamodel) : outcome E (list (string * Field)) :=
  ls ← map_m (fun m => map_m (missing_backrelation s d m) (m_fields m)) (dm_models d);
  Ok (mjoin (mjoin (ls : list (list (list (string * Field)))))).
(** [table.name[1..]]. *)
Definition without_first (name : string) : string := match name with EmptyString => EmptyString | String _ n => n end.
Definition many_to_many_fields {E} (t : Table) : outcome E (list (string * Field)) :=
  match t_foreign_keys t with
  | f :: s :: _ =>
      let is_self_relation := referenced_table f ≟ referenced_table s in
      field1 ← calculate_many_to_many_field f (without_first (t_name t)) is_self_relation;
      field2 ← calculate_many_to_many_field s (without_first (t_name t)) is_self_relation;
      Ok [(referenced_table s, field1); (referenced_table f, field2)]
  | _ => Ok []
  end.
Definition calculate_models {E} (s : SqlSchema) (f : SqlFamily) : outcome E (VersionChecker * Datamodel) :=
  v ← VersionChecker_new f s;
  model_tables ← filter_m is_model_table (tables s);
  vd ← for_each (calculate_model s) model_tables (v, Datamodel_new);
  Ok (vd.1, mkDatamodel (calculate_enum <$> enums s) (dm_models vd.2)).
Definition add_opposite_fields {E} (s : SqlSchema) (d : Datamodel) : outcome E Datamodel :=
  back ← backrelations s d;
  join_tables ← filter_m is_join_table (tables s);
  many ← map_m many_to_many_fields join_tables;
  for_each (fun d '(model, field) => with_model model (fun m => Ok (add_field field m)) d) (back ++ mjoin (many : list (list (string * Field)))) d.
Definition calculate_datamodel {E} (s : SqlSchema) (f : SqlFamily) : outcome E IntrospectionResult :=
  vd ← calculate_models s f;
  d ← add_opposite_fields s vd.2;
  let d := sanitize_datamodel_names d in
  dw ← commenting_out_guardrails d;
  d ← deduplicate_field_names dw.1;
  let v := version vd.1 dw.2 in
  dw ← add_prisma_1_id_defaults f v d s dw.2;
  Ok (mkIntrospectionResult dw.1 dw.2 v).
End introspect.
