(* ===== verification/IntrospectFacts.v ===== *)
(** * What introspection guarantees

    Introspection answers on every schema whose foreign keys refer to tables
    that become models and whose table names stay apart when they are sanitized,
    and the datamodel describes the schema: every table has its model, every
    column its field, every foreign key its relation field. *)
From Stdlib Require Import Ascii.
From S2P Require Import Prelude SqlSchema Dml CalcFacts DmValues Directives StandardFacts Sanitize Introspect.

(** ** Names *)
Fixpoint has_letter (s : string) : bool := match s with EmptyString => false | String c s => is_letter c || has_letter s end.
Lemma has_letter_app a b : has_letter (a +:+ b) = has_letter a || has_letter b.
Proof. induction a as [|c a IH]; [done|]. change (String c a +:+ b) with (String c (a +:+ b)). cbn [has_letter]. by rewrite IH, orb_assoc. Qed.
Lemma clean_start_empty s : clean_start s = EmptyString <-> has_letter s = false.
Proof. induction s as [|c s IH]; [done|]. cbn. by destruct (is_letter c). Qed.
Lemma sanitize_empty s : (sanitize_name s).1 = EmptyString <-> has_letter s = false.
Proof.
  unfold sanitize_name. destruct (start_matches s || has_other_char s) eqn:Em; cbn [fst].
  - rewrite <-clean_start_empty. pose proof (clean_start_first s) as Hc. destruct (clean_start s) as [|c r]; [done|].
    cbn [replace_other_chars]. by rewrite (letter_name_char c Hc).
  - apply orb_false_iff in Em as [Hs _]. destruct s as [|c s]; [done|]. cbn in Hs |- *. apply negb_false_iff in Hs. by rewrite Hs.
Qed.
Lemma sanitize_empty_db s : s <> EmptyString -> (sanitize_name s).1 = EmptyString -> (sanitize_name s).2 = Some s.
Proof. unfold sanitize_name. by destruct (_ || _). Qed.

(** ** Lists *)
Lemma Forall2_replace {A B} (R : A -> B -> Prop) l l1 m m' l2 : Forall2 R l (l1 ++ m :: l2) -> (forall t, R t m -> R t m') ->
  Forall2 R l (l1 ++ m' :: l2).
Proof.
  intros HF Hm. apply Forall2_app_inv_r in HF as (k1 & k2 & H1 & H2 & ->). apply Forall2_cons_inv_r in H2 as (t & k2' & Ht & H2 & ->).
  apply Forall2_app; [done|]. constructor; auto.
Qed.
Lemma clear_duplicates_elem seen l fk : fk ∈ l -> (forall x, x ∈ seen -> ForeignKey_eqb x fk = false) ->
  exists fk', fk' ∈ clear_duplicates seen l /\ ForeignKey_eqb fk' fk = true.
Proof.
  revert seen. induction l as [|x l IH]; intros seen Hin Hs; [by apply elem_of_nil in Hin|]. cbn.
  assert (Hrefl : ForeignKey_eqb fk fk = true) by (unfold ForeignKey_eqb; by rewrite !bool_decide_eq_true_2).
  destruct (ForeignKey_eqb x fk) eqn:Ex.
  - destruct (iter_any (fun y => ForeignKey_eqb y x) seen) eqn:Ea.
    + exfalso. apply iter_any_spec in Ea as (y & Hy & Hyx). specialize (Hs y Hy). apply not_true_iff_false in Hs. apply Hs.
      unfold ForeignKey_eqb in *. rewrite !andb_true_iff, !bool_decide_eq_true in *. naive_solver congruence.
    + exists x. split; [constructor|done].
  - apply elem_of_cons in Hin as [->|Hin]; [congruence|]. destruct (iter_any _ seen) eqn:Ea; [by apply IH|].
    destruct (IH (seen ++ [x]) Hin) as (fk' & Hfk & Heq); [|exists fk'; split; [by constructor|done]].
    intros y [Hy| ->%list_elem_of_singleton]%elem_of_app; [by apply Hs|done].
Qed.
Lemma clear_duplicates_sub seen l fk : fk ∈ clear_duplicates seen l -> fk ∈ l.
Proof.
  revert seen. induction l as [|x l IH]; intros seen; [done|]. cbn. destruct (iter_any _ _).
  - intros H%IH. by constructor.
  - intros [->|H%IH]%elem_of_cons; by constructor.
Qed.
Lemma ForeignKey_eqb_eq a b : ForeignKey_eqb a b = true ->
  fk_columns a = fk_columns b /\ referenced_table a = referenced_table b /\ referenced_columns a = referenced_columns b.
Proof. unfold ForeignKey_eqb. rewrite !andb_true_iff, !bool_decide_eq_true. tauto. Qed.

Section facts.
Context `{VT : ValueTypes}.

(** ** Changing one model *)
Lemma with_model_total {E} n (g : Model -> outcome E Model) (P : Model -> Model -> Prop) d : n ∈ m_name <$> dm_models d ->
  (forall m, m ∈ dm_models d -> m_name m = n -> exists m', g m = Ok m' /\ P m m') ->
  exists l1 m l2 m', dm_models d = l1 ++ m :: l2 /\ m_name m = n /\ P m m' /\
    with_model n g d = Ok (mkDatamodel (dm_enums d) (l1 ++ m' :: l2)).
Proof.
  intros Hn Hg. unfold with_model. destruct (find_mut _ _) as [r|] eqn:Er.
  - cbn [unwrap mbind outcome_bind]. apply find_mut_Some in Er as (l1 & m & l2 & Hd & -> & Hm & _ & Hw). apply bool_decide_eq_true in Hm.
    destruct (Hg m) as (m' & -> & HP); [rewrite Hd; set_solver|done|]. cbn. exists l1, m, l2, m'. by rewrite Hw.
  - exfalso. apply find_map_mut_None in Er. rewrite Forall_forall in Er. apply list_elem_of_fmap in Hn as (m & -> & Hm).
    specialize (Er m Hm). cbn in Er. by rewrite bool_decide_eq_true_2 in Er.
Qed.

(** ** Adding fields *)
Definition fields_for (n : string) (adds : list (string * Field)) : list Field := snd <$> iter_filter (fun a => a.1 ≟ n) adds.
Definition add_fields (adds : list (string * Field)) (m : Model) : Model := set_model_fields (m_fields m ++ fields_for (m_name m) adds) m.
Lemma add_fields_nil (l : list Model) : add_fields [] <$> l = l.
Proof. induction l as [|m l IH]; [done|]. rewrite fmap_cons, IH. f_equal. unfold add_fields. cbn. rewrite app_nil_r. by destruct m. Qed.
Lemma add_field_other n f (l : list Model) : n ∉ m_name <$> l -> add_fields [(n, f)] <$> l = l.
Proof.
  induction l as [|m l IH]; [done|]. rewrite !fmap_cons, not_elem_of_cons. intros [Hn Hl]. rewrite IH by done. f_equal.
  unfold add_fields, fields_for. cbn. rewrite bool_decide_eq_false_2 by done. cbn. rewrite app_nil_r. by destruct m.
Qed.
Lemma add_fields_cons n f adds m : add_fields ((n, f) :: adds) m = add_fields adds (add_fields [(n, f)] m).
Proof.
  unfold add_fields, fields_for. cbn. destruct (n ≟ m_name m); cbn; [|by rewrite app_nil_r]. unfold set_model_fields; cbn.
  f_equal. by rewrite <-(assoc_L app).
Qed.
Lemma add_all_fields {E} adds d : NoDup (m_name <$> dm_models d) -> (forall a, a ∈ adds -> a.1 ∈ m_name <$> dm_models d) ->
  for_each (E := E) (fun d '(model, field) => with_model model (fun m => Ok (add_field field m)) d) adds d =
  Ok (mkDatamodel (dm_enums d) (add_fields adds <$> dm_models d)).
Proof.
  revert d. induction adds as [|[n f] adds IH]; intros d Hnd Hin; [cbn; rewrite add_fields_nil; by destruct d|]. cbn.
  destruct (with_model_total n (fun m => Ok (E := E) (add_field f m)) (fun m m' => m' = add_field f m) d) as (l1 & m & l2 & m' & Hd & Hn & -> & ->).
  { apply (Hin (n, f)). constructor. }
  { eauto. }
  assert (Hnew : l1 ++ add_field f m :: l2 = add_fields [(n, f)] <$> dm_models d).
  { rewrite Hd in Hnd |- *. rewrite fmap_app, fmap_cons in Hnd. rewrite (fmap_app (add_fields [(n, f)])), fmap_cons. apply NoDup_app in Hnd as (_ & Hd1 & [Hm _]%NoDup_cons).
    rewrite !add_field_other; [|by rewrite <-Hn|intros H; apply (Hd1 n H); rewrite Hn; constructor]. do 2 f_equal.
    unfold add_fields, fields_for. cbn. by rewrite bool_decide_eq_true_2. }
  cbn [mbind outcome_bind]. rewrite IH; cbn [dm_models dm_enums]; rewrite Hnew.
  - f_equal. f_equal. rewrite <-list_fmap_compose. apply list_fmap_ext. intros i x _. cbn. symmetry. apply add_fields_cons.
  - by rewrite <-list_fmap_compose.
  - intros a Ha. rewrite <-list_fmap_compose. apply (Hin a). by constructor.
Qed.

(** ** Schemas that can be introspected *)
Definition model_table_b (t : Table) : bool := match is_model_table (E := string) t with Ok b => b | _ => false end.
Definition model_tables (s : SqlSchema) : list Table := iter_filter model_table_b (tables s).
Definition table_columns (t : Table) : list string := c_name <$> t_columns t.
(** Foreign keys have columns, of the table, and refer to a table that becomes a model; so do the columns of the primary key. *)
Definition table_introspectable_b (s : SqlSchema) (t : Table) : bool :=
  (negb (t_name t ≟ "_RelayId") || Nat.leb 2 (length (t_columns t)))
  && forallb (fun c => contains c (table_columns t)) (primary_key_columns t)
  && forallb (fun c => negb (c_name c ≟ "")) (t_columns t)
  && forallb (fun fk => Nat.leb 1 (length (fk_columns fk)) && forallb (fun c => contains c (table_columns t)) (fk_columns fk)
                        && contains (referenced_table fk) (t_name <$> model_tables s)) (t_foreign_keys t).
(** Moreover table names are distinct, also when they are sanitized, and contain a letter. *)
Definition introspectable_b (s : SqlSchema) : bool :=
  bool_decide (NoDup (t_name <$> tables s)) && forallb (table_introspectable_b s) (tables s)
  && bool_decide (NoDup ((fun t => (sanitize_name (t_name t)).1) <$> model_tables s)) && forallb (fun t => has_letter (t_name t)) (model_tables s).
Record introspectable (s : SqlSchema) : Prop := {
  is_names : NoDup (t_name <$> tables s);
  is_relay : forall t, t ∈ tables s -> t_name t = "_RelayId" -> 2 <= length (t_columns t);
  is_key : forall t c, t ∈ tables s -> c ∈ primary_key_columns t -> c ∈ table_columns t;
  is_column : forall t c, t ∈ tables s -> c ∈ t_columns t -> c_name c <> "";
  is_fk : forall t fk, t ∈ tables s -> fk ∈ t_foreign_keys t -> 1 <= length (fk_columns fk) /\
    (forall c, c ∈ fk_columns fk -> c ∈ table_columns t) /\ exists t', t' ∈ model_tables s /\ t_name t' = referenced_table fk;
  is_apart : NoDup ((fun t => (sanitize_name (t_name t)).1) <$> model_tables s);
  is_letters : forall t, t ∈ model_tables s -> has_letter (t_name t) = true;
}.
Lemma introspectable_b_spec s : introspectable_b s = true -> introspectable s.
Proof.
  unfold introspectable_b, table_introspectable_b. rewrite !andb_true_iff, !bool_decide_eq_true.
  intros [[[Hn Ht] Ha] Hl]. pose proof (forallb_elem _ _ Ht) as Ht'. pose proof (forallb_elem _ _ Hl) as Hl'.
  assert (Hall : forall t, t ∈ tables s -> (t_name t = "_RelayId" -> 2 <= length (t_columns t)) /\
    (forall c, c ∈ primary_key_columns t -> c ∈ table_columns t) /\ (forall c, c ∈ t_columns t -> c_name c <> "") /\
    forall fk, fk ∈ t_foreign_keys t -> 1 <= length (fk_columns fk) /\
    (forall c, c ∈ fk_columns fk -> c ∈ table_columns t) /\ exists t', t' ∈ model_tables s /\ t_name t' = referenced_table fk).
  { intros t Hin. specialize (Ht' t Hin). rewrite !andb_true_iff in Ht'. destruct Ht' as [[[Hr Hk] Hc] Hf]. split_and!.
    - intros Hrn. rewrite bool_decide_eq_true_2 in Hr by done. by apply Nat.leb_le.
    - intros c H. by apply contains_elem, (forallb_elem _ _ Hk).
    - intros c H. pose proof (forallb_elem _ _ Hc c H) as Hx. by apply negb_true_iff, bool_decide_eq_false in Hx.
    - intros fk H. pose proof (forallb_elem _ _ Hf fk H) as Hx. rewrite !andb_true_iff in Hx. destruct Hx as [[H1 H2] H3].
      split_and!; [by apply Nat.leb_le|intros c Hcc; by apply contains_elem, (forallb_elem _ _ H2)|].
      apply contains_elem, list_elem_of_fmap in H3 as (t' & ? & ?). eauto. }
  split; [done|..|done|done].
  - intros t Hin. by apply Hall.
  - intros t c Hin. by apply Hall.
  - intros t c Hin. by apply Hall.
  - intros t fk Hin. by apply Hall.
Qed.

Section schema.
Context (s : SqlSchema) (Hs : introspectable s).

(** ** The checks of tables answer *)
Lemma relay_answers {E} t : t ∈ tables s -> exists b, is_relay_table (E := E) t = Ok b.
Proof.
  intros Ht. unfold is_relay_table, index_at. destruct (t_name t ≟ "_RelayId") eqn:En; [|eauto]. apply bool_decide_eq_true in En.
  pose proof (is_relay s Hs t Ht En) as Hl. destruct (t_columns t) as [|c0 [|c1 l]]; cbn in Hl; try lia. cbn. destruct (c_name c0 ≟ "id"); cbn; eauto.
Qed.
Lemma join_conditions_answer {E} t : t ∈ tables s -> exists b, common_prisma_m_to_n_relation_conditions (E := E) t = Ok b.
Proof.
  intros Ht. unfold common_prisma_m_to_n_relation_conditions, index_at. destruct (_ && _ && _); [|eauto].
  destruct (t_foreign_keys t) as [|fk0 [|fk1 [|]]] eqn:Efk; [eauto..| |eauto].
  destruct (is_fk s Hs t fk0 Ht) as [H0 _]; [rewrite Efk; set_solver|]. destruct (is_fk s Hs t fk1 Ht) as [H1 _]; [rewrite Efk; set_solver|].
  destruct (fk_columns fk0) as [|c0 l0]; [cbn in H0; lia|]. destruct (fk_columns fk1) as [|c1 l1]; [cbn in H1; lia|]. cbn.
  destruct (String.leb _ _); [destruct (is_a c0)|destruct (is_b c0)]; cbn; eauto.
Qed.
Lemma join_answers {E} t : t ∈ tables s ->
  (exists b, is_prisma_1_point_1_or_2_join_table (E := E) t = Ok b) /\ (exists b, is_prisma_1_point_0_join_table (E := E) t = Ok b).
Proof.
  intros Ht. destruct (join_conditions_answer (E := E) t Ht) as [b Hb]. unfold is_prisma_1_point_1_or_2_join_table, is_prisma_1_point_0_join_table.
  split; destruct (_ && _); eauto.
Qed.
Lemma is_join_answers {E} t : t ∈ tables s -> exists b, is_join_table (E := E) t = Ok b.
Proof.
  intros Ht. destruct (join_answers (E := E) t Ht) as [[a Ha] [b Hb]]. unfold is_join_table. rewrite Ha. cbn. rewrite Hb. destruct a; eauto.
Qed.
Lemma model_table_answers t : t ∈ tables s -> is_model_table (E := string) t = Ok (model_table_b t).
Proof.
  intros Ht. unfold model_table_b. enough (exists b, is_model_table (E := string) t = Ok b) as [b ->] by done. unfold is_model_table.
  destruct (is_migration_table t); [eauto|]. destruct (join_answers (E := string) t Ht) as [[a ->] [b ->]]. cbn. destruct a; [eauto|]. destruct b; [eauto|].
  destruct (relay_answers (E := string) t Ht) as [c ->]. eauto.
Qed.
Lemma model_table_elem t : t ∈ model_tables s -> t ∈ tables s.
Proof. by intros [? _]%iter_filter_elem. Qed.
Lemma get_model_table n t : t ∈ model_tables s -> t_name t = n -> get_table s n = Some t.
Proof. intros Ht%model_table_elem <-. by apply get_table_elem; [apply (is_names s Hs)|]. Qed.

(** ** Models of tables *)
Definition relation_of_fk (fk : ForeignKey) (f : Field) : Prop := exists name,
  f_type f = RelationType (mkRelationInfo (referenced_table fk) (fk_columns fk) (referenced_columns fk) name OnDeleteNone).
(** A relation field that was calculated: it is no id, and its name and the model it leads to are those of model tables. *)
Record relation_made (f : Field) : Prop := {
  rm_info : exists info t, f_type f = RelationType info /\ t ∈ model_tables s /\ t_name t = ri_to info;
  rm_id : f_is_id f = false;
  rm_letter : has_letter (f_name f) = true;
}.
Record raw_model (t : Table) (m : Model) (rels : list Field) : Prop := {
  rw_name : m_name m = t_name t;
  rw_db : m_database_name m = None;
  rw_fields : m_fields m = (calculate_scalar_field t <$> t_columns t) ++ rels;
  rw_rels : forall f, f ∈ rels -> relation_made f;
  rw_fks : forall fk, fk ∈ t_foreign_keys t -> (forall c, c ∈ t_columns t -> c_name c ∈ fk_columns fk -> forall n, calculate_scalar_field_type c <> UnsupportedType n) ->
    exists f, f ∈ rels /\ relation_of_fk fk f;
}.
Lemma relation_field_total t fk : t ∈ tables s -> fk ∈ t_foreign_keys t ->
  exists f, calculate_relation_field (E := string) s t fk = Ok f /\ relation_made f /\ relation_of_fk fk f.
Proof.
  intros Ht Hfk. destruct (is_fk s Hs t fk Ht Hfk) as (_ & Hc & t' & Ht' & Hn). unfold calculate_relation_field, calculate_relation_name, table_bang.
  rewrite (get_model_table _ _ Ht' Hn). cbn [unwrap mbind outcome_bind].
  destruct (map_m_total (E := string) (fun c => unwrap "column" (column t c)) (fun _ _ => True) (fk_columns fk)) as (cs & -> & _).
  { intros c Hin%Hc. apply list_elem_of_fmap in Hin as (col & -> & Hcol). destruct (column t (c_name col)) as [x|] eqn:E; [eauto|].
    exfalso. unfold column in E. rewrite iter_find_None in E. specialize (E col Hcol). by rewrite bool_decide_eq_true_2 in E. }
  cbn [mbind outcome_bind]. eexists. split; [done|]. split; [|by eexists]. split; cbn.
  - eexists _, t'. cbn. done.
  - done.
  - rewrite <-Hn. by apply (is_letters s Hs).
Qed.
Definition raw_scalars (t : Table) : Model := set_model_fields (calculate_scalar_field t <$> t_columns t) (Model_new (t_name t) None).
Lemma raw_scalar_field t fk c : t ∈ tables s -> fk ∈ t_foreign_keys t -> c ∈ fk_columns fk ->
  exists col, col ∈ t_columns t /\ c_name col = c /\ find_field (raw_scalars t) c = Some (calculate_scalar_field t col).
Proof.
  intros Ht Hfk Hc. destruct (is_fk s Hs t fk Ht Hfk) as (_ & Hcs & _). apply Hcs, list_elem_of_fmap in Hc as (col & -> & Hcol).
  destruct (find_field (raw_scalars t) (c_name col)) as [f|] eqn:E.
  - pose proof (find_field_Some _ _ _ E) as [Hf Hn]. apply list_elem_of_fmap in Hf as (col' & -> & Hcol'). by exists col'.
  - exfalso. unfold find_field in E. rewrite iter_find_None in E.
    specialize (E (calculate_scalar_field t col) (list_elem_of_fmap_2 _ _ _ Hcol)). cbn in E. by rewrite bool_decide_eq_true_2 in E.
Qed.
Lemma unsupported_total t fk : t ∈ tables s -> fk ∈ t_foreign_keys t -> exists b, has_unsupported_column (E := string) (raw_scalars t) fk = Ok b /\
  (b = true -> exists c n, c ∈ t_columns t /\ c_name c ∈ fk_columns fk /\ calculate_scalar_field_type c = UnsupportedType n).
Proof.
  intros Ht Hfk. unfold has_unsupported_column. set (f := fun c : string => _ ≫= _). destruct (any_m_ok f (fk_columns fk)) as [b Hb].
  { intros c Hc. unfold f. destruct (raw_scalar_field t fk c Ht Hfk Hc) as (col & _ & _ & ->). cbn. eauto. }
  exists b. split; [done|]. intros ->. apply any_m_true in Hb as (c & Hc & Hfc). unfold f in Hfc.
  destruct (raw_scalar_field t fk c Ht Hfk Hc) as (col & Hcol & Hn & Hff). rewrite Hff in Hfc. cbn in Hfc.
  destruct (calculate_scalar_field_type col) as [| | |n|] eqn:Et; try done. exists col, n. by rewrite Hn.
Qed.
Lemma calculate_model_total v d t : t ∈ model_tables s ->
  exists v' m rels, calculate_model (E := string) s (v, d) t = Ok (v', add_model m d) /\ raw_model t m rels.
Proof.
  intros Hm. pose proof (model_table_elem t Hm) as Ht. unfold calculate_model. cbn [fst snd]. fold (raw_scalars t). set (v0 := foldl _ _ _).
  set (supported := fun fk => match has_unsupported_column (E := string) (raw_scalars t) fk with Ok u => negb u | _ => false end).
  rewrite (filter_m_pure _ supported).
  2: { intros fk Hfk%clear_duplicates_sub. unfold supported. by destruct (unsupported_total t fk Ht Hfk) as (b & -> & _). }
  cbn [mbind outcome_bind]. set (fks := iter_filter supported _).
  destruct (map_m_total (calculate_relation_field (E := string) s t) (fun fk f => relation_made f /\ relation_of_fk fk f) fks) as (rels & -> & HF).
  { intros fk [Hfk%clear_duplicates_sub _]%iter_filter_elem. by apply relation_field_total. }
  cbn [mbind outcome_bind]. set (v1 := foldl _ _ fks). set (model := with_ids_and_indices _ _ _).
  unfold check_created_at_updated_at, check_p1_compatible_primary_key_column. destruct (relay_answers (E := string) t Ht) as [b Hb].
  assert (Hraw : raw_model t model rels).
  { split; [done..| |].
    - intros f Hf. destruct (Forall2_elem_r _ _ _ _ HF Hf) as (fk & _ & ? & _). done.
    - intros fk Hfk Hsup. destruct (clear_duplicates_elem [] (t_foreign_keys t) fk Hfk) as (fk' & Hin & (E1 & E2 & E3)%ForeignKey_eqb_eq); [set_solver|].
      pose proof (clear_duplicates_sub _ _ _ Hin) as Hfk'. assert (Hs' : supported fk' = true).
      { unfold supported. destruct (unsupported_total t fk' Ht Hfk') as ([] & -> & Hb'); [|done]. exfalso.
        destruct (Hb' eq_refl) as (c & n & Hc & Hcn & Htn). rewrite E1 in Hcn. by apply (Hsup c Hc Hcn n). }
      destruct (Forall2_elem_l _ _ _ fk' HF) as (f & Hf & _ & name & Hty); [by apply iter_filter_elem|].
      exists f. split; [done|]. exists name. by rewrite Hty, E1, E2, E3. }
  destruct (is_prisma_1_or_11_list_table t); [cbn; eauto|]. rewrite Hb. cbn [mbind outcome_bind]. destruct b; [eauto|].
  destruct (t_primary_key t) as [[[|c [|]] sq]|] eqn:Epk; [eauto| |eauto..]. cbn [negb].
  unfold column_bang. destruct (column t c) as [col|] eqn:Ec; [cbn; eauto|]. exfalso.
  assert (Hk : c ∈ table_columns t) by (apply (is_key s Hs t c Ht); unfold primary_key_columns; rewrite Epk; cbn; set_solver).
  apply list_elem_of_fmap in Hk as (col & -> & Hcol). unfold column in Ec. rewrite iter_find_None in Ec.
  specialize (Ec col Hcol). by rewrite bool_decide_eq_true_2 in Ec.
Qed.
Lemma calculate_models_total f : exists v d, calculate_models (E := string) s f = Ok (v, d) /\
  Forall2 (fun t m => exists rels, raw_model t m rels) (model_tables s) (dm_models d).
Proof.
  unfold calculate_models, VersionChecker_new.
  destruct (any_m_ok (is_relay_table (E := string)) (tables s)) as [b1 ->]; [intros t Ht; by apply relay_answers|]. cbn [mbind outcome_bind].
  destruct (any_m_ok (is_prisma_1_point_0_join_table (E := string)) (tables s)) as [b2 ->]; [intros t Ht; by apply join_answers|]. cbn [mbind outcome_bind].
  destruct (any_m_ok (is_prisma_1_point_1_or_2_join_table (E := string)) (tables s)) as [b3 ->]; [intros t Ht; by apply join_answers|]. cbn [mbind outcome_bind].
  set (v0 := mkVersionChecker _ _ _ _ _ _ _ _ _ _). rewrite (filter_m_pure _ model_table_b) by apply model_table_answers. cbn [mbind outcome_bind].
  fold (model_tables s).
  enough (Hgen : forall l v d, (forall t, t ∈ l -> t ∈ model_tables s) -> exists v' ms, for_each (calculate_model (E := string) s) l (v, d) =
    Ok (v', mkDatamodel (dm_enums d) (dm_models d ++ ms)) /\ Forall2 (fun t m => exists rels, raw_model t m rels) l ms).
  { destruct (Hgen (model_tables s) v0 Datamodel_new) as (v' & ms & -> & HF); [done|]. cbn. eauto. }
  induction l as [|t l IH]; intros v d Hl; [exists v, []; cbn; rewrite app_nil_r; by destruct d|]. cbn.
  destruct (calculate_model_total v d t) as (v1 & m & rels & -> & Hraw); [apply Hl; constructor|]. cbn [mbind outcome_bind].
  destruct (IH v1 (add_model m d)) as (v2 & ms & -> & HF); [intros x Hx; apply Hl; by constructor|].
  exists v2, (m :: ms). cbn. rewrite <-(assoc_L app). split; [done|]. constructor; eauto.
Qed.

(** ** Opposite fields *)
Definition opposites (d : Datamodel) : Prop := forall m f info, m ∈ dm_models d -> f ∈ m_fields m -> f_type f = RelationType info ->
  exists m' f', m' ∈ dm_models d /\ m_name m' = ri_to info /\ f' ∈ m_fields m' /\ points_back (m_name m) (ri_name info) f' = true.
Section opposite.
Context (d : Datamodel) (Hd : Forall2 (fun t m => exists rels, raw_model t m rels) (model_tables s) (dm_models d)).

Lemma raw_names : m_name <$> dm_models d = t_name <$> model_tables s.
Proof.
  clear Hs. induction Hd as [|t m l k (rels & Hraw) Hl IH]; [done|]. rewrite !fmap_cons. f_equal; [exact (rw_name _ _ _ Hraw)|exact (IH Hl)].
Qed.
Lemma raw_names_nodup : NoDup (m_name <$> dm_models d).
Proof.
  rewrite raw_names. eapply sublist_NoDup; [apply (is_names s Hs)|]. unfold model_tables. clear. induction (tables s) as [|t l IH]; [constructor|].
  cbn. destruct (model_table_b t); by constructor.
Qed.
Lemma raw_of m : m ∈ dm_models d -> exists t rels, t ∈ model_tables s /\ raw_model t m rels.
Proof. intros Hm. destruct (Forall2_elem_r _ _ _ _ Hd Hm) as (t & Ht & rels & Hr). eauto. Qed.
Lemma raw_model_named t : t ∈ model_tables s -> exists m, m ∈ dm_models d /\ m_name m = t_name t.
Proof. intros Ht. destruct (Forall2_elem_l _ _ _ _ Hd Ht) as (m & Hm & rels & Hr). exists m. split; [done|apply Hr]. Qed.
Lemma scalar_not_relation t c info : f_type (calculate_scalar_field t c) <> RelationType info.
Proof. cbn. unfold calculate_scalar_field_type. by destruct (family (c_tpe c)). Qed.
Lemma raw_relation m f info : m ∈ dm_models d -> f ∈ m_fields m -> f_type f = RelationType info ->
  exists m', m' ∈ dm_models d /\ m_name m' = ri_to info /\ find_model d (ri_to info) = Some m'.
Proof.
  intros Hm Hf Ht. destruct (raw_of m Hm) as (t & rels & _ & Hr). rewrite (rw_fields _ _ _ Hr) in Hf.
  apply elem_of_app in Hf as [(c & -> & _)%list_elem_of_fmap|Hf]; [by apply scalar_not_relation in Ht|].
  destruct (rm_info _ (rw_rels _ _ _ Hr f Hf)) as (info' & t' & Ht' & Hin & Hn). rewrite Ht in Ht'. injection Ht' as <-.
  destruct (raw_model_named t' Hin) as (m' & Hm' & Hn'). exists m'. rewrite Hn in Hn'. split_and!; [done..|]. rewrite <-Hn'. apply find_model_elem; [apply raw_names_nodup|done].
Qed.
Definition back_field (m : Model) (info : RelationInfo) (g : Field) : Prop :=
  f_type g = RelationType (mkRelationInfo (m_name m) [] [] (ri_name info) OnDeleteNone) /\ relation_made g.
Lemma missing_backrelation_total m f : m ∈ dm_models d -> f ∈ m_fields m -> exists l, missing_backrelation (E := string) s d m f = Ok l /\
  (forall a, a ∈ l -> exists info, f_type f = RelationType info /\ a.1 = ri_to info /\ back_field m info a.2) /\
  forall info, f_type f = RelationType info ->
    (exists m' f', m' ∈ dm_models d /\ m_name m' = ri_to info /\ f' ∈ m_fields m' /\ points_back (m_name m) (ri_name info) f' = true) \/
    exists g, (ri_to info, g) ∈ l /\ back_field m info g.
Proof.
  intros Hm Hf. unfold missing_backrelation. destruct (f_type f) as [|info| | |] eqn:Et; try (exists []; split_and!; [done|by intros a Ha%elem_of_nil|done]).
  destruct (raw_relation m f info Hm Hf Et) as (m' & Hm' & Hn' & Hfind).
  destruct (dm_related_field _ _ _ _ _) as [f'|] eqn:Er.
  - exists []. split_and!; [done|by intros a Ha%elem_of_nil|]. intros i [= <-]. left. exists m', f'. unfold dm_related_field in Er. rewrite Hfind in Er. cbn in Er.
    apply iter_find_Some in Er as [Hf' Hp]. split_and!; [done..|]. unfold points_back. destruct (f_type f'); try done.
    rewrite !andb_true_iff, !bool_decide_eq_true in Hp. destruct Hp as [[-> ->] _]. by rewrite !bool_decide_eq_true_2.
  - rewrite Hfind. cbn [unwrap mbind outcome_bind]. unfold calculate_backrelation_field, table_bang. destruct (raw_of m Hm) as (t & rels & Ht & Hr).
    rewrite (get_model_table (m_name m) t Ht) by (symmetry; apply Hr). cbn [unwrap mbind outcome_bind]. set (g := new_field _ _ _).
    assert (Hg : back_field m info g).
    { split; [done|]. split; [|done|].
      - eexists _, t. cbn. split_and!; [done..|]. symmetry. apply Hr.
      - unfold g. cbn. assert (Hl : has_letter (m_name m) = true) by (rewrite (rw_name _ _ _ Hr); by apply (is_letters s Hs)).
        destruct (_ && _); [by rewrite has_letter_app, Hl, orb_true_r|done]. }
    eexists. split; [done|]. rewrite Hn'. split.
    + intros a ->%list_elem_of_singleton. exists info. done.
    + intros i [= <-]. right. exists g. split; [by apply list_elem_of_singleton|done].
Qed.
Lemma backrelations_total : exists back, backrelations (E := string) s d = Ok back /\
  (forall a, a ∈ back -> exists m f info, m ∈ dm_models d /\ f ∈ m_fields m /\ f_type f = RelationType info /\ a.1 = ri_to info /\ back_field m info a.2) /\
  forall m f info, m ∈ dm_models d -> f ∈ m_fields m -> f_type f = RelationType info ->
    (exists m' f', m' ∈ dm_models d /\ m_name m' = ri_to info /\ f' ∈ m_fields m' /\ points_back (m_name m) (ri_name info) f' = true) \/
    exists g, (ri_to info, g) ∈ back /\ back_field m info g.
Proof.
  unfold backrelations. set (P := fun m f (l : list (string * Field)) => (forall a, a ∈ l -> exists info, f_type f = RelationType info /\ a.1 = ri_to info /\ back_field m info a.2) /\
    forall info, f_type f = RelationType info ->
    (exists m' f', m' ∈ dm_models d /\ m_name m' = ri_to info /\ f' ∈ m_fields m' /\ points_back (m_name m) (ri_name info) f' = true) \/
    exists g, (ri_to info, g) ∈ l /\ back_field m info g).
  destruct (map_m_total (fun m => map_m (missing_backrelation (E := string) s d m) (m_fields m)) (fun m ls => Forall2 (P m) (m_fields m) ls) (dm_models d)) as (ls & -> & HF).
  { intros m Hm. destruct (map_m_total (missing_backrelation (E := string) s d m) (P m) (m_fields m)) as (l & -> & Hl); [|eauto].
    intros f Hf. by apply missing_backrelation_total. }
  cbn. eexists. split; [done|]. split.
  - intros a (l & Ha & (k & Hl & Hk)%list_elem_of_join)%list_elem_of_join. destruct (Forall2_elem_r _ _ _ _ HF Hk) as (m & Hm & HFm).
    destruct (Forall2_elem_r _ _ _ _ HFm Hl) as (f & Hf & Hp & _). destruct (Hp a Ha) as (info & ? & ? & ?). exists m, f, info. done.
  - intros m f info Hm Hf Ht. destruct (Forall2_elem_l _ _ _ _ HF Hm) as (k & Hk & HFm). destruct (Forall2_elem_l _ _ _ _ HFm Hf) as (l & Hl & _ & Hp).
    destruct (Hp info Ht) as [?|(g & Hg & Hb)]; [by left|]. right. exists g. split; [|done]. apply list_elem_of_join. exists l. split; [done|].
    apply list_elem_of_join. by exists k.
Qed.
Definition paired (l : list (string * Field)) (a : string * Field) : Prop :=
  (exists t, t ∈ model_tables s /\ t_name t = a.1) /\ relation_made a.2 /\
  exists b ia ib, b ∈ l /\ f_type a.2 = RelationType ia /\ b.1 = ri_to ia /\ f_type b.2 = RelationType ib /\ ri_to ib = a.1 /\ ri_name ib = ri_name ia.
Lemma many_to_many_field_total t fk name self : t ∈ tables s -> fk ∈ t_foreign_keys t ->
  exists f, calculate_many_to_many_field (E := string) fk name self = Ok f /\ relation_made f /\
    f_type f = RelationType (mkRelationInfo (referenced_table fk) [] (referenced_columns fk) name OnDeleteNone).
Proof.
  intros Ht Hfk. destruct (is_fk s Hs t fk Ht Hfk) as (Hl & _ & t' & Ht' & Hn). unfold calculate_many_to_many_field, index_at.
  assert (Hmade : forall n, has_letter n = true -> relation_made (new_field n ListField (RelationType
    (mkRelationInfo (referenced_table fk) [] (referenced_columns fk) name OnDeleteNone)))).
  { intros n Hlet. split; [|done|done]. eexists _, t'. cbn. done. }
  pose proof (is_letters s Hs t' Ht') as Hlet. rewrite Hn in Hlet. destruct self; [|cbn; eauto].
  destruct (fk_columns fk) as [|c l]; [cbn in Hl; lia|]. cbn. eexists. split; [done|]. split; [|done]. apply Hmade. by rewrite has_letter_app, Hlet.
Qed.
Lemma many_to_many_total t : t ∈ tables s -> exists l, many_to_many_fields (E := string) t = Ok l /\ forall a, a ∈ l -> paired l a.
Proof.
  intros Ht. unfold many_to_many_fields. destruct (t_foreign_keys t) as [|f [|g l]] eqn:Efk; [by exists []; split; [|intros a Ha%elem_of_nil]..|].
  assert (Hf : f ∈ t_foreign_keys t) by (rewrite Efk; set_solver). assert (Hg : g ∈ t_foreign_keys t) by (rewrite Efk; set_solver).
  destruct (many_to_many_field_total t f (without_first (t_name t)) (referenced_table f ≟ referenced_table g) Ht Hf) as (f1 & -> & Hf1 & Ht1).
  destruct (many_to_many_field_total t g (without_first (t_name t)) (referenced_table f ≟ referenced_table g) Ht Hg) as (f2 & -> & Hf2 & Ht2).
  cbn [mbind outcome_bind]. eexists. split; [done|]. destruct (is_fk s Hs t f Ht Hf) as (_ & _ & Hf'). destruct (is_fk s Hs t g Ht Hg) as (_ & _ & Hg').
  intros a [->|[->|[]%elem_of_nil]%elem_of_cons]%elem_of_cons; (split; [|split]); cbn [fst snd]; try done.
  - exists (referenced_table f, f2). do 2 eexists. cbn [fst snd]. split_and!; [set_solver|exact Ht1|done|exact Ht2|done..].
  - exists (referenced_table g, f1). do 2 eexists. cbn [fst snd]. split_and!; [set_solver|exact Ht2|done|exact Ht1|done..].
Qed.
Lemma many_all_total ts : (forall t, t ∈ ts -> t ∈ tables s) -> exists ls, map_m (many_to_many_fields (E := string)) ts = Ok ls /\
  forall a, a ∈ mjoin ls -> paired (mjoin ls) a.
Proof.
  intros Hts. destruct (map_m_total (many_to_many_fields (E := string)) (fun _ l => forall a, a ∈ l -> paired l a) ts) as (ls & Hls & HF).
  { intros t Ht. by apply many_to_many_total, Hts. }
  exists ls. split; [done|]. intros a (l & Ha & Hl)%list_elem_of_join. destruct (Forall2_elem_r _ _ _ _ HF Hl) as (t & _ & Hp).
  destruct (Hp a Ha) as (H1 & H2 & b & ia & ib & Hb & H3). split_and!; [done..|]. exists b, ia, ib. split; [|done]. apply list_elem_of_join. by exists l.
Qed.
Lemma fields_for_elem n adds f : f ∈ fields_for n adds <-> (n, f) ∈ adds.
Proof.
  unfold fields_for. rewrite list_elem_of_fmap. setoid_rewrite iter_filter_elem. setoid_rewrite bool_decide_eq_true. split.
  - by intros ([n' f'] & -> & Ha & <-).
  - intros Ha. by exists (n, f).
Qed.
Lemma add_opposite_fields_total : exists d', add_opposite_fields (E := string) s d = Ok d' /\ opposites d' /\
  Forall2 (fun t m => exists rels, raw_model t m rels) (model_tables s) (dm_models d').
Proof.
  unfold add_opposite_fields. destruct backrelations_total as (back & -> & Hb1 & Hb2). cbn [mbind outcome_bind].
  rewrite (filter_m_pure _ (fun t => match is_join_table (E := string) t with Ok b => b | _ => false end)).
  2: { intros t Ht. by destruct (is_join_answers (E := string) t Ht) as [b ->]. }
  cbn [mbind outcome_bind]. destruct (many_all_total (iter_filter (fun t => match is_join_table (E := string) t with Ok b => b | _ => false end) (tables s))) as (ls & -> & Hmany).
  { by intros t [? _]%iter_filter_elem. }
  cbn [mbind outcome_bind]. set (adds := back ++ mjoin ls).
  assert (Hadds : forall a, a ∈ adds -> relation_made a.2 /\ exists t, t ∈ model_tables s /\ t_name t = a.1).
  { intros a [(m & f & info & Hm & Hf & Ht & -> & _ & Hmade)%Hb1|(? & ? & _)%Hmany]%elem_of_app; [|done]. split; [done|].
    destruct (raw_relation m f info Hm Hf Ht) as (m' & Hm' & <- & _). destruct (raw_of m' Hm') as (t & rels & Hin & Hr). exists t. split; [done|]. symmetry. apply Hr. }
  rewrite add_all_fields; [|apply raw_names_nodup|].
  2: { intros a (_ & t & Ht & <-)%Hadds. rewrite raw_names. by apply list_elem_of_fmap_2. }
  eexists. split; [done|]. split.
  - intros m2 f info Hm2 Hf Ht. apply list_elem_of_fmap in Hm2 as (m & -> & Hm). cbn [dm_models].
    assert (Hold : forall m' f', m' ∈ dm_models d -> f' ∈ m_fields m' -> f' ∈ m_fields (add_fields adds m')) by (intros; cbn; apply elem_of_app; by left).
    assert (Hnew : forall n g, (n, g) ∈ adds -> exists m', m' ∈ dm_models d /\ m_name m' = n /\ g ∈ m_fields (add_fields adds m')).
    { intros n g Hg. destruct (Hadds _ Hg) as (_ & t & Hin & Hn). destruct (raw_model_named t Hin) as (m' & Hm' & Hn'). exists m'.
      cbn in Hn. rewrite Hn in Hn'. split_and!; [done..|]. cbn. apply elem_of_app. right. apply fields_for_elem. by rewrite Hn'. }
    cbn in Hf. apply elem_of_app in Hf as [Hf|Hf%fields_for_elem%elem_of_app].
    + destruct (Hb2 m f info Hm Hf Ht) as [(m' & f' & Hm' & Hn & Hf' & Hp)|(g & Hg & Hgt & _)].
      * exists (add_fields adds m'), f'. split_and!; [by apply list_elem_of_fmap_2|done|by apply Hold|done].
      * destruct (Hnew (ri_to info) g) as (m' & Hm' & Hn & Hgin); [apply elem_of_app; by left|].
        exists (add_fields adds m'), g. split_and!; [by apply list_elem_of_fmap_2|done..|]. unfold points_back. rewrite Hgt. cbn. by rewrite !bool_decide_eq_true_2.
    + destruct Hf as [(m0 & f0 & info0 & Hm0 & Hf0 & Ht0 & Hn0 & Hgt & _)%Hb1|(_ & _ & b & ia & ib & Hb & Hta & Hbn & Htb & Hto & Hnm)%Hmany].
      * cbn in Hgt, Hn0. rewrite Ht in Hgt. injection Hgt as ->. exists (add_fields adds m0), f0. cbn [ri_to ri_name].
        split_and!; [by apply list_elem_of_fmap_2|done|by apply Hold|]. unfold points_back. rewrite Ht0. cbn. by rewrite !bool_decide_eq_true_2.
      * cbn in Hta, Hto. rewrite Ht in Hta. injection Hta as <-. destruct (Hnew b.1 b.2) as (m' & Hm' & Hn & Hgin); [apply elem_of_app; right; by destruct b|].
        exists (add_fields adds m'), b.2. split_and!; [by apply list_elem_of_fmap_2|by rewrite <-Hbn|done|]. unfold points_back. rewrite Htb. cbn. by rewrite !bool_decide_eq_true_2.
  - cbn. apply Forall2_fmap_r. eapply Forall2_impl; [exact Hd|]. intros t m (rels & [H1 H2 H3 H4 H5]). exists (rels ++ fields_for (m_name m) adds).
    split; [done..| | |].
    + cbn. by rewrite H3, (assoc_L app).
    + intros f [Hf|Hf%fields_for_elem%Hadds]%elem_of_app; [by apply H4|apply Hf].
    + intros fk Hfk Hsup. destruct (H5 fk Hfk Hsup) as (f & Hf & Hr). exists f. split; [apply elem_of_app; by left|done].
Qed.
End opposite.

(** ** Sanitized models *)
Definition type_described (a b : FieldType) : Prop := match a with EnumType _ => exists n, b = EnumType n | _ => b = a end.
Record field_sanitized (f f' : Field) : Prop := {
  fs_name : f_name f' = (sanitize_name (f_name f)).1;
  fs_type : match f_type f with RelationType i => f_type f' = RelationType (sanitize_info i) | t => type_described t (f_type f') end;
  fs_db : is_relation (f_type f) = false -> f_database_name f = None -> f_database_name f' = (sanitize_name (f_name f)).2;
  fs_arity : f_arity f' = f_arity f;
  fs_id : f_is_id f' = f_is_id f;
  fs_unique : f_is_unique f' = f_is_unique f;
}.
Record model_sanitized (m m' : Model) : Prop := {
  ms_name : m_name m' = (sanitize_name (m_name m)).1;
  ms_db : m_database_name m' = (sanitize_name (m_name m)).2;
  ms_fields : Forall2 field_sanitized (m_fields m) (m_fields m');
}.
Lemma sanitize_field_ok n db r f : field_sanitized f (sanitize_field n db r f).1.
Proof.
  unfold sanitize_field. destruct (sanitize_name (f_name f)) as [sn sdb] eqn:Esn.
  assert (Hdb : forall f0, f_database_name f0 = f_database_name f -> f_database_name f = None -> f_database_name (set_missing_db_name sdb f0) = sdb).
  { intros f0 H0 H1. unfold set_missing_db_name. by rewrite H0, H1. }
  assert (Hm : forall f0, f_arity (set_missing_db_name sdb f0) = f_arity f0 /\ f_is_id (set_missing_db_name sdb f0) = f_is_id f0 /\
    f_is_unique (set_missing_db_name sdb f0) = f_is_unique f0 /\ f_type (set_missing_db_name sdb f0) = f_type f0).
  { intros f0. unfold set_missing_db_name. by destruct (f_database_name f0). }
  destruct (f_type f) as [en|info| | |] eqn:Et.
  - destruct (sanitize_enum_name n db (f_name f) en) as [sen edb]. cbn [fst snd]. set (f0 := set_f_default _ _). destruct (Hm f0) as (H1 & H2 & H3 & H4).
    split; cbn [set_f_name f_name f_type f_database_name f_arity f_is_id f_is_unique]; rewrite ?Esn, ?Et; try done; [|by intros _; apply Hdb]. rewrite H4. cbn. by eexists.
  - split; cbn; rewrite ?Esn, ?Et; done.
  - destruct (Hm f) as (H1 & H2 & H3 & H4). split; cbn; rewrite ?Esn, ?Et, ?H4; try done. intros _. by apply Hdb.
  - destruct (Hm f) as (H1 & H2 & H3 & H4). split; cbn; rewrite ?Esn, ?Et, ?H4; try done. intros _. by apply Hdb.
  - destruct (Hm f) as (H1 & H2 & H3 & H4). split; cbn; rewrite ?Esn, ?Et, ?H4; try done. intros _. by apply Hdb.
Qed.
Lemma sanitize_fields_ok n db st l : Forall2 field_sanitized l (sanitize_fields n db st l).1.
Proof.
  revert st. induction l as [|f l IH]; intros st; cbn; [constructor|]. pose proof (sanitize_field_ok n db st.2 f) as Hf.
  destruct (sanitize_field n db st.2 f) as [f' r']. set (st' := (_, r')). specialize (IH st'). destruct (sanitize_fields n db st' l) as [l' s']. by constructor.
Qed.
Lemma sanitize_model_ok r m : model_sanitized m (sanitize_model r m).1.
Proof.
  unfold sanitize_model. destruct (sanitize_name (m_name m)) as [sn sdb] eqn:Esn.
  pose proof (sanitize_fields_ok (m_name m) sdb (m_id_fields m, r) (m_fields m)) as Hf. destruct (sanitize_fields _ _ _ _) as [fs [ids r']].
  split; cbn; rewrite ?Esn; done.
Qed.
Lemma sanitize_models_ok r l : Forall2 model_sanitized l (sanitize_models r l).1.
Proof.
  revert r. induction l as [|m l IH]; intros r; cbn; [constructor|]. pose proof (sanitize_model_ok r m) as Hm. destruct (sanitize_model r m) as [m' r'].
  specialize (IH r'). destruct (sanitize_models r' l) as [l' r'']. by constructor.
Qed.
Lemma sanitize_datamodel_ok d : Forall2 model_sanitized (dm_models d) (dm_models (sanitize_datamodel_names d)).
Proof. unfold sanitize_datamodel_names. pose proof (sanitize_models_ok ∅ (dm_models d)) as H. by destruct (sanitize_models ∅ (dm_models d)). Qed.

Definition nonrelations (m : Model) : list Field := iter_filter (fun f => negb (is_relation (f_type f))) (m_fields m).
(** The field type of a column family, and the arity of a field for the arity
    of a column: a column that counts up is required. *)
Definition family_described (fam : ColumnTypeFamily) (ft : FieldType) : Prop :=
  match fam with
  | Int => ft = Base ScalarInt None
  | Float => ft = Base ScalarFloat None
  | Boolean => ft = Base ScalarBoolean None
  | DateTime => ft = Base ScalarDateTime None
  | Json => ft = Base ScalarJson None
  | String_ | UuidFamily => ft = Base ScalarString None
  | EnumFamily _ => exists name, ft = EnumType name
  | _ => exists name, ft = UnsupportedType name
  end.
Definition arity_described (c : Column) (a : FieldArity) : Prop :=
  match a with
  | RequiredField => arity (c_tpe c) = Required \/ (c_auto_increment c = true /\ family (c_tpe c) = Int)
  | OptionalField => arity (c_tpe c) = Nullable
  | ListField => arity (c_tpe c) = List_
  end.
Record column_described (t : Table) (c : Column) (f : Field) : Prop := {
  cd_db : field_db_name f = c_name c;
  cd_type : family_described (family (c_tpe c)) (f_type f);
  cd_arity : arity_described c (f_arity f);
  cd_id : f_is_id f = true <-> exists pk, t_primary_key t = Some pk /\ pk_columns pk = [c_name c];
  cd_unique : f_is_unique f = true <-> f_is_id f = false /\ exists i, i ∈ t_indices t /\ i_tpe i = Unique /\ i_columns i = [c_name c];
}.
Lemma single_column l c : (length l ≟ 1) && contains c l = true <-> l = [c].
Proof.
  rewrite andb_true_iff, bool_decide_eq_true, contains_elem. split; [|intros ->; split; [done|by constructor]].
  intros [Hl Hc]. destruct l as [|x [|y l]]; [done| |done]. by apply list_elem_of_singleton in Hc as ->.
Qed.
Lemma column_is_id_spec c t : column_is_id c t = true <-> exists pk, t_primary_key t = Some pk /\ pk_columns pk = [c_name c].
Proof.
  unfold column_is_id, is_single_primary_key. destruct (t_primary_key t) as [pk|]; [|split; [done|by intros (? & ? & _)]].
  rewrite single_column. split; [by exists pk|]. by intros (? & [= <-] & ?).
Qed.
Lemma is_column_unique_spec t n : is_column_unique t n = true <-> exists i, i ∈ t_indices t /\ i_tpe i = Unique /\ i_columns i = [n].
Proof.
  unfold is_column_unique. rewrite List.existsb_exists. setoid_rewrite <-andb_assoc. setoid_rewrite andb_true_iff. setoid_rewrite single_column.
  setoid_rewrite bool_decide_eq_true. by setoid_rewrite list_elem_of_In.
Qed.
Lemma scalar_field_described c ft : type_described (calculate_scalar_field_type c) ft -> family_described (family (c_tpe c)) ft.
Proof. unfold calculate_scalar_field_type. destruct (family (c_tpe c)); cbn; try done; intros ->; by eexists. Qed.
Lemma scalar_arity_described t c : arity_described c (f_arity (calculate_scalar_field t c)).
Proof.
  cbn. destruct (c_auto_increment c && _) eqn:Ea.
  - apply andb_true_iff in Ea as [Ha Ht%bool_decide_eq_true]. right. split; [done|]. unfold calculate_scalar_field_type in Ht. by destruct (family (c_tpe c)).
  - destruct (arity (c_tpe c)) eqn:E; cbn; auto.
Qed.
Record described (t : Table) (m : Model) : Prop := {
  ds_name : m_name m = (sanitize_name (t_name t)).1;
  ds_db : model_db_name m = t_name t;
  ds_columns : Forall2 (column_described t) (t_columns t) (nonrelations m);
  ds_relation_id : forall f, f ∈ m_fields m -> is_relation (f_type f) = true -> f_is_id f = false;
}.
(** A field without a name is no relation and has a database name. *)
Definition nameable (m : Model) : Prop := forall f, f ∈ m_fields m -> f_name f = "" -> is_relation (f_type f) = false /\ is_Some (f_database_name f).
Definition has_relation_to (t : Table) (fk : ForeignKey) (m : Model) : Prop := exists f name, f ∈ m_fields m /\
  f_type f = RelationType (sanitize_info (mkRelationInfo (referenced_table fk) (fk_columns fk) (referenced_columns fk) name OnDeleteNone)).
Definition supported_fk (t : Table) (fk : ForeignKey) : Prop := fk ∈ t_foreign_keys t /\
  forall c, c ∈ t_columns t -> c_name c ∈ fk_columns fk -> forall n, calculate_scalar_field_type c <> UnsupportedType n.
Lemma sanitized_relation f f' : field_sanitized f f' -> is_relation (f_type f') = is_relation (f_type f).
Proof. intros [_ Ht _ _ _ _]. destruct (f_type f); cbn in Ht; try (by rewrite Ht). by destruct Ht as [n ->]. Qed.
Lemma filter_Forall2 {A B} (R : A -> B -> Prop) (p : A -> bool) (q : B -> bool) l k : Forall2 R l k -> (forall x y, R x y -> q y = p x) ->
  Forall2 R (iter_filter p l) (iter_filter q k).
Proof. intros HF Hpq. induction HF as [|x y l k Hxy _ IH]; [constructor|]. cbn. rewrite (Hpq x y Hxy). destruct (p x); [by constructor|done]. Qed.
Lemma sanitized_column t c f : t ∈ model_tables s -> c ∈ t_columns t -> field_sanitized (calculate_scalar_field t c) f ->
  column_described t c f /\ is_relation (f_type f) = false /\ (f_name f = "" -> is_Some (f_database_name f)).
Proof.
  intros Hin Hc Hsan. pose proof (sanitized_relation _ _ Hsan) as Hrel. destruct Hsan as [Hn Ht Hdb Ha Hid Hu]. cbn in Hn, Ht, Hdb, Ha, Hid, Hu, Hrel.
  assert (Hnr : is_relation (calculate_scalar_field_type c) = false) by (unfold calculate_scalar_field_type; by destruct (family (c_tpe c))).
  specialize (Hdb Hnr eq_refl). rewrite Hnr in Hrel. split_and!; [|done|].
  - split.
    + unfold field_db_name. by rewrite Hdb, Hn, sanitize_db_name.
    + apply scalar_field_described. cbn in Ht. by destruct (calculate_scalar_field_type c).
    + rewrite Ha. apply (scalar_arity_described t).
    + rewrite Hid. apply column_is_id_spec.
    + rewrite Hu, Hid, <-is_column_unique_spec, andb_true_iff, negb_true_iff. tauto.
  - rewrite Hn, Hdb. intros He%sanitize_empty_db; [by rewrite He|]. apply (is_column s Hs t c); [by apply model_table_elem|done].
Qed.
Lemma sanitized_described t m rels m' : t ∈ model_tables s -> raw_model t m rels -> model_sanitized m m' ->
  described t m' /\ nameable m' /\ forall fk, supported_fk t fk -> has_relation_to t fk m'.
Proof.
  intros Hin [Hn Hdb Hf Hr Hfk] [Hn' Hdb' HF]. rewrite Hf in HF. apply Forall2_app_inv_l in HF as (k1 & k2 & HF1 & HF2 & Hk).
  assert (Hrel : forall f, f ∈ k2 -> is_relation (f_type f) = true /\ f_is_id f = false /\ f_name f <> "").
  { intros f' Hf'. destruct (Forall2_elem_r _ _ _ _ HF2 Hf') as (f & Hin' & Hsan). destruct (Hr f Hin') as [(info & _ & Ht & _) Hid Hlet].
    rewrite (sanitized_relation _ _ Hsan), Ht. split; [done|]. rewrite (fs_id _ _ Hsan). split; [done|]. rewrite (fs_name _ _ Hsan).
    intros Hx%sanitize_empty. congruence. }
  assert (Hsc : Forall2 (fun c f => column_described t c f /\ is_relation (f_type f) = false /\ (f_name f = "" -> is_Some (f_database_name f))) (t_columns t) k1).
  { rewrite Forall2_fmap_l in HF1. eapply Forall2_impl_elem; [exact HF1|]. intros c f Hc Hsan. by apply sanitized_column. }
  assert (Hcase : forall f, f ∈ m_fields m' -> f ∈ k1 \/ f ∈ k2) by (intros f; rewrite Hk; apply elem_of_app).
  split_and!.
  - split.
    + by rewrite Hn', Hn.
    + unfold model_db_name. by rewrite Hdb', Hn', Hn, sanitize_db_name.
    + unfold nonrelations. rewrite Hk, List.filter_app, (iter_filter_none _ k2), app_nil_r.
      * rewrite iter_filter_all; [by eapply Forall2_impl; [exact Hsc|intros c f (? & _)]|]. intros f Hf'.
        destruct (Forall2_elem_r _ _ _ _ Hsc Hf') as (c & _ & _ & -> & _). done.
      * intros f Hf'. by destruct (Hrel f Hf') as [-> _].
    + intros f [Hf'|Hf']%Hcase; [|by intros _; apply Hrel]. destruct (Forall2_elem_r _ _ _ _ Hsc Hf') as (c & _ & _ & -> & _). done.
  - intros f [Hf'|Hf']%Hcase He; [|by destruct (Hrel f Hf') as (_ & _ & ?)]. destruct (Forall2_elem_r _ _ _ _ Hsc Hf') as (c & _ & _ & Hx & Hy). auto.
  - intros fk [Hfk1 Hfk2]. destruct (Hfk fk Hfk1 Hfk2) as (f & Hf' & name & Hty). destruct (Forall2_elem_l _ _ _ _ HF2 Hf') as (f' & Hin' & Hsan).
    exists f', name. split; [rewrite Hk; apply elem_of_app; by right|]. pose proof (fs_type _ _ Hsan) as Ht'. by rewrite Hty in Ht'.
Qed.
End schema.
End facts.
