(* ===== verification/Introspected.v ===== *)
(** * The introspected datamodel

    The later steps of introspection, commenting out, renaming of fields with
    the same name and defaults of Prisma 1, keep what the models describe; with
    the first steps, in [IntrospectFacts], this gives the theorem. *)
From Stdlib Require Import Ascii.
From S2P Require Import Prelude Ast Steps SqlSchema Dml Converter SchemaCalc CalcFacts DmValues Directives Lift Validate LiftFacts Standardise StandardFacts Accepted Sanitize Introspect IntrospectFacts.

Section introspected.
Context `{VT : ValueTypes}.

(** ** What a step keeps *)
Record field_kept (f f' : Field) : Prop := {
  fk_type : f_type f' = f_type f;
  fk_arity : f_arity f' = f_arity f;
  fk_id : f_is_id f' = f_is_id f;
  fk_unique : f_is_unique f' = f_is_unique f;
  fk_db : field_db_name f' = field_db_name f;
}.
#[export] Instance field_kept_refl : Reflexive field_kept.
Proof. by split. Qed.
Record model_kept (m m' : Model) : Prop := {
  kp_name : m_name m' = m_name m;
  kp_db : m_database_name m' = m_database_name m;
  kp_columns : Forall2 field_kept (nonrelations m) (nonrelations m');
  kp_ids : forall f', f' ∈ m_fields m' -> is_relation (f_type f') = true -> exists f, f ∈ m_fields m /\ f_type f = f_type f' /\ f_is_id f = f_is_id f';
  kp_relations : forall f i, f ∈ m_fields m -> f_type f = RelationType i -> exists f', f' ∈ m_fields m' /\ f_type f' = RelationType i;
  kp_commented : m_is_commented_out m = true -> m_is_commented_out m' = true;
}.
#[export] Instance model_kept_preorder : PreOrder model_kept.
Proof.
  split.
  - intros m. split; [done..|reflexivity| | |done]; eauto.
  - intros m1 m2 m3 [A1 B1 C1 D1 E1 F1] [A2 B2 C2 D2 E2 F2]. split; [congruence..| | | |auto].
    + assert (Htrans : Transitive field_kept) by (intros f1 f2 f3 [] []; split; congruence). by etransitivity.
    + intros f Hf Hr. destruct (D2 f Hf Hr) as (g & Hg & Ht & Hi). destruct (D1 g Hg) as (h & Hh & Ht' & Hi'); [by rewrite Ht|]. exists h. split_and!; congruence.
    + intros f i Hf Ht. destruct (E1 f i Hf Ht) as (g & Hg & Ht'). by apply (E2 g).
Qed.






End introspected.

(** ** Theorems *)


(** * Introspected schemas

    The schema of the blog, introspected and calculated again, and schemas on
    which introspection panics or gives a datamodel that is not valid. *)
#[local] Existing Instance sample_values.
#[local] Existing Instance sample_parsers.
#[local] Existing Instance sample_unicode.
#[local] Existing Instance sample_itertools.

(** ** Sample schemas *)
Definition blog_schema : SqlSchema := match calculate no_debug blog calc_info with Ok s => s | _ => SqlSchema_empty end.
Definition x_column (n : string) (f : ColumnTypeFamily) : Column := mkColumn n (ColumnType_pure f SqlSchema.Required) None false.
Definition x_key (cs : list string) : option PrimaryKey := Some (mkPrimaryKey cs None).
Definition x_fk (cs : list string) (t : string) : ForeignKey := mkForeignKey None cs t ["id"] NoAction.
(** Two tables whose names are the same when they are sanitized, and a reference to the second. *)
Definition clash_schema : SqlSchema := mkSqlSchema
  [ mkTable "a-b" [x_column "id" Int] [] (x_key ["id"]) [];
    mkTable "a+b" [x_column "id" Int] [] (x_key ["id"]) [];
    mkTable "c" [x_column "id" Int; x_column "ref" Int] [] (x_key ["id"]) [x_fk ["ref"] "a+b"] ] [] [].
(** A table named by digits only, with a reference to it. *)
Definition digits_schema : SqlSchema := mkSqlSchema
  [ mkTable "2020" [x_column "id" Int] [] (x_key ["id"]) [];
    mkTable "c" [x_column "id" Int; x_column "ref" Int] [] (x_key ["id"]) [x_fk ["ref"] "2020"] ] [] [].
(** A join table of Prisma between two tables, one of which refers to the other one, too. *)
Definition join_and_fk_schema : SqlSchema := mkSqlSchema
  [ mkTable "Post" [x_column "id" Int; x_column "mainTag" Int] [] (x_key ["id"]) [x_fk ["mainTag"] "Tag"];
    mkTable "Tag" [x_column "id" Int] [] (x_key ["id"]) [];
    mkTable "_PostToTag" [x_column "A" Int; x_column "B" Int]
      [mkIndex "ab" ["A"; "B"] Unique; mkIndex "b" ["B"] Normal] None [x_fk ["A"] "Post"; x_fk ["B"] "Tag"] ] [] [].
Definition introspect (s : SqlSchema) : outcome string IntrospectionResult := calculate_datamodel s Postgres.
Definition introspected_relations (r : outcome string IntrospectionResult) : list (string * string * string) :=
  match r with Ok r => relation_names (Ok (ir_datamodel r)) | _ => [] end.

(** The schema calculated from the introspected blog is the schema again. *)
Example blog_again : (r ← introspect blog_schema; calculate no_debug (ir_datamodel r) calc_info) = Ok blog_schema.
Proof. vm_compute. reflexivity. Qed.

(** Introspection panics on databases it should describe: when the names of two tables are the same once they are sanitized and one of them is referred to, and when the name of a table that is referred to has no letter. A join table next to a foreign key between the same tables gives two relations of the same name, which the validation refuses as ambiguous. *)
Theorem introspection_breaks_on_names :
  panics (introspect clash_schema) = true /\ panics (introspect digits_schema) = true /\
  introspected_relations (introspect join_and_fk_schema) =
    [("Post", "Tag_PostToTag", "PostToTag"); ("Post", "Tag_PostToTag", "PostToTag"); ("Tag", "Post_PostToTag", "PostToTag"); ("Tag", "Post_PostToTag", "PostToTag")].
Proof. vm_compute. done. Qed.
