(* ===== verification/NestedRead.v ===== *)
(** * Reading nested records (query-engine/core/src/interpreter/query_interpreters)

    Read queries on a connection: a query for a record or for many, then the
    queries nested in it, whose records are joined to their parents in memory.
    The connection is the trait [ReadOperations] of the query connector: a class
    here, over the state [Db] that the connection reads and writes. *)
From S2P Require Import Prelude Effects SqlSchema Dml Converter Models Projections Filters ValueOrder SqlRead QueryAst QueryGraph.

(** ** The traits of a connection (query-connector/src/interface/mod.rs) *)
Class ReadOperations `{VT : ValueTypes} (Db ConnectorError : Type) : Type := {
  op_get_single_record : QueryModel -> Filter -> ModelProjection -> eff Db ConnectorError (option SingleRecord);
  op_get_many_records : QueryModel -> QueryArguments -> ModelProjection -> eff Db ConnectorError ManyRecords;
  op_get_related_m2m_record_ids : RelationField -> list RecordProjection -> eff Db ConnectorError (list (RecordProjection * RecordProjection));
  op_count_by_model : QueryModel -> QueryArguments -> eff Db ConnectorError nat;
}.
Class WriteOperations `{VT : ValueTypes} {GT : GraphTypes} (Db ConnectorError : Type) : Type := {
  op_create_record : QueryModel -> WriteArgs -> eff Db ConnectorError RecordProjection;
  op_update_records : QueryModel -> RecordFilter -> WriteArgs -> eff Db ConnectorError (list RecordProjection);
  op_delete_records : QueryModel -> RecordFilter -> eff Db ConnectorError nat;
  op_connect : RelationField -> RecordProjection -> list RecordProjection -> eff Db ConnectorError unit;
  op_disconnect : RelationField -> RecordProjection -> list RecordProjection -> eff Db ConnectorError unit;
  op_execute_raw : string -> list PrismaValue -> eff Db ConnectorError nat;
  op_query_raw : string -> list PrismaValue -> eff Db ConnectorError JsonValue;
}.

(** ** Errors (interpreter/error.rs) *)
Section nested_read.
Context `{VT : ValueTypes} {VO : ValueOrd VT} `{IT : Itertools} {GT : GraphTypes} {PG : Petgraph}.
Context {Db ConnectorError : Type}.
Inductive InterpreterError : Type :=
| EnvVarNotFound (name : string)
| InterpDomainError (e : DomainError)
| InterpretationError (msg : string) (cause : option InterpreterError)
| InterpGraphError (e : QueryGraphError)
| InterpGraphBuilderError (e : QueryGraphBuilderError)
| InterpConnectorError (e : ConnectorError)
| InterpGeneric (msg : string).
Definition InterpM : Type -> Type := eff Db InterpreterError.
(** [?] on the results of a connection and of the models. *)
Definition of_connector {A} (m : eff Db ConnectorError A) : InterpM A := eff_map_err InterpConnectorError m.
Definition of_domain {A} (m : DomainResult A) : outcome InterpreterError A := map_err InterpDomainError m.

(** ** Equality of record projections, derived from their pairs *)
Definition RecordProjection_eqb (a b : RecordProjection) : bool :=
  list_eqb (fun p q => ScalarField_eqb p.1 q.1 && value_eqb p.2 q.2) a b.
Definition values_eqb (a b : list PrismaValue) : bool := list_eqb value_eqb a b.
(** A [HashMap] that is looked up, changed and extended, never iterated. *)
Fixpoint assoc_find {K V} (eqb : K -> K -> bool) (k : K) (l : list (K * V)) : option V :=
  match l with [] => None | (k', v) :: l => if eqb k' k then Some v else assoc_find eqb k l end.
Fixpoint assoc_update {K V} (eqb : K -> K -> bool) (k : K) (f : V -> V) (l : list (K * V)) : list (K * V) :=
  match l with [] => [] | (k', v) :: l => if eqb k' k then (k', f v) :: l else (k', v) :: assoc_update eqb k f l end.
Fixpoint assoc_remove {K V} (eqb : K -> K -> bool) (k : K) (l : list (K * V)) : list (K * V) :=
  match l with [] => [] | (k', v) :: l => if eqb k' k then l else (k', v) :: assoc_remove eqb k l end.
(** [match map.get_mut(k) { Some(v) => v.push(x), None => map.insert(k, vec![x]) }]. *)
Definition assoc_push {K V} (eqb : K -> K -> bool) (k : K) (x : V) (l : list (K * list V)) : list (K * list V) :=
  match assoc_find eqb k l with
  | Some _ => assoc_update eqb k (fun v => v ++ [x]) l
  | None => l ++ [(k, [x])]
  end.

(** ** [NestedPagination] (nested_pagination.rs) *)
Record NestedPagination : Type := mkNestedPagination { np_skip : option Z; np_take : option Z; needs_reversing : bool }.
Definition new_from_query_args (a : QueryArguments) : NestedPagination :=
  mkNestedPagination (qa_skip a) (take_abs a) (needs_reversed_order a).
Definition must_apply_pagination (np : NestedPagination) : bool :=
  is_some (match np_take np with Some t => Some t | None => np_skip np end).
Definition parent_key {E} (r : DbRecord) : outcome E (list PrismaValue) :=
  p ← unwrap "Parent id must be set on all records in order to paginate" (parent_id r); Ok (rp_values p).
(** [sort_by_key]: the keys are computed when there is something to compare. *)
Definition sort_by_parent {E} (rs : list DbRecord) : outcome E (list DbRecord) :=
  match rs with
  | [] | [_] => Ok rs
  | _ => keyed ← map_m (fun r => k ← parent_key r; Ok (k, r)) rs;
         Ok (snd <$> sort_by (fun a b : list PrismaValue * DbRecord => cmp_le (lex value_cmp a.1 b.1)) keyed)
  end.
Definition in_window (np : NestedPagination) (current_count : Z) : bool :=
  let is_beyond_skip_range := match np_skip np with None => true | Some skip => (skip <? current_count)%Z end in
  let is_within_take_range := match np_take np with None => true | Some take => (current_count <=? wrap64 (take + default 0 (np_skip np)))%Z end in
  is_beyond_skip_range && is_within_take_range.
Fixpoint retain_window (np : NestedPagination) (current_count : Z) (last_parent_id : option RecordProjection) (rs : list DbRecord) : list DbRecord :=
  match rs with
  | [] => []
  | r :: rs =>
      let current_count := if option_eqb RecordProjection_eqb last_parent_id (parent_id r) then (current_count + 1)%Z else 1%Z in
      let last_parent_id := if option_eqb RecordProjection_eqb last_parent_id (parent_id r) then last_parent_id else parent_id r in
      let rest := retain_window np current_count last_parent_id rs in
      if in_window np current_count then r :: rest else rest
  end.
Definition reverse_if {A} (b : bool) (l : list A) : list A := if b then reverse l else l.
Definition apply_pagination {E} (np : NestedPagination) (m : ManyRecords) : outcome E ManyRecords :=
  if negb (must_apply_pagination np) then Ok m else
  sorted ← sort_by_parent (records m);
  let rs := reverse_if (needs_reversing np) sorted in
  let rs := retain_window np 0 None rs in
  Ok (mkManyRecords (reverse_if (needs_reversing np) rs) (mr_field_names m)).

(** ** Joining children to parents (nested_read.rs) *)
Context {RO : ReadOperations Db ConnectorError} (idm : InternalDataModel).
Definition and_filter (f : Filter) (a : QueryArguments) : QueryArguments :=
  set_filter (match qa_filter a with Some existing_filter => FAnd [existing_filter; f] | None => f end) a.
Definition no_parent_results : string :=
  "[ID retrieval] No parent results present in the query graph for reading related records.".
(** Many to many: every record is given one of its parents, a copy of it each of the others. *)
Definition attach_m2m (child_model_id : ModelProjection) (fields : list string)
    (s : list (RecordProjection * list RecordProjection) * (list DbRecord * list DbRecord)) (record : DbRecord) :
    outcome InterpreterError (list (RecordProjection * list RecordProjection) * (list DbRecord * list DbRecord)) :=
  let '(id_map, (done, additional_records)) := s in
  record_id ← of_domain (record_projection idm record fields child_model_id);
  parent_ids ← unwrap "1" (assoc_find RecordProjection_eqb record_id id_map);
  let id_map := assoc_remove RecordProjection_eqb record_id id_map in
  first ← unwrap "2" (last parent_ids);
  let parent_ids := take (length parent_ids - 1) parent_ids in
  let record := set_parent_id first record in
  Ok (id_map, (done ++ [record], additional_records ++ ((fun p => set_parent_id p record) <$> parent_ids))).
Definition m2m (query : RelatedRecordsQuery ReadQuery) (parent_result : option ManyRecords) (paginator : NestedPagination) : InterpM ManyRecords :=
  let parent_field := rrq_parent_field query in
  related ← lift (related_field idm parent_field);
  child_link_id ← lift (linking_fields idm related);
  parent_ids ← match rrq_parent_projections query with
               | Some links => mret links
               | None => lift (
                   model ← upgrade_model idm (rf_model parent_field);
                   parent_model_id ← primary_identifier idm model;
                   result ← unwrap no_parent_results parent_result;
                   of_domain (projections idm result parent_model_id))
               end;
  ids ← of_connector (op_get_related_m2m_record_ids parent_field parent_ids);
  child_model ← lift (related_model idm parent_field);
  child_model_id ← lift (primary_identifier idm child_model);
  child_ids ← lift (map_m (fun ri : RecordProjection * RecordProjection => proj ← of_domain (assimilate idm child_model_id ri.2); Ok (rp_values proj)) ids);
  filter ← lift (mp_is_in idm child_link_id (PV_List <$> child_ids));
  let args := and_filter filter (rrq_args query) in
  scalars ← of_connector (op_get_many_records child_model args (rrq_selected_fields query));
  let id_map := foldl (fun m p => assoc_push RecordProjection_eqb p.2 p.1 m) [] ids in
  attached ← lift (for_each (attach_m2m child_model_id (mr_field_names scalars)) (records scalars) (id_map, ([], [])));
  let '(_, (done, additional_records)) := attached in
  lift (apply_pagination paginator (mkManyRecords (done ++ additional_records) (mr_field_names scalars))).

(** One to many and one to one: link values to the ids of the parents that have them. *)
Definition LinkMapping : Type := list (list PrismaValue * list RecordProjection).
Definition map_link (idents : list ModelProjection) (s : LinkMapping * list (list PrismaValue)) (projection : RecordProjection) :
    outcome InterpreterError (LinkMapping * list (list PrismaValue)) :=
  let '(link_mapping, uniq_projections) := s in
  split ← split_into idm projection idents;
  link_id ← unwrap unwrap_none (last split);
  id ← unwrap unwrap_none (last (take (length split - 1) split));
  let link_values := rp_values link_id in
  match assoc_find values_eqb link_values link_mapping with
  | Some _ => Ok (assoc_push values_eqb link_values id link_mapping, uniq_projections)
  | None => Ok (assoc_push values_eqb link_values id link_mapping, uniq_projections ++ [link_values])
  end.
(** The key is on the parents: a child belongs to every parent with its link values. *)
Definition attach_inlined_on_parent (child_link_id : ModelProjection) (fields : list string)
    (s : LinkMapping * (list DbRecord * list DbRecord)) (record : DbRecord) :
    outcome InterpreterError (LinkMapping * (list DbRecord * list DbRecord)) :=
  let '(link_mapping, (done, additional_records)) := s in
  child_link ← of_domain (record_projection idm record fields child_link_id);
  let child_link_values := rp_values child_link in
  match assoc_find values_eqb child_link_values link_mapping with
  | Some parent_ids =>
      let parent_ids := reverse parent_ids in
      parent_id ← unwrap unwrap_none (last parent_ids);
      let parent_ids := take (length parent_ids - 1) parent_ids in
      let record := set_parent_id parent_id record in
      Ok (assoc_update values_eqb child_link_values (fun _ => parent_ids) link_mapping,
          (done ++ [record], additional_records ++ ((fun p => set_parent_id p record) <$> parent_ids)))
  | None => Ok (link_mapping, (done ++ [record], additional_records))
  end.
(** The key is on the children: a child has one parent. *)
Definition attach_inlined_on_child (child_link_fields : ModelProjection) (fields : list string) (link_mapping : LinkMapping) (record : DbRecord) :
    outcome InterpreterError DbRecord :=
  child_link ← of_domain (record_projection idm record fields child_link_fields);
  match assoc_find values_eqb (rp_values child_link) link_mapping with
  | Some parent_ids => parent_id ← unwrap unwrap_none (last parent_ids); Ok (set_parent_id parent_id record)
  | None => Ok record
  end.
(** The panic prints the parent result and the relation. *)
Definition not_inlined : string := "parent result, relation".
Definition attach_one2m (parent_field : RelationField) (child_link_id : ModelProjection) (link_mapping : LinkMapping) (scalars : ManyRecords) :
    outcome InterpreterError (list DbRecord) :=
  on_parent ← relation_is_inlined_in_parent idm parent_field;
  if on_parent : bool then
    attached ← for_each (attach_inlined_on_parent child_link_id (mr_field_names scalars)) (records scalars) (link_mapping, ([], []));
    let '(_, (done, additional_records)) := attached in Ok (done ++ additional_records)
  else
    related ← related_field idm parent_field;
    on_child ← relation_is_inlined_in_parent idm related;
    if on_child : bool then
      child_link_fields ← linking_fields idm related;
      map_m (attach_inlined_on_child child_link_fields (mr_field_names scalars) link_mapping) (records scalars)
    else Panic not_inlined.
Definition one2m (parent_field : RelationField) (parent_projections : option (list RecordProjection)) (parent_result : option ManyRecords)
    (query_args : QueryArguments) (selected_fields : ModelProjection) (paginator : NestedPagination) : InterpM ManyRecords :=
  model ← lift (upgrade_model idm (rf_model parent_field));
  parent_model_id ← lift (primary_identifier idm model);
  parent_link_id ← lift (linking_fields idm parent_field);
  related ← lift (related_field idm parent_field);
  child_link_id ← lift (linking_fields idm related);
  joined_projections ← match parent_projections with
                       | Some projections => mret projections
                       | None => lift (
                           let extractor := Projections.merge parent_model_id parent_link_id in
                           result ← unwrap no_parent_results parent_result;
                           of_domain (projections idm result extractor))
                       end;
  mapped ← lift (for_each (map_link [parent_model_id; parent_link_id]) joined_projections ([], []));
  let '(link_mapping, uniq_projections) := mapped in
  let uniq_projections := iter_filter (fun p => negb (iter_any (value_eqb PV_Null) p)) uniq_projections in
  filter ← lift (mp_is_in idm child_link_id (PV_List <$> uniq_projections));
  let args := and_filter filter query_args in
  child_model ← lift (related_model idm parent_field);
  scalars ← of_connector (op_get_many_records child_model args selected_fields);
  attached ← lift (attach_one2m parent_field child_link_id link_mapping scalars);
  lift (apply_pagination paginator (mkManyRecords attached (mr_field_names scalars))).

(** ** Read queries (read.rs) *)
Definition without_page (a : QueryArguments) : QueryArguments := mkQueryArguments (qa_cursor a) None None (qa_filter a) (qa_order_by a).
Definition aggregate (q : AggregateRecordsQuery) : InterpM QueryResult :=
  results ← eff_fold (fun results query => match query with
                        | AggregationCount name args =>
                            result ← of_connector (op_count_by_model (arq_model q) args);
                            mret (results ++ [AggregationCountResult name result])
                        end) (arq_queries q) [];
  mret (ResultRecordAggregation (mkRecordAggregation (arq_selection_order q) results)).
Definition read_related_scalars (q : RelatedRecordsQuery ReadQuery) (parent_result : option ManyRecords) : InterpM ManyRecords :=
  relation ← lift (rf_relation idm (rrq_parent_field q));
  is_m2m ← lift (is_many_to_many idm relation);
  let paginator := new_from_query_args (rrq_args q) in
  let args := without_page (rrq_args q) in
  let q := mkRelatedRecordsQuery (rrq_name q) (rrq_alias q) (rrq_parent_field q) args (rrq_selected_fields q) (rrq_nested q)
             (rrq_selection_order q) (rrq_parent_projections q) in
  if is_m2m : bool then m2m q parent_result paginator
  else one2m (rrq_parent_field q) (rrq_parent_projections q) parent_result args (rrq_selected_fields q) paginator.
(** [process_nested] is the inner loop: the nested queries run in order. *)
Fixpoint read_execute (query : ReadQuery) (parent_result : option ManyRecords) : InterpM QueryResult :=
  let process_nested :=
    fix process_nested (nested : list ReadQuery) (parent_result : option ManyRecords) : InterpM (list QueryResult) :=
      match nested with
      | [] => mret []
      | q :: nested => r ← read_execute q parent_result; rs ← process_nested nested parent_result; mret (r :: rs)
      end in
  match query with
  | RQRecord q =>
      model_id ← lift (primary_identifier idm (rq_model q));
      filter ← lift (unwrap "Expected filter to be set for ReadOne query." (rq_filter q));
      scalars ← of_connector (op_get_single_record (rq_model q) filter (rq_selected_fields q));
      match scalars with
      | Some record =>
          let records := SingleRecord_into_many record in
          nested ← process_nested (rq_nested q) (Some records);
          mret (ResultRecordSelection (mkRecordSelection (rq_name q) (rq_selection_order q) records nested QueryArguments_default model_id))
      | None =>
          mret (ResultRecordSelection (mkRecordSelection (rq_name q) (rq_selection_order q) (mkManyRecords [] []) [] QueryArguments_default model_id))
      end
  | RQManyRecords q =>
      scalars ← of_connector (op_get_many_records (mrq_model q) (mrq_args q) (mrq_selected_fields q));
      model_id ← lift (primary_identifier idm (mrq_model q));
      nested ← process_nested (mrq_nested q) (Some scalars);
      mret (ResultRecordSelection (mkRecordSelection (mrq_name q) (mrq_selection_order q) scalars nested (mrq_args q) model_id))
  | RQRelatedRecords q =>
      scalars ← read_related_scalars q parent_result;
      model ← lift (related_model idm (rrq_parent_field q));
      model_id ← lift (primary_identifier idm model);
      nested ← process_nested (rrq_nested q) (Some scalars);
      mret (ResultRecordSelection (mkRecordSelection (rrq_name q) (rrq_selection_order q) scalars nested (without_page (rrq_args q)) model_id))
  | RQAggregateRecords q => aggregate q
  end.
End nested_read.
Arguments InterpreterError {GT} ConnectorError.
