(* ===== verification/Interpreter.v ===== *)
(** * The interpreter of expressions (query-engine/core/src/interpreter)

    A query graph is translated to an expression ([Expressionista]); the
    interpreter runs it on a connection. The results of parents are bound to the
    ids of their nodes; a closure reads them when the expression of a child is
    reached. *)
From S2P Require Import Prelude Effects SqlSchema Dml Converter Models Projections Filters SqlRead QueryAst QueryGraph NestedRead.

Section interpreter.
Context `{VT : ValueTypes} {VO : ValueOrd VT} `{IT : Itertools} {GT : GraphTypes} {PG : Petgraph}.
Context {Db ConnectorError : Type}.
Abbreviation IError := (InterpreterError ConnectorError).

(** ** Environments (interpreter.rs) *)
Definition Env : Type := gmap string ExpressionResult.
Definition env_get (env : Env) (key : string) : option ExpressionResult := env !! key.
Definition env_insert (key : string) (value : ExpressionResult) (env : Env) : Env := <[key := value]> env.
Definition env_remove (env : Env) (key : string) : outcome IError ExpressionResult := ok_or (EnvVarNotFound key) (env !! key).

(** ** Expressions (expression.rs) *)
Record Binding (X : Type) : Type := mkBinding { b_name : string; b_expr : X }.
Inductive Expression : Type :=
| Sequence (seq : list Expression)
| Func (func : Env -> outcome IError Expression)
| EQuery (query : Query)
| Let (bindings : list (Binding Expression)) (expressions : list Expression)
| Get (binding_name : string)
| GetFirstNonEmpty (binding_names : list string)
| EIf (func : unit -> bool) (then_ else_ : list Expression)
| Return (result : ExpressionResult).
Arguments mkBinding {X}.
Arguments b_name {X}.
Arguments b_expr {X}.
Definition raw (query : string) (parameters : list PrismaValue) (raw_type : RawQueryType) : Expression :=
  EQuery (QWrite (WQRaw query parameters raw_type)).

(** ** Results as projections and differences *)
Context (idm : InternalDataModel).
Definition not_projections : IError := InterpretationError "Unable to convert result into a set of projections" None.
Definition as_projections (r : ExpressionResult) (p : ModelProjection) : outcome IError (list RecordProjection) :=
  converted ← match r with
              | ExprQuery (ResultId (Some id)) => m ← mp_matches idm p id; Ok (if m : bool then Some [id] else None)
              | ExprQuery (ResultId None) => Ok (Some [])
              | ExprQuery (ResultRecordSelection rs) =>
                  match projections idm (rs_scalars rs) p with
                  | Ok ps => Ok (Some ps)
                  | Err _ => Panic "Expected record selection to contain required model ID fields."
                  | Panic msg => Panic msg
                  end
              | _ => Ok None
              end;
  ok_or not_projections converted.
Definition as_query_result (r : ExpressionResult) : outcome IError QueryResult :=
  match r with
  | ExprQuery q => Ok q
  | _ => Err (InterpretationError "Unable to convert result into a query result" None)
  end.
Definition as_diff_result (r : ExpressionResult) : outcome IError DiffResult :=
  match r with
  | ExprDiff d => Ok d
  | _ => Err (InterpretationError "Unable to convert result into a computation result" None)
  end.

(** ** Write queries (query_interpreters/write.rs) *)
Context {RO : ReadOperations Db ConnectorError} {WO : WriteOperations Db ConnectorError}.
(** [serde_json::Value::Number] of a count. *)
Context (json_number : nat -> JsonValue).
Abbreviation IM := (eff Db IError).
Definition create_one (model : QueryModel) (args : WriteArgs) : IM QueryResult :=
  res ← of_connector (op_create_record model args); mret (ResultId (Some res)).
Definition update_one (model : QueryModel) (record_filter : RecordFilter) (args : WriteArgs) : IM QueryResult :=
  res ← of_connector (op_update_records model record_filter args); mret (ResultId (last res)).
Definition delete_one (model : QueryModel) (record_filter : option RecordFilter) : IM QueryResult :=
  filter ← lift (ok_or (InterpretationError "No record filter specified for delete record operation. Aborting." None) record_filter);
  res ← of_connector (op_delete_records model filter); mret (ResultCount res).
Definition update_many (model : QueryModel) (record_filter : RecordFilter) (args : WriteArgs) : IM QueryResult :=
  res ← of_connector (op_update_records model record_filter args); mret (ResultCount (length res)).
Definition delete_many (model : QueryModel) (record_filter : RecordFilter) : IM QueryResult :=
  res ← of_connector (op_delete_records model record_filter); mret (ResultCount res).
Definition connect (parent_id : option RecordProjection) (child_ids : list RecordProjection) (relation_field : RelationField) : IM QueryResult :=
  parent_id ← lift (unwrap "Expected parent record ID to be set for connect" parent_id);
  _ ← of_connector (op_connect relation_field parent_id child_ids); mret ResultUnit.
Definition disconnect (parent_id : option RecordProjection) (child_ids : list RecordProjection) (relation_field : RelationField) : IM QueryResult :=
  parent_id ← lift (unwrap "Expected parent record ID to be set for disconnect" parent_id);
  _ ← of_connector (op_disconnect relation_field parent_id child_ids); mret ResultUnit.
Definition execute_raw (query : string) (parameters : list PrismaValue) : IM QueryResult :=
  res ← of_connector (op_execute_raw query parameters); mret (ResultJson (json_number res)).
Definition query_raw (query : string) (parameters : list PrismaValue) : IM QueryResult :=
  res ← of_connector (op_query_raw query parameters); mret (ResultJson res).
Definition write_execute (q : WriteQuery) : IM QueryResult :=
  match q with
  | WQCreateRecord m a => create_one m a
  | WQUpdateRecord m f a => update_one m f a
  | WQDeleteRecord m f => delete_one m f
  | WQUpdateManyRecords m f a => update_many m f a
  | WQDeleteManyRecords m f => delete_many m f
  | WQConnectRecords p c rf => connect p c rf
  | WQDisconnectRecords p c rf => disconnect p c rf
  | WQRaw q ps RawExecute => execute_raw q ps
  | WQRaw q ps RawQuery => query_raw q ps
  end.
Definition run_query (q : Query) : IM ExpressionResult :=
  match q with
  | QRead read => r ← read_execute idm read None; mret (ExprQuery r)
  | QWrite write => r ← write_execute write; mret (ExprQuery r)
  end.

(** ** [interpret]

    The closures of an expression give smaller expressions, so interpretation
    always ends. A sequence returns its last result, a [Let] binds all results
    in the environment it was entered with. *)
Definition get_first_non_empty (env : Env) (binding_names : list string) : outcome IError ExpressionResult :=
  unwrap unwrap_none (head (omap (fun n => env !! n) binding_names)).
Fixpoint interpret (exp : Expression) (env : Env) {struct exp} : IM ExpressionResult :=
  let interpret_all :=
    fix interpret_all (seq : list Expression) (env : Env) : IM (list ExpressionResult) :=
      match seq with
      | [] => mret []
      | e :: seq => r ← interpret e env; rs ← interpret_all seq env; mret (r :: rs)
      end in
  let interpret_seq (seq : list Expression) (env : Env) : IM ExpressionResult :=
    match seq with
    | [] => mret ExprEmpty
    | _ => results ← interpret_all seq env; lift (unwrap unwrap_none (last results))
    end in
  match exp with
  | Func func => match func env with Ok e => interpret e env | Err e => throw e | Panic msg => panic msg end
  | Sequence seq => interpret_seq seq env
  | Let bindings expressions =>
      inner_env ← (fix bind_all (bindings : list (Binding Expression)) (inner_env : Env) : IM Env :=
                     match bindings with
                     | [] => mret inner_env
                     | b :: bindings => result ← interpret (b_expr b) env; bind_all bindings (env_insert (b_name b) result inner_env)
                     end) bindings env;
      match expressions with
      | [e] => interpret e inner_env
      | _ => interpret_seq expressions inner_env
      end
  | EQuery query => run_query query
  | Get binding_name => lift (env_remove env binding_name)
  | GetFirstNonEmpty binding_names => lift (get_first_non_empty env binding_names)
  | EIf func then_ else_ => if func tt then interpret_seq then_ env else interpret_seq else_ env
  | Return result => mret result
  end.
End interpreter.
Arguments mkBinding {X}.
Arguments b_name {X}.
Arguments b_expr {X}.

(** * From query graphs to expressions (query-engine/core/src/interpreter/expressionista.rs)

    The content of nodes and edges is taken out of the graph while it is
    translated. Every node is translated below one of its parents: the last
    of them that is reached. *)
Section expressionista.
Context `{VT : ValueTypes} {VO : ValueOrd VT} `{IT : Itertools} {GT : GraphTypes} {PG : Petgraph}.
Context {ConnectorError : Type} (idm : InternalDataModel).
(** The text of a node in errors; the order in which a [HashSet] is iterated;
    the depth of the stack. *)
Context (node_fmt : Node -> string) (hash_order : list RecordProjection -> list RecordProjection) (stack : nat).
Abbreviation IError := (InterpreterError ConnectorError).
Abbreviation Expr := (Expression (ConnectorError := ConnectorError)).
Abbreviation BM := (eff QueryGraph IError).
Definition of_graph {A} (m : GraphM A) : BM A := eff_map_err InterpGraphError m.
Definition read_g {A} (f : QueryGraph -> outcome IError A) : BM A := fun q => (f q, q).
Definition update_g (f : QueryGraph -> QueryGraph) : BM unit := fun q => (Ok tt, f q).

(** ** Conversions of nodes (query_graph/transformers.rs) *)
Definition node_into_query (n : Node) : outcome QueryGraphError Query :=
  match n with NodeQuery q => Ok q | x => Err (InvalidNodeTransformation (node_fmt x) "Query") end.
Definition node_into_flow (n : Node) : outcome QueryGraphError Flow :=
  match n with NodeFlow f => Ok f | x => Err (InvalidNodeTransformation (node_fmt x) "Flow") end.

(** ** Transformers: what a child takes over from its parents *)
Definition unreachable : string := "internal error: entered unreachable code".
Definition is_transformer (d : QueryGraphDependency) : bool :=
  match d with ParentResult _ | ParentProjection _ _ => true | _ => false end.
Definition collect_parent_transformers (parent_edges : list EdgeRef) : BM (list (string * QueryGraphDependency)) :=
  eff_fold (fun acc edge =>
    x ← of_graph (pluck_edge edge);
    if is_transformer x then source ← read_g (fun q => edge_source q edge); mret (acc ++ [(node_id source, x)]) else mret acc) parent_edges [].
(** The error of a [ParentResult] leaves the closure as it is, the others are
    wrapped with the name of the binding. *)
Definition apply_dependency (env : Env) (node : Node) (dep : string * QueryGraphDependency) : outcome IError Node :=
  let '(parent_binding_name, dependency) := dep in
  binding ← ok_or (EnvVarNotFound ("Expected parent binding '" +:+ parent_binding_name +:+ "' to be present.")) (env_get env parent_binding_name);
  match dependency with
  | ParentProjection projection f =>
      map_err (fun err => InterpretationError ("Error for binding '" +:+ parent_binding_name +:+ "'") (Some err))
        (parent_projections ← as_projections idm binding projection; map_err InterpGraphBuilderError (f node parent_projections))
  | ParentResult f => map_err InterpGraphBuilderError (f node binding)
  | _ => Panic unreachable
  end.
Definition transform_node (parent_edges : list EdgeRef) (node : Node) (into_expr : Node -> outcome IError Expr) : BM Expr :=
  match parent_edges with
  | [] => lift (into_expr node)
  | _ =>
      parent_id_deps ← collect_parent_transformers parent_edges;
      match parent_id_deps with
      | [] => lift (into_expr node)
      | _ => mret (Func (fun env => node ← for_each (apply_dependency env) parent_id_deps node; into_expr node))
      end
  end.

(** ** Result scopes *)
Definition push_expression (e : Expr) (acc : Expr) : Expr :=
  match acc with Let bindings expressions => Let bindings (expressions ++ [e]) | _ => acc end.
Definition let_scopes (bindings : list (Binding Expr)) : list Expr :=
  imap (fun i b => Let [b] (if Nat.eqb (Datatypes.S i) (length bindings) then [Get (b_name b)] else [])) bindings.
Definition fold_scopes (exprs : list Expr) : outcome IError Expr :=
  first ← unwrap unwrap_none (head exprs);
  Ok (foldl (fun acc next => push_expression next acc) first (tail exprs)).

(** ** The kinds of nodes; [build] translates a child *)
Section nodes.
Context (build : NodeRef -> list EdgeRef -> BM Expr).
Definition build_child (node : NodeRef) : BM Expr :=
  edges ← reads (fun q => incoming_edges q node); build node edges.
Definition fold_result_scopes (result_subgraphs : list (EdgeRef * NodeRef)) : BM Expr :=
  bindings ← eff_map (fun p : EdgeRef * NodeRef => expr ← build_child p.2; mret (mkBinding (node_id p.2) expr)) result_subgraphs;
  results ← reads result_nodes;
  if length results ≟ 1 then lift (fold_scopes (let_scopes bindings))
  else mret (Let bindings [GetFirstNonEmpty (b_name <$> bindings)]).
Definition contains_result (children : list (EdgeRef * NodeRef)) : BM (list (bool * (EdgeRef * NodeRef))) :=
  read_g (fun q => map_m (fun p : EdgeRef * NodeRef => b ← subgraph_contains_result stack q p.2; Ok (b : bool, p)) children).
Definition bind_node (id : string) (expr : Expr) (expressions : list Expr) : Expr :=
  match expressions with [] => expr | _ => Let [mkBinding id expr] expressions end.
Definition build_query_expression (node : NodeRef) (parent_edges : list EdgeRef) : BM Expr :=
  direct_children ← read_g (fun q => direct_child_pairs stack q node);
  flagged ← contains_result direct_children;
  let result_subgraphs := snd <$> reverse (iter_filter fst flagged) in
  let direct_children := snd <$> iter_filter (fun p => negb p.1) flagged in
  expressions ← eff_map (fun p : EdgeRef * NodeRef => build_child p.2) direct_children;
  expressions ← match result_subgraphs with
                | [] => mret expressions
                | _ => result_exp ← fold_result_scopes result_subgraphs; mret (expressions ++ [result_exp])
                end;
  _ ← update_g (mark_visited node);
  is_result ← reads (fun q => is_result_node q node);
  content ← of_graph (pluck_node node);
  expr ← transform_node parent_edges content (fun n => q ← map_err InterpGraphError (node_into_query n); Ok (EQuery q));
  mret (bind_node (node_id node) expr
          (match expressions with [] => [] | _ => if is_result : bool then expressions ++ [Get (node_id node)] else expressions end)).
Definition build_children (node : NodeRef) : BM (list Expr) :=
  child_pairs ← read_g (fun q => direct_child_pairs stack q node);
  eff_map (fun p : EdgeRef * NodeRef => build_child p.2) child_pairs.
Definition build_empty_expression (node : NodeRef) (parent_edges : list EdgeRef) : BM Expr :=
  _ ← update_g (mark_visited node);
  exprs ← build_children node;
  transform_node parent_edges NodeEmpty (fun _ => Ok (Sequence exprs)).
(** [HashSet::difference]. *)
Definition difference (left right : list RecordProjection) : list RecordProjection :=
  iter_filter (fun x => negb (iter_any (RecordProjection_eqb x) right)) (hash_order left).
Definition diff_expression (node : Node) : outcome IError Expr :=
  match node with
  | NodeComputation d => Ok (Return (ExprDiff (mkDiffResult (difference (dn_left d) (dn_right d)) (difference (dn_right d) (dn_left d)))))
  | _ => Panic unreachable
  end.
Definition build_computation_expression (node : NodeRef) (parent_edges : list EdgeRef) : BM Expr :=
  _ ← update_g (mark_visited node);
  exprs ← build_children node;
  content ← of_graph (pluck_node node);
  expr ← transform_node parent_edges content (fun n => Ok (Func (fun _ => diff_expression n)));
  mret (bind_node (node_id node) expr exprs).
Definition is_then_edge (q : QueryGraph) (p : EdgeRef * NodeRef) : outcome IError bool :=
  content ← edge_content q p.1;
  content ← unwrap unwrap_none content;
  match content with Then => Ok true | Else => Ok false | _ => Panic unreachable end.
Definition build_flow_expression (node : NodeRef) (parent_edges : list EdgeRef) : BM Expr :=
  content ← read_g (fun q => c ← node_content q node; unwrap unwrap_none c);
  match content with
  | NodeFlow (FlowIf _) =>
      _ ← update_g (mark_visited node);
      pairs ← read_g (fun q => child_pairs q node);
      flagged ← read_g (fun q => map_m (fun p => b ← is_then_edge q p; Ok (b : bool, p)) pairs);
      then_pair ← lift (unwrap unwrap_none (last (iter_filter fst flagged)));
      let else_pair := last (iter_filter (fun p => negb p.1) flagged) in
      then_expr ← build_child then_pair.2.2;
      else_expr ← eff_map (fun p : bool * (EdgeRef * NodeRef) => build_child p.2.2) (match else_pair with Some p => [p] | None => [] end);
      content ← of_graph (pluck_node node);
      transform_node parent_edges content
        (fun n => flow ← map_err InterpGraphError (node_into_flow n); let '(FlowIf cond) := flow in Ok (EIf cond [then_expr] else_expr))
  | _ => panic unreachable
  end.
End nodes.
Fixpoint build_expression (fuel : nat) (node : NodeRef) (parent_edges : list EdgeRef) : BM Expr :=
  match fuel with
  | O => panic stack_overflow
  | Datatypes.S fuel =>
      content ← read_g (fun q => c ← node_content q node; unwrap ("Node content " +:+ node_id node +:+ " was empty") c);
      match content with
      | NodeQuery _ => build_query_expression (build_expression fuel) node parent_edges
      | NodeFlow _ => build_flow_expression (build_expression fuel) node parent_edges
      | NodeComputation _ => build_computation_expression (build_expression fuel) node parent_edges
      | NodeEmpty => build_empty_expression (build_expression fuel) node parent_edges
      end
  end.
Definition translate : BM Expr :=
  roots ← reads root_nodes;
  res ← eff_map (fun root_node => build_expression stack root_node []) roots;
  mret (Sequence res).
End expressionista.
