(* ===== verification/NestedFacts.v ===== *)
(** * What nested reads guarantee: pages and parents *)
From S2P Require Import Prelude Effects SqlSchema Dml Converter Models Projections Filters ValueOrder SqlRead ReadFacts QueryAst QueryGraph NestedRead.
From stdpp Require Import sorting.

(** ** Sorting by a key keeps the order of equal keys *)
Section stable.
Context {A K : Type} (key : A -> K) (kc : K -> K -> comparison) (Hkc : cmp_ok kc).
Abbreviation key_le := (fun a b => cmp_le (kc (key a) (key b))).
Definition keyed (k : K) (x : A) : bool := match kc (key x) k with Eq => true | _ => false end.
Lemma keyed_spec k x : keyed k x = true <-> kc (key x) k = Eq.
Proof. unfold keyed. by destruct (kc (key x) k). Qed.
Lemma cmp_le_trans a b c : cmp_le (kc a b) = true -> cmp_le (kc b c) = true -> cmp_le (kc a c) = true.
Proof.
  destruct Hkc as (_ & Ha & Ht & He). destruct (kc a b) eqn:E1; [|destruct (kc b c) eqn:E2|done]; cbn; intros H1 H2; try done.
  - by rewrite <-(He a b c E1).
  - rewrite (Ha a c). rewrite (Ha a b) in E1. assert (kc c b = Eq) as E3 by (rewrite (Ha c b), E2; done).
    rewrite <-(He c b a E3). by destruct (kc b a).
  - by rewrite (Ht Lt a b c E1 E2).
Qed.
Lemma cmp_le_total a b : cmp_le (kc a b) = false -> cmp_le (kc b a) = true.
Proof. destruct Hkc as (_ & Ha & _). rewrite (Ha a b). by destruct (kc b a). Qed.
Lemma insert_sorted_keyed k x l : List.filter (keyed k) (insert_sorted key_le x l) = List.filter (keyed k) (x :: l).
Proof.
  induction l as [|y l IH]; [done|]. cbn [insert_sorted]. destruct (key_le x y) eqn:E; [done|]. cbn [List.filter] in *. rewrite IH.
  destruct (keyed k x) eqn:Ex, (keyed k y) eqn:Ey; try done. exfalso. apply keyed_spec in Ex, Ey. destruct Hkc as (_ & Ha & _ & He).
  assert (kc k (key y) = Eq) as Ey' by (by rewrite (Ha k), Ey).
  assert (kc (key x) (key y) = Eq) as Exy by (rewrite (He k (key x) (key y)); [done|by rewrite (Ha k), Ex]). by rewrite Exy in E.
Qed.
Lemma sort_by_keyed k l : List.filter (keyed k) (sort_by key_le l) = List.filter (keyed k) l.
Proof.
  induction l as [|x l IH]; [done|]. change (sort_by key_le (x :: l)) with (insert_sorted key_le x (sort_by key_le l)).
  rewrite insert_sorted_keyed. cbn. by rewrite IH.
Qed.
Lemma sort_by_key_sorted l : StronglySorted (fun a b => key_le a b = true) (sort_by key_le l).
Proof. apply sort_by_sorted; [by intros x y Hxy; apply cmp_le_total|by intros x y z; apply cmp_le_trans]. Qed.
End stable.
Lemma cmp_flip_ok {K} (kc : K -> K -> comparison) : cmp_ok kc -> cmp_ok (fun a b => kc b a).
Proof.
  intros (Hr & Ha & Ht & He). split_and!; [done|intros; apply Ha|intros c x y z Hxy Hyz; by apply (Ht c z y x)|].
  intros x y z Hyx. rewrite (Ha z y), (Ha z x). f_equal. symmetry. by apply (He y x z).
Qed.

(** ** Equality and order of values agree *)
Lemma string_cmp_eq s s' : String.compare s s' = Eq <-> s = s'.
Proof. split; [by apply String.compare_eq_iff|intros ->]. by apply string_cmp_ok. Qed.
Class ValueEqOk (VT : ValueTypes) (VO : ValueOrd VT) : Prop := {
  uuid_eqb_cmp : forall x y, uuid_eqb x y = true <-> uuid_cmp x y = Eq;
  datetime_eqb_cmp : forall x y, datetime_eqb x y = true <-> datetime_cmp x y = Eq;
  decimal_eqb_cmp : forall x y, decimal_eqb x y = true <-> decimal_cmp x y = Eq;
}.
Section nested_facts.
Context `{VT : ValueTypes} {VO : ValueOrd VT} `{IT : Itertools} {GT : GraphTypes} {PG : Petgraph}.
Context (HVT : ValueTypesOk VT) (HVO : ValueOrdOk VT VO) (HVE : ValueEqOk VT VO).
Abbreviation vlex := (lex value_cmp).
Lemma value_eqb_cmp v : forall w, value_eqb v w = true <-> value_cmp v w = Eq.
Proof.
  induction v as [v IH] using value_nested_ind. intros w.
  destruct v as [s|b|s|z| |u|l|s|d|d], w as [s'|b'|s'|z'| |u'|l'|s'|d'|d']; try (by split);
    try (apply HVE); try (change ((s ≟ s') = true <-> String.compare s s' = Eq); by rewrite bool_decide_eq_true, string_cmp_eq).
  - destruct b, b'; by split.
  - change ((z ≟ z') = true <-> Z.compare z z' = Eq). by rewrite bool_decide_eq_true, Z.compare_eq_iff.
  - cbn [value_eqb value_cmp]. revert l'. induction IH as [|v l Hv _ IHl]; intros [|w k]; try (by split). rewrite andb_true_iff, Hv, IHl.
    destruct (value_cmp v w); naive_solver.
Qed.
Lemma value_cmp_ok : cmp_ok value_cmp.
Proof.
  split_and!; [by apply value_cmp_refl|intros; by apply value_cmp_antisym| |intros x y z Hxy; by apply value_cmp_eq].
  intros [] x y z Hxy Hyz; [by rewrite <-(value_cmp_eq HVO x y z Hxy)|by eapply value_cmp_lt|].
  rewrite (value_cmp_antisym HVO) in Hxy, Hyz |- *. rewrite (value_cmp_lt HVO z y x); [done|..]; [by destruct (value_cmp z y)|by destruct (value_cmp y x)].
Qed.
Lemma vlex_ok : cmp_ok vlex.
Proof.
  destruct value_cmp_ok as (Hr & Ha & Ht & He).
  split_and!; [intros x; apply (Hr (PV_List x))|intros x y; apply (Ha (PV_List x) (PV_List y))|
    intros c x y z; apply (Ht c (PV_List x) (PV_List y) (PV_List z))|intros x y z; apply (He (PV_List x) (PV_List y) (PV_List z))].
Qed.
Lemma values_eqb_cmp a b : values_eqb a b = true <-> vlex a b = Eq.
Proof.
  revert b. induction a as [|v a IH]; intros [|w b]; try (by split). unfold values_eqb in *. cbn [list_eqb lex].
  rewrite andb_true_iff, value_eqb_cmp, IH. destruct (value_cmp v w); naive_solver.
Qed.
Lemma ScalarField_eqb_refl f : ScalarField_eqb f f = true.
Proof. unfold ScalarField_eqb. rewrite !bool_decide_eq_true_2 by done. rewrite option_eqb_refl; [done|]. by apply DefaultValue_eqb_refl. Qed.

(** ** Pages per parent *)
Definition parent_values (r : DbRecord) : list PrismaValue := match parent_id r with Some p => rp_values p | None => [] end.
(** The ids of the parents are over the same fields. *)
Definition has_parent (fs : list ScalarField) (r : DbRecord) : Prop := exists p, parent_id r = Some p /\ rp_fields p = fs.
Definition children (k : list PrismaValue) (rs : list DbRecord) : list DbRecord :=
  iter_filter (fun r => match parent_id r with Some p => values_eqb (rp_values p) k | None => false end) rs.
Lemma same_fields_eqb p q : rp_fields p = rp_fields q -> RecordProjection_eqb p q = values_eqb (rp_values p) (rp_values q).
Proof.
  revert q. induction p as [|[f v] p IH]; intros [|[g w] q]; try done. unfold RecordProjection_eqb, values_eqb in *. cbn. intros [= <- Hf].
  by rewrite ScalarField_eqb_refl, IH.
Qed.
Lemma same_parent fs r r' : has_parent fs r -> has_parent fs r' ->
  option_eqb RecordProjection_eqb (parent_id r) (parent_id r') = values_eqb (parent_values r) (parent_values r').
Proof. intros (p & Hp & Hf) (p' & Hp' & Hf'). unfold parent_values. rewrite Hp, Hp'. cbn. apply same_fields_eqb. by rewrite Hf, Hf'. Qed.
Lemma children_keyed fs k rs : Forall (has_parent fs) rs -> children k rs = iter_filter (keyed parent_values vlex k) rs.
Proof.
  intros Hrs. apply List.filter_ext_in. intros r Hr%list_elem_of_In. rewrite Forall_forall in Hrs. destruct (Hrs r Hr) as (p & Hp & _). rewrite Hp.
  unfold keyed, parent_values. rewrite Hp. destruct (values_eqb (rp_values p) k) eqn:E.
  - apply values_eqb_cmp in E. by rewrite E.
  - destruct (vlex (rp_values p) k) eqn:E'; [|done..]. apply values_eqb_cmp in E'. congruence.
Qed.
Fixpoint keep_from {A} (np : NestedPagination) (c : Z) (l : list A) : list A :=
  match l with
  | [] => []
  | x :: l => if in_window np (c + 1) then x :: keep_from np (c + 1) l else keep_from np (c + 1) l
  end.
Definition base_count (k : list PrismaValue) (c : Z) (lp : option RecordProjection) : Z :=
  match lp with Some p => if values_eqb (rp_values p) k then c else 0%Z | None => 0%Z end.
Lemma values_eqb_trans a b c : values_eqb a b = true -> values_eqb a c = values_eqb b c.
Proof.
  intros Hab%values_eqb_cmp. destruct vlex_ok as (_ & _ & _ & He). specialize (He _ _ c Hab). apply eq_true_iff_eq. by rewrite !values_eqb_cmp, He.
Qed.
Lemma values_eqb_sym a b : values_eqb a b = values_eqb b a.
Proof. destruct vlex_ok as (_ & Ha & _). apply eq_true_iff_eq. rewrite !values_eqb_cmp, (Ha a b). by destruct (vlex b a). Qed.
Lemma children_cons k r rs : children k (r :: rs) =
  if match parent_id r with Some p => values_eqb (rp_values p) k | None => false end then r :: children k rs else children k rs.
Proof. done. Qed.
Lemma children_if k (b : bool) r rs : children k (if b then r :: rs else rs) =
  if b && match parent_id r with Some p => values_eqb (rp_values p) k | None => false end then r :: children k rs else children k rs.
Proof. by destruct b. Qed.
(** After a record of a later parent there is none of an earlier one. *)
Lemma later_children kc fs p0 p k rs : cmp_ok kc -> (forall a b, kc a b = Eq <-> vlex a b = Eq) -> Forall (has_parent fs) rs ->
  values_eqb p0 k = true -> values_eqb p k = false -> cmp_le (kc p0 p) = true ->
  Forall (fun r => cmp_le (kc p (parent_values r)) = true) rs -> children k rs = [].
Proof.
  intros Hkc Heq Hrs H0 Hp Hle Hr. rewrite (children_keyed fs) by done. induction rs as [|r rs IH]; [done|].
  apply Forall_cons in Hrs as [_ Hrs], Hr as [Hr1 Hr]. cbn. rewrite IH by done. destruct (keyed parent_values vlex k r) eqn:Ek; [|done]. exfalso.
  apply keyed_spec in Ek. apply Heq in Ek. apply values_eqb_cmp, Heq in H0. destruct Hkc as (_ & Ha & Ht & He).
  pose proof (He _ _ p Ek) as E1. pose proof (He _ _ p H0) as E0. rewrite E1 in E0. rewrite <-E0, (Ha (parent_values r) p) in Hle.
  destruct (kc p (parent_values r)) eqn:E; [|done..]. assert (Hpk : kc p k = Eq) by (by rewrite (Ha p k), E1, (Ha (parent_values r) p), E).
  apply Heq, values_eqb_cmp in Hpk. congruence.
Qed.
(** Along a list sorted by parent, ascending or descending, the records of a parent are counted one after the other. *)
Lemma retain_window_keep np fs kc k rs c lp : cmp_ok kc -> (forall a b, kc a b = Eq <-> vlex a b = Eq) -> Forall (has_parent fs) rs ->
  StronglySorted (fun a b => cmp_le (kc (parent_values a) (parent_values b)) = true) rs ->
  (forall p, lp = Some p -> rp_fields p = fs /\ Forall (fun r => cmp_le (kc (rp_values p) (parent_values r)) = true) rs) ->
  children k (retain_window np c lp rs) = keep_from np (base_count k c lp) (children k rs).
Proof.
  intros Hkc Heq Hrs Hs. revert c lp. induction Hs as [|r rs Hs IH Hr]; intros c lp Hlp; [done|]. apply Forall_cons in Hrs as [(p & Hp & Hf) Hrs].
  assert (Hpv : parent_values r = rp_values p) by (unfold parent_values; by rewrite Hp). rewrite Hpv in Hr. specialize (IH Hrs).
  cbn [retain_window]. destruct (option_eqb RecordProjection_eqb lp (parent_id r)) eqn:Esame.
  - destruct lp as [p0|]; [|by rewrite Hp in Esame]. destruct (Hlp p0 eq_refl) as [Hf0 Hle0]. rewrite Hp in Esame. cbn in Esame.
    rewrite same_fields_eqb in Esame by congruence.
    rewrite children_if, children_cons, Hp, <-(values_eqb_trans _ _ k Esame), IH by (intros ? [= <-]; by inversion Hle0). cbn [base_count].
    destruct (values_eqb (rp_values p0) k); by rewrite ?andb_true_r, ?andb_false_r.
  - rewrite children_if, children_cons, Hp, IH by (by intros ? [= <-]). cbn [base_count].
    assert (Hbase : values_eqb (rp_values p) k = true \/ children k rs <> [] -> base_count k c lp = 0%Z).
    { destruct lp as [p0|]; [|done]. cbn. destruct (values_eqb (rp_values p0) k) eqn:E0; [|done]. destruct (Hlp p0 eq_refl) as [Hf0 Hle0].
      rewrite Hp in Esame. cbn in Esame. rewrite same_fields_eqb in Esame by congruence. rewrite (values_eqb_trans _ _ (rp_values p) E0), values_eqb_sym in Esame.
      intros [Hk|Hne]; [congruence|]. exfalso. apply Hne. apply Forall_cons in Hle0 as [Hle0 _]. rewrite Hpv in Hle0.
      by apply (later_children kc fs (rp_values p0) (rp_values p)). }
    destruct (values_eqb (rp_values p) k) eqn:Ek; [by rewrite andb_true_r, Hbase by auto|]. rewrite andb_false_r. destruct (children k rs); [done|]. by rewrite Hbase by auto.
Qed.
(** The page of a list that is counted from a point on. *)
Definition skipped (np : NestedPagination) : Z := default 0%Z (np_skip np).
Definition page_bounds (np : NestedPagination) : Prop :=
  (0 <= skipped np)%Z /\ forall t, np_take np = Some t -> (0 <= t)%Z /\ (t + skipped np < 2 ^ 63)%Z.
Lemma in_window_spec np c : page_bounds np -> (0 < c)%Z ->
  in_window np c = (skipped np <? c)%Z && match np_take np with Some t => (c <=? t + skipped np)%Z | None => true end.
Proof.
  intros [Hs Ht] Hc. unfold in_window. f_equal.
  - unfold skipped in *. destruct (np_skip np); [done|]. symmetry. by apply Z.ltb_lt.
  - destruct (np_take np) as [t|]; [|done]. specialize (Ht t eq_refl). change (default 0%Z (np_skip np)) with (skipped np).
    unfold wrap64. by rewrite Z.mod_small, Z.add_simpl_r by lia.
Qed.
Lemma keep_from_drop_take {A} np (l : list A) c : page_bounds np -> (0 <= c)%Z ->
  keep_from np c l = drop (Z.to_nat (skipped np - c)) (match np_take np with Some t => take (Z.to_nat (t + skipped np - c)) l | None => l end).
Proof.
  intros Hnp. revert c. induction l as [|x l IH]; intros c Hc; cbn [keep_from].
  { destruct (np_take np); by rewrite ?take_nil, drop_nil. }
  rewrite IH, in_window_spec by (done || lia). destruct Hnp as [Hs Ht]. destruct (Z.ltb_spec (skipped np) (c + 1)) as [Hlt|Hge]; cbn [andb].
  - replace (Z.to_nat (skipped np - (c + 1))) with 0 by lia. replace (Z.to_nat (skipped np - c)) with 0 by lia. rewrite !drop_0.
    destruct (np_take np) as [t|]; [|done]. destruct (Z.leb_spec (c + 1) (t + skipped np)).
    + by replace (Z.to_nat (t + skipped np - c)) with (Datatypes.S (Z.to_nat (t + skipped np - (c + 1)))) by lia.
    + replace (Z.to_nat (t + skipped np - c)) with 0 by lia. by replace (Z.to_nat (t + skipped np - (c + 1))) with 0 by lia.
  - replace (Z.to_nat (skipped np - c)) with (Datatypes.S (Z.to_nat (skipped np - (c + 1)))) by lia.
    destruct (np_take np) as [t|] eqn:Et; [|done]. destruct (Ht t eq_refl).
    by replace (Z.to_nat (t + skipped np - c)) with (Datatypes.S (Z.to_nat (t + skipped np - (c + 1)))) by lia.
Qed.
(** The page of one list. *)
Definition nested_page {A} (np : NestedPagination) (l : list A) : list A :=
  reverse_if (needs_reversing np) (page (skipped np) (np_take np) (reverse_if (needs_reversing np) l)).
Lemma keep_from_page {A} np (l : list A) : page_bounds np -> keep_from np 0 l = page (skipped np) (np_take np) l.
Proof.
  intros Hnp. rewrite keep_from_drop_take by done. unfold page. rewrite Z.sub_0_r. destruct (np_take np) as [t|] eqn:Et; [|done].
  destruct Hnp as [Hs Ht]. destruct (Ht t Et). rewrite Z.sub_0_r, Z2Nat.inj_add, Nat.add_comm by lia. symmetry. apply take_drop_commute.
Qed.
Lemma children_reverse_if k b rs : children k (reverse_if b rs) = reverse_if b (children k rs).
Proof. destruct b; [|done]. cbn. unfold children, reverse. by rewrite !rev_append_rev, !app_nil_r, List.filter_rev. Qed.
Lemma sort_by_parent_ok {E} fs rs : Forall (has_parent fs) rs -> exists rs', sort_by_parent (E := E) rs = Ok rs' /\ rs' ≡ₚ rs /\
  StronglySorted (fun a b => cmp_le (vlex (parent_values a) (parent_values b)) = true) rs' /\ forall k, children k rs' = children k rs.
Proof.
  intros Hrs. unfold sort_by_parent. destruct rs as [|r1 [|r2 rs]]; [exists []; by repeat constructor|exists [r1]; by repeat constructor|].
  set (l := r1 :: r2 :: rs) in *. clearbody l.
  assert (Hm : map_m (fun r => k ← parent_key r; Ok (E := E) (k, r)) l = Ok ((fun r => (parent_values r, r)) <$> l)).
  { induction Hrs as [|r l (p & Hp & _) _ IH]; [done|]. assert (Hk : parent_key (E := E) r = Ok (parent_values r)) by (unfold parent_key, parent_values; by rewrite Hp).
    cbn [map_m]. by rewrite Hk, IH. }
  rewrite Hm. cbn [mbind outcome_bind]. set (le := fun a b : list PrismaValue * DbRecord => cmp_le (vlex a.1 b.1)).
  set (kl := (fun r => (parent_values r, r)) <$> l). eexists. split; [done|].
  assert (Hperm : sort_by le kl ≡ₚ kl) by apply sort_by_perm.
  assert (Hall : Forall (fun p => p.1 = parent_values p.2) (sort_by le kl)) by (rewrite Hperm; unfold kl; apply Forall_fmap, Forall_forall; done).
  assert (Hp : snd <$> sort_by le kl ≡ₚ l) by (rewrite Hperm; unfold kl; rewrite <-list_fmap_compose; by rewrite list_fmap_id).
  split; [done|]. split.
  - pose proof (sort_by_key_sorted fst vlex vlex_ok kl) as Hs. fold le in Hs. clear Hperm Hp. induction Hs as [|a k _ IH Ha]; [constructor|].
    apply Forall_cons in Hall as [Ha1 Hk]. constructor; [by apply IH|]. apply Forall_fmap. eapply Forall_impl; [apply Forall_and; split; [exact Ha|exact Hk]|].
    intros b [Hb Hb1]. cbn. by rewrite <-Ha1, <-Hb1.
  - intros k. rewrite !(children_keyed fs) by (done || by rewrite Hp). pose proof (sort_by_keyed fst vlex vlex_ok k kl) as Hk. fold le in Hk.
    assert (Hf : forall kl', Forall (fun p => p.1 = parent_values p.2) kl' ->
      iter_filter (keyed parent_values vlex k) (snd <$> kl') = snd <$> iter_filter (keyed fst vlex k) kl').
    { induction 1 as [|[a r] kl' Ha _ IH]; [done|].
      assert (Hr : keyed parent_values vlex k r = keyed fst vlex k (a, r)) by (cbn in Ha; unfold keyed; cbn; by rewrite <-Ha).
      rewrite fmap_cons. cbn [List.filter snd]. rewrite Hr, IH. by destruct (keyed fst vlex k (a, r)). }
    rewrite Hf, Hk by done. rewrite <-Hf by (unfold kl; apply Forall_fmap, Forall_forall; done). unfold kl. by rewrite <-list_fmap_compose, list_fmap_id.
Qed.
Lemma apply_pagination_ok {E} np fs m : Forall (has_parent fs) (records m) -> page_bounds np ->
  exists m', apply_pagination (E := E) np m = Ok m' /\ mr_field_names m' = mr_field_names m /\
    forall k, children k (records m') = nested_page np (children k (records m)).
Proof.
  intros Hrs Hnp. unfold apply_pagination. destruct (must_apply_pagination np) eqn:Em; cbn [negb].
  - destruct (sort_by_parent_ok (E := E) fs _ Hrs) as (rs' & -> & Hp & Hs & Hc). cbn [mbind outcome_bind]. eexists. split; [done|]. split; [done|].
    intros k. cbn [records]. rewrite children_reverse_if. unfold nested_page. f_equal. rewrite <-keep_from_page, <-Hc, <-children_reverse_if by done.
    destruct (needs_reversing np); cbn [reverse_if].
    + apply (retain_window_keep np fs (fun a b => vlex b a)); [apply cmp_flip_ok, vlex_ok| |by rewrite reverse_Permutation, Hp|by apply sorted_reverse in Hs|done].
      intros a b. destruct vlex_ok as (_ & Ha & _). rewrite (Ha b a). by destruct (vlex a b).
    + by apply (retain_window_keep np fs vlex); [apply vlex_ok| |rewrite Hp| |].
  - eexists. split; [done|]. split; [done|]. intros k. unfold must_apply_pagination in Em. unfold nested_page, page, skipped.
    destruct (np_take np); [done|]. destruct (np_skip np); [done|]. change (Z.to_nat (default 0%Z None)) with 0. rewrite drop_0.
    destruct (needs_reversing np); cbn [reverse_if]; by rewrite ?reverse_involutive.
Qed.
Lemma nested_page_window {A} a (l : list A) : (forall t, qa_take a = Some t -> (- 2 ^ 63 < t)%Z) -> (forall t, qa_take a = Some t -> (t < 2 ^ 63)%Z) ->
  nested_page (new_from_query_args a) l = window (qa_take a) (default 0%Z (qa_skip a)) l.
Proof.
  intros Ht1 Ht2. unfold nested_page, new_from_query_args, skipped, needs_reversed_order, take_abs, window, page. cbn.
  destruct (qa_take a) as [t|]; [|done]. specialize (Ht1 t eq_refl). specialize (Ht2 t eq_refl). cbn. destruct (Z.ltb_spec t 0) as [Hn|Hn]; [|done].
  cbn [reverse_if]. unfold wrap64. rewrite Z.mod_small by lia. do 3 f_equal. lia.
Qed.
End nested_facts.
