(* ===== verification/Joining.v ===== *)
(** * Joining the records of nested reads to their parents *)
From S2P Require Import Prelude Effects SqlSchema Dml Converter Models Projections Filters ValueOrder SqlRead ReadFacts QueryAst QueryGraph NestedRead NestedFacts.

(** ** Equality tests that are equivalences *)
Definition eqb_ok {A} (eqb : A -> A -> bool) : Prop := (forall a, eqb a a = true) /\ forall a b c, eqb a b = true -> eqb a c = eqb b c.
Lemma eqb_ok_sym {A} (eqb : A -> A -> bool) a b : eqb_ok eqb -> eqb a b = eqb b a.
Proof.
  intros [Hr Ht]. destruct (eqb a b) eqn:E; [by rewrite <-(Ht a b a E)|]. destruct (eqb b a) eqn:E'; [|done]. by rewrite <-(Ht b a b E'), Hr in E.
Qed.
Lemma eqb_ok_dec {A} `{EqDecision A} : eqb_ok (fun a b : A => a ≟ b).
Proof. split; [intros; by apply bool_decide_eq_true_2|]. by intros a b c ->%bool_decide_eq_true. Qed.
Lemma eqb_ok_by {A B} (f : A -> B) eqb : eqb_ok eqb -> eqb_ok (fun a b => eqb (f a) (f b)).
Proof. intros [Hr Ht]. split; [done|]. intros a b c. apply Ht. Qed.
Lemma eqb_ok_and {A} (e1 e2 : A -> A -> bool) : eqb_ok e1 -> eqb_ok e2 -> eqb_ok (fun a b => e1 a b && e2 a b).
Proof. intros [Hr1 Ht1] [Hr2 Ht2]. split; [intros a; by rewrite Hr1, Hr2|]. intros a b c [H1 H2]%andb_true_iff. by rewrite (Ht1 a b c H1), (Ht2 a b c H2). Qed.
Lemma eqb_ok_list {A} (eqb : A -> A -> bool) : eqb_ok eqb -> eqb_ok (list_eqb eqb).
Proof.
  intros [Hr Ht]. split; [intros; by apply list_eqb_refl|]. induction a as [|x a IH]; intros [|y b] [|z c]; try done. cbn.
  intros [H1 H2]%andb_true_iff. by rewrite (Ht x y z H1), (IH b c H2).
Qed.
Lemma eqb_ok_option {A} (eqb : A -> A -> bool) : eqb_ok eqb -> eqb_ok (option_eqb eqb).
Proof. intros [Hr Ht]. split; [intros [a|]; [apply Hr|done]|]. intros [a|] [b|] [c|]; try done. apply Ht. Qed.

(** ** Maps to lists of values *)
Section assoc.
Context {K V : Type} (eqb : K -> K -> bool) (Heq : eqb_ok eqb).
Lemma assoc_find_push k x l k' : assoc_find eqb k' (assoc_push eqb k x l) =
  if eqb k k' then Some (default [] (assoc_find eqb k l) ++ [x : V]) else assoc_find eqb k' l.
Proof.
  destruct Heq as [Hr Ht]. unfold assoc_push. destruct (assoc_find eqb k l) as [v|] eqn:E.
  - revert v E. induction l as [|[k0 v0] l IH]; [done|]. intros v. cbn [assoc_find assoc_update]. destruct (eqb k0 k) eqn:E0.
    + intros [= ->]. cbn [assoc_find]. rewrite (Ht k0 k k' E0). by destruct (eqb k k').
    + intros E. cbn [assoc_find]. rewrite (IH v E). destruct (eqb k0 k') eqn:E1; [|done]. destruct (eqb k k') eqn:E2; [|done].
      rewrite (eqb_ok_sym eqb k k' Heq) in E2. rewrite <-(Ht k0 k' k E1) in E2. congruence.
  - revert E. induction l as [|[k0 v0] l IH]; cbn [assoc_find app]; [by destruct (eqb k k')|]. destruct (eqb k0 k) eqn:E0; [done|]. intros E.
    rewrite (IH E). destruct (eqb k0 k') eqn:E1; [|done]. destruct (eqb k k') eqn:E2; [|done].
    rewrite (eqb_ok_sym eqb k k' Heq) in E2. rewrite <-(Ht k0 k' k E1) in E2. congruence.
Qed.
(** The values that are stored for a key. *)
Definition values_for (k : K) (l : list (V * K)) : list V := fst <$> iter_filter (fun p => eqb p.2 k) l.
Definition non_empty {A} (l : list A) : option (list A) := match l with [] => None | _ => Some l end.
Lemma assoc_find_ext k k' (l : list (K * V)) : eqb k k' = true -> assoc_find eqb k l = assoc_find eqb k' l.
Proof.
  intros Hk. induction l as [|[k0 v0] l IH]; [done|]. cbn. rewrite IH. destruct Heq as [Hr Ht].
  rewrite (eqb_ok_sym eqb k0 k Heq), (Ht k k' k0 Hk), (eqb_ok_sym eqb k' k0 Heq). done.
Qed.
Lemma assoc_find_pushed (l : list (V * K)) k :
  assoc_find eqb k (foldl (fun m p => assoc_push eqb p.2 p.1 m) [] l) = non_empty (values_for k l).
Proof.
  revert k. induction l as [|[v k0] l IH] using rev_ind; intros k; [done|]. rewrite foldl_app. cbn [foldl fst snd].
  rewrite assoc_find_push. unfold values_for in *. rewrite List.filter_app. cbn [List.filter snd]. destruct (eqb k0 k) eqn:E.
  - rewrite (IH k0). rewrite fmap_app. change (fst <$> [(v, k0)]) with [v].
    assert (Hf : iter_filter (fun p : V * K => eqb p.2 k0) l = iter_filter (fun p => eqb p.2 k) l).
    { apply List.filter_ext. intros p. destruct Heq as [Hr Ht]. by rewrite (eqb_ok_sym eqb p.2 k0 Heq), (Ht k0 k p.2 E), (eqb_ok_sym eqb k p.2 Heq). }
    rewrite Hf. by destruct (fst <$> iter_filter (fun p : V * K => eqb p.2 k) l) as [|w vs].
  - by rewrite app_nil_r, IH.
Qed.
End assoc.

(** ** Copies of the records, one for each of their parents *)
Section copies.
Context `{VT : ValueTypes} {VO : ValueOrd VT} `{IT : Itertools} {GT : GraphTypes} {PG : Petgraph}.
Context (HVT : ValueTypesOk VT) (HVO : ValueOrdOk VT VO) (HVE : ValueEqOk VT VO).
Lemma values_eqb_ok : eqb_ok values_eqb.
Proof. split; [intros a; apply (values_eqb_cmp HVE), (vlex_ok HVO)|]. intros a b c. by apply values_eqb_trans. Qed.
Lemma value_eqb_ok : eqb_ok value_eqb.
Proof.
  split; [intros a; by apply value_eqb_refl|]. intros a b c Hab%(value_eqb_cmp HVE). apply eq_true_iff_eq. rewrite !(value_eqb_cmp HVE).
  by rewrite (value_cmp_eq HVO a b c Hab).
Qed.
Lemma DefaultValue_eqb_ok : eqb_ok DefaultValue_eqb.
Proof.
  destruct value_eqb_ok as [_ Ht]. split; [by apply DefaultValue_eqb_refl|]. intros [v|g] [w|h] [u|i]; try done; cbn; [apply Ht|].
  intros [Hn%bool_decide_eq_true Ha]%andb_true_iff. unfold ValueGenerator_eqb. by rewrite Hn, (Ht _ _ _ Ha).
Qed.
Lemma ScalarField_eqb_ok : eqb_ok ScalarField_eqb.
Proof.
  unfold ScalarField_eqb. repeat (apply (eqb_ok_and (fun a b => _) (fun a b => _))); 
    try (split; [intros; by apply bool_decide_eq_true_2|intros a b c H%bool_decide_eq_true; cbn; by rewrite H]).
  apply (eqb_ok_by sf_default_value), eqb_ok_option, DefaultValue_eqb_ok.
Qed.
Lemma RecordProjection_eqb_ok : eqb_ok RecordProjection_eqb.
Proof.
  unfold RecordProjection_eqb. apply eqb_ok_list, (eqb_ok_and (fun a b => _) (fun a b => _));
    [apply (eqb_ok_by fst), ScalarField_eqb_ok|apply (eqb_ok_by snd), value_eqb_ok].
Qed.

Context {K : Type} (eqb : K -> K -> bool) (Heq : eqb_ok eqb) (lk : DbRecord -> K).
(** Parents and the links of their children. *)
Abbreviation Parents := (list (RecordProjection * K)).
Definition copies (P : Parents) (rs : list DbRecord) : list DbRecord :=
  rs ≫= fun r => (fun p => set_parent_id p r) <$> values_for eqb (lk r) P.
Definition related (P : Parents) (k : list PrismaValue) (r : DbRecord) : bool :=
  iter_any (fun p => values_eqb (rp_values p.1) k && eqb p.2 (lk r)) P.
Definition distinct_by {A} (e : A -> A -> bool) (l : list A) : Prop := forall i j x y, l !! i = Some x -> l !! j = Some y -> e x y = true -> i = j.
Lemma distinct_by_cons {A} (e : A -> A -> bool) x l : distinct_by e (x :: l) -> (forall y, y ∈ l -> e x y = false) /\ distinct_by e l.
Proof.
  intros Hd. split.
  - intros y [i Hi]%list_elem_of_lookup. destruct (e x y) eqn:E; [|done]. by specialize (Hd 0 (Datatypes.S i) x y eq_refl Hi E).
  - intros i j a b Hi Hj Hab. specialize (Hd (Datatypes.S i) (Datatypes.S j) a b Hi Hj Hab). by injection Hd.
Qed.
Definition pair_eqb (a b : RecordProjection * K) : bool := values_eqb (rp_values a.1) (rp_values b.1) && eqb a.2 b.2.
Lemma related_false p c P k r : distinct_by pair_eqb ((p, c) :: P) -> values_eqb (rp_values p) k = true -> eqb c (lk r) = true -> related P k r = false.
Proof.
  intros [Hd _]%distinct_by_cons Hp Hc. destruct (related P k r) eqn:E; [|done]. unfold related in E.
  apply List.existsb_exists in E as ([p' c'] & Hin%list_elem_of_In & [Hp' Hc']%andb_true_iff). cbn [fst snd] in Hp', Hc'. specialize (Hd _ Hin).
  unfold pair_eqb in Hd. cbn [fst snd] in Hd. destruct values_eqb_ok as [_ Hv], Heq as [_ He].
  rewrite (Hv _ _ _ Hp), (eqb_ok_sym _ k _ values_eqb_ok), Hp', (He _ _ _ Hc), (eqb_ok_sym eqb (lk r) c' Heq), Hc' in Hd. done.
Qed.
(** A record has a parent once: the copies for a parent are the records that are related to it. *)
Lemma one_copy P k r : distinct_by pair_eqb P ->
  rec_values <$> children k ((fun p => set_parent_id p r) <$> values_for eqb (lk r) P) = if related P k r then [rec_values r] else [].
Proof.
  intros Hd. induction P as [|[p c] P IH]; [done|]. specialize (IH (proj2 (distinct_by_cons _ _ _ Hd))). unfold values_for, related in *.
  cbn [List.filter List.existsb fst snd]. destruct (eqb c (lk r)) eqn:Ec; [|by rewrite andb_false_r]. rewrite andb_true_r, !fmap_cons, children_cons. cbn [parent_id set_parent_id fst].
  destruct (values_eqb (rp_values p) k) eqn:Ep; [|exact IH]. rewrite fmap_cons, IH. cbn [orb]. by rewrite (related_false p c P k r Hd Ep Ec : iter_any _ _ = false).
Qed.
Lemma children_app k l1 l2 : children k (l1 ++ l2) = children k l1 ++ children k l2.
Proof. apply List.filter_app. Qed.
Lemma copies_children P k rs : distinct_by pair_eqb P -> rec_values <$> children k (copies P rs) = rec_values <$> iter_filter (related P k) rs.
Proof.
  intros Hd. induction rs as [|r rs IH]; [done|]. unfold copies in *. cbn [mbind list_bind List.filter]. rewrite children_app, fmap_app, IH, one_copy by done.
  by destruct (related P k r).
Qed.
(** One parent per link: one copy of each record. *)
Definition linked (P : Parents) (r : DbRecord) : Prop := values_for eqb (lk r) P <> [].
Lemma single_parent (P : Parents) k (p : RecordProjection) : distinct_by (fun a b => eqb a.2 b.2) P -> p ∈ values_for eqb k P -> values_for eqb k P = [p].
Proof.
  intros Hd Hp. unfold values_for in *. induction P as [|[p0 c] P IH]; [by apply not_elem_of_nil in Hp|]. apply distinct_by_cons in Hd as [Hd1 Hd2].
  cbn [List.filter snd] in *. destruct (eqb c k) eqn:Ec; [|by apply IH]. rewrite fmap_cons in *.
  assert (Hnil : iter_filter (fun p => eqb p.2 k) P = []).
  { destruct (iter_filter (fun p => eqb p.2 k) P) as [|x l] eqn:El; [done|]. assert (Hx : x ∈ x :: l) by constructor. rewrite <-El in Hx.
    apply list_elem_of_In, List.filter_In in Hx as [Hx%list_elem_of_In Hk]. specialize (Hd1 x Hx). cbn in Hd1. destruct Heq as [_ He].
    rewrite (He _ _ _ Ec), (eqb_ok_sym eqb k _ Heq), Hk in Hd1. done. }
  rewrite Hnil in *. cbn in *. by apply list_elem_of_singleton in Hp as ->.
Qed.
End copies.

(** ** The three ways of joining *)
Section attach.
Context `{VT : ValueTypes} {VO : ValueOrd VT} `{IT : Itertools} {GT : GraphTypes} {PG : Petgraph}.
Context (HVT : ValueTypesOk VT) (HVO : ValueOrdOk VT VO) (HVE : ValueEqOk VT VO) {ConnectorError : Type} (idm : InternalDataModel).
Lemma assoc_find_update {K V} (eqb : K -> K -> bool) (Heq : eqb_ok eqb) k f (l : list (K * V)) k' : eqb k k' = false ->
  assoc_find eqb k' (assoc_update eqb k f l) = assoc_find eqb k' l.
Proof.
  intros Hk. induction l as [|[k0 v0] l IH]; [done|]. cbn. destruct (eqb k0 k) eqn:E; cbn; [|by rewrite IH]. destruct Heq as [_ He].
  by rewrite (He _ _ k' E), Hk.
Qed.
Lemma assoc_find_remove {K V} (eqb : K -> K -> bool) (Heq : eqb_ok eqb) k (l : list (K * V)) k' : eqb k k' = false ->
  assoc_find eqb k' (assoc_remove eqb k l) = assoc_find eqb k' l.
Proof.
  intros Hk. induction l as [|[k0 v0] l IH]; [done|]. cbn. destruct (eqb k0 k) eqn:E; cbn; [|by rewrite IH]. destruct Heq as [_ He].
  by rewrite (He _ _ k' E), Hk.
Qed.
(** The link of a record is read off its row. *)
Definition link_read {K} (p : ModelProjection) (fields : list string) (rd : RecordProjection -> K) (lk : DbRecord -> K) (r : DbRecord) : Prop :=
  exists cl, record_projection idm r fields p = Ok cl /\ rd cl = lk r.
Lemma attach_on_child_copies link fields lk (lm : LinkMapping) P rs : Forall (link_read link fields rp_values lk) rs ->
  (forall v, assoc_find values_eqb v lm = non_empty (values_for values_eqb v P)) ->
  distinct_by (fun a b => values_eqb a.2 b.2) P -> Forall (linked values_eqb lk P) rs ->
  map_m (attach_inlined_on_child (ConnectorError := ConnectorError) idm link fields lm) rs = Ok (copies values_eqb lk P rs).
Proof.
  intros Hlk Hlm Hd Hrs. induction Hrs as [|r rs Hr _ IH]; [done|]. apply Forall_cons in Hlk as [(cl & Hcl & Hl) Hlk]. unfold linked in Hr.
  destruct (values_for values_eqb (lk r) P) as [|p ps] eqn:Ev; [done|].
  assert (Hp : values_for values_eqb (lk r) P = [p]) by (apply single_parent; [by apply values_eqb_ok|done|rewrite Ev; constructor]).
  rewrite Ev in Hp. injection Hp as ->.
  assert (Hstep : attach_inlined_on_child (ConnectorError := ConnectorError) idm link fields lm r = Ok (set_parent_id p r)).
  { unfold attach_inlined_on_child. rewrite Hcl. cbn [of_domain map_err mbind outcome_bind]. by rewrite Hl, Hlm, Ev. }
  cbn [map_m]. rewrite Hstep, IH by done. cbn [mbind outcome_bind]. unfold copies. cbn [mbind list_bind]. by rewrite Ev.
Qed.
Lemma attach_on_parent_copies link fields lk P rs (lm : LinkMapping) dn ad : Forall (link_read link fields rp_values lk) rs ->
  distinct_by (fun a b => values_eqb (lk a) (lk b)) rs -> Forall (linked values_eqb lk P) rs ->
  (forall r, r ∈ rs -> assoc_find values_eqb (lk r) lm = non_empty (values_for values_eqb (lk r) P)) ->
  exists lm' dn' ad', for_each (attach_inlined_on_parent (ConnectorError := ConnectorError) idm link fields) rs (lm, (dn, ad)) = Ok (lm', (dn', ad')) /\
    dn' ++ ad' ≡ₚ (dn ++ ad) ++ copies values_eqb lk P rs.
Proof.
  intros Hlk Hd Hrs. revert lm dn ad Hlk Hd. induction Hrs as [|r rs Hr _ IH]; intros lm dn ad Hlk Hd Hlm.
  { exists lm, dn, ad. split; [reflexivity|]. unfold copies. cbn. by rewrite app_nil_r. }
  apply Forall_cons in Hlk as [(cl & Hcl & Hl) Hlk]. apply distinct_by_cons in Hd as [Hd1 Hd2]. unfold linked in Hr.
  destruct (values_for values_eqb (lk r) P) as [|p ps] eqn:Ev; [done|].
  assert (Hstep : attach_inlined_on_parent (ConnectorError := ConnectorError) idm link fields (lm, (dn, ad)) r =
    Ok (assoc_update values_eqb (lk r) (fun _ => reverse ps) lm, (dn ++ [set_parent_id p r], ad ++ ((fun q => set_parent_id q r) <$> reverse ps)))).
  { unfold attach_inlined_on_parent. rewrite Hcl. cbn [of_domain map_err mbind outcome_bind]. rewrite Hl, (Hlm r), Ev by constructor. cbn [non_empty].
    rewrite reverse_cons, last_snoc. cbn [unwrap mbind outcome_bind]. by rewrite length_app, Nat.add_sub, take_app_length. }
  cbn [for_each]. rewrite Hstep. cbn [mbind outcome_bind].
  edestruct IH as (lm' & dn' & ad' & Hf & Hp); [exact Hlk|exact Hd2| |exists lm', dn', ad'; split; [exact Hf|]].
  - intros r' Hr'. rewrite assoc_find_update; [apply Hlm; by constructor|by apply values_eqb_ok|]. by apply Hd1.
  - rewrite Hp. unfold copies. cbn [mbind list_bind]. rewrite Ev, fmap_cons.
    assert (Hrev : (fun p0 => set_parent_id p0 r) <$> reverse ps ≡ₚ (fun p0 => set_parent_id p0 r) <$> ps) by (by rewrite reverse_Permutation).
    etransitivity; [apply Permutation_app_tail, Permutation_app; [reflexivity|apply Permutation_app_head, Hrev]|].
    rewrite <-!app_assoc. apply Permutation_app_head. cbn [app]. rewrite Permutation_middle. apply Permutation_app_head. done.
Qed.
Lemma attach_m2m_copies id fields lk P rs im dn ad : Forall (link_read id fields (fun r => r) lk) rs ->
  distinct_by (fun a b => RecordProjection_eqb (lk a) (lk b)) rs -> Forall (linked RecordProjection_eqb lk P) rs ->
  (forall r, r ∈ rs -> assoc_find RecordProjection_eqb (lk r) im = non_empty (values_for RecordProjection_eqb (lk r) P)) ->
  exists im' dn' ad', for_each (attach_m2m (ConnectorError := ConnectorError) idm id fields) rs (im, (dn, ad)) = Ok (im', (dn', ad')) /\
    dn' ++ ad' ≡ₚ (dn ++ ad) ++ copies RecordProjection_eqb lk P rs.
Proof.
  intros Hlk Hd Hrs. revert im dn ad Hlk Hd. induction Hrs as [|r rs Hr _ IH]; intros im dn ad Hlk Hd Him.
  { exists im, dn, ad. split; [reflexivity|]. unfold copies. cbn. by rewrite app_nil_r. }
  apply Forall_cons in Hlk as [(cl & Hcl & Hl) Hlk]. apply distinct_by_cons in Hd as [Hd1 Hd2]. unfold linked in Hr.
  destruct (exists_last Hr) as (ps & p & Ev).
  assert (Hstep : attach_m2m (ConnectorError := ConnectorError) idm id fields (im, (dn, ad)) r =
    Ok (assoc_remove RecordProjection_eqb (lk r) im, (dn ++ [set_parent_id p r], ad ++ ((fun q => set_parent_id q r) <$> ps)))).
  { unfold attach_m2m. rewrite Hcl. cbn [of_domain map_err mbind outcome_bind]. subst cl. rewrite (Him r), Ev by constructor.
    assert (Hne : non_empty (ps ++ [p]) = Some (ps ++ [p])) by (by destruct ps). rewrite Hne. cbn [unwrap mbind outcome_bind].
    rewrite last_snoc. cbn [unwrap mbind outcome_bind]. by rewrite length_app, Nat.add_sub, take_app_length. }
  cbn [for_each]. rewrite Hstep. cbn [mbind outcome_bind].
  edestruct IH as (im' & dn' & ad' & Hf & Hp); [exact Hlk|exact Hd2| |exists im', dn', ad'; split; [exact Hf|]].
  - intros r' Hr'. rewrite assoc_find_remove; [apply Him; by constructor|by apply RecordProjection_eqb_ok|]. by apply Hd1.
  - rewrite Hp. unfold copies. cbn [mbind list_bind]. rewrite Ev, fmap_app. cbn [fmap list_fmap].
    rewrite <-!app_assoc. apply Permutation_app_head. cbn [app]. rewrite (app_assoc ad). rewrite (app_assoc ad _ (_ :: _)). apply Permutation_middle.
Qed.

(** ** Links of the parents *)
Abbreviation link_pairs := (fmap (fun p : RecordProjection * RecordProjection => (p.1, rp_values p.2))).
Definition splits (idents : list ModelProjection) (j : RecordProjection) (p : RecordProjection * RecordProjection) : Prop :=
  split_into (E := InterpreterError ConnectorError) idm j idents = Ok [p.1; p.2].
Lemma map_links_ok idents js parents : Forall2 (splits idents) js parents ->
  exists lm uniq, for_each (map_link (ConnectorError := ConnectorError) idm idents) js ([], []) = Ok (lm, uniq) /\
    (forall v, assoc_find values_eqb v lm = non_empty (values_for values_eqb v (link_pairs parents))) /\
    (forall v, v ∈ uniq -> exists p, p ∈ parents /\ rp_values p.2 = v) /\
    (forall p, p ∈ parents -> exists v, v ∈ uniq /\ values_eqb v (rp_values p.2) = true).
Proof.
  intros HF.
  assert (Hgen : forall P lm uniq, lm = foldl (fun m p => assoc_push values_eqb p.2 p.1 m) [] (link_pairs P) ->
      (forall v, v ∈ uniq -> exists p, p ∈ P /\ rp_values p.2 = v) -> (forall p, p ∈ P -> exists v, v ∈ uniq /\ values_eqb v (rp_values p.2) = true) ->
      exists lm' uniq', for_each (map_link (ConnectorError := ConnectorError) idm idents) js (lm, uniq) = Ok (lm', uniq') /\
        lm' = foldl (fun m p => assoc_push values_eqb p.2 p.1 m) [] (link_pairs (P ++ parents)) /\
        (forall v, v ∈ uniq' -> exists p, p ∈ P ++ parents /\ rp_values p.2 = v) /\
        (forall p, p ∈ P ++ parents -> exists v, v ∈ uniq' /\ values_eqb v (rp_values p.2) = true)).
  { induction HF as [|j p js parents Hj _ IH]; intros P lm uniq Hlm H1 H2; [exists lm, uniq; by rewrite app_nil_r|].
    set (lm1 := assoc_push values_eqb (rp_values p.2) p.1 lm).
    assert (Hlm1 : lm1 = foldl (fun m p => assoc_push values_eqb p.2 p.1 m) [] (link_pairs (P ++ [p]))) by (unfold lm1; by rewrite Hlm, fmap_app, foldl_app).
    assert (Hstep : exists uniq1, map_link (ConnectorError := ConnectorError) idm idents (lm, uniq) j = Ok (lm1, uniq1) /\
      (forall v, v ∈ uniq1 -> exists p', p' ∈ P ++ [p] /\ rp_values p'.2 = v) /\
      (forall p', p' ∈ P ++ [p] -> exists v, v ∈ uniq1 /\ values_eqb v (rp_values p'.2) = true)).
    { unfold map_link. unfold splits in Hj. rewrite Hj. cbn [mbind outcome_bind last unwrap length take Nat.sub].
      pose proof (assoc_find_pushed values_eqb (values_eqb_ok HVO HVE) (link_pairs P) (rp_values p.2)) as Hfind. rewrite <-Hlm in Hfind. rewrite Hfind.
      destruct (values_for values_eqb (rp_values p.2) (link_pairs P)) as [|q qs] eqn:Eq; cbn [non_empty].
      - exists (uniq ++ [rp_values p.2]). split; [done|]. split.
        + intros v [Hv| ->%list_elem_of_singleton]%elem_of_app; [|exists p; set_solver]. destruct (H1 v Hv) as (p' & ? & ?). exists p'. set_solver.
        + intros p' [Hp'| ->%list_elem_of_singleton]%elem_of_app; [destruct (H2 p' Hp') as (v & ? & ?); exists v; set_solver|].
          exists (rp_values p.2). split; [set_solver|]. by apply values_eqb_ok.
      - exists uniq. split; [done|]. split; [intros v Hv; destruct (H1 v Hv) as (p' & ? & ?); exists p'; set_solver|].
        intros p' [Hp'| ->%list_elem_of_singleton]%elem_of_app; [by apply H2|].
        assert (Hq : q ∈ values_for values_eqb (rp_values p.2) (link_pairs P)) by (rewrite Eq; constructor).
        unfold values_for in Hq. apply list_elem_of_fmap in Hq as ([q0 w] & -> & [Hw%list_elem_of_In Hwe]%list_elem_of_In%List.filter_In).
        apply list_elem_of_fmap in Hw as (p' & [= -> ->] & Hp'). destruct (H2 p' Hp') as (v & Hv & Hve). exists v. split; [done|].
        destruct (values_eqb_ok HVO HVE) as [_ Ht]. by rewrite (Ht _ _ _ Hve). }
    destruct Hstep as (uniq1 & Hs & H1' & H2'). destruct (IH (P ++ [p]) lm1 uniq1 Hlm1 H1' H2') as (lm' & uniq' & Hf & Hl & H3 & H4).
    exists lm', uniq'. cbn [for_each]. rewrite Hs. cbn [mbind outcome_bind]. rewrite <-app_assoc in *. done. }
  destruct (Hgen [] [] [] eq_refl) as (lm' & uniq' & Hf & -> & H3 & H4); [set_solver..|]. exists (foldl (fun m p => assoc_push values_eqb p.2 p.1 m) [] (link_pairs parents)), uniq'.
  split_and!; [done| |done..]. intros v. apply assoc_find_pushed, (values_eqb_ok HVO HVE).
Qed.
End attach.
