(* ===== verification/Related.v ===== *)
(** * Related records: every parent gets its page of its own children *)
From S2P Require Import Prelude Effects SqlSchema Dml Converter CalcFacts Models Convert Projections Filters ValueOrder SqlRead ReadFacts ReadSamples QueryAst QueryGraph GraphFacts GraphRules GraphSamples NestedRead NestedFacts Joining.

Lemma perm_short {A} (l k : list A) : l ≡ₚ k -> length k <= 1 -> l = k.
Proof. intros Hp Hk. destruct k as [|x [|y k]]; [by apply Permutation_nil_r in Hp|by apply Permutation_singleton_r in Hp|cbn in Hk; lia]. Qed.
Lemma filter_short {A} (p : A -> bool) (l : list A) : (forall i j a b, l !! i = Some a -> l !! j = Some b -> p a = true -> p b = true -> i = j) ->
  length (iter_filter p l) <= 1.
Proof.
  induction l as [|x l IH]; intros Hl; [cbn; lia|].
  assert (IH' : length (iter_filter p l) <= 1).
  { apply IH. intros i j a b Hi Hj Ha Hb. by injection (Hl (Datatypes.S i) (Datatypes.S j) a b Hi Hj Ha Hb). }
  cbn. destruct (p x) eqn:Ex; [|done]. cbn. destruct (iter_filter p l) as [|y k] eqn:E; [cbn; lia|]. exfalso.
  assert (Hy : y ∈ y :: k) by constructor. rewrite <-E in Hy. apply list_elem_of_In, List.filter_In in Hy as [Hy%list_elem_of_In Hpy].
  apply list_elem_of_lookup in Hy as [i Hi]. by specialize (Hl 0 (Datatypes.S i) x y eq_refl Hi Ex Hpy).
Qed.
(** ** The parents of a nested read

    The ids and links of the parents are given with the query, or they are read
    off the records that the enclosing query returned: then one projection over
    the fields of both is read, and split again. *)
Section parents.
Context `{VT : ValueTypes} {VO : ValueOrd VT} `{IT : Itertools} (HIT : ItertoolsOk IT) (idm : InternalDataModel).
(** The scalar fields of a projection, field by field. *)
Definition scalars_of (p : ModelProjection) (fss : list (list ScalarField)) : Prop := forall E, map_m (mf_scalar_fields (E := E) idm) p = Ok fss.
(** Fields with one name are one field. *)
Record fields_by_name (p : ModelProjection) (fss : list (list ScalarField)) : Prop := {
  fn_fields : forall f g, f ∈ p -> g ∈ p -> ModelField_eqb f g = true -> f = g;
  fn_scalars : forall a b, a ∈ mjoin fss -> b ∈ mjoin fss -> sf_name a = sf_name b -> a = b;
}.
(** The values of a record in the fields of a projection, each field once. *)
Definition record_reads (r : DbRecord) (names : list string) (fss : list (list ScalarField)) (rp : RecordProjection) : Prop :=
  map_m (fun f => v ← get_field_value r names (sf_db_name f); Ok (f, v)) (unique_by sf_name (mjoin fss)) = Ok rp.

Lemma unique_eq_elem (l : ModelProjection) f : (forall f g, f ∈ l -> g ∈ l -> ModelField_eqb f g = true -> f = g) -> f ∈ unique_eq ModelField_eqb l <-> f ∈ l.
Proof.
  induction l as [|x l IH] using rev_ind; intros Hl; [by rewrite unique_eq_nil|].
  assert (IH' : f ∈ unique_eq ModelField_eqb l <-> f ∈ l) by (apply IH; intros a b Ha Hb; apply Hl; set_solver).
  rewrite unique_eq_snoc. destruct (iter_any _ _) eqn:Ea.
  - rewrite IH', elem_of_app, list_elem_of_singleton. split; [by left|]. intros [? | ->]; [done|].
    apply existsb_exists in Ea as (y & Hy%list_elem_of_In & He).
    assert (Hyl : y ∈ l).
    { revert Hy. clear -HIT. induction l as [|z l IHl] using rev_ind; [by rewrite unique_eq_nil|]. rewrite unique_eq_snoc. destruct (iter_any _ _); set_solver. }
    by rewrite (Hl x y ltac:(set_solver) ltac:(set_solver) He).
  - by rewrite !elem_of_app, IH', !list_elem_of_singleton.
Qed.
Lemma map_m_app {E A B} (g : A -> outcome E B) l k : map_m g (l ++ k) = ys ← map_m g l; zs ← map_m g k; Ok (ys ++ zs).
Proof.
  induction l as [|x l IH]; cbn; [by destruct (map_m g k)|]. rewrite IH. destruct (g x); cbn; [|done..]. destruct (map_m g l); cbn; [|done..]. by destruct (map_m g k).
Qed.
(** Every element of one list is in the other: so are the results. *)
Lemma map_m_included {E A B} (g : A -> outcome E (list B)) l l' yss : map_m g l = Ok yss -> (forall x, x ∈ l' <-> x ∈ l) ->
  exists zss, map_m g l' = Ok zss /\ forall b, b ∈ mjoin zss <-> b ∈ mjoin yss.
Proof.
  intros Hy Hl. pose proof (map_m_Forall2 _ _ _ Hy) as HF.
  assert (Hok : forall x, x ∈ l -> exists y, g x = Ok y /\ y ∈ yss).
  { clear -HF. intros x Hx. induction HF as [|a b l k Hab _ IH]; [by apply not_elem_of_nil in Hx|]. apply elem_of_cons in Hx as [->|Hx]; [exists b; set_solver|].
    destruct (IH Hx) as (y & ? & ?). exists y. set_solver. }
  destruct (map_m_ok g l') as [zss Hz]; [intros x Hx%Hl; destruct (Hok x Hx) as (y & ? & _); by exists y|]. exists zss. split; [done|]. intros b. rewrite !list_elem_of_join.
  pose proof (map_m_Forall2 _ _ _ Hz) as HF'. split.
  - intros (z & Hb & Hzz). destruct (map_m_elem _ _ _ _ Hz Hzz) as (x & Hx%Hl & Hgx). destruct (Hok x Hx) as (y & Hgy & Hin). rewrite Hgx in Hgy. injection Hgy as <-. by exists z.
  - intros (y & Hb & Hin). destruct (map_m_elem _ _ _ _ Hy Hin) as (x & Hx%Hl & Hgx). exists y. split; [done|].
    clear -HF' Hx Hgx. induction HF' as [|a c l k Hac _ IH]; [by apply not_elem_of_nil in Hx|]. apply elem_of_cons in Hx as [->|Hx]; [|set_solver]. rewrite Hgx in Hac. injection Hac as <-. constructor.
Qed.
Lemma mapped_lookup (j : RecordProjection) f v : (f, v) ∈ j -> (forall g w, (g, w) ∈ j -> sf_name g = sf_name f -> (g, w) = (f, v)) ->
  foldl (fun m p => <[sf_name p.1 := p]> m) (∅ : gmap string (ScalarField * PrismaValue)) j !! sf_name f = Some (f, v).
Proof.
  induction j as [|[g w] j IH] using rev_ind; [by intros ?%not_elem_of_nil|]. intros Hin Hj. rewrite foldl_app. cbn [foldl fst].
  destruct (decide (sf_name g = sf_name f)) as [He|He].
  - rewrite He, lookup_insert_eq. f_equal. apply Hj; [set_solver|done].
  - rewrite lookup_insert_ne by done. apply IH; [|set_solver]. apply elem_of_app in Hin as [|[= -> ->]%list_elem_of_singleton]; done.
Qed.
(** The projection over both sets of fields is read and split into its parts. *)
Lemma merged_reads {E} r names pid plink fid flink id link : scalars_of pid fid -> scalars_of plink flink -> fields_by_name (pid ++ plink) (fid ++ flink) ->
  record_reads r names fid id -> record_reads r names flink link ->
  exists j, record_projection idm r names (merge pid plink) = Ok j /\ split_into (E := E) idm j [pid; plink] = Ok [id; link].
Proof.
  intros Hid Hlink [Hff Hfs] Rid Rlink.
  assert (Hall : map_m (mf_scalar_fields (E := DomainError) idm) (pid ++ plink) = Ok (fid ++ flink)).
  { rewrite map_m_app, (Hid DomainError), (Hlink DomainError). done. }
  destruct (map_m_included _ _ (merge pid plink) _ Hall) as (zss & Hz & Hel); [intros x; by apply unique_eq_elem|].
  set (val := fun f => v ← get_field_value r names (sf_db_name f); Ok (f, v)).
  assert (Hval : forall fss rp, record_reads r names fss rp -> (forall a b, a ∈ mjoin fss -> b ∈ mjoin fss -> sf_name a = sf_name b -> a = b) ->
    forall f, f ∈ mjoin fss -> exists v, get_field_value r names (sf_db_name f) = Ok v).
  { intros fss rp Hr Hs f Hf. destruct (unique_by_key sf_name (mjoin fss) f Hf) as (g & Hg & He). assert (g = f) as -> by (apply Hs; [by eapply unique_by_elem|done|done]).
    apply map_m_Forall2 in Hr. clear -Hr Hg. induction Hr as [|a b l k Hab _ IH]; [by apply not_elem_of_nil in Hg|]. apply elem_of_cons in Hg as [->|Hg]; [|by apply IH].
    destruct (get_field_value r names (sf_db_name a)) as [v| |]; [by exists v|done..]. }
  assert (Hvals : forall f, f ∈ mjoin (fid ++ flink) -> exists v, val f = Ok (f, v)).
  { intros f Hf. pose proof Hf as Hf'. rewrite join_app in Hf'. unfold val. apply elem_of_app in Hf' as [Hf'|Hf'].
    - destruct (Hval fid id Rid ltac:(intros a b Ha Hb; apply Hfs; rewrite join_app; set_solver) f Hf') as [v ->]. by exists v.
    - destruct (Hval flink link Rlink ltac:(intros a b Ha Hb; apply Hfs; rewrite join_app; set_solver) f Hf') as [v ->]. by exists v. }
  destruct (map_m_ok val (mjoin zss)) as [j Hj]; [intros f Hf%Hel; destruct (Hvals f Hf) as [v ?]; by exists (f, v)|].
  assert (Hjel : forall f v, (f, v) ∈ j -> f ∈ mjoin (fid ++ flink) /\ val f = Ok (f, v)).
  { intros f v Hin. destruct (map_m_elem _ _ _ _ Hj Hin) as (g & Hg%Hel & Hv). destruct (Hvals g Hg) as [w Hw]. rewrite Hw in Hv. by injection Hv as -> ->. }
  assert (Hmap : forall f v, f ∈ mjoin (fid ++ flink) -> val f = Ok (f, v) ->
    foldl (fun m p => <[sf_name p.1 := p]> m) (∅ : gmap string (ScalarField * PrismaValue)) j !! sf_name f = Some (f, v)).
  { intros f v Hf Hv. apply mapped_lookup.
    - apply Hel in Hf. apply map_m_Forall2 in Hj. clear -Hj Hf Hv. induction Hj as [|a b l k Hab _ IH]; [by apply not_elem_of_nil in Hf|].
      apply elem_of_cons in Hf as [->|Hf]; [|set_solver]. rewrite Hv in Hab. injection Hab as <-. constructor.
    - intros g w Hgw He. destruct (Hjel g w Hgw) as [Hg Hw]. assert (g = f) as -> by (by apply Hfs). congruence. }
  assert (Hpart : forall fss rp, record_reads r names fss rp -> (forall f, f ∈ mjoin fss -> f ∈ mjoin (fid ++ flink)) ->
    map_m (E := E) (fun sf => unwrap "Error splitting RecordProjection: ModelProjection doesn't match."
      (foldl (fun m p => <[sf_name p.1 := p]> m) (∅ : gmap string (ScalarField * PrismaValue)) j !! sf_name sf)) (unique_by sf_name (mjoin fss)) = Ok rp).
  { intros fss rp Hr Hsub. unfold record_reads in Hr. fold val in Hr.
    assert (Hu : forall f, f ∈ unique_by sf_name (mjoin fss) -> f ∈ mjoin (fid ++ flink)) by (intros f Hf; apply Hsub; by eapply unique_by_elem).
    revert rp Hr. induction (unique_by sf_name (mjoin fss)) as [|f l IH]; intros rp; [by intros [= <-]|]. cbn [map_m].
    destruct (Hvals f (Hu f ltac:(constructor))) as [v Hv]. rewrite Hv. cbn [mbind outcome_bind]. destruct (map_m val l) as [k| |]; cbn [mbind outcome_bind]; [|done..]. intros [= <-].
    rewrite (Hmap f v (Hu f ltac:(constructor)) Hv). cbn [unwrap mbind outcome_bind]. rewrite (IH ltac:(set_solver) k eq_refl). done. }
  exists j. split.
  - unfold record_projection. rewrite Hz. exact Hj.
  - unfold split_into. cbn [map_m]. unfold mp_scalar_fields. rewrite (Hid E), (Hlink E). cbn [mbind outcome_bind].
    rewrite (Hpart fid id Rid) by (intros f Hf; rewrite join_app; set_solver). cbn [mbind outcome_bind].
    by rewrite (Hpart flink link Rlink) by (intros f Hf; rewrite join_app; set_solver).
Qed.
End parents.

Lemma Forall2_map_m {E A B} (f : A -> outcome E B) l k : Forall2 (fun x y => f x = Ok y) l k -> map_m f l = Ok k.
Proof. induction 1 as [|x y l k Hxy _ IH]; [done|]. cbn [map_m]. by rewrite Hxy, IH. Qed.

Lemma lift_value {S E A} (m : outcome E A) a (s : S) : m = Ok a -> lift m s = (Ok a, s).
Proof. by intros ->. Qed.

Section related.
Context `{VT : ValueTypes} {VO : ValueOrd VT} `{IT : Itertools} {GT : GraphTypes} {PG : Petgraph}.
Context (HVT : ValueTypesOk VT) (HVO : ValueOrdOk VT VO) (HVE : ValueEqOk VT VO).
Context {Db ConnectorError : Type} {RO : ReadOperations Db ConnectorError} (idm : InternalDataModel).
Abbreviation link_pairs := (fmap (fun p : RecordProjection * RecordProjection => (p.1, rp_values p.2))).
Lemma nested_page_fmap {A B} (f : A -> B) np l : f <$> nested_page np l = nested_page np (f <$> l).
Proof.
  unfold nested_page, page. assert (Hr : forall b (k : list A), f <$> reverse_if b k = reverse_if b (f <$> k)) by (intros []; [intros; apply fmap_reverse|done]).
  rewrite Hr, <-(Hr _ l), <-fmap_drop. destruct (np_take np); [|done]. by rewrite fmap_take.
Qed.
Lemma copies_have_parents {K} (eqb : K -> K -> bool) lk P fs rs : (forall p, p ∈ P -> rp_fields p.1 = fs) -> Forall (has_parent fs) (copies eqb lk P rs).
Proof.
  intros HP. apply Forall_forall. intros r (r0 & Hr & _)%list_elem_of_bind. apply list_elem_of_fmap in Hr as (p & -> & Hp). exists p. split; [done|].
  unfold values_for in Hp. apply list_elem_of_fmap in Hp as (x & -> & [Hx%list_elem_of_In _]%list_elem_of_In%List.filter_In). by apply HP.
Qed.
Lemma children_perm k l1 l2 : l1 ≡ₚ l2 -> children k l1 ≡ₚ children k l2.
Proof. apply iter_filter_perm. Qed.
(** With distinct ids, a record is related to a parent when it has its link. *)
Lemma related_link lk (parents : list (RecordProjection * RecordProjection)) id link r :
  distinct_by (fun a b => values_eqb (rp_values a.1) (rp_values b.1)) parents -> (id, link) ∈ parents ->
  related values_eqb lk (link_pairs parents) (rp_values id) r = values_eqb (rp_values link) (lk r).
Proof.
  intros Hd Hin. apply eq_true_iff_eq. unfold related. rewrite List.existsb_exists. split.
  - intros ([p v] & Hx%list_elem_of_In & [H1 H2]%andb_true_iff). apply list_elem_of_fmap in Hx as ([p' l'] & [= -> ->] & Hx). cbn [fst snd] in *.
    apply list_elem_of_lookup in Hin as [i Hi], Hx as [j Hj]. pose proof (Hd j i _ _ Hj Hi H1) as ->. rewrite Hi in Hj. by injection Hj as -> ->.
  - intros Hl. exists (id, rp_values link). split; [apply list_elem_of_In, list_elem_of_fmap; by exists (id, link)|]. cbn [fst snd]. rewrite Hl.
    by rewrite (proj1 (values_eqb_ok HVO HVE)).
Qed.
(** What the join of a relation that is no many-to-many relation rests on. *)
Record joined_relation (parent_field rel : RelationField) (pid plink clink : ModelProjection) (cfs : list ScalarField) (child_model : QueryModel) (on_parent : bool) : Prop := {
  jr_model : exists model, upgrade_model (E := InterpreterError ConnectorError) idm (rf_model parent_field) = Ok model /\
                           primary_identifier (E := InterpreterError ConnectorError) idm model = Ok pid;
  jr_plink : linking_fields (E := InterpreterError ConnectorError) idm parent_field = Ok plink;
  jr_related : related_field (E := InterpreterError ConnectorError) idm parent_field = Ok rel;
  jr_clink : linking_fields (E := InterpreterError ConnectorError) idm rel = Ok clink;
  jr_cfs : mp_scalar_fields (E := InterpreterError ConnectorError) idm clink = Ok cfs;
  jr_child : related_model (E := InterpreterError ConnectorError) idm parent_field = Ok child_model;
  jr_on_parent : relation_is_inlined_in_parent (E := InterpreterError ConnectorError) idm parent_field = Ok on_parent;
  jr_on_child : on_parent = false -> relation_is_inlined_in_parent (E := InterpreterError ConnectorError) idm rel = Ok true;
}.
Definition links_filter (cfs : list ScalarField) (vs : list (list PrismaValue)) : Filter :=
  FScalar (mkScalarFilter (ProjCompound cfs) (CondIn (PV_List <$> vs))).
(** The join itself, before pages are cut. *)
Lemma attach_one2m_ok parent_field rel pid plink clink cfs child_model on_parent lk lm parents fs scalars :
  joined_relation parent_field rel pid plink clink cfs child_model on_parent ->
  (forall v, assoc_find values_eqb v lm = non_empty (values_for values_eqb v (link_pairs parents))) ->
  distinct_by (fun a b => values_eqb (rp_values a.1) (rp_values b.1)) parents -> (forall p, p ∈ parents -> rp_fields p.1 = fs) ->
  Forall (link_read idm clink (mr_field_names scalars) rp_values lk) (records scalars) -> Forall (linked values_eqb lk (link_pairs parents)) (records scalars) ->
  (if on_parent then distinct_by (fun a b => values_eqb (lk a) (lk b)) (records scalars) else distinct_by (fun a b => values_eqb (rp_values a.2) (rp_values b.2)) parents) ->
  exists rs, attach_one2m (ConnectorError := ConnectorError) idm parent_field clink lm scalars = Ok rs /\ Forall (has_parent fs) rs /\
    forall id link, (id, link) ∈ parents ->
      rec_values <$> children (rp_values id) rs = rec_values <$> iter_filter (fun r => values_eqb (rp_values link) (lk r)) (records scalars).
Proof.
  intros J Hlm Hids Hfs Hlk Hlinked Hd. unfold attach_one2m. rewrite (jr_on_parent _ _ _ _ _ _ _ _ J). cbn [mbind outcome_bind].
  assert (Hpairs : distinct_by (pair_eqb values_eqb) (link_pairs parents)).
  { intros i j [p v] [q w] Hi Hj. rewrite list_lookup_fmap in Hi, Hj. destruct (parents !! i) as [x|] eqn:Ei; [|done]. destruct (parents !! j) as [y|] eqn:Ej; [|done].
    cbn in Hi, Hj. injection Hi as <- <-. injection Hj as <- <-. unfold pair_eqb. intros [H1 _]%andb_true_iff. exact (Hids i j x y Ei Ej H1). }
  assert (Hcp : forall p, p ∈ link_pairs parents -> rp_fields p.1 = fs) by (intros p (x & -> & Hx)%list_elem_of_fmap; by apply Hfs).
  assert (Hfilter : forall id link, (id, link) ∈ parents -> iter_filter (related values_eqb lk (link_pairs parents) (rp_values id)) (records scalars) =
      iter_filter (fun r => values_eqb (rp_values link) (lk r)) (records scalars)) by (intros id link Hin; apply List.filter_ext; intros r; by apply related_link).
  destruct on_parent.
  - destruct (attach_on_parent_copies HVO HVE (ConnectorError := ConnectorError) idm clink (mr_field_names scalars) lk (link_pairs parents) (records scalars) lm [] [])
      as (lm' & dn & ad & -> & Hp); [done..|]. cbn [mbind outcome_bind]. cbn [app] in Hp. eexists. split; [done|]. split; [rewrite Hp; by apply copies_have_parents|].
    intros id link Hin. apply perm_short.
    + rewrite <-(Hfilter id link Hin), <-(copies_children HVO HVE values_eqb (values_eqb_ok HVO HVE)) by done. by apply fmap_Permutation, children_perm.
    + rewrite length_fmap. apply filter_short. intros i j a b Hi Hj Ha Hb. apply (Hd i j a b Hi Hj). destruct (values_eqb_ok HVO HVE) as [_ Ht].
      by rewrite <-(Ht _ _ _ Ha).
  - rewrite (jr_related _ _ _ _ _ _ _ _ J). cbn [mbind outcome_bind]. rewrite (jr_on_child _ _ _ _ _ _ _ _ J eq_refl). cbn [mbind outcome_bind].
    rewrite (jr_clink _ _ _ _ _ _ _ _ J). cbn [mbind outcome_bind].
    rewrite (attach_on_child_copies HVO HVE (ConnectorError := ConnectorError) idm clink (mr_field_names scalars) lk lm (link_pairs parents)); [|done|done| |done].
    + eexists. split; [done|]. split; [by apply copies_have_parents|]. intros id link Hin. rewrite <-(Hfilter id link Hin). by apply (copies_children HVO HVE), Hpairs; apply values_eqb_ok.
    + intros i j [p v] [q w] Hi Hj. rewrite list_lookup_fmap in Hi, Hj. destruct (parents !! i) as [x|] eqn:Ei; [|done]. destruct (parents !! j) as [y|] eqn:Ej; [|done].
      cbn in Hi, Hj. injection Hi as <- <-. injection Hj as <- <-. intros H1. exact (Hd i j x y Ei Ej H1).
Qed.
Definition has_null (vs : list PrismaValue) : bool := iter_any (value_eqb PV_Null) vs.
Definition link_values_of (parents : list (RecordProjection * RecordProjection)) (vs : list (list PrismaValue)) : Prop :=
  (forall v, v ∈ vs -> has_null v = false /\ exists p, p ∈ parents /\ rp_values p.2 = v) /\
  (forall p, p ∈ parents -> has_null (rp_values p.2) = false -> exists v, v ∈ vs /\ values_eqb v (rp_values p.2) = true).
Lemma has_null_ext a b : values_eqb a b = true -> has_null a = has_null b.
Proof.
  revert b. induction a as [|x a IH]; intros [|y b]; try done. unfold values_eqb. cbn. intros [Hx Ha]%andb_true_iff. change (value_eqb PV_Null x || has_null a = value_eqb PV_Null y || has_null b).
  rewrite (IH b Ha). f_equal.
  pose proof (value_eqb_ok HVT HVO HVE) as Hok. rewrite (eqb_ok_sym _ PV_Null x Hok), (proj2 Hok x y PV_Null Hx). by apply eqb_ok_sym.
Qed.
(** The page of the arguments is in the range of the integers it is computed with. *)
Definition page_in_range (a : QueryArguments) : Prop :=
  (0 <= default 0%Z (qa_skip a))%Z /\ forall t, qa_take a = Some t -> (- 2 ^ 63 < t)%Z /\ (Z.abs t + default 0%Z (qa_skip a) < 2 ^ 63)%Z.
Lemma page_in_range_bounds a : page_in_range a -> page_bounds (new_from_query_args a).
Proof.
  intros [Hs Ht]. split; [done|]. intros t. unfold new_from_query_args, take_abs, skipped. cbn. destruct (qa_take a) as [t0|]; [|done]. cbn. intros [= <-].
  destruct (Ht t0 eq_refl) as [H1 H2]. destruct (Z.ltb_spec t0 0); [|lia]. unfold wrap64. rewrite Z.mod_small; lia.
Qed.
Lemma page_in_range_window {A} a (l : list A) : page_in_range a ->
  nested_page (new_from_query_args a) l = window (qa_take a) (default 0%Z (qa_skip a)) l.
Proof. intros [Hs Ht]. apply nested_page_window; intros t Et; destruct (Ht t Et); lia. Qed.
(** Where the ids and links of the parents come from: they are split from the
    projections the query carries, or read off the records of the enclosing
    query, as for every nested selection. *)
Inductive parents_from (pid plink : ModelProjection) : option (list RecordProjection) -> option ManyRecords -> list (RecordProjection * RecordProjection) -> Prop :=
| parents_given js pr parents : Forall2 (splits (ConnectorError := ConnectorError) idm [pid; plink]) js parents -> parents_from pid plink (Some js) pr parents
| parents_read res parents fid flink : scalars_of idm pid fid -> scalars_of idm plink flink -> fields_by_name (pid ++ plink) (fid ++ flink) ->
    Forall2 (fun r p => record_reads r (mr_field_names res) fid p.1 /\ record_reads r (mr_field_names res) flink p.2) (records res) parents ->
    parents_from pid plink None (Some res) parents.
Lemma parents_projected (HIT : ItertoolsOk IT) pid plink pp pr parents : parents_from pid plink pp pr parents -> exists js,
  Forall2 (splits (ConnectorError := ConnectorError) idm [pid; plink]) js parents /\
  match pp with
  | Some projections => Ok projections
  | None => result ← unwrap no_parent_results pr; of_domain (ConnectorError := ConnectorError) (projections idm result (Projections.merge pid plink))
  end = Ok js.
Proof.
  intros [js pr' parents' HF|res parents' fid flink Hid Hlink Hby HF]; [by exists js|]. cbn [unwrap mbind outcome_bind]. unfold projections.
  assert (Hall : exists js, Forall2 (splits (ConnectorError := ConnectorError) idm [pid; plink]) js parents' /\
    map_m (fun r => record_projection idm r (mr_field_names res) (Projections.merge pid plink)) (records res) = Ok js).
  { induction HF as [|r [i l] rs ps [H1 H2] _ (js & HF' & Hm)]; [by exists []|].
    destruct (merged_reads HIT idm (E := InterpreterError ConnectorError) r (mr_field_names res) pid plink fid flink i l Hid Hlink Hby H1 H2) as (j & Hj & Hs).
    exists (j :: js). split; [by constructor|]. cbn [map_m]. by rewrite Hj, Hm. }
  destruct Hall as (js & HF' & ->). by exists js.
Qed.

(** C25: Reading the records related to several parents by a relation that is not many-to-many, with the parents taken from the records of the enclosing query (as every nested selection does) or given with the query, asks the connection for the records whose link is among those of the parents, and gives every parent its own page: the children of a parent are the records with the parent's link, in the order they were read, cut to the page that was asked for. Conditions: fields of the parents' id and link with one name are one field; the ids of the parents are distinct and over the same fields; every record that is read has a link that was asked for; and the links of the records that are read are distinct when the relation is inlined on the parents (a second record with the same link would take the parents of the first), those of the parents when it is inlined on the children. *)
Theorem one2m_gives_pages (HIT : ItertoolsOk IT) parent_field rel pid plink clink cfs child_model on_parent pp pr parents fs args page_args sel db :
  joined_relation parent_field rel pid plink clink cfs child_model on_parent -> parents_from pid plink pp pr parents ->
  distinct_by (fun a b => values_eqb (rp_values a.1) (rp_values b.1)) parents -> (forall p, p ∈ parents -> rp_fields p.1 = fs) ->
  page_in_range page_args ->
  exists vs, link_values_of parents vs /\ forall scalars db' lk,
    op_get_many_records child_model (and_filter (links_filter cfs vs) args) sel db = (Ok scalars, db') ->
    Forall (link_read idm clink (mr_field_names scalars) rp_values lk) (records scalars) ->
    (forall r, r ∈ records scalars -> exists v, v ∈ vs /\ values_eqb v (lk r) = true) ->
    (if on_parent then distinct_by (fun a b => values_eqb (lk a) (lk b)) (records scalars) else distinct_by (fun a b => values_eqb (rp_values a.2) (rp_values b.2)) parents) ->
    exists m, one2m (ConnectorError := ConnectorError) idm parent_field pp pr args sel (new_from_query_args page_args) db = (Ok m, db') /\
      forall id link, (id, link) ∈ parents -> rec_values <$> children (rp_values id) (records m) =
        window (qa_take page_args) (default 0%Z (qa_skip page_args)) (rec_values <$> iter_filter (fun r => values_eqb (rp_values link) (lk r)) (records scalars)).
Proof.
  intros J Hfrom Hids Hfs Hpage. destruct (parents_projected HIT _ _ _ _ _ Hfrom) as (js & HF & Hjs). destruct (map_links_ok HVT HVO HVE (ConnectorError := ConnectorError) idm [pid; plink] js parents HF) as (lm & uniq & Hmap & Hlm & Hu1 & Hu2).
  exists (iter_filter (fun p => negb (has_null p)) uniq). split.
  { split.
    - intros v [Hv%list_elem_of_In Hn%negb_true_iff]%list_elem_of_In%List.filter_In. auto.
    - intros p Hp Hn. destruct (Hu2 p Hp) as (v & Hv & Hve). exists v. split; [|done]. apply list_elem_of_In, List.filter_In. split; [by apply list_elem_of_In|].
      by rewrite (has_null_ext _ _ Hve), Hn. }
  intros scalars db' lk Hop Hlk Hin Hd.
  assert (Hlinked : Forall (linked values_eqb lk (link_pairs parents)) (records scalars)).
  { apply Forall_forall. intros r Hr. destruct (Hin r Hr) as (v & [Hv%list_elem_of_In _]%list_elem_of_In%List.filter_In & Hve). destruct (Hu1 v Hv) as (p & Hp & <-).
    unfold linked, values_for. intros Hnil%fmap_nil_inv. assert (Hx : (p.1, rp_values p.2) ∈ iter_filter (fun q : RecordProjection * list PrismaValue => values_eqb q.2 (lk r)) (link_pairs parents)).
    { apply list_elem_of_In, List.filter_In. split; [|done]. apply list_elem_of_In, list_elem_of_fmap. by exists p. }
    rewrite Hnil in Hx. by apply not_elem_of_nil in Hx. }
  destruct (attach_one2m_ok _ _ _ _ _ _ _ _ lk lm parents fs scalars J Hlm Hids Hfs Hlk Hlinked Hd) as (rs & Hrs & Hpar & Hch).
  destruct (apply_pagination_ok HVT HVO HVE (E := InterpreterError ConnectorError) (new_from_query_args page_args) fs (mkManyRecords rs (mr_field_names scalars)) Hpar (page_in_range_bounds _ Hpage)) as (m & Hm & _ & Hk).
  exists m. split; [|intros id link Hil; rewrite Hk, nested_page_fmap, page_in_range_window by done; cbn [records]; by rewrite (Hch id link Hil)].
  destruct J as [(model & Hmodel & Hpid) Hplink Hrel Hclink Hcfs Hchild _ _]. unfold one2m.
  assert (Hread : match pp with
    | Some projections => mret projections
    | None => lift (let extractor := Projections.merge pid plink in
        result ← unwrap no_parent_results pr; of_domain (ConnectorError := ConnectorError) (projections idm result extractor))
    end db = (Ok js, db)) by (destruct pp; [by injection Hjs as ->|]; unfold lift; cbv zeta; by rewrite Hjs).
  do 5 (erewrite eff_bind_Ok; [|apply lift_value; eassumption]). rewrite (eff_bind_Ok _ _ _ _ _ Hread). unfold mbind, eff_bind, lift. rewrite Hmap. unfold mp_is_in, mp_compare. rewrite Hcfs. cbn [mbind outcome_bind]. rewrite Hchild.
  unfold of_connector, eff_map_err. unfold links_filter in Hop. unfold has_null in Hop. rewrite Hop. cbn [map_err]. rewrite Hrs. by rewrite Hm.
Qed.
(** The ids of the parents of a many-to-many read: given with the query, or read
    off the records of the enclosing query. *)
Definition m2m_parents (query : RelatedRecordsQuery ReadQuery) (pr : option ManyRecords) (ps : list RecordProjection) : Prop :=
  match rrq_parent_projections query with
  | Some links => ps = links
  | None => exists model pid res, upgrade_model (E := InterpreterError ConnectorError) idm (rf_model (rrq_parent_field query)) = Ok model /\
      primary_identifier (E := InterpreterError ConnectorError) idm model = Ok pid /\ pr = Some res /\
      Forall2 (fun r p => record_projection idm r (mr_field_names res) pid = Ok p) (records res) ps
  end.
(** C26: Reading the records related to several parents by a many-to-many relation, with the parents taken from the records of the enclosing query (as every nested selection does) or given with the query, gives every parent a page of its own children: the children of a parent are the records the join table connects it with, each once, though in an order of their own, and the page is cut in that order. Conditions: no record is read twice and each is connected to some parent (the code panics otherwise); the join table has no pair twice; and the parents' ids are over the same fields. *)
Theorem m2m_gives_children (query : RelatedRecordsQuery ReadQuery) rel clink cfs child_model cid pr ps ids child_values scalars fs lk page_args db db1 db2 :
  related_field (E := InterpreterError ConnectorError) idm (rrq_parent_field query) = Ok rel ->
  linking_fields (E := InterpreterError ConnectorError) idm rel = Ok clink -> mp_scalar_fields (E := InterpreterError ConnectorError) idm clink = Ok cfs ->
  related_model (E := InterpreterError ConnectorError) idm (rrq_parent_field query) = Ok child_model ->
  primary_identifier (E := InterpreterError ConnectorError) idm child_model = Ok cid -> m2m_parents query pr ps ->
  op_get_related_m2m_record_ids (rrq_parent_field query) ps db = (Ok ids, db1) ->
  map_m (fun ri : RecordProjection * RecordProjection => proj ← assimilate idm cid ri.2; Ok (rp_values proj)) ids = Ok child_values ->
  op_get_many_records child_model (and_filter (links_filter cfs child_values) (rrq_args query)) (rrq_selected_fields query) db1 = (Ok scalars, db2) ->
  Forall (link_read idm cid (mr_field_names scalars) (fun r => r) lk) (records scalars) ->
  distinct_by (fun a b => RecordProjection_eqb (lk a) (lk b)) (records scalars) -> Forall (linked RecordProjection_eqb lk ids) (records scalars) ->
  distinct_by (pair_eqb RecordProjection_eqb) ids -> (forall p, p ∈ ids -> rp_fields p.1 = fs) -> page_in_range page_args ->
  exists m, m2m (ConnectorError := ConnectorError) idm query pr (new_from_query_args page_args) db = (Ok m, db2) /\
    forall k, exists l, l ≡ₚ rec_values <$> iter_filter (related RecordProjection_eqb lk ids k) (records scalars) /\
      rec_values <$> children k (records m) = window (qa_take page_args) (default 0%Z (qa_skip page_args)) l.
Proof.
  intros Hrel Hclink Hcfs Hcm Hcid Hps Hids Hcv Hop Hlk Hd Hlinked Hpairs Hfs Hpage.
  destruct (attach_m2m_copies HVT HVO HVE (ConnectorError := ConnectorError) idm cid (mr_field_names scalars) lk ids (records scalars)
    (foldl (fun m p => assoc_push RecordProjection_eqb p.2 p.1 m) [] ids) [] []) as (im & dn & ad & Hatt & Hp); [done|done|done| |].
  { intros r _. apply assoc_find_pushed, (RecordProjection_eqb_ok HVT HVO HVE). }
  cbn [app] in Hp. assert (Hpar : Forall (has_parent fs) (dn ++ ad)) by (rewrite Hp; by apply copies_have_parents).
  destruct (apply_pagination_ok HVT HVO HVE (E := InterpreterError ConnectorError) (new_from_query_args page_args) fs (mkManyRecords (dn ++ ad) (mr_field_names scalars)) Hpar
    (page_in_range_bounds _ Hpage)) as (m & Hm & _ & Hk).
  exists m. split.
  - assert (Hcv' : map_m (fun ri : RecordProjection * RecordProjection => proj ← of_domain (ConnectorError := ConnectorError) (assimilate idm cid ri.2); Ok (rp_values proj)) ids = Ok child_values).
    { revert child_values Hcv Hop. clear. intros cv Hcv _. revert cv Hcv. induction ids as [|i ids IH]; intros cv; [by intros [= <-]|]. cbn [map_m].
      destruct (assimilate idm cid i.2); [|done..]. cbn [of_domain map_err mbind outcome_bind]. destruct (map_m _ ids) as [vs| |]; [|done..].
      cbn [mbind outcome_bind]. intros [= <-]. by rewrite (IH vs eq_refl). }
    assert (Hread : match rrq_parent_projections query with
      | Some links => mret links
      | None => lift (model ← upgrade_model idm (rf_model (rrq_parent_field query)); parent_model_id ← primary_identifier idm model;
                      result ← unwrap no_parent_results pr; of_domain (ConnectorError := ConnectorError) (projections idm result parent_model_id))
      end db = (Ok ps, db)).
    { unfold m2m_parents in Hps. destruct (rrq_parent_projections query) as [links|]; [by rewrite Hps|]. destruct Hps as (model & pid & res & Hmod & Hpid & -> & HF).
      unfold lift. rewrite Hmod. cbn [mbind outcome_bind]. rewrite Hpid. cbn [unwrap mbind outcome_bind]. unfold projections. by rewrite (Forall2_map_m _ _ _ HF). }
    unfold m2m. do 2 (erewrite eff_bind_Ok; [|apply lift_value; eassumption]). rewrite (eff_bind_Ok _ _ _ _ _ Hread). unfold mbind, eff_bind, lift. unfold of_connector, eff_map_err. rewrite Hids. cbn [map_err].
    rewrite Hcm, Hcid. unfold mbind in Hcv'. rewrite Hcv'. unfold mp_is_in, mp_compare. rewrite Hcfs. cbn [mbind outcome_bind].
    unfold links_filter in Hop. rewrite Hop. cbn [map_err]. rewrite Hatt. by rewrite Hm.
  - intros k. exists (rec_values <$> children k (dn ++ ad)). rewrite Hk, nested_page_fmap, page_in_range_window by done. split; [|done].
    rewrite <-(copies_children HVO HVE RecordProjection_eqb (RecordProjection_eqb_ok HVT HVO HVE)) by done. by apply fmap_Permutation, children_perm.
Qed.
End related.

(** * Examples of nested reads: a blog *)
(** Both sides of an equation are computed by the kernel's virtual machine. *)
Ltac vm_refl := match goal with |- _ = ?b => vm_cast_no_check (@eq_refl _ b) end.
#[local] Existing Instance sample_values.
#[local] Existing Instance sample_itertools.
Definition blog_idm : InternalDataModel := Eval vm_compute in
  match t ← Convert.convert (IT := sample_itertools) (E := DomainError) (mkDatamodel [] [mkModel "User" [id_field; relation_field "posts" "Post" ListField [] [] "PostToUser"] None None false [] [] false false; calc_post; calc_tag]);
    InternalDataModelTemplate_build t "db" with
  | Ok idm => idm
  | _ => empty_idm
  end.
Definition blog_model (name : string) : QueryModel := default user_qm (iter_find (fun m => qm_name m ≟ name) (idm_models blog_idm)).
Definition blog_field (model name : string) : ScalarField := default no_field (iter_find (fun sf => sf_name sf ≟ name) (scalar (qm_fields (blog_model model)))).
Definition no_relation : RelationField := mkRelationField EmptyString false false false false EmptyString SideA (mkRelationInfo EmptyString [] [] EmptyString OnDeleteNone) EmptyString false.
Definition blog_relation (model name : string) : RelationField := default no_relation (iter_find (fun rf => rf_name rf ≟ name) (relation_fields_of (qm_fields (blog_model model)))).
Lemma sample_value_eq_ok : ValueEqOk sample_values sample_order.
Proof.
  split; cbn.
  - intros x y. by rewrite bool_decide_eq_true, string_cmp_eq.
  - intros x y. by rewrite bool_decide_eq_true, Z.compare_eq_iff.
  - intros x y. unfold sample_decimal_eqb, sample_decimal_cmp. by rewrite bool_decide_eq_true, Z.compare_eq_iff.
Qed.

(** ** A connection with fixed answers *)
Definition fixed_connection (rows : list (list PrismaValue)) (names : list string) (ids : list (RecordProjection * RecordProjection)) : ReadOperations unit string := {|
  op_get_single_record _ _ _ := mret None;
  op_get_many_records _ _ _ := mret (mkManyRecords (Record_new <$> rows) names);
  op_get_related_m2m_record_ids _ _ := mret ids;
  op_count_by_model _ _ := mret 0;
|}.
Definition page_args (take skip : option Z) : QueryArguments := mkQueryArguments None take skip None None.

(** ** Users and their posts *)
Definition user_posts : RelationField := Eval vm_compute in blog_relation "User" "posts".
Definition post_author : RelationField := Eval vm_compute in blog_relation "Post" "author".
Definition blog_user_id : ScalarField := Eval vm_compute in blog_field "User" "id".
Definition post_id : ScalarField := Eval vm_compute in blog_field "Post" "id".
Definition author_id : ScalarField := Eval vm_compute in blog_field "Post" "authorId".
Definition user_key (n : Z) : RecordProjection := [(blog_user_id, PV_Int n)].
Definition post_row (id author : Z) : list PrismaValue := [PV_Int id; PV_Int author].
Definition post_rows : list (list PrismaValue) := [post_row 1 1; post_row 2 2; post_row 3 1; post_row 4 1].
Definition posts_connection : ReadOperations unit string := fixed_connection post_rows ["id"; "authorId"] [].
Definition post_link (r : DbRecord) : list PrismaValue := drop 1 (rec_values r).
Lemma posts_joined : joined_relation (ConnectorError := string) blog_idm user_posts post_author [FieldScalar blog_user_id] [FieldScalar blog_user_id]
  [FieldRelation post_author] [author_id] (blog_model "Post") false.
Proof. split; [exists (blog_model "User"); split|..]; intros; vm_refl. Qed.
Definition blog_users : list (RecordProjection * RecordProjection) := [(user_key 1, user_key 1); (user_key 2, user_key 2)].
Definition post_records : list DbRecord := Record_new <$> post_rows.
Definition second_post : QueryArguments := page_args (Some 1%Z) (Some 1%Z).
Definition users_read : ManyRecords := mkManyRecords (Record_new <$> [[PV_Int 1]; [PV_Int 2]]) ["id"].
Lemma blog_users_read : parents_from (ConnectorError := string) blog_idm [FieldScalar blog_user_id] [FieldScalar blog_user_id] None (Some users_read) blog_users.
Proof.
  assert (Hs : scalars_of blog_idm [FieldScalar blog_user_id] [[blog_user_id]]) by (intros E; reflexivity).
  apply (parents_read _ _ _ _ _ [[blog_user_id]] [[blog_user_id]] Hs Hs).
  - split; cbn; intros a b Ha Hb _; repeat (apply elem_of_cons in Ha as [->|Ha]; [repeat (apply elem_of_cons in Hb as [->|Hb]; [done|]); by apply not_elem_of_nil in Hb|]); by apply not_elem_of_nil in Ha.
  - repeat constructor; vm_refl.
Qed.
Lemma blog_users_distinct : distinct_by (fun a b => values_eqb (rp_values a.1) (rp_values b.1)) blog_users.
Proof. by intros [|[|i]] [|[|j]] x y [= <-] [= <-]. Qed.
Lemma blog_links_distinct : distinct_by (fun a b => values_eqb (rp_values a.2) (rp_values b.2)) blog_users.
Proof. by intros [|[|i]] [|[|j]] x y [= <-] [= <-]. Qed.
Lemma blog_users_fields p : p ∈ blog_users -> rp_fields p.1 = [blog_user_id].
Proof. intros Hp. repeat (apply elem_of_cons in Hp as [->|Hp]; [done|]). by apply not_elem_of_nil in Hp. Qed.
Lemma second_post_in_range : page_in_range second_post.
Proof. split; [cbn; lia|]. intros t [= <-]. cbn. lia. Qed.
Lemma post_links_read : Forall (link_read blog_idm [FieldRelation post_author] ["id"; "authorId"] rp_values post_link) post_records.
Proof.
  assert (Hr : forall id a, link_read blog_idm [FieldRelation post_author] ["id"; "authorId"] rp_values post_link (Record_new (post_row id a))).
  { intros id a. exists [(author_id, PV_Int a)]. split; reflexivity. }
  repeat (constructor; [apply Hr|]). constructor.
Qed.
Lemma post_links_known vs : link_values_of blog_users vs -> forall r, r ∈ post_records -> exists v, v ∈ vs /\ values_eqb v (post_link r) = true.
Proof.
  intros [_ Hvs]. destruct (Hvs (user_key 1, user_key 1)) as (v1 & Hv1 & E1); [constructor|reflexivity|].
  destruct (Hvs (user_key 2, user_key 2)) as (v2 & Hv2 & E2); [do 2 constructor|reflexivity|].
  intros r Hr. repeat (apply elem_of_cons in Hr as [->|Hr]); [by exists v1|by exists v2|by exists v1|by exists v1|by apply not_elem_of_nil in Hr].
Qed.
Lemma one2m_gives_pages_witness : exists m,
  one2m (RO := posts_connection) (ConnectorError := string) blog_idm user_posts None (Some users_read) (page_args None None)
    [FieldScalar post_id; FieldScalar author_id] (new_from_query_args second_post) tt = (Ok m, tt) /\
  rec_values <$> children [PV_Int 1] (records m) = [post_row 3 1] /\ rec_values <$> children [PV_Int 2] (records m) = [].
Proof.
  destruct (one2m_gives_pages sample_values_ok sample_order_ok sample_value_eq_ok (RO := posts_connection) (ConnectorError := string) blog_idm sample_itertools_ok
    user_posts post_author [FieldScalar blog_user_id] [FieldScalar blog_user_id] [FieldRelation post_author] [author_id] (blog_model "Post") false
    None (Some users_read) blog_users [blog_user_id] (page_args None None) second_post [FieldScalar post_id; FieldScalar author_id] tt
    posts_joined blog_users_read blog_users_distinct blog_users_fields second_post_in_range) as (vs & Hvs & Hall).
  destruct (Hall (mkManyRecords post_records ["id"; "authorId"]) tt post_link eq_refl post_links_read (post_links_known vs Hvs) blog_links_distinct) as (m & Hm & Hch).
  exists m. split; [exact Hm|]. split.
  - exact (Hch (user_key 1) (user_key 1) (list_elem_of_here _ _)).
  - exact (Hch (user_key 2) (user_key 2) (list_elem_of_further _ _ _ (list_elem_of_here _ _))).
Defined.

(** ** Posts and their tags *)
Definition post_tags : RelationField := Eval vm_compute in blog_relation "Post" "tags".
Definition tag_posts : RelationField := Eval vm_compute in blog_relation "Tag" "posts".
Definition tag_word : ScalarField := Eval vm_compute in blog_field "Tag" "word".
Definition post_key (n : Z) : RecordProjection := [(post_id, PV_Int n)].
Definition tag_key (w : string) : RecordProjection := [(tag_word, PV_String w)].
(** The first post has both tags, the second one the first tag. *)
Definition tagged : list (RecordProjection * RecordProjection) := [(post_key 1, tag_key "a"); (post_key 2, tag_key "a"); (post_key 1, tag_key "b")].
Definition tag_records : list DbRecord := Record_new <$> [[PV_String "a"]; [PV_String "b"]].
Definition tags_connection : ReadOperations unit string := fixed_connection [[PV_String "a"]; [PV_String "b"]] ["word"] tagged.
Definition tags_query (a : QueryArguments) : RelatedRecordsQuery ReadQuery :=
  mkRelatedRecordsQuery "tags" None post_tags a [FieldScalar tag_word] [] ["word"] None.
Definition posts_read : ManyRecords := mkManyRecords (Record_new <$> [[PV_Int 1]; [PV_Int 2]]) ["id"].
Definition read_tags (take : option Z) : outcome (InterpreterError string) ManyRecords * unit :=
  m2m (RO := tags_connection) blog_idm (tags_query (page_args None None)) (Some posts_read) (new_from_query_args (page_args take None)) tt.
Definition tag_link (r : DbRecord) : RecordProjection := (fun v => (tag_word, v)) <$> rec_values r.
Lemma tag_links_read : Forall (link_read blog_idm [FieldScalar tag_word] ["word"] (fun r => r) tag_link) tag_records.
Proof.
  assert (Hr : forall w, link_read blog_idm [FieldScalar tag_word] ["word"] (fun r => r) tag_link (Record_new [PV_String w])) by (intros w; by exists [(tag_word, PV_String w)]).
  repeat (constructor; [apply Hr|]). constructor.
Qed.
Lemma tags_distinct : distinct_by (fun a b => RecordProjection_eqb (tag_link a) (tag_link b)) tag_records.
Proof. by intros [|[|i]] [|[|j]] x y [= <-] [= <-]. Qed.
Lemma tags_linked : Forall (linked RecordProjection_eqb tag_link tagged) tag_records.
Proof. repeat constructor; discriminate. Qed.
Lemma tagged_distinct : distinct_by (pair_eqb RecordProjection_eqb) tagged.
Proof. by intros [|[|[|i]]] [|[|[|j]]] x y [= <-] [= <-]. Qed.
Lemma tagged_fields p : p ∈ tagged -> rp_fields p.1 = [post_id].
Proof. intros Hp. repeat (apply elem_of_cons in Hp as [->|Hp]; [done|]). by apply not_elem_of_nil in Hp. Qed.
Lemma first_tag_in_range : page_in_range (page_args (Some 1%Z) None).
Proof. split; [cbn; lia|]. intros t [= <-]. cbn. lia. Qed.
Lemma tags_scalars : mp_scalar_fields (E := InterpreterError string) blog_idm [FieldScalar tag_word] = Ok [tag_word].
Proof. vm_refl. Qed.
Lemma tags_assimilated : map_m (fun ri : RecordProjection * RecordProjection => proj ← assimilate blog_idm [FieldScalar tag_word] ri.2; Ok (rp_values proj)) tagged =
  Ok [[PV_String "a"]; [PV_String "a"]; [PV_String "b"]].
Proof. vm_refl. Qed.
Lemma posts_are_parents : m2m_parents (ConnectorError := string) blog_idm (tags_query (page_args None None)) (Some posts_read) [post_key 1; post_key 2].
Proof. exists (blog_model "Post"), [FieldScalar post_id], posts_read. split_and!; [vm_refl|vm_refl|done|]. repeat constructor; vm_refl. Qed.
Lemma m2m_gives_children_witness : exists m l, read_tags (Some 1%Z) = (Ok m, tt) /\ l ≡ₚ [[PV_String "a"]; [PV_String "b"]] /\
  rec_values <$> children [PV_Int 1] (records m) = window (Some 1%Z) 0 l.
Proof.
  destruct (m2m_gives_children sample_values_ok sample_order_ok sample_value_eq_ok (RO := tags_connection) (ConnectorError := string) blog_idm (tags_query (page_args None None))
    tag_posts [FieldScalar tag_word] [tag_word] (blog_model "Tag") [FieldScalar tag_word] (Some posts_read) [post_key 1; post_key 2] tagged
    [[PV_String "a"]; [PV_String "a"]; [PV_String "b"]] (mkManyRecords tag_records ["word"]) [post_id] tag_link (page_args (Some 1%Z) None) tt tt tt
    eq_refl eq_refl tags_scalars eq_refl eq_refl posts_are_parents eq_refl tags_assimilated eq_refl tag_links_read tags_distinct tags_linked tagged_distinct tagged_fields first_tag_in_range)
    as (m & Hm & Hk).
  destruct (Hk [PV_Int 1]) as (l & Hl & Hw). exists m, l. split; [exact Hm|]. split; [exact Hl|exact Hw].
Defined.

(** The children of a many-to-many relation lose the order they were read in: a record goes to its last parent at once and to the others at the end. A page is cut from the changed order: with the tags a and b read in this order, the first post gets b before a, and only b when one tag is asked for. *)
Theorem m2m_order_lost :
  (m ← (read_tags None).1; Ok (rec_values <$> children [PV_Int 1] (records m))) = Ok [[PV_String "b"]; [PV_String "a"]] /\
  (m ← (read_tags (Some 1%Z)).1; Ok (rec_values <$> children [PV_Int 1] (records m))) = Ok [[PV_String "b"]].
Proof. split; vm_refl. Qed.
