(* ===== verification/InterpretFacts.v ===== *)
(** * Interpretation finds the bindings it needs *)
From S2P Require Import Prelude Effects SqlSchema Dml Converter Models Projections Filters SqlRead QueryAst QueryGraph NestedRead Interpreter.

(** ** Lookups in the models panic or answer, they return no error *)
Definition never_err {E A} (m : outcome E A) : Prop := forall e, m <> Err e.
Create HintDb noerr discriminated.
Section never_err.
Context {E : Type}.
Lemma ne_ok {A} (a : A) : never_err (E := E) (Ok a).
Proof. by intros e. Qed.
Lemma ne_panic {A} msg : never_err (E := E) (A := A) (Panic msg).
Proof. by intros e. Qed.
Lemma ne_bind {A B} (m : outcome E A) (f : A -> outcome E B) : never_err m -> (forall a, never_err (f a)) -> never_err (m ≫= f).
Proof. intros Hm Hf e. destruct m; cbn; [apply Hf|by intros ?; apply (Hm e0)|done]. Qed.
Lemma ne_unwrap {A} msg (o : option A) : never_err (E := E) (unwrap msg o).
Proof. by destruct o. Qed.
Lemma ne_map_m {A B} (f : A -> outcome E B) l : (forall a, never_err (f a)) -> never_err (map_m f l).
Proof. intros Hf. induction l as [|a l IH]; [by apply ne_ok|]. cbn [map_m]. apply ne_bind; [apply Hf|]. intros b. apply ne_bind; [exact IH|]. intros bs. apply ne_ok. Qed.
Lemma ne_find_m {A} (f : A -> outcome E bool) l : (forall a, never_err (f a)) -> never_err (find_m f l).
Proof. intros Hf. induction l as [|a l IH]; [by apply ne_ok|]. cbn [find_m]. apply ne_bind; [apply Hf|]. intros []; [apply ne_ok|exact IH]. Qed.
Lemma ne_unwrap_result {F A} (m : outcome F A) : never_err (E := E) (Models.unwrap_result m).
Proof. destruct m; cbn; [apply ne_ok|apply ne_panic|apply ne_panic]. Qed.
End never_err.
#[export] Hint Resolve ne_ok ne_panic ne_unwrap ne_unwrap_result : noerr.
#[export] Hint Extern 2 (never_err (_ ≫= _)) => apply ne_bind : noerr.
#[export] Hint Extern 2 (never_err (map_m _ _)) => apply ne_map_m : noerr.
#[export] Hint Extern 2 (never_err (find_m _ _)) => apply ne_find_m : noerr.
#[export] Hint Extern 3 (never_err (match ?x with _ => _ end)) => destruct x : noerr.
#[export] Hint Extern 1 (forall _, never_err _) => intro : noerr.
Ltac noerr := auto 20 with noerr.
Section lookups.
Context `{VT : ValueTypes} {VO : ValueOrd VT} `{IT : Itertools} {E : Type} (idm : InternalDataModel).
Lemma ne_upgrade_model n : never_err (E := E) (upgrade_model idm n).
Proof. unfold upgrade_model. noerr. Qed.
Lemma ne_rf_relation rf : never_err (E := E) (rf_relation idm rf).
Proof. unfold rf_relation. noerr. Qed.
Lemma ne_field_a r : never_err (E := E) (field_a_of idm r).
Proof. unfold field_a_of, model_a_of. noerr. Qed.
Lemma ne_field_b r : never_err (E := E) (field_b_of idm r).
Proof. unfold field_b_of, model_b_of. noerr. Qed.
Lemma ne_many_to_many r : never_err (E := E) (is_many_to_many idm r).
Proof. unfold is_many_to_many. pose proof ne_field_a. pose proof ne_field_b. noerr. Qed.
Lemma ne_related_model rf : never_err (E := E) (related_model idm rf).
Proof. unfold related_model, model_a_of, model_b_of. pose proof ne_rf_relation. noerr. Qed.
Lemma ne_related_field rf : never_err (E := E) (related_field idm rf).
Proof. unfold related_field. pose proof ne_rf_relation. pose proof ne_field_a. pose proof ne_field_b. noerr. Qed.
Lemma ne_inlined rf : never_err (E := E) (relation_is_inlined_in_parent idm rf).
Proof. unfold relation_is_inlined_in_parent. pose proof ne_rf_relation. pose proof ne_upgrade_model. noerr. Qed.
Lemma ne_rf_scalar_fields rf : never_err (E := E) (rf_scalar_fields idm rf).
Proof. unfold rf_scalar_fields. pose proof ne_upgrade_model. noerr. Qed.
Lemma ne_mp_scalar_fields p : never_err (E := E) (mp_scalar_fields idm p).
Proof. unfold mp_scalar_fields, mf_scalar_fields. pose proof ne_rf_scalar_fields. noerr. Qed.
Lemma ne_mp_matches p id : never_err (E := E) (mp_matches idm p id).
Proof. unfold mp_matches. pose proof ne_mp_scalar_fields. noerr. Qed.
Lemma ne_mp_is_in p vs : never_err (E := E) (mp_is_in idm p vs).
Proof. unfold mp_is_in, mp_compare. pose proof ne_mp_scalar_fields. noerr. Qed.
Lemma ne_split_into r ps : never_err (E := E) (split_into idm r ps).
Proof. unfold split_into. pose proof ne_mp_scalar_fields. noerr. Qed.
Lemma ne_mi_fields m i : never_err (E := E) (mi_fields m i).
Proof. unfold mi_fields. noerr. Qed.
Lemma ne_primary_identifier m : never_err (E := E) (primary_identifier idm m).
Proof. unfold primary_identifier, fields_id, find_multipart_id, first_required_index. pose proof ne_mi_fields. noerr. Qed.
Lemma ne_linking_fields rf : never_err (E := E) (linking_fields idm rf).
Proof.
  unfold linking_fields. pose proof ne_rf_relation. pose proof ne_many_to_many. pose proof ne_upgrade_model. pose proof ne_primary_identifier. pose proof ne_related_field. noerr.
Qed.
End lookups.
#[export] Hint Resolve ne_upgrade_model ne_rf_relation ne_many_to_many ne_related_model ne_related_field ne_inlined ne_mp_scalar_fields ne_mp_matches ne_mp_is_in
  ne_split_into ne_primary_identifier ne_linking_fields : noerr.

(** ** Computations that do not miss a binding *)
Section finds.
Context `{VT : ValueTypes} {VO : ValueOrd VT} `{IT : Itertools} {GT : GraphTypes} {PG : Petgraph}.
Context {Db ConnectorError : Type}.
Abbreviation IError := (InterpreterError ConnectorError).
Definition no_miss {A} (m : outcome IError A) : Prop := forall n, m <> Err (EnvVarNotFound n).
Definition finds {A} (m : eff Db IError A) : Prop := forall s, no_miss (m s).1.
Lemma no_miss_never {A} (m : outcome IError A) : never_err m -> no_miss m.
Proof. intros Hm n. apply Hm. Qed.
Lemma no_miss_bind {A B} (m : outcome IError A) (f : A -> outcome IError B) : no_miss m -> (forall a, no_miss (f a)) -> no_miss (m ≫= f).
Proof. intros Hm Hf n. destruct m as [a|e|msg]; cbn; [apply Hf| |done]. intros [= ->]. by apply (Hm n). Qed.
Lemma no_miss_err {A} (e : IError) : (match e with EnvVarNotFound _ => False | _ => True end) -> no_miss (A := A) (Err e).
Proof. by intros He n [= ->]. Qed.
Lemma no_miss_map_err {F A} (f : F -> IError) (m : outcome F A) : (forall e n, f e <> EnvVarNotFound n) -> no_miss (map_err f m).
Proof. intros Hf n. destruct m; cbn; [done| |done]. intros [= H]. by apply (Hf _ _ H). Qed.
Lemma no_miss_domain {A} (m : DomainResult A) : no_miss (of_domain m).
Proof. by apply no_miss_map_err. Qed.
Lemma finds_bind {A B} (m : eff Db IError A) (f : A -> eff Db IError B) : finds m -> (forall a, finds (f a)) -> finds (m ≫= f).
Proof. intros Hm Hf s n. unfold mbind, eff_bind. specialize (Hm s n). destruct (m s) as [[a|e|msg] s']; cbn in *; [apply Hf| |done]. congruence. Qed.
Lemma finds_ret {A} (a : A) : finds (mret a).
Proof. by intros s n. Qed.
Lemma finds_lift {A} (m : outcome IError A) : no_miss m -> finds (lift m).
Proof. by intros Hm s. Qed.
Lemma finds_never {A} (m : outcome IError A) : never_err m -> finds (lift m).
Proof. intros Hm. apply finds_lift. by apply no_miss_never. Qed.
Lemma finds_connector {A} (m : eff Db ConnectorError A) : finds (of_connector m).
Proof. intros s. unfold of_connector, eff_map_err. destruct (m s) as [r s']. by apply no_miss_map_err. Qed.
Lemma finds_fold {A B} (f : B -> A -> eff Db IError B) l b : (forall b a, finds (f b a)) -> finds (eff_fold f l b).
Proof. intros Hf. revert b. induction l as [|a l IH]; intros b; cbn [eff_fold]; [apply finds_ret|]. by apply finds_bind. Qed.
Lemma no_miss_for_each {S A} (f : S -> A -> outcome IError S) l s : (forall s a, no_miss (f s a)) -> no_miss (for_each f l s).
Proof. intros Hf. revert s. induction l as [|a l IH]; intros s; cbn [for_each]; [by intros n|]. apply no_miss_bind; [apply Hf|exact IH]. Qed.
Lemma no_miss_map_m {A B} (f : A -> outcome IError B) l : (forall a, no_miss (f a)) -> no_miss (map_m f l).
Proof.
  intros Hf. induction l as [|a l IH]; cbn [map_m]; [by intros n|]. apply no_miss_bind; [apply Hf|]. intros b. apply no_miss_bind; [exact IH|]. by intros bs n.
Qed.
End finds.
Create HintDb finds discriminated.
#[export] Hint Resolve no_miss_domain finds_ret finds_connector : finds.
#[export] Hint Extern 2 (finds (_ ≫= _)) => apply finds_bind : finds.
#[export] Hint Extern 2 (no_miss (_ ≫= _)) => apply no_miss_bind : finds.
#[export] Hint Extern 4 (finds (lift _)) => apply finds_lift : finds.
#[export] Hint Extern 2 (finds (eff_fold _ _ _)) => apply finds_fold : finds.
#[export] Hint Extern 2 (no_miss (for_each _ _ _)) => apply no_miss_for_each : finds.
#[export] Hint Extern 2 (no_miss (map_m _ _)) => apply no_miss_map_m : finds.
#[export] Hint Extern 3 (finds (match ?x with _ => _ end)) => destruct x : finds.
#[export] Hint Extern 3 (no_miss (match ?x with _ => _ end)) => destruct x : finds.
#[export] Hint Extern 1 (forall _, finds _) => intro : finds.
#[export] Hint Extern 1 (forall _, no_miss _) => intro : finds.
#[export] Hint Extern 5 (no_miss _) => apply no_miss_never; solve [auto 8 with noerr] : finds.
#[export] Hint Extern 1 (never_err (primary_identifier _ _)) => apply ne_primary_identifier : noerr.
#[export] Hint Extern 1 (never_err (linking_fields _ _)) => apply ne_linking_fields : noerr.
#[export] Hint Extern 1 (never_err (split_into _ _ _)) => apply ne_split_into : noerr.
Ltac finds := auto 40 with finds.
Section queries.
Context `{VT : ValueTypes} {VO : ValueOrd VT} `{IT : Itertools} {GT : GraphTypes} {PG : Petgraph}.
Context {Db ConnectorError : Type} (idm : InternalDataModel) {RO : ReadOperations Db ConnectorError} {WO : WriteOperations Db ConnectorError}.
Context (json_number : nat -> JsonValue).
Lemma ne_apply_pagination {E} np m : never_err (E := E) (apply_pagination np m).
Proof. unfold apply_pagination, sort_by_parent, parent_key. noerr. Qed.
Lemma finds_m2m q pr pg : finds (m2m (Db := Db) idm q pr pg).
Proof. unfold m2m, attach_m2m. pose proof @ne_apply_pagination. finds. Qed.
Lemma finds_one2m pf pps pr a sel pg : finds (one2m (Db := Db) idm pf pps pr a sel pg).
Proof. unfold one2m, attach_one2m, map_link, attach_inlined_on_parent, attach_inlined_on_child. pose proof @ne_apply_pagination. finds. Qed.
Lemma finds_aggregate q : finds (aggregate (Db := Db) q).
Proof. unfold aggregate. finds. Qed.
Lemma finds_related q pr : finds (read_related_scalars (Db := Db) idm q pr).
Proof. unfold read_related_scalars. pose proof finds_m2m. pose proof finds_one2m. finds. Qed.
Lemma finds_read q : forall pr, finds (read_execute (Db := Db) idm q pr).
Proof.
  revert q. fix IH 1. intros q pr. pose proof finds_aggregate. pose proof finds_related.
  assert (Hn : forall l, Forall (fun q => forall pr, finds (read_execute (Db := Db) idm q pr)) l -> forall pr,
    finds ((fix process_nested (nested : list ReadQuery) (parent_result : option ManyRecords) : InterpM (list QueryResult) :=
      match nested with
      | [] => mret []
      | q :: nested => r ← read_execute idm q parent_result; rs ← process_nested nested parent_result; mret (r :: rs)
      end) l pr)).
  { clear. induction 1 as [|q l Hq _ IHl]; intros pr; [apply finds_ret|]. apply finds_bind; [apply Hq|]. finds. }
  destruct q as [[? ? ? ? ? l ?]|[? ? ? ? ? l ?]|[? ? ? ? ? l ? ?]|q];
    try (assert (HF : Forall (fun q => forall pr, finds (read_execute (Db := Db) idm q pr)) l) by (induction l as [|x l IHl]; constructor; [apply IH|exact IHl]);
         specialize (Hn l HF); clear HF); clear IH; cbn [read_execute]; finds.
Qed.
Lemma finds_write q : finds (write_execute (Db := Db) json_number q).
Proof.
  destruct q as [| | | | | | |? ? []]; cbn [write_execute]; unfold create_one, update_one, delete_one, update_many, delete_many, connect, disconnect, execute_raw, query_raw; finds.
  apply finds_bind; [|finds]. apply finds_lift. destruct record_filter; [by intros n|]. by apply no_miss_err.
Qed.
Lemma finds_query q : finds (run_query (Db := Db) idm json_number q).
Proof. unfold run_query. pose proof finds_read. pose proof finds_write. finds. Qed.

(** ** Expressions that find their bindings, given some names *)
Abbreviation Expr := (Expression (ConnectorError := ConnectorError)).
Abbreviation interp := (interpret (Db := Db) (ConnectorError := ConnectorError) idm json_number).
Definition bound (names : string -> Prop) (env : Env) : Prop := forall n, names n -> is_Some (env !! n).
Definition safe (names : string -> Prop) (x : Expr) : Prop := forall env, bound names env -> finds (interp x env).
Definition with_name (n : string) (names : string -> Prop) : string -> Prop := fun m => m = n \/ names m.
Lemma bound_insert names env n r : bound names env -> bound (with_name n names) (env_insert n r env).
Proof.
  unfold bound, env_insert, Env in *. intros Hb m Hm. destruct (decide (m = n)) as [->|Hne]; [by rewrite lookup_insert_eq|]. rewrite lookup_insert_ne by done.
  destruct Hm; [done|by apply Hb].
Qed.
Lemma safe_mono names names' x : (forall n, names n -> names' n) -> safe names x -> safe names' x.
Proof. intros Hn Hx env Hb. apply Hx. intros n Hnn. by apply Hb, Hn. Qed.
Lemma safe_query names q : safe names (EQuery q).
Proof. intros env _. apply finds_query. Qed.
Lemma safe_return names r : safe names (Return r).
Proof. intros env _. apply finds_ret. Qed.
Lemma safe_get (names : string -> Prop) n : names n -> safe names (Get n).
Proof. intros Hn env Hb. cbn [interpret]. apply finds_lift. unfold env_remove. destruct (Hb n Hn) as [r ->]. by intros m. Qed.
Lemma safe_first names ns : safe names (GetFirstNonEmpty ns).
Proof. intros env _. cbn [interpret]. apply finds_lift, no_miss_never. unfold get_first_non_empty. noerr. Qed.
Lemma safe_sequence names l : Forall (safe names) l -> safe names (Sequence l).
Proof.
  intros Hl env Hb. cbn [interpret]. set (all := fix interpret_all (seq : list Expr) (env : Env) := _).
  assert (Hall : forall k, Forall (safe names) k -> finds (all k env)).
  { induction 1 as [|y k Hy _ IH]; [apply finds_ret|]. apply finds_bind; [by apply Hy|]. intros r. apply finds_bind; [exact IH|]. intros rs. apply finds_ret. }
  destruct l as [|x l]; [apply finds_ret|]. apply finds_bind; [by apply Hall|]. intros rs. apply finds_lift, no_miss_never. noerr.
Qed.
Lemma safe_if names f t e : Forall (safe names) t -> Forall (safe names) e -> safe names (EIf f t e).
Proof.
  intros Ht He env Hb. pose proof (safe_sequence names t Ht env Hb) as H1. pose proof (safe_sequence names e He env Hb) as H2. cbn [interpret] in *. by destruct (f tt).
Qed.
Lemma safe_func (names : string -> Prop) f : (forall env, bound names env -> match f env with Ok x => safe names x | Err e => no_miss (A := unit) (Err e) | Panic _ => True end) ->
  safe names (Func f).
Proof.
  intros Hf env Hb. cbn [interpret]. specialize (Hf env Hb). destruct (f env) as [x|e|msg]; [by apply Hf| |by intros s n].
  intros s n. cbn. intros [= ->]. by apply (Hf n).
Qed.
Lemma finds_bind_post {A B} (P : A -> Prop) (m : eff Db (InterpreterError ConnectorError) A) (f : A -> eff Db (InterpreterError ConnectorError) B) :
  finds m -> (forall s a s', m s = (Ok a, s') -> P a) -> (forall a, P a -> finds (f a)) -> finds (m ≫= f).
Proof.
  intros Hm HP Hf s n. unfold mbind, eff_bind. specialize (Hm s n). specialize (HP s). destruct (m s) as [[a|e|msg] s']; cbn in *; [|congruence|done].
  apply Hf. by eapply HP.
Qed.
Definition with_names (ns : list string) (names : string -> Prop) : string -> Prop := fun m => m ∈ ns \/ names m.
Lemma safe_let names bs l : Forall (fun b => safe names (b_expr b)) bs -> Forall (safe (with_names (b_name <$> bs) names)) l -> safe names (Let bs l).
Proof.
  intros Hbs Hl env He. cbn [interpret]. set (bind_all := fix bind_all (bindings : list (Binding Expr)) (inner_env : Env) := _).
  apply (finds_bind_post (bound (with_names (b_name <$> bs) names))).
  - assert (Hgen : forall inner, finds (bind_all bs inner)); [|apply Hgen].
    clear Hl. induction Hbs as [|b bs Hb _ IH]; intros inner; [apply finds_ret|]. apply finds_bind; [by apply Hb|]. intros r. apply IH.
  - clear Hl Hbs.
    assert (Hgen : forall inner names', bound names' inner -> forall s a s', bind_all bs inner s = (Ok a, s') -> bound (with_names (b_name <$> bs) names') a).
    { induction bs as [|b bs IH]; intros inner names' Hi s a s' Hs; [injection Hs as <- _; intros n [Hn|Hn]; [by apply not_elem_of_nil in Hn|by apply Hi]|].
      cbn in Hs. unfold mbind, eff_bind in Hs. destruct (interp (b_expr b) env s) as [[r|e|msg] s1]; [|done..].
      apply (IH _ (with_name (b_name b) names')) in Hs; [|by apply bound_insert]. intros n Hn. apply Hs. destruct Hn as [[->|Hn]%elem_of_cons|Hn]; [right; by left|by left|right; by right]. }
    intros s a s' Hs. by eapply Hgen.
  - intros inner Hi. pose proof (safe_sequence _ l Hl inner Hi) as Hseq. cbn [interpret] in Hseq. destruct l as [|x [|y l]]; [exact Hseq| |exact Hseq].
    apply Forall_cons in Hl as [Hx _]. by apply Hx.
Qed.
End queries.
