(* ===== verification/ExprFacts.v ===== *)
(** * The translation of a query graph reaches every node once *)
From stdpp Require Import pretty.
From stdpp Require Import sorting pretty.
From S2P Require Import Prelude Effects SqlSchema Dml Converter Models Convert Projections Filters ValueOrder SqlRead ReadFacts ReadSamples QueryAst QueryGraph GraphFacts GraphRules Reloads GraphSamples NestedRead Interpreter Related InterpretFacts.

(** ** The last parent of a node

    When any two parents of a node are related, one of them is below all others:
    these parents make a tree of the graph, with the same ancestors. *)
Lemma tc_last {A} (R : relation A) a c : tc R a c -> exists y, rtc R a y /\ R y c.
Proof. induction 1 as [a c Hac|a b c Hab _ (y & Hby & Hyc)]; [by exists a|]. exists y. split; [by eapply rtc_l|done]. Qed.
Section tree.
Context (R : relation nat) (parents : nat -> list nat) (Hparents : forall p n, p ∈ parents n <-> R p n).
Context (Hac : forall n, ~ tc R n n) (Hwf : forall n, Acc R n).
Context (Hrelated : forall p p' n, R p n -> R p' n -> p = p' \/ tc R p p' \/ tc R p' p).
Definition last_parent (p n : nat) : Prop := R p n /\ forall p', R p' n -> p' <> p -> tc R p' p.
Lemma last_parent_unique p p' n : last_parent p n -> last_parent p' n -> p = p'.
Proof.
  intros [H1 H2] [H1' H2']. destruct (decide (p = p')) as [|Hne]; [done|]. exfalso. apply (Hac p). apply tc_trans with p'; [by apply H2'|by apply H2].
Qed.
Lemma last_parent_exists p n : R p n -> exists d, last_parent d n.
Proof.
  intros Hp. assert (Hl : forall l, l <> [] -> (forall x, x ∈ l -> R x n) -> exists d, d ∈ l /\ forall x, x ∈ l -> x <> d -> tc R x d).
  { induction l as [|x l IH]; [done|]. intros _ Hl. destruct l as [|y l].
    - exists x. split; [constructor|]. by intros z ->%list_elem_of_singleton.
    - destruct IH as (d & Hd & Hm); [done|by intros z Hz; apply Hl; constructor|]. destruct (Hrelated x d n) as [->|[Hxd|Hdx]]; [apply Hl; constructor|apply Hl; by constructor| | |].
      + exists d. split; [by constructor|]. intros z [->|Hz]%elem_of_cons Hne; [done|by apply Hm].
      + exists d. split; [by constructor|]. intros z [->|Hz]%elem_of_cons Hne; [done|by apply Hm].
      + exists x. split; [constructor|]. intros z [->|Hz]%elem_of_cons Hne; [done|]. destruct (decide (z = d)) as [->|Hzd]; [done|]. apply tc_trans with d; [by apply Hm|done]. }
  destruct (Hl (parents n)) as (d & Hd & Hm).
  - intros Hnil. apply Hparents in Hp. rewrite Hnil in Hp. by apply not_elem_of_nil in Hp.
  - intros x. apply Hparents.
  - exists d. split; [by apply Hparents|]. intros p' Hp'. by apply Hm, Hparents.
Qed.
Lemma reach_last_parents a b : rtc R a b -> rtc last_parent a b.
Proof.
  intros Hab. induction (Hwf b) as [b _ IH]. apply rtc_inv_r in Hab as [->|(y & Hay & Hyb)]; [done|].
  destruct (last_parent_exists y b Hyb) as (d & Hd). eapply rtc_r; [|exact Hd]. apply IH; [apply Hd|]. destruct (decide (y = d)) as [->|Hne]; [done|].
  transitivity y; [done|]. apply tc_rtc, Hd; [done|done].
Qed.
Lemma chains a b m : rtc last_parent a m -> rtc last_parent b m -> rtc last_parent a b \/ rtc last_parent b a.
Proof.
  intros Ha. revert b. pattern m. revert m Ha. apply rtc_ind_r; [by right|]. intros y z Hay Hyz IH b Hb.
  apply rtc_inv_r in Hb as [->|(y' & Hb & Hy')]; [left; by eapply rtc_r|]. assert (y' = y) as -> by (by eapply last_parent_unique). by apply IH.
Qed.
(** What lies below two nodes with the same last parent is apart. *)
Lemma siblings_apart n a b m : last_parent n a -> last_parent n b -> a <> b -> rtc R a m -> rtc R b m -> False.
Proof.
  intros Ha Hb Hne Ham Hbm. apply reach_last_parents in Ham, Hbm.
  assert (Hno : forall x y, last_parent n x -> last_parent n y -> x <> y -> rtc last_parent x y -> False).
  { intros x y Hx Hy Hxy [->|(d & Hxd & Hdy)]%rtc_inv_r; [done|]. assert (d = n) as -> by (by eapply last_parent_unique).
    apply (Hac n). eapply tc_rtc_r; [apply tc_once, Hx|]. clear -Hxd. induction Hxd as [|x y z [Hxy _] _ IH]; [done|by eapply rtc_l]. }
  destruct (chains a b m Ham Hbm); [by apply (Hno a b)|by apply (Hno b a)].
Qed.
Lemma below_last_parent n m : rtc R n m -> n = m \/ exists c, last_parent n c /\ rtc R c m.
Proof.
  intros Hr%reach_last_parents. inversion Hr as [|? c ? Hc Hcm]; subst; [by left|]. right. exists c. split; [done|].
  clear -Hcm. induction Hcm as [|x y z [Hxy _] _ IH]; [done|by eapply rtc_l].
Qed.
Lemma ancestors_of_child a n c : last_parent n c -> tc R a c -> a = n \/ tc R a n.
Proof.
  intros [Hn Hl] (y & Hay & Hyc)%tc_last. destruct (decide (y = n)) as [->|Hne]; [by apply rtc_tc|]. right. eapply tc_rtc_l; [exact Hay|by apply Hl].
Qed.
End tree.

(** ** What the translation of a part of the graph changes *)
Section frames.
Context `{VT : ValueTypes} {VO : ValueOrd VT} `{IT : Itertools} {GT : GraphTypes} {PG : Petgraph} (HPG : PetgraphOk PG).
Record frame (S : nat -> Prop) (q q' : QueryGraph) : Prop := {
  fr_ends : fst <$> edges q' = fst <$> edges q;
  fr_len : length (nodes q') = length (nodes q);
  fr_results : result_nodes q' = result_nodes q;
  fr_nodes : forall m, ~ S m -> nodes q' !! m = nodes q !! m;
  fr_edges : forall e x, edges q !! e = Some x -> ~ S x.1.2 -> edges q' !! e = Some x;
  fr_visited : forall m, m ∈ visited q' -> m ∈ visited q \/ S m;
}.
Lemma frame_refl S q : frame S q q.
Proof. split; auto. Qed.
Lemma frame_mono (S S' : nat -> Prop) q q' : (forall m, S m -> S' m) -> frame S q q' -> frame S' q q'.
Proof.
  intros Hs [H1 H2 H3 H4 H5 H6]. split; [done..|intros m Hm; apply H4; by intros ?%Hs|intros e x He Hm; apply H5; [done|by intros ?%Hs]|].
  intros m Hm. destruct (H6 m Hm); auto.
Qed.
Lemma frame_trans (S : nat -> Prop) q q' q'' : frame S q q' -> frame S q' q'' -> frame S q q''.
Proof.
  intros [H1 H2 H3 H4 H5 H6] [K1 K2 K3 K4 K5 K6]. split; [congruence..|intros m Hm; by rewrite K4, H4|intros e x He Hm; apply K5; [by apply H5|done]|].
  intros m [Hm|Hm]%K6; auto.
Qed.
(** The part [S] of the graph is still as in [q0]. *)
Record fresh (q0 : QueryGraph) (S : nat -> Prop) (q : QueryGraph) : Prop := {
  fs_ends : fst <$> edges q = fst <$> edges q0;
  fs_len : length (nodes q) = length (nodes q0);
  fs_results : result_nodes q = result_nodes q0;
  fs_nodes : forall m, S m -> nodes q !! m = nodes q0 !! m;
  fs_edges : forall e x, edges q0 !! e = Some x -> S x.1.2 -> edges q !! e = Some x;
  fs_visited : forall m, S m -> m ∉ visited q;
}.
Lemma fresh_frame q0 (S S' : nat -> Prop) q q' : fresh q0 S q -> frame S' q q' -> (forall m, S m -> S' m -> False) -> fresh q0 S q'.
Proof.
  intros [H1 H2 H3 H4 H5 H6] [K1 K2 K3 K4 K5 K6] Hd. split; [congruence..|intros m Hm; rewrite K4; [by apply H4|by intros ?; apply (Hd m)]| |].
  - intros e x He Hm. apply K5; [by apply H5|]. intros Hm'. by apply (Hd x.1.2).
  - intros m Hm [Hv|Hv]%K6; [by apply (H6 m)|by apply (Hd m)].
Qed.
Lemma fresh_mono q0 (S S' : nat -> Prop) q : (forall m, S' m -> S m) -> fresh q0 S q -> fresh q0 S' q.
Proof. intros Hs [H1 H2 H3 H4 H5 H6]. split; auto. Qed.
(** The contents of the nodes have been taken out; empty nodes keep theirs. *)
Definition taken (S : nat -> Prop) (q : QueryGraph) : Prop := forall m, S m -> nodes q !! m = Some None \/ nodes q !! m = Some (Some NodeEmpty).
Lemma taken_frame (S S' : nat -> Prop) q q' : taken S q -> frame S' q q' -> (forall m, S m -> S' m -> False) -> taken S q'.
Proof. intros Ht Hf Hd m Hm. rewrite (fr_nodes _ _ _ Hf m); [by apply Ht|]. intros Hm'. by apply (Hd m). Qed.

(** Reading the graph depends on its shape only. *)
Lemma edge_rel_ends q q' : fst <$> edges q' = fst <$> edges q -> forall a b, edge_rel q' a b <-> edge_rel q a b.
Proof.
  assert (Hr : forall q a b, edge_rel q a b <-> (a, b) ∈ (fst <$> edges q)).
  { intros g a b. unfold edge_rel. rewrite list_elem_of_fmap. split; [intros (w & Hw); by exists ((a, b), w)|intros ([? w] & -> & Hx); by exists w]. }
  intros He a b. by rewrite !Hr, He.
Qed.
Lemma lookup_ends q q' e x : fst <$> edges q' = fst <$> edges q -> edges q' !! e = Some x -> exists w, edges q !! e = Some (x.1, w).
Proof.
  intros He Hx. assert (Hl : (fst <$> edges q) !! e = Some x.1) by (by rewrite <-He, list_lookup_fmap, Hx). rewrite list_lookup_fmap in Hl.
  destruct (edges q !! e) as [[? w]|]; [|done]. cbn in Hl. injection Hl as ->. by exists w.
Qed.
(** Taking out the content of an edge or a node, and visiting a node. *)
Lemma pluck_edge_ok e q a b d : edges q !! e = Some ((a, b), Some d) ->
  exists q', pluck_edge e q = (Ok d, q') /\ frame (eq b) q q' /\ nodes q' = nodes q /\ visited q' = visited q /\
    forall e', e' <> e -> edges q' !! e' = edges q !! e'.
Proof.
  intros He. unfold pluck_edge. rewrite (edge_weight_ok (PetgraphOk := HPG)). change (raw_edges (graph q)) with (edges q). rewrite He. cbn.
  destruct (set_edge_weight_ok (PetgraphOk := HPG) _ _ e None (graph q)) as [Hn Hed]. eexists. split; [done|].
  assert (Hed' : edges (with_graph (set_edge_weight e None (graph q)) q) = alter (fun x => (x.1, None)) e (edges q)) by exact Hed.
  assert (Hn' : nodes (with_graph (set_edge_weight e None (graph q)) q) = nodes q) by exact Hn.
  assert (Hne : forall e', e' <> e -> edges (with_graph (set_edge_weight e None (graph q)) q) !! e' = edges q !! e') by (intros e' Hne; rewrite Hed'; by apply list_lookup_alter_ne).
  split_and!; [|done|done|done]. split; cbn [visited result_nodes with_graph]; [|by rewrite Hn'|done|by rewrite Hn'| |auto].
  - rewrite Hed'. apply list_eq. intros i. rewrite !list_lookup_fmap. destruct (decide (i = e)) as [->|Hi]; [|by rewrite list_lookup_alter_ne].
    rewrite list_lookup_alter_eq. by destruct (edges q !! e).
  - intros e' x Hx Hb. destruct (decide (e' = e)) as [->|Hi]; [|by rewrite Hne]. rewrite He in Hx. injection Hx as <-. by cbn in Hb.
Qed.
Lemma pluck_node_ok n q c : nodes q !! n = Some (Some c) -> exists q', pluck_node n q = (Ok c, q') /\ frame (eq n) q q' /\ edges q' = edges q /\ nodes q' !! n = Some None.
Proof.
  intros Hn. unfold pluck_node. rewrite (node_weight_ok (PetgraphOk := HPG)). change (raw_nodes (graph q)) with (nodes q). rewrite Hn. cbn.
  destruct (set_node_weight_ok (PetgraphOk := HPG) _ _ n None (graph q)) as [Hns Hed]. eexists. split; [done|].
  assert (Hn' : nodes (with_graph (set_node_weight n None (graph q)) q) = <[n := None]> (nodes q)) by exact Hns.
  assert (Hed' : edges (with_graph (set_node_weight n None (graph q)) q) = edges q) by exact Hed.
  split_and!; [|done|rewrite Hn'; apply list_lookup_insert_eq; by eapply lookup_lt_Some].
  split; cbn [visited result_nodes with_graph]; [by rewrite Hed'|by rewrite Hn', length_insert|done| |by rewrite Hed'|auto].
  intros m Hm. rewrite Hn'. by apply list_lookup_insert_ne.
Qed.
Lemma mark_visited_ok n q : frame (eq n) q (mark_visited n q) /\ nodes (mark_visited n q) = nodes q /\ edges (mark_visited n q) = edges q.
Proof.
  unfold mark_visited. destruct (iter_any _ _); [split; [apply frame_refl|done]|]. split; [|done]. split; try done.
  intros m [Hm|Hm]%elem_of_app; [by left|]. right. by apply list_elem_of_singleton in Hm.
Qed.
End frames.

(** ** Graphs that can be translated *)
Section translation.
Context `{VT : ValueTypes} {VO : ValueOrd VT} `{IT : Itertools} {GT : GraphTypes} {PG : Petgraph} (HPG : PetgraphOk PG).
Definition binder (q : QueryGraph) (a : nat) : Prop :=
  exists c, nodes q !! a = Some (Some c) /\ match c with NodeQuery _ | NodeComputation _ => True | _ => False end.
(** An If node is the last parent of its branches: one for Then, at most one for Else. *)
Record flow_ok (q : QueryGraph) (n : nat) : Prop := {
  fl_branch : forall e c w, edges q !! e = Some ((n, c), w) -> (w = Some Then \/ w = Some Else) /\ last_parent (edge_rel q) n c;
  fl_then : exists e c, edges q !! e = Some ((n, c), Some Then);
  fl_one_then : forall e e' c c', edges q !! e = Some ((n, c), Some Then) -> edges q !! e' = Some ((n, c'), Some Then) -> e = e';
  fl_one_else : forall e e' c c', edges q !! e = Some ((n, c), Some Else) -> edges q !! e' = Some ((n, c'), Some Else) -> e = e';
}.
Record translatable (q : QueryGraph) : Prop := {
  tr_range : in_range q;
  tr_acyclic : acyclic q;
  tr_nodes : forall n c, nodes q !! n = Some c -> is_Some c;
  tr_edges : forall e x, edges q !! e = Some x -> is_Some x.2;
  tr_simple : NoDup (fst <$> edges q);
  tr_related : forall p p' n, edge_rel q p n -> edge_rel q p' n -> p = p' \/ tc (edge_rel q) p p' \/ tc (edge_rel q) p' p;
  tr_flows : forall n f, nodes q !! n = Some (Some (NodeFlow f)) -> flow_ok q n;
  tr_data : forall e a b d, edges q !! e = Some ((a, b), Some d) -> is_transformer d = true -> binder q a;
  tr_visited : visited q = [];
}.
Lemma edge_rel_wf q : in_range q -> acyclic q -> forall n, Acc (edge_rel q) n.
Proof.
  intros Hr Hac n. assert (Hf : forall a b, tc (flip (edge_rel q)) a b -> tc (edge_rel q) b a).
  { induction 1 as [a b Hab|a b c Hab _ IH]; [by apply tc_once|by eapply tc_r]. }
  assert (Hsn : sn (flip (edge_rel q)) n); [|exact Hsn]. apply tc_finite_sn.
  - intros x Hx%Hf. by apply (Hac x).
  - exists (seq 0 (length (nodes q))). intros x Hx%Hf. apply elem_of_seq. split; [lia|]. inversion Hx as [a b Hab|a b c Hab _]; subst; by destruct (Hr _ _ Hab).
Qed.
Definition parents (q : QueryGraph) (n : nat) : list nat := (fun x => x.1.1) <$> iter_filter (fun x => x.1.2 ≟ n) (edges q).
Lemma parents_elem q p n : p ∈ parents q n <-> edge_rel q p n.
Proof.
  unfold parents. rewrite list_elem_of_fmap. split.
  - intros ([[a b] w] & -> & [Hx%list_elem_of_In Hb%bool_decide_eq_true]%list_elem_of_In%List.filter_In). cbn in Hb. subst b. by exists w.
  - intros (w & Hw). exists ((p, n), w). split; [done|]. apply list_elem_of_In, List.filter_In. split; [by apply list_elem_of_In|by apply bool_decide_eq_true].
Qed.
End translation.

(** ** Building expressions *)
Section building.
Context `{VT : ValueTypes} {VO : ValueOrd VT} `{IT : Itertools} {GT : GraphTypes} {PG : Petgraph} (HPG : PetgraphOk PG).
Context {Db ConnectorError : Type} (idm : InternalDataModel) {RO : ReadOperations Db ConnectorError} {WO : WriteOperations Db ConnectorError} (json_number : nat -> JsonValue).
Context (node_fmt : Node -> string) (hash_order : list RecordProjection -> list RecordProjection) (stack : nat).
Context (q0 : QueryGraph) (Hq0 : translatable q0) (Hstack : length (nodes q0) < stack).
Abbreviation R := (edge_rel q0).
Abbreviation T := (rtc (edge_rel q0)).
Abbreviation Expr := (Expression (ConnectorError := ConnectorError)).
Abbreviation BM := (eff QueryGraph (InterpreterError ConnectorError)).
Abbreviation safe := (safe (Db := Db) idm json_number).
(** The names in scope at a node: those of its ancestors that are bound. *)
Definition names (n : nat) (s : string) : Prop := exists a, s = node_id a /\ binder q0 a /\ tc R a n.
Definition builds {B} (n : nat) (m : BM B) (Q : B -> Prop) : Prop :=
  forall q, fresh q0 (T n) q -> exists x q', m q = (Ok x, q') /\ frame (T n) q q' /\ taken (T n) q' /\ Q x.
Lemma apart_siblings n a b m : last_parent R n a -> last_parent R n b -> a <> b -> T a m -> T b m -> False.
Proof. apply (siblings_apart R (parents q0) (parents_elem q0)); [apply Hq0|apply edge_rel_wf; apply Hq0|apply Hq0]. Qed.
Lemma below_node n m : T n m -> n = m \/ exists c, last_parent R n c /\ T c m.
Proof. apply (below_last_parent R (parents q0) (parents_elem q0)); [apply edge_rel_wf; apply Hq0|apply Hq0]. Qed.
Lemma below_not_above n c m : last_parent R n c -> T c m -> n <> m.
Proof. intros [Hn _] Hm ->. apply (tr_acyclic q0 Hq0 m). eapply tc_rtc_r; [by apply tc_once|done]. Qed.
Lemma T_child n c m : last_parent R n c -> T c m -> T n m.
Proof. intros [Hn _] Hm. by eapply rtc_l. Qed.
(** Translating nodes that have nothing below them in common, one after the other. *)
Definition below_all {A} (node : A -> nat) (l : list A) (m : nat) : Prop := exists a, a ∈ l /\ T (node a) m.
Lemma eff_map_builds {A B} (node : A -> nat) (f : A -> BM B) (Q : A -> B -> Prop) (l : list A) : NoDup (node <$> l) ->
  (forall a b m, a ∈ l -> b ∈ l -> node a <> node b -> T (node a) m -> T (node b) m -> False) -> (forall a, a ∈ l -> builds (node a) (f a) (Q a)) ->
  forall q, (forall a, a ∈ l -> fresh q0 (T (node a)) q) ->
  exists xs q', eff_map f l q = (Ok xs, q') /\ frame (below_all node l) q q' /\ taken (below_all node l) q' /\ Forall2 Q l xs.
Proof.
  induction l as [|a l IH]; intros Hnd Hap Hb q Hf.
  { exists [], q. split; [done|]. split; [apply frame_refl|]. split; [|constructor]. intros m (a & Ha & _). by apply not_elem_of_nil in Ha. }
  rewrite fmap_cons in Hnd. apply NoDup_cons in Hnd as [Hna Hnd]. destruct (Hb a) with q as (x & q1 & Hx & Hfr & Htk & HQ); [constructor|apply Hf; constructor|].
  assert (Hne : forall b, b ∈ l -> node a <> node b) by (intros b Hbl Heq; apply Hna; rewrite Heq; by apply list_elem_of_fmap_2).
  assert (Hd : forall b m, b ∈ l -> T (node b) m -> T (node a) m -> False).
  { intros b m Hbl H1 H2. apply (Hap a b m); [constructor|by constructor|by apply Hne|done|done]. }
  destruct IH with q1 as (xs & q2 & Hxs & Hfr2 & Htk2 & HQs); [done|intros b c m Hb' Hc'; apply Hap; by constructor|intros b Hb'; apply Hb; by constructor| |].
  { intros b Hbl. eapply fresh_frame; [apply Hf; by constructor|exact Hfr|]. intros m. by apply Hd. }
  exists (x :: xs), q2. cbn [eff_map]. unfold mbind, eff_bind. rewrite Hx, Hxs. split; [done|]. split_and!.
  - eapply frame_trans; (eapply frame_mono; [|eassumption]); [intros m Hm; exists a; split; [constructor|done]|].
    intros m (b & Hb' & Hm). exists b. split; [by constructor|done].
  - intros m (b & [->|Hbl]%elem_of_cons & Hm); [|apply Htk2; by exists b]. eapply taken_frame; [exact Htk|exact Hfr2| |exact Hm].
    intros m' Hm' (b & Hb' & Hbm). by apply (Hd b m').
  - by constructor.
Qed.

(** *** Children *)
Definition same_shape (q : QueryGraph) : Prop :=
  fst <$> edges q = fst <$> edges q0 /\ length (nodes q) = length (nodes q0) /\ result_nodes q = result_nodes q0.
Lemma fresh_shape S q : fresh q0 S q -> same_shape q.
Proof. by intros [? ? ? _ _ _]. Qed.
Lemma frame_shape S q q' : same_shape q -> frame S q q' -> same_shape q'.
Proof. intros (H1 & H2 & H3) [K1 K2 K3 _ _ _]. split_and!; congruence. Qed.
Lemma tc_shape q a b : same_shape q -> tc (edge_rel q) a b <-> tc R a b.
Proof.
  intros (He & _). pose proof (edge_rel_ends q0 q He) as Hr. split; intros Ht; (induction Ht as [a b Hab|a b c Hab _ IH]; [apply tc_once; by apply Hr|eapply tc_l; [by apply Hr|exact IH]]).
Qed.
Lemma shape_searches q : same_shape q -> in_range q /\ acyclic q /\ length (nodes q) < stack.
Proof.
  intros Hs. pose proof Hs as (He & Hl & _). split_and!.
  - intros a b Hab. rewrite Hl. apply (tr_range q0 Hq0). by apply (edge_rel_ends q0 q He).
  - intros n Hn. apply (tr_acyclic q0 Hq0 n). by apply (tc_shape q).
  - by rewrite Hl.
Qed.
Definition child_edge (n : nat) (p : EdgeRef * NodeRef) : Prop := exists w, edges q0 !! p.1 = Some ((n, p.2), w).
Lemma child_pairs_shape {E} q n : same_shape q -> exists l, child_pairs (E := E) q n = Ok l /\ NoDup (snd <$> l) /\ forall p, p ∈ l <-> child_edge n p.
Proof.
  intros (He & _). rewrite child_pairs_ok by done. eexists. split; [done|].
  assert (Hel : forall e c, (e, c) ∈ ((fun e => (e, target_of q e)) <$> outgoing_edges q n) <-> child_edge n (e, c)).
  { intros e c. rewrite (child_pairs_elem HPG). unfold child_edge. cbn. split; intros (w & Hw).
    - destruct (lookup_ends q0 q e _ He Hw) as (w' & Hw'). by exists w'.
    - symmetry in He. destruct (lookup_ends q q0 e _ He Hw) as (w' & Hw'). by exists w'. }
  split; [|intros [e c]; apply Hel]. rewrite <-list_fmap_compose. apply NoDup_fmap_2_strong; [|].
  - intros e1 e2 H1 H2 Heq. cbn in Heq.
    assert (Hc : forall e, e ∈ outgoing_edges q n -> (fst <$> edges q0) !! e = Some (n, target_of q e)).
    { intros e Hin. assert (Hp : (e, target_of q e) ∈ ((fun e => (e, target_of q e)) <$> outgoing_edges q n)) by (apply list_elem_of_fmap; by exists e).
      apply Hel in Hp as (w & Hw). cbn in Hw. by rewrite list_lookup_fmap, Hw. }
    eapply NoDup_lookup; [apply (tr_simple q0 Hq0)|by apply Hc|]. rewrite Heq. by apply Hc.
  - unfold outgoing_edges, collect_edges. rewrite (ReadFacts.sort_by_perm Nat.leb). apply (edges_directed_nodup (PetgraphOk := HPG)).
Qed.
(** The direct children of a node are those it is the last parent of. *)
Lemma direct_children_shape {E} q n : same_shape q -> (forall m, tc R n m -> m ∉ visited q) ->
  exists l, direct_child_pairs (E := E) stack q n = Ok l /\ NoDup (snd <$> l) /\ forall p, p ∈ l <-> child_edge n p /\ last_parent R n p.2.
Proof.
  intros Hs Hv. destruct (child_pairs_shape (E := E) q n Hs) as (l & Hl & Hnd & Hel). destruct (shape_searches q Hs) as (Hr & Hac & Hst).
  unfold direct_child_pairs. rewrite Hl. cbn [mbind outcome_bind].
  assert (Hd : forall c, R n c -> exists b, is_direct_child (E := E) stack q n c = Ok b /\ (b = true <-> last_parent R n c)).
  { intros c Hc. destruct (searches_spec HPG (E := E) stack q n c Hr Hac Hst) as (_ & _ & b & Hb & Hbs). exists b. split; [done|]. rewrite Hbs.
    pose proof (edge_rel_ends q0 q (proj1 Hs)) as Hre. split.
    - intros Hor. destruct (last_parent_exists R (parents q0) (parents_elem q0) (tr_related q0 Hq0) n c Hc) as (d & Hdc).
      destruct (decide (n = d)) as [->|Hne]; [done|]. exfalso. pose proof (proj2 Hdc n Hc Hne) as Hnd'. destruct Hor as [Hanc|Hvis].
      + apply (tr_acyclic q0 Hq0 n). eapply tc_trans; [exact Hnd'|]. apply (tc_shape q), Hanc; [done|apply Hre; apply Hdc|done].
      + apply (Hv d Hnd'). apply Hvis; [apply Hre; apply Hdc|done].
    - intros [_ Hl']. left. intros p Hp Hne. apply (tc_shape q); [done|]. apply Hl'; [by apply Hre|done]. }
  assert (Hf : exists k, filter_m (fun p : EdgeRef * NodeRef => is_direct_child (E := E) stack q n p.2) l = Ok k /\ k `sublist_of` l /\
    forall p, p ∈ k <-> p ∈ l /\ last_parent R n p.2).
  { assert (Hc : forall p, p ∈ l -> R n p.2) by (intros p (w & Hw)%Hel; exists w; by apply list_elem_of_lookup_2 in Hw). clear Hl Hnd Hel. induction l as [|p l IH].
    - exists []. split; [done|]. split; [constructor|]. intros p. split; [by intros ?%not_elem_of_nil|]. by intros [?%not_elem_of_nil _].
    - destruct IH as (k & Hk & Hsub & Hke); [intros p' Hp'; apply Hc; by constructor|]. destruct (Hd p.2) as (b & Hb & Hbs); [apply Hc; constructor|].
      cbn [filter_m]. rewrite Hb, Hk. cbn [mbind outcome_bind]. eexists. split; [done|]. destruct b.
      + split; [by constructor|]. intros p'. rewrite !elem_of_cons, Hke. destruct Hbs as [Hbs _]. specialize (Hbs eq_refl). naive_solver.
      + split; [by constructor|]. intros p'. rewrite elem_of_cons, Hke. assert (~ last_parent R n p.2) by (by intros ?%Hbs). naive_solver. }
  destruct Hf as (k & Hk & Hsub & Hke). exists k. split; [done|]. split.
  - eapply sublist_NoDup; [exact Hnd|]. clear -Hsub. induction Hsub; cbn; by constructor.
  - intros p. by rewrite Hke, Hel.
Qed.

(** *** Transformers *)
Definition parent_edges_ok (n : nat) (pe : list EdgeRef) : Prop := NoDup pe /\ forall e, e ∈ pe -> exists a w, edges q0 !! e = Some ((a, n), w).
Definition edges_in (n : nat) (pe : list EdgeRef) (q : QueryGraph) : Prop := forall e, e ∈ pe -> edges q !! e = edges q0 !! e.
Abbreviation collect := (collect_parent_transformers (ConnectorError := ConnectorError)).
Lemma collect_ok n pe q : parent_edges_ok n pe -> edges_in n pe q -> exists deps q', collect pe q = (Ok deps, q') /\ frame (eq n) q q' /\ nodes q' = nodes q /\
  Forall (fun d => names n d.1 /\ is_transformer d.2 = true) deps.
Proof.
  intros [Hnd Hpe]. unfold collect_parent_transformers.
  assert (Hgen : forall acc, Forall (fun d : string * QueryGraphDependency => names n d.1 /\ is_transformer d.2 = true) acc -> edges_in n pe q ->
    exists deps q', eff_fold (fun acc edge => x ← of_graph (ConnectorError := ConnectorError) (pluck_edge edge);
        if is_transformer x then source ← read_g (fun q => edge_source q edge); mret (acc ++ [(node_id source, x)]) else mret acc) pe acc q = (Ok deps, q') /\
      frame (eq n) q q' /\ nodes q' = nodes q /\ Forall (fun d => names n d.1 /\ is_transformer d.2 = true) deps); [|intros Hin; by apply Hgen].
  revert q. induction pe as [|e pe IH]; intros q acc Hacc Hin; [exists acc, q; split; [done|]; split; [apply frame_refl|done]|].
  apply NoDup_cons in Hnd as [Hne Hnd]. destruct (Hpe e) as (a & w & He); [constructor|]. destruct (tr_edges q0 Hq0 _ _ He) as [d Hd]. cbn in Hd. subst w.
  assert (He' : edges q !! e = Some ((a, n), Some d)) by (rewrite Hin by constructor; done).
  destruct (pluck_edge_ok HPG e q a n d He') as (q1 & Hp & Hf1 & Hn1 & Hv1 & He1).
  assert (Hsrc : edge_source (E := InterpreterError ConnectorError) q1 e = Ok a).
  { pose proof (lookup_ends q1 q e _ (eq_sym (fr_ends _ _ _ Hf1)) He') as (w & Hw). by rewrite (edge_source_ok HPG _ _ _ Hw). }
  destruct (IH Hnd) with q1 (if is_transformer d then acc ++ [(node_id a, d)] else acc) as (deps & q2 & Hc & Hf2 & Hn2 & Hd2).
  - intros e' Hel. apply Hpe. by constructor.
  - destruct (is_transformer d) eqn:Et; [|done]. apply Forall_app. split; [done|]. repeat constructor; [|done]. exists a. split; [done|]. split; [by eapply tr_data|].
    apply tc_once. exists (Some d). by apply list_elem_of_lookup_2 in He.
  - intros e' Hel. rewrite He1 by (by intros ->). apply Hin. by constructor.
  - exists deps, q2. split; [|split; [by eapply frame_trans|split; [congruence|done]]]. cbn [eff_fold]. unfold mbind at 1, eff_bind at 1. unfold of_graph at 1, eff_map_err at 1. 
    unfold mbind at 1, eff_bind at 1. rewrite Hp. cbn [map_err]. destruct (is_transformer d); [|exact Hc]. unfold mbind at 1, eff_bind at 1, read_g at 1. rewrite Hsrc. exact Hc.
Qed.
Lemma apply_dependency_finds n env d node : bound (names n) env -> names n d.1 -> no_miss (apply_dependency (ConnectorError := ConnectorError) idm env node d).
Proof.
  destruct d as [name d]. intros Hb Hn. cbn in Hn. unfold apply_dependency. destruct (Hb name Hn) as [r Hr]. unfold env_get. rewrite Hr. cbn [ok_or mbind outcome_bind].
  destruct d; try (apply no_miss_never; by apply ne_panic); by apply no_miss_map_err.
Qed.
Definition good_expr (n : nat) (m : outcome (InterpreterError ConnectorError) Expr) : Prop :=
  match m with Ok x => safe (names n) x | Err e => no_miss (A := unit) (Err e) | Panic _ => True end.
Lemma transform_ok n pe node (into_expr : Node -> outcome (InterpreterError ConnectorError) Expr) x0 q : parent_edges_ok n pe -> edges_in n pe q ->
  into_expr node = Ok x0 -> (forall node', good_expr n (into_expr node')) ->
  exists x q', transform_node idm pe node into_expr q = (Ok x, q') /\ frame (eq n) q q' /\ nodes q' = nodes q /\ safe (names n) x.
Proof.
  intros Hpe Hin Hx Hgood. pose proof (Hgood node) as Hg. rewrite Hx in Hg. unfold transform_node. destruct pe as [|e pe]; [exists x0, q; unfold lift; rewrite Hx; split; [done|]; split; [apply frame_refl|done]|].
  destruct (collect_ok n (e :: pe) q Hpe Hin) as (deps & q' & Hc & Hf & Hn & Hd). unfold mbind, eff_bind. rewrite Hc.
  destruct deps as [|d deps]; [exists x0, q'; unfold lift; rewrite Hx; done|]. eexists _, q'. split; [done|]. split; [done|]. split; [done|].
  apply safe_func. intros env Hb.
  assert (Hfe : no_miss (for_each (apply_dependency (ConnectorError := ConnectorError) idm env) (d :: deps) node)).
  { clear Hx Hg Hc; revert node. induction Hd as [|d' ds [Hd' _] _ IH]; intros node; cbn [for_each]; [by intros m|]. apply no_miss_bind; [by apply (apply_dependency_finds n)|]. apply IH. }
  destruct (for_each _ _ node) as [node'|err|msg]; cbn [mbind outcome_bind]; [apply Hgood| |done]. intros m [= ->]. by apply (Hfe m).
Qed.

(** *** Scopes *)
Definition inner (n : nat) (s : string) : Prop := names n s \/ (binder q0 n /\ s = node_id n).
Lemma names_child n c s : last_parent R n c -> names c s -> inner n s.
Proof.
  intros Hc (a & -> & Hb & Ha). destruct (ancestors_of_child R a n c Hc Ha) as [->|Han]; [by right|]. left. by exists a.
Qed.
Definition below (n m : nat) : Prop := tc R n m.
Lemma T_below n m : T n m <-> n = m \/ below n m.
Proof. split; [by intros ?%rtc_tc|]. intros [->|Hm]; [done|by apply tc_rtc]. Qed.
Lemma parent_edges_in n pe q : parent_edges_ok n pe -> fresh q0 (eq n) q -> edges_in n pe q.
Proof. intros [_ Hpe] Hf e He. destruct (Hpe e He) as (a & w & Hw). rewrite Hw. by apply (fs_edges _ _ _ Hf). Qed.
Lemma incoming_ok n q : same_shape q -> parent_edges_ok n (incoming_edges q n).
Proof.
  intros (He & _). split.
  - unfold incoming_edges, collect_edges. rewrite (ReadFacts.sort_by_perm Nat.leb). apply (edges_directed_nodup (PetgraphOk := HPG)).
  - intros e Hin. apply (collect_edges_elem HPG) in Hin as ([[a b] w] & Hx & Hb). cbn in Hb. subst b. destruct (lookup_ends q0 q e _ He Hx) as (w' & Hw). by exists a, w'.
Qed.
(** A list of children that [n] is the last parent of, translated in order. *)
Definition kids (n : nat) (l : list (EdgeRef * NodeRef)) : Prop := NoDup (snd <$> l) /\ forall p, p ∈ l -> last_parent R n p.2.
Lemma kids_perm n l l' : l ≡ₚ l' -> kids n l -> kids n l'.
Proof. intros Hp [Hn Hl]. split; [by rewrite <-Hp|]. intros p. rewrite <-Hp. apply Hl. Qed.
Lemma kids_app n l l' : kids n (l ++ l') -> kids n l /\ kids n l' /\ forall m, below_all snd l m -> below_all snd l' m -> False.
Proof.
  intros [Hn Hl]. rewrite fmap_app in Hn. apply NoDup_app in Hn as (H1 & H2 & H3). split_and!.
  - split; [done|]. intros p Hp. apply Hl, elem_of_app. by left.
  - split; [done|]. intros p Hp. apply Hl, elem_of_app. by right.
  - intros m (p & Hp & Hm) (p' & Hp' & Hm'). apply (apart_siblings n p.2 p'.2 m); [apply Hl, elem_of_app; by left|apply Hl, elem_of_app; by right| |done|done].
    intros Heq. apply (H2 p.2); [by apply list_elem_of_fmap_2|]. rewrite Heq. by apply list_elem_of_fmap_2.
Qed.
Lemma kids_build {B} n l (f : EdgeRef * NodeRef -> BM B) Q q : kids n l -> (forall p, p ∈ l -> builds p.2 (f p) (Q p)) -> fresh q0 (below_all snd l) q ->
  exists xs q', eff_map f l q = (Ok xs, q') /\ frame (below_all snd l) q q' /\ taken (below_all snd l) q' /\ Forall2 Q l xs.
Proof.
  intros [Hn Hl] Hb Hf. apply eff_map_builds; [done| |done|].
  - intros a b m Ha Hb' Hne. apply (apart_siblings n); [by apply Hl|by apply Hl|done].
  - intros a Ha. eapply fresh_mono; [|exact Hf]. intros m Hm. by exists a.
Qed.
Lemma kids_below n l m : (forall p, p ∈ l <-> child_edge n p /\ last_parent R n p.2) -> below_all snd l m <-> below n m.
Proof.
  intros Hl. split.
  - intros (p & [_ [Hp _]]%Hl & Hm). eapply tc_rtc_r; [by apply tc_once|done].
  - intros Hm. destruct (below_node n m) as [->|(c & Hc & Hcm)]; [by apply tc_rtc|by apply (tr_acyclic q0 Hq0) in Hm|].
    destruct (proj1 (edge_rel_lookup q0 n c) (proj1 Hc)) as (e & w & He). exists (e, c). split; [|done]. apply Hl. split; [by exists w|done].
Qed.

(** *** Result scopes *)
Lemma contains_result_ok q l : same_shape q -> exists flagged, contains_result (ConnectorError := ConnectorError) stack l q = (Ok flagged, q) /\ snd <$> flagged = l.
Proof.
  intros Hs. destruct (shape_searches q Hs) as (Hr & Hac & Hst). unfold contains_result, read_g.
  assert (Hm : exists flagged, map_m (fun p : EdgeRef * NodeRef => b ← subgraph_contains_result (E := InterpreterError ConnectorError) stack q p.2; Ok (b : bool, p)) l = Ok flagged /\ snd <$> flagged = l).
  { clear -HPG Hr Hac Hst. induction l as [|p l (fl & IH & Hfl)]; [by exists []|]. destruct (searches_spec HPG (E := InterpreterError ConnectorError) stack q p.2 p.2 Hr Hac Hst) as (_ & (b & Hb & _) & _).
    exists ((b, p) :: fl). split; [|by rewrite fmap_cons, Hfl]. cbn [map_m]. rewrite Hb. cbn [mbind outcome_bind]. by rewrite IH. }
  destruct Hm as (fl & -> & Hfl). by exists fl.
Qed.
Lemma flagged_split {A} (fl : list (bool * A)) : (snd <$> iter_filter (fun p => negb p.1) fl) ++ (snd <$> reverse (iter_filter fst fl)) ≡ₚ snd <$> fl.
Proof.
  rewrite reverse_Permutation. induction fl as [|[[] a] fl IH]; cbn; [done| |by constructor]. by rewrite <-Permutation_middle; constructor.
Qed.
Lemma safe_scopes sc (bs : list (Binding Expr)) : bs <> [] -> Forall (fun b => safe sc (b_expr b)) bs ->
  exists x, fold_scopes (let_scopes bs) = Ok x /\ safe sc x.
Proof.
  intros Hne Hbs.
  assert (Hl : Forall (safe sc) (let_scopes bs)).
  { unfold let_scopes. apply Forall_lookup. intros i x Hx. apply list_lookup_imap_Some in Hx as (b & Hb & ->). apply safe_let.
    - constructor; [|constructor]. by eapply Forall_lookup_1 in Hbs.
    - destruct (Nat.eqb _ _); [|constructor]. constructor; [|constructor]. apply safe_get. left. constructor. }
  assert (Hfold : forall xs b inside, safe sc (b_expr b) -> Forall (safe (with_names [b_name b] sc)) inside -> Forall (safe sc) xs ->
    safe sc (foldl (fun acc next => push_expression next acc) (Let [b] inside) xs)).
  { induction xs as [|x xs IH]; intros b inside Hb Hin Hxs; cbn [foldl]; [apply safe_let; [by repeat constructor|exact Hin]|].
    apply Forall_cons in Hxs as [Hx Hxs]. cbn [push_expression]. apply IH; [done| |done]. apply Forall_app. split; [done|]. constructor; [|constructor].
    eapply safe_mono; [|exact Hx]. by right. }
  destruct bs as [|b bs]; [done|]. unfold fold_scopes, let_scopes in *. cbn [imap head unwrap mbind outcome_bind tail]. eexists. split; [done|].
  apply Forall_cons in Hbs as [Hb _]. cbn [imap] in Hl. apply Forall_cons in Hl as [Hfirst Hrest]. apply Hfold; [done| |exact Hrest].
  destruct (Nat.eqb _ _); [|constructor]. constructor; [|constructor]. apply safe_get. left. constructor.
Qed.

(** *** The kinds of nodes, given that children are translated *)
Section node_kinds.
Context (build : NodeRef -> list EdgeRef -> BM Expr) (n : nat).
Context (Hbuild : forall c pe, last_parent R n c -> parent_edges_ok c pe -> builds c (build c pe) (safe (names c))).
Lemma child_builds c : last_parent R n c -> builds c (build_child build c) (safe (inner n)).
Proof.
  intros Hc q Hf. unfold build_child. rewrite (eff_bind_Ok _ _ q (incoming_edges q c) q) by done.
  destruct (Hbuild c (incoming_edges q c) Hc (incoming_ok c q (fresh_shape _ _ Hf)) q Hf) as (x & q' & Hx & Hfr & Ht & Hs).
  exists x, q'. split_and!; [done..|]. eapply safe_mono; [|exact Hs]. intros s. by apply names_child.
Qed.
Lemma Forall2_right {A B} (P : B -> Prop) (l : list A) k : Forall2 (fun _ x => P x) l k -> Forall P k.
Proof. induction 1; by constructor. Qed.
Lemma children_build l q : kids n l -> fresh q0 (below_all snd l) q ->
  exists xs q', eff_map (fun p : EdgeRef * NodeRef => build_child build p.2) l q = (Ok xs, q') /\ frame (below_all snd l) q q' /\ taken (below_all snd l) q' /\ Forall (safe (inner n)) xs.
Proof.
  intros Hk Hf. destruct (kids_build n l (fun p => build_child build p.2) (fun _ => safe (inner n)) q Hk) as (xs & q' & Hx & Hfr & Ht & Hs); [|done|].
  - intros p Hp. apply child_builds. by apply Hk.
  - exists xs, q'. split_and!; [done..|]. by eapply Forall2_right.
Qed.
Lemma results_build l q : l <> [] -> kids n l -> fresh q0 (below_all snd l) q ->
  exists x q', fold_result_scopes build l q = (Ok x, q') /\ frame (below_all snd l) q q' /\ taken (below_all snd l) q' /\ safe (inner n) x.
Proof.
  intros Hne Hk Hf. unfold fold_result_scopes.
  destruct (kids_build n l (fun p : EdgeRef * NodeRef => expr ← build_child build p.2; mret (mkBinding (node_id p.2) expr)) (fun _ b => safe (inner n) (b_expr b)) q Hk) as (bs & q' & Hb & Hfr & Ht & Hs).
  - intros p Hp q1 Hf1. destruct (child_builds p.2) with q1 as (x & q2 & Hx & Hfr & Ht & Hs); [by apply Hk|done|]. rewrite (eff_bind_Ok _ _ _ _ _ Hx). by eexists _, q2.
  - done.
  - rewrite (eff_bind_Ok _ _ _ _ _ Hb). rewrite (eff_bind_Ok _ _ _ (result_nodes q') q') by done. pose proof (Forall2_right _ _ _ Hs) as Hs'.
    assert (Hbs : bs <> []) by (intros ->; apply Forall2_length in Hs; by destruct l).
    destruct (safe_scopes (inner n) bs Hbs Hs') as (x & Hx & Hsx). destruct (length (result_nodes q') ≟ 1).
    + exists x, q'. unfold lift. by rewrite Hx.
    + eexists _, q'. split; [done|]. split_and!; [done..|]. apply safe_let; [done|]. constructor; [apply safe_first|constructor].
Qed.
Lemma results_add xs l q : Forall (safe (inner n)) xs -> kids n l -> fresh q0 (below_all snd l) q ->
  exists ys q', match l with [] => mret xs | _ => result_exp ← fold_result_scopes build l; mret (xs ++ [result_exp]) end q = (Ok ys, q') /\
    frame (below_all snd l) q q' /\ taken (below_all snd l) q' /\ Forall (safe (inner n)) ys.
Proof.
  intros Hxs Hk Hf. destruct l as [|p l]; [exists xs, q; split; [done|]; split; [apply frame_refl|]; split; [|done]; by intros m (? & ?%not_elem_of_nil & _)|].
  destruct (results_build (p :: l) q) as (r & q' & Hr & Hf' & Ht & Hs); [done..|]. rewrite (eff_bind_Ok _ _ _ _ _ Hr).
  eexists _, q'. split; [done|]. split_and!; [done..|]. apply Forall_app. by repeat constructor.
Qed.
(** The content of the node itself is taken last. *)
Lemma node_done q q' q'' : frame (T n) q q' -> taken (below n) q' -> frame (eq n) q' q'' ->
  nodes q'' !! n = Some None \/ nodes q'' !! n = Some (Some NodeEmpty) -> frame (T n) q q'' /\ taken (T n) q''.
Proof.
  intros Hf Ht Hf' Hn. split.
  - eapply frame_trans; [exact Hf|]. eapply frame_mono; [|exact Hf']. intros m <-. constructor.
  - intros m [<-|Hm]%T_below; [done|]. eapply taken_frame; [exact Ht|exact Hf'| |exact Hm]. intros m' Hm' <-. by apply (tr_acyclic q0 Hq0 n).
Qed.
Lemma take_node pe c into x0 q : nodes q !! n = Some (Some c) -> parent_edges_ok n pe -> edges_in n pe q -> into c = Ok x0 -> (forall c', good_expr n (into c')) ->
  exists q' x q'', of_graph (ConnectorError := ConnectorError) (pluck_node n) q = (Ok c, q') /\ transform_node idm pe c into q' = (Ok x, q'') /\
    frame (eq n) q q'' /\ nodes q'' !! n = Some None /\ safe (names n) x.
Proof.
  intros Hn Hpe Hin Hx Hgood. destruct (pluck_node_ok HPG n q c Hn) as (q1 & Hp & Hf1 & He1 & Hn1).
  destruct (transform_ok n pe c into x0 q1 Hpe) as (x & q2 & Hx2 & Hf2 & Hn2 & Hs2); [intros e He; rewrite He1; by apply Hin|done..|].
  exists q1, x, q2. split; [unfold of_graph, eff_map_err; by rewrite Hp|]. split_and!; [done|by eapply frame_trans|by rewrite Hn2|done].
Qed.
Lemma frame_below q q' : frame (below n) q q' -> frame (T n) q q'.
Proof. apply frame_mono. intros m Hm. by apply tc_rtc. Qed.
Lemma fresh_split q : fresh q0 (T n) q -> fresh q0 (eq n) q /\ fresh q0 (below n) q.
Proof. intros Hf. split; (eapply fresh_mono; [|exact Hf]); intros m Hm; apply T_below; auto. Qed.
Lemma fresh_node S q c : fresh q0 S q -> S n -> nodes q0 !! n = Some (Some c) -> nodes q !! n = Some (Some c).
Proof. intros Hf Hs Hn. by rewrite (fs_nodes _ _ _ Hf n Hs). Qed.
Lemma safe_bind_node x xs : binder q0 n -> safe (names n) x -> Forall (safe (inner n)) xs -> safe (names n) (bind_node (node_id n) x xs).
Proof.
  intros Hb Hx Hxs. unfold bind_node. destruct xs as [|y xs]; [done|]. apply safe_let; [by repeat constructor|]. eapply Forall_impl; [exact Hxs|].
  intros z Hz. eapply safe_mono; [|exact Hz]. intros s [Hs|[_ ->]]; [by right|left; constructor].
Qed.
Lemma below_irrefl m : below m m -> False.
Proof. apply (tr_acyclic q0 Hq0). Qed.
Lemma query_builds pe query : nodes q0 !! n = Some (Some (NodeQuery query)) -> parent_edges_ok n pe ->
  builds n (build_query_expression idm node_fmt stack build n pe) (safe (names n)).
Proof.
  intros Hn Hpe q Hf. destruct (fresh_split q Hf) as [Hfn Hfb]. pose proof (fresh_shape _ _ Hf) as Hsh.
  assert (Hbind : binder q0 n) by (by eexists).
  destruct (direct_children_shape (E := InterpreterError ConnectorError) q n Hsh) as (l & Hl & Hnd & Hel); [apply (fs_visited _ _ _ Hfb)|].
  destruct (contains_result_ok q l Hsh) as (fl & Hfl & Hfs). unfold build_query_expression.
  rewrite (eff_bind_Ok _ _ q l q) by (unfold read_g; by rewrite Hl). rewrite (eff_bind_Ok _ _ _ _ _ Hfl). cbv zeta.
  set (l1 := snd <$> iter_filter (fun p => negb p.1) fl). set (l2 := snd <$> reverse (iter_filter fst fl)).
  assert (Hperm : l1 ++ l2 ≡ₚ l) by (rewrite <-Hfs; apply flagged_split).
  assert (Hk : kids n (l1 ++ l2)) by (eapply kids_perm; [symmetry; exact Hperm|]; split; [done|]; by intros p [_ Hp]%Hel).
  assert (Hall : forall m, below n m <-> below_all snd l1 m \/ below_all snd l2 m).
  { intros m. rewrite <-(kids_below n l m Hel). unfold below_all. setoid_rewrite <-Hperm. setoid_rewrite elem_of_app. naive_solver. }
  apply kids_app in Hk as (Hk1 & Hk2 & Hap).
  destruct (children_build l1 q Hk1) as (xs & q1 & Hx & Hf1 & Ht1 & Hs1); [eapply fresh_mono; [|exact Hfb]; intros m Hm; apply Hall; by left|].
  rewrite (eff_bind_Ok _ _ _ _ _ Hx).
  destruct (results_add xs l2 q1 Hs1 Hk2) as (ys & q2 & Hy & Hf2 & Ht2 & Hs2).
  { eapply fresh_frame; [eapply fresh_mono; [|exact Hfb]|exact Hf1|]; [intros m Hm; apply Hall; by right|]. intros m H2 H1. by apply (Hap m). }
  rewrite (eff_bind_Ok _ _ _ _ _ Hy).
  assert (Hf12 : frame (below n) q q2) by (eapply frame_trans; (eapply frame_mono; [|eassumption]); intros m Hm; apply Hall; auto).
  assert (Ht12 : taken (below n) q2).
  { intros m [Hm|Hm]%Hall; [|by apply Ht2]. eapply taken_frame; [exact Ht1|exact Hf2|exact Hap|exact Hm]. }
  clear Hy Hx Hf1 Ht1 Hf2 Ht2. rewrite (eff_bind_Ok _ _ q2 tt (mark_visited n q2)) by done. rewrite (eff_bind_Ok _ _ _ _ _ (eq_refl : reads _ _ = _)).
  destruct (mark_visited_ok n q2) as (Hfm & Hnm & Hem).
  assert (Hfn2 : fresh q0 (eq n) q2) by (eapply fresh_frame; [exact Hfn|exact Hf12|]; intros m <- Hm; by apply (below_irrefl n)).
  destruct (take_node pe (NodeQuery query) (fun n => q ← map_err InterpGraphError (node_into_query node_fmt n); Ok (EQuery q)) (EQuery query) (mark_visited n q2))
    as (q3 & x & q4 & Hp & Hx & Hf4 & Hn4 & Hs4); [rewrite Hnm; by apply (fresh_node (eq n))|done|intros e He; rewrite Hem; by apply (parent_edges_in n pe)|done| |].
  { intros [q5|f|c|]; cbn; try (by apply no_miss_err). apply safe_query. }
  rewrite (eff_bind_Ok _ _ _ _ _ Hp), (eff_bind_Ok _ _ _ _ _ Hx). eexists _, q4. split; [done|].
  destruct (node_done q q2 q4) as [Hff Htt]; [by apply frame_below|done|by eapply frame_trans|by left|].
  split_and!; [done|done|]. apply safe_bind_node; [done|done|]. destruct ys as [|y ys]; [constructor|]. destruct (is_result_node _ _); [|done].
  apply Forall_app. split; [done|]. constructor; [|constructor]. apply safe_get. by right.
Qed.
Lemma all_children q : fresh q0 (below n) q ->
  exists xs q', build_children stack build n q = (Ok xs, q') /\ frame (below n) q q' /\ taken (below n) q' /\ Forall (safe (inner n)) xs.
Proof.
  intros Hf. pose proof (fresh_shape _ _ Hf) as Hsh.
  destruct (direct_children_shape (E := InterpreterError ConnectorError) q n Hsh) as (l & Hl & Hnd & Hel); [apply (fs_visited _ _ _ Hf)|].
  pose proof (fun m => kids_below n l m Hel) as Hb. unfold build_children. rewrite (eff_bind_Ok _ _ q l q) by (unfold read_g; by rewrite Hl).
  destruct (children_build l q) as (xs & q' & Hx & Hf' & Ht & Hs); [split; [done|]; by intros p [_ Hp]%Hel|by eapply fresh_mono; [|exact Hf]; intros m; apply Hb|].
  exists xs, q'. split_and!; [done|by eapply frame_mono; [|exact Hf']; intros m; apply Hb|by intros m Hm%Hb; apply Ht|done].
Qed.
(** A node that is marked before its children are translated. *)
Lemma marked q : fresh q0 (T n) q -> exists q1, update_g (ConnectorError := ConnectorError) (mark_visited n) q = (Ok tt, q1) /\ frame (T n) q q1 /\
  fresh q0 (below n) q1 /\ nodes q1 = nodes q /\ edges q1 = edges q.
Proof.
  intros Hf. destruct (fresh_split q Hf) as [_ Hfb]. destruct (mark_visited_ok n q) as (Hfm & Hnm & Hem). exists (mark_visited n q). split_and!; [done| | |done|done].
  - eapply frame_mono; [|exact Hfm]. intros m <-. constructor.
  - eapply fresh_frame; [exact Hfb|exact Hfm|]. intros m Hm <-. by apply (below_irrefl n).
Qed.
Lemma untouched pe q q1 q2 : fresh q0 (T n) q -> nodes q1 = nodes q -> edges q1 = edges q -> frame (below n) q1 q2 -> parent_edges_ok n pe ->
  nodes q2 !! n = nodes q0 !! n /\ edges_in n pe q2.
Proof.
  intros Hf Hn He Hf2 [_ Hpe]. pose proof (below_irrefl n) as Hb. split.
  - rewrite (fr_nodes _ _ _ Hf2) by done. rewrite Hn. apply (fs_nodes _ _ _ Hf). constructor.
  - intros e Hin. destruct (Hpe e Hin) as (a & w & Hw). rewrite Hw. apply (fr_edges _ _ _ Hf2); [|done]. rewrite He. apply (fs_edges _ _ _ Hf); [done|]. constructor.
Qed.
Lemma inner_names s : ~ binder q0 n -> inner n s -> names n s.
Proof. by intros Hb [Hs|[? _]]. Qed.
Lemma empty_builds pe : nodes q0 !! n = Some (Some NodeEmpty) -> parent_edges_ok n pe -> builds n (build_empty_expression idm stack build n pe) (safe (names n)).
Proof.
  intros Hn Hpe q Hf. unfold build_empty_expression. destruct (marked q Hf) as (q1 & Hm & Hf1 & Hfb & Hn1 & He1). rewrite (eff_bind_Ok _ _ _ _ _ Hm).
  destruct (all_children q1 Hfb) as (xs & q2 & Hx & Hf2 & Ht2 & Hs). rewrite (eff_bind_Ok _ _ _ _ _ Hx). destruct (untouched pe q q1 q2) as [Hn2 Hin]; [done..|].
  assert (Hseq : safe (names n) (Sequence xs)).
  { apply safe_sequence. eapply Forall_impl; [exact Hs|]. intros x Hx'. eapply safe_mono; [|exact Hx']. intros s. apply inner_names.
    intros (c & Hc & Hk). rewrite Hn in Hc. by injection Hc as <-. }
  destruct (transform_ok n pe NodeEmpty (fun _ => Ok (Sequence xs)) (Sequence xs) q2) as (x & q3 & Hx3 & Hf3 & Hn3 & Hs3); [done..|].
  exists x, q3. split; [done|]. destruct (node_done q q2 q3) as [Hff Htt]; [|done|done|right; by rewrite Hn3, Hn2|done].
  eapply frame_trans; [exact Hf1|]. by apply frame_below.
Qed.
Lemma computation_builds pe d : nodes q0 !! n = Some (Some (NodeComputation d)) -> parent_edges_ok n pe ->
  builds n (build_computation_expression idm hash_order stack build n pe) (safe (names n)).
Proof.
  intros Hn Hpe q Hf. unfold build_computation_expression. destruct (marked q Hf) as (q1 & Hm & Hf1 & Hfb & Hn1 & He1). rewrite (eff_bind_Ok _ _ _ _ _ Hm).
  destruct (all_children q1 Hfb) as (xs & q2 & Hx & Hf2 & Ht2 & Hs). rewrite (eff_bind_Ok _ _ _ _ _ Hx). destruct (untouched pe q q1 q2) as [Hn2 Hin]; [done..|].
  destruct (take_node pe (NodeComputation d) (fun n => Ok (Func (fun _ => diff_expression hash_order n))) (Func (fun _ => diff_expression hash_order (NodeComputation d))) q2)
    as (q3 & x & q4 & Hp & Hx4 & Hf4 & Hn4 & Hs4); [by rewrite Hn2|done|done|done| |].
  { intros c. cbn [good_expr]. apply safe_func. intros env _. destruct c; cbn; done. }
  rewrite (eff_bind_Ok _ _ _ _ _ Hp), (eff_bind_Ok _ _ _ _ _ Hx4). eexists _, q4. split; [done|].
  destruct (node_done q q2 q4) as [Hff Htt]; [|done|done|by left|].
  - eapply frame_trans; [exact Hf1|]. by apply frame_below.
  - split_and!; [done|done|]. apply safe_bind_node; [by eexists|done|done].
Qed.
Lemma branch_flags q l : flow_ok q0 n -> fresh q0 (below n) q -> (forall p, p ∈ l -> child_edge n p) ->
  exists fl, map_m (fun p => b ← is_then_edge (ConnectorError := ConnectorError) q p; Ok (b : bool, p)) l = Ok fl /\ snd <$> fl = l /\
    forall b p, (b, p) ∈ fl -> edges q0 !! p.1 = Some ((n, p.2), Some (if b : bool then Then else Else)).
Proof.
  intros Hfl Hf. induction l as [|p l IH]; intros Hl; [exists []; split_and!; [done..|by intros b p ?%not_elem_of_nil]|].
  destruct IH as (fl & Hm & Hs & Hfb); [intros p' Hp; apply Hl; by constructor|]. destruct (Hl p) as (w & Hw); [constructor|].
  destruct (fl_branch q0 n Hfl _ _ _ Hw) as [Hor Hlp].
  assert (Hq : edges q !! p.1 = Some ((n, p.2), w)) by (apply (fs_edges _ _ _ Hf); [done|apply tc_once, Hlp]).
  exists ((match w with Some Then => true | _ => false end, p) :: fl). split_and!.
  - assert (Ht : is_then_edge (ConnectorError := ConnectorError) q p = Ok (match w with Some Then => true | _ => false end)).
    { unfold is_then_edge. rewrite (edge_content_ok HPG _ _ _ Hq). by destruct Hor as [-> | ->]. }
    cbn [map_m]. rewrite Ht. cbn [mbind outcome_bind]. by rewrite Hm.
  - by rewrite fmap_cons, Hs.
  - intros b p' [[= -> ->]|Hp]%elem_of_cons; [|by apply Hfb]. destruct Hor as [-> | ->]; exact Hw.
Qed.
Lemma at_most_one {A} (l : list A) : NoDup l -> (forall a b, a ∈ l -> b ∈ l -> a = b) -> l = [] \/ exists a, l = [a].
Proof.
  intros Hnd Heq. destruct l as [|a [|b l]]; [by left|right; by exists a|]. exfalso. apply NoDup_cons in Hnd as [Hna _]. apply Hna.
  rewrite (Heq a b); [constructor|constructor|right; constructor].
Qed.
Lemma branches l fl : flow_ok q0 n -> NoDup (snd <$> l) -> (forall p, p ∈ l <-> child_edge n p) -> snd <$> fl = l ->
  (forall b p, (b, p) ∈ fl -> edges q0 !! p.1 = Some ((n, p.2), Some (if b : bool then Then else Else))) ->
  exists t e, iter_filter fst fl = [(true, t)] /\ iter_filter (fun p => negb p.1) fl = (pair false) <$> e /\ length e <= 1 /\ t :: e ≡ₚ l.
Proof.
  intros Hfl Hnd Hl Hs Hfb.
  assert (Hnf : NoDup fl) by (apply (NoDup_fmap_1 (fun x => x.2.2)); rewrite <-Hs, <-list_fmap_compose in Hnd; exact Hnd).
  assert (Hin : forall (f : bool * (EdgeRef * NodeRef) -> bool) x, x ∈ iter_filter f fl <-> x ∈ fl /\ f x = true).
  { intros f x. by rewrite !list_elem_of_In, List.filter_In. }
  assert (Hone : forall (b : bool) (f : bool * (EdgeRef * NodeRef) -> bool), (forall x, f x = true -> x.1 = b) ->
    (forall e e' c c', edges q0 !! e = Some ((n, c), Some (if b then Then else Else)) -> edges q0 !! e' = Some ((n, c'), Some (if b then Then else Else)) -> e = e') ->
    iter_filter f fl = [] \/ exists p, iter_filter f fl = [(b, p)]).
  { intros b f Hf Hu. destruct (at_most_one (iter_filter f fl)) as [->|([b' p] & Hp)]; [by apply NoDup_ListNoDup, List.NoDup_filter, NoDup_ListNoDup| |by left|].
    - intros [b1 [e1 c1]] [b2 [e2 c2]] [H1 Hb1%Hf]%Hin [H2 Hb2%Hf]%Hin. cbn in Hb1, Hb2. subst b1 b2. apply Hfb in H1, H2. cbn in H1, H2.
      assert (e1 = e2) as -> by (by eapply Hu). rewrite H1 in H2. by injection H2 as ->.
    - right. exists p. rewrite Hp. assert (Hb : (b', p) ∈ iter_filter f fl) by (rewrite Hp; constructor). apply Hin in Hb as [_ Hb%Hf]. cbn in Hb. by subst b'. }
  assert (Hsplit : (snd <$> iter_filter fst fl) ++ (snd <$> iter_filter (fun p => negb p.1) fl) ≡ₚ l).
  { rewrite <-Hs, <-(flagged_split fl), reverse_Permutation, Permutation_app_comm. done. }
  destruct (Hone true fst) as [Ht|(t & Ht)]; [done|apply (fl_one_then q0 n Hfl)| |].
  { destruct (fl_then q0 n Hfl) as (e & c & He). assert (Hc : (e, c) ∈ l) by (apply Hl; by eexists). rewrite <-Hs in Hc. apply list_elem_of_fmap in Hc as ([b p] & Hp & Hb).
    cbn in Hp. subst p. pose proof (Hfb _ _ Hb) as He'. cbn in He'. rewrite He in He'. destruct b; [|done]. assert (Hx : (true, (e, c)) ∈ iter_filter fst fl) by (by apply Hin).
    rewrite Ht in Hx. by apply not_elem_of_nil in Hx. }
  rewrite Ht in *. destruct (Hone false (fun p => negb p.1)) as [He|(e & He)]; [by intros [[] x]|apply (fl_one_else q0 n Hfl)| |]; rewrite He in *.
  - exists t, []. split_and!; [done..|cbn; lia|done].
  - exists t, [e]. split_and!; [done..|done].
Qed.
Lemma flow_builds pe f : nodes q0 !! n = Some (Some (NodeFlow f)) -> parent_edges_ok n pe -> builds n (build_flow_expression idm node_fmt build n pe) (safe (names n)).
Proof.
  intros Hn Hpe q Hf. pose proof (tr_flows q0 Hq0 n f Hn) as Hfl. unfold build_flow_expression.
  assert (Hnq : nodes q !! n = Some (Some (NodeFlow f))) by (rewrite (fs_nodes _ _ _ Hf); [done|constructor]).
  rewrite (eff_bind_Ok _ _ q (NodeFlow f) q) by (unfold read_g; rewrite (node_content_ok HPG _ _ _ Hnq); done). destruct f as [cond].
  destruct (marked q Hf) as (q1 & Hm & Hf1 & Hfb & Hn1 & He1). rewrite (eff_bind_Ok _ _ _ _ _ Hm).
  destruct (child_pairs_shape (E := InterpreterError ConnectorError) q1 n (fresh_shape _ _ Hfb)) as (l & Hl & Hnd & Hel).
  rewrite (eff_bind_Ok _ _ q1 l q1) by (unfold read_g; by rewrite Hl).
  destruct (branch_flags q1 l Hfl Hfb) as (fl & Hfm & Hfs & Hfb'); [intros p; apply Hel|]. rewrite (eff_bind_Ok _ _ q1 fl q1) by (unfold read_g; by rewrite Hfm).
  destruct (branches l fl Hfl Hnd Hel Hfs Hfb') as (t & e & Ht & He & Hlen & Hperm). rewrite Ht, He.
  rewrite (eff_bind_Ok _ _ q1 (true, t) q1) by done. cbv zeta. cbn [snd].
  assert (Hlast : forall p, p ∈ l <-> child_edge n p /\ last_parent R n p.2).
  { intros p. rewrite Hel. split; [|by intros [? _]]. intros (w & Hw). split; [by exists w|]. by eapply fl_branch. }
  assert (Hk : kids n ([t] ++ e)) by (eapply kids_perm; [symmetry; exact Hperm|]; split; [done|]; by intros p [_ Hp]%Hlast).
  assert (Hall : forall m, below n m <-> T t.2 m \/ below_all snd e m).
  { intros m. rewrite <-(kids_below n l m Hlast). unfold below_all. setoid_rewrite <-Hperm. setoid_rewrite elem_of_cons. naive_solver. }
  apply kids_app in Hk as (Hk1 & Hk2 & Hap).
  assert (Hap' : forall m, T t.2 m -> below_all snd e m -> False) by (intros m Hm1; apply Hap; exists t; split; [constructor|done]).
  destruct (child_builds t.2) with q1 as (then_expr & q2 & Hx & Hf2 & Ht2 & Hs2); [apply Hk1; constructor|eapply fresh_mono; [|exact Hfb]; intros m Hm1; apply Hall; by left|].
  rewrite (eff_bind_Ok _ _ _ _ _ Hx). destruct (children_build e q2 Hk2) as (else_exprs & q3 & Hy & Hf3 & Ht3 & Hs3).
  { eapply fresh_frame; [eapply fresh_mono; [|exact Hfb]|exact Hf2|]; [intros m Hm1; apply Hall; by right|]. intros m H2 H1. by apply (Hap' m). }
  rewrite (eff_bind_Ok _ _ q2 else_exprs q3) by (destruct e as [|x [|]]; [exact Hy|exact Hy|cbn in Hlen; lia]).
  assert (Hf13 : frame (below n) q1 q3) by (eapply frame_trans; (eapply frame_mono; [|eassumption]); intros m Hm1; apply Hall; auto).
  assert (Ht13 : taken (below n) q3) by (intros m [Hm1|Hm1]%Hall; [eapply taken_frame; [exact Ht2|exact Hf3|exact Hap'|exact Hm1]|by apply Ht3]).
  destruct (untouched pe q q1 q3) as [Hn3 Hin]; [done..|]. clear Hx Hy Hf2 Hf3 Ht2 Ht3.
  assert (Hnb : forall x, safe (inner n) x -> safe (names n) x).
  { intros x. apply safe_mono. intros s. apply inner_names. intros (c & Hc & Hkc). rewrite Hn in Hc. by injection Hc as <-. }
  destruct (take_node pe (NodeFlow (FlowIf cond)) (fun n => flow ← map_err InterpGraphError (node_into_flow node_fmt n); let '(FlowIf cond) := flow in Ok (EIf cond [then_expr] else_exprs))
    (EIf cond [then_expr] else_exprs) q3) as (q4 & x & q5 & Hp & Hx & Hf5 & Hn5 & Hs5); [by rewrite Hn3|done|done|done| |].
  { intros [q5|[c]|c|]; cbn; try (by apply no_miss_err). apply safe_if; [constructor; [by apply Hnb|constructor]|]. eapply Forall_impl; [exact Hs3|exact Hnb]. }
  rewrite (eff_bind_Ok _ _ _ _ _ Hp). exists x, q5. split; [exact Hx|].
  destruct (node_done q q3 q5) as [Hff Htt]; [|done|done|by left|done]. eapply frame_trans; [exact Hf1|]. by apply frame_below.
Qed.
End node_kinds.
(** *** Every node, every root *)
Abbreviation bexpr := (build_expression (ConnectorError := ConnectorError) idm node_fmt hash_order stack).
Lemma build_expression_ok fuel : forall seen n pe, on_path q0 seen n -> n < length (nodes q0) -> length (nodes q0) < fuel + length seen -> parent_edges_ok n pe ->
  builds n (bexpr fuel n pe) (safe (names n)).
Proof.
  induction fuel as [|fuel IH]; intros seen n pe Hp Hlen Hfuel Hpe; [pose proof (on_path_length _ _ _ Hp); lia|].
  assert (Hb : forall c pe, last_parent R n c -> parent_edges_ok c pe -> builds c (bexpr fuel c pe) (safe (names c))).
  { intros c pe' [Hc _] Hpe'. apply (IH (n :: seen)); [apply on_path_cons; [apply Hq0|apply Hq0|done|done]|by apply (tr_range q0 Hq0 _ _ Hc)|cbn; lia|done]. }
  destruct (lookup_lt_is_Some_2 _ _ Hlen) as [oc Hoc]. destruct (tr_nodes q0 Hq0 _ _ Hoc) as [c ->]. intros q Hf.
  assert (Hnq : nodes q !! n = Some (Some c)) by (rewrite (fs_nodes _ _ _ Hf); [done|constructor]).
  cbn [build_expression]. rewrite (eff_bind_Ok _ _ q c q) by (unfold read_g; by rewrite (node_content_ok HPG _ _ _ Hnq)).
  destruct c; revert q Hf Hnq; intros q Hf _.
  - by eapply query_builds.
  - by eapply flow_builds.
  - by eapply computation_builds.
  - by eapply empty_builds.
Qed.
Lemma roots_spec n : n ∈ root_nodes q0 <-> n < length (nodes q0) /\ forall p, ~ R p n.
Proof.
  unfold root_nodes. rewrite (node_indices_ok (PetgraphOk := HPG)), list_elem_of_In, List.filter_In, <-list_elem_of_In, elem_of_seq. change (raw_nodes (graph q0)) with (nodes q0).
  pose proof (edges_directed_ok (PetgraphOk := HPG) _ _ (graph q0) n Incoming) as Hi. split; intros [Hl Hr]; (split; [lia|]).
  - intros p (e & w & He)%edge_rel_lookup. destruct (edges_directed _ _ _) as [|x l] eqn:Ed; [|done]. apply (not_elem_of_nil e), Hi. by exists ((p, n), w).
  - destruct (edges_directed _ _ _) as [|e l] eqn:Ed; [done|]. destruct (proj1 (Hi e)) as ([[p b] w] & He & Hb); [constructor|]. cbn in Hb. subst b.
    exfalso. apply (Hr p), edge_rel_lookup. by exists e, w.
Qed.
Lemma roots_nodup : NoDup (root_nodes q0).
Proof. unfold root_nodes. rewrite (node_indices_ok (PetgraphOk := HPG)). apply NoDup_ListNoDup, List.NoDup_filter, NoDup_ListNoDup, NoDup_seq. Qed.
Lemma roots_apart r r' m : r ∈ root_nodes q0 -> r' ∈ root_nodes q0 -> r <> r' -> T r m -> T r' m -> False.
Proof.
  intros [_ Hr]%roots_spec [_ Hr']%roots_spec Hne Hm Hm'.
  pose proof (reach_last_parents R (parents q0) (parents_elem q0) (edge_rel_wf q0 (tr_range q0 Hq0) (tr_acyclic q0 Hq0)) (tr_related q0 Hq0)) as Hl.
  assert (Hno : forall a b, (forall p, ~ R p b) -> a <> b -> rtc (last_parent R) a b -> False).
  { intros a b Hb Hab [->|(y & _ & [Hy _])]%rtc_inv_r; [done|]. by apply (Hb y). }
  destruct (chains R (tr_acyclic q0 Hq0) r r' m (Hl _ _ Hm) (Hl _ _ Hm')) as [Hrr|Hrr]; [by apply (Hno r r')|by apply (Hno r' r)].
Qed.
Lemma below_root m : m < length (nodes q0) -> below_all id (root_nodes q0) m.
Proof.
  induction (edge_rel_wf q0 (tr_range q0 Hq0) (tr_acyclic q0 Hq0) m) as [m _ IH]. intros Hm. destruct (parents q0 m) as [|p l] eqn:Ep.
  - exists m. split; [|constructor]. apply roots_spec. split; [done|]. intros p Hp%parents_elem. rewrite Ep in Hp. by apply not_elem_of_nil in Hp.
  - assert (Hp : R p m) by (apply parents_elem; rewrite Ep; constructor). destruct (IH p Hp) as (r & Hr & Hrp); [by apply (tr_range q0 Hq0 _ _ Hp)|].
    exists r. split; [done|]. by eapply rtc_r.
Qed.
Lemma translate_ok : exists x q', translate (ConnectorError := ConnectorError) idm node_fmt hash_order stack q0 = (Ok x, q') /\
  taken (fun m => m < length (nodes q0)) q' /\ safe (fun _ => False) x.
Proof.
  destruct (eff_map_builds id (fun r => bexpr stack r []) (fun r => safe (names r)) (root_nodes q0)) with q0 as (xs & q' & Hx & _ & Ht & Hs).
  - rewrite list_fmap_id. apply roots_nodup.
  - intros a b m Ha Hb. by apply roots_apart.
  - intros r [Hr _]%roots_spec. apply (build_expression_ok stack []); [split; [constructor|by intros s ?%not_elem_of_nil]|done|cbn; lia|].
    split; [constructor|]. by intros e ?%not_elem_of_nil.
  - intros r Hr. split; try done. intros m _. rewrite (tr_visited q0 Hq0). apply not_elem_of_nil.
  - exists (Sequence xs), q'. split; [|split].
    + unfold translate. rewrite (eff_bind_Ok _ _ q0 (root_nodes q0) q0) by done. unfold id in Hx. by rewrite (eff_bind_Ok _ _ _ _ _ Hx).
    + intros m Hm. apply Ht. by apply below_root.
    + apply safe_sequence, Forall_lookup. intros i x Hi. destruct (Forall2_lookup_r _ _ _ _ _ Hs Hi) as (r & Hr & Hsx). eapply safe_mono; [|exact Hsx].
      intros s (a & _ & _ & Ha). apply list_elem_of_lookup_2, roots_spec in Hr as [_ Hr]. apply tc_last in Ha as (y & _ & Hy). by apply (Hr y).
Qed.
End building.

(** * Translated query graphs run without missing a binding *)
Section translated.
Context `{VT : ValueTypes} {VO : ValueOrd VT} `{IT : Itertools} {GT : GraphTypes} {PG : Petgraph} (HPG : PetgraphOk PG).
Context {Db ConnectorError : Type} (idm : InternalDataModel) {RO : ReadOperations Db ConnectorError} {WO : WriteOperations Db ConnectorError} (json_number : nat -> JsonValue).
Context (node_fmt : Node -> string) (hash_order : list RecordProjection -> list RecordProjection).
(** C27: A graph without cycles and parallel edges, in which any two parents of a node are related and an If node is the last parent of its branches, is translated: no content is asked for twice, the recursion ends within as many calls as there are nodes, and at the end the content of every node has been moved into the expression (empty nodes have none). *)
Theorem translate_total stack q : translatable q -> length (nodes q) < stack ->
  exists x q', translate (ConnectorError := ConnectorError) idm node_fmt hash_order stack q = (Ok x, q') /\
    forall n, n < length (nodes q) -> nodes q' !! n = Some None \/ nodes q' !! n = Some (Some NodeEmpty).
Proof.
  intros Hq Hstack. destruct (translate_ok (Db := Db) HPG idm json_number node_fmt hash_order stack q Hq Hstack) as (x & q' & Hx & Ht & _). by exists x, q'.
Qed.
(** C28: Whatever a connector answers, interpreting the translation of such a graph never fails with a missing binding: the result of a node is bound before the nodes that depend on it are interpreted, and it is still in scope there. *)
Theorem bindings_in_scope stack q x q' : translatable q -> length (nodes q) < stack ->
  translate (ConnectorError := ConnectorError) idm node_fmt hash_order stack q = (Ok x, q') ->
  forall db name, (interpret (Db := Db) idm json_number x ∅ db).1 <> Err (EnvVarNotFound name).
Proof.
  intros Hq Hstack Hx. destruct (translate_ok (Db := Db) HPG idm json_number node_fmt hash_order stack q Hq Hstack) as (y & q2 & Hy & _ & Hs).
  rewrite Hx in Hy. injection Hy as <- <-. intros db name. apply Hs. by intros n.
Qed.
End translated.

(** ** An upsert whose result depends on two of its ancestors *)
#[local] Existing Instance sample_values.
#[local] Existing Instance sample_itertools.
Definition keep_result (n : Node) (r : ExpressionResult) : outcome QueryGraphBuilderError Node := Ok n.
Definition after_create : list ((nat * nat) * Guard QueryGraphDependency) :=
  [((0, 1), Some (ParentProjection names_projection keep_node)); ((0, 2), Some (ParentProjection names_projection keep_node));
   ((1, 2), Some (ParentProjection names_projection keep_node)); ((1, 3), Some (ParentResult keep_result)); ((3, 4), Some Then); ((3, 5), Some Else)].
Definition conditional_nodes : list (Guard Node) :=
  [Some (NodeQuery read_by_name); Some (NodeQuery create_user); Some (NodeQuery read_by_name); Some (NodeFlow default_if); Some (NodeQuery create_user); Some NodeEmpty].
Definition conditional_graph : QueryGraph := mkQueryGraph (conditional_nodes, after_create) [2] [] true true [].
Ltac each_edge H :=
  change (edges conditional_graph) with after_create in H; unfold after_create in H;
  repeat (apply elem_of_cons in H as [H|H]; [simplify_eq|]); [..|by apply not_elem_of_nil in H].
Lemma conditional_edge a b : edge_rel conditional_graph a b <-> (a, b) ∈ [(0, 1); (0, 2); (1, 2); (1, 3); (3, 4); (3, 5)].
Proof.
  split; [intros (w & Hw); each_edge Hw; repeat constructor|]. intros H. unfold edge_rel. change (edges conditional_graph) with after_create.
  repeat (apply elem_of_cons in H as [[= -> ->]|H]; [eexists; repeat constructor|]). by apply not_elem_of_nil in H.
Qed.
Ltac each_pair H := apply conditional_edge in H; repeat (apply elem_of_cons in H as [H|H]; [simplify_eq|]); [..|by apply not_elem_of_nil in H].
Lemma conditional_up a b : tc (edge_rel conditional_graph) a b -> a < b.
Proof. induction 1 as [a b H|a b c H _ IH]; each_pair H; lia. Qed.
Lemma conditional_lookup e x : edges conditional_graph !! e = Some x -> after_create !! e = Some x.
Proof. done. Qed.
Lemma conditional_last c : c = 4 \/ c = 5 -> last_parent (edge_rel conditional_graph) 3 c.
Proof.
  intros Hc. split; [apply conditional_edge; destruct Hc as [->| ->]; repeat constructor|]. intros p H Hne. exfalso. each_pair H; try lia; by destruct Hc.
Qed.
Lemma conditional_translatable : translatable conditional_graph.
Proof.
  split.
  - intros a b H. each_pair H; cbn; lia.
  - intros n Hn%conditional_up. lia.
  - intros n c Hn. change (conditional_nodes !! n = Some c) in Hn. do 6 (destruct n as [|n]; [injection Hn as <-; by eexists|]). by destruct n.
  - intros e x He%list_elem_of_lookup_2. each_edge He; by eexists.
  - apply (bool_decide_unpack _). vm_compute. exact I.
  - intros p p' n H H'. each_pair H; each_pair H'; try lia; (try by left); right; [left|right]; apply tc_once, conditional_edge; repeat constructor.
  - intros n f Hn. change (conditional_nodes !! n = Some (Some (NodeFlow f))) in Hn. destruct n as [|[|[|[|[|[|n]]]]]]; try discriminate Hn. clear Hn f. split.
    + intros e c w He%list_elem_of_lookup_2. each_edge He; (split; [by auto|]); apply conditional_last; auto.
    + by exists 4, 4.
    + intros e e' c c' He He'. change (after_create !! e = Some ((3, c), Some Then)) in He. change (after_create !! e' = Some ((3, c'), Some Then)) in He'.
      destruct e as [|[|[|[|[|[|e]]]]]]; try discriminate He. destruct e' as [|[|[|[|[|[|e']]]]]]; try discriminate He'. done.
    + intros e e' c c' He He'. change (after_create !! e = Some ((3, c), Some Else)) in He. change (after_create !! e' = Some ((3, c'), Some Else)) in He'.
      destruct e as [|[|[|[|[|[|e]]]]]]; try discriminate He. destruct e' as [|[|[|[|[|[|e']]]]]]; try discriminate He'. done.
  - intros e a b d He%list_elem_of_lookup_2 Hd. each_edge He; try discriminate Hd; by eexists.
  - done.
Qed.
#[local] Instance quiet_reads : ReadOperations unit string := fixed_connection [] [] [].
#[local] Instance quiet_writes : WriteOperations unit string := {|
  op_create_record _ _ := throw "read only"; op_update_records _ _ _ := throw "read only"; op_delete_records _ _ := throw "read only";
  op_connect _ _ _ := throw "read only"; op_disconnect _ _ _ := throw "read only"; op_execute_raw _ _ := throw "read only"; op_query_raw _ _ := throw "read only" |}.
Definition blank_json (n : nat) : @JsonValue sample_graph_types := EmptyString.
Definition blank_fmt (n : Node) : string := EmptyString.
Lemma translate_total_witness : exists x q', translate (ConnectorError := string) user_idm blank_fmt id 7 conditional_graph = (Ok x, q') /\
  (nodes q' !! 2 = Some None \/ nodes q' !! 2 = Some (Some NodeEmpty)).
Proof.
  destruct (translate_total (Db := unit) (ConnectorError := string) sample_petgraph_ok user_idm blank_json blank_fmt id 7 conditional_graph conditional_translatable) as (x & q' & Hx & Hn); [cbn; lia|].
  exists x, q'. split; [exact Hx|]. apply Hn. cbn. lia.
Defined.
Lemma bindings_in_scope_witness : exists x q', translate (ConnectorError := string) user_idm blank_fmt id 7 conditional_graph = (Ok x, q') /\
  (interpret (Db := unit) user_idm blank_json x ∅ tt).1 <> Err (EnvVarNotFound "0").
Proof.
  destruct (translate_ok (Db := unit) (ConnectorError := string) sample_petgraph_ok user_idm blank_json blank_fmt id 7 conditional_graph conditional_translatable) as (x & q' & Hx & _); [cbn; lia|].
  exists x, q'. split; [exact Hx|].
  refine (bindings_in_scope (Db := unit) (ConnectorError := string) sample_petgraph_ok user_idm blank_json blank_fmt id 7 conditional_graph x q' conditional_translatable _ Hx tt "0").
  cbn. lia.
Defined.
