(* ===== verification/QueryDocument.v ===== *)
(** * Query documents (query-engine/core/src/query_document: mod.rs, operation.rs, selection.rs, query_value.rs)

    What a request asks for, before it is checked against the schema, and the
    compaction of several findOne queries into one findMany query. *)
From stdpp Require Import pretty gmap.
From S2P Require Import Prelude SqlSchema Dml Converter Models Projections Filters QueryAst.

(** ** Ordered maps ([BTreeMap<String, _>]): entries in the order of their keys *)
Section btree_map.
Context {A : Type}.
Fixpoint map_put (k : string) (v : A) (m : list (string * A)) : list (string * A) :=
  match m with
  | [] => [(k, v)]
  | (k', v') :: m' =>
      match String.compare k k' with
      | Lt => (k, v) :: m
      | Eq => (k, v) :: m'
      | Gt => (k', v') :: map_put k v m'
      end
  end.
Definition map_of (l : list (string * A)) : list (string * A) := foldl (fun m p => map_put p.1 p.2 m) [] l.
Definition map_get (m : list (string * A)) (k : string) : option A := snd <$> iter_find (fun p => p.1 ≟ k) m.
Definition map_take (k : string) (m : list (string * A)) : list (string * A) := iter_filter (fun p => negb (p.1 ≟ k)) m.
End btree_map.

(** [str::starts_with] and [str::replacen] with a count of one. *)
Fixpoint drop_prefix (p s : string) : option string :=
  match p, s with
  | EmptyString, _ => Some s
  | String a p, String b s => if Ascii.eqb a b then drop_prefix p s else None
  | _, EmptyString => None
  end.
Definition str_starts_with (p s : string) : bool := match drop_prefix p s with Some _ => true | None => false end.
Fixpoint replace_once (pat to s : string) : string :=
  match drop_prefix pat s with
  | Some rest => to +:+ rest
  | None => match s with EmptyString => EmptyString | String c s => String c (replace_once pat to s) end
  end.

Section documents.
Context `{VT : ValueTypes} {VO : ValueOrd VT} `{IT : Itertools}.

(** ** [QueryValue] *)
Inductive QueryValue : Type :=
| QV_Int (z : Z)
| QV_Float (d : Decimal)
| QV_String (s : string)
| QV_Boolean (b : bool)
| QV_Null
| QV_Enum (s : string)
| QV_List (l : list QueryValue)
| QV_Object (o : list (string * QueryValue)).
Definition into_object (v : QueryValue) : option (list (string * QueryValue)) := match v with QV_Object o => Some o | _ => None end.
Fixpoint QueryValue_from (v : PrismaValue) : QueryValue :=
  match v with
  | PV_String s => QV_String s
  | PV_Float f => QV_Float f
  | PV_Boolean b => QV_Boolean b
  | PV_DateTime dt => QV_String (stringify_date dt)
  | PV_Enum s => QV_Enum s
  | PV_List l => QV_List (QueryValue_from <$> l)
  | PV_Int i => QV_Int i
  | PV_Null => QV_Null
  | PV_Uuid u => QV_String (uuid_fmt u)
  | PV_Json s => QV_String s
  end.
Fixpoint QueryValue_eqb (a b : QueryValue) : bool :=
  let fix list_eq (l k : list QueryValue) : bool :=
    match l, k with [], [] => true | x :: l, y :: k => QueryValue_eqb x y && list_eq l k | _, _ => false end in
  let fix pairs_eq (l k : list (string * QueryValue)) : bool :=
    match l, k with
    | [], [] => true
    | (n, x) :: l, (m, y) :: k => (n ≟ m) && QueryValue_eqb x y && pairs_eq l k
    | _, _ => false
    end in
  match a, b with
  | QV_Int x, QV_Int y => (x =? y)%Z
  | QV_Float x, QV_Float y => decimal_eqb x y
  | QV_String x, QV_String y => x ≟ y
  | QV_Boolean x, QV_Boolean y => Bool.eqb x y
  | QV_Null, QV_Null => true
  | QV_Enum x, QV_Enum y => x ≟ y
  | QV_List x, QV_List y => list_eq x y
  | QV_Object x, QV_Object y => pairs_eq x y
  | _, _ => false
  end.

(** ** [Selection] *)
Inductive Selection : Type := mkSelection (name : string) (alias : option string) (arguments : list (string * QueryValue)) (nested : list Selection).
Definition sel_name (s : Selection) : string := match s with mkSelection n _ _ _ => n end.
Definition sel_alias (s : Selection) : option string := match s with mkSelection _ a _ _ => a end.
Definition sel_arguments (s : Selection) : list (string * QueryValue) := match s with mkSelection _ _ a _ => a end.
Definition nested_selections (s : Selection) : list Selection := match s with mkSelection _ _ _ n => n end.
Definition argument_eqb (a b : string * QueryValue) : bool := (a.1 ≟ b.1) && QueryValue_eqb a.2 b.2.
(** [PartialEq]; [slice::contains] compares with the element as the left side,
    so the sides change with every level. *)
Fixpoint selection_eqb (swapped : bool) (a b : Selection) {struct a} : bool :=
  match a, b with
  | mkSelection name_a alias_a args_a nested_a, mkSelection name_b alias_b args_b nested_b =>
      (name_a ≟ name_b) && (alias_a ≟ alias_b) && (length args_a ≟ length args_b) && (length nested_a ≟ length nested_b)
      && (if swapped then forallb (fun arg => iter_any (fun x => argument_eqb x arg) args_a) args_b
          else forallb (fun arg => iter_any (fun x => argument_eqb x arg) args_b) args_a)
      && (if swapped then forallb (fun sel => iter_any (fun x => selection_eqb false x sel) nested_a) nested_b
          else forallb (fun sel => iter_any (fun x => selection_eqb true sel x) nested_b) nested_a)
  end.
Definition Selection_eqb : Selection -> Selection -> bool := selection_eqb false.
Definition sel_dedup (s : Selection) : Selection :=
  mkSelection (sel_name s) (sel_alias s) (sel_arguments s) (unique_by sel_name (nested_selections s)).
Definition sel_is_find_one (s : Selection) : bool := str_starts_with "findOne" (sel_name s).
(** [SelectionBuilder]: a selection under construction. *)
Definition Selection_builder (name : string) : Selection := mkSelection name None [] [].
Definition with_alias (a : option string) (s : Selection) : Selection := mkSelection (sel_name s) a (sel_arguments s) (nested_selections s).
Definition push_argument (key : string) (arg : QueryValue) (s : Selection) : Selection :=
  mkSelection (sel_name s) (sel_alias s) (sel_arguments s ++ [(key, arg)]) (nested_selections s).
Definition with_nested (n : list Selection) (s : Selection) : Selection := mkSelection (sel_name s) (sel_alias s) (sel_arguments s) n.
Definition push_nested_selection (x : Selection) (s : Selection) : Selection := with_nested (nested_selections s ++ [x]) s.
Definition contains_nested_selection (s : Selection) (name : string) : bool := iter_any (fun x => sel_name x ≟ name) (nested_selections s).

(** ** [SelectionSet]: the keys and values of several unique filters *)
Inductive SelectionSet : Type :=
| SetSingle (key : string) (vals : list QueryValue)
| SetMulti (keys : list (list string)) (vals : list (list QueryValue))
| SetEmpty.
Definition set_push (column : string) (value : QueryValue) (s : SelectionSet) : SelectionSet :=
  match s with
  | SetSingle key vals => if key ≟ column then SetSingle key (vals ++ [value]) else SetMulti [[key; column]] [vals ++ [value]]
  | SetMulti keys vals =>
      match last keys, last vals with
      | Some ks, Some vs =>
          if negb (iter_any (fun k => k ≟ column) ks)
          then SetMulti (take (length keys - 1) keys ++ [ks ++ [column]]) (take (length vals - 1) vals ++ [vs ++ [value]])
          else SetMulti (keys ++ [[column]]) (vals ++ [[value]])
      | _, _ => SetMulti (keys ++ [[column]]) (vals ++ [[value]])
      end
  | SetEmpty => SetSingle column [value]
  end.
Definition set_len (s : SelectionSet) : nat := match s with SetSingle _ _ => 1 | SetMulti v _ => length v | SetEmpty => 0 end.
Definition set_keys (s : SelectionSet) : list string :=
  match s with SetSingle key _ => [key] | SetMulti keys _ => default [] (head keys) | SetEmpty => [] end.
(** ** [Conjuctive] and [In] *)
Inductive Conjuctive : Type :=
| ConjOr (l : list Conjuctive)
| ConjAnd (l : list Conjuctive)
| ConjSingle (m : list (string * QueryValue))
| ConjNone.
Definition conj_or (c operation : Conjuctive) : Conjuctive :=
  match c with ConjOr l => ConjOr (l ++ [operation]) | ConjNone => operation | _ => ConjOr [c; operation] end.
Definition conj_and (c operation : Conjuctive) : Conjuctive :=
  match c with ConjAnd l => ConjAnd (l ++ [operation]) | ConjNone => operation | _ => ConjAnd [c; operation] end.
Fixpoint conj_value (c : Conjuctive) : QueryValue :=
  match c with
  | ConjNone => QV_Null
  | ConjSingle m => QV_Object m
  | ConjOr l => QV_Object [("OR", QV_List (conj_value <$> l))]
  | ConjAnd l => QV_Object [("AND", QV_List (conj_value <$> l))]
  end.
Definition in_value (s : SelectionSet) : QueryValue :=
  match s with
  | SetMulti key_sets val_sets =>
      conj_value (foldl (fun acc (p : list string * list QueryValue) =>
        conj_or acc (foldl (fun acc (kv : string * QueryValue) => conj_and acc (ConjSingle [kv])) ConjNone (zip p.1 p.2)))
        ConjNone (zip key_sets val_sets))
  | SetSingle key vals => QV_Object [(key +:+ "_in", QV_List vals)]
  | SetEmpty => QV_Null
  end.

(** ** [Operation] *)
Inductive Operation : Type := OpRead (s : Selection) | OpWrite (s : Selection).
Definition op_selection (op : Operation) : Selection := match op with OpRead s | OpWrite s => s end.
Definition op_is_find_one (op : Operation) : bool := match op with OpRead s => sel_is_find_one s | OpWrite _ => false end.
Definition into_read (op : Operation) : option Selection := match op with OpRead s => Some s | OpWrite _ => None end.
Definition into_write (op : Operation) : option Selection := match op with OpWrite s => Some s | OpRead _ => None end.
Definition dedup_selections (op : Operation) : Operation :=
  match op with OpRead s => OpRead (sel_dedup s) | OpWrite s => OpWrite (sel_dedup s) end.
Definition op_name (op : Operation) : string := sel_name (op_selection op).
Definition op_nested (op : Operation) : list Selection := nested_selections (op_selection op).

(** ** [CompactedDocument] *)
Record CompactedDocument : Type := mkCompactedDocument {
  cd_arguments : list (list (string * QueryValue));
  cd_nested_selection : list string;
  cd_operation : Operation;
  cd_keys : list string;
  cd_name : string;
}.
Definition single_name (d : CompactedDocument) : string := "findOne" +:+ cd_name d.
Definition plural_name (d : CompactedDocument) : string := "findMany" +:+ cd_name d.
Definition index_panic : string := "index out of bounds".
(** The entries of one unique filter: those inside for a compound key. *)
Definition key_entries (obj : list (string * QueryValue)) : list (string * QueryValue) :=
  match obj with (_, QV_Object inner) :: _ => inner | _ => obj end.
Definition add_to_set {E} (acc : SelectionSet) (s : Selection) : outcome E SelectionSet :=
  arg ← unwrap index_panic (head (sel_arguments s));
  obj ← unwrap "Trying to compact a selection with non-object argument" (into_object arg.2);
  Ok (foldl (fun acc (p : string * QueryValue) => set_push p.1 p.2 acc) acc (key_entries obj)).
Definition response_key {E} (s : Selection) : outcome E (list (string * QueryValue)) :=
  arg ← unwrap "called `Option::unwrap()` on a `None` value" (last (sel_arguments s));
  obj ← unwrap "called `Option::unwrap()` on a `None` value" (into_object arg.2);
  match last obj with
  | Some (_, QV_Object inner) => Ok inner
  | Some _ => Ok obj
  | None => Panic "internal error: entered unreachable code: No arguments!"
  end.
Definition add_keys (keys : list string) (s : Selection) : Selection :=
  foldl (fun s key => if contains_nested_selection s key then s else push_nested_selection (Selection_builder key) s) s keys.
Definition CompactedDocument_from {E} (ops : list Operation) : outcome E CompactedDocument :=
  selections ← map_m (fun op => unwrap "Trying to compact a write operation." (into_read op)) ops;
  first ← unwrap index_panic (head selections);
  selection_set ← for_each add_to_set selections SetEmpty;
  let builder := with_nested (nested_selections first) (Selection_builder (replace_once "findOne" "findMany" (sel_name first))) in
  let builder := push_argument "where" (in_value selection_set) (add_keys (set_keys selection_set) builder) in
  let selection := with_alias (sel_alias first) builder in
  arguments ← map_m response_key selections;
  args0 ← unwrap index_panic (head arguments);
  let keys := (key_entries args0).*1 in
  Ok (mkCompactedDocument arguments (sel_name <$> nested_selections first) (OpRead selection) keys (replace_once "findOne" EmptyString (sel_name first))).

(** ** [BatchDocument] and [QueryDocument] *)
Inductive BatchDocument : Type := BatchMulti (ops : list Operation) | BatchCompact (d : CompactedDocument).
Definition can_compact (b : BatchDocument) : bool :=
  match b with
  | BatchMulti (first :: rest) =>
      op_is_find_one first
      && forallb (fun op => op_is_find_one op && (op_name first ≟ op_name op) && (length (op_nested first) ≟ length (op_nested op))
           && forallb (fun fop => iter_any (fun x => Selection_eqb x fop) (op_nested op)) (op_nested first)) rest
  | _ => false
  end.
Definition compact {E} (b : BatchDocument) : outcome E BatchDocument :=
  match b with
  | BatchMulti ops => if can_compact b then d ← CompactedDocument_from ops; Ok (BatchCompact d) else Ok b
  | BatchCompact _ => Ok b
  end.
Inductive QueryDocument : Type := DocSingle (op : Operation) | DocMulti (b : BatchDocument).
Definition dedup_operations (d : QueryDocument) : QueryDocument :=
  match d with DocSingle op => DocSingle (dedup_selections op) | DocMulti _ => d end.
End documents.

(** * The query schema (query-engine/core/src/schema: query_schema.rs, enum_type.rs)

    Which operations a client may ask for, with the types of their arguments
    and results. Object types refer to each other; the schema owns them and a
    reference is an index into the schema's lists. *)
Section query_schema.
Context `{VT : ValueTypes} {VO : ValueOrd VT} `{IT : Itertools}.

(** ** Enums and scalars *)
Record OrderByEnumType : Type := mkOrderByEnumType { obe_name : string; obe_values : list (string * OrderBy) }.
Definition value_for (e : OrderByEnumType) (name : string) : option OrderBy := snd <$> iter_find (fun v => v.1 ≟ name) (obe_values e).
Definition obe_value_names (e : OrderByEnumType) : list string := (obe_values e).*1.
Inductive EnumType : Type := EnumInternal (e : InternalEnum) | EnumOrderBy (e : OrderByEnumType).
Definition enum_type_name (e : EnumType) : string := match e with EnumInternal i => ie_name i | EnumOrderBy o => obe_name o end.
Inductive SchemaScalar : Type :=
| SchemaString | SchemaInt | SchemaFloat | SchemaBoolean | SchemaEnum (e : EnumType) | SchemaDateTime | SchemaJson | SchemaJsonList | SchemaUUID.

(** ** Input types *)
Inductive InputType : Type :=
| InScalar (s : SchemaScalar)
| InEnum (e : EnumType)
| InList (t : InputType)
| InObject (ref : nat)
(* may be left out *)
| InOpt (t : InputType)
(* may be null *)
| InNull (t : InputType).
Record InputField : Type := mkInputField { if_name : string; if_type : InputType; if_default_value : option DefaultValue }.
Record InputObjectType : Type := mkInputObjectType { iot_name : string; iot_fields : list InputField }.
Definition iot_find_field (o : InputObjectType) (name : string) : option InputField := iter_find (fun f => if_name f ≟ name) (iot_fields o).
Record SchemaArgument : Type := mkSchemaArgument { sa_name : string; sa_type : InputType; sa_default_value : option DefaultValue }.

(** ** Output types *)
Inductive OutputType : Type :=
| OutEnum (e : EnumType)
| OutList (t : OutputType)
| OutObject (ref : nat)
| OutOpt (t : OutputType)
| OutScalar (s : SchemaScalar).
Fixpoint out_is_list (t : OutputType) : bool := match t with OutOpt inner => out_is_list inner | OutList _ => true | _ => false end.
Fixpoint out_is_object (t : OutputType) : bool := match t with OutOpt inner => out_is_object inner | OutObject _ => true | _ => false end.
(** The kind of an operation on a model. The closure that builds the query of
    an operation is determined by its tag. *)
Inductive QueryTag : Type :=
| TagFindOne | TagFindMany | TagCreateOne | TagUpdateOne | TagUpdateMany | TagDeleteOne | TagDeleteMany | TagUpsertOne | TagAggregate.
Definition QueryTag_fmt (t : QueryTag) : string :=
  match t with
  | TagFindOne => "findOne" | TagFindMany => "findMany" | TagCreateOne => "createOne" | TagUpdateOne => "updateOne" | TagUpdateMany => "updateMany"
  | TagDeleteOne => "deleteOne" | TagDeleteMany => "deleteMany" | TagUpsertOne => "upsertOne" | TagAggregate => "aggregate"
  end.
Inductive SchemaQueryBuilder : Type := ModelQueryBuilder (model : QueryModel) (tag : QueryTag) | GenericQueryBuilder.
Record SchemaField : Type := mkSchemaField {
  fld_name : string;
  fld_arguments : list SchemaArgument;
  fld_type : OutputType;
  fld_query_builder : option SchemaQueryBuilder;
}.
Record ObjectType : Type := mkObjectType { ot_name : string; ot_fields : list SchemaField; ot_model : option QueryModel }.
Definition ot_find_field (o : ObjectType) (name : string) : option SchemaField := iter_find (fun f => fld_name f ≟ name) (ot_fields o).
Definition ot_is_empty (o : ObjectType) : bool := match ot_fields o with [] => true | _ => false end.

(** ** The schema

    The schema holds the strong references to its object types; a reference in
    a type is weak, and leads to a type only when the schema holds it. *)
Record QuerySchema : Type := mkQuerySchema {
  qs_query : OutputType;
  qs_mutation : OutputType;
  input_object_types : gmap nat InputObjectType;
  output_object_types : gmap nat ObjectType;
  qs_internal_data_model : InternalDataModel;
}.
Definition weak_upgrade : string := "called `Option::unwrap()` on a `None` value".
Definition input_object {E} (qs : QuerySchema) (ref : nat) : outcome E InputObjectType := unwrap weak_upgrade (input_object_types qs !! ref).
Definition output_object {E} (qs : QuerySchema) (ref : nat) : outcome E ObjectType := unwrap weak_upgrade (output_object_types qs !! ref).
Fixpoint as_object_type {E} (qs : QuerySchema) (t : OutputType) : outcome E (option ObjectType) :=
  match t with
  | OutEnum _ | OutScalar _ => Ok None
  | OutList inner | OutOpt inner => as_object_type qs inner
  | OutObject obj => o ← output_object qs obj; Ok (Some o)
  end.
Definition root_object {E} (qs : QuerySchema) (t : OutputType) : outcome E ObjectType :=
  match t with OutObject o => output_object qs o | _ => Panic "internal error: entered unreachable code" end.
Definition query_object {E} (qs : QuerySchema) : outcome E ObjectType := root_object qs (qs_query qs).
Definition mutation_object {E} (qs : QuerySchema) : outcome E ObjectType := root_object qs (qs_mutation qs).
Definition find_query_field {E} (qs : QuerySchema) (name : string) : outcome E (option SchemaField) := o ← query_object qs; Ok (ot_find_field o name).
Definition find_mutation_field {E} (qs : QuerySchema) (name : string) : outcome E (option SchemaField) := o ← mutation_object qs; Ok (ot_find_field o name).
End query_schema.

(** * Checked query documents (query-engine/core/src/query_document: parse_ast.rs, transformers.rs, parser.rs, error.rs)

    Selections are checked against the query schema and turned into a tree that
    the query builders read without further checks. *)
(** ** JSON (the crate serde_json) *)
Class JsonNumbers `{VT : ValueTypes} : Type := {
  JsonNumber : Type;
  number_as_i64 : JsonNumber -> option Z;
  (* the decimal read from the text of the number as a float *)
  number_as_decimal : JsonNumber -> option Decimal;
}.
Inductive Json `{JN : JsonNumbers} : Type :=
| JsonNull
| JsonBool (b : bool)
| JsonNum (n : JsonNumber)
| JsonString (s : string)
| JsonArray (l : list Json)
| JsonObject (o : list (string * Json)).
Definition json_as_array `{JN : JsonNumbers} (j : Json) : option (list Json) := match j with JsonArray l => Some l | _ => None end.
(** The crates that read texts, the order of a [HashSet], and what default
    values are generated from: a uuid and a cuid per field and the present time. *)
Class DocumentParsers `{JN : JsonNumbers} : Type := {
  json_from_str : string -> outcome string Json;
  json_string_from_str : string -> option string;
  datetime_from_str : string -> string -> outcome string DateTimeUtc;
  uuid_parse_str : string -> outcome string Uuid;
  decimal_from_i64 : Z -> Decimal;
  decimal_to_i64 : Decimal -> option Z;
  hash_iter : list string -> list string;
  fresh_uuid : InputField -> Uuid;
  fresh_cuid : InputField -> string;
  present_time : DateTimeUtc;
}.
(** What the theorems rely on: iterating a [HashSet] meets every element once. *)
Class DocumentParsersOk `{DP : DocumentParsers} : Prop := { hash_iter_perm : forall l, NoDup l -> hash_iter l ≡ₚ l }.

Section parsed_query.
Context `{VT : ValueTypes} {VO : ValueOrd VT} `{IT : Itertools} {JN : JsonNumbers} {DP : DocumentParsers}.

(** ** The parsed tree (parse_ast.rs) *)
Inductive ParsedInputValue : Type :=
| ParsedSingle (v : PrismaValue)
| ParsedOrderBy (o : OrderBy)
| ParsedList (l : list ParsedInputValue)
| ParsedMap (m : list (string * ParsedInputValue)).
Definition ParsedInputMap : Type := list (string * ParsedInputValue).
Record ParsedArgument : Type := mkParsedArgument { pa_name : string; pa_value : ParsedInputValue }.
Inductive ParsedField : Type :=
  mkParsedField (name : string) (alias : option string) (arguments : list ParsedArgument) (nested_fields : option (list ParsedField)) (schema_field : SchemaField).
Definition pf_name (f : ParsedField) : string := match f with mkParsedField n _ _ _ _ => n end.
Definition pf_alias (f : ParsedField) : option string := match f with mkParsedField _ a _ _ _ => a end.
Definition pf_arguments (f : ParsedField) : list ParsedArgument := match f with mkParsedField _ _ a _ _ => a end.
Definition pf_nested_fields (f : ParsedField) : option (list ParsedField) := match f with mkParsedField _ _ _ n _ => n end.
Definition pf_schema_field (f : ParsedField) : SchemaField := match f with mkParsedField _ _ _ _ s => s end.
Definition raw_query_type (f : ParsedField) : option RawQueryType :=
  if pf_name f ≟ "executeRaw" then Some RawExecute else if pf_name f ≟ "queryRaw" then Some RawQuery else None.
Definition into_value (a : ParsedArgument) : option PrismaValue := match pa_value a with ParsedSingle v => Some v | _ => None end.
(** [lookup] takes the argument out of the list. *)
Definition lookup_argument (name : string) (l : list ParsedArgument) : option ParsedArgument * list ParsedArgument :=
  match position (fun a => pa_name a ≟ name) l with
  | Some pos => (l !! pos, delete pos l)
  | None => (None, l)
  end.

(** ** Errors (error.rs) *)
Inductive QueryParserError : Type :=
| ParserAssertionError (msg : string)
| RequiredValueNotSetError
| FieldNotFoundError
| ArgumentNotFoundError
| AtLeastOneSelectionError
| ValueParseError (msg : string)
| ValueTypeMismatchError (have : QueryValue) (want : InputType)
| FieldValidationError (field_name : string) (inner : QueryParserError)
| ArgumentValidationError (argument : string) (inner : QueryParserError)
| ObjectValidationError (object_name : string) (inner : QueryParserError).
Fixpoint error_location (e : QueryParserError) : string :=
  match e with
  | FieldValidationError name inner | ArgumentValidationError name inner | ObjectValidationError name inner => "." +:+ name +:+ error_location inner
  | _ => EmptyString
  end.
Fixpoint as_missing_value_error_recursive (path : list string) (e : QueryParserError) : option (list string) :=
  match e with
  | RequiredValueNotSetError => Some path
  | FieldValidationError name inner | ObjectValidationError name inner | ArgumentValidationError name inner => as_missing_value_error_recursive (path ++ [name]) inner
  | _ => None
  end.
Abbreviation PResult := (outcome QueryParserError).

(** ** Assertions *)
Definition null_value_error : QueryParserError :=
  ParserAssertionError "You provided a null value for a where clause (or implicit nested selector). Please provide a non null value.".
Fixpoint assert_non_null (v : ParsedInputValue) : PResult unit :=
  match v with
  | ParsedList l =>
      (fix all (l : list ParsedInputValue) : PResult unit := match l with [] => Ok tt | x :: l => _ ← assert_non_null x; all l end) l
  | ParsedMap m =>
      (fix all (m : list (string * ParsedInputValue)) : PResult unit := match m with [] => Ok tt | (_, x) :: m => _ ← assert_non_null x; all m end) m
  | ParsedSingle PV_Null => Err null_value_error
  | ParsedSingle _ | ParsedOrderBy _ => Ok tt
  end.
Fixpoint join_names (l : list string) : string := match l with [] => EmptyString | [x] => x | x :: l => x +:+ ", " +:+ join_names l end.
Definition map_assert_size (size : nat) (m : ParsedInputMap) : PResult unit :=
  if negb (length m ≟ size)
  then Err (ParserAssertionError ("Expected object to have exactly " +:+ pretty size +:+ " key-value pairs, got: " +:+ pretty (length m) +:+ " "
              +:+ (if join_names m.*1 ≟ EmptyString then EmptyString else "(" +:+ join_names m.*1 +:+ ")")))
  else Ok tt.
Definition map_assert_non_null (m : ParsedInputMap) : PResult unit := assert_non_null (ParsedMap m).

(** ** Conversions (transformers.rs) *)
Context (debug_parsed : ParsedInputValue -> string).
Fixpoint try_into_value (v : ParsedInputValue) : PResult PrismaValue :=
  match v with
  | ParsedSingle val => Ok val
  | ParsedList values => l ← map_m try_into_value values; Ok (PV_List l)
  | v => Err (ParserAssertionError ("Attempted conversion of ParsedInputValue (" +:+ debug_parsed v +:+ ") into PrismaValue failed."))
  end.
Definition try_into_map (v : ParsedInputValue) : PResult ParsedInputMap :=
  match v with
  | ParsedMap m => Ok m
  | v => Err (ParserAssertionError ("Attempted conversion of non-map ParsedInputValue (" +:+ debug_parsed v +:+ ") into map failed."))
  end.
Definition try_into_opt_map (v : ParsedInputValue) : PResult (option ParsedInputMap) :=
  match v with
  | ParsedSingle PV_Null => Ok None
  | ParsedMap m => Ok (Some m)
  | v => Err (ParserAssertionError ("Attempted conversion of non-map ParsedInputValue (" +:+ debug_parsed v +:+ ") into Option map failed."))
  end.
Definition try_into_order_by (v : ParsedInputValue) : PResult OrderBy :=
  match v with
  | ParsedOrderBy o => Ok o
  | v => Err (ParserAssertionError ("Attempted conversion of non-order-by enum (" +:+ debug_parsed v +:+ ") into order by enum value failed."))
  end.
Definition try_into_opt_int (v : ParsedInputValue) : PResult (option Z) :=
  pv ← try_into_value v;
  match pv with
  | PV_Int i => Ok (Some i)
  | PV_Null => Ok None
  | pv => Err (ParserAssertionError ("Attempted conversion of non-int Prisma value type (" +:+ debug_value pv +:+ ") into int failed."))
  end.
End parsed_query.
