(* ===== verification/ReadBuilder.v ===== *)
(** * Building read queries (query-engine/core/src/query_graph_builder: error.rs, extractors, read) *)
From stdpp Require Import pretty.
From S2P Require Import Prelude Effects SqlSchema Dml Converter Models Projections Filters QueryAst QueryGraph QueryDocument.

(** ** Suffixes of names ([str::ends_with], [str::trim_end_matches]) *)
Definition drop_suffix (suffix s : string) : option string := String.rev <$> drop_prefix (String.rev suffix) (String.rev s).
Fixpoint trim_suffix (fuel : nat) (suffix s : string) : string :=
  match fuel with
  | O => s
  | Datatypes.S fuel => match drop_suffix suffix s with Some s' => trim_suffix fuel suffix s' | None => s end
  end.
(** An empty pattern matches at the end without taking anything away. *)
Definition trim_end_matches (suffix s : string) : string :=
  match suffix with EmptyString => s | _ => trim_suffix (String.length s) suffix s end.

(** ** Operators of filters *)
Inductive FilterOp : Type :=
| OpIn | OpNotIn | OpNot | OpLt | OpLte | OpGt | OpGte | OpContains | OpNotContains | OpStartsWith | OpNotStartsWith | OpEndsWith | OpNotEndsWith
| OpSome | OpNone | OpEvery | OpInlined | OpNestedAnd | OpNestedOr | OpNestedNot | OpField.
Definition op_suffix (op : FilterOp) : string :=
  match op with
  | OpIn => "_in" | OpNotIn => "_not_in" | OpNot => "_not" | OpLt => "_lt" | OpLte => "_lte" | OpGt => "_gt" | OpGte => "_gte"
  | OpContains => "_contains" | OpNotContains => "_not_contains" | OpStartsWith => "_starts_with" | OpNotStartsWith => "_not_starts_with"
  | OpEndsWith => "_ends_with" | OpNotEndsWith => "_not_ends_with" | OpSome => "_some" | OpNone => "_none" | OpEvery => "_every" | OpInlined => "_inlined"
  | OpNestedAnd => "AND" | OpNestedOr => "OR" | OpNestedNot => "NOT" | OpField => EmptyString
  end.
Definition filter_operations : list FilterOp :=
  [OpNotIn; OpNotContains; OpNotStartsWith; OpNotEndsWith; OpIn; OpNot; OpLt; OpLte; OpGt; OpGte; OpContains; OpStartsWith; OpEndsWith; OpSome; OpNone; OpEvery;
   OpInlined; OpNestedAnd; OpNestedOr; OpNestedNot; OpField].
Definition find_op {E} (name : string) : outcome E FilterOp :=
  unwrap "Expected filter operation to always default to FilterOp::Field instead of failing."
    (iter_find (fun op => match drop_suffix (op_suffix op) name with Some _ => true | None => false end) filter_operations).

Section builder_error.
Context `{VT : ValueTypes}.
Record RelationViolation : Type := mkRelationViolation { rv_relation_name : string; rv_model_a_name : string; rv_model_b_name : string }.
Inductive BuilderError : Type :=
| BuilderSchemaError (msg : string)
| BuilderInputError (msg : string)
| MissingRequiredArgument (argument_name field_name object_name : string)
| BuilderParserError (e : QueryParserError)
| BuilderDomainError (e : DomainError)
| BuilderAssertionError (msg : string)
| BuilderRelationViolation (v : RelationViolation)
| RecordsNotConnected (relation_name parent_name child_name : string)
| RecordNotFound (msg : string)
| BuilderGraphError (e : QueryGraphError).
End builder_error.
#[export] Instance builder_graph_types `{JN : JsonNumbers} : GraphTypes := {| QueryGraphBuilderError := BuilderError; JsonValue := Json |}.

Section extractors.
Context `{VT : ValueTypes} {VO : ValueOrd VT} `{IT : Itertools}.
Context (debug_parsed : ParsedInputValue -> string) (idm : InternalDataModel).
Abbreviation BResult := (outcome BuilderError).
Definition of_parser {A} (m : outcome QueryParserError A) : BResult A := map_err BuilderParserError m.
Definition builder_unreachable : string := "internal error: entered unreachable code".
Definition RelationViolation_from (rf : RelationField) : BResult RelationViolation :=
  r ← rf_relation idm rf;
  a ← model_a_of idm r;
  b ← model_b_of idm r;
  Ok (mkRelationViolation (r_name r) (qm_name a) (qm_name b)).

(** ** Compound fields (extractors/utils.rs, schema_builder/utils.rs) *)
Fixpoint join_underscore (l : list string) : string := match l with [] => EmptyString | [x] => x | x :: l => x +:+ "_" +:+ join_underscore l end.
Definition compound_id_field_name (names : list string) : string := join_underscore names.
Definition compound_index_field_name (m : QueryModel) (i : IndexTemplate) : BResult string :=
  match it_name i with Some n => Ok n | None => fs ← mi_fields m i; Ok (join_underscore (sf_name <$> (fs : list ScalarField))) end.
Definition resolve_compound_id (name : string) (m : QueryModel) : BResult (option (list ScalarField)) :=
  id ← fields_id idm (qm_fields m);
  Ok (match id with Some fields => if name ≟ compound_id_field_name (sf_name <$> (fields : list ScalarField)) then Some fields else None | None => None end).
Definition resolve_index_fields (name : string) (m : QueryModel) : BResult (option (list ScalarField)) :=
  index ← find_m (fun i => n ← compound_index_field_name m i; Ok (n ≟ name)) (unique_indexes m);
  match index with Some i => fs ← mi_fields m i; Ok (Some fs) | None => Ok None end.
Definition resolve_compound_field (name : string) (m : QueryModel) : BResult (option (list ScalarField)) :=
  id ← resolve_compound_id name m;
  match id with Some fs => Ok (Some fs) | None => resolve_index_fields name m end.
Definition unresolved (name : string) (m : QueryModel) : BuilderError :=
  BuilderAssertionError ("Unable to resolve field " +:+ name +:+ " to a field or set of fields on model " +:+ qm_name m).

(** ** Filters (extractors/filters.rs) *)
Definition handle_scalar_field (field : ScalarField) (value : ParsedInputValue) (op : FilterOp) : BResult Filter :=
  value ← of_parser (try_into_value debug_parsed value);
  match op, value with
  | OpIn, PV_Null => Ok (equals field PV_Null)
  | OpIn, PV_List values => Ok (is_in field values)
  | OpNotIn, PV_Null => Ok (not_equals field PV_Null)
  | OpNotIn, PV_List values => Ok (not_in field values)
  | OpNot, v => Ok (not_equals field v)
  | OpLt, v => Ok (less_than field v)
  | OpLte, v => Ok (less_than_or_equals field v)
  | OpGt, v => Ok (greater_than field v)
  | OpGte, v => Ok (greater_than_or_equals field v)
  | OpContains, v => Ok (contains field v)
  | OpNotContains, v => Ok (not_contains field v)
  | OpStartsWith, v => Ok (starts_with field v)
  | OpNotStartsWith, v => Ok (not_starts_with field v)
  | OpEndsWith, v => Ok (ends_with field v)
  | OpNotEndsWith, v => Ok (not_ends_with field v)
  | OpField, v => Ok (equals field v)
  | _, _ => Panic builder_unreachable
  end.
(** The entry of a map, taken out and turned into a value; [unwrap] when it is missing. *)
Definition take_value (key : ScalarField -> string) (s : ParsedInputMap * list Filter) (sf : ScalarField) : BResult (ParsedInputMap * list Filter) :=
  v ← unwrap unwrap_none (map_get s.1 (key sf));
  pv ← of_parser (try_into_value debug_parsed v);
  Ok (map_take (key sf) s.1, s.2 ++ [equals sf pv]).
Definition handle_relation_field_selector (field : RelationField) (value : ParsedInputValue) : BResult Filter :=
  match value with
  | ParsedSingle pv =>
      fields ← rf_scalar_fields idm field;
      first ← unwrap unwrap_none (head (fields : list ScalarField));
      Ok (equals first pv)
  | ParsedMap m =>
      fields ← rf_scalar_fields idm field;
      r ← for_each (take_value sf_db_name) fields (m, []);
      Ok (FAnd r.2)
  | _ => Panic builder_unreachable
  end.
Definition handle_compound_field (fields : list ScalarField) (value : ParsedInputValue) : BResult Filter :=
  input_map ← of_parser (try_into_map debug_parsed value);
  r ← for_each (take_value sf_name) fields (input_map, []);
  Ok (FAnd r.2).
Definition resolve_compound (name : string) (model : QueryModel) (value : ParsedInputValue) : BResult Filter :=
  fields ← resolve_compound_field name model;
  fields ← ok_or (unresolved name model) fields;
  handle_compound_field fields value.
Definition unique_entry_filter (model : QueryModel) (p : string * ParsedInputValue) : BResult Filter :=
  match find_from_all model p.1 with
  | Ok (FieldScalar field) => handle_scalar_field field p.2 OpField
  | Ok (FieldRelation field) => handle_relation_field_selector field p.2
  | Err _ => resolve_compound p.1 model p.2
  | Panic msg => Panic msg
  end.
Definition extract_unique_filter (value_map : ParsedInputMap) (model : QueryModel) : BResult Filter :=
  filters ← map_m (unique_entry_filter model) value_map; Ok (FAnd filters).
Definition value_required (filter field : string) : BuilderError :=
  BuilderInputError ("A value is required for the `" +:+ filter +:+ "` filter on `" +:+ field +:+ "`").
(** [handle_relation_field_filter], given the filter that the value describes on the related model. *)
Definition relation_filter (field : RelationField) (op : FilterOp) (inner : option (BResult Filter)) : BResult Filter :=
  match op, inner with
  | OpSome, Some f => f ← f; Ok (at_least_one_related field f)
  | OpNone, Some f => f ← f; Ok (no_related field f)
  | OpEvery, Some f => f ← f; Ok (every_related field f)
  | OpField, Some f => f ← f; Ok (to_one_related field f)
  | OpField, None => Ok (one_relation_is_null field)
  | OpNone, None => Err (value_required "none" (rf_name field))
  | OpSome, None => Err (value_required "some" (rf_name field))
  | _, _ => Panic builder_unreachable
  end.
Definition connective (op : FilterOp) (fs : list Filter) : BResult Filter :=
  match op with OpNestedAnd => Ok (FAnd fs) | OpNestedOr => Ok (FOr fs) | OpNestedNot => Ok (FNot fs) | _ => Panic builder_unreachable end.
Definition is_connective (op : FilterOp) : bool := match op with OpNestedAnd | OpNestedOr | OpNestedNot => true | _ => false end.
Definition is_inlined (op : FilterOp) : bool := match op with OpInlined => true | _ => false end.
Fixpoint extract_filter_value (v : ParsedInputValue) (model : QueryModel) {struct v} : BResult Filter :=
  match v with
  | ParsedMap value_map =>
      filters ←
        (fix entries (m : list (string * ParsedInputValue)) : BResult (list Filter) :=
           match m with
           | [] => Ok []
           | (key, value) :: m =>
               op ← find_op key;
               f ←
                 if is_connective op then
                     fs ← match value with
                          | ParsedList values =>
                              (fix elements (l : list ParsedInputValue) : BResult (list Filter) :=
                                 match l with [] => Ok [] | x :: l => f ← extract_filter_value x model; fs ← elements l; Ok (f :: fs) end) values
                          | ParsedMap _ => f ← extract_filter_value value model; Ok [f]
                          | _ => Panic builder_unreachable
                          end;
                     connective op fs
                 else
                     let field_name := trim_end_matches (op_suffix op) key in
                     match find_from_all model field_name with
                     | Ok (FieldScalar field) => handle_scalar_field field value op
                     | Ok (FieldRelation field) =>
                         if is_inlined op then handle_relation_field_selector field value
                         else
                             match value with
                             | ParsedSingle PV_Null => relation_filter field op None
                             | ParsedMap _ => relation_filter field op (Some (m ← related_model idm field; extract_filter_value value m))
                             | other => Err (BuilderParserError (ParserAssertionError ("Attempted conversion of non-map ParsedInputValue (" +:+ debug_parsed other +:+ ") into Option map failed.")))
                             end
                     | Err _ => resolve_compound field_name model value
                     | Panic msg => Panic msg
                     end;
               fs ← entries m;
               Ok (f :: fs)
           end) value_map;
      Ok (FAnd filters)
  | v => Err (BuilderParserError (ParserAssertionError ("Attempted conversion of non-map ParsedInputValue (" +:+ debug_parsed v +:+ ") into map failed.")))
  end.
Definition extract_filter (value_map : ParsedInputMap) (model : QueryModel) : BResult Filter := extract_filter_value (ParsedMap value_map) model.

(** ** Query arguments (extractors/query_arguments.rs) *)
Definition extract_skip (value : ParsedInputValue) : BResult (option Z) :=
  v ← of_parser (try_into_opt_int debug_parsed value);
  match v with
  | Some z => if (z <? 0)%Z then Err (BuilderAssertionError ("Invalid value for skip argument: Value can only be positive, found: " +:+ pretty z)) else Ok v
  | None => Ok None
  end.
Definition extract_cursor_field (field : ScalarField) (value : ParsedInputValue) : BResult (list (ScalarField * PrismaValue)) :=
  v ← of_parser (try_into_value debug_parsed value); Ok [(field, v)].
Definition take_cursor_field (s : ParsedInputMap * list (ScalarField * PrismaValue)) (field : ScalarField) :
    BResult (ParsedInputMap * list (ScalarField * PrismaValue)) :=
  v ← unwrap unwrap_none (map_get s.1 (sf_name field));
  pairs ← extract_cursor_field field v;
  Ok (map_take (sf_name field) s.1, s.2 ++ pairs).
Definition extract_compound_cursor_field (fields : list ScalarField) (value : ParsedInputValue) : BResult (list (ScalarField * PrismaValue)) :=
  m ← of_parser (try_into_map debug_parsed value);
  r ← for_each take_cursor_field fields (m, []);
  Ok r.2.
Definition cursor_entry (model : QueryModel) (pairs : list (ScalarField * PrismaValue)) (p : string * ParsedInputValue) : BResult (list (ScalarField * PrismaValue)) :=
  additional_pairs ←
    match find_from_scalar model p.1 with
    | Ok field => extract_cursor_field field p.2
    | Err _ =>
        fields ← resolve_compound_field p.1 model;
        match fields with
        | Some fields => extract_compound_cursor_field fields p.2
        | None => Err (BuilderAssertionError ("Unable to resolve field " +:+ p.1 +:+ " to a field or a set of fields on model " +:+ qm_name model))
        end
    | Panic msg => Panic msg
    end;
  Ok (pairs ++ additional_pairs).
Definition extract_cursor (value : ParsedInputValue) (model : QueryModel) : BResult (option RecordProjection) :=
  match assert_non_null value with
  | Err _ => Ok None
  | Panic msg => Panic msg
  | Ok _ =>
      input_map ← of_parser (try_into_map debug_parsed value);
      pairs ← for_each (cursor_entry model) (input_map : list (string * ParsedInputValue)) [];
      Ok (Some pairs)
  end.
Definition extract_query_arg (model : QueryModel) (res : QueryArguments) (arg : ParsedArgument) : BResult QueryArguments :=
  if pa_name arg ≟ "cursor" then
    c ← extract_cursor (pa_value arg) model; Ok (mkQueryArguments c (qa_take res) (qa_skip res) (qa_filter res) (qa_order_by res))
  else if pa_name arg ≟ "take" then
    t ← of_parser (try_into_opt_int debug_parsed (pa_value arg)); Ok (mkQueryArguments (qa_cursor res) t (qa_skip res) (qa_filter res) (qa_order_by res))
  else if pa_name arg ≟ "skip" then
    s ← extract_skip (pa_value arg); Ok (mkQueryArguments (qa_cursor res) (qa_take res) s (qa_filter res) (qa_order_by res))
  else if pa_name arg ≟ "orderBy" then
    o ← of_parser (try_into_order_by debug_parsed (pa_value arg)); Ok (mkQueryArguments (qa_cursor res) (qa_take res) (qa_skip res) (qa_filter res) (Some o))
  else if pa_name arg ≟ "where" then
    v ← of_parser (try_into_opt_map debug_parsed (pa_value arg));
    match v with
    | Some m => f ← extract_filter m model; Ok (set_filter f res)
    | None => Ok res
    end
  else Ok res.
Definition extract_query_args (arguments : list ParsedArgument) (model : QueryModel) : BResult QueryArguments :=
  for_each (extract_query_arg model) arguments QueryArguments_default.

(** ** Selections (read/mod.rs) *)
Definition collect_selection_order (from : list ParsedField) : list string := (fun f => default (pf_name f) (pf_alias f)) <$> from.
Definition collect_selected_fields (from : list ParsedField) (model : QueryModel) : BResult ModelProjection :=
  let selected := omap (fun f => match find_from_scalar model (pf_name f) with Ok sf => Some (FieldScalar sf) | _ => None end) from in
  model_id ← primary_identifier idm model;
  Ok (merge model_id selected).
Definition merge_relation_selections (selected_fields : ModelProjection) (parent_relation : option RelationField) (nested_queries : list ReadQuery) : BResult ModelProjection :=
  selected_fields ←
    match parent_relation with
    | Some rf => field ← related_field idm rf; l ← linking_fields idm field; Ok (merge selected_fields l)
    | None => Ok selected_fields
    end;
  nested ← map_m (fun q => match q with RQRelatedRecords rq => linking_fields idm (rrq_parent_field rq) | _ => Panic builder_unreachable end) nested_queries;
  Ok (merge selected_fields (Projections.union nested)).
(** The relation a nested field stands for, with the related model. *)
Definition nested_relation (model : QueryModel) (f : ParsedField) : BResult (option (QueryModel * RelationField)) :=
  model_field ← Models.unwrap_result (find_from_all model (pf_name f));
  match model_field with
  | FieldScalar _ => Ok None
  | FieldRelation rf => m ← related_model idm rf; Ok (Some (m, rf))
  end.
(** Related records (read/related.rs); [collect_nested_queries] looks up all
    fields before it builds the first query. *)
Fixpoint build_related (field : ParsedField) (model : QueryModel) (parent : RelationField) {struct field} : BResult ReadQuery :=
  match field with
  | mkParsedField name alias arguments nested_fields _ =>
      args ← extract_query_args arguments model;
      match nested_fields with
      | None => Panic unwrap_none
      | Some sub_selections =>
          selected_fields ← collect_selected_fields sub_selections model;
          relations ← map_m (nested_relation model) sub_selections;
          nested ←
            (fix queries (l : list ParsedField) (rs : list (option (QueryModel * RelationField))) : BResult (list ReadQuery) :=
               match l, rs with
               | f :: l, Some (m, rf) :: rs => q ← build_related f m rf; qs ← queries l rs; Ok (q :: qs)
               | _ :: l, None :: rs => queries l rs
               | _, _ => Ok []
               end) sub_selections relations;
          selected_fields ← merge_relation_selections selected_fields (Some parent) nested;
          Ok (RQRelatedRecords (mkRelatedRecordsQuery name alias parent args selected_fields nested (collect_selection_order sub_selections) None))
      end
  end.
Fixpoint build_nested (l : list ParsedField) (rs : list (option (QueryModel * RelationField))) : BResult (list ReadQuery) :=
  match l, rs with
  | f :: l, Some (m, rf) :: rs => q ← build_related f m rf; qs ← build_nested l rs; Ok (q :: qs)
  | _ :: l, None :: rs => build_nested l rs
  | _, _ => Ok []
  end.
Definition collect_nested_queries (from : list ParsedField) (model : QueryModel) : BResult (list ReadQuery) :=
  relations ← map_m (nested_relation model) from; build_nested from relations.
(** One record, many records, aggregations (read/one.rs, many.rs, aggregate.rs). *)
Definition read_one_filter (arguments : list ParsedArgument) (model : QueryModel) : BResult (option Filter) :=
  match (lookup_argument "where" arguments).1 with
  | Some where_arg =>
      arg ← of_parser (try_into_map debug_parsed (pa_value where_arg));
      _ ← of_parser (map_assert_size 1 arg);
      _ ← of_parser (map_assert_non_null arg);
      f ← extract_unique_filter arg model;
      Ok (Some f)
  | None => Ok None
  end.
Definition build_one (field : ParsedField) (model : QueryModel) : BResult ReadQuery :=
  filter ← read_one_filter (pf_arguments field) model;
  nested_fields ← unwrap unwrap_none (pf_nested_fields field);
  selected_fields ← collect_selected_fields nested_fields model;
  nested ← collect_nested_queries nested_fields model;
  selected_fields ← merge_relation_selections selected_fields None nested;
  Ok (RQRecord (mkRecordQuery (pf_name field) (pf_alias field) model filter selected_fields nested (collect_selection_order nested_fields))).
Definition build_many (field : ParsedField) (model : QueryModel) : BResult ReadQuery :=
  args ← extract_query_args (pf_arguments field) model;
  nested_fields ← unwrap unwrap_none (pf_nested_fields field);
  selected_fields ← collect_selected_fields nested_fields model;
  nested ← collect_nested_queries nested_fields model;
  selected_fields ← merge_relation_selections selected_fields None nested;
  Ok (RQManyRecords (mkManyRecordsQuery (pf_name field) (pf_alias field) model args selected_fields nested (collect_selection_order nested_fields))).
Definition resolve_query (model : QueryModel) (field : ParsedField) : BResult AggregationQuery :=
  if pf_name field ≟ "count" then args ← extract_query_args (pf_arguments field) model; Ok (AggregationCount (pf_name field) args)
  else Panic builder_unreachable.
Definition build_aggregate (field : ParsedField) (model : QueryModel) : BResult ReadQuery :=
  nested_fields ← unwrap unwrap_none (pf_nested_fields field);
  queries ← map_m (resolve_query model) nested_fields;
  Ok (RQAggregateRecords (mkAggregateRecordsQuery (pf_name field) (pf_alias field) model (collect_selection_order nested_fields) queries)).
End extractors.
