(* ===== verification/WriteBuilder.v ===== *)
(** * Building write queries (query-engine/core/src/query_graph_builder/write: utils.rs, connect.rs, disconnect.rs, write_args_parser.rs)

    Nodes and edges of the query graph that several write operations share. *)
From stdpp Require Import pretty.
From S2P Require Import Prelude Effects SqlSchema Dml Converter Models Projections Filters QueryAst QueryGraph NestedRead Interpreter QueryDocument ReadBuilder.

Section write_builder.
Context `{VT : ValueTypes} {VO : ValueOrd VT} `{IT : Itertools} {JN : JsonNumbers} {PG : Petgraph}.
Context (debug_parsed : ParsedInputValue -> string) (debug_names : list string -> string) (idm : InternalDataModel).
(** The present time, for [createdAt] and [updatedAt] fields. *)
Context (now : PrismaValue).
Abbreviation BResult := (outcome BuilderError).
Definition WM : Type -> Type := eff QueryGraph BuilderError.
#[local] Instance WM_ret : MRet WM := eff_ret QueryGraph BuilderError.
#[local] Instance WM_bind : MBind WM := eff_bind QueryGraph BuilderError.
Definition graph_op {A} (m : GraphM A) : WM A := eff_map_err BuilderGraphError m.
Definition pure {A} (m : BResult A) : WM A := lift m.
Definition node (n : Node) : WM NodeRef := graph_op (create_node n).
Definition edge (from to : NodeRef) (d : QueryGraphDependency) : WM unit := _ ← graph_op (create_edge debug_names idm from to d); mret tt.
Definition graph_update (f : QueryGraph -> QueryGraph) : WM unit := fun q => (Ok tt, f q).

(** ** What the edges do to the nodes they lead to *)
Definition pop_or (e : BuilderError) (l : list RecordProjection) : BResult RecordProjection := ok_or e (last l).
Definition expected_id (what : string) : BuilderError := BuilderAssertionError what.
Definition of_models {A} (m : DomainResult A) : BResult A := map_err BuilderDomainError m.
Definition on_write (f : WriteQuery -> BResult WriteQuery) (n : Node) : BResult Node :=
  match n with NodeQuery (QWrite wq) => wq ← f wq; Ok (NodeQuery (QWrite wq)) | n => Ok n end.
(** Write the values of a linked record into the arguments of a write. *)
Definition inject_link (e : BuilderError) (target : ModelProjection) (n : Node) (links : list RecordProjection) : BResult Node :=
  link ← pop_or e links;
  on_write (fun wq => p ← of_models (assimilate idm target link); Ok (inject_projection_into_args p wq)) n.
Definition write_add_filter (f : Filter) (wq : WriteQuery) : BResult WriteQuery :=
  existing ← write_get_filter wq; write_set_filter (added_filter existing f) wq.
(** Narrow a write down to one record. *)
Definition filter_by_id (e : BuilderError) (n : Node) (ids : list RecordProjection) : BResult Node :=
  id ← pop_or e ids;
  on_write (write_add_filter (rp_filter id)) n.
Definition read_by_id (e : BuilderError) (n : Node) (ids : list RecordProjection) : BResult Node :=
  id ← pop_or e ids;
  Ok (match n with
      | NodeQuery (QRead (RQRecord rq)) => NodeQuery (QRead (RQRecord (record_set_filter (added_filter (rq_filter rq) (rp_filter id)) rq)))
      | n => n
      end).
Definition update_many_selectors (s : RecordFilter) (n : Node) : Node :=
  match n with NodeQuery (QWrite (WQUpdateManyRecords m _ a)) => NodeQuery (QWrite (WQUpdateManyRecords m s a)) | n => n end.
Definition delete_many_selectors (s : RecordFilter) (n : Node) : Node :=
  match n with NodeQuery (QWrite (WQDeleteManyRecords m _)) => NodeQuery (QWrite (WQDeleteManyRecords m s)) | n => n end.
Definition set_condition (cond : unit -> bool) (n : Node) : BResult Node :=
  match n with NodeFlow (FlowIf _) => Ok (NodeFlow (FlowIf cond)) | _ => Panic builder_unreachable end.
Definition non_empty {A} (l : list A) : bool := match l with [] => false | _ => true end.

(** ** Helpers (utils.rs) *)
Definition coerce_vec (v : ParsedInputValue) : list ParsedInputValue := match v with ParsedList l => l | v => [v] end.
Definition node_is_create (n : NodeRef) : WM bool := fun q =>
  ((content ← node_content q n; content ← unwrap unwrap_none content;
    Ok (match content with NodeQuery (QWrite (WQCreateRecord _ _)) => true | _ => false end)), q).
Definition get_selected_fields (model : QueryModel) (projection : ModelProjection) : BResult ModelProjection :=
  primary_model_id ← primary_identifier idm model;
  Ok (if negb (list_eqb ModelField_eqb projection primary_model_id) then merge primary_model_id projection else projection).
Definition read_ids_infallible (model : QueryModel) (projection : ModelProjection) (filter : Filter) : BResult Query :=
  selected_fields ← get_selected_fields model projection;
  Ok (QRead (RQManyRecords (mkManyRecordsQuery "read_ids_infallible" None model (QueryArguments_from filter) selected_fields [] []))).
Definition set_parent_projections (n : Node) (projections : list RecordProjection) : BResult Node :=
  Ok (match n with
      | NodeQuery (QRead (RQRelatedRecords rq)) =>
          NodeQuery (QRead (RQRelatedRecords (mkRelatedRecordsQuery (rrq_name rq) (rrq_alias rq) (rrq_parent_field rq) (rrq_args rq)
            (rrq_selected_fields rq) (rrq_nested rq) (rrq_selection_order rq) (Some projections))))
      | n => n
      end).
Definition insert_find_children_by_parent_node (parent_node : NodeRef) (rf : RelationField) (filter : Filter) : WM NodeRef :=
  parent_model ← pure (upgrade_model idm (rf_model rf));
  parent_model_id ← pure (primary_identifier idm parent_model);
  parent_linking_fields ← pure (linking_fields idm rf);
  child_model ← pure (related_model idm rf);
  child_field ← pure (related_field idm rf);
  child_link ← pure (linking_fields idm child_field);
  selected_fields ← pure (get_selected_fields child_model child_link);
  read_children_node ← node (NodeQuery (QRead (RQRelatedRecords (mkRelatedRecordsQuery "find_children_by_parent" None rf (QueryArguments_from filter) selected_fields [] [] None))));
  _ ← edge parent_node read_children_node (ParentProjection (merge parent_model_id parent_linking_fields) set_parent_projections);
  mret read_children_node.
Definition update_records_node_placeholder (filter : Filter) (model : QueryModel) : WM NodeRef :=
  node (NodeQuery (QWrite (WQUpdateManyRecords model (RecordFilter_from_filter filter) (update_datetimes idm now model ∅)))).
(** Checks and disconnects for the other side of a one to one relation. *)
Definition check_existing_child (rf : RelationField) (child_side_required relation_inlined_parent : bool) (n : Node) (child_ids : list RecordProjection) : BResult Node :=
  if non_empty child_ids && child_side_required then v ← RelationViolation_from idm rf; Err (BuilderRelationViolation v)
  else set_condition (fun _ => negb relation_inlined_parent && non_empty child_ids) n.
Definition no_existing_child : BuilderError :=
  BuilderAssertionError "[Query Graph] Expected a valid parent ID to be present for a nested connect on a one-to-one relation, updating previous parent.".
Definition disconnect_existing_child (child_linking_fields : ModelProjection) (n : Node) (child_ids : list RecordProjection) : BResult Node :=
  child_id ← pop_or no_existing_child child_ids;
  n ← on_write (fun wq => p ← empty_record_projection idm child_linking_fields; Ok (inject_projection_into_args p wq)) n;
  Ok (update_many_selectors (RecordFilter_from_selector child_id) n).
Definition insert_existing_1to1_related_model_checks (parent_node : NodeRef) (rf : RelationField) : WM unit :=
  child_model ← pure (related_model idm rf);
  child_model_identifier ← pure (primary_identifier idm child_model);
  child_field ← pure (related_field idm rf);
  child_linking_fields ← pure (linking_fields idm child_field);
  relation_inlined_parent ← pure (relation_is_inlined_in_parent idm rf);
  read_existing_children ← insert_find_children_by_parent_node parent_node rf FEmpty;
  update_existing_child ← update_records_node_placeholder FEmpty child_model;
  if_node ← node (NodeFlow default_if);
  _ ← edge read_existing_children if_node (ParentProjection child_model_identifier (check_existing_child rf (rf_is_required child_field) relation_inlined_parent));
  _ ← edge if_node update_existing_child Then;
  edge read_existing_children update_existing_child (ParentProjection child_model_identifier (disconnect_existing_child child_linking_fields)).
(** Checks before a deletion. *)
Definition fail_if_related (rf : RelationField) (n : Node) (child_ids : list RecordProjection) : BResult Node :=
  if non_empty child_ids then v ← RelationViolation_from idm rf; Err (BuilderRelationViolation v) else Ok n.
Definition unwrap_graph {A} (m : GraphM A) : WM A := fun q =>
  match m q with
  | (Ok a, q') => (Ok a, q')
  | (Err _, q') => (Panic "called `Result::unwrap()` on an `Err` value", q')
  | (Panic msg, q') => (Panic msg, q')
  end.
Fixpoint chain_checks (prev : NodeRef) (l : list NodeRef) : WM unit :=
  match l with
  | [] => mret tt
  | next :: l => _ ← unwrap_graph (create_edge debug_names idm prev next ExecutionOrder); chain_checks next l
  end.
Definition insert_check (parent_node noop_node : NodeRef) (rf : RelationField) : WM NodeRef :=
  relation_field ← pure (related_field idm rf);
  child_model ← pure (related_model idm relation_field);
  child_model_identifier ← pure (primary_identifier idm child_model);
  read_node ← insert_find_children_by_parent_node parent_node relation_field FEmpty;
  _ ← edge read_node noop_node (ParentProjection child_model_identifier (fail_if_related relation_field));
  mret read_node.
Definition insert_deletion_checks (model : QueryModel) (parent_node child_node : NodeRef) : WM unit :=
  relation_fields ← pure (fields_requiring_model idm model);
  match relation_fields : list RelationField with
  | [] => mret tt
  | _ =>
      noop_node ← node NodeEmpty;
      check_nodes ← eff_map (insert_check parent_node noop_node) relation_fields;
      _ ← match check_nodes : list NodeRef with [] => mret tt | first :: rest => chain_checks first rest end;
      edge noop_node child_node ExecutionOrder
  end.

(** ** Connecting and disconnecting records of a many to many relation (connect.rs, disconnect.rs) *)
Definition assert_many_to_many (rf : RelationField) : WM unit :=
  relation ← pure (rf_relation idm rf);
  m2m ← pure (is_many_to_many idm relation);
  if m2m : bool then mret tt else panic "assertion failed: parent_relation_field.relation().is_many_to_many()".
Definition connect_parent (n : Node) (parent_ids : list RecordProjection) : BResult Node :=
  match last parent_ids with
  | None => Err (BuilderAssertionError "Required exactly one parent ID to be present for connect query, found 0.")
  | Some parent_id =>
      Ok (match n with NodeQuery (QWrite (WQConnectRecords _ c rf)) => NodeQuery (QWrite (WQConnectRecords (Some parent_id) c rf)) | n => n end)
  end.
Definition connect_children (expected_connects : nat) (n : Node) (child_ids : list RecordProjection) : BResult Node :=
  if negb (length child_ids ≟ expected_connects)
  then Err (RecordNotFound ("Expected " +:+ pretty expected_connects +:+ " records to be connected, found only " +:+ pretty (length child_ids) +:+ "."))
  else Ok (match n with NodeQuery (QWrite (WQConnectRecords p _ rf)) => NodeQuery (QWrite (WQConnectRecords p child_ids rf)) | n => n end).
Definition parent_and_child_ids (rf : RelationField) : WM (ModelProjection * ModelProjection) :=
  parent_model ← pure (upgrade_model idm (rf_model rf));
  parent_model_id ← pure (primary_identifier idm parent_model);
  child_model ← pure (related_model idm rf);
  child_model_id ← pure (primary_identifier idm child_model);
  mret (parent_model_id, child_model_id).
Definition connect_records_node (parent_node child_node : NodeRef) (rf : RelationField) (expected_connects : nat) : WM NodeRef :=
  _ ← assert_many_to_many rf;
  ids ← parent_and_child_ids rf;
  connect_node ← node (NodeQuery (QWrite (WQConnectRecords None [] rf)));
  _ ← edge parent_node connect_node (ParentProjection ids.1 connect_parent);
  _ ← edge child_node connect_node (ParentProjection ids.2 (connect_children expected_connects));
  mret connect_node.
Definition disconnect_parent (e : BuilderError) (n : Node) (parent_ids : list RecordProjection) : BResult Node :=
  parent_id ← pop_or e parent_ids;
  Ok (match n with NodeQuery (QWrite (WQDisconnectRecords _ c rf)) => NodeQuery (QWrite (WQDisconnectRecords (Some parent_id) c rf)) | n => n end).
Definition disconnect_children (n : Node) (child_ids : list RecordProjection) : Node :=
  match n with NodeQuery (QWrite (WQDisconnectRecords p _ rf)) => NodeQuery (QWrite (WQDisconnectRecords p child_ids rf)) | n => n end.
Definition not_connected (rf : RelationField) : WM BuilderError :=
  relation ← pure (rf_relation idm rf);
  parent ← pure (upgrade_model idm (rf_model rf));
  child ← pure (related_model idm rf);
  mret (RecordsNotConnected (r_name relation) (qm_name parent) (qm_name child)).
Definition disconnect_records_node (parent_node child_node : NodeRef) (rf : RelationField) (expected_disconnects : nat) : WM NodeRef :=
  _ ← assert_many_to_many rf;
  ids ← parent_and_child_ids rf;
  disconnect_node ← node (NodeQuery (QWrite (WQDisconnectRecords None [] rf)));
  _ ← edge parent_node disconnect_node (ParentProjection ids.1
        (disconnect_parent (BuilderAssertionError "[Query Graph] Expected a valid parent ID to be present for a nested disconnect on a many-to-many relation.")));
  err ← not_connected rf;
  _ ← edge child_node disconnect_node (ParentProjection ids.2
        (fun n child_ids => if negb (length child_ids ≟ expected_disconnects) then Err err else Ok (disconnect_children n child_ids)));
  mret disconnect_node.

(** ** Arguments of writes (write_args_parser.rs) *)
Record WriteArgsParser : Type := mkWriteArgsParser { wap_args : WriteArgs; wap_nested : list (RelationField * ParsedInputMap) }.
Definition parse_write_arg (model : QueryModel) (s : WriteArgsParser) (p : string * ParsedInputValue) : BResult WriteArgsParser :=
  let '(k, v) := p in
  field ← Models.unwrap_result (find_from_all model k);
  match field with
  | FieldScalar sf =>
      if sf_is_list sf then
        vals ← of_parser (try_into_map debug_parsed v);
        set_value ← ok_or (MissingRequiredArgument "set" (sf_name sf) (qm_name model)) (map_get vals "set");
        set_value ← of_parser (try_into_value debug_parsed set_value);
        Ok (mkWriteArgsParser (args_insert (sf_db_name sf) set_value (wap_args s)) (wap_nested s))
      else
        value ← of_parser (try_into_value debug_parsed v);
        Ok (mkWriteArgsParser (args_insert (sf_db_name sf) value (wap_args s)) (wap_nested s))
  | FieldRelation rf =>
      match v with
      | ParsedSingle PV_Null => Ok s
      | _ => m ← of_parser (try_into_map debug_parsed v); Ok (mkWriteArgsParser (wap_args s) (wap_nested s ++ [(rf, m)]))
      end
  end.
Definition WriteArgsParser_from (model : QueryModel) (data_map : ParsedInputMap) : BResult WriteArgsParser :=
  for_each (parse_write_arg model) data_map (mkWriteArgsParser ∅ []).
End write_builder.

(** * Nested writes (query-engine/core/src/query_graph_builder/write: nested, create.rs, update.rs)

    The records written together with a record: for every kind of nested write
    the nodes and edges below the node of the record. *)
(** ** Equality of filters (derived in query-connector/src/filter) *)
Section filter_eq.
Context `{VT : ValueTypes}.
Definition values_eq (a b : list PrismaValue) : bool := list_eqb value_eqb a b.
Definition ScalarCondition_eqb (a b : ScalarCondition) : bool :=
  match a, b with
  | CondEquals v, CondEquals w | CondNotEquals v, CondNotEquals w | CondContains v, CondContains w | CondNotContains v, CondNotContains w
  | CondStartsWith v, CondStartsWith w | CondNotStartsWith v, CondNotStartsWith w | CondEndsWith v, CondEndsWith w | CondNotEndsWith v, CondNotEndsWith w
  | CondLessThan v, CondLessThan w | CondLessThanOrEquals v, CondLessThanOrEquals w | CondGreaterThan v, CondGreaterThan w
  | CondGreaterThanOrEquals v, CondGreaterThanOrEquals w => value_eqb v w
  | CondIn v, CondIn w | CondNotIn v, CondNotIn w => values_eq v w
  | _, _ => false
  end.
Definition ScalarProjection_eqb (a b : ScalarProjection) : bool :=
  match a, b with
  | ProjSingle f, ProjSingle g => ScalarField_eqb f g
  | ProjCompound f, ProjCompound g => list_eqb ScalarField_eqb f g
  | _, _ => false
  end.
Definition ScalarFilter_eqb (a b : ScalarFilter) : bool :=
  ScalarProjection_eqb (flt_projection a) (flt_projection b) && ScalarCondition_eqb (flt_condition a) (flt_condition b).
Definition ScalarListCondition_eqb (a b : ScalarListCondition) : bool :=
  match a, b with
  | ListContains v, ListContains w => value_eqb v w
  | ListContainsEvery v, ListContainsEvery w | ListContainsSome v, ListContainsSome w => values_eq v w
  | ListContainsNone, ListContainsNone => true
  | _, _ => false
  end.
Definition RelationCondition_eqb (a b : RelationCondition) : bool :=
  match a, b with
  | EveryRelatedRecord, EveryRelatedRecord | AtLeastOneRelatedRecord, AtLeastOneRelatedRecord
  | NoRelatedRecord, NoRelatedRecord | ToOneRelatedRecord, ToOneRelatedRecord => true
  | _, _ => false
  end.
Fixpoint Filter_eqb (a b : Filter) : bool :=
  let fix all_eq (l k : list Filter) : bool := match l, k with [], [] => true | x :: l, y :: k => Filter_eqb x y && all_eq l k | _, _ => false end in
  match a, b with
  | FAnd l, FAnd k | FOr l, FOr k | FNot l, FNot k => all_eq l k
  | FScalar f, FScalar g => ScalarFilter_eqb f g
  | FScalarList f, FScalarList g => ScalarField_eqb (slf_field f) (slf_field g) && ScalarListCondition_eqb (slf_condition f) (slf_condition g)
  | FOneRelationIsNull f, FOneRelationIsNull g => RelationField_eqb f g
  | FRelation f x c, FRelation g y d => RelationField_eqb f g && Filter_eqb x y && RelationCondition_eqb c d
  | FNodeSubscription, FNodeSubscription => true
  | FBoolFilter x, FBoolFilter y => Bool.eqb x y
  | FEmpty, FEmpty => true
  | _, _ => false
  end.
End filter_eq.

Section nested_writes.
Context `{VT : ValueTypes} {VO : ValueOrd VT} `{IT : Itertools} {JN : JsonNumbers} {PG : Petgraph}.
Context (debug_parsed : ParsedInputValue -> string) (debug_names : list string -> string) (idm : InternalDataModel) (now : PrismaValue).
(** The order in which a [HashSet] of records is iterated. *)
Context (collect_set : list RecordProjection -> list RecordProjection).
Abbreviation BResult := (outcome BuilderError).
#[local] Existing Instance WM_ret.
#[local] Existing Instance WM_bind.
Abbreviation edge := (edge debug_names idm).
Abbreviation find_children := (insert_find_children_by_parent_node debug_names idm).
Abbreviation existing_checks := (insert_existing_1to1_related_model_checks debug_names idm now).
Abbreviation placeholder := (update_records_node_placeholder idm now).
Abbreviation connect_node := (connect_records_node debug_names idm).
Abbreviation to_map v := (of_parser (try_into_map debug_parsed v)).
Definition assertion (msg : string) : BuilderError := BuilderAssertionError msg.

(** A unique filter: one key, no null. *)
Definition unique_filter (child_model : QueryModel) (value : ParsedInputValue) : BResult Filter :=
  value ← to_map value;
  _ ← of_parser (map_assert_size 1 value);
  _ ← of_parser (map_assert_non_null value);
  extract_unique_filter debug_parsed idm value child_model.
Definition unique_filters (child_model : QueryModel) (value : ParsedInputValue) : BResult (list Filter) :=
  filters ← map_m (unique_filter child_model) (coerce_vec value);
  Ok (unique_eq Filter_eqb filters).
Definition take_entry {E} (msg : string) (key : string) (m : ParsedInputMap) : outcome E ParsedInputValue := unwrap msg (map_get m key).

(** ** connect (connect_nested.rs) *)
Definition connect_many_to_many (parent_node : NodeRef) (rf : RelationField) (filter : Filter) (child_model : QueryModel) : WM unit :=
  id ← pure (primary_identifier idm child_model);
  child_read_query ← pure (read_ids_infallible idm child_model id filter);
  child_node ← node (NodeQuery child_read_query);
  _ ← edge parent_node child_node ExecutionOrder;
  _ ← connect_node parent_node child_node rf (filter_size filter);
  mret tt.
Definition connected_count (expected : nat) (n : Node) (result : ExpressionResult) : BResult Node :=
  query_result ← Models.unwrap_result (as_query_result (ConnectorError := unit) result);
  match query_result with
  | ResultCount c =>
      if negb (c ≟ expected) then Err (RecordNotFound ("Expected " +:+ pretty expected +:+ " records to be connected, found " +:+ pretty c +:+ ".")) else Ok n
  | _ => Ok n
  end.
Definition connect_one_to_many_error : BuilderError := assertion "[Query Graph] Expected a valid parent ID to be present for a nested connect on a one-to-many relation.".
Definition connect_one_to_many (parent_node : NodeRef) (rf : RelationField) (child_filter : Filter) (child_model : QueryModel) : WM unit :=
  parent_link ← pure (linking_fields idm rf);
  child_field ← pure (related_field idm rf);
  child_link ← pure (linking_fields idm child_field);
  inlined ← pure (relation_is_inlined_in_parent idm rf);
  if inlined : bool then
    read_query ← pure (read_ids_infallible idm child_model child_link child_filter);
    read_children_node ← node (NodeQuery read_query);
    _ ← graph_update (mark_nodes parent_node read_children_node);
    edge parent_node read_children_node (ParentProjection child_link (inject_link idm connect_one_to_many_error parent_link))
  else
    update_node ← placeholder child_filter child_model;
    check_node ← node NodeEmpty;
    _ ← edge parent_node update_node (ParentProjection parent_link (inject_link idm connect_one_to_many_error child_link));
    edge update_node check_node (ParentResult (connected_count (filter_size child_filter))).
Definition one_to_one_error : BuilderError := assertion "[Query Graph] Expected a valid parent ID to be present for a nested connect on a one-to-one relation.".
Definition one_to_one_child_error : BuilderError :=
  assertion "[Query Graph] Expected a valid parent ID to be present for a nested connect on a one-to-one relation, updating inlined on child.".
Definition one_to_one_parent_error : BuilderError :=
  assertion "[Query Graph] Expected a valid parent ID to be present for a nested connect on a one-to-one relation, updating inlined on parent.".
Definition inject_link_if (cond : bool) (target : ModelProjection) (n : Node) (links : list RecordProjection) : BResult Node :=
  link ← pop_or one_to_one_error links;
  if cond then on_write (fun wq => p ← of_models (assimilate idm target link); Ok (inject_projection_into_args p wq)) n else Ok n.
Definition violation {A} (rf : RelationField) : WM A := v ← pure (RelationViolation_from idm rf); throw (BuilderRelationViolation v).
(** [if cond { ... }] *)
Definition when (cond : bool) (m : WM unit) : WM unit := if cond then m else mret tt.
Definition update_other_side (parent_node read_new_child_node : NodeRef) (rf : RelationField) (child_model : QueryModel) (inlined_parent parent_is_create : bool) : WM unit :=
  if negb inlined_parent then
    update_children_node ← placeholder FEmpty child_model;
    parent_linking_fields ← pure (linking_fields idm rf);
    child_field ← pure (related_field idm rf);
    child_linking_fields ← pure (linking_fields idm child_field);
    field_model ← pure (upgrade_model idm (rf_model child_field));
    child_model_identifier ← pure (primary_identifier idm field_model);
    _ ← edge read_new_child_node update_children_node (ParentProjection child_model_identifier (filter_by_id one_to_one_child_error));
    edge parent_node update_children_node (ParentProjection parent_linking_fields (inject_link idm one_to_one_child_error child_linking_fields))
  else if negb parent_is_create then
    parent_model ← pure (upgrade_model idm (rf_model rf));
    update_parent_node ← placeholder FEmpty parent_model;
    parent_linking_fields ← pure (linking_fields idm rf);
    child_field ← pure (related_field idm rf);
    child_linking_fields ← pure (linking_fields idm child_field);
    _ ← edge read_new_child_node update_parent_node (ParentProjection child_linking_fields (inject_link idm one_to_one_parent_error parent_linking_fields));
    parent_model_identifier ← pure (primary_identifier idm parent_model);
    edge parent_node update_parent_node (ParentProjection parent_model_identifier (filter_by_id one_to_one_parent_error))
  else mret tt.
Definition connect_one_to_one (parent_node : NodeRef) (rf : RelationField) (filter : Filter) (child_model : QueryModel) : WM unit :=
  parent_linking_fields ← pure (linking_fields idm rf);
  child_field ← pure (related_field idm rf);
  child_linking_fields ← pure (linking_fields idm child_field);
  parent_is_create ← node_is_create parent_node;
  relation_inlined_parent ← pure (relation_is_inlined_in_parent idm rf);
  if rf_is_required rf && rf_is_required child_field then violation rf
  else
    read_query ← pure (read_ids_infallible idm child_model child_linking_fields filter);
    read_new_child_node ← node (NodeQuery read_query);
    _ ← graph_update (mark_nodes parent_node read_new_child_node);
    _ ← when (rf_is_required rf || relation_inlined_parent) (existing_checks read_new_child_node child_field);
    _ ← edge parent_node read_new_child_node
          (ParentProjection child_linking_fields (inject_link_if (relation_inlined_parent && parent_is_create) parent_linking_fields));
    _ ← when (negb parent_is_create && (rf_is_required child_field || negb relation_inlined_parent)) (existing_checks parent_node rf);
    update_other_side parent_node read_new_child_node rf child_model relation_inlined_parent parent_is_create.
Definition relation_kind (relation : Relation) : WM (bool * bool) :=
  m2m ← pure (is_many_to_many idm relation);
  one2m ← pure (is_one_to_many idm relation);
  mret (m2m, one2m).
Definition connect_nested_connect (parent_node : NodeRef) (rf : RelationField) (value : ParsedInputValue) (child_model : QueryModel) : WM unit :=
  relation ← pure (rf_relation idm rf);
  filters ← pure (unique_filters child_model value);
  match filters : list Filter with
  | [] => mret tt
  | _ =>
      kind ← relation_kind relation;
      if (kind : bool * bool).1 then connect_many_to_many parent_node rf (FOr filters) child_model
      else if kind.2 then connect_one_to_many parent_node rf (FOr filters) child_model
      else connect_one_to_one parent_node rf (FOr filters) child_model
  end.

(** ** create (create_nested.rs) *)
Definition create_many_to_many (parent_node : NodeRef) (rf : RelationField) (create_nodes : list NodeRef) : WM unit :=
  eff_for (fun create_node => _ ← edge parent_node create_node ExecutionOrder; _ ← connect_node parent_node create_node rf 1; mret tt) create_nodes.
Definition create_one_to_many_error : BuilderError := assertion "[Query Graph] Expected a valid parent ID to be present for a nested create on a one-to-many relation.".
Definition create_one_to_many (parent_node : NodeRef) (rf : RelationField) (create_nodes : list NodeRef) : WM unit :=
  inlined ← pure (relation_is_inlined_in_parent idm rf);
  if inlined : bool then
    child_node ← pure (unwrap "[Query Graph] Expected one nested create node on a 1:m relation with inline IDs on the parent." (last create_nodes));
    _ ← graph_update (mark_nodes parent_node child_node);
    parent_link ← pure (linking_fields idm rf);
    child_field ← pure (related_field idm rf);
    child_link ← pure (linking_fields idm child_field);
    edge parent_node child_node (ParentProjection child_link (inject_link idm create_one_to_many_error parent_link))
  else
    eff_for (fun create_node =>
      parent_link ← pure (linking_fields idm rf);
      child_field ← pure (related_field idm rf);
      child_link ← pure (linking_fields idm child_field);
      edge parent_node create_node (ParentProjection parent_link (inject_link idm create_one_to_many_error child_link))) create_nodes.
Definition create_one_to_one_error : BuilderError := assertion "[Query Graph] Expected a valid parent ID to be present for a nested create on a one-to-one relation.".
Definition create_one_to_one_parent_error : BuilderError :=
  assertion "[Query Graph] Expected a valid parent ID to be present for a nested create on a one-to-one relation, updating inlined on parent.".
(** Only a create takes the link over. *)
Definition inject_into_create (assimilator : ModelProjection) (n : Node) (links : list RecordProjection) : BResult Node :=
  link ← pop_or create_one_to_one_error links;
  match n with
  | NodeQuery (QWrite (WQCreateRecord m a)) =>
      p ← of_models (assimilate idm assimilator link); Ok (NodeQuery (QWrite (inject_projection_into_args p (WQCreateRecord m a))))
  | n => Ok n
  end.
Definition link_parent_to_created (parent_node create_node : NodeRef) (rf : RelationField) (child_link : ModelProjection) : WM unit :=
  parent_model ← pure (upgrade_model idm (rf_model rf));
  update_node ← placeholder FEmpty parent_model;
  parent_link ← pure (linking_fields idm rf);
  _ ← edge create_node update_node (ParentProjection child_link (inject_link idm create_one_to_one_parent_error parent_link));
  parent_model_identifier ← pure (primary_identifier idm parent_model);
  edge parent_node update_node (ParentProjection parent_model_identifier (filter_by_id create_one_to_one_parent_error)).
Definition create_one_to_one (parent_node : NodeRef) (rf : RelationField) (create_nodes : list NodeRef) : WM unit :=
  parent_is_create ← node_is_create parent_node;
  child_field ← pure (related_field idm rf);
  relation_inlined_parent ← pure (relation_is_inlined_in_parent idm rf);
  parent_link ← pure (linking_fields idm rf);
  child_link ← pure (linking_fields idm child_field);
  if negb parent_is_create && (rf_is_required rf && rf_is_required child_field) then violation rf
  else
    create_node ← pure (unwrap "[Query Graph] Expected only one nested create node on a 1:m relation with inline IDs on the parent." (last create_nodes));
    _ ← when (negb parent_is_create) (existing_checks parent_node rf);
    _ ← when relation_inlined_parent (graph_update (mark_nodes parent_node create_node));
    let '(extractor, assimilator) := if relation_inlined_parent : bool then (child_link, parent_link) else (parent_link, child_link) in
    _ ← edge parent_node create_node (ParentProjection extractor (inject_into_create assimilator));
    when (relation_inlined_parent && negb parent_is_create) (link_parent_to_created parent_node create_node rf child_link).

(** ** delete, deleteMany (delete_nested.rs) *)
Definition delete_children (n : Node) (child_ids : list RecordProjection) : Node := delete_many_selectors (RecordFilter_from_selectors child_ids) n.
Definition delete_listed (err : BuilderError) (filter_len : nat) (n : Node) (child_ids : list RecordProjection) : BResult Node :=
  if negb (length child_ids ≟ filter_len) then Err err else Ok (delete_children n child_ids).
Definition delete_the_child (n : Node) (child_ids : list RecordProjection) : BResult Node :=
  child_id ← pop_or (assertion "[Query Graph] Expected a valid parent ID to be present for a nested delete on a one-to-many relation.") child_ids;
  Ok (match n with NodeQuery (QWrite (WQDeleteRecord m _)) => NodeQuery (QWrite (WQDeleteRecord m (Some (RecordFilter_from_selector child_id)))) | n => n end).
Definition is_true (v : PrismaValue) : bool := match v with PV_Boolean b => b | _ => false end.
Abbreviation deletion_checks := (insert_deletion_checks debug_names idm).
Definition delete_list (parent_node : NodeRef) (rf : RelationField) (value : ParsedInputValue) (child_model : QueryModel) (child_id : ModelProjection) : WM unit :=
  filters ← pure (map_m (unique_filter child_model) (coerce_vec value));
  let or_filter := FOr filters in
  delete_many_node ← node (NodeQuery (QWrite (WQDeleteManyRecords child_model (RecordFilter_from_filter or_filter))));
  find_child_records_node ← find_children parent_node rf or_filter;
  _ ← deletion_checks child_model find_child_records_node delete_many_node;
  relation ← pure (rf_relation idm rf);
  parent ← pure (upgrade_model idm (rf_model rf));
  edge find_child_records_node delete_many_node
    (ParentProjection child_id (delete_listed (RecordsNotConnected (r_name relation) (qm_name parent) (qm_name child_model)) (length filters))).
Definition delete_one_child (parent_node : NodeRef) (rf : RelationField) (child_model : QueryModel) (child_id : ModelProjection) : WM unit :=
  find_child_records_node ← find_children parent_node rf FEmpty;
  delete_record_node ← node (NodeQuery (QWrite (WQDeleteRecord child_model None)));
  _ ← deletion_checks child_model find_child_records_node delete_record_node;
  edge find_child_records_node delete_record_node (ParentProjection child_id delete_the_child).
Definition connect_nested_delete (parent_node : NodeRef) (rf : RelationField) (value : ParsedInputValue) (child_model : QueryModel) : WM unit :=
  related ← pure (related_model idm rf);
  child_model_identifier ← pure (primary_identifier idm related);
  if rf_is_list rf then delete_list parent_node rf value child_model child_model_identifier
  else
    val ← pure (of_parser (try_into_value debug_parsed value));
    when (is_true val) (delete_one_child parent_node rf child_model child_model_identifier).
Definition connect_nested_delete_many (parent_node : NodeRef) (rf : RelationField) (value : ParsedInputValue) (child_model : QueryModel) : WM unit :=
  related ← pure (related_model idm rf);
  child_model_identifier ← pure (primary_identifier idm related);
  eff_for (fun value =>
    as_map ← pure (to_map value);
    filter ← pure (extract_filter debug_parsed idm as_map child_model);
    find_child_records_node ← find_children parent_node rf filter;
    delete_many_node ← node (NodeQuery (QWrite (WQDeleteManyRecords child_model RecordFilter_empty)));
    _ ← deletion_checks child_model find_child_records_node delete_many_node;
    edge find_child_records_node delete_many_node (ParentProjection child_model_identifier (fun n child_ids => Ok (delete_children n child_ids))))
    (coerce_vec value).

(** ** disconnect (disconnect_nested.rs) *)
Definition disconnect_many_to_many (parent_node : NodeRef) (rf : RelationField) (filter : Filter) : WM unit :=
  find_child_records_node ← find_children parent_node rf filter;
  _ ← disconnect_records_node debug_names idm parent_node find_child_records_node rf (Nat.max (filter_size filter) 1);
  mret tt.
Definition set_null (err : BuilderError) (null_record_id : RecordProjection) (n : Node) (links : list RecordProjection) : BResult Node :=
  match links with
  | [] => Err err
  | _ =>
      match n with
      | NodeQuery (QWrite (WQUpdateManyRecords m f a)) =>
          wq ← write_set_filter (rps_filter links) (WQUpdateManyRecords m f a);
          Ok (NodeQuery (QWrite (inject_projection_into_args null_record_id wq)))
      | n => Ok n
      end
  end.
Definition check_count (err : BuilderError) (expected : nat) (n : Node) (ids : list RecordProjection) : BResult Node :=
  if negb (length ids ≟ expected) then Err err else Ok n.
(** What is updated by a disconnect, and what is only checked: the side the relation is inlined on is updated. *)
Record DisconnectSides : Type := mkDisconnectSides {
  node_to_attach : NodeRef;
  node_to_check : NodeRef;
  model_to_update : QueryModel;
  expected_disconnects : nat;
  extractor_model_id : ModelProjection;
  null_record_id : RecordProjection;
  check_model_id : ModelProjection;
}.
Definition disconnect_sides (parent_node find_node : NodeRef) (rf child_field : RelationField) (size : nat) : BResult DisconnectSides :=
  inlined ← relation_is_inlined_in_parent idm rf;
  parent_model ← upgrade_model idm (rf_model rf);
  child_model ← upgrade_model idm (rf_model child_field);
  if inlined : bool then
    extractor_model_id ← primary_identifier idm parent_model;
    link ← linking_fields idm rf;
    null_record_id ← empty_record_projection idm link;
    check_model_id ← primary_identifier idm child_model;
    Ok (mkDisconnectSides parent_node find_node parent_model (Nat.max size 1) extractor_model_id null_record_id check_model_id)
  else
    extractor_model_id ← primary_identifier idm child_model;
    link ← linking_fields idm child_field;
    null_record_id ← empty_record_projection idm link;
    check_model_id ← primary_identifier idm parent_model;
    Ok (mkDisconnectSides find_node parent_node child_model 1 extractor_model_id null_record_id check_model_id).
Definition disconnect_one_to_x (parent_node : NodeRef) (rf : RelationField) (filter : Filter) : WM unit :=
  find_child_records_node ← find_children parent_node rf filter;
  child_field ← pure (related_field idm rf);
  if rf_is_required rf || rf_is_required child_field then violation rf
  else
    sides ← pure (disconnect_sides parent_node find_child_records_node rf child_field (filter_size filter));
    update_node ← placeholder FEmpty (model_to_update sides);
    err ← not_connected idm rf;
    _ ← edge (node_to_attach sides) update_node (ParentProjection (extractor_model_id sides) (set_null err (null_record_id sides)));
    edge (node_to_check sides) update_node (ParentProjection (check_model_id sides) (check_count err (expected_disconnects sides))).
Definition connect_nested_disconnect (parent_node : NodeRef) (rf : RelationField) (value : ParsedInputValue) (child_model : QueryModel) : WM unit :=
  relation ← pure (rf_relation idm rf);
  m2m ← pure (is_many_to_many idm relation);
  if m2m : bool then
    filters ← pure (unique_filters child_model value);
    disconnect_many_to_many parent_node rf (FOr filters)
  else
    one2one ← pure (rel_is_one_to_one idm relation);
    if one2one : bool then
      val ← pure (of_parser (try_into_value debug_parsed value));
      when (is_true val) (disconnect_one_to_x parent_node rf FEmpty)
    else if rf_is_list rf then
      filters ← pure (unique_filters child_model value);
      disconnect_one_to_x parent_node rf (FOr filters)
    else disconnect_one_to_x parent_node rf FEmpty.

(** ** set (set_nested.rs) *)
Definition connect_new (parent_node disconnect_node : NodeRef) (rf : RelationField) (child_model : QueryModel) (child_id : ModelProjection) (filter : Filter) : WM unit :=
  read_new_query ← pure (read_ids_infallible idm child_model child_id filter);
  read_new_node ← node (NodeQuery read_new_query);
  _ ← edge disconnect_node read_new_node ExecutionOrder;
  _ ← connect_node parent_node read_new_node rf (filter_size filter);
  mret tt.
Definition set_many_to_many (parent_node : NodeRef) (rf : RelationField) (filter : Filter) : WM unit :=
  parent_model ← pure (upgrade_model idm (rf_model rf));
  parent_model_identifier ← pure (primary_identifier idm parent_model);
  child_model ← pure (related_model idm rf);
  child_model_identifier ← pure (primary_identifier idm child_model);
  read_old_node ← find_children parent_node rf FEmpty;
  disconnect_node ← node (NodeQuery (QWrite (WQDisconnectRecords None [] rf)));
  _ ← edge parent_node disconnect_node (ParentProjection parent_model_identifier
        (disconnect_parent (assertion "[Query Graph] Expected a valid parent ID to be present for a nested set (disconnect part) on a many-to-many relation.")));
  _ ← edge read_old_node disconnect_node (ParentProjection child_model_identifier (fun n child_ids => Ok (disconnect_children n child_ids)));
  when (Nat.ltb 0 (filter_size filter)) (connect_new parent_node disconnect_node rf child_model child_model_identifier filter).
Definition diff_left (n : Node) (child_ids : list RecordProjection) : BResult Node :=
  Ok (match n with NodeComputation d => NodeComputation (mkDiffNode (collect_set child_ids) (dn_right d)) | n => n end).
Definition diff_right (n : Node) (child_ids : list RecordProjection) : BResult Node :=
  Ok (match n with NodeComputation d => NodeComputation (mkDiffNode (dn_left d) (collect_set child_ids)) | n => n end).
Definition diff_result (r : ExpressionResult) : BResult DiffResult := Models.unwrap_result (as_diff_result (ConnectorError := unit) r).
Definition set_error : BuilderError := assertion "[Query Graph] Expected a valid parent ID to be present for a nested set on a one-to-many relation.".
(** The children that are not connected yet. *)
Definition set_connect_part (parent_node diff_node : NodeRef) (child_model : QueryModel) (parent_link child_link : ModelProjection) : WM unit :=
  connect_if_node ← node (NodeFlow default_if);
  update_connect_node ← placeholder FEmpty child_model;
  _ ← edge diff_node connect_if_node (ParentResult (fun n r => d ← diff_result r; set_condition (fun _ => non_empty (dr_left d)) n));
  _ ← edge connect_if_node update_connect_node Then;
  _ ← edge parent_node update_connect_node (ParentProjection parent_link (inject_link idm set_error child_link));
  edge diff_node update_connect_node (ParentResult (fun n r => d ← diff_result r; Ok (update_many_selectors (RecordFilter_from_selectors (dr_left d)) n))).
(** The children that are no longer connected. *)
Definition set_disconnect_part (diff_node : NodeRef) (rf child_field : RelationField) (child_model : QueryModel) (empty_child_link : RecordProjection) : WM unit :=
  disconnect_if_node ← node (NodeFlow default_if);
  update_disconnect_node ← placeholder FEmpty child_model;
  _ ← edge diff_node disconnect_if_node (ParentResult (fun n r => d ← diff_result r;
        if non_empty (dr_right d) && rf_is_required child_field then v ← RelationViolation_from idm rf; Err (BuilderRelationViolation v)
        else set_condition (fun _ => non_empty (dr_right d)) n));
  _ ← edge disconnect_if_node update_disconnect_node Then;
  edge diff_node update_disconnect_node (ParentResult (fun n r => d ← diff_result r;
    on_write (fun wq => Ok (inject_projection_into_args empty_child_link wq)) (update_many_selectors (RecordFilter_from_selectors (dr_right d)) n))).
Definition set_one_to_many (parent_node : NodeRef) (rf : RelationField) (filter : Filter) : WM unit :=
  child_model ← pure (related_model idm rf);
  child_model_identifier ← pure (primary_identifier idm child_model);
  child_field ← pure (related_field idm rf);
  child_link ← pure (linking_fields idm child_field);
  parent_link ← pure (linking_fields idm rf);
  empty_child_link ← pure (empty_record_projection idm child_link);
  read_old_node ← find_children parent_node rf FEmpty;
  read_new_query ← pure (read_ids_infallible idm child_model child_model_identifier filter);
  read_new_node ← node (NodeQuery read_new_query);
  diff_node ← node empty_diff;
  _ ← edge read_old_node read_new_node ExecutionOrder;
  _ ← edge read_new_node diff_node (ParentProjection child_model_identifier diff_left);
  _ ← edge read_old_node diff_node (ParentProjection child_model_identifier diff_right);
  _ ← set_connect_part parent_node diff_node child_model parent_link child_link;
  set_disconnect_part diff_node rf child_field child_model empty_child_link.
Definition connect_nested_set (parent_node : NodeRef) (rf : RelationField) (value : ParsedInputValue) (child_model : QueryModel) : WM unit :=
  relation ← pure (rf_relation idm rf);
  filters ← pure (unique_filters child_model value);
  kind ← relation_kind relation;
  if (kind : bool * bool).1 then set_many_to_many parent_node rf (FOr filters)
  else if kind.2 then set_one_to_many parent_node rf (FOr filters)
  else panic "Set is not supported on one-to-one relations.".

(** ** updateMany (update_nested.rs) *)
Definition update_children (n : Node) (child_ids : list RecordProjection) : BResult Node :=
  Ok (update_many_selectors (RecordFilter_from_selectors child_ids) n).
Definition connect_nested_update_many (parent_node : NodeRef) (rf : RelationField) (value : ParsedInputValue) (child_model : QueryModel) : WM unit :=
  eff_for (fun value =>
    map ← pure (to_map value);
    where_arg ← pure (take_entry unwrap_none "where" map);
    data_value ← pure (take_entry unwrap_none "data" map);
    data_map ← pure (to_map data_value);
    where_map ← pure (to_map where_arg);
    related ← pure (related_model idm rf);
    child_model_identifier ← pure (primary_identifier idm related);
    filter ← pure (extract_filter debug_parsed idm where_map child_model);
    update_args ← pure (WriteArgsParser_from debug_parsed child_model data_map);
    find_child_records_node ← find_children parent_node rf filter;
    update_many_node ← node (NodeQuery (QWrite (WQUpdateManyRecords child_model RecordFilter_empty (wap_args update_args))));
    edge find_child_records_node update_many_node (ParentProjection child_model_identifier update_children))
    (coerce_vec value).
End nested_writes.
