(* ===== verification/WriteQueries.v ===== *)
(** * Write queries (query-engine/core/src/query_graph_builder/write: create.rs, update.rs, delete.rs, upsert.rs, nested/mod.rs, nested/update_nested.rs, nested/upsert_nested.rs)

    A record and the records nested in its data are written by one graph. The
    recursion follows the data: the depth of the data bounds it. *)
From stdpp Require Import pretty.
From S2P Require Import Prelude Effects SqlSchema Dml Converter Models Projections Filters QueryAst QueryGraph NestedRead Interpreter QueryDocument ReadBuilder WriteBuilder.

(** How deep a value is. *)
Fixpoint value_depth `{VT : ValueTypes} (v : ParsedInputValue) : nat :=
  match v with
  | ParsedList l => S (foldr (fun v d => Nat.max (value_depth v) d) 0 l)
  | ParsedMap m => S (foldr (fun p d => Nat.max (value_depth p.2) d) 0 m)
  | _ => 1
  end.

Section write_queries.
Context `{VT : ValueTypes} {VO : ValueOrd VT} `{IT : Itertools} {JN : JsonNumbers} {PG : Petgraph}.
Context (debug_parsed : ParsedInputValue -> string) (debug_names : list string -> string) (idm : InternalDataModel) (now : PrismaValue).
Context (collect_set : list RecordProjection -> list RecordProjection).
Abbreviation BResult := (outcome BuilderError).
#[local] Existing Instance WM_ret.
#[local] Existing Instance WM_bind.
Abbreviation edge := (edge debug_names idm).
Abbreviation find_children := (insert_find_children_by_parent_node debug_names idm).
Abbreviation placeholder := (update_records_node_placeholder idm now).
Abbreviation connect_node := (connect_records_node debug_names idm).
Abbreviation to_map v := (of_parser (try_into_map debug_parsed v)).
Abbreviation assertion := BuilderAssertionError.

Section nested_queries.
(** [create_record_node] and [update_record_node] for the records one level further down. *)
Context (create_record_node update_record_node : QueryModel -> ParsedInputMap -> WM NodeRef).

(** ** create (create_nested.rs) *)
Definition connect_nested_create (parent_node : NodeRef) (rf : RelationField) (value : ParsedInputValue) (child_model : QueryModel) : WM unit :=
  relation ← pure (rf_relation idm rf);
  creates ← eff_map (fun value => data ← pure (to_map value); create_record_node child_model data) (coerce_vec value);
  kind ← relation_kind idm relation;
  if (kind : bool * bool).1 then create_many_to_many debug_names idm parent_node rf creates
  else if kind.2 then create_one_to_many debug_names idm parent_node rf creates
  else create_one_to_one debug_names idm now parent_node rf creates.

(** ** update (update_nested.rs) *)
Definition update_data_and_filter (rf : RelationField) (value : ParsedInputValue) (child_model : QueryModel) : BResult (ParsedInputValue * Filter) :=
  if rf_is_list rf then
    map ← to_map value;
    where_value ← take_entry unwrap_none "where" map;
    where_arg ← to_map where_value;
    _ ← of_parser (map_assert_size 1 where_arg);
    _ ← of_parser (map_assert_non_null where_arg);
    filter ← extract_unique_filter debug_parsed idm where_arg child_model;
    data_value ← take_entry unwrap_none "data" map;
    Ok (data_value, filter)
  else Ok (value, FEmpty).
Definition update_the_child (n : Node) (child_ids : list RecordProjection) : BResult Node :=
  child_id ← pop_or (assertion "Expected a valid parent ID to be present for nested update to-one case.") child_ids;
  Ok (match n with NodeQuery (QWrite (WQUpdateRecord m _ a)) => NodeQuery (QWrite (WQUpdateRecord m (RecordFilter_from_selector child_id) a)) | n => n end).
Definition nested_update (parent_node : NodeRef) (rf : RelationField) (child_model : QueryModel) (value : ParsedInputValue) : WM unit :=
  data_filter ← pure (update_data_and_filter rf value child_model);
  find_child_records_node ← find_children parent_node rf (data_filter : ParsedInputValue * Filter).2;
  data ← pure (to_map data_filter.1);
  update_node ← update_record_node child_model data;
  related ← pure (related_model idm rf);
  child_model_identifier ← pure (primary_identifier idm related);
  edge find_child_records_node update_node (ParentProjection child_model_identifier update_the_child).
Definition connect_nested_update (parent_node : NodeRef) (rf : RelationField) (value : ParsedInputValue) (child_model : QueryModel) : WM unit :=
  eff_for (nested_update parent_node rf child_model) (coerce_vec value).

(** ** upsert (upsert_nested.rs) *)
Definition if_found (n : Node) (ids : list RecordProjection) : BResult Node :=
  Ok (match n with NodeFlow (FlowIf _) => NodeFlow (FlowIf (fun _ => non_empty ids)) | n => n end).
Definition update_found (n : Node) (child_ids : list RecordProjection) : BResult Node :=
  match n with
  | NodeQuery (QWrite (WQUpdateRecord m f a)) =>
      child_id ← pop_or (assertion "[Query Graph] Expected a valid parent ID to be present for a nested update in a nested upsert.") child_ids;
      wq ← write_add_filter (rp_filter child_id) (WQUpdateRecord m f a);
      Ok (NodeQuery (QWrite wq))
  | n => Ok n
  end.
Definition upsert_finder_error : BuilderError :=
  assertion "[Query Graph] Expected a valid parent ID to be present to retrieve the finder for a parent update in a nested upsert.".
Definition upsert_parent_error : BuilderError :=
  assertion "[Query Graph] Expected a valid parent ID to be present to retrieve the ID to inject for a parent update in a nested upsert.".
Definition upsert_child_error : BuilderError :=
  assertion "[Query Graph] Expected a valid parent ID to be present to retrieve the ID to inject into the child create in a nested upsert.".
(** The record that is created is connected with the parent. *)
Definition connect_upserted (parent_node create_node : NodeRef) (rf : RelationField) (parent_link child_link : ModelProjection) : WM unit :=
  relation ← pure (rf_relation idm rf);
  m2m ← pure (is_many_to_many idm relation);
  if m2m : bool then _ ← connect_node parent_node create_node rf 1; mret tt
  else
    inlined ← pure (relation_is_inlined_in_parent idm rf);
    if inlined : bool then
      parent_model ← pure (upgrade_model idm (rf_model rf));
      parent_model_id ← pure (primary_identifier idm parent_model);
      update_node ← placeholder FEmpty parent_model;
      _ ← edge parent_node update_node (ParentProjection parent_model_id (filter_by_id upsert_finder_error));
      edge create_node update_node (ParentProjection child_link (inject_link idm upsert_parent_error parent_link))
    else edge parent_node create_node (ParentProjection parent_link (inject_link idm upsert_child_error child_link)).
Definition upsert_filter (rf : RelationField) (as_map : ParsedInputMap) (child_model : QueryModel) : BResult Filter :=
  if rf_is_list rf then
    where_value ← take_entry "where argument is missing" "where" as_map;
    where_input ← to_map where_value;
    _ ← of_parser (map_assert_size 1 where_input);
    _ ← of_parser (map_assert_non_null where_input);
    extract_unique_filter debug_parsed idm where_input child_model
  else Ok FEmpty.
Definition nested_upsert (parent_node : NodeRef) (rf : RelationField) (child_model : QueryModel) (child_model_identifier : ModelProjection) (value : ParsedInputValue) : WM unit :=
  parent_link ← pure (linking_fields idm rf);
  child_field ← pure (related_field idm rf);
  child_link ← pure (linking_fields idm child_field);
  as_map ← pure (to_map value);
  create_input ← pure (take_entry "create argument is missing" "create" as_map);
  update_input ← pure (take_entry "update argument is missing" "update" as_map);
  filter ← pure (upsert_filter rf as_map child_model);
  read_children_node ← find_children parent_node rf filter;
  if_node ← node (NodeFlow default_if);
  create_data ← pure (to_map create_input);
  create_node ← create_record_node child_model create_data;
  update_data ← pure (to_map update_input);
  update_node ← update_record_node child_model update_data;
  _ ← edge read_children_node if_node (ParentProjection child_model_identifier if_found);
  _ ← edge read_children_node update_node (ParentProjection child_model_identifier update_found);
  _ ← edge if_node update_node Then;
  _ ← edge if_node create_node Else;
  connect_upserted parent_node create_node rf parent_link child_link.
Definition connect_nested_upsert (parent_node : NodeRef) (rf : RelationField) (value : ParsedInputValue) : WM unit :=
  child_model ← pure (related_model idm rf);
  child_model_identifier ← pure (primary_identifier idm child_model);
  eff_for (nested_upsert parent_node rf child_model child_model_identifier) (coerce_vec value).

(** ** One relation field of the data (nested/mod.rs) *)
Definition connect_nested_entry (parent : NodeRef) (rf : RelationField) (child_model : QueryModel) (p : string * ParsedInputValue) : WM unit :=
  let '(field_name, value) := p in
  if field_name ≟ "create" then connect_nested_create parent rf value child_model
  else if field_name ≟ "update" then connect_nested_update parent rf value child_model
  else if field_name ≟ "upsert" then connect_nested_upsert parent rf value
  else if field_name ≟ "delete" then connect_nested_delete debug_parsed debug_names idm parent rf value child_model
  else if field_name ≟ "connect" then connect_nested_connect debug_parsed debug_names idm now parent rf value child_model
  else if field_name ≟ "disconnect" then connect_nested_disconnect debug_parsed debug_names idm now parent rf value child_model
  else if field_name ≟ "set" then connect_nested_set debug_parsed debug_names idm now collect_set parent rf value child_model
  else if field_name ≟ "updateMany" then connect_nested_update_many debug_parsed debug_names idm parent rf value child_model
  else if field_name ≟ "deleteMany" then connect_nested_delete_many debug_parsed debug_names idm parent rf value child_model
  else mret tt.
Definition connect_nested_query (parent : NodeRef) (rf : RelationField) (data_map : ParsedInputMap) : WM unit :=
  child_model ← pure (related_model idm rf);
  eff_for (connect_nested_entry parent rf child_model) data_map.
(** The node of a record and all below it. *)
Definition record_node (model : QueryModel) (query : WriteArgs -> WriteQuery) (data_map : ParsedInputMap) : WM NodeRef :=
  parsed ← pure (WriteArgsParser_from debug_parsed model data_map);
  n ← node (NodeQuery (QWrite (query (wap_args parsed))));
  _ ← eff_for (fun p => connect_nested_query n p.1 p.2) (wap_nested parsed);
  mret n.
End nested_queries.

(** ** The node of a record with everything nested below it (create.rs, update.rs) *)
Inductive RecordWrite : Type := WriteCreate | WriteUpdate (filter : Filter).
Definition write_of (kind : RecordWrite) (model : QueryModel) (args : WriteArgs) : WriteQuery :=
  match kind with
  | WriteCreate => WQCreateRecord model (add_datetimes idm now model args)
  | WriteUpdate filter => WQUpdateRecord model (RecordFilter_from_filter filter) (update_datetimes idm now model args)
  end.
Fixpoint write_record_node (fuel : nat) (kind : RecordWrite) (model : QueryModel) (data_map : ParsedInputMap) : WM NodeRef :=
  match fuel with
  | O => panic stack_overflow
  | S fuel => record_node (write_record_node fuel WriteCreate) (write_record_node fuel (WriteUpdate FEmpty)) model (write_of kind model) data_map
  end.
Definition create_record_node (model : QueryModel) (data_map : ParsedInputMap) : WM NodeRef :=
  write_record_node (value_depth (ParsedMap data_map)) WriteCreate model data_map.
Definition update_record_node (filter : Filter) (model : QueryModel) (data_map : ParsedInputMap) : WM NodeRef :=
  write_record_node (value_depth (ParsedMap data_map)) (WriteUpdate filter) model data_map.

(** ** Top level operations *)
(** [field.arguments.lookup(..)]: the argument is taken out of the field. *)
Definition take_argument (name : string) (field : ParsedField) : option ParsedArgument * ParsedField :=
  let '(found, rest) := lookup_argument name (pf_arguments field) in
  (found, mkParsedField (pf_name field) (pf_alias field) rest (pf_nested_fields field) (pf_schema_field field)).
Definition required_argument (name : string) (field : ParsedField) : BResult (ParsedInputValue * ParsedField) :=
  let '(found, field) := take_argument name field in
  arg ← unwrap unwrap_none found; Ok (pa_value arg, field).
Definition build_read (field : ParsedField) (model : QueryModel) : BResult ReadQuery := build_one debug_parsed idm field model.
(** create.rs *)
Definition create_record (model : QueryModel) (field : ParsedField) : WM unit :=
  taken ← pure (required_argument "data" field);
  data_map ← pure (to_map (taken : ParsedInputValue * ParsedField).1);
  create_node ← create_record_node model data_map;
  read_query ← pure (build_read taken.2 model);
  read_node ← node (NodeQuery (QRead read_query));
  _ ← graph_update (add_result_node read_node);
  id ← pure (primary_identifier idm model);
  edge create_node read_node (ParentProjection id
    (read_by_id (assertion "Expected a valid parent ID to be present for create follow-up read query."))).
(** update.rs *)
Definition unique_where (model : QueryModel) (value : ParsedInputValue) : BResult Filter :=
  where_arg ← to_map value;
  _ ← of_parser (map_assert_size 1 where_arg);
  _ ← of_parser (map_assert_non_null where_arg);
  extract_unique_filter debug_parsed idm where_arg model.
Definition update_record (model : QueryModel) (field : ParsedField) : WM unit :=
  taken ← pure (required_argument "where" field);
  filter ← pure (unique_where model (taken : ParsedInputValue * ParsedField).1);
  data ← pure (required_argument "data" taken.2);
  data_map ← pure (to_map (data : ParsedInputValue * ParsedField).1);
  update_node ← update_record_node filter model data_map;
  read_query ← pure (build_read data.2 model);
  read_node ← node (NodeQuery (QRead read_query));
  _ ← graph_update (add_result_node read_node);
  id ← pure (primary_identifier idm model);
  edge update_node read_node (ParentProjection id (read_by_id (RecordNotFound "Record to update not found."))).
(** The filter of the optional argument [where], and the field without it. *)
Definition where_filter (model : QueryModel) (field : ParsedField) : BResult (Filter * ParsedField) :=
  let '(found, field) := take_argument "where" field in
  match found with
  | Some where_arg => m ← to_map (pa_value where_arg); f ← extract_filter debug_parsed idm m model; Ok (f, field)
  | None => Ok (FEmpty, field)
  end.
Definition update_many_records (model : QueryModel) (field : ParsedField) : WM unit :=
  taken ← pure (where_filter model field);
  data ← pure (required_argument "data" (taken : Filter * ParsedField).2);
  data_map ← pure (to_map (data : ParsedInputValue * ParsedField).1);
  update_args ← pure (WriteArgsParser_from debug_parsed model data_map);
  _ ← node (NodeQuery (QWrite (WQUpdateManyRecords model (RecordFilter_from_filter taken.1) (update_datetimes idm now model (wap_args update_args)))));
  mret tt.
(** delete.rs *)
Definition fail_unless_found (n : Node) (parent_ids : list RecordProjection) : BResult Node :=
  if non_empty parent_ids then Ok n else Err (RecordNotFound "Record to delete does not exist.").
Definition delete_record (model : QueryModel) (field : ParsedField) : WM unit :=
  taken ← pure (required_argument "where" field);
  where_map ← pure (to_map (taken : ParsedInputValue * ParsedField).1);
  filter ← pure (extract_unique_filter debug_parsed idm where_map model);
  read_query ← pure (build_read taken.2 model);
  read_query ← pure (add_filter filter (QRead read_query));
  read_node ← node (NodeQuery read_query);
  delete_node ← node (NodeQuery (QWrite (WQDeleteRecord model (Some (RecordFilter_from_filter filter)))));
  _ ← insert_deletion_checks debug_names idm model read_node delete_node;
  id ← pure (primary_identifier idm model);
  _ ← edge read_node delete_node (ParentProjection id fail_unless_found);
  graph_update (add_result_node read_node).
Definition delete_many_records (model : QueryModel) (field : ParsedField) : WM unit :=
  taken ← pure (where_filter model field);
  model_id ← pure (primary_identifier idm model);
  read_query ← pure (read_ids_infallible idm model model_id (taken : Filter * ParsedField).1);
  read_query_node ← node (NodeQuery read_query);
  delete_many_node ← node (NodeQuery (QWrite (WQDeleteManyRecords model (RecordFilter_from_filter taken.1))));
  _ ← insert_deletion_checks debug_names idm model read_query_node delete_many_node;
  edge read_query_node delete_many_node ExecutionOrder.
(** upsert.rs *)
Definition upsert_record (model : QueryModel) (field : ParsedField) : WM unit :=
  taken ← pure (required_argument "where" field);
  filter ← pure (unique_where model (taken : ParsedInputValue * ParsedField).1);
  model_id ← pure (primary_identifier idm model);
  create ← pure (required_argument "create" taken.2);
  update ← pure (required_argument "update" (create : ParsedInputValue * ParsedField).2);
  read_parent_records ← pure (read_ids_infallible idm model model_id filter);
  read_parent_records_node ← node (NodeQuery read_parent_records);
  create_data ← pure (to_map create.1);
  create_node ← create_record_node model create_data;
  update_data ← pure (to_map (update : ParsedInputValue * ParsedField).1);
  update_node ← update_record_node filter model update_data;
  read_query ← pure (build_read update.2 model);
  read_node_create ← node (NodeQuery (QRead read_query));
  read_node_update ← node (NodeQuery (QRead read_query));
  _ ← graph_update (add_result_node read_node_create);
  _ ← graph_update (add_result_node read_node_update);
  if_node ← node (NodeFlow default_if);
  _ ← edge read_parent_records_node if_node (ParentProjection model_id if_found);
  _ ← edge if_node update_node Then;
  _ ← edge if_node create_node Else;
  _ ← edge update_node read_node_update (ParentProjection model_id
        (read_by_id (assertion "Expected a valid parent ID to be present for create follow-up for upsert query.")));
  edge create_node read_node_create (ParentProjection model_id
    (read_by_id (assertion "Expected a valid parent ID to be present for update follow-up for upsert query."))).

(** ** The query of an operation (schema_builder/query_schema_builder.rs, schema/query_schema.rs) *)
Definition single_read (build : ParsedField -> QueryModel -> BResult ReadQuery) (model : QueryModel) (field : ParsedField) : WM unit :=
  query ← pure (build field model); _ ← node (NodeQuery (QRead query)); mret tt.
Definition builder_fn (tag : QueryTag) : QueryModel -> ParsedField -> WM unit :=
  match tag with
  | TagFindOne => single_read (build_one debug_parsed idm)
  | TagFindMany => single_read (build_many debug_parsed idm)
  | TagAggregate => single_read (build_aggregate debug_parsed idm)
  | TagCreateOne => create_record
  | TagUpdateOne => update_record
  | TagUpdateMany => update_many_records
  | TagDeleteOne => delete_record
  | TagDeleteMany => delete_many_records
  | TagUpsertOne => upsert_record
  end.
Definition builder_build (b : SchemaQueryBuilder) (field : ParsedField) : BResult QueryGraph :=
  match b with
  | ModelQueryBuilder model tag => let '(res, graph) := builder_fn tag model field QueryGraph_new in _ ← res; Ok graph
  | GenericQueryBuilder => Panic unimplemented
  end.
End write_queries.
