(* ===== verification/QueryParser.v ===== *)
(** * Checking a query document (query-engine/core/src/query_document/parser.rs)

    Selections and their arguments are checked against the query schema. A
    value is read as its type asks for it: a single value where a list is
    expected is a list of one, defaults are added for what is left out.
    Only objects nested in the value use up fuel, so their depth bounds it. *)
From stdpp Require Import pretty.
From S2P Require Import Prelude SqlSchema Dml Converter Models Projections Filters QueryAst QueryGraph QueryDocument ReadBuilder.

Section query_parser.
Context `{VT : ValueTypes} {VO : ValueOrd VT} `{IT : Itertools} {JN : JsonNumbers} {DP : DocumentParsers}.
Context (debug_query_value : QueryValue -> string) (qs : QuerySchema).
Abbreviation PResult := (outcome QueryParserError).

(** ** Scalars *)
Definition datetime_format : string := "%Y-%m-%dT%H:%M:%S%.3f".
Definition parse_datetime (s : string) : PResult DateTimeUtc :=
  map_err (fun err => ValueParseError ("Invalid DateTime: " +:+ err +:+ " DateTime must adhere to format: %Y-%m-%dT%H:%M:%S%.3f"))
    (datetime_from_str (trim_end_matches "Z" s) datetime_format).
Definition parse_json (s : string) : PResult Json := map_err (fun err => ValueParseError ("Invalid json: " +:+ err)) (json_from_str s).
Definition parse_uuid (s : string) : PResult Uuid := map_err (fun err => ValueParseError ("Invalid UUID: " +:+ err)) (uuid_parse_str s).
(** [PrismaValue::try_from] (libs/prisma-value); the only error is a nested object. *)
Fixpoint value_of_json (v : Json) : outcome unit PrismaValue :=
  match v with
  | JsonString s => Ok (match json_string_from_str s with Some val => PV_Json val | None => PV_String s end)
  | JsonArray l => vals ← map_m value_of_json l; Ok (PV_List vals)
  | JsonNull => Ok PV_Null
  | JsonBool b => Ok (PV_Boolean b)
  | JsonNum num =>
      match number_as_i64 num with
      | Some i => Ok (PV_Int i)
      | None => dec ← unwrap unwrap_none (number_as_decimal num); Ok (PV_Float dec)
      end
  | JsonObject _ => Err tt
  end.
Definition parse_json_list (s : string) : PResult PrismaValue :=
  json ← parse_json s;
  values ← ok_or (ParserAssertionError "JSON parameter needs to be an array") (json_as_array json);
  prisma_values ← map_m (fun v => map_err (fun _ => ParserAssertionError "Nested JSON arguments are not supported") (value_of_json v)) values;
  Ok (PV_List prisma_values).
Definition parse_scalar (value : QueryValue) (scalar_type : SchemaScalar) : PResult PrismaValue :=
  match value, scalar_type with
  | QV_Null, _ => Ok PV_Null
  | QV_String s, SchemaString => Ok (PV_String s)
  | QV_String s, SchemaDateTime => dt ← parse_datetime s; Ok (PV_DateTime dt)
  | QV_String s, SchemaJson => _ ← parse_json s; Ok (PV_Json s)
  | QV_String s, SchemaJsonList => parse_json_list s
  | QV_String s, SchemaUUID => u ← parse_uuid s; Ok (PV_Uuid u)
  | QV_Int i, SchemaFloat => Ok (PV_Float (decimal_from_i64 i))
  | QV_Int i, SchemaInt => Ok (PV_Int i)
  | QV_Float f, SchemaFloat => Ok (PV_Float f)
  | QV_Float f, SchemaInt => i ← unwrap unwrap_none (decimal_to_i64 f); Ok (PV_Int i)
  | QV_Boolean b, SchemaBoolean => Ok (PV_Boolean b)
  | qv, _ => Err (ValueTypeMismatchError qv (InScalar scalar_type))
  end.

(** ** Enums *)
Definition invalid_enum_value (raw name : string) : QueryParserError :=
  ValueParseError ("Enum value '" +:+ raw +:+ "' is invalid for enum type " +:+ name).
Definition parse_enum (val : QueryValue) (typ : EnumType) : PResult ParsedInputValue :=
  raw ← match val with
        | QV_Enum s | QV_String s => Ok s
        | QV_Boolean b => Ok (if b then "true" else "false ")
        | _ => Err (ValueParseError ("Unexpected Enum value type " +:+ debug_query_value val +:+ " for enum " +:+ enum_type_name typ))
        end;
  match typ with
  | EnumInternal i => v ← ok_or (invalid_enum_value raw (ie_name i)) (map_input_value i raw); Ok (ParsedSingle v)
  | EnumOrderBy o => v ← ok_or (invalid_enum_value raw (obe_name o)) (value_for o raw); Ok (ParsedOrderBy v)
  end.

(** ** Differences of name sets ([Diff]) *)
Definition name_set (l : list string) : list string := remove_dups l.
Definition diff_names (left right : list string) : list string := iter_filter (fun x => negb (iter_any (fun y => y ≟ x) right)) (hash_iter (name_set left)).

(** ** Objects *)
Section objects.
Context (parse_value : QueryValue -> InputType -> PResult ParsedInputValue).
Definition parse_input_field (value : QueryValue) (f : InputField) : PResult ParsedInputValue :=
  map_err (FieldValidationError (if_name f)) (parse_value value (if_type f)).
(** A field the object does not give. *)
Definition unset_field (o : InputObjectType) (name : string) : PResult (option (string * ParsedInputValue)) :=
  field ← unwrap unwrap_none (iot_find_field o name);
  match if_default_value field with
  | Some dv =>
      match DefaultValue_get (fresh_uuid field) (fresh_cuid field) present_time dv with
      | Some pv => value ← parse_input_field (QueryValue_from pv) field; Ok (Some (if_name field, value))
      | None => Ok None
      end
  | None =>
      match if_type field with
      | InOpt _ => Ok None
      | _ => Err (FieldValidationError (if_name field) RequiredValueNotSetError)
      end
  end.
Definition given_field (o : InputObjectType) (p : string * QueryValue) : PResult (string * ParsedInputValue) :=
  match iot_find_field o p.1 with
  | Some field => parsed ← parse_input_field p.2 field; Ok (p.1, parsed)
  | None => Err (FieldValidationError p.1 FieldNotFoundError)
  end.
Definition parse_input_object (object : list (string * QueryValue)) (o : InputObjectType) : PResult ParsedInputMap :=
  map_err (ObjectValidationError (iot_name o))
    (defaults ← map_m (unset_field o) (diff_names (if_name <$> iot_fields o) object.*1);
     tuples ← map_m (given_field o) object;
     Ok (map_of (tuples ++ omap id defaults))).
End objects.

(** ** Values *)
Fixpoint parse_input_value (fuel : nat) : QueryValue -> InputType -> PResult ParsedInputValue :=
  fix parse (value : QueryValue) (input_type : InputType) {struct input_type} : PResult ParsedInputValue :=
    match input_type with
    | InOpt inner => parse value inner
    | InNull inner => match value with QV_Null => Ok (ParsedSingle PV_Null) | _ => parse value inner end
    | InScalar scalar =>
        match value with QV_Null => Err RequiredValueNotSetError | _ => v ← parse_scalar value scalar; Ok (ParsedSingle v) end
    | InEnum et =>
        match value with
        | QV_Null => Err RequiredValueNotSetError
        | QV_Enum _ | QV_String _ | QV_Boolean _ => parse_enum value et
        | _ => Err (ValueTypeMismatchError value input_type)
        end
    | InList l =>
        match value with
        | QV_Null => Err RequiredValueNotSetError
        | QV_List values => vs ← map_m (fun v => parse v l) values; Ok (ParsedList vs)
        | _ => v ← parse value l; Ok (ParsedList [v])
        end
    | InObject ref =>
        match value with
        | QV_Null => Err RequiredValueNotSetError
        | QV_Object o =>
            obj ← input_object qs ref;
            m ← match fuel with
                | O => Panic "stack overflow"
                | S fuel => parse_input_object (parse_input_value fuel) o obj
                end;
            Ok (ParsedMap m)
        | _ => Err (ValueTypeMismatchError value input_type)
        end
    end.
(** How deep objects are nested in a value. *)
Fixpoint object_depth (v : QueryValue) : nat :=
  match v with
  | QV_List l => foldr (fun v d => Nat.max (object_depth v) d) 0 l
  | QV_Object o => S (foldr (fun p d => Nat.max (object_depth p.2) d) 0 o)
  | _ => 0
  end.
Definition parse_value (value : QueryValue) (t : InputType) : PResult ParsedInputValue := parse_input_value (object_depth value) value t.

(** ** Arguments and selections *)
(** [collect] of evaluated results: a panic comes before every error. *)
Definition collect_results {A} (l : list (PResult A)) : PResult (list A) :=
  match iter_find (fun r => match r with Panic _ => true | _ => false end) l with
  | Some (Panic msg) => Panic msg
  | _ => map_m id l
  end.
Definition parse_argument (given : list (string * QueryValue)) (arg : SchemaArgument) : PResult (option ParsedArgument) :=
  match iter_find (fun g => g.1 ≟ sa_name arg) given, sa_type arg with
  | None, InOpt _ => Ok None
  | Some (_, value), _ => v ← map_err (ArgumentValidationError (sa_name arg)) (parse_value value (sa_type arg)); Ok (Some (mkParsedArgument (sa_name arg) v))
  | None, _ => Err (ArgumentValidationError (sa_name arg) RequiredValueNotSetError)
  end.
Definition parse_arguments (field : SchemaField) (given : list (string * QueryValue)) : PResult (list ParsedArgument) :=
  match diff_names given.*1 (sa_name <$> fld_arguments field) with
  | extra_arg :: _ => Err (ArgumentValidationError extra_arg ArgumentNotFoundError)
  | [] => args ← collect_results (map (parse_argument given) (fld_arguments field)); Ok (omap id (args : list (option ParsedArgument)))
  end.
Definition parse_object_with (parse_field : Selection -> SchemaField -> PResult ParsedField) (selections : list Selection) (object : ObjectType) : PResult (list ParsedField) :=
  match selections with
  | [] => Err (ObjectValidationError (ot_name object) AtLeastOneSelectionError)
  | _ =>
      map_m (fun selection =>
        map_err (ObjectValidationError (ot_name object))
          (match ot_find_field object (sel_name selection) with
           | Some field => parse_field selection field
           | None => Err (FieldValidationError (sel_name selection) FieldNotFoundError)
           end)) selections
  end.
Fixpoint parse_field (selection : Selection) (field : SchemaField) {struct selection} : PResult ParsedField :=
  match selection with
  | mkSelection name alias arguments nested =>
      map_err (FieldValidationError (fld_name field))
        (arguments ← parse_arguments field arguments;
         object ← as_object_type qs (fld_type field);
         nested_fields ←
           match object with
           | Some obj => sub ← parse_object_with parse_field nested obj; Ok (Some sub)
           | None => Ok None
           end;
         Ok (mkParsedField name alias arguments nested_fields field))
  end.
Definition parse_object : list Selection -> ObjectType -> PResult (list ParsedField) := parse_object_with parse_field.
End query_parser.
