(* ===== verification/ResponseIr.v ===== *)
(** * Responses (query-engine/core/src/response_ir: mod.rs, internal.rs)

    The result of a query is turned into the items of the response: scalars by
    the types of the schema, the nested results below the records they belong
    to, the fields of an object in the order of the selection. *)
From stdpp Require Import gmap pretty.
From S2P Require Import Prelude Effects SqlSchema Dml Converter Models Projections Filters QueryAst QueryGraph NestedRead QueryDocument ReadBuilder.

(** [as i64] of a [usize]. *)
Definition usize_as_i64 (n : nat) : Z := ((Z.of_nat n + 2 ^ 63) mod 2 ^ 64 - 2 ^ 63)%Z.

(** [IndexMap]: entries in the order of their insertion; an insert under a key that is there replaces its value. *)
Definition index_insert {K V} (eqb : K -> K -> bool) (k : K) (v : V) (m : list (K * V)) : list (K * V) :=
  match assoc_find eqb k m with Some _ => assoc_update eqb k (fun _ => v) m | None => m ++ [(k, v)] end.

Section response_ir.
Context `{VT : ValueTypes} {VO : ValueOrd VT} `{IT : Itertools} {JN : JsonNumbers} {DP : DocumentParsers} {PG : Petgraph}.
Context {ConnectorError : Type}.

(** ** Errors (error.rs) *)
Inductive CoreError : Type :=
| CoreGraphError (e : QueryGraphError)
| CoreGraphBuilderError (e : BuilderError)
| CoreConnectorError (e : ConnectorError)
| CoreDomainError (e : DomainError)
| CoreParserError (e : QueryParserError)
| UnsupportedFeatureError (msg : string)
| CoreConversionError (msg : string)
| SerializationError (msg : string)
| CoreInterpreterError (e : InterpreterError ConnectorError).
Abbreviation CResult := (outcome CoreError).

(** ** Items *)
Inductive Item : Type :=
| ItemMap (m : list (string * Item))
| ItemList (l : list Item)
| ItemValue (v : PrismaValue)
| ItemJson (j : Json)
(* an item several parents may hold *)
| ItemRef (r : Item).
Definition Map : Type := list (string * Item).
Definition map_insert : string -> Item -> Map -> Map := index_insert String.eqb.
Fixpoint as_map (i : Item) : option Map := match i with ItemMap m => Some m | ItemRef r => as_map r | _ => None end.
(** [Arc::try_unwrap] succeeds for the only owner. *)
Fixpoint into_map (sole_owner : bool) (i : Item) : option Map :=
  match i with ItemMap m => Some m | ItemRef r => if sole_owner then into_map sole_owner r else None | _ => None end.
Fixpoint item_into_value (sole_owner : bool) (i : Item) : option PrismaValue :=
  match i with ItemValue v => Some v | ItemRef r => if sole_owner then item_into_value sole_owner r else None | _ => None end.
Fixpoint item_into_list (sole_owner : bool) (i : Item) : option (list Item) :=
  match i with ItemList l => Some l | ItemRef r => if sole_owner then item_into_list sole_owner r else None | _ => None end.
(** The derived [PartialEq]: maps are compared by what their keys hold, whatever the order. *)
Context (json_eqb : Json -> Json -> bool).
Fixpoint item_eqb (a b : Item) : bool :=
  let fix all_eq (l k : list Item) : bool := match l, k with [], [] => true | x :: l, y :: k => item_eqb x y && all_eq l k | _, _ => false end in
  match a, b with
  | ItemMap l, ItemMap k =>
      (length l ≟ length k)
      && (fix entries (l : list (string * Item)) : bool :=
            match l with
            | [] => true
            | (key, x) :: l => match assoc_find String.eqb key k with Some y => item_eqb x y | None => false end && entries l
            end) l
  | ItemList l, ItemList k => all_eq l k
  | ItemValue v, ItemValue w => value_eqb v w
  | ItemJson j, ItemJson k => json_eqb j k
  | ItemRef x, ItemRef y => item_eqb x y
  | _, _ => false
  end.

(** ** Scalars *)
Context (debug_output : OutputType -> string) (debug_scalar : SchemaScalar -> string) (debug_enum : InternalEnum -> string) (debug_list : list PrismaValue -> string).
Definition convert_prisma_value (value : PrismaValue) (st : SchemaScalar) : CResult PrismaValue :=
  match st, value with
  | SchemaString, PV_String s => Ok (PV_String s)
  | SchemaJson, PV_String s | SchemaJson, PV_Json s => Ok (PV_Json s)
  | SchemaInt, PV_Float f => i ← unwrap unwrap_none (decimal_to_i64 f); Ok (PV_Int i)
  | SchemaInt, PV_Int i => Ok (PV_Int i)
  | SchemaFloat, PV_Float f => Ok (PV_Float f)
  | SchemaFloat, PV_Int i => Ok (PV_Int i)
  | SchemaBoolean, PV_Boolean b => Ok (PV_Boolean b)
  | SchemaDateTime, PV_DateTime dt => Ok (PV_DateTime dt)
  | SchemaUUID, PV_Uuid u => Ok (PV_Uuid u)
  | st, pv => Err (SerializationError ("Attempted to serialize scalar '" +:+ value_fmt debug_list pv +:+ "' with incompatible type '" +:+ debug_scalar st +:+ "'"))
  end.
Definition convert_enum (value : PrismaValue) (i : InternalEnum) : CResult Item :=
  match value with
  | PV_String s | PV_Enum s =>
      match map_output_value i s with
      | Some inum => Ok (ItemValue inum)
      | None => Err (SerializationError ("Value '" +:+ s +:+ "' not found in enum '" +:+ debug_enum i +:+ "'"))
      end
  | val => Err (SerializationError ("Attempted to serialize non-enum-compatible value '" +:+ value_fmt debug_list val +:+ "' with enum '" +:+ debug_enum i +:+ "'"))
  end.
Definition serialize_enum (value : PrismaValue) (et : EnumType) : CResult Item :=
  match et with EnumInternal i => convert_enum value i | EnumOrderBy _ => Panic builder_unreachable end.
Definition not_a_scalar (pv : PrismaValue) (ot : OutputType) : CoreError :=
  SerializationError ("Attempted to serialize scalar '" +:+ value_fmt debug_list pv +:+ "' with non-scalar compatible type '" +:+ debug_output ot +:+ "'").
Definition serialize_scalar_list (values : list PrismaValue) (inner : OutputType) : CResult Item :=
  match inner with
  | OutScalar subtype => items ← map_m (fun v => x ← convert_prisma_value v subtype; Ok (ItemValue x)) values; Ok (ItemList items)
  | OutEnum et => items ← map_m (fun v => serialize_enum v et) values; Ok (ItemList items)
  | _ => Err (SerializationError ("Attempted to serialize scalar list which contained non-scalar items of type '" +:+ debug_output inner +:+ "'"))
  end.
Fixpoint serialize_scalar (value : PrismaValue) (typ : OutputType) : CResult Item :=
  match typ with
  | OutOpt inner => match value with PV_Null => Ok (ItemValue PV_Null) | _ => serialize_scalar value inner end
  | OutEnum et => serialize_enum value et
  | OutList inner => match value with PV_List l => serialize_scalar_list l inner | _ => Err (not_a_scalar value typ) end
  | OutScalar st => v ← convert_prisma_value value st; Ok (ItemValue v)
  | OutObject _ => Err (not_a_scalar value typ)
  end.

(** ** Records *)
Context (idm : InternalDataModel) (qs : QuerySchema).
Abbreviation Parent := (option RecordProjection).
Definition parent_eqb : Parent -> Parent -> bool := option_eqb RecordProjection_eqb.
(** Items by the record they belong to. *)
Definition CheckedItemsWithParents : Type := list (Parent * Item).
Definition UncheckedItemsWithParents : Type := list (Parent * list Item).
(** The nested items by the name of their field. *)
Definition NestedMapping : Type := list (string * CheckedItemsWithParents).
Definition is_null_item (i : Item) : bool := match i with ItemValue PV_Null => true | _ => false end.
Definition null_record (name : string) : CoreError := SerializationError ("Required field '" +:+ name +:+ "' returned a null record").
Definition check_list (name : string) (opt : bool) (items : list Item) : CResult Item :=
  if negb opt && iter_any is_null_item items then Err (null_record name) else Ok (ItemRef (ItemList items)).
(** Not a list: one item, or several equal ones. *)
Definition check_single (name : string) (opt : bool) (items : list Item) : CResult Item :=
  match items with
  | [] => if opt then Ok (ItemRef (ItemValue PV_Null)) else Panic unwrap_none
  | [item] => Ok (ItemRef item)
  | first :: second :: rest =>
      if forallb (fun i => item_eqb i first) (second :: rest) then Ok (ItemRef second)
      else Err (SerializationError ("Expected at most 1 item for '" +:+ name +:+ "', got " +:+ pretty (length items)))
  end.
Definition check_items (name : string) (is_list is_optional : bool) (result : UncheckedItemsWithParents) : CResult CheckedItemsWithParents :=
  checked ← map_m (fun p : Parent * list Item => item ← (if is_list then check_list name is_optional p.2 else check_single name is_optional p.2); Ok (p.1, item)) result;
  Ok (foldl (fun m p => index_insert parent_eqb p.1 p.2 m) [] checked).
Definition not_nullable (field_name : string) : string :=
  "Application logic invariant error: received null value for field " +:+ field_name +:+ " which may not be null".
Definition default_item (typ : ObjectType) (field_name : string) : CResult Item :=
  field ← unwrap unwrap_none (ot_find_field typ field_name);
  match fld_type field with
  | OutList _ => Ok (ItemList [])
  | OutOpt inner => Ok (if out_is_list inner then ItemList [] else ItemValue PV_Null)
  | _ => Panic (not_nullable field_name)
  end.
Definition write_nested_item (record_id : Parent) (typ : ObjectType) (into : gmap string Item) (p : string * CheckedItemsWithParents) : CResult (gmap string Item) :=
  let '(field_name, inner) := p in
  match assoc_find parent_eqb record_id inner with
  | Some (ItemRef r) => Ok (<[field_name := ItemRef r]> into)
  | None => item ← default_item typ field_name; Ok (<[field_name := ItemRef item]> into)
  | Some _ => Panic "Application logic invariant error: Nested items have to be wrapped as a Item::Ref."
  end.
Definition write_nested_items (record_id : Parent) (nested : NestedMapping) (into : gmap string Item) (typ : ObjectType) : CResult (gmap string Item) :=
  for_each (write_nested_item record_id typ) nested into.
Definition write_scalar (typ : ObjectType) (object : gmap string Item) (p : PrismaValue * string) : CResult (gmap string Item) :=
  let '(val, name) := p in
  field ← unwrap unwrap_none (ot_find_field typ name);
  if negb (out_is_object (fld_type field)) then item ← serialize_scalar val (fld_type field); Ok (<[name := item]> object) else Ok object.
(** [object.remove(field_name).unwrap()]. *)
Definition take_field (s : Map * gmap string Item) (field_name : string) : CResult (Map * gmap string Item) :=
  item ← unwrap unwrap_none (s.2 !! field_name); Ok (map_insert field_name item s.1, delete field_name s.2).
Definition serialize_record (fields db_names field_names : list string) (model_id : ModelProjection) (nested : NestedMapping) (typ : ObjectType)
    (mapping : UncheckedItemsWithParents) (record : DbRecord) : CResult UncheckedItemsWithParents :=
  record_id ← map_err CoreDomainError (record_projection idm record db_names model_id);
  object ← for_each (write_scalar typ) (zip (rec_values record) field_names) ∅;
  object ← write_nested_items (Some record_id) nested object typ;
  taken ← for_each take_field fields ([], object);
  Ok (assoc_push parent_eqb (parent_id record) (ItemMap (taken : Map * gmap string Item).1) mapping).
Definition serialize_records (fields : list string) (scalars : ManyRecords) (model_id : ModelProjection) (nested : NestedMapping) (typ : ObjectType) : CResult UncheckedItemsWithParents :=
  model ← mp_model idm model_id;
  let field_names := omap (fun f => sf_name <$> map_scalar_db_field_name model f) (mr_field_names scalars) in
  for_each (serialize_record fields (mr_field_names scalars) field_names model_id nested typ) (records scalars) [].
Definition count_item (name : string) (count : nat) (m : Map) : Map := map_insert name (ItemValue (PV_Int (usize_as_i64 count))) m.
Definition serialize_aggregation (a : RecordAggregation) : CheckedItemsWithParents :=
  [(None, ItemMap (foldl (fun m r => match r with AggregationCountResult name count => count_item name count m end) [] (ra_results a)))].
(** The type of the objects of a selection, and the flags of lists and optional values around it. *)
Fixpoint selection_type (typ : OutputType) (is_list is_optional : bool) : CResult (nat * bool * bool) :=
  match typ with
  | OutList inner => selection_type inner true false
  | OutOpt inner => selection_type inner is_list true
  | OutObject obj => Ok (obj, is_list, is_optional)
  | _ => Panic builder_unreachable
  end.
Fixpoint serialize_internal (result : QueryResult) (typ : OutputType) (is_list is_optional : bool) {struct result} : CResult CheckedItemsWithParents :=
  match result with
  | ResultRecordSelection (mkRecordSelection name fields scalars nested _ model_id) =>
      t ← selection_type typ is_list is_optional;
      let '(obj, is_list, is_optional) := (t : nat * bool * bool) in
      object_type ← output_object qs obj;
      nested_mapping ←
        (fix process_nested_results (nested : list QueryResult) (acc : NestedMapping) : CResult NestedMapping :=
           match nested with
           | [] => Ok acc
           | ResultRecordSelection rs as nested_result :: nested =>
               field ← unwrap unwrap_none (ot_find_field object_type (rs_name rs));
               result ← serialize_internal nested_result (fld_type field) false false;
               process_nested_results nested (index_insert String.eqb (rs_name rs) result acc)
           | _ :: nested => process_nested_results nested acc
           end) nested [];
      result ← serialize_records fields scalars model_id nested_mapping object_type;
      check_items name is_list is_optional result
  | ResultRecordAggregation ra => Ok (serialize_aggregation ra)
  | ResultCount c => Ok [(None, ItemMap (count_item "count" c []))]
  | ResultJson _ | ResultId _ | ResultUnit => Panic unimplemented
  end.

(** ** The response of a query *)
Record IrSerializer : Type := mkIrSerializer { ir_key : string; ir_output_type : OutputType }.
(** An error of the response is made from a [CoreError]. *)
Inductive Response : Type := ResponseData (key : string) (item : Item) | ResponseError (e : CoreError).
Definition ir_serialize (s : IrSerializer) (result : ExpressionResult) : CResult Response :=
  match result with
  | ExprQuery (ResultJson json) => Ok (ResponseData (ir_key s) (ItemJson json))
  | ExprQuery r =>
      match serialize_internal r (ir_output_type s) false false with
      | Ok [] =>
          Ok (match ir_output_type s with
              | OutOpt _ => ResponseData (ir_key s) (ItemValue PV_Null)
              | OutList _ => ResponseData (ir_key s) (ItemList [])
              | other => ResponseError (SerializationError ("Invalid response data: the query result was required, but an empty " +:+ debug_output other +:+ " was returned instead."))
              end)
      | Ok ((_, item) :: _) => Ok (ResponseData (ir_key s) item)
      | Err err => Ok (ResponseError err)
      | Panic msg => Panic msg
      end
  | ExprEmpty => Panic "Domain logic error: Attempted to serialize empty result."
  | ExprDiff _ => Panic "Domain logic error: Attempted to serialize non-query result."
  end.
(** What the errors of a response are made from. *)
Inductive ErrorSource : Type := FromCoreError (e : CoreError) | FromPanic (msg : string).
Record Responses : Type := mkResponses { data : Map; errors : list ErrorSource }.
Definition Responses_new : Responses := mkResponses [] [].
Definition insert_data (key : string) (item : Item) (r : Responses) : Responses := mkResponses (map_insert key item (data r)) (errors r).
Definition insert_error (e : ErrorSource) (r : Responses) : Responses := mkResponses (data r) (errors r ++ [e]).
(** [IndexMap::remove] moves the last entry to the place of the removed one; the map is not used afterwards. *)
Definition take_data (key : string) (r : Responses) : option Item := assoc_find String.eqb key (data r).
(** [List::index_by]. *)
Definition index_key (keys : list string) (inner : Map) : CResult (list QueryValue) :=
  map_m (fun key => item ← unwrap unwrap_none (assoc_find String.eqb key inner); v ← unwrap unwrap_none (item_into_value false item); Ok (QueryValue_from v)) keys.
Definition index_by (keys : list string) (l : list Item) : CResult (list (list QueryValue * Map)) :=
  for_each (fun m item =>
    inner ← unwrap unwrap_none (into_map true item);
    key ← index_key keys inner;
    Ok (index_insert (list_eqb QueryValue_eqb) key inner m)) l [].
End response_ir.
