(* ===== verification/Executor.v ===== *)
(** * Executing operations (query-engine/core/src: query_graph_builder/builder.rs, executor; query-engine/query-engine/src/request_handlers/graphql/handler.rs)

    An operation is parsed, its query graph is built, translated and
    interpreted, in a transaction when it writes, and the result is serialized.
    Several findOne operations of a request may have been compacted into one. *)
From stdpp Require Import pretty.
From S2P Require Import Prelude Effects SqlSchema Dml Converter Models Projections Filters SqlRead QueryAst QueryGraph NestedRead Interpreter QueryDocument ReadBuilder WriteBuilder WriteQueries QueryParser ResponseIr.

(** ** Transactions (query-connector/src/interface) *)
Class TransactionOperations (Db ConnectorError : Type) : Type := {
  op_get_connection : eff Db ConnectorError unit;
  op_start_transaction : eff Db ConnectorError unit;
  op_commit : eff Db ConnectorError unit;
  op_rollback : eff Db ConnectorError unit;
}.

Section executor.
Context `{VT : ValueTypes} {VO : ValueOrd VT} `{IT : Itertools} {JN : JsonNumbers} {DP : DocumentParsers} {PG : Petgraph}.
(** Texts of values in messages; the order of [HashSet]s; the depth of the stack; serde_json. *)
Context (debug_parsed : ParsedInputValue -> string) (debug_query_value : QueryValue -> string) (debug_names : list string -> string).
Context (debug_output : OutputType -> string) (debug_scalar : SchemaScalar -> string) (debug_enum : InternalEnum -> string) (debug_list : list PrismaValue -> string).
Context (node_fmt : Node -> string) (hash_order : list RecordProjection -> list RecordProjection) (stack : nat).
Context (json_eqb : Json -> Json -> bool) (json_number : nat -> Json).
Context (now : PrismaValue).

(** ** [QueryGraphBuilder] (builder.rs) *)
Inductive QueryType : Type := TypeGraph (g : QueryGraph) | TypeRaw (query : string) (parameters : list PrismaValue) (raw_type : RawQueryType).
Definition needs_transaction (q : QueryType) : bool := match q with TypeGraph g => flag_needs_transaction g | TypeRaw _ _ _ => false end.
Record RawArgs : Type := mkRawArgs { raw_query : string; raw_parameters : list PrismaValue }.
Definition into_string (v : PrismaValue) : option string := match v with PV_String s => Some s | _ => None end.
Definition value_into_list (v : PrismaValue) : option (list PrismaValue) := match v with PV_List l => Some l | _ => None end.
Definition add_arg {E} (arg : option ParsedArgument) (a : RawArgs) : outcome E RawArgs :=
  match arg with
  | None => Ok a
  | Some arg =>
      v ← unwrap unwrap_none (into_value arg);
      if pa_name arg ≟ "query" then s ← unwrap unwrap_none (into_string v); Ok (mkRawArgs s (raw_parameters a))
      else l ← unwrap unwrap_none (value_into_list v); Ok (mkRawArgs (raw_query a) l)
  end.
Definition RawArgs_from {E} (args : list ParsedArgument) : outcome E RawArgs :=
  ra ← add_arg (last args) (mkRawArgs EmptyString []);
  add_arg (last (take (length args - 1) args)) ra.
Definition derive_serializer (selection : Selection) (field : ParsedField) : IrSerializer :=
  mkIrSerializer (default (sel_name selection) (sel_alias selection)) (fld_type (pf_schema_field field)).
Section schema.
Context (qs : QuerySchema).
Let idm : InternalDataModel := qs_internal_data_model qs.
Definition process (selection : Selection) (object : ObjectType) : outcome BuilderError (QueryType * IrSerializer) :=
  fields ← of_parser (parse_object debug_query_value qs [selection] object);
  parsed_field ← unwrap unwrap_none (last (fields : list ParsedField));
  let result_info := derive_serializer selection parsed_field in
  query_type ←
    match fld_query_builder (pf_schema_field parsed_field), raw_query_type parsed_field with
    | Some builder, None => g ← builder_build debug_parsed debug_names idm now hash_order builder parsed_field; Ok (TypeGraph g)
    | _, Some raw_type => raw_args ← RawArgs_from (pf_arguments parsed_field); Ok (TypeRaw (raw_query raw_args) (raw_parameters raw_args) raw_type)
    | None, None => Err (BuilderSchemaError ("Expected attached query builder on " +:+ ot_name object +:+ " object, root level field '" +:+ pf_name parsed_field +:+ "'."))
    end;
  Ok (query_type, result_info).
Definition map_read_operation (s : Selection) : outcome BuilderError (QueryType * IrSerializer) := o ← query_object qs; process s o.
Definition flag_graph (q : QueryType) : QueryType := match q with TypeGraph g => TypeGraph (flag_transactional g) | q => q end.
Definition map_write_operation (s : Selection) : outcome BuilderError (QueryType * IrSerializer) :=
  o ← mutation_object qs;
  p ← process s o;
  Ok (flag_graph p.1, p.2).
Definition build (operation : Operation) : outcome BuilderError (QueryType * IrSerializer) :=
  match operation with OpRead s => map_read_operation s | OpWrite s => map_write_operation s end.

(** ** [QueryPipeline] (executor/pipeline.rs) *)
Context {Db ConnectorError : Type} {RO : ReadOperations Db ConnectorError} {WO : WriteOperations Db ConnectorError} {TO : TransactionOperations Db ConnectorError}.
Abbreviation CError := (CoreError (ConnectorError := ConnectorError)).
Abbreviation CResponse := (Response (ConnectorError := ConnectorError)).
Abbreviation CResponses := (Responses (ConnectorError := ConnectorError)).
Abbreviation Failure := (ErrorSource (ConnectorError := ConnectorError)).
Abbreviation EM := (eff Db CError).
Definition serialize (info : IrSerializer) (result : ExpressionResult) : outcome CError CResponse :=
  ir_serialize json_eqb debug_output debug_scalar debug_enum debug_list idm qs info result.
(** A graph is finalized and translated: a computation of its own. *)
Definition plan (g : QueryGraph) : outcome CError (Expression (ConnectorError := ConnectorError)) :=
  let '(done, g) := finalize debug_names idm g in
  _ ← map_err CoreGraphError done;
  map_err CoreInterpreterError (translate idm node_fmt hash_order stack g).1.
Definition interpret_expr (x : Expression (ConnectorError := ConnectorError)) : EM ExpressionResult :=
  eff_map_err CoreInterpreterError (interpret idm json_number x ∅).
Definition pipeline_execute (query : QueryType) (info : IrSerializer) : EM CResponse :=
  match query with
  | TypeGraph g =>
      expr ← lift (plan g);
      result ← interpret_expr expr;
      lift (serialize info result)
  | TypeRaw query parameters raw_type =>
      result ← interpret_expr (raw query parameters raw_type);
      lift (serialize info result)
  end.

(** ** [InterpretingExecutor] (executor/interpreting_executor.rs) *)
Definition of_conn {A} (m : eff Db ConnectorError A) : EM A := eff_map_err CoreConnectorError m.
Definition respond (r : CResponse) : CResponses :=
  match r with
  | ResponseData key item => insert_data key item Responses_new
  | ResponseError e => insert_error (FromCoreError e) Responses_new
  end.
Definition in_transaction (m : EM CResponse) : EM CResponse :=
  _ ← of_conn op_start_transaction;
  result ← attempt m;
  _ ← of_conn (match result with inl _ => op_commit | inr _ => op_rollback end);
  lift (match result with inl r => Ok r | inr e => Err e end).
Definition execute (force_transactions : bool) (operation : Operation) : EM CResponses :=
  _ ← of_conn op_get_connection;
  built ← lift (map_err CoreGraphBuilderError (build operation));
  let '(query, info) := (built : QueryType * IrSerializer) in
  result ← (if force_transactions || needs_transaction query then in_transaction (pipeline_execute query info)
            else pipeline_execute query info);
  mret (respond result).

(** ** Requests (handler.rs) *)
Inductive PrismaResponse : Type := PrismaSingle (r : CResponses) | PrismaMulti (l : list PrismaResponse).
Definition error_responses (e : Failure) : CResponses := insert_error e Responses_new.
(** [catch_unwind]: a panic becomes an error of the response. *)
Definition caught {A} (m : EM A) : eff Db Empty_set (outcome CError A) := fun db => let '(r, db) := m db in (Ok r, db).
Definition handle_single_query (force_transactions : bool) (query : Operation) : eff Db Empty_set PrismaResponse :=
  result ← caught (execute force_transactions query);
  mret (PrismaSingle (match result with
                      | Ok responses => responses
                      | Err err => error_responses (FromCoreError err)
                      | Panic msg => error_responses (FromPanic msg)
                      end)).
(** The answer to one of the compacted operations. *)
Definition compacted_answer (singular_name : string) (nested_selection : list string) (data : list (list QueryValue * Map)) (args : list (string * QueryValue)) : PrismaResponse :=
  PrismaSingle (insert_data singular_name
    (match assoc_find (list_eqb QueryValue_eqb) args.*2 data with
     | Some result => ItemMap (iter_filter (fun e => iter_any (fun n => n ≟ e.1) nested_selection) result)
     | None => ItemValue PV_Null
     end) Responses_new).
Definition compacted_answers (document : CompactedDocument) (responses : CResponses) : outcome CError (list PrismaResponse) :=
  item ← unwrap unwrap_none (take_data (plural_name document) responses);
  l ← unwrap unwrap_none (item_into_list true item);
  data ← index_by (cd_keys document) l;
  Ok (compacted_answer (single_name document) (cd_nested_selection document) data <$> cd_arguments document).
Definition handle_compacted (force_transactions : bool) (document : CompactedDocument) : eff Db Empty_set PrismaResponse :=
  result ← caught (execute force_transactions (cd_operation document));
  match result with
  | Ok responses =>
      match compacted_answers document responses with
      | Ok results => mret (PrismaMulti results)
      | Err err => mret (PrismaSingle (error_responses (FromCoreError err)))
      | Panic msg => panic msg
      end
  | Err err => mret (PrismaSingle (error_responses (FromCoreError err)))
  | Panic msg => mret (PrismaSingle (error_responses (FromPanic msg)))
  end.
End schema.
End executor.

(** * Writes happen as a whole or not at all

    What is stored changes only when a transaction is committed: an operation
    that fails on the way, or panics, leaves it as it was. *)
(** ** Computations that keep a property of the database *)
Definition preserves {Db E A : Type} (P : Db -> Prop) (m : eff Db E A) : Prop := forall db, P db -> P (m db).2.
Section preserves.
Context {Db E : Type} (P : Db -> Prop).
Lemma preserves_ret {A} (a : A) : preserves P (mret (M := eff Db E) a).
Proof. by intros db. Qed.
Lemma preserves_bind {A B} (m : eff Db E A) (f : A -> eff Db E B) : preserves P m -> (forall a, preserves P (f a)) -> preserves P (m ≫= f).
Proof. intros Hm Hf db Hdb. specialize (Hm db Hdb). unfold mbind, eff_bind. destruct (m db) as [[a| |] db']; [by apply Hf|done..]. Qed.
Lemma preserves_lift {A} (m : outcome E A) : preserves P (lift m).
Proof. by intros db. Qed.
Lemma preserves_throw {A} (e : E) : preserves P (throw (A := A) e).
Proof. by intros db. Qed.
Lemma preserves_panic {A} msg : preserves P (panic (S := Db) (E := E) (A := A) msg).
Proof. by intros db. Qed.
Lemma preserves_map_err {F A} (f : E -> F) (m : eff Db E A) : preserves P m -> preserves P (eff_map_err f m).
Proof. intros Hm db Hdb. specialize (Hm db Hdb). unfold eff_map_err. by destruct (m db). Qed.
Lemma preserves_fold {A B} (f : B -> A -> eff Db E B) l b : (forall b a, preserves P (f b a)) -> preserves P (eff_fold f l b).
Proof. intros Hf. revert b. induction l as [|a l IH]; intros b; cbn [eff_fold]; [apply preserves_ret|]. by apply preserves_bind. Qed.
End preserves.
Create HintDb preserves discriminated.
#[export] Hint Resolve preserves_ret preserves_lift preserves_throw preserves_panic : preserves.
#[export] Hint Extern 2 (preserves _ (_ ≫= _)) => apply preserves_bind : preserves.
#[export] Hint Extern 2 (preserves _ (eff_map_err _ _)) => apply preserves_map_err : preserves.
#[export] Hint Extern 2 (preserves _ (eff_fold _ _ _)) => apply preserves_fold : preserves.
#[export] Hint Extern 3 (preserves _ (match ?x with _ => _ end)) => destruct x : preserves.
#[export] Hint Extern 1 (forall _, preserves _ _) => intro : preserves.
Ltac preserves := auto 40 with preserves.

(** ** Operations of a connection that keep it *)
Class OperationsKeep `{VT : ValueTypes} {GT : GraphTypes} {Db ConnectorError} (RO : ReadOperations Db ConnectorError) (WO : WriteOperations Db ConnectorError) (P : Db -> Prop) : Prop := {
  keep_single : forall m f s, preserves P (op_get_single_record m f s);
  keep_many : forall m a s, preserves P (op_get_many_records m a s);
  keep_related : forall rf ids, preserves P (op_get_related_m2m_record_ids rf ids);
  keep_count : forall m a, preserves P (op_count_by_model m a);
  keep_create : forall m a, preserves P (op_create_record m a);
  keep_update : forall m f a, preserves P (op_update_records m f a);
  keep_delete : forall m f, preserves P (op_delete_records m f);
  keep_connect : forall rf p c, preserves P (op_connect rf p c);
  keep_disconnect : forall rf p c, preserves P (op_disconnect rf p c);
  keep_execute_raw : forall q ps, preserves P (op_execute_raw q ps);
  keep_query_raw : forall q ps, preserves P (op_query_raw q ps);
}.
Ltac keeps_operation := first [eapply keep_single|eapply keep_many|eapply keep_related|eapply keep_count|eapply keep_create|eapply keep_update|eapply keep_delete|eapply keep_connect|eapply keep_disconnect|eapply keep_execute_raw|eapply keep_query_raw]; eassumption.
#[export] Hint Extern 4 (preserves _ _) => keeps_operation : preserves.
Section queries.
Context `{VT : ValueTypes} {VO : ValueOrd VT} `{IT : Itertools} {GT : GraphTypes} {PG : Petgraph}.
Context {Db ConnectorError : Type} (idm : InternalDataModel) {RO : ReadOperations Db ConnectorError} {WO : WriteOperations Db ConnectorError}.
Context (json_number : nat -> JsonValue) (P : Db -> Prop) {OK : OperationsKeep RO WO P}.
Lemma preserves_m2m q pr pg : preserves P (m2m (Db := Db) idm q pr pg).
Proof. unfold m2m, of_connector. preserves. Qed.
Lemma preserves_one2m pf pps pr a sel pg : preserves P (one2m (Db := Db) idm pf pps pr a sel pg).
Proof. unfold one2m, of_connector. preserves. Qed.
Lemma preserves_aggregate q : preserves P (aggregate (Db := Db) q).
Proof. unfold aggregate, of_connector. preserves. Qed.
Lemma preserves_related q pr : preserves P (read_related_scalars (Db := Db) idm q pr).
Proof. unfold read_related_scalars. pose proof preserves_m2m. pose proof preserves_one2m. preserves. Qed.
Lemma preserves_read q : forall pr, preserves P (read_execute (Db := Db) idm q pr).
Proof.
  revert q. fix IH 1. intros q pr. pose proof preserves_aggregate. pose proof preserves_related.
  assert (Hn : forall l, Forall (fun q => forall pr, preserves P (read_execute (Db := Db) idm q pr)) l -> forall pr,
    preserves P ((fix process_nested (nested : list ReadQuery) (parent_result : option ManyRecords) : InterpM (list QueryResult) :=
      match nested with
      | [] => mret []
      | q :: nested => r ← read_execute idm q parent_result; rs ← process_nested nested parent_result; mret (r :: rs)
      end) l pr)).
  { clear. induction 1 as [|q l Hq _ IHl]; intros pr; [apply preserves_ret|]. apply preserves_bind; [apply Hq|]. preserves. }
  destruct q as [[? ? ? ? ? l ?]|[? ? ? ? ? l ?]|[? ? ? ? ? l ? ?]|q];
    try (assert (HF : Forall (fun q => forall pr, preserves P (read_execute (Db := Db) idm q pr)) l) by (induction l as [|x l IHl]; constructor; [apply IH|exact IHl]);
         specialize (Hn l HF); clear HF); clear IH; cbn [read_execute]; unfold of_connector; preserves.
Qed.
Lemma preserves_write q : preserves P (write_execute (Db := Db) json_number q).
Proof.
  destruct q as [| | | | | | |? ? []]; cbn [write_execute];
    unfold create_one, update_one, delete_one, update_many, delete_many, connect, disconnect, execute_raw, query_raw, of_connector; preserves.
Qed.
Lemma preserves_query q : preserves P (run_query (Db := Db) idm json_number q).
Proof. unfold run_query. pose proof preserves_read. pose proof preserves_write. preserves. Qed.
Abbreviation interp := (interpret (Db := Db) (ConnectorError := ConnectorError) idm json_number).
(** The parts of [interpret]. *)
Fixpoint run_all (seq : list Expression) (env : Env) : eff Db (InterpreterError ConnectorError) (list ExpressionResult) :=
  match seq with
  | [] => mret []
  | e :: seq => r ← interp e env; rs ← run_all seq env; mret (r :: rs)
  end.
Definition run_seq (seq : list Expression) (env : Env) : eff Db (InterpreterError ConnectorError) ExpressionResult :=
  match seq with [] => mret ExprEmpty | _ => results ← run_all seq env; lift (unwrap unwrap_none (last results)) end.
Definition bind_all (env : Env) : list (Binding Expression) -> Env -> eff Db (InterpreterError ConnectorError) Env :=
  fix bind_all (bindings : list (Binding Expression)) (inner_env : Env) :=
    match bindings with
    | [] => mret inner_env
    | b :: bindings => result ← interp (b_expr b) env; bind_all bindings (env_insert (b_name b) result inner_env)
    end.
Lemma interpret_let bs xs env :
  interp (Let bs xs) env = (inner ← bind_all env bs env; match xs with [e] => interp e inner | _ => run_seq xs inner end).
Proof. reflexivity. Qed.
Lemma interpret_if f t e env : interp (EIf f t e) env = if f tt then run_seq t env else run_seq e env.
Proof. reflexivity. Qed.
Lemma preserves_seq l env : Forall (fun x => forall env, preserves P (interp x env)) l -> preserves P (run_seq l env).
Proof.
  intros Hl. assert (Hall : preserves P (run_all l env)).
  { induction Hl as [|x l Hx _ IHl]; cbn [run_all]; [apply preserves_ret|]. apply preserves_bind; [apply Hx|]. preserves. }
  unfold run_seq. destruct l; [apply preserves_ret|]. apply preserves_bind; [exact Hall|preserves].
Qed.
Lemma preserves_interpret x : forall env, preserves P (interp x env).
Proof.
  revert x. fix IH 1. intros x env.
  assert (Hl : forall l : list Expression, (fix all (l : list Expression) : Prop := match l with [] => True | x :: l => (forall env, preserves P (interp x env)) /\ all l end) l ->
    forall env, preserves P (run_seq l env)).
  { clear. intros l Hl env. apply preserves_seq. induction l as [|x l IHl]; constructor; [apply Hl|apply IHl, Hl]. }
  destruct x as [seq|func|query|bindings expressions|n|ns|func t e|r].
  - apply Hl. clear Hl. induction seq as [|x l IHl]; [exact I|split; [apply IH|exact IHl]].
  - cbn [interpret]. destruct (func env) as [y|e|msg]; [apply IH|apply preserves_throw|apply preserves_panic].
  - apply preserves_query.
  - rewrite interpret_let. apply preserves_bind.
    + generalize env at 2. clear Hl. induction bindings as [|[b x] bs IHb]; intros inner; [apply preserves_ret|].
      apply preserves_bind; [apply IH|]. intros r. apply IHb.
    + intros inner. destruct expressions as [|y [|z l]]; [apply preserves_ret|apply IH|]. apply Hl. clear Hl. split; [apply IH|]. split; [apply IH|].
      induction l as [|x l IHl]; [exact I|split; [apply IH|exact IHl]].
  - apply preserves_lift.
  - apply preserves_lift.
  - rewrite interpret_if. destruct (func tt); apply Hl; clear Hl.
    + induction t as [|x l IHl]; [exact I|split; [apply IH|exact IHl]].
    + induction e as [|x l IHl]; [exact I|split; [apply IH|exact IHl]].
  - apply preserves_ret.
Qed.
End queries.

(** ** Transactions

    What is stored, as other connections see it, and whether a transaction is
    open. Inside a transaction no operation changes what is stored; a commit
    that does not succeed and a rollback leave it as it was. *)
Class TransactionsOk `{VT : ValueTypes} {GT : GraphTypes} {Db ConnectorError D : Type} (RO : ReadOperations Db ConnectorError) (WO : WriteOperations Db ConnectorError)
    (TO : TransactionOperations Db ConnectorError) (stored : Db -> D) (in_tx : Db -> Prop) : Prop := {
  tx_connection : forall db, stored (op_get_connection db).2 = stored db;
  tx_start : forall db r db', op_start_transaction db = (r, db') -> stored db' = stored db /\ (r = Ok tt -> in_tx db');
  tx_operations : forall d, OperationsKeep RO WO (fun db => in_tx db /\ stored db = d);
  tx_commit : forall db r db', in_tx db -> op_commit db = (r, db') -> r <> Ok tt -> stored db' = stored db;
  tx_rollback : forall db, in_tx db -> stored (op_rollback db).2 = stored db;
}.
Section atomic.
Context `{VT : ValueTypes} {VO : ValueOrd VT} `{IT : Itertools} {JN : JsonNumbers} {DP : DocumentParsers} {PG : Petgraph}.
Context (debug_parsed : ParsedInputValue -> string) (debug_query_value : QueryValue -> string) (debug_names : list string -> string).
Context (debug_output : OutputType -> string) (debug_scalar : SchemaScalar -> string) (debug_enum : InternalEnum -> string) (debug_list : list PrismaValue -> string).
Context (node_fmt : Node -> string) (hash_order : list RecordProjection -> list RecordProjection) (stack : nat).
Context (json_eqb : Json -> Json -> bool) (json_number : nat -> Json) (now : PrismaValue) (qs : QuerySchema).
Context {Db ConnectorError D : Type} {RO : ReadOperations Db ConnectorError} {WO : WriteOperations Db ConnectorError} {TO : TransactionOperations Db ConnectorError}.
Abbreviation process := (process debug_parsed debug_query_value debug_names hash_order now qs).
Abbreviation pipeline_execute :=
  (pipeline_execute debug_names debug_output debug_scalar debug_enum debug_list node_fmt hash_order stack json_eqb json_number qs (Db := Db) (ConnectorError := ConnectorError)).
Abbreviation execute := (execute debug_parsed debug_query_value debug_names debug_output debug_scalar debug_enum debug_list node_fmt hash_order stack json_eqb json_number now qs
  (Db := Db) (ConnectorError := ConnectorError)).
Definition is_raw_name (name : string) : bool := (name ≟ "executeRaw") || (name ≟ "queryRaw").
Lemma parsed_field_name s f p : parse_field debug_query_value qs s f = Ok p -> pf_name p = sel_name s.
Proof.
  destruct s as [name alias args nested]. cbn [parse_field]. destruct (parse_arguments _ _ _ _) as [a| |]; [|done..]. cbn [mbind outcome_bind].
  destruct (as_object_type _ _) as [o| |]; [|done..]. cbn [mbind outcome_bind map_err].
  destruct o as [o|]; [destruct (parse_object_with _ _ _) as [l| |]; [|done..]|]; cbn [mbind outcome_bind map_err]; by intros [= <-].
Qed.
Lemma process_graph s o q info : is_raw_name (sel_name s) = false -> process s o = Ok (q, info) -> exists g, q = TypeGraph g.
Proof.
  intros Hn. unfold Executor.process, parse_object, parse_object_with. cbn [map_m]. destruct (ot_find_field o (sel_name s)) as [f|]; [|done].
  destruct (parse_field debug_query_value qs s f) as [p| |] eqn:Ep; [|done..]. cbn [map_err mbind outcome_bind of_parser last unwrap].
  apply parsed_field_name in Ep. unfold is_raw_name in Hn. unfold raw_query_type. rewrite Ep. apply orb_false_iff in Hn as [-> ->].
  destruct (fld_query_builder _) as [b|]; [|done]. destruct (builder_build _ _ _ _ _ _ _) as [g| |]; [|done..]. cbn [mbind outcome_bind]. intros [= <- <-]. by exists g.
Qed.
Lemma preserves_pipeline P q info : OperationsKeep RO WO P -> preserves P (pipeline_execute q info).
Proof.
  intros HP. assert (Hx : forall x, preserves P (interpret_expr json_number qs (Db := Db) (ConnectorError := ConnectorError) x)) by
    (intros x; apply preserves_map_err; by apply preserves_interpret).
  unfold Executor.pipeline_execute. destruct q as [g|qu ps rt]; preserves.
Qed.
Context (stored : Db -> D) (in_tx : Db -> Prop) {OK : TransactionsOk RO WO TO stored in_tx}.
(** A transaction that does not end in a commit leaves what is stored. *)
Lemma in_transaction_atomic m db r db' : (forall d, preserves (fun db => in_tx db /\ stored db = d) m) -> in_transaction (Db := Db) m db = (r, db') ->
  (exists resp mid, r = Ok resp /\ m (op_start_transaction db).2 = (Ok resp, mid) /\ stored mid = stored db /\ op_commit mid = (Ok tt, db'))
  \/ ((forall resp, r <> Ok resp) /\ stored db' = stored db).
Proof.
  intros Hm. unfold in_transaction, of_conn, eff_map_err, attempt, mbind, eff_bind. destruct (op_start_transaction db) as [r1 db1] eqn:E1.
  destruct (tx_start _ _ _ E1) as [Hs Ht]. destruct r1 as [[]|e|msg]; cbn [map_err snd]; [|intros [= <- <-]; by right..].
  destruct (Hm (stored db) db1) as [Ht2 Hs2]; [by split; [apply Ht|]|]. destruct (m db1) as [r2 db2] eqn:E2. cbn [snd] in Ht2, Hs2. destruct r2 as [resp|e|msg].
  - destruct (op_commit db2) as [r3 db3] eqn:E3. destruct r3 as [[]|e|msg]; cbn [map_err]; intros [= <- <-].
    + left. by exists resp, db2.
    + right. split; [done|]. rewrite <- Hs2; by apply (tx_commit (stored := stored) _ _ _ Ht2 E3).
    + right. split; [done|]. rewrite <- Hs2; by apply (tx_commit (stored := stored) _ _ _ Ht2 E3).
  - pose proof (tx_rollback db2 Ht2) as Hr. destruct (op_rollback db2) as [r3 db3]. cbn [snd] in Hr. destruct r3 as [[]|e3|msg]; cbn [map_err]; intros [= <- <-]; right; (split; [done|congruence]).
  - intros [= <- <-]. by right.
Qed.
(** C29: A write operation (other than a raw query) happens as a whole or not at all: either it answers, and then one commit stored the work of its transaction, during which nothing was stored; or it does not answer, with an error or by a panic, and what is stored is what was stored before. *)
Theorem write_atomic force s db r db' : is_raw_name (sel_name s) = false -> execute force (OpWrite s) db = (r, db') ->
  (exists resp mid, r = Ok resp /\ stored mid = stored db /\ op_commit mid = (Ok tt, db')) \/ ((forall resp, r <> Ok resp) /\ stored db' = stored db).
Proof.
  intros Hn. unfold Executor.execute, of_conn, eff_map_err, mbind, eff_bind. pose proof (tx_connection db) as Hc.
  destruct (op_get_connection db) as [r1 db1] eqn:E1. cbn [snd] in Hc. destruct r1 as [[]|e|msg]; cbn [map_err]; [|intros [= <- <-]; by right..].
  unfold lift, build, map_write_operation. destruct (mutation_object qs) as [o|e|msg]; cbn [mbind outcome_bind map_err]; [|intros [= <- <-]; by right..].
  destruct (process s o) as [[q info]|e|msg] eqn:Ep; cbn [mbind outcome_bind map_err fst snd]; [|intros [= <- <-]; by right..].
  destruct (process_graph _ _ _ _ Hn Ep) as [g ->]. cbn [flag_graph needs_transaction flag_transactional flag_needs_transaction]. rewrite orb_true_r.
  destruct (in_transaction _ db1) as [r2 db2] eqn:E2. apply in_transaction_atomic in E2; [|intros d; apply preserves_pipeline, tx_operations].
  destruct E2 as [(resp & mid & -> & _ & Hs & Hcm)|[Hne Hs]].
  - intros [= <- <-]. left. exists (respond resp), mid. split; [done|]. split; [congruence|done].
  - destruct r2 as [resp|e|msg]; [by destruct (Hne resp)|..]; intros [= <- <-]; right; (split; [done|congruence]).
Qed.
End atomic.
