(* ===== verification/BuildFacts.v ===== *)
(** * Query graphs grow downwards

    Building a query adds nodes and edges to its graph. Every new edge leads to
    a new node, so the graph below an old node only grows and no cycle arises. *)
From stdpp Require Import sorting relations.
From S2P Require Import Prelude Effects SqlSchema Dml Converter Models Projections Filters QueryAst QueryGraph GraphFacts GraphRules NestedRead Interpreter QueryDocument ReadBuilder WriteBuilder WriteQueries.

Section growth.
Context `{VT : ValueTypes} {VO : ValueOrd VT} `{IT : Itertools} {JN : JsonNumbers} {PG : Petgraph} (HPG : PetgraphOk PG).
Implicit Types (q : QueryGraph).
Definition size q : nat := length (nodes q).

(** ** Adding an edge *)
Definition closed (S : nat -> Prop) q : Prop := forall a b, edge_rel q a b -> S a -> S b.
Definition separated (a b : nat) q : Prop := exists S, closed S q /\ S b /\ ~ S a.
Lemma closed_tc S q a b : closed S q -> tc (edge_rel q) a b -> S a -> S b.
Proof. intros Hc. induction 1 as [a b Hab|a b c Hab _ IH]; eauto. Qed.
Lemma edge_rel_snoc q q' a b w x y : edges q' = edges q ++ [((a, b), w)] -> edge_rel q' x y <-> edge_rel q x y \/ (x = a /\ y = b).
Proof.
  unfold edge_rel. intros ->. split.
  - intros (w' & [Hw|[= -> -> ->]%list_elem_of_singleton]%elem_of_app); [left; by exists w'|by right].
  - intros [(w' & Hw)|[-> ->]]; [exists w'|exists w]; apply elem_of_app; [by left|right; by constructor].
Qed.
Lemma acyclic_snoc q q' a b w : edges q' = edges q ++ [((a, b), w)] -> acyclic q -> a <> b -> separated a b q -> acyclic q'.
Proof.
  intros He Hac Hne (S & HS & Hb & Ha).
  assert (Hpath : forall x y, tc (edge_rel q') x y -> tc (edge_rel q) x y \/ ((x = a \/ tc (edge_rel q) x a) /\ (y = b \/ tc (edge_rel q) b y))).
  { assert (Hno : ~ (tc (edge_rel q) b a)) by (intros Hba; by apply Ha, (closed_tc S q b a)).
    intros x y. induction 1 as [x y Hxy|x y z Hxy _ IH].
    - apply (edge_rel_snoc _ _ _ _ _ _ _ He) in Hxy as [Hxy|[-> ->]]; [left; by apply tc_once|right; auto].
    - apply (edge_rel_snoc _ _ _ _ _ _ _ He) in Hxy as [Hxy|[-> ->]].
      + destruct IH as [IH|[[-> |Hya] Hz]]; [left; by eapply tc_l|right; split; [right; by apply tc_once|done]|right; split; [right; by eapply tc_l|done]].
      + destruct IH as [IH|[[-> |Hya] Hz]]; [right; auto|done|done]. }
  intros n Hn. apply Hpath in Hn as [Hn|[[-> |Hna] [Hnb|Hbn]]]; [by apply (Hac n)|done| | |].
  - by apply Ha, (closed_tc S q b a).
  - subst n. by apply Ha, (closed_tc S q b a).
  - apply Ha, (closed_tc S q b a); [done| |done]. by eapply tc_transitive.
Qed.

(** ** A graph grown from another: new edges start at new nodes or at nodes in [P] and lead to new nodes *)
Definition new_edge (P : nat -> Prop) (n : nat) (x : (nat * nat) * Guard QueryGraphDependency) : Prop := (P x.1.1 \/ n <= x.1.1) /\ n <= x.1.2.
Record grown (P : nat -> Prop) (q0 q : QueryGraph) : Prop := {
  gr_nodes : nodes q0 `prefix_of` nodes q;
  gr_edges : exists l, edges q = edges q0 ++ l /\ Forall (new_edge P (size q0)) l;
  gr_base : in_range q0;
  gr_range : in_range q;
  gr_acyclic : acyclic q;
}.
Lemma grown_refl P q : in_range q -> acyclic q -> grown P q q.
Proof. intros Hr Ha. split; [done| |done..]. exists []. by rewrite app_nil_r. Qed.
Lemma grown_size P q0 q : grown P q0 q -> size q0 <= size q.
Proof. intros H. apply prefix_length, H. Qed.
Lemma grown_rel P q0 q a b : grown P q0 q -> edge_rel q a b -> edge_rel q0 a b \/ ((P a \/ size q0 <= a) /\ size q0 <= b).
Proof.
  intros [_ (l & He & Hl) _ _ _] (w & Hw). rewrite He, elem_of_app in Hw. destruct Hw as [Hw|Hw]; [left; by exists w|right].
  rewrite Forall_forall in Hl. by apply (Hl _ Hw).
Qed.
Lemma grown_trans P P' q0 q q' : grown P q0 q -> grown P' q q' -> (forall x, P' x -> P x \/ size q0 <= x) -> grown P q0 q'.
Proof.
  intros H H' HP. pose proof (grown_size _ _ _ H) as Hs. destruct H as [Hn (l & He & Hl) Hb _ _], H' as [Hn' (l' & He' & Hl') _ Hr' Ha'].
  split; [by trans (nodes q)| |done..]. exists (l ++ l'). split; [by rewrite He', He, app_assoc|]. apply Forall_app. split; [done|].
  eapply Forall_impl; [exact Hl'|]. intros [[a b] w] [Ha Hb']. unfold new_edge in *. cbn in *. split; [|lia]. destruct Ha as [Ha|Ha]; [by apply HP|right; lia].
Qed.
(** Old nodes outside of [P] get no new children; the nodes from some index on are closed. *)
Definition sink (b : nat) q : Prop := forall c, ~ edge_rel q b c.
Definition closed_from (k : nat) q : Prop := closed (fun n => k <= n) q.
Lemma grown_sink P q0 q b : grown P q0 q -> sink b q0 -> ~ P b -> b < size q0 -> sink b q.
Proof. intros H Hs HP Hb c Hc. destruct (grown_rel _ _ _ _ _ H Hc) as [Ho|[[Hp|Hn] _]]; [by apply (Hs c)|done|lia]. Qed.
Lemma grown_closed_from P q0 q k : grown P q0 q -> closed_from k q0 -> k <= size q0 -> closed_from k q.
Proof. intros H Hc Hk a b Hab Ha. destruct (grown_rel _ _ _ _ _ H Hab) as [Ho|[_ Hn]]; [by apply (Hc a b)|lia]. Qed.
Lemma range_closed_from q k : in_range q -> size q <= k -> closed_from k q.
Proof. intros Hr Hk a b Hab Ha. destruct (Hr a b Hab) as [H1 _]. unfold size in Hk. lia. Qed.
Lemma grown_base_closed P q0 q : grown P q0 q -> closed_from (size q0) q.
Proof. intros H. apply (grown_closed_from P q0 q); [done| |done]. apply range_closed_from; [apply H|done]. Qed.
Lemma separated_sink a b q : sink b q -> a <> b -> separated a b q.
Proof. intros Hs Hne. exists (fun n => n = b). split; [|done]. intros x y Hxy ->. by destruct (Hs y). Qed.
Lemma separated_from k a b q : closed_from k q -> a < k -> k <= b -> separated a b q.
Proof. intros Hc Ha Hb. exists (fun n => k <= n). split; [done|]. split; [done|lia]. Qed.

(** ** One step of the builder *)
Definition same_graph q q' : Prop := nodes q' = nodes q /\ edges q' = edges q.
Definition adds_node q q' : Prop := (exists n, nodes q' = nodes q ++ [n]) /\ edges q' = edges q.
Definition adds_edge (a b : nat) q q' : Prop := nodes q' = nodes q /\ (exists w, edges q' = edges q ++ [((a, b), w)]) /\ a < size q /\ b < size q /\ a <> b.
Lemma same_rel q q' a b : edges q' = edges q -> edge_rel q' a b <-> edge_rel q a b.
Proof. unfold edge_rel. by intros ->. Qed.
Lemma node_size q q' : adds_node q q' -> size q' = S (size q).
Proof. intros [(n & Hn) _]. unfold size. rewrite Hn, length_app. cbn. lia. Qed.
Lemma edge_size a b q q' : adds_edge a b q q' -> size q' = size q.
Proof. intros (Hn & _). unfold size. by rewrite Hn. Qed.
Lemma grown_same P q0 q q' : grown P q0 q -> same_graph q q' -> grown P q0 q'.
Proof.
  intros [Hn He Hb Hr Ha] [Hn' He']. split; rewrite ?Hn', ?He'; auto.
  - intros a b Hab. unfold in_range in Hr. rewrite Hn'. apply Hr. by apply (same_rel _ _ _ _ He').
  - unfold acyclic, edge_rel in *. by rewrite He'.
Qed.
Lemma grown_node P q0 q q' : grown P q0 q -> adds_node q q' -> grown P q0 q'.
Proof.
  intros [Hn He Hb Hr Ha] [(n & Hn') He']. split; rewrite ?He'; auto.
  - rewrite Hn'. by apply prefix_app_r.
  - intros a b Hab. rewrite Hn', length_app. apply (same_rel _ _ _ _ He') in Hab. destruct (Hr a b Hab). lia.
  - unfold acyclic, edge_rel in *. by rewrite He'.
Qed.
Lemma grown_edge P q0 q q' a b : grown P q0 q -> adds_edge a b q q' -> (P a \/ size q0 <= a) -> size q0 <= b -> separated a b q -> grown P q0 q'.
Proof.
  intros [Hn (l & He & Hl) Hbase Hr Hac] (Hn' & (w & He') & Ha & Hb & Hne) HPa Hsb Hsep. split; auto.
  - by rewrite Hn'.
  - exists (l ++ [((a, b), w)]). split; [by rewrite He', He, app_assoc|]. apply Forall_app. split; [done|]. constructor; [by split|constructor].
  - intros x y Hxy. rewrite Hn'. apply (edge_rel_snoc _ _ _ _ _ _ _ He') in Hxy as [Hxy|[-> ->]]; [by apply Hr|done].
  - by apply (acyclic_snoc q q' a b w).
Qed.
Lemma sink_new q q' b : in_range q -> adds_node q q' -> b = size q -> sink b q'.
Proof. intros Hr [_ He] -> c Hc. apply (same_rel _ _ _ _ He) in Hc. destruct (Hr _ _ Hc). unfold size in *. lia. Qed.
Lemma sink_edges q q' b : sink b q -> edges q' = edges q -> sink b q'.
Proof. intros Hs He c Hc. apply (Hs c). by apply (same_rel _ _ _ _ He). Qed.
Lemma sink_edge q q' a b x : sink x q -> adds_edge a b q q' -> a <> x -> sink x q'.
Proof. intros Hs (_ & (w & He) & _) Hne c Hc. apply (edge_rel_snoc _ _ _ _ _ _ _ He) in Hc as [Hc|[-> _]]; [by apply (Hs c)|done]. Qed.
Lemma closed_edges q q' k : closed_from k q -> edges q' = edges q -> closed_from k q'.
Proof. intros Hs He a b Hab. apply Hs. by apply (same_rel _ _ _ _ He). Qed.
Lemma closed_edge q q' a b k : closed_from k q -> adds_edge a b q q' -> (a < k \/ k <= b) -> closed_from k q'.
Proof. intros Hs (_ & (w & He) & _) Hab x y Hxy Hx. apply (edge_rel_snoc _ _ _ _ _ _ _ He) in Hxy as [Hc|[-> ->]]; [by apply (Hs x)|lia]. Qed.
End growth.

(** ** Steps of a computation *)
Lemma bind_inv {S E A B} (f : A -> eff S E B) (m : eff S E A) s b s' : (m ≫= f) s = (Ok b, s') -> exists a s1, m s = (Ok a, s1) /\ f a s1 = (Ok b, s').
Proof. unfold mbind, eff_bind. destruct (m s) as [[a| |] s1]; [|done..]. intros H. by exists a, s1. Qed.
Lemma eff_for_inv {S E A} (f : A -> eff S E unit) (I : S -> Prop) l s s' :
  (forall a s s', a ∈ l -> I s -> f a s = (Ok tt, s') -> I s') -> I s -> eff_for f l s = (Ok tt, s') -> I s'.
Proof.
  revert s. induction l as [|a l IH]; intros s Hf HI; cbn [eff_for]; [by intros [= <-]|]. intros (u & s1 & H1 & H2)%bind_inv. destruct u.
  apply (IH s1); [intros; eapply Hf; eauto; by constructor| |done]. apply (Hf a s); [constructor|done..].
Qed.
Section steps.
Context `{VT : ValueTypes} {VO : ValueOrd VT} `{IT : Itertools} {JN : JsonNumbers} {PG : Petgraph} (HPG : PetgraphOk PG).
Context (debug_parsed : ParsedInputValue -> string) (debug_names : list string -> string) (idm : InternalDataModel) (now : PrismaValue).
Context (collect_set : list RecordProjection -> list RecordProjection).
Implicit Types (q : QueryGraph).
Lemma pure_step {A} (m : outcome BuilderError A) q a q' : pure m q = (Ok a, q') -> m = Ok a /\ q' = q.
Proof. by intros [= -> ->]. Qed.
Lemma node_step n q a q' : node n q = (Ok a, q') -> adds_node q q' /\ a = size q.
Proof.
  unfold node, graph_op, eff_map_err, create_node. pose proof (add_node_ok (PetgraphOk := HPG) _ _ (Some n) (graph q)) as (Hr & Hn & He).
  destruct (add_node (Some n) (graph q)) as [g ix]. cbn in *. intros [= <- <-]. split; [|done]. split; [by exists (Some n)|done].
Qed.
Lemma edge_step a b d q u q' : edge debug_names idm a b d q = (Ok u, q') -> adds_edge a b q q'.
Proof.
  unfold edge, graph_op. intros (e & q1 & H1 & H2)%bind_inv. injection H2 as _ <-. unfold eff_map_err in H1.
  destruct (create_edge debug_names idm a b d q) as [[r| |] q2] eqn:E; [|done..]. injection H1 as _ <-.
  destruct (create_edge_Ok HPG _ _ _ _ _ _ _ _ E) as (Hn & He & Ha & Hb & Hab & _). split; [done|]. split; [by eexists|]. done.
Qed.
Lemma unwrap_edge_step a b d q u q' : unwrap_graph (create_edge debug_names idm a b d) q = (Ok u, q') -> adds_edge a b q q'.
Proof.
  unfold unwrap_graph. destruct (create_edge debug_names idm a b d q) as [[r| |] q2] eqn:E; [|done..]. intros [= _ <-].
  destruct (create_edge_Ok HPG _ _ _ _ _ _ _ _ E) as (Hn & He & Ha & Hb & Hab & _). split; [done|]. split; [by eexists|]. done.
Qed.
Lemma mark_step a b q u q' : graph_update (mark_nodes a b) q = (Ok u, q') -> same_graph q q'.
Proof. by intros [= _ <-]. Qed.
Lemma result_step n q u q' : graph_update (add_result_node n) q = (Ok u, q') -> same_graph q q'.
Proof. by intros [= _ <-]. Qed.
Lemma is_create_step n q b q' : node_is_create n q = (Ok b, q') -> q' = q.
Proof. by intros [= _ <-]. Qed.
Lemma same_size q q' : same_graph q q' -> size q' = size q.
Proof. intros [Hn _]. unfold size. by rewrite Hn. Qed.
End steps.

(** What a call adds to the graph. *)
Definition region `{JN : JsonNumbers} {PG : Petgraph} (P : nat -> Prop) (q q' : QueryGraph) : Prop := grown P q q'.

Abbreviation none := (fun _ : nat => False).
Section regions.
Context `{VT : ValueTypes} {VO : ValueOrd VT} `{IT : Itertools} {JN : JsonNumbers} {PG : Petgraph}.
Implicit Types (q : QueryGraph).
(** The nodes of a region, which no edge leaves before its root is connected further. *)
Definition closed_between (k k' : nat) q : Prop := closed (fun n => k <= n < k') q.
Lemma region_between q q' : region none q q' -> closed_between (size q) (size q') q'.
Proof.
  intros R a b Hab [Ha _]. split; [by apply (grown_base_closed _ _ _ R a b)|]. by destruct (gr_range _ _ _ R a b Hab).
Qed.
Lemma between_grown P q q' k k' : closed_between k k' q -> grown P q q' -> k' <= size q -> (forall x, k <= x < k' -> ~ P x) -> closed_between k k' q'.
Proof.
  intros Hc G Hk HP a b Hab Ha. destruct (grown_rel _ _ _ _ _ G Hab) as [Ho|[[Hp|Hn] _]]; [by apply (Hc a b)|by destruct (HP a Ha)|lia].
Qed.
Lemma between_edges q q' k k' : closed_between k k' q -> edges q' = edges q -> closed_between k k' q'.
Proof. intros Hs He a b Hab. apply Hs. by apply (same_rel _ _ _ _ He). Qed.
Lemma between_edge q q' a b k k' : closed_between k k' q -> adds_edge a b q q' -> (a < k \/ k' <= a) -> closed_between k k' q'.
Proof. intros Hs (_ & (w & He) & _) Hab x y Hxy Hx. apply (edge_rel_snoc _ _ _ _ _ _ _ He) in Hxy as [Hc|[-> ->]]; [by apply (Hs x)|lia]. Qed.
Lemma separated_between k k' a b q : closed_between k k' q -> k <= b < k' -> (a < k \/ k' <= a) -> separated a b q.
Proof. intros Hc Hb Ha. exists (fun n => k <= n < k'). split; [done|]. split; [done|lia]. Qed.
End regions.

(** *** Running a computation step by step *)
Ltac sizes H := 
  lazymatch type of H with
  | adds_node _ _ => pose proof (node_size _ _ H)
  | adds_edge _ _ _ _ => pose proof (edge_size _ _ _ _ H)
  | same_graph _ _ => pose proof (same_size _ _ H)
  | region _ _ _ => pose proof (grown_size _ _ _ H)
  end.
(** Facts about nodes of earlier graphs hold in later ones. *)
Ltac sink_tac :=
  lazymatch goal with
  | |- sink ?b ?q =>
      match goal with
      | H : sink b q |- _ => exact H
      | H : adds_node ?q1 q |- _ =>
          first [apply (sink_new q1 q b); [range_tac|exact H|lia]|apply (sink_edges q1 q b); [sink_tac|apply H]]
      | H : adds_edge ?x ?y ?q1 q |- _ => apply (sink_edge q1 q x y b); [sink_tac|exact H|lia]
      | H : same_graph ?q1 q |- _ => apply (sink_edges q1 q b); [sink_tac|apply H]
      | H : region ?P ?q1 q |- _ => apply (grown_sink P q1 q b H); [sink_tac|intro; intuition lia|lia]
      end
  end
with range_tac :=
  lazymatch goal with
  | |- in_range ?q => match goal with H : grown _ _ q |- _ => apply (gr_range _ _ _ H) | H : in_range q |- _ => exact H end
  end.
Ltac closed_tac :=
  lazymatch goal with
  | |- closed_from ?k ?q =>
      match goal with
      | H : closed_from k q |- _ => exact H
      | _ => apply (range_closed_from q k); [range_tac|lia]
      | H : adds_node ?q1 q |- _ => apply (closed_edges q1 q k); [closed_tac|apply H]
      | H : adds_edge ?x ?y ?q1 q |- _ => apply (closed_edge q1 q x y k); [closed_tac|exact H|lia]
      | H : same_graph ?q1 q |- _ => apply (closed_edges q1 q k); [closed_tac|apply H]
      | H : region ?P ?q1 q |- _ => apply (grown_closed_from P q1 q k H); [closed_tac|lia]
      end
  end.
Ltac between_tac :=
  lazymatch goal with
  | |- closed_between ?k ?k' ?q =>
      match goal with
      | H : closed_between k k' q |- _ => exact H
      | H : region _ _ q |- _ => apply (region_between _ _ H)
      | H : adds_node ?q1 q |- _ => apply (between_edges q1 q k k'); [between_tac|apply H]
      | H : adds_edge ?x ?y ?q1 q |- _ => apply (between_edge q1 q x y k k'); [between_tac|exact H|lia]
      | H : same_graph ?q1 q |- _ => apply (between_edges q1 q k k'); [between_tac|apply H]
      | H : region ?P ?q1 q |- _ => apply (between_grown P q1 q k k'); [between_tac|exact H|lia|intros; intuition lia]
      end
  end.
Ltac source_tac := first [assumption|right; lia|left; first [reflexivity|tauto|done]].
Ltac sep_tac :=
  lazymatch goal with
  | |- separated ?a ?b ?q =>
      first [match goal with H : grown _ ?q0 q |- _ => apply (separated_from (size q0) a b q); [apply (grown_base_closed _ _ _ H)|lia|lia] end
            |apply separated_sink; [sink_tac|lia]
            |match goal with H : region _ ?qk _ |- _ => apply (separated_from (size qk) a b q); [closed_tac|lia|lia] end
            |match goal with H : region _ ?qk ?qk' |- _ => apply (separated_between (size qk) (size qk') a b q); [between_tac|lia|lia] end]
  end.
(** The graph after a step is grown from [q0] as well. *)
Ltac advance q0 H :=
  sizes H;
  lazymatch type of H with
  | adds_node ?q ?q' => match goal with G : grown ?P q0 q |- _ => pose proof (grown_node P q0 q q' G H) end
  | same_graph ?q ?q' => match goal with G : grown ?P q0 q |- _ => pose proof (grown_same P q0 q q' G H) end
  | adds_edge ?a ?b ?q ?q' =>
      match goal with G : grown ?P q0 q |- _ => assert (grown P q0 q') by (apply (grown_edge P q0 q q' a b G H); [source_tac|lia|sep_tac]) end
  | region ?P' ?q ?q' => match goal with G : grown ?P q0 q |- _ => assert (grown P q0 q') by (apply (grown_trans P P' q0 q q' G H); intros ?; intuition (subst; auto with lia)) end
  end.
(** Calls of other builders; filled in as they are treated. *)
Ltac inv_call q0 H := idtac.
Ltac inv_step q0 H :=
  lazymatch type of H with
  | pure _ _ = _ => let Hp := fresh "Hp" in apply pure_step in H as [Hp ->]
  | node _ _ = _ => apply (node_step ltac:(eassumption)) in H as [H ->]; advance q0 H
  | update_records_node_placeholder _ _ _ _ _ = _ => apply (node_step ltac:(eassumption)) in H as [H ->]; advance q0 H
  | edge _ _ _ _ _ _ = _ => apply (edge_step ltac:(eassumption)) in H; advance q0 H
  | graph_update (mark_nodes _ _) _ = _ => apply mark_step in H; advance q0 H
  | graph_update (add_result_node _) _ = _ => apply result_step in H; advance q0 H
  | node_is_create _ _ = _ => apply is_create_step in H as ->
  | mret _ _ = _ => injection H; clear H; intros; subst
  | _ => inv_call q0 H
  end.
Ltac step q0 H :=
  let a := fresh "a" in let q1 := fresh "q" in let S := fresh "St" in
  apply bind_inv in H as (a & q1 & S & H); cbv beta in H; inv_step q0 S.
Ltac run q0 H := repeat (lazymatch type of H with mbind _ _ _ = _ => step q0 H end); inv_step q0 H.

Section helpers.
Context `{VT : ValueTypes} {VO : ValueOrd VT} `{IT : Itertools} {JN : JsonNumbers} {PG : Petgraph} (HPG : PetgraphOk PG).
Context (debug_parsed : ParsedInputValue -> string) (debug_names : list string -> string) (idm : InternalDataModel) (now : PrismaValue).
Implicit Types (q : QueryGraph).
Definition ok q : Prop := in_range q /\ acyclic q.
Lemma grown_ok P q0 q : grown P q0 q -> ok q.
Proof. intros G. split; apply G. Qed.
Lemma ok_grown P q : ok q -> grown P q q.
Proof. intros [Hr Ha]. by apply grown_refl. Qed.
Lemma find_children_grows p rf f q r q' : ok q -> p < size q -> insert_find_children_by_parent_node debug_names idm p rf f q = (Ok r, q') ->
  r = size q /\ exists q1, adds_node q q1 /\ adds_edge p r q1 q'.
Proof.
  intros Hq Hp H. unfold insert_find_children_by_parent_node in H. pose proof (ok_grown (eq p) q Hq) as G. run q H. split; [done|]. eexists. split; eassumption.
Qed.
Lemma assert_m2m_step rf q u q' : assert_many_to_many idm rf q = (Ok u, q') -> q' = q.
Proof. unfold assert_many_to_many. intros (r & q1 & [_ ->]%pure_step & H)%bind_inv. apply bind_inv in H as (b & q1 & [_ ->]%pure_step & H). by destruct b; injection H. Qed.
Lemma ids_step rf q u q' : parent_and_child_ids idm rf q = (Ok u, q') -> q' = q.
Proof.
  unfold parent_and_child_ids. intros H. do 4 (apply bind_inv in H as (? & ? & [_ ->]%pure_step & H)). by injection H.
Qed.
Lemma not_connected_step rf q u q' : not_connected idm rf q = (Ok u, q') -> q' = q.
Proof. unfold not_connected. intros H. do 3 (apply bind_inv in H as (? & ? & [_ ->]%pure_step & H)). by injection H. Qed.
Lemma relation_kind_step r q u q' : relation_kind idm r q = (Ok u, q') -> q' = q.
Proof. unfold relation_kind. intros H. do 2 (apply bind_inv in H as (? & ? & [_ ->]%pure_step & H)). by injection H. Qed.
End helpers.
Ltac ok_tac := match goal with G : grown _ _ ?q |- ok ?q => apply (grown_ok _ _ _ G) end.
Ltac inv_call q0 H ::=
  lazymatch type of H with
  | insert_find_children_by_parent_node _ _ _ _ _ _ = _ =>
      let q1 := fresh "q" in let S := fresh "St" in
      apply (find_children_grows ltac:(eassumption)) in H as (-> & q1 & S & H); [|ok_tac|lia]; advance q0 S; advance q0 H
  | assert_many_to_many _ _ _ = _ => apply assert_m2m_step in H as ->
  | parent_and_child_ids _ _ _ = _ => apply ids_step in H as ->
  | not_connected _ _ _ = _ => apply not_connected_step in H as ->
  | relation_kind _ _ _ = _ => apply relation_kind_step in H as ->
  end.
Section checks.
Context `{VT : ValueTypes} {VO : ValueOrd VT} `{IT : Itertools} {JN : JsonNumbers} {PG : Petgraph} (HPG : PetgraphOk PG).
Context (debug_parsed : ParsedInputValue -> string) (debug_names : list string -> string) (idm : InternalDataModel) (now : PrismaValue).
Implicit Types (q : QueryGraph).
Lemma existing_checks_grow p rf q u q' : ok q -> p < size q -> insert_existing_1to1_related_model_checks debug_names idm now p rf q = (Ok u, q') -> region (eq p) q q'.
Proof.
  intros Hq Hp H. unfold insert_existing_1to1_related_model_checks in H. pose proof (ok_grown (eq p) q Hq) as G. run q H. done.
Qed.
Lemma connect_grows p c rf k q r q' : ok q -> p < size q -> c < size q -> connect_records_node debug_names idm p c rf k q = (Ok r, q') ->
  region (fun x => x = p \/ x = c) q q'.
Proof.
  intros Hq Hp Hc H. unfold connect_records_node in H. pose proof (ok_grown (fun x => x = p \/ x = c) q Hq) as G. run q H. done.
Qed.
Lemma disconnect_grows p c rf k q r q' : ok q -> p < size q -> c < size q -> disconnect_records_node debug_names idm p c rf k q = (Ok r, q') ->
  region (fun x => x = p \/ x = c) q q'.
Proof.
  intros Hq Hp Hc H. unfold disconnect_records_node in H. pose proof (ok_grown (fun x => x = p \/ x = c) q Hq) as G. run q H. done.
Qed.

(** *** Checks before a deletion: every check leads to the same empty node, one check to the next *)
Definition only (n r : nat) q : Prop := forall x, edge_rel q r x -> x = n.
Lemma only_edges q q' n r : only n r q -> edges q' = edges q -> only n r q'.
Proof. intros Ho He x Hx. apply Ho. by apply (same_rel _ _ _ _ He). Qed.
Lemma only_edge q q' a b n r : only n r q -> adds_edge a b q q' -> a <> r \/ b = n -> only n r q'.
Proof. intros Ho (_ & (w & He) & _) Hab x Hx. apply (edge_rel_snoc _ _ _ _ _ _ _ He) in Hx as [Hx|[-> ->]]; [by apply Ho|by destruct Hab]. Qed.
Lemma only_sink n r q : sink r q -> only n r q.
Proof. intros Hs x Hx. by destruct (Hs x). Qed.
Lemma separated_only n a b q : only n b q -> sink n q -> a <> b -> a <> n -> separated a b q.
Proof. intros Ho Hs Hab Han. exists (fun x => x = b \/ x = n). split; [|naive_solver]. intros x y Hxy [-> | ->]; [right; by apply Ho|by destruct (Hs y)]. Qed.
Record checking (P : nat -> Prop) (q0 : QueryGraph) (p n c : nat) (q : QueryGraph) : Prop := {
  ch_grown : grown P q0 q;
  ch_parent : (P p \/ size q0 <= p) /\ p < size q /\ p <> n /\ p <> c;
  ch_noop : size q0 <= n /\ n < size q /\ sink n q;
  ch_child : c < size q /\ c < n /\ sink c q;
}.
Lemma check_step P q0 p n c rf s r s' : checking P q0 p n c s -> insert_check debug_names idm p n rf s = (Ok r, s') ->
  r = size s /\ checking P q0 p n c s' /\ size s < size s' /\ only n r s' /\ (forall x, x < size s -> x <> p -> only n x s -> only n x s').
Proof.
  intros [G (HP & Hp & Hpn & Hpc) (Hn0 & Hn & Hsn) (Hc & Hcn & Hsc)] H. pose proof (grown_size _ _ _ G). unfold insert_check in H. do 3 step q0 H. step q0 H.
  assert (Hfresh : sink (size s) q1) by sink_tac. run q0 H. split; [done|]. split; [|split; [lia|split]].
  - split; [done|split_and!; [done|lia..]|split_and!; [done|lia|sink_tac]|split_and!; [lia|lia|sink_tac]].
  - eapply only_edge; [|exact St1|by right]. eapply only_edge; [|exact St|left; lia]. by apply only_sink.
  - intros x Hx Hxp Ho. eapply only_edge; [|exact St1|left; lia]. eapply only_edge; [|exact St|left; lia]. eapply only_edges; [exact Ho|apply St0].
Qed.
Lemma checks_step P q0 p n c rfs : forall s l s', checking P q0 p n c s -> eff_map (insert_check debug_names idm p n) rfs s = (Ok l, s') ->
  checking P q0 p n c s' /\ size s <= size s' /\ NoDup l /\ Forall (fun r => size s <= r < size s' /\ only n r s') l /\
  (forall x, x < size s -> x <> p -> only n x s -> only n x s').
Proof.
  induction rfs as [|rf rfs IH]; intros s l s' Hs; cbn [eff_map].
  - intros [= <- <-]. split_and!; [done|done|constructor|constructor|done].
  - intros (r & s1 & H1 & H)%bind_inv. destruct (check_step _ _ _ _ _ _ _ _ _ Hs H1) as (-> & Hs1 & Hlt & Hr & Hkeep).
    apply bind_inv in H as (l' & s2 & H2 & H). injection H as <- <-. destruct (IH _ _ _ Hs1 H2) as (Hs2 & Hle & Hnd & Hl & Hkeep2).
    destruct Hs as [_ (_ & Hp & _) _ _]. split_and!; [done|lia| | |].
    + constructor; [|done]. intros Hin. rewrite Forall_forall in Hl. destruct (Hl _ Hin). lia.
    + constructor.
      * split; [lia|]. apply Hkeep2; [lia|lia|done].
      * eapply Forall_impl; [exact Hl|]. intros x [Hx Ho]. split; [lia|done].
    + intros x Hx Hxp Ho. apply Hkeep2; [lia|done|]. by apply Hkeep.
Qed.
Lemma chain_step P q0 p n c : forall l prev s u s', checking P q0 p n c s -> NoDup (prev :: l) ->
  Forall (fun r => n < r < size s /\ only n r s) (prev :: l) -> chain_checks debug_names idm prev l s = (Ok u, s') -> checking P q0 p n c s'.
Proof.
  induction l as [|next l IH]; intros prev s u s' Hs Hnd Hl; cbn [chain_checks]; [by intros [= _ <-]|].
  intros (e & s1 & H1 & H)%bind_inv. apply (unwrap_edge_step HPG) in H1. apply NoDup_cons in Hnd as [Hnot Hnd]. apply Forall_cons in Hl as [[Hprev _] Hl].
  pose proof (edge_size _ _ _ _ H1) as Hsz. pose proof Hl as Hl0. apply Forall_cons in Hl0 as [[Hnext Honly] _].
  destruct Hs as [G Hpar Hno Hch]. pose proof (grown_size _ _ _ G). destruct Hno as (Hn0 & Hn & Hsn), Hch as (Hc & Hcn & Hsc).
  assert (Hne : prev <> next) by (intros ->; apply Hnot; constructor).
  refine (IH next s1 u s' _ Hnd _ H).
  - split; [|rewrite Hsz; exact Hpar| |].
    + apply (grown_edge P q0 s s1 prev next G H1); [right; lia|lia|]. apply (separated_only n); [done|done|done|lia].
    + split_and!; [done|lia|]. by apply (sink_edge s s1 prev next n); [..|lia].
    + split_and!; [lia|done|]. apply (sink_edge s s1 prev next c); [done|done|lia].
  - rewrite Forall_forall in Hl |- *. intros r Hr. destruct (Hl r Hr) as [Hlt Ho]. split; [lia|]. eapply only_edge; [exact Ho|exact H1|]. left. intros ->. done.
Qed.
Lemma deletion_checks_grow P q0 model p c q u q' : grown P q0 q -> (P p \/ size q0 <= p) -> p < size q -> p <> c -> size q0 <= c -> c < size q -> sink c q ->
  insert_deletion_checks debug_names idm model p c q = (Ok u, q') -> grown P q0 q' /\ size q <= size q' /\ sink c q'.
Proof.
  intros G HP Hp Hpc Hc0 Hc Hsc H. pose proof (grown_size _ _ _ G). unfold insert_deletion_checks in H. step q0 H. destruct a as [|rf rfs]; [by injection H as _ <-|].
  step q0 H. assert (Hch : checking P q0 p (size q) c q1).
  { split; [done|split_and!; [done|lia..]|split_and!; [lia|lia|sink_tac]|split_and!; [lia|lia|sink_tac]]. }
  apply bind_inv in H as (l & q2 & Hmap & H). destruct (checks_step _ _ _ _ _ _ _ _ _ Hch Hmap) as (Hch2 & Hle & Hnd & Hl & _). cbv beta in H.
  apply bind_inv in H as (u2 & q3 & Hchain & H).
  assert (Hch3 : checking P q0 p (size q) c q3 /\ size q2 <= size q3).
  { destruct l as [|r l]; [by injection Hchain as _ <-|].
    assert (Hs : forall l prev s u s', chain_checks debug_names idm prev l s = (Ok u, s') -> size s <= size s').
    { clear -HPG. induction l as [|next l IH]; intros prev s u s'; cbn [chain_checks]; [by intros [= _ <-]|]. intros (e & s1 & H1 & H)%bind_inv.
      apply (unwrap_edge_step HPG) in H1. apply edge_size in H1. apply IH in H. lia. }
    split; [|by eapply Hs]. eapply chain_step; [exact Hch2|exact Hnd| |exact Hchain]. eapply Forall_impl; [exact Hl|]. intros x [Hx Ho]. split; [lia|done]. }
  destruct Hch3 as [[G3 _ (_ & Hn & Hsn) (Hc3 & Hcn & Hsc3)] Hle3]. inv_step q0 H. split; [done|]. split; [lia|sink_tac].
Qed.
End checks.
Ltac inv_handler q0 H := idtac.
Ltac inv_call q0 H ::=
  lazymatch type of H with
  | insert_find_children_by_parent_node _ _ _ _ _ _ = _ =>
      let q1 := fresh "q" in let S := fresh "St" in
      apply (find_children_grows ltac:(eassumption)) in H as (-> & q1 & S & H); [|ok_tac|lia]; advance q0 S; advance q0 H
  | insert_existing_1to1_related_model_checks _ _ _ _ _ _ = _ =>
      apply (existing_checks_grow ltac:(eassumption)) in H; [|ok_tac|lia]; advance q0 H
  | connect_records_node _ _ _ _ _ _ _ = _ =>
      apply (connect_grows ltac:(eassumption)) in H; [|ok_tac|lia|lia]; advance q0 H
  | disconnect_records_node _ _ _ _ _ _ _ = _ =>
      apply (disconnect_grows ltac:(eassumption)) in H; [|ok_tac|lia|lia]; advance q0 H
  | assert_many_to_many _ _ _ = _ => apply assert_m2m_step in H as ->
  | parent_and_child_ids _ _ _ = _ => apply ids_step in H as ->
  | not_connected _ _ _ = _ => apply not_connected_step in H as ->
  | relation_kind _ _ _ = _ => apply relation_kind_step in H as ->
  | _ => inv_handler q0 H
  end.
