(* ===== verification/WriteFacts.v ===== *)
(** * The graphs of write operations

    Every handler of a nested write grows the graph below the node of the
    parent; so does the recursion over the data, and the graphs of all
    operations are in range and without cycles. *)
From stdpp Require Import sorting relations.
From S2P Require Import Prelude Effects SqlSchema Dml Converter Models Projections Filters QueryAst QueryGraph GraphFacts GraphRules NestedRead Interpreter QueryDocument ReadBuilder WriteBuilder WriteQueries BuildFacts.

(** ** Branches *)
Lemma violation_never `{VT : ValueTypes} {JN : JsonNumbers} {PG : Petgraph} {A} (idm : InternalDataModel) rf q (a : A) q' : violation idm rf q <> (Ok a, q').
Proof. unfold violation. intros (v & q1 & _ & H)%bind_inv. done. Qed.
Ltac go q0 H :=
  lazymatch type of H with
  | mbind _ _ _ = _ => step q0 H; go q0 H
  | (if ?b then _ else _) _ = _ => destruct b; go q0 H
  | when ?b _ _ = _ => destruct b; unfold when in H; go q0 H
  | (match ?x with _ => _ end) _ = _ => destruct x; go q0 H
  | violation _ _ _ = _ => exfalso; by apply violation_never in H
  | _ => inv_step q0 H
  end.
Section handlers.
Context `{VT : ValueTypes} {VO : ValueOrd VT} `{IT : Itertools} {JN : JsonNumbers} {PG : Petgraph} (HPG : PetgraphOk PG).
Context (debug_parsed : ParsedInputValue -> string) (debug_names : list string -> string) (idm : InternalDataModel) (now : PrismaValue).
Context (collect_set : list RecordProjection -> list RecordProjection).
Implicit Types (q : QueryGraph).

(** *** connect *)
Lemma connect_m2m_grows p rf f m q u q' : ok q -> p < size q -> connect_many_to_many debug_names idm p rf f m q = (Ok u, q') -> region (eq p) q q'.
Proof. intros Hq Hp H. unfold connect_many_to_many in H. pose proof (ok_grown (eq p) q Hq) as G. go q H. done. Qed.
Lemma connect_o2m_grows p rf f m q u q' : ok q -> p < size q -> connect_one_to_many debug_names idm now p rf f m q = (Ok u, q') -> region (eq p) q q'.
Proof. intros Hq Hp H. unfold connect_one_to_many in H. pose proof (ok_grown (eq p) q Hq) as G. go q H; done. Qed.
Lemma other_side_grows p r rf m b1 b2 q u q' : ok q -> p < size q -> r < size q -> update_other_side debug_names idm now p r rf m b1 b2 q = (Ok u, q') ->
  region (fun x => x = p \/ x = r) q q'.
Proof. intros Hq Hp Hr H. unfold update_other_side in H. pose proof (ok_grown (fun x => x = p \/ x = r) q Hq) as G. go q H; done. Qed.
Lemma link_created_grows p c rf l q u q' : ok q -> p < size q -> c < size q -> link_parent_to_created debug_names idm now p c rf l q = (Ok u, q') ->
  region (fun x => x = p \/ x = c) q q'.
Proof. intros Hq Hp Hc H. unfold link_parent_to_created in H. pose proof (ok_grown (fun x => x = p \/ x = c) q Hq) as G. go q H; done. Qed.
Lemma connect_new_grows p d rf m i f q u q' : ok q -> p < size q -> d < size q -> connect_new debug_names idm p d rf m i f q = (Ok u, q') ->
  region (fun x => x = p \/ x = d) q q'.
Proof. intros Hq Hp Hd H. unfold connect_new in H. pose proof (ok_grown (fun x => x = p \/ x = d) q Hq) as G. go q H; done. Qed.
Lemma set_connect_grows p d m pl cl q u q' : ok q -> p < size q -> d < size q -> set_connect_part debug_names idm now p d m pl cl q = (Ok u, q') ->
  region (fun x => x = p \/ x = d) q q'.
Proof. intros Hq Hp Hd H. unfold set_connect_part in H. pose proof (ok_grown (fun x => x = p \/ x = d) q Hq) as G. go q H; done. Qed.
Lemma set_disconnect_grows d rf cf m e q u q' : ok q -> d < size q -> set_disconnect_part debug_names idm now d rf cf m e q = (Ok u, q') -> region (eq d) q q'.
Proof. intros Hq Hd H. unfold set_disconnect_part in H. pose proof (ok_grown (eq d) q Hq) as G. go q H; done. Qed.
End handlers.
Ltac inv_handler q0 H ::=
  lazymatch type of H with
  | when ?b _ _ = _ => destruct b; unfold when in H; inv_step q0 H
  | update_other_side _ _ _ _ _ _ _ _ _ _ = _ => apply (other_side_grows ltac:(eassumption)) in H; [|ok_tac|lia|lia]; advance q0 H
  | link_parent_to_created _ _ _ _ _ _ _ _ = _ => apply (link_created_grows ltac:(eassumption)) in H; [|ok_tac|lia|lia]; advance q0 H
  | connect_new _ _ _ _ _ _ _ _ _ = _ => apply (connect_new_grows ltac:(eassumption)) in H; [|ok_tac|lia|lia]; advance q0 H
  | set_connect_part _ _ _ _ _ _ _ _ _ = _ => apply (set_connect_grows ltac:(eassumption)) in H; [|ok_tac|lia|lia]; advance q0 H
  | set_disconnect_part _ _ _ _ _ _ _ _ _ = _ => apply (set_disconnect_grows ltac:(eassumption)) in H; [|ok_tac|lia]; advance q0 H
  | insert_deletion_checks _ _ _ _ _ _ = _ =>
      let G := fresh "G" in let Hsz := fresh "Hsz" in let Hsk := fresh "Hsk" in
      match goal with G0 : grown ?P q0 ?q |- _ => eapply (deletion_checks_grow ltac:(eassumption) _ _ P q0) in H as (G & Hsz & Hsk); [|exact G0|source_tac|lia|lia|lia|lia|sink_tac] end
  | _ => idtac
  end.
Section nested.
Context `{VT : ValueTypes} {VO : ValueOrd VT} `{IT : Itertools} {JN : JsonNumbers} {PG : Petgraph} (HPG : PetgraphOk PG).
Context (debug_parsed : ParsedInputValue -> string) (debug_names : list string -> string) (idm : InternalDataModel) (now : PrismaValue).
Context (collect_set : list RecordProjection -> list RecordProjection).
Implicit Types (q : QueryGraph).
Lemma connect_o2o_grows p rf f m q u q' : ok q -> p < size q -> connect_one_to_one debug_names idm now p rf f m q = (Ok u, q') -> region (eq p) q q'.
Proof. intros Hq Hp H. unfold connect_one_to_one in H. pose proof (ok_grown (eq p) q Hq) as G. go q H; done. Qed.
Lemma connect_nested_grows p rf v m q u q' : ok q -> p < size q -> connect_nested_connect debug_parsed debug_names idm now p rf v m q = (Ok u, q') -> region (eq p) q q'.
Proof.
  intros Hq Hp H. unfold connect_nested_connect in H. pose proof (ok_grown (eq p) q Hq) as G. pose proof (connect_m2m_grows HPG). pose proof (connect_o2m_grows HPG). pose proof connect_o2o_grows.
  go q H; eauto.
Qed.

(** *** create, for the nodes of the new records *)
Definition created q0 (l : list nat) q : Prop := Forall (fun c => size q0 <= c < size q) l.
Lemma create_m2m_grows p rf l q0 q u q' : grown (eq p) q0 q -> p < size q0 -> created q0 l q -> create_many_to_many debug_names idm p rf l q = (Ok u, q') -> grown (eq p) q0 q'.
Proof.
  intros G Hp Hl H. unfold create_many_to_many in H. destruct u.
  apply (eff_for_inv _ (fun s => grown (eq p) q0 s /\ size q <= size s)) in H; [by apply H| |done].
  intros c s s' Hc [Gs Hs] Hrun. unfold created in Hl. rewrite Forall_forall in Hl. specialize (Hl c Hc). pose proof (grown_size _ _ _ Gs). go q0 Hrun. split; [done|lia].
Qed.
Lemma create_o2m_grows p rf l q0 q u q' : grown (eq p) q0 q -> p < size q0 -> created q0 l q -> create_one_to_many debug_names idm p rf l q = (Ok u, q') -> grown (eq p) q0 q'.
Proof.
  intros G Hp Hl H. unfold create_one_to_many in H. unfold created in Hl. rewrite Forall_forall in Hl. step q0 H. destruct a.
  - step q0 H. assert (Hc : a ∈ l) by (destruct (last l) as [c|] eqn:El; [injection Hp1 as ->; by apply last_Some_elem_of|done]). specialize (Hl a Hc). go q0 H. done.
  - destruct u. apply (eff_for_inv _ (fun s => grown (eq p) q0 s /\ size q <= size s)) in H; [by apply H| |done].
    intros c s s' Hc [Gs Hs] Hrun. specialize (Hl c Hc). pose proof (grown_size _ _ _ Gs). go q0 Hrun. split; [done|lia].
Qed.
Lemma create_o2o_grows p rf l q0 q u q' : grown (eq p) q0 q -> p < size q0 -> created q0 l q -> create_one_to_one debug_names idm now p rf l q = (Ok u, q') -> grown (eq p) q0 q'.
Proof.
  intros G Hp Hl H. unfold create_one_to_one in H. unfold created in Hl. rewrite Forall_forall in Hl. pose proof (grown_size _ _ _ G). do 5 step q0 H.
  destruct (negb a && _); [by apply violation_never in H|]. step q0 H.
  assert (Hc : a4 ∈ l) by (destruct (last l) as [c|] eqn:El; [injection Hp4 as ->; by apply last_Some_elem_of|done]). specialize (Hl a4 Hc). destruct a1; go q0 H; done.
Qed.

(** *** delete and deleteMany *)
Lemma delete_list_grows p rf v m i q u q' : ok q -> p < size q -> delete_list debug_parsed debug_names idm p rf v m i q = (Ok u, q') -> region (eq p) q q'.
Proof. intros Hq Hp H. unfold delete_list in H. pose proof (ok_grown (eq p) q Hq) as G. go q H. done. Qed.
Lemma delete_one_child_grows p rf m i q u q' : ok q -> p < size q -> delete_one_child debug_names idm p rf m i q = (Ok u, q') -> region (eq p) q q'.
Proof. intros Hq Hp H. unfold delete_one_child in H. pose proof (ok_grown (eq p) q Hq) as G. go q H. done. Qed.
Lemma delete_nested_grows p rf v m q u q' : ok q -> p < size q -> connect_nested_delete debug_parsed debug_names idm p rf v m q = (Ok u, q') -> region (eq p) q q'.
Proof.
  intros Hq Hp H. unfold connect_nested_delete in H. pose proof (ok_grown (eq p) q Hq) as G. pose proof delete_list_grows. pose proof delete_one_child_grows.
  go q H; eauto.
Qed.
(** A loop over the values of a nested write. *)
Lemma loop_grows {A} p (f : A -> WM unit) l q u q' : (forall a s s', ok s -> p < size s -> f a s = (Ok tt, s') -> region (eq p) s s') ->
  ok q -> p < size q -> eff_for f l q = (Ok u, q') -> region (eq p) q q'.
Proof.
  intros Hf Hq Hp H. destruct u. apply (eff_for_inv _ (fun s => region (eq p) q s)) in H; [done| |by apply ok_grown].
  intros a s s' _ G Hs. pose proof (grown_size _ _ _ G). eapply grown_trans; [exact G|apply (Hf a s s'); [by eapply grown_ok|lia|done]|auto].
Qed.
Lemma delete_many_grows p rf v m q u q' : ok q -> p < size q -> connect_nested_delete_many debug_parsed debug_names idm p rf v m q = (Ok u, q') -> region (eq p) q q'.
Proof.
  intros Hq Hp H. unfold connect_nested_delete_many in H. pose proof (ok_grown (eq p) q Hq) as G. do 2 step q H.
  eapply loop_grows; [|done|done|exact H]. clear -HPG. intros w s s' Hs Hp H. pose proof (ok_grown (eq p) s Hs) as G. cbv beta in H. go s H. done.
Qed.

(** *** disconnect *)
Lemma sides_nodes p f rf cf k s : disconnect_sides idm p f rf cf k = Ok s -> (node_to_attach s = p /\ node_to_check s = f) \/ (node_to_attach s = f /\ node_to_check s = p).
Proof. unfold disconnect_sides. intros H. inv_ok. case_match; inv_ok; cbn; auto. Qed.

Lemma disconnect_m2m_grows p rf f q u q' : ok q -> p < size q -> disconnect_many_to_many debug_names idm p rf f q = (Ok u, q') -> region (eq p) q q'.
Proof. intros Hq Hp H. unfold disconnect_many_to_many in H. pose proof (ok_grown (eq p) q Hq) as G. go q H. done. Qed.
Lemma disconnect_o2x_grows p rf f q u q' : ok q -> p < size q -> disconnect_one_to_x debug_names idm now p rf f q = (Ok u, q') -> region (eq p) q q'.
Proof.
  intros Hq Hp H. unfold disconnect_one_to_x in H. pose proof (ok_grown (eq p) q Hq) as G. do 2 step q H. destruct (_ || _); [by apply violation_never in H|].
  step q H. apply sides_nodes in Hp1 as [[Ha Hc]|[Ha Hc]]; rewrite ?Ha, ?Hc in H; go q H; done.
Qed.
Lemma disconnect_nested_grows p rf v m q u q' : ok q -> p < size q -> connect_nested_disconnect debug_parsed debug_names idm now p rf v m q = (Ok u, q') -> region (eq p) q q'.
Proof.
  intros Hq Hp H. unfold connect_nested_disconnect in H. pose proof (ok_grown (eq p) q Hq) as G. pose proof disconnect_m2m_grows. pose proof disconnect_o2x_grows.
  go q H; eauto.
Qed.

(** *** set and updateMany *)
Lemma set_m2m_grows p rf f q u q' : ok q -> p < size q -> set_many_to_many debug_names idm p rf f q = (Ok u, q') -> region (eq p) q q'.
Proof. intros Hq Hp H. unfold set_many_to_many in H. pose proof (ok_grown (eq p) q Hq) as G. go q H; done. Qed.
Lemma set_o2m_grows p rf f q u q' : ok q -> p < size q -> set_one_to_many debug_names idm now collect_set p rf f q = (Ok u, q') -> region (eq p) q q'.
Proof. intros Hq Hp H. unfold set_one_to_many in H. pose proof (ok_grown (eq p) q Hq) as G. go q H; done. Qed.
Lemma set_nested_grows p rf v m q u q' : ok q -> p < size q -> connect_nested_set debug_parsed debug_names idm now collect_set p rf v m q = (Ok u, q') -> region (eq p) q q'.
Proof.
  intros Hq Hp H. unfold connect_nested_set in H. pose proof (ok_grown (eq p) q Hq) as G. pose proof set_m2m_grows. pose proof set_o2m_grows. do 3 step q H.
  destruct a1 as [[] []]; cbn [fst snd] in H; eauto. done.
Qed.
Lemma update_many_grows p rf v m q u q' : ok q -> p < size q -> connect_nested_update_many debug_parsed debug_names idm p rf v m q = (Ok u, q') -> region (eq p) q q'.
Proof.
  intros Hq Hp H. unfold connect_nested_update_many in H. eapply loop_grows; [|done|done|exact H]. clear -HPG.
  intros w s s' Hs Hp H. pose proof (ok_grown (eq p) s Hs) as G. cbv beta in H. go s H. done.
Qed.
End nested.

(** ** Records with the records nested in them *)
Section recursion.
Context `{VT : ValueTypes} {VO : ValueOrd VT} `{IT : Itertools} {JN : JsonNumbers} {PG : Petgraph} (HPG : PetgraphOk PG).
Context (debug_parsed : ParsedInputValue -> string) (debug_names : list string -> string) (idm : InternalDataModel) (now : PrismaValue).
Context (collect_set : list RecordProjection -> list RecordProjection).
Implicit Types (q : QueryGraph).
(** A builder that adds a node with everything below it. *)
Definition builds (f : QueryModel -> ParsedInputMap -> WM NodeRef) : Prop := forall m d q n q', ok q -> f m d q = (Ok n, q') -> n = size q /\ n < size q' /\ region none q q'.
Section nested_queries.
Context (creates updates : QueryModel -> ParsedInputMap -> WM NodeRef) (Hcreates : builds creates) (Hupdates : builds updates).
Lemma create_nodes_grow m p q0 vs q l q' : grown (eq p) q0 q ->
  eff_map (fun value => mbind (M := WM) (creates m) (pure (of_parser (try_into_map debug_parsed value)))) vs q = (Ok l, q') ->
  grown (eq p) q0 q' /\ size q <= size q' /\ created q0 l q'.
Proof.
  revert q l. induction vs as [|v vs IH]; intros q l G; cbn [eff_map]; [intros [= <- <-]; split_and!; [done|done|constructor]|].
  intros (n & q1 & H1 & H)%bind_inv. apply bind_inv in H1 as (d & q2 & [_ ->]%pure_step & H1). apply Hcreates in H1 as (-> & Hlt & R); [|by eapply grown_ok].
  pose proof (grown_size _ _ _ G). advance q0 R. apply bind_inv in H as (l' & q3 & Hrest & H). injection H as <- <-.
  apply IH in Hrest as (G2 & Hle & Hl); [|done]. split_and!; [done|lia|]. constructor; [lia|done].
Qed.
Lemma create_nested_grows p rf v m q u q' : ok q -> p < size q ->
  connect_nested_create debug_parsed debug_names idm now creates p rf v m q = (Ok u, q') -> region (eq p) q q'.
Proof.
  intros Hq Hp H. unfold connect_nested_create in H. pose proof (ok_grown (eq p) q Hq) as G. step q H.
  apply bind_inv in H as (l & q1 & Hmap & H). destruct (create_nodes_grow m p q _ _ _ _ G Hmap) as (Gc & Hle & Hl). cbv beta in H. step q H.
  destruct a0 as [[] []]; cbn [fst snd] in H;
    first [by eapply (create_m2m_grows HPG) in H|by eapply (create_o2m_grows HPG) in H|by eapply (create_o2o_grows HPG) in H].
Qed.
Lemma nested_update_grows p rf m v q q' : ok q -> p < size q -> nested_update debug_parsed debug_names idm updates p rf m v q = (Ok tt, q') -> region (eq p) q q'.
Proof.
  intros Hq Hp H. unfold nested_update in H. pose proof (ok_grown (eq p) q Hq) as G. do 3 step q H.
  apply bind_inv in H as (n & qu & Hu & H). apply Hupdates in Hu as (-> & Hlt & R); [|ok_tac]. advance q R. cbv beta in H. go q H. done.
Qed.
Lemma connect_upserted_grows p c rf pl cl q0 q u q' : grown (eq p) q0 q -> p < size q0 -> size q0 <= c < size q ->
  connect_upserted debug_names idm now p c rf pl cl q = (Ok u, q') -> grown (eq p) q0 q'.
Proof. intros G Hp Hc H. unfold connect_upserted in H. pose proof (grown_size _ _ _ G). go q0 H; done. Qed.
Lemma nested_upsert_grows p rf m i v q q' : ok q -> p < size q ->
  nested_upsert debug_parsed debug_names idm now creates updates p rf m i v q = (Ok tt, q') -> region (eq p) q q'.
Proof.
  intros Hq Hp H. unfold nested_upsert in H. pose proof (ok_grown (eq p) q Hq) as G. do 10 step q H.
  apply bind_inv in H as (c & qc & Hc & H). apply Hcreates in Hc as (-> & Hltc & Rc); [|ok_tac]. advance q Rc. cbv beta in H. step q H.
  apply bind_inv in H as (n & qu & Hu & H). apply Hupdates in Hu as (-> & Hltu & Ru); [|ok_tac]. advance q Ru. cbv beta in H.
  do 4 step q H. eapply connect_upserted_grows; [|exact Hp| |exact H]; [eassumption|lia].
Qed.
Lemma nested_entry_grows p rf m e q q' : ok q -> p < size q ->
  connect_nested_entry debug_parsed debug_names idm now collect_set creates updates p rf m e q = (Ok tt, q') -> region (eq p) q q'.
Proof.
  intros Hq Hp H. unfold connect_nested_entry in H. destruct e as [name v]. repeat case_bool.
  all: first [by eapply create_nested_grows in H|eapply loop_grows; [|done|done|exact H]; by intros; eapply nested_update_grows
             |by eapply (delete_nested_grows HPG) in H|by eapply (connect_nested_grows HPG) in H|by eapply (disconnect_nested_grows HPG) in H
             |by eapply (set_nested_grows HPG) in H|by eapply (update_many_grows HPG) in H|by eapply (delete_many_grows HPG) in H|injection H as <-; by apply ok_grown|idtac].
  unfold connect_nested_upsert in H. pose proof (ok_grown (eq p) q Hq) as G. do 2 step q H. eapply loop_grows; [|done|done|exact H]. by intros; eapply nested_upsert_grows.
Qed.
Lemma record_node_builds query m : builds (fun _ d => record_node debug_parsed debug_names idm now collect_set creates updates m query d).
Proof.
  intros _ d q n q' Hq H. unfold record_node in H. pose proof (ok_grown none q Hq) as G. step q H. step q H.
  apply bind_inv in H as ([] & q2 & Hloop & H). injection H as <- <-. cbv beta in Hloop.
  assert (region (eq (size q)) q0 q2) as R.
  { eapply loop_grows; [|by ok_tac|lia|exact Hloop]. intros [rf dm] s s' Hs Hps Hrun. unfold connect_nested_query in Hrun. pose proof (ok_grown (eq (size q)) s Hs) as Gs. step s Hrun.
    eapply loop_grows; [|done|done|exact Hrun]. by intros; eapply nested_entry_grows. }
  pose proof (grown_size _ _ _ R). split; [done|]. split; [lia|]. eapply grown_trans; [eassumption|exact R|]. intros x <-. right. lia.
Qed.
End nested_queries.
Lemma write_record_node_builds fuel kind : builds (write_record_node debug_parsed debug_names idm now collect_set fuel kind).
Proof.
  revert kind. induction fuel as [|fuel IH]; intros kind m d q n q' Hq H; [done|].
  by apply (record_node_builds _ _ (IH WriteCreate) (IH (WriteUpdate FEmpty)) (write_of idm now kind m) m m d).
Qed.
Lemma create_record_node_builds : builds (create_record_node debug_parsed debug_names idm now collect_set).
Proof. intros m d. apply (write_record_node_builds _ WriteCreate m d). Qed.
Lemma update_record_node_builds f : builds (update_record_node debug_parsed debug_names idm now collect_set f).
Proof. intros m d. apply (write_record_node_builds _ (WriteUpdate f) m d). Qed.
End recursion.

(** ** The graph of an operation *)
Section operations.
Context `{VT : ValueTypes} {VO : ValueOrd VT} `{IT : Itertools} {JN : JsonNumbers} {PG : Petgraph} (HPG : PetgraphOk PG).
Context (debug_parsed : ParsedInputValue -> string) (debug_names : list string -> string) (idm : InternalDataModel) (now : PrismaValue).
Context (collect_set : list RecordProjection -> list RecordProjection).
Implicit Types (q : QueryGraph).
Abbreviation record_builds := (create_record_node_builds HPG debug_parsed debug_names idm now collect_set).
Abbreviation update_builds := (update_record_node_builds HPG debug_parsed debug_names idm now collect_set).
Lemma create_record_ok m f q u q' : ok q -> create_record debug_parsed debug_names idm now collect_set m f q = (Ok u, q') -> ok q'.
Proof.
  intros Hq H. unfold create_record in H. pose proof (ok_grown none q Hq) as G. do 2 step q H.
  apply bind_inv in H as (c & qc & Hc & H). apply record_builds in Hc as (-> & Hltc & Rc); [|ok_tac]. advance q Rc. cbv beta in H. go q H. ok_tac.
Qed.
Lemma update_record_ok m f q u q' : ok q -> update_record debug_parsed debug_names idm now collect_set m f q = (Ok u, q') -> ok q'.
Proof.
  intros Hq H. unfold update_record in H. pose proof (ok_grown none q Hq) as G. do 4 step q H.
  apply bind_inv in H as (c & qc & Hc & H). apply update_builds in Hc as (-> & Hltc & Rc); [|ok_tac]. advance q Rc. cbv beta in H. go q H. ok_tac.
Qed.
Lemma delete_record_ok m f q u q' : ok q -> delete_record debug_parsed debug_names idm m f q = (Ok u, q') -> ok q'.
Proof. intros Hq H. unfold delete_record in H. pose proof (ok_grown none q Hq) as G. go q H. ok_tac. Qed.
Lemma delete_many_records_ok m f q u q' : ok q -> delete_many_records debug_parsed debug_names idm m f q = (Ok u, q') -> ok q'.
Proof. intros Hq H. unfold delete_many_records in H. pose proof (ok_grown none q Hq) as G. go q H. ok_tac. Qed.
Lemma update_many_records_ok m f q u q' : ok q -> update_many_records debug_parsed idm now m f q = (Ok u, q') -> ok q'.
Proof. intros Hq H. unfold update_many_records in H. pose proof (ok_grown none q Hq) as G. go q H. ok_tac. Qed.
Lemma single_read_ok b m f q u q' : ok q -> single_read b m f q = (Ok u, q') -> ok q'.
Proof. intros Hq H. unfold single_read in H. pose proof (ok_grown none q Hq) as G. go q H. ok_tac. Qed.
Lemma upsert_record_ok m f q u q' : ok q -> upsert_record debug_parsed debug_names idm now collect_set m f q = (Ok u, q') -> ok q'.
Proof.
  intros Hq H. unfold upsert_record in H. pose proof (ok_grown none q Hq) as G. do 8 step q H.
  apply bind_inv in H as (c & qc & Hc & H). apply record_builds in Hc as (-> & Hltc & Rc); [|ok_tac]. advance q Rc. cbv beta in H. step q H.
  apply bind_inv in H as (n & qu & Hu & H). apply update_builds in Hu as (-> & Hltu & Ru); [|ok_tac]. advance q Ru. cbv beta in H. go q H. ok_tac.
Qed.
Lemma builder_fn_ok tag m f q u q' : ok q -> builder_fn debug_parsed debug_names idm now collect_set tag m f q = (Ok u, q') -> ok q'.
Proof.
  destruct tag; cbn [builder_fn]; eauto using single_read_ok, create_record_ok, update_record_ok, update_many_records_ok, delete_record_ok, delete_many_records_ok, upsert_record_ok.
Qed.
Lemma new_ok : ok QueryGraph_new.
Proof.
  assert (Hno : forall a b, ~ edge_rel QueryGraph_new a b).
  { intros a b (w & Hw). unfold edges in Hw. cbn [QueryGraph_new graph] in Hw. rewrite (new_edges (PetgraphOk := HPG)) in Hw. by apply elem_of_nil in Hw. }
  split; [intros a b Hab; by destruct (Hno a b)|]. intros n Hn. destruct Hn as [a b Hab|a b c Hab _]; by destruct (Hno a b).
Qed.
End operations.

Section built.
Context `{VT : ValueTypes} {VO : ValueOrd VT} `{IT : Itertools} {JN : JsonNumbers} {PG : Petgraph}.
Context (debug_parsed : ParsedInputValue -> string) (debug_names : list string -> string) (idm : InternalDataModel) (now : PrismaValue).
Context (collect_set : list RecordProjection -> list RecordProjection).
(** C30: The query graph that is built for an operation, with everything nested in its data, has edges between existing nodes only and no cycle. *)
Theorem built_graph_acyclic b f g : PetgraphOk PG -> builder_build debug_parsed debug_names idm now collect_set b f = Ok g -> in_range g /\ acyclic g.
Proof.
  intros HPG H. destruct b as [m tag|]; [|done]. cbn [builder_build] in H.
  destruct (builder_fn debug_parsed debug_names idm now collect_set tag m f QueryGraph_new) as [[u| |] g'] eqn:E; [|done..].
  injection H as <-. by apply (builder_fn_ok HPG _ _ _ _ _ _ _ _ _ _ _ (new_ok HPG)) in E.
Qed.
End built.

(** * The recursion over nested data ends

    Records are written together with the records nested in their data. The
    depth of the data is fuel enough: the functions satisfy the equations of
    the source, in which they call each other without a bound. *)
(** ** Depths *)
Section depth.
Context `{VT : ValueTypes}.
Lemma parsed_depth_in_list v l : v ∈ l -> value_depth v < value_depth (ParsedList l).
Proof. cbn [value_depth]. induction 1 as [x l|x y l _ IH]; cbn [foldr]; lia. Qed.
Lemma depth_in_map p m : p ∈ m -> value_depth p.2 < value_depth (ParsedMap m).
Proof. cbn [value_depth]. induction 1 as [x l|x y l _ IH]; cbn [foldr]; lia. Qed.
Lemma depth_coerce v w : w ∈ coerce_vec v -> value_depth w <= value_depth v.
Proof. destruct v; cbn [coerce_vec]; [by intros ->%list_elem_of_singleton..|intros H%parsed_depth_in_list; lia|by intros ->%list_elem_of_singleton]. Qed.
End depth.

(** ** Computations that agree *)
Lemma eff_bind_ext {S E A B} (f g : A -> eff S E B) (m n : eff S E A) s :
  m s = n s -> (forall a s', m s = (Ok a, s') -> f a s' = g a s') -> (m ≫= f) s = (n ≫= g) s.
Proof. unfold mbind, eff_bind. intros <- H. destruct (m s) as [[a| |] s'] eqn:E1; auto. Qed.
Lemma eff_for_ext {S E A} (f g : A -> eff S E unit) l s : (forall a s, a ∈ l -> f a s = g a s) -> eff_for f l s = eff_for g l s.
Proof.
  revert s. induction l as [|a l IH]; intros s H; [done|]. cbn [eff_for]. apply eff_bind_ext; [apply H; constructor|]. intros _ s' _. apply IH. intros; apply H; by constructor.
Qed.
Lemma eff_map_ext {S E A B} (f g : A -> eff S E B) l s : (forall a s, a ∈ l -> f a s = g a s) -> eff_map f l s = eff_map g l s.
Proof.
  revert s. induction l as [|a l IH]; intros s H; [done|]. cbn [eff_map]. apply eff_bind_ext; [apply H; constructor|]. intros b s' _. apply eff_bind_ext; [|done].
  apply IH. intros; apply H; by constructor.
Qed.
Ltac same := repeat (apply eff_bind_ext; [reflexivity|]; let a := fresh "x" in let s := fresh "s" in let E := fresh "Hx" in intros a s E).

Section recursion.
Context `{VT : ValueTypes} {VO : ValueOrd VT} `{IT : Itertools} {JN : JsonNumbers} {PG : Petgraph}.
Context (debug_parsed : ParsedInputValue -> string) (debug_names : list string -> string) (idm : InternalDataModel) (now : PrismaValue).
Context (collect_set : list RecordProjection -> list RecordProjection).
Lemma to_map_inv v m : of_parser (try_into_map debug_parsed v) = Ok m -> v = ParsedMap m.
Proof. by destruct v as [| | |]; intros [= ->]. Qed.
Lemma take_entry_depth {E} msg k m v : take_entry (E := E) msg k m = Ok v -> value_depth v < value_depth (ParsedMap m).
Proof.
  unfold take_entry, map_get. destruct (iter_find _ m) as [p|] eqn:Hf; [|done]. intros [= <-]. apply depth_in_map. apply find_some in Hf as [Hf _]. by apply list_elem_of_In.
Qed.
(** Nested data comes from the entries of the data. *)
Lemma nested_depth model data parsed : WriteArgsParser_from debug_parsed model data = Ok parsed ->
  Forall (fun p : RelationField * ParsedInputMap => value_depth (ParsedMap p.2) < value_depth (ParsedMap data)) (wap_nested parsed).
Proof.
  unfold WriteArgsParser_from. set (P := fun s => Forall (fun p : RelationField * ParsedInputMap => value_depth (ParsedMap p.2) < value_depth (ParsedMap data)) (wap_nested s)).
  assert (Hgen : forall l s, (forall x, x ∈ l -> x ∈ data) -> P s -> for_each (parse_write_arg debug_parsed model) l s = Ok parsed -> P parsed).
  { induction l as [|[k v] l IH]; intros s Hl Hs H; cbn [for_each] in H; [by injection H as <-|].
    destruct (parse_write_arg debug_parsed model s (k, v)) as [s1| |] eqn:E; [|done..]. apply (IH s1); [intros; apply Hl; by constructor| |done].
    assert (Hv : (k, v) ∈ data) by (apply Hl; constructor). unfold parse_write_arg in E. destruct (Models.unwrap_result _) as [f| |]; [|done..]. cbn [mbind outcome_bind] in E.
    destruct f as [rf|sf].
    2: { destruct (sf_is_list sf); inv_ok; exact Hs. }
    - assert (Hmap : of_parser (try_into_map debug_parsed v) ≫= (fun m => Ok (mkWriteArgsParser (wap_args s) (wap_nested s ++ [(rf, m)]))) = Ok s1 \/ s1 = s)
        by (destruct v as [[] | | |]; auto; right; by injection E).
      destruct Hmap as [Hmap | ->]; [|done]. destruct (of_parser _) as [m| |] eqn:Em; [|done..]. injection Hmap as <-. apply to_map_inv in Em as ->.
      apply Forall_app. split; [done|]. constructor; [|constructor]. by apply (depth_in_map (k, ParsedMap m)). }
  apply Hgen; [done|constructor].
Qed.
Lemma data_depth rf v m w f : update_data_and_filter debug_parsed idm rf v m = Ok (w, f) -> value_depth w <= value_depth v.
Proof.
  unfold update_data_and_filter. destruct (rf_is_list rf); [|by intros [= -> _]]. intros H.
  repeat match type of H with mbind _ ?m = Ok _ => let E := fresh "E" in destruct m eqn:E; [cbn [mbind outcome_bind] in H|done..] end.
  injection H as -> _. apply to_map_inv in E as ->. apply take_entry_depth in E5. lia.
Qed.

(** ** The same recursive calls give the same graph *)
Section agree.
Context (create1 create2 update1 update2 : QueryModel -> ParsedInputMap -> WM NodeRef) (d : nat).
Definition agree (f g : QueryModel -> ParsedInputMap -> WM NodeRef) : Prop := forall m data q, value_depth (ParsedMap data) < d -> f m data q = g m data q.
Context (Hcreate : agree create1 create2) (Hupdate : agree update1 update2).
Abbreviation entry1 := (connect_nested_entry debug_parsed debug_names idm now collect_set create1 update1).
Abbreviation entry2 := (connect_nested_entry debug_parsed debug_names idm now collect_set create2 update2).
Lemma create_agree p rf v m q : value_depth v < d ->
  connect_nested_create debug_parsed debug_names idm now create1 p rf v m q = connect_nested_create debug_parsed debug_names idm now create2 p rf v m q.
Proof.
  intros Hv. unfold connect_nested_create. same. apply eff_bind_ext; [|done]. apply eff_map_ext. intros w q' Hw%depth_coerce. cbv beta. same.
  apply pure_step in Hx0 as [->%to_map_inv ->]. apply Hcreate. lia.
Qed.
Lemma update_agree p rf v m q : value_depth v < d ->
  nested_update debug_parsed debug_names idm update1 p rf m v q = nested_update debug_parsed debug_names idm update2 p rf m v q.
Proof.
  intros Hv. unfold nested_update. same. apply eff_bind_ext; [|done]. apply Hupdate. apply pure_step in Hx as [Hx _], Hx1 as [Hx1%to_map_inv _].
  destruct x as [w f]. apply data_depth in Hx. cbn [fst] in Hx1. subst w. lia.
Qed.
Lemma upsert_agree p rf m i v q : value_depth v < d ->
  nested_upsert debug_parsed debug_names idm now create1 update1 p rf m i v q = nested_upsert debug_parsed debug_names idm now create2 update2 p rf m i v q.
Proof.
  intros Hv. unfold nested_upsert. do 10 (apply eff_bind_ext; [reflexivity|]; let a := fresh "x" in let s := fresh "s" in let E := fresh "Hx" in intros a s E).
  apply pure_step in Hx2 as [->%to_map_inv _], Hx3 as [Hc%take_entry_depth _], Hx4 as [Hu%take_entry_depth _], Hx8 as [->%to_map_inv _].
  apply eff_bind_ext; [apply Hcreate; lia|]. intros c s9 _. apply eff_bind_ext; [done|]. intros y s10 Hy. apply pure_step in Hy as [->%to_map_inv _].
  apply eff_bind_ext; [apply Hupdate; lia|done].
Qed.
Lemma entry_agree p rf m e q : value_depth e.2 < d -> entry1 p rf m e q = entry2 p rf m e q.
Proof.
  destruct e as [k v]. intros Hv. cbn [snd] in Hv. unfold connect_nested_entry. repeat case_bool; try done.
  - by apply create_agree.
  - apply eff_for_ext. intros w s Hw%depth_coerce. apply update_agree. lia.
  - unfold connect_nested_upsert. same. apply eff_for_ext. intros w s' Hw%depth_coerce. apply upsert_agree. lia.
Qed.
Lemma record_node_agree m query data q : value_depth (ParsedMap data) <= d ->
  record_node debug_parsed debug_names idm now collect_set create1 update1 m query data q = record_node debug_parsed debug_names idm now collect_set create2 update2 m query data q.
Proof.
  intros Hd. unfold record_node. apply eff_bind_ext; [done|]. intros parsed s Hp. apply pure_step in Hp as [Hp%nested_depth ->]. same. apply eff_bind_ext; [|done].
  apply eff_for_ext. intros [rf dm] s' Hin. rewrite Forall_forall in Hp. specialize (Hp _ Hin). cbn [fst snd] in *. unfold connect_nested_query. same.
  apply eff_for_ext. intros e s2 He%depth_in_map. apply entry_agree. lia.
Qed.
End agree.
Abbreviation write_node := (write_record_node debug_parsed debug_names idm now collect_set).
Abbreviation create_node := (create_record_node debug_parsed debug_names idm now collect_set).
Abbreviation update_node := (update_record_node debug_parsed debug_names idm now collect_set).
Lemma write_node_fuel fuel fuel' : forall kind m data q, value_depth (ParsedMap data) <= fuel -> value_depth (ParsedMap data) <= fuel' ->
  write_node fuel kind m data q = write_node fuel' kind m data q.
Proof.
  revert fuel'. induction fuel as [|fuel IH]; intros fuel' kind m data q H H'; [cbn [value_depth] in H; lia|].
  destruct fuel' as [|fuel']; [cbn [value_depth] in H'; lia|]. cbn [write_record_node].
  apply (record_node_agree _ _ _ _ (value_depth (ParsedMap data))); [..|done]; intros m' data' q' Hd; apply IH; lia.
Qed.
Lemma record_node_calls kind m data q :
  write_node (value_depth (ParsedMap data)) kind m data q = record_node debug_parsed debug_names idm now collect_set create_node (update_node FEmpty) m (write_of idm now kind m) data q.
Proof.
  destruct (value_depth (ParsedMap data)) as [|n] eqn:E; [done|]. cbn [write_record_node].
  apply (record_node_agree _ _ _ _ (S n)); [..|lia]; intros m' data' q' Hd; apply write_node_fuel; lia.
Qed.
(** C31: The nodes of a record and of everything nested in its data satisfy the equations of the source, in which creating and updating records call each other without a bound: the recursion ends on all data, and a bound on its depth is not observable. *)
Theorem record_nodes_recursive filter m data q :
  create_node m data q = record_node debug_parsed debug_names idm now collect_set create_node (update_node FEmpty) m (write_of idm now WriteCreate m) data q /\
  update_node filter m data q = record_node debug_parsed debug_names idm now collect_set create_node (update_node FEmpty) m (write_of idm now (WriteUpdate filter) m) data q.
Proof. split; apply record_node_calls. Qed.
End recursion.
