(* ===== verification/ParserFacts.v ===== *)
(** * What the query parser accepts

    The parser's recursion over values and the input objects of the schema
    ends; what it returns has the type it was asked for, arguments and
    selections included. *)
From S2P Require Import Prelude SqlSchema Dml Converter Models Projections Filters ValueOrder QueryAst QueryGraph QueryDocument ReadBuilder QueryParser.
From stdpp Require Import sorting.

(** ** Ordered maps *)
Section ordered.
Context {A : Type}.
Implicit Types (m l : list (string * A)).
Definition key_lt (a b : string * A) : Prop := String.compare a.1 b.1 = Lt.
Definition ordered m : Prop := StronglySorted key_lt m.
Lemma key_lt_trans a b c : key_lt a b -> key_lt b c -> key_lt a c.
Proof. unfold key_lt. intros H1 H2. pose proof string_cmp_ok as (_ & _ & Hlt & _). by eapply Hlt. Qed.
Lemma map_put_elem k v m x : x ∈ map_put k v m -> x = (k, v) \/ x ∈ m.
Proof.
  induction m as [|[k' v'] m IH]; cbn [map_put]; [by intros ->%list_elem_of_singleton; left|].
  destruct (String.compare k k'); rewrite !elem_of_cons; naive_solver.
Qed.
Lemma map_put_keys k v m k' : k' ∈ (map_put k v m).*1 <-> k' = k \/ k' ∈ m.*1.
Proof.
  induction m as [|[k1 v1] m IH]; cbn [map_put]; [cbn; by rewrite list_elem_of_singleton, elem_of_nil; tauto|].
  destruct (String.compare k k1) eqn:E; rewrite !fmap_cons, !elem_of_cons; cbn [fst]; [|tauto|rewrite IH; tauto].
  apply String.compare_eq_iff in E as ->. tauto.
Qed.
Lemma map_put_ordered k v m : ordered m -> ordered (map_put k v m).
Proof.
  unfold ordered. induction 1 as [|[k' v'] m Hm IH Hall]; cbn [map_put]; [repeat constructor|]. destruct (String.compare k k') eqn:E.
  - apply String.compare_eq_iff in E as ->. by constructor.
  - constructor; [by constructor|]. constructor; [done|]. eapply Forall_impl; [exact Hall|]. intros x. by apply key_lt_trans.
  - constructor; [done|]. rewrite Forall_forall in *. intros x [->|Hx]%map_put_elem; [|by apply Hall].
    unfold key_lt. cbn [fst]. pose proof (String.compare_antisym k k') as Ha. rewrite E in Ha. by destruct (String.compare k' k).
Qed.
Lemma ordered_keys m : ordered m -> NoDup m.*1.
Proof.
  pose proof string_cmp_ok as (Hr & _). induction 1 as [|x m Hm IH Hall]; cbn; [constructor|]. constructor; [|done].
  intros ([k v] & Hk & Hin)%list_elem_of_fmap. rewrite Forall_forall in Hall. specialize (Hall _ Hin). unfold key_lt in Hall. cbn in Hk, Hall. by rewrite Hk, Hr in Hall.
Qed.
Lemma map_of_spec l : ordered (map_of l) /\ (forall x, x ∈ map_of l -> x ∈ l) /\ (forall k, k ∈ (map_of l).*1 <-> k ∈ l.*1).
Proof.
  unfold map_of. assert (Hgen : forall m, ordered m -> let r := foldl (fun m p => map_put p.1 p.2 m) m l in
    ordered r /\ (forall x, x ∈ r -> x ∈ m \/ x ∈ l) /\ (forall k, k ∈ r.*1 <-> k ∈ m.*1 \/ k ∈ l.*1)).
  { induction l as [|[k v] l IH]; intros m Hm; cbn [foldl].
    - split_and!; [done|by left|]. intros k. cbn. rewrite elem_of_nil. tauto.
    - destruct (IH (map_put k v m) (map_put_ordered k v m Hm)) as (Ho & He & Hk). cbn [fst snd]. split_and!; [done| |].
      + intros x [[-> |Hx]%map_put_elem|Hx]%He; rewrite elem_of_cons; tauto.
      + intros k'. rewrite Hk, map_put_keys, fmap_cons, elem_of_cons. cbn. tauto. }
  destruct (Hgen [] (SSorted_nil _)) as (Ho & He & Hk). split_and!; [done| |].
  - intros x [Hx|Hx]%He; [by apply elem_of_nil in Hx|done].
  - intros k. rewrite Hk. cbn. rewrite elem_of_nil. tauto.
Qed.
End ordered.

(** ** The recursion over values *)
Lemma map_m_agree {E A B} (f g : A -> outcome E B) l : (forall x, x ∈ l -> f x = g x) -> map_m f l = map_m g l.
Proof. induction l as [|x l IH]; intros H; [done|]. cbn [map_m]. rewrite H by constructor. rewrite IH; [done|]. intros; apply H; by constructor. Qed.
Section recursion.
Context `{VT : ValueTypes} {VO : ValueOrd VT} `{IT : Itertools} {JN : JsonNumbers} {DP : DocumentParsers}.
Context (debug_query_value : QueryValue -> string) (qs : QuerySchema).
Abbreviation parse_input_value := (parse_input_value debug_query_value qs).
Abbreviation parse_value := (parse_value debug_query_value qs).
Lemma depth_in_list v l : v ∈ l -> object_depth v <= object_depth (QV_List l).
Proof. cbn [object_depth]. induction 1 as [x l|x y l _ IH]; cbn [foldr]; lia. Qed.
Lemma depth_in_object p o : p ∈ o -> object_depth p.2 < object_depth (QV_Object o).
Proof. cbn [object_depth]. induction 1 as [x l|x y l _ IH]; cbn [foldr]; lia. Qed.
(** A value of the datamodel has no objects. *)
Lemma depth_of_value v : object_depth (QueryValue_from v) = 0.
Proof.
  induction v as [v IH] using value_nested_ind. destruct v as [| | | | | |l| | |]; try done. cbn [QueryValue_from object_depth].
  induction IH as [|x l Hx _ IHl]; [done|]. cbn [fmap list_fmap foldr]. rewrite Hx. exact IHl.
Qed.
Lemma parse_object_agree (p1 p2 : QueryValue -> InputType -> outcome QueryParserError ParsedInputValue) d o obj :
  (forall v t, object_depth v <= d -> p1 v t = p2 v t) -> object_depth (QV_Object o) <= S d -> parse_input_object p1 o obj = parse_input_object p2 o obj.
Proof.
  intros Hp Hd. unfold parse_input_object. f_equal.
  assert (Hf : forall v f, object_depth v <= d -> parse_input_field p1 v f = parse_input_field p2 v f) by (intros v f Hv; unfold parse_input_field; by rewrite Hp).
  rewrite (map_m_agree (unset_field p1 obj) (unset_field p2 obj)); [|].
  - destruct (map_m (unset_field p2 obj) _); [cbn [mbind outcome_bind]|done..].
    rewrite (map_m_agree (given_field p1 obj) (given_field p2 obj)); [done|]. intros x Hx%depth_in_object. unfold given_field.
    destruct (iot_find_field obj x.1); [|done]. rewrite Hf by lia. done.
  - intros n _. unfold unset_field. destruct (unwrap _ _) as [f| |]; [cbn [mbind outcome_bind]|done..]. destruct (if_default_value f) as [dv|]; [|done].
    destruct (DefaultValue_get _ _ _ dv) as [pv|]; [|done]. rewrite Hf; [done|]. rewrite depth_of_value. lia.
Qed.
Lemma parse_opt fuel v t : parse_input_value fuel v (InOpt t) = parse_input_value fuel v t.
Proof. by destruct fuel. Qed.
Lemma parse_null fuel v t : parse_input_value fuel v (InNull t) = match v with QV_Null => Ok (ParsedSingle PV_Null) | _ => parse_input_value fuel v t end.
Proof. by destruct fuel. Qed.
Lemma parse_list fuel v t : parse_input_value fuel v (InList t) =
  match v with
  | QV_Null => Err RequiredValueNotSetError
  | QV_List values => vs ← map_m (fun v => parse_input_value fuel v t) values; Ok (ParsedList vs)
  | _ => x ← parse_input_value fuel v t; Ok (ParsedList [x])
  end.
Proof. by destruct fuel. Qed.
Lemma parse_fuel fuel : forall fuel' v t, object_depth v <= fuel -> object_depth v <= fuel' -> parse_input_value fuel v t = parse_input_value fuel' v t.
Proof.
  induction fuel as [|fuel IH]; intros fuel' v t; revert v.
  all: induction t as [s|e|t IHt|r|t IHt|t IHt]; intros v H H'; rewrite ?parse_opt, ?parse_null, ?parse_list.
  all: try (by apply IHt); try (destruct fuel' as [|fuel']; by destruct v); try (destruct v; try rewrite IHt by done; by eauto).
  all: try (destruct v as [| | | | | |vs|o]; try rewrite IHt by lia; try reflexivity; [rewrite (map_m_agree _ (fun v => parse_input_value fuel' v t)); [done|];
    intros x Hx%depth_in_list; apply IHt; lia]).
  - destruct fuel' as [|fuel']; destruct v; try done; cbn [object_depth] in H; lia.
  - destruct v as [| | | | | | |o]; try (by destruct fuel'). destruct fuel' as [|fuel']; [cbn [object_depth] in H'; lia|]. cbn [QueryParser.parse_input_value].
    destruct (input_object qs r) as [obj| |]; [cbn [mbind outcome_bind]|done..].
    rewrite (parse_object_agree (parse_input_value fuel) (parse_input_value fuel') (Nat.min fuel fuel')); [done|intros; apply IH; lia|lia].
Qed.
(** *** The equations of the source *)
(** What the parser does for a value and a type, with unbounded calls of itself
    for the elements of lists and the fields of objects. *)
Definition source_equations (p : QueryValue -> InputType -> outcome QueryParserError ParsedInputValue) : Prop := forall v,
  (forall t, p v (InOpt t) = p v t) /\
  (forall t, p v (InNull t) = match v with QV_Null => Ok (ParsedSingle PV_Null) | _ => p v t end) /\
  (forall s, p v (InScalar s) = match v with QV_Null => Err RequiredValueNotSetError | _ => x ← parse_scalar v s; Ok (ParsedSingle x) end) /\
  (forall e, p v (InEnum e) = match v with
    | QV_Null => Err RequiredValueNotSetError
    | QV_Enum _ | QV_String _ | QV_Boolean _ => parse_enum debug_query_value v e
    | _ => Err (ValueTypeMismatchError v (InEnum e))
    end) /\
  (forall t, p v (InList t) = match v with
    | QV_Null => Err RequiredValueNotSetError
    | QV_List values => vs ← map_m (fun v => p v t) values; Ok (ParsedList vs)
    | _ => x ← p v t; Ok (ParsedList [x])
    end) /\
  (forall r, p v (InObject r) = match v with
    | QV_Null => Err RequiredValueNotSetError
    | QV_Object o => obj ← input_object qs r; m ← parse_input_object p o obj; Ok (ParsedMap m)
    | _ => Err (ValueTypeMismatchError v (InObject r))
    end).
Lemma parse_value_equations : source_equations parse_value.
Proof.
  intros v. split_and!.
  - intros t. apply parse_opt.
  - intros t. etrans; [apply parse_null|by destruct v].
  - intros s. unfold QueryParser.parse_value. by destruct (object_depth v).
  - intros e. unfold QueryParser.parse_value. by destruct (object_depth v).
  - intros t. etrans; [apply parse_list|]. destruct v; try done. rewrite (map_m_agree _ (fun v => parse_value v t)); [done|]. intros x Hx%depth_in_list. by apply parse_fuel.
  - intros r. destruct v as [| | | | | |l|o]; try done; [unfold QueryParser.parse_value; by destruct (object_depth (QV_List l))|].
    unfold QueryParser.parse_value at 1. cbn [object_depth QueryParser.parse_input_value]. destruct (input_object qs r) as [obj| |]; [cbn [mbind outcome_bind]|done..].
    rewrite (parse_object_agree _ parse_value (foldr (fun p d => object_depth p.2 `max` d) 0 o)); [done| |done]. intros x t' Hx. by apply parse_fuel.
Qed.
(** By recursion on the objects nested in the value, then on the type. *)
Lemma equations_agree d p q : source_equations p -> source_equations q -> forall v t, object_depth v <= d -> p v t = q v t.
Proof.
  intros Hp Hq. induction d as [|d IHd]; intros v t; revert v; induction t as [s|e|t IHt|r|t IHt|t IHt]; intros v Hd;
    destruct (Hp v) as (Po & Pn & Ps & Pe & Pl & Pj), (Hq v) as (Qo & Qn & Qs & Qe & Ql & Qj); rewrite ?Po, ?Pn, ?Ps, ?Pe, ?Pl, ?Pj, ?Qo, ?Qn, ?Qs, ?Qe, ?Ql, ?Qj; try done.
  all: try (by apply IHt); try (destruct v; try done; rewrite IHt by done; done).
  all: try (destruct v as [| | | | | |vs|o]; try rewrite IHt by done; try done; rewrite (map_m_agree _ (fun v => q v t)); [done|]; intros x Hx%depth_in_list; apply IHt; lia).
  - destruct v; try done. cbn [object_depth] in Hd. lia.
  - destruct v as [| | | | | | |o]; try done. destruct (input_object qs r) as [obj| |]; [cbn [mbind outcome_bind]|done..].
    by rewrite (parse_object_agree p q d).
Qed.

(** *** Where a panic can come from *)
Definition scalar_panic (msg : string) : Prop := (exists v s, parse_scalar v s = Panic msg) \/ msg = weak_upgrade \/ msg = unwrap_none.
Lemma map_m_panic {E A B} (f : A -> outcome E B) l msg : map_m f l = Panic msg -> exists x, x ∈ l /\ f x = Panic msg.
Proof.
  induction l as [|x l IH]; [done|]. cbn [map_m]. destruct (f x) as [y| |m] eqn:Ef; cbn [mbind outcome_bind]; [|done|intros [= ->]; exists x; split; [constructor|done]].
  destruct (map_m f l) as [| |m]; [done..|]. intros [= ->]. destruct (IH eq_refl) as (z & Hz & Hf). exists z. split; [by constructor|done].
Qed.
Lemma map_err_panic {E F A} (f : E -> F) (m : outcome E A) msg : map_err f m = Panic msg -> m = Panic msg.
Proof. by destruct m; intros [= ->]. Qed.
Lemma object_panic p o obj msg : parse_input_object p o obj = Panic msg ->
  msg = unwrap_none \/ exists v t, object_depth v < object_depth (QV_Object o) /\ p v t = Panic msg.
Proof.
  intros H%map_err_panic. destruct (map_m (unset_field p obj) _) as [ds| |m] eqn:Ed; cbn [mbind outcome_bind] in H; [|done|injection H as ->].
  - destruct (map_m (given_field p obj) o) as [ts| |m] eqn:Et; cbn [mbind outcome_bind] in H; [done..|]. injection H as ->.
    apply map_m_panic in Et as (x & Hx%depth_in_object & Hg). unfold given_field in Hg. destruct (iot_find_field obj x.1) as [f|]; [|done].
    destruct (parse_input_field p x.2 f) as [| |m] eqn:Ef; [done..|]. injection Hg as ->. apply map_err_panic in Ef. right. by exists x.2, (if_type f).
  - apply map_m_panic in Ed as (n & _ & Hu). unfold unset_field in Hu. destruct (iot_find_field obj n) as [f|]; cbn [unwrap mbind outcome_bind] in Hu; [|left; by injection Hu].
    destruct (if_default_value f) as [dv|]; [|by destruct (if_type f)]. destruct (DefaultValue_get _ _ _ dv) as [pv|]; [|done].
    destruct (parse_input_field p (QueryValue_from pv) f) as [| |m] eqn:Ef; [done..|]. injection Hu as ->. apply map_err_panic in Ef. right.
    exists (QueryValue_from pv), (if_type f). rewrite depth_of_value. split; [cbn; lia|done].
Qed.
Lemma parse_enum_panic v e msg : parse_enum debug_query_value v e <> Panic msg.
Proof.
  unfold parse_enum. destruct v; cbn [mbind outcome_bind]; try done; destruct e as [i|o].
  all: first [destruct (map_input_value i _)|destruct (value_for o _)]; by cbn.
Qed.
Lemma equations_panic d p : source_equations p -> forall v t msg, object_depth v <= d -> p v t = Panic msg -> scalar_panic msg.
Proof.
  intros Hp. induction d as [|d IHd]; intros v t msg; revert v; induction t as [s|e|t IHt|r|t IHt|t IHt]; intros v Hd;
    destruct (Hp v) as (Po & Pn & Ps & Pe & Pl & Pj); rewrite ?Po, ?Pn, ?Ps, ?Pe, ?Pl, ?Pj; try (by apply IHt).
  all: try (intros H; assert (Hs : parse_scalar v s = Panic msg) by (destruct v; try done; destruct (parse_scalar _ s); cbn in H; by simplify_eq); left; by exists v, s).
  all: try (destruct v; try done; by intros H%parse_enum_panic).
  all: try (destruct v; try done; by apply IHt).
  all: try (assert (Hone : (x ← p v t; Ok (ParsedList [x])) = Panic msg -> scalar_panic msg) by (destruct (p v t) eqn:E; cbn; intros H; simplify_eq; by eapply IHt);
    destruct v as [| | | | | |vs|o]; try done; destruct (map_m _ vs) as [| |m] eqn:Em; cbn; try done; intros [= ->];
    apply map_m_panic in Em as (x & Hx%depth_in_list & Hf); apply (IHt x); [lia|done]).
  - destruct v; try done. cbn [object_depth] in Hd. lia.
  - destruct v as [| | | | | | |o]; try done. unfold input_object. destruct (input_object_types qs !! r) as [obj|]; cbn [unwrap mbind outcome_bind]; [|intros [= <-]; right; by left].
    destruct (parse_input_object p o obj) as [| |m] eqn:Eo; cbn; try done. intros [= ->]. apply object_panic in Eo as [-> |(x & t & Hx & Hf)]; [right; by right|].
    apply (IHd x t); [lia|done].
Qed.
(** C33: Parsing a value ends, although input objects of the schema refer to each other. The parser satisfies the equations of the source, in which it calls itself without a bound for list elements and for fields of objects; it is the only function that does, so the recursion determines the result for every value and type; and it panics only where a scalar cannot be read or a type of the schema is gone, never for the depth of the recursion. *)
Theorem parse_value_recursive :
  source_equations parse_value /\
  (forall p, source_equations p -> forall v t, p v t = parse_value v t) /\
  (forall v t msg, parse_value v t = Panic msg -> (exists v s, parse_scalar v s = Panic msg) \/ msg = weak_upgrade \/ msg = unwrap_none).
Proof.
  pose proof parse_value_equations as Heq. split_and!; [done|..].
  - intros p Hp v t. by apply (equations_agree (object_depth v)).
  - intros v t msg. by apply (equations_panic (object_depth v) parse_value Heq).
Qed.
End recursion.

(** ** Parsed values have the type that was asked for *)
Section conforms.
Context `{VT : ValueTypes} {VO : ValueOrd VT} `{IT : Itertools} {JN : JsonNumbers} {DP : DocumentParsers}.
Context (debug_query_value : QueryValue -> string) (qs : QuerySchema).
Definition scalar_conforms (s : SchemaScalar) (v : PrismaValue) : Prop :=
  match s, v with
  | SchemaString, PV_String _ | SchemaInt, PV_Int _ | SchemaFloat, PV_Float _ | SchemaBoolean, PV_Boolean _ | SchemaDateTime, PV_DateTime _
  | SchemaJson, PV_Json _ | SchemaJsonList, PV_List _ | SchemaUUID, PV_Uuid _ => True
  | _, _ => False
  end.
(** A field that has to be given. *)
Definition required (f : InputField) : Prop := if_default_value f = None /\ forall t, if_type f <> InOpt t.
Inductive conforms : InputType -> ParsedInputValue -> Prop :=
| conforms_opt t v : conforms t v -> conforms (InOpt t) v
| conforms_null t : conforms (InNull t) (ParsedSingle PV_Null)
| conforms_not_null t v : conforms t v -> conforms (InNull t) v
| conforms_scalar s v : scalar_conforms s v -> conforms (InScalar s) (ParsedSingle v)
| conforms_enum e s : s ∈ (iev_final_db_name <$> ie_values e) -> conforms (InEnum (EnumInternal e)) (ParsedSingle (PV_Enum s))
| conforms_order e o : o ∈ (obe_values e).*2 -> conforms (InEnum (EnumOrderBy e)) (ParsedOrderBy o)
| conforms_list t l : (forall v, v ∈ l -> conforms t v) -> conforms (InList t) (ParsedList l)
| conforms_object r obj m : input_object_types qs !! r = Some obj -> ordered m ->
    (forall k v, (k, v) ∈ m -> exists f, iot_find_field obj k = Some f /\ conforms (if_type f) v) ->
    (forall k f, iot_find_field obj k = Some f -> required f -> k ∈ m.*1) ->
    conforms (InObject r) (ParsedMap m).
Lemma map_err_Ok {E F A} (f : E -> F) (m : outcome E A) a : map_err f m = Ok a -> m = Ok a.
Proof. by destruct m; intros [= ->]. Qed.
Lemma parse_scalar_conforms v s pv : parse_scalar v s = Ok pv -> v <> QV_Null -> scalar_conforms s pv.
Proof.
  destruct v, s; cbn [parse_scalar]; intros H Hn; try done; try (by injection H as <-).
  all: first [unfold parse_json_list in H|idtac]; repeat match type of H with mbind _ ?m = Ok _ => destruct m; [cbn [mbind outcome_bind] in H|done..] end; by injection H as <-.
Qed.
Lemma parse_enum_conforms v e pv : parse_enum debug_query_value v e = Ok pv -> conforms (InEnum e) pv.
Proof.
  unfold parse_enum. intros H. match type of H with mbind _ ?m = Ok _ => destruct m as [raw| |]; [cbn [mbind outcome_bind] in H|done..] end. destruct e as [i|o].
  - unfold map_input_value in H. destruct (iter_find _ (ie_values i)) as [x|] eqn:Ef; [|done]. injection H as <-. constructor.
    apply find_some in Ef as [Ef _]. apply list_elem_of_fmap_2. by apply list_elem_of_In.
  - unfold value_for in H. destruct (iter_find _ (obe_values o)) as [x|] eqn:Ef; [|done]. injection H as <-. constructor.
    apply find_some in Ef as [Ef _]. apply list_elem_of_fmap_2. by apply list_elem_of_In.
Qed.
Context (HDP : DocumentParsersOk (DP := DP)).
Lemma diff_names_elem l r k : k ∈ diff_names l r <-> k ∈ l /\ k ∉ r.
Proof.
  unfold diff_names, name_set. rewrite list_elem_of_In, filter_In, <-list_elem_of_In, hash_iter_perm by apply NoDup_remove_dups. rewrite elem_of_remove_dups.
  rewrite negb_true_iff, <-not_true_iff_false, existsb_exists. split; intros [Hl Hr]; (split; [done|]).
  - intros Hk. apply Hr. exists k. split; [by apply list_elem_of_In|by apply bool_decide_eq_true].
  - intros (y & Hy & He%bool_decide_eq_true). subst y. apply Hr. by apply list_elem_of_In.
Qed.
Lemma input_field_elem obj k f : iot_find_field obj k = Some f -> if_name f = k /\ k ∈ if_name <$> iot_fields obj.
Proof.
  intros [Hin Hk]%find_some. apply bool_decide_eq_true in Hk. split; [done|]. rewrite <-Hk. apply list_elem_of_fmap_2. by apply list_elem_of_In.
Qed.
Lemma object_conforms p r obj o m : input_object_types qs !! r = Some obj -> (forall v t pv, p v t = Ok pv -> conforms t pv) ->
  parse_input_object p o obj = Ok m -> conforms (InObject r) (ParsedMap m).
Proof.
  intros Hr Hp H. apply map_err_Ok in H. destruct (map_m (unset_field p obj) _) as [defaults| |] eqn:Ed; [cbn [mbind outcome_bind] in H|done..].
  destruct (map_m (given_field p obj) o) as [tuples| |] eqn:Et; [cbn [mbind outcome_bind] in H|done..]. injection H as <-.
  destruct (map_of_spec (tuples ++ omap id defaults)) as (Ho & He & Hk).
  assert (Htup : Forall2 (fun x y => given_field p obj x = Ok y) o tuples) by (by apply map_m_Forall2). apply (conforms_object r obj); [done|done| |].
  - intros k v [Hin|Hin]%He%elem_of_app.
    + apply (map_m_elem _ _ _ _ Et) in Hin as ([k' v'] & _ & Hg). unfold given_field in Hg. cbn [fst snd] in Hg. destruct (iot_find_field obj k') as [f|] eqn:Ef; [|done].
      destruct (parse_input_field p v' f) as [pv| |] eqn:Ep; [|done..]. injection Hg as -> ->. exists f. split; [done|]. by apply map_err_Ok, Hp in Ep.
    + apply list_elem_of_omap in Hin as (d & Hd & Hs). cbn in Hs. subst d. apply (map_m_elem _ _ _ _ Ed) in Hd as (n & _ & Hu). unfold unset_field in Hu.
      destruct (iot_find_field obj n) as [f|] eqn:Ef; [cbn [unwrap mbind outcome_bind] in Hu|done]. destruct (if_default_value f) as [dv|]; [|by destruct (if_type f)].
      destruct (DefaultValue_get _ _ _ dv); [|done]. destruct (parse_input_field p _ f) as [pv| |] eqn:Ep; [|done..]. injection Hu as <- <-. exists f.
      destruct (input_field_elem _ _ _ Ef) as [-> _]. split; [done|]. by apply map_err_Ok, Hp in Ep.
  - intros k f Hf [Hdef Hopt]. apply Hk. rewrite fmap_app, elem_of_app. destruct (decide (k ∈ o.*1)) as [Hko|Hko].
    + left. apply list_elem_of_fmap in Hko as ([k' v] & -> & Hin). cbn [fst]. apply list_elem_of_lookup in Hin as (i & Hi). destruct (Forall2_lookup_l _ _ _ _ _ Htup Hi) as ([k2 pv] & Hi2 & Hg).
      unfold given_field in Hg. cbn [fst snd] in Hg. destruct (iot_find_field obj k'); [|done]. destruct (parse_input_field p v _); [|done..]. injection Hg as -> ->.
      apply list_elem_of_fmap. exists (k2, pv). split; [done|]. by eapply list_elem_of_lookup_2.
    + exfalso. assert (Hd : k ∈ diff_names (if_name <$> iot_fields obj) o.*1) by (apply diff_names_elem; split; [by eapply input_field_elem|done]).
      apply list_elem_of_lookup in Hd as (i & Hi). destruct (Forall2_lookup_l _ _ _ _ _ (map_m_Forall2 _ _ _ Ed) Hi) as (d & _ & Hu).
      unfold unset_field in Hu. rewrite Hf in Hu. cbn [unwrap mbind outcome_bind] in Hu. rewrite Hdef in Hu. destruct (if_type f) as [| | | |t|] eqn:Ety; try done. by destruct (Hopt t).
Qed.
Abbreviation parses := (parse_input_value debug_query_value qs).
Lemma scalar_step fuel v s pv : parses fuel v (InScalar s) = Ok pv -> conforms (InScalar s) pv.
Proof.
  intros H. assert (Hv : v <> QV_Null /\ (x ← parse_scalar v s; Ok (ParsedSingle x)) = Ok pv) by (by destruct fuel, v). destruct Hv as [Hv Hs].
  destruct (parse_scalar v s) as [x| |] eqn:Es; [|done..]. injection Hs as <-. constructor. by eapply parse_scalar_conforms.
Qed.
Lemma enum_step fuel v e pv : parses fuel v (InEnum e) = Ok pv -> conforms (InEnum e) pv.
Proof. intros H. apply (parse_enum_conforms v). by destruct fuel, v. Qed.
Lemma null_step fuel t : (forall v pv, parses fuel v t = Ok pv -> conforms t pv) -> forall v pv, parses fuel v (InNull t) = Ok pv -> conforms (InNull t) pv.
Proof.
  intros IH v pv. rewrite parse_null. intros H. assert (Hv : pv = ParsedSingle PV_Null \/ parses fuel v t = Ok pv) by (destruct v; auto; left; by injection H).
  destruct Hv as [-> |Hv]; [constructor|by eapply conforms_not_null, IH].
Qed.
Lemma list_step fuel t : (forall v pv, parses fuel v t = Ok pv -> conforms t pv) -> forall v pv, parses fuel v (InList t) = Ok pv -> conforms (InList t) pv.
Proof.
  intros IH v pv. rewrite parse_list. intros H.
  assert (Hv : exists vs l, map_m (fun v => parses fuel v t) vs = Ok l /\ pv = ParsedList l).
  { destruct v as [| | | | | |vs|]; try done.
    6: { exists vs. destruct (map_m _ vs) as [l| |]; [|done..]. exists l. by injection H. }
    all: match type of H with mbind _ (parses _ ?v _) = _ => exists [v]; cbn [map_m]; destruct (parses fuel v t) as [x| |]; [|done..]; exists [x]; by injection H end. }
  destruct Hv as (vs & l & Hl & ->). constructor. intros x Hx. apply (map_m_elem _ _ _ _ Hl) in Hx as (y & _ & Hy). by eapply IH.
Qed.
Lemma parse_conforms fuel : forall v t pv, parses fuel v t = Ok pv -> conforms t pv.
Proof.
  induction fuel as [|fuel IH]; intros v t; revert v; (induction t as [s|e|t IHt|r|t IHt|t IHt]; intros v pv;
    [apply scalar_step|apply enum_step|by apply list_step| |rewrite parse_opt; constructor; by eapply IHt|by apply null_step]).
  all: cbn [QueryParser.parse_input_value]; destruct v as [| | | | | | |o]; try done; unfold input_object; destruct (input_object_types qs !! r) as [obj|] eqn:Er; try done.
  cbn [unwrap mbind outcome_bind]. destruct (parse_input_object _ o obj) as [m| |] eqn:Em; [|done..]. intros [= <-]. by eapply object_conforms.
Qed.

(** *** Arguments and selections *)
Record arguments_conform (field : SchemaField) (given : list (string * QueryValue)) (args : list ParsedArgument) : Prop := {
  ac_known : forall g, g ∈ given -> g.1 ∈ sa_name <$> fld_arguments field;
  ac_typed : forall a, a ∈ args -> exists sa, sa ∈ fld_arguments field /\ sa_name sa = pa_name a /\ conforms (sa_type sa) (pa_value a);
  ac_complete : forall sa, sa ∈ fld_arguments field -> (forall t, sa_type sa <> InOpt t) -> sa_name sa ∈ pa_name <$> args;
}.
(** The field of the schema is selected, and below it the fields of its object type. *)
Inductive field_conforms : SchemaField -> Selection -> ParsedField -> Prop :=
| field_scalar field name alias given nested args :
    arguments_conform field given args -> as_object_type (E := QueryParserError) qs (fld_type field) = Ok None ->
    field_conforms field (mkSelection name alias given nested) (mkParsedField name alias args None field)
| field_object field name alias given nested args obj subs :
    arguments_conform field given args -> as_object_type (E := QueryParserError) qs (fld_type field) = Ok (Some obj) -> nested <> [] ->
    Forall2 (fun sel sub => exists f, ot_find_field obj (sel_name sel) = Some f /\ field_conforms f sel sub) nested subs ->
    field_conforms field (mkSelection name alias given nested) (mkParsedField name alias args (Some subs) field).
Lemma collect_results_Ok {E A} (f : A -> outcome QueryParserError E) l r : collect_results (map f l) = Ok r -> Forall2 (fun x y => f x = Ok y) l r.
Proof.
  unfold collect_results. destruct (iter_find _ _) as [[]|] eqn:Ef; try (apply find_some in Ef as [_ Ef]; done); try done.
  intros H%map_m_Forall2. clear Ef. revert r H. induction l as [|x l IH]; intros r H; cbn [map] in H; inversion H; subst; constructor; auto.
Qed.
Lemma parse_arguments_conform field given args : parse_arguments debug_query_value qs field given = Ok args -> arguments_conform field given args.
Proof.
  unfold parse_arguments. destruct (diff_names given.*1 (sa_name <$> fld_arguments field)) eqn:Ed; [|done].
  destruct (collect_results _) as [r| |] eqn:Er; [|done..]. intros [= <-]. apply collect_results_Ok in Er. split.
  - intros g Hg. destruct (decide (g.1 ∈ sa_name <$> fld_arguments field)) as [|Hn]; [done|]. assert (Hin : g.1 ∈ diff_names given.*1 (sa_name <$> fld_arguments field)).
    { apply diff_names_elem. split; [by apply list_elem_of_fmap_2|done]. } rewrite Ed in Hin. by apply elem_of_nil in Hin.
  - intros a (x & Hx & Ha)%list_elem_of_omap. cbn in Ha. subst x. apply list_elem_of_lookup in Hx as (i & Hi). destruct (Forall2_lookup_r _ _ _ _ _ Er Hi) as (sa & Hsa & Hp).
    exists sa. split; [by eapply list_elem_of_lookup_2|]. unfold parse_argument in Hp. destruct (iter_find _ given) as [[k v]|]; [|by destruct (sa_type sa)].
    destruct (parse_value debug_query_value qs v (sa_type sa)) as [pv| |] eqn:Ev; [|done..]. injection Hp as <-. split; [done|]. by eapply parse_conforms.
  - intros sa Hsa Hreq. apply list_elem_of_lookup in Hsa as (i & Hi). destruct (Forall2_lookup_l _ _ _ _ _ Er Hi) as (x & Hx & Hp). unfold parse_argument in Hp.
    assert (exists v, x = Some (mkParsedArgument (sa_name sa) v)) as (v & ->).
    { destruct (iter_find _ given) as [[k v]|]; [|destruct (sa_type sa) as [| | | |t|] eqn:Et; try done; by destruct (Hreq t)].
      destruct (parse_value debug_query_value qs v (sa_type sa)) as [pv| |]; [|done..]. injection Hp as <-. by exists pv. }
    apply list_elem_of_fmap. exists (mkParsedArgument (sa_name sa) v). split; [done|]. apply list_elem_of_omap. exists (Some (mkParsedArgument (sa_name sa) v)). split; [|done]. by eapply list_elem_of_lookup_2.
Qed.
Lemma selection_nested_ind (P : Selection -> Prop) : (forall n a g l, Forall P l -> P (mkSelection n a g l)) -> forall s, P s.
Proof. intros H. fix IH 1. intros [n a g l]. apply H. induction l as [|s l IHl]; constructor; [apply IH|exact IHl]. Qed.
Lemma parse_object_with_conforms (pf : Selection -> SchemaField -> outcome QueryParserError ParsedField) sels obj fields :
  (forall s f r, s ∈ sels -> pf s f = Ok r -> field_conforms f s r) -> parse_object_with pf sels obj = Ok fields ->
  sels <> [] /\ Forall2 (fun sel sub => exists f, ot_find_field obj (sel_name sel) = Some f /\ field_conforms f sel sub) sels fields.
Proof.
  intros Hpf H. unfold parse_object_with in H. destruct sels as [|s0 sels']; [done|]. set (sels := s0 :: sels') in *. split; [done|]. apply map_m_Forall2 in H.
  apply (Forall2_impl_elem _ _ _ _ H). intros s r Hs Hr%map_err_Ok. destruct (ot_find_field obj (sel_name s)) as [f|]; [|done]. exists f. split; [done|]. by apply Hpf.
Qed.
Lemma parse_field_conforms s : forall f r, parse_field debug_query_value qs s f = Ok r -> field_conforms f s r.
Proof.
  induction s as [name alias given nested IH] using selection_nested_ind. intros f r H. cbn [parse_field] in H. apply map_err_Ok in H.
  destruct (parse_arguments _ _ f given) as [args| |] eqn:Ea; [cbn [mbind outcome_bind] in H|done..]. apply parse_arguments_conform in Ea.
  destruct (as_object_type qs (fld_type f)) as [[obj|]| |] eqn:Eo; [cbn [mbind outcome_bind] in H..|done|done].
  - destruct (parse_object_with _ nested obj) as [subs| |] eqn:Es; [|done..]. injection H as <-. apply parse_object_with_conforms in Es as [Hne Hsub].
    + by eapply field_object.
    + rewrite Forall_forall in IH. intros s f' r' Hs. by apply IH.
  - injection H as <-. by apply field_scalar.
Qed.
End conforms.

Section accepted.
Context `{VT : ValueTypes} {VO : ValueOrd VT} `{IT : Itertools} {JN : JsonNumbers} {DP : DocumentParsers}.
Context (debug_query_value : QueryValue -> string) (qs : QuerySchema).
(** C32: What the parser accepts has the types of the schema: a parsed field for every selection and in its order; below an object at least one selected field; only known arguments, the required ones present; every value of the type of its argument, with known fields in their order, the required ones present, lists and scalars as asked for, and enum values of the enum. *)
Theorem parsed_query_conforms sels obj fields : DocumentParsersOk (DP := DP) -> parse_object debug_query_value qs sels obj = Ok fields ->
  sels <> [] /\ Forall2 (fun sel sub => exists f, ot_find_field obj (sel_name sel) = Some f /\ field_conforms qs f sel sub) sels fields.
Proof. intros HDP H. apply (parse_object_with_conforms qs _ _ _ _) in H; [done|]. intros s f r _. by apply parse_field_conforms. Qed.
End accepted.
