(* ===== verification/ResponseFacts.v ===== *)
(** * What a response contains

    The items made from the records of a query: an object per record, with the
    selected fields in their order, grouped by the parent of the record. *)
From stdpp Require Import gmap.
From S2P Require Import Prelude Effects SqlSchema Dml Converter Models Projections Filters ValueOrder QueryAst QueryGraph NestedRead NestedFacts Joining QueryDocument ReadBuilder ResponseIr.

(** ** Maps in the order of insertion *)
Section index_map.
Context {K V : Type} (eqb : K -> K -> bool) (Heq : eqb_ok eqb).
Implicit Types (m : list (K * V)).
Lemma index_insert_new k v m : assoc_find eqb k m = None -> index_insert eqb k v m = m ++ [(k, v)].
Proof. unfold index_insert. by intros ->. Qed.
Lemma assoc_find_app k m m' : assoc_find eqb k (m ++ m') = match assoc_find eqb k m with Some v => Some v | None => assoc_find eqb k m' end.
Proof. induction m as [|[k0 v0] m IH]; [done|]. cbn. by destruct (eqb k0 k). Qed.
Lemma assoc_find_none k m : assoc_find eqb k m = None <-> Forall (fun p => eqb p.1 k = false) m.
Proof.
  induction m as [|[k0 v0] m IH]; cbn [assoc_find]; [by split|]. rewrite Forall_cons. cbn [fst]. destruct (eqb k0 k) eqn:E; [|rewrite <-IH; tauto]. split; [done|]. intros [[=] _].
Qed.
Lemma assoc_find_elem k m v : assoc_find eqb k m = Some v -> exists k', (k', v) ∈ m /\ eqb k' k = true.
Proof.
  induction m as [|[k0 v0] m IH]; [done|]. cbn [assoc_find]. destruct (eqb k0 k) eqn:E; [intros [= ->]; exists k0; split; [constructor|done]|].
  intros (k' & Hin & He)%IH. exists k'. split; [by constructor|done].
Qed.
(** Keys that are pairwise different. *)
Definition distinct_keys {W} (m : list (K * W)) : Prop := ForallOrdPairs (fun a b => eqb a.1 b.1 = false) m.
Lemma distinct_snoc {W} (m : list (K * W)) x : distinct_keys m -> Forall (fun p => eqb p.1 x.1 = false) m -> distinct_keys (m ++ [x]).
Proof.
  unfold distinct_keys. induction 1 as [|a m Ha Hm IH]; intros Hx; cbn; [repeat constructor|]. apply Forall_cons in Hx as [Hax Hx].
  constructor; [|by apply IH]. apply List.Forall_app. split; [done|]. repeat constructor. done.
Qed.
Lemma distinct_fmap {W} (m : list (K * V)) (m' : list (K * W)) : m.*1 = m'.*1 -> distinct_keys m -> distinct_keys m'.
Proof.
  unfold distinct_keys. intros Hk Hm. revert m' Hk. induction Hm as [|a m Ha Hm IH]; intros [|b m'] Hk; try discriminate Hk; [constructor|].
  injection Hk as Hab Hk. constructor; [|by apply IH]. revert m' Hk. clear -Ha Hab. induction Ha as [|x m Hx _ IH]; intros [|y m'] Hk; try discriminate Hk; [constructor|].
  injection Hk as Hxy Hk. constructor; [by rewrite <-Hab, <-Hxy|by apply IH].
Qed.
Lemma update_keys k (f : V -> V) m : (assoc_update eqb k f m).*1 = m.*1.
Proof. induction m as [|[k0 v0] m IH]; [done|]. cbn. destruct (eqb k0 k); cbn; [done|by rewrite IH]. Qed.
Lemma insert_distinct k v m : distinct_keys m -> distinct_keys (index_insert eqb k v m).
Proof.
  intros Hm. unfold index_insert. destruct (assoc_find eqb k m) eqn:E; [by apply (distinct_fmap m); [rewrite update_keys|]|].
  apply distinct_snoc; [done|]. by apply assoc_find_none.
Qed.
Lemma insert_elem k v m x : x ∈ index_insert eqb k v m -> x ∈ m \/ (x.2 = v /\ eqb x.1 k = true).
Proof.
  unfold index_insert. destruct (assoc_find eqb k m) as [w|] eqn:E.
  - clear E. induction m as [|[k0 v0] m IH]; [by intros ?%elem_of_nil|]. cbn [assoc_update]. destruct (eqb k0 k) eqn:E0; rewrite !elem_of_cons; naive_solver.
  - rewrite elem_of_app, list_elem_of_singleton. intros [Hx| ->]; [by left|right]. by destruct Heq.
Qed.
(** Inserting entries with different keys gives these entries. *)
Lemma inserts_distinct l : distinct_keys l -> foldl (fun m p => index_insert eqb p.1 p.2 m) [] l = l.
Proof.
  unfold distinct_keys. induction l as [|x l IH] using rev_ind; [done|]. intros H. rewrite foldl_app. cbn [foldl].
  assert (Hl : ForallOrdPairs (fun a b => eqb a.1 b.1 = false) l /\ Forall (fun p => eqb p.1 x.1 = false) l).
  { clear IH. induction l as [|y l IHl]; [split; constructor|]. cbn in H. inversion H as [|? ? Hy Hr]; subst. apply Forall_app in Hy as [Hy Hyx].
    destruct (IHl Hr) as [H1 H2]. split; constructor; [done..|by inversion Hyx|done]. }
  destruct Hl as [Hl Hx]. rewrite (IH Hl). rewrite index_insert_new by (by apply assoc_find_none). by destruct x.
Qed.
Lemma assoc_find_insert k v m k' : assoc_find eqb k' (index_insert eqb k v m) = if eqb k k' then Some v else assoc_find eqb k' m.
Proof.
  destruct Heq as [Hr Ht]. unfold index_insert. destruct (assoc_find eqb k m) as [w|] eqn:E.
  - revert E. induction m as [|[k0 v0] m IH]; [done|]. cbn [assoc_find assoc_update]. destruct (eqb k0 k) eqn:E0; cbn [assoc_find].
    + intros [= ->]. rewrite (Ht k0 k k' E0). by destruct (eqb k k').
    + intros E. rewrite (IH E). destruct (eqb k0 k') eqn:E1; [|done]. destruct (eqb k k') eqn:E2; [|done].
      rewrite (eqb_ok_sym eqb k k' Heq) in E2. rewrite <-(Ht k0 k' k E1) in E2. congruence.
  - rewrite assoc_find_app. cbn [assoc_find]. destruct (assoc_find eqb k' m) as [w|] eqn:E1; [|done]. destruct (eqb k k') eqn:E2; [|done].
    rewrite (assoc_find_ext eqb Heq k k' m E2) in E. congruence.
Qed.
(** The last value that was inserted under a key is found. *)
Lemma assoc_find_inserts k l : assoc_find eqb k (foldl (fun m p => index_insert eqb p.1 p.2 m) [] l) = snd <$> last (iter_filter (fun p => eqb p.1 k) l).
Proof.
  induction l as [|x l IH] using rev_ind; [done|]. rewrite foldl_app. cbn [foldl]. rewrite assoc_find_insert, List.filter_app. cbn [List.filter]. destruct (eqb x.1 k); [|by rewrite app_nil_r].
  by rewrite last_snoc.
Qed.
End index_map.
Lemma push_distinct {K V} (eqb : K -> K -> bool) k (x : V) m : distinct_keys eqb m -> distinct_keys eqb (assoc_push eqb k x m).
Proof.
  intros Hm. unfold assoc_push. destruct (assoc_find eqb k m) eqn:E; [by apply (distinct_fmap eqb m); [rewrite update_keys|]|].
  apply distinct_snoc; [done|]. by apply assoc_find_none.
Qed.

(** ** The object of a record *)
Lemma string_eqb_ok : eqb_ok String.eqb.
Proof. split; [apply String.eqb_refl|]. by intros a b c ->%String.eqb_eq. Qed.
Section objects.
Context `{VT : ValueTypes} {VO : ValueOrd VT} `{IT : Itertools} {JN : JsonNumbers} {DP : DocumentParsers} {PG : Petgraph}.
Context {ConnectorError : Type} (json_eqb : Json -> Json -> bool).
Context (debug_output : OutputType -> string) (debug_scalar : SchemaScalar -> string) (debug_enum : InternalEnum -> string) (debug_list : list PrismaValue -> string).
Context (idm : InternalDataModel) (qs : QuerySchema).
Abbreviation CResult := (outcome (CoreError (ConnectorError := ConnectorError))).
Abbreviation serialize_scalar := (serialize_scalar (ConnectorError := ConnectorError) debug_output debug_scalar debug_enum debug_list).
Abbreviation write_scalar := (write_scalar (ConnectorError := ConnectorError) debug_output debug_scalar debug_enum debug_list).
Abbreviation default_item := (default_item (ConnectorError := ConnectorError)).
Lemma take_fields_spec fields : forall m obj m' obj', for_each (take_field (ConnectorError := ConnectorError)) fields (m, obj) = Ok (m', obj') ->
  (forall f, f ∈ m.*1 -> obj !! f = None) -> exists l, m' = m ++ l /\ l.*1 = fields /\ forall f i, (f, i) ∈ l -> obj !! f = Some i.
Proof.
  induction fields as [|f fields IH]; intros m obj m' obj' H Hm; cbn [for_each] in H; [injection H as <- <-; exists []; by rewrite app_nil_r; split_and!; [..|intros ? ? ?%elem_of_nil]|].
  unfold take_field at 2 in H. cbn [fst snd] in H. destruct (obj !! f) as [i|] eqn:Ef; [cbn [unwrap mbind outcome_bind] in H|done].
  assert (Hins : map_insert f i m = m ++ [(f, i)]).
  { apply index_insert_new, assoc_find_none, Forall_forall. intros [k v] Hk. apply String.eqb_neq. intros [= ->]. rewrite Hm in Ef; [done|]. by apply (list_elem_of_fmap_2 fst) in Hk. }
  rewrite Hins in H. apply IH in H as (l & -> & Hl & Hobj).
  - exists ((f, i) :: l). split_and!; [by rewrite <-app_assoc|cbn; by rewrite Hl|]. intros f' i' [[= -> ->]|Hin]%elem_of_cons; [done|].
    apply Hobj in Hin. by apply lookup_delete_Some in Hin as [_ Hin].
  - intros f' Hf'. rewrite fmap_app, elem_of_app in Hf'. destruct (decide (f' = f)) as [->|Hne]; [by rewrite lookup_delete_eq|]. rewrite lookup_delete_ne by done.
    destruct Hf' as [Hf'|Hf']; [by apply Hm|]. cbn in Hf'. by apply list_elem_of_singleton in Hf'.
Qed.
Lemma write_scalars_spec typ names : forall values obj0 obj, for_each (write_scalar typ) (zip values names) obj0 = Ok obj -> NoDup names ->
  (forall k, k ∉ names -> obj !! k = obj0 !! k) /\
  forall i n v f item, names !! i = Some n -> values !! i = Some v -> ot_find_field typ n = Some f -> obj !! n = Some item -> obj0 !! n = None -> serialize_scalar v (fld_type f) = Ok item.
Proof.
  induction names as [|n names IH]; intros values obj0 obj; [rewrite zip_with_nil_r|destruct values as [|v values]]; cbn [zip zip_with for_each].
  - intros [= <-] _. split; [done|]. by intros [|i] n v f item.
  - intros [= <-] _. split; [done|]. by intros [|i] n' v f item.
  - intros H Hnd. apply NoDup_cons in Hnd as [Hn Hnd]. destruct (write_scalar typ obj0 (v, n)) as [obj1| |] eqn:E; [cbn [mbind outcome_bind] in H|done..].
    destruct (IH _ _ _ H Hnd) as [Hkeep Hval]. unfold ResponseIr.write_scalar in E. destruct (ot_find_field typ n) as [f0|] eqn:Ef0; [cbn [unwrap mbind outcome_bind] in E|done].
    assert (H1 : forall k, k <> n -> obj1 !! k = obj0 !! k).
    { intros k Hk. destruct (negb (out_is_object (fld_type f0))); [|by injection E as <-]. destruct (serialize_scalar v (fld_type f0)); [|done..]. injection E as <-. by rewrite lookup_insert_ne. }
    split.
    + intros k [Hk1 Hk2]%not_elem_of_cons. by rewrite (Hkeep k Hk2), H1.
    + intros [|i] n' v' f item Hi Hv Hf Ho Ho0; cbn in Hi, Hv.
      * injection Hi as <-. injection Hv as <-. rewrite Hf in Ef0. injection Ef0 as <-. rewrite (Hkeep n Hn) in Ho.
        destruct (negb (out_is_object (fld_type f))); [|injection E as <-; congruence]. destruct (serialize_scalar v (fld_type f)) as [x| |]; [|done..]. injection E as <-.
        rewrite lookup_insert_eq in Ho. by injection Ho as ->.
      * apply (Hval i n' v' f item); [done..|]. rewrite H1; [done|]. intros ->. apply Hn. by eapply list_elem_of_lookup_2.
Qed.
Lemma write_nested_spec rid typ nested : forall obj0 obj, write_nested_items (ConnectorError := ConnectorError) rid nested obj0 typ = Ok obj -> NoDup nested.*1 ->
  (forall k, k ∉ nested.*1 -> obj !! k = obj0 !! k) /\
  forall n inner, (n, inner) ∈ nested -> exists x, obj !! n = Some (ItemRef x) /\
    (assoc_find parent_eqb rid inner = Some (ItemRef x) \/ (assoc_find parent_eqb rid inner = None /\ default_item typ n = Ok x)).
Proof.
  unfold write_nested_items. induction nested as [|[n inner] nested IH]; intros obj0 obj H Hnd; cbn [for_each] in H.
  - injection H as <-. split; [done|]. by intros n inner ?%elem_of_nil.
  - cbn in Hnd. apply NoDup_cons in Hnd as [Hn Hnd]. destruct (write_nested_item rid typ obj0 (n, inner)) as [obj1| |] eqn:E; [cbn [mbind outcome_bind] in H|done..].
    destruct (IH _ _ H Hnd) as [Hkeep Hval].
    assert (H1 : exists x, obj1 = <[n := ItemRef x]> obj0 /\ (assoc_find parent_eqb rid inner = Some (ItemRef x) \/ (assoc_find parent_eqb rid inner = None /\ default_item typ n = Ok x))).
    { unfold write_nested_item in E. destruct (assoc_find parent_eqb rid inner) as [[]|]; try done; [injection E as <-; eexists; split; [done|by left]|].
      destruct (default_item typ n) as [x| |]; [|done..]. injection E as <-. exists x. split; [done|by right]. }
    destruct H1 as (x & -> & Hx). split.
    + intros k Hk. cbn in Hk. apply not_elem_of_cons in Hk as [Hk1 Hk2]. by rewrite (Hkeep k Hk2), lookup_insert_ne.
    + intros n' inner' [[= -> ->]|Hin]%elem_of_cons; [|by apply Hval]. exists x. split; [|done]. by rewrite (Hkeep n Hn), lookup_insert_eq.
Qed.
(** The object of a record: the selected fields in their order, scalars with the value of the record in the field's type, nested fields with the items of this record. *)
Record object_matches (fields db_names names : list string) (model_id : ModelProjection) (nested : NestedMapping) (typ : ObjectType) (r : DbRecord) (m : Map) : Prop := {
  om_fields : m.*1 = fields;
  om_scalars : forall i n v f item, names !! i = Some n -> rec_values r !! i = Some v -> n ∉ nested.*1 -> ot_find_field typ n = Some f -> (n, item) ∈ m -> serialize_scalar v (fld_type f) = Ok item;
  om_nested : forall n inner, (n, inner) ∈ nested -> n ∈ fields -> exists rid x, record_projection idm r db_names model_id = Ok rid /\ (n, ItemRef x) ∈ m /\
    (assoc_find parent_eqb (Some rid) inner = Some (ItemRef x) \/ (assoc_find parent_eqb (Some rid) inner = None /\ default_item typ n = Ok x));
}.
Abbreviation serialize_record := (serialize_record (ConnectorError := ConnectorError) debug_output debug_scalar debug_enum debug_list idm).
Lemma serialize_record_spec fields db_names names model_id nested typ mapping r mapping' : NoDup names -> NoDup nested.*1 ->
  serialize_record fields db_names names model_id nested typ mapping r = Ok mapping' ->
  exists m, object_matches fields db_names names model_id nested typ r m /\ mapping' = assoc_push parent_eqb (parent_id r) (ItemMap m) mapping.
Proof.
  intros Hnames Hnested H. unfold ResponseIr.serialize_record in H. destruct (record_projection idm r db_names model_id) as [rid| |] eqn:Er; [cbn [map_err mbind outcome_bind] in H|done..].
  destruct (for_each (write_scalar typ) _ ∅) as [o1| |] eqn:E1; [cbn [mbind outcome_bind] in H|done..].
  destruct (write_nested_items (Some rid) nested o1 typ) as [o2| |] eqn:E2; [cbn [mbind outcome_bind] in H|done..].
  destruct (for_each take_field fields ([], o2)) as [[m o3]| |] eqn:E3; [cbn [mbind outcome_bind] in H|done..]. injection H as <-. cbn [fst].
  destruct (write_scalars_spec _ _ _ _ _ E1 Hnames) as [K1 S1], (write_nested_spec _ _ _ _ _ E2 Hnested) as [K2 S2].
  destruct (take_fields_spec _ _ _ _ _ E3) as (l & Hl & Hf & Ho); [by intros f ?%elem_of_nil|]. cbn in Hl. subst l. exists m. split; [|done]. split; [done| |].
  - intros i n v f item Hi Hv Hn Hty Hin. apply Ho in Hin. rewrite (K2 n Hn) in Hin. apply (S1 i n v f item); [done..|]. apply lookup_empty.
  - intros n inner Hin Hn. destruct (S2 n inner Hin) as (x & Hx & Hcase). exists rid, x. split_and!; [done| |done]. rewrite <-Hf in Hn.
    apply list_elem_of_fmap in Hn as ([n' i] & -> & Hn). cbn in *. rewrite (Ho _ _ Hn) in Hx. injection Hx as ->. done.
Qed.
Definition field_names_of (model : QueryModel) (scalars : ManyRecords) : list string := omap (fun f => sf_name <$> map_scalar_db_field_name model f) (mr_field_names scalars).
Abbreviation pairs objs rs := (zip (ItemMap <$> objs) (parent_id <$> rs)).
Lemma serialize_records_spec fields db_names names model_id nested typ rs mapping : NoDup names -> NoDup nested.*1 ->
  for_each (serialize_record fields db_names names model_id nested typ) rs [] = Ok mapping ->
  exists objs, Forall2 (object_matches fields db_names names model_id nested typ) rs objs /\
    mapping = foldl (fun m p => assoc_push parent_eqb p.2 p.1 m) [] (pairs objs rs).
Proof.
  intros Hn Hd. generalize (@nil (option RecordProjection * list Item)) as m0. revert mapping. induction rs as [|r rs IH]; intros mapping m0 H; cbn [for_each] in H.
  - injection H as <-. exists []. split; [constructor|done].
  - destruct (serialize_record _ _ _ _ _ _ m0 r) as [m1| |] eqn:E; [cbn [mbind outcome_bind] in H|done..]. apply serialize_record_spec in E as (m & Hm & ->); [|done..].
    apply IH in H as (objs & Ho & ->). exists (m :: objs). split; [by constructor|done].
Qed.
Abbreviation check name is_list opt l := (if is_list : bool then check_list (ConnectorError := ConnectorError) name opt l else check_single json_eqb name opt l).
Lemma check_items_spec name is_list opt mapping items : distinct_keys parent_eqb mapping -> check_items (ConnectorError := ConnectorError) json_eqb name is_list opt mapping = Ok items ->
  Forall2 (fun p q => q.1 = p.1 /\ check name is_list opt p.2 = Ok q.2) mapping items.
Proof.
  unfold check_items. intros Hd H. destruct (map_m _ mapping) as [checked| |] eqn:E; [|done..]. injection H as <-. apply map_m_Forall2 in E.
  assert (HF : Forall2 (fun p q => q.1 = p.1 /\ check name is_list opt p.2 = Ok q.2) mapping checked).
  { eapply Forall2_impl; [exact E|]. intros [p l] [q i] Hq. cbn in Hq. destruct (check name is_list opt l) as [x| |] eqn:Ec; [|done..]. by injection Hq as <- <-. }
  rewrite inserts_distinct; [done|]. apply (distinct_fmap parent_eqb mapping); [|done]. clear -HF. induction HF as [|p q l k [Hpq _] _ IH]; [done|]. cbn. by rewrite Hpq, IH.
Qed.
Lemma find_checked name is_list opt mapping items p : Forall2 (fun p q => q.1 = p.1 /\ check name is_list opt p.2 = Ok q.2) mapping items ->
  match assoc_find parent_eqb p mapping with
  | None => assoc_find parent_eqb p items = None
  | Some l => exists i, check name is_list opt l = Ok i /\ assoc_find parent_eqb p items = Some i
  end.
Proof.
  induction 1 as [|[k l] [k' i] m n [Hk Hc] _ IH]; [done|]. cbn in Hk. subst k'. cbn [assoc_find snd] in *. destruct (parent_eqb k p); [by exists i|exact IH].
Qed.
Abbreviation serialize_internal := (serialize_internal (ConnectorError := ConnectorError) json_eqb debug_output debug_scalar debug_enum debug_list idm qs).
(** The nested items come from the nested results, under the names of their fields. *)
Definition nested_from (typ : ObjectType) (nested : list QueryResult) (mapping : NestedMapping) : Prop :=
  forall n inner, (n, inner) ∈ mapping -> exists rs f, ResultRecordSelection rs ∈ nested /\ rs_name rs = n /\ ot_find_field typ n = Some f /\
    serialize_internal (ResultRecordSelection rs) (fld_type f) false false = Ok inner.
Lemma distinct_names {W} (m : list (string * W)) : distinct_keys String.eqb m -> NoDup m.*1.
Proof.
  unfold distinct_keys. induction 1 as [|a m Ha _ IH]; cbn; constructor; [|done]. intros (b & Hb & Hin)%list_elem_of_fmap. rewrite Forall_forall in Ha.
  specialize (Ha b Hin). apply String.eqb_neq in Ha. done.
Qed.
Lemma selection_spec name fields scalars nested args model_id typ is_list0 opt0 items :
  serialize_internal (ResultRecordSelection (mkRecordSelection name fields scalars nested args model_id)) typ is_list0 opt0 = Ok items ->
  exists obj is_list opt object_type mapping model unchecked,
    selection_type (ConnectorError := ConnectorError) typ is_list0 opt0 = Ok (obj, is_list, opt) /\ output_object_types qs !! obj = Some object_type /\
    nested_from object_type nested mapping /\ NoDup mapping.*1 /\ mp_model (E := CoreError (ConnectorError := ConnectorError)) idm model_id = Ok model /\
    for_each (serialize_record fields (mr_field_names scalars) (field_names_of model scalars) model_id mapping object_type) (records scalars) [] = Ok unchecked /\
    check_items (ConnectorError := ConnectorError) json_eqb name is_list opt unchecked = Ok items.
Proof.
  cbn [ResponseIr.serialize_internal]. destruct (selection_type typ is_list0 opt0) as [[[obj is_list] opt]| |] eqn:Est; [cbn [mbind outcome_bind]|done..].
  unfold output_object. destruct (output_object_types qs !! obj) as [object_type|] eqn:Eobj; [cbn [unwrap mbind outcome_bind]|done].
  match goal with |- (mbind _ (?g nested []) = _) -> _ => set (go := g) end.
  assert (Hgo : forall l acc mapping, go l acc = Ok mapping -> (forall x, x ∈ l -> x ∈ nested) -> nested_from object_type nested acc -> distinct_keys String.eqb acc ->
    nested_from object_type nested mapping /\ distinct_keys String.eqb mapping).
  { induction l as [|x l IH]; intros acc mapping H Hl Ha Hd; cbn in H; [by injection H as <-|]. destruct x as [| |rs| | |]; try (apply (IH acc mapping H); [|done..]; intros; apply Hl; by constructor).
    destruct (ot_find_field object_type (rs_name rs)) as [f|] eqn:Ef; [cbn [unwrap mbind outcome_bind] in H|done].
    destruct (serialize_internal (ResultRecordSelection rs) (fld_type f) false false) as [inner| |] eqn:Ei; [cbn [mbind outcome_bind] in H|done..].
    apply (IH _ _ H); [intros; apply Hl; by constructor| |by apply insert_distinct]. intros n i [Hin|[Hi Hn]]%(insert_elem _ string_eqb_ok); [by apply Ha|].
    cbn in Hi, Hn. apply String.eqb_eq in Hn as ->. subst i. exists rs, f. split_and!; [apply Hl; constructor|done..]. }
  destruct (go nested []) as [mapping| |] eqn:Eg; [cbn [mbind outcome_bind]|done..].
  destruct (Hgo _ _ _ Eg) as [Hfrom Hdist]; [done|by intros n inner ?%elem_of_nil|constructor|]. clear Hgo Eg go.
  unfold serialize_records. destruct (mp_model idm model_id) as [model| |] eqn:Em; [cbn [mbind outcome_bind]|done..].
  match goal with |- (mbind _ ?u = _) -> _ => destruct u as [unchecked| |] eqn:Eu; [cbn [mbind outcome_bind]|done..] end. intros Hc.
  exists obj, is_list, opt, object_type, mapping, model, unchecked. split_and!; try done. by apply distinct_names.
Qed.

(** C34: The items of a selection of records: there is an object for every record, with the selected fields in their order, the values of the record in the types of the schema and the nested items that belong to the record; and the items of every parent are those of its records, as a list in the order of the records or as the one item where no list is asked for. *)
Theorem response_matches_records name fields scalars nested args model_id typ items : ValueTypesOk VT -> ValueOrdOk VT VO -> ValueEqOk VT VO ->
  serialize_internal (ResultRecordSelection (mkRecordSelection name fields scalars nested args model_id)) typ false false = Ok items ->
  exists obj is_list opt object_type mapping model,
    selection_type (ConnectorError := ConnectorError) typ false false = Ok (obj, is_list, opt) /\ output_object_types qs !! obj = Some object_type /\
    nested_from object_type nested mapping /\ mp_model (E := CoreError (ConnectorError := ConnectorError)) idm model_id = Ok model /\
    (NoDup (field_names_of model scalars) -> exists objs,
      Forall2 (object_matches fields (mr_field_names scalars) (field_names_of model scalars) model_id mapping object_type) (records scalars) objs /\
      forall parent,
        match values_for parent_eqb parent (pairs objs (records scalars)) with
        | [] => assoc_find parent_eqb parent items = None
        | l => if is_list then assoc_find parent_eqb parent items = Some (ItemRef (ItemList l)) else exists i, assoc_find parent_eqb parent items = Some (ItemRef i) /\ i ∈ l
        end).
Proof.
  intros HVT HVO HVE H. apply selection_spec in H as (obj & is_list & opt & object_type & mapping & model & unchecked & Ht & Ho & Hn & Hd & Hm & Hu & Hc).
  exists obj, is_list, opt, object_type, mapping, model. split_and!; [done..|]. intros Hnames. apply serialize_records_spec in Hu as (objs & Hobjs & ->); [|done..].
  exists objs. split; [done|]. intros parent. apply check_items_spec in Hc.
  2: { generalize (pairs objs (records scalars)) as l. intros l. assert (Hgen : forall m, distinct_keys parent_eqb m -> distinct_keys parent_eqb (foldl (fun m p => assoc_push parent_eqb p.2 p.1 m) m l)).
    { induction l as [|x l IH]; intros m Hm'; [done|]. cbn. by apply IH, push_distinct. } apply Hgen. constructor. }
  apply (find_checked _ _ _ _ _ parent) in Hc. rewrite assoc_find_pushed in Hc by (apply eqb_ok_option; by apply RecordProjection_eqb_ok).
  destruct (values_for parent_eqb parent _) as [|x l]; [done|]. cbn [non_empty] in Hc. destruct Hc as (i & Hi & Hf). destruct is_list.
  - unfold check_list in Hi. destruct (negb opt && _); [done|]. by injection Hi as <-.
  - unfold check_single in Hi. destruct l as [|y l]; [injection Hi as <-; exists x; split; [done|constructor]|]. destruct (forallb _ _); [|done].
    injection Hi as <-. exists y. split; [done|]. constructor. constructor.
Qed.
End objects.
