(* ===== verification/Compaction.v ===== *)
(** * Batches of findOne queries answered by one query

    Several findOne queries on the same model and key become one findMany query
    on the list of their keys; its result is taken apart again into the answers
    of the single queries. *)
From stdpp Require Import gmap.
From S2P Require Import Prelude Effects SqlSchema Dml Converter Models Projections Filters ValueOrder SqlRead QueryAst QueryGraph NestedRead Interpreter NestedFacts Joining QueryDocument ReadBuilder WriteBuilder WriteQueries QueryParser ResponseIr Executor ResponseFacts.

(** ** Equality of values of a document *)
Section values.
Context `{VT : ValueTypes} {VO : ValueOrd VT}.
Context (HVT : ValueTypesOk VT) (HVO : ValueOrdOk VT VO) (HVE : ValueEqOk VT VO).
Lemma query_value_ind (P : QueryValue -> Prop) : (forall v, (forall l, v = QV_List l -> Forall P l) -> (forall o, v = QV_Object o -> Forall (fun p => P p.2) o) -> P v) -> forall v, P v.
Proof.
  intros H. fix IH 1. intros v. apply H.
  - destruct v; try discriminate. intros l' [= <-]. induction l as [|x l IHl]; constructor; [apply IH|exact IHl].
  - destruct v; try discriminate. intros o' [= <-]. induction o as [|x o IHo]; constructor; [apply IH|exact IHo].
Qed.
Lemma QueryValue_eqb_list l k : QueryValue_eqb (QV_List l) (QV_List k) = list_eqb QueryValue_eqb l k.
Proof. revert k. induction l as [|x l IH]; intros [|y k]; try done. cbn in *. by rewrite IH. Qed.
Definition entry_eqb (a b : string * QueryValue) : bool := (a.1 ≟ b.1) && QueryValue_eqb a.2 b.2.
Lemma QueryValue_eqb_object l k : QueryValue_eqb (QV_Object l) (QV_Object k) = list_eqb entry_eqb l k.
Proof. revert k. induction l as [|[n x] l IH]; intros [|[m y] k]; try done. cbn in *. by rewrite IH. Qed.
Lemma decimal_eqb_ok : eqb_ok decimal_eqb.
Proof.
  split; [by apply HVT|]. intros a b c Hab%HVE. apply eq_true_iff_eq. rewrite !(decimal_eqb_cmp (ValueEqOk := HVE)). destruct (decimal_cmp_ok (ValueOrdOk := HVO)) as (_ & _ & _ & He).
  by rewrite (He a b c Hab).
Qed.
Lemma list_eqb_refl_elem {A} (eqb : A -> A -> bool) l : Forall (fun x => eqb x x = true) l -> list_eqb eqb l l = true.
Proof. induction 1 as [|x l Hx _ IH]; [done|]. cbn. by rewrite Hx. Qed.
Lemma list_eqb_trans_elem {A} (eqb : A -> A -> bool) a b c : Forall (fun x => forall y z, eqb x y = true -> eqb x z = eqb y z) a -> list_eqb eqb a b = true -> list_eqb eqb a c = list_eqb eqb b c.
Proof.
  intros Ha. revert b c. induction Ha as [|x a Hx _ IH]; intros [|y b] [|z c]; try done. cbn. intros [H1 H2]%andb_true_iff. by rewrite (Hx y z H1), (IH b c H2).
Qed.
Lemma QueryValue_eqb_ok : eqb_ok QueryValue_eqb.
Proof.
  split.
  - intros v. induction v as [v Hl Ho] using query_value_ind. destruct v as [z|d|s|b| |s|l|o]; rewrite ?QueryValue_eqb_list, ?QueryValue_eqb_object;
      [apply Z.eqb_refl|apply decimal_eqb_ok|by apply bool_decide_eq_true_2|apply eqb_reflx|done|by apply bool_decide_eq_true_2|by apply list_eqb_refl_elem, Hl|].
    apply list_eqb_refl_elem. eapply Forall_impl; [by apply Ho|]. intros [k x] Hx. unfold entry_eqb. cbn in *. by rewrite bool_decide_eq_true_2, Hx.
  - intros v. induction v as [v Hl Ho] using query_value_ind. intros w u. destruct v, w; try discriminate; rewrite ?QueryValue_eqb_list, ?QueryValue_eqb_object; intros H.
    + apply Z.eqb_eq in H as ->. done.
    + destruct u; try done. by apply decimal_eqb_ok.
    + apply bool_decide_eq_true in H as ->. done.
    + apply eqb_prop in H as ->. done.
    + done.
    + apply bool_decide_eq_true in H as ->. done.
    + destruct u; try done. rewrite !QueryValue_eqb_list. apply list_eqb_trans_elem; [|done]. by apply Hl.
    + destruct u; try done. rewrite !QueryValue_eqb_object. apply list_eqb_trans_elem; [|done]. eapply Forall_impl; [by apply Ho|].
      intros [k x] Hx [k' y] [k'' z]. unfold entry_eqb. cbn in *. intros [->%bool_decide_eq_true Hxy]%andb_true_iff. by rewrite (Hx y z Hxy).
Qed.
End values.

(** ** One key *)
Section compaction.
Context `{VT : ValueTypes} {VO : ValueOrd VT} `{IT : Itertools} {JN : JsonNumbers} {DP : DocumentParsers} {PG : Petgraph}.
Context {ConnectorError : Type}.
Definition is_object (v : QueryValue) : bool := match v with QV_Object _ => true | _ => false end.
(** findOne by one field. *)
Definition find_one (name k : string) (nested : list Selection) (v : QueryValue) : Selection := mkSelection name None [("where", QV_Object [(k, v)])] nested.
Definition by_key (name k : string) (s : Selection) (q : list Selection * QueryValue) : Prop := is_object q.2 = false /\ s = find_one name k q.1 q.2.
Lemma key_entries_single k v : is_object v = false -> key_entries [(k, v)] = [(k, v)].
Proof. by destruct v. Qed.
Lemma collect_keys {E} name k sels qs : Forall2 (by_key name k) sels qs -> forall acc, for_each (add_to_set (E := E)) sels (SetSingle k acc) = Ok (SetSingle k (acc ++ qs.*2)).
Proof.
  induction 1 as [|s [nested v] sels qs [Hv ->] _ IH]; intros acc; cbn [for_each]; [by rewrite app_nil_r|]. cbn [fst snd] in *.
  unfold add_to_set at 2. cbn [find_one sel_arguments head unwrap mbind outcome_bind into_object snd]. rewrite (key_entries_single k v Hv). cbn [foldl fst snd set_push mbind outcome_bind].
  rewrite bool_decide_eq_true_2 by done. rewrite IH, <-app_assoc. done.
Qed.
Lemma response_keys {E} name k sels qs : Forall2 (by_key name k) sels qs -> map_m (response_key (E := E)) sels = Ok ((fun v => [(k, v)]) <$> qs.*2).
Proof.
  induction 1 as [|s [nested v] sels qs [Hv ->] _ IH]; [done|]. cbn [map_m]. rewrite IH. unfold response_key. cbn in *. by destruct v.
Qed.
(** The query for all keys, which also selects the key. *)
Definition find_many (name k : string) (nested : list Selection) (vs : list QueryValue) : Selection :=
  mkSelection (replace_once "findOne" "findMany" name) None [("where", QV_Object [(k +:+ "_in", QV_List vs)])]
    (nested ++ if iter_any (fun x => sel_name x ≟ k) nested then [] else [Selection_builder k]).
Lemma compacted_query {E} name k nested v sels qs : is_object v = false -> Forall2 (by_key name k) sels qs ->
  CompactedDocument_from (E := E) (OpRead <$> find_one name k nested v :: sels) =
  Ok (mkCompactedDocument ((fun v => [(k, v)]) <$> v :: qs.*2) (sel_name <$> nested) (OpRead (find_many name k nested (v :: qs.*2))) [k] (replace_once "findOne" EmptyString name)).
Proof.
  intros Hv HF. unfold CompactedDocument_from.
  assert (Hr : forall l : list Selection, map_m (fun op => unwrap (E := E) "Trying to compact a write operation." (into_read op)) (OpRead <$> l) = Ok l).
  { induction l as [|x l IH]; [done|]. cbn in *. by rewrite IH. }
  assert (Hfirst : add_to_set (E := E) SetEmpty (find_one name k nested v) = Ok (SetSingle k [v])) by (unfold add_to_set; cbn; by destruct v).
  rewrite Hr. cbn [mbind outcome_bind head unwrap for_each]. rewrite Hfirst. cbn [mbind outcome_bind]. rewrite (collect_keys name k sels qs HF). cbn [mbind outcome_bind app].
  rewrite (response_keys name k (find_one name k nested v :: sels) ((nested, v) :: qs)) by (by constructor). cbn [mbind outcome_bind fmap list_fmap head unwrap snd].
  do 3 f_equal; [|by rewrite (key_entries_single k v Hv)]. unfold find_many, with_alias, push_argument, add_keys. cbn [set_keys foldl].
  unfold contains_nested_selection. cbn [with_nested nested_selections Selection_builder sel_name sel_arguments sel_alias in_value].
  unfold find_one. cbn [nested_selections sel_name sel_alias]. destruct (iter_any _ nested); cbn [with_nested push_nested_selection nested_selections sel_name sel_alias sel_arguments Selection_builder app]; by rewrite ?app_nil_r.
Qed.

(** *** Queries that can be compacted *)
Lemma drop_prefix_app p : forall s rest, drop_prefix p s = Some rest -> s = p +:+ rest.
Proof.
  induction p as [|c p IH]; intros s rest; [by destruct s; intros [= <-]|]. destruct s as [|d s]; [done|]. cbn.
  destruct (Ascii.eqb_spec c d) as [->|]; [|done]. intros H. by rewrite (IH s rest H) at 1.
Qed.
Lemma replaced_prefix to name : str_starts_with "findOne" name = true -> exists rest, name = "findOne" +:+ rest /\ replace_once "findOne" to name = to +:+ rest.
Proof.
  unfold str_starts_with. destruct (drop_prefix "findOne" name) as [rest|] eqn:Ed; [|done]. intros _. exists rest. split; [by apply drop_prefix_app|].
  destruct name; [done|]. cbn [replace_once]. by rewrite Ed.
Qed.
Lemma selection_eqb_name a b : Selection_eqb a b = true -> sel_name a = sel_name b.
Proof. destruct a, b. unfold Selection_eqb. cbn. intros H. repeat (apply andb_true_iff in H as [H _]). by apply bool_decide_eq_true in H. Qed.
(** The names selected by a query are those selected by the first one. *)
Lemma compacted_names name k nested v sels qs : can_compact (BatchMulti (OpRead <$> find_one name k nested v :: sels)) = true -> NoDup (sel_name <$> nested) ->
  Forall2 (by_key name k) sels qs -> Forall (fun q => sel_name <$> q.1 ≡ₚ sel_name <$> nested) qs.
Proof.
  intros Hc Hn HF. cbn [fmap list_fmap can_compact] in Hc. apply andb_true_iff in Hc as [_ Hc]. induction HF as [|s [n w] sels qs [_ ->] _ IH]; [constructor|].
  cbn [fmap list_fmap forallb] in Hc. apply andb_true_iff in Hc as [Hs Hc]. constructor; [|by apply IH]. cbn [fst].
  cbn [op_nested op_selection find_one nested_selections fst snd] in Hs. apply andb_true_iff in Hs as [Hs Hall]. apply andb_true_iff in Hs as [_ Hl%bool_decide_eq_true].
  symmetry. apply submseteq_length_Permutation; [|rewrite !length_fmap; lia]. apply NoDup_submseteq; [done|].
  intros x (f & -> & Hf)%list_elem_of_fmap. apply (forallb_elem _ _ Hall) in Hf. apply existsb_exists in Hf as (g & Hg%list_elem_of_In & He).
  apply list_elem_of_fmap. exists g. split; [by rewrite (selection_eqb_name g f He)|done].
Qed.

(** *** The answers *)
Abbreviation Answer := (PrismaResponse (ConnectorError := ConnectorError)).
(** The object of the result whose field [k] holds a given value. *)
Definition holds (k : string) (v : QueryValue) (m : Map) : bool :=
  match assoc_find String.eqb k m with Some (ItemValue pv) => QueryValue_eqb (QueryValue_from pv) v | _ => false end.
Definition has_key (k : string) (m : Map) : Prop := exists pv, assoc_find String.eqb k m = Some (ItemValue pv).
Definition answer (name : string) (selected : list string) (found : option Map) : Answer :=
  PrismaSingle (insert_data name (match found with Some m => ItemMap (iter_filter (fun e => iter_any (fun n => n ≟ e.1) selected) m) | None => ItemValue PV_Null end) Responses_new).
Context (HVT : ValueTypesOk VT) (HVO : ValueOrdOk VT VO) (HVE : ValueEqOk VT VO).
Lemma index_by_key k objs : Forall (has_key k) objs -> exists l,
  index_by (ConnectorError := ConnectorError) [k] (ItemMap <$> objs) = Ok (foldl (fun m p => index_insert (list_eqb QueryValue_eqb) p.1 p.2 m) [] l) /\
  l.*2 = objs /\ Forall (fun p => exists pv, assoc_find String.eqb k p.2 = Some (ItemValue pv) /\ p.1 = [QueryValue_from pv]) l.
Proof.
  intros Hk. unfold index_by. generalize (@nil (list QueryValue * Map)) as m0. induction Hk as [|m objs (pv & Hpv) _ IH]; intros m0; [by exists []|].
  cbn [fmap list_fmap for_each into_map unwrap mbind outcome_bind].
  assert (Hkey : index_key (ConnectorError := ConnectorError) [k] m = Ok [QueryValue_from pv]) by (unfold index_key; cbn [map_m]; rewrite Hpv; done). rewrite Hkey. cbn [mbind outcome_bind].
  destruct (IH (index_insert (list_eqb QueryValue_eqb) [QueryValue_from pv] m m0)) as (l & Hl & Hobjs & HF). exists (([QueryValue_from pv], m) :: l).
  split_and!; [exact Hl|cbn; by rewrite Hobjs|]. constructor; [by exists pv|done].
Qed.
Lemma found_object k v (l : list (list QueryValue * Map)) : Forall (fun p => exists pv, assoc_find String.eqb k p.2 = Some (ItemValue pv) /\ p.1 = [QueryValue_from pv]) l ->
  assoc_find (list_eqb QueryValue_eqb) [v] (foldl (fun m p => index_insert (list_eqb QueryValue_eqb) p.1 p.2 m) [] l) = last (iter_filter (holds k v) l.*2).
Proof.
  intros HF. rewrite assoc_find_inserts by (by apply eqb_ok_list, QueryValue_eqb_ok). rewrite <-fmap_last. f_equal.
  induction HF as [|[key m] l (pv & Hpv & Hkey) _ IH]; [done|]. cbn [fst snd] in *. subst key. cbn [List.filter fst fmap list_fmap]. unfold holds at 1. cbn [snd]. rewrite Hpv. cbn [list_eqb].
  rewrite andb_true_r. destruct (QueryValue_eqb _ v); cbn; by rewrite <-IH.
Qed.
End compaction.

Section answers.
Context `{VT : ValueTypes} {VO : ValueOrd VT} `{IT : Itertools} {JN : JsonNumbers} {DP : DocumentParsers} {PG : Petgraph}.
Context {ConnectorError : Type}.
(** C35: A batch of findOne queries on one model, each by a value of the same field, that [can_compact] accepts (the same operation and the same selections below, in any order), in which no query has an alias, is compacted into a findMany query for the list of these values, which selects that field as well, and whose result is found under the name the handler looks for. From the objects of that result, each with the field, every query is answered under its own name with the object that holds its value, cut to the names it selects, and with null when there is none. (A first query with an alias makes the handler panic. The names a query selects are assumed distinct.) *)
Theorem compacted_batch_answers name k nested v sels qs objs rest : ValueTypesOk VT -> ValueOrdOk VT VO -> ValueEqOk VT VO ->
  is_object v = false -> Forall2 (by_key name k) sels qs -> NoDup (sel_name <$> nested) ->
  can_compact (BatchMulti (OpRead <$> find_one name k nested v :: sels)) = true -> Forall (has_key k) objs ->
  exists d, compact (E := CoreError (ConnectorError := ConnectorError)) (BatchMulti (OpRead <$> find_one name k nested v :: sels)) = Ok (BatchCompact d) /\
    cd_operation d = OpRead (find_many name k nested (v :: qs.*2)) /\ sel_name (find_many name k nested (v :: qs.*2)) = plural_name d /\
    compacted_answers d (mkResponses ((plural_name d, ItemRef (ItemList (ItemMap <$> objs))) :: rest) []) =
      Ok ((fun q => answer (ConnectorError := ConnectorError) name (sel_name <$> q.1) (last (iter_filter (holds k q.2) objs))) <$> (nested, v) :: qs).
Proof.
  intros HVT HVO HVE Hv HF Hn Hc Hk. eexists. unfold compact. rewrite Hc, (compacted_query name k nested v sels qs Hv HF). cbn [mbind outcome_bind]. split; [done|]. split; [done|].
  assert (Hname : str_starts_with "findOne" name = true) by (cbn [fmap list_fmap can_compact] in Hc; by apply andb_true_iff in Hc as [Hc _]).
  destruct (replaced_prefix EmptyString name Hname) as (r & Hr & Hempty), (replaced_prefix "findMany" name Hname) as (r' & Hr' & Hmany).
  assert (r' = r) as -> by (rewrite Hr in Hr'; by injection Hr'). split.
  { unfold find_many, plural_name. cbn [sel_name cd_name]. by rewrite Hmany, Hempty. }
  assert (Hsingle : forall a b c d, single_name (mkCompactedDocument a b c d (replace_once "findOne" EmptyString name)) = name)
    by (intros; unfold single_name; cbn [cd_name]; rewrite Hempty; symmetry; exact Hr).
  unfold compacted_answers, take_data. cbn [data assoc_find]. rewrite String.eqb_refl.
  cbn [unwrap mbind outcome_bind item_into_list cd_keys cd_arguments cd_nested_selection]. destruct (index_by_key (ConnectorError := ConnectorError) k objs Hk) as (l & Hl & <- & HF').
  rewrite Hl. cbn [mbind outcome_bind]. f_equal. change (v :: qs.*2) with ((nested, v) :: qs).*2. rewrite <-!list_fmap_compose. apply list_fmap_ext. intros i q Hq%list_elem_of_lookup_2.
  unfold compacted_answer, answer. cbn [compose fmap list_fmap snd]. rewrite (found_object HVT HVO HVE k q.2 l HF'). rewrite Hsingle.
  do 2 f_equal. destruct (last _) as [m|]; [|done]. f_equal. apply List.filter_ext. intros e.
  assert (Hp : sel_name <$> q.1 ≡ₚ sel_name <$> nested).
  { pose proof (compacted_names name k nested v sels qs Hc Hn HF) as Hall. rewrite Forall_forall in Hall. apply elem_of_cons in Hq as [->|Hq]; [done|by apply Hall]. }
  apply eq_true_iff_eq. rewrite !iter_any_spec. setoid_rewrite Hp. done.
Qed.
End answers.
