(* ===== verification/ExecSamples.v ===== *)
(** * Operations: examples

    The blog of the nested reads with a small query schema, and a database that
    keeps a log of the writes, with transactions. *)
From stdpp Require Import gmap.
From S2P Require Import Prelude Effects SqlSchema Dml Converter Models Convert Projections Filters ValueOrder SqlRead ReadFacts ReadSamples QueryAst QueryGraph GraphFacts NestedRead Interpreter NestedFacts Joining Related QueryDocument ReadBuilder WriteBuilder WriteQueries QueryParser ResponseIr Executor WriteFacts ParserFacts ResponseFacts Compaction.

#[local] Existing Instance sample_values.
#[local] Existing Instance sample_itertools.
#[export] Instance sample_numbers : JsonNumbers := {| JsonNumber := Z; number_as_i64 z := Some z; number_as_decimal z := Some (z, 0) |}.
#[export] Instance sample_parsers : DocumentParsers := {|
  json_from_str s := Ok (JsonString s);
  json_string_from_str s := Some s;
  datetime_from_str _ s := Err s;
  uuid_parse_str s := Ok s;
  decimal_from_i64 z := (z, 0);
  decimal_to_i64 d := match d.2 with 0 => Some d.1 | _ => None end;
  hash_iter l := reverse l;
  fresh_uuid f := if_name f;
  fresh_cuid f := if_name f;
  present_time := 0%Z;
|}.
#[export] Instance sample_parsers_ok : DocumentParsersOk (DP := sample_parsers).
Proof. split. intros l _. apply reverse_Permutation. Qed.

(** ** The schema *)
Definition int_type : InputType := InScalar SchemaInt.
Definition blog_schema : QuerySchema := mkQuerySchema (OutObject 2) (OutObject 3)
  (list_to_map (imap pair [ mkInputObjectType "UserCreateInput" [mkInputField "id" int_type None; mkInputField "posts" (InOpt (InObject 1)) None];
    mkInputObjectType "PostCreateManyInput" [mkInputField "create" (InOpt (InList (InObject 2))) None];
    mkInputObjectType "PostCreateInput" [mkInputField "id" int_type None];
    mkInputObjectType "UserWhereUniqueInput" [mkInputField "id" (InOpt int_type) None] ]))
  (list_to_map (imap pair [ mkObjectType "User" [mkSchemaField "id" [] (OutScalar SchemaInt) None; mkSchemaField "posts" [] (OutList (OutObject 1)) None] (Some (blog_model "User"));
    mkObjectType "Post" [mkSchemaField "id" [] (OutScalar SchemaInt) None] (Some (blog_model "Post"));
    mkObjectType "Query" [mkSchemaField "findOneUser" [mkSchemaArgument "where" (InObject 3) None] (OutOpt (OutObject 0)) (Some (ModelQueryBuilder (blog_model "User") TagFindOne))] None;
    mkObjectType "Mutation"
      [ mkSchemaField "createOneUser" [mkSchemaArgument "data" (InObject 0) None] (OutObject 0) (Some (ModelQueryBuilder (blog_model "User") TagCreateOne));
        mkSchemaField "deleteOneUser" [mkSchemaArgument "where" (InObject 3) None] (OutOpt (OutObject 0)) (Some (ModelQueryBuilder (blog_model "User") TagDeleteOne)) ] None ]))
  blog_idm.
Definition query_type : ObjectType := default (mkObjectType EmptyString [] None) (output_object_types blog_schema !! 2).
Definition mutation_type : ObjectType := default (mkObjectType EmptyString [] None) (output_object_types blog_schema !! 3).
Definition select (name : string) : Selection := Selection_builder name.
Definition user_by_id (n : Z) (nested : list Selection) : Selection := mkSelection "findOneUser" None [("where", QV_Object [("id", QV_Int n)])] nested.
(** A user is created together with a post. *)
Definition create_blogger : Selection :=
  mkSelection "createOneUser" None
    [("data", QV_Object [("id", QV_Int 1); ("posts", QV_Object [("create", QV_Object [("id", QV_Int 7)])])])] [select "id"].

(** ** Texts *)
Definition show_parsed : ParsedInputValue -> string := fun _ => EmptyString.
Definition show_query_value : QueryValue -> string := fun _ => EmptyString.
Definition show_strings : list string -> string := fun _ => EmptyString.
Definition show_output : OutputType -> string := fun _ => EmptyString.
Definition show_scalar : SchemaScalar -> string := fun _ => EmptyString.
Definition show_enum : InternalEnum -> string := fun _ => EmptyString.
Definition show_node : Node -> string := fun _ => EmptyString.

(** ** Parsing *)
Definition parsed_blogger : list ParsedField := Eval vm_compute in
  match parse_object show_query_value blog_schema [create_blogger] mutation_type with Ok l => l | _ => [] end.
Lemma blogger_parsed : parse_object show_query_value blog_schema [create_blogger] mutation_type = Ok parsed_blogger.
Proof. vm_refl. Qed.
Lemma parsed_query_conforms_witness : [create_blogger] <> [] /\
  Forall2 (fun sel sub => exists f, ot_find_field mutation_type (sel_name sel) = Some f /\ field_conforms blog_schema f sel sub) [create_blogger] parsed_blogger.
Proof. exact (parsed_query_conforms show_query_value blog_schema [create_blogger] mutation_type parsed_blogger sample_parsers_ok blogger_parsed). Defined.

(** ** Building graphs *)
Definition blogger_field : ParsedField := Eval vm_compute in default (mkParsedField EmptyString None [] None (mkSchemaField EmptyString [] (OutScalar SchemaInt) None)) (head parsed_blogger).
Definition blogger_build : outcome BuilderError QueryGraph :=
  builder_build show_parsed show_strings blog_idm PV_Null (fun l => l) (ModelQueryBuilder (blog_model "User") TagCreateOne) blogger_field.
Definition blogger_graph : QueryGraph := match blogger_build with Ok g => g | _ => QueryGraph_new end.
Definition is_ok {E A} (m : outcome E A) : bool := match m with Ok _ => true | _ => false end.
Lemma blogger_builds : is_ok blogger_build = true.
Proof. vm_refl. Qed.
Lemma blogger_graph_built : blogger_build = Ok blogger_graph.
Proof. pose proof blogger_builds as H. unfold blogger_graph. destruct blogger_build; [done|discriminate H..]. Qed.
(** The user, the post and the read of the result; the post depends on the user, and so does the read. *)
Lemma blogger_graph_edges : (raw_edges (graph blogger_graph)).*1 = [(0, 1); (0, 2)].
Proof. vm_refl. Qed.
Lemma built_graph_acyclic_witness : in_range blogger_graph /\ acyclic blogger_graph.
Proof.
  exact (built_graph_acyclic show_parsed show_strings blog_idm PV_Null (fun l => l) (ModelQueryBuilder (blog_model "User") TagCreateOne) blogger_field blogger_graph
    sample_petgraph_ok blogger_graph_built).
Defined.

(** ** Responses *)
Definition no_json (a b : Json) : bool := false.
Definition user_records : ManyRecords := mkManyRecords (Record_new <$> [[PV_Int 1]; [PV_Int 2]]) ["id"].
Definition user_id_projection : ModelProjection := [FieldScalar blog_user_id].
Definition blogger_selection : RecordSelection QueryResult :=
  mkRecordSelection "users" ["id"] user_records [] (page_args None None) user_id_projection.
Abbreviation serialized :=
  (serialize_internal (ConnectorError := string) no_json show_output show_scalar show_enum sample_debug blog_idm blog_schema (ResultRecordSelection blogger_selection) (OutList (OutObject 0)) false false).
Definition user_items : CheckedItemsWithParents :=
  [(None, ItemRef (ItemList [ItemMap [("id", ItemValue (PV_Int 1))]; ItemMap [("id", ItemValue (PV_Int 2))]]))].
Lemma users_serialized : serialized = Ok user_items.
Proof. vm_refl. Qed.
Lemma response_matches_records_witness : exists obj is_list opt object_type mapping model,
  selection_type (ConnectorError := string) (OutList (OutObject 0)) false false = Ok (obj, is_list, opt) /\ output_object_types blog_schema !! obj = Some object_type /\
  nested_from (ConnectorError := string) no_json show_output show_scalar show_enum sample_debug blog_idm blog_schema object_type [] mapping /\
  mp_model (E := CoreError (ConnectorError := string)) blog_idm user_id_projection = Ok model /\
  (NoDup (field_names_of model user_records) -> exists objs,
    Forall2 (object_matches (ConnectorError := string) show_output show_scalar show_enum sample_debug blog_idm ["id"] ["id"] (field_names_of model user_records) user_id_projection mapping object_type)
      (records user_records) objs /\
    forall parent,
      match values_for parent_eqb parent (zip (ItemMap <$> objs) (parent_id <$> records user_records)) with
      | [] => assoc_find parent_eqb parent user_items = None
      | l => if is_list then assoc_find parent_eqb parent user_items = Some (ItemRef (ItemList l)) else exists i, assoc_find parent_eqb parent user_items = Some (ItemRef i) /\ i ∈ l
      end).
Proof.
  exact (response_matches_records no_json show_output show_scalar show_enum sample_debug blog_idm blog_schema "users" ["id"] user_records [] (page_args None None) user_id_projection
    (OutList (OutObject 0)) user_items sample_values_ok sample_order_ok sample_value_eq_ok users_serialized).
Defined.

(** ** Compaction *)
Definition names_of (fields : list string) (n : Z) : Selection := find_one "findOneUser" "id" (select <$> fields) (QV_Int n).
Definition user_object (n : Z) : Map := [("name", ItemValue (PV_String "Ann")); ("id", ItemValue (PV_Int n))].
(** Two queries that select the same in another order. *)
Lemma compacted_batch_answers_witness : exists d,
  compact (E := CoreError (ConnectorError := string)) (BatchMulti (OpRead <$> names_of ["name"; "id"] 1 :: [names_of ["id"; "name"] 3])) = Ok (BatchCompact d) /\
  cd_operation d = OpRead (find_many "findOneUser" "id" (select <$> ["name"; "id"]) [QV_Int 1; QV_Int 3]) /\
  sel_name (find_many "findOneUser" "id" (select <$> ["name"; "id"]) [QV_Int 1; QV_Int 3]) = plural_name d /\
  compacted_answers d (mkResponses ((plural_name d, ItemRef (ItemList (ItemMap <$> [user_object 1; user_object 2]))) :: []) []) =
    Ok ((fun q => answer (ConnectorError := string) "findOneUser" (sel_name <$> q.1) (last (iter_filter (holds "id" q.2) [user_object 1; user_object 2]))) <$>
      [(select <$> ["name"; "id"], QV_Int 1); (select <$> ["id"; "name"], QV_Int 3)]).
Proof.
  apply (compacted_batch_answers (ConnectorError := string) "findOneUser" "id" (select <$> ["name"; "id"]) (QV_Int 1) [names_of ["id"; "name"] 3]
    [(select <$> ["id"; "name"], QV_Int 3)] [user_object 1; user_object 2] [] sample_values_ok sample_order_ok sample_value_eq_ok eq_refl).
  - constructor; [|constructor]. split; reflexivity.
  - apply (bool_decide_unpack (NoDup ["name"; "id"])). vm_compute. exact I.
  - vm_compute. reflexivity.
  - repeat constructor; eexists; reflexivity.
Defined.

(** ** Transactions *)
Record LogDb : Type := mkLogDb { committed : list string; working : option (list string) }.
Definition log_write (entry : string) (db : LogDb) : LogDb :=
  match working db with
  | Some w => mkLogDb (committed db) (Some (w ++ [entry]))
  | None => mkLogDb (committed db ++ [entry]) None
  end.
Definition logged {A} (entry : string) (a : A) : eff LogDb string A := fun db => (Ok a, log_write entry db).
#[export] Instance log_reads : ReadOperations LogDb string := {|
  op_get_single_record _ _ _ := mret (Some (mkSingleRecord (Record_new [PV_Int 1]) ["id"]));
  op_get_many_records _ _ _ := mret (mkManyRecords [] []);
  op_get_related_m2m_record_ids _ _ := mret [];
  op_count_by_model _ _ := mret 0;
|}.
(** No post can be created when there is a post already. *)
Definition log_create (model : QueryModel) (args : WriteArgs) : eff LogDb string RecordProjection := fun db =>
  if (qm_name model ≟ "Post") && iter_any (fun e => e ≟ "Post") (committed db) then (Err "Unique constraint violation", db)
  else logged (qm_name model) [(blog_user_id, PV_Int 1)] db.
#[export] Instance log_writes : WriteOperations (GT := builder_graph_types) LogDb string := {|
  op_create_record := log_create;
  op_update_records m _ _ := logged (qm_name m) [];
  op_delete_records m _ := logged (qm_name m) 1;
  op_connect _ _ _ := logged "connect" tt;
  op_disconnect _ _ _ := logged "disconnect" tt;
  op_execute_raw q _ := logged q 0;
  op_query_raw q _ := logged q JsonNull;
|}.
#[export] Instance log_transactions : TransactionOperations LogDb string := {|
  op_get_connection := mret tt;
  op_start_transaction db := (Ok tt, mkLogDb (committed db) (Some (committed db)));
  op_commit db := match working db with Some w => (Ok tt, mkLogDb w None) | None => (Err "No transaction", db) end;
  op_rollback db := (Ok tt, mkLogDb (committed db) None);
|}.
Definition in_log_tx (db : LogDb) : Prop := working db <> None.
Lemma log_write_kept entry d db : in_log_tx db /\ committed db = d -> in_log_tx (log_write entry db) /\ committed (log_write entry db) = d.
Proof. destruct db as [c [w|]]; intros [Ht Hc]; [split; [discriminate|exact Hc]|by destruct Ht]. Qed.
#[export] Instance log_transactions_ok : TransactionsOk log_reads log_writes log_transactions committed in_log_tx.
Proof.
  split; [done|intros db r db' [= <- <-]; split; [done|discriminate]| | |done].
  - intros d. split; intros; intros db Hdb; try done; try (by apply log_write_kept).
    cbn [op_create_record log_writes]. unfold log_create. destruct (_ && _); [done|]. by apply log_write_kept.
  - intros [c [w|]] r db' _; [|intros [= <- <-]; done]. intros [= <- <-] Hr. by destruct Hr.
Qed.
Definition run_blogger (db : LogDb) : outcome (CoreError (ConnectorError := string)) (Responses (ConnectorError := string)) * LogDb :=
  execute show_parsed show_query_value show_strings show_output show_scalar show_enum sample_debug show_node (fun l => l) 10 no_json (fun n => JsonNum (Z.of_nat n)) PV_Null blog_schema
    false (OpWrite create_blogger) db.
(** The user and the post are stored together, and the user is read back; when the post cannot be created the user is not stored either. *)
Lemma blogger_stored : (run_blogger (mkLogDb [] None)).2 = mkLogDb ["User"; "Post"] None /\
  (r ← (run_blogger (mkLogDb [] None)).1; Ok (data r)) = Ok [("createOneUser", ItemRef (ItemMap [("id", ItemValue (PV_Int 1))]))].
Proof. split; vm_refl. Qed.
Lemma blogger_rejected : (run_blogger (mkLogDb ["Post"] None)).2 = mkLogDb ["Post"] None /\ is_ok (run_blogger (mkLogDb ["Post"] None)).1 = false.
Proof. split; vm_refl. Qed.
Lemma write_atomic_witness : let '(r, db') := run_blogger (mkLogDb ["Post"] None) in
  (exists resp mid, r = Ok resp /\ committed mid = ["Post"] /\ op_commit mid = (Ok tt, db')) \/ ((forall resp, r <> Ok resp) /\ committed db' = ["Post"]).
Proof.
  destruct (run_blogger (mkLogDb ["Post"] None)) as [r db'] eqn:E.
  exact (write_atomic show_parsed show_query_value show_strings show_output show_scalar show_enum sample_debug show_node (fun l => l) 10 no_json (fun n => JsonNum (Z.of_nat n)) PV_Null blog_schema
    committed in_log_tx false create_blogger (mkLogDb ["Post"] None) r db' eq_refl E).
Defined.

(** ** deleteOne without a key *)
Definition delete_nothing : Selection := mkSelection "deleteOneUser" None [("where", QV_Object [])] [select "id"].
Definition deletes_all (n : Node) : bool := match n with NodeQuery (QWrite (WQDeleteRecord _ (Some (mkRecordFilter (FAnd []) None)))) => true | _ => false end.
(** The graph that is built deletes by the conjunction of no conditions, which every record satisfies. *)
Lemma delete_without_key_built :
  (built ← build show_parsed show_query_value show_strings (fun l => l) PV_Null blog_schema (OpWrite delete_nothing);
   Ok (match built.1 with TypeGraph g => iter_any (fun n => default false (deletes_all <$> n)) (raw_nodes (graph g)) | TypeRaw _ _ _ => false end)) = Ok true.
Proof. vm_refl. Qed.
