(* ===== verification/Inflector.v ===== *)
(** * Plurals of names (libs/prisma-inflector/src)

    The names of operations in the legacy schema use the plural of a model's
    name. Rules are tried in their order: a word list with an ending to replace,
    or a regular expression. *)
From Stdlib Require Import Ascii.
From S2P Require Import Prelude Ast DmValues QueryDocument ReadBuilder.

(** ** Words (categories.rs, exceptions.rs) *)
Definition CATEGORY_EX_ICES : list string :=
  ["codex"; "murex"; "silex"].
Definition CATEGORY_IX_ICES : list string :=
  ["radix"; "helix"].
Definition CATEGORY_UM_A : list string :=
  ["bacterium"; "agendum"; "desideratum"; "erratum"; "stratum"; "datum"; "ovum"; "extremum"; "candelabrum"].
Definition CATEGORY_US_I : list string :=
  ["alumnus"; "alveolus"; "bacillus"; "bronchus"; "locus"; "nucleus"; "stimulus"; "meniscus"; "thesaurus"].
Definition CATEGORY_ON_A : list string :=
  ["criterion"; "perihelion"; "aphelion"; "phenomenon"; "prolegomenon"; "noumenon"; "organon"; "asyndeton"; "hyperbaton"].
Definition CATEGORY_A_AE : list string :=
  ["alumna"; "alga"; "vertebra"; "persona"].
Definition CATEGORY_O_OS : list string :=
  ["albino"; "archipelago"; "armadillo"; "commando"; "crescendo"; "fiasco"; "ditto"; "dynamo"; "embryo"; "ghetto"; "guano"; "inferno"; "jumbo"; "lumbago";
   "magneto"; "manifesto"; "medico"; "octavo"; "photo"; "pro"; "quarto"; "canto"; "lingo"; "generalissimo"; "stylo"; "rhino"; "casino"; "auto"; "macro";
   "zero"].
Definition CATEGORY_O_I : list string :=
  ["solo"; "soprano"; "basso"; "alto"; "contralto"; "tempo"; "piano"; "virtuoso"].
Definition CATEGORY_EN_INA : list string :=
  ["stamen"; "foramen"; "lumen"].
Definition CATEGORY_A_ATA : list string :=
  ["anathema"; "enema"; "oedema"; "bema"; "enigma"; "sarcoma"; "carcinoma"; "gumma"; "schema"; "charisma"; "lemma"; "soma"; "diploma"; "lymphoma";
   "stigma"; "dogma"; "magma"; "stoma"; "drama"; "melisma"; "trauma"; "edema"; "miasma"].
Definition CATEGORY_IS_IDES : list string :=
  ["iris"; "clitoris"].
Definition CATEGORY_US_US : list string :=
  ["apparatus"; "impetus"; "prospectus"; "cantus"; "nexus"; "sinus"; "coitus"; "plexus"; "status"; "hiatus"].
Definition CATEGORY_NONE_I : list string :=
  ["afreet"; "afrit"; "efreet"].
Definition CATEGORY_NONE_IM : list string :=
  ["cherub"; "goy"; "seraph"].
Definition CATEGORY_EX_EXES : list string :=
  ["apex"; "latex"; "vertex"; "cortex"; "pontifex"; "vortex"; "index"; "simplex"].
Definition CATEGORY_IX_IXES : list string :=
  ["appendix"].
Definition CATEGORY_S_ES : list string :=
  ["acropolis"; "chaos"; "lens"; "aegis"; "cosmos"; "mantis"; "alias"; "dais"; "marquis"; "asbestos"; "digitalis"; "metropolis"; "atlas"; "epidermis";
   "pathos"; "bathos"; "ethos"; "pelvis"; "bias"; "gas"; "polis"; "caddis"; "glottis"; "rhinoceros"; "cannabis"; "glottis"; "sassafras"; "canvas"; "ibis";
   "trellis"].
Definition CATEGORY_MAN_MANS : list string :=
  ["human"; "Alabaman"; "Bahaman"; "Burman"; "German"; "Hiroshiman"; "Liman"; "Nakayaman"; "Oklahoman"; "Panaman"; "Selman"; "Sonaman"; "Tacoman";
   "Yakiman"; "Yokohaman"; "Yuman"].
Definition UNCOUNTABLE : list string :=
  ["fish"; "ois"; "sheep"; "deer"; "pox"; "itis"; "bison"; "flounder"; "pliers"; "bream"; "gallows"; "proceedings"; "breeches"; "graffiti"; "rabies";
   "britches"; "headquarters"; "salmon"; "carp"; "herpes"; "scissors"; "chassis"; "high-jinks"; "sea-bass"; "clippers"; "homework"; "series"; "cod";
   "innings"; "shears"; "contretemps"; "jackanapes"; "species"; "corps"; "mackerel"; "swine"; "debris"; "measles"; "trout"; "diabetes"; "mews"; "tuna";
   "djinn"; "mumps"; "whiting"; "eland"; "news"; "wildebeest"; "elk"; "pincers"; "sugar"].
Definition STANDARD_IRREGULAR : list (string * string) :=
  [("child", "children"); ("ephemeris", "ephemerides"); ("mongoose", "mongoose"); ("mythos", "mythoi"); ("soliloquy", "soliloquies");
   ("trilby", "trilbys"); ("genus", "genera"); ("quiz", "quizzes")].
Definition IRREGULAR_ANGLICIZED : list (string * string) :=
  [("beef", "beefs"); ("brother", "brothers"); ("cow", "cows"); ("genie", "genies"); ("money", "moneys"); ("octopus", "octopuses"); ("opus", "opuses")].
Definition IRREGULAR_CLASSICAL : list (string * string) :=
  [("beef", "beeves"); ("brother", "brethren"); ("cos", "kine"); ("genie", "genii"); ("money", "monies"); ("octopus", "octopodes"); ("opus", "opera")].
Definition IRREGULAR_SUFFIX_INFLECTIONS : list (string * string) :=
  [("man$", "men"); ("([lm])ouse$", "${1}ice"); ("tooth$", "teeth"); ("goose$", "geese"); ("foot$", "feet"); ("zoon$", "zoa"); ("([csx])is$", "${1}es")].
Definition MODERN_CLASSICAL_INFLECTIONS : list (string * string) :=
  [("trix$", "trices"); ("eau$", "eaux"); ("ieu$", "ieux"); ("(..[iay])nx$", "${1}nges")].
Definition ADDITIONAL_SUFFIX_INFLECTIONS : list (string * string) :=
  [("([cs])h$", "${1}hes"); ("ss$", "sses"); ("([aeo]l)f$", "${1}ves"); ("([^d]ea)f$", "${1}ves"); ("(ar)f$", "${1}ves"); ("([nlw]i)fe$", "${1}ves");
   ("([aeiou])y$", "${1}ys"); ("y$", "ies")].

(** ** Regular expressions and graphemes (the crates regex and
    unicode-segmentation), and [str::to_lowercase] *)
Class Inflections : Type := {
  Regex : Type;
  Regex_new : string -> option Regex;
  (* the first match replaced *)
  regex_replace : Regex -> string -> string -> string;
  graphemes : string -> list string;
  to_lowercase : string -> string;
}.

Section inflector.
Context `{I : Inflections}.

(** ** Rules (rules.rs) *)
Record CategoryRule : Type := mkCategoryRule { cat_singular : string; cat_plural : string; cat_words : list string }.
Record RegexRule : Type := mkRegexRule { re_singular : Regex; re_plural : string }.
Inductive Rule : Type := RuleCategory (c : CategoryRule) | RuleRegex (r : RegexRule).
Definition ends_with (suffix s : string) : bool := match drop_suffix suffix s with Some _ => true | None => false end.
Definition subtract_overflow : string := "attempt to subtract with overflow".
Definition category_pluralize {E} (c : CategoryRule) (s : string) : outcome E (option string) :=
  let normalized := to_lowercase s in
  if iter_any (fun suffix => ends_with suffix normalized) (cat_words c) then
    if negb (ends_with (cat_singular c) normalized) then Panic ("Invariant violation: Invalid inflection rule match: " +:+ cat_singular c +:+ ".")
    else
      let chars := graphemes s in
      if length chars <? String.length (cat_singular c) then Panic subtract_overflow
      else Ok (Some (String.concat EmptyString (take (length chars - String.length (cat_singular c)) chars) +:+ cat_plural c))
  else Ok None.
Definition regex_pluralize (r : RegexRule) (s : string) : option string :=
  let candidate := regex_replace (re_singular r) s (re_plural r) in
  if candidate ≟ s then None else Some candidate.
Definition rule_pluralize {E} (r : Rule) (s : string) : outcome E (option string) :=
  match r with RuleCategory c => category_pluralize c s | RuleRegex r => Ok (regex_pluralize r s) end.

(** ** [Inflector] (inflector.rs, lib.rs) *)
Inductive InflectorMode : Type := Anglicized | Classical.
Definition bad_regex : string := "called `Result::unwrap()` on an `Err` value".
Definition new_regex {E} (pattern plural : string) : outcome E Rule :=
  r ← unwrap bad_regex (Regex_new pattern); Ok (RuleRegex (mkRegexRule r plural)).
Definition category_rule (singular plural : string) (words : list string) : Rule := RuleCategory (mkCategoryRule singular plural words).
Definition regex_rule {E} (p : string * string) : outcome E Rule := new_regex ("(?i)" +:+ p.1) p.2.
(** The words are ASCII: the first byte is the first character. *)
Definition irregular {E} (p : string * string) : outcome E (list Rule) :=
  match p with
  | (String s singular, String q plural) =>
      if Ascii.eqb s q then r ← new_regex ("(?i)(" +:+ String s EmptyString +:+ ")" +:+ singular +:+ "$") ("${1}" +:+ plural); Ok [r]
      else
        r1 ← new_regex (String (ascii_upper s) EmptyString +:+ "(?i)" +:+ singular +:+ "$") (String (ascii_upper q) plural);
        r2 ← new_regex (String (ascii_lower s) EmptyString +:+ "(?i)" +:+ singular +:+ "$") (String (ascii_lower q) plural);
        Ok [r1; r2]
  | _ => Panic "called `Option::unwrap()` on a `None` value"
  end.
Definition irregulars {E} (l : list (string * string)) : outcome E (list Rule) := rs ← map_m irregular l; Ok (mjoin (rs : list (list Rule))).
Definition is_classical (m : InflectorMode) : bool := match m with Classical => true | Anglicized => false end.
Definition Inflector_new {E} (mode : InflectorMode) : outcome E (list Rule) :=
  standard ← irregulars STANDARD_IRREGULAR;
  additional ← irregulars (match mode with Anglicized => IRREGULAR_ANGLICIZED | Classical => IRREGULAR_CLASSICAL end);
  suffixes ← map_m regex_rule IRREGULAR_SUFFIX_INFLECTIONS;
  classical ← (if is_classical mode then
                 modern ← map_m regex_rule MODERN_CLASSICAL_INFLECTIONS;
                 Ok (modern ++
                   [category_rule "en" "ina" CATEGORY_EN_INA; category_rule "a" "ata" CATEGORY_A_ATA; category_rule "is" "ides" CATEGORY_IS_IDES;
                    category_rule EmptyString EmptyString CATEGORY_US_US; category_rule "o" "i" CATEGORY_O_I; category_rule EmptyString "i" CATEGORY_NONE_I;
                    category_rule EmptyString "im" CATEGORY_NONE_IM; category_rule "ex" "ices" CATEGORY_EX_EXES; category_rule "ix" "ices" CATEGORY_IX_IXES])
               else Ok []);
  zx ← regex_rule ("([zx])$", "${1}es");
  us ← regex_rule ("(us)$", "${1}es");
  more_suffixes ← map_m regex_rule ADDITIONAL_SUFFIX_INFLECTIONS;
  vowel_o ← regex_rule ("([aeiou])o$", "${1}os");
  o ← regex_rule ("o$", "oes");
  ulum ← regex_rule ("ulum", "ula");
  s ← regex_rule ("s$", "ses");
  fallback ← regex_rule ("$", "s");
  Ok ([category_rule EmptyString EmptyString UNCOUNTABLE] ++ standard ++ additional ++ [category_rule EmptyString "s" CATEGORY_MAN_MANS] ++ suffixes
      ++ [category_rule "ex" "ices" CATEGORY_EX_ICES; category_rule "ix" "ices" CATEGORY_IX_ICES; category_rule "um" "a" CATEGORY_UM_A;
          category_rule "on" "a" CATEGORY_ON_A; category_rule "a" "ae" CATEGORY_A_AE]
      ++ classical
      ++ [category_rule "us" "i" CATEGORY_US_I; zx; category_rule EmptyString "es" CATEGORY_S_ES; category_rule EmptyString "es" CATEGORY_IS_IDES;
          category_rule EmptyString "es" CATEGORY_US_US; us; category_rule EmptyString "s" CATEGORY_A_ATA]
      ++ more_suffixes
      ++ [category_rule "o" "os" CATEGORY_O_I; category_rule "o" "os" CATEGORY_O_OS; vowel_o; o; ulum; category_rule EmptyString "es" CATEGORY_A_ATA; s; fallback]).
Fixpoint inflector_pluralize {E} (rules : list Rule) (s : string) : outcome E string :=
  match rules with
  | [] => Panic "Invariant violation: Inflector should always fall back to catch-all case -s."
  | rule :: rules =>
      p ← rule_pluralize rule s;
      match p with Some p => Ok p | None => inflector_pluralize rules s end
  end.
(** [prisma_inflector::default().pluralize(..)] *)
Definition pluralize {E} (s : string) : outcome E string := rules ← Inflector_new Anglicized; inflector_pluralize rules s.
End inflector.

(** ** What the theorems rely on

    Patterns made of letters, groups, character classes, the dot, the end of the
    text and the flag for letter case compile; replacing the end of the text
    inserts there; and what ASCII letters are. *)
Inductive PatternState : Type := PatternTop | PatternClass.
Definition is_letter (c : ascii) : bool := in_range "a" "z" c || in_range "A" "Z" c.
(** The number of open groups, and whether a character class is open. *)
Fixpoint valid_pattern (groups : nat) (st : PatternState) (p : string) : bool :=
  match p with
  | EmptyString => match st with PatternTop => groups =? 0 | PatternClass => false end
  | String c p =>
      match st with
      | PatternClass => if Ascii.eqb c "]" then valid_pattern groups PatternTop p else (is_letter c || Ascii.eqb c "^") && valid_pattern groups PatternClass p
      | PatternTop =>
          if Ascii.eqb c "(" then
            match p with
            | String "?"%char (String "i"%char (String ")"%char p)) => valid_pattern groups PatternTop p
            | _ => valid_pattern (S groups) PatternTop p
            end
          else if Ascii.eqb c ")" then (0 <? groups) && valid_pattern (pred groups) PatternTop p
          else if Ascii.eqb c "[" then valid_pattern groups PatternClass p
          else (is_letter c || Ascii.eqb c "." || Ascii.eqb c "$") && valid_pattern groups PatternTop p
      end
  end.
Abbreviation chars := String.list_ascii_of_string.
Definition printable (s : string) : bool := forallb (in_range " " "~") (chars s).
Class InflectionsOk (I : Inflections) : Prop := {
  regex_compiles : forall p, valid_pattern 0 PatternTop p = true -> exists r, Regex_new p = Some r;
  regex_at_end : forall r s, Regex_new "(?i)$" = Some r -> regex_replace r s "s" = s +:+ "s";
  graphemes_printable : forall s, printable s = true -> graphemes s = (fun c => String c EmptyString) <$> chars s;
  lowercase_printable : forall s, printable s = true -> chars (to_lowercase s) = ascii_lower <$> chars s;
}.

(** ** Suffixes *)
Lemma chars_app s t : chars (s +:+ t) = chars s ++ chars t.
Proof. induction s as [|c s IH]; [done|]. exact (f_equal (cons c) IH). Qed.
Lemma chars_length s : length (chars s) = String.length s.
Proof. induction s as [|c s IH]; [done|]. cbn. by rewrite IH. Qed.
Lemma chars_inj s t : chars s = chars t -> s = t.
Proof. revert t. induction s as [|c s IH]; intros [|d t]; try done. cbn. intros [= -> H]. f_equal. by apply IH. Qed.
Lemma chars_rev s : chars (String.rev s) = reverse (chars s).
Proof.
  unfold String.rev. cut (forall t, chars (String.rev_app s t) = reverse (chars s) ++ chars t); [intros H; by rewrite H, app_nil_r|].
  induction s as [|c s IH]; intros t; [done|]. cbn [String.rev_app]. rewrite IH. change (chars (String c s)) with (c :: chars s). rewrite reverse_cons, <-app_assoc. done.
Qed.
Lemma drop_prefix_spec p s r : drop_prefix p s = Some r <-> s = p +:+ r.
Proof.
  revert s. induction p as [|c p IH]; intros s; [split; [by intros [= ->]|by intros ->]|]. destruct s as [|d s]; [split; discriminate|].
  change (drop_prefix (String c p) (String d s)) with (if Ascii.eqb c d then drop_prefix p s else None). change (String c p +:+ r) with (String c (p +:+ r)).
  destruct (Ascii.eqb c d) eqn:E.
  - apply Ascii.eqb_eq in E as ->. rewrite IH. split; [by intros ->|by intros [= ->]].
  - split; [done|]. intros [= -> _]. by rewrite Ascii.eqb_refl in E.
Qed.
Lemma ends_with_spec suffix s : ends_with suffix s = true <-> exists p, s = p +:+ suffix.
Proof.
  unfold ends_with, drop_suffix. destruct (drop_prefix _ _) as [r|] eqn:E; cbn.
  - apply drop_prefix_spec in E. split; [|done]. intros _. exists (String.rev r). apply chars_inj. rewrite chars_app, chars_rev.
    apply (f_equal chars) in E. rewrite chars_app, !chars_rev in E. apply (f_equal reverse) in E. by rewrite reverse_app, !reverse_involutive in E.
  - split; [done|]. intros (p & ->). assert (H : drop_prefix (String.rev suffix) (String.rev (p +:+ suffix)) = Some (String.rev p)); [|congruence].
    apply drop_prefix_spec, chars_inj. by rewrite chars_rev, !chars_app, !chars_rev, reverse_app.
Qed.
Lemma ends_with_trans a b c : ends_with a b = true -> ends_with b c = true -> ends_with a c = true.
Proof. rewrite !ends_with_spec. intros (p & ->) (q & ->). exists (q +:+ p). apply chars_inj. by rewrite !chars_app, app_assoc. Qed.

(** ** The inflector answers *)
Section totality.
Context `{I : Inflections} (HI : InflectionsOk I).
(** Every word of a category ends in the ending that is replaced. *)
Definition rule_ok (r : Rule) : Prop :=
  match r with RuleCategory c => forallb (ends_with (cat_singular c)) (cat_words c) = true | RuleRegex _ => True end.
Lemma rule_answers {E} r s : rule_ok r -> printable s = true -> exists p, rule_pluralize (E := E) r s = Ok p.
Proof.
  intros Hr Hs. destruct r as [c|r]; [|by eexists]. cbn [rule_pluralize]. unfold category_pluralize. destruct (iter_any _ _) eqn:Ew; [|by eexists].
  apply existsb_exists in Ew as (w & Hw & Ew). cbn in Hr. rewrite forallb_forall in Hr. pose proof (ends_with_trans _ _ _ (Hr w Hw) Ew) as He. rewrite He. cbn [negb].
  apply ends_with_spec in He as (p & He). apply (f_equal chars) in He. rewrite chars_app, lowercase_printable in He by done.
  apply (f_equal length) in He. rewrite length_app, length_fmap, !chars_length in He. rewrite graphemes_printable by done. rewrite length_fmap, chars_length.
  destruct (Nat.ltb_spec (String.length s) (String.length (cat_singular c))); [lia|by eexists].
Qed.
Lemma new_regex_ok {E} p q : valid_pattern 0 PatternTop p = true -> exists r, Regex_new p = Some r /\ new_regex (E := E) p q = Ok (RuleRegex (mkRegexRule r q)).
Proof. intros H. destruct (regex_compiles p H) as (r & Hr). exists r. unfold new_regex. by rewrite Hr. Qed.
Lemma regex_rules_ok {E} l : forallb (fun p => valid_pattern 0 PatternTop ("(?i)" +:+ p.1)) l = true -> exists rs, map_m (regex_rule (E := E)) l = Ok rs /\ Forall rule_ok rs.
Proof.
  induction l as [|p l IH]; [by eexists|]. cbn [forallb map_m]. intros [Hp Hl]%andb_true_iff. destruct (IH Hl) as (rs & -> & Hrs).
  unfold regex_rule. destruct (new_regex_ok (E := E) _ p.2 Hp) as (r & _ & ->). eexists. split; [done|]. by constructor.
Qed.
Definition irregular_valid (p : string * string) : bool :=
  match p with
  | (String s singular, String q plural) =>
      valid_pattern 0 PatternTop ("(?i)(" +:+ String s EmptyString +:+ ")" +:+ singular +:+ "$")
      && valid_pattern 0 PatternTop (String (ascii_upper s) EmptyString +:+ "(?i)" +:+ singular +:+ "$")
      && valid_pattern 0 PatternTop (String (ascii_lower s) EmptyString +:+ "(?i)" +:+ singular +:+ "$")
  | _ => false
  end.
Lemma irregulars_ok {E} l : forallb irregular_valid l = true -> exists rs, irregulars (E := E) l = Ok rs /\ Forall rule_ok rs.
Proof.
  unfold irregulars. induction l as [|[[|s singular] [|q plural]] l IH]; try done; [by eexists|]. cbn [forallb map_m]. intros [Hp Hl]%andb_true_iff.
  destruct (IH Hl) as (rs & Hrs & HF). destruct (map_m irregular l) as [rs'| |]; [|done..]. injection Hrs as <-.
  cbn [irregular_valid] in Hp. apply andb_true_iff in Hp as [[H1 H2]%andb_true_iff H3]. unfold irregular. destruct (Ascii.eqb s q).
  - destruct (new_regex_ok (E := E) _ ("${1}" +:+ plural) H1) as (r & _ & ->). eexists. split; [done|]. cbn. by constructor.
  - destruct (new_regex_ok (E := E) _ (String (ascii_upper q) plural) H2) as (r2 & _ & ->). destruct (new_regex_ok (E := E) _ (String (ascii_lower q) plural) H3) as (r3 & _ & ->).
    eexists. split; [done|]. cbn. by repeat constructor.
Qed.
Lemma regex_rule_ok {E} p q : valid_pattern 0 PatternTop ("(?i)" +:+ p) = true -> exists r, Regex_new ("(?i)" +:+ p) = Some r /\ regex_rule (E := E) (p, q) = Ok (RuleRegex (mkRegexRule r q)).
Proof. apply new_regex_ok. Qed.
Ltac with_regex :=
  lazymatch goal with
  | |- exists _ _, mbind _ (regex_rule (E := ?E) (?p, ?q)) = _ /\ _ =>
      let r := fresh "r" in let H := fresh "Hre" in destruct (regex_rule_ok (E := E) p q eq_refl) as (r & H & ->); cbn [mbind outcome_bind]
  end.
Lemma inflector_rules {E} mode : exists rules r, Inflector_new (E := E) mode = Ok rules /\ Forall rule_ok rules /\ RuleRegex (mkRegexRule r "s") ∈ rules /\ Regex_new "(?i)$" = Some r.
Proof.
  unfold Inflector_new. destruct (irregulars_ok (E := E) STANDARD_IRREGULAR eq_refl) as (r1 & -> & H1). cbn [mbind outcome_bind].
  assert (H2 : exists r2, irregulars (E := E) (match mode with Anglicized => IRREGULAR_ANGLICIZED | Classical => IRREGULAR_CLASSICAL end) = Ok r2 /\ Forall rule_ok r2)
    by (apply irregulars_ok; by destruct mode). destruct H2 as (r2 & -> & H2). cbn [mbind outcome_bind].
  destruct (regex_rules_ok (E := E) IRREGULAR_SUFFIX_INFLECTIONS eq_refl) as (r3 & -> & H3). cbn [mbind outcome_bind].
  match goal with |- context [mbind _ (if is_classical mode then ?a else ?b)] =>
    assert (H4 : exists r4, (if is_classical mode then a else b) = Ok r4 /\ Forall rule_ok r4) end.
  { destruct (is_classical mode); [|by eexists]. destruct (regex_rules_ok (E := E) MODERN_CLASSICAL_INFLECTIONS eq_refl) as (r4 & -> & H4).
    eexists. split; [done|]. apply Forall_app. split; [done|]. by repeat constructor. }
  destruct H4 as (r4 & -> & H4). cbn [mbind outcome_bind]. do 2 with_regex.
  destruct (regex_rules_ok (E := E) ADDITIONAL_SUFFIX_INFLECTIONS eq_refl) as (r5 & -> & H5). cbn [mbind outcome_bind]. do 5 with_regex.
  eexists _, _. split_and!; [done| |repeat (apply elem_of_app; right); repeat first [apply list_elem_of_here|apply list_elem_of_further]|eassumption].
  repeat apply Forall_app_2; try done; by repeat constructor.
Qed.
End totality.
Section pluralized.
Context `{I : Inflections}.
(** Every printable name has a plural: no rule fails, and the last one always applies. *)
Theorem pluralize_total {E} s : InflectionsOk I -> printable s = true -> exists p, pluralize (E := E) s = Ok p.
Proof.
  intros HI Hs. unfold pluralize. destruct (inflector_rules HI (E := E) Anglicized) as (rules & r & -> & Hok & Hin & Hr). cbn [mbind outcome_bind].
  induction rules as [|rule rules IH]; [by apply elem_of_nil in Hin|]. apply Forall_cons in Hok as [Hrule Hok]. cbn [inflector_pluralize].
  destruct (rule_answers HI (E := E) rule s Hrule Hs) as (p & Hp). rewrite Hp. cbn [mbind outcome_bind]. destruct p as [p|]; [by eexists|].
  apply elem_of_cons in Hin as [<-|Hin]; [|by apply IH]. exfalso. cbn [rule_pluralize] in Hp. unfold regex_pluralize in Hp. cbn [re_singular re_plural] in Hp.
  rewrite (regex_at_end (InflectionsOk := HI) r s Hr) in Hp. rewrite bool_decide_eq_false_2 in Hp; [done|].
  intros He%(f_equal (length ∘ chars)). cbn [compose] in He. rewrite chars_app, length_app in He. cbn in He. lia.
Qed.
End pluralized.

(** ** A small engine for such patterns *)
Inductive SampleItem : Type :=
| SampleClass (any_case negated : bool) (cs : list ascii)
| SampleAny
| SampleOpen
| SampleClose
| SampleEnd.
Definition sample_in (any_case : bool) (c : ascii) (cs : list ascii) : bool :=
  existsb (fun d => if any_case then Ascii.eqb (ascii_lower c) (ascii_lower d) else Ascii.eqb c d) cs.
(** The flag for letter case, and the characters of an open class. *)
Fixpoint sample_parse (any_case : bool) (cls : option (bool * list ascii)) (p : string) : list SampleItem :=
  match p with
  | EmptyString => []
  | String c p =>
      match cls with
      | Some (negated, cs) =>
          if Ascii.eqb c "]" then SampleClass any_case negated cs :: sample_parse any_case None p
          else if Ascii.eqb c "^" then sample_parse any_case (Some (true, cs)) p
          else sample_parse any_case (Some (negated, c :: cs)) p
      | None =>
          if Ascii.eqb c "(" then
            match p with
            | String "?"%char (String "i"%char (String ")"%char p)) => sample_parse true None p
            | _ => SampleOpen :: sample_parse any_case None p
            end
          else if Ascii.eqb c ")" then SampleClose :: sample_parse any_case None p
          else if Ascii.eqb c "[" then sample_parse any_case (Some (false, [])) p
          else if Ascii.eqb c "." then SampleAny :: sample_parse any_case None p
          else if Ascii.eqb c "$" then SampleEnd :: sample_parse any_case None p
          else SampleClass any_case false [c] :: sample_parse any_case None p
      end
  end.
(** A match at the beginning: what the group holds and what is left. *)
Fixpoint sample_match (items : list SampleItem) (capturing : bool) (group s : list ascii) : option (list ascii * list ascii) :=
  match items, s with
  | [], _ => Some (group, s)
  | SampleOpen :: items, _ => sample_match items true group s
  | SampleClose :: items, _ => sample_match items false group s
  | SampleEnd :: items, [] => sample_match items capturing group []
  | SampleEnd :: _, _ :: _ => None
  | SampleAny :: items, c :: s => sample_match items capturing (if capturing then group ++ [c] else group) s
  | SampleClass any_case negated cs :: items, c :: s =>
      if xorb negated (sample_in any_case c cs) then sample_match items capturing (if capturing then group ++ [c] else group) s else None
  | _, [] => None
  end.
Fixpoint sample_expand (group : list ascii) (replacement : string) : list ascii :=
  match replacement with
  | EmptyString => []
  | String "$"%char (String "{"%char (String "1"%char (String "}"%char r))) => group ++ sample_expand group r
  | String c r => c :: sample_expand group r
  end.
Fixpoint sample_replace (items : list SampleItem) (s : list ascii) (replacement : string) : list ascii :=
  match sample_match items false [] s with
  | Some (group, rest) => sample_expand group replacement ++ rest
  | None => match s with [] => [] | c :: s => c :: sample_replace items s replacement end
  end.
Definition sample_inflections : Inflections := {|
  Regex := list SampleItem;
  Regex_new p := if valid_pattern 0 PatternTop p then Some (sample_parse false None p) else None;
  regex_replace r s replacement := String.string_of_list_ascii (sample_replace r (chars s) replacement);
  graphemes s := (fun c => String c EmptyString) <$> chars s;
  to_lowercase s := String.string_of_list_ascii (ascii_lower <$> chars s);
|}.
Lemma sample_inflections_ok : InflectionsOk sample_inflections.
Proof.
  split; cbn [sample_inflections Regex_new regex_replace graphemes to_lowercase].
  - intros p ->. by eexists.
  - intros r s [= <-]. apply chars_inj. rewrite chars_app, String.list_ascii_of_string_of_list_ascii. induction (chars s) as [|c l IH]; [done|]. exact (f_equal (cons c) IH).
  - done.
  - intros s _. apply String.list_ascii_of_string_of_list_ascii.
Qed.
(** The examples of the crate's tests. *)
Definition example_words : list (string * string) :=
  [("alga", "algae"); ("nova", "novas"); ("dogma", "dogmas"); ("Woman", "Women"); ("church", "churches"); ("quick_chateau", "quick_chateaus"); ("codex", "codices");
   ("index", "indexes"); ("NightWolf", "NightWolves"); ("Milieu", "Milieus"); ("basis", "bases"); ("iris", "irises"); ("phalanx", "phalanxes"); ("tempo", "tempos");
   ("foot", "feet"); ("series", "series"); ("WorldAtlas", "WorldAtlases"); ("wish", "wishes"); ("Bacterium", "Bacteria"); ("medium", "mediums"); ("Genus", "Genera");
   ("stimulus", "stimuli"); ("opus", "opuses"); ("status", "statuses"); ("Box", "Boxes"); ("ferry", "ferries"); ("protozoon", "protozoa"); ("cherub", "cherubs");
   ("human", "humans"); ("sugar", "sugar"); ("virus", "viruses"); ("gastrostomy", "gastrostomies"); ("baculum", "bacula"); ("pancreas", "pancreases")].
Lemma example_plurals : map_m (E := Empty_set) (fun p => pluralize (I := sample_inflections) p.1) example_words = Ok example_words.*2.
Proof. vm_compute. reflexivity. Qed.
(** The rule for mongoose gives the word itself, which counts as no plural; a later rule makes it mongeese. *)
Lemma mongoose_plural : pluralize (E := Empty_set) (I := sample_inflections) "mongoose" = Ok "mongeese".
Proof. vm_compute. reflexivity. Qed.
Lemma pluralize_total_witness : exists p, pluralize (E := Empty_set) (I := sample_inflections) "User" = Ok p.
Proof. apply (pluralize_total (I := sample_inflections) "User" sample_inflections_ok). reflexivity. Defined.
