(* ===== verification/SchemaBuilder.v ===== *)
(** * Building the query schema (query-engine/core/src/schema_builder)

    From the models of the query engine to the operations that a client may ask
    for. Types refer to each other in circles; builders keep what they have made
    in caches and hand out references, so that every type is made once. *)
From Stdlib Require Import Ascii.
From stdpp Require Import gmap.
From S2P Require Import Prelude Effects Ast SqlSchema Dml DmValues Converter Models Projections Filters QueryAst QueryGraph QueryDocument ReadBuilder Inflector.

(** ** Capabilities (schema/capability.rs) *)
Inductive ScalarListsCapability : Type := CapScalarLists | CapEmbeddedScalarLists | CapNonEmbeddedScalarList.
Inductive IdCapability : Type := CapIntId | CapUuidId | CapIdSequence.
Inductive ConnectorCapability : Type :=
| CapScalarListsOf (l : ScalarListsCapability) | CapId (i : IdCapability) | CapEmbeddedTypes | CapJoinRelationsFilter | CapImportExport | CapTransactionalExecution
| CapSupportsExistingDatabases | CapMigrations | CapRawAccess | CapIntrospection | CapJoinRelationLinks | CapMongoJoinRelationLinks | CapRelationLinkList
| CapRelationLinkTable.
#[export] Instance ScalarListsCapability_eq_dec : EqDecision ScalarListsCapability.
Proof. solve_decision. Defined.
#[export] Instance IdCapability_eq_dec : EqDecision IdCapability.
Proof. solve_decision. Defined.
#[export] Instance ConnectorCapability_eq_dec : EqDecision ConnectorCapability.
Proof. solve_decision. Defined.
Definition capability_has (capabilities : list ConnectorCapability) (capability : ConnectorCapability) : bool :=
  match capability with
  | CapScalarListsOf l => iter_any (fun _ => match l with CapEmbeddedScalarLists | CapNonEmbeddedScalarList => true | CapScalarLists => false end) capabilities
  | capability => iter_any (fun c => c ≟ capability) capabilities
  end.

(** ** Names (utils.rs) *)
Definition char_boundary : string := "byte index 1 is not a char boundary".
Definition map_first_char {E} (f : ascii -> ascii) (s : string) : outcome E string :=
  match s with
  | EmptyString => Panic "called `Option::unwrap()` on a `None` value"
  | String c r => if char_width c ≟ 1 then Ok (String (f c) r) else Panic char_boundary
  end.
Definition lower_first {E} : string -> outcome E string := map_first_char ascii_lower.
Definition capitalize {E} : string -> outcome E string := map_first_char ascii_upper.

(** ** Filters of a field (filter_arguments.rs) *)
Record FilterArgument : Type := mkFilterArgument { fa_suffix : string; fa_is_list : bool }.
Definition filter_args (is_list : bool) (suffixes : list string) : list FilterArgument := (fun s => mkFilterArgument s is_list) <$> suffixes.
Definition base_filters : list FilterArgument := filter_args false [EmptyString; "_not"].
Definition inclusion_filters : list FilterArgument := filter_args true ["_in"; "_not_in"].
Definition alphanumeric_filters : list FilterArgument := filter_args false ["_lt"; "_lte"; "_gt"; "_gte"].
Definition string_filters : list FilterArgument :=
  filter_args false ["_contains"; "_not_contains"; "_starts_with"; "_not_starts_with"; "_ends_with"; "_not_ends_with"].
Definition multi_relation_filters : list FilterArgument := filter_args false ["_every"; "_some"; "_none"].
Definition one_relation_filters : list FilterArgument := filter_args false [EmptyString].

Section schema_builder.
Context `{VT : ValueTypes} {VO : ValueOrd VT} `{IT : Itertools} {INF : Inflections}.
Definition get_field_filters (field : ModelField) : list FilterArgument :=
  match field with
  | FieldRelation rf => if rf_is_list rf then multi_relation_filters else one_relation_filters
  | FieldScalar sf =>
      if sf_is_list sf then []
      else match sf_type_identifier sf with
           | TI_UUID | TI_String => base_filters ++ inclusion_filters ++ alphanumeric_filters ++ string_filters
           | TI_Int | TI_Float | TI_DateTime => base_filters ++ inclusion_filters ++ alphanumeric_filters
           | TI_Boolean | TI_Json => base_filters
           | TI_Enum _ => base_filters ++ inclusion_filters
           end
  end.

(** ** Types under construction (cache.rs, schema/query_schema.rs)

    An [Arc] is an index into the types made so far; the fields of a type are a
    cell that is set once. The caches hold the strong references. *)
Record InputCell : Type := mkInputCell { ic_name : string; ic_fields : option (list InputField) }.
Record OutputCell : Type := mkOutputCell { oc_name : string; oc_fields : option (list SchemaField); oc_model : option QueryModel }.
Inductive CacheName : Type := InputCache | FilterCache | ObjectCache.
Record BuilderState : Type := mkBuilderState {
  input_cells : list InputCell;
  output_cells : list OutputCell;
  input_cache : gmap string nat;
  filter_cache : gmap string nat;
  object_cache : gmap string nat;
}.
Definition BuilderState_empty : BuilderState := mkBuilderState [] [] ∅ ∅ ∅.
Definition SM : Type -> Type := eff BuilderState Empty_set.
#[local] Instance SM_ret : MRet SM := eff_ret BuilderState Empty_set.
#[local] Instance SM_bind : MBind SM := eff_bind BuilderState Empty_set.
Definition cache_of (c : CacheName) (s : BuilderState) : gmap string nat :=
  match c with InputCache => input_cache s | FilterCache => filter_cache s | ObjectCache => object_cache s end.
Definition with_cache (c : CacheName) (m : gmap string nat) (s : BuilderState) : BuilderState :=
  match c with
  | InputCache => mkBuilderState (input_cells s) (output_cells s) m (filter_cache s) (object_cache s)
  | FilterCache => mkBuilderState (input_cells s) (output_cells s) (input_cache s) m (object_cache s)
  | ObjectCache => mkBuilderState (input_cells s) (output_cells s) (input_cache s) (filter_cache s) m
  end.
Definition with_inputs (l : list InputCell) (s : BuilderState) : BuilderState := mkBuilderState l (output_cells s) (input_cache s) (filter_cache s) (object_cache s).
Definition with_outputs (l : list OutputCell) (s : BuilderState) : BuilderState := mkBuilderState (input_cells s) l (input_cache s) (filter_cache s) (object_cache s).
Definition get_cached (c : CacheName) (key : string) : SM (option nat) := reads (fun s => cache_of c s !! key).
(** A key is inserted once. *)
Definition cache_insert (c : CacheName) (key : string) (value : nat) : SM unit := fun s =>
  match cache_of c s !! key with
  | Some _ => (Panic ("Invariant violation: Inserted key " +:+ key +:+ " twice, this is a bug and invalidates Weak references."), with_cache c (<[key := value]> (cache_of c s)) s)
  | None => (Ok tt, with_cache c (<[key := value]> (cache_of c s)) s)
  end.
Definition init_input_object_type (name : string) : SM nat := fun s => (Ok (length (input_cells s)), with_inputs (input_cells s ++ [mkInputCell name None]) s).
Definition ObjectType_new (name : string) (model : option QueryModel) : SM nat := fun s =>
  (Ok (length (output_cells s)), with_outputs (output_cells s ++ [mkOutputCell name None model]) s).
Definition cell_unset : string := "called `Option::unwrap()` on a `None` value".
Definition cell_set_twice : string := "called `Result::unwrap()` on an `Err` value".
Definition weak_invalid : string := "Expected weak reference to be valid.".
Definition set_fields (ref : nat) (fields : list InputField) : SM unit := fun s =>
  match input_cells s !! ref with
  | None => (Panic weak_invalid, s)
  | Some (mkInputCell name (Some _)) => (Panic cell_set_twice, s)
  | Some (mkInputCell name None) => (Ok tt, with_inputs (<[ref := mkInputCell name (Some fields)]> (input_cells s)) s)
  end.
Definition set_object_fields (ref : nat) (fields : list SchemaField) : SM unit := fun s =>
  match output_cells s !! ref with
  | None => (Panic weak_invalid, s)
  | Some (mkOutputCell name (Some _) model) => (Panic cell_set_twice, s)
  | Some (mkOutputCell name None model) => (Ok tt, with_outputs (<[ref := mkOutputCell name (Some fields) model]> (output_cells s)) s)
  end.
(** [into_arc().is_empty()] of an input object. *)
Definition input_is_empty (ref : nat) : SM bool := fun s =>
  match input_cells s !! ref with
  | None => (Panic weak_invalid, s)
  | Some (mkInputCell _ None) => (Panic cell_unset, s)
  | Some (mkInputCell _ (Some fields)) => (Ok (match fields with [] => true | _ => false end), s)
  end.
Definition input_object_type (name : string) (fields : list InputField) : SM nat := o ← init_input_object_type name; _ ← set_fields o fields; mret o.
Definition object_type (name : string) (fields : list SchemaField) (model : option QueryModel) : SM nat :=
  o ← ObjectType_new name model; _ ← set_object_fields o fields; mret o.
(** [return_cached!] *)
Definition unless_cached (c : CacheName) (name : string) (build : SM nat) : SM nat :=
  found ← get_cached c name;
  match found with Some t => mret t | None => build end.
(** A type is cached before its fields are computed, which breaks circles. *)
Definition cached_input (c : CacheName) (name : string) (fields : nat -> SM (list InputField)) : SM nat :=
  unless_cached c name
    (input_object ← init_input_object_type name;
     _ ← cache_insert c name input_object;
     fs ← fields input_object;
     _ ← set_fields input_object fs;
     mret input_object).

(** ** Input types of fields (input_type_builder/input_builder_extensions.rs) *)
Definition map_enum_input_type {E} (field : ScalarField) : outcome E InputType :=
  e ← unwrap "A field with TypeIdentifier Enum must always have an enum." (sf_internal_enum field);
  Ok (InEnum (EnumInternal e)).
Definition map_required_input_type {E} (field : ScalarField) : outcome E InputType :=
  typ ← match sf_type_identifier field with
        | TI_String => Ok (InScalar SchemaString)
        | TI_Int => Ok (InScalar SchemaInt)
        | TI_Float => Ok (InScalar SchemaFloat)
        | TI_Boolean => Ok (InScalar SchemaBoolean)
        | TI_UUID => Ok (InScalar SchemaUUID)
        | TI_DateTime => Ok (InScalar SchemaDateTime)
        | TI_Json => Ok (InScalar SchemaJson)
        | TI_Enum _ => map_enum_input_type field
        end;
  let typ := if sf_is_list field then InList typ else typ in
  Ok (if negb (sf_is_required field) then InNull typ else typ).
Definition map_optional_input_type {E} (field : ScalarField) : outcome E InputType := t ← map_required_input_type field; Ok (InOpt t).

Section with_data_model.
Context (idm : InternalDataModel) (capabilities : list ConnectorCapability).

(** ** Filters (filter_type_builder.rs) *)
Definition map_input_field {E} (field : ScalarField) : outcome E (list InputField) :=
  map_m (fun arg =>
    let field_name := sf_name field +:+ fa_suffix arg in
    mapped ← map_required_input_type field;
    Ok (mkInputField field_name
          (if fa_is_list arg && sf_is_required field then InOpt (InList mapped)
           else if fa_is_list arg && negb (sf_is_required field) then InOpt (InNull (InList mapped))
           else InOpt mapped) None)) (get_field_filters (FieldScalar field)).
Definition connective_fields (self : nat) : list InputField :=
  (fun name => mkInputField name (InOpt (InList (InObject self))) None) <$> ["AND"; "OR"; "NOT"].
Definition scalar_filter_fields (model : QueryModel) : SM (list InputField) := lift (fs ← map_m map_input_field (scalar (qm_fields model)); Ok (mjoin (fs : list (list InputField)))).
Definition scalar_filter_object_type (model : QueryModel) : SM nat :=
  cached_input FilterCache (qm_name model +:+ "ScalarWhereInput") (fun self => fields ← scalar_filter_fields model; mret (connective_fields self ++ fields)).
Definition map_relation_filter_input_field (filter_object_type : QueryModel -> SM nat) (field : RelationField) : SM (list InputField) :=
  related ← lift (related_model idm field);
  related_input_type ← filter_object_type related;
  mret ((fun arg =>
    let obj := InObject related_input_type in
    mkInputField (rf_name field +:+ fa_suffix arg) (InOpt (if fa_suffix arg ≟ EmptyString then InNull obj else obj)) None) <$> get_field_filters (FieldRelation field)).
Definition build_filter_object (filter_object_type : QueryModel -> SM nat) (model : QueryModel) : SM nat :=
  cached_input FilterCache (qm_name model +:+ "WhereInput") (fun self =>
    scalar_fields ← scalar_filter_fields model;
    relational_fields ← eff_map (map_relation_filter_input_field filter_object_type) (relation_fields_of (qm_fields model));
    mret (connective_fields self ++ scalar_fields ++ mjoin (relational_fields : list (list InputField)))).
(** The depth of the recursion is bounded by the number of types. *)
Fixpoint filter_object_type_at (fuel : nat) (model : QueryModel) : SM nat :=
  match fuel with
  | O => panic stack_overflow
  | S fuel =>
      if capability_has capabilities CapMongoJoinRelationLinks then panic unimplemented
      else build_filter_object (filter_object_type_at fuel) model
  end.
Definition type_bound : nat := 2 + length (idm_models idm) + length (idm_relation_fields idm).
Definition filter_object_type : QueryModel -> SM nat := filter_object_type_at type_bound.

(** ** Input types, shared parts (input_type_builder/mod.rs) *)
Definition compound_object_name {E} (alias : option string) (from_fields : list ScalarField) : outcome E string :=
  match alias with
  | Some n => capitalize n
  | None => names ← map_m (fun f => capitalize (sf_name f)) from_fields; Ok (String.concat EmptyString names)
  end.
Definition required_input_fields {E} (fields : list ScalarField) : outcome E (list InputField) :=
  map_m (fun field => typ ← map_required_input_type field; Ok (mkInputField (sf_name field) typ None)) fields.
Definition compound_field_unique_object_type (alias : option string) (from_fields : list ScalarField) : SM nat :=
  name ← lift (compound_object_name alias from_fields);
  cached_input InputCache (name +:+ "CompoundUniqueInput") (fun _ => lift (required_input_fields from_fields)).
Definition compound_index_field_name {E} (model : QueryModel) (index : IndexTemplate) : outcome E string :=
  match it_name index with
  | Some n => Ok n
  | None => fields ← mi_fields model index; Ok (String.concat "_" (sf_name <$> (fields : list ScalarField)))
  end.
Definition compound_unique_field (model : QueryModel) (index : IndexTemplate) : SM InputField :=
  fields ← lift (mi_fields model index);
  typ ← compound_field_unique_object_type (it_name index) fields;
  name ← lift (compound_index_field_name model index);
  mret (mkInputField name (InOpt (InObject typ)) None).
Definition compound_id_field (model : QueryModel) : SM (list InputField) :=
  id_fields ← lift (fields_id idm (qm_fields model));
  match (id_fields : option (list ScalarField)) with
  | Some fields =>
      if 1 <? length fields then
        typ ← compound_field_unique_object_type None fields;
        mret [mkInputField (String.concat "_" (sf_name <$> fields)) (InOpt (InObject typ)) None]
      else mret []
  | None => mret []
  end.
Definition where_unique_object_type (model : QueryModel) : SM nat :=
  cached_input InputCache (qm_name model +:+ "WhereUniqueInput") (fun _ =>
    fields ← lift (map_m (fun sf => typ ← map_optional_input_type sf; Ok (mkInputField (sf_name sf) typ None))
                     (iter_filter (unique idm) (scalar (qm_fields model))));
    compound_unique_fields ← eff_map (compound_unique_field model) (unique_indexes model);
    id ← compound_id_field model;
    mret (fields ++ compound_unique_fields ++ id)).
Definition wrap_list_input_object_type (input : nat) (as_list : bool) : InputType := if as_list then InOpt (InList (InObject input)) else InOpt (InObject input).
Definition where_input_field (name : string) (field : RelationField) : SM InputField :=
  related ← lift (related_model idm field);
  input_type ← where_unique_object_type related;
  mret (mkInputField name (wrap_list_input_object_type input_type (rf_is_list field)) None).
Definition nested_connect_input_field (field : RelationField) : SM (option InputField) :=
  related ← lift (related_model idm field);
  if qm_is_embedded related then mret None else f ← where_input_field "connect" field; mret (Some f).
Definition list_input_field (model_name input_object_name : string) (f : ScalarField) : SM InputField :=
  let set_name := model_name +:+ input_object_name +:+ sf_name f +:+ "Input" in
  input_object ← unless_cached InputCache set_name
    (typ ← lift (map_optional_input_type f);
     o ← input_object_type set_name [mkInputField "set" typ None];
     _ ← cache_insert InputCache set_name o;
     mret o);
  mret (mkInputField (sf_name f) (InOpt (InObject input_object)) None).
Definition scalar_input_fields (model_name input_object_name : string) (prefiltered_fields : list ScalarField)
    (field_mapper : ScalarField -> outcome Empty_set InputType) (with_defaults : bool) : SM (list InputField) :=
  non_list_fields ← lift (map_m (fun f => typ ← field_mapper f; Ok (mkInputField (sf_name f) typ (if with_defaults then sf_default_value f else None)))
                            (iter_filter (fun f => negb (sf_is_list f)) prefiltered_fields));
  list_fields ← eff_map (list_input_field model_name input_object_name) (iter_filter sf_is_list prefiltered_fields);
  mret (non_list_fields ++ list_fields).

(** ** Create types (input_type_builder/create_input_type_extension.rs) *)
Definition create_field_type {E} (f : ScalarField) : outcome E InputType :=
  let no_default := match sf_default_value f with None => true | Some _ => false end in
  if sf_is_required f && no_default && (is_created_at idm f || is_updated_at idm f) then map_optional_input_type f
  else if sf_is_required f && no_default then map_required_input_type f
  else map_optional_input_type f.
Definition create_input_name {E} (model : QueryModel) (parent_field : option RelationField) : outcome E string :=
  match parent_field with
  | Some pf => f ← related_field idm pf; n ← capitalize (rf_name f); Ok (qm_name model +:+ "CreateWithout" +:+ n +:+ "Input")
  | None => Ok (qm_name model +:+ "CreateInput")
  end.
(** The field leads back to where we came from. *)
Definition is_opposite_field {E} (parent_field : option RelationField) (rf : RelationField) : outcome E bool :=
  match parent_field with Some pf => f ← related_field idm pf; Ok (rf_name f ≟ rf_name rf) | None => Ok false end.
Definition append_opt {A} (l : list A) (o : option A) : list A := match o with Some a => l ++ [a] | None => l end.
Definition flatten_opt {A} (l : list (option A)) : list A := omap (fun o => o) l.
Section create.
Context (create_input_type : QueryModel -> option RelationField -> SM nat).
Definition nested_create_input_field (field : RelationField) : SM InputField :=
  related ← lift (related_model idm field);
  input_object ← create_input_type related (Some field);
  mret (mkInputField "create" (wrap_list_input_object_type input_object (rf_is_list field)) None).
Definition relation_input_field_create (parent_field : option RelationField) (rf : RelationField) : SM (option InputField) :=
  related_model ← lift (related_model idm rf);
  related_field ← lift (related_field idm rf);
  without_part ← lift (capitalize (rf_name related_field));
  let input_name := qm_name related_model +:+ "Create" +:+ (if rf_is_list rf then "Many" else "One") +:+ "Without" +:+ without_part +:+ "Input" in
  opposite ← lift (is_opposite_field parent_field rf);
  if opposite : bool then mret None
  else
    input_object ← cached_input InputCache input_name (fun _ =>
      create ← nested_create_input_field rf;
      nested_connect ← nested_connect_input_field rf;
      mret (append_opt [create] nested_connect));
    let input_type := InObject input_object in
    mret (Some (mkInputField (rf_name rf) (if rf_is_required rf then input_type else InOpt (InNull input_type)) None)).
Definition relation_input_fields_create (model : QueryModel) (parent_field : option RelationField) : SM (list InputField) :=
  fs ← eff_map (relation_input_field_create parent_field) (relation_fields_of (qm_fields model)); mret (flatten_opt fs).
Definition build_create_input (model : QueryModel) (parent_field : option RelationField) : SM nat :=
  name ← lift (create_input_name model parent_field);
  cached_input InputCache name (fun _ =>
    let scalar_fields := iter_filter (fun f => negb (sf_is_auto_generated_int_id f)) (scalar_writable (qm_fields model)) in
    fields ← scalar_input_fields (qm_name model) "Create" scalar_fields create_field_type true;
    relational_fields ← relation_input_fields_create model parent_field;
    mret (fields ++ relational_fields)).
End create.
Fixpoint create_input_type_at (fuel : nat) (model : QueryModel) (parent_field : option RelationField) : SM nat :=
  match fuel with O => panic stack_overflow | S fuel => build_create_input (create_input_type_at fuel) model parent_field end.
Definition create_input_type : QueryModel -> option RelationField -> SM nat := create_input_type_at type_bound.

(** ** Update types (input_type_builder/update_input_type_extension.rs) *)
Definition scalar_input_fields_for_update (model : QueryModel) : SM (list InputField) :=
  scalar_input_fields (qm_name model) "Update" (scalar_writable (qm_fields model)) map_optional_input_type false.
(** The related model's name and the capitalized name of the field that leads back. *)
Definition without_name {E} (prefix_of : string -> string) (suffix : string) (parent_field : RelationField) : outcome E string :=
  related ← related_model idm parent_field;
  back ← related_field idm parent_field;
  n ← capitalize (rf_name back);
  Ok (prefix_of (qm_name related) +:+ "Without" +:+ n +:+ suffix).
Definition nested_update_many_data (parent_field : RelationField) : SM nat :=
  related ← lift (related_model idm parent_field);
  cached_input InputCache (qm_name related +:+ "UpdateManyDataInput") (fun _ => scalar_input_fields_for_update related).
Definition nested_update_many_input_object (field : RelationField) : SM (option nat) :=
  if rf_is_list field then
    related ← lift (related_model idm field);
    let type_name := qm_name related +:+ "UpdateManyWithWhereNestedInput" in
    found ← get_cached InputCache type_name;
    match found with
    | Some t => mret (Some t)
    | None =>
        data_input_object ← nested_update_many_data field;
        input_object ← init_input_object_type type_name;
        _ ← cache_insert InputCache type_name input_object;
        where_input_object ← scalar_filter_object_type related;
        _ ← set_fields input_object [mkInputField "where" (InObject where_input_object) None; mkInputField "data" (InObject data_input_object) None];
        mret (Some input_object)
    end
  else mret None.
Definition nested_update_many_field (field : RelationField) : SM (option InputField) :=
  o ← nested_update_many_input_object field;
  mret ((fun input_object => mkInputField "updateMany" (InOpt (InList (InObject input_object))) None) <$> o).
Definition nested_delete_many_field (field : RelationField) : SM (option InputField) :=
  if rf_is_list field then
    related ← lift (related_model idm field);
    input_object ← scalar_filter_object_type related;
    mret (Some (mkInputField "deleteMany" (InOpt (InList (InObject input_object))) None))
  else mret None.
Definition nested_set_input_field (field : RelationField) : SM (option InputField) :=
  related ← lift (related_model idm field);
  if qm_is_embedded related then mret None
  else if rf_is_list field then f ← where_input_field "set" field; mret (Some f)
  else mret None.
Definition bool_field (name : string) : InputField := mkInputField name (InOpt (InScalar SchemaBoolean)) None.
Definition nested_disconnect_input_field (field : RelationField) : SM (option InputField) :=
  related ← lift (related_model idm field);
  if qm_is_embedded related then mret None
  else if rf_is_list field then f ← where_input_field "disconnect" field; mret (Some f)
  else if rf_is_required field then mret None
  else mret (Some (bool_field "disconnect")).
Definition nested_delete_input_field (field : RelationField) : SM (option InputField) :=
  if rf_is_list field then f ← where_input_field "delete" field; mret (Some f)
  else if rf_is_required field then mret None
  else mret (Some (bool_field "delete")).
Definition nested_upsert_list_input_object (parent_field : RelationField) (update_object : nat) : SM (option nat) :=
  related ← lift (related_model idm parent_field);
  where_object ← where_unique_object_type related;
  create_object ← create_input_type related (Some parent_field);
  no_where ← input_is_empty where_object;
  no_create ← (if no_where : bool then mret true else input_is_empty create_object);
  if no_create : bool then mret None
  else
    type_name ← lift (without_name (fun m => m +:+ "UpsertWithWhereUnique") "Input" parent_field);
    input_object ← cached_input InputCache type_name (fun _ =>
      mret [mkInputField "where" (InObject where_object) None; mkInputField "update" (InObject update_object) None; mkInputField "create" (InObject create_object) None]);
    mret (Some input_object).
Definition nested_upsert_nonlist_input_object (parent_field : RelationField) (update_object : nat) : SM (option nat) :=
  related ← lift (related_model idm parent_field);
  create_object ← create_input_type related (Some parent_field);
  no_create ← input_is_empty create_object;
  if no_create : bool then mret None
  else
    type_name ← lift (without_name (fun m => m +:+ "Upsert") "Input" parent_field);
    input_object ← cached_input InputCache type_name (fun _ =>
      mret [mkInputField "update" (InObject update_object) None; mkInputField "create" (InObject create_object) None]);
    mret (Some input_object).
Section update.
(** The data of an update of related records, one level further down. *)
Context (nested_update_data : RelationField -> SM nat).
Definition nested_upsert_field (field : RelationField) : SM (option InputField) :=
  nested_update_data_object ← nested_update_data field;
  o ← (if rf_is_list field then nested_upsert_list_input_object field nested_update_data_object
       else nested_upsert_nonlist_input_object field nested_update_data_object);
  mret ((fun input_object => mkInputField "upsert" (wrap_list_input_object_type input_object (rf_is_list field)) None) <$> o).
Definition input_object_type_nested_update (parent_field : RelationField) : SM nat :=
  related ← lift (related_model idm parent_field);
  nested_input_object ← nested_update_data parent_field;
  if rf_is_list parent_field then
    where_input_object ← where_unique_object_type related;
    type_name ← lift (without_name (fun m => m +:+ "UpdateWithWhereUnique") "Input" parent_field);
    cached_input InputCache type_name (fun _ =>
      mret [mkInputField "where" (InObject where_input_object) None; mkInputField "data" (InObject nested_input_object) None])
  else mret nested_input_object.
Definition nested_update_input_field (field : RelationField) : SM InputField :=
  input_object ← input_object_type_nested_update field;
  mret (mkInputField "update" (wrap_list_input_object_type input_object (rf_is_list field)) None).
Definition update_arity (rf : RelationField) : string := if rf_is_list rf then "Many" else if rf_is_required rf then "OneRequired" else "One".
Definition nested_update_operations (rf : RelationField) : SM (list InputField) :=
  create ← nested_create_input_field create_input_type rf;
  connect ← nested_connect_input_field rf;
  set ← nested_set_input_field rf;
  disconnect ← nested_disconnect_input_field rf;
  delete ← nested_delete_input_field rf;
  update ← nested_update_input_field rf;
  update_many ← nested_update_many_field rf;
  delete_many ← nested_delete_many_field rf;
  upsert ← nested_upsert_field rf;
  mret (foldl append_opt [create] [connect; set; disconnect; delete; Some update; update_many; delete_many; upsert]).
Definition relation_input_field_update (parent_field : option RelationField) (rf : RelationField) : SM (option InputField) :=
  input_name ← lift (without_name (fun m => m +:+ "Update" +:+ update_arity rf) "Input" rf);
  opposite ← lift (is_opposite_field parent_field rf);
  if opposite : bool then mret None
  else
    input_object ← cached_input InputCache input_name (fun _ => nested_update_operations rf);
    mret (Some (mkInputField (rf_name rf) (InOpt (InObject input_object)) None)).
Definition relation_input_fields_for_update (model : QueryModel) (parent_field : option RelationField) : SM (list InputField) :=
  fs ← eff_map (relation_input_field_update parent_field) (relation_fields_of (qm_fields model)); mret (flatten_opt fs).
Definition build_update_data (parent_field : RelationField) : SM nat :=
  related ← lift (related_model idm parent_field);
  type_name ← lift (without_name (fun m => m +:+ "Update") "DataInput" parent_field);
  cached_input InputCache type_name (fun _ =>
    fields ← scalar_input_fields_for_update related;
    relational_input_fields ← relation_input_fields_for_update related (Some parent_field);
    mret (fields ++ relational_input_fields)).
End update.
Fixpoint nested_update_data_at (fuel : nat) (parent_field : RelationField) : SM nat :=
  match fuel with O => panic stack_overflow | S fuel => build_update_data (nested_update_data_at fuel) parent_field end.
Definition nested_update_data : RelationField -> SM nat := nested_update_data_at type_bound.
Definition update_input_type (model : QueryModel) : SM nat :=
  cached_input InputCache (qm_name model +:+ "UpdateInput") (fun _ =>
    fields ← scalar_input_fields_for_update model;
    relational_fields ← relation_input_fields_for_update nested_update_data model None;
    mret (fields ++ relational_fields)).
(** The fields come first: this type is in no circle. *)
Definition update_many_input_type (model : QueryModel) : SM nat :=
  let object_name := qm_name model +:+ "UpdateManyMutationInput" in
  unless_cached InputCache object_name
    (input_fields ← scalar_input_fields_for_update model;
     input_object ← input_object_type object_name input_fields;
     _ ← cache_insert InputCache object_name input_object;
     mret input_object).

(** ** Output types (object_type_builder.rs) *)
Definition map_model_object_type (model : QueryModel) : SM nat :=
  o ← get_cached ObjectCache (qm_name model);
  lift (unwrap "Invariant violation: Initialized object type skeleton for each model." o).
Definition where_argument (model : QueryModel) : SM SchemaArgument :=
  where_object ← filter_object_type model; mret (mkSchemaArgument "where" (InOpt (InObject where_object)) None).
Definition SortOrder_to_string (o : SortOrder) : string := match o with Ascending => "ASC" | Descending => "DESC" end.
Definition order_by_values (f : ScalarField) : list (string * OrderBy) :=
  (fun o => (sf_name f +:+ "_" +:+ SortOrder_to_string o, mkOrderBy f o)) <$> [Ascending; Descending].
Definition order_by_argument (model : QueryModel) : SchemaArgument :=
  let enum_values := mjoin (order_by_values <$> iter_filter (fun f => negb (sf_is_list f)) (scalar (qm_fields model))) in
  mkSchemaArgument "orderBy" (InOpt (InEnum (EnumOrderBy (mkOrderByEnumType (qm_name model +:+ "OrderByInput") enum_values)))) None.
Definition int_argument (name : string) : SchemaArgument := mkSchemaArgument name (InOpt (InScalar SchemaInt)) None.
Definition many_records_arguments (model : QueryModel) : SM (list SchemaArgument) :=
  unique_input_type ← where_unique_object_type model;
  where_arg ← where_argument model;
  mret [where_arg; order_by_argument model; mkSchemaArgument "cursor" (InOpt (InObject unique_input_type)) None; int_argument "take"; int_argument "skip"].
Definition many_records_field_arguments (field : ModelField) : SM (list SchemaArgument) :=
  match field with
  | FieldScalar _ => mret []
  | FieldRelation rf =>
      if rf_is_list rf then
        related ← lift (related_model idm rf);
        if qm_is_embedded related then mret [] else many_records_arguments related
      else mret []
  end.
Definition map_enum_field {E} (sf : ScalarField) : outcome E EnumType :=
  match sf_type_identifier sf with
  | TI_Enum _ =>
      e ← unwrap "Invariant violation: Enum fields are expected to have an internal_enum associated with them." (sf_internal_enum sf);
      Ok (EnumInternal e)
  | _ => Panic "Invariant violation: map_enum_field can only be called on scalar enum fields."
  end.
Definition map_scalar_output {E} (sf : ScalarField) : outcome E OutputType :=
  match sf_type_identifier sf with
  | TI_String => Ok (OutScalar SchemaString)
  | TI_Float => Ok (OutScalar SchemaFloat)
  | TI_Boolean => Ok (OutScalar SchemaBoolean)
  | TI_Enum _ => e ← map_enum_field sf; Ok (OutEnum e)
  | TI_Json => Ok (OutScalar SchemaJson)
  | TI_DateTime => Ok (OutScalar SchemaDateTime)
  | TI_UUID => Ok (OutScalar SchemaUUID)
  | TI_Int => Ok (OutScalar SchemaInt)
  end.
Definition map_output_type (model_field : ModelField) : SM OutputType :=
  output_type ← match model_field with
    | FieldRelation rf =>
        related ← lift (related_model idm rf);
        o ← map_model_object_type related;
        mret (if rf_is_list rf then OutList (OutObject o) else OutObject o)
    | FieldScalar sf => lift (map_scalar_output sf)
    end;
  mret (if is_scalar model_field && mf_is_list model_field then OutList output_type
        else if negb (mf_is_required model_field) then OutOpt output_type
        else output_type).
Definition map_field (model_field : ModelField) : SM SchemaField :=
  arguments ← many_records_field_arguments model_field;
  output_type ← map_output_type model_field;
  mret (mkSchemaField (mf_name model_field) arguments output_type None).
(** The builder is made with relations. *)
Definition compute_fields (model : QueryModel) : SM (list SchemaField) := eff_map map_field (all (qm_fields model)).
Definition compute_model_object_types : SM unit :=
  _ ← eff_for (fun m => o ← ObjectType_new (qm_name m) (Some m); cache_insert ObjectCache (qm_name m) o) (idm_models idm);
  eff_for (fun m => obj ← map_model_object_type m; fields ← compute_fields m; set_object_fields obj fields) (idm_models idm).
Definition count_field (arguments : list SchemaArgument) : SchemaField := mkSchemaField "count" arguments (OutScalar SchemaInt) None.
Definition batch_payload_object_type : SM nat :=
  unless_cached ObjectCache "BatchPayload" (o ← object_type "BatchPayload" [count_field []] None; _ ← cache_insert ObjectCache "BatchPayload" o; mret o).
Definition aggregation_object_type (model : QueryModel) : SM nat :=
  n ← lift (capitalize (qm_name model));
  let name := "Aggregate" +:+ n in
  unless_cached ObjectCache name
    (object ← ObjectType_new name (Some model);
     arguments ← many_records_arguments model;
     _ ← set_object_fields object [count_field arguments];
     _ ← cache_insert ObjectCache name object;
     mret object).

(** ** Arguments (argument_builder.rs) *)
Definition object_argument (name : string) (o : nat) : SchemaArgument := mkSchemaArgument name (InObject o) None.
Definition where_unique_argument (model : QueryModel) : SM (option SchemaArgument) :=
  o ← where_unique_object_type model;
  empty ← input_is_empty o;
  mret (if empty : bool then None else Some (object_argument "where" o)).
Definition create_arguments (model : QueryModel) : SM (option (list SchemaArgument)) :=
  o ← create_input_type model None;
  empty ← input_is_empty o;
  mret (if empty : bool then None else Some [object_argument "data" o]).
Definition delete_arguments (model : QueryModel) : SM (option (list SchemaArgument)) :=
  arg ← where_unique_argument model; mret ((fun a => [a]) <$> (arg : option SchemaArgument)).
Definition update_arguments (model : QueryModel) : SM (option (list SchemaArgument)) :=
  arg ← where_unique_argument model;
  match arg with
  | Some unique_arg => o ← update_input_type model; mret (Some [object_argument "data" o; unique_arg])
  | None => mret None
  end.
Definition upsert_arguments (model : QueryModel) : SM (option (list SchemaArgument)) :=
  arg ← where_unique_argument model;
  match arg with
  | Some where_unique_arg =>
      update_type ← update_input_type model;
      create_type ← create_input_type model None;
      no_update ← input_is_empty update_type;
      no_create ← (if no_update : bool then mret true else input_is_empty create_type);
      mret (if no_create : bool then None else Some [where_unique_arg; object_argument "create" create_type; object_argument "update" update_type])
  | None => mret None
  end.
Definition update_many_arguments (model : QueryModel) : SM (list SchemaArgument) :=
  update_object ← update_many_input_type model;
  where_arg ← where_argument model;
  mret [object_argument "data" update_object; where_arg].
Definition delete_many_arguments (model : QueryModel) : SM (list SchemaArgument) := where_arg ← where_argument model; mret [where_arg].

(** ** Operations (query_schema_builder.rs) *)
Inductive BuildMode : Type := LegacyMode | ModernMode.
Context (mode : BuildMode) (enable_raw_queries : bool).
Definition pluralize_internal (legacy modern : string) : string := match mode with LegacyMode => legacy | ModernMode => modern end.
Definition model_field (name : string) (arguments : list SchemaArgument) (typ : OutputType) (model : QueryModel) (tag : QueryTag) : SchemaField :=
  mkSchemaField name arguments typ (Some (ModelQueryBuilder model tag)).
Definition single_item_field (model : QueryModel) : SM (option SchemaField) :=
  arg ← where_unique_argument model;
  match arg with
  | Some arg =>
      legacy ← lift (lower_first (qm_name model));
      o ← map_model_object_type model;
      mret (Some (model_field (pluralize_internal legacy ("findOne" +:+ qm_name model)) [arg] (OutOpt (OutObject o)) model TagFindOne))
  | None => mret None
  end.
Definition all_items_field (model : QueryModel) : SM SchemaField :=
  args ← many_records_arguments model;
  plural ← lift (pluralize (qm_name model));
  legacy ← lift (lower_first plural);
  o ← map_model_object_type model;
  mret (model_field (pluralize_internal legacy ("findMany" +:+ qm_name model)) args (OutList (OutObject o)) model TagFindMany).
Definition aggregation_field (model : QueryModel) : SM SchemaField :=
  o ← aggregation_object_type model;
  mret (model_field (pluralize_internal ("aggregate" +:+ qm_name model) ("aggregate" +:+ qm_name model)) [] (OutObject o) model TagAggregate).
Definition raw_field (name : string) : SchemaField :=
  mkSchemaField name
    [mkSchemaArgument "query" (InScalar SchemaString) None; mkSchemaArgument "parameters" (InOpt (InScalar SchemaJsonList)) (Some (Single (PV_String "[]")))]
    (OutScalar SchemaJson) None.
Definition create_execute_raw_field : SchemaField := raw_field "executeRaw".
Definition create_query_raw_field : SchemaField := raw_field "queryRaw".
Definition create_item_field (model : QueryModel) : SM SchemaField :=
  args ← create_arguments model;
  o ← map_model_object_type model;
  mret (model_field (pluralize_internal ("create" +:+ qm_name model) ("createOne" +:+ qm_name model)) (default [] args) (OutObject o) model TagCreateOne).
(** A field of one record, when it has its arguments. *)
Definition one_item_field (args : option (list SchemaArgument)) (name : string) (typ : nat -> OutputType) (model : QueryModel) (tag : QueryTag) : SM (option SchemaField) :=
  match args with
  | Some args =>
      o ← map_model_object_type model;
      mret (Some (model_field (pluralize_internal (name +:+ qm_name model) (name +:+ "One" +:+ qm_name model)) args (typ o) model tag))
  | None => mret None
  end.
Definition delete_item_field (model : QueryModel) : SM (option SchemaField) :=
  args ← delete_arguments model; one_item_field args "delete" (fun o => OutOpt (OutObject o)) model TagDeleteOne.
Definition update_item_field (model : QueryModel) : SM (option SchemaField) :=
  args ← update_arguments model; one_item_field args "update" (fun o => OutOpt (OutObject o)) model TagUpdateOne.
Definition upsert_item_field (model : QueryModel) : SM (option SchemaField) :=
  args ← upsert_arguments model; one_item_field args "upsert" OutObject model TagUpsertOne.
(** A field of many records, which counts them. *)
Definition many_field (arguments : list SchemaArgument) (name : string) (model : QueryModel) (tag : QueryTag) : SM SchemaField :=
  plural ← lift (pluralize (qm_name model));
  o ← batch_payload_object_type;
  mret (model_field (pluralize_internal (name +:+ plural) (name +:+ qm_name model)) arguments (OutObject o) model tag).
Definition delete_many_field (model : QueryModel) : SM SchemaField := args ← delete_many_arguments model; many_field args "deleteMany" model TagDeleteMany.
Definition update_many_field (model : QueryModel) : SM SchemaField := args ← update_many_arguments model; many_field args "updateMany" model TagUpdateMany.
Definition non_embedded_models : list QueryModel := iter_filter (fun m => negb (qm_is_embedded m)) (idm_models idm).
Definition query_fields (m : QueryModel) : SM (list SchemaField) :=
  all_items ← all_items_field m;
  aggregation ← aggregation_field m;
  single ← single_item_field m;
  mret (append_opt [all_items; aggregation] single).
Definition build_query_type : SM nat :=
  fields ← eff_map query_fields non_embedded_models; object_type "Query" (mjoin (fields : list (list SchemaField))) None.
Definition mutation_fields (m : QueryModel) : SM (list SchemaField) :=
  create ← create_item_field m;
  delete ← delete_item_field m;
  update ← update_item_field m;
  upsert ← upsert_item_field m;
  update_many ← update_many_field m;
  delete_many ← delete_many_field m;
  mret (foldl append_opt [create] [delete; update; upsert] ++ [update_many; delete_many]).
Definition build_mutation_type : SM nat :=
  fields ← eff_map mutation_fields non_embedded_models;
  let fields := mjoin (fields : list (list SchemaField)) in
  object_type "Mutation" (if enable_raw_queries then fields ++ [create_execute_raw_field; create_query_raw_field] else fields) None.
(** A type whose fields were never set panics when it is used. *)
Definition finish_input (c : InputCell) : outcome Empty_set InputObjectType := fields ← unwrap cell_unset (ic_fields c); Ok (mkInputObjectType (ic_name c) fields).
Definition finish_output (c : OutputCell) : outcome Empty_set ObjectType := fields ← unwrap cell_unset (oc_fields c); Ok (mkObjectType (oc_name c) fields (oc_model c)).
(** The strong references that a cache holds. *)
Definition into_strong_refs (c : CacheName) : SM (list nat) := reads (fun s => (map_to_list (cache_of c s)).*2).
Definition collect_types : SM (list nat * list nat) :=
  output_objects ← into_strong_refs ObjectCache;
  input_objects ← into_strong_refs InputCache;
  filter_objects ← into_strong_refs FilterCache;
  mret (input_objects ++ filter_objects, output_objects).
(** The types that are kept alive: a type to which there is no strong reference is gone. *)
Definition kept_types {C T} (finish : C -> outcome Empty_set T) (cells : list C) (refs : list nat) : outcome Empty_set (gmap nat T) :=
  types ← map_m (fun r => c ← unwrap weak_invalid (cells !! r); t ← finish c; Ok (r, t)) refs;
  Ok (list_to_map types).
Definition QuerySchema_new (query_type mutation_type : OutputType) (input_objects output_objects : list nat) : SM QuerySchema :=
  ins ← reads input_cells;
  outs ← reads output_cells;
  input_types ← lift (kept_types finish_input ins input_objects);
  output_types ← lift (kept_types finish_output outs output_objects);
  mret (mkQuerySchema query_type mutation_type input_types output_types idm).
Definition build_schema : SM QuerySchema :=
  _ ← compute_model_object_types;
  query_type ← build_query_type;
  mutation_type ← build_mutation_type;
  collected ← collect_types;
  QuerySchema_new (OutObject query_type) (OutObject mutation_type) collected.1 (collected.2 ++ [query_type; mutation_type]).
Definition QuerySchemaBuilder_build : outcome Empty_set QuerySchema := (build_schema BuilderState_empty).1.
End with_data_model.
End schema_builder.
