(* ===== verification/SchemaFacts.v ===== *)
(** * The query schema is closed

    Whatever the builders make refers to types that a cache holds, which the
    schema keeps; the recursion over types that refer to each other ends. *)
From stdpp Require Import gmap.
From S2P Require Import Prelude Effects SqlSchema Dml CalcFacts Converter Models Convert Projections Filters ReadSamples QueryAst QueryGraph GraphFacts NestedRead Related QueryDocument ReadBuilder WriteBuilder QueryParser ResponseIr Executor ExecSamples Inflector SchemaBuilder.

(** ** References in range *)
Section closed.
Context `{VT : ValueTypes} {VO : ValueOrd VT} `{IT : Itertools} {INF : Inflections}.
Fixpoint in_ok (n : nat) (t : InputType) : Prop :=
  match t with InObject r => r < n | InList t | InOpt t | InNull t => in_ok n t | InScalar _ | InEnum _ => True end.
Fixpoint out_ok (k : nat) (t : OutputType) : Prop :=
  match t with OutObject r => r < k | OutList t | OutOpt t => out_ok k t | OutScalar _ | OutEnum _ => True end.
(** Validity of a value, for the numbers of input and output types. *)
Definition validity (A : Type) : Type := nat -> nat -> A -> Prop.
Definition ref_in : validity nat := fun n _ r => r < n.
Definition ref_out : validity nat := fun _ k r => r < k.
Definition field_ok : validity InputField := fun n _ f => in_ok n (if_type f).
Definition arg_ok : validity SchemaArgument := fun n _ a => in_ok n (sa_type a).
Definition list_ok {A} (V : validity A) : validity (list A) := fun n k l => Forall (V n k) l.
Definition opt_ok {A} (V : validity A) : validity (option A) := fun n k o => match o with Some a => V n k a | None => True end.
Definition anything {A} : validity A := fun _ _ _ => True.
Definition output_ok : validity OutputType := fun _ k t => out_ok k t.
Definition object_field_ok : validity SchemaField := fun n k f => list_ok arg_ok n k (fld_arguments f) /\ out_ok k (fld_type f).
Definition mono {A} (V : validity A) : Prop := forall n k n' k' a, n <= n' -> k <= k' -> V n k a -> V n' k' a.
Lemma in_ok_le n n' t : n <= n' -> in_ok n t -> in_ok n' t.
Proof. intros Hn. induction t; cbn; auto; lia. Qed.
Lemma out_ok_le k k' t : k <= k' -> out_ok k t -> out_ok k' t.
Proof. intros Hk. induction t; cbn; auto; lia. Qed.
Lemma mono_list {A} (V : validity A) : mono V -> mono (list_ok V).
Proof. intros HV n k n' k' l Hn Hk Hl. eapply Forall_impl; [exact Hl|]. intros a. by apply HV. Qed.
Lemma mono_opt {A} (V : validity A) : mono V -> mono (opt_ok V).
Proof. intros HV n k n' k' [a|] Hn Hk; cbn; [by apply HV|done]. Qed.
Lemma mono_ref_in : mono ref_in.
Proof. unfold mono, ref_in. lia. Qed.
Lemma mono_ref_out : mono ref_out.
Proof. unfold mono, ref_out. lia. Qed.
Lemma mono_field : mono field_ok.
Proof. intros n k n' k' f Hn _. by apply in_ok_le. Qed.
Lemma mono_arg : mono arg_ok.
Proof. intros n k n' k' f Hn _. by apply in_ok_le. Qed.
Lemma mono_object_field : mono object_field_ok.
Proof. intros n k n' k' f Hn Hk [H1 H2]. split; [by eapply (mono_list arg_ok mono_arg)|by eapply out_ok_le]. Qed.
Lemma mono_output : mono output_ok.
Proof. intros n k n' k' t _ Hk. by apply out_ok_le. Qed.

(** ** States *)
Abbreviation ni s := (length (input_cells s)).
Abbreviation no s := (length (output_cells s)).
Record state_ok (s : BuilderState) : Prop := {
  so_inputs : forall k r, input_cache s !! k = Some r -> r < ni s;
  so_filters : forall k r, filter_cache s !! k = Some r -> r < ni s;
  so_objects : forall k r, object_cache s !! k = Some r -> r < no s;
  so_input_cells : Forall (fun c => opt_ok (list_ok field_ok) (ni s) (no s) (ic_fields c)) (input_cells s);
  so_output_cells : Forall (fun c => opt_ok (list_ok object_field_ok) (ni s) (no s) (oc_fields c)) (output_cells s);
}.
Lemma sm_bind_inv {A B} (f : A -> SM B) (m : SM A) s b s2 : @mbind _ SM_bind _ _ f m s = (Ok b, s2) -> exists a s1, m s = (Ok a, s1) /\ f a s1 = (Ok b, s2).
Proof. unfold mbind, SM_bind, eff_bind. destruct (m s) as [[a| |] s1]; [|done..]. intros H. by exists a, s1. Qed.
(** A strong reference to the type is in a cache. *)
Definition held_in (s : BuilderState) (i : nat) : Prop := exists c k, c <> ObjectCache /\ cache_of c s !! k = Some i.
Definition held_out (s : BuilderState) (i : nat) : Prop := exists k, object_cache s !! k = Some i.
Definition named_in (s : BuilderState) (k : string) (i : nat) : Prop := exists c, input_cells s !! i = Some c /\ ic_name c = k.
(** What is there stays, and the types that are made are cached, but for those in [xi] and [xo]; an input type is cached under its name. *)
Record grows (xi xo : nat -> Prop) (s s' : BuilderState) : Prop := {
  gr_inputs : ni s <= ni s';
  gr_outputs : no s <= no s';
  gr_caches : forall c, cache_of c s ⊆ cache_of c s';
  (* fields that are set stay *)
  gr_set : forall i c, output_cells s !! i = Some c -> oc_fields c <> None -> output_cells s' !! i = Some c;
  gr_set_input : forall i c, input_cells s !! i = Some c -> ic_fields c <> None -> input_cells s' !! i = Some c;
  gr_names : forall k i, named_in s k i -> named_in s' k i;
  gr_keys : forall k i, input_cache s' !! k = Some i -> input_cache s !! k = Some i \/ named_in s' k i;
  gr_held_in : forall i, ni s <= i < ni s' -> held_in s' i \/ xi i;
  gr_held_out : forall i, no s <= i < no s' -> held_out s' i \/ xo i;
}.
Definition none : nat -> Prop := fun _ => False.
Definition grow : relation BuilderState := grows none none.
Lemma held_in_caches s s' i : (forall c, cache_of c s ⊆ cache_of c s') -> held_in s i -> held_in s' i.
Proof. intros Hc (c & k & Hne & Hk). exists c, k. split; [done|]. by eapply lookup_weaken. Qed.
Lemma held_out_caches s s' i : (forall c, cache_of c s ⊆ cache_of c s') -> held_out s i -> held_out s' i.
Proof. intros Hc (k & Hk). exists k. exact (lookup_weaken _ _ _ _ Hk (Hc ObjectCache)). Qed.
#[export] Instance grows_po xi xo : PreOrder (grows xi xo).
Proof.
  split; [split; auto; lia|]. intros s1 s2 s3 [H1 H2 H3 H4 H5 H6 H7 H8 H9] [K1 K2 K3 K4 K5 K6 K7 K8 K9]. split; [lia|lia| |auto|auto|auto| | |].
  - intros c. exact (transitivity (H3 c) (K3 c)).
  - intros k i [Hk|Hk]%K7; [|by right]. destruct (H7 k i Hk) as [Hk'|Hk']; [by left|right; auto].
  - intros i Hi. destruct (decide (i < ni s2)); [|apply K8; lia]. destruct (H8 i) as [Hh|Hx]; [lia|left; by eapply held_in_caches|by right].
  - intros i Hi. destruct (decide (i < no s2)); [|apply K9; lia]. destruct (H9 i) as [Hh|Hx]; [lia|left; by eapply held_out_caches|by right].
Qed.
#[export] Instance grow_po : PreOrder grow := grows_po none none.
Lemma grows_weaken (xi xo yi yo : nat -> Prop) s s' : (forall i, xi i -> yi i) -> (forall i, xo i -> yo i) -> grows xi xo s s' -> grows yi yo s s'.
Proof. intros Hi Ho [H1 H2 H3 H4 H5 H6 H7 H8 H9]. split; auto; [intros i Hr; destruct (H8 i Hr); auto|intros i Hr; destruct (H9 i Hr); auto]. Qed.
Lemma grow_grows xi xo s s' : grow s s' -> grows xi xo s s'.
Proof. by apply grows_weaken. Qed.
(** What was left out is cached in the end. *)
Lemma grows_held xi xo s s' : grows xi xo s s' -> (forall i, xi i -> held_in s' i) -> (forall i, xo i -> held_out s' i) -> grow s s'.
Proof. intros [H1 H2 H3 H4 H5 H6 H7 H8 H9] Hi Ho. split; auto; [intros i Hr; left; destruct (H8 i Hr); auto|intros i Hr; left; destruct (H9 i Hr); auto]. Qed.
(** In a valid state a computation makes a valid value and leaves a valid state, in which nothing is lost. *)
Definition makes_by (R : relation BuilderState) (s : BuilderState) {A} (P : BuilderState -> A -> Prop) (m : SM A) : Prop :=
  state_ok s -> forall a s', m s = (Ok a, s') -> state_ok s' /\ R s s' /\ P s' a.
Definition makes (s : BuilderState) {A} (V : validity A) (m : SM A) : Prop := makes_by grow s (fun s' a => V (ni s') (no s') a) m.
Lemma makes_by_bind {A B} (P : BuilderState -> A -> Prop) (Q : BuilderState -> B -> Prop) s (m : SM A) (f : A -> SM B) :
  makes_by grow s P m -> (forall a s', state_ok s' -> grow s s' -> P s' a -> makes_by grow s' Q (f a)) -> makes_by grow s Q (@mbind _ SM_bind _ _ f m).
Proof.
  intros Hm Hf Hs b s2 (a & s1 & E & H)%sm_bind_inv. destruct (Hm Hs a s1 E) as (H1 & G1 & V1). destruct (Hf a s1 H1 G1 V1 H1 b s2 H) as (H2 & G2 & V2).
  split_and!; [done|by etrans|done].
Qed.
Lemma makes_bind {A B} (V : validity A) (W : validity B) s (m : SM A) (f : A -> SM B) :
  makes s V m -> (forall a s', ni s <= ni s' -> no s <= no s' -> V (ni s') (no s') a -> makes s' W (f a)) -> makes s W (@mbind _ SM_bind _ _ f m).
Proof. intros Hm Hf. eapply makes_by_bind; [exact Hm|]. intros a s' _ G Ha. exact (Hf a s' (gr_inputs _ _ _ _ G) (gr_outputs _ _ _ _ G) Ha). Qed.
Lemma makes_ret {A} (V : validity A) s (a : A) : V (ni s) (no s) a -> makes s V (@mret _ SM_ret _ a).
Proof. by intros HV Hs b s' [= <- <-]. Qed.
Lemma makes_lift {A} (V : validity A) s (m : outcome Empty_set A) : (forall a, m = Ok a -> V (ni s) (no s) a) -> makes s V (lift m).
Proof. intros HV Hs b s' [= Hb <-]. split_and!; [done|reflexivity|by apply HV]. Qed.
Lemma makes_weaken {A} (V W : validity A) s (m : SM A) : makes s V m -> (forall n k a, V n k a -> W n k a) -> makes s W m.
Proof. intros Hm HVW Hs a s' H. destruct (Hm Hs a s' H) as (H1 & H2 & H3). auto. Qed.
Lemma makes_panic {A} (V : validity A) s msg : makes s V (panic msg).
Proof. by intros Hs a s'. Qed.
Lemma makes_map {A B} (V : validity B) s (f : A -> SM B) l : mono V ->
  (forall a s', ni s <= ni s' -> no s <= no s' -> a ∈ l -> makes s' V (f a)) -> makes s (list_ok V) (eff_map f l).
Proof.
  intros HV. revert s. induction l as [|a l IH]; intros s Hf; cbn [eff_map]; [apply makes_ret; constructor|].
  eapply makes_bind; [apply Hf; [lia..|constructor]|]. intros b s1 Hn Hk Hb.
  eapply makes_bind; [apply IH; intros x s2 Hn' Hk' Hx; apply Hf; [lia..|by constructor]|]. intros bs s2 Hn' Hk' Hbs. apply makes_ret.
  constructor; [by eapply HV|done].
Qed.
Lemma makes_for {A} s (f : A -> SM unit) l :
  (forall a s', ni s <= ni s' -> no s <= no s' -> a ∈ l -> makes s' anything (f a)) -> makes s anything (eff_for f l).
Proof.
  revert s. induction l as [|a l IH]; intros s Hf; cbn [eff_for]; [by apply makes_ret|].
  eapply makes_bind; [apply Hf; [lia..|constructor]|]. intros b s1 Hn Hk Hb. apply IH. intros x s2 Hn' Hk' Hx. apply Hf; [lia..|by constructor].
Qed.

(** ** Operations on the state *)
Lemma cells_mono {A B} (V : validity A) (g : B -> option A) n k n' k' l : mono V -> n <= n' -> k <= k' ->
  Forall (fun c => opt_ok V n k (g c)) l -> Forall (fun c => opt_ok V n' k' (g c)) l.
Proof. intros HV Hn Hk Hl. eapply Forall_impl; [exact Hl|]. intros c. by apply mono_opt. Qed.
Lemma makes_get_cached s c key : makes s (fun n k o => opt_ok (match c with ObjectCache => ref_out | _ => ref_in end) n k o) (get_cached c key).
Proof.
  intros Hs a s' [= <- <-]. split_and!; [done..|]. destruct (cache_of c s !! key) as [r|] eqn:E; [|done]. cbn.
  destruct c; [by apply (so_inputs _ Hs key)|by apply (so_filters _ Hs key)|by apply (so_objects _ Hs key)].
Qed.
Lemma makes_cache_insert s c key r : (match c with ObjectCache => r < no s | _ => r < ni s end) -> (c = InputCache -> named_in s key r) ->
  makes_by grow s (fun s' _ => cache_of c s' !! key = Some r) (cache_insert c key r).
Proof.
  intros Hr Hname Hs a s'. unfold cache_insert. destruct (cache_of c s !! key) as [x|] eqn:E; [done|]. intros [= <- <-].
  assert (Hins : forall (m : gmap string nat) k v, <[key:=r]> m !! k = Some v -> v = r \/ m !! k = Some v).
  { intros m k v [[_ <-]|[_ H]]%lookup_insert_Some; [by left|by right]. }
  assert (Hn : forall k i, named_in (with_cache c (<[key:=r]> (cache_of c s)) s) k i <-> named_in s k i) by (unfold named_in; by destruct c).
  split_and!; [| |by destruct c; cbn; rewrite lookup_insert_eq].
  - destruct Hs as [H1 H2 H3 H4 H5]. destruct c; cbn in *; split; cbn; try done; intros k v [->|Hk]%Hins; eauto.
  - split; [by destruct c..| |by destruct c|by destruct c| | | |]; [| |intros k i Hk|destruct c; cbn; lia..].
    + intros c'. destruct c, c'; cbn in *; try done; by apply insert_subseteq.
    + intros k i Hk. by apply Hn.
    + destruct c; [|by left..]. cbn in Hk. apply lookup_insert_Some in Hk as [[<- <-]|[_ Hk]]; [right; by apply Hn, Hname|by left].
Qed.
Lemma named_app s l k i : named_in s k i -> named_in (with_inputs (input_cells s ++ l) s) k i.
Proof. intros (c & Hc & Hn). exists c. split; [|done]. by apply lookup_app_l_Some. Qed.
Lemma lays_init s name : makes_by (grows (fun i => i = ni s) none) s (fun s' r => r = ni s /\ r < ni s' /\ named_in s' name r) (init_input_object_type name).
Proof.
  intros Hs a s' [= <- <-]. destruct Hs as [H1 H2 H3 H4 H5].
  assert (Hl : length (input_cells s ++ [mkInputCell name None]) = S (ni s)) by (rewrite length_app; cbn; lia). split_and!.
  - split; cbn; rewrite ?Hl.
    + intros k r Hk. specialize (H1 k r Hk). lia.
    + intros k r Hk. specialize (H2 k r Hk). lia.
    + done.
    + apply Forall_app. split; [|by repeat constructor]. eapply (cells_mono (list_ok field_ok) ic_fields); [apply mono_list, mono_field|..|exact H4]; lia.
    + eapply (cells_mono (list_ok object_field_ok) oc_fields); [apply mono_list, mono_object_field|..|exact H5]; lia.
  - split; cbn; rewrite ?Hl; [lia|lia|by intros []|done| | |auto|intros i Hi; right; lia|lia].
    + intros i c Hi _. by apply lookup_app_l_Some.
    + intros k i. apply named_app.
  - done.
  - cbn. lia.
  - exists (mkInputCell name None). split; [|done]. cbn. by rewrite lookup_app_r, Nat.sub_diag by lia.
Qed.
Lemma lays_new_object s name model : makes_by (grows none (fun i => i = no s)) s (fun s' r => r = no s /\ r < no s') (ObjectType_new name model).
Proof.
  intros Hs a s' [= <- <-]. destruct Hs as [H1 H2 H3 H4 H5].
  assert (Hl : length (output_cells s ++ [mkOutputCell name None model]) = S (no s)) by (rewrite length_app; cbn; lia). split_and!.
  - split; cbn; rewrite ?Hl; [done|done| | |].
    + intros k r Hk. specialize (H3 k r Hk). lia.
    + eapply (cells_mono (list_ok field_ok) ic_fields); [apply mono_list, mono_field|..|exact H4]; lia.
    + apply Forall_app. split; [|by repeat constructor]. eapply (cells_mono (list_ok object_field_ok) oc_fields); [apply mono_list, mono_object_field|..|exact H5]; lia.
  - split; cbn; rewrite ?Hl; [lia|lia|by intros []| |done|done|auto|lia|intros i Hi; right; lia]. intros i c Hi _. by apply lookup_app_l_Some.
  - done.
  - cbn. lia.
Qed.
Lemma makes_set_fields s ref fields : list_ok field_ok (ni s) (no s) fields -> makes s anything (set_fields ref fields).
Proof.
  intros Hf Hs a s'. unfold set_fields. destruct (input_cells s !! ref) as [[name [x|]]|] eqn:E; [done| |done]. intros [= <- <-]. destruct Hs as [H1 H2 H3 H4 H5].
  split_and!; [split; cbn; rewrite ?length_insert; try done; by apply Forall_insert| |done]. split; cbn; rewrite ?length_insert; [lia|lia|by intros []|done| | |auto|lia|lia].
  - intros i c Hi Hc. rewrite list_lookup_insert_ne; [done|]. intros <-. rewrite E in Hi. by injection Hi as <-.
  - intros k i (c & Hi & Hk). unfold named_in. cbn. destruct (decide (ref = i)) as [<-|Hne]; [|exists c; by rewrite list_lookup_insert_ne].
    rewrite E in Hi. injection Hi as <-. cbn in Hk. exists (mkInputCell name (Some fields)). split; [|done]. apply list_lookup_insert_eq. by eapply lookup_lt_Some.
Qed.
Lemma makes_set_object_fields s ref fields : list_ok object_field_ok (ni s) (no s) fields -> makes s anything (set_object_fields ref fields).
Proof.
  intros Hf Hs a s'. unfold set_object_fields. destruct (output_cells s !! ref) as [[name [x|] model]|] eqn:E; [done| |done]. intros [= <- <-]. destruct Hs as [H1 H2 H3 H4 H5].
  split_and!; [split; cbn; rewrite ?length_insert; try done; by apply Forall_insert| |done]. split; cbn; rewrite ?length_insert; [lia|lia|by intros []| |done|done|auto|lia|lia].
  intros i c Hi Hc. rewrite list_lookup_insert_ne; [done|]. intros <-. rewrite E in Hi. by injection Hi as <-.
Qed.
Lemma makes_both {A} s (P Q : BuilderState -> A -> Prop) m : makes_by grow s P m -> makes_by grow s Q m -> makes_by grow s (fun u a => P u a /\ Q u a) m.
Proof. intros HP HQ Hs a s' H. destruct (HP Hs a s' H) as (K & G & ?), (HQ Hs a s' H) as (_ & _ & ?). done. Qed.
(** The fields of an input type that is cached. *)
Definition type_fields (s : BuilderState) (name : string) (fs : list InputField) : Prop :=
  exists r c, input_cache s !! name = Some r /\ input_cells s !! r = Some c /\ ic_fields c = Some fs.
Lemma type_fields_grow xi xo s s' name fs : grows xi xo s s' -> type_fields s name fs -> type_fields s' name fs.
Proof.
  intros G (r & c & Hr & Hc & Hf). exists r, c. split_and!; [exact (lookup_weaken _ _ _ _ Hr (gr_caches _ _ _ _ G InputCache))|apply (gr_set_input _ _ _ _ G); [done|by rewrite Hf]|done].
Qed.
Lemma type_fields_fun s name fs fs' : type_fields s name fs -> type_fields s name fs' -> fs = fs'.
Proof. intros (r & c & Hr & Hc & Hf) (r' & c' & Hr' & Hc' & Hf'). rewrite Hr in Hr'. injection Hr' as <-. rewrite Hc in Hc'. injection Hc' as <-. rewrite Hf in Hf'. by injection Hf'. Qed.
Definition has_fields (fs : list InputField) : bool := match fs with [] => false | _ => true end.
Definition present {A} (o : option A) : bool := match o with Some _ => true | None => false end.
Lemma makes_is_empty s ref : makes s anything (input_is_empty ref).
Proof. intros Hs a s'. unfold input_is_empty. destruct (input_cells s !! ref) as [[name [x|]]|]; [|done..]. by intros [= <- <-]. Qed.

(** ** Input types *)
Lemma makes_lift_any {A} s (m : outcome Empty_set A) : makes s anything (lift m).
Proof. by apply makes_lift. Qed.
Definition cached_as (c : CacheName) (name : string) (s : BuilderState) (r : nat) : Prop :=
  match c with ObjectCache => r < no s | _ => r < ni s end /\ cache_of c s !! name = Some r.
Lemma cached_grow_as c name s s' r : grow s s' -> cached_as c name s r -> cached_as c name s' r.
Proof.
  intros [Hi Ho Hc _ _ _ _ _ _] [Hr Hk]. split; [destruct c; lia|]. exact (lookup_weaken _ _ _ _ Hk (Hc c)).
Qed.
Lemma makes_unless_cached s c name build :
  makes_by grow s (cached_as c name) build ->
  makes_by grow s (cached_as c name) (unless_cached c name build).
Proof.
  intros Hb Hs r s' (o & s1 & [= <- <-] & H)%sm_bind_inv. destruct (cache_of c s !! name) as [x|] eqn:E; [|by apply Hb]. injection H as <- <-.
  split_and!; [done|reflexivity|]. split; [|done]. destruct c; [by apply (so_inputs _ Hs name)|by apply (so_filters _ Hs name)|by apply (so_objects _ Hs name)].
Qed.
(** A new input type is cached at once, under its name. *)
Lemma new_cached s c name o s1 s2 : c <> ObjectCache -> state_ok s -> init_input_object_type name s = (Ok o, s1) -> cache_insert c name o s1 = (Ok tt, s2) ->
  state_ok s2 /\ grow s s2 /\ cached_as c name s2 o.
Proof.
  intros Hc Hs E1 E2. destruct (lays_init s name Hs _ _ E1) as (K1 & G1 & -> & R1 & N1). destruct (makes_cache_insert s1 c name (ni s) ltac:(by destruct c) (fun _ => N1) K1 _ _ E2) as (K2 & G2 & C2).
  split_and!; [done| |split; [pose proof (gr_inputs _ _ _ _ G2); destruct c; [lia|lia|done]|done]].
  eapply (grows_held (fun i => i = ni s) none); [etrans; [exact G1|by apply grow_grows]| |done]. intros i ->. by exists c, name.
Qed.
Lemma makes_new_cached {B} (P : BuilderState -> B -> Prop) s c name (k : nat -> SM B) : c <> ObjectCache ->
  (forall o s', state_ok s' -> grow s s' -> cached_as c name s' o -> makes_by grow s' P (k o)) ->
  makes_by grow s P (@mbind _ SM_bind _ _ (fun o => @mbind _ SM_bind _ _ (fun _ => k o) (cache_insert c name o)) (init_input_object_type name)).
Proof.
  intros Hc Hk Hs b s3 (o & s1 & E1 & H)%sm_bind_inv. apply sm_bind_inv in H as ([] & s2 & E2 & H). destruct (new_cached s c name o s1 s2 Hc Hs E1 E2) as (K2 & G & Ca).
  destruct (Hk o s2 K2 G Ca K2 b s3 H) as (K3 & G3 & HP). split_and!; [done|by etrans|done].
Qed.
Lemma makes_cached_key s c name fields : c <> ObjectCache ->
  (forall self s', ni s <= ni s' -> no s <= no s' -> self < ni s' -> makes s' (list_ok field_ok) (fields self)) -> makes_by grow s (cached_as c name) (cached_input c name fields).
Proof.
  intros Hc Hf. apply makes_unless_cached, makes_new_cached; [done|]. intros x s3 K3 G3 C3. pose proof (gr_inputs _ _ _ _ G3). pose proof (gr_outputs _ _ _ _ G3).
  eapply makes_by_bind; [apply (Hf x s3); [lia|lia|by destruct c; destruct C3]|]. intros fs s4 K4 G4 V4. eapply makes_by_bind; [by apply makes_set_fields|]. intros _ s5 K5 G5 _ _ y s6 [= <- <-].
  split_and!; [done|reflexivity|]. eapply cached_grow_as; [|exact C3]. by etrans.
Qed.
Lemma makes_has_fields s name r : cached_as InputCache name s r ->
  makes_by grow s (fun u b => exists fs, type_fields u name fs /\ negb b = has_fields fs) (input_is_empty r).
Proof.
  intros [_ Hr] Hs b s'. unfold input_is_empty. destruct (input_cells s !! r) as [[n [fs|]]|] eqn:E; [|done..]. intros [= <- <-].
  split_and!; [done|reflexivity|]. exists fs. split; [by eexists r, _|by destruct fs].
Qed.
Lemma makes_keyed s c name (m : SM nat) : makes_by grow s (cached_as c name) m -> makes s (match c with ObjectCache => ref_out | _ => ref_in end) m.
Proof. intros Hm Hs a s' H. destruct (Hm Hs a s' H) as (H1 & H2 & H3 & _). split_and!; [done|done|]. by destruct c. Qed.
Lemma makes_cached_input s c name fields : c <> ObjectCache ->
  (forall self s', ni s <= ni s' -> no s <= no s' -> self < ni s' -> makes s' (list_ok field_ok) (fields self)) -> makes s ref_in (cached_input c name fields).
Proof. intros Hc Hf. pose proof (makes_keyed s c name _ (makes_cached_key s c name fields Hc Hf)) as H. by destruct c. Qed.
(** A type whose fields are known is cached when they are set. *)
Lemma makes_filled_input s name fields : list_ok field_ok (ni s) (no s) fields ->
  makes_by grow s (cached_as InputCache name) (o ← input_object_type name fields; _ ← cache_insert InputCache name o; mret o).
Proof.
  intros Hf Hs b s3 (o & s2 & E & H)%sm_bind_inv. apply sm_bind_inv in E as (o' & s1 & E1 & E). apply sm_bind_inv in E as ([] & s1' & E2 & [= <- <-]).
  apply sm_bind_inv in H as ([] & s4 & E3 & [= <- <-]). destruct (lays_init s name Hs _ _ E1) as (K1 & G1 & -> & R1 & N1).
  destruct (makes_set_fields s1 (ni s) fields (mono_list _ mono_field _ _ _ _ _ (gr_inputs _ _ _ _ G1) (gr_outputs _ _ _ _ G1) Hf) K1 _ _ E2) as (K2 & G2 & _).
  assert (R2 : ni s < ni s1') by (pose proof (gr_inputs _ _ _ _ G2); lia).
  destruct (makes_cache_insert s1' InputCache name (ni s) R2 (fun _ => gr_names _ _ _ _ G2 _ _ N1) K2 _ _ E3) as (K3 & G3 & C3).
  split_and!; [done| |split; [pose proof (gr_inputs _ _ _ _ G3); lia|done]].
  eapply (grows_held (fun i => i = ni s) none); [etrans; [exact G1|etrans; apply grow_grows; [exact G2|exact G3]]| |done]. intros i ->. by exists InputCache, name.
Qed.
(** A new object type is cached after other work. *)
Lemma makes_new_object {B} (P : BuilderState -> B -> Prop) s name model (k : nat -> SM B) :
  (forall o s', state_ok s' -> o < no s' -> ni s <= ni s' -> no s <= no s' -> makes_by grow s' (fun u b => P u b /\ held_out u o) (k o)) -> makes_by grow s P (@mbind _ SM_bind _ _ k (ObjectType_new name model)).
Proof.
  intros Hk Hs b s2 (o & s1 & E1 & H)%sm_bind_inv. destruct (lays_new_object s name model Hs _ _ E1) as (K1 & G1 & -> & R1).
  destruct (Hk (no s) s1 K1 R1 (gr_inputs _ _ _ _ G1) (gr_outputs _ _ _ _ G1) K1 _ _ H) as (K2 & G2 & HP & Hh). split_and!; [done| |done].
  eapply (grows_held none (fun i => i = no s)); [etrans; [exact G1|by apply grow_grows]|done|]. by intros i ->.
Qed.
Lemma makes_filled_object s name o fields : list_ok object_field_ok (ni s) (no s) fields -> o < no s ->
  makes_by grow s (fun u r => cached_as ObjectCache name u r /\ held_out u o) (_ ← set_object_fields o fields; _ ← cache_insert ObjectCache name o; mret o).
Proof.
  intros Hf Ho. eapply makes_by_bind; [by apply makes_set_object_fields|]. intros _ s1 K1 G1 _. pose proof (gr_outputs _ _ _ _ G1).
  eapply makes_by_bind; [apply makes_cache_insert; [lia|done]|]. intros [] s2 K2 G2 C2 _ r s3 [= <- <-]. pose proof (gr_outputs _ _ _ _ G2).
  split_and!; [done|reflexivity|split; [lia|done]|by exists name].
Qed.
Lemma lays_object_type s name fields model : list_ok object_field_ok (ni s) (no s) fields ->
  makes_by (grows none (fun i => i = no s)) s (fun s' r => r = no s /\ r < no s' /\ output_cells s' !! r = Some (mkOutputCell name (Some fields) model)) (object_type name fields model).
Proof.
  intros Hf Hs b s3 (o & s1 & E1 & H)%sm_bind_inv. apply sm_bind_inv in H as ([] & s2 & E2 & [= <- <-]). destruct (lays_new_object s name model Hs _ _ E1) as (K1 & G1 & -> & R1).
  destruct (makes_set_object_fields s1 (no s) fields (mono_list _ mono_object_field _ _ _ _ _ (gr_inputs _ _ _ _ G1) (gr_outputs _ _ _ _ G1) Hf) K1 _ _ E2) as (K2 & G2 & _).
  split_and!; [done|etrans; [exact G1|by apply grow_grows]|done|pose proof (gr_outputs _ _ _ _ G2); lia|].
  injection E1 as <-. unfold set_object_fields in E2. cbn in E2. rewrite lookup_app_r, Nat.sub_diag in E2 by lia. cbn in E2. injection E2 as <-. cbn. apply list_lookup_insert_eq. rewrite length_app. cbn. lia.
Qed.
Lemma enum_type_ok {E} n f t : map_required_input_type (E := E) f = Ok t -> in_ok n t.
Proof.
  unfold map_required_input_type. match goal with |- mbind _ ?m = _ -> _ => assert (Hm : forall t, m = Ok t -> in_ok n t); [|destruct m as [t0| |]; [|done..]] end.
  - intros t0. destruct (sf_type_identifier f); try (by intros [= <-]). unfold map_enum_input_type. destruct (sf_internal_enum f); [|done]. by intros [= <-].
  - specialize (Hm t0 eq_refl). cbn [mbind outcome_bind]. intros [= <-]. by destruct (sf_is_list f), (sf_is_required f).
Qed.
Lemma optional_type_ok {E} n f t : map_optional_input_type (E := E) f = Ok t -> in_ok n t.
Proof. unfold map_optional_input_type. destruct (map_required_input_type f) as [t0| |] eqn:Et; [|done..]. intros [= <-]. by eapply (enum_type_ok n) in Et. Qed.
(** A list of fields whose types come from a pure function. *)
Lemma mapped_fields_ok {A} n k (f : A -> outcome Empty_set InputField) l fs : (forall a x, f a = Ok x -> field_ok n k x) -> map_m f l = Ok fs -> list_ok field_ok n k fs.
Proof. intros Hf H%map_m_Forall2. apply Forall_forall. intros x Hx. apply list_elem_of_lookup in Hx as (i & Hi). destruct (Forall2_lookup_r _ _ _ _ _ H Hi) as (a & _ & Ha). by eapply Hf. Qed.
Lemma list_ok_join {A} (V : validity A) n k (l : list (list A)) : list_ok (list_ok V) n k l -> list_ok V n k (mjoin l).
Proof. unfold list_ok. induction 1 as [|x l Hx _ IH]; cbn; [constructor|]. apply Forall_app. by split. Qed.
Lemma list_ok_omap {A} (V : validity A) n k (l : list (option A)) : list_ok (opt_ok V) n k l -> list_ok V n k (flatten_opt l).
Proof. unfold list_ok, flatten_opt. induction 1 as [|[x|] l Hx _ IH]; cbn; [constructor|by constructor|done]. Qed.
Lemma list_ok_app {A} (V : validity A) n k a b : list_ok V n k a -> list_ok V n k b -> list_ok V n k (a ++ b).
Proof. intros Ha Hb. apply Forall_app. by split. Qed.
Lemma list_ok_append {A} (V : validity A) n k a (b : option A) : list_ok V n k a -> opt_ok V n k b -> list_ok V n k (append_opt a b).
Proof. intros Ha Hb. destruct b; cbn; [|done]. apply list_ok_app; [done|]. by constructor. Qed.

Lemma list_ok_cons {A} (V : validity A) n k a l : V n k a -> list_ok V n k l -> list_ok V n k (a :: l).
Proof. by constructor. Qed.
End closed.

(** ** Automation *)
Ltac mono_tac := first [apply mono_ref_in|apply mono_ref_out|apply mono_field|apply mono_arg|apply mono_object_field|apply mono_output|apply mono_list; mono_tac|apply mono_opt; mono_tac].
(** A value whose references are in range, given what is known of its parts in earlier states. *)
Ltac valid :=
  lazymatch goal with
  | |- anything _ _ _ => exact I
  | |- opt_ok ?V ?n ?k (Some ?a) => change (V n k a); valid
  | |- opt_ok _ _ _ None => exact I
  | |- list_ok _ _ _ (_ ++ _) => apply list_ok_app; valid
  | |- list_ok _ _ _ (append_opt _ _) => apply list_ok_append; valid
  | |- list_ok _ _ _ [] => constructor
  | |- list_ok _ _ _ (_ :: _) => apply list_ok_cons; valid
  | |- list_ok _ _ _ (mjoin _) => apply list_ok_join; valid
  | |- list_ok _ _ _ (flatten_opt _) => apply list_ok_omap; valid
  | |- _ =>
      first
        [ match goal with
          | H : ?V _ _ ?a |- ?V _ _ ?a => assert (Hmono : mono V) by mono_tac; eapply Hmono; [..|exact H]; lia
          end
        | unfold object_field_ok, count_field; cbn [fld_arguments fld_type]; split; valid
        | unfold field_ok, arg_ok, ref_in, ref_out, output_ok, wrap_list_input_object_type in *; cbn in *;
          repeat match goal with |- context [if ?b then _ else _] => destruct b end; cbn in *; solve [done|lia] ]
  end.
Create HintDb makes_parts discriminated.
#[export] Hint Resolve makes_get_cached makes_is_empty makes_panic : makes_parts.
#[export] Hint Resolve makes_lift_any | 10 : makes_parts.
#[export] Hint Extern 5 (makes _ _ (set_fields _ _)) => apply makes_set_fields; valid : makes_parts.
#[export] Hint Extern 5 (makes _ _ (set_object_fields _ _)) => apply makes_set_object_fields; valid : makes_parts.
Ltac tstep :=
  cbv beta zeta;
  lazymatch goal with
  | |- makes _ _ (mbind _ _) =>
      eapply makes_bind; [solve [eauto 4 with makes_parts]|let a := fresh "a" in let s := fresh "s" in let H1 := fresh "Hn" in let H2 := fresh "Hk" in let H3 := fresh "Hv" in intros a s H1 H2 H3]
  | |- makes _ _ (if ?b then _ else _) => destruct b
  | |- makes _ _ (match ?x with _ => _ end) => destruct x; cbn [opt_ok] in *
  | |- makes _ _ (mret _) => apply makes_ret; valid
  | |- makes _ _ (panic _) => apply makes_panic
  | |- makes _ _ (cached_input _ _ _) => apply makes_cached_input; [discriminate|let a := fresh "self" in let s := fresh "s" in let H1 := fresh "Hn" in let H2 := fresh "Hk" in let H3 := fresh "Hv" in intros a s H1 H2 H3]
  | |- _ => solve [eauto 4 with makes_parts]
  end.
Ltac makes_parts := repeat tstep.

Section parts.
Context `{VT : ValueTypes} {VO : ValueOrd VT} `{IT : Itertools} {INF : Inflections}.
Abbreviation ni s := (length (input_cells s)).
Abbreviation no s := (length (output_cells s)).
Section idm.
Context (idm : InternalDataModel) (capabilities : list ConnectorCapability).
Lemma scalar_filter_fields_ok s m : makes s (list_ok field_ok) (scalar_filter_fields m).
Proof.
  apply makes_lift. intros fs H. destruct (map_m map_input_field _) as [l| |] eqn:El; [|done..]. injection H as <-. apply list_ok_join, Forall_forall. intros x Hx.
  apply (map_m_elem _ _ _ _ El) in Hx as (f & _ & Hf). unfold map_input_field in Hf. eapply mapped_fields_ok; [|exact Hf]. intros a y Hy. cbv beta zeta in Hy.
  destruct (map_required_input_type f) as [t| |] eqn:Et; [|done..]. injection Hy as <-. apply (enum_type_ok (ni s)) in Et. unfold field_ok. cbn.
  by destruct (fa_is_list a), (sf_is_required f).
Qed.
Lemma connective_fields_ok n k self : self < n -> list_ok field_ok n k (connective_fields self).
Proof. intros H. repeat constructor; done. Qed.
#[local] Hint Resolve scalar_filter_fields_ok : makes_parts.
Lemma scalar_filter_ok s m : makes s ref_in (scalar_filter_object_type m).
Proof. unfold scalar_filter_object_type. tstep. tstep. apply makes_ret, list_ok_app; [apply connective_fields_ok; lia|valid]. Qed.
Lemma relation_filter_ok (f : QueryModel -> SM nat) s rf : (forall u m, makes u ref_in (f m)) -> makes s (list_ok field_ok) (map_relation_filter_input_field idm f rf).
Proof.
  intros Hf. unfold map_relation_filter_input_field. tstep. eapply makes_bind; [apply Hf|]. intros r u2 Gn2 Gk2 Hr. apply makes_ret.
  apply Forall_fmap, Forall_forall. intros fa _. cbn. unfold field_ok. cbn. by destruct (fa_suffix fa ≟ EmptyString).
Qed.
Lemma filter_object_ok fuel : forall s m, makes s ref_in (filter_object_type_at idm capabilities fuel m).
Proof.
  induction fuel as [|fuel IH]; intros s m; cbn [filter_object_type_at]; [makes_parts|]. tstep; [makes_parts|]. unfold build_filter_object. tstep. tstep.
  eapply makes_bind; [apply (makes_map (list_ok field_ok)); [mono_tac|intros; by apply relation_filter_ok]|].
  intros fs s' Hn' Hk' Hfs. apply makes_ret, list_ok_app; [apply connective_fields_ok; lia|valid].
Qed.
Lemma filter_type_ok s m : makes s ref_in (filter_object_type idm capabilities m).
Proof. apply filter_object_ok. Qed.
#[local] Hint Resolve scalar_filter_ok filter_type_ok : makes_parts.
Lemma required_fields_ok s l : makes s (list_ok field_ok) (lift (required_input_fields l)).
Proof.
  apply makes_lift. intros fs. apply mapped_fields_ok. intros f x. destruct (map_required_input_type f) as [t| |] eqn:Et; [|done..]. intros [= <-]. by apply (enum_type_ok (ni s)) in Et.
Qed.
#[local] Hint Resolve required_fields_ok : makes_parts.
Lemma compound_type_ok s alias l : makes s ref_in (compound_field_unique_object_type alias l).
Proof. unfold compound_field_unique_object_type. makes_parts. Qed.
#[local] Hint Resolve compound_type_ok : makes_parts.
Definition unique_name (m : QueryModel) : string := qm_name m +:+ "WhereUniqueInput".
Lemma where_unique_key s m : makes_by grow s (cached_as InputCache (unique_name m)) (where_unique_object_type idm m).
Proof.
  apply makes_cached_key; [done|]. intros self s0 _ _ _. eapply makes_bind.
  { apply (makes_lift (list_ok field_ok)). intros fs. apply mapped_fields_ok. intros f x. destruct (map_optional_input_type f) as [t| |] eqn:Et; [|done..]. intros [= <-].
    by apply (optional_type_ok (ni s0)) in Et. }
  intros fs u1 Gn1 Gk1 Hfs. eapply makes_bind; [apply (makes_map field_ok); [mono_tac|]|].
  - intros i u2 Gn2 Gk2 _. unfold compound_unique_field. makes_parts.
  - intros cs u2 Gn2 Gk2 Hcs. eapply (makes_bind (list_ok field_ok)); [unfold compound_id_field; makes_parts|]. intros id u3 Gn3 Gk3 Hid. tstep.
Qed.
Lemma where_unique_ok s m : makes s ref_in (where_unique_object_type idm m).
Proof. apply (makes_keyed _ InputCache (unique_name m)), where_unique_key. Qed.
#[local] Hint Resolve where_unique_ok : makes_parts.
Lemma where_field_ok s name rf : makes s field_ok (where_input_field idm name rf).
Proof. unfold where_input_field. makes_parts. Qed.
#[local] Hint Resolve where_field_ok : makes_parts.
Lemma nested_connect_ok s rf : makes s (opt_ok field_ok) (nested_connect_input_field idm rf).
Proof. unfold nested_connect_input_field. makes_parts. Qed.
#[local] Hint Resolve nested_connect_ok : makes_parts.
Lemma list_field_ok s mn ion f : makes s field_ok (list_input_field mn ion f).
Proof.
  unfold list_input_field. cbv zeta. eapply (makes_bind ref_in); [|intros; tstep]. eapply (makes_keyed _ InputCache), makes_unless_cached.
  eapply makes_by_bind; [apply (makes_lift (fun n _ t => in_ok n t)); intros t; apply optional_type_ok|]. intros t u1 K1 G1 Ht. apply makes_filled_input. by repeat constructor.
Qed.
Lemma scalar_fields_ok s mn ion l mapper wd : (forall n f t, mapper f = Ok t -> in_ok n t) -> makes s (list_ok field_ok) (scalar_input_fields mn ion l mapper wd).
Proof.
  intros Hm. unfold scalar_input_fields. eapply (makes_bind (list_ok field_ok)).
  { apply makes_lift. intros fs. apply mapped_fields_ok. intros f x. destruct (mapper f) as [t| |] eqn:Et; [|done..]. intros [= <-]. by apply (Hm (ni s)) in Et. }
  intros a u1 Gn1 Gk1 Ha. eapply makes_bind; [apply (makes_map field_ok); [mono_tac|intros; apply list_field_ok]|]. intros b u2 Gn2 Gk2 Hb. tstep.
Qed.
Lemma update_scalars_ok s m : makes s (list_ok field_ok) (scalar_input_fields_for_update m).
Proof. apply scalar_fields_ok. intros n f t. apply optional_type_ok. Qed.
#[local] Hint Resolve update_scalars_ok : makes_parts.
Lemma create_scalars_ok s m l : makes s (list_ok field_ok) (scalar_input_fields (qm_name m) "Create" l (create_field_type idm) true).
Proof.
  apply scalar_fields_ok. intros n f t. unfold create_field_type. cbv zeta. repeat match goal with |- context [if ?b then _ else _] => destruct b end; [apply optional_type_ok|apply enum_type_ok|apply optional_type_ok].
Qed.
#[local] Hint Resolve create_scalars_ok : makes_parts.

(** *** Creating and updating *)
Lemma nested_create_ok s (create : QueryModel -> option RelationField -> SM nat) rf : (forall u m pf, makes u ref_in (create m pf)) -> makes s field_ok (nested_create_input_field idm create rf).
Proof. intros Hc. unfold nested_create_input_field. makes_parts. Qed.
Lemma relation_create_ok s (create : QueryModel -> option RelationField -> SM nat) pf rf : (forall u m pf, makes u ref_in (create m pf)) -> makes s (opt_ok field_ok) (relation_input_field_create idm create pf rf).
Proof.
  intros Hc. unfold relation_input_field_create. do 4 tstep. tstep; [tstep|]. eapply (makes_bind ref_in); [|intros; tstep].
  tstep. eapply makes_bind; [by apply nested_create_ok|]. intros c u2 Gn2 Gk2 Hcf. makes_parts.
Qed.
Lemma build_create_key s (create : QueryModel -> option RelationField -> SM nat) m pf name : (forall u m pf, makes u ref_in (create m pf)) -> create_input_name (E := Empty_set) idm m pf = Ok name ->
  makes_by grow s (cached_as InputCache name) (build_create_input idm create m pf).
Proof.
  intros Hc Hname. unfold build_create_input. rewrite Hname. lazymatch goal with |- makes_by _ _ _ (mbind ?f _) => change (makes_by grow s (cached_as InputCache name) (f name)) end. cbv beta.
  apply makes_cached_key; [done|]. intros self s' _ _ _. cbv zeta. tstep. eapply (makes_bind (list_ok field_ok)); [|intros; tstep].
  unfold relation_input_fields_create. eapply makes_bind; [apply (makes_map (opt_ok field_ok)); [mono_tac|]|intros; tstep]. intros rf u Gn Gk _. by apply relation_create_ok.
Qed.
Lemma build_create_ok s (create : QueryModel -> option RelationField -> SM nat) m pf : (forall u m pf, makes u ref_in (create m pf)) -> makes s ref_in (build_create_input idm create m pf).
Proof.
  intros Hc. destruct (create_input_name (E := Empty_set) idm m pf) as [name| |msg] eqn:E.
  - by eapply (makes_keyed _ InputCache), build_create_key.
  - done.
  - intros Hs a s' H. unfold build_create_input in H. rewrite E in H. done.
Qed.
Lemma create_at_ok fuel : forall s m pf, makes s ref_in (create_input_type_at idm fuel m pf).
Proof. induction fuel as [|fuel IH]; intros s m pf; cbn [create_input_type_at]; [makes_parts|]. by apply build_create_ok. Qed.
Lemma create_type_ok s m pf : makes s ref_in (create_input_type idm m pf).
Proof. apply create_at_ok. Qed.
Lemma create_type_key s m : makes_by grow s (cached_as InputCache (qm_name m +:+ "CreateInput")) (create_input_type idm m None).
Proof.
  change (create_input_type idm m None) with (build_create_input idm (create_input_type_at idm (1 + length (idm_models idm) + length (idm_relation_fields idm))) m None).
  apply build_create_key; [intros; apply create_at_ok|done].
Qed.
Lemma create_field_ok s rf : makes s field_ok (nested_create_input_field idm (create_input_type idm) rf).
Proof. apply nested_create_ok. intros u m pf. apply create_type_ok. Qed.
#[local] Hint Resolve create_type_ok create_field_ok : makes_parts.
Lemma update_many_data_ok s rf : makes s ref_in (nested_update_many_data idm rf).
Proof. unfold nested_update_many_data. makes_parts. Qed.
#[local] Hint Resolve update_many_data_ok : makes_parts.
Lemma update_many_object_ok s rf : makes s (opt_ok ref_in) (nested_update_many_input_object idm rf).
Proof.
  unfold nested_update_many_input_object. tstep; [|tstep]. tstep. tstep. tstep; [tstep|]. tstep. unfold makes. apply makes_new_cached; [done|]. intros o u K G [Ho _].
  pose proof (gr_inputs _ _ _ _ G). pose proof (gr_outputs _ _ _ _ G). change (makes u (opt_ok ref_in)
    (where_input_object ← scalar_filter_object_type a;
     _ ← set_fields o [mkInputField "where" (InObject where_input_object) None; mkInputField "data" (InObject a0) None]; mret (Some o))). makes_parts.
Qed.
Lemma nested_update_many_ok s rf : makes s (opt_ok field_ok) (nested_update_many_field idm rf).
Proof.
  unfold nested_update_many_field. eapply (makes_bind (opt_ok ref_in)); [apply update_many_object_ok|]. intros [o|] u Gn Gk Ho; cbn [fmap option_fmap option_map]; tstep.
Qed.
Lemma nested_delete_many_ok s rf : makes s (opt_ok field_ok) (nested_delete_many_field idm rf).
Proof. unfold nested_delete_many_field. makes_parts. Qed.
Lemma nested_set_ok s rf : makes s (opt_ok field_ok) (nested_set_input_field idm rf).
Proof. unfold nested_set_input_field. makes_parts. Qed.
Lemma nested_disconnect_ok s rf : makes s (opt_ok field_ok) (nested_disconnect_input_field idm rf).
Proof. unfold nested_disconnect_input_field. makes_parts. Qed.
Lemma nested_delete_ok s rf : makes s (opt_ok field_ok) (nested_delete_input_field idm rf).
Proof. unfold nested_delete_input_field. makes_parts. Qed.
#[local] Hint Resolve nested_update_many_ok nested_delete_many_ok nested_set_ok nested_disconnect_ok nested_delete_ok : makes_parts.
Lemma upsert_list_ok s rf o : o < ni s -> makes s (opt_ok ref_in) (nested_upsert_list_input_object idm rf o).
Proof.
  intros Ho. unfold nested_upsert_list_input_object. do 4 tstep. eapply (makes_bind anything); [makes_parts|]. intros e u Gn Gk _. tstep; [tstep|]. tstep.
  eapply (makes_bind ref_in); [|intros; tstep]. makes_parts.
Qed.
Lemma upsert_nonlist_ok s rf o : o < ni s -> makes s (opt_ok ref_in) (nested_upsert_nonlist_input_object idm rf o).
Proof. intros Ho. unfold nested_upsert_nonlist_input_object. do 3 tstep. tstep; [tstep|]. tstep. eapply (makes_bind ref_in); [|intros; tstep]. makes_parts. Qed.
Section update.
Context (update : RelationField -> SM nat) (Hupdate : forall u rf, makes u ref_in (update rf)).
Lemma nested_upsert_ok s rf : makes s (opt_ok field_ok) (nested_upsert_field idm update rf).
Proof.
  unfold nested_upsert_field. eapply makes_bind; [apply Hupdate|]. intros d u Gn Gk Hd. unfold ref_in in Hd.
  eapply (makes_bind (opt_ok ref_in)); [destruct (rf_is_list rf); [by apply upsert_list_ok|by apply upsert_nonlist_ok]|].
  intros [o|] u2 Gn2 Gk2 Ho; cbn [fmap option_fmap option_map]; tstep.
Qed.
Lemma nested_update_ok s rf : makes s field_ok (nested_update_input_field idm update rf).
Proof.
  unfold nested_update_input_field. eapply (makes_bind ref_in); [|intros; tstep]. unfold input_object_type_nested_update. tstep.
  eapply makes_bind; [apply Hupdate|]. intros d u Gn Gk Hd. makes_parts.
Qed.
Lemma update_operations_ok s rf : makes s (list_ok field_ok) (nested_update_operations idm update rf).
Proof.
  unfold nested_update_operations. do 5 tstep. eapply makes_bind; [apply nested_update_ok|]. intros up u Gn Gk Hup. do 2 tstep.
  eapply makes_bind; [apply nested_upsert_ok|]. intros ups u2 Gn2 Gk2 Hups. cbn [foldl]. tstep.
Qed.
Lemma relation_update_ok s pf rf : makes s (opt_ok field_ok) (relation_input_field_update idm update pf rf).
Proof.
  unfold relation_input_field_update. do 2 tstep. tstep; [tstep|]. eapply (makes_bind ref_in); [|intros; tstep]. tstep. apply update_operations_ok.
Qed.
Lemma update_relations_ok s m pf : makes s (list_ok field_ok) (relation_input_fields_for_update idm update m pf).
Proof.
  unfold relation_input_fields_for_update. eapply makes_bind; [apply (makes_map (opt_ok field_ok)); [mono_tac|]|intros; tstep]. intros rf u Gn Gk _. apply relation_update_ok.
Qed.
Lemma build_update_ok s rf : makes s ref_in (build_update_data idm update rf).
Proof. unfold build_update_data. do 4 tstep. eapply makes_bind; [apply update_relations_ok|]. intros; tstep. Qed.
End update.
Lemma update_data_ok fuel : forall s rf, makes s ref_in (nested_update_data_at idm fuel rf).
Proof. induction fuel as [|fuel IH]; intros s rf; cbn [nested_update_data_at]; [makes_parts|]. by apply build_update_ok. Qed.
Lemma update_type_key s m : makes_by grow s (cached_as InputCache (qm_name m +:+ "UpdateInput")) (update_input_type idm m).
Proof. apply makes_cached_key; [done|]. intros self s' _ _ _. tstep. eapply makes_bind; [apply update_relations_ok; intros; apply update_data_ok|]. intros; tstep. Qed.
Lemma update_type_ok s m : makes s ref_in (update_input_type idm m).
Proof. eapply (makes_keyed _ InputCache), update_type_key. Qed.
Lemma update_many_type_ok s m : makes s ref_in (update_many_input_type m).
Proof.
  eapply (makes_keyed _ InputCache), makes_unless_cached, makes_by_bind; [apply update_scalars_ok|]. intros fs u K G Hf. by apply makes_filled_input.
Qed.
#[local] Hint Resolve update_type_ok update_many_type_ok : makes_parts.

(** ** Output types and operations *)
Lemma model_object_ok s m : makes s ref_out (map_model_object_type m).
Proof.
  unfold map_model_object_type. tstep. apply makes_lift. intros r Hr. destruct a as [x|]; [|done]. by injection Hr as <-.
Qed.
#[local] Hint Resolve model_object_ok : makes_parts.
Lemma where_argument_ok s m : makes s arg_ok (where_argument idm capabilities m).
Proof. unfold where_argument. makes_parts. Qed.
#[local] Hint Resolve where_argument_ok : makes_parts.
Lemma many_arguments_ok s m : makes s (list_ok arg_ok) (many_records_arguments idm capabilities m).
Proof. unfold many_records_arguments. makes_parts. Qed.
#[local] Hint Resolve many_arguments_ok : makes_parts.
Lemma many_field_arguments_ok s f : makes s (list_ok arg_ok) (many_records_field_arguments idm capabilities f).
Proof. unfold many_records_field_arguments. makes_parts. Qed.
#[local] Hint Resolve many_field_arguments_ok : makes_parts.
Lemma scalar_output_ok {E} k f t : map_scalar_output (E := E) f = Ok t -> out_ok k t.
Proof.
  unfold map_scalar_output, map_enum_field. destruct (sf_type_identifier f); try (by intros [= <-]). destruct (sf_internal_enum f); [|done]. by intros [= <-].
Qed.
Lemma output_type_ok s f : makes s output_ok (map_output_type idm f).
Proof.
  unfold map_output_type. eapply (makes_bind output_ok).
  - destruct f as [rf|sf]; [makes_parts|apply makes_lift; intros t; apply scalar_output_ok].
  - intros t u Gn Gk Ht. apply makes_ret. unfold output_ok in *. by destruct (is_scalar f && mf_is_list f), (mf_is_required f).
Qed.
#[local] Hint Resolve output_type_ok : makes_parts.
Lemma map_field_ok s f : makes s object_field_ok (map_field idm capabilities f).
Proof. unfold map_field. makes_parts. Qed.
Lemma compute_fields_ok s m : makes s (list_ok object_field_ok) (compute_fields idm capabilities m).
Proof. apply makes_map; [mono_tac|]. intros; apply map_field_ok. Qed.
#[local] Hint Resolve compute_fields_ok : makes_parts.
Lemma model_objects_ok s : makes s anything (compute_model_object_types idm capabilities).
Proof.
  unfold compute_model_object_types. eapply makes_bind; [apply makes_for; intros m s' _ _ _|intros; apply makes_for; intros; makes_parts].
  apply makes_new_object. intros o u K Ho _ _ Hu x v H. destruct (makes_cache_insert u ObjectCache (qm_name m) o Ho ltac:(done) Hu x v H) as (Kv & Gv & Cv). split_and!; [done|done|done|by exists (qm_name m)].
Qed.
Lemma batch_payload_ok s : makes s ref_out batch_payload_object_type.
Proof.
  eapply (makes_keyed _ ObjectCache), makes_unless_cached.
  assert (Hassoc : forall u, (o ← object_type "BatchPayload" [count_field []] None; _ ← cache_insert ObjectCache "BatchPayload" o; mret o) u =
    (o ← ObjectType_new "BatchPayload" None; _ ← set_object_fields o [count_field []]; _ ← cache_insert ObjectCache "BatchPayload" o; mret o) u).
  { intros u. unfold object_type, mbind, SM_bind, eff_bind. destruct (ObjectType_new _ _ u) as [[o| |] u1]; [|done..]. by destruct (set_object_fields o _ u1) as [[[]| |] u2]. }
  intros Hs r s'. rewrite Hassoc. revert Hs r s'. apply makes_new_object. intros o u K Ho _ _. apply makes_filled_object; [valid|done].
Qed.
Lemma aggregation_ok s m : makes s ref_out (aggregation_object_type idm capabilities m).
Proof.
  unfold aggregation_object_type. tstep. eapply (makes_keyed _ ObjectCache), makes_unless_cached. apply makes_new_object. intros o u K Ho _ _.
  eapply makes_by_bind; [apply many_arguments_ok|]. intros args v Kv Gv Hargs. pose proof (gr_outputs _ _ _ _ Gv). apply makes_filled_object; [valid|lia].
Qed.
#[local] Hint Resolve batch_payload_ok aggregation_ok : makes_parts.
Lemma where_unique_argument_ok s m : makes s (opt_ok arg_ok) (where_unique_argument idm m).
Proof. unfold where_unique_argument. do 2 tstep. destruct a0; tstep. Qed.
#[local] Hint Resolve where_unique_argument_ok : makes_parts.
Lemma create_arguments_ok s m : makes s (opt_ok (list_ok arg_ok)) (create_arguments idm m).
Proof. unfold create_arguments. do 2 tstep. destruct a0; tstep. Qed.
Lemma delete_arguments_ok s m : makes s (opt_ok (list_ok arg_ok)) (delete_arguments idm m).
Proof. unfold delete_arguments. tstep. destruct a; cbn [fmap option_fmap option_map]; tstep. Qed.
Lemma update_arguments_ok s m : makes s (opt_ok (list_ok arg_ok)) (update_arguments idm m).
Proof. unfold update_arguments. makes_parts. Qed.
Lemma upsert_arguments_ok s m : makes s (opt_ok (list_ok arg_ok)) (upsert_arguments idm m).
Proof. unfold upsert_arguments. tstep. tstep; [|tstep]. do 3 tstep. eapply (makes_bind anything); [makes_parts|]. intros [|] u Gn Gk _; tstep. Qed.
Lemma update_many_arguments_ok s m : makes s (list_ok arg_ok) (update_many_arguments idm capabilities m).
Proof. unfold update_many_arguments. makes_parts. Qed.
Lemma delete_many_arguments_ok s m : makes s (list_ok arg_ok) (delete_many_arguments idm capabilities m).
Proof. unfold delete_many_arguments. makes_parts. Qed.
#[local] Hint Resolve create_arguments_ok delete_arguments_ok update_arguments_ok upsert_arguments_ok update_many_arguments_ok delete_many_arguments_ok : makes_parts.
Section operations.
Context (mode : BuildMode) (raw : bool).
(** A field for an operation on a model. *)
Definition operation_ok (m : QueryModel) (tag : QueryTag) : validity SchemaField := fun n k f => object_field_ok n k f /\ fld_query_builder f = Some (ModelQueryBuilder m tag).
Lemma mono_operation m tag : mono (operation_ok m tag).
Proof. intros n k n' k' f Hn Hk [Hf Ht]. split; [by eapply mono_object_field|done]. Qed.
Lemma model_field_ok n k name args t m tag : list_ok arg_ok n k args -> out_ok k t -> operation_ok m tag n k (model_field name args t m tag).
Proof. done. Qed.
Lemma default_list_ok {A} (V : validity A) n k o : opt_ok (list_ok V) n k o -> list_ok V n k (default [] o).
Proof. by destruct o; [|constructor]. Qed.
Ltac operation := apply makes_ret; try (cbn [opt_ok]); apply model_field_ok; [first [apply default_list_ok; valid|valid]|unfold ref_out in *; cbn; lia].
Lemma single_item_ok s m : makes s (opt_ok (operation_ok m TagFindOne)) (single_item_field idm mode m).
Proof. unfold single_item_field. tstep. tstep; [|tstep]. do 2 tstep. operation. Qed.
Lemma all_items_ok s m : makes s (operation_ok m TagFindMany) (all_items_field idm capabilities mode m).
Proof. unfold all_items_field. do 4 tstep. operation. Qed.
Lemma aggregation_field_ok s m : makes s (operation_ok m TagAggregate) (aggregation_field idm capabilities mode m).
Proof. unfold aggregation_field. tstep. operation. Qed.
Lemma create_item_ok s m : makes s (operation_ok m TagCreateOne) (create_item_field idm mode m).
Proof. unfold create_item_field. do 2 tstep. operation. Qed.
Lemma one_item_ok s args name typ m tag : opt_ok (list_ok arg_ok) (ni s) (no s) args -> (forall k o, o < k -> out_ok k (typ o)) -> makes s (opt_ok (operation_ok m tag)) (one_item_field mode args name typ m tag).
Proof. intros Ha Ht. unfold one_item_field. tstep; [|tstep]. tstep. apply makes_ret. apply model_field_ok; [valid|by apply Ht]. Qed.
Lemma delete_item_ok s m : makes s (opt_ok (operation_ok m TagDeleteOne)) (delete_item_field idm mode m).
Proof. unfold delete_item_field. tstep. by apply one_item_ok. Qed.
Lemma update_item_ok s m : makes s (opt_ok (operation_ok m TagUpdateOne)) (update_item_field idm mode m).
Proof. unfold update_item_field. tstep. by apply one_item_ok. Qed.
Lemma upsert_item_ok s m : makes s (opt_ok (operation_ok m TagUpsertOne)) (upsert_item_field idm mode m).
Proof. unfold upsert_item_field. tstep. by apply one_item_ok. Qed.
Lemma many_field_ok s args name m tag : list_ok arg_ok (ni s) (no s) args -> makes s (operation_ok m tag) (many_field mode args name m tag).
Proof. intros Ha. unfold many_field. do 2 tstep. operation. Qed.
Lemma update_many_field_ok s m : makes s (operation_ok m TagUpdateMany) (update_many_field idm capabilities mode m).
Proof. unfold update_many_field. tstep. by apply many_field_ok. Qed.
Lemma delete_many_field_ok s m : makes s (operation_ok m TagDeleteMany) (delete_many_field idm capabilities mode m).
Proof. unfold delete_many_field. tstep. by apply many_field_ok. Qed.

(** *** When there are operations on one record *)
(** There is a value exactly when records can be named by a unique key. *)
Definition with_unique {A} (m : QueryModel) (s : BuilderState) (o : option A) : Prop := exists w, type_fields s (unique_name m) w /\ present o = has_fields w.
Lemma unique_argument_exact s m : makes_by grow s (with_unique m) (where_unique_argument idm m).
Proof.
  eapply makes_by_bind; [apply where_unique_key|]. intros r u K G Hr. eapply makes_by_bind; [by apply makes_has_fields|]. intros b v _ _ (w & Hw & Hb) Hv o v' [= <- <-].
  split_and!; [done|reflexivity|]. exists w. split; [done|]. rewrite <-Hb. by destruct b.
Qed.
Lemma with_unique_then {A B} m s o (f : SM B) (P : BuilderState -> B -> Prop) : with_unique (A := A) m s o -> makes_by grow s P f ->
  makes_by grow s (fun u b => P u b /\ with_unique m u o) f.
Proof.
  intros (w & Hw & Ho) Hf Hs b u H. destruct (Hf Hs b u H) as (K & G & HP). split_and!; [done|done|done|]. exists w. split; [by eapply type_fields_grow|done].
Qed.
Lemma one_item_present s args name typ m tag : makes_by grow s (fun u o => present o = present args) (one_item_field mode args name typ m tag).
Proof.
  destruct args as [args|]; [|by intros Hs a s' [= <- <-]]. eapply makes_by_bind; [apply model_object_ok|]. by intros r u _ _ _ Hu a s' [= <- <-].
Qed.
Lemma with_unique_present {A B} m s (o : option A) (o' : option B) : with_unique m s o -> present o' = present o -> with_unique m s o'.
Proof. intros (w & Hw & Ho) He. exists w. by rewrite He. Qed.
Lemma one_item_exact s args name typ m tag : with_unique m s args -> makes_by grow s (with_unique m) (one_item_field mode args name typ m tag).
Proof.
  intros Ha Hs o u H. destruct (with_unique_then _ _ _ _ _ Ha (one_item_present s args name typ m tag) Hs o u H) as (K & G & Ho & Hu). split_and!; [done|done|]. by eapply with_unique_present.
Qed.
Lemma single_item_exact s m : makes_by grow s (with_unique m) (single_item_field idm mode m).
Proof.
  eapply makes_by_bind; [apply unique_argument_exact|]. intros [arg|] u K G Ha; [|by intros Hs a s' [= <- <-]]. eapply makes_by_bind; [eapply with_unique_then, makes_lift_any; exact Ha|].
  intros n v Kv Gv [_ Hv]. eapply makes_by_bind; [eapply with_unique_then, model_object_ok; exact Hv|]. intros r z _ _ [_ (w & Hw & Hz)] Hs a s' [= <- <-]. split_and!; [done|reflexivity|by exists w].
Qed.
Lemma delete_item_exact s m : makes_by grow s (with_unique m) (delete_item_field idm mode m).
Proof.
  eapply (makes_by_bind (with_unique m)); [|intros args u K G Ha; by apply one_item_exact]. eapply makes_by_bind; [apply unique_argument_exact|]. intros arg u K G Ha Hs a s' [= <- <-].
  split_and!; [done|reflexivity|]. eapply with_unique_present; [exact Ha|]. by destruct arg.
Qed.
Lemma update_item_exact s m : makes_by grow s (with_unique m) (update_item_field idm mode m).
Proof.
  eapply (makes_by_bind (with_unique m)); [|intros args u K G Ha; by apply one_item_exact]. eapply makes_by_bind; [apply unique_argument_exact|].
  intros [arg|] u K G Ha; [|by intros Hs a s' [= <- <-]]. eapply makes_by_bind; [eapply with_unique_then, update_type_ok; exact Ha|]. intros r v _ _ [_ (w & Hw & Hv)] Hs a s' [= <- <-]. split_and!; [done|reflexivity|by exists w].
Qed.
(** For an upsert there must also be something to update and something to create. *)
Definition upsertable (fields_of : string -> list InputField -> Prop) (m : QueryModel) (w c : list InputField) (p : bool) : Prop :=
  if has_fields w then exists u, fields_of (qm_name m +:+ "UpdateInput") u /\ p = has_fields u && has_fields c else p = false.
Definition with_upsert {A} (m : QueryModel) (c : list InputField) (s : BuilderState) (o : option A) : Prop :=
  exists w, type_fields s (unique_name m) w /\ upsertable (type_fields s) m w c (present o).
Lemma upsertable_impl (T U : string -> list InputField -> Prop) m w c p : (forall n fs, T n fs -> U n fs) -> upsertable T m w c p -> upsertable U m w c p.
Proof. intros HTU. unfold upsertable. destruct (has_fields w); [|done]. intros (u & Hu & Hp). exists u. auto. Qed.
Lemma with_upsert_grow {A B} m c s s' (o : option A) (o' : option B) : grow s s' -> present o' = present o -> with_upsert m c s o -> with_upsert m c s' o'.
Proof.
  intros G He (w & Hw & Ho). exists w. split; [by eapply type_fields_grow|]. rewrite He. eapply upsertable_impl; [|exact Ho]. intros n fs. by eapply type_fields_grow.
Qed.
Lemma upsert_arguments_exact s m c : type_fields s (qm_name m +:+ "CreateInput") c -> makes_by grow s (with_upsert m c) (upsert_arguments idm m).
Proof.
  intros Hc. eapply makes_by_bind; [apply unique_argument_exact|]. intros [arg|] u K G (w & Hw & Ha); cbn in Ha.
  2: { intros Hs a s' [= <- <-]. split_and!; [done|reflexivity|]. exists w. split; [done|]. unfold upsertable. by rewrite <-Ha. }
  eapply makes_by_bind; [apply update_type_key|]. intros ut v Kv Gv Hut. eapply makes_by_bind; [apply create_type_key|]. intros ct x Kx Gx Hct.
  eapply makes_by_bind; [apply makes_has_fields; by eapply cached_grow_as|]. intros nu y Ky Gy (fu & Hfu & Hnu).
  assert (Gsy : grow s y) by (by do 3 (etrans; [eassumption|])). eapply (makes_by_bind (fun _ nc => negb nc = has_fields fu && has_fields c)).
  - destruct nu; cbn in Hnu; rewrite <-Hnu; [by intros Hs nc z [= <- <-]|]. intros Hs nc z H.
    destruct (makes_has_fields y _ ct (cached_grow_as _ _ _ _ _ Gy Hct) Hs nc z H) as (Kz & Gz & fc & Hfc & Hnc). split_and!; [done|done|]. cbn. rewrite Hnc. f_equal.
    eapply type_fields_fun; [exact Hfc|]. eapply type_fields_grow; [|exact Hc]. by etrans.
  - intros nc z Kz Gz Hnc Hs a s' [= <- <-]. split_and!; [done|reflexivity|]. exists w. split; [eapply type_fields_grow; [|exact Hw]; by do 3 (etrans; [eassumption|])|].
    unfold upsertable. rewrite <-Ha. exists fu. split; [by eapply type_fields_grow|]. rewrite <-Hnc. by destruct nc.
Qed.
Lemma upsert_item_exact s m c : type_fields s (qm_name m +:+ "CreateInput") c -> makes_by grow s (with_upsert m c) (upsert_item_field idm mode m).
Proof.
  intros Hc. eapply makes_by_bind; [by apply upsert_arguments_exact|]. intros args u K G Ha Hs o v H. destruct (one_item_present u args _ _ _ _ Hs o v H) as (Kv & Gv & Ho).
  split_and!; [done|done|]. by eapply with_upsert_grow.
Qed.
Lemma create_item_exact s m : makes_by grow s (fun u _ => exists c, type_fields u (qm_name m +:+ "CreateInput") c) (create_item_field idm mode m).
Proof.
  eapply (makes_by_bind (fun u _ => exists c, type_fields u (qm_name m +:+ "CreateInput") c)).
  - eapply makes_by_bind; [apply create_type_key|]. intros r u K G Hr. eapply makes_by_bind; [by apply makes_has_fields|]. intros b v _ _ (c & Hc & _) Hs a s' [= <- <-].
    split_and!; [done|reflexivity|by exists c].
  - intros args u K G (c & Hc). eapply makes_by_bind; [apply model_object_ok|]. intros o v Kv Gv _ Hs a s' [= <- <-]. split_and!; [done|reflexivity|]. exists c. by eapply type_fields_grow.
Qed.

(** *** The operations of a model *)
Definition builders (m : QueryModel) (tags : list QueryTag) : list (option SchemaQueryBuilder) := (fun t => Some (ModelQueryBuilder m t)) <$> tags.
Definition when {A} (b : bool) (a : A) : list A := if b then [a] else [].
Definition queries_of (m : QueryModel) (s : BuilderState) (fs : list SchemaField) : Prop :=
  list_ok object_field_ok (ni s) (no s) fs /\
  exists w, type_fields s (unique_name m) w /\ fld_query_builder <$> fs = builders m ([TagFindMany; TagAggregate] ++ when (has_fields w) TagFindOne).
Definition mutations_of (m : QueryModel) (s : BuilderState) (fs : list SchemaField) : Prop :=
  list_ok object_field_ok (ni s) (no s) fs /\
  exists w c p, type_fields s (unique_name m) w /\ type_fields s (qm_name m +:+ "CreateInput") c /\ upsertable (type_fields s) m w c p /\
    fld_query_builder <$> fs =
    builders m ([TagCreateOne] ++ when (has_fields w) TagDeleteOne ++ when (has_fields w) TagUpdateOne ++ when p TagUpsertOne ++ [TagUpdateMany; TagDeleteMany]).
Lemma fields_grow xi xo s s' fs : grows xi xo s s' -> list_ok object_field_ok (ni s) (no s) fs -> list_ok object_field_ok (ni s') (no s') fs.
Proof. intros G. exact (mono_list _ mono_object_field _ _ _ _ _ (gr_inputs _ _ _ _ G) (gr_outputs _ _ _ _ G)). Qed.
Lemma queries_grow xi xo m s s' fs : grows xi xo s s' -> queries_of m s fs -> queries_of m s' fs.
Proof. intros G [H1 (w & Hw & Hb)]. split; [by eapply fields_grow|]. exists w. split; [by eapply type_fields_grow|done]. Qed.
Lemma mutations_grow xi xo m s s' fs : grows xi xo s s' -> mutations_of m s fs -> mutations_of m s' fs.
Proof.
  intros G [H1 (w & c & p & Hw & Hc & Hp & Hb)]. split; [by eapply fields_grow|]. exists w, c, p.
  split_and!; [by eapply type_fields_grow..| |done]. eapply upsertable_impl; [|exact Hp]. intros n fs'. by eapply type_fields_grow.
Qed.
Lemma makes_map2 {A B} (P : A -> BuilderState -> B -> Prop) s (f : A -> SM B) l : (forall a u v b, grow u v -> P a u b -> P a v b) -> (forall a u, makes_by grow u (P a) (f a)) ->
  makes_by grow s (fun u bs => Forall2 (fun a b => P a u b) l bs) (eff_map f l).
Proof.
  intros HP Hf. revert s. induction l as [|a l IH]; intros s; cbn [eff_map]; [intros Hs bs s' [= <- <-]; split_and!; [done|reflexivity|constructor]|].
  eapply makes_by_bind; [apply Hf|]. intros b s1 K1 G1 Hb. eapply makes_by_bind; [apply IH|]. intros bs s2 K2 G2 Hbs Hs r s' [= <- <-]. split_and!; [done|reflexivity|].
  constructor; [by eapply HP|done].
Qed.
Lemma operation_grow m tag s s' f : grow s s' -> operation_ok m tag (ni s) (no s) f -> operation_ok m tag (ni s') (no s') f.
Proof. intros G. exact (mono_operation m tag _ _ _ _ _ (gr_inputs _ _ _ _ G) (gr_outputs _ _ _ _ G)). Qed.
Lemma operation_opt_grow m tag s s' f : grow s s' -> opt_ok (operation_ok m tag) (ni s) (no s) f -> opt_ok (operation_ok m tag) (ni s') (no s') f.
Proof. intros G. exact (mono_opt _ (mono_operation m tag) _ _ _ _ _ (gr_inputs _ _ _ _ G) (gr_outputs _ _ _ _ G)). Qed.
Lemma opt_builder m tag n k o : opt_ok (operation_ok m tag) n k o -> opt_ok object_field_ok n k o /\ match o with Some f => [fld_query_builder f] | None => [] end = builders m (when (present o) tag).
Proof. destruct o as [f|]; [|done]. intros [H1 H2]. split; [done|]. cbn. by rewrite H2. Qed.
Lemma fields_append (l : list SchemaField) o : fld_query_builder <$> append_opt l o = (fld_query_builder <$> l) ++ match o with Some f => [fld_query_builder f] | None => [] end.
Proof. destruct o; cbn [append_opt]; [by rewrite fmap_app|by rewrite app_nil_r]. Qed.
Lemma query_fields_ok s m : makes_by grow s (queries_of m) (query_fields idm capabilities mode m).
Proof.
  eapply makes_by_bind; [apply all_items_ok|]. intros f1 u1 K1 G1 H1. eapply makes_by_bind; [apply aggregation_field_ok|]. intros f2 u2 K2 G2 H2.
  eapply makes_by_bind; [apply makes_both; [apply single_item_ok|apply single_item_exact]|]. intros f3 u3 K3 G3 [H3 (w & Hw & Ho)] Hs fs s' [= <- <-]. split_and!; [done|reflexivity|].
  assert (G13 : grow u1 u3) by (by etrans). apply (operation_grow _ _ _ _ _ G13) in H1 as [O1 B1]. apply (operation_grow _ _ _ _ _ G3) in H2 as [O2 B2]. apply opt_builder in H3 as [O3 B3].
  split; [apply list_ok_append; [repeat (apply list_ok_cons; [done|]); constructor|done]|]. exists w. split; [done|]. rewrite <-Ho, fields_append, B3. cbn. by rewrite B1, B2.
Qed.
Lemma mutation_fields_ok s m : makes_by grow s (mutations_of m) (mutation_fields idm capabilities mode m).
Proof.
  eapply makes_by_bind; [apply makes_both; [apply create_item_ok|apply create_item_exact]|]. intros f1 u1 K1 G1 [H1 (c & Hc)].
  eapply makes_by_bind; [apply makes_both; [apply delete_item_ok|apply delete_item_exact]|]. intros f2 u2 K2 G2 [H2 (w & Hw & E2)].
  eapply makes_by_bind; [apply makes_both; [apply update_item_ok|apply update_item_exact]|]. intros f3 u3 K3 G3 [H3 (w3 & Hw3 & E3)].
  assert (Hc3 : type_fields u3 (qm_name m +:+ "CreateInput") c) by (eapply type_fields_grow; [|exact Hc]; by etrans).
  eapply makes_by_bind; [apply makes_both; [apply upsert_item_ok|by apply upsert_item_exact]|]. intros f4 u4 K4 G4 [H4 (w4 & Hw4 & E4)].
  eapply makes_by_bind; [apply update_many_field_ok|]. intros f5 u5 K5 G5 H5. eapply makes_by_bind; [apply delete_many_field_ok|]. intros f6 u6 K6 G6 H6 Hs fs s' [= <- <-].
  split_and!; [done|reflexivity|].
  assert (w3 = w) as -> by (eapply type_fields_fun; [exact Hw3|by eapply type_fields_grow]). assert (w4 = w) as -> by (eapply type_fields_fun; [exact Hw4|by eapply type_fields_grow]).
  assert (G46 : grow u4 u6) by (by etrans). assert (G36 : grow u3 u6) by (by etrans). assert (G26 : grow u2 u6) by (by etrans). assert (G16 : grow u1 u6) by (by etrans).
  apply (operation_grow _ _ _ _ _ G16) in H1 as [O1 B1]. apply (operation_grow _ _ _ _ _ G6) in H5 as [O5 B5]. destruct H6 as [O6 B6].
  apply (operation_opt_grow _ _ _ _ _ G26), opt_builder in H2 as [O2 B2]. apply (operation_opt_grow _ _ _ _ _ G36), opt_builder in H3 as [O3 B3]. apply (operation_opt_grow _ _ _ _ _ G46), opt_builder in H4 as [O4 B4].
  split; [cbn [foldl]; apply list_ok_app; [repeat (apply list_ok_append; [|done])|]; repeat (apply list_ok_cons; [done|]); constructor|].
  exists w, c, (present f4). split_and!; [eapply type_fields_grow; [|exact Hw4]; done|eapply type_fields_grow; [|exact Hc3]; done| |].
  - eapply upsertable_impl; [|exact E4]. intros n fs. by eapply type_fields_grow.
  - cbn [foldl]. rewrite fmap_app, !fields_append, B2, B3, B4, E2, E3. unfold builders. rewrite !fmap_app. cbn. by rewrite B1, B5, B6, <-!app_assoc.
Qed.
End operations.
End idm.
End parts.

(** ** The schema *)
Section schema.
Context `{VT : ValueTypes} {VO : ValueOrd VT} `{IT : Itertools} {INF : Inflections}.
Abbreviation ni s := (length (input_cells s)).
Abbreviation no s := (length (output_cells s)).
(** Every reference leads to a type that the schema holds. *)
Fixpoint known_in (qs : QuerySchema) (t : InputType) : Prop :=
  match t with InObject r => is_Some (input_object_types qs !! r) | InList t | InOpt t | InNull t => known_in qs t | InScalar _ | InEnum _ => True end.
Fixpoint known_out (qs : QuerySchema) (t : OutputType) : Prop :=
  match t with OutObject r => is_Some (output_object_types qs !! r) | OutList t | OutOpt t => known_out qs t | OutScalar _ | OutEnum _ => True end.
Definition schema_closed (qs : QuerySchema) : Prop :=
  map_Forall (fun _ o => Forall (fun f => known_in qs (if_type f)) (iot_fields o)) (input_object_types qs) /\
  map_Forall (fun _ o => Forall (fun f => Forall (fun a => known_in qs (sa_type a)) (fld_arguments f) /\ known_out qs (fld_type f)) (ot_fields o)) (output_object_types qs).
(** The schema has an input type of the name with the fields. *)
Definition schema_type (qs : QuerySchema) (name : string) (fs : list InputField) : Prop := exists r, input_object_types qs !! r = Some (mkInputObjectType name fs).
Lemma known_in_le qs n t : (forall r, r < n -> is_Some (input_object_types qs !! r)) -> in_ok n t -> known_in qs t.
Proof. intros Hn. induction t; cbn; auto. Qed.
Lemma known_out_le qs k t : (forall r, r < k -> is_Some (output_object_types qs !! r)) -> out_ok k t -> known_out qs t.
Proof. intros Hk. induction t; cbn; auto. Qed.

(** *** The types that are kept *)
Section kept.
Context {C T : Type} (finish : C -> outcome Empty_set T) (cells : list C) (refs : list nat) (m : gmap nat T) (Hkept : kept_types finish cells refs = Ok m).
Lemma kept_elem types : map_m (fun r => c ← unwrap (E := Empty_set) weak_invalid (cells !! r); t ← finish c; Ok (r, t)) refs = Ok types ->
  (forall r t, (r, t) ∈ types -> r ∈ refs /\ exists c, cells !! r = Some c /\ finish c = Ok t) /\ (forall r, r ∈ refs -> exists t, (r, t) ∈ types).
Proof.
  clear Hkept. intros H%map_m_Forall2. induction H as [|r p refs' types Hp _ [IH1 IH2]]; [split; [by intros r t Ht%elem_of_nil|by intros r Hr%elem_of_nil]|].
  destruct (cells !! r) as [c|] eqn:Ec; [|done]. cbn [unwrap mbind outcome_bind] in Hp. destruct (finish c) as [t| |] eqn:Et; [|done..]. injection Hp as <-. split.
  - intros r' t' [[= -> ->]|Ht]%elem_of_cons; [split; [by left|by exists c]|]. destruct (IH1 _ _ Ht). split; [by right|done].
  - intros r' [->|Hr]%elem_of_cons; [exists t; by left|]. destruct (IH2 _ Hr) as (t' & Ht'). exists t'. by right.
Qed.
Lemma kept_from r t : m !! r = Some t -> exists c, cells !! r = Some c /\ finish c = Ok t.
Proof.
  unfold kept_types in Hkept. destruct (map_m _ refs) as [types| |] eqn:E; [|done..]. injection Hkept as <-. intros H%elem_of_list_to_map_2. by apply (kept_elem _ E) in H as [_ H].
Qed.
Lemma kept_all r : r ∈ refs -> is_Some (m !! r).
Proof.
  unfold kept_types in Hkept. destruct (map_m _ refs) as [types| |] eqn:E; [|done..]. injection Hkept as <-. intros (t & Ht)%(proj2 (kept_elem _ E)). exists t.
  apply elem_of_list_to_map_1'; [|done]. intros t' Ht'. apply (kept_elem _ E) in Ht as (_ & c & Hc & Hf). apply (kept_elem _ E) in Ht' as (_ & c' & Hc' & Hf').
  rewrite Hc in Hc'. injection Hc' as <-. rewrite Hf in Hf'. by injection Hf'.
Qed.
Lemma kept_cell r c t : r ∈ refs -> cells !! r = Some c -> finish c = Ok t -> m !! r = Some t.
Proof.
  intros (t' & Ht')%kept_all Hc Hf. destruct (kept_from _ _ Ht') as (c' & Hc' & Hf'). rewrite Hc in Hc'. injection Hc' as <-. rewrite Hf in Hf'. by injection Hf' as <-.
Qed.
End kept.
Lemma cache_refs (cache : gmap string nat) k i : cache !! k = Some i -> i ∈ (map_to_list cache).*2.
Proof. intros H%elem_of_map_to_list. apply list_elem_of_fmap. by exists (k, i). Qed.
Lemma empty_ok : state_ok BuilderState_empty.
Proof. split; cbn; [by intros k r Hk; rewrite lookup_empty in Hk..|constructor|constructor]. Qed.

Context (idm : InternalDataModel) (capabilities : list ConnectorCapability) (mode : BuildMode) (raw : bool).
Definition raw_fields : list SchemaField := if raw then [create_execute_raw_field; create_query_raw_field] else [].
(** *** Collecting the types *)
Section collected.
Context (s : BuilderState) (q m : nat) (qs : QuerySchema) (s' : BuilderState) (Hs : state_ok s).
Context (Hgrows : grows none (fun i => i = q \/ i = m) BuilderState_empty s).
Context (Hqs : (collected ← collect_types; QuerySchema_new idm (OutObject q) (OutObject m) collected.1 (collected.2 ++ [q; m])) s = (Ok qs, s')).
Lemma collected_kept : exists ins outs, qs = mkQuerySchema (OutObject q) (OutObject m) ins outs idm /\
  kept_types finish_input (input_cells s) ((map_to_list (input_cache s)).*2 ++ (map_to_list (filter_cache s)).*2) = Ok ins /\
  kept_types finish_output (output_cells s) ((map_to_list (object_cache s)).*2 ++ [q; m]) = Ok outs.
Proof using Hqs.
  pose proof Hqs as H. apply sm_bind_inv in H as (c & s1 & Hc & H). unfold collect_types in Hc. apply sm_bind_inv in Hc as (l1 & u1 & [= <- <-] & Hc).
  apply sm_bind_inv in Hc as (l2 & u2 & [= <- <-] & Hc). apply sm_bind_inv in Hc as (l3 & u3 & [= <- <-] & [= <- <-]). cbn [fst snd cache_of] in H.
  unfold QuerySchema_new in H. apply sm_bind_inv in H as (ic & v1 & [= <- <-] & H). apply sm_bind_inv in H as (oc & v2 & [= <- <-] & H).
  apply sm_bind_inv in H as (ins & v3 & [= Ei <-] & H). apply sm_bind_inv in H as (outs & v4 & [= Eo <-] & H). injection H as <- _. by exists ins, outs.
Qed.
Lemma collected_inputs r : r < ni s -> is_Some (input_object_types qs !! r).
Proof using Hqs Hgrows.
  destruct collected_kept as (ins & outs & -> & Hi & _). intros Hr. cbn. eapply kept_all; [exact Hi|]. destruct (gr_held_in _ _ _ _ Hgrows r) as [(c & k & Hne & Hk)|[]]; [cbn; lia|].
  apply elem_of_app. destruct c; [left|right|done]; by eapply cache_refs.
Qed.
Lemma collected_outputs r : r < no s -> is_Some (output_object_types qs !! r).
Proof using Hqs Hgrows.
  destruct collected_kept as (ins & outs & -> & _ & Ho). intros Hr. cbn. eapply kept_all; [exact Ho|]. apply elem_of_app. destruct (gr_held_out _ _ _ _ Hgrows r) as [(k & Hk)|Hx]; [cbn; lia| |].
  - left. by eapply cache_refs.
  - right. rewrite !elem_of_cons. destruct Hx; auto.
Qed.
Lemma collected_type name fs : type_fields s name fs -> schema_type qs name fs.
Proof using Hqs Hgrows.
  intros (r & c & Hr & Hc & Hf). destruct collected_kept as (ins & outs & -> & Hi & _). exists r. cbn. eapply kept_cell; [exact Hi|apply elem_of_app; left; by eapply cache_refs|exact Hc|].
  destruct (gr_keys _ _ _ _ Hgrows name r Hr) as [Hk|(c' & Hc' & Hn)]; [cbn in Hk; by rewrite lookup_empty in Hk|]. rewrite Hc in Hc'. injection Hc' as <-.
  unfold finish_input. by rewrite Hf, <-Hn.
Qed.
Lemma collected_object r name fs model : r ∈ [q; m] -> output_cells s !! r = Some (mkOutputCell name (Some fs) model) -> output_object_types qs !! r = Some (mkObjectType name fs model).
Proof using Hqs.
  intros Hr Hc. destruct collected_kept as (ins & outs & -> & _ & Ho). cbn. eapply kept_cell; [exact Ho|apply elem_of_app; by right|exact Hc|done].
Qed.
Lemma collected_closed : schema_closed qs.
Proof using Hqs Hgrows Hs.
  pose proof collected_inputs as Hin. pose proof collected_outputs as Hout. destruct collected_kept as (ins & outs & E & Hi & Ho). split.
  - intros r o Hr. rewrite E in Hr. cbn in Hr. destruct (kept_from _ _ _ _ Hi _ _ Hr) as (c & Hc & Hf). pose proof (Forall_lookup_1 _ _ _ _ (so_input_cells _ Hs) Hc) as Hok.
    unfold finish_input in Hf. destruct (ic_fields c) as [fs|] eqn:Ef; [|done]. injection Hf as <-. cbv beta in Hok. rewrite Ef in Hok. eapply Forall_impl; [exact Hok|]. intros f. by apply known_in_le.
  - intros r o Hr. rewrite E in Hr. cbn in Hr. destruct (kept_from _ _ _ _ Ho _ _ Hr) as (c & Hc & Hf). pose proof (Forall_lookup_1 _ _ _ _ (so_output_cells _ Hs) Hc) as Hok.
    unfold finish_output in Hf. destruct (oc_fields c) as [fs|] eqn:Ef; [|done]. injection Hf as <-. cbv beta in Hok. rewrite Ef in Hok. eapply Forall_impl; [exact Hok|]. intros f [Ha Ht]. split; [|by eapply known_out_le].
    eapply Forall_impl; [exact Ha|]. intros a. by apply known_in_le.
Qed.
End collected.

(** *** The whole build *)
Lemma joined_fields {A} (P : A -> BuilderState -> list SchemaField -> Prop) s l fss : (forall a fs, P a s fs -> list_ok object_field_ok (ni s) (no s) fs) ->
  Forall2 (fun a b => P a s b) l fss -> list_ok object_field_ok (ni s) (no s) (mjoin fss).
Proof. intros HP. induction 1 as [|a b l fss Hab _ IH]; cbn; [constructor|]. apply list_ok_app; [by eapply HP|done]. Qed.
Lemma query_type_built s q s' : state_ok s -> build_query_type idm capabilities mode s = (Ok q, s') ->
  exists qfs, state_ok s' /\ grows none (fun i => i = q) s s' /\ q < no s' /\ output_cells s' !! q = Some (mkOutputCell "Query" (Some (mjoin qfs)) None) /\
    Forall2 (fun m fs => queries_of m s' fs) (non_embedded_models idm) qfs.
Proof.
  intros Hs (qfs & s1 & E1 & E2)%sm_bind_inv. destruct (makes_map2 queries_of s _ _ (fun m u v b => queries_grow none none m u v b) (fun m u => query_fields_ok idm capabilities mode u m) Hs _ _ E1) as (K1 & G1 & F1).
  destruct (lays_object_type s1 "Query" (mjoin qfs) None (joined_fields queries_of _ _ _ (fun m fs H => proj1 H) F1) K1 _ _ E2) as (K2 & G2 & -> & R & Cq). exists qfs.
  split_and!; [done|etrans; [by apply grow_grows|exact G2]|done|done|]. eapply Forall2_impl; [exact F1|]. intros m fs. by eapply queries_grow.
Qed.
Lemma mutation_type_built s m s' : state_ok s -> build_mutation_type idm capabilities mode raw s = (Ok m, s') ->
  exists mfs, state_ok s' /\ grows none (fun i => i = m) s s' /\ m < no s' /\ output_cells s' !! m = Some (mkOutputCell "Mutation" (Some (mjoin mfs ++ raw_fields)) None) /\
    Forall2 (fun m fs => mutations_of m s' fs) (non_embedded_models idm) mfs.
Proof.
  intros Hs (mfs & s1 & E1 & E2)%sm_bind_inv. destruct (makes_map2 mutations_of s _ _ (fun m u v b => mutations_grow none none m u v b) (fun m u => mutation_fields_ok idm capabilities mode u m) Hs _ _ E1) as (K1 & G1 & F1).
  assert (Hraw : forall l : list SchemaField, (if raw then l ++ [create_execute_raw_field; create_query_raw_field] else l) = l ++ raw_fields) by (intros l; unfold raw_fields; destruct raw; [done|by rewrite app_nil_r]).
  cbv zeta in E2. rewrite Hraw in E2.
  assert (Hf : list_ok object_field_ok (ni s1) (no s1) (mjoin mfs ++ raw_fields)).
  { apply list_ok_app; [exact (joined_fields mutations_of _ _ _ (fun m fs H => proj1 H) F1)|]. unfold raw_fields. destruct raw; [|constructor]. apply list_ok_cons; [by repeat constructor|]. apply list_ok_cons; [by repeat constructor|constructor]. }
  destruct (lays_object_type s1 "Mutation" _ None Hf K1 _ _ E2) as (K2 & G2 & -> & R & Cm). exists mfs.
  split_and!; [done|etrans; [by apply grow_grows|exact G2]|done|done|]. eapply Forall2_impl; [exact F1|]. intros m fs. by eapply mutations_grow.
Qed.
(** C36: The schema that is built is closed: every object type that an argument, an input field or a result refers to is held by the schema, with its fields; the schema holds only what the caches of the builders hold, and the two root types. The query type has, for every model that is not embedded and in their order, findMany, aggregate and, exactly when the model's WhereUniqueInput has fields, findOne; the mutation type createOne, exactly then deleteOne and updateOne, exactly when also the model's UpdateInput and CreateInput have fields upsertOne, then updateMany and deleteMany, and at the end the raw queries when they are enabled; each with the model and the kind of its operation. *)
Theorem built_schema_closed qs : QuerySchemaBuilder_build idm capabilities mode raw = Ok qs ->
  schema_closed qs /\ qs_internal_data_model qs = idm /\
  exists query mutation qfs mfs,
    query_object (E := Empty_set) qs = Ok query /\ mutation_object (E := Empty_set) qs = Ok mutation /\
    ot_fields query = mjoin qfs /\ ot_fields mutation = mjoin mfs ++ raw_fields /\
    Forall2 (fun m fs => exists w, schema_type qs (qm_name m +:+ "WhereUniqueInput") w /\
      fld_query_builder <$> fs = builders m ([TagFindMany; TagAggregate] ++ when (has_fields w) TagFindOne)) (non_embedded_models idm) qfs /\
    Forall2 (fun m fs => exists w c p,
      schema_type qs (qm_name m +:+ "WhereUniqueInput") w /\ schema_type qs (qm_name m +:+ "CreateInput") c /\
      (if has_fields w then exists u, schema_type qs (qm_name m +:+ "UpdateInput") u /\ p = has_fields u && has_fields c else p = false) /\
      fld_query_builder <$> fs =
      builders m ([TagCreateOne] ++ when (has_fields w) TagDeleteOne ++ when (has_fields w) TagUpdateOne ++ when p TagUpsertOne ++ [TagUpdateMany; TagDeleteMany])) (non_embedded_models idm) mfs.
Proof.
  unfold QuerySchemaBuilder_build. destruct (build_schema idm capabilities mode raw BuilderState_empty) as [r s] eqn:E. cbn [fst]. intros ->. unfold build_schema in E.
  apply sm_bind_inv in E as (u & s1 & E1 & E). apply sm_bind_inv in E as (q & s2 & E2 & E). apply sm_bind_inv in E as (m & s3 & E3 & E).
  destruct (model_objects_ok idm capabilities _ empty_ok _ _ E1) as (K1 & G1 & _). destruct (query_type_built _ _ _ K1 E2) as (qfs & K2 & G2 & Rq & Cq & Fq).
  destruct (mutation_type_built _ _ _ K2 E3) as (mfs & K3 & G3 & Rm & Cm & Fm).
  assert (G : grows none (fun i => i = q \/ i = m) BuilderState_empty s3).
  { etrans; [by apply grow_grows|]. etrans; [eapply grows_weaken; [..|exact G2]|eapply grows_weaken; [..|exact G3]]; naive_solver. }
  assert (Cq' : output_cells s3 !! q = Some (mkOutputCell "Query" (Some (mjoin qfs)) None)) by (by apply (gr_set _ _ _ _ G3)).
  pose proof (collected_type _ _ _ _ _ G E) as Ht. split; [by eapply collected_closed|]. split; [by destruct (collected_kept _ _ _ _ _ E) as (ins & outs & -> & _)|].
  assert (Hobj : forall r name fs, r ∈ [q; m] -> output_cells s3 !! r = Some (mkOutputCell name (Some fs) None) -> output_object (E := Empty_set) qs r = Ok (mkObjectType name fs None)).
  { intros r name fs Hr Hc. unfold output_object. by rewrite (collected_object _ _ _ _ _ E _ _ _ _ Hr Hc). }
  exists (mkObjectType "Query" (mjoin qfs) None), (mkObjectType "Mutation" (mjoin mfs ++ raw_fields) None), qfs, mfs.
  destruct (collected_kept _ _ _ _ _ E) as (ins & outs & Eqs & _). unfold query_object, mutation_object, root_object. replace (qs_query qs) with (OutObject q) by (by rewrite Eqs). replace (qs_mutation qs) with (OutObject m) by (by rewrite Eqs).
  split_and!; [apply Hobj; [by left|done]|apply Hobj; [right; by left|done]|done|done| |].
  - eapply Forall2_impl; [exact Fq|]. intros a fs Ha. apply (queries_grow _ _ _ _ _ _ G3) in Ha as [_ (w & Hw & Hb)]. exists w. split; [by apply Ht|done].
  - eapply Forall2_impl; [exact Fm|]. intros a fs [_ (w & c & p & Hw & Hc & Hp & Hb)]. exists w, c, p. split_and!; [by apply Ht|by apply Ht|exact (upsertable_impl _ _ _ _ _ _ Ht Hp)|done].
Qed.
End schema.

(** ** The recursion over types ends

    Every call that goes on has put a new name into a cache, and there are as
    many names as models and relation fields. *)
Section recursion.
Context `{VT : ValueTypes} {VO : ValueOrd VT} `{IT : Itertools} {INF : Inflections}.
(** *** Computations that agree *)
Lemma bind_agree {A B} (V : validity A) s (m m' : SM A) (f g : A -> SM B) : state_ok s -> makes s V m -> m s = m' s ->
  (forall a u, state_ok u -> grow s u -> m s = (Ok a, u) -> f a u = g a u) -> @mbind _ SM_bind _ _ f m s = @mbind _ SM_bind _ _ g m' s.
Proof.
  intros Hs Ht Hm Hf. unfold mbind, SM_bind, eff_bind. rewrite <-Hm. destruct (m s) as [[a| |] u] eqn:E; [|done..]. destruct (Ht Hs a u E) as (Hu & Hg & _). by apply Hf.
Qed.
Lemma bind_same {A B} s (m m' : SM A) (f : A -> SM B) : m s = m' s -> @mbind _ SM_bind _ _ f m s = @mbind _ SM_bind _ _ f m' s.
Proof. unfold mbind, SM_bind, eff_bind. by intros ->. Qed.
Lemma map_agree {A B} (V : validity B) s (f g : A -> SM B) l : state_ok s -> (forall a u, makes u V (f a)) ->
  (forall a u, state_ok u -> grow s u -> a ∈ l -> f a u = g a u) -> eff_map f l s = eff_map g l s.
Proof.
  intros Hs Ht. revert s Hs. induction l as [|a l IH]; intros s Hs Hf; [done|]. cbn [eff_map]. eapply (bind_agree V); [done|apply Ht|apply Hf; [done|reflexivity|constructor]|].
  intros b u Hu Hg _. unfold mbind, eff_bind. rewrite (IH u Hu); [done|]. intros x v Hv Hgv Hx. apply Hf; [done|by etrans|by constructor].
Qed.
Definition is_cached (c : CacheName) (name : string) (s : BuilderState) : bool := match cache_of c s !! name with Some _ => true | None => false end.
Lemma cached_agree s c name f g : state_ok s -> c <> ObjectCache ->
  (forall self u, is_cached c name s = false -> state_ok u -> grow s u -> is_cached c name u = true -> f self u = g self u) -> cached_input c name f s = cached_input c name g s.
Proof.
  intros Hs Hc Hf. unfold cached_input, unless_cached. eapply bind_agree; [done|apply makes_get_cached|done|]. intros o u Hu Hg [= <- <-].
  destruct (cache_of c s !! name) as [x|] eqn:Ex; [done|]. unfold mbind, SM_bind, eff_bind. destruct (init_input_object_type name s) as [[o| |] u1] eqn:E1; [|done..].
  destruct (cache_insert c name o u1) as [[[]| |] u2] eqn:E2; [|done..]. destruct (new_cached s c name o u1 u2 Hc Hs E1 E2) as (K2 & G2 & _ & C2).
  rewrite Hf; [done|unfold is_cached; by rewrite Ex|done|done|unfold is_cached; by rewrite C2].
Qed.
(** *** Names that are still to come *)
Definition missing (c : CacheName) (names : list string) (s : BuilderState) : nat := length (iter_filter (fun n => negb (is_cached c n s)) names).
Lemma cached_grow c n s u : grow s u -> is_cached c n s = true -> is_cached c n u = true.
Proof.
  intros Hg. unfold is_cached. destruct (cache_of c s !! n) as [x|] eqn:E; [|done]. by rewrite (lookup_weaken _ _ _ _ E (gr_caches _ _ _ _ Hg c)).
Qed.
Lemma missing_grow c names s u : grow s u -> missing c names u <= missing c names s.
Proof.
  intros Hg. unfold missing. induction names as [|n names IH]; [done|]. cbn [List.filter]. destruct (is_cached c n s) eqn:E; cbn [negb].
  - rewrite (cached_grow _ _ _ _ Hg E). done.
  - destruct (is_cached c n u); cbn; lia.
Qed.
Lemma missing_less c names s u n : grow s u -> n ∈ names -> is_cached c n s = false -> is_cached c n u = true -> missing c names u < missing c names s.
Proof.
  intros Hg Hn Hs Hu. unfold missing. induction names as [|x names IH]; [by apply elem_of_nil in Hn|]. pose proof (missing_grow c names s u Hg) as Hle. unfold missing in Hle.
  cbn [List.filter]. apply elem_of_cons in Hn as [<-|Hn]; [rewrite Hs, Hu; cbn; lia|]. specialize (IH Hn).
  destruct (is_cached c x s) eqn:E; cbn [negb]; [by rewrite (cached_grow _ _ _ _ Hg E)|]. destruct (is_cached c x u); cbn; lia.
Qed.
Lemma missing_length c names s : missing c names s <= length names.
Proof. apply List.filter_length_le. Qed.

Context (idm : InternalDataModel) (capabilities : list ConnectorCapability).
Lemma related_in_idm {E} rf m : related_model (E := E) idm rf = Ok m -> m ∈ idm_models idm.
Proof.
  unfold related_model. destruct (rf_relation idm rf) as [r| |]; [|done..]. cbn [mbind outcome_bind].
  assert (Hf : forall name, unwrap_result (F := E) (idm_find_model idm name) = Ok m -> m ∈ idm_models idm).
  { intros name. unfold idm_find_model. destruct (iter_find _ _) as [x|] eqn:Ex; [|done]. cbn. intros [= <-]. apply find_some in Ex as [Ex _]. by apply list_elem_of_In. }
  destruct (rf_relation_side rf); apply Hf.
Qed.
Lemma field_in_idm m rf : m ∈ idm_models idm -> rf ∈ relation_fields_of (qm_fields m) -> rf ∈ idm_relation_fields idm.
Proof. intros Hm Hrf. unfold idm_relation_fields. apply list_elem_of_bind. by exists m. Qed.

(** *** Filters *)
Definition filter_names : list string := (fun m => qm_name m +:+ "WhereInput") <$> idm_models idm.
Abbreviation left_filters := (missing FilterCache filter_names).
Lemma filter_agree (f g : QueryModel -> SM nat) s m : state_ok s -> m ∈ idm_models idm -> (forall u m, makes u ref_in (f m)) ->
  (forall u m, state_ok u -> m ∈ idm_models idm -> left_filters u < left_filters s -> f m u = g m u) -> build_filter_object idm f m s = build_filter_object idm g m s.
Proof.
  intros Hs Hm Ht Hf. unfold build_filter_object. apply cached_agree; [done|done|]. intros self u Hnew Hu Hg Hc.
  assert (Hless : left_filters u < left_filters s) by (eapply missing_less; [done| |exact Hnew|exact Hc]; apply list_elem_of_fmap; by exists m).
  eapply bind_agree; [done|apply scalar_filter_fields_ok|done|]. intros fs u1 Hu1 Hg1 _. apply bind_same. apply (map_agree (list_ok field_ok)); [done|intros; by apply relation_filter_ok|].
  intros rf u2 Hu2 Hg2 _. unfold map_relation_filter_input_field. eapply bind_agree; [done|apply makes_lift_any|done|]. intros m' u3 Hu3 Hg3 [= Hm' <-]. apply bind_same.
  apply Hf; [done|by eapply related_in_idm|]. assert (Hgr : left_filters u2 <= left_filters u) by (apply missing_grow; by etrans). lia.
Qed.
Lemma filter_fuel fuel : forall fuel' s m, state_ok s -> m ∈ idm_models idm -> left_filters s < fuel -> left_filters s < fuel' ->
  filter_object_type_at idm capabilities fuel m s = filter_object_type_at idm capabilities fuel' m s.
Proof.
  induction fuel as [|fuel IH]; intros [|fuel'] s m Hs Hm H H'; try lia. cbn [filter_object_type_at]. destruct (capability_has _ _); [done|].
  apply filter_agree; [done|done|intros; apply filter_object_ok|]. intros u m' Hu Hm' Hless. apply IH; [done|done|lia..].
Qed.

(** *** Creating *)
Definition create_names : list string :=
  omap (fun rf => match (m ← related_model idm rf; create_input_name (E := Empty_set) idm m (Some rf)) with Ok n => Some n | _ => None end) (idm_relation_fields idm).
Abbreviation left_creates := (missing InputCache create_names).
(** What a type is created for: a model, or the related model of a relation field. *)
Definition create_for (m : QueryModel) (pf : option RelationField) : Prop :=
  m ∈ idm_models idm /\ match pf with Some rf => rf ∈ idm_relation_fields idm /\ related_model (E := Empty_set) idm rf = Ok m | None => True end.
Lemma create_type_agree (f g : QueryModel -> option RelationField -> SM nat) s m pf : state_ok s -> create_for m pf -> (forall u m pf, makes u ref_in (f m pf)) ->
  (forall u m rf, state_ok u -> create_for m (Some rf) -> left_creates u <= left_creates s -> (pf <> None -> left_creates u < left_creates s) -> f m (Some rf) u = g m (Some rf) u) ->
  build_create_input idm f m pf s = build_create_input idm g m pf s.
Proof.
  intros Hs [Hm Hpf] Ht Hf. unfold build_create_input. eapply bind_agree; [done|apply makes_lift_any|done|]. intros name u0 _ _ [= Hname <-].
  apply cached_agree; [done|done|]. intros self u Hnew Hu Hg Hc.
  assert (Hless : left_creates u <= left_creates s /\ (pf <> None -> left_creates u < left_creates s)).
  { split; [by apply missing_grow|]. intros Hne. eapply missing_less; [done| |exact Hnew|exact Hc]. destruct pf as [rf|]; [|done]. destruct Hpf as [Hrf Hrm].
    apply list_elem_of_omap. exists rf. split; [done|]. rewrite Hrm. cbn [mbind outcome_bind]. by rewrite Hname. }
  cbv zeta. eapply bind_agree; [done|apply create_scalars_ok|done|]. intros fs u1 Hu1 Hg1 _. apply bind_same. unfold relation_input_fields_create. apply bind_same.
  apply (map_agree (opt_ok field_ok)); [done|intros; by apply relation_create_ok|]. intros rf u2 Hu2 Hg2 Hrf. unfold relation_input_field_create.
  do 3 (eapply bind_agree; [done|apply makes_lift_any|done|]; intros ? ? ? ? [= ? <-]). cbv zeta.
  eapply bind_agree; [done|apply makes_lift_any|done|]. intros [|] ? ? ? [= ? <-]; [done|]. apply bind_same. apply cached_agree; [done|done|]. intros self' u3 _ Hu3 Hg3 _.
  apply bind_same. unfold nested_create_input_field. eapply bind_agree; [done|apply makes_lift_any|done|]. intros m' u4 Hu4 Hg4 [= Hm' <-]. apply bind_same.
  assert (Hgr : left_creates u3 <= left_creates u) by (apply missing_grow; by do 2 (etrans; [eassumption|])).
  apply Hf; [done|split; [by eapply related_in_idm|]; split; [by eapply field_in_idm|done]|lia|]. intros Hne. destruct Hless as [_ Hless]. specialize (Hless Hne). lia.
Qed.
Lemma create_fuel fuel : forall fuel' s m rf, state_ok s -> create_for m (Some rf) -> left_creates s < fuel -> left_creates s < fuel' ->
  create_input_type_at idm fuel m (Some rf) s = create_input_type_at idm fuel' m (Some rf) s.
Proof.
  induction fuel as [|fuel IH]; intros [|fuel'] s m rf Hs Hm H H'; try lia. cbn [create_input_type_at].
  apply create_type_agree; [done|done|intros; apply create_at_ok|]. intros u m' rf' Hu Hm' _ Hless. assert (Hl : left_creates u < left_creates s) by (by apply Hless). apply IH; [done|done|lia..].
Qed.

(** *** Updating *)
Definition update_names : list string :=
  omap (fun rf => match without_name (E := Empty_set) idm (fun m => m +:+ "Update") "DataInput" rf with Ok n => Some n | _ => None end) (idm_relation_fields idm).
Abbreviation left_updates := (missing InputCache update_names).
Lemma operations_agree (f g : RelationField -> SM nat) s rf : state_ok s -> (forall u rf, makes u ref_in (f rf)) -> (forall u, state_ok u -> grow s u -> f rf u = g rf u) ->
  nested_update_operations idm f rf s = nested_update_operations idm g rf s.
Proof.
  intros Hs Ht Hf. unfold nested_update_operations. eapply bind_agree; [done|apply create_field_ok|done|]. intros f1 u1 Hu1 Hg1 _.
  eapply bind_agree; [done|apply nested_connect_ok|done|]. intros f2 u2 Hu2 Hg2 _. eapply bind_agree; [done|apply nested_set_ok|done|]. intros f3 u3 Hu3 Hg3 _.
  eapply bind_agree; [done|apply nested_disconnect_ok|done|]. intros f4 u4 Hu4 Hg4 _. eapply bind_agree; [done|apply nested_delete_ok|done|]. intros f5 u5 Hu5 Hg5 _.
  assert (G5 : grow s u5) by (by do 4 (etrans; [eassumption|])). eapply bind_agree; [done|by apply nested_update_ok| |].
  { unfold nested_update_input_field. apply bind_same. unfold input_object_type_nested_update. eapply bind_agree; [done|apply makes_lift_any|done|]. intros m v Hv Hgv [= _ <-].
    apply bind_same. by apply Hf. }
  intros f6 u6 Hu6 Hg6 _. eapply bind_agree; [done|apply nested_update_many_ok|done|]. intros f7 u7 Hu7 Hg7 _. eapply bind_agree; [done|apply nested_delete_many_ok|done|]. intros f8 u8 Hu8 Hg8 _.
  apply bind_same. unfold nested_upsert_field. apply bind_same. apply Hf; [done|]. by do 3 (etrans; [eassumption|]).
Qed.
Lemma relations_agree (f g : RelationField -> SM nat) s m pf : state_ok s -> m ∈ idm_models idm -> (forall u rf, makes u ref_in (f rf)) ->
  (forall u rf, state_ok u -> grow s u -> rf ∈ idm_relation_fields idm -> f rf u = g rf u) ->
  relation_input_fields_for_update idm f m pf s = relation_input_fields_for_update idm g m pf s.
Proof.
  intros Hs Hm Ht Hf. unfold relation_input_fields_for_update. apply bind_same. apply (map_agree (opt_ok field_ok)); [done|intros; by apply relation_update_ok|]. intros rf u Hu Hg Hrf.
  unfold relation_input_field_update. do 2 (eapply bind_agree; [done|apply makes_lift_any|done|]; intros ? ? ? ? [= ? <-]). match goal with |- (if ?b then _ else _) _ = _ => destruct b; [done|] end.
  apply bind_same. apply cached_agree; [done|done|]. intros self v _ Hv Hgv _. apply operations_agree; [done|done|]. intros w Hw Hgw. apply Hf; [done| |by eapply field_in_idm]. by do 2 (etrans; [eassumption|]).
Qed.
Lemma update_type_agree (f g : RelationField -> SM nat) s rf : state_ok s -> rf ∈ idm_relation_fields idm -> (forall u rf, makes u ref_in (f rf)) ->
  (forall u rf, state_ok u -> rf ∈ idm_relation_fields idm -> left_updates u < left_updates s -> f rf u = g rf u) -> build_update_data idm f rf s = build_update_data idm g rf s.
Proof.
  intros Hs Hrf Ht Hf. unfold build_update_data. eapply bind_agree; [done|apply makes_lift_any|done|]. intros m u0 _ _ [= Hm <-].
  eapply bind_agree; [done|apply makes_lift_any|done|]. intros name u0 _ _ [= Hname <-]. apply cached_agree; [done|done|]. intros self u Hnew Hu Hg Hc.
  assert (Hless : left_updates u < left_updates s).
  { eapply missing_less; [done| |exact Hnew|exact Hc]. apply list_elem_of_omap. exists rf. split; [done|]. by rewrite Hname. }
  eapply bind_agree; [done|apply update_scalars_ok|done|]. intros fs u1 Hu1 Hg1 _. apply bind_same. apply relations_agree; [done|by eapply related_in_idm|done|].
  intros v rf' Hv Hgv Hrf'. apply Hf; [done|done|]. assert (Hgr : left_updates v <= left_updates u) by (apply missing_grow; by etrans). lia.
Qed.
Lemma update_fuel fuel : forall fuel' s rf, state_ok s -> rf ∈ idm_relation_fields idm -> left_updates s < fuel -> left_updates s < fuel' ->
  nested_update_data_at idm fuel rf s = nested_update_data_at idm fuel' rf s.
Proof.
  induction fuel as [|fuel IH]; intros [|fuel'] s rf Hs Hrf H H'; try lia. cbn [nested_update_data_at].
  apply update_type_agree; [done|done|intros; apply update_data_ok|]. intros u rf' Hu Hrf' Hless. apply IH; [done|done|lia..].
Qed.
Lemma omap_shorter {A B} (f : A -> option B) l : length (omap f l) <= length l.
Proof. induction l as [|a l IH]; [done|]. cbn. destruct (f a); cbn; lia. Qed.
Lemma filter_step fuel m s : filter_object_type_at idm capabilities (S fuel) m s =
  (if capability_has capabilities CapMongoJoinRelationLinks then panic unimplemented else build_filter_object idm (filter_object_type_at idm capabilities fuel) m) s.
Proof. reflexivity. Qed.
Lemma create_step fuel m pf s : create_input_type_at idm (S fuel) m pf s = build_create_input idm (create_input_type_at idm fuel) m pf s.
Proof. reflexivity. Qed.
Lemma update_step fuel rf s : nested_update_data_at idm (S fuel) rf s = build_update_data idm (nested_update_data_at idm fuel) rf s.
Proof. reflexivity. Qed.
(** C37: The types of filters and of the data to create and to update are built by the equations of the source, in which the builders call themselves without a bound on models and relation fields: the recursion ends although these types refer to each other in circles. *)
Theorem type_builders_recursive s : state_ok s ->
  (forall m, m ∈ idm_models idm -> filter_object_type idm capabilities m s =
    (if capability_has capabilities CapMongoJoinRelationLinks then panic unimplemented else build_filter_object idm (filter_object_type idm capabilities) m) s) /\
  (forall m pf, create_for m pf -> create_input_type idm m pf s = build_create_input idm (create_input_type idm) m pf s) /\
  (forall rf, rf ∈ idm_relation_fields idm -> nested_update_data idm rf s = build_update_data idm (nested_update_data idm) rf s).
Proof.
  intros Hs. set (b := 1 + length (idm_models idm) + length (idm_relation_fields idm)). change (type_bound idm) with (S b) in *. split_and!.
  - intros m Hm. unfold filter_object_type. change (type_bound idm) with (S b). rewrite filter_step. destruct (capability_has _ _); [done|].
    apply filter_agree; [done|done|intros; apply filter_object_ok|]. intros u m' Hu Hm' _. pose proof (missing_length FilterCache filter_names u) as Hl.
    unfold filter_names in Hl. rewrite length_fmap in Hl. apply (filter_fuel b (S b)); [done|done|unfold b, filter_names in *; lia..].
  - intros m pf Hm. unfold create_input_type. change (type_bound idm) with (S b). rewrite create_step.
    apply create_type_agree; [done|done|intros; apply create_at_ok|]. intros u m' rf Hu Hm' _ _. pose proof (missing_length InputCache create_names u) as Hl.
    assert (length create_names <= length (idm_relation_fields idm)) by apply omap_shorter. apply (create_fuel b (S b)); [done|done|unfold b; lia..].
  - intros rf Hrf. unfold nested_update_data. change (type_bound idm) with (S b). rewrite update_step.
    apply update_type_agree; [done|done|intros; apply update_data_ok|]. intros u rf' Hu Hrf' _. pose proof (missing_length InputCache update_names u) as Hl.
    assert (length update_names <= length (idm_relation_fields idm)) by apply omap_shorter. apply (update_fuel b (S b)); [done|done|unfold b; lia..].
Qed.
End recursion.

(** ** Types of compound keys *)
Section compound.
Context `{VT : ValueTypes} {VO : ValueOrd VT} `{IT : Itertools} {INF : Inflections}.
Lemma compound_name_same {E} alias fs fs' : (alias = None -> sf_name <$> fs = sf_name <$> fs') -> compound_object_name (E := E) alias fs = compound_object_name alias fs'.
Proof.
  destruct alias as [n|]; [done|]. intros Hn. specialize (Hn eq_refl). cbn. assert (H : map_m (E := E) (fun f => capitalize (sf_name f)) fs = map_m (fun f => capitalize (sf_name f)) fs'); [|by rewrite H].
  revert fs' Hn. induction fs as [|f fs IH]; intros [|f' fs'] Hn; try done. cbn in Hn. injection Hn as Hf Hfs. cbn [map_m]. by rewrite Hf, (IH fs' Hfs).
Qed.
Lemma cached_found c name fields s r : cache_of c s !! name = Some r -> cached_input c name fields s = (Ok r, s).
Proof. intros H. unfold cached_input, unless_cached, get_cached, reads, mbind, SM_bind, eff_bind. cbn. by rewrite H. Qed.
Lemma compound_type_made alias fs s r s' : state_ok s -> compound_field_unique_object_type alias fs s = (Ok r, s') ->
  exists name, compound_object_name (E := Empty_set) alias fs = Ok name /\ cached_as InputCache (name +:+ "CompoundUniqueInput") s' r /\
    (input_cache s !! (name +:+ "CompoundUniqueInput") = None -> exists ts, required_input_fields (E := Empty_set) fs = Ok ts /\ type_fields s' (name +:+ "CompoundUniqueInput") ts).
Proof.
  intros Hs (name & u & [= Hname <-] & H)%sm_bind_inv. exists name. split; [done|]. set (key := name +:+ "CompoundUniqueInput") in *.
  destruct (makes_cached_key s InputCache key (fun _ => lift (required_input_fields fs)) ltac:(done) (fun _ s' _ _ _ => required_fields_ok s' fs) Hs _ _ H) as (K & _ & Hc). split; [done|]. intros Hnew.
  apply sm_bind_inv in H as (o & u & [= <- <-] & H). cbn [cache_of] in H. rewrite Hnew in H. apply sm_bind_inv in H as (x & s1 & _ & H). apply sm_bind_inv in H as ([] & s2 & _ & H).
  apply sm_bind_inv in H as (ts & u & [= Hts <-] & H). apply sm_bind_inv in H as ([] & s3 & E3 & [= <- <-]). exists ts. split; [done|].
  destruct Hc as [_ Hc]. exists x. unfold set_fields in E3. destruct (input_cells s2 !! x) as [[n [y|]]|] eqn:Ex; [done| |done]. injection E3 as <-.
  eexists. split; [done|]. cbn. split; [apply list_lookup_insert_eq; by eapply lookup_lt_Some|done].
Qed.
(** C38: The types of compound keys are named after the name of the index or else after their fields only. When the type of a key has been made, every later key of the same name, or without a name and on fields of the same names, gets the same type, whatever the model and the types of its fields are: the type has the fields of the first key, with their types. *)
Theorem compound_key_types_shared s s1 s2 alias fs fs' r : state_ok s -> compound_field_unique_object_type alias fs s = (Ok r, s1) -> grow s1 s2 ->
  (alias = None -> sf_name <$> fs = sf_name <$> fs') ->
  compound_field_unique_object_type alias fs' s2 = (Ok r, s2) /\
  exists name, compound_object_name (E := Empty_set) alias fs = Ok name /\ input_cache s2 !! (name +:+ "CompoundUniqueInput") = Some r /\
    (input_cache s !! (name +:+ "CompoundUniqueInput") = None -> exists ts, required_input_fields (E := Empty_set) fs = Ok ts /\ type_fields s2 (name +:+ "CompoundUniqueInput") ts).
Proof.
  intros Hs H G Hn. destruct (compound_type_made _ _ _ _ _ Hs H) as (name & Hname & Hc & Hts). destruct (cached_grow_as _ _ _ _ _ G Hc) as [_ Hc2]. split.
  - unfold compound_field_unique_object_type. rewrite <-(compound_name_same alias fs fs' Hn), Hname. exact (cached_found InputCache _ _ s2 r Hc2).
  - exists name. split_and!; [done|done|]. intros Hnew. destruct (Hts Hnew) as (ts & Hr & Ht). exists ts. split; [done|by eapply type_fields_grow].
Qed.
End compound.

(** * Examples: the schema of the blog *)
#[local] Existing Instance sample_values.
#[local] Existing Instance sample_itertools.
#[local] Existing Instance sample_inflections.
Definition no_schema : QuerySchema := mkQuerySchema (OutScalar SchemaInt) (OutScalar SchemaInt) ∅ ∅ empty_idm.
Definition schema_of (idm : InternalDataModel) (mode : BuildMode) (raw : bool) : QuerySchema := match QuerySchemaBuilder_build idm [] mode raw with Ok qs => qs | _ => no_schema end.
Definition built_blog : QuerySchema := Eval vm_compute in schema_of blog_idm ModernMode true.
Lemma blog_built : QuerySchemaBuilder_build blog_idm [] ModernMode true = Ok built_blog.
Proof. vm_refl. Qed.
Lemma built_schema_closed_witness : schema_closed built_blog /\ qs_internal_data_model built_blog = blog_idm /\
  exists query mutation qfs mfs,
    query_object (E := Empty_set) built_blog = Ok query /\ mutation_object (E := Empty_set) built_blog = Ok mutation /\
    ot_fields query = mjoin qfs /\ ot_fields mutation = mjoin mfs ++ raw_fields true /\
    Forall2 (fun m fs => exists w, schema_type built_blog (qm_name m +:+ "WhereUniqueInput") w /\
      fld_query_builder <$> fs = builders m ([TagFindMany; TagAggregate] ++ when (has_fields w) TagFindOne)) (non_embedded_models blog_idm) qfs /\
    Forall2 (fun m fs => exists w c p,
      schema_type built_blog (qm_name m +:+ "WhereUniqueInput") w /\ schema_type built_blog (qm_name m +:+ "CreateInput") c /\
      (if has_fields w then exists u, schema_type built_blog (qm_name m +:+ "UpdateInput") u /\ p = has_fields u && has_fields c else p = false) /\
      fld_query_builder <$> fs =
      builders m ([TagCreateOne] ++ when (has_fields w) TagDeleteOne ++ when (has_fields w) TagUpdateOne ++ when p TagUpsertOne ++ [TagUpdateMany; TagDeleteMany])) (non_embedded_models blog_idm) mfs.
Proof. exact (built_schema_closed blog_idm [] ModernMode true built_blog blog_built). Defined.
Lemma type_builders_recursive_witness :
  filter_object_type blog_idm [] (blog_model "User") BuilderState_empty = build_filter_object blog_idm (filter_object_type blog_idm []) (blog_model "User") BuilderState_empty /\
  create_input_type blog_idm (blog_model "User") None BuilderState_empty = build_create_input blog_idm (create_input_type blog_idm) (blog_model "User") None BuilderState_empty.
Proof.
  assert (Hu : blog_model "User" ∈ idm_models blog_idm) by apply list_elem_of_here.
  destruct (type_builders_recursive blog_idm [] BuilderState_empty empty_ok) as (Hf & Hc & _). split; [exact (Hf _ Hu)|]. apply Hc. split; [exact Hu|exact I].
Defined.
(** The operations of the two schemas. *)
Definition operation_names (qs : QuerySchema) : list string :=
  match query_object (E := Empty_set) qs, mutation_object (E := Empty_set) qs with Ok q, Ok m => fld_name <$> ot_fields q ++ ot_fields m | _, _ => [] end.
Lemma blog_operations : operation_names built_blog =
  ["findManyUser"; "aggregateUser"; "findOneUser"; "findManyPost"; "aggregatePost"; "findOnePost"; "findManyTag"; "aggregateTag"; "findOneTag";
   "createOneUser"; "deleteOneUser"; "updateOneUser"; "upsertOneUser"; "updateManyUser"; "deleteManyUser"; "createOnePost"; "deleteOnePost"; "updateOnePost"; "upsertOnePost";
   "updateManyPost"; "deleteManyPost"; "createOneTag"; "deleteOneTag"; "updateOneTag"; "upsertOneTag"; "updateManyTag"; "deleteManyTag"; "executeRaw"; "queryRaw"].
Proof. vm_refl. Qed.
Lemma legacy_operations : operation_names (schema_of blog_idm LegacyMode false) =
  ["users"; "aggregateUser"; "user"; "posts"; "aggregatePost"; "post"; "tags"; "aggregateTag"; "tag"; "createUser"; "deleteUser"; "updateUser"; "upsertUser"; "updateManyUsers";
   "deleteManyUsers"; "createPost"; "deletePost"; "updatePost"; "upsertPost"; "updateManyPosts"; "deleteManyPosts"; "createTag"; "deleteTag"; "updateTag"; "upsertTag";
   "updateManyTags"; "deleteManyTags"].
Proof. vm_refl. Qed.
(** An operation from the data model to the answer: the schema is built, the document parsed against it, the graph built and run. *)
Lemma blogger_on_built_schema :
  let run db := execute show_parsed show_query_value show_strings show_output show_scalar show_enum sample_debug show_node (fun l => l) 10 no_json (fun n => JsonNum (Z.of_nat n)) PV_Null built_blog
    false (OpWrite (mkSelection "createOneUser" None [("data", QV_Object [("id", QV_Int 1); ("posts", QV_Object [("create", QV_Object [("id", QV_Int 7)])])])] [select "id"])) db in
  (run (mkLogDb [] None)).2 = mkLogDb ["User"; "Post"] None /\
  (r ← (run (mkLogDb [] None)).1; Ok (data r)) = Ok [("createOneUser", ItemRef (ItemMap [("id", ItemValue (PV_Int 1))]))].
Proof. split; vm_refl. Qed.

(** ** Compound keys *)
Definition keyed_model (name : string) (x : ScalarType) : Model :=
  mkModel name [id_field; mkField "x" (Base x None) RequiredField None None false false None false false false;
                mkField "y" (Base ScalarInt None) RequiredField None None false false None false false false] None None false [mkIndexDefinition None ["x"; "y"] UniqueIndex] [] false false.
Definition keyed_idm : InternalDataModel := Eval vm_compute in
  match t ← Convert.convert (IT := sample_itertools) (E := DomainError) (mkDatamodel [] [keyed_model "A" ScalarInt; keyed_model "B" ScalarString]);
    InternalDataModelTemplate_build t "db" with
  | Ok idm => idm
  | _ => empty_idm
  end.
(** The type of the field [x] in the unique filter of a model by [x] and [y]. *)
Definition key_type (qs : QuerySchema) (model : string) : option InputType :=
  o ← iter_find (fun o => iot_name o ≟ model +:+ "WhereUniqueInput") ((map_to_list (input_object_types qs)).*2);
  f ← iot_find_field o "x_y";
  match if_type f with
  | InOpt (InObject r) => c ← input_object_types qs !! r; x ← iot_find_field c "x"; Some (if_type x)
  | _ => None
  end.
Lemma keyed_schema_shares : key_type (schema_of keyed_idm ModernMode false) "A" = Some (InScalar SchemaInt) /\ key_type (schema_of keyed_idm ModernMode false) "B" = Some (InScalar SchemaInt) /\
  sf_type_identifier <$> iter_find (fun f => sf_name f ≟ "x") (m ← iter_filter (fun m => qm_name m ≟ "B") (idm_models keyed_idm); scalar (qm_fields m)) = Some TI_String.
Proof. split_and!; vm_refl. Qed.
Definition key_fields (model : string) : list ScalarField := m ← iter_filter (fun m => qm_name m ≟ model) (idm_models keyed_idm); iter_filter (fun f => negb (sf_name f ≟ "id")) (scalar (qm_fields m)).
Definition key_state : BuilderState := (compound_field_unique_object_type None (key_fields "A") BuilderState_empty).2.
(** A filter is built in between. *)
Definition later_state : BuilderState := (filter_object_type keyed_idm [] (default (blog_model "User") (head (idm_models keyed_idm))) key_state).2.
Lemma compound_key_types_shared_witness : sf_type_identifier <$> key_fields "A" = [TI_Int; TI_Int] /\ sf_type_identifier <$> key_fields "B" = [TI_String; TI_Int] /\
  length (input_cells key_state) = 1 /\ length (input_cells later_state) = 2 /\ compound_field_unique_object_type None (key_fields "B") later_state = (Ok 0, later_state) /\
  type_fields later_state "XYCompoundUniqueInput" [mkInputField "x" (InScalar SchemaInt) None; mkInputField "y" (InScalar SchemaInt) None].
Proof.
  do 4 (split; [vm_refl|]). assert (Hfirst : compound_field_unique_object_type None (key_fields "A") BuilderState_empty = (Ok 0, key_state)) by vm_refl.
  assert (Hok : state_ok key_state) by exact (proj1 (compound_type_ok _ _ _ empty_ok _ _ Hfirst)).
  assert (Hthen : filter_object_type keyed_idm [] (default (blog_model "User") (head (idm_models keyed_idm))) key_state = (Ok 1, later_state)) by vm_refl.
  assert (Hgrow : grow key_state later_state) by exact (proj1 (proj2 (filter_type_ok _ _ _ _ Hok _ _ Hthen))).
  destruct (compound_key_types_shared BuilderState_empty key_state later_state None (key_fields "A") (key_fields "B") 0 empty_ok Hfirst Hgrow) as (H1 & name & H2 & _ & H4); [intros _; vm_refl|].
  split; [exact H1|]. vm_compute in H2. injection H2 as <-. destruct (H4 eq_refl) as (ts & Hts & Ht). vm_compute in Hts. injection Hts as <-. exact Ht.
Defined.
